(* ===== verification/_CoqProject ===== *)
-Q . S2P
Prelude.v
Net.v
Decode.v
Synth.v
Text.v
Events.v
Body.v
Sse.v
HttpParser.v
Counters.v
BTree.v
OrdMap.v
Reassembly.v
TcpFlow.v
Dispatch.v
Joiner.v
Utf8.v
Calls.v
Turns.v
Tracker.v
Dims.v
Active.v
Bucket.v
Aggregator.v
MetricsStage.v
Throttle.v
Sink.v
Json.v
ProxyPair.v
JsonSample.v
Sweeper.v
Dialect.v
Spl.v
Calendar.v
Disk.v
PcapDump.v
DumpSinks.v
DumpSafety.v
DumpContents.v
PcapRetention.v
Heartbeat.v
CloudProbe.v
CaptureLoops.v
Sigscan.v
EbpfTargets.v
EbpfProg.v
EbpfPump.v
EbpfStream.v
PcapExtract.v
ExtractSpec.v
Wire.v
Estimator.v
Readers.v
OpenAiChat.v
Responses.v
Anthropic.v
Gemini.v
WireApis.v
Classifier.v
Profile.v
SessionId.v
Agents.v
AgentRegistry.v
Processor.v
ProcessorSpec.v
LlmStage.v
ReadPath.v
Export.v
StoreRows.v
Api.v
ApiMetrics.v
ApiStore.v
ApiTurns.v
ApiProxy.v
ExportApi.v
HecClient.v
