(* ===== verification/Prelude.v ===== *)
(** * Heron: a verification of the traffic pipeline

    Heron watches network traffic of LLM clients and servers, reassembles it into
    HTTP exchanges, recognises LLM calls in them, groups the calls of an agent
    into turns, aggregates metrics, and stores and queries what it found.  This
    development models the pipeline's own logic (src/server/) as executable
    definitions and proves what makes each part correct.

    ** The pipeline and the files that model it

    Each row names the file, what it models, and the source.

    - [Prelude]: outcomes of code that can panic ([res]), machine integers as [Z]
      with the wrap-around written out, bytes, searching and summing lists, stable
      sorting, tactics, hints.
    - [Net]: flow keys and their normalisation, parsed and raw packets, TCP
      flags, heartbeats (h-protocol/src/net.rs, h-capture/src/packet.rs,
      h-common/src/process.rs).
    - [Decode]: the packet decoder: cursor, header layouts, L2/L3/L4, [decode]
      (h-protocol/src/de/).
    - [Synth]: frames synthesised from plaintext of the eBPF probes, and the
      connections' placeholder addresses (h-capture/src/synth.rs).
    - [Text]: what the code uses of the standard library on strings and bytes:
      UTF-8 validation, searching, trimming, case, numbers.
    - [Events]: the events of the protocol stage (h-protocol/src/model.rs).
    - [Body], [Sse], [HttpParser]: body framing and decoding, server-sent
      events, and the HTTP/1.x parser's state machine (h-protocol/src/http.rs).
    - [Counters]: the diagnostic counters (h-common/src/internal_metrics.rs) and
      hash-map iteration in an unspecified order.
    - [BTree], [OrdMap]: ordered maps (std BTreeMap), over integers and over any
      ordered key.
    - [Reassembly]: one direction of a TCP connection: in-order buffer and
      bounded out-of-order map ([DirState], [append_payload], [drain_ooo] of
      h-protocol/src/tcp.rs).
    - [TcpFlow]: a connection and the worker that owns a table of them
      ([TcpFlow], [FlowWorker] of h-protocol/src/tcp.rs).
    - [Dispatch]: the dispatcher that decodes and routes packets to workers
      (h-protocol/src/flow.rs, h-capture/src/routing.rs).
    - [Joiner]: the pairing of requests and responses into exchanges
      (h-protocol/src/joiner.rs).
    - [Calls]: the records of LLM calls and their classification
      (h-llm/src/model.rs, h-common/src/agent.rs).
    - [Turns], [Tracker]: a turn as the rollup of its calls, and the tracker that
      partitions sessions into turns (h-turn/src/model.rs, tracker.rs, and the
      input loop of stage.rs).
    - [Dims], [Active], [Bucket]: metric dimensions, the shared table of calls in
      flight, and the bucket of one window (h-metrics/src/aggregator.rs,
      active.rs, bucket.rs, model.rs).
    - [Aggregator], [MetricsStage]: one shard's windows and their drain, and the
      shards interleaved over the shared table (h-metrics/src/aggregator.rs,
      stage.rs).

    - [Utf8]: the character boundaries of a valid text, for the code that cuts
      texts at bytes.
    - [Json], [JsonSample]: [serde_json] values and the readers the code uses on
      them; a concrete library for the witnesses.
    - [Wire]: the [WireApi] trait as a record, and the registry that detects an
      exchange's API in two passes (h-llm/src/model.rs, wire_api_registry.rs).
    - [Estimator]: the text counted where a response carries no usage
      (h-llm/src/token_estimator.rs).
    - [Readers], [OpenAiChat], [Responses], [Anthropic], [Gemini], [WireApis]: the
      four wire APIs, what they share, and the default registry
      (h-llm/src/wire_apis/).
    - [Classifier], [Profile], [SessionId], [Agents], [AgentRegistry]: agent
      classification, the profiles' interface, derived session ids, the profiles
      and their registry (h-llm/src/agent_classifier.rs, agent_primitives.rs,
      profile.rs, agents/).
    - [Processor], [ProcessorSpec]: from an exchange to a call record, and what
      the processor guarantees (h-llm/src/processor.rs).
    - [LlmStage], [ReadPath]: the LLM worker's loop and its fan-out
      (h-llm/src/stage.rs); classifying a stored call again.
    - [ProxyPair], [Sweeper]: turns that are one call seen twice, and the sweeps
      that annotate them (h-turn/src/proxy_pair.rs,
      h-storage/src/pair_sweeper.rs).
    - [Throttle], [Sink]: throttled warnings, and the storage sink: four write
      buffers over one store (h-common/src/throttle.rs, h-storage/src/buffer.rs,
      sink.rs).
    - [Dialect], [Spl]: the filters of metrics queries, for the SQL stores and for
      aglake (h-storage/src/dialect.rs, h-storage-aglake/src/spl.rs, dims.rs).
    - [HecClient]: the writer of events to aglake: requests, retries and
      acknowledgements ([HecClient] of h-storage-aglake/src/client.rs).
    - [Calendar]: the minutes that name packet dumps (h-capture/src/pcap_dump.rs,
      and its copy h-pcap-extract/src/format.rs).
    - [Disk]: what the dumps use of a file system and of [BufWriter]: paths, open
      files that outlive their names, calls that fail as an oracle says.
    - [PcapDump]: the dumper: names, the pcap format, sinks, rotation, errors
      (h-capture/src/pcap_dump.rs, h-common/src/path.rs); [DumpSinks],
      [DumpSafety] and [DumpContents] hold its theorems.
    - [PcapRetention]: the sweep of old dump files (h-capture/src/pcap_retention.rs).
    - [Heartbeat], [CloudProbe], [CaptureLoops]: the heartbeat tracker, the cloud
      probe's batches, and the loops of the sources: cloud probe, live interface,
      pcap file (h-capture/src/heartbeat.rs, cloud_probe.rs, pcap_live.rs,
      pcap_file.rs).
    - [EbpfProg], [EbpfPump]: the kernel's SSL probes and the records they write
      (h-ebpf-prog/src/main.rs, h-ebpf-common/src/lib.rs); the loader that decodes
      them and makes frames of them (h-capture/src/ebpf/mod.rs, source.rs);
      [EbpfStream] follows the plaintext through both.
    - [Sigscan], [EbpfTargets]: signatures in executables, and the passes that
      keep probes on the live inodes of the targets (h-capture/src/ebpf/sigscan.rs,
      source.rs).
    - [PcapExtract]: the extraction of packets from dump files
      (h-pcap-extract/src/, the checks of h-api/src/routes/pcap_extract.rs);
      [ExtractSpec] holds its theorems, over dumps written by [PcapDump].
    - [Export]: stored requests and responses as conversations for fine-tuning
      (h-export/src/).
    - [StoreRows]: what the stores share: columns read and written, cursors,
      retention, the guess at a service's software (h-storage/src/convert.rs,
      query.rs, retention.rs, classify.rs).
    - [Api], [ApiStore]: the parameters and errors of the HTTP API, and the
      storage as its handlers query it (h-api/src/params.rs, response.rs,
      h-storage/src/query.rs); [ApiMetrics], [ApiTurns], [ApiProxy] and
      [ExportApi] are the handlers of metrics over time, turns, the proxy view and
      exports (h-api/src/routes/metrics.rs, traces.rs, export.rs).

    A packet goes through [Dispatch.dispatch] to one [TcpFlow.FlowWorker], whose
    flows append it to a [Reassembly.DirState] and run [HttpParser.parse] over
    the two buffers; the events go to [Joiner.joiner_process]; [LlmStage.llm_step]
    hands the joined exchanges to [Processor.process], which asks
    [Wire.detect] for the API and the [AgentRegistry] for the agent, and sends
    [Calls.AgentCall]s to [Tracker.shard_step], [Calls.LlmEvent]s to
    [MetricsStage.stage_step] and records to [Sink.sink_step].  Heartbeats take
    the same way and drive every clock.  [Sweeper.sweep_once] and the queries of
    [Dialect] and [Spl] work on what was stored.  The packets come from the loops
    of [CaptureLoops] or, for the SSL probes, from [EbpfProg.probe] through
    [EbpfPump.on_event] and [Synth.data].  Beside this, the packets of a
    source go to [PcapDump.write]; [PcapRetention.run_sweep] and
    [PcapExtract.prepare] work on the files.  The API's handlers read what was
    stored through [ApiStore.ApiStore], with the tracker's turns in progress beside
    it, and export it through [Export].

    ** How the code is modelled

    State is passed explicitly: a method that takes [&mut self] returns the new
    state with its result, a method that pushes to an output vector returns the
    list it pushes.  A call that can unwind its task ([split_to] out of range,
    [expect], [assert!]) is a [Panic]; loops that are not structural carry fuel,
    and [OutOfFuel] marks its end.  Fuel is always one more than a measure of the
    input (bytes left, entries of a map, states times buffered bytes, events times
    tries), and a
    theorem of the file shows that it is enough: no definition ever returns
    [OutOfFuel] on a well-formed state.

    Doubles are the standard library's [spec_float] at binary64's precision.
    Integers are [Z].  Sequence numbers, ports, header fields, chunk sizes and
    saturating counters keep their widths ([wrap], [u32_add], [swrap], ...);
    timestamps (microseconds in [i64]) and the 64-bit event counters are
    unbounded, since no run gets near their limits.  Texts are byte strings
    ([text]), identifiers are [string]s.  Wall-clock instants are integers whose
    difference saturates at zero, as [duration_since] does.

    Code that is not the repository's own is a parameter with the laws the code
    relies on: content decompression (class [Body.Flate]), the HTTP head parser
    ([HttpParser.HttpParse] and [HttpParseLaws]), hashing ([Dispatch.Hasher],
    [SessionId]'s and [LlmStage]'s hashers), UUIDs ([Joiner.UuidSupply],
    [UuidLaws]), hash-map iteration ([Counters.HashIter], [HashIterLaws]), the
    t-digest ([Bucket.TDigest]), [serde_json]'s numbers and text
    ([Json.JsonNumber], [JsonText]), the tokeniser ([Estimator.TokenEstimator]),
    timers ([Sink.Interval], [IntervalLaws]), and the stores, known by the trait's
    operations and by how they read literals ([Sweeper.PairStore], whose calls may
    fail, [Sink.SinkBackend], [Dialect.SqlStrings], [Spl.SplLanguage]), aglake
    behind its event collector ([HecClient.HecWorld], [HecFormats], [HecLaws]), the
    snappy
    frames of compressed dumps ([PcapDump.FrameEncoder], [FrameLaws]), the
    order of a directory's listing ([PcapRetention.ReadDir], [ReadDirLaws]), the
    links of executables in [/proc] ([EbpfPump.ProcFs]) and the library that
    attaches probes ([EbpfTargets.UprobeApi], [UprobeLaws]).  What a kernel probe
    finds when it runs (space in the ring and in the maps, the clock, the names of
    processes, the bytes of user memory) is given with the call.  The HTTP API
    adds the signed readings of JSON numbers ([StoreRows.JsonSigned],
    [JsonSignedLaws]), the queries of the storage ([ApiStore.ApiStore], whose
    answers within one request come from one state), and what the http library
    takes as a header's value.  Each has a
    concrete instance that the witnesses run on.  [httparse]'s laws say that a
    complete head is not empty and lies within the buffer.

    ** What the theorems show

    - Decoding: the cursor computes a list-based reference decoder
      ([Decode.decode_refines_spec]), terminates with fields in range, and
      ignores VLAN tags; synthesised frames decode to what they were made from.
    - Bodies and events: chunked bodies and event streams round-trip however
      they are cut ([Body.chunked_roundtrip], [Sse.sse_roundtrip]); a read panics
      exactly on one overflow ([Body.read_panics_iff_overflow]).
    - Parser: every call of [parse] returns ([HttpParser.parse_total]), its
      events alternate, and a complete exchange comes out as itself
      ([parse_exchange], [parse_sse_exchange]).
    - Reassembly: whatever arrives, the buffer is a prefix of the stream
      ([Reassembly.reassembly_in_order]); when everything has arrived, nothing was
      evicted, no retransmission was shorter than what it repeats and the sequence
      numbers did not wrap it is the whole stream ([reassembly_complete]); memory
      is bounded.
    - Flows and workers: invariants, isolation of sources, exact eviction of
      silent flows, no response or event without its request.
    - Dispatch: both directions of a connection meet at one worker.
    - Joiner: exchanges come out exactly when the trace of events pairs them
      ([Joiner.exchanges_exact], a specification on traces alone); everything is
      accounted for; identifiers are unique.
    - Turns: no call is lost or counted twice
      ([Tracker.shard_accounts_for_every_call]); sessions are cut at their
      terminals, not before the grace ([finalize_session_partitions]) and not
      after it ([grace_closes_terminals]); shutdown drains; a turn is the rollup
      of its calls ([Turns.build_turn_rollup]).
    - Metrics: however the shards interleave, the rows of a key sum to what the
      events add, field by field, and the in-flight counters equal the open calls
      ([MetricsStage.stage_conserves], [Active.active_counts_exact]); a pair of
      source and granularity drains exactly when it is due
      ([Aggregator.drain_cadence]).

    - LLM calls: detection is the two-pass relation ([Wire.detect_refines_two_pass])
      and the built-in APIs' order is what it should be
      ([WireApis.default_detection_order]); streams assemble into the response
      they carry and read back from what is stored ([OpenAiChat.chat_sse_assembles],
      [chat_sse_reads_back], [Anthropic.anthropic_blocks_by_index],
      [anthropic_sse_reads_back], [Gemini.gemini_sse_assembles]); a derived
      session is stable over a conversation
      ([AgentRegistry.generic_session_stable], [Responses.responses_sig_stable]);
      a request is announced exactly when its exchange becomes a call
      ([ProcessorSpec.start_complete_agree]); counts stay 32-bit; bodies are
      capped at character boundaries ([Processor.cap_body_spec]); each event
      reaches its destinations ([LlmStage.exchange_fan_out]) and a stored call is
      classified as it was live ([ReadPath.stored_call_reclassifies]).
    - Pairing: the groups are those of a relational specification, chains of
      close turns led by the earliest ([ProxyPair.groups_of_chains]), which is the
      documented one where closeness does not chain and a widest leg exists
      ([ProxyPair.proxy_groups_exact]); sweeps converge and tag nothing twice
      however the store's calls fail ([Sweeper.sweeps_converge]).
    - Storage: the sink accounts for everything it receives
      ([Sink.sink_accounts]) and nothing waits longer than the interval
      ([Sink.buffered_in_time]); a filter's values cannot change a query
      ([Dialect.where_reads_back]), a filtered query counts a call once
      ([Dialect.sql_counts_once]), and aglake selects what SQL selects
      ([Spl.aglake_selects_what_sql_selects]); a write to aglake delivers its
      events at least once, and exactly once where acknowledgements decide
      ([HecClient.send_delivers]).
    - Packet dumps: a file name parses to a minute exactly when it is that
      minute's label ([Calendar.minute_label_roundtrip]), and the days behind it
      follow the Gregorian calendar; however the disk fails, the dumper neither
      panics nor loses what a file held ([DumpSafety.dump_never_destroys]); where
      it does not fail each file holds its minute's packets, and the torn record
      of a failed write is there to see ([DumpContents.dump_holds_its_packets]);
      a sweep deletes what the configuration says, the size limit being met for
      the whole directory where it holds only old dumps
      ([PcapRetention.sweep_exact]; in general [sweep_outcome]) and never anything
      else ([PcapRetention.sweep_spares]).
    - Capture: a batch is read without panicking and accepted exactly when it is
      laid out as one, and otherwise the error says where it is cut short and by
      how much ([CloudProbe.parse_batch_exact]); a source forwards what it
      accepts and hands it to the dumper ([CaptureLoops.probe_run_forwards],
      [replay_passes_apart]); heartbeats go out when a source's time has moved on
      by a second, and in order ([Heartbeat.tracker_paces],
      [CaptureLoops.live_clock]).
    - eBPF: whatever the ring drops, what is reassembled of a connection is a
      contiguous part of its plaintext, and all of it when nothing is dropped
      ([EbpfStream.ssl_plaintext_reassembles]); every record is accounted for
      ([EbpfStream.ring_accounts]); a signature is found exactly where it occurs
      ([Sigscan.scan_exact]); as inodes come and go every live link of a probe is
      held by an inode or is one whose detach failed
      ([EbpfTargets.rescan_tracks_links]).
    - Extraction: a stream ends, and merges the matches of the files
      ([ExtractSpec.extraction_merges]); a dump that is extracted gives the
      packets it was given ([ExtractSpec.extraction_returns_the_dump]).

    - API: a metrics response has one point of each series for each instant of
      its grid, and holds the stored rows ([ApiMetrics.timeseries_pivots]); the
      list of turns joins the stored turns and those in progress
      ([ApiTurns.turns_list_unions]); the headers of two legs are told apart
      ([ApiProxy.header_diff_classifies]) and the legs of a call show one view
      ([ApiProxy.view_same_from_each_leg]); lists and cursors round-trip
      ([Api.csv_roundtrip], [StoreRows.cursor_roundtrip]).
    - Export: an Anthropic exchange keeps its text, its tool calls and their
      results ([Export.anthropic_export_keeps]); an exported conversation reads
      again ([Export.export_reads_again]); a truncated body is never exported
      ([ExportApi.truncated_never_exported]) and a batch accounts for every turn
      it was asked for ([ExportApi.batch_accounts]).

    Examples at the end of [Reassembly], [Sse], [TcpFlow], [Joiner], [Tracker],
    [AgentRegistry], [ProxyPair], [Sweeper], [Sink], [Dialect], [DumpContents],
    [PcapRetention], [ExtractSpec], [EbpfStream], [Sigscan], [HecClient], [Export],
    [StoreRows], [ApiMetrics] and [ApiProxy] evaluate inputs on which the code
    departs from what its comments promise.

    ** What is not modelled

    Tracing output, [Display] of records, channel back-pressure and task
    scheduling; what libpcap, ZeroMQ and aya do (opening devices, sockets and
    programs, the search for libssl); the storage backends' connections, schemas
    and row formats, which are SQL and HTTP text for external databases; axum's
    parsing of queries and routing, the envelopes of responses, the handlers that
    only pass a storage's answer on, the command line and the console; the loading
    and editing of configuration, which is serde's and toml's work; and the
    reporter of internal metrics. *)

From Stdlib Require Import Strings.Byte ZArith Lia.
From Stdlib Require Import Strings.String.
From stdpp Require Import base gmap sets list strings sorting.

Open Scope Z_scope.

Declare Scope heron_scope.
Delimit Scope heron_scope with heron.
Open Scope heron_scope.

(** ** Outcome of code that can panic

    Rust code that reaches an out-of-range [split_to] or an [expect] on [None]
    unwinds the worker task.  [OutOfFuel] is the artefact of a fuelled loop; a
    theorem of the component that owns the loop shows it is never reached. *)
Inductive res (A : Type) : Type :=
| Ret (a : A)
| Panic
| OutOfFuel.
Arguments Ret {A} a.
Arguments Panic {A}.
Arguments OutOfFuel {A}.

Definition res_bind {A B : Type} (m : res A) (k : A → res B) : res B :=
  match m with
  | Ret a => k a
  | Panic => Panic
  | OutOfFuel => OutOfFuel
  end.

Notation "'let*' p := m 'in' k" := (res_bind m (λ p, k))
  (at level 10, p pattern, m at level 100, k at level 200)
  : heron_scope.

(** ** Machine integers, kept as [Z] with the wrap-around written out *)

(** [x as uW] / [wrapping_*] on an unsigned [W]-bit integer. *)
Definition wrap (w z : Z) : Z := z `mod` 2 ^ w.

(** [x as iW]: the two's complement reading of the low [W] bits. *)
Definition swrap (w z : Z) : Z := (z + 2 ^ (w - 1)) `mod` 2 ^ w - 2 ^ (w - 1).

Definition u32_add (a b : Z) : Z := wrap 32 (a + b).
Definition u32_sub (a b : Z) : Z := wrap 32 (a - b).
Definition u32_sat_add (a b : Z) : Z := Z.min (a + b) (2 ^ 32 - 1).
Definition u64_sat_add (a b : Z) : Z := Z.min (a + b) (2 ^ 64 - 1).
Definition sat_sub (a b : Z) : Z := Z.max 0 (a - b).

(** [now.duration_since(t)]. *)
Definition duration_since (now t : Z) : Z := Z.max 0 (now - t).

(** Rust's [/] on signed integers truncates towards zero. *)
Definition tdiv (a b : Z) : Z := Z.quot a b.

(** ** Bytes *)

#[global] Instance byte_eq_dec : EqDecision byte := Byte.byte_eq_dec.

Definition byteZ (b : byte) : Z := Z.of_N (Byte.to_N b).
Definition Zbyte (z : Z) : byte :=
  match Byte.of_N (Z.to_N (z `mod` 256)) with
  | Some b => b
  | None => x00
  end.

(** A byte-string literal: [B "GET "] is Rust's [b"GET "]. *)
Definition B (s : string) : list byte := String.list_byte_of_string s.

(** [uW::from_be_bytes] and [to_be_bytes]. *)
Fixpoint be_combine_acc (acc : Z) (l : list byte) : Z :=
  match l with
  | [] => acc
  | b :: l' => be_combine_acc (acc * 256 + byteZ b) l'
  end.
Definition be_combine (l : list byte) : Z := be_combine_acc 0 l.

Fixpoint be_bytes (n : nat) (z : Z) : list byte :=
  match n with
  | O => []
  | S n' => be_bytes n' (z / 256) ++ [Zbyte z]
  end.

(** [uW::from_le_bytes] and [to_le_bytes]. *)
Fixpoint le_combine (l : list byte) : Z :=
  match l with
  | [] => 0
  | b :: l' => byteZ b + 256 * le_combine l'
  end.
Fixpoint le_bytes (n : nat) (z : Z) : list byte :=
  match n with
  | O => []
  | S n' => Zbyte z :: le_bytes n' (z / 256)
  end.

(** [Iterator::find_map] and [Iterator::position]. *)
Fixpoint find_map {A C : Type} (f : A → option C) (l : list A) : option C :=
  match l with
  | [] => None
  | x :: l' => match f x with Some y => Some y | None => find_map f l' end
  end.
Fixpoint position {A : Type} (f : A → bool) (l : list A) : option nat :=
  match l with
  | [] => None
  | x :: l' => if f x then Some 0%nat else S <$> position f l'
  end.

Lemma find_map_head_omap {A C : Type} (f : A → option C) (l : list A) :
  find_map f l = head (omap f l).
Proof. induction l as [|x l IH]; [done|]. cbn. rewrite IH. by destruct (f x). Qed.

Lemma position_app_no {A : Type} (f : A → bool) (l1 l2 : list A) :
  Forall (λ x, f x = false) l1 → position f (l1 ++ l2) = (λ i, (length l1 + i)%nat) <$> position f l2.
Proof.
  induction 1 as [|x l1 Hx _ IH]; cbn [app position].
  - by destruct (position f l2).
  - rewrite Hx, IH. by destruct (position f l2).
Qed.

Lemma position_none {A : Type} (f : A → bool) (l : list A) :
  Forall (λ x, f x = false) l → position f l = None.
Proof. intros H. rewrite <- (app_nil_r l), position_app_no by done. done. Qed.

(** [Option::is_some_and], [Option::is_none_or] and lengths as [Z]. *)
Definition is_some_and {A : Type} (f : A → bool) (o : option A) : bool :=
  match o with Some a => f a | None => false end.
Definition zlen {A : Type} (l : list A) : Z := Z.of_nat (length l).
#[global] Arguments zlen : simpl never.

(** [sort_by_key], which is stable, as an insertion sort; and [Iterator::max]. *)
Section SortByKey.
Context {A : Type} (key : A → Z).

Fixpoint insert_by_key (x : A) (l : list A) : list A :=
  match l with
  | [] => [x]
  | y :: l' => if key x <=? key y then x :: l else y :: insert_by_key x l'
  end.
Definition sort_by_key (l : list A) : list A := foldr insert_by_key [] l.
End SortByKey.

(** [Ordering::then_with]; [Iterator::min_by], the first of the least. *)
Definition then_cmp (a b : comparison) : comparison := match a with Eq => b | _ => a end.
Definition min_by {A : Type} (cmp : A → A → comparison) (l : list A) : option A :=
  match l with
  | [] => None
  | x :: l' => Some (foldl (λ x y, match cmp x y with Gt => y | _ => x end) x l')
  end.

Definition list_max_Z (l : list Z) : option Z :=
  match l with
  | [] => None
  | x :: l' => Some (foldl Z.max x l')
  end.

(** ** Tactics *)

(** Split every conjunction and existential of the context. *)
Ltac split_hyps :=
  repeat match goal with
  | H : _ ∧ _ |- _ => destruct H
  | H : ∃ _, _ |- _ => destruct H
  end.

(** Resolve boolean comparisons of the context into linear facts. *)
Ltac zify_bool :=
  repeat match goal with
  | H : (_ =? _) = true |- _ => apply Z.eqb_eq in H
  | H : (_ =? _) = false |- _ => apply Z.eqb_neq in H
  | H : (_ <? _) = true |- _ => apply Z.ltb_lt in H
  | H : (_ <? _) = false |- _ => apply Z.ltb_ge in H
  | H : (_ <=? _) = true |- _ => apply Z.leb_le in H
  | H : (_ <=? _) = false |- _ => apply Z.leb_gt in H
  | H : _ && _ = true |- _ => apply andb_prop in H; destruct H
  | H : _ || _ = false |- _ => apply orb_false_elim in H; destruct H
  | H : negb _ = true |- _ => apply negb_true_iff in H
  | H : negb _ = false |- _ => apply negb_false_iff in H
  | H : bool_decide _ = true |- _ => apply bool_decide_eq_true in H
  | H : bool_decide _ = false |- _ => apply bool_decide_eq_false in H
  end.

(** Case on the scrutinee of the first [match] or [if] of the goal. *)
Ltac break_match :=
  match goal with
  | |- context [match ?x with _ => _ end] => destruct x eqn:?
  end.
Ltac break_match_in H :=
  match type of H with
  | context [match ?x with _ => _ end] => destruct x eqn:?
  end.

(** Case on an integer comparison of the goal; impossible cases go by [lia]. *)
Ltac zcase :=
  match goal with
  | |- context [?a <=? ?b] => destruct (Z.leb_spec a b); try (exfalso; lia)
  | |- context [?a <? ?b] => destruct (Z.ltb_spec a b); try (exfalso; lia)
  | |- context [?a =? ?b] => destruct (Z.eqb_spec a b); try (exfalso; lia)
  end.

(** ** Lemmas on wrap-around *)

Lemma wrap_range (w z : Z) : 0 <= w → 0 <= wrap w z < 2 ^ w.
Proof. intros ?. apply Z.mod_pos_bound. lia. Qed.

Lemma wrap_small (w z : Z) : 0 <= z < 2 ^ w → wrap w z = z.
Proof. apply Z.mod_small. Qed.

Lemma swrap_range (w z : Z) : 0 < w → - 2 ^ (w - 1) <= swrap w z < 2 ^ (w - 1).
Proof.
  intros ?. unfold swrap.
  pose proof (Z.mod_pos_bound (z + 2 ^ (w - 1)) (2 ^ w) ltac:(lia)).
  assert (2 ^ w = 2 * 2 ^ (w - 1)); [|lia].
  rewrite <- Z.pow_succ_r by lia. f_equal. lia.
Qed.

Lemma swrap_small (w z : Z) :
  0 < w → - 2 ^ (w - 1) <= z < 2 ^ (w - 1) → swrap w z = z.
Proof.
  intros Hw ?. unfold swrap.
  assert (2 ^ w = 2 * 2 ^ (w - 1)).
  { rewrite <- Z.pow_succ_r by lia. f_equal. lia. }
  rewrite Z.mod_small; lia.
Qed.

(** The signed distance [seq.wrapping_sub(expected) as i32] is the true
    difference whenever that difference fits 31 bits. *)
Lemma swrap_u32_sub (a b : Z) :
  - 2 ^ 31 <= a - b < 2 ^ 31 → swrap 32 (u32_sub a b) = a - b.
Proof.
  intros ?. unfold swrap, u32_sub, wrap.
  rewrite Zplus_mod_idemp_l, Z.mod_small; lia.
Qed.

(** ** Lemmas on bytes *)

Lemma byteZ_range (b : byte) : 0 <= byteZ b < 256.
Proof.
  unfold byteZ. pose proof (Byte.to_N_bounded b). lia.
Qed.

Lemma byteZ_Zbyte (z : Z) : byteZ (Zbyte z) = z `mod` 256.
Proof.
  unfold byteZ, Zbyte. pose proof (Z.mod_pos_bound z 256 ltac:(lia)).
  destruct (Byte.of_N (Z.to_N (z `mod` 256))) as [b|] eqn:E.
  - apply Byte.to_of_N in E. rewrite E. lia.
  - apply Byte.of_N_None_iff in E. lia.
Qed.

Lemma byteZ_inj (a b : byte) : byteZ a = byteZ b → a = b.
Proof.
  unfold byteZ. intros H. apply N2Z.inj in H.
  pose proof (Byte.of_to_N a) as Ha. pose proof (Byte.of_to_N b) as Hb.
  rewrite H in Ha. congruence.
Qed.

Lemma Zbyte_byteZ (b : byte) : Zbyte (byteZ b) = b.
Proof.
  apply byteZ_inj. rewrite byteZ_Zbyte. apply Z.mod_small, byteZ_range.
Qed.

Lemma length_be_bytes (n : nat) (z : Z) : length (be_bytes n z) = n.
Proof.
  revert z; induction n as [|n IH]; intros z; [done|].
  simpl. rewrite length_app, IH. simpl. lia.
Qed.

Lemma be_combine_acc_app (l l' : list byte) (acc : Z) :
  be_combine_acc acc (l ++ l') = be_combine_acc (be_combine_acc acc l) l'.
Proof. revert acc; induction l as [|b l IH]; intros acc; [done|]. apply IH. Qed.

Lemma be_combine_be_bytes (n : nat) (z : Z) :
  0 <= z < 256 ^ Z.of_nat n → be_combine (be_bytes n z) = z.
Proof.
  unfold be_combine. revert z; induction n as [|n IH]; intros z Hz.
  - simpl in *. lia.
  - rewrite Nat2Z.inj_succ, Z.pow_succ_r in Hz by lia.
    simpl. rewrite be_combine_acc_app, IH.
    + simpl. rewrite byteZ_Zbyte. pose proof (Z.div_mod z 256). lia.
    + split; [apply Z.div_pos; lia|]. apply Z.div_lt_upper_bound; lia.
Qed.

Lemma length_le_bytes (n : nat) (z : Z) : length (le_bytes n z) = n.
Proof. revert z; induction n as [|n IH]; intros z; [done|]. cbn. by rewrite IH. Qed.

Lemma le_combine_le_bytes (n : nat) (z : Z) : le_combine (le_bytes n z) = z `mod` 256 ^ Z.of_nat n.
Proof.
  revert z; induction n as [|n IH]; intros z; [by rewrite Z.mod_1_r|].
  cbn [le_bytes le_combine]. rewrite IH, byteZ_Zbyte, Nat2Z.inj_succ, Z.pow_succ_r by lia.
  rewrite Z.rem_mul_r by lia. done.
Qed.

Lemma le_combine_nonneg (l : list byte) : 0 <= le_combine l.
Proof. induction l as [|b l IH]; cbn [le_combine]; [lia|]. pose proof (byteZ_range b). lia. Qed.

Lemma be_combine_acc_bound (l : list byte) (acc : Z) :
  0 <= acc → 0 <= be_combine_acc acc l < (acc + 1) * 256 ^ zlen l.
Proof.
  unfold zlen. revert acc; induction l as [|b l IH]; intros acc Hacc; [simpl; lia|].
  pose proof (byteZ_range b).
  destruct (IH (acc * 256 + byteZ b)) as [? Hlt]; [lia|].
  cbn [be_combine_acc length]. split; [done|].
  rewrite Nat2Z.inj_succ, Z.pow_succ_r by lia. nia.
Qed.

Lemma be_combine_bound (l : list byte) : 0 <= be_combine l < 256 ^ zlen l.
Proof. pose proof (be_combine_acc_bound l 0). unfold be_combine. lia. Qed.

(** ** Lemmas on lists *)

Lemma zlen_cons_eq {A} (x : A) (l : list A) : zlen (x :: l) = 1 + zlen l.
Proof. unfold zlen. cbn [length]. lia. Qed.

Lemma zlen_app {A} (l k : list A) : zlen (l ++ k) = zlen l + zlen k.
Proof. unfold zlen. rewrite length_app. lia. Qed.

Lemma zlen_nonneg {A} (l : list A) : 0 <= zlen l.
Proof. unfold zlen. lia. Qed.

Lemma take_app_exact {A} (l k : list A) (n : nat) :
  n = length l → take n (l ++ k) = l.
Proof. intros ->. apply take_app_length. Qed.

Lemma drop_app_exact {A} (l k : list A) (n : nat) :
  n = length l → drop n (l ++ k) = k.
Proof. intros ->. apply drop_app_length. Qed.

(** Sorting permutes, and leaves a sorted list as it is. *)
(** ** First, last and all of what a list yields *)

Lemma head_omap_snoc {A B : Type} (f : A → option B) (l : list A) (x : A) :
  head (omap f (l ++ [x])) = match head (omap f l) with Some y => Some y | None => f x end.
Proof. rewrite omap_app. destruct (omap f l); cbn; [|done]. by destruct (f x). Qed.

Lemma last_omap_snoc {A B : Type} (f : A → option B) (l : list A) (x : A) :
  last (omap f (l ++ [x])) = match f x with Some y => Some y | None => last (omap f l) end.
Proof.
  rewrite omap_app. cbn. destruct (f x); [by rewrite last_snoc|by rewrite app_nil_r].
Qed.

Lemma concat_omap_snoc {A B : Type} (f : A → option (list B)) (l : list A) (x : A) :
  concat (omap f (l ++ [x])) = concat (omap f l) ++ default [] (f x).
Proof. rewrite omap_app, concat_app. cbn. destruct (f x); cbn; by rewrite ?app_nil_r. Qed.

Lemma insert_by_key_perm {A} (key : A → Z) (x : A) (l : list A) :
  insert_by_key key x l ≡ₚ x :: l.
Proof.
  induction l as [|y l IH]; simpl; [done|]. destruct (_ <=? _); [done|].
  rewrite IH. apply Permutation_swap.
Qed.

Lemma sort_by_key_perm {A} (key : A → Z) (l : list A) : sort_by_key key l ≡ₚ l.
Proof.
  induction l as [|x l IH]; simpl; [done|]. rewrite insert_by_key_perm. by rewrite IH.
Qed.

Lemma sort_by_key_sorted {A} (key : A → Z) (l : list A) :
  StronglySorted (λ x y, key x <= key y) l → sort_by_key key l = l.
Proof.
  induction 1 as [|x l Hs IH Hf]; [done|].
  change (insert_by_key key x (sort_by_key key l) = x :: l). rewrite IH.
  destruct l as [|y l]; [done|]. simpl.
  apply Forall_cons in Hf as [Hxy _]. by destruct (Z.leb_spec (key x) (key y)); [|lia].
Qed.

Lemma elem_of_concat {A} (ls : list (list A)) (x : A) : x ∈ concat ls ↔ ∃ l, l ∈ ls ∧ x ∈ l.
Proof.
  induction ls as [|l ls IH]; cbn; [set_solver|]. rewrite elem_of_app, IH. set_solver.
Qed.

(** Non-empty pieces of a list without duplicates are distinct. *)
Lemma concat_NoDup {A} (ls : list (list A)) : Forall (λ l, l ≠ []) ls → NoDup (concat ls) → NoDup ls.
Proof.
  induction 1 as [|l ls Hl _ IH]; cbn; [constructor|]. intros (_ & Hd & Hnd)%NoDup_app.
  constructor; [|by apply IH]. intros Hin. destruct l as [|x l]; [done|].
  apply (Hd x); [by left|]. apply elem_of_concat. exists (x :: l). split; [done|by left].
Qed.

Lemma sort_by_key_ordered {A} (key : A → Z) (l : list A) :
  StronglySorted (λ x y, key x <= key y) (sort_by_key key l).
Proof.
  induction l as [|x l IH]; simpl; [constructor|].
  induction IH as [|y k Hk IH' Hy]; simpl; [by repeat constructor|].
  destruct (Z.leb_spec (key x) (key y)).
  - constructor; [by constructor|]. constructor; [lia|]. eapply Forall_impl; [exact Hy|cbn; lia].
  - constructor; [done|]. rewrite Forall_forall in Hy |- *. intros z Hz.
    rewrite insert_by_key_perm in Hz. apply elem_of_cons in Hz as [->|Hz]; [lia|by apply Hy].
Qed.

Lemma then_cmp_opp (a b : comparison) : then_cmp (CompOpp a) (CompOpp b) = CompOpp (then_cmp a b).
Proof. by destruct a. Qed.

Lemma min_by_spec {A : Type} (cmp : A → A → comparison) (l : list A) (x : A) :
  (∀ a b, cmp a b = CompOpp (cmp b a)) → (∀ a b c, cmp a b ≠ Gt → cmp b c ≠ Gt → cmp a c ≠ Gt) →
  min_by cmp l = Some x → x ∈ l ∧ ∀ y, y ∈ l → cmp x y ≠ Gt.
Proof.
  intros Hopp Htr. destruct l as [|a l]; [done|]. intros [= <-]. revert a; induction l as [|b l IH]; intros a; cbn.
  - split; [apply list_elem_of_here|]. intros y ->%list_elem_of_singleton.
    pose proof (Hopp a a). by destruct (cmp a a).
  - set (m := match cmp a b with Gt => b | _ => a end). destruct (IH m) as [Hin Hle]. split.
    + apply elem_of_cons in Hin as [->|Hin]; [|set_solver]. unfold m. destruct (cmp a b); set_solver.
    + assert (Hm : cmp m a ≠ Gt ∧ cmp m b ≠ Gt).
      { unfold m. pose proof (Hopp a a) as Ha. pose proof (Hopp b b) as Hb. pose proof (Hopp b a) as Hba.
        revert Ha Hb Hba. destruct (cmp a b) eqn:E; rewrite ?E;
          destruct (cmp a a), (cmp b b), (cmp b a); cbn; split; congruence. }
      intros y [->|[->|Hy]%elem_of_cons]%elem_of_cons; [| |by apply Hle; set_solver];
        eapply Htr; try (apply Hle, list_elem_of_here); naive_solver.
Qed.

Lemma foldl_max_spec (l : list Z) (x : Z) :
  x <= foldl Z.max x l ∧ (∀ y, y ∈ l → y <= foldl Z.max x l) ∧
  (foldl Z.max x l = x ∨ foldl Z.max x l ∈ l).
Proof.
  revert x; induction l as [|z l IH]; intros x; simpl.
  - split; [lia|]. split; [by intros y ?%not_elem_of_nil|by left].
  - destruct (IH (Z.max x z)) as (H1 & H2 & H3). split; [lia|]. split.
    + intros y [->|Hy]%elem_of_cons; [lia|by apply H2].
    + destruct H3 as [H3|H3]; [|right; by right].
      destruct (Z.max_spec x z) as [[_ E]|[_ E]]; rewrite E in *; [right; rewrite H3; by left|by left].
Qed.

Lemma list_max_Z_spec (l : list Z) (m : Z) :
  list_max_Z l = Some m → m ∈ l ∧ ∀ y, y ∈ l → y <= m.
Proof.
  destruct l as [|x l]; simpl; [done|]. intros [= <-].
  destruct (foldl_max_spec l x) as (H1 & H2 & H3). split.
  - destruct H3 as [->|H3]; [by left|by right].
  - intros y [->|Hy]%elem_of_cons; [done|by apply H2].
Qed.

(** ** The first and the last of a list with a property *)

(** [x] is the first of [l] with [P]. *)
Definition first_with {A : Type} (P : A → Prop) (l : list A) (x : A) : Prop :=
  ∃ l1 l2, l = l1 ++ x :: l2 ∧ P x ∧ Forall (λ y, ¬ P y) l1.

(** [x] is the last of [l] with [P]. *)
Definition last_with {A : Type} (P : A → Prop) (l : list A) (x : A) : Prop :=
  ∃ l1 l2, l = l1 ++ x :: l2 ∧ P x ∧ Forall (λ y, ¬ P y) l2.

Lemma first_with_cons_yes {A : Type} (P : A → Prop) (x y : A) (l : list A) :
  P x → first_with P (x :: l) y ↔ y = x.
Proof.
  intros Hx. split.
  - intros ([|z l1] & l2 & E & Hy & Hf); cbn in E; [by simplify_eq|].
    simplify_eq. by inversion Hf.
  - intros ->. by exists [], l.
Qed.

Lemma first_with_cons_no {A : Type} (P : A → Prop) (x y : A) (l : list A) :
  ¬ P x → first_with P (x :: l) y ↔ first_with P l y.
Proof.
  intros Hx. split.
  - intros ([|z l1] & l2 & E & Hy & Hf); cbn in E; simplify_eq; [done|].
    exists l1, l2. inversion Hf. done.
  - intros (l1 & l2 & -> & Hy & Hf). exists (x :: l1), l2. split; [done|]. split; [done|].
    by constructor.
Qed.

Lemma first_with_nil {A : Type} (P : A → Prop) (y : A) : ¬ first_with P [] y.
Proof. by intros ([|? ?] & ? & ? & _). Qed.

Lemma find_first_with {A : Type} (f : A → bool) (l : list A) (x : A) :
  List.find f l = Some x ↔ first_with (λ y, f y = true) l x.
Proof.
  induction l as [|y l IH]; [split; [done|intros H; by destruct (first_with_nil _ _ H)]|].
  cbn. destruct (f y) eqn:E.
  - rewrite first_with_cons_yes by done. split; congruence.
  - rewrite first_with_cons_no by congruence. done.
Qed.

Lemma first_with_elem {A : Type} (P : A → Prop) (l : list A) (x : A) :
  first_with P l x → x ∈ l ∧ P x.
Proof. intros (l1 & l2 & -> & ? & _). split; [set_solver|done]. Qed.

Lemma find_none_all {A : Type} (f : A → bool) (l : list A) :
  List.find f l = None ↔ Forall (λ y, f y ≠ true) l.
Proof.
  induction l as [|y l IH]; [split; [constructor|done]|]. cbn. rewrite Forall_cons. destruct (f y) eqn:E.
  - split; [done|]. by intros [? _].
  - rewrite IH. naive_solver.
Qed.

Lemma last_with_rev {A : Type} (P : A → Prop) (l : list A) (x : A) :
  last_with P l x ↔ first_with P (rev l) x.
Proof.
  unfold last_with, first_with. split.
  - intros (l1 & l2 & -> & Hx & Hf). exists (rev l2), (rev l1).
    rewrite rev_app_distr. cbn [rev]. rewrite <- app_assoc. split; [done|]. split; [done|]. by apply Forall_rev.
  - intros (l1 & l2 & E & Hx & Hf). exists (rev l2), (rev l1).
    rewrite <- (rev_involutive l), E, rev_app_distr. cbn [rev]. rewrite <- app_assoc.
    split; [done|]. split; [done|]. by apply Forall_rev.
Qed.

Lemma find_rev_last_with {A : Type} (f : A → bool) (l : list A) (x : A) :
  List.find f (rev l) = Some x ↔ last_with (λ y, f y = true) l x.
Proof. by rewrite last_with_rev, find_first_with. Qed.

(** ** Sums *)

Definition sum_of {A : Type} (f : A → Z) (l : list A) : Z := foldr (λ x n, f x + n) 0 l.

Lemma sum_of_perm {A : Type} (f : A → Z) (l k : list A) : l ≡ₚ k → sum_of f l = sum_of f k.
Proof. unfold sum_of. induction 1; cbn; lia. Qed.

Lemma sum_of_map {A C : Type} (f : C → Z) (g : A → C) (l : list A) : sum_of f (map g l) = sum_of (λ x, f (g x)) l.
Proof. unfold sum_of. induction l as [|x l IH]; cbn; [done|]. by rewrite IH. Qed.

Lemma sum_of_nonneg {A : Type} (f : A → Z) (l : list A) : Forall (λ x, 0 <= f x) l → 0 <= sum_of f l.
Proof. unfold sum_of. induction 1; cbn; lia. Qed.

Create HintDb heron.
Create Rewrite HintDb heron_len.
Create Rewrite HintDb heron_ev.
#[export] Hint Resolve byteZ_range be_combine_bound zlen_nonneg : heron.
#[export] Hint Rewrite length_be_bytes @zlen_app @length_app : heron_len.
