(* ===== verification/Net.v ===== *)
(** * Network vocabulary (h-protocol/src/net.rs, h-capture/src/packet.rs)

    IP addresses, flow keys and their normalisation, packet directions, the
    parsed packet, the raw packet with its heartbeat sentinel, and the process
    attribution record of h-common/src/process.rs.

    An [IpAddr] carries its address as the big-endian number of its octets
    (32 bits for V4, 128 for V6): the order Rust derives on [IpAddr] (V4 before
    V6, then octet-lexicographic) is the order of these numbers. *)

From Stdlib Require Import Strings.Byte ZArith Lia.
From stdpp Require Import base gmap sets list strings.
From S2P Require Import Prelude.

Open Scope Z_scope.

(** ** std::net *)

Inductive IpAddr : Type :=
| V4 (a : Z)
| V6 (a : Z).

#[global] Instance IpAddr_eq_dec : EqDecision IpAddr.
Proof. solve_decision. Defined.
#[global] Instance IpAddr_countable : Countable IpAddr.
Proof.
  refine (inj_countable'
    (λ ip, match ip with V4 a => inl a | V6 a => inr a end)
    (λ s, match s with inl a => V4 a | inr a => V6 a end) _).
  by intros [].
Defined.

Definition ip_ok (ip : IpAddr) : Prop :=
  match ip with
  | V4 a => 0 <= a < 2 ^ 32
  | V6 a => 0 <= a < 2 ^ 128
  end.

(** A [(IpAddr, u16)] pair; Rust's [SocketAddr] is used the same way. *)
Abbreviation sock := (IpAddr * Z)%type.

Definition sock_ok (s : sock) : Prop := ip_ok s.1 ∧ 0 <= s.2 < 2 ^ 16.

(** [Ord] for [IpAddr], then for [(IpAddr, u16)]. *)
Definition ip_cmp (x y : IpAddr) : comparison :=
  match x, y with
  | V4 a, V4 b => Z.compare a b
  | V4 _, V6 _ => Lt
  | V6 _, V4 _ => Gt
  | V6 a, V6 b => Z.compare a b
  end.

Definition sock_leb (x y : sock) : bool :=
  match ip_cmp x.1 y.1 with
  | Lt => true
  | Gt => false
  | Eq => x.2 <=? y.2
  end.

(** ** h-common/src/process.rs *)

Record ProcessInfo : Type := mkProcess {
  pid : Z;
  comm : string;
  exe : option string;
}.

(** ** h-protocol/src/net.rs *)

Record FlowKey : Type := mkFlowKey {
  fk_source : string;
  addr_a : sock;
  addr_b : sock;
}.

#[global] Instance FlowKey_eq_dec : EqDecision FlowKey.
Proof. solve_decision. Defined.
#[global] Instance FlowKey_countable : Countable FlowKey.
Proof.
  refine (inj_countable'
    (λ k, (fk_source k, addr_a k, addr_b k))
    (λ t, mkFlowKey t.1.1 t.1.2 t.2) _).
  by intros [].
Defined.

Definition flow_key_new (source_id : string) (src_ip : IpAddr) (src_port : Z)
    (dst_ip : IpAddr) (dst_port : Z) : FlowKey :=
  let a := (src_ip, src_port) in
  let b := (dst_ip, dst_port) in
  if sock_leb (src_ip, src_port) (dst_ip, dst_port)
  then mkFlowKey source_id a b
  else mkFlowKey source_id b a.

Inductive Direction : Type := AtoB | BtoA.

#[global] Instance Direction_eq_dec : EqDecision Direction.
Proof. solve_decision. Defined.

Record ParsedPacket : Type := mkParsed {
  flow_key : FlowKey;
  direction : Direction;
  src_ip : IpAddr;
  src_port : Z;
  dst_ip : IpAddr;
  dst_port : Z;
  tcp_flags : Z;
  tcp_seq : Z;
  tcp_ack : Z;
  payload : list byte;
  wire_payload_len : Z;
  timestamp_us : Z;
  process : option ProcessInfo;
}.

Definition TCP_FIN : Z := 0x01.
Definition TCP_SYN : Z := 0x02.
Definition TCP_RST : Z := 0x04.
Definition TCP_PSH : Z := 0x08.
Definition TCP_ACK : Z := 0x10.

Definition has_syn (p : ParsedPacket) : bool := negb (Z.land (tcp_flags p) TCP_SYN =? 0).
Definition has_fin (p : ParsedPacket) : bool := negb (Z.land (tcp_flags p) TCP_FIN =? 0).
Definition has_rst (p : ParsedPacket) : bool := negb (Z.land (tcp_flags p) TCP_RST =? 0).
Definition has_ack (p : ParsedPacket) : bool := negb (Z.land (tcp_flags p) TCP_ACK =? 0).

(** ** h-capture/src/packet.rs *)

Definition HEARTBEAT_ETHER_TYPE : Z := 0xFFFF.
Definition HEARTBEAT_PACKET_LEN : Z := 14.

Record RawPacket : Type := mkRaw {
  raw_ts : Z;
  caplen : Z;
  wirelen : Z;
  raw_link_type : Z;
  raw_data : list byte;
  raw_source : string;
  raw_process : option ProcessInfo;
}.

Definition is_heartbeat (p : RawPacket) : bool :=
  if negb (raw_link_type p =? 1) then false
  else if zlen (raw_data p) <? HEARTBEAT_PACKET_LEN then false
  else if existsb (λ b, negb (byteZ b =? 0)) (take 12 (raw_data p)) then false
  else be_combine (take 2 (drop 12 (raw_data p))) =? HEARTBEAT_ETHER_TYPE.

(** [RawPacket::heartbeat]. *)
Definition raw_heartbeat (timestamp : Z) (source_id : string) : RawPacket :=
  let buf := replicate 12 x00 ++ [Zbyte 0xFF; Zbyte 0xFF] in
  {| raw_ts := timestamp;
     caplen := HEARTBEAT_PACKET_LEN;
     wirelen := HEARTBEAT_PACKET_LEN;
     raw_link_type := 1;
     raw_data := buf;
     raw_source := source_id;
     raw_process := None |}.

(** ** The order on endpoints is total and antisymmetric *)

Lemma ip_cmp_refl (x : IpAddr) : ip_cmp x x = Eq.
Proof. destruct x; simpl; apply Z.compare_refl. Qed.

Lemma ip_cmp_eq (x y : IpAddr) : ip_cmp x y = Eq → x = y.
Proof.
  destruct x, y; simpl; try done; intros ?%Z.compare_eq_iff; congruence.
Qed.

Lemma ip_cmp_antisym (x y : IpAddr) : ip_cmp y x = CompOpp (ip_cmp x y).
Proof. destruct x, y; simpl; try done; apply Z.compare_antisym. Qed.

Lemma sock_leb_total (x y : sock) : sock_leb x y = false → sock_leb y x = true.
Proof.
  unfold sock_leb. rewrite (ip_cmp_antisym x.1 y.1).
  destruct (ip_cmp x.1 y.1); simpl; try done.
  intros ?. apply Z.leb_le. zify_bool. lia.
Qed.

Lemma sock_leb_antisym (x y : sock) :
  sock_leb x y = true → sock_leb y x = true → x = y.
Proof.
  unfold sock_leb. rewrite (ip_cmp_antisym x.1 y.1).
  destruct (ip_cmp x.1 y.1) eqn:E; simpl; try done.
  intros ??. zify_bool. apply ip_cmp_eq in E.
  destruct x, y; simpl in *. f_equal; [done | lia].
Qed.

(** Both directions of a connection normalise to one key. *)
Lemma flow_key_new_sym (s : string) (i1 i2 : IpAddr) (p1 p2 : Z) :
  flow_key_new s i1 p1 i2 p2 = flow_key_new s i2 p2 i1 p1.
Proof.
  unfold flow_key_new.
  destruct (sock_leb (i1, p1) (i2, p2)) eqn:E1, (sock_leb (i2, p2) (i1, p1)) eqn:E2;
    try done.
  - pose proof (sock_leb_antisym _ _ E1 E2) as [= -> ->]. done.
  - apply sock_leb_total in E1. congruence.
Qed.

(** Distinct connections of one source have distinct keys: the key determines
    the unordered pair of endpoints. *)
Lemma flow_key_new_inj (s s' : string) (i1 i2 j1 j2 : IpAddr) (p1 p2 q1 q2 : Z) :
  flow_key_new s i1 p1 i2 p2 = flow_key_new s' j1 q1 j2 q2 →
  s = s' ∧ (((i1, p1) = (j1, q1) ∧ (i2, p2) = (j2, q2)) ∨
            ((i1, p1) = (j2, q2) ∧ (i2, p2) = (j1, q1))).
Proof.
  unfold flow_key_new. intros H.
  repeat break_match_in H; simplify_eq; auto.
Qed.

Lemma heartbeat_is_heartbeat (t : Z) (s : string) : is_heartbeat (raw_heartbeat t s) = true.
Proof. reflexivity. Qed.
