(* ===== verification/Decode.v ===== *)
(** * Packet decoding (h-protocol/src/de/)

    The cursor [PacketBuf] (buf.rs), the fixed-layout headers (headers.rs), the
    L2, L3 and L4 decoders (l2.rs, l3.rs, l4.rs) and the entry point [decode]
    (mod.rs).  Headers are read through a [Pod] instance, as the source reads
    them through [bytemuck::Pod].  The second half relates the cursor to the
    plain byte list still to be read ([view]) and shows that decoding always
    terminates, never reads out of bounds, and reports lengths that agree with
    the packet's header fields. *)

From Stdlib Require Import Strings.Byte ZArith Lia.
From stdpp Require Import base gmap sets list strings.
From S2P Require Import Prelude.
From S2P Require Import Net.

Open Scope Z_scope.

(** ** de/error.rs *)

Inductive DecodeError : Type :=
| Truncated
| NotSupported
| NotIp
| NotTcp
| InvalidHeader.

(** [DecodeResult<T>]; [DFuel] marks an unfinished fuelled loop and is shown
    unreachable. *)
Inductive dres (A : Type) : Type :=
| DOk (a : A)
| DErr (e : DecodeError)
| DFuel.
Arguments DOk {A} a.
Arguments DErr {A} e.
Arguments DFuel {A}.

Definition dbind {A B : Type} (m : dres A) (k : A → dres B) : dres B :=
  match m with
  | DOk a => k a
  | DErr e => DErr e
  | DFuel => DFuel
  end.

Notation "'try*' p := m 'in' k" := (dbind m (λ p, k))
  (at level 10, p pattern, m at level 100, k at level 200) : heron_scope.

(** ** de/buf.rs *)

Record PacketBuf : Type := mkBuf {
  pb_data : list byte;
  pb_offset : Z;
  pb_len : Z;
}.

Definition buf_new (data : list byte) : PacketBuf :=
  {| pb_data := data; pb_offset := 0; pb_len := zlen data |}.

Definition remaining (b : PacketBuf) : Z := sat_sub (pb_len b) (pb_offset b).

(** A plain-old-data header: its size and its reading from that many bytes. *)
Class Pod (H : Type) : Type := {
  size_of : nat;
  from_bytes : list byte → H;
}.

Definition data_slice (b : PacketBuf) (n : nat) : list byte :=
  take n (drop (Z.to_nat (pb_offset b)) (pb_data b)).

Definition peek (H : Type) `{Pod H} (b : PacketBuf) : option H :=
  let sz := size_of (H := H) in
  let end_ := pb_offset b + Z.of_nat sz in
  if (pb_len b <? end_) || (zlen (pb_data b) <? end_) then None
  else Some (from_bytes (data_slice b sz)).

Definition consume (H : Type) `{Pod H} (b : PacketBuf) : option (H * PacketBuf) :=
  let sz := size_of (H := H) in
  let end_ := pb_offset b + Z.of_nat sz in
  if (pb_len b <? end_) || (zlen (pb_data b) <? end_) then None
  else Some (from_bytes (data_slice b sz), mkBuf (pb_data b) end_ (pb_len b)).

Definition advance (b : PacketBuf) (n : Z) : bool * PacketBuf :=
  let new := pb_offset b + n in
  if (new <=? pb_len b) && (new <=? zlen (pb_data b))
  then (true, mkBuf (pb_data b) new (pb_len b))
  else (false, b).

Definition remaining_slice (b : PacketBuf) : list byte :=
  let end_ := Z.min (pb_len b) (zlen (pb_data b)) in
  let start := Z.min (pb_offset b) end_ in
  take (Z.to_nat (end_ - start)) (drop (Z.to_nat start) (pb_data b)).

Definition set_len (b : PacketBuf) (len : Z) : PacketBuf :=
  mkBuf (pb_data b) (pb_offset b) (Z.min len (zlen (pb_data b))).

(** The macros of de/mod.rs. *)
Definition try_consume (H : Type) `{Pod H} (b : PacketBuf) : dres (H * PacketBuf) :=
  match consume H b with
  | Some r => DOk r
  | None => DErr Truncated
  end.

Definition try_skip (b : PacketBuf) (n : Z) : dres PacketBuf :=
  if remaining b <? n then DErr Truncated else DOk (advance b n).2.

(** ** de/headers.rs *)

Definition LINKTYPE_NULL : Z := 0.
Definition LINKTYPE_ETHERNET : Z := 1.
Definition LINKTYPE_RAW : Z := 101.
Definition LINKTYPE_LINUX_SLL : Z := 113.
Definition LINKTYPE_LINUX_SLL2 : Z := 276.

Definition ETHERTYPE_IPV4 : Z := 0x0800.
Definition ETHERTYPE_IPV6 : Z := 0x86DD.
Definition ETHERTYPE_VLAN : Z := 0x8100.
Definition ETHERTYPE_QINQ : Z := 0x88A8.
Definition ETHERTYPE_MPLS : Z := 0x8847.

Definition IP_PROTO_TCP : Z := 6.

Definition AF_INET : Z := 2.
Definition AF_INET6_BSD : Z := 30.
Definition AF_INET6_LINUX : Z := 10.

(** The [n] bytes of a header at offset [o]. *)
Definition field (o n : nat) (l : list byte) : list byte := take n (drop o l).
Definition byte_at (o : nat) (l : list byte) : byte := nth o l x00.

#[export] Instance Pod_u8 : Pod byte := {| size_of := 1; from_bytes := byte_at 0 |}.

Record EthernetHeader : Type := mkEth {
  eth_dst : list byte;
  eth_src : list byte;
  eth_type_raw : list byte;
}.
#[export] Instance Pod_eth : Pod EthernetHeader :=
  {| size_of := 14;
     from_bytes l := mkEth (field 0 6 l) (field 6 6 l) (field 12 2 l) |}.
Definition eth_ether_type (h : EthernetHeader) : Z := be_combine (eth_type_raw h).

Record VlanHeader : Type := mkVlan { vlan_tci : list byte; vlan_type_raw : list byte }.
#[export] Instance Pod_vlan : Pod VlanHeader :=
  {| size_of := 4; from_bytes l := mkVlan (field 0 2 l) (field 2 2 l) |}.
Definition vlan_ether_type (h : VlanHeader) : Z := be_combine (vlan_type_raw h).

Record MplsHeader : Type := mkMpls { mpls_bytes : list byte }.
#[export] Instance Pod_mpls : Pod MplsHeader :=
  {| size_of := 4; from_bytes l := mkMpls (field 0 4 l) |}.
Definition bottom_of_stack (h : MplsHeader) : bool :=
  negb (Z.land (byteZ (byte_at 2 (mpls_bytes h))) 0x01 =? 0).

Record LinuxSllHeader : Type := mkSll {
  sll_packet_type : list byte;
  sll_arphrd_type : list byte;
  sll_addr_len : list byte;
  sll_addr : list byte;
  sll_protocol_raw : list byte;
}.
#[export] Instance Pod_sll : Pod LinuxSllHeader :=
  {| size_of := 16;
     from_bytes l := mkSll (field 0 2 l) (field 2 2 l) (field 4 2 l) (field 6 8 l)
                       (field 14 2 l) |}.
Definition sll_protocol (h : LinuxSllHeader) : Z := be_combine (sll_protocol_raw h).

Record LinuxSll2Header : Type := mkSll2 {
  sll2_protocol_raw : list byte;
  sll2_reserved : list byte;
  sll2_iface_index : list byte;
  sll2_arphrd_type : list byte;
  sll2_packet_type : byte;
  sll2_addr_len : byte;
  sll2_addr : list byte;
}.
#[export] Instance Pod_sll2 : Pod LinuxSll2Header :=
  {| size_of := 20;
     from_bytes l := mkSll2 (field 0 2 l) (field 2 2 l) (field 4 4 l) (field 8 2 l)
                       (byte_at 10 l) (byte_at 11 l) (field 12 8 l) |}.
Definition sll2_protocol (h : LinuxSll2Header) : Z := be_combine (sll2_protocol_raw h).

(** [u32::from_ne_bytes]: the supported hosts are little-endian. *)
Record NullHeader : Type := mkNull { null_af : list byte }.
#[export] Instance Pod_null : Pod NullHeader :=
  {| size_of := 4; from_bytes l := mkNull (field 0 4 l) |}.
Definition af_family (h : NullHeader) : Z := be_combine (rev (null_af h)).

Record Ipv4Header : Type := mkIpv4 {
  ip4_ver_ihl : byte;
  ip4_tos : byte;
  ip4_total_length_raw : list byte;
  ip4_identification : list byte;
  ip4_flags_frag : list byte;
  ip4_ttl : byte;
  ip4_protocol : byte;
  ip4_checksum : list byte;
  ip4_src : list byte;
  ip4_dst : list byte;
}.
#[export] Instance Pod_ipv4 : Pod Ipv4Header :=
  {| size_of := 20;
     from_bytes l := mkIpv4 (byte_at 0 l) (byte_at 1 l) (field 2 2 l) (field 4 2 l)
                       (field 6 2 l) (byte_at 8 l) (byte_at 9 l) (field 10 2 l)
                       (field 12 4 l) (field 16 4 l) |}.
Definition ip4_ihl (h : Ipv4Header) : Z := Z.land (byteZ (ip4_ver_ihl h)) 0x0F * 4.
Definition ip4_total_length (h : Ipv4Header) : Z := be_combine (ip4_total_length_raw h).
Definition ip4_src_ip (h : Ipv4Header) : IpAddr := V4 (be_combine (ip4_src h)).
Definition ip4_dst_ip (h : Ipv4Header) : IpAddr := V4 (be_combine (ip4_dst h)).

Record Ipv6Header : Type := mkIpv6 {
  ip6_ver_tc_fl : list byte;
  ip6_payload_length_raw : list byte;
  ip6_next_header : byte;
  ip6_hop_limit : byte;
  ip6_src : list byte;
  ip6_dst : list byte;
}.
#[export] Instance Pod_ipv6 : Pod Ipv6Header :=
  {| size_of := 40;
     from_bytes l := mkIpv6 (field 0 4 l) (field 4 2 l) (byte_at 6 l) (byte_at 7 l)
                       (field 8 16 l) (field 24 16 l) |}.
Definition ip6_payload_length (h : Ipv6Header) : Z := be_combine (ip6_payload_length_raw h).
Definition ip6_src_ip (h : Ipv6Header) : IpAddr := V6 (be_combine (ip6_src h)).
Definition ip6_dst_ip (h : Ipv6Header) : IpAddr := V6 (be_combine (ip6_dst h)).

Record TcpHeader : Type := mkTcp {
  tcp_src_port_raw : list byte;
  tcp_dst_port_raw : list byte;
  tcp_seq_raw : list byte;
  tcp_ack_raw : list byte;
  tcp_data_offset_flags : list byte;
  tcp_window : list byte;
  tcp_checksum : list byte;
  tcp_urgent : list byte;
}.
#[export] Instance Pod_tcp : Pod TcpHeader :=
  {| size_of := 20;
     from_bytes l := mkTcp (field 0 2 l) (field 2 2 l) (field 4 4 l) (field 8 4 l)
                       (field 12 2 l) (field 14 2 l) (field 16 2 l) (field 18 2 l) |}.
Definition hdr_src_port (h : TcpHeader) : Z := be_combine (tcp_src_port_raw h).
Definition hdr_dst_port (h : TcpHeader) : Z := be_combine (tcp_dst_port_raw h).
Definition hdr_seq (h : TcpHeader) : Z := be_combine (tcp_seq_raw h).
Definition hdr_ack (h : TcpHeader) : Z := be_combine (tcp_ack_raw h).
Definition hdr_data_offset (h : TcpHeader) : Z :=
  Z.shiftr (byteZ (byte_at 0 (tcp_data_offset_flags h))) 4 * 4.
Definition hdr_flags (h : TcpHeader) : Z := byteZ (byte_at 1 (tcp_data_offset_flags h)).

(** ** de/l2.rs *)

Definition nibble_ethertype (b : byte) : dres Z :=
  if Z.shiftr (byteZ b) 4 =? 4 then DOk ETHERTYPE_IPV4
  else if Z.shiftr (byteZ b) 4 =? 6 then DOk ETHERTYPE_IPV6
  else DErr NotIp.

(** The label loop of [strip_mpls]; each round consumes four bytes. *)
Fixpoint strip_labels (fuel : nat) (b : PacketBuf) : dres PacketBuf :=
  match fuel with
  | O => DFuel
  | S fuel' =>
      try* (label, b') := try_consume MplsHeader b in
      if bottom_of_stack label then DOk b' else strip_labels fuel' b'
  end.

Definition strip_mpls (fuel : nat) (b : PacketBuf) : dres (Z * PacketBuf) :=
  try* b' := strip_labels fuel b in
  match peek byte b' with
  | None => DErr Truncated
  | Some x => try* ty := nibble_ethertype x in DOk (ty, b')
  end.

Fixpoint resolve_next (fuel : nat) (b : PacketBuf) (ether_type : Z) : dres (Z * PacketBuf) :=
  match fuel with
  | O => DFuel
  | S fuel' =>
      if (ether_type =? ETHERTYPE_VLAN) || (ether_type =? ETHERTYPE_QINQ) then
        try* (vlan, b') := try_consume VlanHeader b in
        resolve_next fuel' b' (vlan_ether_type vlan)
      else if ether_type =? ETHERTYPE_MPLS then strip_mpls fuel b
      else DOk (ether_type, b)
  end.

(** One round per four remaining bytes is enough: [S (len)] is generous. *)
Definition l2_fuel (b : PacketBuf) : nat := S (length (pb_data b)).

Definition decode_ethernet (b : PacketBuf) : dres (Z * PacketBuf) :=
  try* (hdr, b') := try_consume EthernetHeader b in
  resolve_next (l2_fuel b') b' (eth_ether_type hdr).

Definition decode_null (b : PacketBuf) : dres (Z * PacketBuf) :=
  try* (hdr, b') := try_consume NullHeader b in
  let af := af_family hdr in
  if af =? AF_INET then DOk (ETHERTYPE_IPV4, b')
  else if (af =? AF_INET6_BSD) || (af =? AF_INET6_LINUX) then DOk (ETHERTYPE_IPV6, b')
  else DErr NotIp.

Definition detect_raw_ip (b : PacketBuf) : dres (Z * PacketBuf) :=
  match peek byte b with
  | None => DErr Truncated
  | Some x => try* ty := nibble_ethertype x in DOk (ty, b)
  end.

Definition accept_ip_proto (proto : Z) (b : PacketBuf) : dres (Z * PacketBuf) :=
  if (proto =? ETHERTYPE_IPV4) || (proto =? ETHERTYPE_IPV6) then DOk (proto, b)
  else DErr NotIp.

Definition decode_linux_sll (b : PacketBuf) : dres (Z * PacketBuf) :=
  try* (hdr, b') := try_consume LinuxSllHeader b in
  accept_ip_proto (sll_protocol hdr) b'.

Definition decode_linux_sll2 (b : PacketBuf) : dres (Z * PacketBuf) :=
  try* (hdr, b') := try_consume LinuxSll2Header b in
  accept_ip_proto (sll2_protocol hdr) b'.

Definition decode_l2 (b : PacketBuf) (link_type : Z) : dres (Z * PacketBuf) :=
  if link_type =? LINKTYPE_ETHERNET then decode_ethernet b
  else if link_type =? LINKTYPE_RAW then detect_raw_ip b
  else if link_type =? LINKTYPE_NULL then decode_null b
  else if link_type =? LINKTYPE_LINUX_SLL then decode_linux_sll b
  else if link_type =? LINKTYPE_LINUX_SLL2 then decode_linux_sll2 b
  else DErr NotSupported.

(** ** de/l3.rs *)

Record L3Info : Type := mkL3 {
  l3_src_ip : IpAddr;
  l3_dst_ip : IpAddr;
  l3_protocol : Z;
  l3_payload_length : Z;
}.

Definition decode_ipv4 (b : PacketBuf) : dres (L3Info * PacketBuf) :=
  try* (ip, b1) := try_consume Ipv4Header b in
  let ihl := ip4_ihl ip in
  if ihl <? 20 then DErr InvalidHeader else
  let total_len := ip4_total_length ip in
  try* b2 := (if 20 <? ihl then try_skip b1 (ihl - 20) else DOk b1) in
  let ip_start := pb_offset b2 - ihl in
  let b3 := if ihl <=? total_len then set_len b2 (ip_start + total_len) else b2 in
  DOk ({| l3_src_ip := ip4_src_ip ip;
          l3_dst_ip := ip4_dst_ip ip;
          l3_protocol := byteZ (ip4_protocol ip);
          l3_payload_length := sat_sub total_len ihl |}, b3).

Definition decode_ipv6 (b : PacketBuf) : dres (L3Info * PacketBuf) :=
  try* (ip, b1) := try_consume Ipv6Header b in
  let payload_length := ip6_payload_length ip in
  let ip_start := pb_offset b1 - 40 in
  DOk ({| l3_src_ip := ip6_src_ip ip;
          l3_dst_ip := ip6_dst_ip ip;
          l3_protocol := byteZ (ip6_next_header ip);
          l3_payload_length := payload_length |},
       set_len b1 (ip_start + 40 + payload_length)).

Definition dispatch_l3 (b : PacketBuf) (ether_type : Z) : dres (L3Info * PacketBuf) :=
  if ether_type =? ETHERTYPE_IPV4 then decode_ipv4 b
  else if ether_type =? ETHERTYPE_IPV6 then decode_ipv6 b
  else DErr NotIp.

(** ** de/l4.rs *)

Record L4Info : Type := mkL4 {
  l4_src_port : Z;
  l4_dst_port : Z;
  l4_seq : Z;
  l4_ack : Z;
  l4_flags : Z;
  l4_header_length : Z;
}.

Definition decode_tcp (b : PacketBuf) : dres (L4Info * PacketBuf) :=
  try* (tcp, b1) := try_consume TcpHeader b in
  let data_offset := hdr_data_offset tcp in
  if data_offset <? 20 then DErr InvalidHeader else
  try* b2 := (if 20 <? data_offset then try_skip b1 (data_offset - 20) else DOk b1) in
  DOk ({| l4_src_port := hdr_src_port tcp;
          l4_dst_port := hdr_dst_port tcp;
          l4_seq := hdr_seq tcp;
          l4_ack := hdr_ack tcp;
          l4_flags := hdr_flags tcp;
          l4_header_length := data_offset |}, b2).

Definition dispatch_l4 (b : PacketBuf) (protocol : Z) : dres (L4Info * PacketBuf) :=
  if protocol =? IP_PROTO_TCP then decode_tcp b else DErr NotTcp.

(** ** de/mod.rs *)

Definition decode (data : list byte) (link_type : Z) (ts : Z) (source_id : string)
    : dres ParsedPacket :=
  let buf := buf_new data in
  try* (ether_type, buf) := decode_l2 buf link_type in
  try* (l3, buf) := dispatch_l3 buf ether_type in
  try* (l4, buf) := dispatch_l4 buf (l3_protocol l3) in
  let wire := sat_sub (l3_payload_length l3) (l4_header_length l4) in
  let fk := flow_key_new source_id (l3_src_ip l3) (l4_src_port l4)
              (l3_dst_ip l3) (l4_dst_port l4) in
  let dir := if sock_leb (l3_src_ip l3, l4_src_port l4) (l3_dst_ip l3, l4_dst_port l4)
             then AtoB else BtoA in
  DOk {| flow_key := fk;
         direction := dir;
         src_ip := l3_src_ip l3;
         src_port := l4_src_port l4;
         dst_ip := l3_dst_ip l3;
         dst_port := l4_dst_port l4;
         tcp_flags := l4_flags l4;
         tcp_seq := l4_seq l4;
         tcp_ack := l4_ack l4;
         payload := remaining_slice buf;
         wire_payload_len := wire;
         timestamp_us := ts;
         process := None |}.

(** ** Reference decoder on the bytes still to be read

    The same decoder as a function of a plain byte list: no offset, no logical
    length, headers peeled off the front.  [decode_refines_spec] below states
    that the cursor-based code computes exactly this function. *)

Definition take_hdr (H : Type) `{Pod H} (l : list byte) : dres (H * list byte) :=
  if (length l <? size_of (H := H))%nat then DErr Truncated
  else DOk (from_bytes (take (size_of (H := H)) l), drop (size_of (H := H)) l).

Definition skip_opts (l : list byte) (n : Z) : dres (list byte) :=
  if zlen l <? n then DErr Truncated else DOk (drop (Z.to_nat n) l).

Definition spec_peek (l : list byte) : dres byte :=
  match l with [] => DErr Truncated | x :: _ => DOk x end.

Definition spec_nibble (l : list byte) : dres (Z * list byte) :=
  try* x := spec_peek l in try* ty := nibble_ethertype x in DOk (ty, l).

Fixpoint spec_labels (fuel : nat) (l : list byte) : dres (list byte) :=
  match fuel with
  | O => DFuel
  | S fuel' =>
      try* (label, l') := take_hdr MplsHeader l in
      if bottom_of_stack label then DOk l' else spec_labels fuel' l'
  end.

Fixpoint spec_next (fuel : nat) (l : list byte) (ty : Z) : dres (Z * list byte) :=
  match fuel with
  | O => DFuel
  | S fuel' =>
      if (ty =? ETHERTYPE_VLAN) || (ty =? ETHERTYPE_QINQ) then
        try* (vlan, l') := take_hdr VlanHeader l in
        spec_next fuel' l' (vlan_ether_type vlan)
      else if ty =? ETHERTYPE_MPLS then
        try* l' := spec_labels fuel l in spec_nibble l'
      else DOk (ty, l)
  end.

Definition spec_accept (proto : Z) (l : list byte) : dres (Z * list byte) :=
  if (proto =? ETHERTYPE_IPV4) || (proto =? ETHERTYPE_IPV6) then DOk (proto, l)
  else DErr NotIp.

Definition spec_l2 (l : list byte) (link_type : Z) : dres (Z * list byte) :=
  if link_type =? LINKTYPE_ETHERNET then
    try* (hdr, l') := take_hdr EthernetHeader l in
    spec_next (S (length l)) l' (eth_ether_type hdr)
  else if link_type =? LINKTYPE_RAW then spec_nibble l
  else if link_type =? LINKTYPE_NULL then
    try* (hdr, l') := take_hdr NullHeader l in
    if af_family hdr =? AF_INET then DOk (ETHERTYPE_IPV4, l')
    else if (af_family hdr =? AF_INET6_BSD) || (af_family hdr =? AF_INET6_LINUX)
    then DOk (ETHERTYPE_IPV6, l') else DErr NotIp
  else if link_type =? LINKTYPE_LINUX_SLL then
    try* (hdr, l') := take_hdr LinuxSllHeader l in spec_accept (sll_protocol hdr) l'
  else if link_type =? LINKTYPE_LINUX_SLL2 then
    try* (hdr, l') := take_hdr LinuxSll2Header l in spec_accept (sll2_protocol hdr) l'
  else DErr NotSupported.

(** The IP payload ends where the header says, or where the capture stops. *)
Definition spec_ipv4 (l : list byte) : dres (L3Info * list byte) :=
  try* (ip, l1) := take_hdr Ipv4Header l in
  let ihl := ip4_ihl ip in
  let total := ip4_total_length ip in
  if ihl <? 20 then DErr InvalidHeader else
  try* l2 := (if 20 <? ihl then skip_opts l1 (ihl - 20) else DOk l1) in
  DOk (mkL3 (ip4_src_ip ip) (ip4_dst_ip ip) (byteZ (ip4_protocol ip)) (sat_sub total ihl),
       if ihl <=? total then take (Z.to_nat (total - ihl)) l2 else l2).

Definition spec_ipv6 (l : list byte) : dres (L3Info * list byte) :=
  try* (ip, l1) := take_hdr Ipv6Header l in
  DOk (mkL3 (ip6_src_ip ip) (ip6_dst_ip ip) (byteZ (ip6_next_header ip))
         (ip6_payload_length ip),
       take (Z.to_nat (ip6_payload_length ip)) l1).

Definition spec_l3 (l : list byte) (ty : Z) : dres (L3Info * list byte) :=
  if ty =? ETHERTYPE_IPV4 then spec_ipv4 l
  else if ty =? ETHERTYPE_IPV6 then spec_ipv6 l
  else DErr NotIp.

Definition spec_tcp (l : list byte) : dres (L4Info * list byte) :=
  try* (tcp, l1) := take_hdr TcpHeader l in
  let off := hdr_data_offset tcp in
  if off <? 20 then DErr InvalidHeader else
  try* l2 := (if 20 <? off then skip_opts l1 (off - 20) else DOk l1) in
  DOk (mkL4 (hdr_src_port tcp) (hdr_dst_port tcp) (hdr_seq tcp) (hdr_ack tcp)
         (hdr_flags tcp) off, l2).

Definition spec_l4 (l : list byte) (proto : Z) : dres (L4Info * list byte) :=
  if proto =? IP_PROTO_TCP then spec_tcp l else DErr NotTcp.

Definition mk_packet (source_id : string) (ts : Z) (l3 : L3Info) (l4 : L4Info)
    (rest : list byte) : ParsedPacket :=
  {| flow_key := flow_key_new source_id (l3_src_ip l3) (l4_src_port l4)
                   (l3_dst_ip l3) (l4_dst_port l4);
     direction := if sock_leb (l3_src_ip l3, l4_src_port l4) (l3_dst_ip l3, l4_dst_port l4)
                  then AtoB else BtoA;
     src_ip := l3_src_ip l3; src_port := l4_src_port l4;
     dst_ip := l3_dst_ip l3; dst_port := l4_dst_port l4;
     tcp_flags := l4_flags l4; tcp_seq := l4_seq l4; tcp_ack := l4_ack l4;
     payload := rest;
     wire_payload_len := sat_sub (l3_payload_length l3) (l4_header_length l4);
     timestamp_us := ts; process := None |}.

Definition spec_l34 (l : list byte) (ty : Z) (ts : Z) (source_id : string)
    : dres ParsedPacket :=
  try* (l3, l') := spec_l3 l ty in
  try* (l4, l'') := spec_l4 l' (l3_protocol l3) in
  DOk (mk_packet source_id ts l3 l4 l'').

Definition spec_decode (l : list byte) (link_type : Z) (ts : Z) (source_id : string)
    : dres ParsedPacket :=
  try* (ty, l') := spec_l2 l link_type in spec_l34 l' ty ts source_id.

(** ** The cursor against the remaining bytes *)

Definition buf_ok (b : PacketBuf) : Prop :=
  0 <= pb_offset b <= pb_len b ∧ pb_len b <= zlen (pb_data b).

(** No IP header has shortened the buffer yet. *)
Definition buf_full (b : PacketBuf) : Prop :=
  0 <= pb_offset b <= pb_len b ∧ pb_len b = zlen (pb_data b).

(** A cursor computation simulates a list computation. *)
Definition sim {A} (P : PacketBuf → Prop) (r : dres (A * PacketBuf)) (s : dres (A * list byte))
    : Prop :=
  match r, s with
  | DOk (a, b), DOk (a', l) => a = a' ∧ P b ∧ remaining_slice b = l
  | DErr e, DErr e' => e = e'
  | DFuel, DFuel => True
  | _, _ => False
  end.

Lemma buf_full_ok b : buf_full b → buf_ok b.
Proof. unfold buf_full, buf_ok. lia. Qed.

Lemma buf_new_full data : buf_full (buf_new data).
Proof. unfold buf_full, buf_new. simpl. pose proof (zlen_nonneg data). lia. Qed.

Lemma view_new data : remaining_slice (buf_new data) = data.
Proof.
  unfold remaining_slice, buf_new, zlen; simpl.
  rewrite Z.min_id, Z.min_l by lia.
  rewrite Z.sub_0_r, Nat2Z.id. apply firstn_all.
Qed.

Lemma view_ok b : buf_ok b →
  remaining_slice b =
    take (Z.to_nat (pb_len b - pb_offset b)) (drop (Z.to_nat (pb_offset b)) (pb_data b)).
Proof.
  unfold buf_ok, remaining_slice. intros [? ?].
  rewrite (Z.min_l (pb_len b)) by lia. rewrite Z.min_l by lia. done.
Qed.

Lemma length_view b : buf_ok b → zlen (remaining_slice b) = pb_len b - pb_offset b.
Proof.
  intros Hb. rewrite view_ok by done. unfold buf_ok, zlen in *.
  rewrite length_take, length_drop. lia.
Qed.

Lemma remaining_view b : buf_ok b → remaining b = zlen (remaining_slice b).
Proof. intros Hb. rewrite length_view by done. unfold remaining, sat_sub, buf_ok in *. lia. Qed.

(** Moving the offset forward drops bytes from the view. *)
Lemma view_advance b (n : Z) : buf_ok b → 0 <= n <= pb_len b - pb_offset b →
  remaining_slice (mkBuf (pb_data b) (pb_offset b + n) (pb_len b))
    = drop (Z.to_nat n) (remaining_slice b).
Proof.
  intros Hb Hn. rewrite (view_ok b) by done.
  rewrite view_ok by (unfold buf_ok in *; simpl; lia). simpl.
  rewrite skipn_firstn_comm, drop_drop. unfold buf_ok in Hb.
  f_equal; [lia|]. f_equal. lia.
Qed.

Lemma data_slice_view b (n : nat) : buf_ok b → Z.of_nat n <= pb_len b - pb_offset b →
  data_slice b n = take n (remaining_slice b).
Proof.
  intros Hb Hn. rewrite view_ok by done. unfold data_slice.
  rewrite take_take. f_equal. lia.
Qed.

Lemma consume_sim H `{Pod H} b : buf_ok b →
  match consume H b, take_hdr H (remaining_slice b) with
  | Some (h, b'), DOk (h', l) =>
      h = h' ∧ l = remaining_slice b' ∧
      b' = mkBuf (pb_data b) (pb_offset b + Z.of_nat (size_of (H := H))) (pb_len b) ∧
      Z.of_nat (size_of (H := H)) <= pb_len b - pb_offset b
  | None, DErr Truncated => True
  | _, _ => False
  end.
Proof.
  intros Hb. unfold consume, take_hdr.
  pose proof (length_view b Hb) as Hl. unfold zlen in Hl.
  assert (Hd : zlen (pb_data b) >= pb_len b) by (unfold buf_ok in Hb; lia).
  destruct (_ || _) eqn:E1, (_ <? _)%nat eqn:E2; try done.
  - apply orb_true_iff in E1 as [E1|E1]; zify_bool; apply Nat.ltb_ge in E2; lia.
  - zify_bool. apply Nat.ltb_lt in E2. lia.
  - zify_bool. split; [by rewrite data_slice_view by (done || lia)|].
    split; [|split; [done|lia]].
    rewrite view_advance by (done || lia). f_equal. lia.
Qed.

Lemma try_consume_sim H `{Pod H} b : buf_full b →
  sim buf_full (try_consume H b) (take_hdr H (remaining_slice b)).
Proof.
  intros Hb. pose proof (consume_sim H b (buf_full_ok b Hb)) as Hs.
  unfold try_consume. destruct (consume H b) as [[h b']|].
  - destruct (take_hdr _ _) as [[h' l]|e|] eqn:E; [|done|done].
    destruct Hs as (-> & -> & -> & ?). simpl. split; [done|]. split; [|done].
    unfold buf_full in *; simpl. lia.
  - destruct (take_hdr _ _) as [[h' l]|[]|]; done.
Qed.

Lemma try_consume_sim_ok H `{Pod H} b : buf_ok b →
  sim buf_ok (try_consume H b) (take_hdr H (remaining_slice b)).
Proof.
  intros Hb. pose proof (consume_sim H b Hb) as Hs.
  unfold try_consume. destruct (consume H b) as [[h b']|].
  - destruct (take_hdr _ _) as [[h' l]|e|] eqn:E; [|done|done].
    destruct Hs as (-> & -> & -> & ?). simpl. split; [done|]. split; [|done].
    unfold buf_ok in *; simpl. lia.
  - destruct (take_hdr _ _) as [[h' l]|[]|]; done.
Qed.

Lemma sim_bind {A C} P Q (r : dres (A * PacketBuf)) s
    (k : A * PacketBuf → dres (C * PacketBuf)) k' :
  sim P r s →
  (∀ a b, P b → sim Q (k (a, b)) (k' (a, remaining_slice b))) →
  sim Q (dbind r k) (dbind s k').
Proof.
  intros Hr Hk. destruct r as [[a b]|e|], s as [[a' l]|e'|]; simpl in *; try done.
  destruct Hr as (-> & ? & <-). by apply Hk.
Qed.

Lemma try_skip_sim (P : PacketBuf → Prop) b (n : Z) : buf_ok b → 0 <= n →
  (∀ m, 0 <= m <= pb_len b - pb_offset b →
        P (mkBuf (pb_data b) (pb_offset b + m) (pb_len b))) →
  match try_skip b n, skip_opts (remaining_slice b) n with
  | DOk b', DOk l => P b' ∧ remaining_slice b' = l ∧ pb_offset b' = pb_offset b + n
  | DErr e, DErr e' => e = e'
  | _, _ => False
  end.
Proof.
  intros Hb Hn HP. unfold try_skip, skip_opts. rewrite remaining_view by done.
  pose proof (length_view b Hb) as Hl.
  destruct (_ <? n) eqn:E; [done|]. zify_bool.
  unfold advance.
  destruct (_ && _) eqn:E2; simpl.
  - split; [apply HP; lia|]. rewrite view_advance by (done || lia). done.
  - apply andb_false_iff in E2. unfold buf_ok in Hb. destruct E2; zify_bool; lia.
Qed.

Lemma nibble_sim b : buf_full b →
  sim buf_full (detect_raw_ip b) (spec_nibble (remaining_slice b)).
Proof.
  intros Hb. pose proof (buf_full_ok b Hb) as Hok.
  pose proof (length_view b Hok) as Hl. unfold zlen in Hl.
  unfold detect_raw_ip, spec_nibble, peek.
  change (Z.of_nat (size_of (H := byte))) with 1.
  destruct (_ || _) eqn:E.
  - assert (pb_len b < pb_offset b + 1).
    { unfold buf_full in Hb. apply orb_true_iff in E as [E|E]; zify_bool; lia. }
    destruct (remaining_slice b); simpl in *; [done|lia].
  - zify_bool. rewrite data_slice_view by (done || (simpl; lia)). simpl.
    destruct (remaining_slice b) as [|x l] eqn:Ev; simpl in *; [lia|].
    unfold nibble_ethertype. destruct (_ =? 4); simpl; [by rewrite Ev|].
    destruct (_ =? 6); simpl; [by rewrite Ev|done].
Qed.

(** Label stacks and VLAN tags: same result for the same fuel. *)
Lemma strip_labels_sim fuel b : buf_full b →
  match strip_labels fuel b, spec_labels fuel (remaining_slice b) with
  | DOk b', DOk l => buf_full b' ∧ remaining_slice b' = l
  | DErr e, DErr e' => e = e'
  | DFuel, DFuel => True
  | _, _ => False
  end.
Proof.
  revert b; induction fuel as [|fuel IH]; intros b Hb; [done|]. simpl.
  pose proof (try_consume_sim MplsHeader b Hb) as Hs.
  destruct (try_consume MplsHeader b) as [[h b']|e|], (take_hdr _ _) as [[h' l]|e'|];
    simpl in *; try done.
  destruct Hs as (-> & Hb' & <-). destruct (bottom_of_stack h'); [done|]. by apply IH.
Qed.

Lemma resolve_next_sim fuel b ty : buf_full b →
  sim buf_full (resolve_next fuel b ty) (spec_next fuel (remaining_slice b) ty).
Proof.
  revert b ty; induction fuel as [|fuel IH]; intros b ty Hb; [done|]. cbn [resolve_next spec_next].
  destruct (_ || _).
  { eapply sim_bind; [by apply try_consume_sim|]. intros; by apply IH. }
  destruct (ty =? ETHERTYPE_MPLS); [|done].
  unfold strip_mpls. pose proof (strip_labels_sim (S fuel) b Hb) as Hs.
  destruct (strip_labels (S fuel) b) as [b'|e|], (spec_labels _ _) as [l|e'|];
    cbn [dbind] in *; try done.
  destruct Hs as (Hb' & <-). pose proof (nibble_sim b' Hb') as Hn.
  unfold detect_raw_ip in Hn. destruct (peek byte b'); [|done].
  destruct (nibble_ethertype b0); simpl in *; done.
Qed.

Lemma accept_sim b proto : buf_full b →
  sim buf_full (accept_ip_proto proto b) (spec_accept proto (remaining_slice b)).
Proof. intros Hb. unfold accept_ip_proto, spec_accept. by destruct (_ || _). Qed.

Lemma decode_l2_sim data link :
  sim buf_full (decode_l2 (buf_new data) link) (spec_l2 data link).
Proof.
  pose proof (buf_new_full data) as Hb. unfold decode_l2, spec_l2.
  rewrite <- (view_new data) at 1.
  destruct (link =? LINKTYPE_ETHERNET).
  { unfold decode_ethernet.
    pose proof (try_consume_sim EthernetHeader _ Hb) as Hs.
    pose proof (consume_sim EthernetHeader _ (buf_full_ok _ Hb)) as Hc.
    rewrite view_new in *. unfold try_consume in *.
    destruct (consume EthernetHeader _) as [[h b']|], (take_hdr _ _) as [[h' l]|e'|];
      cbn [dbind] in *; try done.
    destruct Hs as (-> & Hb' & <-), Hc as (_ & _ & -> & _).
    by apply (resolve_next_sim (S (length data))). }
  destruct (link =? LINKTYPE_RAW).
  { pose proof (nibble_sim _ Hb) as Hn. by rewrite view_new in Hn. }
  destruct (link =? LINKTYPE_NULL).
  { unfold decode_null. rewrite <- (view_new data) at 2.
    eapply sim_bind; [by apply try_consume_sim|]. intros h b Hb'. cbn beta iota zeta.
    destruct (_ =? AF_INET); [done|]. by destruct (_ || _). }
  destruct (link =? LINKTYPE_LINUX_SLL).
  { unfold decode_linux_sll. rewrite <- (view_new data) at 2.
    eapply sim_bind; [by apply try_consume_sim|]. intros; by apply accept_sim. }
  destruct (link =? LINKTYPE_LINUX_SLL2); [|done].
  unfold decode_linux_sll2. rewrite <- (view_new data) at 2.
  eapply sim_bind; [by apply try_consume_sim|]. intros; by apply accept_sim.
Qed.

(** Restricting the buffer to the IP payload is [take] on the view. *)
Lemma view_set_len b (n : Z) : buf_full b → 0 <= n →
  remaining_slice (set_len b (pb_offset b + n)) = take (Z.to_nat n) (remaining_slice b) ∧
  buf_ok (set_len b (pb_offset b + n)).
Proof.
  intros Hb Hn. pose proof (buf_full_ok b Hb) as Hok.
  assert (Hok' : buf_ok (set_len b (pb_offset b + n))).
  { unfold buf_ok, buf_full, set_len in *; simpl. lia. }
  split; [|done]. rewrite !view_ok by done. unfold set_len, buf_full in *; simpl.
  rewrite take_take.
  destruct (Z.le_gt_cases (zlen (pb_data b)) (pb_offset b + n)).
  - rewrite Z.min_r by lia. f_equal. lia.
  - rewrite Z.min_l by lia. f_equal. lia.
Qed.

Lemma take_hdr_length H `{Pod H} l h l' :
  take_hdr H l = DOk (h, l') → zlen l = zlen l' + Z.of_nat (size_of (H := H)).
Proof.
  unfold take_hdr. destruct (_ <? _)%nat eqn:E; [done|]. intros [= _ <-].
  apply Nat.ltb_ge in E. unfold zlen. rewrite length_drop. lia.
Qed.

Lemma ip4_total_range ip l : from_bytes (H := Ipv4Header) l = ip → 0 <= ip4_total_length ip.
Proof. intros _. unfold ip4_total_length. apply be_combine_bound. Qed.

Lemma buf_full_shift b n : buf_full b → 0 <= n <= pb_len b - pb_offset b →
  buf_full (mkBuf (pb_data b) (pb_offset b + n) (pb_len b)).
Proof. unfold buf_full; simpl. lia. Qed.

Lemma buf_ok_shift b n : buf_ok b → 0 <= n <= pb_len b - pb_offset b →
  buf_ok (mkBuf (pb_data b) (pb_offset b + n) (pb_len b)).
Proof. unfold buf_ok; simpl. lia. Qed.

Lemma decode_ipv4_sim b : buf_full b →
  sim buf_ok (decode_ipv4 b) (spec_ipv4 (remaining_slice b)).
Proof.
  intros Hb. unfold decode_ipv4, spec_ipv4.
  eapply sim_bind; [by apply try_consume_sim|]. intros ip b1 Hb1. cbn beta iota zeta.
  destruct (ip4_ihl ip <? 20) eqn:Ei; [done|]. zify_bool.
  assert (Hs : match (if 20 <? ip4_ihl ip then try_skip b1 (ip4_ihl ip - 20) else DOk b1),
                 (if 20 <? ip4_ihl ip then skip_opts (remaining_slice b1) (ip4_ihl ip - 20)
                  else DOk (remaining_slice b1)) with
               | DOk b', DOk l => buf_full b' ∧ remaining_slice b' = l
               | DErr e, DErr e' => e = e'
               | _, _ => False
               end).
  { destruct (20 <? ip4_ihl ip) eqn:E; [|done]. zify_bool.
    pose proof (try_skip_sim buf_full b1 (ip4_ihl ip - 20) (buf_full_ok _ Hb1) ltac:(lia)
      (λ m Hm, buf_full_shift b1 m Hb1 Hm)) as Ht.
    destruct (skip_opts _ _), (try_skip b1 _); try done. by destruct Ht as (? & ? & ?). }
  destruct (if _ <? _ then try_skip _ _ else _) as [b2|e|],
    (if _ <? _ then skip_opts _ _ else _) as [l2|e'|]; cbn [dbind] in *; try done.
  destruct Hs as [Hb2 <-]. simpl. split; [done|].
  destruct (ip4_ihl ip <=? ip4_total_length ip) eqn:E.
  - zify_bool.
    replace (pb_offset b2 - ip4_ihl ip + ip4_total_length ip)
      with (pb_offset b2 + (ip4_total_length ip - ip4_ihl ip)) by lia.
    destruct (view_set_len b2 (ip4_total_length ip - ip4_ihl ip) Hb2 ltac:(lia)) as [-> ?].
    done.
  - split; [by apply buf_full_ok|done].
Qed.

Lemma decode_ipv6_sim b : buf_full b →
  sim buf_ok (decode_ipv6 b) (spec_ipv6 (remaining_slice b)).
Proof.
  intros Hb. unfold decode_ipv6, spec_ipv6.
  eapply sim_bind; [by apply try_consume_sim|]. intros ip b1 Hb1. cbn beta iota zeta.
  simpl. split; [done|].
  replace (pb_offset b1 - 40 + 40) with (pb_offset b1) by lia.
  destruct (view_set_len b1 (ip6_payload_length ip) Hb1) as [-> ?]; [|done].
  apply be_combine_bound.
Qed.

Lemma decode_tcp_sim b : buf_ok b →
  sim buf_ok (decode_tcp b) (spec_tcp (remaining_slice b)).
Proof.
  intros Hb. unfold decode_tcp, spec_tcp.
  eapply sim_bind; [by apply try_consume_sim_ok|]. intros tcp b1 Hb1. cbn beta iota zeta.
  destruct (hdr_data_offset tcp <? 20) eqn:Ei; [done|]. zify_bool.
  destruct (20 <? hdr_data_offset tcp) eqn:E; [|done]. zify_bool.
  pose proof (try_skip_sim buf_ok b1 (hdr_data_offset tcp - 20) Hb1 ltac:(lia)
    (λ m Hm, buf_ok_shift b1 m Hb1 Hm)) as Ht.
  destruct (skip_opts _ _), (try_skip b1 _); cbn [dbind]; try done.
  by destruct Ht as (? & <- & ?).
Qed.

(** The cursor-based decoder is the list decoder. *)
Lemma decode_eq_spec (data : list byte) (link ts : Z) (source_id : string) :
  decode data link ts source_id = spec_decode data link ts source_id.
Proof.
  unfold decode, spec_decode, spec_l34. cbn zeta.
  pose proof (decode_l2_sim data link) as H2.
  destruct (decode_l2 _ _) as [[ty b]|e|], (spec_l2 _ _) as [[ty' l]|e'|];
    cbn [dbind sim] in *; try done; [|congruence].
  destruct H2 as (-> & Hb & <-).
  assert (H3 : sim buf_ok (dispatch_l3 b ty') (spec_l3 (remaining_slice b) ty')).
  { unfold dispatch_l3, spec_l3. destruct (_ =? ETHERTYPE_IPV4); [by apply decode_ipv4_sim|].
    destruct (_ =? ETHERTYPE_IPV6); [by apply decode_ipv6_sim|done]. }
  destruct (dispatch_l3 _ _) as [[l3 b3]|e|], (spec_l3 _ _) as [[l3' l]|e'|];
    cbn [dbind sim] in *; try done; [|congruence].
  destruct H3 as (-> & Hb3 & <-).
  assert (H4 : sim buf_ok (dispatch_l4 b3 (l3_protocol l3'))
                 (spec_l4 (remaining_slice b3) (l3_protocol l3'))).
  { unfold dispatch_l4, spec_l4. destruct (_ =? IP_PROTO_TCP); [by apply decode_tcp_sim|done]. }
  destruct (dispatch_l4 _ _) as [[l4 b4]|e|], (spec_l4 _ _) as [[l4' l]|e'|];
    cbn [dbind sim] in *; try done; [|congruence].
  destruct H4 as (-> & Hb4 & <-). done.
Qed.

(** ** Termination of the tag and label loops *)

Lemma spec_labels_fuel f1 f2 l : (length l < f1)%nat → (length l < f2)%nat →
  spec_labels f1 l = spec_labels f2 l ∧ spec_labels f1 l ≠ DFuel.
Proof.
  revert f2 l; induction f1 as [|f1 IH]; intros [|f2] l H1 H2; try lia.
  cbn [spec_labels]. destruct (take_hdr MplsHeader l) as [[h l']|e|] eqn:E;
    cbn [dbind]; try done.
  - apply take_hdr_length in E. change (Z.of_nat (size_of (H := MplsHeader))) with 4 in E.
    unfold zlen in E. destruct (bottom_of_stack h); [done|]. apply IH; lia.
  - unfold take_hdr in E. by destruct (_ <? _)%nat.
Qed.

Lemma spec_nibble_fuel l : spec_nibble l ≠ DFuel.
Proof.
  unfold spec_nibble, spec_peek, nibble_ethertype. destruct l; [done|]. cbn [dbind].
  by repeat case_match.
Qed.

Lemma spec_next_fuel f1 f2 l ty : (length l < f1)%nat → (length l < f2)%nat →
  spec_next f1 l ty = spec_next f2 l ty ∧ spec_next f1 l ty ≠ DFuel.
Proof.
  revert f2 l ty; induction f1 as [|f1 IH]; intros [|f2] l ty H1 H2; try lia.
  cbn [spec_next]. destruct (_ || _).
  - destruct (take_hdr VlanHeader l) as [[h l']|e|] eqn:E; cbn [dbind]; try done.
    + apply take_hdr_length in E. change (Z.of_nat (size_of (H := VlanHeader))) with 4 in E.
      unfold zlen in E. apply IH; lia.
    + unfold take_hdr in E. by destruct (_ <? _)%nat.
  - destruct (ty =? ETHERTYPE_MPLS); [|done].
    destruct (spec_labels_fuel (S f1) (S f2) l H1 H2) as [<- ?].
    destruct (spec_labels (S f1) l); cbn [dbind]; try done. split; [done|].
    apply spec_nibble_fuel.
Qed.

Lemma take_hdr_fuel H `{Pod H} l : take_hdr H l ≠ DFuel.
Proof. unfold take_hdr. by case_match. Qed.

Lemma skip_opts_fuel l n : skip_opts l n ≠ DFuel.
Proof. unfold skip_opts. by case_match. Qed.

Ltac no_fuel :=
  match goal with
  | |- context [take_hdr ?H ?l] =>
      let E := fresh "E" in
      destruct (take_hdr H l) as [[? ?]|?|] eqn:E; cbn [dbind];
        [ | done | by destruct (take_hdr_fuel H l)]
  | |- context [skip_opts ?l ?n] =>
      let E := fresh "E" in
      destruct (skip_opts l n) as [?|?|] eqn:E; cbn [dbind];
        [ | done | by destruct (skip_opts_fuel l n)]
  end.

Lemma spec_l2_fuel l link : spec_l2 l link ≠ DFuel.
Proof.
  unfold spec_l2, spec_accept.
  destruct (link =? LINKTYPE_ETHERNET).
  { no_fuel. apply take_hdr_length in E. unfold zlen in E.
    by destruct (spec_next_fuel (S (length l)) (S (length l)) l0 (eth_ether_type e)
      ltac:(lia) ltac:(lia)). }
  destruct (link =? LINKTYPE_RAW); [apply spec_nibble_fuel|].
  destruct (link =? LINKTYPE_NULL).
  { no_fuel. by repeat case_match. }
  destruct (link =? LINKTYPE_LINUX_SLL).
  { no_fuel. by repeat case_match. }
  destruct (link =? LINKTYPE_LINUX_SLL2); [|done].
  no_fuel. by repeat case_match.
Qed.

Lemma spec_l34_fuel l ty ts s : spec_l34 l ty ts s ≠ DFuel.
Proof.
  unfold spec_l34.
  assert (H3 : spec_l3 l ty ≠ DFuel).
  { unfold spec_l3, spec_ipv4, spec_ipv6. destruct (ty =? ETHERTYPE_IPV4).
    - no_fuel. destruct (_ <? 20); [done|]. destruct (20 <? _); [no_fuel|]; done.
    - destruct (ty =? ETHERTYPE_IPV6); [no_fuel|]; done. }
  destruct (spec_l3 l ty) as [[l3 l']|e|]; cbn [dbind]; try done.
  assert (H4 : spec_l4 l' (l3_protocol l3) ≠ DFuel).
  { unfold spec_l4, spec_tcp. destruct (_ =? IP_PROTO_TCP); [|done].
    no_fuel. destruct (_ <? 20); [done|]. destruct (20 <? _); [no_fuel|]; done. }
  by destruct (spec_l4 _ _) as [[l4 l'']|e|].
Qed.

(** ** Well-formed packets *)

Definition packet_ok (p : ParsedPacket) : Prop :=
  sock_ok (src_ip p, src_port p) ∧ sock_ok (dst_ip p, dst_port p) ∧
  0 <= tcp_flags p < 2 ^ 8 ∧ 0 <= tcp_seq p < 2 ^ 32 ∧ 0 <= tcp_ack p < 2 ^ 32 ∧
  0 <= wire_payload_len p < 2 ^ 16.

Lemma field_bound l o n : 0 <= be_combine (field o n l) < 256 ^ Z.of_nat n.
Proof.
  pose proof (be_combine_bound (field o n l)) as [? Hlt]. split; [done|].
  eapply Z.lt_le_trans; [exact Hlt|]. apply Z.pow_le_mono_r; [lia|].
  unfold zlen, field. rewrite length_take. lia.
Qed.

Lemma spec_l3_ok l ty l3 l' : spec_l3 l ty = DOk (l3, l') →
  ip_ok (l3_src_ip l3) ∧ ip_ok (l3_dst_ip l3) ∧ 0 <= l3_payload_length l3 < 2 ^ 16.
Proof.
  unfold spec_l3, spec_ipv4, spec_ipv6. intros H.
  destruct (ty =? ETHERTYPE_IPV4).
  - destruct (take_hdr Ipv4Header l) as [[ip l1]|e|] eqn:E; cbn [dbind] in H; try done.
    unfold take_hdr in E. destruct (_ <? _)%nat; [done|]. injection E as <- <-.
    destruct (_ <? 20) eqn:Ei; [done|]. zify_bool.
    destruct (if _ <? _ then skip_opts _ _ else _); cbn [dbind] in H; try done.
    injection H as <- <-. simpl. unfold sat_sub, ip4_total_length. simpl.
    pose proof (field_bound (take 20 l) 12 4). pose proof (field_bound (take 20 l) 16 4).
    pose proof (field_bound (take 20 l) 2 2). simpl in *. lia.
  - destruct (ty =? ETHERTYPE_IPV6); [|done].
    destruct (take_hdr Ipv6Header l) as [[ip l1]|e|] eqn:E; cbn [dbind] in H; try done.
    unfold take_hdr in E. destruct (_ <? _)%nat; [done|]. injection E as <- <-.
    injection H as <- <-. simpl. unfold ip6_payload_length. simpl.
    pose proof (field_bound (take 40 l) 8 16). pose proof (field_bound (take 40 l) 24 16).
    pose proof (field_bound (take 40 l) 4 2). simpl in *. lia.
Qed.

Lemma spec_l4_ok l proto l4 l' : spec_l4 l proto = DOk (l4, l') →
  0 <= l4_src_port l4 < 2 ^ 16 ∧ 0 <= l4_dst_port l4 < 2 ^ 16 ∧
  0 <= l4_seq l4 < 2 ^ 32 ∧ 0 <= l4_ack l4 < 2 ^ 32 ∧ 0 <= l4_flags l4 < 2 ^ 8 ∧
  20 <= l4_header_length l4 ∧ zlen l = l4_header_length l4 + zlen l'.
Proof.
  unfold spec_l4, spec_tcp. intros H. destruct (_ =? IP_PROTO_TCP); [|done].
  destruct (take_hdr TcpHeader l) as [[h l1]|e|] eqn:E; cbn [dbind] in H; try done.
  pose proof (take_hdr_length _ _ _ _ E) as Hlen.
  change (Z.of_nat (size_of (H := TcpHeader))) with 20 in Hlen.
  unfold take_hdr in E. destruct (_ <? _)%nat; [done|].
  assert (Hh : h = from_bytes (take 20 l)) by (injection E as <- _; done).
  destruct (hdr_data_offset h <? 20) eqn:Ei; [done|]. zify_bool.
  assert (Hs : ∃ l2, (if 20 <? hdr_data_offset h then skip_opts l1 (hdr_data_offset h - 20)
     else DOk l1) = DOk l2 ∧ zlen l1 = hdr_data_offset h - 20 + zlen l2).
  { destruct (20 <? hdr_data_offset h) eqn:E20; zify_bool.
    - unfold skip_opts in *. destruct (zlen l1 <? _) eqn:Ez; [done|]. zify_bool.
      eexists; split; [done|]. unfold zlen in *. rewrite length_drop. lia.
    - eexists; split; [done|]. lia. }
  destruct Hs as (l2 & Hl2 & Hz). rewrite Hl2 in H. cbn [dbind] in H.
  injection H as <- <-. cbn [l4_src_port l4_dst_port l4_seq l4_ack l4_flags l4_header_length].
  rewrite Hh in *. unfold hdr_src_port, hdr_dst_port, hdr_seq, hdr_ack, hdr_flags; simpl.
  pose proof (field_bound (take 20 l) 0 2). pose proof (field_bound (take 20 l) 2 2).
  pose proof (field_bound (take 20 l) 4 4). pose proof (field_bound (take 20 l) 8 4).
  pose proof (byteZ_range (byte_at 1 (field 12 2 (take 20 l)))).
  simpl in *. repeat split; lia.
Qed.

Lemma take_eth (macs : list byte) (x y : byte) (l : list byte) : length macs = 12%nat →
  ∃ d r, take_hdr EthernetHeader (macs ++ x :: y :: l) = DOk (mkEth d r [x; y], l).
Proof.
  intros Hm. unfold take_hdr. change (size_of (H := EthernetHeader)) with 14%nat.
  rewrite length_app. simpl length.
  destruct (_ <? _)%nat eqn:E; [apply Nat.ltb_lt in E; lia|].
  replace (macs ++ x :: y :: l) with ((macs ++ [x; y]) ++ l) by by rewrite <- app_assoc.
  rewrite take_app_exact, drop_app_exact by (rewrite length_app; simpl; lia).
  unfold from_bytes; simpl. unfold field at 3. rewrite drop_app_exact by lia.
  by do 2 eexists.
Qed.

Lemma spec_next_tag fuel (t0 t1 r0 r1 x y : byte) (l : list byte) :
  be_combine [x; y] = ETHERTYPE_VLAN ∨ be_combine [x; y] = ETHERTYPE_QINQ →
  spec_next (S fuel) (t0 :: t1 :: r0 :: r1 :: l) (be_combine [x; y])
    = spec_next fuel l (be_combine [r0; r1]).
Proof.
  intros Ht. cbn [spec_next].
  assert ((be_combine [x; y] =? ETHERTYPE_VLAN) || (be_combine [x; y] =? ETHERTYPE_QINQ) = true)
    as -> by (destruct Ht as [-> | ->]; done).
  done.
Qed.

(** ** Properties of the decoder *)

(** C34: [decode] refines the list-based reference decoder: for every capture,
    link type, timestamp and source, the cursor arithmetic of [PacketBuf]
    (offsets, logical length, option skipping, truncation to the IP length)
    computes exactly the function that peels headers off a byte list. *)
Theorem decode_refines_spec :
  ∀ (data : list byte) (link ts : Z) (source_id : string),
    decode data link ts source_id = spec_decode data link ts source_id.
Proof. exact decode_eq_spec. Qed.

Lemma decode_no_fuel (data : list byte) (link ts : Z) (s : string) :
  decode data link ts s ≠ DFuel.
Proof.
  rewrite decode_eq_spec. unfold spec_decode. pose proof (spec_l2_fuel data link).
  destruct (spec_l2 data link) as [[ty l]|e|]; cbn [dbind]; try done.
  apply spec_l34_fuel.
Qed.

(** What every decoded packet satisfies. *)
Lemma decode_packet_ok (data : list byte) (link ts : Z) (s : string) (p : ParsedPacket) :
  decode data link ts s = DOk p →
  packet_ok p ∧
  flow_key p = flow_key_new s (src_ip p) (src_port p) (dst_ip p) (dst_port p) ∧
  (direction p = AtoB → addr_a (flow_key p) = (src_ip p, src_port p)) ∧
  (direction p = BtoA → addr_b (flow_key p) = (src_ip p, src_port p)).
Proof.
  rewrite decode_eq_spec. intros E. unfold spec_decode, spec_l34 in E.
  destruct (spec_l2 _ _) as [[ty l]|?|]; cbn [dbind] in E; try done.
  destruct (spec_l3 _ _) as [[l3 l']|?|] eqn:E3; cbn [dbind] in E; try done.
  destruct (spec_l4 _ _) as [[l4 l'']|?|] eqn:E4; cbn [dbind] in E; try done.
  apply spec_l3_ok in E3. apply spec_l4_ok in E4. injection E as <-.
  unfold mk_packet, packet_ok, sock_ok, sat_sub; simpl.
  split; [repeat split; tauto || lia|]. split; [done|].
  unfold flow_key_new. by destruct (sock_leb _ _).
Qed.

Lemma decode_flow_key (data : list byte) (link ts : Z) (s : string) (p : ParsedPacket) :
  decode data link ts s = DOk p →
  flow_key p = flow_key_new s (src_ip p) (src_port p) (dst_ip p) (dst_port p).
Proof. by intros (_ & H & _)%decode_packet_ok. Qed.

(** [decode] is total and well-typed: on every byte string it terminates
    with an error or a packet; a packet's addresses, ports, sequence numbers,
    flags and wire length fit their machine widths, and its direction and flow
    key agree with its endpoints. *)
Theorem decode_total_well_formed :
  ∀ (data : list byte) (link ts : Z) (source_id : string),
    (∃ e, decode data link ts source_id = DErr e) ∨
    (∃ p, decode data link ts source_id = DOk p ∧ packet_ok p ∧
       flow_key p = flow_key_new source_id (src_ip p) (src_port p) (dst_ip p) (dst_port p) ∧
       (direction p = AtoB → addr_a (flow_key p) = (src_ip p, src_port p)) ∧
       (direction p = BtoA → addr_b (flow_key p) = (src_ip p, src_port p))).
Proof.
  intros data link ts s. pose proof (decode_no_fuel data link ts s) as Hf.
  destruct (decode data link ts s) as [p|e|] eqn:E; [right|by left; eexists|done].
  exists p. split; [done|]. by apply (decode_packet_ok data link ts).
Qed.

(** VLAN and QinQ tags are transparent: a frame with one tag inserted after
    its MAC addresses decodes, error or packet, exactly as the untagged frame. *)
Theorem vlan_tag_transparent :
  ∀ (macs tci rest : list byte) (tag ts : Z) (source_id : string)
    (Htag : tag = ETHERTYPE_VLAN ∨ tag = ETHERTYPE_QINQ)
    (Hmacs : length macs = 12%nat) (Htci : length tci = 2%nat)
    (Hrest : (2 <= length rest)%nat),
    decode (macs ++ be_bytes 2 tag ++ tci ++ rest) LINKTYPE_ETHERNET ts source_id
      = decode (macs ++ rest) LINKTYPE_ETHERNET ts source_id.
Proof.
  intros. rewrite !decode_eq_spec. unfold spec_decode, spec_l2.
  change (LINKTYPE_ETHERNET =? LINKTYPE_ETHERNET) with true. cbv iota.
  destruct tci as [|t0 [|t1 [|]]]; try done.
  destruct rest as [|r0 [|r1 rest]]; simpl in Hrest; try lia.
  change (be_bytes 2 tag ++ [t0; t1] ++ r0 :: r1 :: rest)
    with (Zbyte (tag / 256) :: Zbyte tag :: t0 :: t1 :: r0 :: r1 :: rest).
  destruct (take_eth macs (Zbyte (tag / 256)) (Zbyte tag)
    (t0 :: t1 :: r0 :: r1 :: rest) Hmacs) as (d & r & ->).
  destruct (take_eth macs r0 r1 rest Hmacs) as (d' & r' & ->).
  cbn [dbind]. unfold eth_ether_type; cbn [eth_type_raw].
  rewrite spec_next_tag by (destruct Htag; subst; vm_compute; tauto).
  match goal with |- dbind (spec_next ?f ?l ?ty) _ = dbind (spec_next ?g _ _) _ =>
    destruct (spec_next_fuel f g l ty) as [-> _]; [| |done] end;
    rewrite ?length_app; simpl; lia.
Qed.

Lemma vlan_tag_transparent_witness :
  decode (replicate 12 x00 ++ be_bytes 2 ETHERTYPE_VLAN ++ [x00; x05] ++ [x08; x00])
    LINKTYPE_ETHERNET 0 "s" = DErr Truncated.
Proof.
  rewrite (vlan_tag_transparent (replicate 12 x00) [x00; x05] [x08; x00] ETHERTYPE_VLAN 0 "s");
    [vm_compute; reflexivity|by left|reflexivity|reflexivity|simpl; lia].
Defined.
