(* ===== verification/Synth.v ===== *)
(** * Frame synthesis (h-capture/src/synth.rs)

    [FlowSynthesizer] turns plaintext chunks of a connection into Ethernet/IP/TCP
    frames.  The component's contract, stated in its module comment as the
    "invariants the reassembler imposes", is proved here against the decoder of
    [Decode]: every frame decodes, with the fields it was built from, with a
    wire length equal to its payload, and is never a heartbeat. *)

From Stdlib Require Import Strings.Byte ZArith Lia.
From stdpp Require Import base gmap sets list strings.
From S2P Require Import Prelude.
From S2P Require Import Net.
From S2P Require Import Decode.

Open Scope Z_scope.

Definition TCP_HDR_LEN : Z := 20.
Definition IPV4_HDR_LEN : Z := 20.
Definition MAX_SEGMENT_PAYLOAD : Z := 60000.
Definition DEFAULT_SEGMENT_SIZE : Z := 16 * 1024.
Definition SYNTH_ISN : Z := 1.

Inductive StreamDir : Type := ClientToServer | ServerToClient.

Record ConnTuple : Type := mkTuple { ct_client : sock; ct_server : sock }.

Record SynthConfig : Type := mkSynthConfig {
  sc_source_id : string;
  segment_size : Z;
  emit_handshake : bool;
}.

Definition effective_segment (c : SynthConfig) : Z :=
  if segment_size c =? 0 then DEFAULT_SEGMENT_SIZE
  else Z.min (segment_size c) MAX_SEGMENT_PAYLOAD.

Record ConnState : Type := mkConn {
  cs_tuple : ConnTuple;
  hi_off_c2s : Z;
  hi_off_s2c : Z;
}.

Definition conn_new (t : ConnTuple) : ConnState := mkConn t 0 0.

Definition hi_off (c : ConnState) (d : StreamDir) : Z :=
  match d with ClientToServer => hi_off_c2s c | ServerToClient => hi_off_s2c c end.

Definition observe (c : ConnState) (d : StreamDir) (end_ : Z) : ConnState :=
  match d with
  | ClientToServer =>
      if hi_off_c2s c <? end_ then mkConn (cs_tuple c) end_ (hi_off_s2c c) else c
  | ServerToClient =>
      if hi_off_s2c c <? end_ then mkConn (cs_tuple c) (hi_off_c2s c) end_ else c
  end.

Definition endpoints (c : ConnState) (d : StreamDir) : sock * sock :=
  match d with
  | ClientToServer => (ct_client (cs_tuple c), ct_server (cs_tuple c))
  | ServerToClient => (ct_server (cs_tuple c), ct_client (cs_tuple c))
  end.

(** ** Header builders *)

Definition to_ipv6 (ip : IpAddr) : Z :=
  match ip with
  | V6 a => a
  | V4 a => 0xFFFF * 2 ^ 32 + a
  end.

Definition zeros (n : nat) : list byte := replicate n x00.

Definition push_ipv4 (src dst : Z) (l4_len : Z) : list byte :=
  let total_length := wrap 16 (IPV4_HDR_LEN + l4_len) in
  [Zbyte 0x45; x00] ++ be_bytes 2 total_length ++ zeros 4 ++
  [Zbyte 64; Zbyte IP_PROTO_TCP] ++ zeros 2 ++ be_bytes 4 src ++ be_bytes 4 dst.

Definition push_ipv6 (src dst : Z) (l4_len : Z) : list byte :=
  let payload_length := wrap 16 l4_len in
  [Zbyte 0x60] ++ zeros 3 ++ be_bytes 2 payload_length ++
  [Zbyte IP_PROTO_TCP; Zbyte 64] ++ be_bytes 16 src ++ be_bytes 16 dst.

Definition push_tcp (src_port dst_port seq ack flags : Z) : list byte :=
  be_bytes 2 src_port ++ be_bytes 2 dst_port ++ be_bytes 4 seq ++ be_bytes 4 ack ++
  [Zbyte 0x50; Zbyte flags] ++ be_bytes 2 0xFFFF ++ zeros 4.

Definition frame_bytes (src dst : sock) (seq ack flags : Z) (body : list byte) : list byte :=
  zeros 12 ++
  match src.1, dst.1 with
  | V4 s, V4 d => be_bytes 2 ETHERTYPE_IPV4 ++ push_ipv4 s d (TCP_HDR_LEN + zlen body)
  | s, d => be_bytes 2 ETHERTYPE_IPV6 ++
              push_ipv6 (to_ipv6 s) (to_ipv6 d) (TCP_HDR_LEN + zlen body)
  end ++
  push_tcp src.2 dst.2 seq ack flags ++ body.

Definition frame (cfg : SynthConfig) (src dst : sock) (seq ack flags : Z)
    (body : list byte) (ts : Z) : RawPacket :=
  let data := frame_bytes src dst seq ack flags body in
  {| raw_ts := ts;
     caplen := wrap 32 (zlen data);
     wirelen := wrap 32 (zlen data);
     raw_link_type := LINKTYPE_ETHERNET;
     raw_data := data;
     raw_source := sc_source_id cfg;
     raw_process := None |}.

(** ** Placeholder tuples *)

Definition u8_of (z : Z) : Z := wrap 8 z.

Definition synthetic_port (lo generation : Z) : Z :=
  wrap 16 (wrap 16 (1024 + wrap 16 (Z.shiftr lo 16))
           + wrap 16 (wrap 16 generation * 40503)).

Definition synthetic_tuple_gen (conn_id generation : Z) : ConnTuple :=
  let lo := wrap 32 conn_id in
  let hi := wrap 32 (Z.shiftr conn_id 32) in
  let client_ip := V4 (be_combine_acc 0
    [Zbyte 127; Zbyte 64; Zbyte (Z.shiftr lo 8); Zbyte lo]) in
  let client_port := synthetic_port lo generation in
  let server_ip := V4 (be_combine_acc 0
    [Zbyte 192; Zbyte 0; Zbyte 2; Zbyte (Z.land hi 0xFF)]) in
  mkTuple (client_ip, Z.max client_port 1024) (server_ip, 443).

Definition synthetic_tuple (conn_id : Z) : ConnTuple := synthetic_tuple_gen conn_id 0.

(** ** The synthesizer *)

Record FlowSynthesizer : Type := mkSynth {
  fs_cfg : SynthConfig;
  fs_conns : gmap Z ConnState;
  fs_generations : gmap Z Z;
}.

Definition synth_new (cfg : SynthConfig) : FlowSynthesizer := mkSynth cfg ∅ ∅.

Definition generation (s : FlowSynthesizer) (conn_id : Z) : Z :=
  default 0 (fs_generations s !! conn_id).

Definition is_open (s : FlowSynthesizer) (conn_id : Z) : bool :=
  bool_decide (is_Some (fs_conns s !! conn_id)).

Definition conn_count (s : FlowSynthesizer) : nat := size (fs_conns s).

Definition open (s : FlowSynthesizer) (conn_id : Z) (t : ConnTuple) (ts : Z)
    : list RawPacket * FlowSynthesizer :=
  let state := conn_new t in
  let out :=
    if emit_handshake (fs_cfg s) then
      let '(csrc, cdst) := endpoints state ClientToServer in
      let '(ssrc, sdst) := endpoints state ServerToClient in
      [frame (fs_cfg s) csrc cdst 0 0 TCP_SYN [] ts;
       frame (fs_cfg s) ssrc sdst 0 1 (Z.lor TCP_SYN TCP_ACK) [] ts]
    else [] in
  (out, mkSynth (fs_cfg s) (<[conn_id := state]> (fs_conns s)) (fs_generations s)).

(** The segmentation loop of [data]: [offset] bytes are already emitted.  Every
    round advances by at least one byte, so [length bytes] rounds suffice. *)
Fixpoint segment_loop (fuel : nat) (cfg : SynthConfig) (src dst : sock) (seq0 : Z)
    (bytes : list byte) (offset : Z) (ts : Z) : list RawPacket :=
  match fuel with
  | O => []
  | S fuel' =>
      if offset <? zlen bytes then
        let end_ := Z.min (offset + effective_segment cfg) (zlen bytes) in
        let chunk := take (Z.to_nat (end_ - offset)) (drop (Z.to_nat offset) bytes) in
        let seq := u32_add seq0 (wrap 32 offset) in
        frame cfg src dst seq 1 (Z.lor TCP_PSH TCP_ACK) chunk ts
          :: segment_loop fuel' cfg src dst seq0 bytes end_ ts
      else []
  end.

Definition data (s : FlowSynthesizer) (conn_id : Z) (dir : StreamDir) (bytes : list byte)
    (seq_off ts : Z) : list RawPacket * FlowSynthesizer :=
  match bytes with
  | [] => ([], s)
  | _ =>
      let gen := generation s conn_id in
      let state := default (conn_new (synthetic_tuple_gen conn_id gen))
                     (fs_conns s !! conn_id) in
      let '(src, dst) := endpoints state dir in
      let seq0 := u32_add SYNTH_ISN (wrap 32 seq_off) in
      let out := segment_loop (length bytes) (fs_cfg s) src dst seq0 bytes 0 ts in
      (out, mkSynth (fs_cfg s)
              (<[conn_id := observe state dir (seq_off + zlen bytes)]> (fs_conns s))
              (fs_generations s))
  end.

Definition close (s : FlowSynthesizer) (conn_id ts : Z) : list RawPacket * FlowSynthesizer :=
  let gens := <[conn_id := u32_add (generation s conn_id) 1]> (fs_generations s) in
  match fs_conns s !! conn_id with
  | None => ([], mkSynth (fs_cfg s) (fs_conns s) gens)
  | Some state =>
      let c_seq := u32_add SYNTH_ISN (wrap 32 (hi_off state ClientToServer)) in
      let s_seq := u32_add SYNTH_ISN (wrap 32 (hi_off state ServerToClient)) in
      let '(csrc, cdst) := endpoints state ClientToServer in
      let '(ssrc, sdst) := endpoints state ServerToClient in
      ([frame (fs_cfg s) csrc cdst c_seq 1 (Z.lor TCP_FIN TCP_ACK) [] ts;
        frame (fs_cfg s) ssrc sdst s_seq 1 (Z.lor TCP_FIN TCP_ACK) [] ts],
       mkSynth (fs_cfg s) (delete conn_id (fs_conns s)) gens)
  end.

(** ** A frame decodes to what it was built from *)

(** The endpoints as they appear on the wire: unchanged when both are IPv4,
    both widened to IPv6 otherwise. *)
Definition wire_ips (src dst : IpAddr) : IpAddr * IpAddr :=
  match src, dst with
  | V4 s, V4 d => (V4 s, V4 d)
  | s, d => (V6 (to_ipv6 s), V6 (to_ipv6 d))
  end.

Lemma be_combine2 z : 0 <= z < 2 ^ 16 → be_combine (be_bytes 2 z) = z.
Proof. intros. apply be_combine_be_bytes. simpl. lia. Qed.
Lemma be_combine4 z : 0 <= z < 2 ^ 32 → be_combine (be_bytes 4 z) = z.
Proof. intros. apply be_combine_be_bytes. simpl. lia. Qed.
Lemma be_combine16 z : 0 <= z < 2 ^ 128 → be_combine (be_bytes 16 z) = z.
Proof. intros. apply be_combine_be_bytes. simpl. lia. Qed.

(** A field of a header assembled from pieces: skip the pieces before it. *)
Lemma field_app_skip o n (p l : list byte) : (length p <= o)%nat →
  field o n (p ++ l) = field (o - length p) n l.
Proof. intros. unfold field. by rewrite drop_app_ge. Qed.

Lemma field_app_here n (p l : list byte) : length p = n → field 0 n (p ++ l) = p.
Proof. intros. unfold field. rewrite drop_0. by apply take_app_exact. Qed.

Lemma take_field m o n (l : list byte) : (o + n <= m)%nat → field o n (take m l) = field o n l.
Proof.
  intros. unfold field. rewrite skipn_firstn_comm, take_take. f_equal. lia.
Qed.

Lemma byte_at_take m o (l : list byte) : (o < m)%nat → byte_at o (take m l) = byte_at o l.
Proof.
  intros. unfold byte_at. revert o l H. induction m as [|m IH]; intros o l ?; [lia|].
  destruct l, o; try done. simpl. apply IH. lia.
Qed.

Lemma byte_at_app o (p l : list byte) : (length p <= o)%nat →
  byte_at o (p ++ l) = byte_at (o - length p) l.
Proof. intros. unfold byte_at. by rewrite app_nth2 by lia. Qed.

Ltac seek :=
  repeat (rewrite field_app_skip
            by (rewrite ?length_be_bytes; unfold zeros; rewrite ?length_replicate; simpl; lia);
          rewrite ?length_be_bytes; unfold zeros; rewrite ?length_replicate;
          cbn [Nat.sub length]);
  rewrite field_app_here
    by (rewrite ?length_be_bytes; unfold zeros; rewrite ?length_replicate; reflexivity).

Lemma length_push_tcp sp dp seq ack flags : length (push_tcp sp dp seq ack flags) = 20%nat.
Proof. unfold push_tcp. rewrite !length_app, !length_be_bytes. reflexivity. Qed.
Lemma length_push_ipv4 s d n : length (push_ipv4 s d n) = 20%nat.
Proof. unfold push_ipv4. rewrite !length_app, !length_be_bytes. reflexivity. Qed.
Lemma length_push_ipv6 s d n : length (push_ipv6 s d n) = 40%nat.
Proof. unfold push_ipv6. rewrite !length_app, !length_be_bytes. reflexivity. Qed.

Lemma take_hdr_app H `{Pod H} (p l : list byte) : length p = size_of (H := H) →
  take_hdr H (p ++ l) = DOk (from_bytes p, l).
Proof.
  intros Hp. unfold take_hdr. rewrite length_app.
  destruct (_ <? _)%nat eqn:E; [apply Nat.ltb_lt in E; lia|].
  by rewrite take_app_exact, drop_app_exact.
Qed.

Lemma spec_tcp_push sp dp seq ack flags body :
  0 <= sp < 2 ^ 16 → 0 <= dp < 2 ^ 16 → 0 <= seq < 2 ^ 32 → 0 <= ack < 2 ^ 32 →
  0 <= flags < 2 ^ 8 →
  spec_tcp (push_tcp sp dp seq ack flags ++ body)
    = DOk (mkL4 sp dp seq ack flags 20, body).
Proof.
  intros. unfold spec_tcp. rewrite take_hdr_app by apply length_push_tcp. cbn [dbind].
  assert (Hoff : hdr_data_offset (from_bytes (push_tcp sp dp seq ack flags)) = 20).
  { unfold hdr_data_offset, push_tcp; cbn [from_bytes Pod_tcp tcp_data_offset_flags]. seek.
    reflexivity. }
  rewrite Hoff. cbn [Z.ltb Z.compare Pos.compare Pos.compare_cont dbind].
  unfold hdr_src_port, hdr_dst_port, hdr_seq, hdr_ack, hdr_flags, push_tcp;
    cbn [from_bytes Pod_tcp tcp_src_port_raw tcp_dst_port_raw tcp_seq_raw tcp_ack_raw
         tcp_data_offset_flags].
  do 2 f_equal. f_equal.
  - rewrite field_app_here by done. by apply be_combine2.
  - seek. by apply be_combine2.
  - seek. by apply be_combine4.
  - seek. by apply be_combine4.
  - seek. unfold byte_at; simpl nth. rewrite byteZ_Zbyte, Z.mod_small; lia.
Qed.

Lemma spec_ipv4_push s d n l :
  0 <= s < 2 ^ 32 → 0 <= d < 2 ^ 32 → 0 <= n → IPV4_HDR_LEN + n < 2 ^ 16 → zlen l = n →
  spec_ipv4 (push_ipv4 s d n ++ l) = DOk (mkL3 (V4 s) (V4 d) IP_PROTO_TCP n, l).
Proof.
  intros Hs Hd Hn Hlt Hl. unfold spec_ipv4.
  rewrite take_hdr_app by apply length_push_ipv4. cbn [dbind].
  assert (Htot : ip4_total_length (from_bytes (push_ipv4 s d n)) = IPV4_HDR_LEN + n).
  { unfold ip4_total_length, push_ipv4; cbn [from_bytes Pod_ipv4 ip4_total_length_raw]. seek.
    unfold IPV4_HDR_LEN in *. rewrite wrap_small by lia. apply be_combine2. lia. }
  assert (Hihl : ip4_ihl (from_bytes (push_ipv4 s d n)) = 20) by reflexivity.
  rewrite Hihl, Htot. unfold IPV4_HDR_LEN in *.
  change (20 <? 20) with false. cbv iota. cbn [dbind].
  destruct (20 <=? 20 + n) eqn:E; [|zify_bool; lia].
  replace (20 + n - 20) with n by lia.
  rewrite firstn_all2 by (unfold zlen in Hl; lia).
  do 2 f_equal. f_equal.
  - unfold ip4_src_ip, push_ipv4; cbn [from_bytes Pod_ipv4 ip4_src]. seek.
    f_equal. by apply be_combine4.
  - unfold ip4_dst_ip, push_ipv4; cbn [from_bytes Pod_ipv4 ip4_dst].
    replace (be_bytes 4 d) with (be_bytes 4 d ++ []) by apply app_nil_r. seek.
    f_equal. by apply be_combine4.
  - unfold sat_sub. lia.
Qed.

Lemma spec_ipv6_push s d n l :
  0 <= s < 2 ^ 128 → 0 <= d < 2 ^ 128 → 0 <= n < 2 ^ 16 → zlen l = n →
  spec_ipv6 (push_ipv6 s d n ++ l) = DOk (mkL3 (V6 s) (V6 d) IP_PROTO_TCP n, l).
Proof.
  intros Hs Hd Hn Hl. unfold spec_ipv6.
  rewrite take_hdr_app by apply length_push_ipv6. cbn [dbind].
  assert (Hpay : ip6_payload_length (from_bytes (push_ipv6 s d n)) = n).
  { unfold ip6_payload_length, push_ipv6; cbn [from_bytes Pod_ipv6 ip6_payload_length_raw].
    seek. rewrite wrap_small by lia. apply be_combine2. lia. }
  rewrite Hpay. rewrite firstn_all2 by (unfold zlen in Hl; lia).
  do 2 f_equal. f_equal.
  - unfold ip6_src_ip, push_ipv6; cbn [from_bytes Pod_ipv6 ip6_src]. seek.
    f_equal. by apply be_combine16.
  - unfold ip6_dst_ip, push_ipv6; cbn [from_bytes Pod_ipv6 ip6_dst].
    replace (be_bytes 16 d) with (be_bytes 16 d ++ []) by apply app_nil_r. seek.
    f_equal. by apply be_combine16.
Qed.

Lemma to_ipv6_range ip : ip_ok ip → 0 <= to_ipv6 ip < 2 ^ 128.
Proof. destruct ip; simpl; lia. Qed.

Lemma be_bytes2_eq z : be_bytes 2 z = [Zbyte (z / 256); Zbyte z].
Proof. reflexivity. Qed.

(** The decoder inverts the frame builder. *)
Lemma decode_frame_bytes src dst seq ack flags body ts s :
  sock_ok src → sock_ok dst → 0 <= seq < 2 ^ 32 → 0 <= ack < 2 ^ 32 → 0 <= flags < 2 ^ 8 →
  zlen body <= MAX_SEGMENT_PAYLOAD →
  decode (frame_bytes src dst seq ack flags body) LINKTYPE_ETHERNET ts s
  = DOk (mk_packet s ts
      (mkL3 (wire_ips src.1 dst.1).1 (wire_ips src.1 dst.1).2 IP_PROTO_TCP
         (TCP_HDR_LEN + zlen body))
      (mkL4 src.2 dst.2 seq ack flags 20) body).
Proof.
  intros [Hsi Hsp] [Hdi Hdp] Hseq Hack Hfl Hlen. rewrite decode_eq_spec.
  unfold spec_decode, spec_l2. change (LINKTYPE_ETHERNET =? LINKTYPE_ETHERNET) with true.
  cbv iota. pose proof (zlen_nonneg body). unfold MAX_SEGMENT_PAYLOAD, TCP_HDR_LEN in *.
  assert (Hz : zlen (push_tcp src.2 dst.2 seq ack flags ++ body) = 20 + zlen body).
  { rewrite zlen_app. unfold zlen. rewrite length_push_tcp. lia. }
  assert (Htcp : spec_l4 (push_tcp src.2 dst.2 seq ack flags ++ body) IP_PROTO_TCP
     = DOk (mkL4 src.2 dst.2 seq ack flags 20, body)) by (by apply spec_tcp_push).
  unfold frame_bytes.
  pose proof (to_ipv6_range src.1 Hsi). pose proof (to_ipv6_range dst.1 Hdi).
  assert (Hv6 : ∀ ip6 : list byte,
    dbind (take_hdr EthernetHeader (zeros 12 ++ (be_bytes 2 ETHERTYPE_IPV6 ++
       push_ipv6 (to_ipv6 src.1) (to_ipv6 dst.1) (20 + zlen body)) ++
       push_tcp src.2 dst.2 seq ack flags ++ body))
      (λ '(hdr, l'), spec_next (S (length ip6)) l' (eth_ether_type hdr))
    = DOk (ETHERTYPE_IPV6, push_ipv6 (to_ipv6 src.1) (to_ipv6 dst.1) (20 + zlen body) ++
       push_tcp src.2 dst.2 seq ack flags ++ body)).
  { intros. rewrite be_bytes2_eq. rewrite <- !app_assoc.
    destruct (take_eth (zeros 12) (Zbyte (ETHERTYPE_IPV6 / 256)) (Zbyte ETHERTYPE_IPV6)
      (push_ipv6 (to_ipv6 src.1) (to_ipv6 dst.1) (20 + zlen body) ++
       push_tcp src.2 dst.2 seq ack flags ++ body) eq_refl) as (? & ? & Heq).
    change (zeros 12 ++ [?x; ?y] ++ ?l) with (zeros 12 ++ x :: y :: l).
    rewrite Heq. reflexivity. }
  unfold spec_l34, wire_ips, TCP_HDR_LEN.
  destruct (src.1) as [s4|s6] eqn:Es, (dst.1) as [d4|d6] eqn:Ed.
  2-4: rewrite Hv6; cbn [dbind];
       change (spec_l3 ?l ETHERTYPE_IPV6) with (spec_ipv6 l);
       rewrite spec_ipv6_push by (done || lia); cbn [dbind l3_protocol];
       rewrite Htcp; reflexivity.
  rewrite be_bytes2_eq. rewrite <- !app_assoc.
  destruct (take_eth (zeros 12) (Zbyte (ETHERTYPE_IPV4 / 256)) (Zbyte ETHERTYPE_IPV4)
      (push_ipv4 s4 d4 (20 + zlen body) ++ push_tcp src.2 dst.2 seq ack flags ++ body) eq_refl)
    as (? & ? & Heq).
  change (zeros 12 ++ [?x; ?y] ++ ?l) with (zeros 12 ++ x :: y :: l).
  rewrite Heq. cbn [dbind].
  change (spec_next (S ?f) ?l (eth_ether_type _)) with (@DOk (Z * list byte) (ETHERTYPE_IPV4, l)).
  cbn [dbind]. change (spec_l3 ?l ETHERTYPE_IPV4) with (spec_ipv4 l).
  rewrite spec_ipv4_push by (done || (unfold IPV4_HDR_LEN; simpl in *; lia)).
  cbn [dbind l3_protocol]. rewrite Htcp. reflexivity.
Qed.

(** The packet a frame decodes to. *)
Definition frame_packet (src dst : sock) (seq ack flags : Z) (body : list byte)
    (ts : Z) (s : string) : ParsedPacket :=
  mk_packet s ts
    (mkL3 (wire_ips src.1 dst.1).1 (wire_ips src.1 dst.1).2 IP_PROTO_TCP
       (TCP_HDR_LEN + zlen body))
    (mkL4 src.2 dst.2 seq ack flags 20) body.

(** Chunks laid end to end from sequence number [seq]. *)
Fixpoint place (seq : Z) (chunks : list (list byte)) : list (Z * list byte) :=
  match chunks with
  | [] => []
  | c :: cs => (seq, c) :: place (u32_add seq (zlen c)) cs
  end.

Lemma frame_wire_len src dst seq ack flags body ts s :
  wire_payload_len (frame_packet src dst seq ack flags body ts s) = zlen body.
Proof.
  unfold frame_packet, mk_packet, sat_sub, TCP_HDR_LEN; simpl.
  pose proof (zlen_nonneg body). lia.
Qed.

Lemma effective_segment_range cfg :
  0 <= segment_size cfg → 1 <= effective_segment cfg <= MAX_SEGMENT_PAYLOAD.
Proof.
  intros ?. unfold effective_segment, DEFAULT_SEGMENT_SIZE, MAX_SEGMENT_PAYLOAD.
  destruct (_ =? 0) eqn:E; zify_bool; lia.
Qed.

Lemma u32_add_shift a b c : 0 <= c →
  u32_add (u32_add a (wrap 32 b)) c = u32_add a (wrap 32 (b + c)).
Proof.
  intros. unfold u32_add, wrap.
  rewrite Zplus_mod_idemp_l, Zplus_mod_idemp_r.
  rewrite <- Z.add_assoc, (Z.add_comm (b `mod` 2 ^ 32) c), Z.add_assoc.
  rewrite Zplus_mod_idemp_r. f_equal. lia.
Qed.

(** The segmentation loop cuts the rest of the chunk into non-empty pieces no
    longer than the segment size, placed end to end. *)
Lemma segment_loop_spec cfg src dst seq0 bytes ts fuel offset :
  0 <= segment_size cfg → 0 <= offset → zlen bytes - offset <= Z.of_nat fuel →
  ∃ chunks,
    segment_loop fuel cfg src dst seq0 bytes offset ts
      = map (λ sc, frame cfg src dst sc.1 1 (Z.lor TCP_PSH TCP_ACK) sc.2 ts)
          (place (u32_add seq0 (wrap 32 offset)) chunks) ∧
    concat chunks = drop (Z.to_nat offset) bytes ∧
    Forall (λ c, 0 < zlen c <= effective_segment cfg) chunks.
Proof.
  intros Hs. pose proof (effective_segment_range cfg Hs) as Hseg.
  revert offset; induction fuel as [|fuel IH]; intros offset Ho Hf.
  - exists []. simpl. split; [done|]. split; [|done].
    symmetry. apply drop_ge. unfold zlen in Hf. lia.
  - cbn [segment_loop]. destruct (offset <? zlen bytes) eqn:E.
    2: { exists []. simpl. split; [done|]. split; [|done]. zify_bool.
         symmetry. apply drop_ge. unfold zlen in E. lia. }
    zify_bool.
    set (e := Z.min (offset + effective_segment cfg) (zlen bytes)).
    set (c := take (Z.to_nat (e - offset)) (drop (Z.to_nat offset) bytes)).
    assert (He : offset < e <= zlen bytes) by lia.
    assert (Hc : zlen c = e - offset).
    { unfold c, zlen in *. rewrite length_take, length_drop. lia. }
    destruct (IH e ltac:(lia) ltac:(lia)) as (chunks & -> & Hcat & Hall).
    exists (c :: chunks). split; [|split].
    + simpl. rewrite Hc, u32_add_shift by lia.
      by replace (offset + (e - offset)) with e by lia.
    + simpl. rewrite Hcat. unfold c.
      replace (Z.to_nat e) with (Z.to_nat offset + Z.to_nat (e - offset))%nat by lia.
      rewrite <- drop_drop. apply take_drop.
    + constructor; [lia|done].
Qed.

Definition tuple_ok (t : ConnTuple) : Prop := sock_ok (ct_client t) ∧ sock_ok (ct_server t).

(** Registered connections have real endpoints. *)
Definition synth_ok (s : FlowSynthesizer) : Prop :=
  0 <= segment_size (fs_cfg s) ∧
  ∀ k c, fs_conns s !! k = Some c → tuple_ok (cs_tuple c).

Lemma synthetic_tuple_ok k g : tuple_ok (synthetic_tuple_gen k g).
Proof.
  unfold tuple_ok, sock_ok, synthetic_tuple_gen; cbn [ct_client ct_server fst snd ip_ok].
  pose proof (be_combine_bound [Zbyte 127; Zbyte 64; Zbyte (Z.shiftr (wrap 32 k) 8);
    Zbyte (wrap 32 k)]) as H1.
  pose proof (be_combine_bound [Zbyte 192; Zbyte 0; Zbyte 2;
    Zbyte (Z.land (wrap 32 (Z.shiftr k 32)) 0xFF)]) as H2.
  unfold be_combine in H1, H2.
  change (256 ^ zlen _) with (2 ^ 32) in H1. change (256 ^ zlen _) with (2 ^ 32) in H2.
  pose proof (wrap_range 16 (wrap 16 (1024 + wrap 16 (Z.shiftr (wrap 32 k) 16))
           + wrap 16 (wrap 16 g * 40503)) ltac:(lia)).
  unfold synthetic_port. simpl in *. lia.
Qed.

Lemma observe_tuple c d e : cs_tuple (observe c d e) = cs_tuple c.
Proof. destruct d; simpl; by case_match. Qed.

(** ** Operations preserve [synth_ok] *)

Lemma open_ok s k t ts : synth_ok s → tuple_ok t → synth_ok (open s k t ts).2.
Proof.
  intros [Hs Hc] Ht. split; [done|]. intros k' c. simpl. rewrite lookup_insert_Some.
  intros [[-> <-]|[? ?]]; [done|eauto].
Qed.

Lemma state_for_ok s k : synth_ok s →
  tuple_ok (cs_tuple (default (conn_new (synthetic_tuple_gen k (generation s k)))
                        (fs_conns s !! k))).
Proof.
  intros [_ Hc]. destruct (fs_conns s !! k) eqn:E; simpl; [eauto|apply synthetic_tuple_ok].
Qed.

Lemma data_ok s k d bytes off ts : synth_ok s → synth_ok (data s k d bytes off ts).2.
Proof.
  intros Hok. unfold data. destruct bytes as [|b bytes]; [done|].
  destruct (endpoints _ _). split; [apply Hok|]. intros k' c. simpl.
  rewrite lookup_insert_Some. intros [[-> <-]|[? ?]]; [|by eapply Hok].
  rewrite observe_tuple. by apply state_for_ok.
Qed.

Lemma close_ok s k ts : synth_ok s → synth_ok (close s k ts).2.
Proof.
  intros [Hs Hc]. unfold close. destruct (fs_conns s !! k); simpl; split; try done.
  intros k' c'. simpl. rewrite lookup_delete_Some. intros [? ?]; eauto.
Qed.

(** ** Properties *)

(** Frame round trip: a synthesized frame is not a heartbeat and decodes to
    the endpoints (IPv4-mapped when families are mixed), sequence and
    acknowledgement numbers, flags and payload it was built from, with the
    on-wire payload length equal to the captured one. *)
Theorem synth_frame_roundtrip :
  ∀ (cfg : SynthConfig) (src dst : sock) (seq ack flags ts ts' : Z) (body : list byte)
    (source_id : string)
    (Hsrc : sock_ok src) (Hdst : sock_ok dst)
    (Hseq : 0 <= seq < 2 ^ 32) (Hack : 0 <= ack < 2 ^ 32) (Hflags : 0 <= flags < 2 ^ 8)
    (Hlen : zlen body <= MAX_SEGMENT_PAYLOAD),
    let raw := frame cfg src dst seq ack flags body ts in
    is_heartbeat raw = false ∧
    ∃ p, decode (raw_data raw) (raw_link_type raw) ts' source_id = DOk p ∧
      (src_ip p, dst_ip p) = wire_ips src.1 dst.1 ∧ src_port p = src.2 ∧ dst_port p = dst.2 ∧
      tcp_seq p = seq ∧ tcp_ack p = ack ∧ tcp_flags p = flags ∧
      payload p = body ∧ wire_payload_len p = zlen body.
Proof.
  intros. split.
  { unfold is_heartbeat, raw, frame, frame_bytes; cbn [raw_link_type raw_data].
    change (negb (LINKTYPE_ETHERNET =? 1)) with false. cbv iota.
    destruct (_ <? _); [done|]. destruct (existsb _ _); [done|].
    rewrite drop_app_exact by reflexivity.
    by destruct (src.1), (dst.1); rewrite be_bytes2_eq. }
  exists (frame_packet src dst seq ack flags body ts' source_id).
  split; [by apply decode_frame_bytes|].
  repeat split; [|apply frame_wire_len].
  symmetry; apply surjective_pairing.
Qed.

Lemma synth_frame_roundtrip_witness :
  ∃ p, decode (raw_data (frame (mkSynthConfig "ebpf" 0 true) (V4 2130706433, 40000)
                 (V6 1, 443) 4294967295 1 24 (B "GET / HTTP/1.1") 7))
         LINKTYPE_ETHERNET 7 "ebpf" = DOk p ∧ payload p = B "GET / HTTP/1.1".
Proof.
  destruct (synth_frame_roundtrip (mkSynthConfig "ebpf" 0 true) (V4 2130706433, 40000)
    (V6 1, 443) 4294967295 1 24 7 7 (B "GET / HTTP/1.1") "ebpf")
    as (_ & p & Hd & _ & _ & _ & _ & _ & _ & Hp & _);
    [unfold sock_ok; simpl; lia|unfold sock_ok; simpl; lia|lia|lia|lia|vm_compute; discriminate|].
  exists p. split; [exact Hd|exact Hp].
Defined.

(** [data] covers its chunk: the packets it emits decode, in order, to
    segments that are non-empty, at most one segment long, whose payloads
    concatenate to the chunk and whose sequence numbers run on from
    [SYNTH_ISN + seq_off] modulo 2^32, in the chunk's direction. *)
Theorem synth_data_covers_chunk :
  ∀ (s : FlowSynthesizer) (k : Z) (dir : StreamDir) (bytes : list byte) (off ts : Z)
    (Hok : synth_ok s),
    let st := default (conn_new (synthetic_tuple_gen k (generation s k))) (fs_conns s !! k) in
    let '(src, dst) := endpoints st dir in
    ∃ chunks,
      concat chunks = bytes ∧
      Forall (λ c, 0 < zlen c <= effective_segment (fs_cfg s)) chunks ∧
      map (λ r, decode (raw_data r) (raw_link_type r) (raw_ts r) (raw_source r))
        (data s k dir bytes off ts).1
      = map (λ sc, DOk (frame_packet src dst sc.1 1 (Z.lor TCP_PSH TCP_ACK) sc.2 ts
                          (sc_source_id (fs_cfg s))))
          (place (u32_add SYNTH_ISN (wrap 32 off)) chunks).
Proof.
  intros. destruct (endpoints st dir) as [src dst] eqn:Ee.
  assert (Hends : sock_ok src ∧ sock_ok dst).
  { destruct (state_for_ok s k Hok) as [? ?]. fold st in H, H0.
    unfold endpoints in Ee. destruct dir; injection Ee as <- <-; done. }
  destruct bytes as [|b bytes]; [by exists []|].
  set (l := b :: bytes). unfold data. fold l. cbn zeta. fold st. rewrite Ee.
  change (match l with [] => ?x | _ :: _ => ?y end) with y. cbn [fst].
  destruct (segment_loop_spec (fs_cfg s) src dst (u32_add SYNTH_ISN (wrap 32 off)) l ts
    (length l) 0 (proj1 Hok) ltac:(lia) ltac:(unfold zlen; lia))
    as (chunks & -> & Hcat & Hall).
  exists chunks. split; [done|]. split; [done|].
  assert (Hz : u32_add (u32_add SYNTH_ISN (wrap 32 off)) (wrap 32 0)
               = u32_add SYNTH_ISN (wrap 32 off)).
  { unfold u32_add at 1. rewrite (wrap_small 32 0) by lia. rewrite Z.add_0_r.
    apply wrap_small. apply wrap_range. lia. }
  rewrite Hz, map_map. pose proof (effective_segment_range _ (proj1 Hok)) as Hseg.
  assert (Hr : 0 <= u32_add SYNTH_ISN (wrap 32 off) < 2 ^ 32) by (apply wrap_range; lia).
  revert Hr. generalize (u32_add SYNTH_ISN (wrap 32 off)) as q. clear Hcat.
  induction Hall as [|c cs Hc Hcs IH]; intros q Hq; [done|]. simpl. f_equal.
  - unfold frame_packet. apply decode_frame_bytes; [tauto|tauto|lia|lia|vm_compute; by split|lia].
  - apply IH. apply wrap_range. lia.
Qed.

Lemma synth_data_covers_chunk_witness :
  ∃ chunks, concat chunks = B "POST /v1 HTTP/1.1" ∧
    Forall (λ c, 0 < zlen c <= 5) chunks.
Proof.
  assert (Hok : synth_ok (synth_new (mkSynthConfig "ebpf" 5 true)))
    by (split; [simpl; lia | intros k c Hk; vm_compute in Hk; discriminate]).
  destruct (synth_data_covers_chunk (synth_new (mkSynthConfig "ebpf" 5 true)) 7
    ClientToServer (B "POST /v1 HTTP/1.1") 0 1000 Hok) as (chunks & H1 & H2 & _).
  exists chunks. split; [exact H1|exact H2].
Defined.

(** Pointer reuse is visible: the placeholder tuple that the next
    connection on a [conn_id] gets after a close differs from the one used
    before the close, whatever the generation (its u32 wrap included). *)
Theorem synth_reuse_distinct :
  ∀ (s : FlowSynthesizer) (k ts : Z) (Hgen : 0 <= generation s k < 2 ^ 32),
    synthetic_tuple_gen k (generation (close s k ts).2 k)
      ≠ synthetic_tuple_gen k (generation s k).
Proof.
  intros s k ts Hg.
  assert (Hn : generation (close s k ts).2 k = u32_add (generation s k) 1).
  { unfold close, generation at 1. destruct (fs_conns s !! k);
      [destruct (endpoints _ _), (endpoints _ _)|];
      simpl; by rewrite lookup_insert_eq. }
  rewrite Hn. generalize dependent (generation s k). intros g Hg Hn' Heq.
  unfold synthetic_tuple_gen in Heq. injection Heq as Heq.
  unfold synthetic_port, u32_add, wrap in Heq.
  generalize dependent (1024 + (Z.shiftr (k `mod` 2 ^ 32) 16) `mod` 2 ^ 16). intros a Heq.
  assert (Hm : (((g + 1) `mod` 2 ^ 32) `mod` 2 ^ 16 * 40503) `mod` 2 ^ 16
             = ((g `mod` 2 ^ 16 * 40503) `mod` 2 ^ 16 + 40503) `mod` 2 ^ 16).
  { change (2 ^ 32) with (2 ^ 16 * 2 ^ 16).
    rewrite Z.rem_mul_r, (Z.mul_comm (2 ^ 16)), Z_mod_plus_full, Zmod_mod by lia.
    rewrite Zmult_mod_idemp_l, Zmult_mod_idemp_l, Zplus_mod_idemp_l. f_equal. lia. }
  rewrite Hm in Heq. generalize dependent ((g `mod` 2 ^ 16 * 40503) `mod` 2 ^ 16).
  intros x Heq _. revert Heq.
  rewrite Zplus_mod_idemp_l, (Zplus_mod_idemp_l a x), Zplus_mod_idemp_r.
  replace (a + (x + 40503)) with ((a + x) + 40503) by lia. generalize (a + x). clear. intros y.
  change (2 ^ 16) with 65536. intros Heq.
  Z.to_euclidean_division_equations. lia.
Qed.

Lemma synth_reuse_distinct_witness :
  synthetic_tuple_gen 5 (generation (close (synth_new (mkSynthConfig "e" 0 false)) 5 0).2 5)
    ≠ synthetic_tuple_gen 5 0.
Proof.
  apply (synth_reuse_distinct (synth_new (mkSynthConfig "e" 0 false)) 5 0).
  split; vm_compute; [discriminate|reflexivity].
Defined.
