(* ===== verification/Text.v ===== *)
(** * Text as the code sees it: UTF-8 byte strings

    The functions of Rust's [str], [char] and integer parsing that the HTTP and
    SSE code calls, on the bytes of the string: UTF-8 validation and lossy
    decoding, white-space trimming, ASCII case folding, substring search, line
    splitting, and [usize] parsing in radix 10 and 16.

    A Rust [String] is the list of its UTF-8 bytes.  Searching and splitting at
    ASCII patterns is the same on bytes as on characters, since no byte of a
    multi-byte character is ASCII. *)

From Stdlib Require Import Strings.Byte ZArith Lia.
From stdpp Require Import base gmap sets list strings.
From S2P Require Import Prelude.

Open Scope Z_scope.

Abbreviation text := (list byte).

Definition LF : byte := x0a.
Definition CR : byte := x0d.
Definition SP : byte := x20.

(** ** Prefixes, substrings, concatenation *)

(** [str::starts_with] / [slice::starts_with]. *)
Fixpoint starts_with (p l : text) : bool :=
  match p, l with
  | [], _ => true
  | a :: p', b :: l' => bool_decide (a = b) && starts_with p' l'
  | _ :: _, [] => false
  end.

Definition strip_prefix (p l : text) : option text :=
  if starts_with p l then Some (drop (length p) l) else None.

(** [str::find]: the index of the first occurrence. *)
Fixpoint find_sub (p l : text) : option nat :=
  if starts_with p l then Some O
  else match l with
       | [] => None
       | _ :: l' => S <$> find_sub p l'
       end.

(** [str::contains]. *)
Definition contains (p l : text) : bool :=
  match find_sub p l with Some _ => true | None => false end.

(** [[&str]::join]. *)
Fixpoint join (sep : text) (ls : list text) : text :=
  match ls with
  | [] => []
  | [l] => l
  | l :: ls' => l ++ sep ++ join sep ls'
  end.

(** [s.split(c).next()]: up to the first [c]. *)
Fixpoint until (c : byte) (l : text) : text :=
  match l with
  | [] => []
  | b :: l' => if bool_decide (b = c) then [] else b :: until c l'
  end.

(** After the first [c], if there is one. *)
Fixpoint after_first (c : byte) (l : text) : option text :=
  match l with
  | [] => None
  | b :: l' => if bool_decide (b = c) then Some l' else after_first c l'
  end.

(** [str::ends_with]. *)
Definition ends_with (p l : text) : bool := starts_with (rev p) (rev l).

(** [s.rsplit(c).next()]: after the last [c]. *)
Definition after_last (c : byte) (l : text) : text := rev (until c (rev l)).

(** [str::lines]: split after each line feed, drop the line feed and one
    carriage return before it; no line after a final line feed. *)
Fixpoint lines_acc (cur : text) (l : text) : list text :=
  match l with
  | [] => match cur with [] => [] | _ => [rev cur] end
  | b :: l' =>
      if bool_decide (b = LF) then
        rev (match cur with
             | c :: cur' => if bool_decide (c = CR) then cur' else cur
             | [] => []
             end) :: lines_acc [] l'
      else lines_acc (b :: cur) l'
  end.
Definition lines (l : text) : list text := lines_acc [] l.

(** ** ASCII case *)

Definition to_ascii_lower (b : byte) : byte :=
  if (65 <=? byteZ b) && (byteZ b <=? 90) then Zbyte (byteZ b + 32) else b.

Definition eq_ignore_ascii_case (a b : text) : bool :=
  bool_decide (map to_ascii_lower a = map to_ascii_lower b).

(** [str::to_lowercase], exact as far as a later search for an ASCII pattern can
    tell: outside ASCII, only U+212A (Kelvin sign, to [k]) and U+0130 (to [i]
    and a combining dot) produce ASCII characters; every other character lowers
    to non-ASCII characters and is left alone. *)
Fixpoint to_lowercase (l : text) : text :=
  match l with
  | xe2 :: x84 :: xaa :: l' => x6b :: to_lowercase l'
  | xc4 :: xb0 :: l' => x69 :: xcc :: x87 :: to_lowercase l'
  | b :: l' => to_ascii_lower b :: to_lowercase l'
  | [] => []
  end.

(** ** UTF-8 *)

Definition in_range (lo hi : Z) (b : byte) : bool := (lo <=? byteZ b) && (byteZ b <=? hi).
Definition is_cont (b : byte) : bool := in_range 0x80 0xBF b.

(** The length of the valid character or of the invalid sequence that starts
    the list (the maximal valid prefix of a character, or one byte). *)
Inductive utf8_step : Type :=
| Valid (n : nat)
| Invalid (n : nat).

(** Second-byte range of a three- and of a four-byte character. *)
Definition second_of_3 (b0 b1 : byte) : bool :=
  if byteZ b0 =? 0xE0 then in_range 0xA0 0xBF b1
  else if byteZ b0 =? 0xED then in_range 0x80 0x9F b1
  else is_cont b1.
Definition second_of_4 (b0 b1 : byte) : bool :=
  if byteZ b0 =? 0xF0 then in_range 0x90 0xBF b1
  else if byteZ b0 =? 0xF4 then in_range 0x80 0x8F b1
  else is_cont b1.

Definition cont_at (f : byte → bool) (o : nat) (l : text) : bool :=
  match l !! o with Some b => f b | None => false end.

Definition utf8_next (b0 : byte) (l : text) : utf8_step :=
  if byteZ b0 <? 0x80 then Valid 1
  else if in_range 0xC2 0xDF b0 then
    if cont_at is_cont 0 l then Valid 2 else Invalid 1
  else if in_range 0xE0 0xEF b0 then
    if negb (cont_at (second_of_3 b0) 0 l) then Invalid 1
    else if negb (cont_at is_cont 1 l) then Invalid 2
    else Valid 3
  else if in_range 0xF0 0xF4 b0 then
    if negb (cont_at (second_of_4 b0) 0 l) then Invalid 1
    else if negb (cont_at is_cont 1 l) then Invalid 2
    else if negb (cont_at is_cont 2 l) then Invalid 3
    else Valid 4
  else Invalid 1.

(** One round per byte at most: [length l] rounds always suffice. *)
Fixpoint utf8_valid_fuel (fuel : nat) (l : text) : bool :=
  match l, fuel with
  | [], _ => true
  | _ :: _, O => false
  | b :: l', S fuel' =>
      match utf8_next b l' with
      | Valid n => utf8_valid_fuel fuel' (drop n l)
      | Invalid _ => false
      end
  end.
Definition utf8_valid (l : text) : bool := utf8_valid_fuel (length l) l.

(** [std::str::from_utf8]. *)
Definition from_utf8 (l : text) : option text := if utf8_valid l then Some l else None.

Definition REPLACEMENT : text := [xef; xbf; xbd].

Fixpoint lossy_fuel (fuel : nat) (l : text) : text :=
  match l, fuel with
  | [], _ => []
  | _ :: _, O => []
  | b :: l', S fuel' =>
      match utf8_next b l' with
      | Valid n => take n l ++ lossy_fuel fuel' (drop n l)
      | Invalid n => REPLACEMENT ++ lossy_fuel fuel' (drop n l)
      end
  end.
(** [String::from_utf8_lossy]. *)
Definition from_utf8_lossy (l : text) : text := lossy_fuel (length l) l.

(** ** White space *)

(** The encodings of the [char::is_whitespace] characters. *)
Definition whitespace : list text :=
  map (λ b, [b]) [x09; x0a; x0b; x0c; x0d; x20]
  ++ [[xc2; x85]; [xc2; xa0]; [xe1; x9a; x80]; [xe2; x81; x9f]; [xe3; x80; x80]]
  ++ map (λ b, [xe2; x80; b])
       [x80; x81; x82; x83; x84; x85; x86; x87; x88; x89; x8a; xa8; xa9; xaf].

(** Byte length of the white-space character at the front, or 0; the same at
    the back, on the reversed string. *)
Definition ws_prefix (l : text) : nat :=
  match List.find (λ w, starts_with w l) whitespace with Some w => length w | None => 0 end.
Definition ws_suffix (r : text) : nat :=
  match List.find (λ w, starts_with (rev w) r) whitespace with Some w => length w | None => 0 end.

Fixpoint trim_fuel (ws : text → nat) (fuel : nat) (l : text) : text :=
  match fuel with
  | O => l
  | S fuel' => match ws l with O => l | n => trim_fuel ws fuel' (drop n l) end
  end.
Definition trim_start (l : text) : text := trim_fuel ws_prefix (length l) l.
Definition trim_end (l : text) : text :=
  rev (trim_fuel ws_suffix (length l) (rev l)).
Definition trim (l : text) : text := trim_end (trim_start l).

(** [trim_start_matches(' ')]. *)
Fixpoint trim_start_spaces (l : text) : text :=
  match l with
  | b :: l' => if bool_decide (b = SP) then trim_start_spaces l' else l
  | [] => []
  end.

(** ** [usize::from_str_radix] on a 64-bit target *)

Definition USIZE_MAX : Z := 2 ^ 64 - 1.

Definition digit_val (b : byte) : option Z :=
  if in_range 48 57 b then Some (byteZ b - 48)
  else if in_range 97 122 b then Some (byteZ b - 87)
  else if in_range 65 90 b then Some (byteZ b - 55)
  else None.

Fixpoint parse_digits (radix : Z) (acc : Z) (l : text) : option Z :=
  match l with
  | [] => Some acc
  | b :: l' =>
      match digit_val b with
      | Some d =>
          if d <? radix then
            let acc' := acc * radix + d in
            if acc' <=? USIZE_MAX then parse_digits radix acc' l' else None
          else None
      | None => None
      end
  end.

Definition from_str_radix (radix : Z) (l : text) : option Z :=
  match l with
  | [] => None
  | x2b :: l' => match l' with [] => None | _ => parse_digits radix 0 l' end
  | _ => parse_digits radix 0 l
  end.

(** [str::parse::<usize>]. *)
Definition parse_usize (l : text) : option Z := from_str_radix 10 l.

(** Printing a number in a radix up to 36, lower case: the reverse of
    [from_str_radix], used to state round trips. *)
Definition digit_byte (d : Z) : byte := Zbyte (if d <? 10 then 48 + d else 87 + d).

Fixpoint print_radix (fuel : nat) (radix z : Z) (acc : text) : text :=
  match fuel with
  | O => acc
  | S fuel' =>
      let acc' := digit_byte (z `mod` radix) :: acc in
      if z <? radix then acc' else print_radix fuel' radix (z / radix) acc'
  end.
(** 64 digits are enough for any [usize] in any radix. *)
Definition to_radix (radix z : Z) : text := print_radix 64 radix z [].

(** [{:016x}]. *)
Definition hex16 (z : Z) : text :=
  let t := to_radix 16 z in replicate (16 - length t) x30 ++ t.

(** ** Prefix and search lemmas *)

Lemma starts_with_spec (p l : text) :
  starts_with p l = true ↔ ∃ k, l = p ++ k.
Proof.
  revert l; induction p as [|a p IH]; intros l; simpl.
  { split; [by exists l | done]. }
  destruct l as [|b l].
  { split; [done|]. intros [k Hk]. discriminate. }
  rewrite andb_true_iff, bool_decide_eq_true, IH. split.
  - intros [-> [k ->]]. by exists k.
  - intros [k [= -> ->]]. eauto.
Qed.

Lemma starts_with_app (p k : text) : starts_with p (p ++ k) = true.
Proof. apply starts_with_spec. by exists k. Qed.

Lemma strip_prefix_app (p l : text) : strip_prefix p (p ++ l) = Some l.
Proof. unfold strip_prefix. by rewrite starts_with_app, drop_app_length. Qed.

Lemma starts_with_app_l (p l k : text) :
  starts_with p l = true → starts_with p (l ++ k) = true.
Proof.
  rewrite !starts_with_spec. intros [m ->]. exists (m ++ k). by rewrite app_assoc.
Qed.

Lemma starts_with_app_long (p l k : text) :
  (length p <= length l)%nat → starts_with p (l ++ k) = starts_with p l.
Proof.
  revert l; induction p as [|a p IH]; intros l Hl; [done|].
  destruct l as [|b l]; simpl in *; [lia|]. rewrite IH by lia. done.
Qed.

Lemma find_sub_Some (p l : text) (n : nat) :
  find_sub p l = Some n →
  ∃ a b, l = a ++ p ++ b ∧ length a = n.
Proof.
  revert n; induction l as [|x l IH]; intros n H; cbn [find_sub] in H;
    destruct (starts_with p _) eqn:E; simplify_eq.
  - apply starts_with_spec in E as [k ->]. by exists [], k.
  - apply starts_with_spec in E as [k ->]. by exists [], k.
  - destruct (find_sub p l) as [m|]; simplify_eq/=.
    destruct (IH m eq_refl) as (a & b & -> & <-). by exists (x :: a), b.
Qed.

Lemma find_sub_None (p l : text) :
  find_sub p l = None ↔ ∀ a b, l ≠ a ++ p ++ b.
Proof.
  split.
  - revert p; induction l as [|x l IH]; intros p H a b Heq; cbn [find_sub] in H;
      destruct (starts_with p _) eqn:E; simplify_eq.
    + destruct a, p; simplify_eq/=.
    + destruct (find_sub p l) eqn:Ef; [done|]. destruct a as [|y a]; simpl in Heq.
      * rewrite Heq, starts_with_app in E. done.
      * injection Heq as -> ->. by eapply IH.
  - intros H. destruct (find_sub p l) as [n|] eqn:E; [|done].
    destruct (find_sub_Some _ _ _ E) as (a & b & Heq & _). by destruct (H a b).
Qed.

(** The first occurrence found in a prefix stays the first. *)
Lemma find_sub_app (p l k : text) (n : nat) :
  find_sub p l = Some n → find_sub p (l ++ k) = Some n.
Proof.
  revert n; induction l as [|x l IH]; intros n H; cbn [find_sub app] in H |- *.
  - destruct (starts_with p []) eqn:E; [|done]. destruct p; [|done].
    injection H as <-. by destruct k.
  - destruct (starts_with p (x :: l)) eqn:E.
    + apply (starts_with_app_l _ _ k) in E. cbn [app] in E. by rewrite E.
    + destruct (find_sub p l) as [m|] eqn:Ef; [|done]. injection H as <-.
      destruct (find_sub_Some _ _ _ Ef) as (a & b & -> & Ha).
      rewrite <- (starts_with_app_long p _ k) in E
        by (simpl; rewrite !length_app; lia).
      cbn [app] in E. rewrite E. by rewrite (IH m eq_refl).
Qed.

Lemma find_sub_step (p l : text) (b : byte) :
  starts_with p (b :: l) = false → find_sub p (b :: l) = S <$> find_sub p l.
Proof. intros H. cbn [find_sub]. by rewrite H. Qed.

(** What precedes the first occurrence, even with all but the last byte of the
    pattern, does not hold it. *)
Lemma find_sub_first (p a b : text) (n : nat) :
  p ≠ [] → find_sub p (a ++ p ++ b) = Some n → length a = n →
  find_sub p (a ++ removelast p) = None.
Proof.
  intros Hp H <-. destruct (find_sub p (a ++ removelast p)) as [m|] eqn:E; [|done]. exfalso.
  pose proof (find_sub_Some _ _ _ E) as (x & y & Exy & Hx).
  assert (Hp' : p = removelast p ++ [List.last p x00]) by (by apply app_removelast_last).
  assert (E2 : find_sub p (a ++ p ++ b) = Some m).
  { rewrite Hp' at 2. rewrite <- !app_assoc, app_assoc. by apply find_sub_app. }
  rewrite H in E2. injection E2 as E2.
  apply (f_equal length) in Exy. rewrite !length_app in Exy.
  apply (f_equal length) in Hp'. rewrite length_app in Hp'. cbn in Hp'. lia.
Qed.

Lemma find_sub_length (p l : text) (n : nat) :
  find_sub p l = Some n → (n + length p <= length l)%nat.
Proof.
  intros H. destruct (find_sub_Some _ _ _ H) as (a & b & -> & <-).
  rewrite !length_app. lia.
Qed.

(** A pattern of several bytes does not occur in a part of a list it does not
    occur in. *)
Lemma find_sub_None_infix (p a l b : text) :
  find_sub p (a ++ l ++ b) = None → find_sub p l = None.
Proof.
  rewrite !find_sub_None. intros H c d ->. apply (H (a ++ c) (d ++ b)).
  by rewrite <- !app_assoc.
Qed.

Lemma until_no (c : byte) (l : text) : c ∉ l → until c l = l.
Proof.
  induction l as [|b l IH]; intros Hn; [done|]. simpl.
  rewrite not_elem_of_cons in Hn. destruct Hn as [Hne Hn].
  rewrite bool_decide_false by done. by rewrite IH.
Qed.

(** ** Lines *)

Lemma lines_acc_line (cur l k : text) :
  LF ∉ l →
  lines_acc cur (l ++ LF :: k)
  = (let w := rev cur ++ l in
     match rev w with
     | c :: w' => if bool_decide (c = CR) then rev w' else w
     | [] => []
     end) :: lines_acc [] k.
Proof.
  revert cur; induction l as [|b l IH]; intros cur Hl; simpl.
  - rewrite app_nil_r, rev_involutive. f_equal.
    destruct cur as [|c cur]; simpl; [done|]. by destruct (bool_decide _).
  - rewrite not_elem_of_cons in Hl. destruct Hl as [Hb Hl].
    rewrite bool_decide_false by done. rewrite IH by done. simpl.
    by rewrite <- app_assoc.
Qed.

Lemma lines_line (l k : text) :
  LF ∉ l → CR ∉ l → lines (l ++ LF :: k) = l :: lines k.
Proof.
  intros Hl Hc. unfold lines. rewrite lines_acc_line by done. f_equal. simpl.
  destruct (rev l) as [|c w'] eqn:E.
  - apply (f_equal (@rev byte)) in E. rewrite rev_involutive in E. by subst.
  - rewrite bool_decide_false; [done|]. intros ->. apply Hc.
    rewrite <- (rev_involutive l), E. simpl. apply elem_of_app. right. by apply list_elem_of_singleton.
Qed.

Lemma lines_acc_last (cur l : text) :
  LF ∉ l → lines_acc cur l = match rev cur ++ l with [] => [] | w => [w] end.
Proof.
  revert cur; induction l as [|b l IH]; intros cur Hl; simpl.
  - rewrite app_nil_r. destruct cur as [|c cur]; [done|]. simpl.
    destruct (rev cur ++ [c]) eqn:E; [|done]. by destruct (rev cur).
  - rewrite not_elem_of_cons in Hl. destruct Hl as [Hb Hl].
    rewrite bool_decide_false by done. rewrite IH by done. simpl.
    by rewrite <- app_assoc.
Qed.

Lemma lines_last (l : text) : LF ∉ l → l ≠ [] → lines l = [l].
Proof. intros Hl Hn. unfold lines. rewrite lines_acc_last by done. simpl. by destruct l. Qed.

(** ** Integer round trip *)

Lemma digit_val_byte (d : Z) : 0 <= d < 36 → digit_val (digit_byte d) = Some d.
Proof.
  intros H. unfold digit_val, digit_byte, in_range. rewrite byteZ_Zbyte.
  destruct (d <? 10) eqn:E; zify_bool; rewrite Z.mod_small by lia.
  - replace (_ && _) with true by (symmetry; apply andb_true_iff; lia). f_equal. lia.
  - replace (_ && _) with false by (symmetry; apply andb_false_iff; right; lia).
    replace (_ && _) with true by (symmetry; apply andb_true_iff; lia). f_equal. lia.
Qed.

Lemma digit_val_nonneg (b : byte) (d : Z) : digit_val b = Some d → 0 <= d.
Proof.
  unfold digit_val, in_range. intros H.
  destruct (_ && _) eqn:E1 in H; [injection H as <-; zify_bool; lia|].
  destruct (_ && _) eqn:E2 in H; [injection H as <-; zify_bool; lia|].
  destruct (_ && _) eqn:E3 in H; [injection H as <-; zify_bool; lia|done].
Qed.

Lemma parse_digits_range (radix : Z) (l : text) (acc n : Z) :
  0 <= radix → 0 <= acc <= USIZE_MAX → parse_digits radix acc l = Some n → 0 <= n <= USIZE_MAX.
Proof.
  intros Hr. revert acc. induction l as [|b l IH]; intros acc Ha; simpl; [by intros [= <-]|].
  destruct (digit_val b) as [d|] eqn:Ed; [|done]. destruct (d <? radix); [|done].
  destruct (acc * radix + d <=? USIZE_MAX) eqn:E; [|done]. zify_bool.
  apply IH. apply digit_val_nonneg in Ed. nia.
Qed.

Lemma from_str_radix_range (radix : Z) (l : text) (n : Z) :
  0 <= radix → from_str_radix radix l = Some n → 0 <= n <= USIZE_MAX.
Proof.
  intros Hr Hk. unfold from_str_radix in Hk.
  assert (parse_digits radix 0 l = Some n ∨ ∃ l', parse_digits radix 0 l' = Some n) as [H|[l' H]].
  { destruct l as [|b l]; [done|]. destruct b; try (by left). right. exists l. by destruct l. }
  all: eapply parse_digits_range; [done| |exact H]; unfold USIZE_MAX; lia.
Qed.

Lemma from_str_radix_nonneg (l : text) (n : Z) : parse_usize l = Some n → 0 <= n.
Proof. intros H. apply from_str_radix_range in H; lia. Qed.

Lemma digit_byte_not (d : Z) (b : byte) :
  0 <= d < 36 → digit_val b = None → digit_byte d ≠ b.
Proof. intros H Hb <-. rewrite digit_val_byte in Hb; done. Qed.

Lemma parse_digits_app (radix acc : Z) (l k : text) :
  parse_digits radix acc (l ++ k)
  = match parse_digits radix acc l with
    | Some a => parse_digits radix a k
    | None => None
    end.
Proof.
  revert acc; induction l as [|b l IH]; intros acc; simpl; [done|].
  destruct (digit_val b); [|done]. destruct (_ <? _); [|done].
  destruct (_ <=? _); [|done]. apply IH.
Qed.

Lemma print_radix_acc (fuel : nat) (radix z : Z) (acc : text) :
  print_radix fuel radix z acc = print_radix fuel radix z [] ++ acc.
Proof.
  revert z acc; induction fuel as [|fuel IH]; intros z acc; simpl; [done|].
  destruct (z <? radix); [done|].
  rewrite IH, (IH _ [_]). by rewrite <- app_assoc.
Qed.

Lemma print_radix_ne (fuel : nat) (radix z : Z) :
  (0 < fuel)%nat → print_radix fuel radix z [] ≠ [].
Proof.
  destruct fuel as [|fuel]; [lia|]. intros _. simpl. destruct (z <? radix); [done|].
  rewrite print_radix_acc. by destruct (print_radix fuel _ _ _).
Qed.

Lemma print_radix_digits (fuel : nat) (radix z : Z) :
  2 <= radix <= 36 → 0 <= z →
  Forall (λ b, ∃ d, 0 <= d < radix ∧ b = digit_byte d) (print_radix fuel radix z []).
Proof.
  intros Hr. revert z; induction fuel as [|fuel IH]; intros z Hz; simpl; [done|].
  pose proof (Z.mod_pos_bound z radix ltac:(lia)).
  destruct (z <? radix); [by repeat constructor; eauto|].
  rewrite print_radix_acc. apply Forall_app. split; [|by repeat constructor; eauto].
  apply IH. apply Z.div_pos; lia.
Qed.

Lemma parse_print_radix (fuel : nat) (radix z : Z) :
  2 <= radix <= 36 → 0 <= z < radix ^ Z.of_nat fuel → z <= USIZE_MAX →
  parse_digits radix 0 (print_radix fuel radix z []) = Some z.
Proof.
  intros Hr. revert z; induction fuel as [|fuel IH]; intros z Hz Hu.
  { simpl in *. f_equal. lia. }
  cbn [print_radix]. pose proof (Z.mod_pos_bound z radix ltac:(lia)).
  destruct (z <? radix) eqn:E; zify_bool.
  - rewrite Z.mod_small by lia. simpl. rewrite digit_val_byte by lia.
    replace (z <? radix) with true by (symmetry; lia).
    replace (0 * radix + z) with z by lia.
    replace (z <=? USIZE_MAX) with true by (symmetry; lia). done.
  - rewrite print_radix_acc, parse_digits_app.
    rewrite Nat2Z.inj_succ, Z.pow_succ_r in Hz by lia.
    pose proof (Z.div_mod z radix ltac:(lia)).
    assert (0 <= z / radix) by (apply Z.div_pos; lia).
    rewrite IH; [|split; [lia|]; apply Z.div_lt_upper_bound; lia|nia].
    cbn [parse_digits]. rewrite digit_val_byte by lia.
    replace (_ <? radix) with true by (symmetry; lia).
    replace (z / radix * radix + z `mod` radix) with z by lia.
    replace (z <=? USIZE_MAX) with true by (symmetry; lia). done.
Qed.

Lemma to_radix_roundtrip (radix z : Z) :
  2 <= radix <= 36 → 0 <= z <= USIZE_MAX → from_str_radix radix (to_radix radix z) = Some z.
Proof.
  intros Hr Hz. unfold to_radix.
  assert (H64 : USIZE_MAX < radix ^ 64).
  { unfold USIZE_MAX. assert (2 ^ 64 <= radix ^ 64) by (apply Z.pow_le_mono_l; lia). lia. }
  pose proof (parse_print_radix 64 radix z Hr ltac:(simpl Z.of_nat; lia) ltac:(lia)) as Hp.
  pose proof (print_radix_digits 64 radix z Hr ltac:(lia)) as Hd.
  pose proof (print_radix_ne 64 radix z (Nat.lt_0_succ _)) as Hne.
  destruct (print_radix 64 radix z []) as [|b l]; [done|].
  apply Forall_cons in Hd as [(d & Hdr & ->) _].
  unfold from_str_radix.
  destruct (digit_byte d) eqn:Eb; try exact Hp.
  exfalso. eapply (digit_byte_not d x2b); [lia|reflexivity|exact Eb].
Qed.

(** ** Plain text: printable ASCII is valid UTF-8 and never trimmed *)

Definition plain (b : byte) : bool := in_range 33 126 b.

Lemma find_sub_skip (a : byte) (p l k : text) :
  a ∉ l → find_sub (a :: p) (l ++ k) = (λ n, (length l + n)%nat) <$> find_sub (a :: p) k.
Proof.
  induction l as [|b l IH]; intros Hn; cbn [app length].
  { by destruct (find_sub (a :: p) k). }
  rewrite not_elem_of_cons in Hn. destruct Hn as [Hb Hn].
  cbn [find_sub starts_with]. rewrite bool_decide_false by done. cbn [andb].
  rewrite IH by done. by destruct (find_sub (a :: p) k).
Qed.

Lemma find_sub_here (p k : text) : find_sub p (p ++ k) = Some O.
Proof.
  pose proof (starts_with_app p k) as H. by destruct (p ++ k); cbn [find_sub]; rewrite H.
Qed.

Lemma utf8_valid_ascii (l : text) :
  Forall (λ b, byteZ b < 0x80) l → utf8_valid l = true.
Proof.
  unfold utf8_valid. assert (∀ n, (length l <= n)%nat →
    Forall (λ b, byteZ b < 0x80) l → utf8_valid_fuel n l = true) as H; [|by apply H].
  induction l as [|b l IH]; intros n Hn Hf; [by destruct n|].
  destruct n as [|n]; simpl in Hn; [lia|]. apply Forall_cons in Hf as [Hb Hf].
  cbn [utf8_valid_fuel]. unfold utf8_next. zcase. cbn [drop]. apply IH; [lia|done].
Qed.

Lemma ws_prefix_plain (b : byte) (l : text) : plain b = true → ws_prefix (b :: l) = O.
Proof. by destruct b. Qed.

Lemma ws_suffix_plain (b : byte) (l : text) : plain b = true → ws_suffix (b :: l) = O.
Proof. by destruct b. Qed.

Definition trimmed (l : text) : Prop := ws_prefix l = O ∧ ws_suffix (rev l) = O.

Lemma trim_start_trimmed (l : text) : ws_prefix l = O → trim_start l = l.
Proof.
  intros H. unfold trim_start. destruct (length l) as [|n]; [done|].
  cbn [trim_fuel]. by rewrite H.
Qed.

Lemma trim_end_trimmed (l : text) : ws_suffix (rev l) = O → trim_end l = l.
Proof.
  intros H. unfold trim_end. destruct (length l) as [|n]; cbn [trim_fuel];
    [|rewrite H]; by rewrite rev_involutive.
Qed.

Lemma trim_trimmed (l : text) : trimmed l → trim l = l.
Proof. intros [H1 H2]. unfold trim. rewrite trim_start_trimmed by done. by apply trim_end_trimmed. Qed.

Lemma trimmed_plain (l : text) : Forall (λ b, plain b = true) l → trimmed l.
Proof.
  intros H. split.
  - destruct H as [|b l Hb Hl]; [done|]. by apply ws_prefix_plain.
  - apply Forall_rev in H. destruct H as [|b r Hb Hl]; [done|]. by apply ws_suffix_plain.
Qed.

Lemma trim_space (l : text) : trimmed l → trim (SP :: l) = l.
Proof.
  intros [H1 H2]. unfold trim. rewrite <- (trim_end_trimmed l) at 2 by done. f_equal.
  unfold trim_start. cbn [length trim_fuel]. change (ws_prefix (SP :: l)) with 1%nat.
  cbv iota. change (drop 1 (SP :: l)) with l.
  destruct (length l) as [|n]; cbn [trim_fuel]; [done|]. by rewrite H1.
Qed.

Lemma plain_digit (d : Z) : 0 <= d < 36 → plain (digit_byte d) = true ∧ digit_byte d ≠ x3b.
Proof.
  intros H. split; [|by apply digit_byte_not].
  unfold plain, in_range, digit_byte. rewrite byteZ_Zbyte.
  destruct (d <? 10) eqn:E; zify_bool; rewrite Z.mod_small by lia; apply andb_true_iff; lia.
Qed.

Lemma to_radix_plain (radix z : Z) :
  2 <= radix <= 36 → 0 <= z → Forall (λ b, plain b = true ∧ b ≠ x3b) (to_radix radix z).
Proof.
  intros Hr Hz. eapply Forall_impl; [by apply print_radix_digits|].
  intros b (d & Hd & ->). apply plain_digit. lia.
Qed.

Lemma plain_ascii (b : byte) : plain b = true → byteZ b < 0x80 ∧ b ≠ CR ∧ b ≠ LF.
Proof.
  unfold plain, in_range. intros H. zify_bool.
  repeat split; [lia|intros ->; vm_compute in H; done|intros ->; vm_compute in H; done].
Qed.
