(* ===== verification/Events.v ===== *)
(** * Protocol events (h-protocol/src/model.rs)

    The records the protocol stage hands to the joiner: HTTP requests and
    responses, server-sent events and heartbeats, with their header lookup and
    the process stamp. *)

From Stdlib Require Import Strings.Byte ZArith Lia.
From stdpp Require Import base gmap sets list strings.
From S2P Require Import Prelude.
From S2P Require Import Net.
From S2P Require Import Text.

Open Scope Z_scope.

Abbreviation headers := (list (text * text)).

Record SseEventData : Type := mkSse {
  sse_flow_key : FlowKey;
  sse_client_addr : sock;
  sse_server_addr : sock;
  sse_event_type : text;
  sse_data : text;
  sse_timestamp_us : Z;
  sse_process : option ProcessInfo;
}.

Record HttpRequestData : Type := mkReq {
  req_flow_key : FlowKey;
  req_client_addr : sock;
  req_server_addr : sock;
  req_method : text;
  req_uri : text;
  req_version : Z;
  req_headers : headers;
  req_body : list byte;
  req_timestamp_us : Z;
  req_process : option ProcessInfo;
}.

Record HttpResponseData : Type := mkResp {
  resp_flow_key : FlowKey;
  resp_client_addr : sock;
  resp_server_addr : sock;
  resp_status : Z;
  resp_version : Z;
  resp_headers : headers;
  resp_body : list byte;
  resp_first_byte_timestamp_us : Z;
  resp_complete_timestamp_us : Z;
  resp_process : option ProcessInfo;
}.

Inductive HttpParseEvent : Type :=
| HttpRequest (r : HttpRequestData)
| HttpResponse (r : HttpResponseData)
| SseEvent (s : SseEventData)
| Heartbeat (ts : Z) (source_id : string).

(** [header]: the value of the first header with that name, ignoring ASCII
    case. *)
Definition header (hs : headers) (name : text) : option text :=
  snd <$> List.find (λ h, eq_ignore_ascii_case h.1 name) hs.

Definition req_header (r : HttpRequestData) (name : text) : option text :=
  header (req_headers r) name.
Definition resp_header (r : HttpResponseData) (name : text) : option text :=
  header (resp_headers r) name.
Definition resp_content_type (r : HttpResponseData) : option text :=
  resp_header r (B "content-type").

Definition req_set_process (r : HttpRequestData) (p : option ProcessInfo) : HttpRequestData :=
  mkReq (req_flow_key r) (req_client_addr r) (req_server_addr r) (req_method r) (req_uri r)
    (req_version r) (req_headers r) (req_body r) (req_timestamp_us r) p.
Definition resp_set_process (r : HttpResponseData) (p : option ProcessInfo) : HttpResponseData :=
  mkResp (resp_flow_key r) (resp_client_addr r) (resp_server_addr r) (resp_status r)
    (resp_version r) (resp_headers r) (resp_body r) (resp_first_byte_timestamp_us r)
    (resp_complete_timestamp_us r) p.
Definition sse_set_process (s : SseEventData) (p : option ProcessInfo) : SseEventData :=
  mkSse (sse_flow_key s) (sse_client_addr s) (sse_server_addr s) (sse_event_type s)
    (sse_data s) (sse_timestamp_us s) p.

Definition set_process (e : HttpParseEvent) (p : option ProcessInfo) : HttpParseEvent :=
  match e with
  | HttpRequest r => HttpRequest (req_set_process r p)
  | HttpResponse r => HttpResponse (resp_set_process r p)
  | SseEvent s => SseEvent (sse_set_process s p)
  | Heartbeat _ _ => e
  end.

(** The flow an event belongs to, and its process; heartbeats have neither. *)
Definition event_flow (e : HttpParseEvent) : option FlowKey :=
  match e with
  | HttpRequest r => Some (req_flow_key r)
  | HttpResponse r => Some (resp_flow_key r)
  | SseEvent s => Some (sse_flow_key s)
  | Heartbeat _ _ => None
  end.
Definition event_process (e : HttpParseEvent) : option ProcessInfo :=
  match e with
  | HttpRequest r => req_process r
  | HttpResponse r => resp_process r
  | SseEvent s => sse_process s
  | Heartbeat _ _ => None
  end.

Lemma event_flow_set_process (e : HttpParseEvent) (p : option ProcessInfo) :
  event_flow (set_process e p) = event_flow e.
Proof. by destruct e. Qed.

Lemma set_process_set_process (e : HttpParseEvent) (p q : option ProcessInfo) :
  set_process (set_process e p) q = set_process e q.
Proof. by destruct e. Qed.

#[export] Hint Rewrite event_flow_set_process set_process_set_process : heron_ev.
