(* ===== verification/Body.v ===== *)
(** * HTTP body reading (h-protocol/src/http.rs: BodyFraming, BodyReader)

    How a body's framing is chosen from the headers, the reader that takes body
    bytes off a reassembly buffer (Content-Length, chunked, close-delimited),
    and the [Content-Encoding] decompressor in front of it.

    The flate2 decoders are a parameter ([Flate]): a state that takes compressed
    bytes and yields decompressed ones.  [BytesMut::split_to] panics past the end
    of the buffer, so reading is a [res]: the chunk-size arithmetic is done at 64
    bits, as a release build does it. *)

From Stdlib Require Import Strings.Byte ZArith Lia.
From stdpp Require Import base gmap sets list strings.
From S2P Require Import Prelude.
From S2P Require Import Net.
From S2P Require Import Text.
From S2P Require Import Events.

Open Scope Z_scope.

(** ** flate2's write decoders

    [write]: [write_all], [flush] and taking the output written so far (errors
    are ignored by the caller); [finish]: the trailing output, empty on error. *)
Class Flate : Type := {
  gz_state : Type;
  gz_new : gz_state;
  gz_write : gz_state → list byte → list byte * gz_state;
  gz_finish : gz_state → list byte;
  zl_state : Type;
  zl_new : zl_state;
  zl_write : zl_state → list byte → list byte * zl_state;
  zl_finish : zl_state → list byte;
}.

(** ** Headers that frame the body *)

Definition CRLF : text := [CR; LF].
Definition find_crlf (buf : list byte) : option nat := find_sub CRLF buf.

Definition is_chunked (hs : headers) : bool :=
  existsb (λ h, eq_ignore_ascii_case h.1 (B "transfer-encoding")
                && contains (B "chunked") (to_lowercase h.2)) hs.

Definition is_sse (hs : headers) : bool :=
  existsb (λ h, eq_ignore_ascii_case h.1 (B "content-type")
                && contains (B "text/event-stream") (to_lowercase h.2)) hs.

Definition extract_content_length (hs : headers) : option Z :=
  match header hs (B "content-length") with
  | Some v => parse_usize (trim v)
  | None => None
  end.

Definition extract_content_encoding (hs : headers) : option text :=
  match trim <$> header hs (B "content-encoding") with
  | Some v =>
      if bool_decide (v = []) || eq_ignore_ascii_case v (B "identity") then None else Some v
  | None => None
  end.

Inductive BodyFraming : Type :=
| NoBody
| ContentLength (len : Z)
| Chunked
| CloseDelimited.

#[global] Instance BodyFraming_eq_dec : EqDecision BodyFraming.
Proof. solve_decision. Defined.

Inductive ReadResult : Type :=
| NeedMore
| Complete (body : list byte)
| ChunkDecoded (data : list byte)
| ReadError.

Definition request_framing (hs : headers) : BodyFraming :=
  if is_chunked hs then Chunked
  else match extract_content_length hs with
       | Some len => ContentLength len
       | None => NoBody
       end.

Definition response_framing (status : Z) (req_method : text) (hs : headers) : BodyFraming :=
  if ((100 <=? status) && (status <? 200)) || (status =? 204) || (status =? 304) then NoBody
  else if eq_ignore_ascii_case req_method (B "HEAD") then NoBody
  else if is_chunked hs then Chunked
  else match extract_content_length hs with
       | Some len => ContentLength len
       | None => CloseDelimited
       end.

(** [BytesMut::split_to]: panics when [at] is past the end. *)
Definition split_to (buf : list byte) (at_ : Z) : res (list byte * list byte) :=
  if at_ <=? zlen buf then Ret (take (Z.to_nat at_) buf, drop (Z.to_nat at_) buf) else Panic.

Section Body.
Context `{FL : Flate}.

Inductive BodyDecompressor : Type :=
| Gzip (d : gz_state)
| Zlib (d : zl_state).

Definition from_encoding (enc : text) : option BodyDecompressor :=
  let e := map to_ascii_lower (trim enc) in
  if bool_decide (e = B "gzip") || bool_decide (e = B "x-gzip") then Some (Gzip gz_new)
  else if bool_decide (e = B "deflate") then Some (Zlib zl_new)
  else None.

Definition bd_push (d : BodyDecompressor) (data : list byte) : list byte * BodyDecompressor :=
  match d with
  | Gzip s => let '(out, s') := gz_write s data in (out, Gzip s')
  | Zlib s => let '(out, s') := zl_write s data in (out, Zlib s')
  end.

Definition bd_finish (d : BodyDecompressor) : list byte :=
  match d with
  | Gzip s => gz_finish s
  | Zlib s => zl_finish s
  end.

Record BodyReader : Type := mkReader {
  framing : BodyFraming;
  decoded_body : list byte;
  skip_accumulation : bool;
  decompressor : option BodyDecompressor;
}.

Definition reader_new : BodyReader := mkReader NoBody [] false None.

Definition new_for_request (hs : headers) : BodyReader :=
  mkReader (request_framing hs) [] false None.

Definition new_for_response (status : Z) (req_method : text) (hs : headers) : BodyReader :=
  mkReader (response_framing status req_method hs) [] false
    (match extract_content_encoding hs with
     | Some e => from_encoding e
     | None => None
     end).

Definition set_skip_accumulation (r : BodyReader) (skip : bool) : BodyReader :=
  mkReader (framing r) (decoded_body r) skip (decompressor r).

Definition decode_payload (r : BodyReader) (data : list byte) : list byte * BodyReader :=
  match decompressor r with
  | Some d =>
      let '(out, d') := bd_push d data in
      (out, mkReader (framing r) (decoded_body r) (skip_accumulation r) (Some d'))
  | None => (data, r)
  end.

Definition flush_decompressor (r : BodyReader) : list byte * BodyReader :=
  match decompressor r with
  | Some d => (bd_finish d, mkReader (framing r) (decoded_body r) (skip_accumulation r) None)
  | None => ([], r)
  end.

(** [decoded_body.extend_from_slice], and [decoded_body.split().freeze()]. *)
Definition accumulate (r : BodyReader) (data : list byte) : BodyReader :=
  mkReader (framing r) (decoded_body r ++ data) (skip_accumulation r) (decompressor r).
Definition take_decoded (r : BodyReader) : list byte * BodyReader :=
  (decoded_body r, mkReader (framing r) [] (skip_accumulation r) (decompressor r)).

(** The trailer loop: the offset just past the empty line that ends the
    trailers, if it has arrived.  Each round consumes a line, two bytes at
    least. *)
Fixpoint trailer_loop (fuel : nat) (rest : list byte) (pos : nat) : option nat :=
  match fuel with
  | O => None
  | S fuel' =>
      match find_crlf (drop pos rest) with
      | Some O => Some (pos + 2)%nat
      | Some len => trailer_loop fuel' rest (pos + (len + 2))
      | None => None
      end
  end.

(** The chunk size on a size line: invalid UTF-8 counts as empty, extensions
    after [;] are dropped. *)
Definition chunk_size_of (line : list byte) : option Z :=
  from_str_radix 16 (trim (until x3b (trim (default [] (from_utf8 line))))).

Definition read_chunk (r : BodyReader) (buf : list byte)
    : res (ReadResult * BodyReader * list byte) :=
  match buf with
  | [] => Ret (NeedMore, r, buf)
  | _ :: _ =>
      match find_crlf buf with
      | None => Ret (NeedMore, r, buf)
      | Some line_end =>
          match chunk_size_of (take line_end buf) with
          | None => Ret (ReadError, r, buf)
          | Some chunk_size =>
              if chunk_size =? 0 then
                let rest := drop (line_end + 2) buf in
                match trailer_loop (S (length rest)) rest 0 with
                | None => Ret (NeedMore, r, buf)
                | Some pos =>
                    let* (_, buf') := split_to buf (Z.of_nat (line_end + 2 + pos)) in
                    let '(tail, r1) := flush_decompressor r in
                    let r2 := if negb (skip_accumulation r1) && negb (bool_decide (tail = []))
                              then accumulate r1 tail else r1 in
                    if skip_accumulation r2 then Ret (Complete [], r2, buf')
                    else let '(body, r3) := take_decoded r2 in Ret (Complete body, r3, buf')
                end
              else
                let needed := wrap 64 (Z.of_nat line_end + 2 + chunk_size + 2) in
                if zlen buf <? needed then Ret (NeedMore, r, buf)
                else
                  let* (_, buf1) := split_to buf (Z.of_nat line_end + 2) in
                  let* (raw, buf2) := split_to buf1 chunk_size in
                  let* (_, buf3) := split_to buf2 2 in
                  let '(chunk_data, r1) := decode_payload r raw in
                  let r2 := if skip_accumulation r1 then r1 else accumulate r1 chunk_data in
                  Ret (ChunkDecoded chunk_data, r2, buf3)
          end
      end
  end.

Definition read (r : BodyReader) (buf : list byte)
    : res (ReadResult * BodyReader * list byte) :=
  match framing r with
  | NoBody => Ret (Complete [], r, buf)
  | ContentLength len =>
      if len <=? zlen buf then
        let* (raw, buf') := split_to buf len in
        let '(body, r1) := decode_payload r raw in
        let '(tail, r2) := flush_decompressor r1 in
        Ret (Complete (body ++ tail), r2, buf')
      else Ret (NeedMore, r, buf)
  | Chunked => read_chunk r buf
  | CloseDelimited =>
      match buf with
      | [] => Ret (NeedMore, r, buf)
      | _ :: _ =>
          let '(data, r1) := decode_payload r buf in
          let r2 := if skip_accumulation r1 then r1 else accumulate r1 data in
          Ret (ChunkDecoded data, r2, [])
      end
  end.

Definition finish (r : BodyReader) (buf : list byte) : list byte * BodyReader * list byte :=
  match framing r with
  | NoBody => ([], r, buf)
  | ContentLength _ =>
      if skip_accumulation r then ([], r, [])
      else
        let '(body, r1) := decode_payload r buf in
        let '(tail, r2) := flush_decompressor r1 in
        (body ++ tail, r2, [])
  | Chunked | CloseDelimited =>
      if skip_accumulation r then ([], r, [])
      else
        let '(r1, buf1) :=
          match buf with
          | [] => (r, buf)
          | _ :: _ => let '(data, r1) := decode_payload r buf in (accumulate r1 data, [])
          end in
        let '(tail, r2) := flush_decompressor r1 in
        let r3 := if bool_decide (tail = []) then r2 else accumulate r2 tail in
        let '(body, r4) := take_decoded r3 in
        (body, r4, buf1)
  end.

Definition was_incremental (r : BodyReader) : bool :=
  match framing r with
  | Chunked | CloseDelimited => true
  | _ => false
  end.

Definition is_no_body (r : BodyReader) : bool := bool_decide (framing r = NoBody).

(** ** Draining a buffer

    The inner loop of the parser on one buffer: read until the reader asks for
    more, completes or fails, collecting the chunks it hands out.  A chunk takes
    at least one byte off the buffer. *)
Fixpoint drain (fuel : nat) (r : BodyReader) (buf : list byte)
    : res (list (list byte) * ReadResult * BodyReader * list byte) :=
  match fuel with
  | O => OutOfFuel
  | S fuel' =>
      let* (rr, r', buf') := read r buf in
      match rr with
      | ChunkDecoded c =>
          let* (cs, out, r'', buf'') := drain fuel' r' buf' in
          Ret (c :: cs, out, r'', buf'')
      | _ => Ret ([], rr, r', buf')
      end
  end.
Definition drain_buf (r : BodyReader) (buf : list byte)
    : res (list (list byte) * ReadResult * BodyReader * list byte) :=
  drain (S (length buf)) r buf.

(** Pieces arriving one after the other; after the body completes or fails the
    remaining pieces stay in the buffer. *)
Fixpoint feed (r : BodyReader) (buf : list byte) (pieces : list (list byte))
    : res (list (list byte) * ReadResult * BodyReader * list byte) :=
  match pieces with
  | [] => drain_buf r buf
  | p :: ps =>
      let* (cs, out, r', buf') := drain_buf r buf in
      match out with
      | NeedMore =>
          let* (cs', out', r'', buf'') := feed r' (buf' ++ p) ps in
          Ret (cs ++ cs', out', r'', buf'')
      | _ => Ret (cs, out, r', buf' ++ concat (p :: ps))
      end
  end.

(** ** Reading is stable under later arrivals *)

Lemma split_to_app (buf k a b : list byte) (n : Z) :
  split_to buf n = Ret (a, b) → 0 <= n → split_to (buf ++ k) n = Ret (a, b ++ k).
Proof.
  unfold split_to. intros H Hn. destruct (n <=? zlen buf) eqn:E; [|done].
  injection H as <- <-. zify_bool. unfold zlen in *. rewrite length_app.
  zcase.
  rewrite take_app_le, drop_app_le by lia. done.
Qed.

Lemma split_to_Ret (buf a b : list byte) (n : Z) :
  0 <= n → split_to buf n = Ret (a, b) → buf = a ++ b ∧ zlen a = n.
Proof.
  unfold split_to. intros Hn H. destruct (n <=? zlen buf) eqn:E; [|done].
  injection H as <- <-. zify_bool. rewrite take_drop. split; [done|].
  unfold zlen in *. rewrite length_take. lia.
Qed.

Lemma split_to_ok (buf : list byte) (n : Z) :
  n <= zlen buf → split_to buf n = Ret (take (Z.to_nat n) buf, drop (Z.to_nat n) buf).
Proof. intros H. unfold split_to. by zcase. Qed.

Lemma find_crlf_bound (buf : list byte) (n : nat) :
  find_crlf buf = Some n → (n + 2 <= length buf)%nat.
Proof. intros H. by apply find_sub_length in H. Qed.

Lemma trailer_loop_app (fuel fuel' : nat) (rest k : list byte) (pos n : nat) :
  (pos <= length rest)%nat → (fuel <= fuel')%nat →
  trailer_loop fuel rest pos = Some n → trailer_loop fuel' (rest ++ k) pos = Some n.
Proof.
  revert fuel' pos; induction fuel as [|fuel IH]; intros fuel' pos Hp Hf H; [done|].
  destruct fuel' as [|fuel']; [lia|]. cbn [trailer_loop] in *.
  rewrite drop_app_le by done.
  destruct (find_crlf (drop pos rest)) as [m|] eqn:E; [|done].
  unfold find_crlf in *. rewrite (find_sub_app _ _ k _ E).
  apply find_sub_length in E. rewrite length_drop in E. simpl in E.
  destruct m as [|m]; [done|]. apply IH; [lia|lia|done].
Qed.

Lemma trailer_loop_bound (fuel : nat) (rest : list byte) (pos n : nat) :
  (pos <= length rest)%nat → trailer_loop fuel rest pos = Some n →
  (pos < n <= length rest)%nat.
Proof.
  revert pos; induction fuel as [|fuel IH]; intros pos Hp H; [done|].
  cbn [trailer_loop] in H. destruct (find_crlf (drop pos rest)) as [m|] eqn:E; [|done].
  apply find_crlf_bound in E. rewrite length_drop in E.
  destruct m as [|m]; [injection H as <-; lia|]. apply IH in H; lia.
Qed.

(** What a chunked read takes off the buffer. *)
Lemma read_chunk_Ret (r r' : BodyReader) (buf buf' : list byte) (rr : ReadResult) :
  read_chunk r buf = Ret (rr, r', buf') →
  match rr with
  | NeedMore => r' = r ∧ buf' = buf
  | ReadError => r' = r ∧ buf' = buf
  | _ => ∃ p, buf = p ++ buf' ∧ p ≠ []
  end.
Proof.
  unfold read_chunk. intros H. destruct buf as [|b0 buf0]; [by simplify_eq|].
  set (buf := b0 :: buf0) in *.
  destruct (find_crlf buf) as [le|] eqn:Ec; [|by simplify_eq].
  destruct (chunk_size_of (take le buf)) as [sz|]; [|by simplify_eq].
  destruct (sz =? 0).
  - destruct (trailer_loop _ _ _) as [pos|]; [|by simplify_eq].
    destruct (split_to buf _) as [[a b]| |] eqn:Es; cbn [res_bind] in H; try done.
    apply split_to_Ret in Es as [Hb Hz]; [|lia].
    assert (a ≠ []) by (intros ->; unfold zlen in Hz; simpl in Hz; lia).
    destruct (flush_decompressor r) as [tail r1]. unfold take_decoded in *.
    destruct (skip_accumulation (if _ && _ then _ else _)); simplify_eq; eauto.
  - destruct (zlen buf <? _); [by simplify_eq|].
    destruct (split_to buf _) as [[a b]| |] eqn:E1; cbn [res_bind] in H; try done.
    destruct (split_to b sz) as [[a2 b2]| |] eqn:E2; cbn [res_bind] in H; try done.
    destruct (split_to b2 2) as [[a3 b3]| |] eqn:E3; cbn [res_bind] in H; try done.
    destruct (decode_payload r a2) as [cd r1]. simplify_eq.
    apply split_to_Ret in E1 as [-> Hz]; [|lia].
    assert (a ≠ []) by (intros ->; unfold zlen in Hz; simpl in Hz; lia).
    assert (b = a2 ++ b2) as ->.
    { unfold split_to in E2. destruct (sz <=? zlen b); [|done]. simplify_eq.
      by rewrite take_drop. }
    apply split_to_Ret in E3 as [-> _]; [|lia].
    exists (a ++ a2 ++ a3). split; [by rewrite <- !app_assoc|]. by destruct a.
Qed.

Lemma chunk_size_range (l : list byte) (n : Z) : chunk_size_of l = Some n → 0 <= n < 2 ^ 64.
Proof.
  intros H. apply from_str_radix_range in H; [|lia]. unfold USIZE_MAX in H. lia.
Qed.

(** A size line whose arithmetic overflows 64 bits. *)
Definition chunk_overflow (buf : list byte) : Prop :=
  ∃ le sz, find_crlf buf = Some le ∧ chunk_size_of (take le buf) = Some sz ∧
           2 ^ 64 <= Z.of_nat le + sz + 4.

Lemma read_chunk_overflow (r : BodyReader) (buf : list byte) (le : nat) (sz : Z) :
  zlen buf < 2 ^ 63 → find_crlf buf = Some le → chunk_size_of (take le buf) = Some sz →
  2 ^ 64 <= Z.of_nat le + sz + 4 →
  read_chunk r buf =
    if zlen buf <? wrap 64 (Z.of_nat le + 2 + sz + 2) then Ret (NeedMore, r, buf) else Panic.
Proof.
  intros Hl Hc Hs Ho. pose proof (find_crlf_bound _ _ Hc) as Hle.
  unfold read_chunk. destruct buf as [|b0 buf0]; [simpl in Hle; lia|].
  set (buf := b0 :: buf0) in *. rewrite Hc, Hs. unfold zlen in *.
  destruct (Z.eqb_spec sz 0); [lia|]. destruct (_ <? wrap _ _); [done|].
  rewrite split_to_ok by (unfold zlen; lia). cbn [res_bind].
  unfold split_to at 1. unfold zlen. rewrite length_drop. zcase. done.
Qed.

Lemma wrap_overflow (le : nat) (sz : Z) :
  Z.of_nat le < 2 ^ 63 → 0 <= sz < 2 ^ 64 → 2 ^ 64 <= Z.of_nat le + sz + 4 →
  wrap 64 (Z.of_nat le + 2 + sz + 2) = Z.of_nat le + sz + 4 - 2 ^ 64.
Proof.
  intros H1 H2 H3. unfold wrap.
  replace (Z.of_nat le + 2 + sz + 2) with (Z.of_nat le + sz + 4 - 2 ^ 64 + 1 * 2 ^ 64) by lia.
  rewrite Z_mod_plus_full, Z.mod_small; lia.
Qed.

Lemma read_chunk_app (r : BodyReader) (buf k : list byte) :
  zlen (buf ++ k) < 2 ^ 63 →
  match read_chunk r buf with
  | Ret (NeedMore, _, _) => True
  | Ret (rr, r', buf') => read_chunk r (buf ++ k) = Ret (rr, r', buf' ++ k)
  | Panic => read_chunk r (buf ++ k) = Panic
  | OutOfFuel => False
  end.
Proof.
  intros Hlen. destruct buf as [|b0 buf0]; [done|]. set (buf := b0 :: buf0) in *.
  destruct (find_crlf buf) as [le|] eqn:Ec; [|unfold read_chunk, buf; fold buf; by rewrite Ec].
  pose proof (find_crlf_bound _ _ Ec) as Hle.
  pose proof (find_sub_app _ _ k _ Ec : find_crlf (buf ++ k) = Some le) as Ec'.
  rewrite zlen_app in Hlen. pose proof (zlen_nonneg k).
  assert (Htk : take le (buf ++ k) = take le buf) by (apply take_app_le; lia).
  destruct (chunk_size_of (take le buf)) as [sz|] eqn:Esz.
  2:{ unfold read_chunk, buf. fold buf. rewrite Ec, Esz.
      change (b0 :: buf0 ++ k) with (buf ++ k). by rewrite Ec', Htk, Esz. }
  pose proof (chunk_size_range _ _ Esz) as Hsz.
  destruct (Z.le_gt_cases (2 ^ 64) (Z.of_nat le + sz + 4)) as [Ho|Ho].
  { rewrite (read_chunk_overflow r buf le sz ltac:(lia) Ec Esz Ho).
    rewrite (read_chunk_overflow r (buf ++ k) le sz)
      by (first [rewrite zlen_app; lia | done | by rewrite Htk]).
    rewrite wrap_overflow by (unfold zlen in *; lia). rewrite zlen_app.
    repeat zcase; done. }
  unfold read_chunk, buf. fold buf. rewrite Ec, Esz.
  change (b0 :: buf0 ++ k) with (buf ++ k). rewrite Ec', Htk, Esz.
  destruct (sz =? 0) eqn:E0.
  - destruct (trailer_loop _ (drop _ buf) _) as [pos|] eqn:Et; [|done].
    pose proof (trailer_loop_bound _ _ _ _ (Nat.le_0_l _) Et) as Hp. rewrite length_drop in Hp.
    rewrite drop_app_le by lia.
    rewrite (trailer_loop_app (S (length (drop (le + 2) buf)))
      (S (length (drop (le + 2) buf ++ k))) (drop (le + 2) buf) k 0 pos ltac:(lia)
      ltac:(rewrite length_app; lia) Et).
    rewrite (split_to_ok buf) by (unfold zlen; lia).
    rewrite (split_to_app _ k _ _ _ (split_to_ok buf (Z.of_nat (le + 2 + pos)) ltac:(unfold zlen; lia)) ltac:(lia)).
    cbn [res_bind]. destruct (flush_decompressor r) as [tail r1]. unfold take_decoded.
    by destruct (skip_accumulation (if _ && _ then _ else _)).
  - rewrite wrap_small by lia. rewrite zlen_app. zify_bool.
    destruct (zlen buf <? _) eqn:El; [done|]. zify_bool. zcase.
    rewrite (split_to_ok buf) by lia.
    rewrite (split_to_app _ k _ _ _ (split_to_ok buf (Z.of_nat le + 2) ltac:(lia)) ltac:(lia)). cbn [res_bind].
    set (b1 := drop (Z.to_nat (Z.of_nat le + 2)) buf).
    assert (H1 : zlen b1 = zlen buf - Z.of_nat le - 2)
      by (unfold b1, zlen; rewrite length_drop; unfold zlen in *; lia).
    rewrite (split_to_ok b1) by lia.
    rewrite (split_to_app _ k _ _ _ (split_to_ok b1 sz ltac:(lia)) ltac:(lia)). cbn [res_bind].
    set (b2 := drop (Z.to_nat sz) b1).
    assert (H2 : zlen b2 = zlen b1 - sz)
      by (unfold b2, zlen; rewrite length_drop; unfold zlen in *; lia).
    rewrite (split_to_ok b2) by lia.
    rewrite (split_to_app _ k _ _ _ (split_to_ok b2 2 ltac:(lia)) ltac:(lia)). cbn [res_bind].
    by destruct (decode_payload r _).
Qed.

(** Without overflow a chunked read returns. *)
Lemma read_chunk_no_overflow (r : BodyReader) (buf : list byte) :
  match find_crlf buf with
  | Some le =>
      match chunk_size_of (take le buf) with
      | Some sz => Z.of_nat le + sz + 4 < 2 ^ 64
      | None => True
      end
  | None => True
  end → ∃ x, read_chunk r buf = Ret x.
Proof.
  intros Hno. unfold read_chunk. destruct buf as [|b0 buf0]; [eauto|].
  set (buf := b0 :: buf0) in *.
  destruct (find_crlf buf) as [le|] eqn:Ec; [|eauto]. apply find_crlf_bound in Ec.
  destruct (chunk_size_of _) as [sz|] eqn:Es; [|eauto]. apply chunk_size_range in Es.
  destruct (sz =? 0).
  - destruct (trailer_loop _ _ _) as [pos|] eqn:Et; [|eauto].
    pose proof (trailer_loop_bound _ _ _ _ (Nat.le_0_l _) Et) as Hp. rewrite length_drop in Hp.
    rewrite split_to_ok by (unfold zlen; lia). cbn [res_bind].
    destruct (flush_decompressor r) as [tail r1]. unfold take_decoded.
    destruct (skip_accumulation (if _ && _ then _ else _)); eauto.
  - rewrite wrap_small by lia. destruct (zlen buf <? _) eqn:El; [eauto|]. zify_bool.
    rewrite split_to_ok by lia. cbn [res_bind].
    rewrite split_to_ok by (unfold zlen in *; rewrite length_drop; lia). cbn [res_bind].
    rewrite split_to_ok by (unfold zlen in *; rewrite !length_drop; lia). cbn [res_bind].
    destruct (decode_payload r _); eauto.
Qed.

Definition framing_ok (f : BodyFraming) : Prop :=
  match f with ContentLength len => 0 <= len | _ => True end.

Lemma framing_decode (r r' : BodyReader) (d out : list byte) :
  decode_payload r d = (out, r') → framing r' = framing r.
Proof. unfold decode_payload. intros H. destruct (decompressor r) as [c|]; [destruct (bd_push c d)|]; by simplify_eq. Qed.

Lemma framing_flush (r r' : BodyReader) (out : list byte) :
  flush_decompressor r = (out, r') → framing r' = framing r.
Proof. unfold flush_decompressor. intros H. destruct (decompressor r); by simplify_eq. Qed.

Lemma read_chunk_framing (r r' : BodyReader) (buf buf' : list byte) (rr : ReadResult) :
  read_chunk r buf = Ret (rr, r', buf') → framing r' = framing r.
Proof.
  unfold read_chunk. intros H. destruct buf as [|b0 buf0]; [by simplify_eq|].
  destruct (find_crlf _) as [le|]; [|by simplify_eq].
  destruct (chunk_size_of _) as [sz|]; [|by simplify_eq].
  destruct (sz =? 0).
  - destruct (trailer_loop _ _ _) as [pos|]; [|by simplify_eq].
    destruct (split_to _ _) as [[a b]| |]; cbn [res_bind] in H; try done.
    destruct (flush_decompressor r) as [tail r1] eqn:Ef. apply framing_flush in Ef.
    unfold take_decoded, accumulate in H.
    destruct (_ && _); destruct (skip_accumulation _); by simplify_eq.
  - destruct (zlen _ <? _); [by simplify_eq|].
    destruct (split_to _ _) as [[a b]| |]; cbn [res_bind] in H; try done.
    destruct (split_to b sz) as [[a2 b2]| |]; cbn [res_bind] in H; try done.
    destruct (split_to b2 2) as [[a3 b3]| |]; cbn [res_bind] in H; try done.
    destruct (decode_payload r a2) as [cd r1] eqn:Ed. apply framing_decode in Ed.
    unfold accumulate in H. destruct (skip_accumulation r1); by simplify_eq.
Qed.

(** The reader and the buffer after one read: untouched when it asks for more,
    and shorter when it hands out a chunk. *)
Lemma read_Ret (r r' : BodyReader) (buf buf' : list byte) (rr : ReadResult) :
  framing_ok (framing r) → read r buf = Ret (rr, r', buf') →
  framing r' = framing r ∧
  match rr with
  | NeedMore | ReadError => r' = r ∧ buf' = buf
  | ChunkDecoded _ => (length buf' < length buf)%nat
  | Complete _ => (length buf' <= length buf)%nat
  end.
Proof.
  unfold read. intros Hf H. destruct (framing r) as [|len| |] eqn:Ef.
  - by simplify_eq.
  - destruct (len <=? zlen buf) eqn:El; [|by simplify_eq].
    destruct (split_to buf len) as [[a b]| |] eqn:Es; cbn [res_bind] in H; try done.
    apply split_to_Ret in Es as [-> _]; [|done].
    destruct (decode_payload r a) as [body r1] eqn:E1. apply framing_decode in E1.
    destruct (flush_decompressor r1) as [tail r2] eqn:E2. apply framing_flush in E2.
    simplify_eq. split; [congruence|]. rewrite length_app. lia.
  - split; [rewrite <- Ef; by eapply read_chunk_framing|].
    apply read_chunk_Ret in H. destruct rr; try done;
      destruct H as (p & -> & Hp); rewrite length_app; destruct p; simpl; (done || lia).
  - destruct buf as [|b0 buf0]; [by simplify_eq|].
    destruct (decode_payload r _) as [data r1] eqn:E1. apply framing_decode in E1.
    unfold accumulate in H. destruct (skip_accumulation r1); simplify_eq; simpl; split; (congruence || lia).
Qed.

Lemma finish_framing (r : BodyReader) (sb : list byte) :
  framing (finish r sb).1.2 = framing r.
Proof.
  assert (Hd : ∀ r d, framing (decode_payload r d).2 = framing r).
  { intros r0 d. destruct (decode_payload r0 d) as [o r1] eqn:E. by eapply framing_decode. }
  assert (Hfl : ∀ r, framing (flush_decompressor r).2 = framing r).
  { intros r0. destruct (flush_decompressor r0) as [o r1] eqn:E. by eapply framing_flush. }
  unfold finish. destruct (framing r) as [|len| |] eqn:Ef; [done|..];
    (destruct (skip_accumulation r); [done|]).
  - specialize (Hd r sb). destruct (decode_payload r sb) as [body r1]. cbn [snd] in Hd.
    specialize (Hfl r1). destruct (flush_decompressor r1) as [tail r2]. cbn [fst snd] in *. congruence.
  - destruct sb as [|b0 sb0].
    + specialize (Hfl r). destruct (flush_decompressor r) as [tail r2]. cbn [fst snd] in *.
      destruct (bool_decide (tail = [])); cbn; congruence.
    + specialize (Hd r (b0 :: sb0)). destruct (decode_payload r _) as [body r1]. cbn [snd] in Hd.
      specialize (Hfl (accumulate r1 body)).
      destruct (flush_decompressor (accumulate r1 body)) as [tail r2]. cbn [fst snd] in *.
      destruct (bool_decide (tail = [])); cbn; unfold accumulate in Hfl; cbn in Hfl; congruence.
  - destruct sb as [|b0 sb0].
    + specialize (Hfl r). destruct (flush_decompressor r) as [tail r2]. cbn [fst snd] in *.
      destruct (bool_decide (tail = [])); cbn; congruence.
    + specialize (Hd r (b0 :: sb0)). destruct (decode_payload r _) as [body r1]. cbn [snd] in Hd.
      specialize (Hfl (accumulate r1 body)).
      destruct (flush_decompressor (accumulate r1 body)) as [tail r2]. cbn [fst snd] in *.
      destruct (bool_decide (tail = [])); cbn; unfold accumulate in Hfl; cbn in Hfl; congruence.
Qed.

Lemma drain_fuel (f1 f2 : nat) (r : BodyReader) (buf : list byte) :
  framing_ok (framing r) → (length buf < f1)%nat → (length buf < f2)%nat →
  drain f1 r buf = drain f2 r buf.
Proof.
  revert f2 r buf; induction f1 as [|f1 IH]; intros f2 r buf Hf H1 H2; [lia|].
  destruct f2 as [|f2]; [lia|]. cbn [drain].
  destruct (read r buf) as [[[rr r'] buf']| |] eqn:Er; cbn [res_bind]; try done.
  apply read_Ret in Er as [Hfr Hr]; [|done].
  destruct rr; try done. rewrite (IH f2); [done|by rewrite Hfr|lia|lia].
Qed.

Lemma drain_unfold (r : BodyReader) (buf : list byte) :
  framing_ok (framing r) →
  drain_buf r buf =
    let* (rr, r', buf') := read r buf in
    match rr with
    | ChunkDecoded c =>
        let* (cs, out, r'', buf'') := drain_buf r' buf' in Ret (c :: cs, out, r'', buf'')
    | _ => Ret ([], rr, r', buf')
    end.
Proof.
  intros Hf. unfold drain_buf at 1. cbn [drain].
  destruct (read r buf) as [[[rr r'] buf']| |] eqn:Er; cbn [res_bind]; try done.
  apply read_Ret in Er as [Hfr Hr]; [|done].
  destruct rr; try done. unfold drain_buf.
  by rewrite (drain_fuel (length buf) (S (length buf'))) by (lia || by rewrite Hfr).
Qed.

Lemma read_no_fuel (r : BodyReader) (buf : list byte) : read r buf ≠ OutOfFuel.
Proof.
  assert (Hro : ∀ x n, split_to x n ≠ OutOfFuel)
    by (intros x m; unfold split_to; by destruct (_ <=? _)).
  intros Er. unfold read, read_chunk, res_bind in Er.
  repeat (break_match_in Er; try done); by eapply Hro.
Qed.

(** A read takes a prefix off the buffer. *)
Lemma read_prefix (r r' : BodyReader) (buf buf' : list byte) (rr : ReadResult) :
  framing_ok (framing r) → read r buf = Ret (rr, r', buf') → ∃ p, buf = p ++ buf'.
Proof.
  unfold read. intros Hf H. destruct (framing r) as [|len| |] eqn:Ef.
  - exists []. by simplify_eq.
  - destruct (len <=? zlen buf) eqn:El; [|exists []; by simplify_eq].
    destruct (split_to buf len) as [[a b]| |] eqn:Es; cbn [res_bind] in H; try done.
    apply split_to_Ret in Es as [-> _]; [|done].
    destruct (decode_payload r a) as [body r1], (flush_decompressor r1). simplify_eq. eauto.
  - apply read_chunk_Ret in H. destruct rr; (destruct H as [_ ->]; by exists []) ||
      (destruct H as (p & -> & _); eauto).
  - destruct buf as [|b0 buf0]; [exists []; by simplify_eq|].
    destruct (decode_payload r _) as [data r1]. simplify_eq. exists (b0 :: buf0).
    by rewrite app_nil_r.
Qed.

(** The inner loop always ends: with the body's end, an error, a panic, or a
    request for more data. *)
Lemma drain_buf_fuel (r : BodyReader) (buf : list byte) :
  framing_ok (framing r) → drain_buf r buf ≠ OutOfFuel.
Proof.
  remember (length buf) as n eqn:En. revert r buf En.
  induction (lt_wf n) as [n _ IH]; intros r buf -> Hf. rewrite drain_unfold by done.
  destruct (read r buf) as [[[rr r'] buf']| |] eqn:Er; cbn [res_bind]; try done.
  - apply read_Ret in Er as [Hfr Hr]; [|done]. destruct rr; try done.
    specialize (IH _ Hr r' buf' eq_refl ltac:(by rewrite Hfr)).
    by destruct (drain_buf r' buf') as [[[[? ?] ?] ?]| |].
  - by apply read_no_fuel in Er.
Qed.

Lemma read_app (r : BodyReader) (buf k : list byte) :
  framing_ok (framing r) → framing r ≠ CloseDelimited → zlen (buf ++ k) < 2 ^ 63 →
  match read r buf with
  | Ret (NeedMore, _, _) => True
  | Ret (rr, r', buf') => read r (buf ++ k) = Ret (rr, r', buf' ++ k)
  | Panic => read r (buf ++ k) = Panic
  | OutOfFuel => False
  end.
Proof.
  unfold read. intros Hf Hc Hl. destruct (framing r) as [|len| |] eqn:Ef; try done.
  - destruct (len <=? zlen buf) eqn:El; [|done]. zify_bool. simpl in Hf.
    rewrite zlen_app. pose proof (zlen_nonneg k). zcase.
    rewrite (split_to_ok buf) by done.
    rewrite (split_to_app _ k _ _ _ (split_to_ok buf len El) Hf). cbn [res_bind].
    destruct (decode_payload r _) as [body r1]. by destruct (flush_decompressor r1).
  - by apply read_chunk_app.
Qed.

(** Draining a longer buffer is draining the shorter one and going on. *)
Lemma drain_app (r : BodyReader) (buf k : list byte) :
  framing_ok (framing r) → framing r ≠ CloseDelimited → zlen (buf ++ k) < 2 ^ 63 →
  drain_buf r (buf ++ k) =
    let* (cs, out, r', buf') := drain_buf r buf in
    match out with
    | NeedMore =>
        let* (cs', out', r'', buf'') := drain_buf r' (buf' ++ k) in
        Ret (cs ++ cs', out', r'', buf'')
    | _ => Ret (cs, out, r', buf' ++ k)
    end.
Proof.
  remember (length buf) as n eqn:En. revert r buf En.
  induction (lt_wf n) as [n _ IH]; intros r buf -> Hf Hc Hl.
  rewrite (drain_unfold r buf) by done.
  pose proof (read_app r buf k Hf Hc Hl) as Ha.
  destruct (read r buf) as [[[rr r'] buf']| |] eqn:Er; cbn [res_bind]; try done.
  2:{ rewrite drain_unfold by done. by rewrite Ha. }
  pose proof (read_Ret r r' buf buf' rr Hf Er) as [Hfr Hr].
  destruct rr as [|body|c|].
  - destruct Hr as [-> ->]. cbn [res_bind app].
    by destruct (drain_buf r (buf ++ k)) as [[[[? ?] ?] ?]| |].
  - rewrite drain_unfold by done. by rewrite Ha.
  - rewrite drain_unfold by done. rewrite Ha. cbn [res_bind].
    rewrite (IH (length buf') ltac:(lia) r' buf' eq_refl);
      [|by rewrite Hfr|by rewrite Hfr|rewrite zlen_app in *; unfold zlen in *; lia].
    destruct (drain_buf r' buf') as [[[[cs out] r''] buf'']| |]; cbn [res_bind]; try done.
    destruct out; cbn [res_bind]; try done.
    by destruct (drain_buf r'' _) as [[[[? ?] ?] ?]| |].
  - rewrite drain_unfold by done. by rewrite Ha.
Qed.

Lemma drain_framing (r r' : BodyReader) (buf buf' : list byte) cs out :
  framing_ok (framing r) → drain_buf r buf = Ret (cs, out, r', buf') →
  framing r' = framing r ∧ (length buf' <= length buf)%nat.
Proof.
  remember (length buf) as n eqn:En. revert r buf En cs.
  induction (lt_wf n) as [n _ IH]; intros r buf -> cs Hf H.
  rewrite drain_unfold in H by done.
  destruct (read r buf) as [[[rr r1] b1]| |] eqn:Er; cbn [res_bind] in H; try done.
  apply read_Ret in Er as [Hfr Hr]; [|done].
  destruct rr as [|body|c|]; try (simplify_eq; intuition congruence).
  - destruct Hr as [-> ->]. by simplify_eq.
  - destruct (drain_buf r1 b1) as [[[[cs1 out1] r2] b2]| |] eqn:Ed; cbn [res_bind] in H; try done.
    simplify_eq. apply (IH _ Hr) in Ed as [Hd ?]; [|done|by rewrite Hfr].
    split; [congruence|lia].
  - destruct Hr as [-> ->]. by simplify_eq.
Qed.

(** Reading in pieces is draining everything. *)
Lemma feed_drain (pieces : list (list byte)) (r : BodyReader) (buf : list byte) :
  framing_ok (framing r) → framing r ≠ CloseDelimited →
  zlen (buf ++ concat pieces) < 2 ^ 63 →
  feed r buf pieces = drain_buf r (buf ++ concat pieces).
Proof.
  revert r buf. induction pieces as [|p ps IH]; intros r buf Hok Hfr Hl; simpl.
  { by rewrite app_nil_r. }
  simpl in Hl. rewrite drain_app by done.
  destruct (drain_buf r buf) as [[[[cs out] r'] buf']| |] eqn:Ed; cbn [res_bind]; try done.
  pose proof (drain_framing _ _ _ _ _ _ Hok Ed) as [Hf' Hlen].
  destruct out; try done.
  rewrite IH, <- app_assoc; [done|by rewrite Hf'|by rewrite Hf'|].
  rewrite !zlen_app in *. unfold zlen in *. lia.
Qed.

(** ** The chunked transfer coding *)

(** A chunk: its size in hexadecimal, and its data. *)
Definition encode_chunk (c : list byte) : list byte :=
  to_radix 16 (zlen c) ++ CRLF ++ c ++ CRLF.

(** A chunked body with its trailer lines. *)
Definition encode_chunked (cs : list (list byte)) (trailers : list text) : list byte :=
  concat (map encode_chunk cs) ++ B "0" ++ CRLF
  ++ concat (map (λ t, t ++ CRLF) trailers) ++ CRLF.

Lemma find_crlf_line (l k : list byte) :
  CR ∉ l → find_crlf (l ++ CRLF ++ k) = Some (length l).
Proof.
  intros H. unfold find_crlf. change CRLF with (CR :: [LF]).
  rewrite find_sub_skip by done. rewrite find_sub_here. simpl. f_equal. lia.
Qed.

Lemma chunk_size_of_hex (n : Z) : 0 <= n < 2 ^ 63 → chunk_size_of (to_radix 16 n) = Some n.
Proof.
  intros Hn. pose proof (to_radix_plain 16 n ltac:(lia) ltac:(lia)) as Hp.
  assert (Hq : Forall (λ b, plain b = true) (to_radix 16 n))
    by (eapply Forall_impl; [exact Hp|tauto]).
  unfold chunk_size_of, from_utf8. rewrite utf8_valid_ascii.
  2:{ eapply Forall_impl; [exact Hq|]. intros b Hb. by apply plain_ascii in Hb as [? _]. }
  cbv beta iota delta [from_option id].
  rewrite (trim_trimmed (to_radix 16 n)) by by apply trimmed_plain.
  rewrite until_no.
  2:{ rewrite Forall_forall in Hp. intros Hin. by apply Hp in Hin as [_ ?]. }
  rewrite trim_trimmed by by apply trimmed_plain.
  apply to_radix_roundtrip; [lia|]. unfold USIZE_MAX. lia.
Qed.

Lemma hex_no_cr (n : Z) : 0 <= n → CR ∉ to_radix 16 n.
Proof.
  intros Hn Hin. pose proof (to_radix_plain 16 n ltac:(lia) Hn) as Hp.
  rewrite Forall_forall in Hp. by apply Hp in Hin as [Hpl _].
Qed.

Lemma read_data_chunk (r : BodyReader) (c k : list byte) :
  framing r = Chunked → decompressor r = None → c ≠ [] → zlen (encode_chunk c ++ k) < 2 ^ 63 →
  read r (encode_chunk c ++ k)
  = Ret (ChunkDecoded c, if skip_accumulation r then r else accumulate r c, k).
Proof.
  intros Hf Hd Hc Hl. unfold read. rewrite Hf.
  assert (Hz : 0 < zlen c) by (destruct c; [done|unfold zlen; simpl; lia]).
  unfold encode_chunk in *. rewrite <- !app_assoc in *.
  assert (Hlen : zlen (to_radix 16 (zlen c) ++ CRLF ++ c ++ CRLF ++ k)
    = zlen (to_radix 16 (zlen c)) + 2 + zlen c + 2 + zlen k)
    by (unfold zlen; rewrite !length_app; simpl; lia).
  pose proof (zlen_nonneg k). pose proof (zlen_nonneg (to_radix 16 (zlen c))).
  pose proof (chunk_size_of_hex (zlen c) ltac:(lia)) as Hcs.
  pose proof (hex_no_cr (zlen c) ltac:(lia)) as Hcr.
  generalize dependent (to_radix 16 (zlen c)). intros hex.
  intros Hl Hlen Hhex Hcs Hcr.
  pose proof (find_crlf_line hex (c ++ CRLF ++ k) Hcr) as Hfind.
  unfold read_chunk. destruct (hex ++ CRLF ++ c ++ CRLF ++ k) as [|b0 l0] eqn:El.
  { unfold zlen in Hlen at 1. simpl in Hlen. lia. }
  rewrite <- El in *. clear El. rewrite Hfind.
  rewrite (take_app_exact hex) by done.
  rewrite Hcs.
  destruct (Z.eqb_spec (zlen c) 0); [lia|].
  fold (zlen hex). rewrite wrap_small by lia. rewrite Hlen. zcase.
  rewrite split_to_ok by lia. cbn [res_bind].
  rewrite (app_assoc hex CRLF), (drop_app_exact (hex ++ CRLF))
    by (unfold zlen; rewrite length_app; simpl; lia).
  rewrite split_to_ok by (rewrite !zlen_app; pose proof (zlen_nonneg CRLF); lia). cbn [res_bind].
  rewrite (take_app_exact c), (drop_app_exact c) by (unfold zlen; lia).
  rewrite split_to_ok by (rewrite zlen_app; unfold zlen at 1; simpl; lia). cbn [res_bind].
  change (drop (Z.to_nat 2) (CRLF ++ k)) with k.
  unfold decode_payload. by rewrite Hd.
Qed.

Lemma trailer_loop_encode (trailers : list text) (pre k : list byte) (fuel : nat) :
  Forall (λ t, t ≠ [] ∧ CR ∉ t) trailers → (length trailers < fuel)%nat →
  trailer_loop fuel (pre ++ concat (map (λ t, t ++ CRLF) trailers) ++ CRLF ++ k) (length pre)
  = Some (length (pre ++ concat (map (λ t, t ++ CRLF) trailers) ++ CRLF)).
Proof.
  revert pre fuel; induction trailers as [|t ts IH]; intros pre fuel Ht Hf;
    (destruct fuel as [|fuel]; simpl in Hf; [lia|]); cbn [trailer_loop map concat];
    rewrite drop_app_exact by done.
  - unfold find_crlf. cbn [app]. rewrite find_sub_here, length_app. simpl. f_equal.
  - apply Forall_cons in Ht as [[Hne Hcr] Ht]. rewrite <- !app_assoc.
    rewrite find_crlf_line by done.
    destruct t as [|b t]; [done|]. cbn [length].
    specialize (IH (pre ++ (b :: t) ++ CRLF) fuel Ht ltac:(lia)).
    rewrite <- !app_assoc in IH. rewrite <- IH. f_equal.
    rewrite !length_app. simpl. lia.
Qed.

Lemma read_last_chunk (r : BodyReader) (trailers : list text) (k : list byte) :
  framing r = Chunked → decompressor r = None → Forall (λ t, t ≠ [] ∧ CR ∉ t) trailers →
  read r (encode_chunked [] trailers ++ k)
  = Ret (Complete (if skip_accumulation r then [] else decoded_body r),
         if skip_accumulation r then r else mkReader Chunked [] false None, k).
Proof.
  intros Hf Hd Ht. unfold read. rewrite Hf. unfold encode_chunked. cbn [map concat app].
  set (tl := concat (map (λ t, t ++ CRLF) trailers)).
  assert (Hlen : (length trailers <= length tl)%nat).
  { unfold tl. clear -Ht. induction Ht as [|t ts [Hne _] _ IH]; simpl; [lia|].
    rewrite !length_app. simpl. lia. }
  change (B "0" ++ CRLF ++ tl ++ CRLF) with (B "0" ++ CRLF ++ (tl ++ CRLF)).
  rewrite <- !app_assoc. unfold read_chunk.
  change (B "0" ++ CRLF ++ tl ++ CRLF ++ k) with (x30 :: CRLF ++ tl ++ CRLF ++ k).
  change (find_crlf (x30 :: CRLF ++ tl ++ CRLF ++ k)) with (Some 1%nat). cbv iota.
  change (chunk_size_of (take 1 (x30 :: CRLF ++ tl ++ CRLF ++ k))) with (Some 0).
  change (0 =? 0) with true. cbv iota.
  change (drop (1 + 2) (x30 :: CRLF ++ tl ++ CRLF ++ k)) with (tl ++ CRLF ++ k).
  pose proof (trailer_loop_encode trailers [] k (S (length (tl ++ CRLF ++ k))) Ht
    ltac:(rewrite length_app; lia)) as Hl.
  cbn [app length] in Hl. fold tl in Hl. rewrite Hl.
  rewrite split_to_ok by (unfold zlen; simpl; rewrite !length_app; simpl; lia).
  cbn [res_bind]. unfold flush_decompressor. rewrite Hd.
  rewrite (bool_decide_true ([] = [])) by done. rewrite andb_false_r.
  assert (Hdrop : drop (Z.to_nat (Z.of_nat (1 + 2 + length (tl ++ CRLF))))
    (x30 :: CRLF ++ tl ++ CRLF ++ k) = k).
  { rewrite Nat2Z.id. change (drop (length (tl ++ CRLF)) (tl ++ CRLF ++ k) = k).
    rewrite app_assoc. by apply drop_app_exact. }
  rewrite Hdrop. unfold take_decoded. rewrite Hf, Hd.
  by destruct (skip_accumulation r) eqn:Es.
Qed.

Lemma drain_chunked (r : BodyReader) (cs : list (list byte)) (trailers : list text)
    (k : list byte) :
  framing r = Chunked → decompressor r = None →
  Forall (λ c, c ≠ []) cs → Forall (λ t, t ≠ [] ∧ CR ∉ t) trailers →
  zlen (encode_chunked cs trailers ++ k) < 2 ^ 63 →
  ∃ r', drain_buf r (encode_chunked cs trailers ++ k)
    = Ret (cs, Complete (if skip_accumulation r then [] else decoded_body r ++ concat cs), r', k).
Proof.
  intros Hf Hd Hcs Ht. revert r Hf Hd.
  induction Hcs as [|c cs Hc Hcs IH]; intros r Hf Hd Hl;
    rewrite drain_unfold by (by rewrite Hf).
  - rewrite read_last_chunk by done. cbn [res_bind concat]. rewrite app_nil_r. eauto.
  - assert (He : encode_chunked (c :: cs) trailers ++ k
      = encode_chunk c ++ (encode_chunked cs trailers ++ k)).
    { unfold encode_chunked. cbn [map concat]. by rewrite <- !app_assoc. }
    rewrite He in *. rewrite read_data_chunk by done. cbn [res_bind].
    set (r1 := if skip_accumulation r then r else accumulate r c).
    assert (H1 : framing r1 = Chunked ∧ decompressor r1 = None
      ∧ skip_accumulation r1 = skip_accumulation r
      ∧ decoded_body r1 = if skip_accumulation r then decoded_body r else decoded_body r ++ c).
    { unfold r1. by destruct (skip_accumulation r) eqn:E. }
    destruct H1 as (H1 & H2 & H3 & H4).
    destruct (IH r1 H1 H2) as [r' Hr'].
    { rewrite zlen_app in Hl. pose proof (zlen_nonneg (encode_chunk c)). lia. }
    rewrite Hr'. cbn [res_bind concat]. exists r'. rewrite H3, H4.
    destruct (skip_accumulation r); [done|]. by rewrite <- app_assoc.
Qed.

(** The wire form of a body under a framing that ends by itself. *)
Definition framed (f : BodyFraming) (wire body : list byte) : Prop :=
  match f with
  | NoBody => wire = [] ∧ body = []
  | ContentLength n => wire = body ∧ zlen body = n
  | Chunked => ∃ cs trailers,
      wire = encode_chunked cs trailers ∧ body = concat cs ∧
      Forall (λ c, c ≠ []) cs ∧ Forall (λ t, t ≠ [] ∧ CR ∉ t) trailers
  | CloseDelimited => False
  end.

Lemma framed_ok (f : BodyFraming) (wire body : list byte) : framed f wire body → framing_ok f.
Proof. destruct f; simpl; try done. intros [_ <-]. apply zlen_nonneg. Qed.

Lemma drain_framed (f : BodyFraming) (wire body k : list byte) :
  framed f wire body → zlen (wire ++ k) < 2 ^ 63 →
  ∃ cs r', drain_buf (mkReader f [] false None) (wire ++ k) = Ret (cs, Complete body, r', k).
Proof.
  intros Hfr Hl. destruct f as [|n| |].
  - destruct Hfr as [-> ->]. eauto.
  - destruct Hfr as [-> Hn]. rewrite drain_unfold by (simpl; pose proof (zlen_nonneg body); lia).
    unfold read. cbn [framing]. rewrite zlen_app. pose proof (zlen_nonneg k). zcase.
    rewrite split_to_ok by (rewrite zlen_app; lia). cbn [res_bind].
    unfold decode_payload, flush_decompressor. cbn [decompressor].
    rewrite take_app_exact, drop_app_exact by (unfold zlen in Hn; lia).
    rewrite app_nil_r. eauto.
  - destruct Hfr as (cs & ts & -> & -> & Hcs & Ht).
    destruct (drain_chunked (mkReader Chunked [] false None) cs ts k) as [r' Hr']; try done.
    eauto.
  - done.
Qed.

(** Body reading does not depend on how the bytes arrive: for every framing
    with an end of its own (no body, Content-Length, chunked), feeding the
    reader any sequence of pieces hands out the chunks, the result, the final
    reader and the left-over buffer of feeding it all bytes at once. *)
Theorem body_feed_pieces :
  ∀ (r : BodyReader) (pieces : list (list byte)) (buf : list byte)
    (Hok : framing_ok (framing r)) (Hfr : framing r ≠ CloseDelimited)
    (Hmem : zlen (buf ++ concat pieces) < 2 ^ 63),
    feed r buf pieces = drain_buf r (buf ++ concat pieces).
Proof. intros. by apply feed_drain. Qed.

(** C6: the chunked coding round-trips through the reader, however the bytes
    are cut into packets: the chunks handed out are the chunks encoded, the
    body is their concatenation (empty when accumulation is off), trailers are
    dropped, and the bytes of the next message stay in the buffer. *)
Theorem chunked_roundtrip :
  ∀ (cs : list (list byte)) (trailers : list text) (next : list byte)
    (pieces : list (list byte)) (skip : bool)
    (Hcs : Forall (λ c, c ≠ []) cs)
    (Ht : Forall (λ t, t ≠ [] ∧ CR ∉ t) trailers)
    (Hp : concat pieces = encode_chunked cs trailers ++ next)
    (Hmem : zlen (concat pieces) < 2 ^ 63),
    ∃ r', feed (mkReader Chunked [] skip None) [] pieces
      = Ret (cs, Complete (if skip then [] else concat cs), r', next).
Proof.
  intros. rewrite feed_drain by done. cbn [app]. rewrite Hp in *.
  by apply drain_chunked.
Qed.

(** A read panics exactly when a chunk size overflows the 64-bit length
    computation: with a buffer below 2^63 bytes, [read] panics if and only if
    the body is chunked and the size line's arithmetic wraps to a length the
    buffer already has.  No other input makes it panic, and none exhausts it. *)
Theorem read_panics_iff_overflow :
  ∀ (r : BodyReader) (buf : list byte)
    (Hok : framing_ok (framing r)) (Hmem : zlen buf < 2 ^ 63),
    read r buf ≠ OutOfFuel ∧
    (read r buf = Panic ↔
     framing r = Chunked ∧
     ∃ le sz, find_crlf buf = Some le ∧ chunk_size_of (take le buf) = Some sz ∧
       2 ^ 64 <= Z.of_nat le + sz + 4 ∧ Z.of_nat le + sz + 4 - 2 ^ 64 <= zlen buf).
Proof.
  intros r buf Hok Hmem. unfold read. destruct (framing r) as [|len| |] eqn:Ef.
  - split; [done|]. split; [done|]. by intros [? _].
  - destruct (len <=? zlen buf) eqn:El.
    + zify_bool. rewrite split_to_ok by done. cbn [res_bind].
      destruct (decode_payload r _) as [body r1], (flush_decompressor r1).
      split; [done|]. split; [done|]. by intros [? _].
    + split; [done|]. split; [done|]. by intros [? _].
  - pose proof (read_chunk_no_overflow r buf) as Hno.
    destruct (find_crlf buf) as [le|] eqn:Ec.
    2:{ destruct (Hno I) as [x ->]. split; [done|]. split; [done|].
        by intros (_ & ? & ? & [=] & _). }
    destruct (chunk_size_of (take le buf)) as [sz|] eqn:Es.
    2:{ destruct (Hno I) as [x ->]. split; [done|]. split; [done|].
        intros (_ & le' & sz' & [= <-] & Es' & _). congruence. }
    destruct (Z.le_gt_cases (2 ^ 64) (Z.of_nat le + sz + 4)) as [Ho|Ho].
    + rewrite (read_chunk_overflow r buf le sz Hmem Ec Es Ho).
      pose proof (find_crlf_bound _ _ Ec). pose proof (chunk_size_range _ _ Es).
      rewrite wrap_overflow by (unfold zlen in *; lia).
      zcase; (split; [done|]); split; try done.
      * intros (_ & le' & sz' & [= <-] & Es' & _ & Hw). rewrite Es in Es'. simplify_eq. lia.
      * intros _. split; [done|]. exists le, sz. auto.
    + destruct (Hno Ho) as [x ->]. split; [done|]. split; [done|].
      intros (_ & le' & sz' & [= <-] & Es' & Ho' & _). rewrite Es in Es'. simplify_eq. lia.
  - destruct buf as [|b0 l0]; [|destruct (decode_payload r _)];
      (split; [done|]; split; [done|]; by intros [? _]).
Qed.
End Body.

(** ** Witnesses, with decoders that store the bytes unchanged *)

Definition flate_store : Flate :=
  {| gz_state := unit; gz_new := tt; gz_write s d := (d, s); gz_finish _ := [];
     zl_state := unit; zl_new := tt; zl_write s d := (d, s); zl_finish _ := [] |}.

Lemma body_feed_pieces_witness :
  feed (FL := flate_store) (mkReader (ContentLength 5) [] false (Some (Gzip (FL := flate_store) tt)))
    [] [B "he"; B "llo"; B "GET"]
  = drain_buf (FL := flate_store)
      (mkReader (ContentLength 5) [] false (Some (Gzip (FL := flate_store) tt)))
      (B "helloGET").
Proof.
  apply (body_feed_pieces (FL := flate_store)
    (mkReader (ContentLength 5) [] false (Some (Gzip (FL := flate_store) tt)))
    [B "he"; B "llo"; B "GET"] []); vm_compute; discriminate || reflexivity.
Defined.

Lemma chunked_roundtrip_witness :
  ∃ r', feed (FL := flate_store) (mkReader Chunked [] false None) []
      [B "5" ++ [CR]; LF :: B "hello" ++ CRLF ++ B "0" ++ CRLF; CRLF ++ B "HTTP"]
    = Ret ([B "hello"], Complete (B "hello"), r', B "HTTP").
Proof.
  apply (chunked_roundtrip (FL := flate_store) [B "hello"] [] (B "HTTP")
    [B "5" ++ [CR]; LF :: B "hello" ++ CRLF ++ B "0" ++ CRLF; CRLF ++ B "HTTP"] false);
    [by repeat constructor | constructor | vm_compute; reflexivity | vm_compute; reflexivity].
Defined.

Lemma read_panics_iff_overflow_witness :
  read (FL := flate_store) (mkReader Chunked [] false None)
    (B "FFFFFFFFFFFFFFFF" ++ CRLF ++ B "data") = Panic.
Proof.
  apply (read_panics_iff_overflow (FL := flate_store) (mkReader Chunked [] false None)
    (B "FFFFFFFFFFFFFFFF" ++ CRLF ++ B "data") I ltac:(vm_compute; reflexivity)).
  split; [reflexivity|]. exists 16%nat, (2 ^ 64 - 1).
  repeat split; vm_compute; discriminate.
Defined.
