(* ===== verification/Sse.v ===== *)
(** * Server-sent events (h-protocol/src/http.rs: SseParser)

    Text of a [text/event-stream] body arrives in pieces; [sse_push] keeps what
    is not yet a complete event in [residual] and parses each event as its blank
    line arrives, [sse_flush] parses what is left at the end of the body. *)

From Stdlib Require Import Strings.Byte ZArith Lia.
From stdpp Require Import base gmap sets list strings.
From S2P Require Import Prelude.
From S2P Require Import Net.
From S2P Require Import Text.
From S2P Require Import Events.
From S2P Require Import Body.

Open Scope Z_scope.

(** What the parser is told about the flow when text arrives. *)
Record SseCtx : Type := mkSseCtx {
  ctx_flow : FlowKey;
  ctx_client : sock;
  ctx_server : sock;
  ctx_ts : Z;
}.

(** The fields an event's lines set: the [event:] value and the [data:] lines. *)
Fixpoint event_fields (ls : list text) (event_type : text) (data_parts : list text)
    : text * list text :=
  match ls with
  | [] => (event_type, data_parts)
  | line :: ls' =>
      match strip_prefix (B "event:") line with
      | Some val => event_fields ls' (trim val) data_parts
      | None =>
          match strip_prefix (B "data:") line with
          | Some val => event_fields ls' event_type (data_parts ++ [trim_start_spaces val])
          | None => event_fields ls' event_type data_parts
          end
      end
  end.

(** [parse_event], as the pair of its text fields. *)
Definition parse_fields (event_text : text) : option (text * text) :=
  let '(event_type, data_parts) := event_fields (lines event_text) [] [] in
  if bool_decide (data_parts = []) && bool_decide (event_type = []) then None
  else Some (event_type, join [LF] data_parts).

Definition parse_event (c : SseCtx) (event_text : text) : option HttpParseEvent :=
  match parse_fields event_text with
  | None => None
  | Some (event_type, data) =>
      Some (SseEvent {| sse_flow_key := ctx_flow c;
                        sse_client_addr := ctx_client c;
                        sse_server_addr := ctx_server c;
                        sse_event_type := event_type;
                        sse_data := data;
                        sse_timestamp_us := ctx_ts c;
                        sse_process := None |})
  end.

(** The separator the loop of [push] looks for: a blank CRLF line anywhere in
    the residual first, else a blank LF line. *)
Definition find_separator (residual : text) : option (nat * nat) :=
  match find_sub (CRLF ++ CRLF) residual with
  | Some pos => Some (pos, 4%nat)
  | None =>
      match find_sub [LF; LF] residual with
      | Some pos => Some (pos, 2%nat)
      | None => None
      end
  end.

(** The loop of [push].  Each round drops a separator from the residual, so its
    length is enough rounds. *)
Fixpoint push_loop (fuel : nat) (c : SseCtx) (residual : text)
    : list HttpParseEvent * text :=
  match fuel with
  | O => ([], residual)
  | S fuel' =>
      match find_separator residual with
      | None => ([], residual)
      | Some (sep_pos, skip) =>
          let event_text := take sep_pos residual in
          let residual' := drop (sep_pos + skip) residual in
          let '(out, residual'') := push_loop fuel' c residual' in
          (match parse_event c event_text with
           | Some evt => evt :: out
           | None => out
           end, residual'')
      end
  end.

Definition sse_push (c : SseCtx) (residual : text) (s : text) : list HttpParseEvent * text :=
  let r := residual ++ s in push_loop (length r) c r.

Definition sse_flush (c : SseCtx) (residual : text) : list HttpParseEvent * text :=
  let trimmed := trim residual in
  if bool_decide (trimmed = []) then ([], [])
  else
    (match parse_event c trimmed with
     | Some evt => [evt]
     | None => []
     end, []).

(** Successive pushes. *)
Fixpoint push_all (c : SseCtx) (residual : text) (pieces : list text)
    : list HttpParseEvent * text :=
  match pieces with
  | [] => ([], residual)
  | p :: ps =>
      let '(out, r) := sse_push c residual p in
      let '(out', r') := push_all c r ps in
      (out ++ out', r')
  end.

(** ** A stream with one kind of blank line *)

(** No blank LF line, or no blank CRLF line, anywhere in the stream. *)
Definition one_separator (s : text) : Prop :=
  find_sub [LF; LF] s = None ∨ find_sub (CRLF ++ CRLF) s = None.

Lemma one_separator_infix (a l b : text) : one_separator (a ++ l ++ b) → one_separator l.
Proof. intros [H|H]; [left|right]; by eapply find_sub_None_infix. Qed.

Lemma find_separator_bound (r : text) (pos skip : nat) :
  find_separator r = Some (pos, skip) → (pos + skip <= length r)%nat ∧ (0 < skip)%nat.
Proof.
  unfold find_separator. destruct (find_sub (CRLF ++ CRLF) r) as [p|] eqn:E1.
  - intros [= <- <-]. apply find_sub_length in E1. simpl in *. lia.
  - destruct (find_sub [LF; LF] r) as [p|] eqn:E2; [|done].
    intros [= <- <-]. apply find_sub_length in E2. simpl in *. lia.
Qed.

(** With one kind of blank line, a separator found stays the first. *)
Lemma find_separator_app (r k : text) (pos skip : nat) :
  one_separator (r ++ k) →
  find_separator r = Some (pos, skip) → find_separator (r ++ k) = Some (pos, skip).
Proof.
  unfold find_separator. intros Hone H.
  destruct (find_sub (CRLF ++ CRLF) r) as [p|] eqn:E1.
  { by rewrite (find_sub_app _ _ k _ E1). }
  destruct (find_sub [LF; LF] r) as [p|] eqn:E2; [|done].
  pose proof (find_sub_app _ _ k _ E2) as E2'.
  destruct Hone as [Hone|Hone]; [congruence|]. by rewrite Hone, E2'.
Qed.

Lemma push_loop_fuel (f1 f2 : nat) (c : SseCtx) (r : text) :
  (length r <= f1)%nat → (length r <= f2)%nat → push_loop f1 c r = push_loop f2 c r.
Proof.
  revert f2 r; induction f1 as [|f1 IH]; intros f2 r H1 H2.
  { destruct r; simpl in H1; [|lia]. by destruct f2. }
  destruct f2 as [|f2]. { destruct r; simpl in H2; [done|lia]. }
  cbn [push_loop]. destruct (find_separator r) as [[pos skip]|] eqn:E; [|done].
  apply find_separator_bound in E. rewrite (IH f2); [done| |]; rewrite length_drop; lia.
Qed.

(** [push_loop] runs until no separator is left. *)
Lemma push_loop_residual (fuel : nat) (c : SseCtx) (r : text) :
  (length r <= fuel)%nat → find_separator (push_loop fuel c r).2 = None.
Proof.
  revert r; induction fuel as [|fuel IH]; intros r Hl; cbn [push_loop].
  { destruct r; simpl in Hl; [done|lia]. }
  destruct (find_separator r) as [[pos skip]|] eqn:E; [|done].
  apply find_separator_bound in E.
  specialize (IH (drop (pos + skip) r) ltac:(rewrite length_drop; lia)).
  by destruct (push_loop fuel c (drop (pos + skip) r)).
Qed.

Lemma push_loop_app (fuel : nat) (c : SseCtx) (r k : text) :
  (length r <= fuel)%nat → one_separator (r ++ k) →
  push_loop (length (r ++ k)) c (r ++ k)
  = let '(out, r1) := push_loop fuel c r in
    let '(out', r2) := push_loop (length (r1 ++ k)) c (r1 ++ k) in (out ++ out', r2).
Proof.
  revert r; induction fuel as [|fuel IH]; intros r Hl Hone; cbn [push_loop].
  { by destruct (push_loop (length (r ++ k)) c (r ++ k)). }
  destruct (find_separator r) as [[pos skip]|] eqn:E.
  2:{ by destruct (push_loop (length (r ++ k)) c (r ++ k)). }
  pose proof (find_separator_bound _ _ _ E) as [Hb Hs].
  pose proof (find_separator_app _ _ _ _ Hone E) as E'.
  destruct (length (r ++ k)) as [|n] eqn:En; [rewrite length_app in En; lia|].
  cbn [push_loop]. rewrite E'. rewrite take_app_le, drop_app_le by lia.
  rewrite (push_loop_fuel n (length (drop (pos + skip) r ++ k)))
    by (rewrite length_app in *; rewrite length_drop; lia).
  rewrite IH.
  - destruct (push_loop fuel c (drop (pos + skip) r)) as [out r1].
    destruct (push_loop (length (r1 ++ k)) c (r1 ++ k)) as [out' r2].
    by destruct (parse_event c (take pos r)).
  - rewrite length_drop. lia.
  - apply (one_separator_infix (take (pos + skip) r) _ []).
    rewrite app_nil_r, app_assoc, take_drop. done.
Qed.

(** Pushing in pieces is pushing the concatenation. *)
Lemma push_all_concat (c : SseCtx) (pieces : list text) (r : text) :
  one_separator (r ++ concat pieces) → find_separator r = None →
  push_all c r pieces = sse_push c r (concat pieces).
Proof.
  revert r; induction pieces as [|p ps IH]; intros r Hone Hr; cbn [push_all concat].
  - unfold sse_push. rewrite app_nil_r. destruct r as [|b r]; [done|].
    cbn [length push_loop]. by rewrite Hr.
  - cbn [concat] in Hone. unfold sse_push. rewrite app_assoc.
    cbv zeta. rewrite (push_loop_app (length (r ++ p)) c (r ++ p) (concat ps))
      by (lia || by rewrite <- app_assoc).
    pose proof (push_loop_residual (length (r ++ p)) c (r ++ p) ltac:(lia)) as Hres.
    destruct (push_loop (length (r ++ p)) c (r ++ p)) as [out r1] eqn:Ep. cbn [snd] in Hres.
    rewrite IH; [done| |done].
    assert (Hsuf : ∃ w, r ++ p = w ++ r1).
    { clear -Ep. revert out Ep. generalize (length (r ++ p)) as fuel.
      generalize (r ++ p) as s. intros s fuel. revert s.
      induction fuel as [|fuel IH]; intros s out; cbn [push_loop].
      { intros [= <- <-]. by exists []. }
      destruct (find_separator s) as [[pos skip]|].
      2:{ intros [= <- <-]. by exists []. }
      destruct (push_loop fuel c (drop (pos + skip) s)) as [o1 r2] eqn:E.
      intros Heq. assert (r2 = r1) as -> by (destruct (parse_event c _); congruence).
      destruct (IH _ _ E) as [w Hw].
      exists (take (pos + skip) s ++ w). by rewrite <- app_assoc, <- Hw, take_drop. }
    destruct Hsuf as [w Hw]. rewrite app_assoc, Hw, <- app_assoc in Hone.
    rewrite <- (app_nil_r (r1 ++ concat ps)) in Hone. by eapply one_separator_infix.
Qed.

(** ** Writing an event stream *)

(** An event as a producer writes it: its type and its data lines. *)
Record StreamEvent : Type := mkStreamEvent {
  ev_type : text;
  ev_data : list text;
}.

Definition line_ok (l : text) : Prop := (LF ∉ l) ∧ (CR ∉ l).

(** Types are trimmed single lines, data lines single lines without a leading
    space; an event says something. *)
Definition stream_event_ok (e : StreamEvent) : Prop :=
  line_ok (ev_type e) ∧ trimmed (ev_type e) ∧
  Forall (λ d, line_ok d ∧ trim_start_spaces d = d) (ev_data e) ∧ ev_data e ≠ [].

Definition event_lines (e : StreamEvent) : list text :=
  (B "event: " ++ ev_type e) :: map (λ d, B "data: " ++ d) (ev_data e).

(** One event, lines ended by [eol] and a blank line. *)
Definition encode_event (eol : text) (e : StreamEvent) : text :=
  concat (map (λ l, l ++ eol) (event_lines e)) ++ eol.

Definition encode_stream (eol : text) (es : list StreamEvent) : text :=
  concat (map (encode_event eol) es).

Definition eol_ok (eol : text) : Prop := eol = [LF] ∨ eol = CRLF.

Definition ctx_event (c : SseCtx) (e : StreamEvent) : HttpParseEvent :=
  SseEvent (mkSse (ctx_flow c) (ctx_client c) (ctx_server c) (ev_type e)
              (join [LF] (ev_data e)) (ctx_ts c) None).

(** ** The writer's separators are the ones found *)

Lemma find_sub_absent (a : byte) (p l : text) : a ∉ l → find_sub (a :: p) l = None.
Proof.
  intros H. rewrite <- (app_nil_r l), find_sub_skip by done. done.
Qed.

Lemma eol_cases (eol : text) : eol_ok eol → eol = [LF] ∨ eol = [CR; LF].
Proof. by intros [->| ->]; [left|right]. Qed.

Lemma find_blank_join (eol : text) (ls : list text) (k : text) :
  eol_ok eol → ls ≠ [] → Forall (λ l, line_ok l ∧ l ≠ []) ls →
  find_sub (eol ++ eol) (join eol ls ++ eol ++ eol ++ k) = Some (length (join eol ls)).
Proof.
  intros He Hne Hf. induction Hf as [|l ls [[Hlf Hcr] Hl] Hf IH]; [done|].
  assert (Hskip : ∀ m, find_sub (eol ++ eol) (l ++ m)
    = (λ n, (length l + n)%nat) <$> find_sub (eol ++ eol) m).
  { intros m. destruct He as [->| ->]; by apply find_sub_skip. }
  destruct ls as [|l2 ls].
  - cbn [join]. rewrite Hskip, (app_assoc eol eol k), find_sub_here. simpl. f_equal. lia.
  - specialize (IH ltac:(done)). cbn [join] in *. fold (join eol (l2 :: ls)) in *.
    change (match ls with [] => l2 | _ :: _ => l2 ++ eol ++ join eol ls end)
      with (join eol (l2 :: ls)) in *.
    rewrite <- !app_assoc, Hskip.
    apply Forall_cons in Hf as [[[Hlf2 Hcr2] Hl2] _].
    assert (Hhd : ∃ b m, join eol (l2 :: ls) ++ eol ++ eol ++ k = b :: m ∧ b ≠ LF ∧ b ≠ CR).
    { destruct l2 as [|b l2]; [done|]. rewrite not_elem_of_cons in Hlf2, Hcr2.
      destruct Hlf2, Hcr2. destruct ls; cbn [join app]; eauto 10. }
    destruct Hhd as (b & m & Hm & Hb1 & Hb2). rewrite Hm in *.
    rewrite !length_app.
    destruct He as [->| ->]; unfold CRLF in *; cbn [app] in *.
    + rewrite find_sub_step by (cbn [starts_with]; by rewrite (bool_decide_false (LF = b))).
      rewrite IH. simpl. done.
    + rewrite find_sub_step by (cbn [starts_with];
        rewrite (bool_decide_false (CR = b)) by done; by rewrite !andb_false_r).
      rewrite find_sub_step by reflexivity. rewrite IH. simpl. done.
Qed.

(** The stream as lines, blank ones included. *)
Definition stream_lines (es : list StreamEvent) : list text :=
  concat (map (λ e, event_lines e ++ [[]]) es).
Definition ended (eol : text) (ls : list text) : text := concat (map (λ l, l ++ eol) ls).

Lemma encode_stream_lines (eol : text) (es : list StreamEvent) :
  encode_stream eol es = ended eol (stream_lines es).
Proof.
  unfold encode_stream, stream_lines, ended.
  induction es as [|e es IH]; [done|]. cbn [map concat].
  rewrite map_app, concat_app, IH. f_equal. unfold encode_event.
  rewrite map_app, concat_app. simpl. by rewrite app_nil_r.
Qed.

Lemma event_lines_ok (e : StreamEvent) :
  stream_event_ok e → Forall (λ l, line_ok l ∧ l ≠ []) (event_lines e).
Proof.
  intros ((H1 & H2) & _ & Hd & _). unfold event_lines. constructor.
  { split; [|done]. split; apply not_elem_of_app; split; try done;
      by apply (bool_decide_unpack _). }
  apply Forall_fmap. eapply Forall_impl; [exact Hd|]. intros d [[Hl Hc] _].
  split; [|done]. split; simpl; rewrite !not_elem_of_cons; repeat split; try done.
Qed.

Lemma stream_lines_ok (es : list StreamEvent) :
  Forall stream_event_ok es → Forall line_ok (stream_lines es).
Proof.
  unfold stream_lines. induction 1 as [|e es He _ IH]; [done|]. cbn [map concat].
  rewrite !Forall_app. split; [split|done].
  - eapply Forall_impl; [by apply event_lines_ok|]. by intros ? [? _].
  - repeat constructor; set_solver.
Qed.

Lemma ended_LF_no_cr (ls : list text) : Forall line_ok ls → CR ∉ ended [LF] ls.
Proof.
  unfold ended. induction 1 as [|l ls [_ Hc] _ IH]; cbn [map concat]; [set_solver|].
  rewrite !not_elem_of_app. repeat split; try done. set_solver.
Qed.

Lemma ended_CRLF_no_blank (ls : list text) :
  Forall line_ok ls →
  find_sub [LF; LF] (ended CRLF ls) = None ∧
  match ended CRLF ls with b :: _ => b ≠ LF | [] => True end.
Proof.
  unfold ended. induction 1 as [|l ls [Hl _] _ [IH1 IH2]]; cbn [map concat]; [done|].
  rewrite <- app_assoc. split.
  - rewrite find_sub_skip by done.
    destruct (concat (map (λ l, l ++ CRLF) ls)) as [|b m] eqn:E; [done|].
    cbn [app CRLF]. rewrite find_sub_step by reflexivity.
    rewrite find_sub_step by (cbn [starts_with]; by rewrite (bool_decide_false (LF = b))).
    by rewrite IH1.
  - destruct l as [|b l]; [done|]. rewrite not_elem_of_cons in Hl. simpl. by destruct Hl.
Qed.

Lemma encode_stream_one_separator (eol : text) (es : list StreamEvent) :
  eol_ok eol → Forall stream_event_ok es → one_separator (encode_stream eol es).
Proof.
  intros He Hes. rewrite encode_stream_lines. pose proof (stream_lines_ok es Hes) as Hl.
  destruct He as [->| ->].
  - right. apply find_sub_absent. by apply ended_LF_no_cr.
  - left. by apply ended_CRLF_no_blank.
Qed.

(** ** The writer's events are the ones parsed *)

Lemma lines_eol (eol l k : text) : eol_ok eol → line_ok l → lines (l ++ eol ++ k) = l :: lines k.
Proof.
  intros [->| ->] [Hl Hc]; [by apply lines_line|].
  unfold lines, CRLF. change (l ++ [CR; LF] ++ k) with (l ++ [CR] ++ LF :: k).
  rewrite app_assoc, lines_acc_line.
  - cbn [rev app]. rewrite rev_app_distr. cbn [rev app].
    rewrite bool_decide_true by done. by rewrite rev_involutive.
  - rewrite not_elem_of_app. split; [done|]. intros ?%list_elem_of_singleton. done.
Qed.

Lemma lines_join (eol : text) (ls : list text) :
  eol_ok eol → Forall (λ l, line_ok l ∧ l ≠ []) ls → lines (join eol ls) = ls.
Proof.
  intros He. induction 1 as [|l ls [Hok Hne] Hf IH]; [done|].
  destruct ls as [|l2 ls]; [apply lines_last; by destruct Hok|].
  change (join eol (l :: l2 :: ls)) with (l ++ eol ++ join eol (l2 :: ls)).
  rewrite lines_eol by done. by rewrite IH.
Qed.

Lemma event_fields_data (ds : list text) (t : text) (acc : list text) :
  Forall (λ d, trim_start_spaces d = d) ds →
  event_fields (map (λ d, B "data: " ++ d) ds) t acc = (t, acc ++ ds).
Proof.
  intros H. revert acc. induction H as [|d ds Hd _ IH]; intros acc.
  { by rewrite app_nil_r. }
  cbn [map event_fields].
  change (strip_prefix (B "event:") (B "data: " ++ d)) with (@None text).
  change (strip_prefix (B "data:") (B "data: " ++ d)) with (Some (SP :: d)). cbv iota.
  change (trim_start_spaces (SP :: d)) with (trim_start_spaces d).
  rewrite Hd, IH, <- app_assoc. done.
Qed.

Lemma parse_fields_event (eol : text) (e : StreamEvent) :
  eol_ok eol → stream_event_ok e →
  parse_fields (join eol (event_lines e)) = Some (ev_type e, join [LF] (ev_data e)).
Proof.
  intros He Hok. unfold parse_fields. rewrite lines_join by (done || by apply event_lines_ok).
  destruct Hok as (_ & Ht & Hd & Hne). unfold event_lines. cbn [event_fields].
  change (strip_prefix (B "event:") (B "event: " ++ ev_type e)) with (Some (SP :: ev_type e)).
  cbv iota. rewrite trim_space by done. rewrite event_fields_data.
  - cbn [app]. by rewrite bool_decide_false.
  - eapply Forall_impl; [exact Hd|]. by intros ? [_ ?].
Qed.

Lemma encode_event_join (eol : text) (e : StreamEvent) :
  encode_event eol e = join eol (event_lines e) ++ eol ++ eol.
Proof.
  unfold encode_event, event_lines. generalize (B "event: " ++ ev_type e) as l.
  generalize (map (λ d, B "data: " ++ d) (ev_data e)) as ls.
  induction ls as [|l2 ls IH]; intros l; [simpl; by rewrite <- !app_assoc|].
  change (concat (map (λ l, l ++ eol) (l :: l2 :: ls)) ++ eol)
    with (((l ++ eol) ++ concat (map (λ l, l ++ eol) (l2 :: ls))) ++ eol).
  change (join eol (l :: l2 :: ls)) with (l ++ eol ++ join eol (l2 :: ls)).
  by rewrite <- !app_assoc, IH.
Qed.

Lemma find_separator_event (eol : text) (e : StreamEvent) (k : text) :
  eol_ok eol → stream_event_ok e → one_separator (encode_event eol e ++ k) →
  find_separator (encode_event eol e ++ k)
  = Some (length (join eol (event_lines e)), length (eol ++ eol)).
Proof.
  intros He Hok Hone. rewrite encode_event_join, <- !app_assoc in *.
  pose proof (find_blank_join eol (event_lines e) k He ltac:(done) (event_lines_ok e Hok)) as Hf.
  unfold find_separator. destruct He as [->| ->].
  - change ([LF] ++ [LF]) with [LF; LF] in Hf.
    destruct Hone as [H|H]; [by rewrite H in Hf|]. by rewrite H, Hf.
  - by rewrite Hf.
Qed.

Lemma push_loop_stream (eol : text) (c : SseCtx) (es : list StreamEvent) (fuel : nat) :
  eol_ok eol → Forall stream_event_ok es → (length (encode_stream eol es) <= fuel)%nat →
  push_loop fuel c (encode_stream eol es) = (map (ctx_event c) es, []).
Proof.
  intros He Hes. pose proof (encode_stream_one_separator eol es He Hes) as Hone.
  revert fuel Hone. induction Hes as [|e es Hok Hes IH]; intros fuel Hone Hl.
  { by destruct fuel. }
  change (encode_stream eol (e :: es)) with (encode_event eol e ++ encode_stream eol es) in *.
  pose proof (find_separator_event eol e _ He Hok Hone) as Hsep.
  pose proof (find_separator_bound _ _ _ Hsep) as [Hb Hs].
  destruct fuel as [|fuel]; [lia|]. cbn [push_loop]. rewrite Hsep.
  assert (Henc : encode_event eol e ++ encode_stream eol es
    = join eol (event_lines e) ++ (eol ++ eol) ++ encode_stream eol es)
    by (rewrite encode_event_join; by rewrite <- !app_assoc).
  rewrite Henc in *. rewrite take_app_exact by done.
  rewrite (app_assoc (join _ _) (eol ++ eol)), drop_app_exact by (rewrite !length_app; lia).
  rewrite IH.
  - unfold parse_event. by rewrite parse_fields_event.
  - rewrite app_assoc, <- (app_nil_r (encode_stream eol es)) in Hone.
    by apply one_separator_infix in Hone.
  - rewrite !length_app in *. lia.
Qed.

(** Event parsing does not depend on how the text is cut: while a stream
    uses one kind of blank line, pushing any pieces yields the events and the
    residual of pushing the whole text once. *)
Theorem sse_push_pieces :
  ∀ (c : SseCtx) (r : text) (pieces : list text)
    (Hone : one_separator (r ++ concat pieces)) (Hr : find_separator r = None),
    push_all c r pieces = sse_push c r (concat pieces).
Proof. intros. by apply push_all_concat. Qed.

Lemma sse_push_pieces_witness :
  let c := mkSseCtx (mkFlowKey "s" (V4 1, 2) (V4 3, 4)) (V4 1, 2) (V4 3, 4) 9 in
  push_all c [] [B "data: a" ++ [LF]; [LF] ++ B "da"; B "ta: b" ++ [LF; LF]]
  = sse_push c [] (B "data: a" ++ [LF; LF] ++ B "data: b" ++ [LF; LF]).
Proof.
  intros c. apply (sse_push_pieces c []
    [B "data: a" ++ [LF]; [LF] ++ B "da"; B "ta: b" ++ [LF; LF]]);
    [right; vm_compute; reflexivity | vm_compute; reflexivity].
Defined.

(** C35: an event stream round-trips: whatever the pieces a producer's stream of
    typed events arrives in, with LF or CRLF line ends, the parser emits exactly
    these events, in order, each with its type and its data lines joined, and
    keeps nothing back. *)
Theorem sse_roundtrip :
  ∀ (c : SseCtx) (eol : text) (es : list StreamEvent) (pieces : list text)
    (He : eol_ok eol) (Hes : Forall stream_event_ok es)
    (Hp : concat pieces = encode_stream eol es),
    push_all c [] pieces = (map (ctx_event c) es, []).
Proof.
  intros. rewrite push_all_concat; [|rewrite Hp; by apply encode_stream_one_separator|done].
  rewrite Hp. by apply push_loop_stream.
Qed.

Lemma sse_roundtrip_witness :
  let c := mkSseCtx (mkFlowKey "s" (V4 1, 2) (V4 3, 4)) (V4 1, 2) (V4 3, 4) 9 in
  push_all c [] [B "event: message_start" ++ [CR]; LF :: B "data: {}" ++ CRLF; CRLF]
  = ([ctx_event c (mkStreamEvent (B "message_start") [B "{}"])], []).
Proof.
  intros c. apply (sse_roundtrip c CRLF [mkStreamEvent (B "message_start") [B "{}"]]).
  - by right.
  - repeat constructor; cbn [ev_type ev_data];
      rewrite ?not_elem_of_cons; repeat split; vm_compute; intros; set_solver || done.
  - reflexivity.
Defined.

(** A stream that mixes both kinds of blank line is not independent of its
    pieces: the CRLF separator is searched for in the whole residual first. *)
Lemma sse_mixed_separators_depend_on_pieces :
  let c := mkSseCtx (mkFlowKey "s" (V4 1, 2) (V4 3, 4)) (V4 1, 2) (V4 3, 4) 9 in
  length (push_all c [] [B "data: a" ++ [LF; LF]; B "data: b" ++ CRLF ++ CRLF]).1 = 2%nat ∧
  length (push_all c [] [B "data: a" ++ [LF; LF] ++ B "data: b" ++ CRLF ++ CRLF]).1 = 1%nat.
Proof. split; vm_compute; reflexivity. Qed.
