(* ===== verification/HttpParser.v ===== *)
(** * The HTTP parser of one connection (h-protocol/src/http.rs: HttpParser)

    The state machine that takes request and response messages off the two
    reassembly buffers of a connection and emits request, response and SSE
    events.

    The [httparse] crate is a parameter ([HttpParse]): given the bytes of a
    buffer it reports a complete head with its length, asks for more, or fails.
    [HttpParseLaws] is what its documentation promises of a complete head: its
    length is positive and within the buffer. *)

From Stdlib Require Import Strings.Byte ZArith Lia.
From stdpp Require Import base gmap sets list strings.
From S2P Require Import Prelude.
From S2P Require Import Net.
From S2P Require Import Text.
From S2P Require Import Events.
From S2P Require Import Body.
From S2P Require Import Sse.

Open Scope Z_scope.

(** ** httparse *)

Inductive HeadStatus (H : Type) : Type :=
| HeadComplete (len : nat) (h : H)
| HeadPartial
| HeadError.
Arguments HeadComplete {H} len h.
Arguments HeadPartial {H}.
Arguments HeadError {H}.

Record RequestHead : Type := mkRequestHead {
  rh_method : option text;
  rh_path : option text;
  rh_version : option Z;
  rh_headers : list (text * list byte);
}.

Record ResponseHead : Type := mkResponseHead {
  sh_code : option Z;
  sh_version : option Z;
  sh_headers : list (text * list byte);
}.

Class HttpParse : Type := {
  httparse_request : list byte → HeadStatus RequestHead;
  httparse_response : list byte → HeadStatus ResponseHead;
}.

Class HttpParseLaws (HP : HttpParse) : Prop := {
  httparse_request_len l n h :
    httparse_request l = HeadComplete n h → (0 < n <= length l)%nat;
  httparse_response_len l n h :
    httparse_response l = HeadComplete n h → (0 < n <= length l)%nat;
}.

(** ** Parser state *)

Inductive ParserState : Type :=
| WaitingForRequest
| ReadingRequestBody
| WaitingForResponse
| ReadingResponseBody.

#[global] Instance ParserState_eq_dec : EqDecision ParserState.
Proof. solve_decision. Defined.

Inductive ParseResult : Type := ParseOk | NeedResync.

#[global] Instance ParseResult_eq_dec : EqDecision ParseResult.
Proof. solve_decision. Defined.

(** The arguments of a [parse] call besides the buffers and the output. *)
Record ParseEnv : Type := mkEnv {
  env_flow : FlowKey;
  env_client : sock;
  env_server : sock;
  env_client_ts : Z;
  env_server_ts : Z;
  env_server_last_ts : Z;
}.

Definition sse_ctx (e : ParseEnv) : SseCtx :=
  mkSseCtx (env_flow e) (env_client e) (env_server e) (env_server_last_ts e).

Section Parser.
Context `{FL : Flate} `{HP : HttpParse}.

Record HttpParser : Type := mkParser {
  state : ParserState;
  pending_method : text;
  pending_uri : text;
  pending_req_version : Z;
  pending_req_headers : headers;
  pending_req_timestamp : Z;
  last_request_method : text;
  pending_resp_status : Z;
  pending_resp_version : Z;
  pending_resp_headers : headers;
  pending_resp_timestamp : Z;
  pending_resp_is_sse : bool;
  body_reader : BodyReader;
  sse_residual : text;
}.

Definition parser_new : HttpParser :=
  {| state := WaitingForRequest;
     pending_method := [];
     pending_uri := [];
     pending_req_version := 1;
     pending_req_headers := [];
     pending_req_timestamp := 0;
     last_request_method := [];
     pending_resp_status := 0;
     pending_resp_version := 1;
     pending_resp_headers := [];
     pending_resp_timestamp := 0;
     pending_resp_is_sse := false;
     body_reader := reader_new;
     sse_residual := [] |}.

(** Field updates. *)
Definition set_state (p : HttpParser) (s : ParserState) : HttpParser :=
  mkParser s (pending_method p) (pending_uri p) (pending_req_version p)
    (pending_req_headers p) (pending_req_timestamp p) (last_request_method p)
    (pending_resp_status p) (pending_resp_version p) (pending_resp_headers p)
    (pending_resp_timestamp p) (pending_resp_is_sse p) (body_reader p) (sse_residual p).
Definition set_reader (p : HttpParser) (r : BodyReader) : HttpParser :=
  mkParser (state p) (pending_method p) (pending_uri p) (pending_req_version p)
    (pending_req_headers p) (pending_req_timestamp p) (last_request_method p)
    (pending_resp_status p) (pending_resp_version p) (pending_resp_headers p)
    (pending_resp_timestamp p) (pending_resp_is_sse p) r (sse_residual p).
Definition set_residual (p : HttpParser) (t : text) : HttpParser :=
  mkParser (state p) (pending_method p) (pending_uri p) (pending_req_version p)
    (pending_req_headers p) (pending_req_timestamp p) (last_request_method p)
    (pending_resp_status p) (pending_resp_version p) (pending_resp_headers p)
    (pending_resp_timestamp p) (pending_resp_is_sse p) (body_reader p) t.
(** [std::mem::take] of the request strings and headers. *)
Definition take_request (p : HttpParser) : HttpParser :=
  mkParser (state p) [] [] (pending_req_version p)
    [] (pending_req_timestamp p) (last_request_method p)
    (pending_resp_status p) (pending_resp_version p) (pending_resp_headers p)
    (pending_resp_timestamp p) (pending_resp_is_sse p) (body_reader p) (sse_residual p).
(** [std::mem::take] of the response headers. *)
Definition take_response (p : HttpParser) : HttpParser :=
  mkParser (state p) (pending_method p) (pending_uri p) (pending_req_version p)
    (pending_req_headers p) (pending_req_timestamp p) (last_request_method p)
    (pending_resp_status p) (pending_resp_version p) []
    (pending_resp_timestamp p) (pending_resp_is_sse p) (body_reader p) (sse_residual p).

Definition is_waiting_for_response (p : HttpParser) : bool :=
  match state p with
  | WaitingForResponse | ReadingResponseBody => true
  | _ => false
  end.

(** Header values are decoded lossily. *)
Definition own_headers (hs : list (text * list byte)) : headers :=
  map (λ h, (h.1, from_utf8_lossy h.2)) hs.

(** [Some true] on success, [Some false] when more data is needed, [None] on
    error. *)
Definition try_parse_request_headers (p : HttpParser) (buf : list byte) (timestamp : Z)
    : option bool * HttpParser * list byte :=
  match httparse_request buf with
  | HeadComplete header_len req =>
      let method := default [] (rh_method req) in
      (Some true,
       mkParser (state p) method (default [] (rh_path req)) (default 1 (rh_version req))
         (own_headers (rh_headers req)) timestamp method
         (pending_resp_status p) (pending_resp_version p) (pending_resp_headers p)
         (pending_resp_timestamp p) (pending_resp_is_sse p) (body_reader p) (sse_residual p),
       drop header_len buf)
  | HeadPartial => (Some false, p, buf)
  | HeadError => (None, p, buf)
  end.

Definition try_parse_response_headers (p : HttpParser) (buf : list byte) (timestamp : Z)
    : option bool * HttpParser * list byte :=
  match httparse_response buf with
  | HeadComplete header_len resp =>
      let hs := own_headers (sh_headers resp) in
      (Some true,
       mkParser (state p) (pending_method p) (pending_uri p) (pending_req_version p)
         (pending_req_headers p) (pending_req_timestamp p) (last_request_method p)
         (default 0 (sh_code resp)) (default 1 (sh_version resp)) hs
         timestamp (is_sse hs) (body_reader p) (sse_residual p),
       drop header_len buf)
  | HeadPartial => (Some false, p, buf)
  | HeadError => (None, p, buf)
  end.

(** The events built from the pending fields. *)
Definition request_event (p : HttpParser) (e : ParseEnv) (body : list byte) : HttpParseEvent :=
  HttpRequest {| req_flow_key := env_flow e;
                 req_client_addr := env_client e;
                 req_server_addr := env_server e;
                 req_method := pending_method p;
                 req_uri := pending_uri p;
                 req_version := pending_req_version p;
                 req_headers := pending_req_headers p;
                 req_body := body;
                 req_timestamp_us := pending_req_timestamp p;
                 req_process := None |}.

Definition response_event (p : HttpParser) (e : ParseEnv) (body : list byte)
    (complete_ts : Z) : HttpParseEvent :=
  HttpResponse {| resp_flow_key := env_flow e;
                  resp_client_addr := env_client e;
                  resp_server_addr := env_server e;
                  resp_status := pending_resp_status p;
                  resp_version := pending_resp_version p;
                  resp_headers := pending_resp_headers p;
                  resp_body := body;
                  resp_first_byte_timestamp_us := pending_resp_timestamp p;
                  resp_complete_timestamp_us := complete_ts;
                  resp_process := None |}.

(** [if let Ok(text) = from_utf8(..) { sse_parser.push(text, ..) }] *)
Definition sse_push_bytes (p : HttpParser) (e : ParseEnv) (bytes : list byte)
    : list HttpParseEvent * HttpParser :=
  match from_utf8 bytes with
  | Some t => let '(evs, res) := sse_push (sse_ctx e) (sse_residual p) t in (evs, set_residual p res)
  | None => ([], p)
  end.

(** ** One round of the parse loop

    The source nests a loop over body reads inside the arms that read a body;
    its [continue] re-enters the same arm, so the two loops are one loop whose
    round is a step.  A step either goes on or stops with a result. *)

Record Bufs : Type := mkBufs { client_buf : list byte; server_buf : list byte }.

Inductive Step : Type :=
| Continue (p : HttpParser) (b : Bufs) (out : list HttpParseEvent)
| Stop (res : ParseResult) (p : HttpParser) (b : Bufs).

Definition step_waiting_request (e : ParseEnv) (p : HttpParser) (b : Bufs) : Step :=
  let '(r, p1, c1) := try_parse_request_headers p (client_buf b) (env_client_ts e) in
  match r with
  | Some true =>
      let p2 := set_reader p1 (new_for_request (pending_req_headers p1)) in
      Continue (set_state p2 ReadingRequestBody) (mkBufs c1 (server_buf b)) []
  | Some false => Stop ParseOk p1 b
  | None => Stop NeedResync p1 b
  end.

Definition step_request_body (e : ParseEnv) (p : HttpParser) (b : Bufs) : res Step :=
  let* (rr, r', c') := read (body_reader p) (client_buf b) in
  let p1 := set_reader p r' in
  let b1 := mkBufs c' (server_buf b) in
  match rr with
  | ChunkDecoded _ => Ret (Continue p1 b1 [])
  | Complete body =>
      Ret (Continue (set_state (take_request p1) WaitingForResponse) b1
             [request_event p1 e body])
  | NeedMore => Ret (Stop ParseOk p1 b1)
  | ReadError => Ret (Stop NeedResync p1 b1)
  end.

Definition step_waiting_response (e : ParseEnv) (p : HttpParser) (b : Bufs) : Step :=
  let '(r, p1, s1) := try_parse_response_headers p (server_buf b) (env_server_ts e) in
  match r with
  | Some true =>
      let b1 := mkBufs (client_buf b) s1 in
      let reader := new_for_response (pending_resp_status p1) (last_request_method p1)
                      (pending_resp_headers p1) in
      let p2 := if pending_resp_is_sse p1
                then set_residual (set_reader p1 (set_skip_accumulation reader true)) []
                else set_reader p1 reader in
      if is_no_body (body_reader p2) then
        Continue (set_state (take_response p2) WaitingForRequest) b1
          [response_event p2 e [] (env_server_ts e)]
      else Continue (set_state p2 ReadingResponseBody) b1 []
  | Some false => Stop ParseOk p1 b
  | None => Stop NeedResync p1 b
  end.

(** The end of a response body, from [parse] and from [finish_response]: an SSE
    body that was not fed chunk by chunk is pushed now, the SSE parser is
    flushed, and the response event carries the body unless it is SSE. *)
Definition complete_response (e : ParseEnv) (p : HttpParser) (body : list byte)
    : list HttpParseEvent * HttpParser :=
  let '(evs, p1) :=
    if pending_resp_is_sse p then
      let '(evs1, p1) :=
        if was_incremental (body_reader p) then ([], p) else sse_push_bytes p e body in
      let '(evs2, res2) := sse_flush (sse_ctx e) (sse_residual p1) in
      (evs1 ++ evs2, set_residual p1 res2)
    else ([], p) in
  let emitted_body := if pending_resp_is_sse p1 then [] else body in
  (evs ++ [response_event p1 e emitted_body (env_server_last_ts e)],
   set_state (take_response p1) WaitingForRequest).

Definition step_response_body (e : ParseEnv) (p : HttpParser) (b : Bufs) : res Step :=
  let* (rr, r', s') := read (body_reader p) (server_buf b) in
  let p1 := set_reader p r' in
  let b1 := mkBufs (client_buf b) s' in
  match rr with
  | ChunkDecoded chunk =>
      let '(evs, p2) := if pending_resp_is_sse p1 then sse_push_bytes p1 e chunk else ([], p1) in
      Ret (Continue p2 b1 evs)
  | Complete body =>
      let '(evs, p2) := complete_response e p1 body in
      Ret (Continue p2 b1 evs)
  | NeedMore => Ret (Stop ParseOk p1 b1)
  | ReadError => Ret (Stop NeedResync p1 b1)
  end.

Definition parse_step (e : ParseEnv) (p : HttpParser) (b : Bufs) : res Step :=
  match state p with
  | WaitingForRequest => Ret (step_waiting_request e p b)
  | ReadingRequestBody => step_request_body e p b
  | WaitingForResponse => Ret (step_waiting_response e p b)
  | ReadingResponseBody => step_response_body e p b
  end.

Fixpoint parse_loop (fuel : nat) (e : ParseEnv) (p : HttpParser) (b : Bufs)
    : res (ParseResult * HttpParser * Bufs * list HttpParseEvent) :=
  match fuel with
  | O => OutOfFuel
  | S fuel' =>
      let* st := parse_step e p b in
      match st with
      | Continue p' b' out =>
          let* (r, p'', b'', out') := parse_loop fuel' e p' b' in
          Ret (r, p'', b'', out ++ out')
      | Stop r p' b' => Ret (r, p', b', [])
      end
  end.

(** Two rounds per buffered byte, and two to get from a body to the next head:
    [parse_total] shows it is enough. *)
Definition parse_fuel (b : Bufs) : nat :=
  2 * (length (client_buf b) + length (server_buf b)) + 2.

Definition parse (e : ParseEnv) (p : HttpParser) (b : Bufs)
    : res (ParseResult * HttpParser * Bufs * list HttpParseEvent) :=
  parse_loop (parse_fuel b) e p b.

Definition finish_response (e : ParseEnv) (p : HttpParser) (server_buf : list byte)
    : list HttpParseEvent * HttpParser * list byte :=
  match state p with
  | ReadingResponseBody =>
      let '(body, r', s') := finish (body_reader p) server_buf in
      let '(evs, p') := complete_response e (set_reader p r') body in
      (evs, p', s')
  | _ => ([], p, server_buf)
  end.

(** ** The parse loop ends *)

(** Rank of a state: a head is always worth a byte, the end of a body need not
    be. *)
Definition rank (s : ParserState) : nat :=
  match s with
  | ReadingRequestBody | ReadingResponseBody => 1
  | _ => 0
  end.

Definition measure (p : HttpParser) (b : Bufs) : nat :=
  2 * (length (client_buf b) + length (server_buf b)) + rank (state p).

Definition parser_ok (p : HttpParser) : Prop := framing_ok (framing (body_reader p)).

Lemma content_length_ok (hs : headers) (n : Z) :
  extract_content_length hs = Some n → 0 <= n.
Proof.
  unfold extract_content_length. destruct (header hs _) as [v|]; [|done].
  by apply from_str_radix_nonneg.
Qed.

Lemma new_for_request_ok (hs : headers) : framing_ok (framing (new_for_request hs)).
Proof.
  simpl. unfold request_framing. destruct (is_chunked hs); [done|].
  destruct (extract_content_length hs) eqn:E; [|done]. by apply content_length_ok in E.
Qed.

Lemma new_for_response_ok (st : Z) (m : text) (hs : headers) :
  framing_ok (framing (new_for_response st m hs)).
Proof.
  simpl. unfold response_framing. do 3 (case_match; [done|]).
  destruct (extract_content_length hs) eqn:E; [|done]. by apply content_length_ok in E.
Qed.

Section Laws.
Context `{HL : !HttpParseLaws HP}.

(** A step that goes on makes progress and keeps the reader well formed; every
    step takes prefixes off the buffers. *)
Definition suffix_of (b' b : Bufs) : Prop :=
  (∃ c, client_buf b = c ++ client_buf b') ∧ (∃ s, server_buf b = s ++ server_buf b').

Lemma suffix_of_refl (b : Bufs) : suffix_of b b.
Proof. split; by exists []. Qed.

Lemma suffix_of_trans (b1 b2 b3 : Bufs) : suffix_of b1 b2 → suffix_of b2 b3 → suffix_of b1 b3.
Proof.
  intros [[c Hc] [s Hs]] [[c' Hc'] [s' Hs']].
  rewrite Hc in Hc'. rewrite Hs in Hs'. split; eexists; rewrite app_assoc in *; eassumption.
Qed.

Definition step_ok (p : HttpParser) (b : Bufs) (st : Step) : Prop :=
  match st with
  | Continue p' b' _ => (measure p' b' < measure p b)%nat ∧ parser_ok p' ∧ suffix_of b' b
  | Stop _ p' b' => parser_ok p' ∧ suffix_of b' b
  end.

Lemma sse_push_bytes_reader (p : HttpParser) (e : ParseEnv) (l : list byte) :
  body_reader (sse_push_bytes p e l).2 = body_reader p ∧
  state (sse_push_bytes p e l).2 = state p.
Proof.
  unfold sse_push_bytes. destruct (from_utf8 l) as [t|]; [|done].
  by destruct (sse_push (sse_ctx e) (sse_residual p) t).
Qed.

Lemma complete_response_state (p : HttpParser) (e : ParseEnv) (body : list byte) :
  body_reader (complete_response e p body).2 = body_reader p ∧
  state (complete_response e p body).2 = WaitingForRequest.
Proof.
  unfold complete_response. pose proof (sse_push_bytes_reader p e body) as [Hr _].
  destruct (pending_resp_is_sse p); [|done].
  destruct (was_incremental (body_reader p)).
  - by destruct (sse_flush _ _).
  - destruct (sse_push_bytes p e body) as [evs1 p1]. by destruct (sse_flush _ _).
Qed.

Lemma parse_step_ok (e : ParseEnv) (p : HttpParser) (b : Bufs) (st : Step) :
  parser_ok p → parse_step e p b = Ret st → step_ok p b st.
Proof.
  unfold parse_step, measure. intros Hok H. destruct b as [c s]. destruct (state p) eqn:Es.
  - injection H as <-. unfold step_waiting_request, try_parse_request_headers.
    cbn [client_buf server_buf].
    destruct (httparse_request c) as [n h| |] eqn:Eh; [|by split; [|apply suffix_of_refl]..].
    apply httparse_request_len in Eh.
    cbn. unfold measure. cbn. rewrite Es, length_drop. cbn. split; [lia|].
    split; [apply new_for_request_ok|].
    split; cbn; [exists (take n c); by rewrite take_drop|by exists []].
  - unfold step_request_body in H. cbn [client_buf server_buf] in H.
    destruct (read (body_reader p) c) as [[[rr r'] c']| |] eqn:Er; cbn [res_bind] in H; try done.
    pose proof (read_Ret _ _ _ _ _ Hok Er) as [Hfr Hr].
    pose proof (read_prefix _ _ _ _ _ Hok Er) as Hp.
    assert (Hok' : framing_ok (framing r')) by (by rewrite Hfr).
    destruct rr; simplify_eq; cbn; unfold measure, parser_ok, suffix_of; cbn; rewrite ?Es; cbn;
      repeat split; try done; try lia; by exists [].
  - injection H as <-. unfold step_waiting_response, try_parse_response_headers.
    cbn [client_buf server_buf].
    destruct (httparse_response s) as [n h| |] eqn:Eh; [|by split; [|apply suffix_of_refl]..].
    apply httparse_response_len in Eh. cbn.
    pose proof (new_for_response_ok (default 0 (sh_code h)) (last_request_method p)
      (own_headers (sh_headers h))) as Hn.
    destruct (is_sse _); destruct (is_no_body _); cbn; unfold measure, parser_ok, suffix_of; cbn;
      rewrite Es, length_drop; cbn; repeat split; try done; try lia; try (by exists []);
      exists (take n s); by rewrite take_drop.
  - unfold step_response_body in H. cbn [client_buf server_buf] in H.
    destruct (read (body_reader p) s) as [[[rr r'] s']| |] eqn:Er; cbn [res_bind] in H; try done.
    pose proof (read_Ret _ _ _ _ _ Hok Er) as [Hfr Hr].
    pose proof (read_prefix _ _ _ _ _ Hok Er) as Hp.
    assert (Hok' : framing_ok (framing r')) by (by rewrite Hfr).
    destruct rr as [|body|chunk|].
    + simplify_eq. repeat split; cbn; done || by exists [].
    + pose proof (complete_response_state (set_reader p r') e body) as [Hcr Hcs].
      destruct (complete_response e (set_reader p r') body) as [evs p2]. cbn in Hcr, Hcs.
      injection H as <-. unfold step_ok, measure, parser_ok, suffix_of. cbn. rewrite Hcr, Hcs, Es. cbn.
      repeat split; try done; try lia; by exists [].
    + assert (H1 : ∃ evs p2, st = Continue p2 (mkBufs c s') evs ∧
        body_reader p2 = r' ∧ state p2 = ReadingResponseBody).
      { pose proof (sse_push_bytes_reader (set_reader p r') e chunk) as [Hs1 Hs2].
        destruct (pending_resp_is_sse (set_reader p r')).
        - destruct (sse_push_bytes (set_reader p r') e chunk) as [evs p2].
          injection H as <-. cbn in Hs1, Hs2. exists evs, p2. by rewrite <- Es.
        - injection H as <-. eexists _, _. split; [done|]. by cbn. }
      destruct H1 as (evs & p2 & -> & Hb & Hs).
      unfold step_ok, measure, parser_ok, suffix_of. cbn. rewrite Hb, Hs, Es. cbn.
      repeat split; try done; try lia; by exists [].
    + simplify_eq. repeat split; cbn; done || by exists [].
Qed.

Lemma parse_step_no_fuel (e : ParseEnv) (p : HttpParser) (b : Bufs) :
  parse_step e p b ≠ OutOfFuel.
Proof.
  unfold parse_step, step_request_body, step_response_body.
  pose proof (read_no_fuel (body_reader p)) as Hn.
  destruct (state p); try done.
  - specialize (Hn (client_buf b)).
    destruct (read _ _) as [[[rr r'] c']| |]; cbn [res_bind]; try done. by destruct rr.
  - specialize (Hn (server_buf b)).
    destruct (read _ _) as [[[rr r'] c']| |]; cbn [res_bind]; try done.
    destruct rr; try done; by case_match.
Qed.

Lemma parse_loop_fuel (f1 f2 : nat) (e : ParseEnv) (p : HttpParser) (b : Bufs) :
  parser_ok p → (measure p b < f1)%nat → (measure p b < f2)%nat →
  parse_loop f1 e p b = parse_loop f2 e p b.
Proof.
  revert f2 p b; induction f1 as [|f1 IH]; intros f2 p b Hok H1 H2; [lia|].
  destruct f2 as [|f2]; [lia|]. cbn [parse_loop].
  destruct (parse_step e p b) as [st| |] eqn:Es; cbn [res_bind]; try done.
  apply parse_step_ok in Es; [|done].
  destruct st as [p' b' out|r p' b']; [|done]. destruct Es as (Hm & Hok' & _).
  rewrite (IH f2); [done|done|lia|lia].
Qed.

Lemma measure_fuel (p : HttpParser) (b : Bufs) : (measure p b < parse_fuel b)%nat.
Proof. unfold measure, parse_fuel. destruct (state p); simpl; lia. Qed.

Definition prepend (out : list HttpParseEvent)
    (r : res (ParseResult * HttpParser * Bufs * list HttpParseEvent))
    : res (ParseResult * HttpParser * Bufs * list HttpParseEvent) :=
  let* (x, p, b, out') := r in Ret (x, p, b, out ++ out').

Lemma prepend_prepend (l k : list HttpParseEvent) r : prepend l (prepend k r) = prepend (l ++ k) r.
Proof. destruct r as [[[[? ?] ?] ?]| |]; cbn; try done. by rewrite <- app_assoc. Qed.

Lemma prepend_nil r : prepend [] r = r.
Proof. by destruct r as [[[[? ?] ?] ?]| |]. Qed.

(** [parse] without the fuel. *)
Lemma parse_unfold (e : ParseEnv) (p : HttpParser) (b : Bufs) :
  parser_ok p →
  parse e p b =
    let* st := parse_step e p b in
    match st with
    | Continue p' b' out => prepend out (parse e p' b')
    | Stop r p' b' => Ret (r, p', b', [])
    end.
Proof.
  intros Hok. unfold parse at 1.
  destruct (parse_fuel b) as [|f] eqn:Ef; [unfold parse_fuel in Ef; lia|]. cbn [parse_loop].
  destruct (parse_step e p b) as [st| |] eqn:Es; cbn [res_bind]; try done.
  pose proof (parse_step_ok e p b st Hok Es) as Hst.
  destruct st as [p' b' out|r p' b']; [|done]. destruct Hst as (Hm & Hok' & _).
  unfold prepend, parse. pose proof (measure_fuel p' b'). pose proof (measure_fuel p b).
  by rewrite (parse_loop_fuel f (parse_fuel b')) by (done || lia).
Qed.

(** ** The language of the emitted events

    Reading the events left to right: a request opens an exchange, SSE events
    and then one response belong to the open exchange, the response closes it. *)
Definition event_step (waiting : bool) (ev : HttpParseEvent) : option bool :=
  match waiting, ev with
  | false, HttpRequest _ => Some true
  | true, SseEvent _ => Some true
  | true, HttpResponse _ => Some false
  | _, _ => None
  end.

Fixpoint run_events (waiting : bool) (evs : list HttpParseEvent) : option bool :=
  match evs with
  | [] => Some waiting
  | ev :: evs' =>
      match event_step waiting ev with
      | Some w => run_events w evs'
      | None => None
      end
  end.

Lemma run_events_app (w : bool) (l k : list HttpParseEvent) :
  run_events w (l ++ k) = match run_events w l with Some w' => run_events w' k | None => None end.
Proof.
  revert w; induction l as [|ev l IH]; intros w; [done|]. cbn [run_events app].
  destruct (event_step w ev); [apply IH|done].
Qed.

Lemma run_events_sse (evs : list HttpParseEvent) :
  Forall (λ ev, ∃ s, ev = SseEvent s) evs → run_events true evs = Some true.
Proof. induction 1 as [|ev evs [s ->] _ IH]; [done|]. cbn. exact IH. Qed.

(** The events of one SSE context: SSE events of its flow, not yet stamped. *)
Definition sse_of (c : SseCtx) (ev : HttpParseEvent) : Prop :=
  ∃ s, ev = SseEvent s ∧ sse_flow_key s = ctx_flow c ∧ sse_process s = None.

(** An event as the parser emits it: of the flow, not yet stamped. *)
Definition raw_event (e : ParseEnv) (ev : HttpParseEvent) : Prop :=
  event_flow ev = Some (env_flow e) ∧ event_process ev = None.

Lemma parse_event_of (c : SseCtx) (t : text) (ev : HttpParseEvent) :
  parse_event c t = Some ev → sse_of c ev.
Proof.
  unfold parse_event. destruct (parse_fields t) as [[ty d]|]; [|done]. intros [= <-].
  eexists. split; [done|]. by split.
Qed.

Lemma push_loop_of (fuel : nat) (c : SseCtx) (r : text) : Forall (sse_of c) (push_loop fuel c r).1.
Proof.
  revert r; induction fuel as [|fuel IH]; intros r; cbn [push_loop]; [constructor|].
  destruct (find_separator r) as [[pos skip]|]; [|constructor].
  specialize (IH (drop (pos + skip) r)).
  destruct (push_loop fuel c (drop (pos + skip) r)) as [out r2].
  destruct (parse_event c (take pos r)) as [ev|] eqn:E; [|done].
  constructor; [by eapply parse_event_of|done].
Qed.

Lemma sse_flush_of (c : SseCtx) (r : text) : Forall (sse_of c) (sse_flush c r).1.
Proof.
  unfold sse_flush. destruct (bool_decide _); [constructor|].
  destruct (parse_event c (trim r)) as [ev|] eqn:E; repeat constructor. by eapply parse_event_of.
Qed.

Lemma sse_push_bytes_of (p : HttpParser) (e : ParseEnv) (l : list byte) :
  Forall (sse_of (sse_ctx e)) (sse_push_bytes p e l).1.
Proof.
  unfold sse_push_bytes. destruct (from_utf8 l) as [t|]; [|constructor].
  pose proof (push_loop_of (length (sse_residual p ++ t)) (sse_ctx e) (sse_residual p ++ t)) as H.
  unfold sse_push. by destruct (push_loop _ _ _).
Qed.

(** Completing a response: SSE events of the flow, then the response. *)
Lemma complete_response_shape (p : HttpParser) (e : ParseEnv) (body : list byte) :
  ∃ sse r, (complete_response e p body).1 = sse ++ [HttpResponse r] ∧
    Forall (sse_of (sse_ctx e)) sse ∧ resp_flow_key r = env_flow e ∧ resp_process r = None.
Proof.
  unfold complete_response. destruct (pending_resp_is_sse p).
  - destruct (was_incremental (body_reader p)).
    + pose proof (sse_flush_of (sse_ctx e) (sse_residual p)) as H.
      destruct (sse_flush _ _) as [evs2 res2]. cbn. eexists _, _. split; [done|]. by cbn.
    + pose proof (sse_push_bytes_of p e body) as H1.
      destruct (sse_push_bytes p e body) as [evs1 p1].
      pose proof (sse_flush_of (sse_ctx e) (sse_residual p1)) as H2.
      destruct (sse_flush _ _) as [evs2 res2]. cbn. eexists _, _. split; [done|].
      split; [by apply Forall_app|done].
  - cbn. exists [], (mkResp (env_flow e) (env_client e) (env_server e) (pending_resp_status p)
      (pending_resp_version p) (pending_resp_headers p)
      (if pending_resp_is_sse p then [] else body) (pending_resp_timestamp p)
      (env_server_last_ts e) None). split; [done|]. by split.
Qed.

Lemma sse_of_flow (e : ParseEnv) (evs : list HttpParseEvent) :
  Forall (sse_of (sse_ctx e)) evs →
  Forall (raw_event e) evs ∧ run_events true evs = Some true.
Proof.
  intros H. split.
  - eapply Forall_impl; [exact H|]. intros ev (s & -> & Hs & Hn). split; cbn; [by rewrite Hs|done].
  - apply run_events_sse. eapply Forall_impl; [exact H|]. intros ev (s & -> & _). by exists s.
Qed.

Definition events_ok (e : ParseEnv) (w : bool) (evs : list HttpParseEvent) (w' : bool) : Prop :=
  run_events w evs = Some w' ∧ Forall (raw_event e) evs.

Lemma complete_response_events (p : HttpParser) (e : ParseEnv) (body : list byte) :
  events_ok e true (complete_response e p body).1 false.
Proof.
  destruct (complete_response_shape p e body) as (sse & r & -> & Hs & Hr & Hn).
  apply sse_of_flow in Hs as [H1 H2]. split.
  - by rewrite run_events_app, H2.
  - apply Forall_app. split; [done|]. repeat constructor; cbn; [by rewrite Hr|done].
Qed.

Lemma parse_step_events (e : ParseEnv) (p p' : HttpParser) (b b' : Bufs) out :
  parse_step e p b = Ret (Continue p' b' out) →
  events_ok e (is_waiting_for_response p) out (is_waiting_for_response p').
Proof.
  unfold parse_step, is_waiting_for_response at 1. intros H. destruct (state p) eqn:Es.
  - injection H as H. revert H. unfold step_waiting_request, try_parse_request_headers.
    destruct (httparse_request _); try done. intros [= <- <- <-]. by repeat constructor.
  - revert H. unfold step_request_body. destruct (read _ _) as [[[rr r'] c']| |]; try done.
    cbn [res_bind]. destruct rr; try done; intros [= <- <- <-].
    + split; [done|]. by repeat constructor.
    + unfold is_waiting_for_response. cbn. rewrite Es. by repeat constructor.
  - injection H as H. revert H. unfold step_waiting_response, try_parse_response_headers.
    destruct (httparse_response _); try done.
    destruct (is_no_body _); intros [= <- <- <-]; by repeat constructor.
  - revert H. unfold step_response_body. destruct (read _ _) as [[[rr r'] s']| |]; try done.
    cbn [res_bind]. destruct rr as [|body|chunk|]; try done.
    + pose proof (complete_response_events (set_reader p r') e body) as Hc.
      pose proof (complete_response_state (set_reader p r') e body) as [_ Hst].
      destruct (complete_response _ _ _) as [evs p2]. intros [= <- <- <-].
      unfold is_waiting_for_response. cbn in Hst. by rewrite Hst.
    + pose proof (sse_push_bytes_of (set_reader p r') e chunk) as Hc.
      pose proof (sse_push_bytes_reader (set_reader p r') e chunk) as [_ Hst].
      destruct (pending_resp_is_sse _).
      * destruct (sse_push_bytes _ _ _) as [evs p2]. intros [= <- <- <-].
        unfold is_waiting_for_response. cbn in Hst. rewrite Hst, Es.
        apply sse_of_flow in Hc as [H1 H2]. by split.
      * intros [= <- <- <-]. unfold is_waiting_for_response. cbn. rewrite Es. by repeat constructor.
Qed.

(** A step that stops leaves the state as it was. *)
Lemma parse_step_stop (e : ParseEnv) (p p' : HttpParser) (b b' : Bufs) r :
  parse_step e p b = Ret (Stop r p' b') → state p' = state p.
Proof.
  unfold parse_step. intros H. destruct (state p) eqn:Es.
  - injection H as H. revert H. unfold step_waiting_request, try_parse_request_headers.
    destruct (httparse_request _); try done; by intros [= <- <- <-].
  - revert H. unfold step_request_body. destruct (read _ _) as [[[rr r'] c']| |]; try done.
    cbn [res_bind]. destruct rr; try done; by intros [= <- <- <-].
  - injection H as H. revert H. unfold step_waiting_response, try_parse_response_headers.
    destruct (httparse_response _); [by destruct (is_no_body _)|by intros [= <- <- <-]..].
  - revert H. unfold step_response_body. destruct (read _ _) as [[[rr r'] s']| |]; try done.
    cbn [res_bind]. destruct rr as [|body|chunk|]; [by intros [= <- <- <-]| | |by intros [= <- <- <-]].
    + by destruct (complete_response _ _ _).
    + destruct (pending_resp_is_sse _); [by destruct (sse_push_bytes _ _ _)|done].
Qed.

Lemma parse_loop_events (fuel : nat) (e : ParseEnv) (p p' : HttpParser) (b b' : Bufs) r out :
  parse_loop fuel e p b = Ret (r, p', b', out) →
  events_ok e (is_waiting_for_response p) out (is_waiting_for_response p').
Proof.
  revert p b out. induction fuel as [|fuel IH]; intros p b out H; [done|].
  cbn [parse_loop] in H.
  destruct (parse_step e p b) as [st| |] eqn:Es; cbn [res_bind] in H; try done.
  destruct st as [p1 b1 out1|r1 p1 b1].
  - destruct (parse_loop fuel e p1 b1) as [[[[r2 p2] b2] out2]| |] eqn:El;
      cbn [res_bind] in H; try done. simplify_eq.
    apply parse_step_events in Es as [H1 H2]. apply IH in El as [H3 H4].
    split; [by rewrite run_events_app, H1|]. by apply Forall_app.
  - simplify_eq. apply parse_step_stop in Es. unfold is_waiting_for_response.
    rewrite Es. by repeat constructor.
Qed.

Lemma parse_returns_suffix (e : ParseEnv) (p : HttpParser) (b : Bufs) :
  parser_ok p →
  parse e p b = Panic ∨
  ∃ r p' b' out, parse e p b = Ret (r, p', b', out) ∧ parser_ok p' ∧ suffix_of b' b.
Proof.
  remember (measure p b) as n eqn:En. revert p b En.
  induction (lt_wf n) as [n _ IH]; intros p b -> Hok. rewrite parse_unfold by done.
  pose proof (parse_step_no_fuel e p b) as Hnf.
  destruct (parse_step e p b) as [st| |] eqn:Es; cbn [res_bind]; [|by left|done].
  apply parse_step_ok in Es; [|done].
  destruct st as [p' b' out|r p' b'].
  - destruct Es as (Hm & Hok' & Hsuf).
    destruct (IH _ Hm p' b' eq_refl Hok') as [-> |(r & p2 & b2 & out2 & -> & Hok2 & Hs2)];
      [by left|]. right. cbn. eexists _, _, _, _. split; [done|]. split; [done|].
    by eapply suffix_of_trans.
  - destruct Es as [Hok' Hsuf]. right. eauto 10.
Qed.

Lemma parse_returns (e : ParseEnv) (p : HttpParser) (b : Bufs) :
  parser_ok p →
  parse e p b = Panic ∨ ∃ r p' b' out, parse e p b = Ret (r, p', b', out) ∧ parser_ok p'.
Proof.
  intros Hok. destruct (parse_returns_suffix e p b Hok) as [H|(r & p' & b' & out & H & H' & _)];
    [by left|right; eauto 10].
Qed.

(** C38: a [parse] call always returns or panics, never spins: with the number
    of buffered bytes as its measure the loop ends, the parser stays well
    formed, and what it leaves in each buffer is a suffix of what was there. *)
Theorem parse_total :
  ∀ (e : ParseEnv) (p : HttpParser) (b : Bufs) (Hok : parser_ok p),
    parse e p b = Panic ∨
    ∃ r p' b' out, parse e p b = Ret (r, p', b', out) ∧ parser_ok p' ∧ suffix_of b' b.
Proof. intros e p b Hok. by apply parse_returns_suffix. Qed.

(** The events of a connection alternate: over any call of [parse], the
    events continue the exchange the parser is in (a request, then SSE events,
    then one response, and again), end in the exchange the parser is left in,
    and all carry the flow's key and no process yet. *)
Theorem parse_events_alternate :
  ∀ (e : ParseEnv) (p p' : HttpParser) (b b' : Bufs) (r : ParseResult)
    (out : list HttpParseEvent) (Hp : parse e p b = Ret (r, p', b', out)),
    run_events (is_waiting_for_response p) out = Some (is_waiting_for_response p') ∧
    Forall (raw_event e) out.
Proof. intros e p p' b b' r out Hp. by apply parse_loop_events in Hp. Qed.

(** A closing connection: at most the open exchange's events. *)
Lemma finish_response_events (e : ParseEnv) (p : HttpParser) (sb : list byte) :
  events_ok e (is_waiting_for_response p) (finish_response e p sb).1.1
    (is_waiting_for_response (finish_response e p sb).1.2).
Proof.
  unfold finish_response, is_waiting_for_response at 1.
  destruct (state p) eqn:Es; cbn [fst snd]; unfold is_waiting_for_response;
    rewrite ?Es; try by repeat constructor.
  destruct (finish (body_reader p) sb) as [[body r'] s'].
  pose proof (complete_response_events (set_reader p r') e body) as Hc.
  pose proof (complete_response_state (set_reader p r') e body) as [_ Hst].
  destruct (complete_response _ _ _) as [evs p2]. cbn [fst snd] in *. by rewrite Hst.
Qed.

Lemma finish_response_ok (e : ParseEnv) (p : HttpParser) (sb : list byte) :
  parser_ok p → parser_ok (finish_response e p sb).1.2.
Proof.
  unfold finish_response. intros Hok. destruct (state p); try done.
  pose proof (finish_framing (body_reader p) sb) as Hf.
  destruct (finish (body_reader p) sb) as [[body r'] s']. cbn [fst snd] in Hf.
  pose proof (complete_response_state (set_reader p r') e body) as [Hr _].
  destruct (complete_response _ _ _) as [evs p2]. cbn [fst snd] in *.
  unfold parser_ok. rewrite Hr. cbn. by rewrite Hf.
Qed.

(** ** Messages whose bytes are all there *)

Lemma parse_reading_request (e : ParseEnv) (p : HttpParser) (c s : list byte) cs body r' c' :
  parser_ok p → state p = ReadingRequestBody →
  drain_buf (body_reader p) c = Ret (cs, Complete body, r', c') →
  parse e p (mkBufs c s)
  = prepend [request_event p e body]
      (parse e (set_state (take_request (set_reader p r')) WaitingForResponse) (mkBufs c' s)).
Proof.
  remember (length c) as n eqn:En. revert p c En cs.
  induction (lt_wf n) as [n _ IH]; intros p c -> cs Hok Hst Hd.
  rewrite drain_unfold in Hd by done. rewrite parse_unfold by done.
  unfold parse_step. rewrite Hst. unfold step_request_body. cbn [client_buf server_buf].
  destruct (read (body_reader p) c) as [[[rr r1] c1]| |] eqn:Er; cbn [res_bind] in *; try done.
  pose proof (read_Ret _ _ _ _ _ Hok Er) as [Hfr Hr].
  destruct rr as [|bd|ch|]; try done.
  - by simplify_eq.
  - destruct (drain_buf r1 c1) as [[[[cs1 out1] r2] c2]| |] eqn:Ed; cbn [res_bind] in Hd; try done.
    simplify_eq. cbn [res_bind].
    rewrite (IH (length c1) Hr (set_reader p r1) c1 eq_refl cs1); try done.
    + by rewrite prepend_nil.
    + unfold parser_ok. cbn. by rewrite Hfr.
Qed.

(** The parser of a response body: for a body that is not SSE, the chunks leave
    no trace; for an SSE body of valid UTF-8 chunks, they are pushed in turn. *)
Definition sse_chunks (p : HttpParser) (e : ParseEnv) (cs : list (list byte))
    : list HttpParseEvent * text :=
  if pending_resp_is_sse p then push_all (sse_ctx e) (sse_residual p) cs
  else ([], sse_residual p).

Lemma parse_reading_response (e : ParseEnv) (p : HttpParser) (c s : list byte) cs body r' s' :
  parser_ok p → state p = ReadingResponseBody →
  Forall (λ ch, utf8_valid ch = true) cs ∨ pending_resp_is_sse p = false →
  drain_buf (body_reader p) s = Ret (cs, Complete body, r', s') →
  parse e p (mkBufs c s)
  = let '(evs, res) := sse_chunks p e cs in
    let '(evs', p') := complete_response e (set_residual (set_reader p r') res) body in
    prepend (evs ++ evs') (parse e p' (mkBufs c s')).
Proof.
  remember (length s) as n eqn:En. revert p s En cs.
  induction (lt_wf n) as [n _ IH]; intros p s -> cs Hok Hst Hu Hd.
  rewrite drain_unfold in Hd by done. rewrite parse_unfold by done.
  unfold parse_step. rewrite Hst. unfold step_response_body. cbn [client_buf server_buf].
  destruct (read (body_reader p) s) as [[[rr r1] s1]| |] eqn:Er; cbn [res_bind] in *; try done.
  pose proof (read_Ret _ _ _ _ _ Hok Er) as [Hfr Hr].
  destruct rr as [|bd|ch|]; try done.
  - simplify_eq. unfold sse_chunks.
    destruct (pending_resp_is_sse p) eqn:Ei; cbn [push_all];
      change (set_residual (set_reader p r') (sse_residual p)) with (set_reader p r');
      by destruct (complete_response _ _ _).
  - destruct (drain_buf r1 s1) as [[[[cs1 out1] r2] s2]| |] eqn:Ed; cbn [res_bind] in Hd; try done.
    simplify_eq.
    unfold sse_chunks. cbn [pending_resp_is_sse set_reader].
    destruct (pending_resp_is_sse p) eqn:Ei.
    + destruct Hu as [Hu|]; [|done]. apply Forall_cons in Hu as [Hc Hu].
      unfold sse_push_bytes, from_utf8. rewrite Hc. cbn [sse_residual set_reader push_all].
      destruct (sse_push (sse_ctx e) (sse_residual p) ch) as [evs res]. cbn [res_bind].
      rewrite (IH (length s1) Hr (set_residual (set_reader p r1) res) s1 eq_refl cs1);
        [|unfold parser_ok; cbn; by rewrite Hfr|done|by left|done].
      unfold sse_chunks. cbn [pending_resp_is_sse set_residual set_reader sse_residual].
      rewrite Ei. destruct (push_all _ res cs1) as [evs1 res1].
      change (set_residual (set_reader (set_residual (set_reader p r1) res) r') res1)
        with (set_residual (set_reader p r') res1).
      destruct (complete_response _ _ _) as [evs2 p2].
      by rewrite prepend_prepend, <- !app_assoc.
    + cbn [res_bind].
      rewrite (IH (length s1) Hr (set_reader p r1) s1 eq_refl cs1);
        [|unfold parser_ok; cbn; by rewrite Hfr|done|by right|done].
      unfold sse_chunks. cbn [pending_resp_is_sse set_reader sse_residual]. rewrite Ei.
      change (set_residual (set_reader (set_reader p r1) r') (sse_residual p))
        with (set_residual (set_reader p r') (sse_residual p)).
      destruct (complete_response _ _ _) as [evs2 p2]. by rewrite prepend_nil.
Qed.

(** The request a head and a body make, and the response. *)
Definition the_request (e : ParseEnv) (rq : RequestHead) (body : list byte) : HttpParseEvent :=
  HttpRequest (mkReq (env_flow e) (env_client e) (env_server e)
    (default [] (rh_method rq)) (default [] (rh_path rq)) (default 1 (rh_version rq))
    (own_headers (rh_headers rq)) body (env_client_ts e) None).

Definition the_response (e : ParseEnv) (rs : ResponseHead) (body : list byte) (complete_ts : Z)
    : HttpParseEvent :=
  HttpResponse (mkResp (env_flow e) (env_client e) (env_server e)
    (default 0 (sh_code rs)) (default 1 (sh_version rs)) (own_headers (sh_headers rs))
    body (env_server_ts e) complete_ts None).

(** The framing of a response to a request head. *)
Definition framing_of (rq : RequestHead) (rs : ResponseHead) : BodyFraming :=
  response_framing (default 0 (sh_code rs)) (default [] (rh_method rq))
    (own_headers (sh_headers rs)).

Lemma parse_request_phase (e : ParseEnv) (p : HttpParser) (rq : RequestHead)
    (qh qwire qbody qnext s : list byte) :
  parser_ok p → state p = WaitingForRequest →
  httparse_request (qh ++ qwire ++ qnext) = HeadComplete (length qh) rq →
  framed (request_framing (own_headers (rh_headers rq))) qwire qbody →
  zlen (qwire ++ qnext) < 2 ^ 63 →
  ∃ p1, parse e p (mkBufs (qh ++ qwire ++ qnext) s)
        = prepend [the_request e rq qbody] (parse e p1 (mkBufs qnext s)) ∧
    parser_ok p1 ∧ state p1 = WaitingForResponse ∧
    last_request_method p1 = default [] (rh_method rq).
Proof.
  intros Hok Hst Hq Hf Hl. rewrite parse_unfold by done.
  unfold parse_step. rewrite Hst. unfold step_waiting_request, try_parse_request_headers.
  cbn [client_buf]. rewrite Hq. cbn [pending_req_headers res_bind client_buf server_buf].
  rewrite drop_app_exact by done. rewrite prepend_nil.
  destruct (drain_framed _ qwire qbody qnext Hf Hl) as (cs & r' & Hd).
  pose proof (framed_ok _ _ _ Hf) as Hfok.
  match goal with |- context [parse e ?q (mkBufs _ s)] => set (p0 := q) end.
  rewrite (parse_reading_request e p0 (qwire ++ qnext) s cs qbody r' qnext); try done.
  eexists. split; [reflexivity|]. split; [|by split].
  unfold parser_ok. cbn. apply drain_framing in Hd as [-> _]; done.
Qed.

(** C5: a complete exchange in the buffers comes out as exactly its request and
    its response: with the head of each message recognised by the head parser
    and its body framed as its headers say (Content-Length, chunked or none,
    not SSE, not compressed), [parse] emits the two messages with the bodies
    that were encoded, then goes on with the bytes that follow. *)
Theorem parse_exchange :
  ∀ (e : ParseEnv) (p : HttpParser) (rq : RequestHead) (rs : ResponseHead)
    (qh qwire qbody qnext sh swire sbody snext : list byte)
    (Hok : parser_ok p) (Hst : state p = WaitingForRequest)
    (Hq : httparse_request (qh ++ qwire ++ qnext) = HeadComplete (length qh) rq)
    (Hs : httparse_response (sh ++ swire ++ snext) = HeadComplete (length sh) rs)
    (Hqf : framed (request_framing (own_headers (rh_headers rq))) qwire qbody)
    (Hsf : framed (framing_of rq rs) swire sbody)
    (Hsse : is_sse (own_headers (sh_headers rs)) = false)
    (Henc : extract_content_encoding (own_headers (sh_headers rs)) = None)
    (Hmem : zlen (qwire ++ qnext) < 2 ^ 63 ∧ zlen (swire ++ snext) < 2 ^ 63),
    ∃ p', parser_ok p' ∧ state p' = WaitingForRequest ∧
      parse e p (mkBufs (qh ++ qwire ++ qnext) (sh ++ swire ++ snext))
      = prepend [the_request e rq qbody;
                 the_response e rs sbody
                   (if bool_decide (framing_of rq rs = NoBody) then env_server_ts e
                    else env_server_last_ts e)]
          (parse e p' (mkBufs qnext snext)).
Proof.
  intros e p rq rs qh qwire qbody qnext sh swire sbody snext Hok Hst Hq Hs Hqf Hsf Hsse Henc [Hl1 Hl2].
  destruct (parse_request_phase e p rq qh qwire qbody qnext (sh ++ swire ++ snext)
    Hok Hst Hq Hqf Hl1) as (p1 & -> & Hok1 & Hst1 & Hm1).
  rewrite parse_unfold by done. unfold parse_step. rewrite Hst1.
  unfold step_waiting_response, try_parse_response_headers. cbn [server_buf]. rewrite Hs.
  cbn [pending_resp_is_sse pending_resp_status pending_resp_headers last_request_method
       client_buf server_buf].
  rewrite Hsse, Hm1, drop_app_exact by done.
  pose proof (framed_ok _ _ _ Hsf) as Hfok.
  unfold new_for_response. rewrite Henc. fold (framing_of rq rs).
  unfold is_no_body. cbn [body_reader set_reader framing].
  case_bool_decide as Hnb.
  - rewrite Hnb in Hsf. destruct Hsf as [-> ->]. cbn [res_bind app].
    rewrite prepend_prepend. cbn [app]. eexists. split; [|split; [|reflexivity]]; [|done].
    unfold parser_ok. cbn. by rewrite Hnb.
  - cbn [res_bind]. rewrite prepend_nil.
    destruct (drain_framed _ swire sbody snext Hsf Hl2) as (cs & r' & Hd).
    match goal with |- context [parse e ?q (mkBufs _ (swire ++ snext))] => set (p2 := q) end.
    rewrite (parse_reading_response e p2 qnext (swire ++ snext) cs sbody r' snext);
      [|done|done|by right|done].
    unfold sse_chunks, complete_response. subst p2.
    cbn [pending_resp_is_sse set_state set_reader set_residual].
    cbn [app]. rewrite prepend_prepend. cbn [app].
    eexists. split; [|split; [|reflexivity]]; [|done].
    unfold parser_ok. cbn. apply drain_framing in Hd as [-> _]; done.
Qed.

(** A streamed exchange comes out as its request, its events and its
    response: a chunked [text/event-stream] body whose chunks are valid UTF-8
    and together make a stream of well-formed events yields exactly these
    events between the request and a response with an empty body. *)
Theorem parse_sse_exchange :
  ∀ (e : ParseEnv) (p : HttpParser) (rq : RequestHead) (rs : ResponseHead)
    (qh qwire qbody qnext sh snext : list byte) (cs : list (list byte))
    (trailers : list text) (eol : text) (es : list StreamEvent)
    (Hok : parser_ok p) (Hst : state p = WaitingForRequest)
    (Hq : httparse_request (qh ++ qwire ++ qnext) = HeadComplete (length qh) rq)
    (Hs : httparse_response (sh ++ encode_chunked cs trailers ++ snext)
          = HeadComplete (length sh) rs)
    (Hqf : framed (request_framing (own_headers (rh_headers rq))) qwire qbody)
    (Hsf : framing_of rq rs = Chunked)
    (Hsse : is_sse (own_headers (sh_headers rs)) = true)
    (Henc : extract_content_encoding (own_headers (sh_headers rs)) = None)
    (Hcs : Forall (λ c, c ≠ [] ∧ utf8_valid c = true) cs)
    (Ht : Forall (λ t, t ≠ [] ∧ CR ∉ t) trailers)
    (He : eol_ok eol) (Hes : Forall stream_event_ok es)
    (Hcat : concat cs = encode_stream eol es)
    (Hmem : zlen (qwire ++ qnext) < 2 ^ 63 ∧ zlen (encode_chunked cs trailers ++ snext) < 2 ^ 63),
    ∃ p', parser_ok p' ∧ state p' = WaitingForRequest ∧
      parse e p (mkBufs (qh ++ qwire ++ qnext) (sh ++ encode_chunked cs trailers ++ snext))
      = prepend (the_request e rq qbody :: map (ctx_event (sse_ctx e)) es
                 ++ [the_response e rs [] (env_server_last_ts e)])
          (parse e p' (mkBufs qnext snext)).
Proof.
  intros e p rq rs qh qwire qbody qnext sh snext cs trailers eol es Hok Hst Hq Hs Hqf Hsf Hsse
    Henc Hcs Ht He Hes Hcat [Hl1 Hl2].
  destruct (parse_request_phase e p rq qh qwire qbody qnext
    (sh ++ encode_chunked cs trailers ++ snext) Hok Hst Hq Hqf Hl1)
    as (p1 & -> & Hok1 & Hst1 & Hm1).
  rewrite parse_unfold by done. unfold parse_step. rewrite Hst1.
  unfold step_waiting_response, try_parse_response_headers. cbn [server_buf]. rewrite Hs.
  cbn [pending_resp_is_sse pending_resp_status pending_resp_headers last_request_method
       client_buf server_buf].
  rewrite Hsse, Hm1, drop_app_exact by done.
  unfold new_for_response. rewrite Henc. fold (framing_of rq rs). rewrite Hsf.
  unfold is_no_body, set_skip_accumulation.
  cbn [body_reader set_reader set_residual framing decoded_body decompressor].
  rewrite bool_decide_false by done. cbn [res_bind]. rewrite prepend_nil.
  destruct (drain_chunked (mkReader Chunked [] true None) cs trailers snext) as [r' Hd]; try done.
  { eapply Forall_impl; [exact Hcs|]. by intros ? [? _]. }
  cbn [skip_accumulation] in Hd.
  match goal with |- context [parse e ?q (mkBufs _ (encode_chunked _ _ ++ _))] => set (p2 := q) end.
  rewrite (parse_reading_response e p2 qnext (encode_chunked cs trailers ++ snext) cs [] r' snext);
    [|done|done| |done].
  2:{ left. eapply Forall_impl; [exact Hcs|]. by intros ? [_ ?]. }
  assert (Hpush : push_all (sse_ctx e) [] cs = (map (ctx_event (sse_ctx e)) es, [])).
  { rewrite push_all_concat; [|rewrite Hcat; by apply encode_stream_one_separator|done].
    rewrite Hcat. by apply push_loop_stream. }
  unfold sse_chunks, complete_response. subst p2.
  cbn [pending_resp_is_sse sse_residual set_state set_reader set_residual body_reader].
  rewrite Hpush.
  cbn [pending_resp_is_sse sse_residual set_state set_reader set_residual body_reader].
  pose proof (drain_framing (mkReader Chunked [] true None) _ _ _ _ _ I Hd) as [Hfr _].
  unfold was_incremental. rewrite Hfr. cbn [framing app].
  match goal with |- context [sse_flush ?c ?x] =>
    change (sse_flush c x) with (@nil HttpParseEvent, @nil byte) end. cbn [app].
  cbn [pending_resp_is_sse set_residual set_state set_reader].
  rewrite prepend_prepend. cbn [app].
  eexists. split; [|split; [|reflexivity]]; [|done].
  unfold parser_ok. cbn. by rewrite Hfr.
Qed.
End Laws.
End Parser.

(** ** Witnesses, with a small head parser

    Heads end at the first blank line; the first line splits at spaces, header
    lines at the colon. *)

Definition sample_header (l : text) : text * list byte :=
  let name := until x3a l in (name, trim (drop (S (length name)) l)).

Definition sample_words (l : text) : text * text :=
  let w := until SP l in (w, until SP (drop (S (length w)) l)).

#[export] Instance sample_httparse : HttpParse := {|
  httparse_request l :=
    match find_sub (CRLF ++ CRLF) l with
    | None => HeadPartial
    | Some n =>
        match lines (take n l) with
        | [] => HeadError
        | rl :: hs =>
            HeadComplete (n + 4) (mkRequestHead (Some (sample_words rl).1)
              (Some (sample_words rl).2) (Some 1) (map sample_header hs))
        end
    end;
  httparse_response l :=
    match find_sub (CRLF ++ CRLF) l with
    | None => HeadPartial
    | Some n =>
        match lines (take n l) with
        | [] => HeadError
        | sl :: hs =>
            HeadComplete (n + 4) (mkResponseHead (parse_usize (sample_words sl).2) (Some 1)
              (map sample_header hs))
        end
    end |}.

#[export] Instance sample_httparse_laws : HttpParseLaws sample_httparse.
Proof.
  split; intros l n h; unfold httparse_request, httparse_response, sample_httparse;
    (destruct (find_sub (CRLF ++ CRLF) l) as [m|] eqn:E; [|discriminate]);
    apply find_sub_length in E; simpl in E;
    (destruct (lines (take m l)); [discriminate|]); intros [= <- _]; lia.
Qed.

Definition sample_env : ParseEnv :=
  mkEnv (mkFlowKey "s" (V4 1, 40000) (V4 2, 80)) (V4 1, 40000) (V4 2, 80) 10 20 20.

Lemma parse_total_witness :
  parse (FL := flate_store) (HP := sample_httparse) sample_env (parser_new (FL := flate_store))
    (mkBufs (B "GET / HTTP/1.1") []) = Panic ∨
  ∃ r p' b' out,
    parse (FL := flate_store) (HP := sample_httparse) sample_env (parser_new (FL := flate_store))
      (mkBufs (B "GET / HTTP/1.1") []) = Ret (r, p', b', out) ∧
    parser_ok (FL := flate_store) p' ∧ suffix_of b' (mkBufs (B "GET / HTTP/1.1") []).
Proof.
  apply (parse_total (FL := flate_store) (HP := sample_httparse)
    (HL := sample_httparse_laws) sample_env (parser_new (FL := flate_store))
    (mkBufs (B "GET / HTTP/1.1") []) I).
Defined.

(** A request line and its headers, as bytes. *)
Definition sample_head (ls : list string) : list byte :=
  concat (map (λ l, String.list_byte_of_string l ++ CRLF) ls) ++ CRLF.

Definition sample_get : list byte := sample_head ["GET /v1 HTTP/1.1"; "Host: h"]%string.
Definition sample_ok : list byte :=
  sample_head ["HTTP/1.1 200 OK"; "Content-Length: 5"]%string.
Definition sample_stream : list byte :=
  sample_head ["HTTP/1.1 200 OK"; "Content-Type: text/event-stream";
               "Transfer-Encoding: chunked"]%string.

Lemma parse_events_alternate_witness :
  run_events false [the_request sample_env (mkRequestHead (Some (B "GET")) (Some (B "/v1"))
    (Some 1) [(B "Host", B "h")]) []] = Some true.
Proof.
  destruct (parse (FL := flate_store) sample_env (parser_new (FL := flate_store))
    (mkBufs sample_get [])) as [[[[r p'] b'] out]| |] eqn:Ep;
    [|vm_compute in Ep; discriminate|vm_compute in Ep; discriminate].
  pose proof (proj1 (parse_events_alternate (FL := flate_store) sample_env
    (parser_new (FL := flate_store)) p' (mkBufs sample_get []) b' r out Ep)) as H.
  vm_compute in Ep. injection Ep as <- <- <- <-. exact H.
Defined.

Lemma parse_exchange_witness :
  ∃ p', parser_ok (FL := flate_store) p' ∧ state (FL := flate_store) p' = WaitingForRequest ∧
    parse (FL := flate_store) sample_env (parser_new (FL := flate_store))
      (mkBufs (sample_get ++ [] ++ []) (sample_ok ++ B "hello" ++ B "HTTP"))
    = prepend (FL := flate_store)
        [the_request sample_env (mkRequestHead (Some (B "GET")) (Some (B "/v1"))
           (Some 1) [(B "Host", B "h")]) [];
         the_response sample_env (mkResponseHead (Some 200) (Some 1)
           [(B "Content-Length", B "5")]) (B "hello") 20]
        (parse (FL := flate_store) sample_env p' (mkBufs [] (B "HTTP"))).
Proof.
  apply (parse_exchange (FL := flate_store) (HP := sample_httparse) sample_env
    (parser_new (FL := flate_store))
    (mkRequestHead (Some (B "GET")) (Some (B "/v1")) (Some 1) [(B "Host", B "h")])
    (mkResponseHead (Some 200) (Some 1) [(B "Content-Length", B "5")])
    sample_get [] [] [] sample_ok (B "hello") (B "hello") (B "HTTP"));
    try (vm_compute; reflexivity); try exact I; split; vm_compute; reflexivity.
Defined.

Lemma parse_sse_exchange_witness :
  ∃ p', parser_ok (FL := flate_store) p' ∧ state (FL := flate_store) p' = WaitingForRequest ∧
    parse (FL := flate_store) sample_env (parser_new (FL := flate_store))
      (mkBufs (sample_get ++ [] ++ [])
        (sample_stream ++ encode_chunked [B "event: a" ++ [LF]; B "data: x" ++ [LF; LF]] [] ++ []))
    = prepend (FL := flate_store)
        (the_request sample_env (mkRequestHead (Some (B "GET")) (Some (B "/v1"))
           (Some 1) [(B "Host", B "h")]) []
         :: map (ctx_event (sse_ctx sample_env)) [mkStreamEvent (B "a") [B "x"]]
         ++ [the_response sample_env (mkResponseHead (Some 200) (Some 1)
           [(B "Content-Type", B "text/event-stream"); (B "Transfer-Encoding", B "chunked")]) [] 20])
        (parse (FL := flate_store) sample_env p' (mkBufs [] [])).
Proof.
  apply (parse_sse_exchange (FL := flate_store) (HP := sample_httparse) sample_env
    (parser_new (FL := flate_store))
    (mkRequestHead (Some (B "GET")) (Some (B "/v1")) (Some 1) [(B "Host", B "h")])
    (mkResponseHead (Some 200) (Some 1)
      [(B "Content-Type", B "text/event-stream"); (B "Transfer-Encoding", B "chunked")])
    sample_get [] [] [] sample_stream [] [B "event: a" ++ [LF]; B "data: x" ++ [LF; LF]] []
    [LF] [mkStreamEvent (B "a") [B "x"]]);
    try (vm_compute; reflexivity); try exact I.
  - split; vm_compute; reflexivity.
  - repeat constructor; discriminate.
  - constructor.
  - by left.
  - repeat constructor; cbn [ev_type ev_data];
      rewrite ?not_elem_of_cons; repeat split; vm_compute; intros; set_solver || done.
  - split; vm_compute; reflexivity.
Defined.
