(* ===== verification/Counters.v ===== *)
(** * Counters and hash maps

    The pipeline's diagnostic counters (h-common/src/internal_metrics.rs): the
    [Metric] names, and the counter handles of a worker as a function from
    metric to value.  Handlers only ever [inc] or [add]; a 64-bit counter is a
    [Z] here.

    A [HashMap] is a finite map; the order in which iterating it yields its
    entries is not specified, so it is a parameter ([HashIter]): any permutation
    of the entries. *)

From Stdlib Require Import ZArith Lia.
From stdpp Require Import base gmap sets list strings.
From S2P Require Import Prelude.

Open Scope Z_scope.

Inductive Metric : Type :=
| CapturePacketsReceived
| CaptureKernelPacketsDropped
| CaptureTruncatedPackets
| CaptureBatchesReceived
| CaptureZmqBatchesDropped
| CaptureHeartbeatsEmitted
| CaptureReadErrors
| CaptureDumpErrors
| CaptureDumpLateMinutePackets
| CaptureDumpRetentionFilesDeleted
| CaptureDumpRetentionBytesDeleted
| CaptureDumpRetentionErrors
| EbpfEventsReceived
| EbpfEventsDropped
| EbpfBytesCaptured
| EbpfFramesSynthesized
| EbpfUprobesAttached
| EbpfConnectionsActive
| EbpfProcessCacheSize
| DispatcherPacketsRouted
| FlowHeartbeatsReceived
| FlowHeartbeatsDropped
| NetPacketsParsed
| NetParseDroppedNotIp
| NetParseDroppedNotTcp
| NetParseDroppedMalformed
| HttpParseReq
| HttpParseResp
| SseEventsParsed
| HttpResyncEvents
| TcpOutOfOrderDrops
| TcpOutOfOrderBuffered
| TcpRetransmissionsIgnored
| FlowsExpired
| FlowsActive
| HttpJoinerDone
| HttpJoinerUnpaired
| HttpJoinerExpired
| HttpJoinerPending
| JoinerHeartbeatsReceived
| WireDetected
| WireIgnored
| LlmCallsWithAgent
| LlmCallsWithoutAgent
| LlmGenericToolIdCanonicalized
| LlmGenericSessionIdSynthFailed
| LlmHeartbeatsReceived
| LlmTokensEstimated
| TurnCallsIngested
| TurnCallsAuxiliary
| TurnCallsDroppedLate
| TurnsCompleted
| TurnClosedByGrace
| TurnClosedByIdle
| TurnDiscardedNoUserStart
| TurnKeptByPidAttribution
| TurnHeartbeatsReceived
| TurnHeartbeatsDropped
| TurnActive
| TurnRegistryActive
| MetricsLlmEventsStart
| MetricsLlmEventsComplete
| MetricsHeartbeatsReceived
| MetricsHeartbeatsDropped
| MetricsWindowsEmitted
| MetricsAggregatorOpenBuckets
| MetricsActiveCallsOpen
| MetricsActiveCallsExpired
| StorageBufferedCalls
| StorageBufferedTurns
| StorageBufferedMetrics
| StorageBufferedHttpExchanges
| StorageFlushedCalls
| StorageFlushedTurns
| StorageFlushedMetrics
| StorageFlushedHttpExchanges
| StorageFlushErrors
| QueueDepthRaw
| QueueDepthParsed
| QueueDepthHttpParseEvent
| QueueDepthHttpJoinerEvent
| QueueDepthAgentCall
| QueueDepthLlmEvent
| StorageQueueDepthCalls
| StorageQueueDepthTurns
| StorageQueueDepthMetrics
| StorageQueueDepthHttpExchanges
| AgentClassifierUnknownCount
| AgentClassifierMixedCount.

#[global] Instance Metric_eq_dec : EqDecision Metric.
Proof. solve_decision. Defined.

(** The values of a worker's counters. *)
Definition counters : Type := Metric → Z.
Definition counters_zero : counters := λ _, 0.

(** [counter(m).add(v)] and [counter(m).inc()]. *)
Definition add_counter (m : Metric) (v : Z) (c : counters) : counters :=
  λ m', if decide (m = m') then c m' + v else c m'.
Definition inc_counter (m : Metric) (c : counters) : counters := add_counter m 1 c.

Lemma add_counter_eq (m : Metric) (v : Z) (c : counters) : add_counter m v c m = c m + v.
Proof. unfold add_counter. by rewrite decide_True. Qed.

Lemma add_counter_ne (m m' : Metric) (v : Z) (c : counters) :
  m ≠ m' → add_counter m v c m' = c m'.
Proof. intros H. unfold add_counter. by rewrite decide_False. Qed.

(** Evaluate counters that were just incremented. *)
Ltac simpl_counters :=
  unfold inc_counter;
  repeat first [rewrite add_counter_eq | rewrite add_counter_ne by discriminate].

(** ** Iteration over hash maps *)

Class HashIter (K V : Type) `{Countable K} : Type :=
  hash_iter : gmap K V → list (K * V).

Class HashIterLaws (K V : Type) `{Countable K} (HI : HashIter K V) : Prop :=
  hash_iter_perm (m : gmap K V) : hash_iter m ≡ₚ map_to_list m.

(** A concrete iteration order. *)
Definition hash_iter_std (K V : Type) `{Countable K} : HashIter K V := map_to_list.

Lemma hash_iter_std_laws (K V : Type) `{Countable K} : HashIterLaws K V (hash_iter_std K V).
Proof. intros m. done. Qed.

Section HashIter.
Context {K V : Type} `{Countable K} `{HL : !HashIterLaws K V HI}.

Lemma elem_of_hash_iter (m : gmap K V) (k : K) (v : V) : (k, v) ∈ hash_iter m ↔ m !! k = Some v.
Proof. rewrite hash_iter_perm. apply elem_of_map_to_list. Qed.

Lemma NoDup_hash_iter (m : gmap K V) : NoDup (hash_iter m).*1.
Proof. rewrite hash_iter_perm. apply NoDup_fst_map_to_list. Qed.
End HashIter.
