(* ===== verification/BTree.v ===== *)
(** * Ordered maps (std::collections::BTreeMap with integer keys)

    A [BTreeMap] is the list of its entries in strictly increasing key order:
    what its iterators yield.  Used for the out-of-order segments of a TCP
    direction and for the pending calls of the turn tracker. *)

From Stdlib Require Import ZArith Lia.
From stdpp Require Import base gmap sets list sorting.
From S2P Require Import Prelude.

Open Scope Z_scope.

Section BTree.
Context {A : Type}.

Abbreviation btree := (list (Z * A)).

(** [insert]: the value under an existing key is replaced. *)
Fixpoint bt_insert (k : Z) (v : A) (m : btree) : btree :=
  match m with
  | [] => [(k, v)]
  | (k', v') :: m' =>
      if k <? k' then (k, v) :: m
      else if k =? k' then (k, v) :: m'
      else (k', v') :: bt_insert k v m'
  end.

Fixpoint bt_lookup (k : Z) (m : btree) : option A :=
  match m with
  | [] => None
  | (k', v') :: m' => if k =? k' then Some v' else bt_lookup k m'
  end.

Fixpoint bt_remove (k : Z) (m : btree) : btree :=
  match m with
  | [] => []
  | (k', v') :: m' => if k =? k' then m' else (k', v') :: bt_remove k m'
  end.

(** Keys strictly increase. *)
Definition bt_ok (m : btree) : Prop := StronglySorted (λ x y, x.1 < y.1) m.

Lemma bt_ok_cons (x : Z * A) (m : btree) :
  bt_ok (x :: m) ↔ bt_ok m ∧ Forall (λ y, x.1 < y.1) m.
Proof.
  split; [by inversion 1|]. intros [? ?]. by constructor.
Qed.

Lemma elem_of_bt_insert (k : Z) (v : A) (m : btree) (x : Z * A) :
  x ∈ bt_insert k v m → x = (k, v) ∨ x ∈ m.
Proof.
  induction m as [|[k' v'] m IH]; simpl; [set_solver|].
  destruct (k <? k'); [set_solver|]. destruct (k =? k'); set_solver.
Qed.

Lemma bt_insert_ok (k : Z) (v : A) (m : btree) : bt_ok m → bt_ok (bt_insert k v m).
Proof.
  induction m as [|[k' v'] m IH]; intros Hok; simpl; [by repeat constructor|].
  apply bt_ok_cons in Hok as [Hok Hf]. simpl in Hf.
  destruct (Z.ltb_spec k k').
  - apply bt_ok_cons. split; [by apply bt_ok_cons|]. constructor; [done|].
    eapply Forall_impl; [exact Hf|]. simpl. lia.
  - destruct (Z.eqb_spec k k') as [->|]; [by apply bt_ok_cons|].
    apply bt_ok_cons. split; [by apply IH|]. apply Forall_forall. intros x Hx.
    apply elem_of_bt_insert in Hx as [->|Hx]; simpl; [lia|].
    rewrite Forall_forall in Hf. by apply Hf.
Qed.

Lemma bt_insert_elem (k : Z) (v : A) (m : btree) (x : Z * A) :
  bt_ok m → x ∈ bt_insert k v m ↔ x = (k, v) ∨ (x ∈ m ∧ x.1 ≠ k).
Proof.
  induction m as [|[k' v'] m IH]; intros Hok; simpl; [set_solver|].
  apply bt_ok_cons in Hok as [Hok Hf]. simpl in Hf. rewrite Forall_forall in Hf.
  destruct (Z.ltb_spec k k').
  - rewrite !elem_of_cons. split; [|tauto].
    intros [->|[->|Hx]]; [by left|right; simpl; split; [by left|lia]|].
    right. split; [by right|]. specialize (Hf _ Hx). lia.
  - destruct (Z.eqb_spec k k') as [->|].
    + rewrite !elem_of_cons. split.
      * intros [->|Hx]; [by left|]. right. split; [by right|]. specialize (Hf _ Hx). lia.
      * intros [->|[[->|Hx] Hne]]; [by left|done|by right].
    + rewrite !elem_of_cons, IH by done. split.
      * intros [->|[->|[Hx Hne]]]; [right; simpl; split; [by left|lia]|by left|].
        right. split; [by right|done].
      * intros [->|[[->|Hx] Hne]]; [right; by left|by left|right; by right].
Qed.

Lemma bt_insert_length (k : Z) (v : A) (m : btree) :
  (length (bt_insert k v m) <= S (length m))%nat.
Proof.
  induction m as [|[k' v'] m IH]; simpl; [lia|].
  destruct (k <? k'); [simpl; lia|]. destruct (k =? k'); simpl; lia.
Qed.

Lemma bt_remove_head (k : Z) (v : A) (m : btree) : bt_remove k ((k, v) :: m) = m.
Proof. simpl. by rewrite Z.eqb_refl. Qed.

Lemma bt_remove_incl (k : Z) (m : btree) (x : Z * A) : x ∈ bt_remove k m → x ∈ m.
Proof.
  induction m as [|[k' v'] m IH]; simpl; [done|]. destruct (k =? k'); set_solver.
Qed.

Lemma bt_remove_ok (k : Z) (m : btree) : bt_ok m → bt_ok (bt_remove k m).
Proof.
  induction m as [|[k' v'] m IH]; intros Hok; simpl; [done|].
  apply bt_ok_cons in Hok as [Hok Hf]. destruct (k =? k'); [done|].
  apply bt_ok_cons. split; [by apply IH|]. apply Forall_forall. intros x Hx.
  rewrite Forall_forall in Hf. apply Hf. by eapply bt_remove_incl.
Qed.

Lemma bt_remove_length (k : Z) (m : btree) : (length (bt_remove k m) <= length m)%nat.
Proof.
  induction m as [|[k' v'] m IH]; simpl; [lia|]. destruct (k =? k'); simpl; lia.
Qed.

Lemma bt_lookup_elem (k : Z) (m : btree) (v : A) : bt_lookup k m = Some v → (k, v) ∈ m.
Proof.
  induction m as [|[k' v'] m IH]; simpl; [done|].
  destruct (Z.eqb_spec k k') as [->|]; [intros [= ->]; by left|]. right. by apply IH.
Qed.

Lemma bt_lookup_insert (k0 k : Z) (v : A) (m : btree) :
  bt_lookup k0 (bt_insert k v m) = if k0 =? k then Some v else bt_lookup k0 m.
Proof.
  induction m as [|[k' v'] m IH]; [done|]. cbn [bt_insert].
  destruct (k <? k'); [done|]. destruct (Z.eqb_spec k k') as [->|Hne]; cbn [bt_lookup].
  - by destruct (k0 =? k').
  - rewrite IH. destruct (Z.eqb_spec k0 k') as [->|]; [|done].
    by destruct (Z.eqb_spec k' k); [lia|].
Qed.

Lemma bt_elem_lookup (k : Z) (m : btree) (v : A) :
  bt_ok m → (k, v) ∈ m → bt_lookup k m = Some v.
Proof.
  induction m as [|[k' v'] m IH]; intros Hok Hin; simpl; [by apply not_elem_of_nil in Hin|].
  apply bt_ok_cons in Hok as [Hok Hf]. rewrite Forall_forall in Hf.
  apply elem_of_cons in Hin as [[= <- <-]|Hin]; [by rewrite Z.eqb_refl|].
  specialize (Hf _ Hin). simpl in Hf. destruct (Z.eqb_spec k k'); [lia|]. by apply IH.
Qed.

Lemma bt_lookup_below (k : Z) (m : btree) : Forall (λ e, k < e.1) m → bt_lookup k m = None.
Proof.
  induction 1 as [|[k' v'] m Hk Hm IH]; simpl; [done|]. cbn in Hk.
  by destruct (Z.eqb_spec k k'); [lia|].
Qed.
End BTree.

#[export] Hint Resolve bt_insert_ok bt_remove_ok : heron.
