(* ===== verification/OrdMap.v ===== *)
(** * Ordered maps with any ordered key (std::collections::BTreeMap)

    The list of a map's entries in increasing order of their keys, which is what
    iterating it yields; the one operation the read side uses is
    [entry(k).or_insert_with(..)] and a change of the value. *)

From Stdlib Require Import Strings.Byte Strings.String ZArith Lia.
From stdpp Require Import base gmap sets list strings sorting.
From S2P Require Import Prelude.

Open Scope Z_scope.

(** A type with its [Ord]. *)
Class OrdKey (K : Type) : Type := key_cmp : K → K → comparison.
Class OrdKeyLaws (K : Type) `{OrdKey K} : Prop := {
  key_cmp_eq (a b : K) : key_cmp a b = Eq ↔ a = b;
  key_cmp_antisym (a b : K) : key_cmp b a = CompOpp (key_cmp a b);
  key_cmp_trans (a b c : K) : key_cmp a b = Lt → key_cmp b c = Lt → key_cmp a c = Lt;
}.

(** Strings by their bytes, options with [None] first, pairs by component. *)
#[global] Instance string_ord : OrdKey string := String.compare.
#[global] Instance option_ord `{OrdKey K} : OrdKey (option K) := λ a b,
  match a, b with
  | None, None => Eq
  | None, Some _ => Lt
  | Some _, None => Gt
  | Some a, Some b => key_cmp a b
  end.
#[global] Instance pair_ord `{OrdKey K, OrdKey L} : OrdKey (K * L) := λ a b,
  match key_cmp a.1 b.1 with Eq => key_cmp a.2 b.2 | c => c end.

Lemma string_cmp_refl (a : string) : String.compare a a = Eq.
Proof. pose proof (String.compare_antisym a a) as H. by destruct (String.compare a a). Qed.

Lemma string_cmp_trans (a b c : string) :
  String.compare a b = Lt → String.compare b c = Lt → String.compare a c = Lt.
Proof.
  revert b c; induction a as [|x a IH]; intros [|y b] [|z c]; try done. cbn [String.compare].
  unfold Ascii.compare. set (i := Ascii.N_of_ascii x). set (j := Ascii.N_of_ascii y).
  set (k := Ascii.N_of_ascii z). intros H1 H2.
  destruct (N.compare_spec i j) as [E1|E1|E1], (N.compare_spec j k) as [E2|E2|E2]; try done.
  - rewrite E1, E2, N.compare_refl. by apply (IH b).
  - by rewrite E1, (proj2 (N.compare_lt_iff _ _) E2).
  - by rewrite <- E2, (proj2 (N.compare_lt_iff _ _) E1).
  - by rewrite (proj2 (N.compare_lt_iff _ _) (N.lt_trans _ _ _ E1 E2)).
Qed.

#[global] Instance string_ord_laws : OrdKeyLaws string.
Proof.
  split.
  - intros a b. split; [apply String.compare_eq_iff|intros ->; apply string_cmp_refl].
  - intros a b. apply String.compare_antisym.
  - apply string_cmp_trans.
Qed.
#[global] Instance option_ord_laws `{OrdKeyLaws K} : OrdKeyLaws (option K).
Proof.
  split.
  - intros [a|] [b|]; cbn; try done. setoid_rewrite key_cmp_eq. naive_solver.
  - intros [a|] [b|]; cbn; try done. apply key_cmp_antisym.
  - intros [a|] [b|] [c|]; cbn; try done. apply key_cmp_trans.
Qed.

Lemma key_cmp_refl `{OrdKeyLaws K} (k : K) : key_cmp k k = Eq.
Proof. by apply key_cmp_eq. Qed.

#[global] Instance pair_ord_laws `{OrdKeyLaws K, OrdKeyLaws L} : OrdKeyLaws (K * L).
Proof.
  split.
  - intros [a a'] [b b']. unfold key_cmp, pair_ord. cbn [fst snd].
    destruct (key_cmp a b) eqn:E; [|split; [done|]; intros [= -> ->]; by rewrite key_cmp_refl in E..].
    apply key_cmp_eq in E as ->. rewrite key_cmp_eq. naive_solver.
  - intros [a a'] [b b']. unfold key_cmp, pair_ord. cbn [fst snd].
    rewrite (key_cmp_antisym a b). destruct (key_cmp a b); cbn; [apply key_cmp_antisym|done..].
  - intros [a a'] [b b'] [c c']. unfold key_cmp, pair_ord. cbn [fst snd].
    destruct (key_cmp a b) eqn:E1; try done; destruct (key_cmp b c) eqn:E2; try done.
    + apply key_cmp_eq in E1 as ->, E2 as ->. rewrite key_cmp_refl. apply key_cmp_trans.
    + apply key_cmp_eq in E1 as ->. by rewrite E2.
    + apply key_cmp_eq in E2 as ->. by rewrite E1.
    + by rewrite (key_cmp_trans _ _ _ E1 E2).
Qed.

Section OrdMap.
Context `{OrdKeyLaws K} {V : Type}.

(** [m.entry(k).or_insert_with(|| init)] and then the change [f]. *)
Fixpoint om_entry (k : K) (init : V) (f : V → V) (m : list (K * V)) : list (K * V) :=
  match m with
  | [] => [(k, f init)]
  | (k', v) :: m' =>
      match key_cmp k k' with
      | Lt => (k, f init) :: m
      | Eq => (k', f v) :: m'
      | Gt => (k', v) :: om_entry k init f m'
      end
  end.

Fixpoint om_lookup (k : K) (m : list (K * V)) : option V :=
  match m with
  | [] => None
  | (k', v) :: m' => match key_cmp k k' with Eq => Some v | _ => om_lookup k m' end
  end.

(** Keys strictly increase. *)
Definition om_ok (m : list (K * V)) : Prop := StronglySorted (λ x y, key_cmp x.1 y.1 = Lt) m.

Lemma om_lookup_below (k : K) (m : list (K * V)) :
  Forall (λ y, key_cmp k y.1 = Lt) m → om_lookup k m = None.
Proof.
  induction 1 as [|[x v] m Hx _ IH]; [done|]. cbn [om_lookup]. cbn in Hx. by rewrite Hx.
Qed.

Lemma om_entry_ok (k : K) (init : V) (f : V → V) (m : list (K * V)) : om_ok m → om_ok (om_entry k init f m).
Proof.
  assert (Hin : ∀ m y, y ∈ om_entry k init f m → y.1 = k ∨ ∃ z, z ∈ m ∧ z.1 = y.1).
  { induction m0 as [|[x v] m' IH]; intros y Hy; cbn [om_entry] in Hy; [set_solver|].
    destruct (key_cmp k x) eqn:E; [apply key_cmp_eq in E as ->|..]; set_solver. }
  induction m as [|[x v] m IH]; intros Hok; cbn [om_entry]; [by repeat constructor|].
  inversion Hok as [|? ? Hm Hx]; subst. destruct (key_cmp k x) eqn:E.
  - by constructor.
  - constructor; [done|]. constructor; [done|].
    eapply list.Forall_impl; [exact Hx|]. cbn. intros y. by apply key_cmp_trans.
  - constructor; [by apply IH|]. apply Forall_forall. intros y [Hy|(z & Hz & Ez)]%Hin; cbn.
    + rewrite Hy, key_cmp_antisym, E. done.
    + rewrite <- Ez. rewrite Forall_forall in Hx. by apply Hx.
Qed.

Lemma om_lookup_entry (k k' : K) (init : V) (f : V → V) (m : list (K * V)) :
  om_ok m →
  om_lookup k' (om_entry k init f m)
  = match key_cmp k' k with Eq => Some (f (default init (om_lookup k m))) | _ => om_lookup k' m end.
Proof.
  induction m as [|[x v] m IH]; intros Hok; cbn [om_entry om_lookup]; [by destruct (key_cmp k' k)|].
  inversion Hok as [|? ? Hm Hx]; subst. destruct (key_cmp k x) eqn:E; cbn [om_lookup].
  - apply key_cmp_eq in E as ->. by destruct (key_cmp k' x).
  - rewrite (om_lookup_below k m); [by destruct (key_cmp k' k)|].
    eapply list.Forall_impl; [exact Hx|]. cbn. intros y. by apply key_cmp_trans.
  - rewrite IH by done. destruct (key_cmp k' x) eqn:E'; [|done..].
    apply key_cmp_eq in E' as ->. by rewrite key_cmp_antisym, E.
Qed.

Lemma om_lookup_elem (k : K) (v : V) (m : list (K * V)) : om_ok m → (k, v) ∈ m ↔ om_lookup k m = Some v.
Proof.
  induction m as [|[x w] m IH]; intros Hok; [set_solver|]. inversion Hok as [|? ? Hm Hx]; subst.
  cbn [om_lookup]. rewrite elem_of_cons, IH by done. destruct (key_cmp k x) eqn:E.
  - apply key_cmp_eq in E as ->. rewrite (om_lookup_below x m) by done. naive_solver.
  - split; [intros [[= -> ->]|]|]; [by rewrite key_cmp_refl in E|done|auto].
  - split; [intros [[= -> ->]|]|]; [by rewrite key_cmp_refl in E|done|auto].
Qed.

Lemma om_ok_nodup (m : list (K * V)) : om_ok m → NoDup m.*1.
Proof.
  induction 1 as [|[k v] m Hm IH Hx]; cbn; constructor; [|done]. intros (y & Ey & Hy)%list_elem_of_fmap.
  rewrite Forall_forall in Hx. apply Hx in Hy. cbn in Hy. rewrite <- Ey, key_cmp_refl in Hy. done.
Qed.
End OrdMap.
