(* ===== verification/Reassembly.v ===== *)
(** * TCP reassembly of one direction (h-protocol/src/tcp.rs)

    [DirState] with its in-order buffer, expected sequence number and bounded
    out-of-order map; [append_payload] and [drain_ooo].  Sequence arithmetic is
    modulo 2^32, the signed distance is its 32-bit reading, and the [usize] cast
    of its negation is done at 64 bits.

    The theorems read a direction against the byte stream it carries: what is
    delivered is a prefix of that stream, in whatever order, with whatever
    duplicates and overlaps, the segments arrive; and everything is delivered
    once the segments cover it, as long as the out-of-order map never overflows
    and the sequence numbers do not wrap. *)

From Stdlib Require Import Strings.Byte ZArith Lia.
From stdpp Require Import base gmap sets list strings sorting.
From S2P Require Import Prelude.
From S2P Require Import BTree.

Open Scope Z_scope.

Definition OOO_CAP_SEGMENTS : nat := 32.

Record DirState : Type := mkDir {
  buf : list byte;
  next_seq : option Z;
  last_data_ts : Z;
  ooo : option (list (Z * list byte));
}.

Definition dir_new : DirState := mkDir [] None 0 None.

Definition discard_buffers (d : DirState) : DirState :=
  mkDir [] (next_seq d) (last_data_ts d) None.

(** The counters [append_payload] bumps, saturating at [u32::MAX]. *)
Record AppendStats : Type := mkStats {
  ooo_drops : Z;
  ooo_buffered : Z;
  rexmit_ignored : Z;
}.

Definition stats_zero : AppendStats := mkStats 0 0 0.

(** The parts of a packet that reassembly reads. *)
Record Segment : Type := mkSegment {
  seg_seq : Z;
  seg_payload : list byte;
  seg_wire_len : Z;
  seg_ts : Z;
}.

(** [seq.wrapping_sub(expected) as i32], and [(-diff) as usize]. *)
Definition seq_diff (seq expected : Z) : Z := swrap 32 (u32_sub seq expected).
Definition behind_of (diff : Z) : Z := wrap 64 (swrap 32 (- diff)).

(** The loop of [drain_ooo] on the buffer, the expected sequence number and the
    map.  Each round removes an entry. *)
Fixpoint drain_loop (fuel : nat) (b : list byte) (expected : Z) (m : list (Z * list byte))
    : list byte * Z * list (Z * list byte) :=
  match fuel, m with
  | O, _ | _, [] => (b, expected, m)
  | S fuel', (seq, bytes) :: _ =>
      let diff := seq_diff seq expected in
      if 0 <? diff then (b, expected, m)
      else
        let m' := bt_remove seq m in
        if diff =? 0 then
          drain_loop fuel' (b ++ bytes) (u32_add seq (wrap 32 (zlen bytes))) m'
        else
          let behind := behind_of diff in
          if behind <? zlen bytes then
            drain_loop fuel' (b ++ drop (Z.to_nat behind) bytes)
              (u32_add seq (wrap 32 (zlen bytes))) m'
          else drain_loop fuel' b expected m'
  end.

Definition drain_ooo (d : DirState) : DirState :=
  match ooo d, next_seq d with
  | Some m, Some expected =>
      let '(b, expected', m') := drain_loop (length m) (buf d) expected m in
      mkDir b (Some expected') (last_data_ts d) (match m' with [] => None | _ => Some m' end)
  | _, _ => d
  end.

Definition ooo_nonempty (d : DirState) : bool :=
  match ooo d with Some (_ :: _) => true | _ => false end.

Definition append_payload (d : DirState) (st : AppendStats) (s : Segment)
    : DirState * AppendStats :=
  let d := mkDir (buf d) (next_seq d) (seg_ts s) (ooo d) in
  match next_seq d with
  | None =>
      (mkDir (buf d ++ seg_payload s) (Some (u32_add (seg_seq s) (seg_wire_len s)))
         (last_data_ts d) (ooo d), st)
  | Some expected =>
      let diff := seq_diff (seg_seq s) expected in
      if diff =? 0 then
        let d1 := mkDir (buf d ++ seg_payload s) (Some (u32_add (seg_seq s) (seg_wire_len s)))
                    (last_data_ts d) (ooo d) in
        (if ooo_nonempty d1 then drain_ooo d1 else d1, st)
      else if diff <? 0 then
        let overlap := behind_of diff in
        if overlap <? zlen (seg_payload s) then
          let d1 := mkDir (buf d ++ drop (Z.to_nat overlap) (seg_payload s))
                      (Some (u32_add (seg_seq s) (seg_wire_len s))) (last_data_ts d) (ooo d) in
          (if ooo_nonempty d1 then drain_ooo d1 else d1, st)
        else
          match seg_payload s with
          | [] => (d, st)
          | _ :: _ => (d, mkStats (ooo_drops st) (ooo_buffered st)
                            (u32_sat_add (rexmit_ignored st) 1))
          end
      else
        match seg_payload s with
        | [] => (d, st)
        | _ :: _ =>
            let m := default [] (ooo d) in
            let '(m1, st1) :=
              if (OOO_CAP_SEGMENTS <=? length m)%nat then
                (match m with (oldest, _) :: _ => bt_remove oldest m | [] => m end,
                 mkStats (u32_sat_add (ooo_drops st) 1) (ooo_buffered st) (rexmit_ignored st))
              else (m, st) in
            (mkDir (buf d) (next_seq d) (last_data_ts d)
               (Some (bt_insert (seg_seq s) (seg_payload s) m1)),
             mkStats (ooo_drops st1) (u32_sat_add (ooo_buffered st1) 1) (rexmit_ignored st1))
        end
  end.

(** A run of segments through one direction. *)
Fixpoint append_all (d : DirState) (st : AppendStats) (l : list Segment)
    : DirState * AppendStats :=
  match l with
  | [] => (d, st)
  | s :: l' => let '(d', st') := append_payload d st s in append_all d' st' l'
  end.

(** ** The stream a direction carries *)

Section Stream.
(** A stream and the sequence number of its first byte. *)
Variables (base : Z) (stream : list byte).
Hypothesis Hbase : 0 <= base < 2 ^ 32.
Hypothesis Hstream : zlen stream < 2 ^ 31.

Definition slice (o n : nat) : list byte := take n (drop o stream).
Definition seq_at (o : nat) : Z := u32_add base (Z.of_nat o).

(** A segment carries the bytes of the stream at its sequence number. *)
Definition seg_at (o : nat) (s : Segment) : Prop :=
  seg_seq s = seq_at o ∧
  (o + length (seg_payload s) <= length stream)%nat ∧
  seg_payload s = slice o (length (seg_payload s)) ∧
  seg_wire_len s = zlen (seg_payload s).

Definition faithful (s : Segment) : Prop := ∃ o, seg_at o s.

(** A segment is not shorter than one before it that starts where it does. *)
Definition no_shorter (before after : Segment) : Prop :=
  seg_seq before = seg_seq after → (length (seg_payload before) <= length (seg_payload after))%nat.

(** An entry of the out-of-order map likewise. *)
Definition entry_at (o : nat) (x : Z * list byte) : Prop :=
  x.1 = seq_at o ∧ (o + length x.2 <= length stream)%nat ∧ x.2 = slice o (length x.2) ∧
  x.2 ≠ [].

(** The state after delivering the first [n] bytes. *)
Definition delivered (n : nat) (d : DirState) : Prop :=
  (n <= length stream)%nat ∧ buf d = take n stream ∧ next_seq d = Some (seq_at n) ∧
  ∀ x, x ∈ default [] (ooo d) → ∃ o, entry_at o x.

Lemma seq_at_range (o : nat) : 0 <= seq_at o < 2 ^ 32.
Proof. apply wrap_range. lia. Qed.

Lemma seq_diff_at (o n : nat) :
  (o <= length stream)%nat → (n <= length stream)%nat →
  seq_diff (seq_at o) (seq_at n) = Z.of_nat o - Z.of_nat n.
Proof.
  intros Ho Hn. unfold seq_diff, seq_at, u32_sub, u32_add, wrap, swrap. unfold zlen in Hstream.
  rewrite Zminus_mod_idemp_l, Zminus_mod_idemp_r, Zplus_mod_idemp_l.
  replace (base + Z.of_nat o - (base + Z.of_nat n) + 2 ^ (32 - 1))
    with (Z.of_nat o - Z.of_nat n + 2 ^ 31) by (simpl; lia).
  rewrite Z.mod_small; lia.
Qed.

Lemma behind_of_small (k : Z) : 0 <= k < 2 ^ 31 → behind_of (- k) = k.
Proof.
  intros Hk. unfold behind_of. rewrite swrap_small, wrap_small; lia.
Qed.

Lemma seq_at_add (o n : nat) : u32_add (seq_at o) (wrap 32 (Z.of_nat n)) = seq_at (o + n).
Proof.
  unfold seq_at, u32_add, wrap. rewrite Zplus_mod_idemp_l, Zplus_mod_idemp_r. f_equal. lia.
Qed.

Lemma seq_at_inj (o n : nat) :
  (o <= length stream)%nat → (n <= length stream)%nat → seq_at o = seq_at n → o = n.
Proof.
  intros Ho Hn He. pose proof (seq_diff_at o n Ho Hn) as H1.
  pose proof (seq_diff_at n n Hn Hn) as H2. rewrite He, H2 in H1. lia.
Qed.

(** Appending what a slice at [o] adds beyond the first [n] bytes. *)
Lemma take_slice (o l n : nat) :
  (o <= n)%nat → (n <= o + l)%nat → (o + l <= length stream)%nat →
  take n stream ++ drop (n - o) (slice o l) = take (o + l) stream.
Proof.
  intros H1 H2 H3. unfold slice. rewrite skipn_firstn_comm, drop_drop.
  replace (o + (n - o))%nat with n by lia.
  rewrite take_take_drop. f_equal. lia.
Qed.

Lemma entries_remove (m : list (Z * list byte)) (k : Z) :
  (∀ x, x ∈ m → ∃ o, entry_at o x) → ∀ x, x ∈ bt_remove k m → ∃ o, entry_at o x.
Proof. intros H x Hx. apply H. by eapply bt_remove_incl. Qed.

(** The loop keeps the buffer a prefix of the stream. *)
Lemma drain_loop_delivered (fuel n : nat) (b b' : list byte) (e e' : Z)
    (m m' : list (Z * list byte)) :
  (n <= length stream)%nat → b = take n stream → e = seq_at n →
  (∀ x, x ∈ m → ∃ o, entry_at o x) →
  drain_loop fuel b e m = (b', e', m') →
  ∃ n', (n <= n' <= length stream)%nat ∧ b' = take n' stream ∧ e' = seq_at n' ∧
    (∀ x, x ∈ m' → x ∈ m).
Proof.
  revert n b e m. induction fuel as [|fuel IH]; intros n b e m Hn -> -> Hm Hd.
  { injection Hd as <- <- <-. exists n. split; [lia|auto]. }
  cbn [drain_loop] in Hd. destruct m as [|[seq bytes] m]; [injection Hd as <- <- <-; exists n; (split; [lia|auto])|].
  destruct (Hm (seq, bytes)) as (o & Hseq & Ho & Hb & Hne); [by left|]. cbn [fst snd] in *. subst seq.
  assert (Hgo : ∀ n1 b1 e1, (n <= n1 <= length stream)%nat → b1 = take n1 stream →
    e1 = seq_at n1 → drain_loop fuel b1 e1 (bt_remove (seq_at o) ((seq_at o, bytes) :: m)) = (b', e', m') →
    ∃ n', (n <= n' <= length stream)%nat ∧ b' = take n' stream ∧ e' = seq_at n' ∧
      (∀ x, x ∈ m' → x ∈ (seq_at o, bytes) :: m)).
  { intros n1 b1 e1 Hn1 Hb1 He1 Hd1.
    destruct (IH n1 b1 e1 _ (proj2 Hn1) Hb1 He1 (entries_remove _ (seq_at o) Hm) Hd1)
      as (n' & Hn' & -> & -> & Hsub).
    exists n'. split; [lia|]. split; [done|]. split; [done|].
    intros x Hx. eapply bt_remove_incl. by apply Hsub. }
  rewrite seq_diff_at in Hd by lia.
  destruct (Z.ltb_spec 0 (Z.of_nat o - Z.of_nat n)); [injection Hd as <- <- <-; exists n; by split; [lia|]|].
  destruct (Z.eqb_spec (Z.of_nat o - Z.of_nat n) 0).
  - assert (o = n) as -> by lia. eapply (Hgo (n + length bytes)%nat); [| | |exact Hd].
    + split; [lia|exact Ho].
    + rewrite <- (take_slice n (length bytes) n) by lia.
      by rewrite Nat.sub_diag, drop_0, <- Hb.
    + unfold zlen. apply seq_at_add.
  - replace (Z.of_nat o - Z.of_nat n) with (- Z.of_nat (n - o)) in Hd by lia.
    unfold zlen in Hstream. rewrite behind_of_small in Hd by lia. unfold zlen in Hd.
    destruct (Z.ltb_spec (Z.of_nat (n - o)) (Z.of_nat (length bytes))).
    + eapply (Hgo (o + length bytes)%nat); [| | |exact Hd].
      * split; [lia|exact Ho].
      * rewrite Nat2Z.id, Hb. rewrite take_slice by lia. f_equal. rewrite <- Hb. done.
      * apply seq_at_add.
    + eapply (Hgo n); [| | |exact Hd]; [lia|done|done].
Qed.

Lemma drain_ooo_delivered (n : nat) (d : DirState) :
  delivered n d → ∃ n', (n <= n')%nat ∧ delivered n' (drain_ooo d).
Proof.
  intros (Hn & Hb & Hs & Hm). unfold drain_ooo. rewrite Hs.
  destruct (ooo d) as [m|] eqn:Eo; [|exists n; unfold delivered; rewrite Eo; auto].
  cbn [default from_option id] in Hm.
  destruct (drain_loop (length m) (buf d) (seq_at n) m) as [[b' e'] m'] eqn:Ed.
  destruct (drain_loop_delivered _ n _ _ _ _ _ _ Hn Hb eq_refl Hm Ed)
    as (n' & [Hn1 Hn2] & -> & -> & Hsub).
  exists n'. split; [done|]. unfold delivered. cbn. repeat split; try done.
  intros x Hx. destruct m' as [|y m']; [by apply not_elem_of_nil in Hx|]. auto.
Qed.

(** One segment. *)
Lemma append_delivered (n : nat) (d : DirState) (st : AppendStats) (s : Segment) :
  delivered n d → faithful s →
  ∃ n', (n <= n')%nat ∧ delivered n' (append_payload d st s).1.
Proof.
  intros (Hn & Hb & Hs & Hm) (o & Hseq & Ho & Hp & Hw).
  unfold append_payload. cbn [next_seq]. rewrite Hs. cbn [last_data_ts buf ooo].
  rewrite Hseq, seq_diff_at by lia. rewrite Hw. unfold zlen in *.
  assert (Hdone : ∀ n' d', delivered n' d' → (n <= n')%nat → ∃ n'', (n <= n'')%nat ∧
    delivered n'' (if ooo_nonempty d' then drain_ooo d' else d')).
  { intros n' d' Hd' Hle. destruct (ooo_nonempty d'); [|eauto].
    destruct (drain_ooo_delivered n' d' Hd') as (n2 & ? & ?). exists n2. split; [lia|done]. }
  assert (Hkeep : delivered n (mkDir (buf d) (Some (seq_at n)) (seg_ts s) (ooo d)))
    by (unfold delivered; auto).
  assert (Hadv : (o + length (seg_payload s) <= length stream)%nat →
    u32_add (seq_at o) (Z.of_nat (length (seg_payload s))) = seq_at (o + length (seg_payload s))).
  { intros Hle. rewrite <- seq_at_add. f_equal. symmetry. apply wrap_small. lia. }
  destruct (Z.eqb_spec (Z.of_nat o - Z.of_nat n) 0).
  - assert (o = n) as -> by lia. cbn [fst]. apply (Hdone (n + length (seg_payload s))%nat); [|lia].
    unfold delivered. cbn. repeat split; try done.
    + rewrite <- (take_slice n (length (seg_payload s)) n) by lia.
      by rewrite Nat.sub_diag, drop_0, <- Hp, Hb.
    + by rewrite Hadv.
  - destruct (Z.ltb_spec (Z.of_nat o - Z.of_nat n) 0).
    + replace (Z.of_nat o - Z.of_nat n) with (- Z.of_nat (n - o)) by lia.
      rewrite behind_of_small by lia.
      destruct (Z.ltb_spec (Z.of_nat (n - o)) (Z.of_nat (length (seg_payload s)))).
      * cbn [fst]. apply (Hdone (o + length (seg_payload s))%nat); [|lia].
        unfold delivered. cbn. repeat split; try done.
        -- rewrite Nat2Z.id, Hb, Hp at 1. by rewrite take_slice by lia.
        -- by rewrite Hadv.
      * destruct (seg_payload s); cbn [fst]; eauto.
    + destruct (seg_payload s) as [|b0 l0] eqn:El; cbn [fst]; [eauto|]. rewrite <- El in *.
      set (m1 := if (OOO_CAP_SEGMENTS <=? length (default [] (ooo d)))%nat
                 then match default [] (ooo d) with
                      | [] => default [] (ooo d)
                      | (oldest, _) :: _ => bt_remove oldest (default [] (ooo d))
                      end
                 else default [] (ooo d)).
      assert (Hm1 : ∀ x, x ∈ m1 → x ∈ default [] (ooo d)).
      { intros x. unfold m1. destruct (_ <=? _)%nat; [|done].
        destruct (default [] (ooo d)) as [|[old v] m0]; [done|]. apply bt_remove_incl. }
      exists n. split; [done|].
      assert (Hnew : delivered n (mkDir (buf d) (Some (seq_at n)) (seg_ts s)
        (Some (bt_insert (seq_at o) (seg_payload s) m1)))).
      { unfold delivered. cbn. repeat split; try done. intros x Hx.
        apply elem_of_bt_insert in Hx as [->|Hx]; [|by apply Hm, Hm1].
        exists o. split; [done|]. cbn. split; [done|]. split; [done|]. by rewrite El. }
      unfold m1 in Hnew. destruct (_ <=? _)%nat; exact Hnew.
Qed.

Lemma append_all_delivered (l : list Segment) (n : nat) (d : DirState) (st : AppendStats) :
  delivered n d → Forall faithful l →
  ∃ n', (n <= n')%nat ∧ delivered n' (append_all d st l).1.
Proof.
  revert n d st; induction l as [|s l IH]; intros n d st Hd Hl; cbn [append_all]; [eauto|].
  apply Forall_cons in Hl as [Hs Hl].
  destruct (append_delivered n d st s Hd Hs) as (n1 & Hn1 & Hd1).
  destruct (append_payload d st s) as [d1 st1]. cbn [fst] in Hd1.
  destruct (IH n1 d1 st1 Hd1 Hl) as (n2 & ? & ?). exists n2. split; [lia|done].
Qed.

(** ** Nothing is held back *)

Hypothesis Hnowrap : base + zlen stream < 2 ^ 32.

Lemma seq_at_small (o : nat) : (o <= length stream)%nat → seq_at o = base + Z.of_nat o.
Proof.
  intros Ho. unfold seq_at, u32_add. apply wrap_small. unfold zlen in Hnowrap. lia.
Qed.

Lemma drain_loop_complete (fuel n : nat) (b b' : list byte) (e e' : Z)
    (m m' : list (Z * list byte)) :
  (n <= length stream)%nat → e = seq_at n → (length m <= fuel)%nat → bt_ok m →
  (∀ x, x ∈ m → ∃ o, entry_at o x) →
  drain_loop fuel b e m = (b', e', m') →
  ∃ n', (n <= n' <= length stream)%nat ∧ e' = seq_at n' ∧ bt_ok m' ∧
    (∀ x o, x ∈ m' → entry_at o x → (n' < o)%nat) ∧
    (∀ x o, x ∈ m → entry_at o x → x ∈ m' ∨ (o + length x.2 <= n')%nat).
Proof.
  revert n b e m. induction fuel as [|fuel IH]; intros n b e m Hn -> Hl Hok Hm Hd.
  { destruct m; simpl in Hl; [|lia]. injection Hd as <- <- <-. exists n.
    repeat split; try done; try lia; intros x o Hx; by apply not_elem_of_nil in Hx. }
  cbn [drain_loop] in Hd. destruct m as [|[seq bytes] m].
  { injection Hd as <- <- <-. exists n.
    repeat split; try done; try lia; intros x o Hx; by apply not_elem_of_nil in Hx. }
  destruct (Hm (seq, bytes)) as (o & Hseq & Ho & Hb & Hne); [by left|].
  cbn [fst snd] in *. subst seq.
  apply bt_ok_cons in Hok as [Hok Hf]. cbn [fst] in Hf. rewrite bt_remove_head in Hd.
  assert (Hm' : ∀ x, x ∈ m → ∃ o, entry_at o x) by (intros x Hx; apply Hm; by right).
  assert (Hgo : ∀ n1 b1, (n <= n1 <= length stream)%nat → (o + length bytes <= n1)%nat →
    drain_loop fuel b1 (seq_at n1) m = (b', e', m') →
    ∃ n', (n <= n' <= length stream)%nat ∧ e' = seq_at n' ∧ bt_ok m' ∧
      (∀ x o, x ∈ m' → entry_at o x → (n' < o)%nat) ∧
      (∀ x o', x ∈ (seq_at o, bytes) :: m → entry_at o' x → x ∈ m' ∨ (o' + length x.2 <= n')%nat)).
  { intros n1 b1 Hn1 Hol Hd1.
    destruct (IH n1 b1 _ m (proj2 Hn1) eq_refl ltac:(simpl in Hl; lia) Hok Hm' Hd1)
      as (n' & Hn' & -> & Hok' & Hgt & Hrest).
    exists n'. repeat split; try done; try lia. intros x o' Hx He.
    apply elem_of_cons in Hx as [->|Hx]; [|by apply Hrest]. right.
    destruct He as (Hs & Ho' & _). cbn [fst snd] in *.
    apply seq_at_inj in Hs; [|lia|lia]. lia. }
  rewrite seq_diff_at in Hd by lia.
  destruct (Z.ltb_spec 0 (Z.of_nat o - Z.of_nat n)).
  { injection Hd as <- <- <-. exists n. repeat split; try done; try lia.
    - by apply bt_ok_cons.
    - intros x o' Hx (Hs & Ho' & _). rewrite Forall_forall in Hf.
      apply elem_of_cons in Hx as [->|Hx]; cbn [fst snd] in *.
      + apply seq_at_inj in Hs; lia.
      + specialize (Hf _ Hx). rewrite Hs, !seq_at_small in Hf by lia. lia.
    - intros x o' Hx _. by left. }
  destruct (Z.eqb_spec (Z.of_nat o - Z.of_nat n) 0).
  - assert (o = n) as -> by lia. eapply (Hgo (n + length bytes)%nat); [lia|lia|].
    rewrite <- seq_at_add. exact Hd.
  - replace (Z.of_nat o - Z.of_nat n) with (- Z.of_nat (n - o)) in Hd by lia.
    unfold zlen in Hstream. rewrite behind_of_small in Hd by lia. unfold zlen in Hd.
    destruct (Z.ltb_spec (Z.of_nat (n - o)) (Z.of_nat (length bytes))).
    + eapply (Hgo (o + length bytes)%nat); [lia|lia|]. rewrite <- seq_at_add. exact Hd.
    + eapply (Hgo n); [lia|lia|exact Hd].
Qed.

(** A direction that has seen the segments of [P]: each is either delivered, or
    waits in the map under its sequence number, itself or as part of a longer
    segment. *)
Definition accounted (P : Segment → Prop) (n : nat) (d : DirState) : Prop :=
  delivered n d ∧ bt_ok (default [] (ooo d)) ∧
  (∀ s o, P s → seg_at o s → seg_payload s ≠ [] →
     (o + length (seg_payload s) <= n)%nat ∨
     ∃ bytes, (seg_seq s, bytes) ∈ default [] (ooo d) ∧
       (length (seg_payload s) <= length bytes)%nat).

(** Nothing waiting could be delivered. *)
Definition caught_up (n : nat) (d : DirState) : Prop :=
  ∀ x o, x ∈ default [] (ooo d) → entry_at o x → (n < o)%nat.

Lemma drain_caught_up (P : Segment → Prop) (n : nat) (d : DirState) :
  accounted P n d →
  ∃ n', (n <= n')%nat ∧
    let d' := if ooo_nonempty d then drain_ooo d else d in accounted P n' d' ∧ caught_up n' d'.
Proof.
  intros (Hd & Hok & HP). destruct (ooo_nonempty d) eqn:Ene.
  2:{ exists n. split; [done|]. split; [exact (conj Hd (conj Hok HP))|].
      intros x o Hx. unfold ooo_nonempty in Ene. destruct (ooo d) as [[|y m]|]; try done;
        by apply not_elem_of_nil in Hx. }
  destruct (drain_ooo_delivered n d Hd) as (n1 & Hn1 & Hd1).
  destruct Hd as (Hn & Hb & Hs & Hm). unfold drain_ooo, ooo_nonempty in *.
  destruct (ooo d) as [m|] eqn:Eo; [|done]. rewrite Hs in Hd1 |- *. cbn [default from_option id] in *.
  destruct (drain_loop (length m) (buf d) (seq_at n) m) as [[b' e'] m'] eqn:Ed.
  destruct (drain_loop_complete (length m) n _ _ _ _ m _ Hn eq_refl (le_n _) Hok Hm Ed)
    as (n' & Hn' & -> & Hok' & Hgt & Hrest).
  destruct (drain_loop_delivered _ n _ _ _ _ _ _ Hn Hb eq_refl Hm Ed)
    as (n2 & _ & _ & _ & Hsub).
  assert (n1 = n') as ->.
  { destruct Hd1 as (Hle & _ & He & _). cbn [next_seq] in He. injection He as He.
    apply seq_at_inj in He; lia. }
  assert (Hmap : default [] (match m' with [] => None | _ :: _ => Some m' end) = m')
    by (by destruct m').
  exists n'. split; [lia|]. cbn zeta. unfold accounted, caught_up. cbn [ooo]. rewrite Hmap.
  split; [|done]. split; [done|]. split; [done|].
  intros s o Hs' Ho Hne. destruct (HP s o Hs' Ho Hne) as [Hle|(bytes & Hin & Hlen)]; [left; lia|].
  destruct (Hm _ Hin) as (o' & He). pose proof He as (Ho' & ? & _). cbn [fst snd] in *.
  destruct Ho as (Hso & ? & _). rewrite Hso in Ho'. apply seq_at_inj in Ho' as ->; [|lia|lia].
  destruct (Hrest _ _ Hin He) as [Hin'|Hle]; [right; by exists bytes|left; cbn [snd] in *; lia].
Qed.

Lemma append_accounted (P : Segment → Prop) (n : nat) (d : DirState)
    (st : AppendStats) (s : Segment) :
  (∀ s', P s' → no_shorter s' s) →
  accounted P n d → caught_up n d → faithful s → 0 <= ooo_drops st →
  ooo_drops (append_payload d st s).2 = ooo_drops st ∧
    (∃ n', (n <= n')%nat ∧ accounted (λ x, P x ∨ x = s) n' (append_payload d st s).1 ∧
       caught_up n' (append_payload d st s).1)
  ∨ 0 < ooo_drops (append_payload d st s).2.
Proof.
  intros Hkept Hacc Hcu (o & Hat) Hst.
  pose proof Hat as (Hseq & Ho & Hp & Hw).
  pose proof Hacc as ((Hn & Hb & Hs & Hm) & Hok & HP).
  pose proof (append_delivered n d st s (conj Hn (conj Hb (conj Hs Hm))) (ex_intro _ o Hat))
    as (n1 & Hn1 & Hd1). revert Hd1.
  unfold append_payload. cbn [next_seq]. rewrite Hs. cbn [last_data_ts buf ooo].
  rewrite Hseq, seq_diff_at by lia. rewrite Hw. unfold zlen in *.
  assert (Hadv : u32_add (seq_at o) (Z.of_nat (length (seg_payload s)))
    = seq_at (o + length (seg_payload s))).
  { rewrite <- seq_at_add. f_equal. symmetry. apply wrap_small. lia. }
  assert (Hsame : ∀ o', seg_at o' s → o' = o).
  { intros o' (Hs' & Ho' & _). rewrite Hseq in Hs'. apply seq_at_inj in Hs'; lia. }
  (* the state is unchanged and the segment adds nothing new *)
  assert (Hkeep : (seg_payload s = [] ∨ (o + length (seg_payload s) <= n)%nat) →
    ∃ n', (n <= n')%nat ∧
      accounted (λ x, P x ∨ x = s) n' (mkDir (buf d) (Some (seq_at n)) (seg_ts s) (ooo d)) ∧
      caught_up n' (mkDir (buf d) (Some (seq_at n)) (seg_ts s) (ooo d))).
  { intros Hold. exists n. split; [done|]. split; [|exact Hcu].
    split; [by unfold delivered|]. split; [done|].
    intros s' o' [Hs'| ->] Ho' Hne; [by apply HP|]. apply Hsame in Ho' as ->.
    destruct Hold as [?|?]; [done|by left]. }
  (* the buffer advances to the end of the segment, then drains *)
  assert (Hgrow : ∀ b', (n <= o + length (seg_payload s))%nat →
    b' = take (o + length (seg_payload s)) stream →
    let d1 := mkDir b' (Some (seq_at (o + length (seg_payload s)))) (seg_ts s) (ooo d) in
    ∃ n', (n <= n')%nat ∧
      accounted (λ x, P x ∨ x = s) n' (if ooo_nonempty d1 then drain_ooo d1 else d1) ∧
      caught_up n' (if ooo_nonempty d1 then drain_ooo d1 else d1)).
  { intros b' Hge -> d1.
    destruct (drain_caught_up (λ x, P x ∨ x = s) (o + length (seg_payload s)) d1)
      as (n' & Hn' & Ha & Hc); [|exists n'; split; [lia|by split]].
    split; [by unfold delivered|]. split; [done|].
    intros s' o' [Hs'| ->] Ho' Hne.
    - destruct (HP s' o' Hs' Ho' Hne); [left; lia|by right].
    - apply Hsame in Ho' as ->. by left. }
  destruct (Z.eqb_spec (Z.of_nat o - Z.of_nat n) 0).
  { assert (o = n) as -> by lia. cbn [fst snd]. intros _. left. split; [done|].
    rewrite Hadv. apply Hgrow; [lia|].
    rewrite <- (take_slice n (length (seg_payload s)) n) by lia.
    by rewrite Nat.sub_diag, drop_0, <- Hp, Hb. }
  destruct (Z.ltb_spec (Z.of_nat o - Z.of_nat n) 0).
  { replace (Z.of_nat o - Z.of_nat n) with (- Z.of_nat (n - o)) by lia.
    rewrite behind_of_small by lia.
    destruct (Z.ltb_spec (Z.of_nat (n - o)) (Z.of_nat (length (seg_payload s)))).
    - cbn [fst snd]. intros _. left. split; [done|]. rewrite Hadv. apply Hgrow; [lia|].
      rewrite Nat2Z.id, Hb, Hp at 1. by rewrite take_slice by lia.
    - intros _. left. destruct (seg_payload s) eqn:El; cbn [fst snd]; (split; [done|]);
        apply Hkeep; [by left|right; simpl in *; lia]. }
  destruct (seg_payload s) as [|b0 l0] eqn:El; cbn [fst snd].
  { intros _. left. split; [done|]. apply Hkeep. by left. }
  rewrite <- El in *.
  destruct (_ <=? _)%nat; cbn [fst snd ooo_drops].
  { intros _. right. unfold u32_sat_add. lia. }
  intros Hd1. left. split; [done|]. exists n. split; [done|].
  set (m := default [] (ooo d)) in *.
  unfold accounted, caught_up. cbn [ooo default from_option id].
  assert (Hentry : entry_at o (seq_at o, seg_payload s))
    by (repeat split; try done; by rewrite El).
  split; [split; [|split]|].
  - split; [done|]. split; [done|]. split; [done|]. cbn [ooo default from_option id].
    intros x Hx. apply elem_of_bt_insert in Hx as [->|Hx]; [by exists o|by apply Hm].
  - by apply bt_insert_ok.
  - intros s' o' [Hs'| ->] Ho' Hne; [destruct (HP s' o' Hs' Ho' Hne) as [?|(bytes & Hin & Hlen)]; [by left|]|];
      right; setoid_rewrite bt_insert_elem; try done.
    + destruct (decide (seg_seq s' = seq_at o)) as [He|He].
      * exists (seg_payload s). rewrite He. split; [by left|]. apply Hkept; [done|]. by rewrite He, Hseq.
      * exists bytes. split; [right; by split|done].
    + exists (seg_payload s). rewrite Hseq. split; [by left|done].
  - intros x o' Hx He. apply elem_of_bt_insert in Hx as [->|Hx]; [|by eapply Hcu].
    destruct He as (Hs' & Ho' & _). cbn [fst snd] in *. apply seq_at_inj in Hs'; lia.
Qed.

Lemma append_all_drops (l : list Segment) (d : DirState) (st : AppendStats) :
  0 < ooo_drops st → 0 < ooo_drops (append_all d st l).2.
Proof.
  revert d st; induction l as [|s l IH]; intros d st Hst; [done|]. cbn [append_all].
  destruct (append_payload d st s) as [d' st'] eqn:E. apply IH.
  assert (ooo_drops st' = ooo_drops (append_payload d st s).2) as -> by by rewrite E.
  unfold append_payload. unfold u32_sat_add. repeat (case_match; cbn [snd ooo_drops]; try done; try lia).
  all: simplify_eq; cbn [ooo_drops]; lia.
Qed.

Lemma append_all_accounted (l : list Segment) (P : Segment → Prop) (n : nat) (d : DirState)
    (st : AppendStats) :
  (∀ s' s, P s' → s ∈ l → no_shorter s' s) → ForallOrdPairs no_shorter l →
  accounted P n d → caught_up n d → Forall faithful l →
  ooo_drops st = 0 → ooo_drops (append_all d st l).2 = 0 →
  ∃ n', accounted (λ x, P x ∨ x ∈ l) n' (append_all d st l).1 ∧
        caught_up n' (append_all d st l).1.
Proof.
  revert P n d st. induction l as [|s l IH]; intros P n d st HPl Hord Ha Hc Hl H0 Hend.
  { exists n. split; [|done]. destruct Ha as (? & ? & HP). split; [done|]. split; [done|].
    intros s o [Hs|Hs]; [by apply HP|by apply not_elem_of_nil in Hs]. }
  apply Forall_cons in Hl as [Hf Hl]. inversion Hord as [|? ? Hs Hord']; subst. cbn [append_all] in *.
  rewrite List.Forall_forall in Hs.
  pose proof (append_accounted P n d st s (λ s' H, HPl s' s H (list_elem_of_here _ _)) Ha Hc Hf ltac:(lia)) as Hstep.
  destruct (append_payload d st s) as [d' st']. cbn [fst snd] in Hstep.
  destruct Hstep as [(Hd & n' & _ & Ha' & Hc')|Hd].
  - destruct (IH (λ x, P x ∨ x = s) n' d' st') as (n2 & Ha2 & Hc2); try done; [|lia|].
    { intros s' t [Hs'| ->] Ht; [by apply HPl; [|by right]|]. by apply Hs, list_elem_of_In. }
    exists n2. split; [|done]. destruct Ha2 as (? & ? & HP2). split; [done|]. split; [done|].
    intros s' o Hs'. apply HP2. rewrite elem_of_cons in Hs'. tauto.
  - pose proof (append_all_drops l d' st' Hd). lia.
Qed.
End Stream.

(** ** The out-of-order map is bounded *)

Definition ooo_ok (d : DirState) : Prop :=
  bt_ok (default [] (ooo d)) ∧ (length (default [] (ooo d)) <= OOO_CAP_SEGMENTS)%nat.

Lemma drain_loop_ok (fuel : nat) (b b' : list byte) (e e' : Z) (m m' : list (Z * list byte)) :
  bt_ok m → drain_loop fuel b e m = (b', e', m') →
  bt_ok m' ∧ (length m' <= length m)%nat ∧
  ((length m <= fuel)%nat → match m' with [] => True | (seq, _) :: _ => 0 < seq_diff seq e' end).
Proof.
  revert b e m. induction fuel as [|fuel IH]; intros b e m Hok Hd.
  { injection Hd as <- <- <-. repeat split; try done.
    intros Hl. destruct m; simpl in Hl; [done|lia]. }
  cbn [drain_loop] in Hd. destruct m as [|[seq bytes] m]; [by injection Hd as <- <- <-|].
  rewrite bt_remove_head in Hd.
  destruct (Z.ltb_spec 0 (seq_diff seq e)); [by injection Hd as <- <- <-|].
  apply bt_ok_cons in Hok as [Hok _]. simpl.
  destruct (_ =? 0); [|destruct (_ <? _)]; apply IH in Hd as (? & ? & Hs); try done;
    (split; [done|]; split; [lia|]); intros ?; apply Hs; lia.
Qed.

Lemma drain_ooo_ok (d : DirState) : ooo_ok d → ooo_ok (drain_ooo d).
Proof.
  intros [Hok Hl]. unfold drain_ooo. destruct (ooo d) as [m|] eqn:Eo; [|by unfold ooo_ok; rewrite Eo].
  destruct (next_seq d) as [e|]; [|by unfold ooo_ok; rewrite Eo].
  destruct (drain_loop _ _ _ _) as [[b' e'] m'] eqn:Ed.
  apply drain_loop_ok in Ed as (Hok' & Hl' & _); [|done]. cbn in Hl.
  assert (Hmap : default [] (match m' with [] => None | _ :: _ => Some m' end) = m')
    by (by destruct m').
  unfold ooo_ok. cbn [ooo]. rewrite Hmap. split; [done|lia].
Qed.

Lemma append_ooo_ok (d : DirState) (st : AppendStats) (s : Segment) :
  ooo_ok d → ooo_ok (append_payload d st s).1.
Proof.
  intros Hd. pose proof Hd as [Hok Hl]. unfold append_payload. cbn [next_seq ooo buf last_data_ts].
  destruct (next_seq d) as [e|]; [|exact Hd].
  destruct (_ =? 0).
  { cbn [fst]. destruct (ooo_nonempty _); [apply drain_ooo_ok|]; exact Hd. }
  destruct (_ <? 0).
  { destruct (_ <? _); cbn [fst].
    - destruct (ooo_nonempty _); [apply drain_ooo_ok|]; exact Hd.
    - destruct (seg_payload s); exact Hd. }
  destruct (seg_payload s) as [|b0 l0]; [exact Hd|].
  set (m := default [] (ooo d)) in *.
  destruct (OOO_CAP_SEGMENTS <=? length m)%nat eqn:Ec; unfold ooo_ok;
    cbn [fst ooo default from_option id].
  - apply Nat.leb_le in Ec.
    destruct m as [|[old v] m0]; [simpl in *; unfold OOO_CAP_SEGMENTS in *; lia|].
    rewrite bt_remove_head. apply bt_ok_cons in Hok as [Hok _].
    split; [by apply bt_insert_ok|].
    pose proof (bt_insert_length (seg_seq s) (b0 :: l0) m0). simpl in Hl. lia.
  - apply Nat.leb_gt in Ec. split; [by apply bt_insert_ok|].
    pose proof (bt_insert_length (seg_seq s) (b0 :: l0) m). lia.
Qed.

(** A direction never holds more than [OOO_CAP_SEGMENTS] out-of-order
    segments, in key order, whatever packets arrive. *)
Theorem ooo_bounded :
  ∀ (l : list Segment) (st : AppendStats),
    ooo_ok (append_all dir_new st l).1.
Proof.
  intros l st. assert (Hd : ooo_ok dir_new) by (split; [constructor|unfold dir_new; simpl; lia]).
  revert st Hd. generalize dir_new as d. induction l as [|s l IH]; intros d st Hd; [done|].
  cbn [append_all]. pose proof (append_ooo_ok d st s Hd) as Hd'.
  destruct (append_payload d st s) as [d' st']. by apply IH.
Qed.

(** Draining ends, and only at a gap: afterwards the map is empty, or its
    first segment lies ahead of the sequence number expected next. *)
Theorem drain_stops_at_gap :
  ∀ (d : DirState) (expected : Z) (Hok : bt_ok (default [] (ooo d)))
    (Hn : next_seq d = Some expected),
    match ooo (drain_ooo d), next_seq (drain_ooo d) with
    | Some ((seq, _) :: _), Some expected' => 0 < seq_diff seq expected'
    | Some [], _ => False
    | _, Some _ => True
    | _, None => False
    end.
Proof.
  intros d e Hok Hn. unfold drain_ooo. rewrite Hn.
  destruct (ooo d) as [m|] eqn:Eo; [|by rewrite Eo, Hn].
  destruct (drain_loop _ _ _ _) as [[b' e'] m'] eqn:Ed. cbn [ooo next_seq].
  apply drain_loop_ok in Ed as (_ & _ & Hs); [|done]. specialize (Hs (le_n _)).
  by destruct m' as [|[seq bytes] m'].
Qed.

Lemma drain_stops_at_gap_witness :
  let d := mkDir [] (Some 5) 0 (Some [(5, B "ab"); (9, B "c")]) in
  match ooo (drain_ooo d), next_seq (drain_ooo d) with
  | Some ((seq, _) :: _), Some expected' => 0 < seq_diff seq expected'
  | Some [], _ => False
  | _, Some _ => True
  | _, None => False
  end.
Proof.
  apply (drain_stops_at_gap (mkDir [] (Some 5) 0 (Some [(5, B "ab"); (9, B "c")])) 5).
  - repeat constructor.
  - reflexivity.
Defined.

(** The state of a direction after its SYN: the stream starts at [base]. *)
Definition dir_at (base : Z) : DirState := mkDir [] (Some base) 0 None.

Lemma dir_at_delivered (base : Z) (stream : list byte) :
  0 <= base < 2 ^ 32 → delivered base stream 0 (dir_at base).
Proof.
  intros Hb. split; [lia|]. split; [done|]. split.
  - cbn. f_equal. unfold seq_at, u32_add. rewrite Z.add_0_r. symmetry. by apply wrap_small.
  - intros x Hx. by apply not_elem_of_nil in Hx.
Qed.

(** C1: reassembly only ever delivers the stream in order: whatever faithful
    segments arrive, in any order, duplicated, overlapping or lost, across the
    wrap of the sequence numbers and with any evictions, the in-order buffer is
    a prefix of the stream and the next expected sequence number is the one
    just after it. *)
Theorem reassembly_in_order :
  ∀ (base : Z) (stream : list byte) (l : list Segment) (st : AppendStats)
    (Hbase : 0 <= base < 2 ^ 32) (Hstream : zlen stream < 2 ^ 31)
    (Hl : Forall (faithful base stream) l),
    let d := (append_all (dir_at base) st l).1 in
    ∃ n, (n <= length stream)%nat ∧ buf d = take n stream ∧
         next_seq d = Some (u32_add base (Z.of_nat n)).
Proof.
  intros. destruct (append_all_delivered base stream Hstream l 0 (dir_at base) st
    (dir_at_delivered base stream Hbase) Hl) as (n & _ & Hn & Hb & Hs & _).
  exists n. by split.
Qed.

Definition sample_segment (base : Z) (stream : list byte) (o n : nat) : Segment :=
  mkSegment (u32_add base (Z.of_nat o)) (take n (drop o stream)) (Z.of_nat n) 0.

Lemma sample_segment_faithful (base : Z) (stream : list byte) (o n : nat) :
  (o + n <= length stream)%nat → faithful base stream (sample_segment base stream o n).
Proof.
  intros H. exists o.
  assert (Hl : length (take n (drop o stream)) = n) by (rewrite length_take, length_drop; lia).
  unfold seg_at, sample_segment, slice, zlen. cbn [seg_seq seg_payload seg_wire_len]. rewrite Hl.
  repeat split; lia.
Qed.

Lemma reassembly_in_order_witness :
  let stream := B "hello world" in
  ∃ n, (n <= 11)%nat ∧
    buf (append_all (dir_at 4294967290) stats_zero
      [sample_segment 4294967290 stream 4 7; sample_segment 4294967290 stream 0 5]).1
    = take n stream.
Proof.
  intros stream.
  destruct (reassembly_in_order 4294967290 stream
    [sample_segment 4294967290 stream 4 7; sample_segment 4294967290 stream 0 5] stats_zero)
    as (n & Hn & Hb & _).
  - lia.
  - vm_compute. reflexivity.
  - repeat constructor; apply sample_segment_faithful; vm_compute; repeat constructor.
  - exists n. split; [exact Hn|exact Hb].
Defined.

(** C7: nothing is held back, on a stream that does not cross the wrap of the
    sequence numbers: when the faithful segments that arrived cover the stream,
    in any order, overlapping and with duplicates, the whole stream is in the
    buffer and no segment waits, as long as no segment was evicted (the drop
    counter stayed at 0) and no segment is retransmitted shorter than it was. *)
Theorem reassembly_complete :
  ∀ (base : Z) (stream : list byte) (l : list Segment)
    (Hbase : 0 <= base < 2 ^ 32) (Hstream : zlen stream < 2 ^ 31)
    (Hnowrap : base + zlen stream < 2 ^ 32)
    (Hl : Forall (faithful base stream) l)
    (Hord : ForallOrdPairs no_shorter l)
    (Hcover : ∀ i, (i < length stream)%nat →
       ∃ s o, s ∈ l ∧ seg_at base stream o s ∧ (o <= i < o + length (seg_payload s))%nat)
    (Hdrops : ooo_drops (append_all (dir_at base) stats_zero l).2 = 0),
    let d := (append_all (dir_at base) stats_zero l).1 in
    buf d = stream ∧ default [] (ooo d) = [].
Proof.
  intros. destruct (append_all_accounted base stream Hbase Hstream Hnowrap l (λ _, False) 0
    (dir_at base) stats_zero) as (n & (Hdel & _ & HP) & Hc); try done.
  - by split; [apply dir_at_delivered|split; [constructor|]].
  - intros x o Hx. by apply not_elem_of_nil in Hx.
  - destruct Hdel as (Hn & Hb & _ & Hm). fold d in Hn, Hb, Hm, HP, Hc.
    assert (n = length stream) as ->.
    { destruct (decide (n = length stream)) as [|Hne]; [done|]. exfalso.
      destruct (Hcover n ltac:(lia)) as (s & o & Hs & Hat & Ho).
      assert (Hsne : seg_payload s ≠ []) by (intros Hnil; rewrite Hnil in Ho; simpl in Ho; lia).
      destruct (HP s o (or_intror Hs) Hat Hsne) as [Hle|(bytes & Hin & _)]; [lia|].
      destruct (Hm _ Hin) as (o' & He). pose proof He as (Ho' & ? & _). cbn [fst snd] in *.
      destruct Hat as (Hso & ? & _). rewrite Hso in Ho'.
      apply (seq_at_inj base stream Hstream) in Ho' as ->; [|lia|lia].
      pose proof (Hc _ _ Hin He). lia. }
    split; [by rewrite Hb, firstn_all|].
    destruct (default [] (ooo d)) as [|x m] eqn:Eo; [done|]. exfalso.
    destruct (Hm x) as (o & He); [by left|].
    assert (length stream < o)%nat by (eapply Hc; [by rewrite Eo; left|done]).
    destruct He as (_ & ? & _). lia.
Qed.

Lemma reassembly_complete_witness :
  let stream := B "hello world" in
  buf (append_all (dir_at 7) stats_zero
    [sample_segment 7 stream 5 4; sample_segment 7 stream 5 6; sample_segment 7 stream 0 6]).1
  = stream.
Proof.
  intros stream.
  refine (proj1 (reassembly_complete 7 stream
    [sample_segment 7 stream 5 4; sample_segment 7 stream 5 6; sample_segment 7 stream 0 6]
    _ _ _ _ _ _ _)).
  - lia.
  - vm_compute. reflexivity.
  - vm_compute. reflexivity.
  - repeat constructor; apply sample_segment_faithful; vm_compute; repeat constructor.
  - repeat constructor; intros He; vm_compute in He; try discriminate; vm_compute; repeat constructor.
  - intros i Hi. change (length stream) with 11%nat in Hi.
    destruct (decide (i < 5)%nat) as [Hlt|Hge].
    + exists (sample_segment 7 stream 0 6), 0%nat. split; [right; right; by left|].
      split; [repeat split; vm_compute; repeat constructor|]. simpl. lia.
    + exists (sample_segment 7 stream 5 6), 5%nat. split; [right; by left|].
      split; [repeat split; vm_compute; repeat constructor|]. simpl. lia.
  - vm_compute. reflexivity.
Defined.

(** The condition on retransmissions is needed: a segment that waits is replaced
    by a shorter one with the same number, the rest of it is gone, and the drop
    counter says nothing. *)
Example shorter_retransmission_loses_bytes :
  let stream := B "abcdef" in
  let r := append_all (dir_at 7) stats_zero
    [sample_segment 7 stream 2 4; sample_segment 7 stream 2 1; sample_segment 7 stream 0 2] in
  buf r.1 = B "abc" ∧ default [] (ooo r.1) = [] ∧ ooo_drops r.2 = 0.
Proof. repeat split; vm_compute; reflexivity. Qed.

(** The bound on wrapping is needed: across the wrap of the sequence numbers
    the map's first key is not the next segment, and a segment that continues
    the buffer stays in the map although every byte has arrived. *)
Lemma ooo_wraparound_stuck :
  let stream := B "abcdef" in
  let base := 2 ^ 32 - 4 in
  let d := (append_all (dir_at base) stats_zero
    [sample_segment base stream 2 2; sample_segment base stream 4 2;
     sample_segment base stream 0 2]).1 in
  buf d = B "ab" ∧ length (default [] (ooo d)) = 2%nat.
Proof. split; vm_compute; reflexivity. Qed.

(** A full map evicts its lowest key, the segment closest to the expected one,
    not the furthest. *)
Lemma ooo_evicts_nearest :
  let l := map (λ i, mkSegment (10 + 2 * Z.of_nat i) [x61] 1 0) (List.seq 0 33) in
  let d := (append_all (dir_at 5) stats_zero l).1 in
  bt_lookup 10 (default [] (ooo d)) = None ∧ bt_lookup 74 (default [] (ooo d)) = Some [x61].
Proof. split; vm_compute; reflexivity. Qed.
