(* ===== verification/TcpFlow.v ===== *)
(** * Connections and the flow worker (h-protocol/src/tcp.rs)

    [TcpFlow] ties the two directions of a connection to its HTTP parser: TCP
    state, which side is the client, synchronisation with the HTTP stream and
    the resync sites.  [FlowWorker] is the table of flows of one shard, with its
    per-source clean-up driven by event time. *)

From Stdlib Require Import Strings.Byte ZArith Lia.
From stdpp Require Import base gmap sets list strings sorting.
From S2P Require Import Prelude.
From S2P Require Import Net.
From S2P Require Import Text.
From S2P Require Import Events.
From S2P Require Import Body.
From S2P Require Import Sse.
From S2P Require Import HttpParser.
From S2P Require Import Counters.
From S2P Require Import BTree.
From S2P Require Import Reassembly.

Open Scope Z_scope.

(** ** h-protocol/src/flow.rs: the input of a worker *)

Inductive WorkerInput : Type :=
| InPacket (p : ParsedPacket)
| InHeartbeat (ts : Z) (source_id : string).

Inductive TcpState : Type := Init | SynSent | Established | Closing | Closed.

#[global] Instance TcpState_eq_dec : EqDecision TcpState.
Proof. solve_decision. Defined.

Inductive ClientSide : Type := SideUnknown | SideAtoB | SideBtoA.

#[global] Instance ClientSide_eq_dec : EqDecision ClientSide.
Proof. solve_decision. Defined.

Definition side_of (d : Direction) : ClientSide :=
  match d with AtoB => SideAtoB | BtoA => SideBtoA end.

(** A buffer that starts with an HTTP request method. *)
Definition http_methods : list (list byte) :=
  map String.list_byte_of_string
    ["GET "; "POST "; "PUT "; "DELETE "; "PATCH "; "HEAD "; "OPTIONS "; "CONNECT "]%string.

Definition looks_like_http_request (b : list byte) : bool :=
  match b with
  | [] => false
  | _ :: _ => existsb (λ m, starts_with m b) http_methods
  end.

Definition segment_of (p : ParsedPacket) : Segment :=
  mkSegment (tcp_seq p) (payload p) (wire_payload_len p) (timestamp_us p).

Section Flow.
Context `{FL : Flate} `{HP : HttpParse}.

Record TcpFlow : Type := mkFlow {
  f_state : TcpState;
  client_side : ClientSide;
  synced : bool;
  a_to_b : DirState;
  b_to_a : DirState;
  last_pkt_ts : Z;
  f_stats : AppendStats;
  http_parser : HttpParser;
  f_key : FlowKey;
  f_addr_a : sock;
  f_addr_b : sock;
  f_process : option ProcessInfo;
}.

Definition flow_new (k : FlowKey) : TcpFlow :=
  {| f_state := Init;
     client_side := SideUnknown;
     synced := false;
     a_to_b := dir_new;
     b_to_a := dir_new;
     last_pkt_ts := 0;
     f_stats := stats_zero;
     http_parser := parser_new;
     f_key := k;
     f_addr_a := addr_a k;
     f_addr_b := addr_b k;
     f_process := None |}.

(** Field updates. *)
Definition set_tcp_state (f : TcpFlow) (s : TcpState) : TcpFlow :=
  mkFlow s (client_side f) (synced f) (a_to_b f) (b_to_a f) (last_pkt_ts f) (f_stats f)
    (http_parser f) (f_key f) (f_addr_a f) (f_addr_b f) (f_process f).
Definition set_sync (f : TcpFlow) (side : ClientSide) (b : bool) : TcpFlow :=
  mkFlow (f_state f) side b (a_to_b f) (b_to_a f) (last_pkt_ts f) (f_stats f)
    (http_parser f) (f_key f) (f_addr_a f) (f_addr_b f) (f_process f).
Definition set_dirs (f : TcpFlow) (a b : DirState) : TcpFlow :=
  mkFlow (f_state f) (client_side f) (synced f) a b (last_pkt_ts f) (f_stats f)
    (http_parser f) (f_key f) (f_addr_a f) (f_addr_b f) (f_process f).
Definition set_last_ts (f : TcpFlow) (t : Z) : TcpFlow :=
  mkFlow (f_state f) (client_side f) (synced f) (a_to_b f) (b_to_a f) t (f_stats f)
    (http_parser f) (f_key f) (f_addr_a f) (f_addr_b f) (f_process f).
Definition set_stats (f : TcpFlow) (st : AppendStats) : TcpFlow :=
  mkFlow (f_state f) (client_side f) (synced f) (a_to_b f) (b_to_a f) (last_pkt_ts f) st
    (http_parser f) (f_key f) (f_addr_a f) (f_addr_b f) (f_process f).
Definition set_parser (f : TcpFlow) (p : HttpParser) : TcpFlow :=
  mkFlow (f_state f) (client_side f) (synced f) (a_to_b f) (b_to_a f) (last_pkt_ts f) (f_stats f)
    p (f_key f) (f_addr_a f) (f_addr_b f) (f_process f).
Definition set_flow_process (f : TcpFlow) (p : option ProcessInfo) : TcpFlow :=
  mkFlow (f_state f) (client_side f) (synced f) (a_to_b f) (b_to_a f) (last_pkt_ts f) (f_stats f)
    (http_parser f) (f_key f) (f_addr_a f) (f_addr_b f) p.

Definition dir_of (f : TcpFlow) (d : Direction) : DirState :=
  match d with AtoB => a_to_b f | BtoA => b_to_a f end.
(** Writing through [dir_mut]. *)
Definition set_dir (f : TcpFlow) (d : Direction) (x : DirState) : TcpFlow :=
  match d with
  | AtoB => set_dirs f x (b_to_a f)
  | BtoA => set_dirs f (a_to_b f) x
  end.

Definition set_next_seq (d : DirState) (s : option Z) : DirState :=
  mkDir (buf d) s (last_data_ts d) (ooo d).
Definition set_buf (d : DirState) (b : list byte) : DirState :=
  mkDir b (next_seq d) (last_data_ts d) (ooo d).

(** What every resync site does: discard both directions, reset the parser and
    forget the sequence numbers. *)
Definition drop_buffers (f : TcpFlow) : TcpFlow :=
  set_parser
    (set_dirs f (set_next_seq (discard_buffers (a_to_b f)) None)
                (set_next_seq (discard_buffers (b_to_a f)) None))
    parser_new.

Definition flow_append (f : TcpFlow) (p : ParsedPacket) : TcpFlow :=
  let '(d, st) := append_payload (dir_of f (direction p)) (f_stats f) (segment_of p) in
  set_stats (set_dir f (direction p) d) st.

(** The arguments a flow passes to its parser. *)
Definition flow_env (f : TcpFlow) : ParseEnv :=
  match client_side f with
  | SideBtoA => mkEnv (f_key f) (f_addr_b f) (f_addr_a f) (last_data_ts (b_to_a f))
                  (last_data_ts (a_to_b f)) (last_data_ts (a_to_b f))
  | _ => mkEnv (f_key f) (f_addr_a f) (f_addr_b f) (last_data_ts (a_to_b f))
           (last_data_ts (b_to_a f)) (last_data_ts (b_to_a f))
  end.

Definition flow_bufs (f : TcpFlow) : Bufs :=
  match client_side f with
  | SideBtoA => mkBufs (buf (b_to_a f)) (buf (a_to_b f))
  | _ => mkBufs (buf (a_to_b f)) (buf (b_to_a f))
  end.

Definition set_flow_bufs (f : TcpFlow) (b : Bufs) : TcpFlow :=
  match client_side f with
  | SideBtoA => set_dirs f (set_buf (a_to_b f) (server_buf b)) (set_buf (b_to_a f) (client_buf b))
  | _ => set_dirs f (set_buf (a_to_b f) (client_buf b)) (set_buf (b_to_a f) (server_buf b))
  end.

Definition try_parse_http (f : TcpFlow) : res (bool * TcpFlow * list HttpParseEvent) :=
  match client_side f with
  | SideUnknown => Ret (false, f, [])
  | _ =>
      let* (result, p, b, out) := parse (flow_env f) (http_parser f) (flow_bufs f) in
      let f1 := set_parser (set_flow_bufs f b) p in
      match result with
      | NeedResync => Ret (true, drop_buffers (set_sync f1 (client_side f1) false), out)
      | ParseOk => Ret (false, f1, out)
      end
  end.

Definition finish_pending_response (f : TcpFlow) : TcpFlow * list HttpParseEvent :=
  match client_side f with
  | SideUnknown => (f, [])
  | _ =>
      let '(out, p, s) :=
        finish_response (flow_env f) (http_parser f) (server_buf (flow_bufs f)) in
      (set_parser (set_flow_bufs f (mkBufs (client_buf (flow_bufs f)) s)) p, out)
  end.

Definition is_client (f : TcpFlow) (d : Direction) : bool :=
  match client_side f, d with
  | SideAtoB, AtoB | SideBtoA, BtoA => true
  | _, _ => false
  end.

(** Discard, re-baseline on this packet, and parse: the body shared by the
    unsynced-to-synced and the new-request sites. *)
Definition resync_on (f : TcpFlow) (p : ParsedPacket)
    : res (bool * TcpFlow * list HttpParseEvent) :=
  let* (_, f1, out) := try_parse_http (flow_append (drop_buffers f) p) in
  Ret (true, f1, out).

(** The payload part of [push_inner]. *)
Definition push_payload (f : TcpFlow) (p : ParsedPacket)
    : res (bool * TcpFlow * list HttpParseEvent) :=
  match payload p with
  | [] => Ret (false, f, [])
  | _ :: _ =>
      if negb (synced f) then
        if looks_like_http_request (payload p) then
          resync_on (set_sync f (side_of (direction p)) true) p
        else Ret (false, f, [])
      else if is_client f (direction p) && is_waiting_for_response (http_parser f)
              && looks_like_http_request (payload p) then
        resync_on f p
      else try_parse_http (flow_append f p)
  end.

Definition push_inner (f : TcpFlow) (p : ParsedPacket)
    : res (bool * TcpFlow * list HttpParseEvent) :=
  let f := set_last_ts f (timestamp_us p) in
  if has_rst p then
    let '(f1, out) := finish_pending_response (set_tcp_state f Closed) in
    Ret (false, f1, out)
  else if has_syn p && negb (has_ack p) then
    let f1 := set_sync (set_tcp_state f SynSent) (side_of (direction p)) true in
    Ret (false, set_dir f1 (direction p)
           (set_next_seq (dir_of f1 (direction p)) (Some (u32_add (tcp_seq p) 1))), [])
  else if has_syn p && has_ack p then
    let f1 := set_tcp_state f Established in
    Ret (false, set_dir f1 (direction p)
           (set_next_seq (dir_of f1 (direction p)) (Some (u32_add (tcp_seq p) 1))), [])
  else
    let f1 := if has_fin p
              then set_tcp_state f (match f_state f with Closing => Closed | _ => Closing end)
              else f in
    let f2 := if (bool_decide (f_state f1 = Init) || bool_decide (f_state f1 = SynSent))
                 && negb (bool_decide (payload p = []))
              then set_tcp_state f1 Established else f1 in
    if zlen (payload p) <? wire_payload_len p then
      Ret (true, drop_buffers (set_sync f2 (client_side f2) false), [])
    else
      let* (resync, f3, out) := push_payload f2 p in
      match f_state f3 with
      | Closing | Closed =>
          let '(f4, out') := finish_pending_response f3 in
          Ret (resync, f4, out ++ out')
      | _ => Ret (resync, f3, out)
      end.

(** [push]: learn the process, run [push_inner], stamp what it emitted. *)
Definition push (f : TcpFlow) (p : ParsedPacket) : res (bool * TcpFlow * list HttpParseEvent) :=
  let f0 := match f_process f with
            | None => match process p with
                      | Some pr => set_flow_process f (Some pr)
                      | None => f
                      end
            | Some _ => f
            end in
  let* (resync, f1, out) := push_inner f0 p in
  Ret (resync, f1,
       match f_process f1 with
       | Some pr => map (λ ev, set_process ev (Some pr)) out
       | None => out
       end).

Definition is_closed (f : TcpFlow) : bool := bool_decide (f_state f = Closed).

Definition take_append_stats (f : TcpFlow) : AppendStats * TcpFlow :=
  (f_stats f, set_stats f stats_zero).

(** ** The invariant of a flow *)

Definition flow_ok (f : TcpFlow) : Prop :=
  (synced f = true → client_side f ≠ SideUnknown) ∧
  parser_ok (http_parser f) ∧ ooo_ok (a_to_b f) ∧ ooo_ok (b_to_a f) ∧
  f_addr_a f = addr_a (f_key f) ∧ f_addr_b f = addr_b (f_key f).

(** What an operation leaves alone: the flow's identity. *)
Definition same_flow (f f' : TcpFlow) : Prop :=
  f_key f' = f_key f ∧ f_process f' = f_process f ∧ last_pkt_ts f' = last_pkt_ts f ∧
  f_state f' = f_state f.

(** Split the invariant and the identity of a flow into their conjuncts. *)
Ltac flow_conj := unfold flow_ok, same_flow in *; split_hyps; split_and?; try done.

Lemma dir_new_ok : ooo_ok dir_new.
Proof. split; [constructor|unfold dir_new; simpl; lia]. Qed.

Lemma flow_new_ok (k : FlowKey) : flow_ok (flow_new k).
Proof. flow_conj; apply dir_new_ok. Qed.

Lemma discard_ok (d : DirState) (s : option Z) : ooo_ok (set_next_seq (discard_buffers d) s).
Proof. split; [constructor|simpl; lia]. Qed.

Lemma drop_buffers_ok (f : TcpFlow) : flow_ok f → flow_ok (drop_buffers f).
Proof.
  intros (H1 & _ & _ & _ & H5 & H6). unfold flow_ok, drop_buffers.
  cbn. split; [done|]. split; [done|]. split; [apply discard_ok|]. split; [apply discard_ok|done].
Qed.

Lemma flow_append_ok (f : TcpFlow) (p : ParsedPacket) :
  flow_ok f → flow_ok (flow_append f p) ∧ same_flow f (flow_append f p) ∧
  client_side (flow_append f p) = client_side f ∧ http_parser (flow_append f p) = http_parser f.
Proof.
  intros (H1 & H2 & H3 & H4 & H5 & H6). unfold flow_append.
  assert (Hd : ooo_ok (dir_of f (direction p))) by (by destruct (direction p)).
  pose proof (append_ooo_ok _ (f_stats f) (segment_of p) Hd) as Ha.
  destruct (append_payload _ _ _) as [d st]. cbn [fst] in Ha.
  unfold flow_ok, same_flow. by destruct (direction p).
Qed.

Lemma set_flow_bufs_ok (f : TcpFlow) (b : Bufs) :
  flow_ok f → flow_ok (set_flow_bufs f b) ∧ same_flow f (set_flow_bufs f b) ∧
  client_side (set_flow_bufs f b) = client_side f ∧ http_parser (set_flow_bufs f b) = http_parser f ∧
  synced (set_flow_bufs f b) = synced f.
Proof.
  intros (H1 & H2 & H3 & H4 & H5 & H6). unfold flow_ok, same_flow, set_flow_bufs.
  destruct H3, H4. destruct (client_side f) eqn:E; repeat split; cbn; rewrite ?E; done.
Qed.

Lemma set_parser_ok (f : TcpFlow) (p : HttpParser) :
  flow_ok f → parser_ok p → flow_ok (set_parser f p) ∧ same_flow f (set_parser f p).
Proof. intros (H1 & H2 & H3 & H4 & H5 & H6) Hp. by flow_conj. Qed.

Lemma flow_env_key (f : TcpFlow) : env_flow (flow_env f) = f_key f.
Proof. unfold flow_env. by destruct (client_side f). Qed.

Section FlowLaws.
Context `{HL : !HttpParseLaws HP}.

Definition flow_result (f : TcpFlow) (r : res (bool * TcpFlow * list HttpParseEvent)) : Prop :=
  r = Panic ∨ ∃ b f' out, r = Ret (b, f', out) ∧ flow_ok f' ∧ same_flow f f'.

Lemma try_parse_http_ok (f : TcpFlow) : flow_ok f → flow_result f (try_parse_http f).
Proof.
  intros Hok. unfold try_parse_http.
  pose proof (parse_step_no_fuel (flow_env f)) as _.
  assert (Hp : parser_ok (http_parser f)) by apply Hok.
  destruct (client_side f) eqn:Ec; [right; exists false, f, []; by flow_conj|..].
  all: destruct (parse_returns (flow_env f) (http_parser f) (flow_bufs f) Hp)
         as [->|(r & p' & b' & out & -> & Hp')]; [by left|]; right; cbn [res_bind].
  all: destruct (set_flow_bufs_ok f b' Hok) as (H1 & (S1 & S2 & S3 & S4) & H2 & H3 & H4).
  all: destruct (set_parser_ok (set_flow_bufs f b') p' H1 Hp') as (H5 & _).
  all: destruct r; eexists _, _, _; (split; [done|]).
  1,3: split; [done|by flow_conj].
  all: split; [|by flow_conj]; apply drop_buffers_ok;
    destruct H5 as (_ & ? & ? & ? & ? & ?); by flow_conj.
Qed.

Lemma finish_pending_ok (f : TcpFlow) :
  flow_ok f → flow_ok (finish_pending_response f).1 ∧ same_flow f (finish_pending_response f).1.
Proof.
  intros Hok. unfold finish_pending_response.
  assert (Hp : parser_ok (http_parser f)) by apply Hok.
  pose proof (finish_response_ok (flow_env f) (http_parser f) (server_buf (flow_bufs f)) Hp) as Hf.
  destruct (client_side f); [by flow_conj|..];
    destruct (finish_response _ _ _) as [[out p] s]; cbn [fst snd] in *;
    destruct (set_flow_bufs_ok f (mkBufs (client_buf (flow_bufs f)) s) Hok)
      as (H1 & (S1 & S2 & S3 & S4) & _);
    destruct (set_parser_ok _ p H1 Hf) as (H5 & _); (split; [done|by flow_conj]).
Qed.

Lemma resync_on_ok (f : TcpFlow) (p : ParsedPacket) : flow_ok f → flow_result f (resync_on f p).
Proof.
  intros Hok. unfold resync_on.
  destruct (flow_append_ok (drop_buffers f) p (drop_buffers_ok f Hok)) as (H1 & (S1 & S2 & S3 & S4) & _).
  destruct (try_parse_http_ok _ H1) as [->|(b & f1 & out & -> & H2 & (T1 & T2 & T3 & T4))]; [by left|].
  right. cbn [res_bind]. eexists _, _, _. split; [done|]. split; [done|].
  flow_conj; cbn in *; congruence.
Qed.

Lemma push_payload_ok (f : TcpFlow) (p : ParsedPacket) : flow_ok f → flow_result f (push_payload f p).
Proof.
  intros Hok. unfold push_payload.
  assert (Hid : flow_result f (Ret (false, f, []))) by (right; exists false, f, []; by flow_conj).
  destruct (payload p) as [|b0 l0]; [done|]. destruct (negb (synced f)).
  - destruct (looks_like_http_request _); [|done].
    assert (Hs : flow_ok (set_sync f (side_of (direction p)) true)).
    { destruct Hok as (_ & ? & ? & ? & ? & ?). split; [by destruct (direction p)|by flow_conj]. }
    exact (resync_on_ok _ p Hs).
  - destruct (_ && _ && _); [by apply resync_on_ok|].
    destruct (flow_append_ok f p Hok) as (H1 & (S1 & S2 & S3 & S4) & _).
    destruct (try_parse_http_ok _ H1) as [->|(b & f1 & out & -> & H2 & (T1 & T2 & T3 & T4))];
      [by left|]. right. eexists _, _, _. split; [done|]. split; [done|].
    flow_conj; congruence.
Qed.

(** The invariant of a flow is kept by every packet. *)
Lemma push_inner_ok (f : TcpFlow) (p : ParsedPacket) :
  flow_ok f →
  push_inner f p = Panic ∨
  ∃ b f' out, push_inner f p = Ret (b, f', out) ∧ flow_ok f' ∧
    f_key f' = f_key f ∧ f_process f' = f_process f ∧ last_pkt_ts f' = timestamp_us p.
Proof.
  intros Hok. unfold push_inner. set (f0 := set_last_ts f (timestamp_us p)).
  assert (H0 : flow_ok f0) by exact Hok.
  destruct (has_rst p).
  { right. destruct (finish_pending_ok (set_tcp_state f0 Closed) H0) as (H1 & (S1 & S2 & S3 & _)).
    destruct (finish_pending_response _) as [f1 out]. eexists _, _, _. split; [done|]. by flow_conj. }
  assert (Hsyn : ∀ f1 d, flow_ok f1 → flow_ok (set_dir f1 (direction p)
    (set_next_seq (dir_of f1 (direction p)) d))).
  { intros f1 d (? & ? & ? & ? & ? & ?). unfold flow_ok. by destruct (direction p). }
  destruct (has_syn p && negb (has_ack p)).
  { right. eexists _, _, _. split; [done|]. split.
    - apply Hsyn. destruct H0 as (_ & ? & ? & ? & ? & ?).
      split; [by destruct (direction p)|by flow_conj].
    - by destruct (direction p). }
  destruct (has_syn p && has_ack p).
  { right. eexists _, _, _. split; [done|]. split; [by apply Hsyn|]. by destruct (direction p). }
  set (f1 := if has_fin p then _ else f0).
  set (f2 := if _ && _ then set_tcp_state f1 Established else f1).
  assert (H2 : flow_ok f2 ∧ f_key f2 = f_key f ∧ f_process f2 = f_process f ∧
               last_pkt_ts f2 = timestamp_us p).
  { unfold f2, f1. destruct (_ && _), (has_fin p); by flow_conj. }
  destruct H2 as (H2 & K2 & P2 & T2).
  destruct (_ <? _).
  { right. eexists _, _, _. split; [done|]. split; [|by flow_conj]. apply drop_buffers_ok.
    destruct H2 as (_ & ? & ? & ? & ? & ?). by flow_conj. }
  destruct (push_payload_ok f2 p H2) as [->|(b & f3 & out & -> & H3 & (S1 & S2 & S3 & S4))]; [by left|].
  right. cbn [res_bind].
  destruct (finish_pending_ok f3 H3) as (H4 & (U1 & U2 & U3 & _)).
  destruct (finish_pending_response f3) as [f4 out4]. cbn [fst] in *.
  destruct (f_state f3); eexists _, _, _; (split; [done|]); (split; [done|]);
    flow_conj; congruence.
Qed.

Lemma push_returns (f : TcpFlow) (p : ParsedPacket) :
  flow_ok f →
  push f p = Panic ∨
  ∃ b f' out, push f p = Ret (b, f', out) ∧ flow_ok f' ∧ f_key f' = f_key f ∧
    last_pkt_ts f' = timestamp_us p.
Proof.
  intros Hok. unfold push.
  set (f0 := match f_process f with None => _ | Some _ => f end).
  assert (H0 : flow_ok f0 ∧ f_key f0 = f_key f).
  { unfold f0. destruct (f_process f); [done|]. by destruct (process p). }
  destruct H0 as [H0 K0].
  destruct (push_inner_ok f0 p H0) as [->|(b & f' & out & -> & H1 & K1 & _ & T1)]; [by left|].
  right. cbn [res_bind]. eexists _, _, _. split; [done|]. flow_conj; congruence.
Qed.

(** The state of a connection stays consistent: every packet either
    unwinds the worker (a body read that panics) or returns, and then a synced
    flow knows its client side, its reader is well formed, its out-of-order maps
    are within their bound, its addresses are its key's, and its idle clock is
    the packet's timestamp.  Packet processing never spins. *)
Theorem push_keeps_flow_ok :
  ∀ (f : TcpFlow) (p : ParsedPacket) (Hok : flow_ok f),
    push f p = Panic ∨
    ∃ b f' out, push f p = Ret (b, f', out) ∧ flow_ok f' ∧ f_key f' = f_key f ∧
      last_pkt_ts f' = timestamp_us p.
Proof. intros f p Hok. by apply push_returns. Qed.
End FlowLaws.

(** ** The events of a flow

    As for the parser, but a flow may drop an exchange: after a resync the next
    event is a request whatever was open. *)
Definition flow_step (open : bool) (ev : HttpParseEvent) : option bool :=
  match open, ev with
  | _, HttpRequest _ => Some true
  | true, SseEvent _ => Some true
  | true, HttpResponse _ => Some false
  | _, _ => None
  end.

Fixpoint run_flow (open : bool) (evs : list HttpParseEvent) : option bool :=
  match evs with
  | [] => Some open
  | ev :: evs' =>
      match flow_step open ev with
      | Some w => run_flow w evs'
      | None => None
      end
  end.

Lemma run_flow_app (w : bool) (l k : list HttpParseEvent) :
  run_flow w (l ++ k) = match run_flow w l with Some w' => run_flow w' k | None => None end.
Proof.
  revert w; induction l as [|ev l IH]; intros w; [done|]. cbn [run_flow app].
  destruct (flow_step w ev); [apply IH|done].
Qed.

Lemma run_events_flow (w w' : bool) (evs : list HttpParseEvent) :
  run_events w evs = Some w' → run_flow w evs = Some w'.
Proof.
  revert w; induction evs as [|ev evs IH]; intros w; [done|]. cbn.
  destruct w, ev; try done; apply IH.
Qed.

(** [open] covers the parser: a parser that waits for a response has an exchange
    open. *)
Definition covers (open : bool) (p : HttpParser) : Prop :=
  is_waiting_for_response p = true → open = true.

Lemma covers_run (w : bool) (p p' : HttpParser) (evs : list HttpParseEvent) :
  covers w p →
  run_events (is_waiting_for_response p) evs = Some (is_waiting_for_response p') →
  ∃ w', run_flow w evs = Some w' ∧ covers w' p'.
Proof.
  intros Hc Hr. unfold covers in *. destruct (is_waiting_for_response p) eqn:Ew.
  - rewrite (Hc eq_refl). apply run_events_flow in Hr. eauto.
  - destruct evs as [|ev evs]; cbn in Hr; [injection Hr as Hr; exists w; split; [done|congruence]|].
    destruct ev; try done. apply run_events_flow in Hr. cbn. destruct w; eauto.
Qed.

Lemma covers_new (w : bool) : covers w parser_new.
Proof. done. Qed.

(** The events of an operation on a flow: they continue the exchange that is
    open, belong to the flow, and are not stamped yet. *)
Definition emits (f : TcpFlow) (out : list HttpParseEvent) (f' : TcpFlow) : Prop :=
  (∀ w, covers w (http_parser f) → ∃ w', run_flow w out = Some w' ∧ covers w' (http_parser f')) ∧
  Forall (λ ev, event_flow ev = Some (f_key f) ∧ event_process ev = None) out.

Lemma emits_nil (f f' : TcpFlow) : http_parser f' = http_parser f → emits f [] f'.
Proof. intros H. split; [intros w Hw; exists w; by rewrite H|constructor]. Qed.

Lemma emits_drop (f f' : TcpFlow) : http_parser f' = parser_new → emits f [] f'.
Proof. intros H. split; [intros w _; exists w; rewrite H; split; [done|apply covers_new]|constructor]. Qed.

Lemma emits_app (f f1 f2 : TcpFlow) (l k : list HttpParseEvent) :
  f_key f1 = f_key f → emits f l f1 → emits f1 k f2 → emits f (l ++ k) f2.
Proof.
  intros Hk [H1 F1] [H2 F2]. rewrite Hk in F2. split; [|by apply Forall_app].
  intros w Hw. destruct (H1 w Hw) as (w1 & R1 & C1). destruct (H2 w1 C1) as (w2 & R2 & C2).
  exists w2. split; [|done]. by rewrite run_flow_app, R1.
Qed.

Lemma set_flow_bufs_key (f : TcpFlow) (b : Bufs) :
  f_key (set_flow_bufs f b) = f_key f ∧ http_parser (set_flow_bufs f b) = http_parser f.
Proof. unfold set_flow_bufs. by destruct (client_side f). Qed.

Lemma try_parse_http_emits (f f' : TcpFlow) r out :
  try_parse_http f = Ret (r, f', out) → emits f out f' ∧ f_key f' = f_key f.
Proof.
  unfold try_parse_http. intros H.
  destruct (client_side f); [simplify_eq; split; [by apply emits_nil|done]|..];
    (destruct (parse _ _ _) as [[[[x p] b] o]| |] eqn:Ep; cbn [res_bind] in H; try done;
     apply parse_loop_events in Ep as [Hr Hf]; unfold raw_event in Hf; rewrite flow_env_key in Hf;
     pose proof (set_flow_bufs_key f b) as [Hk _];
     destruct x; simplify_eq; (split; [split; [|done]|exact Hk]); intros w Hw;
     destruct (covers_run _ _ _ _ Hw Hr) as (w' & R & C); exists w'; (split; [done|]);
     first [exact C | apply covers_new]).
Qed.

Lemma finish_pending_emits (f : TcpFlow) :
  emits f (finish_pending_response f).2 (finish_pending_response f).1 ∧
  f_key (finish_pending_response f).1 = f_key f.
Proof.
  unfold finish_pending_response.
  pose proof (finish_response_events (flow_env f) (http_parser f) (server_buf (flow_bufs f)))
    as [Hr Hf].
  unfold raw_event in Hf. rewrite flow_env_key in Hf.
  destruct (client_side f); [split; [by apply emits_nil|done]|..];
    (destruct (finish_response _ _ _) as [[out p] s]; cbn [fst snd] in *;
     pose proof (set_flow_bufs_key f (mkBufs (client_buf (flow_bufs f)) s)) as [Hk _];
     split; [split; [|done]|exact Hk]; intros w Hw; exact (covers_run _ _ _ _ Hw Hr)).
Qed.

Lemma flow_append_key (f : TcpFlow) (p : ParsedPacket) :
  f_key (flow_append f p) = f_key f ∧ http_parser (flow_append f p) = http_parser f.
Proof. unfold flow_append. destruct (append_payload _ _ _). by destruct (direction p). Qed.

Lemma resync_on_emits (f f' : TcpFlow) (p : ParsedPacket) r out :
  resync_on f p = Ret (r, f', out) → emits f out f' ∧ f_key f' = f_key f.
Proof.
  unfold resync_on. intros H.
  destruct (try_parse_http _) as [[[b f1] o]| |] eqn:Et; cbn [res_bind] in H; try done.
  simplify_eq. apply try_parse_http_emits in Et as [He Hk].
  destruct (flow_append_key (drop_buffers f) p) as [K P].
  rewrite Hk, K. split; [|done].
  apply (emits_app f (flow_append (drop_buffers f) p) f' [] out); [done| |done].
  apply emits_drop. by rewrite P.
Qed.

Lemma push_payload_emits (f f' : TcpFlow) (p : ParsedPacket) r out :
  push_payload f p = Ret (r, f', out) → emits f out f' ∧ f_key f' = f_key f.
Proof.
  unfold push_payload. intros H.
  destruct (payload p) as [|b0 l0]; [simplify_eq; split; [by apply emits_nil|done]|].
  destruct (negb (synced f)).
  - destruct (looks_like_http_request _); [|simplify_eq; split; [by apply emits_nil|done]].
    exact (resync_on_emits (set_sync f (side_of (direction p)) true) f' p r out H).
  - destruct (_ && _ && _); [by eapply resync_on_emits|].
    apply try_parse_http_emits in H as [He Hk].
    destruct (flow_append_key f p) as [K P]. rewrite Hk, K. split; [|done].
    apply (emits_app f (flow_append f p) f' [] out); [done| |done]. by apply emits_nil.
Qed.

Lemma push_inner_emits (f f' : TcpFlow) (p : ParsedPacket) r out :
  push_inner f p = Ret (r, f', out) → emits f out f' ∧ f_key f' = f_key f.
Proof.
  unfold push_inner. set (f0 := set_last_ts f (timestamp_us p)). intros H.
  destruct (has_rst p).
  { pose proof (finish_pending_emits (set_tcp_state f0 Closed)) as [He Hk].
    destruct (finish_pending_response _) as [f1 o]. by simplify_eq. }
  destruct (has_syn p && negb (has_ack p)).
  { simplify_eq. split; [apply emits_nil|]; by destruct (direction p). }
  destruct (has_syn p && has_ack p).
  { simplify_eq. split; [apply emits_nil|]; by destruct (direction p). }
  set (f1 := if has_fin p then _ else f0) in H.
  set (f2 := if _ && _ then set_tcp_state f1 Established else f1) in H.
  assert (H2 : f_key f2 = f_key f ∧ http_parser f2 = http_parser f)
    by (unfold f2, f1; destruct (_ && _), (has_fin p); done).
  destruct H2 as [K2 P2].
  destruct (_ <? _). { simplify_eq. split; [by apply emits_drop|exact K2]. }
  destruct (push_payload f2 p) as [[[b f3] o]| |] eqn:Ep; cbn [res_bind] in H; try done.
  apply push_payload_emits in Ep as [He Hk].
  assert (He' : emits f o f3).
  { apply (emits_app f f2 f3 [] o); [done| |done]. by apply emits_nil. }
  pose proof (finish_pending_emits f3) as [Hf Hk4].
  destruct (finish_pending_response f3) as [f4 o4]. cbn [fst snd] in *.
  destruct (f_state f3); simplify_eq; (split; [|congruence]); try done;
    (eapply emits_app; [|exact He'|exact Hf]); congruence.
Qed.

(** Packets in turn. *)
Fixpoint push_all_packets (f : TcpFlow) (ps : list ParsedPacket)
    : res (TcpFlow * list HttpParseEvent) :=
  match ps with
  | [] => Ret (f, [])
  | p :: ps' =>
      let* (_, f1, out) := push f p in
      let* (f2, out') := push_all_packets f1 ps' in
      Ret (f2, out ++ out')
  end.

Lemma run_flow_map (g : HttpParseEvent → HttpParseEvent) (w : bool) (l : list HttpParseEvent) :
  (∀ w ev, flow_step w (g ev) = flow_step w ev) → run_flow w (map g l) = run_flow w l.
Proof.
  intros Hg. revert w; induction l as [|ev l IH]; intros w; [done|]. cbn. rewrite Hg.
  by destruct (flow_step w ev).
Qed.

Lemma flow_step_set_process (w : bool) (ev : HttpParseEvent) (q : option ProcessInfo) :
  flow_step w (set_process ev q) = flow_step w ev.
Proof. by destruct w, ev. Qed.

(** The process of a flow after a packet: the first attribution seen. *)
Definition learned (q q' : option ProcessInfo) : option ProcessInfo :=
  match q with Some _ => q | None => q' end.

Lemma drop_buffers_process (f : TcpFlow) : f_process (drop_buffers f) = f_process f.
Proof. done. Qed.

Lemma try_parse_http_process (f f' : TcpFlow) r out :
  try_parse_http f = Ret (r, f', out) → f_process f' = f_process f.
Proof.
  unfold try_parse_http, set_flow_bufs. intros H.
  destruct (client_side f); [by simplify_eq|..];
    destruct (parse _ _ _) as [[[[x p] b] o]| |]; cbn [res_bind] in H; try done;
    destruct x; by simplify_eq.
Qed.

Lemma flow_append_process (f : TcpFlow) (p : ParsedPacket) :
  f_process (flow_append f p) = f_process f.
Proof. unfold flow_append. destruct (append_payload _ _ _). by destruct (direction p). Qed.

Lemma resync_on_process (f f' : TcpFlow) (p : ParsedPacket) r out :
  resync_on f p = Ret (r, f', out) → f_process f' = f_process f.
Proof.
  unfold resync_on. intros H.
  destruct (try_parse_http _) as [[[b f1] o]| |] eqn:Et; cbn [res_bind] in H; try done.
  simplify_eq. apply try_parse_http_process in Et. by rewrite Et, flow_append_process.
Qed.

Lemma finish_pending_process (f : TcpFlow) :
  f_process (finish_pending_response f).1 = f_process f.
Proof.
  unfold finish_pending_response, set_flow_bufs.
  destruct (client_side f); [done|..]; by destruct (finish_response _ _ _) as [[? ?] ?].
Qed.

Lemma push_payload_process (f f' : TcpFlow) (p : ParsedPacket) r out :
  push_payload f p = Ret (r, f', out) → f_process f' = f_process f.
Proof.
  unfold push_payload. intros H. destruct (payload p) as [|b0 l0]; [by simplify_eq|].
  destruct (negb (synced f)).
  - destruct (looks_like_http_request _); [|by simplify_eq]. by apply resync_on_process in H.
  - destruct (_ && _ && _); [by apply resync_on_process in H|].
    apply try_parse_http_process in H. by rewrite H, flow_append_process.
Qed.

Lemma push_inner_process (f f' : TcpFlow) (p : ParsedPacket) r out :
  push_inner f p = Ret (r, f', out) → f_process f' = f_process f.
Proof.
  unfold push_inner. set (f0 := set_last_ts f (timestamp_us p)). intros H.
  destruct (has_rst p).
  { pose proof (finish_pending_process (set_tcp_state f0 Closed)) as He.
    destruct (finish_pending_response _) as [f1 o]. by simplify_eq. }
  destruct (has_syn p && negb (has_ack p)); [simplify_eq; by destruct (direction p)|].
  destruct (has_syn p && has_ack p); [simplify_eq; by destruct (direction p)|].
  set (f1 := if has_fin p then _ else f0) in H.
  set (f2 := if _ && _ then set_tcp_state f1 Established else f1) in H.
  assert (P2 : f_process f2 = f_process f)
    by (unfold f2, f1; destruct (_ && _), (has_fin p); done).
  destruct (_ <? _); [by simplify_eq|].
  destruct (push_payload f2 p) as [[[b f3] o]| |] eqn:Ep; cbn [res_bind] in H; try done.
  apply push_payload_process in Ep. pose proof (finish_pending_process f3) as Hf.
  destruct (finish_pending_response f3) as [f4 o4]. cbn [fst snd] in *.
  destruct (f_state f3); simplify_eq; congruence.
Qed.

(** One packet: the exchange goes on, every event is the flow's and carries the
    process the flow has learned. *)
Lemma push_emits (f f' : TcpFlow) (p : ParsedPacket) r out :
  push f p = Ret (r, f', out) →
  f_key f' = f_key f ∧ f_process f' = learned (f_process f) (process p) ∧
  (∀ w, covers w (http_parser f) → ∃ w', run_flow w out = Some w' ∧ covers w' (http_parser f')) ∧
  Forall (λ ev, event_flow ev = Some (f_key f) ∧ event_process ev = f_process f') out.
Proof.
  unfold push. set (f0 := match f_process f with None => _ | Some _ => f end). intros H.
  assert (H0 : f_key f0 = f_key f ∧ http_parser f0 = http_parser f ∧
               f_process f0 = learned (f_process f) (process p)).
  { unfold f0, learned. destruct (f_process f) eqn:E1; [done|]. by destruct (process p). }
  destruct H0 as (K0 & P0 & L0).
  destruct (push_inner f0 p) as [[[b f1] o]| |] eqn:Ep; cbn [res_bind] in H; try done.
  pose proof (push_inner_process _ _ _ _ _ Ep) as Hpr.
  apply push_inner_emits in Ep as [[He Hf] Hk]. rewrite P0 in He. rewrite K0 in Hk, Hf.
  injection H as <- <- <-. split; [done|]. split; [congruence|].
  destruct (f_process f1) as [pr|] eqn:E1; [|by split].
  split.
  - intros w Hw. rewrite run_flow_map; [by apply He|].
    intros w' ev. apply flow_step_set_process.
  - apply Forall_fmap. eapply Forall_impl; [exact Hf|]. intros ev [Hev _].
    destruct ev; try done; by split.
Qed.

(** C9: a connection's events never dangle: over any sequence of packets, from a
    new flow, no SSE event or response is emitted unless a request of the same
    flow precedes it with no response in between, and every event carries the
    flow's key. *)
Theorem flow_events_well_formed :
  ∀ (k : FlowKey) (ps : list ParsedPacket) (f' : TcpFlow) (out : list HttpParseEvent)
    (Hrun : push_all_packets (flow_new k) ps = Ret (f', out)),
    (∃ w, run_flow false out = Some w) ∧ Forall (λ ev, event_flow ev = Some k) out.
Proof.
  intros k ps f' out Hrun.
  assert (Hgen : ∀ ps f f' out w, push_all_packets f ps = Ret (f', out) →
    covers w (http_parser f) →
    (∃ w', run_flow w out = Some w') ∧ Forall (λ ev, event_flow ev = Some (f_key f)) out).
  { clear. induction ps as [|p ps IH]; intros f f' out w H Hw; cbn [push_all_packets] in H.
    { simplify_eq. split; [by exists w|constructor]. }
    destruct (push f p) as [[[b f1] o]| |] eqn:Ep; cbn [res_bind] in H; try done.
    destruct (push_all_packets f1 ps) as [[f2 o2]| |] eqn:Er; cbn [res_bind] in H; try done.
    simplify_eq. apply push_emits in Ep as (Hk & _ & He & Hf).
    destruct (He w Hw) as (w1 & R1 & C1). destruct (IH _ _ _ w1 Er C1) as [[w2 R2] F2].
    split; [exists w2; by rewrite run_flow_app, R1|]. apply Forall_app. split.
    - eapply Forall_impl; [exact Hf|]. by intros ev [? _].
    - by rewrite <- Hk. }
  by apply (Hgen ps (flow_new k) f' out false).
Qed.

(** Process attribution sticks to a connection: once a packet of a flow
    names its process, every event emitted from that packet on carries it. *)
Theorem flow_events_attributed :
  ∀ (f f' f'' : TcpFlow) (p : ParsedPacket) (ps : list ParsedPacket) (pr : ProcessInfo)
    (r : bool) (out out' : list HttpParseEvent)
    (Hq : learned (f_process f) (process p) = Some pr)
    (Hp : push f p = Ret (r, f', out)) (Hps : push_all_packets f' ps = Ret (f'', out')),
    Forall (λ ev, event_process ev = Some pr) (out ++ out').
Proof.
  intros f f' f'' p ps pr r out out' Hq Hp Hps.
  apply push_emits in Hp as (_ & Hl & _ & Hf). rewrite Hq in Hl. rewrite Hl in Hf.
  apply Forall_app. split; [eapply Forall_impl; [exact Hf|]; by intros ev [_ ?]|].
  clear Hf. revert f' out' Hl Hps. induction ps as [|p1 ps IH]; intros f1 out1 Hl H;
    cbn [push_all_packets] in H; [by simplify_eq|].
  destruct (push f1 p1) as [[[b f2] o]| |] eqn:Ep; cbn [res_bind] in H; try done.
  destruct (push_all_packets f2 ps) as [[f3 o3]| |] eqn:Er; cbn [res_bind] in H; try done.
  simplify_eq. apply push_emits in Ep as (_ & Hl2 & _ & Hf). rewrite Hl in Hl2. cbn in Hl2.
  apply Forall_app. split; [|by eapply IH].
  eapply Forall_impl; [exact Hf|]. intros ev [_ ->]. done.
Qed.
End Flow.

(** ** The flow table of a worker *)

Definition CLEANUP_INTERVAL_US : Z := 30000000.
Definition FLOW_TIMEOUT_US : Z := 120000000.

Section Worker.
Context `{FL : Flate} `{HP : HttpParse} `{HI : !HashIter FlowKey TcpFlow}.

Record FlowWorker : Type := mkWorker {
  flows : gmap FlowKey TcpFlow;
  w_metrics : counters;
  last_cleanup_by_source : gmap string Z;
}.

Definition worker_new : FlowWorker := mkWorker ∅ counters_zero ∅.

Definition flow_count (w : FlowWorker) : nat := size (flows w).

(** The keys of the source's flows that have been silent for too long. *)
Definition timed_out_keys (w : FlowWorker) (source_id : string) (now_ts : Z) : list FlowKey :=
  map fst (List.filter (λ kf, bool_decide (fk_source kf.1 = source_id)
                              && (FLOW_TIMEOUT_US <? now_ts - last_pkt_ts kf.2))
             (hash_iter (flows w))).

(** One round of the expiry loop: remove the flow, flush its pending response,
    count it. *)
Definition expire_flow (w : FlowWorker) (k : FlowKey) : FlowWorker * list HttpParseEvent :=
  let '(fl, out) :=
    match flows w !! k with
    | Some flow => (delete k (flows w), (finish_pending_response flow).2)
    | None => (flows w, [])
    end in
  (mkWorker fl (inc_counter FlowsExpired (w_metrics w)) (last_cleanup_by_source w), out).

Fixpoint expire_flows (w : FlowWorker) (keys : list FlowKey) : FlowWorker * list HttpParseEvent :=
  match keys with
  | [] => (w, [])
  | k :: ks =>
      let '(w1, out) := expire_flow w k in
      let '(w2, out') := expire_flows w1 ks in
      (w2, out ++ out')
  end.

Definition maybe_cleanup_stale_flows (w : FlowWorker) (source_id : string) (now_ts : Z)
    : FlowWorker * list HttpParseEvent :=
  let last := default 0 (last_cleanup_by_source w !! source_id) in
  if now_ts - last <? CLEANUP_INTERVAL_US then
    (mkWorker (flows w) (w_metrics w) (<[source_id := last]> (last_cleanup_by_source w)), [])
  else
    let w1 := mkWorker (flows w) (w_metrics w) (<[source_id := now_ts]> (last_cleanup_by_source w)) in
    expire_flows w1 (timed_out_keys w1 source_id now_ts).

(** The counter of each emitted event. *)
Definition event_metric (ev : HttpParseEvent) : option Metric :=
  match ev with
  | HttpRequest _ => Some HttpParseReq
  | HttpResponse _ => Some HttpParseResp
  | SseEvent _ => Some SseEventsParsed
  | Heartbeat _ _ => None
  end.
Definition count_event (c : counters) (ev : HttpParseEvent) : counters :=
  match event_metric ev with Some m => inc_counter m c | None => c end.

Definition add_if_positive (m : Metric) (v : Z) (c : counters) : counters :=
  if 0 <? v then add_counter m v c else c.

Definition process_packet (w : FlowWorker) (p : ParsedPacket)
    : res (FlowWorker * list HttpParseEvent) :=
  let c0 := inc_counter NetPacketsParsed (w_metrics w) in
  let k := flow_key p in
  let flow := default (flow_new k) (flows w !! k) in
  let* (resync, flow1, out) := push flow p in
  let c1 := if resync then inc_counter HttpResyncEvents c0 else c0 in
  let '(st, flow2) := take_append_stats flow1 in
  let c2 := add_if_positive TcpOutOfOrderDrops (ooo_drops st) c1 in
  let c3 := add_if_positive TcpOutOfOrderBuffered (ooo_buffered st) c2 in
  let c4 := add_if_positive TcpRetransmissionsIgnored (rexmit_ignored st) c3 in
  let c5 := fold_left count_event out c4 in
  let fl := if is_closed flow2 then delete k (flows w) else <[k := flow2]> (flows w) in
  let '(w', out') := maybe_cleanup_stale_flows
    (mkWorker fl c5 (last_cleanup_by_source w)) (fk_source k) (timestamp_us p) in
  Ret (w', out ++ out').

Definition process_heartbeat (w : FlowWorker) (wall_ts_us : Z) (source_id : string)
    : FlowWorker * list HttpParseEvent :=
  let w0 := mkWorker (flows w) (inc_counter FlowHeartbeatsReceived (w_metrics w))
              (last_cleanup_by_source w) in
  let '(w1, out) := maybe_cleanup_stale_flows w0 source_id wall_ts_us in
  (w1, out ++ [Heartbeat wall_ts_us source_id]).

(** [FlowWorker::process]. *)
Definition worker_process (w : FlowWorker) (input : WorkerInput)
    : res (FlowWorker * list HttpParseEvent) :=
  match input with
  | InPacket p => process_packet w p
  | InHeartbeat ts source_id => Ret (process_heartbeat w ts source_id)
  end.

(** ** Clean-up *)

Lemma expire_flow_fields (w : FlowWorker) (k : FlowKey) :
  flows (expire_flow w k).1 = delete k (flows w) ∧
  w_metrics (expire_flow w k).1 = inc_counter FlowsExpired (w_metrics w) ∧
  last_cleanup_by_source (expire_flow w k).1 = last_cleanup_by_source w.
Proof.
  unfold expire_flow. destruct (flows w !! k) eqn:E; cbn; [done|].
  split; [by rewrite delete_id|done].
Qed.

Lemma expire_flows_cons (w : FlowWorker) (k : FlowKey) (ks : list FlowKey) :
  expire_flows w (k :: ks)
  = ((expire_flows (expire_flow w k).1 ks).1,
     (expire_flow w k).2 ++ (expire_flows (expire_flow w k).1 ks).2).
Proof. cbn [expire_flows]. destruct (expire_flow w k) as [w1 o1]. cbn [fst snd]. by destruct (expire_flows w1 ks). Qed.

Lemma expire_flows_lookup (w : FlowWorker) (keys : list FlowKey) (k : FlowKey) :
  flows (expire_flows w keys).1 !! k = if decide (k ∈ keys) then None else flows w !! k.
Proof.
  revert w; induction keys as [|k0 ks IH]; intros w; [done|].
  destruct (expire_flow_fields w k0) as (Hf & _).
  rewrite expire_flows_cons. cbn [fst]. rewrite IH, Hf.
  destruct (decide (k = k0)) as [->|Hne].
  - rewrite lookup_delete_eq. destruct (decide (k0 ∈ k0 :: ks)) as [|Hn]; [by destruct (decide _)|].
    exfalso. apply Hn. by left.
  - rewrite lookup_delete_ne by done.
    destruct (decide (k ∈ ks)), (decide (k ∈ k0 :: ks)) as [|Hn]; try done; exfalso.
    + apply Hn. by right.
    + set_solver.
Qed.

Lemma expire_flows_cleanup (w : FlowWorker) (keys : list FlowKey) :
  last_cleanup_by_source (expire_flows w keys).1 = last_cleanup_by_source w.
Proof.
  revert w; induction keys as [|k0 ks IH]; intros w; [done|].
  destruct (expire_flow_fields w k0) as (_ & _ & Hc).
  rewrite expire_flows_cons. cbn [fst]. by rewrite IH.
Qed.

(** The events of an expiry are the flushed responses of the expired flows. *)
Lemma expire_flows_events (w : FlowWorker) (keys : list FlowKey) :
  (∀ k f, flows w !! k = Some f → f_key f = k) →
  Forall (λ ev, ∃ k, k ∈ keys ∧ event_flow ev = Some k) (expire_flows w keys).2.
Proof.
  revert w; induction keys as [|k0 ks IH]; intros w Hk; [constructor|].
  destruct (expire_flow_fields w k0) as (Hf & _).
  rewrite expire_flows_cons. apply Forall_app. split.
  - unfold expire_flow. destruct (flows w !! k0) as [f|] eqn:E; [|constructor]. cbn [snd].
    pose proof (finish_pending_emits f) as [[_ He] _].
    eapply Forall_impl; [exact He|]. intros ev [Hev _]. exists k0.
    split; [by left|]. by rewrite Hev, (Hk _ _ E).
  - eapply Forall_impl; [apply IH|].
    + intros k f Hl. rewrite Hf in Hl. apply lookup_delete_Some in Hl as [_ Hl]. by apply Hk.
    + intros ev (k & ? & ?). exists k. split; [by right|done].
Qed.

Section WorkerLaws.
Context `{HL : !HttpParseLaws HP} `{HIL : !HashIterLaws FlowKey TcpFlow HI}.

Lemma elem_of_timed_out (w : FlowWorker) (s : string) (now : Z) (k : FlowKey) :
  k ∈ timed_out_keys w s now ↔
  ∃ f, flows w !! k = Some f ∧ fk_source k = s ∧ FLOW_TIMEOUT_US < now - last_pkt_ts f.
Proof.
  unfold timed_out_keys. rewrite list_elem_of_In, in_map_iff. split.
  - intros ([k' f] & <- & Hin). apply filter_In in Hin as [Hin Hc]. cbn [fst snd] in *.
    apply list_elem_of_In, elem_of_hash_iter in Hin. zify_bool. by exists f.
  - intros (f & Hl & Hs & Ht). exists (k, f). split; [done|]. apply filter_In. split.
    + by apply list_elem_of_In, elem_of_hash_iter.
    + cbn [fst snd]. apply andb_true_iff. split; [by apply bool_decide_eq_true|]. by apply Z.ltb_lt.
Qed.

(** The flows a clean-up leaves. *)
Lemma cleanup_lookup (w : FlowWorker) (s : string) (now : Z) (k : FlowKey) :
  flows (maybe_cleanup_stale_flows w s now).1 !! k
  = match flows w !! k with
    | Some f => if bool_decide (fk_source k = s)
                   && (CLEANUP_INTERVAL_US <=? now - default 0 (last_cleanup_by_source w !! s))
                   && (FLOW_TIMEOUT_US <? now - last_pkt_ts f)
                then None else Some f
    | None => None
    end.
Proof.
  unfold maybe_cleanup_stale_flows.
  destruct (Z.ltb_spec (now - default 0 (last_cleanup_by_source w !! s)) CLEANUP_INTERVAL_US).
  - cbn [fst flows]. destruct (flows w !! k); [|done].
    destruct (Z.leb_spec CLEANUP_INTERVAL_US (now - default 0 (last_cleanup_by_source w !! s))); [lia|].
    by rewrite andb_false_r.
  - rewrite expire_flows_lookup. cbn [flows].
    set (w1 := mkWorker (flows w) _ _). destruct (flows w !! k) as [f|] eqn:E.
    + destruct (Z.leb_spec CLEANUP_INTERVAL_US (now - default 0 (last_cleanup_by_source w !! s))); [|lia].
      rewrite andb_true_r. destruct (decide (k ∈ timed_out_keys w1 s now)) as [Hin|Hin].
      * apply elem_of_timed_out in Hin as (f' & Hl & Hs & Ht). cbn [flows w1] in Hl. simplify_eq.
        rewrite bool_decide_true by done. by destruct (Z.ltb_spec FLOW_TIMEOUT_US (now - last_pkt_ts f)); [|lia].
      * destruct (_ && _) eqn:Eb; [|done]. exfalso. apply Hin. apply elem_of_timed_out.
        zify_bool. by exists f.
    + by destruct (decide _).
Qed.

(** ** The invariant of a worker *)

Definition worker_ok (w : FlowWorker) : Prop :=
  ∀ k f, flows w !! k = Some f →
    flow_ok f ∧ f_key f = k ∧ f_state f ≠ Closed ∧ f_stats f = stats_zero.

Lemma cleanup_ok (w : FlowWorker) (s : string) (now : Z) :
  worker_ok w → worker_ok (maybe_cleanup_stale_flows w s now).1.
Proof.
  intros Hw k f Hl. rewrite cleanup_lookup in Hl.
  destruct (flows w !! k) as [f'|] eqn:E; [|done]. destruct (_ && _ && _); [done|].
  simplify_eq. by apply Hw.
Qed.

(** The flow table after a packet, before the clean-up. *)
Definition after_packet (w : FlowWorker) (k : FlowKey) (f : TcpFlow) : gmap FlowKey TcpFlow :=
  if is_closed f then delete k (flows w) else <[k := set_stats f stats_zero]> (flows w).

Lemma process_packet_Ret (w w' : FlowWorker) (p : ParsedPacket) out :
  process_packet w p = Ret (w', out) →
  ∃ r f' o c,
    push (default (flow_new (flow_key p)) (flows w !! flow_key p)) p = Ret (r, f', o) ∧
    w' = (maybe_cleanup_stale_flows
            (mkWorker (after_packet w (flow_key p) f') c (last_cleanup_by_source w))
            (fk_source (flow_key p)) (timestamp_us p)).1 ∧
    out = o ++ (maybe_cleanup_stale_flows
            (mkWorker (after_packet w (flow_key p) f') c (last_cleanup_by_source w))
            (fk_source (flow_key p)) (timestamp_us p)).2.
Proof.
  unfold process_packet, take_append_stats. intros H.
  destruct (push _ p) as [[[r f'] o]| |]; cbn [res_bind] in H; try done.
  set (c := fold_left count_event o _) in H.
  change (if is_closed (set_stats f' stats_zero) then delete (flow_key p) (flows w)
          else <[flow_key p := set_stats f' stats_zero]> (flows w))
    with (after_packet w (flow_key p) f') in H.
  exists r, f', o, c. split; [done|].
  destruct (maybe_cleanup_stale_flows _ _ _) as [w1 o1]. by simplify_eq.
Qed.

Lemma entry_flow_ok (w : FlowWorker) (k : FlowKey) :
  worker_ok w → flow_ok (default (flow_new k) (flows w !! k)) ∧
                f_key (default (flow_new k) (flows w !! k)) = k.
Proof.
  intros Hw. destruct (flows w !! k) as [f|] eqn:E; cbn.
  - by destruct (Hw k f E) as (? & ? & _).
  - split; [apply flow_new_ok|done].
Qed.

Lemma after_packet_ok (w : FlowWorker) (k : FlowKey) (f : TcpFlow) c l :
  worker_ok w → flow_ok f → f_key f = k → worker_ok (mkWorker (after_packet w k f) c l).
Proof.
  intros Hw Hf Hk k' f' Hl. cbn [flows] in Hl. unfold after_packet, is_closed in Hl.
  case_bool_decide as Hc.
  - apply lookup_delete_Some in Hl as [_ Hl]. by apply Hw.
  - apply lookup_insert_Some in Hl as [[<- <-]|[_ Hl]]; [|by apply Hw].
    split; [|by split]. destruct Hf as (? & ? & ? & ? & ? & ?). unfold flow_ok. by split_and!.
Qed.

(** The flow table stays consistent: a worker either unwinds on a packet or
    returns, and then every flow of its table is stored under its own key, is
    well formed, is not closed, and has handed over its counters. *)
Theorem worker_process_ok :
  ∀ (w : FlowWorker) (input : WorkerInput) (Hw : worker_ok w),
    worker_process w input = Panic ∨
    ∃ w' out, worker_process w input = Ret (w', out) ∧ worker_ok w'.
Proof.
  intros w [p|ts s] Hw; cbn [worker_process].
  - destruct (entry_flow_ok w (flow_key p) Hw) as [Hf Hk].
    destruct (push_returns _ p Hf) as [Hp|(r & f' & o & Hp & Hf' & Hk' & _)].
    { left. unfold process_packet. by rewrite Hp. }
    destruct (process_packet w p) as [[w' out]| |] eqn:Epp.
    + right. exists w', out. split; [done|].
      apply process_packet_Ret in Epp as (r2 & f2 & o2 & c & Hp2 & -> & _).
      rewrite Hp in Hp2. injection Hp2 as <- <- <-.
      apply cleanup_ok. apply after_packet_ok; [done|done|congruence].
    + by left.
    + exfalso. revert Epp. unfold process_packet. rewrite Hp. cbn [res_bind].
      destruct (take_append_stats f'). by destruct (maybe_cleanup_stale_flows _ _ _).
  - right. unfold process_heartbeat.
    pose proof (cleanup_ok (mkWorker (flows w) (inc_counter FlowHeartbeatsReceived (w_metrics w))
      (last_cleanup_by_source w)) s ts Hw) as Hc.
    destruct (maybe_cleanup_stale_flows _ _ _) as [w1 out]. eauto.
Qed.

(** The source of an input, and of an event. *)
Definition input_source (i : WorkerInput) : string :=
  match i with InPacket p => fk_source (flow_key p) | InHeartbeat _ s => s end.
Definition event_source (ev : HttpParseEvent) : option string :=
  match ev with Heartbeat _ s => Some s | _ => fk_source <$> event_flow ev end.

Lemma cleanup_events (w : FlowWorker) (s : string) (now : Z) :
  worker_ok w →
  Forall (λ ev, event_source ev = Some s) (maybe_cleanup_stale_flows w s now).2.
Proof.
  intros Hw. unfold maybe_cleanup_stale_flows. destruct (_ <? _); [constructor|].
  set (w1 := mkWorker _ _ _). eapply Forall_impl; [apply expire_flows_events|].
  - intros k f Hl. by destruct (Hw k f Hl) as (_ & ? & _).
  - intros ev (k & Hin & He). apply elem_of_timed_out in Hin as (_ & _ & Hs & _).
    destruct ev; cbn in *; try done; injection He as ->; cbn; by rewrite Hs.
Qed.

(** Sources do not interfere: an input of one source leaves the flows and
    the clean-up clock of every other source as they were, and emits only events
    of its own source, however the sources' clocks differ. *)
Theorem worker_source_isolation :
  ∀ (w w' : FlowWorker) (input : WorkerInput) (out : list HttpParseEvent)
    (Hw : worker_ok w) (Hrun : worker_process w input = Ret (w', out)),
    (∀ k, fk_source k ≠ input_source input → flows w' !! k = flows w !! k) ∧
    (∀ s, s ≠ input_source input →
       last_cleanup_by_source w' !! s = last_cleanup_by_source w !! s) ∧
    Forall (λ ev, event_source ev = Some (input_source input)) out.
Proof.
  assert (Hcl : ∀ w s now s', s' ≠ s →
    last_cleanup_by_source (maybe_cleanup_stale_flows w s now).1 !! s'
    = last_cleanup_by_source w !! s').
  { intros w s now s' Hne. unfold maybe_cleanup_stale_flows. destruct (_ <? _); cbn [fst].
    - cbn [last_cleanup_by_source]. by rewrite lookup_insert_ne.
    - rewrite expire_flows_cleanup. cbn [last_cleanup_by_source]. by rewrite lookup_insert_ne. }
  assert (Hfl : ∀ w s now k, fk_source k ≠ s →
    flows (maybe_cleanup_stale_flows w s now).1 !! k = flows w !! k).
  { intros w s now k Hne. rewrite cleanup_lookup. rewrite bool_decide_false by done.
    by destruct (flows w !! k). }
  intros w w' input out Hw Hrun. destruct input as [p|ts s]; cbn [worker_process input_source] in *.
  - apply process_packet_Ret in Hrun as (r & f' & o & c & Hp & -> & ->).
    destruct (entry_flow_ok w (flow_key p) Hw) as [Hf Hk].
    pose proof (push_emits _ _ _ _ _ Hp) as (Hk' & _ & _ & Hev).
    assert (Hok' : flow_ok f').
    { destruct (push_returns _ p Hf) as [Hp'|(? & ? & ? & Hp' & ? & _)]; rewrite Hp in Hp'; by simplify_eq. }
    split; [|split].
    + intros k Hne. rewrite Hfl by done. cbn [flows]. unfold after_packet.
      assert (flow_key p ≠ k) by congruence.
      destruct (is_closed f'); [by rewrite lookup_delete_ne|by rewrite lookup_insert_ne].
    + intros s Hne. by rewrite Hcl.
    + apply Forall_app. split.
      * eapply Forall_impl; [exact Hev|]. intros ev [He _]. rewrite Hk in He.
        destruct ev; cbn in *; try done; by injection He as ->.
      * apply cleanup_events. apply after_packet_ok; [done|done|congruence].
  - unfold process_heartbeat in Hrun.
    set (w0 := mkWorker _ _ _) in Hrun.
    pose proof (cleanup_events w0 s ts Hw) as Hev.
    pose proof (Hcl w0 s ts) as Hcl0. pose proof (Hfl w0 s ts) as Hfl0.
    destruct (maybe_cleanup_stale_flows w0 s ts) as [w1 o1]. cbn [fst snd] in *. simplify_eq.
    split; [exact Hfl0|]. split; [exact Hcl0|]. apply Forall_app. by repeat constructor.
Qed.

(** A heartbeat sweeps exactly the silent flows: when the source's last
    sweep is an interval old, the flows that remain are those of other sources
    and those with a packet in the last [FLOW_TIMEOUT_US], unchanged; earlier,
    nothing is removed; and the heartbeat is always passed on, last. *)
Theorem heartbeat_sweeps_silent_flows :
  ∀ (w : FlowWorker) (ts : Z) (s : string),
    let w' := (process_heartbeat w ts s).1 in
    (∀ k f, flows w' !! k = Some f ↔
       flows w !! k = Some f ∧
       ¬ (fk_source k = s ∧
          CLEANUP_INTERVAL_US <= ts - default 0 (last_cleanup_by_source w !! s) ∧
          FLOW_TIMEOUT_US < ts - last_pkt_ts f)) ∧
    last (process_heartbeat w ts s).2 = Some (Heartbeat ts s).
Proof.
  intros w ts s. unfold process_heartbeat. set (w0 := mkWorker _ _ _).
  pose proof (cleanup_lookup w0 s ts) as Hl.
  destruct (maybe_cleanup_stale_flows w0 s ts) as [w1 o1]. cbn [fst snd] in *.
  split; [|by rewrite last_snoc]. intros k f. rewrite Hl. cbn [flows last_cleanup_by_source w0].
  destruct (flows w !! k) as [f'|] eqn:E; [|by split; [|intros [? _]]].
  destruct (_ && _ && _) eqn:Eb.
  - zify_bool. split; [done|]. intros [[= ->] Hn]. exfalso. apply Hn. by split.
  - split.
    + intros [= ->]. split; [done|]. intros (Hs & Hi & Ht).
      rewrite bool_decide_true in Eb by done.
      destruct (Z.leb_spec CLEANUP_INTERVAL_US (ts - default 0 (last_cleanup_by_source w !! s))); [|lia].
      destruct (Z.ltb_spec FLOW_TIMEOUT_US (ts - last_pkt_ts f)); [done|lia].
    + by intros [[= ->] _].
Qed.
End WorkerLaws.
End Worker.

(** ** Witnesses *)

Definition sample_key : FlowKey := mkFlowKey "tap" (V4 1, 40000) (V4 2, 80).
Definition sample_process : ProcessInfo := mkProcess 42 "curl" None.

(** A data packet of the sample connection. *)
Definition sample_packet (d : Direction) (seq : Z) (data : list byte) (ts : Z)
    (pr : option ProcessInfo) : ParsedPacket :=
  let '(src, dst) := match d with
                     | AtoB => ((V4 1, 40000), (V4 2, 80))
                     | BtoA => ((V4 2, 80), (V4 1, 40000))
                     end in
  mkParsed sample_key d (fst src) (snd src) (fst dst) (snd dst) 24 seq 1 data (zlen data) ts pr.

Definition sample_request_packet : ParsedPacket :=
  sample_packet AtoB 1 sample_get 1000 (Some sample_process).
Definition sample_response_packet : ParsedPacket :=
  sample_packet BtoA 1 (sample_ok ++ B "hello") 2000 None.

#[local] Existing Instance flate_store.
#[local] Instance sample_iter : HashIter FlowKey TcpFlow := hash_iter_std FlowKey TcpFlow.
#[local] Instance sample_iter_laws : HashIterLaws FlowKey TcpFlow sample_iter :=
  hash_iter_std_laws FlowKey TcpFlow.

Lemma push_keeps_flow_ok_witness :
  push (flow_new sample_key) sample_request_packet = Panic ∨
  ∃ b f' out, push (flow_new sample_key) sample_request_packet = Ret (b, f', out) ∧
    flow_ok f' ∧ f_key f' = sample_key ∧ last_pkt_ts f' = 1000.
Proof.
  apply (push_keeps_flow_ok (flow_new sample_key) sample_request_packet).
  apply flow_new_ok.
Defined.

(** The events of a run, for evaluation. *)
Definition events_of {A : Type} (r : res (A * list HttpParseEvent)) : list HttpParseEvent :=
  match r with Ret (_, out) => out | _ => [] end.

Lemma flow_events_well_formed_witness :
  length (events_of (push_all_packets (flow_new sample_key)
    [sample_request_packet; sample_response_packet])) = 2%nat ∧
  ∃ w, run_flow false (events_of (push_all_packets (flow_new sample_key)
    [sample_request_packet; sample_response_packet])) = Some w.
Proof.
  split; [vm_compute; reflexivity|].
  destruct (push_all_packets (flow_new sample_key)
    [sample_request_packet; sample_response_packet]) as [[f' out]| |] eqn:E;
    [|exists false; reflexivity|exists false; reflexivity].
  exact (proj1 (flow_events_well_formed sample_key
    [sample_request_packet; sample_response_packet] f' out E)).
Defined.

Lemma flow_events_attributed_witness :
  ∃ r f' f'' out out',
    push (flow_new sample_key) sample_request_packet = Ret (r, f', out) ∧
    push_all_packets f' [sample_response_packet] = Ret (f'', out') ∧
    length (out ++ out') = 2%nat ∧
    Forall (λ ev, event_process ev = Some sample_process) (out ++ out').
Proof.
  destruct (push (flow_new sample_key) sample_request_packet) as [[[r f'] out]| |] eqn:E1;
    [|vm_compute in E1; discriminate|vm_compute in E1; discriminate].
  destruct (push_all_packets f' [sample_response_packet]) as [[f'' out']| |] eqn:E2.
  - exists r, f', f'', out, out'. split; [reflexivity|]. split; [exact E2|]. split.
    + vm_compute in E1. injection E1 as <- <- <-. vm_compute in E2. injection E2 as <- <-. reflexivity.
    + exact (flow_events_attributed (flow_new sample_key) f' f'' sample_request_packet
        [sample_response_packet] sample_process r out out' eq_refl E1 E2).
  - exfalso. vm_compute in E1. injection E1 as <- <- <-. vm_compute in E2. discriminate.
  - exfalso. vm_compute in E1. injection E1 as <- <- <-. vm_compute in E2. discriminate.
Defined.

Lemma worker_new_ok : worker_ok worker_new.
Proof. intros k f Hl. cbn in Hl. by rewrite lookup_empty in Hl. Qed.

Lemma worker_process_ok_witness :
  worker_process worker_new (InPacket sample_request_packet) = Panic ∨
  ∃ w' out, worker_process worker_new (InPacket sample_request_packet) = Ret (w', out) ∧
    worker_ok w'.
Proof.
  apply (worker_process_ok worker_new (InPacket sample_request_packet)).
  apply worker_new_ok.
Defined.

Lemma worker_source_isolation_witness :
  ∃ w' out, worker_process worker_new (InHeartbeat 5 "tap") = Ret (w', out) ∧
    Forall (λ ev, event_source ev = Some "tap"%string) out.
Proof.
  destruct (worker_process worker_new (InHeartbeat 5 "tap")) as [[w' out]| |] eqn:E;
    [|discriminate E|discriminate E].
  exists w', out. split; [reflexivity|].
  exact (proj2 (proj2 (worker_source_isolation worker_new w' (InHeartbeat 5 "tap") out
    worker_new_ok E))).
Defined.

(** A worker with one silent flow. *)
Definition sample_worker : FlowWorker :=
  mkWorker {[ sample_key := flow_new sample_key ]} counters_zero ∅.

Lemma heartbeat_sweeps_silent_flows_witness :
  flows (process_heartbeat sample_worker 150000000 "tap").1 !! sample_key = None.
Proof.
  pose proof (proj1 (heartbeat_sweeps_silent_flows sample_worker 150000000 "tap") sample_key) as H.
  destruct (flows (process_heartbeat sample_worker 150000000 "tap").1 !! sample_key) as [f|];
    [|reflexivity].
  exfalso. destruct (proj1 (H f) eq_refl) as [Hl Hn]. apply Hn.
  vm_compute in Hl. injection Hl as <-. split; [reflexivity|]. split; vm_compute; [discriminate|reflexivity].
Defined.

(** The response flushed when a flow expires is not stamped with the flow's
    process: only [push] stamps. *)
Lemma expired_response_not_attributed :
  let head := sample_head ["HTTP/1.1 200 OK"]%string in
  let pkts := [sample_request_packet; sample_packet BtoA 1 (head ++ B "hel") 2000 None] in
  let run := push_all_packets (flow_new sample_key) pkts in
  match run with
  | Ret (f, _) =>
      f_process f = Some sample_process ∧
      map event_process (expire_flow (mkWorker {[ sample_key := f ]} counters_zero ∅) sample_key).2
      = [None]
  | _ => False
  end.
Proof. vm_compute. split; reflexivity. Qed.
