(* ===== verification/Dispatch.v ===== *)
(** * Routing packets to workers (h-protocol/src/flow.rs, h-capture/src/routing.rs)

    A capture source hands each raw packet to a dispatcher chosen by its source
    id ([RoutingSender]); the dispatcher decodes it and hands it to the worker
    chosen by its flow key, and hands heartbeats to every worker.

    Rust's default hasher is a parameter: any function of the hashed value.  A
    channel is what the sender can observe of it: whether its receiver is alive,
    and whether it is full. *)

From Stdlib Require Import Strings.Byte ZArith Lia.
From stdpp Require Import base gmap sets list strings.
From S2P Require Import Prelude.
From S2P Require Import Net.
From S2P Require Import Decode.
From S2P Require Import Synth.
From S2P Require Import Counters.
From S2P Require Import TcpFlow.

Open Scope Z_scope.

(** [DefaultHasher]: 64-bit hashes of flow keys and source ids. *)
Class Hasher : Type := {
  shard_hash : FlowKey → Z;
  source_hash : string → Z;
}.

(** A channel to a worker: its receiver is alive, its buffer is full. *)
Record Channel : Type := mkChannel { ch_open : bool; ch_full : bool }.

(** [send(..).await.is_ok()] and [try_send(..).is_ok()]. *)
Definition send_ok (c : Channel) : bool := ch_open c.
Definition try_send_ok (c : Channel) : bool := ch_open c && negb (ch_full c).

Definition with_process (p : ParsedPacket) (pr : option ProcessInfo) : ParsedPacket :=
  mkParsed (flow_key p) (direction p) (src_ip p) (src_port p) (dst_ip p) (dst_port p)
    (tcp_flags p) (tcp_seq p) (tcp_ack p) (payload p) (wire_payload_len p) (timestamp_us p) pr.

Section Dispatch.
Context `{HA : Hasher}.

(** What a dispatch does: the messages it delivers, with the worker each goes
    to, the counters, and whether the dispatcher goes on. *)
Record Dispatched : Type := mkDispatched {
  d_sent : list (nat * WorkerInput);
  d_metrics : counters;
  d_continue : bool;
}.

(** [hash(key) as usize % worker_txs.len()]. *)
Definition worker_index (n : nat) (k : FlowKey) : nat :=
  Z.to_nat (wrap 64 (shard_hash k) `mod` Z.of_nat n).

(** The loop of [broadcast_heartbeat] over the workers from [i] on. *)
Fixpoint broadcast_heartbeat (txs : list Channel) (i : nat) (ts : Z) (source_id : string)
    (c : counters) : list (nat * WorkerInput) * counters :=
  match txs with
  | [] => ([], c)
  | tx :: txs' =>
      if try_send_ok tx then
        let '(sent, c') := broadcast_heartbeat txs' (S i) ts source_id c in
        ((i, InHeartbeat ts source_id) :: sent, c')
      else broadcast_heartbeat txs' (S i) ts source_id (inc_counter FlowHeartbeatsDropped c)
  end.

Definition dispatch_packet (txs : list Channel) (raw : RawPacket) (c : counters)
    : res Dispatched :=
  match decode (raw_data raw) (raw_link_type raw) (raw_ts raw) (raw_source raw) with
  | DOk p =>
      let parsed := with_process p (raw_process raw) in
      let c' := inc_counter DispatcherPacketsRouted c in
      let worker_idx := worker_index (length txs) (flow_key parsed) in
      match txs !! worker_idx with
      | Some tx =>
          Ret (mkDispatched (if send_ok tx then [(worker_idx, InPacket parsed)] else [])
                 c' (send_ok tx))
      | None => Panic
      end
  | DErr NotIp | DErr NotSupported =>
      Ret (mkDispatched [] (inc_counter NetParseDroppedNotIp c) true)
  | DErr NotTcp => Ret (mkDispatched [] (inc_counter NetParseDroppedNotTcp c) true)
  | DErr Truncated | DErr InvalidHeader =>
      Ret (mkDispatched [] (inc_counter NetParseDroppedMalformed c) true)
  | DFuel => OutOfFuel
  end.

Definition dispatch (txs : list Channel) (raw : RawPacket) (c : counters) : res Dispatched :=
  if is_heartbeat raw then
    let '(sent, c') := broadcast_heartbeat txs 0 (raw_ts raw) (raw_source raw) c in
    Ret (mkDispatched sent c' true)
  else dispatch_packet txs raw c.

(** [RoutingSender::index]: the dispatcher of a source. *)
Definition routing_index (n : nat) (source_id : string) : nat :=
  if (n =? 1)%nat then 0%nat
  else Z.to_nat (wrap 64 (source_hash source_id) `mod` Z.of_nat n).

(** [RoutingSender::send]: [None] when the chosen channel is closed. *)
Definition routing_send (txs : list Channel) (raw : RawPacket) : res (option nat) :=
  let i := routing_index (length txs) (raw_source raw) in
  match txs !! i with
  | Some tx => Ret (if send_ok tx then Some i else None)
  | None => Panic
  end.

Lemma worker_index_lt (n : nat) (k : FlowKey) : (0 < n)%nat → (worker_index n k < n)%nat.
Proof.
  intros Hn. unfold worker_index.
  pose proof (Z.mod_pos_bound (wrap 64 (shard_hash k)) (Z.of_nat n) ltac:(lia)). lia.
Qed.

(** The counter a raw packet is accounted under. *)
Definition packet_metric (raw : RawPacket) : Metric :=
  match decode (raw_data raw) (raw_link_type raw) (raw_ts raw) (raw_source raw) with
  | DOk _ => DispatcherPacketsRouted
  | DErr NotIp | DErr NotSupported => NetParseDroppedNotIp
  | DErr NotTcp => NetParseDroppedNotTcp
  | _ => NetParseDroppedMalformed
  end.

(** Every packet is accounted for: with at least one worker the dispatcher
    never panics, counts each packet under exactly one of routed, not-IP,
    not-TCP and malformed, hands a decoded packet, with its source's process
    attribution, to at most one worker, of an index in range, and goes on unless
    that worker is gone. *)
Theorem dispatch_accounts_every_packet :
  ∀ (txs : list Channel) (raw : RawPacket) (c : counters)
    (Htx : txs ≠ []) (Hraw : is_heartbeat raw = false),
    ∃ d, dispatch txs raw c = Ret d ∧
      d_metrics d = inc_counter (packet_metric raw) c ∧
      ((d_sent d = [] ∧
        (d_continue d = false → packet_metric raw = DispatcherPacketsRouted)) ∨
       ∃ p i, decode (raw_data raw) (raw_link_type raw) (raw_ts raw) (raw_source raw) = DOk p ∧
         (i < length txs)%nat ∧ d_continue d = true ∧
         d_sent d = [(i, InPacket (with_process p (raw_process raw)))]).
Proof.
  intros txs raw c Htx Hraw. unfold dispatch, dispatch_packet, packet_metric. rewrite Hraw.
  pose proof (decode_no_fuel (raw_data raw) (raw_link_type raw) (raw_ts raw) (raw_source raw)) as Hnf.
  destruct (decode _ _ _ _) as [p|e|]; [| |done].
  - destruct (lookup_lt_is_Some_2 txs (worker_index (length txs) (flow_key (with_process p (raw_process raw)))))
      as [tx Hx]; [apply worker_index_lt; destruct txs; [done|simpl; lia]|].
    rewrite Hx. eexists. split; [done|]. split; [done|]. cbn [d_sent d_continue].
    destruct (send_ok tx); [right|left; done].
    exists p, (worker_index (length txs) (flow_key (with_process p (raw_process raw)))).
    split; [done|]. split; [by apply lookup_lt_Some in Hx|done].
  - destruct e; eexists; (split; [done|]); (split; [done|]); left; done.
Qed.

(** Both directions of a connection meet at one worker: two packets of the
    same source whose endpoints are the same two, in either order, are sent to
    the same worker, whatever the hash. *)
Theorem dispatch_flow_affinity :
  ∀ (txs : list Channel) (raw1 raw2 : RawPacket) (c1 c2 : counters) (d1 d2 : Dispatched)
    (p1 p2 : ParsedPacket) (i1 i2 : nat) (m1 m2 : WorkerInput)
    (Hp1 : decode (raw_data raw1) (raw_link_type raw1) (raw_ts raw1) (raw_source raw1) = DOk p1)
    (Hp2 : decode (raw_data raw2) (raw_link_type raw2) (raw_ts raw2) (raw_source raw2) = DOk p2)
    (Hb : is_heartbeat raw1 = false ∧ is_heartbeat raw2 = false)
    (Hs : raw_source raw1 = raw_source raw2)
    (He : ((src_ip p1, src_port p1) = (src_ip p2, src_port p2) ∧
           (dst_ip p1, dst_port p1) = (dst_ip p2, dst_port p2)) ∨
          ((src_ip p1, src_port p1) = (dst_ip p2, dst_port p2) ∧
           (dst_ip p1, dst_port p1) = (src_ip p2, src_port p2)))
    (Hd1 : dispatch txs raw1 c1 = Ret d1) (Hd2 : dispatch txs raw2 c2 = Ret d2)
    (Hm1 : (i1, m1) ∈ d_sent d1) (Hm2 : (i2, m2) ∈ d_sent d2),
    i1 = i2.
Proof.
  intros txs raw1 raw2 c1 c2 d1 d2 p1 p2 i1 i2 m1 m2 Hp1 Hp2 [Hb1 Hb2] Hs He Hd1 Hd2 Hm1 Hm2.
  assert (Hk : flow_key p1 = flow_key p2).
  { rewrite (decode_flow_key _ _ _ _ _ Hp1), (decode_flow_key _ _ _ _ _ Hp2), Hs.
    destruct He as [[[= -> ->] [= -> ->]]|[[= -> ->] [= -> ->]]]; [done|].
    apply flow_key_new_sym. }
  assert (Hone : ∀ raw c d p i m, is_heartbeat raw = false →
    decode (raw_data raw) (raw_link_type raw) (raw_ts raw) (raw_source raw) = DOk p →
    dispatch txs raw c = Ret d → (i, m) ∈ d_sent d → i = worker_index (length txs) (flow_key p)).
  { clear. intros raw c d p i m Hb Hp Hd Hm. unfold dispatch, dispatch_packet in Hd.
    rewrite Hb, Hp in Hd. destruct (txs !! _) as [tx|]; [|done]. injection Hd as <-.
    cbn [d_sent] in Hm. destruct (send_ok tx); [|by apply not_elem_of_nil in Hm].
    by apply list_elem_of_singleton in Hm as [= -> _]. }
  rewrite (Hone _ _ _ _ _ _ Hb1 Hp1 Hd1 Hm1), (Hone _ _ _ _ _ _ Hb2 Hp2 Hd2 Hm2). by rewrite Hk.
Qed.

Lemma broadcast_spec (txs : list Channel) (i : nat) (ts : Z) (s : string) (c : counters) :
  let r := broadcast_heartbeat txs i ts s c in
  (∀ j m, (j, m) ∈ r.1 ↔ m = InHeartbeat ts s ∧ (i <= j)%nat ∧
     ∃ tx, txs !! (j - i)%nat = Some tx ∧ try_send_ok tx = true) ∧
  NoDup r.1.*1 ∧ Forall (λ j, (i <= j)%nat) r.1.*1 ∧
  (length r.1 + Z.to_nat (r.2 FlowHeartbeatsDropped - c FlowHeartbeatsDropped) = length txs)%nat ∧
  c FlowHeartbeatsDropped <= r.2 FlowHeartbeatsDropped.
Proof.
  revert i c; induction txs as [|tx txs IH]; intros i c; cbn [broadcast_heartbeat].
  { cbn [fst snd]. split; [|split; [constructor|split; [constructor|simpl; lia]]].
    intros j m. split; [by intros ?%not_elem_of_nil|]. by intros (_ & _ & ? & ? & _). }
  assert (Hshift : ∀ j : nat, (i <= j)%nat → j ≠ i → (j - i)%nat = S (j - S i)) by (intros; lia).
  destruct (try_send_ok tx) eqn:Et.
  - destruct (IH (S i) c) as (H1 & H2 & H3 & H4 & H5).
    destruct (broadcast_heartbeat txs (S i) ts s c) as [sent c']. cbn [fst snd] in *.
    split; [|split; [|split; [|simpl; lia]]].
    + intros j m. rewrite elem_of_cons, H1. split.
      * intros [[= -> ->]|(-> & Hj & Hx)].
        -- split; [done|]. split; [done|]. exists tx. by rewrite Nat.sub_diag.
        -- split; [done|]. split; [lia|]. rewrite Hshift by lia. exact Hx.
      * intros (-> & Hj & Hx). destruct (decide (j = i)) as [->|Hne]; [by left|].
        right. split; [done|]. split; [lia|]. rewrite Hshift in Hx by lia. exact Hx.
    + cbn. apply NoDup_cons. split; [|done]. intros Hin.
      rewrite Forall_forall in H3. specialize (H3 _ Hin). lia.
    + cbn. constructor; [done|]. eapply Forall_impl; [exact H3|]. simpl. lia.
  - destruct (IH (S i) (inc_counter FlowHeartbeatsDropped c)) as (H1 & H2 & H3 & H4 & H5).
    destruct (broadcast_heartbeat txs (S i) ts s _) as [sent c']. cbn [fst snd] in *.
    unfold inc_counter in H4, H5. rewrite add_counter_eq in H4, H5.
    split; [|split; [done|split; [|simpl; lia]]].
    + intros j m. rewrite H1. split; intros (-> & Hj & Hx); (split; [done|]).
      * split; [lia|]. rewrite Hshift by lia. exact Hx.
      * destruct (decide (j = i)) as [->|Hne].
        { rewrite Nat.sub_diag in Hx. destruct Hx as (tx' & [= <-] & Hx). congruence. }
        split; [lia|]. rewrite Hshift in Hx by lia. exact Hx.
    + eapply Forall_impl; [exact H3|]. simpl. lia.
Qed.

(** A heartbeat reaches every worker that can take it, once each, with its
    time and source, is counted as dropped for the others, and never stops the
    dispatcher. *)
Theorem heartbeat_broadcast :
  ∀ (txs : list Channel) (raw : RawPacket) (c : counters) (Hraw : is_heartbeat raw = true),
    ∃ d, dispatch txs raw c = Ret d ∧ d_continue d = true ∧
      (∀ i m, (i, m) ∈ d_sent d ↔
         m = InHeartbeat (raw_ts raw) (raw_source raw) ∧
         ∃ tx, txs !! i = Some tx ∧ try_send_ok tx = true) ∧
      NoDup (d_sent d).*1 ∧
      zlen (d_sent d) + (d_metrics d FlowHeartbeatsDropped - c FlowHeartbeatsDropped)
        = Z.of_nat (length txs).
Proof.
  intros txs raw c Hraw. unfold dispatch. rewrite Hraw.
  destruct (broadcast_spec txs 0 (raw_ts raw) (raw_source raw) c) as (H1 & H2 & _ & H4 & H5).
  destruct (broadcast_heartbeat _ _ _ _ _) as [sent c']. cbn [fst snd] in *.
  eexists. split; [done|]. cbn [d_continue d_sent d_metrics]. split; [done|].
  split; [|split; [done|unfold zlen; lia]].
  intros i m. rewrite H1. rewrite Nat.sub_0_r. split.
  - intros (? & _ & ?). by split.
  - intros (? & ?). split; [done|]. split; [lia|done].
Qed.
End Dispatch.

(** ** Concrete runs *)

(** A hasher that separates flows by their ports. *)
#[export] Instance sample_hasher : Hasher := {|
  shard_hash k := (addr_a k).2 + 3 * (addr_b k).2;
  source_hash s := Z.of_nat (String.length s);
|}.

Definition sample_raw (reply : bool) (body : string) : RawPacket :=
  let c := (V4 2130706433, 40000) in
  let s := (V4 2130706434, 443) in
  if reply then frame (mkSynthConfig "ebpf" 0 true) s c 9 1 24 (B body) 8
  else frame (mkSynthConfig "ebpf" 0 true) c s 1 9 24 (B body) 7.

Definition sample_channels : list Channel :=
  [mkChannel true false; mkChannel true true; mkChannel false false].

Lemma dispatch_accounts_every_packet_witness :
  ∃ d, dispatch sample_channels (sample_raw false "GET / HTTP/1.1") (λ _, 0) = Ret d ∧
    d_metrics d DispatcherPacketsRouted = 1.
Proof.
  destruct (dispatch_accounts_every_packet sample_channels (sample_raw false "GET / HTTP/1.1")
    (λ _, 0)) as (d & Hd & Hm & _); [discriminate|vm_compute; reflexivity|].
  exists d. split; [exact Hd|]. rewrite Hm. vm_compute. reflexivity.
Defined.

Lemma dispatch_flow_affinity_witness :
  ∃ d1 d2 i m1 m2,
    dispatch sample_channels (sample_raw false "GET / HTTP/1.1") (λ _, 0) = Ret d1 ∧
    dispatch sample_channels (sample_raw true "HTTP/1.1 200 OK") (λ _, 0) = Ret d2 ∧
    d_sent d1 = [(i, m1)] ∧ d_sent d2 = [(i, m2)].
Proof.
  destruct (decode (raw_data (sample_raw false "GET / HTTP/1.1")) 1 7 "ebpf") as [p1|?|] eqn:E1;
    [|vm_compute in E1; discriminate E1|vm_compute in E1; discriminate E1].
  destruct (decode (raw_data (sample_raw true "HTTP/1.1 200 OK")) 1 8 "ebpf") as [p2|?|] eqn:E2;
    [|vm_compute in E2; discriminate E2|vm_compute in E2; discriminate E2].
  destruct (dispatch sample_channels (sample_raw false "GET / HTTP/1.1") (λ _, 0)) as [d1| |] eqn:D1;
    [|vm_compute in D1; discriminate D1|vm_compute in D1; discriminate D1].
  destruct (dispatch sample_channels (sample_raw true "HTTP/1.1 200 OK") (λ _, 0)) as [d2| |] eqn:D2;
    [|vm_compute in D2; discriminate D2|vm_compute in D2; discriminate D2].
  assert (Hs1 : ∃ i m, d_sent d1 = [(i, m)])
    by (vm_compute in D1; injection D1 as <-; eauto).
  assert (Hs2 : ∃ i m, d_sent d2 = [(i, m)])
    by (vm_compute in D2; injection D2 as <-; eauto).
  destruct Hs1 as (i1 & m1 & Hs1), Hs2 as (i2 & m2 & Hs2).
  assert (Hi : i1 = i2).
  { refine (dispatch_flow_affinity sample_channels (sample_raw false "GET / HTTP/1.1")
      (sample_raw true "HTTP/1.1 200 OK") (λ _, 0) (λ _, 0) d1 d2 p1 p2 i1 i2 m1 m2
      E1 E2 _ eq_refl _ D1 D2 _ _).
    - vm_compute. auto.
    - right. vm_compute in E1, E2. injection E1 as <-. injection E2 as <-. auto.
    - rewrite Hs1. apply list_elem_of_here.
    - rewrite Hs2. apply list_elem_of_here. }
  subst i2. exists d1, d2, i1, m1, m2. auto.
Defined.

Lemma heartbeat_broadcast_witness :
  ∃ d, dispatch sample_channels (raw_heartbeat 5 "ebpf") (λ _, 0) = Ret d ∧
    (0%nat, InHeartbeat 5 "ebpf") ∈ d_sent d ∧ zlen (d_sent d) = 1.
Proof.
  destruct (heartbeat_broadcast sample_channels (raw_heartbeat 5 "ebpf") (λ _, 0))
    as (d & Hd & _ & Hin & _ & Hn); [vm_compute; reflexivity|].
  exists d. split; [exact Hd|]. split.
  - apply Hin. split; [reflexivity|]. eexists. split; reflexivity.
  - vm_compute in Hd. injection Hd as <-. reflexivity.
Defined.
