(* ===== verification/Joiner.v ===== *)
(** * Pairing requests with responses (h-protocol/src/joiner.rs)

    [HttpJoiner] retains one pending request per flow, collects the server-sent
    events seen on the flow, and emits an exchange when the response arrives;
    heartbeats evict requests that have been silent for too long.

    [Uuid::now_v7] is a parameter: the [n]-th identifier drawn by the process.
    That no two draws coincide is the law of [UuidSupply].  The specification
    at the end describes, from the trace of events alone, which exchanges come
    out: the joiner's state does not appear in it. *)

From Stdlib Require Import Strings.Byte ZArith Lia.
From stdpp Require Import base gmap sets list strings.
From S2P Require Import Prelude.
From S2P Require Import Net.
From S2P Require Import Text.
From S2P Require Import Events.
From S2P Require Import Body.
From S2P Require Import Counters.

Open Scope Z_scope.

Class UuidSupply : Type := now_v7 : nat → string.
Class UuidLaws (U : UuidSupply) : Prop := now_v7_inj : Inj (=) (=) now_v7.

Definition PENDING_STALE_TIMEOUT_US : Z := 600000000.

Record HttpExchange : Type := mkExchange {
  hx_id : string;
  hx_request : HttpRequestData;
  hx_response : HttpResponseData;
  hx_sse_event_count : Z;
  hx_sse_data_bytes : Z;
}.

(** [(count, data_bytes)], at their widths. *)
Definition sse_summary (events : list SseEventData) : Z * Z :=
  (wrap 32 (zlen events),
   foldl (λ n e, wrap 64 (n + zlen (sse_data e))) 0 events).

(** The accessors of [HttpExchange]. *)
Definition hx_source_id (x : HttpExchange) : string := fk_source (req_flow_key (hx_request x)).
Definition hx_client_addr (x : HttpExchange) : sock := req_client_addr (hx_request x).
Definition hx_server_addr (x : HttpExchange) : sock := req_server_addr (hx_request x).
Definition hx_request_time_us (x : HttpExchange) : Z := req_timestamp_us (hx_request x).
Definition hx_response_first_byte_time_us (x : HttpExchange) : Z :=
  resp_first_byte_timestamp_us (hx_response x).
Definition hx_response_complete_time_us (x : HttpExchange) : Z :=
  resp_complete_timestamp_us (hx_response x).

Definition hx_is_sse (x : HttpExchange) : bool :=
  match resp_content_type (hx_response x) with
  | Some ct => starts_with (B "text/event-stream") ct
  | None => false
  end.

Definition stored_response_body (x : HttpExchange) : option (list byte) :=
  if hx_is_sse x then None else Some (resp_body (hx_response x)).

Inductive HttpJoinerEvent : Type :=
| JRequest (r : HttpRequestData)
| JExchange (id : string) (r : HttpRequestData) (resp : HttpResponseData) (sse : list SseEventData)
| JHeartbeat (ts : Z) (source_id : string).

Record Pending : Type := mkPending {
  pd_request : HttpRequestData;
  pd_sse_events : list SseEventData;
  pd_last_activity_us : Z;
}.

Section Joiner.
Context `{U : UuidSupply}.

(** [hj_drawn]: how many identifiers have been drawn. *)
Record HttpJoiner : Type := mkJoiner {
  hj_pending : gmap FlowKey Pending;
  hj_metrics : counters;
  hj_drawn : nat;
}.

Definition joiner_new : HttpJoiner := mkJoiner ∅ counters_zero 0.

Definition pending_count (j : HttpJoiner) : nat := size (hj_pending j).

Definition on_request (j : HttpJoiner) (req : HttpRequestData)
    : HttpJoiner * list HttpJoinerEvent :=
  let flow_key := req_flow_key req in
  let last_activity_us := req_timestamp_us req in
  let pending1 :=
    match hj_pending j !! flow_key with
    | Some prev =>
        let silence := last_activity_us - pd_last_activity_us prev in
        if PENDING_STALE_TIMEOUT_US <? silence then delete flow_key (hj_pending j)
        else hj_pending j
    | None => hj_pending j
    end in
  (mkJoiner (<[flow_key := mkPending req [] last_activity_us]> pending1)
     (hj_metrics j) (hj_drawn j), [JRequest req]).

Definition on_sse (j : HttpJoiner) (sse : SseEventData) : HttpJoiner :=
  match hj_pending j !! sse_flow_key sse with
  | Some p =>
      let last := if pd_last_activity_us p <? sse_timestamp_us sse
                  then sse_timestamp_us sse else pd_last_activity_us p in
      mkJoiner
        (<[sse_flow_key sse := mkPending (pd_request p) (pd_sse_events p ++ [sse]) last]>
           (hj_pending j))
        (hj_metrics j) (hj_drawn j)
  | None => j
  end.

Definition on_response (j : HttpJoiner) (resp : HttpResponseData)
    : HttpJoiner * list HttpJoinerEvent :=
  match hj_pending j !! resp_flow_key resp with
  | None =>
      (mkJoiner (hj_pending j) (inc_counter HttpJoinerUnpaired (hj_metrics j)) (hj_drawn j), [])
  | Some p =>
      (mkJoiner (delete (resp_flow_key resp) (hj_pending j))
         (inc_counter HttpJoinerDone (hj_metrics j)) (S (hj_drawn j)),
       [JExchange (now_v7 (hj_drawn j)) (pd_request p) resp (pd_sse_events p)])
  end.

(** The [retain] of [cleanup_stale]: what happens to one entry. *)
Definition retains (source_id : string) (now_us timeout_us : Z) (k : FlowKey) (p : Pending) : bool :=
  if negb (bool_decide (fk_source k = source_id)) then true
  else negb (timeout_us <? now_us - pd_last_activity_us p).

Definition cleanup_stale (j : HttpJoiner) (source_id : string) (now_us timeout_us : Z)
    : HttpJoiner * Z :=
  let before := Z.of_nat (size (hj_pending j)) in
  let pending' := filter (λ kp, retains source_id now_us timeout_us kp.1 kp.2 = true)
                    (hj_pending j) in
  let expired := before - Z.of_nat (size pending') in
  (mkJoiner pending'
     (if 0 <? expired then add_counter HttpJoinerExpired expired (hj_metrics j)
      else hj_metrics j) (hj_drawn j), expired).

Definition joiner_process (j : HttpJoiner) (event : HttpParseEvent)
    : HttpJoiner * list HttpJoinerEvent :=
  match event with
  | HttpRequest req => on_request j req
  | SseEvent sse => (on_sse j sse, [])
  | HttpResponse resp => on_response j resp
  | Heartbeat ts source_id =>
      let j1 := mkJoiner (hj_pending j) (inc_counter JoinerHeartbeatsReceived (hj_metrics j))
                  (hj_drawn j) in
      ((cleanup_stale j1 source_id ts PENDING_STALE_TIMEOUT_US).1, [JHeartbeat ts source_id])
  end.

Fixpoint process_all (j : HttpJoiner) (evs : list HttpParseEvent)
    : HttpJoiner * list HttpJoinerEvent :=
  match evs with
  | [] => (j, [])
  | ev :: evs' =>
      let '(j1, out) := joiner_process j ev in
      let '(j2, out') := process_all j1 evs' in
      (j2, out ++ out')
  end.

Lemma process_all_snoc (j : HttpJoiner) (evs : list HttpParseEvent) (ev : HttpParseEvent) :
  process_all j (evs ++ [ev])
  = ((joiner_process (process_all j evs).1 ev).1,
     (process_all j evs).2 ++ (joiner_process (process_all j evs).1 ev).2).
Proof.
  revert j; induction evs as [|e evs IH]; intros j; cbn [process_all app fst snd].
  - destruct (joiner_process j ev) as [j1 out]. cbn [fst snd app]. by rewrite app_nil_r.
  - destruct (joiner_process j e) as [j1 out]. rewrite (IH j1). cbn [fst snd].
    destruct (process_all j1 evs) as [j2 out']. cbn [fst snd]. by rewrite app_assoc.
Qed.

(** ** What a trace says about a flow

    [quiet]: no request or response of the flow; [sse_of]: its server-sent
    events; [activity]: the last moment it was active, from the time of the
    request on; [alive]: no heartbeat of its source ever found it silent for
    longer than the timeout. *)

Definition quiet_ev (k : FlowKey) (ev : HttpParseEvent) : Prop :=
  match ev with
  | HttpRequest r => req_flow_key r ≠ k
  | HttpResponse r => resp_flow_key r ≠ k
  | _ => True
  end.
Definition quiet (k : FlowKey) (evs : list HttpParseEvent) : Prop := Forall (quiet_ev k) evs.

Definition sse_of_ev (k : FlowKey) (ev : HttpParseEvent) : list SseEventData :=
  match ev with SseEvent s => if decide (sse_flow_key s = k) then [s] else [] | _ => [] end.
Definition sse_of (k : FlowKey) (evs : list HttpParseEvent) : list SseEventData :=
  evs ≫= sse_of_ev k.

Definition activity (k : FlowKey) (t : Z) (evs : list HttpParseEvent) : Z :=
  foldl (λ t s, Z.max t (sse_timestamp_us s)) t (sse_of k evs).

Definition alive (k : FlowKey) (t : Z) (evs : list HttpParseEvent) : Prop :=
  ∀ pre ts post, evs = pre ++ Heartbeat ts (fk_source k) :: post →
    ts - activity k t pre <= PENDING_STALE_TIMEOUT_US.

Lemma sse_of_snoc (k : FlowKey) (evs : list HttpParseEvent) (ev : HttpParseEvent) :
  sse_of k (evs ++ [ev]) = sse_of k evs ++ sse_of_ev k ev.
Proof. unfold sse_of. rewrite bind_app. cbn. by rewrite app_nil_r. Qed.

Lemma activity_snoc (k : FlowKey) (t : Z) (evs : list HttpParseEvent) (ev : HttpParseEvent) :
  activity k t (evs ++ [ev])
  = foldl (λ t s, Z.max t (sse_timestamp_us s)) (activity k t evs) (sse_of_ev k ev).
Proof. unfold activity. by rewrite sse_of_snoc, foldl_app. Qed.

Lemma alive_snoc (k : FlowKey) (t : Z) (evs : list HttpParseEvent) (ev : HttpParseEvent) :
  alive k t (evs ++ [ev]) ↔
  alive k t evs ∧
  (∀ ts, ev = Heartbeat ts (fk_source k) → ts - activity k t evs <= PENDING_STALE_TIMEOUT_US).
Proof.
  split.
  - intros H. split.
    + intros pre ts post ->. apply (H pre ts (post ++ [ev])). by rewrite <- app_assoc.
    + intros ts ->. by apply (H evs ts []).
  - intros [H1 H2] pre ts post E.
    destruct post as [|x post' _] using rev_ind.
    + apply app_inj_tail in E as [-> ->]. by apply H2.
    + rewrite app_comm_cons, app_assoc in E. apply app_inj_tail in E as [-> ->].
      by apply (H1 pre ts post').
Qed.

(** The pending entry of a flow that the trace leaves open. *)
Definition open_exchange (k : FlowKey) (evs : list HttpParseEvent) (p : Pending) : Prop :=
  ∃ pre mid, evs = pre ++ HttpRequest (pd_request p) :: mid ∧
    req_flow_key (pd_request p) = k ∧ quiet k mid ∧
    alive k (req_timestamp_us (pd_request p)) mid ∧
    pd_sse_events p = sse_of k mid ∧
    pd_last_activity_us p = activity k (req_timestamp_us (pd_request p)) mid.

(** The effect of one event on the entry of one flow. *)
Definition flow_step (k : FlowKey) (st : option Pending) (ev : HttpParseEvent) : option Pending :=
  match ev with
  | HttpRequest r =>
      if decide (req_flow_key r = k) then Some (mkPending r [] (req_timestamp_us r)) else st
  | HttpResponse r => if decide (resp_flow_key r = k) then None else st
  | SseEvent s =>
      if decide (sse_flow_key s = k) then
        p ← st; Some (mkPending (pd_request p) (pd_sse_events p ++ [s])
                        (Z.max (pd_last_activity_us p) (sse_timestamp_us s)))
      else st
  | Heartbeat ts s =>
      p ← st; if bool_decide (fk_source k = s)
                 && (PENDING_STALE_TIMEOUT_US <? ts - pd_last_activity_us p)
              then None else Some p
  end.

Lemma process_flow_step (j : HttpJoiner) (ev : HttpParseEvent) (k : FlowKey) :
  hj_pending (joiner_process j ev).1 !! k = flow_step k (hj_pending j !! k) ev.
Proof.
  destruct ev as [r|r|s|ts s]; cbn [joiner_process flow_step fst].
  - unfold on_request. cbn [fst hj_pending]. destruct (decide _) as [<-|Hne].
    + by rewrite lookup_insert_eq.
    + rewrite lookup_insert_ne by done. destruct (hj_pending j !! req_flow_key r); [|done].
      destruct (_ <? _); [|done]. by rewrite lookup_delete_ne.
  - unfold on_response. destruct (hj_pending j !! resp_flow_key r) eqn:E; cbn [fst hj_pending];
      destruct (decide _) as [<-|Hne]; [by rewrite lookup_delete_eq|by rewrite lookup_delete_ne|by rewrite E|done].
  - unfold on_sse. destruct (decide _) as [<-|Hne]; destruct (hj_pending j !! sse_flow_key s) as [p|] eqn:E;
      cbn [hj_pending]; try done.
    + rewrite lookup_insert_eq. cbn. do 2 f_equal.
      destruct (Z.ltb_spec (pd_last_activity_us p) (sse_timestamp_us s)); lia.
    + by rewrite lookup_insert_ne.
  - cbn. rewrite map_lookup_filter. destruct (hj_pending j !! k) as [p|] eqn:E; [|done].
    cbn. unfold retains. cbn [fst snd]. destruct (decide (fk_source k = s)) as [Hs|Hs].
    + rewrite !bool_decide_true by done. cbn.
      by destruct (PENDING_STALE_TIMEOUT_US <? ts - pd_last_activity_us p).
    + by rewrite !bool_decide_false by done.
Qed.

Lemma open_exchange_snoc (k : FlowKey) (evs : list HttpParseEvent) (ev : HttpParseEvent)
    (p : Pending) :
  open_exchange k (evs ++ [ev]) p ↔
  (∃ r, ev = HttpRequest r ∧ req_flow_key r = k ∧ p = mkPending r [] (req_timestamp_us r)) ∨
  (∃ p0, open_exchange k evs p0 ∧ quiet_ev k ev ∧ flow_step k (Some p0) ev = Some p).
Proof.
  split.
  - intros (pre & mid & E & Hk & Hq & Ha & Hs & Hl). destruct p as [r sse la]. cbn in *.
    destruct mid as [|x mid _] using rev_ind.
    + apply app_inj_tail in E as [-> ->]. left. exists r. subst. done.
    + rewrite app_comm_cons, app_assoc in E. apply app_inj_tail in E as [-> ->]. right.
      apply Forall_app in Hq as [Hq Hqx]. apply Forall_cons in Hqx as [Hqx _].
      apply alive_snoc in Ha as [Ha Hax]. rewrite sse_of_snoc in Hs. rewrite activity_snoc in Hl.
      exists (mkPending r (sse_of k mid) (activity k (req_timestamp_us r) mid)).
      split; [by exists pre, mid|]. split; [done|]. subst sse la.
      destruct x as [r'|r'|s|ts s]; cbn in *.
      * rewrite decide_False by done. by rewrite app_nil_r.
      * rewrite decide_False by done. by rewrite app_nil_r.
      * by destruct (decide _); cbn; rewrite ?app_nil_r.
      * rewrite app_nil_r. destruct (bool_decide_reflect (fk_source k = s)) as [<-|]; [|done].
        specialize (Hax _ eq_refl). cbn. by destruct (Z.ltb_spec PENDING_STALE_TIMEOUT_US
          (ts - activity k (req_timestamp_us r) mid)); [lia|].
  - intros [(r & -> & Hk & ->)|(p0 & (pre & mid & -> & Hk & Hq & Ha & Hs & Hl) & Hqx & Hp)].
    + exists evs, []. split; [done|]. split; [done|]. split; [constructor|].
      split; [|done]. intros [|] ? ? E; discriminate E.
    + exists pre, (mid ++ [ev]). destruct p0 as [r sse la], p as [r' sse' la']. cbn in *.
      assert (Hr : r' = r).
      { destruct ev; cbn in *; repeat case_decide; try done; try case_match; by simplify_eq. }
      subst r'. split; [by rewrite <- app_assoc|]. split; [done|].
      split; [by apply Forall_app; repeat constructor|]. rewrite alive_snoc, sse_of_snoc, activity_snoc.
      subst sse la. destruct ev as [r'|r'|s|ts s]; cbn in *.
      * rewrite decide_False in Hp by done. simplify_eq. by rewrite app_nil_r.
      * rewrite decide_False in Hp by done. simplify_eq. by rewrite app_nil_r.
      * destruct (decide _); cbn in *; simplify_eq; rewrite ?app_nil_r; done.
      * destruct (_ && _) eqn:Eb; simplify_eq. rewrite app_nil_r.
        split; [|done]. split; [done|]. intros ts' [= -> ->].
        rewrite bool_decide_true in Eb by done. cbn in Eb. by apply Z.ltb_ge in Eb.
Qed.

(** The joiner's state is exactly what the trace leaves open. *)
Lemma pending_open (evs : list HttpParseEvent) (k : FlowKey) (p : Pending) :
  hj_pending (process_all joiner_new evs).1 !! k = Some p ↔ open_exchange k evs p.
Proof.
  revert p; induction evs as [|ev evs IH] using rev_ind; intros p.
  - split; [by cbn; rewrite lookup_empty|]. intros ([|] & ? & E & _); discriminate E.
  - rewrite process_all_snoc, open_exchange_snoc. cbn [fst]. rewrite process_flow_step.
    destruct (hj_pending (process_all joiner_new evs).1 !! k) as [p0|] eqn:E.
    + pose proof (proj1 (IH _) eq_refl) as Ho. split.
      * intros Hs. destruct ev as [r|r|s|ts s].
        -- cbn in Hs. destruct (decide _); simplify_eq; [left; eauto|].
           right. exists p. split; [done|]. split; [done|]. cbn. by rewrite decide_False.
        -- cbn in Hs. destruct (decide _); simplify_eq. right. exists p.
           split; [done|]. split; [done|]. cbn. by rewrite decide_False.
        -- right. by exists p0.
        -- right. by exists p0.
      * intros [(r & -> & Hk & ->)|(p1 & Ho1 & Hq & Hs)].
        -- cbn. by rewrite decide_True.
        -- apply IH in Ho1. simplify_eq. done.
    + split.
      * intros Hs. left. destruct ev as [r|r|s|ts s]; cbn in Hs; try (destruct (decide _)); simplify_eq; eauto.
      * intros [(r & -> & Hk & ->)|(p1 & Ho1 & _)].
        -- cbn. by rewrite decide_True.
        -- apply IH in Ho1. done.
Qed.

(** An exchange is emitted exactly by the response of an open request. *)
Lemma process_exchange (j : HttpJoiner) (ev : HttpParseEvent) (id : string)
    (r : HttpRequestData) (resp : HttpResponseData) (sse : list SseEventData) :
  JExchange id r resp sse ∈ (joiner_process j ev).2 ↔
  ev = HttpResponse resp ∧ id = now_v7 (hj_drawn j) ∧
  ∃ la, hj_pending j !! resp_flow_key resp = Some (mkPending r sse la).
Proof.
  destruct ev as [r'|r'|s|ts s]; cbn [joiner_process snd].
  - unfold on_request. cbn [snd]. rewrite list_elem_of_singleton. by split; [|intros [? _]].
  - unfold on_response. destruct (hj_pending j !! resp_flow_key r') as [[q es la]|] eqn:E; cbn [snd].
    + rewrite list_elem_of_singleton. split.
      * intros [= -> -> -> ->]. split; [done|]. split; [done|]. by exists la.
      * intros ([= ->] & -> & la' & E'). rewrite E in E'. by simplify_eq.
    + split; [by intros ?%not_elem_of_nil|]. intros ([= ->] & _ & la' & E'). congruence.
  - split; [by intros ?%not_elem_of_nil|by intros [? _]].
  - rewrite list_elem_of_singleton. by split; [|intros [? _]].
Qed.

Lemma run_exchange (evs : list HttpParseEvent) (id : string)
    (r : HttpRequestData) (resp : HttpResponseData) (sse : list SseEventData) :
  JExchange id r resp sse ∈ (process_all joiner_new evs).2 ↔
  ∃ pre post, evs = pre ++ HttpResponse resp :: post ∧
    id = now_v7 (hj_drawn (process_all joiner_new pre).1) ∧
    ∃ la, open_exchange (resp_flow_key resp) pre (mkPending r sse la).
Proof.
  induction evs as [|ev evs IH] using rev_ind.
  { split; [by intros ?%not_elem_of_nil|]. intros ([|] & ? & E & _); discriminate E. }
  rewrite process_all_snoc. cbn [snd]. rewrite elem_of_app, IH, process_exchange. split.
  - intros [(pre & post & -> & H)|(-> & -> & la & Hl)].
    + exists pre, (post ++ [ev]). by rewrite <- app_assoc.
    + exists evs, []. split; [done|]. split; [done|]. exists la. by apply pending_open.
  - intros (pre & post & E & Hid & la & Ho). destruct post as [|x post _] using rev_ind.
    + apply app_inj_tail in E as [-> ->]. right. split; [done|]. split; [done|].
      exists la. by apply pending_open.
    + rewrite app_comm_cons, app_assoc in E. apply app_inj_tail in E as [-> ->].
      left. exists pre, post. by eauto.
Qed.

(** C2: the joiner pairs exactly the exchanges of the trace: it emits an
    exchange of a request, a response and a list of server-sent events if and
    only if the trace has that request, later that response on the same flow, no
    other request or response of the flow between them, no heartbeat of the
    source that finds the flow silent past the timeout, and, in order, exactly
    those server-sent events of the flow in between. *)
Theorem exchanges_exact :
  ∀ (evs : list HttpParseEvent) (r : HttpRequestData) (resp : HttpResponseData)
    (sse : list SseEventData),
    (∃ id, JExchange id r resp sse ∈ (process_all joiner_new evs).2) ↔
    ∃ pre mid post,
      evs = pre ++ HttpRequest r :: mid ++ HttpResponse resp :: post ∧
      req_flow_key r = resp_flow_key resp ∧
      quiet (resp_flow_key resp) mid ∧
      alive (resp_flow_key resp) (req_timestamp_us r) mid ∧
      sse = sse_of (resp_flow_key resp) mid.
Proof.
  intros evs r resp sse. split.
  - intros (id & Hin). apply run_exchange in Hin as (pre0 & post & -> & _ & la & Ho).
    destruct Ho as (pre & mid & -> & Hk & Hq & Ha & Hs & _). exists pre, mid, post.
    by rewrite <- app_assoc, <- app_comm_cons.
  - intros (pre & mid & post & -> & Hk & Hq & Ha & ->). eexists. apply run_exchange.
    exists (pre ++ HttpRequest r :: mid), post.
    split; [by rewrite <- app_assoc, <- app_comm_cons|]. split; [done|].
    exists (activity (resp_flow_key resp) (req_timestamp_us r) mid), pre, mid. by split_and!.
Qed.

(** ** Accounting *)

Definition is_request (ev : HttpParseEvent) : bool :=
  match ev with HttpRequest _ => true | _ => false end.
Definition is_response (ev : HttpParseEvent) : bool :=
  match ev with HttpResponse _ => true | _ => false end.
Definition count (f : HttpParseEvent → bool) (evs : list HttpParseEvent) : Z :=
  zlen (List.filter f evs).

Definition exchange_id (ev : HttpJoinerEvent) : list string :=
  match ev with JExchange id _ _ _ => [id] | _ => [] end.
Definition exchange_ids (out : list HttpJoinerEvent) : list string := out ≫= exchange_id.

(** The requests that find an earlier one open on their flow. *)
Definition overwrites_at (j : HttpJoiner) (ev : HttpParseEvent) : Z :=
  match ev with
  | HttpRequest r => if decide (is_Some (hj_pending j !! req_flow_key r)) then 1 else 0
  | _ => 0
  end.
Fixpoint overwritten (j : HttpJoiner) (evs : list HttpParseEvent) : Z :=
  match evs with
  | [] => 0
  | ev :: evs' => overwrites_at j ev + overwritten (joiner_process j ev).1 evs'
  end.

(** What one event does to the numbers. *)
Lemma process_counts (j : HttpJoiner) (ev : HttpParseEvent) :
  let '(j', out) := joiner_process j ev in
  exchange_ids out = (if decide (hj_drawn j' = hj_drawn j) then [] else [now_v7 (hj_drawn j)]) ∧
  Z.of_nat (hj_drawn j') - Z.of_nat (hj_drawn j) =
    hj_metrics j' HttpJoinerDone - hj_metrics j HttpJoinerDone ∧
  (hj_drawn j <= hj_drawn j' <= S (hj_drawn j))%nat ∧
  (hj_metrics j' HttpJoinerDone - hj_metrics j HttpJoinerDone) +
  (hj_metrics j' HttpJoinerUnpaired - hj_metrics j HttpJoinerUnpaired) = count is_response [ev] ∧
  (hj_metrics j' HttpJoinerDone - hj_metrics j HttpJoinerDone) +
  (hj_metrics j' HttpJoinerExpired - hj_metrics j HttpJoinerExpired) +
  (Z.of_nat (pending_count j') - Z.of_nat (pending_count j)) + overwrites_at j ev
    = count is_request [ev].
Proof.
  unfold pending_count, count, zlen. destruct ev as [r|r|s|ts s]; cbn [joiner_process].
  - unfold on_request. cbn. rewrite decide_True by done. split; [done|]. split; [lia|]. split; [lia|].
    split; [lia|].
    set (m := match _ with Some _ => _ | None => _ end).
    assert (Hm : Z.of_nat (size (<[req_flow_key r := mkPending r [] (req_timestamp_us r)]> m))
      = Z.of_nat (size (hj_pending j)) + 1 -
        (if decide (is_Some (hj_pending j !! req_flow_key r)) then 1 else 0)).
    { subst m. destruct (hj_pending j !! req_flow_key r) as [p|] eqn:E.
      - rewrite decide_True by done. destruct (_ <? _).
        + rewrite insert_delete_eq, map_size_insert_Some by done. lia.
        + rewrite map_size_insert_Some by done. lia.
      - rewrite decide_False by (by intros [? ?]). rewrite map_size_insert_None by done. lia. }
    rewrite Hm. lia.
  - unfold on_response. destruct (hj_pending j !! resp_flow_key r) as [p|] eqn:E; cbn.
    + rewrite decide_False by lia. split; [done|]. unfold inc_counter.
      rewrite add_counter_eq, !add_counter_ne by done.
      rewrite map_size_delete_Some by done.
      assert (size (hj_pending j) ≠ 0%nat) by (apply map_size_ne_0_lookup; by eexists _, _).
      cbn. lia.
    + rewrite decide_True by done. split; [done|]. unfold inc_counter.
      rewrite add_counter_eq, !add_counter_ne by done. cbn. lia.
  - assert (hj_drawn (on_sse j s) = hj_drawn j ∧ hj_metrics (on_sse j s) = hj_metrics j ∧
      size (hj_pending (on_sse j s)) = size (hj_pending j)) as (-> & -> & ->).
    { unfold on_sse. destruct (hj_pending j !! sse_flow_key s) eqn:E; cbn; [|done].
      split; [done|]. split; [done|]. by rewrite map_size_insert_Some. }
    rewrite decide_True by done. cbn. split; [done|]. lia.
  - cbn. rewrite decide_True by done. split; [done|]. split; [|split; [lia|]].
    all: set (n := Z.of_nat (size (hj_pending j)) - _).
    all: assert (0 <= n) by (subst n; pose proof (map_size_filter
      (λ kp, retains s ts PENDING_STALE_TIMEOUT_US kp.1 kp.2 = true) (hj_pending j)); lia).
    all: destruct (Z.ltb_spec 0 n); unfold inc_counter;
      rewrite ?add_counter_eq, ?add_counter_ne by done; cbn; lia.
Qed.
Lemma count_cons (f : HttpParseEvent → bool) (ev : HttpParseEvent) (evs : list HttpParseEvent) :
  count f (ev :: evs) = count f [ev] + count f evs.
Proof. unfold count, zlen. cbn. destruct (f ev); cbn; lia. Qed.

Lemma exchange_ids_app (o1 o2 : list HttpJoinerEvent) :
  exchange_ids (o1 ++ o2) = exchange_ids o1 ++ exchange_ids o2.
Proof. unfold exchange_ids. by rewrite bind_app. Qed.

Lemma process_all_counts (j : HttpJoiner) (evs : list HttpParseEvent) :
  let '(j', out) := process_all j evs in
  exchange_ids out = map now_v7 (seq (hj_drawn j) (hj_drawn j' - hj_drawn j)) ∧
  (hj_drawn j <= hj_drawn j')%nat ∧
  Z.of_nat (hj_drawn j') - Z.of_nat (hj_drawn j) =
    hj_metrics j' HttpJoinerDone - hj_metrics j HttpJoinerDone ∧
  (hj_metrics j' HttpJoinerDone - hj_metrics j HttpJoinerDone) +
  (hj_metrics j' HttpJoinerUnpaired - hj_metrics j HttpJoinerUnpaired) = count is_response evs ∧
  (hj_metrics j' HttpJoinerDone - hj_metrics j HttpJoinerDone) +
  (hj_metrics j' HttpJoinerExpired - hj_metrics j HttpJoinerExpired) +
  (Z.of_nat (pending_count j') - Z.of_nat (pending_count j)) + overwritten j evs
    = count is_request evs.
Proof.
  revert j; induction evs as [|ev evs IH]; intros j; cbn [process_all overwritten].
  { rewrite Nat.sub_diag. cbn. unfold count, zlen; cbn. split; [done|]. lia. }
  pose proof (process_counts j ev) as H. destruct (joiner_process j ev) as [j1 o1] eqn:E1.
  specialize (IH j1). destruct (process_all j1 evs) as [j2 o2] eqn:E2.
  destruct H as (Hi & Hd & Hb & Hr & Hq), IH as (Hi' & Hb' & Hd' & Hr' & Hq').
  rewrite exchange_ids_app, Hi, Hi', !(count_cons _ ev evs). cbn [fst].
  split; [|lia].
  destruct (decide (hj_drawn j1 = hj_drawn j)) as [He|He].
  - rewrite He. done.
  - replace (hj_drawn j2 - hj_drawn j)%nat with (S (hj_drawn j2 - hj_drawn j1))%nat by lia.
    cbn [seq map app]. by replace (S (hj_drawn j)) with (hj_drawn j1) by lia.
Qed.

(** The joiner accounts for everything it is given: a response is either
    paired or counted as unpaired, the number of exchanges emitted is the
    counter of paired ones, and every request is exactly one of paired, expired,
    still pending, or overwritten by a later request on its flow. *)
Theorem joiner_accounts :
  ∀ (evs : list HttpParseEvent),
    let '(j, out) := process_all joiner_new evs in
    zlen (exchange_ids out) = hj_metrics j HttpJoinerDone ∧
    hj_metrics j HttpJoinerDone + hj_metrics j HttpJoinerUnpaired = count is_response evs ∧
    hj_metrics j HttpJoinerDone + hj_metrics j HttpJoinerExpired + Z.of_nat (pending_count j)
      + overwritten joiner_new evs = count is_request evs.
Proof.
  intros evs. pose proof (process_all_counts joiner_new evs) as H.
  destruct (process_all joiner_new evs) as [j out]. destruct H as (Hi & Hb & Hd & Hr & Hq).
  rewrite Hi. unfold zlen. rewrite length_map, length_seq.
  replace (pending_count joiner_new) with 0%nat in Hq by done. cbn in *. unfold counters_zero in *.
  lia.
Qed.

(** Exchange identifiers are unique: as long as the supply never repeats an
    identifier, no two exchanges of a run share one. *)
Theorem exchange_ids_unique :
  ∀ (HU : UuidLaws U) (evs : list HttpParseEvent),
    NoDup (exchange_ids (process_all joiner_new evs).2).
Proof.
  intros HU evs. pose proof (process_all_counts joiner_new evs) as H.
  destruct (process_all joiner_new evs) as [j out]. destruct H as (Hi & _). cbn [snd]. rewrite Hi.
  apply NoDup_fmap_2; [exact HU|]. apply NoDup_seq.
Qed.
End Joiner.

(** ** Concrete runs *)

(** A supply that spells the draw in unary. *)
#[export] Instance sample_uuid : UuidSupply :=
  λ n, Nat.iter n (String.append "x") "".
#[export] Instance sample_uuid_laws : UuidLaws sample_uuid.
Proof.
  assert (Hl : ∀ n, String.length (sample_uuid n) = n) by (intros n; induction n as [|n IH]; [done|exact (f_equal S IH)]).
  intros n m H. unfold now_v7 in H. by rewrite <- (Hl n), H, Hl.
Qed.

Definition sample_flow (port : Z) : FlowKey := mkFlowKey "tap" (V4 1, port) (V4 2, 80).
Definition sample_req (port ts : Z) : HttpRequestData :=
  mkReq (sample_flow port) (V4 1, port) (V4 2, 80) (B "POST") (B "/v1/messages") 1 [] (B "{}") ts None.
Definition sample_resp (port ts : Z) : HttpResponseData :=
  mkResp (sample_flow port) (V4 1, port) (V4 2, 80) 200 1
    [(B "Content-Type", B "text/event-stream")] [] ts ts None.
Definition sample_sse (port ts : Z) (d : string) : SseEventData :=
  mkSse (sample_flow port) (V4 1, port) (V4 2, 80) (B "delta") (B d) ts None.

(** Two interleaved exchanges, one of them streaming for longer than the stale
    timeout; a stray response; a request that expires. *)
Definition sample_trace : list HttpParseEvent :=
  [ HttpRequest (sample_req 1 0); HttpRequest (sample_req 2 5);
    SseEvent (sample_sse 1 500000000 "a"); Heartbeat 550000000 "tap";
    SseEvent (sample_sse 1 1000000000 "b"); Heartbeat 1100000000 "tap";
    HttpResponse (sample_resp 3 1100000001); HttpResponse (sample_resp 1 1100000002) ].

Example sample_trace_run :
  (process_all joiner_new sample_trace).2
  = [ JRequest (sample_req 1 0); JRequest (sample_req 2 5); JHeartbeat 550000000 "tap";
      JHeartbeat 1100000000 "tap";
      JExchange "" (sample_req 1 0) (sample_resp 1 1100000002)
        [sample_sse 1 500000000 "a"; sample_sse 1 1000000000 "b"] ].
Proof. vm_compute. reflexivity. Qed.

Lemma exchange_ids_unique_witness :
  NoDup (exchange_ids (process_all joiner_new sample_trace).2).
Proof. exact (exchange_ids_unique sample_uuid_laws sample_trace). Defined.

(** The two tests for a streaming response differ: the parser's ignores case and
    accepts the type anywhere in the value, the joiner's does not.  The parser
    retains no body for such a response, and the joiner stores the empty one. *)
Lemma empty_sse_body_stored :
  let resp := mkResp (sample_flow 1) (V4 1, 1) (V4 2, 80) 200 1
                [(B "Content-Type", B "Text/Event-Stream")] [] 0 0 None in
  Body.is_sse (resp_headers resp) = true ∧
  stored_response_body (mkExchange "" (sample_req 1 0) resp 0 0) = Some [].
Proof. vm_compute. split; reflexivity. Qed.
