(* ===== verification/Utf8.v ===== *)
(** * Character boundaries of UTF-8 text

    A valid text is its characters end to end; the boundaries that
    [str::is_char_boundary] accepts are the places between them, so cutting a
    valid text at one leaves two valid texts. *)

From Stdlib Require Import Strings.Byte ZArith Lia.
From stdpp Require Import base list.
From S2P Require Import Prelude.
From S2P Require Import Text.

Open Scope Z_scope.

(** [str::is_char_boundary]. *)
Definition is_char_boundary (l : text) (i : nat) : bool :=
  match i with
  | O => true
  | _ => match l !! i with
         | Some b => negb (is_cont b)
         | None => bool_decide (i = length l)
         end
  end.

(** [while i > 0 && !l.is_char_boundary(i) { i -= 1 }]. *)
Fixpoint snap_down (l : text) (i : nat) : nat :=
  match i with
  | O => O
  | S i' => if is_char_boundary l i then i else snap_down l i'
  end.

(** [while i < l.len() && !l.is_char_boundary(i) { i += 1 }]; as many rounds as
    there are bytes after [i]. *)
Fixpoint snap_up_fuel (fuel : nat) (l : text) (i : nat) : nat :=
  match fuel with
  | O => i
  | S fuel' => if (i <? length l)%nat && negb (is_char_boundary l i) then snap_up_fuel fuel' l (S i) else i
  end.
Definition snap_up (l : text) (i : nat) : nat := snap_up_fuel (length l - i) l i.

(** ** Characters *)

(** The bytes of one character. *)
Definition utf8_char (c : text) : Prop :=
  ∃ b l, c = b :: l ∧ (length l <= 3)%nat ∧ is_cont b = false ∧ Forall (λ x, is_cont x = true) l ∧
         ∀ r, utf8_next b (l ++ r) = Valid (S (length l)).

Lemma second_of_3_cont (b c : byte) : second_of_3 b c = true → is_cont c = true.
Proof. unfold second_of_3, is_cont, in_range. rewrite !andb_true_iff, !Z.leb_le. repeat case_match; rewrite ?andb_true_iff, ?Z.leb_le; lia. Qed.

Lemma second_of_4_cont (b c : byte) : second_of_4 b c = true → is_cont c = true.
Proof. unfold second_of_4, is_cont, in_range. rewrite !andb_true_iff, !Z.leb_le. repeat case_match; rewrite ?andb_true_iff, ?Z.leb_le; lia. Qed.

Lemma cont_at_cons (f : byte → bool) (o : nat) (l : text) :
  cont_at f o l = true → ∃ b, l !! o = Some b ∧ f b = true.
Proof. unfold cont_at. destruct (l !! o) as [b|]; [by exists b|done]. Qed.

Lemma range_not_cont (lo hi : Z) (b : byte) : 0xC0 <= lo → in_range lo hi b = true → is_cont b = false.
Proof. unfold is_cont, in_range. intros H. rewrite andb_true_iff, andb_false_iff, !Z.leb_le, !Z.leb_gt. lia. Qed.

Lemma utf8_next_char (b : byte) (l : text) (n : nat) :
  utf8_next b l = Valid n → ∃ c r, l = c ++ r ∧ n = S (length c) ∧ utf8_char (b :: c).
Proof.
  intros H.
  assert (Hgo : ∀ c r, l = c ++ r → n = S (length c) → (length c <= 3)%nat → is_cont b = false →
    Forall (λ x, is_cont x = true) c → (∀ r, utf8_next b (c ++ r) = Valid n) →
    ∃ c r, l = c ++ r ∧ n = S (length c) ∧ utf8_char (b :: c)).
  { intros c r ? -> ? ? ? ?. exists c, r. split; [done|]. split; [done|]. by exists b, c. }
  unfold utf8_next in H. destruct (byteZ b <? 0x80) eqn:E0.
  { injection H as <-. apply (Hgo [] l); [done|done|cbn; lia| |constructor|].
    - unfold is_cont, in_range. apply andb_false_iff. left. apply Z.leb_gt. apply Z.ltb_lt in E0. lia.
    - intros r. unfold utf8_next. by rewrite E0. }
  destruct (in_range 0xC2 0xDF b) eqn:E1.
  { destruct (cont_at is_cont 0 l) eqn:C; [|done]. injection H as <-. apply cont_at_cons in C as (c & Hc & Hcc).
    destruct l as [|c' l]; [done|]. injection Hc as ->.
    apply (Hgo [c] l); [done|done|cbn; lia|by apply (range_not_cont 0xC2 0xDF)|by constructor|].
    intros r. unfold utf8_next, cont_at. cbn. by rewrite E0, E1, Hcc. }
  destruct (in_range 0xE0 0xEF b) eqn:E2.
  { destruct (cont_at (second_of_3 b) 0 l) eqn:C1; [|done]. destruct (cont_at is_cont 1 l) eqn:C2; [|done].
    injection H as <-. apply cont_at_cons in C1 as (c1 & H1 & K1), C2 as (c2 & H2 & K2).
    destruct l as [|x1 [|x2 l]]; try done. injection H1 as ->. injection H2 as ->.
    apply (Hgo [c1; c2] l); [done|done|cbn; lia|by apply (range_not_cont 0xE0 0xEF)| |].
    - constructor; [by apply second_of_3_cont in K1|by constructor].
    - intros r. unfold utf8_next, cont_at. cbn. by rewrite E0, E1, E2, K1, K2. }
  destruct (in_range 0xF0 0xF4 b) eqn:E3; [|done].
  destruct (cont_at (second_of_4 b) 0 l) eqn:C1; [|done]. destruct (cont_at is_cont 1 l) eqn:C2; [|done].
  destruct (cont_at is_cont 2 l) eqn:C3; [|done].
  injection H as <-. apply cont_at_cons in C1 as (c1 & H1 & K1), C2 as (c2 & H2 & K2), C3 as (c3 & H3 & K3).
  destruct l as [|x1 [|x2 [|x3 l]]]; try done. injection H1 as ->. injection H2 as ->. injection H3 as ->.
  apply (Hgo [c1; c2; c3] l); [done|done|cbn; lia|by apply (range_not_cont 0xF0 0xF4)| |].
  - constructor; [by apply second_of_4_cont in K1|by repeat constructor].
  - intros r. unfold utf8_next, cont_at. cbn. by rewrite E0, E1, E2, E3, K1, K2, K3.
Qed.

Lemma utf8_char_length (c : text) : utf8_char c → (1 <= length c <= 4)%nat.
Proof. intros (b & l & -> & Hl & _). cbn. lia. Qed.

Lemma utf8_valid_chars (l : text) : utf8_valid l = true ↔ ∃ cs, l = concat cs ∧ Forall utf8_char cs.
Proof.
  unfold utf8_valid. assert (H : ∀ n, (length l <= n)%nat →
    utf8_valid_fuel n l = true ↔ ∃ cs, l = concat cs ∧ Forall utf8_char cs); [|by apply H].
  intros n. revert l. induction n as [|n IH]; intros [|b l] Hn; cbn [length] in Hn; try lia; cbn [utf8_valid_fuel].
  1,2: split; [intros _; by exists []|done].
  split.
  - destruct (utf8_next b l) as [k|k] eqn:E; [|done].
    destruct (utf8_next_char _ _ _ E) as (c & r & -> & -> & Hc).
    change (b :: c ++ r) with ((b :: c) ++ r). rewrite drop_app_length'; [|done].
    rewrite length_app in Hn. intros (cs & -> & Hcs)%IH; [|lia].
    exists ((b :: c) :: cs). split; [done|by constructor].
  - intros (cs & E & Hcs). destruct Hcs as [|c cs Hc Hcs]; [done|].
    destruct Hc as (b' & c' & -> & Hlen & _ & _ & Hnext). cbn [concat app] in E. injection E as -> ->.
    rewrite Hnext. change (b' :: c' ++ concat cs) with ((b' :: c') ++ concat cs).
    rewrite drop_app_length' by done. rewrite length_app in Hn. apply IH; [lia|]. by exists cs.
Qed.

Lemma utf8_valid_app (a b : text) : utf8_valid a = true → utf8_valid b = true → utf8_valid (a ++ b) = true.
Proof.
  rewrite !utf8_valid_chars. intros (ca & -> & Ha) (cb & -> & Hb). exists (ca ++ cb).
  by rewrite concat_app, Forall_app.
Qed.

(** ** Boundaries *)

(** A boundary of a text lies between two of its characters. *)
Lemma boundary_split (cs : list text) (i : nat) :
  Forall utf8_char cs → is_char_boundary (concat cs) i = true →
  ∃ c1 c2, cs = c1 ++ c2 ∧ length (concat c1) = i.
Proof.
  intros Hcs. revert i. induction Hcs as [|c cs Hc Hcs IH]; intros i Hi.
  { exists [], []. split; [done|]. destruct i; [done|]. cbn in Hi. by apply bool_decide_eq_true in Hi. }
  destruct i as [|i]; [by exists [], (c :: cs)|].
  destruct (decide (S i < length c)%nat) as [Hlt|Hge].
  - exfalso. destruct Hc as (b & l & -> & _ & _ & Hl & _). cbn [concat app is_char_boundary length] in *.
    rewrite lookup_cons_ne_0 in Hi by lia. cbn [pred] in Hi. rewrite lookup_app_l in Hi by lia.
    destruct (lookup_lt_is_Some_2 l i) as [x Hx]; [lia|]. rewrite Hx in Hi.
    rewrite Forall_lookup in Hl. by rewrite (Hl _ _ Hx) in Hi.
  - destruct (IH (S i - length c)%nat) as (c1 & c2 & -> & Hlen).
    { cbn [concat] in Hi. unfold is_char_boundary in *. rewrite lookup_app_r in Hi by lia.
      destruct (S i - length c)%nat eqn:En; [done|]. destruct (concat cs !! S n); [done|].
      apply bool_decide_eq_true in Hi. apply bool_decide_eq_true. rewrite length_app in Hi. lia. }
    exists (c :: c1), c2. split; [done|]. cbn [concat]. rewrite length_app, Hlen. lia.
Qed.

Lemma boundary_concat (c1 c2 : list text) :
  Forall utf8_char c2 → is_char_boundary (concat (c1 ++ c2)) (length (concat c1)) = true.
Proof.
  intros H. unfold is_char_boundary. destruct (length (concat c1)) as [|n] eqn:E; [done|].
  rewrite <- E, concat_app, lookup_app_r, Nat.sub_diag by lia.
  destruct H as [|c c2 Hc _]; cbn [concat lookup list_lookup].
  - apply bool_decide_eq_true. by rewrite length_app, Nat.add_0_r.
  - destruct Hc as (b & l & -> & _ & Hb & _). cbn. by rewrite Hb.
Qed.

(** Cutting a valid text at a boundary. *)
Lemma utf8_valid_cut (l : text) (i : nat) :
  utf8_valid l = true → is_char_boundary l i = true →
  utf8_valid (take i l) = true ∧ utf8_valid (drop i l) = true.
Proof.
  intros (cs & -> & Hcs)%utf8_valid_chars Hi.
  destruct (boundary_split cs i Hcs Hi) as (c1 & c2 & -> & <-). rewrite concat_app.
  rewrite take_app_length, drop_app_length. apply Forall_app in Hcs as [H1 H2].
  split; apply utf8_valid_chars; by eexists.
Qed.

(** Around any place of a valid text there are boundaries within a character. *)
Lemma boundary_near (l : text) (i : nat) :
  utf8_valid l = true → (i <= length l)%nat →
  ∃ lo hi, (lo <= i <= hi)%nat ∧ (hi <= length l)%nat ∧ (i - lo <= 3)%nat ∧ (hi - i <= 3)%nat ∧
    is_char_boundary l lo = true ∧ is_char_boundary l hi = true.
Proof.
  intros (cs & -> & Hcs)%utf8_valid_chars.
  assert (H : ∀ c1 c2, cs = c1 ++ c2 → (length (concat c1) <= i)%nat → (i <= length (concat cs))%nat →
    ∃ lo hi, (lo <= i <= hi)%nat ∧ (hi <= length (concat cs))%nat ∧ (i - lo <= 3)%nat ∧ (hi - i <= 3)%nat ∧
      is_char_boundary (concat cs) lo = true ∧ is_char_boundary (concat cs) hi = true).
  2: intros Hi; apply (H [] cs); cbn; [done|lia|done].
  intros c1 c2; revert c1. induction c2 as [|c c2 IH]; intros c1 E Hlo Hi.
  - rewrite app_nil_r in E. subst c1. exists i, i.
    assert (Ei : i = length (concat cs)) by lia.
    assert (is_char_boundary (concat cs) i = true).
    { rewrite Ei. pose proof (boundary_concat cs [] (Forall_nil_2 _)) as Hb. by rewrite app_nil_r in Hb. }
    split_and!; try done; lia.
  - assert (Hc : utf8_char c) by (subst cs; apply Forall_app in Hcs as [_ Hcs]; by inversion Hcs).
    pose proof (utf8_char_length c Hc) as Hlen.
    assert (El : length (concat (c1 ++ [c])) = (length (concat c1) + length c)%nat)
      by (rewrite concat_app, length_app; cbn; by rewrite app_nil_r).
    destruct (decide (length (concat c1) + length c <= i)%nat) as [Hge|Hlt].
    { apply (IH (c1 ++ [c])); [by rewrite <- app_assoc|lia|done]. }
    assert (E' : cs = (c1 ++ [c]) ++ c2) by (by rewrite <- app_assoc).
    assert (H2 : Forall utf8_char (c :: c2)) by (subst cs; by apply Forall_app in Hcs as [_ ?]).
    exists (if decide (i = length (concat c1)) then i else length (concat c1)),
           (if decide (i = length (concat c1)) then i else (length (concat c1) + length c)%nat).
    destruct (decide (i = length (concat c1))) as [->|Hne].
    + assert (is_char_boundary (concat cs) (length (concat c1)) = true) by (rewrite E; by apply boundary_concat).
      split_and!; try done; lia.
    + split_and!; try lia.
      * rewrite E', concat_app, length_app. lia.
      * rewrite E. by apply boundary_concat.
      * rewrite <- El, E'. apply boundary_concat. by inversion H2.
Qed.

Lemma snap_down_spec (l : text) (i : nat) :
  is_char_boundary l (snap_down l i) = true ∧ (snap_down l i <= i)%nat ∧
  ∀ j, (snap_down l i < j <= i)%nat → is_char_boundary l j = false.
Proof.
  induction i as [|i (IH1 & IH2 & IH3)]; [cbn; split_and!; [done|lia|intros; lia]|].
  cbn [snap_down]. destruct (is_char_boundary l (S i)) eqn:E.
  - split_and!; [done|lia|intros; lia].
  - split_and!; [done|lia|]. intros j Hj. destruct (decide (j = S i)) as [->|]; [done|]. apply IH3. lia.
Qed.

Lemma snap_up_spec (l : text) (i : nat) :
  (i <= length l)%nat →
  is_char_boundary l (snap_up l i) = true ∧ (i <= snap_up l i <= length l)%nat ∧
  ∀ j, (i <= j < snap_up l i)%nat → is_char_boundary l j = false.
Proof.
  unfold snap_up. assert (H : ∀ n i, (length l - i = n)%nat → (i <= length l)%nat →
    is_char_boundary l (snap_up_fuel n l i) = true ∧ (i <= snap_up_fuel n l i <= length l)%nat ∧
    ∀ j, (i <= j < snap_up_fuel n l i)%nat → is_char_boundary l j = false); [|intros Hi; by apply H].
  intros n; induction n as [|n IH]; intros k Hn Hk; cbn [snap_up_fuel].
  - assert (k = length l) as -> by lia. split_and!; [|lia|lia|intros; lia].
    unfold is_char_boundary. destruct (length l) as [|m] eqn:E; [done|].
    rewrite lookup_ge_None_2 by lia. by apply bool_decide_eq_true.
  - rewrite (proj2 (Nat.ltb_lt k (length l))) by lia. cbn [andb].
    destruct (is_char_boundary l k) eqn:E; cbn [negb].
    + split_and!; [done|lia|lia|intros; lia].
    + destruct (IH (S k)) as (I1 & I2 & I3); [lia|lia|]. split_and!; [done|lia|lia|].
      intros j Hj. destruct (decide (j = k)) as [->|]; [done|]. apply I3. lia.
Qed.
