(* ===== verification/Calls.v ===== *)
(** * LLM calls (h-llm/src/model.rs, h-common/src/agent.rs)

    The records the LLM stage hands to turn assembly, metrics and storage: a
    call, its agent classification, the start of a call, and the key that pairs
    a start with its completion.  Latencies are IEEE doubles ([spec_float]). *)

From Stdlib Require Import Strings.Byte ZArith Lia SpecFloat.
From stdpp Require Import base gmap sets list strings.
From S2P Require Import Prelude.
From S2P Require Import Net.
From S2P Require Import Text.
From S2P Require Import Events.

Open Scope Z_scope.

(** ** [f64] *)

Abbreviation f64 := spec_float.
Definition f64_of_Z (z : Z) : f64 := binary_normalize 53 1024 z 0 false.
Definition f64_zero : f64 := S754_zero false.
Definition f64_add (a b : f64) : f64 := SFadd 53 1024 a b.
Definition f64_div (a b : f64) : f64 := SFdiv 53 1024 a b.

(** ** h-common/src/agent.rs *)

Inductive ToolSurface : Type := FunctionCall | Mcp | Cli | Mixed | Unknown.
Inductive AgentTopology : Type := SingleAgent | SubAgent | Orchestrator.

#[global] Instance ToolSurface_eq_dec : EqDecision ToolSurface.
Proof. solve_decision. Defined.
#[global] Instance AgentTopology_eq_dec : EqDecision AgentTopology.
Proof. solve_decision. Defined.

(** The derived [Ord]: the order of the variants. *)
Definition surface_rank (s : ToolSurface) : Z :=
  match s with FunctionCall => 0 | Mcp => 1 | Cli => 2 | Mixed => 3 | Unknown => 4 end.

(** [Display]. *)
Definition surface_name (s : ToolSurface) : string :=
  match s with
  | FunctionCall => "function_call" | Mcp => "mcp" | Cli => "cli"
  | Mixed => "mixed" | Unknown => "unknown"
  end.
Definition topology_name (t : AgentTopology) : string :=
  match t with
  | SingleAgent => "single_agent" | SubAgent => "sub_agent" | Orchestrator => "orchestrator"
  end.

(** h-llm/src/agent_classifier.rs *)
Inductive SuspiciousSignal : Type := UnknownToolName (name : string).

(** ** h-llm/src/model.rs *)

Inductive ApiType : Type := Chat.

Record LlmCall : Type := mkCall {
  lc_source_id : string;
  lc_id : string;
  lc_wire_api : string;
  lc_model : string;
  lc_api_type : ApiType;
  lc_request_time : Z;
  lc_response_time : option Z;
  lc_complete_time : option Z;
  lc_request_path : text;
  lc_is_stream : bool;
  lc_request_body : option text;
  lc_status_code : option Z;
  lc_finish_reason : option string;
  lc_response_body : option text;
  lc_input_tokens : option Z;
  lc_output_tokens : option Z;
  lc_total_tokens : option Z;
  lc_cache_read_input_tokens : option Z;
  lc_cache_creation_input_tokens : option Z;
  lc_ttft_ms : option spec_float;
  lc_e2e_latency_ms : option spec_float;
  lc_client_ip : IpAddr;
  lc_client_port : Z;
  lc_server_ip : IpAddr;
  lc_server_port : Z;
  lc_response_id : option text;
  lc_request_headers : headers;
  lc_response_headers : headers;
  lc_is_agent_request : bool;
  lc_tool_surface : option ToolSurface;
  lc_agent_topology : option AgentTopology;
  lc_tool_call_count : Z;
  lc_tool_names : list string;
  lc_body_bytes_dropped : Z;
  lc_process : option ProcessInfo;
}.

Record AgentCallInfo : Type := mkAgentInfo {
  ai_agent_kind : string;
  ai_session_id : string;
  ai_subagent_name : option string;
  ai_is_user_turn_start : option bool;
  ai_is_turn_terminal : bool;
  ai_is_auxiliary : bool;
  ai_user_input : option text;
  ai_assistant_text : option text;
  ai_is_agent_request : bool;
  ai_tool_surface : option ToolSurface;
  ai_agent_topology : option AgentTopology;
  ai_tool_names : list string;
  ai_tool_call_count : Z;
  ai_suspicious_signals : list SuspiciousSignal;
}.

Record AgentCall : Type := mkAgentCall { ac_call : LlmCall; ac_agent : AgentCallInfo }.

Inductive TurnShardInput : Type :=
| TCall (c : AgentCall)
| THeartbeat (ts : Z) (source_id : string).

Record LlmCallStart : Type := mkStart {
  ls_source_id : string;
  ls_wire_api : string;
  ls_model : string;
  ls_is_stream : bool;
  ls_client_ip : IpAddr;
  ls_client_port : Z;
  ls_server_ip : IpAddr;
  ls_server_port : Z;
  ls_timestamp_us : Z;
}.

Record CallKey : Type := mkCallKey {
  ck_source_id : string;
  ck_client : sock;
  ck_server : sock;
  ck_request_time_us : Z;
}.

#[global] Instance CallKey_eq_dec : EqDecision CallKey.
Proof. solve_decision. Defined.
#[global] Instance CallKey_countable : Countable CallKey.
Proof.
  refine (inj_countable' (λ k, (ck_source_id k, ck_client k, ck_server k, ck_request_time_us k))
    (λ '(s, c, v, t), mkCallKey s c v t) _); by intros [].
Defined.

Definition start_key (s : LlmCallStart) : CallKey :=
  mkCallKey (ls_source_id s) (ls_client_ip s, ls_client_port s)
    (ls_server_ip s, ls_server_port s) (ls_timestamp_us s).
Definition call_key (c : LlmCall) : CallKey :=
  mkCallKey (lc_source_id c) (lc_client_ip c, lc_client_port c)
    (lc_server_ip c, lc_server_port c) (lc_request_time c).

Inductive LlmEvent : Type :=
| LStart (s : LlmCallStart)
| LComplete (c : LlmCall) (a : option AgentCallInfo)
| LHeartbeat (ts : Z) (source_id : string).

(** The moment a call is last heard of: [complete_time], else [response_time],
    else [request_time]. *)
Definition last_time (c : LlmCall) : Z :=
  match lc_complete_time c with
  | Some t => t
  | None => default (lc_request_time c) (lc_response_time c)
  end.
