(* ===== verification/Turns.v ===== *)
(** * Assembling a turn (h-turn/src/model.rs, h-turn/src/tracker.rs)

    The record of a finished agent turn, and [build_turn], the constructor that
    rolls a partition of calls up into one.  Texts are UTF-8 byte strings; a
    character is a byte and the continuation bytes that follow it. *)

From Stdlib Require Import Strings.Byte ZArith Lia SpecFloat.
From stdpp Require Import base gmap sets list strings sorting.
From S2P Require Import Prelude.
From S2P Require Import Net.
From S2P Require Import Text.
From S2P Require Import Events.
From S2P Require Import BTree.
From S2P Require Import Joiner.
From S2P Require Import Calls.

Open Scope Z_scope.

Inductive TraceStatus : Type := InProgress | Complete | Incomplete.

#[global] Instance TraceStatus_eq_dec : EqDecision TraceStatus.
Proof. solve_decision. Defined.

Record SuspiciousSkillRollup : Type := mkSuspicious { ss_tool_name : string; ss_reason : string }.

Record Trace : Type := mkTrace {
  tr_source_id : string;
  tr_turn_id : string;
  tr_session_id : string;
  tr_wire_api : string;
  tr_agent_kind : string;
  tr_client_ip : IpAddr;
  tr_server_ip : IpAddr;
  tr_start_time_us : Z;
  tr_end_time_us : Z;
  tr_duration_ms : Z;
  tr_call_count : Z;
  tr_models_used : list string;
  tr_subagents_used : list string;
  tr_total_input_tokens : Z;
  tr_total_output_tokens : Z;
  tr_total_cache_read_input_tokens : Z;
  tr_total_cache_creation_input_tokens : Z;
  tr_total_cost_usd : option spec_float;
  tr_status : TraceStatus;
  tr_final_finish_reason : option string;
  tr_user_input_preview : option text;
  tr_user_call_id : option string;
  tr_final_answer_preview : option text;
  tr_final_call_id : option string;
  tr_span_ids : list string;
  tr_metadata : text;
  tr_tool_surfaces : list ToolSurface;
  tr_tool_call_total : Z;
  tr_agent_topology : option AgentTopology;
  tr_suspicious_skills : list SuspiciousSkillRollup;
}.

(** [turn.source_id = ..; turn.session_id = ..]. *)
Definition set_key (t : Trace) (source_id session_id : string) : Trace :=
  mkTrace source_id (tr_turn_id t) session_id (tr_wire_api t) (tr_agent_kind t)
    (tr_client_ip t) (tr_server_ip t) (tr_start_time_us t) (tr_end_time_us t)
    (tr_duration_ms t) (tr_call_count t) (tr_models_used t) (tr_subagents_used t)
    (tr_total_input_tokens t) (tr_total_output_tokens t)
    (tr_total_cache_read_input_tokens t) (tr_total_cache_creation_input_tokens t)
    (tr_total_cost_usd t) (tr_status t) (tr_final_finish_reason t)
    (tr_user_input_preview t) (tr_user_call_id t) (tr_final_answer_preview t)
    (tr_final_call_id t) (tr_span_ids t) (tr_metadata t) (tr_tool_surfaces t)
    (tr_tool_call_total t) (tr_agent_topology t) (tr_suspicious_skills t).

(** ** Previews *)

Definition FINAL_ANSWER_PREVIEW_CHARS : nat := 500.
Definition USER_INPUT_PREVIEW_CHARS : nat := 500.

Definition continuation (b : byte) : bool := Z.land (byteZ b) 0xC0 =? 0x80.

(** [chars]: the characters of a UTF-8 text, each as its bytes. *)
Fixpoint chars (s : text) : list text :=
  match s with
  | [] => []
  | b :: s' =>
      match chars s' with
      | (b' :: c) :: cs => if continuation b' then (b :: b' :: c) :: cs else [b] :: (b' :: c) :: cs
      | cs => [b] :: cs
      end
  end.

Definition ELLIPSIS : text := [xe2; x80; xa6].

Definition truncate_preview (s : text) (max_chars : nat) : text :=
  if (length (chars s) <=? max_chars)%nat then s
  else concat (take max_chars (chars s)) ++ ELLIPSIS.

(** ** The rollups *)

Definition push_unique (l : list string) (value : string) : list string :=
  if existsb (λ v, bool_decide (v = value)) l then l else l ++ [value].

Definition is_main (ic : AgentCall) : bool :=
  match ai_subagent_name (ac_agent ic) with None => true | Some _ => false end.

Definition main_agent_user_turn_start (ic : AgentCall) : bool :=
  is_main ic && bool_decide (ai_is_user_turn_start (ac_agent ic) = Some true).

Definition partition_has_pid_attribution (calls : list AgentCall) : bool :=
  existsb (λ ic, is_main ic && bool_decide (is_Some (lc_process (ac_call ic)))) calls.

(** The main-agent call that closes a turn. *)
Definition is_terminal_call (ic : AgentCall) : bool :=
  is_main ic && ai_is_turn_terminal (ac_agent ic).

Definition models_of (calls : list AgentCall) : list string :=
  foldl (λ l ic, push_unique l (lc_model (ac_call ic))) [] calls.
Definition subagents_of (calls : list AgentCall) : list string :=
  foldl (λ l ic, match ai_subagent_name (ac_agent ic) with
                 | Some sa => push_unique l sa
                 | None => l
                 end) [] calls.

(** A u64 total of optional u32 counts. *)
Definition total_of (f : LlmCall → option Z) (calls : list AgentCall) : Z :=
  foldl (λ n ic, match f (ac_call ic) with Some t => wrap 64 (n + t) | None => n end) 0 calls.

Definition user_pick (calls : list AgentCall) : option AgentCall :=
  match List.find main_agent_user_turn_start calls with
  | Some ic => Some ic
  | None =>
      List.find (λ ic, is_main ic && bool_decide (is_Some (ai_user_input (ac_agent ic)))) calls
  end.

Definition terminal_pick (calls : list AgentCall) : option AgentCall :=
  List.find is_terminal_call (rev calls).

Definition surfaces_of (calls : list AgentCall) : list ToolSurface :=
  map snd (foldl (λ m ic, match ai_tool_surface (ac_agent ic) with
                          | Some s => bt_insert (surface_rank s) s m
                          | None => m
                          end) [] calls).

Definition tool_call_total_of (calls : list AgentCall) : Z :=
  foldl (λ n ic, u32_sat_add n (ai_tool_call_count (ac_agent ic))) 0 calls.

Definition topology_rank (t : AgentTopology) : Z :=
  match t with Orchestrator => 2 | SubAgent => 1 | SingleAgent => 0 end.
Definition topology_step (acc : Z * option AgentTopology) (ic : AgentCall)
    : Z * option AgentTopology :=
  match ai_agent_topology (ac_agent ic) with
  | Some t => if acc.1 <=? topology_rank t then (topology_rank t, Some t) else acc
  | None => acc
  end.
Definition topology_of (calls : list AgentCall) : option AgentTopology :=
  snd (foldl topology_step (0, None) calls).

Definition suspicious_of_signal (s : SuspiciousSignal) : SuspiciousSkillRollup :=
  match s with UnknownToolName name => mkSuspicious name "unknown_tool_name" end.

(** [retain(|s| seen.insert(..))]: the first of each tool name. *)
Fixpoint retain_first (seen : list string) (l : list SuspiciousSkillRollup)
    : list SuspiciousSkillRollup :=
  match l with
  | [] => []
  | s :: l' =>
      if existsb (λ n, bool_decide (n = ss_tool_name s)) seen then retain_first seen l'
      else s :: retain_first (ss_tool_name s :: seen) l'
  end.
Definition suspicious_of (calls : list AgentCall) : list SuspiciousSkillRollup :=
  retain_first []
    (concat (map (λ ic, map suspicious_of_signal (ai_suspicious_signals (ac_agent ic))) calls)).

(** ** What the rollups compute *)

Lemma push_unique_elem (l : list string) (v x : string) : x ∈ push_unique l v ↔ x ∈ l ∨ x = v.
Proof.
  unfold push_unique. destruct (existsb _ l) eqn:E.
  - apply existsb_exists in E as (y & Hy & Hyv). apply bool_decide_eq_true in Hyv as ->.
    apply list_elem_of_In in Hy. set_solver.
  - set_solver.
Qed.

Lemma push_unique_NoDup (l : list string) (v : string) : NoDup l → NoDup (push_unique l v).
Proof.
  intros Hl. unfold push_unique. destruct (existsb _ l) eqn:E; [done|].
  apply NoDup_app. split; [done|]. split; [|apply NoDup_singleton].
  intros x Hx ->%list_elem_of_singleton. apply not_true_iff_false in E. apply E.
  apply existsb_exists. exists v. split; [by apply list_elem_of_In|by apply bool_decide_eq_true].
Qed.

(** Collecting an optional name of each call, without repetition. *)
Lemma push_unique_fold (f : AgentCall → option string) (calls : list AgentCall) (l : list string) :
  let r := foldl (λ l ic, match f ic with Some v => push_unique l v | None => l end) l calls in
  (NoDup l → NoDup r) ∧ (∀ x, x ∈ r ↔ x ∈ l ∨ ∃ ic, ic ∈ calls ∧ f ic = Some x).
Proof.
  revert l; induction calls as [|ic calls IH]; intros l; cbn [foldl].
  - split; [done|]. intros x. split; [by left|]. intros [|(? & ?%not_elem_of_nil & _)]; done.
  - destruct (IH (match f ic with Some v => push_unique l v | None => l end)) as [H1 H2]. split.
    + intros Hl. apply H1. destruct (f ic); [by apply push_unique_NoDup|done].
    + intros x. rewrite H2. destruct (f ic) as [v|] eqn:E; [rewrite push_unique_elem|];
        setoid_rewrite elem_of_cons; split; naive_solver.
Qed.

Lemma surface_rank_inj (a b : ToolSurface) : surface_rank a = surface_rank b → a = b.
Proof. by destruct a, b. Qed.

Lemma surfaces_fold (calls : list AgentCall) (m : list (Z * ToolSurface)) :
  let r := foldl (λ m ic, match ai_tool_surface (ac_agent ic) with
                          | Some s => bt_insert (surface_rank s) s m
                          | None => m
                          end) m calls in
  bt_ok m → Forall (λ e, e.1 = surface_rank e.2) m →
  bt_ok r ∧ Forall (λ e, e.1 = surface_rank e.2) r ∧
  (∀ s, s ∈ map snd r ↔ s ∈ map snd m ∨ ∃ ic, ic ∈ calls ∧ ai_tool_surface (ac_agent ic) = Some s).
Proof.
  revert m; induction calls as [|ic calls IH]; intros m; cbn [foldl]; intros Hok Hr.
  - split; [done|]. split; [done|]. intros s. split; [by left|].
    intros [|(? & ?%not_elem_of_nil & _)]; done.
  - destruct (ai_tool_surface (ac_agent ic)) as [v|] eqn:E.
    2:{ destruct (IH m Hok Hr) as (H1 & H2 & H3). split; [done|]. split; [done|]. intros s.
        rewrite H3. setoid_rewrite elem_of_cons. naive_solver. }
    assert (Hr' : Forall (λ e, e.1 = surface_rank e.2) (bt_insert (surface_rank v) v m)).
    { apply Forall_forall. intros x Hx. apply elem_of_bt_insert in Hx as [->|Hx]; [done|].
      rewrite Forall_forall in Hr. by apply Hr. }
    destruct (IH (bt_insert (surface_rank v) v m)) as (H1 & H2 & H3); [by apply bt_insert_ok|done|].
    split; [done|]. split; [done|]. intros s. rewrite H3. clear IH H1 H2 H3.
    assert (Hin : s ∈ map snd (bt_insert (surface_rank v) v m) ↔ s = v ∨ s ∈ map snd m).
    { rewrite !list_elem_of_In, !in_map_iff. setoid_rewrite <- list_elem_of_In.
      setoid_rewrite bt_insert_elem; [|done..]. rewrite Forall_forall in Hr. split.
      - intros (x & <- & [->|[Hx _]]); [by left|right; by exists x].
      - intros [->|(x & <- & Hx)]; [exists (surface_rank v, v); split; [done|by left]|].
        destruct (decide (x.1 = surface_rank v)) as [Hx1|Hx1].
        + exists (surface_rank v, v). split; [|by left]. rewrite (Hr _ Hx) in Hx1.
          by apply surface_rank_inj in Hx1.
        + exists x. split; [done|]. by right. }
    rewrite Hin. setoid_rewrite elem_of_cons. naive_solver.
Qed.

Lemma surfaces_sorted (m : list (Z * ToolSurface)) :
  bt_ok m → Forall (λ e, e.1 = surface_rank e.2) m →
  StronglySorted (λ a b, surface_rank a < surface_rank b) (map snd m).
Proof.
  induction m as [|x m IH]; cbn [map]; [constructor|]. rewrite bt_ok_cons, Forall_cons.
  intros [Hok Hx] [Ex Hm]. constructor; [by apply IH|]. apply Forall_map.
  rewrite Forall_forall in Hx, Hm |- *. intros y Hy. cbn. rewrite <- Ex, <- (Hm y Hy). by apply Hx.
Qed.

Lemma topology_fold (calls : list AgentCall) (r : Z) (top : option AgentTopology) :
  match top with Some t => r = topology_rank t | None => r = 0 end →
  let '(r', top') := foldl topology_step (r, top) calls in
  match top' with Some t => r' = topology_rank t | None => r' = 0 end ∧ r <= r' ∧
  (is_Some top → is_Some top') ∧
  (∀ t, top' = Some t → top = Some t ∨
     ∃ ic, ic ∈ calls ∧ ai_agent_topology (ac_agent ic) = Some t) ∧
  (∀ ic t, ic ∈ calls → ai_agent_topology (ac_agent ic) = Some t →
     is_Some top' ∧ topology_rank t <= r').
Proof.
  revert r top; induction calls as [|ic calls IH]; intros r top Hr; cbn [foldl].
  - split; [done|]. split; [lia|]. split; [done|]. split; [by left|]. by intros ? ? ?%not_elem_of_nil.
  - destruct (topology_step (r, top) ic) as [r1 top1] eqn:E1.
    assert (H1 : match top1 with Some t => r1 = topology_rank t | None => r1 = 0 end ∧ r <= r1 ∧
      (is_Some top → is_Some top1) ∧
      (∀ t, top1 = Some t → top = Some t ∨ ai_agent_topology (ac_agent ic) = Some t) ∧
      (∀ t, ai_agent_topology (ac_agent ic) = Some t → is_Some top1 ∧ topology_rank t <= r1)).
    { unfold topology_step in E1. cbn [fst] in E1. destruct (ai_agent_topology (ac_agent ic)) as [t|] eqn:Et.
      - destruct (Z.leb_spec r (topology_rank t)); simplify_eq.
        + split; [done|]. split; [done|]. split; [done|]. split; [by right|].
          intros t' [= ->]. split; [done|lia].
        + split; [done|]. split; [lia|]. split; [done|]. split; [by left|].
          intros t' [= ->]. destruct top1; [split; [done|lia]|].
          subst r1. destruct t'; simpl in *; lia.
      - simplify_eq. split; [done|]. split; [lia|]. split; [done|]. split; [by left|done]. }
    destruct H1 as (Ha & Hb & Hc & Hd & He). specialize (IH r1 top1 Ha).
    destruct (foldl topology_step (r1, top1) calls) as [r' top']. destruct IH as (Ia & Ib & Ic & Id & Ie).
    split; [done|]. split; [lia|]. split; [tauto|]. split.
    + intros t Ht. destruct (Id t Ht) as [Ht1|(x & Hx & Hxt)].
      * destruct (Hd t Ht1) as [|Hit]; [by left|]. right. exists ic. split; [by left|done].
      * right. exists x. split; [by right|done].
    + intros x t [->|Hx]%elem_of_cons Hxt; [|by apply (Ie x)].
      destruct (He t Hxt) as [Hs Hle]. split; [by apply Ic|lia].
Qed.

Section BuildTurn.
Context `{U : UuidSupply}.

(** [assert!(!calls.is_empty())] panics; an absent [turn_id_override] draws an
    identifier. *)
Definition build_turn (calls : list AgentCall) (turn_id_override : option string)
    (status_override : option TraceStatus) (drawn : nat) : res (Trace * nat) :=
  match calls with
  | [] => Panic
  | first :: _ =>
      let '(turn_id, drawn') :=
        match turn_id_override with
        | Some id => (id, drawn)
        | None => (now_v7 drawn, S drawn)
        end in
      let start_time_us := lc_request_time (ac_call first) in
      let end_time_us := default 0 (list_max_Z (map (λ ic, last_time (ac_call ic)) calls)) in
      let '(user_input_preview, user_call_id) :=
        match user_pick calls with
        | Some ic =>
            match ai_user_input (ac_agent ic) with
            | Some t => (Some (truncate_preview t USER_INPUT_PREVIEW_CHARS),
                         Some (lc_id (ac_call ic)))
            | None => (None, None)
            end
        | None => (None, None)
        end in
      let terminal := terminal_pick calls in
      let status :=
        match status_override with
        | Some s => s
        | None => match terminal with Some _ => Complete | None => Incomplete end
        end in
      let '(final_answer_preview, final_call_id, final_finish_reason) :=
        match terminal with
        | Some ic =>
            ((λ t, truncate_preview t FINAL_ANSWER_PREVIEW_CHARS) <$> ai_assistant_text (ac_agent ic),
             Some (lc_id (ac_call ic)), lc_finish_reason (ac_call ic))
        | None => (None, None, None)
        end in
      Ret (
        {| tr_source_id := lc_source_id (ac_call first);
           tr_turn_id := turn_id;
           tr_session_id := ai_session_id (ac_agent first);
           tr_wire_api := lc_wire_api (ac_call first);
           tr_agent_kind := ai_agent_kind (ac_agent first);
           tr_client_ip := lc_client_ip (ac_call first);
           tr_server_ip := lc_server_ip (ac_call first);
           tr_start_time_us := start_time_us;
           tr_end_time_us := end_time_us;
           tr_duration_ms := Z.max (end_time_us - start_time_us) 0 / 1000;
           tr_call_count := wrap 32 (zlen calls);
           tr_models_used := models_of calls;
           tr_subagents_used := subagents_of calls;
           tr_total_input_tokens := total_of lc_input_tokens calls;
           tr_total_output_tokens := total_of lc_output_tokens calls;
           tr_total_cache_read_input_tokens := total_of lc_cache_read_input_tokens calls;
           tr_total_cache_creation_input_tokens := total_of lc_cache_creation_input_tokens calls;
           tr_total_cost_usd := None;
           tr_status := status;
           tr_final_finish_reason := final_finish_reason;
           tr_user_input_preview := user_input_preview;
           tr_user_call_id := user_call_id;
           tr_final_answer_preview := final_answer_preview;
           tr_final_call_id := final_call_id;
           tr_span_ids := map (λ ic, lc_id (ac_call ic)) calls;
           tr_metadata := B "{}";
           tr_tool_surfaces := surfaces_of calls;
           tr_tool_call_total := tool_call_total_of calls;
           tr_agent_topology := topology_of calls;
           tr_suspicious_skills := suspicious_of calls |}, drawn')
  end.

Lemma total_of_sum (f : LlmCall → option Z) (calls : list AgentCall) :
  total_of f calls = wrap 64 (sum_of (λ ic, default 0 (f (ac_call ic))) calls).
Proof.
  unfold total_of. assert (G : ∀ n, foldl (λ n ic, match f (ac_call ic) with Some t => wrap 64 (n + t) | None => n end)
      (wrap 64 n) calls = wrap 64 (n + sum_of (λ ic, default 0 (f (ac_call ic))) calls)); [|exact (G 0)].
  unfold sum_of. induction calls as [|ic calls IH]; intros n; cbn [foldl foldr]; [by rewrite Z.add_0_r|].
  destruct (f (ac_call ic)) as [t|]; cbn [default id]; [|by rewrite IH, Z.add_0_l].
  replace (wrap 64 (wrap 64 n + t)) with (wrap 64 (n + t)) by (unfold wrap; by rewrite Z.add_mod_idemp_l).
  rewrite IH. f_equal. lia.
Qed.

Lemma tool_call_total_sum (calls : list AgentCall) :
  Forall (λ ic, 0 <= ai_tool_call_count (ac_agent ic)) calls →
  tool_call_total_of calls = Z.min (sum_of (λ ic, ai_tool_call_count (ac_agent ic)) calls) (2 ^ 32 - 1).
Proof.
  unfold tool_call_total_of. intros Hf.
  assert (G : ∀ n, 0 <= n <= 2 ^ 32 - 1 →
    foldl (λ n ic, u32_sat_add n (ai_tool_call_count (ac_agent ic))) n calls
    = Z.min (n + sum_of (λ ic, ai_tool_call_count (ac_agent ic)) calls) (2 ^ 32 - 1)); [|apply (G 0); lia].
  induction Hf as [|ic calls Hic Hf IH]; intros n Hn; cbn [foldl]; [cbn; lia|].
  pose proof (sum_of_nonneg _ _ Hf). rewrite IH by (unfold u32_sat_add; lia). cbn. unfold u32_sat_add, sum_of in *. lia.
Qed.

Lemma retain_first_spec (seen : list string) (l : list SuspiciousSkillRollup) :
  NoDup (map ss_tool_name (retain_first seen l)) ∧
  ∀ s, s ∈ retain_first seen l ↔
       ss_tool_name s ∉ seen ∧ first_with (λ x, ss_tool_name x = ss_tool_name s) l s.
Proof.
  revert seen; induction l as [|x l IH]; intros seen; cbn [retain_first map].
  { split; [constructor|]. intros s. split; [by intros ?%not_elem_of_nil|]. by intros [_ ?%first_with_nil]. }
  destruct (existsb _ seen) eqn:E.
  - apply existsb_exists in E as (n & Hn & En). apply bool_decide_eq_true in En as ->. apply list_elem_of_In in Hn.
    destruct (IH seen) as [H1 H2]. split; [done|]. intros s. rewrite H2.
    destruct (decide (ss_tool_name x = ss_tool_name s)) as [Ex|Ex]; [rewrite <- Ex; tauto|].
    by rewrite first_with_cons_no.
  - assert (Hx : ss_tool_name x ∉ seen).
    { intros Hx. apply not_true_iff_false in E. apply E, existsb_exists. exists (ss_tool_name x).
      split; [by apply list_elem_of_In|by apply bool_decide_eq_true]. }
    destruct (IH (ss_tool_name x :: seen)) as [H1 H2]. split.
    + cbn [map]. apply NoDup_cons. split; [|done]. intros (y & Ey & Hy)%list_elem_of_fmap.
      apply H2 in Hy as [Hy _]. apply Hy. rewrite Ey. by left.
    + intros s. rewrite elem_of_cons, H2. destruct (decide (ss_tool_name x = ss_tool_name s)) as [Ex|Ex].
      * rewrite first_with_cons_yes by done. rewrite elem_of_cons, <- Ex. split; [|tauto].
        intros [->|[? _]]; [done|tauto].
      * rewrite first_with_cons_no by done. rewrite elem_of_cons. split; [|naive_solver].
        intros [->|?]; [done|tauto].
Qed.

Lemma models_head (first : AgentCall) (l : list AgentCall) :
  head (models_of (first :: l)) = Some (lc_model (ac_call first)).
Proof.
  unfold models_of. cbn [foldl]. change (push_unique [] ?v) with [v].
  assert (G : ∀ m, head m = Some (lc_model (ac_call first)) →
    head (foldl (λ l ic, push_unique l (lc_model (ac_call ic))) m l) = Some (lc_model (ac_call first)));
    [|by apply G].
  induction l as [|ic l IH]; intros m Hm; [done|]. apply IH. unfold push_unique. by destruct (existsb _ m), m.
Qed.

(** The calls that a turn's user input is taken from: the main agent's first
    call marked as the start of a user's turn, or, where none is marked, the
    first of its calls with an input. *)
Definition user_source (calls : list AgentCall) (ic : AgentCall) : Prop :=
  first_with (λ x, main_agent_user_turn_start x = true) calls ic ∨
  (Forall (λ x, main_agent_user_turn_start x ≠ true) calls ∧
   first_with (λ x, is_main x = true ∧ is_Some (ai_user_input (ac_agent x))) calls ic).

Lemma user_pick_spec (calls : list AgentCall) (ic : AgentCall) :
  user_pick calls = Some ic ↔ user_source calls ic.
Proof.
  unfold user_pick, user_source. destruct (List.find main_agent_user_turn_start calls) as [x|] eqn:E.
  - apply find_first_with in E as Hx. split.
    + intros [= <-]. by left.
    + intros [H%find_first_with|[H _]]; [by rewrite <- H|]. apply find_none_all in H. congruence.
  - apply find_none_all in E as Hn. rewrite find_first_with. unfold first_with.
    assert (Hb : ∀ x, is_main x && bool_decide (is_Some (ai_user_input (ac_agent x))) = true ↔
      is_main x = true ∧ is_Some (ai_user_input (ac_agent x))) by (intros x; by rewrite andb_true_iff, bool_decide_eq_true).
    split.
    + intros (l1 & l2 & -> & Hx & Hf). right. split; [done|]. exists l1, l2. split; [done|].
      split; [by apply Hb|]. eapply List.Forall_impl; [|exact Hf]. intros y. cbv beta. by rewrite Hb.
    + intros [H%find_first_with|[_ (l1 & l2 & -> & Hx & Hf)]]; [congruence|]. exists l1, l2. split; [done|].
      split; [by apply Hb|]. eapply List.Forall_impl; [|exact Hf]. intros y. cbv beta. by rewrite Hb.
Qed.

(** ** What a turn says of its calls *)

(** [tr] is the rollup of [calls], which begin with [first]. *)
Record turn_rollup (first : AgentCall) (calls : list AgentCall) (tr : Trace) : Prop := {
  ru_source : tr_source_id tr = lc_source_id (ac_call first);
  ru_session : tr_session_id tr = ai_session_id (ac_agent first);
  ru_wire_api : tr_wire_api tr = lc_wire_api (ac_call first);
  ru_agent_kind : tr_agent_kind tr = ai_agent_kind (ac_agent first);
  ru_client_ip : tr_client_ip tr = lc_client_ip (ac_call first);
  ru_server_ip : tr_server_ip tr = lc_server_ip (ac_call first);
  ru_span_ids : tr_span_ids tr = map (λ ic, lc_id (ac_call ic)) calls;
  ru_call_count : tr_call_count tr = wrap 32 (zlen calls);
  ru_start : tr_start_time_us tr = lc_request_time (ac_call first);
  ru_end_last : ∀ ic, ic ∈ calls → last_time (ac_call ic) <= tr_end_time_us tr;
  ru_end_reached : ∃ ic, ic ∈ calls ∧ tr_end_time_us tr = last_time (ac_call ic);
  ru_duration : tr_duration_ms tr = Z.max 0 (tr_end_time_us tr - tr_start_time_us tr) / 1000;
  ru_input_tokens :
    tr_total_input_tokens tr = wrap 64 (sum_of (λ ic, default 0 (lc_input_tokens (ac_call ic))) calls);
  ru_output_tokens :
    tr_total_output_tokens tr = wrap 64 (sum_of (λ ic, default 0 (lc_output_tokens (ac_call ic))) calls);
  ru_cache_read_tokens :
    tr_total_cache_read_input_tokens tr
    = wrap 64 (sum_of (λ ic, default 0 (lc_cache_read_input_tokens (ac_call ic))) calls);
  ru_cache_creation_tokens :
    tr_total_cache_creation_input_tokens tr
    = wrap 64 (sum_of (λ ic, default 0 (lc_cache_creation_input_tokens (ac_call ic))) calls);
  ru_tool_calls :
    tr_tool_call_total tr = Z.min (sum_of (λ ic, ai_tool_call_count (ac_agent ic)) calls) (2 ^ 32 - 1);
  ru_user :
    (∃ ic t, user_source calls ic ∧ ai_user_input (ac_agent ic) = Some t ∧
       tr_user_call_id tr = Some (lc_id (ac_call ic)) ∧
       tr_user_input_preview tr = Some (truncate_preview t USER_INPUT_PREVIEW_CHARS)) ∨
    ((∀ ic, user_source calls ic → ai_user_input (ac_agent ic) = None) ∧
     tr_user_call_id tr = None ∧ tr_user_input_preview tr = None);
  ru_final :
    (∃ ic, last_with (λ x, is_terminal_call x = true) calls ic ∧
       tr_final_call_id tr = Some (lc_id (ac_call ic)) ∧
       tr_final_finish_reason tr = lc_finish_reason (ac_call ic) ∧
       tr_final_answer_preview tr
       = (λ t, truncate_preview t FINAL_ANSWER_PREVIEW_CHARS) <$> ai_assistant_text (ac_agent ic)) ∨
    (Forall (λ x, is_terminal_call x ≠ true) calls ∧
     tr_final_call_id tr = None ∧ tr_final_finish_reason tr = None ∧ tr_final_answer_preview tr = None);
  ru_models_once : NoDup (tr_models_used tr);
  ru_models_first : head (tr_models_used tr) = Some (lc_model (ac_call first));
  ru_models : ∀ m, m ∈ tr_models_used tr ↔ ∃ ic, ic ∈ calls ∧ lc_model (ac_call ic) = m;
  ru_subagents_once : NoDup (tr_subagents_used tr);
  ru_subagents : ∀ s, s ∈ tr_subagents_used tr ↔ ∃ ic, ic ∈ calls ∧ ai_subagent_name (ac_agent ic) = Some s;
  ru_surfaces_sorted : StronglySorted (λ a b, surface_rank a < surface_rank b) (tr_tool_surfaces tr);
  ru_surfaces : ∀ s, s ∈ tr_tool_surfaces tr ↔ ∃ ic, ic ∈ calls ∧ ai_tool_surface (ac_agent ic) = Some s;
  ru_topology : ∀ t, tr_agent_topology tr = Some t →
    (∃ ic, ic ∈ calls ∧ ai_agent_topology (ac_agent ic) = Some t) ∧
    ∀ ic t', ic ∈ calls → ai_agent_topology (ac_agent ic) = Some t' → topology_rank t' <= topology_rank t;
  ru_no_topology : tr_agent_topology tr = None → ∀ ic, ic ∈ calls → ai_agent_topology (ac_agent ic) = None;
  ru_suspicious_once : NoDup (map ss_tool_name (tr_suspicious_skills tr));
  ru_suspicious : ∀ s, s ∈ tr_suspicious_skills tr ↔
    ss_reason s = "unknown_tool_name"%string ∧
    ∃ ic, ic ∈ calls ∧ UnknownToolName (ss_tool_name s) ∈ ai_suspicious_signals (ac_agent ic);
}.

Lemma suspicious_spec (calls : list AgentCall) :
  NoDup (map ss_tool_name (suspicious_of calls)) ∧
  ∀ s, s ∈ suspicious_of calls ↔
    ss_reason s = "unknown_tool_name"%string ∧
    ∃ ic, ic ∈ calls ∧ UnknownToolName (ss_tool_name s) ∈ ai_suspicious_signals (ac_agent ic).
Proof.
  unfold suspicious_of.
  set (l := concat (map (λ ic, map suspicious_of_signal (ai_suspicious_signals (ac_agent ic))) calls)).
  destruct (retain_first_spec [] l) as [H1 H2]. split; [done|].
  assert (Hl : ∀ s, s ∈ l ↔ ss_reason s = "unknown_tool_name"%string ∧
    ∃ ic, ic ∈ calls ∧ UnknownToolName (ss_tool_name s) ∈ ai_suspicious_signals (ac_agent ic)).
  { intros s. unfold l. rewrite list_elem_of_In, in_concat. setoid_rewrite in_map_iff.
    setoid_rewrite <- list_elem_of_In. split.
    - intros (? & (ic & <- & Hic) & Hs). apply list_elem_of_fmap in Hs as ([name] & -> & Hn). split; [done|]. by exists ic.
    - intros [Hr (ic & Hic & Hn)]. eexists. split; [by exists ic|]. apply list_elem_of_fmap.
      exists (UnknownToolName (ss_tool_name s)). split; [|done]. destruct s. cbn in *. by subst. }
  intros s. rewrite H2, <- Hl. split.
  - intros [_ Hf]. by apply first_with_elem in Hf as [? _].
  - intros Hs. split; [by apply not_elem_of_nil|].
    destruct (List.find (λ x, bool_decide (ss_tool_name x = ss_tool_name s)) l) as [y|] eqn:E.
    2:{ apply find_none_all in E. rewrite Forall_forall in E. destruct (E s Hs). by apply bool_decide_eq_true. }
    apply find_first_with in E as (l1 & l2 & E & Hn%bool_decide_eq_true & Hf).
    assert (y = s) as ->.
    { assert (Hy : y ∈ l) by (rewrite E; set_solver). apply Hl in Hy as [Hy _]. apply Hl in Hs as [Hs _].
      destruct y, s. cbn in *. congruence. }
    exists l1, l2. split; [done|]. split; [done|]. eapply List.Forall_impl; [|exact Hf].
    intros x. cbn. by rewrite bool_decide_eq_true.
Qed.

Lemma build_turn_fields (first : AgentCall) (l : list AgentCall) (id : option string)
    (status : option TraceStatus) (drawn : nat) :
  let calls := first :: l in
  Forall (λ ic, 0 <= ai_tool_call_count (ac_agent ic)) calls →
  ∃ tr drawn', build_turn calls id status drawn = Ret (tr, drawn') ∧
    tr_turn_id tr = default (now_v7 drawn) id ∧
    tr_status tr = default (match terminal_pick calls with Some _ => Complete | None => Incomplete end) status ∧
    turn_rollup first calls tr.
Proof.
  cbv zeta. cbn [build_turn]. cbv zeta. set (calls := first :: l). intros Hcounts.
  destruct (push_unique_fold (λ ic, Some (lc_model (ac_call ic))) calls []) as [Hm1 Hm2].
  destruct (push_unique_fold (λ ic, ai_subagent_name (ac_agent ic)) calls []) as [Hs1 Hs2].
  destruct (surfaces_fold calls []) as (Hsok & Hsr & Hsf); [constructor|constructor|].
  pose proof (topology_fold calls 0 None eq_refl) as Htop. unfold topology_of.
  destruct (foldl topology_step (0, None) calls) as [r top].
  destruct (list_max_Z (map (λ ic, last_time (ac_call ic)) calls)) as [e|] eqn:Ee; [|done].
  destruct (list_max_Z_spec _ _ Ee) as [He1 He2].
  apply list_elem_of_In, in_map_iff in He1 as (ce & Hce & He1).
  destruct (match id with Some i => (i, drawn) | None => (now_v7 drawn, S drawn) end)
    as [tid drawn'] eqn:Eid.
  pose proof (user_pick_spec calls) as Hu. pose proof (find_rev_last_with is_terminal_call calls) as Ht.
  change (List.find is_terminal_call (rev calls)) with (terminal_pick calls) in Ht.
  destruct (suspicious_spec calls) as [Hsp1 Hsp2].
  destruct (match user_pick calls with
            | Some ic => match ai_user_input (ac_agent ic) with
                         | Some t => (Some (truncate_preview t USER_INPUT_PREVIEW_CHARS), Some (lc_id (ac_call ic)))
                         | None => (None, None)
                         end
            | None => (None, None)
            end) as [up uc] eqn:Euser.
  destruct (match terminal_pick calls with
            | Some ic => ((λ t, truncate_preview t FINAL_ANSWER_PREVIEW_CHARS) <$> ai_assistant_text (ac_agent ic),
                          Some (lc_id (ac_call ic)), lc_finish_reason (ac_call ic))
            | None => (None, None, None)
            end) as [[fa fc] ff] eqn:Eterm.
  do 2 eexists. split; [reflexivity|]. cbn [tr_turn_id tr_status].
  split; [by destruct id; simplify_eq|]. split; [by destruct status|].
  constructor; cbn [tr_source_id tr_session_id tr_wire_api tr_agent_kind tr_client_ip tr_server_ip
    tr_span_ids tr_call_count tr_start_time_us tr_end_time_us tr_duration_ms tr_total_input_tokens
    tr_total_output_tokens tr_total_cache_read_input_tokens tr_total_cache_creation_input_tokens
    tr_tool_call_total tr_user_call_id tr_user_input_preview tr_final_call_id tr_final_finish_reason
    tr_final_answer_preview tr_models_used tr_subagents_used tr_tool_surfaces tr_agent_topology
    tr_suspicious_skills default snd]; try done; try apply total_of_sum.
  - intros ic Hic. apply He2. apply list_elem_of_In, in_map_iff. exists ic.
    split; [done|by apply list_elem_of_In].
  - exists ce. split; [by apply list_elem_of_In|done].
  - by rewrite Z.max_comm.
  - by apply tool_call_total_sum.
  - destruct (user_pick calls) as [ic|] eqn:Ep.
    + destruct (ai_user_input (ac_agent ic)) as [t|] eqn:Et; simplify_eq.
      * left. exists ic, t. split; [by apply Hu|done].
      * right. split; [|done]. intros x Hx%Hu. by simplify_eq.
    + simplify_eq. right. split; [|done]. intros x Hx%Hu. done.
  - destruct (terminal_pick calls) as [ic|] eqn:Ep; simplify_eq.
    + left. exists ic. split; [by apply Ht|done].
    + right. split; [|done]. unfold terminal_pick in Ep. apply find_none_all, Forall_rev in Ep.
      by rewrite rev_involutive in Ep.
  - by apply Hm1; constructor.
  - apply models_head.
  - intros m. unfold models_of. rewrite Hm2. split.
    + intros [?%not_elem_of_nil|(ic & Hic & [= <-])]; [done|by exists ic].
    + intros (ic & Hic & <-). right. by exists ic.
  - by apply Hs1; constructor.
  - intros s. unfold subagents_of. rewrite Hs2. split; [by intros [?%not_elem_of_nil|?]|by right].
  - by apply surfaces_sorted.
  - intros s. unfold surfaces_of. rewrite Hsf. split; [by intros [?%not_elem_of_nil|?]|by right].
  - intros t ->. destruct Htop as (Ht1 & _ & _ & Ht2 & Ht3). subst r. split; [by destruct (Ht2 t eq_refl)|].
    intros ic t' Hic Ht'. by apply (Ht3 ic).
  - intros -> ic Hic. destruct Htop as (_ & _ & _ & _ & Ht3).
    destruct (ai_agent_topology (ac_agent ic)) as [t|] eqn:Et; [|done].
    destruct (Ht3 ic t Hic Et) as [[? ?] _]. done.
Qed.

End BuildTurn.

(** ** A concrete turn *)

Definition sample_call (id : string) (time : Z) (model : string) (process : option ProcessInfo)
    : LlmCall :=
  mkCall "tap" id "anthropic" model Chat time (Some (time + 10)) (Some (time + 20))
    (B "/v1/messages") true None (Some 200) (Some "end_turn"%string) None (Some 5) (Some 7)
    (Some 12) None None None None (V4 1) 40000 (V4 2) 443 None [] [] true None None 0 [] 0 process.

Definition sample_info (session : string) (start : option bool) (terminal : bool)
    (subagent : option string) : AgentCallInfo :=
  mkAgentInfo "claude-cli" session subagent start terminal false (Some (B "fix the bug"))
    (Some (B "done")) true (Some Cli) (Some SingleAgent) [] 1 [].

(** A turn of two calls: the user's, and the one that ends it. *)
Definition sample_agent_call (id : string) (time : Z) (start terminal : bool) : AgentCall :=
  mkAgentCall (sample_call id time "claude" None)
    (sample_info "s1" (Some start) terminal None).

Definition sample_turn : list AgentCall :=
  [sample_agent_call "c1" 100 true false; sample_agent_call "c2" 200 false true].


(** Characters are counted, not bytes; the preview is a whole number of them. *)
Example truncate_preview_chars :
  truncate_preview (B "h" ++ [xc3; xa9] ++ B "llo") 2 = B "h" ++ [xc3; xa9] ++ ELLIPSIS.
Proof. vm_compute. reflexivity. Qed.
