(* ===== verification/Tracker.v ===== *)
(** * The turn tracker (h-turn/src/tracker.rs, h-turn/src/stage.rs)

    [TurnTracker] buffers the calls of each (source, session), partitions a
    buffer at its main-agent terminals once their grace has passed, and emits a
    turn per partition; idle buffers and shutdown drain without a terminal.

    Event time is microseconds, per source; wall-clock [Instant]s are integers
    of nanoseconds whose difference saturates at zero.  A loop over a hash map
    runs over [hash_iter] of it.  The identifiers drawn from [now_v7] are
    counted in [tt_drawn].  A panic of the code ([expect], [assert!]) is
    [Panic]; the theorems show that none is reached. *)

From Stdlib Require Import Strings.Byte ZArith Lia.
From stdpp Require Import base gmap sets list strings sorting.
From S2P Require Import Prelude.
From S2P Require Import Net.
From S2P Require Import Counters.
From S2P Require Import BTree.
From S2P Require Import Joiner.
From S2P Require Import Calls.
From S2P Require Import Turns.

Open Scope Z_scope.
Open Scope heron_scope.

Record TrackerConfig : Type := mkTrackerConfig {
  idle_timeout_us : Z;
  sweep_interval_us : Z;
  grace : Z;
}.
Definition tracker_config_default : TrackerConfig :=
  mkTrackerConfig 600000000 10000000 1000000000.

Inductive TurnEvent : Type := Completed (t : Trace).
Definition event_trace (e : TurnEvent) : Trace := match e with Completed t => t end.

Record BufferedCall : Type := mkBuffered {
  bc_ic : AgentCall;
  bc_arrived_at_wall : Z;
  bc_is_terminal : bool;
}.
Definition bc_time (b : BufferedCall) : Z := lc_request_time (ac_call (bc_ic b)).

Record SessionBuffer : Type := mkBuffer {
  pending : list (Z * list BufferedCall);
  grace_started_at_wall : option Z;
  last_finalized_request_time : option Z;
  last_activity_us : Z;
  current_turn_id : option string;
}.
Definition buffer_default : SessionBuffer := mkBuffer [] None None 0 None.

(** [pending.values().flatten()]. *)
Definition values {A : Type} (m : list (Z * list A)) : list A := concat (map snd m).

(** What the tracker's helpers thread through: counters, identifiers drawn,
    events. *)
Record Effects : Type := mkEffects {
  fx_metrics : counters;
  fx_drawn : nat;
  fx_events : list TurnEvent;
}.
Definition fx_inc (m : Metric) (fx : Effects) : Effects :=
  mkEffects (inc_counter m (fx_metrics fx)) (fx_drawn fx) (fx_events fx).

Inductive FinalizeKind : Type := KIdle | KFlush.

Abbreviation session := (string * string)%type.

Section Tracker.
Context `{U : UuidSupply} `{HI : !HashIter (string * string) SessionBuffer}.

Definition emit_or_discard (source_id session_id : string) (calls : list BufferedCall)
    (turn_id_override : option string) (kind : FinalizeKind) (fx : Effects)
    : res (bool * Effects) :=
  match calls with
  | [] => Ret (false, fx)
  | _ :: _ =>
      let refs := map bc_ic calls in
      let has_user_start := existsb main_agent_user_turn_start refs in
      let kept_by_pid := negb has_user_start && partition_has_pid_attribution refs in
      let fx1 := if kept_by_pid then fx_inc TurnKeptByPidAttribution fx else fx in
      if negb (has_user_start || kept_by_pid) then
        Ret (false, fx_inc TurnDiscardedNoUserStart fx1)
      else
        let* (turn0, drawn) := build_turn refs turn_id_override None (fx_drawn fx1) in
        let turn := set_key turn0 source_id session_id in
        let fx2 := mkEffects (inc_counter TurnsCompleted (fx_metrics fx1)) drawn
                     (fx_events fx1 ++ [Completed turn]) in
        Ret (true, match kind with KIdle => fx_inc TurnClosedByIdle fx2 | KFlush => fx2 end)
  end.

(** [pending.range(..=ts)]: the keys up to [ts]. *)
Definition keys_up_to {A : Type} (ts : Z) (m : list (Z * A)) : list Z :=
  List.filter (λ k, k <=? ts) (map fst m).

(** Remove the keys one by one, collecting their calls. *)
Fixpoint take_keys {A : Type} (ks : list Z) (m : list (Z * list A)) : list A * list (Z * list A) :=
  match ks with
  | [] => ([], m)
  | k :: ks' =>
      match bt_lookup k m with
      | Some v => let '(c, m') := take_keys ks' (bt_remove k m) in (v ++ c, m')
      | None => take_keys ks' m
      end
  end.

Definition set_grace (b : SessionBuffer) (g : option Z) : SessionBuffer :=
  mkBuffer (pending b) g (last_finalized_request_time b) (last_activity_us b) (current_turn_id b).

(** The loop of [finalize_session]; each round consumes a terminal. *)
Fixpoint finalize_loop (fuel : nat) (source_id session_id : string) (buf : SessionBuffer)
    (now_wall gr : Z) (fx : Effects) : res (SessionBuffer * Effects) :=
  match fuel with
  | O => OutOfFuel
  | S fuel' =>
      let sorted := sort_by_key bc_time (values (pending buf)) in
      match List.find bc_is_terminal sorted with
      | None => Ret (set_grace buf None, fx)
      | Some front =>
          if duration_since now_wall (bc_arrived_at_wall front) <? gr then
            Ret (set_grace buf (Some (bc_arrived_at_wall front)), fx)
          else
            let terminal_ts := bc_time front in
            let '(turn_calls, pending') :=
              take_keys (keys_up_to terminal_ts (pending buf)) (pending buf) in
            let* (emitted, fx1) :=
              emit_or_discard source_id session_id turn_calls (current_turn_id buf) KFlush fx in
            let fx2 := if emitted then fx_inc TurnClosedByGrace fx1 else fx1 in
            finalize_loop fuel' source_id session_id
              (mkBuffer pending' (grace_started_at_wall buf) (Some terminal_ts)
                 (last_activity_us buf) None) now_wall gr fx2
      end
  end.

Definition finalize_session (source_id session_id : string) (buf : SessionBuffer)
    (now_wall gr : Z) (fx : Effects) : res (SessionBuffer * Effects) :=
  finalize_loop (S (length (pending buf))) source_id session_id buf now_wall gr fx.

(** ** The tracker *)

Record TurnTracker : Type := mkTracker {
  tt_config : TrackerConfig;
  tt_buffers : gmap session SessionBuffer;
  tt_virtual_now : gmap string Z;
  tt_last_sweep_us : Z;
  tt_metrics : counters;
  tt_registry : option (gmap string Trace);
  tt_drawn : nat;
}.

Definition tracker_new (cfg : TrackerConfig) (registry : option (gmap string Trace)) : TurnTracker :=
  mkTracker cfg ∅ ∅ 0 counters_zero registry 0.

Definition set_buffers (t : TurnTracker) (b : gmap session SessionBuffer) : TurnTracker :=
  mkTracker (tt_config t) b (tt_virtual_now t) (tt_last_sweep_us t) (tt_metrics t)
    (tt_registry t) (tt_drawn t).
Definition set_registry (t : TurnTracker) (r : option (gmap string Trace)) : TurnTracker :=
  mkTracker (tt_config t) (tt_buffers t) (tt_virtual_now t) (tt_last_sweep_us t) (tt_metrics t)
    r (tt_drawn t).
Definition tt_inc (m : Metric) (t : TurnTracker) : TurnTracker :=
  mkTracker (tt_config t) (tt_buffers t) (tt_virtual_now t) (tt_last_sweep_us t)
    (inc_counter m (tt_metrics t)) (tt_registry t) (tt_drawn t).
(** The effects of a helper, with the buffers it leaves. *)
Definition tt_effects (t : TurnTracker) : Effects := mkEffects (tt_metrics t) (tt_drawn t) [].
Definition tt_commit (t : TurnTracker) (b : gmap session SessionBuffer) (fx : Effects)
    : TurnTracker :=
  mkTracker (tt_config t) b (tt_virtual_now t) (tt_last_sweep_us t) (fx_metrics fx)
    (tt_registry t) (fx_drawn fx).

Definition active_count (t : TurnTracker) : Z :=
  foldl (λ n kb, n + zlen (values (pending kb.2))) 0 (hash_iter (tt_buffers t)).

Definition bump_event_time (t : TurnTracker) (source_id : string) (ts : Z) : Z * TurnTracker :=
  let e := Z.max (default 0 (tt_virtual_now t !! source_id)) ts in
  (e, mkTracker (tt_config t) (tt_buffers t) (<[source_id := e]> (tt_virtual_now t))
        (tt_last_sweep_us t) (tt_metrics t) (tt_registry t) (tt_drawn t)).

Definition drop_completed_from_registry (t : TurnTracker) (events : list TurnEvent) : TurnTracker :=
  set_registry t
    ((λ m0, foldl (λ m e, delete (tr_turn_id (event_trace e)) m) m0 events) <$> tt_registry t).

(** The [retain] of [gc_buffers]. *)
Definition gc_keeps (t : TurnTracker) (k : session) (b : SessionBuffer) : bool :=
  let vn := default 0 (tt_virtual_now t !! k.1) in
  let cutoff := Z.max (- 2 ^ 63) (vn - 2 * idle_timeout_us (tt_config t)) in
  negb (bool_decide (pending b = []) && bool_decide (is_Some (last_finalized_request_time b))
        && (last_activity_us b <? cutoff)).
Definition gc_buffers (t : TurnTracker) : TurnTracker :=
  set_buffers t (filter (λ kb, gc_keeps t kb.1 kb.2 = true) (tt_buffers t)).

(** ** Grace *)

Definition ready_keys (t : TurnTracker) (now_wall : Z) : list session :=
  map fst (List.filter (λ kb, match grace_started_at_wall kb.2 with
                              | Some started => grace (tt_config t) <=? duration_since now_wall started
                              | None => false
                              end) (hash_iter (tt_buffers t))).

(** A loop over listed keys: each key's buffer goes through [f].  A key that is
    gone is an [expect] that fails, or is skipped where the code [continue]s. *)
Fixpoint for_keys (f : session → SessionBuffer → Effects → res (SessionBuffer * Effects))
    (skip_missing : bool) (keys : list session) (bufs : gmap session SessionBuffer) (fx : Effects)
    : res (gmap session SessionBuffer * Effects) :=
  match keys with
  | [] => Ret (bufs, fx)
  | key :: keys' =>
      match bufs !! key with
      | None => if skip_missing then for_keys f skip_missing keys' bufs fx else Panic
      | Some buf =>
          let* (buf', fx') := f key buf fx in
          for_keys f skip_missing keys' (<[key := buf']> bufs) fx'
      end
  end.

Definition finalize_key (now_wall gr : Z) (key : session) (buf : SessionBuffer) (fx : Effects)
    : res (SessionBuffer * Effects) := finalize_session key.1 key.2 buf now_wall gr fx.

Definition flush_ready_buffers (t : TurnTracker) (now_wall : Z)
    : res (TurnTracker * list TurnEvent) :=
  let* (bufs, fx) :=
    for_keys (finalize_key now_wall (grace (tt_config t))) false (ready_keys t now_wall)
      (tt_buffers t) (tt_effects t) in
  let t1 := gc_buffers (tt_commit t bufs fx) in
  Ret (drop_completed_from_registry t1 (fx_events fx), fx_events fx).

(** ** The in-progress snapshot *)

(** The calls up to and including the first terminal. *)
Fixpoint up_to_terminal (l : list BufferedCall) : list AgentCall :=
  match l with
  | [] => []
  | b :: l' => bc_ic b :: if bc_is_terminal b then [] else up_to_terminal l'
  end.

Definition refresh_active_snapshot (t : TurnTracker) (source_id session_id : string)
    : res TurnTracker :=
  match tt_registry t, tt_buffers t !! (source_id, session_id) with
  | Some reg, Some buf =>
      match current_turn_id buf with
      | None => Ret t
      | Some turn_id =>
          let partition := up_to_terminal (sort_by_key bc_time (values (pending buf))) in
          match partition with
          | [] => Ret t
          | _ :: _ =>
              let has_user_start := existsb main_agent_user_turn_start partition in
              let kept_by_pid := negb has_user_start && partition_has_pid_attribution partition in
              if negb (has_user_start || kept_by_pid) then Ret t
              else
                let* (snap, _) :=
                  build_turn partition (Some turn_id) (Some InProgress) (tt_drawn t) in
                Ret (set_registry t (Some (<[turn_id := set_key snap source_id session_id]> reg)))
          end
      end
  | _, _ => Ret t
  end.

Definition snapshot_active (t : TurnTracker) : list Trace :=
  match tt_registry t with Some m => map snd (map_to_list m) | None => [] end.

(** ** Ingest *)

(** Store a call in its session's buffer: [fresh] is the identifier drawn if the
    buffer has none. *)
Definition buffer_call (buf : SessionBuffer) (ic : AgentCall) (virtual_now now_wall : Z)
    (fresh : string) : SessionBuffer :=
  let is_terminal := is_terminal_call ic in
  let request_time := lc_request_time (ac_call ic) in
  mkBuffer
    (bt_insert request_time
       (default [] (bt_lookup request_time (pending buf)) ++ [mkBuffered ic now_wall is_terminal])
       (pending buf))
    (if is_terminal && bool_decide (grace_started_at_wall buf = None) then Some now_wall
     else grace_started_at_wall buf)
    (last_finalized_request_time buf)
    virtual_now
    (match current_turn_id buf with None => Some fresh | Some id => Some id end).

(** The entry guard: the call is older than what was finalized. *)
Definition late (buf : SessionBuffer) (ic : AgentCall) : bool :=
  match last_finalized_request_time buf with
  | Some hw => lc_request_time (ac_call ic) <? hw
  | None => false
  end.

Definition ingest_at (t : TurnTracker) (ic : AgentCall) (now_wall : Z)
    : res (TurnTracker * list TurnEvent) :=
  let arrival_ts := last_time (ac_call ic) in
  let source_id := lc_source_id (ac_call ic) in
  let session_id := ai_session_id (ac_agent ic) in
  let '(virtual_now, t1) := bump_event_time t source_id arrival_ts in
  let t2 := tt_inc TurnCallsIngested t1 in
  if ai_is_auxiliary (ac_agent ic) then
    flush_ready_buffers (tt_inc TurnCallsAuxiliary t2) now_wall
  else
    let key := (source_id, session_id) in
    let buf := default buffer_default (tt_buffers t2 !! key) in
    if late buf ic then
      flush_ready_buffers
        (tt_inc TurnCallsDroppedLate (set_buffers t2 (<[key := buf]> (tt_buffers t2)))) now_wall
    else
      let buf' := buffer_call buf ic virtual_now now_wall (now_v7 (tt_drawn t2)) in
      let drawn := if bool_decide (current_turn_id buf = None) then S (tt_drawn t2)
                   else tt_drawn t2 in
      let t3 := mkTracker (tt_config t2) (<[key := buf']> (tt_buffers t2)) (tt_virtual_now t2)
                  (tt_last_sweep_us t2) (tt_metrics t2) (tt_registry t2) drawn in
      let* t4 := refresh_active_snapshot t3 source_id session_id in
      flush_ready_buffers t4 now_wall.

(** ** Draining without a terminal *)

(** What [sweep] and [flush_all] do with a buffer: take every pending call, and
    emit or discard them as one partition. *)
Definition drain_buffer (key : session) (buf : SessionBuffer) (kind : FinalizeKind) (fx : Effects)
    : res (SessionBuffer * Effects) :=
  let drained := values (pending buf) in
  match drained with
  | [] => Ret (mkBuffer [] (grace_started_at_wall buf) (last_finalized_request_time buf)
                 (last_activity_us buf) (current_turn_id buf), fx)
  | _ :: _ =>
      let max_request_time := list_max_Z (map bc_time drained) in
      let* (_, fx') := emit_or_discard key.1 key.2 drained (current_turn_id buf) kind fx in
      Ret (mkBuffer [] None max_request_time (last_activity_us buf) None, fx')
  end.

(** ** Sweep *)

Definition idle_keys (t : TurnTracker) : list session :=
  map fst (List.filter (λ kb,
    let vn := default 0 (tt_virtual_now t !! (kb.1).1) in
    negb (bool_decide (pending kb.2 = []))
    && negb (existsb bc_is_terminal (values (pending kb.2)))
    && (last_activity_us kb.2 <? vn - idle_timeout_us (tt_config t)))
    (hash_iter (tt_buffers t))).

Definition sweep_key (key : session) (buf : SessionBuffer) (fx : Effects)
    : res (SessionBuffer * Effects) := drain_buffer key buf KIdle fx.

Definition sweep (t : TurnTracker) : res (TurnTracker * list TurnEvent) :=
  let global_virtual_now := default 0 (list_max_Z (map snd (map_to_list (tt_virtual_now t)))) in
  if global_virtual_now - tt_last_sweep_us t <? sweep_interval_us (tt_config t) then Ret (t, [])
  else
    let t0 := mkTracker (tt_config t) (tt_buffers t) (tt_virtual_now t) global_virtual_now
                (tt_metrics t) (tt_registry t) (tt_drawn t) in
    let* (bufs, fx) := for_keys sweep_key true (idle_keys t0) (tt_buffers t0) (tt_effects t0) in
    let t1 := gc_buffers (tt_commit t0 bufs fx) in
    Ret (drop_completed_from_registry t1 (fx_events fx), fx_events fx).

Definition advance_time_at (t : TurnTracker) (ts : Z) (source_id : string) (now_wall : Z)
    : res (TurnTracker * list TurnEvent) :=
  let '(_, t1) := bump_event_time (tt_inc TurnHeartbeatsReceived t) source_id ts in
  let* (t2, events) := flush_ready_buffers t1 now_wall in
  let* (t3, events') := sweep t2 in
  Ret (t3, events ++ events').

(** ** Shutdown *)

(** The order of [(String, String)] keys: bytewise, lexicographic. *)
Definition session_le (a b : session) : bool :=
  match String.compare a.1 b.1 with
  | Lt => true
  | Eq => match String.compare a.2 b.2 with Gt => false | _ => true end
  | Gt => false
  end.
Definition session_leP (a b : session) : Prop := session_le a b = true.
#[local] Instance session_le_dec : RelDecision session_leP.
Proof. intros a b. unfold session_leP. apply _. Defined.

Definition flush_key (force_wall gr : Z) (key : session) (buf : SessionBuffer) (fx : Effects)
    : res (SessionBuffer * Effects) :=
  let* (buf1, fx1) := finalize_session key.1 key.2 buf force_wall gr fx in
  drain_buffer key buf1 KFlush fx1.

Definition flush_all_at (t : TurnTracker) (now_wall : Z) : res (TurnTracker * list TurnEvent) :=
  let keys := merge_sort session_leP (map fst (hash_iter (tt_buffers t))) in
  let gr := grace (tt_config t) in
  let force_wall := now_wall + gr + 1 in
  let* (bufs, fx) := for_keys (flush_key force_wall gr) false keys (tt_buffers t) (tt_effects t) in
  Ret (drop_completed_from_registry (tt_commit t bufs fx) (fx_events fx), fx_events fx).

(** ** A shard of the stage (stage.rs): one input at wall-clock [now_wall] *)

Definition shard_step (t : TurnTracker) (input : TurnShardInput) (now_wall : Z)
    : res (TurnTracker * list TurnEvent) :=
  match input with
  | TCall ic =>
      let* (t1, events) := ingest_at t ic now_wall in
      let* (t2, events') := sweep t1 in
      Ret (t2, events ++ events')
  | THeartbeat ts source_id => advance_time_at t ts source_id now_wall
  end.
(** ** The invariant of a buffer

    Keys in order, no empty entries, every call under its own request time with
    its terminal flag cached right, the grace clock running exactly while a
    terminal waits, nothing older than what was finalized. *)

Definition call_ok (k : Z) (c : BufferedCall) : Prop :=
  bc_time c = k ∧ bc_is_terminal c = is_terminal_call (bc_ic c).
Definition entry_ok (e : Z * list BufferedCall) : Prop := e.2 ≠ [] ∧ Forall (call_ok e.1) e.2.
Definition pending_ok (m : list (Z * list BufferedCall)) : Prop := bt_ok m ∧ Forall entry_ok m.

Definition calls_of (b : SessionBuffer) : list BufferedCall := values (pending b).

Definition grace_ok (g : option Z) (l : list BufferedCall) : Prop :=
  match g with
  | Some t => ∃ c, c ∈ l ∧ bc_is_terminal c = true ∧ bc_arrived_at_wall c = t
  | None => Forall (λ c, bc_is_terminal c = false) l
  end.

Definition buffer_ok (b : SessionBuffer) : Prop :=
  pending_ok (pending b) ∧
  grace_ok (grace_started_at_wall b) (calls_of b) ∧
  match last_finalized_request_time b with
  | Some hw => Forall (λ c, hw <= bc_time c) (calls_of b)
  | None => True
  end.

Lemma values_cons {A} (k : Z) (v : list A) (m : list (Z * list A)) :
  values ((k, v) :: m) = v ++ values m.
Proof. done. Qed.

Lemma elem_of_values {A} (m : list (Z * list A)) (c : A) :
  c ∈ values m ↔ ∃ k v, (k, v) ∈ m ∧ c ∈ v.
Proof.
  induction m as [|[k v] m IH].
  - split; [by intros ?%not_elem_of_nil|by intros (? & ? & ?%not_elem_of_nil & _)].
  - rewrite values_cons, elem_of_app, IH. split.
    + intros [Hc|(k' & v' & Hin & Hc)]; [exists k, v; split; [by left|done]|].
      exists k', v'. split; [by right|done].
    + intros (k' & v' & [[= <- <-]|Hin]%elem_of_cons & Hc); [by left|right]. by exists k', v'.
Qed.

Lemma pending_ok_cons (k : Z) (v : list BufferedCall) (m : list (Z * list BufferedCall)) :
  pending_ok ((k, v) :: m) ↔
  v ≠ [] ∧ Forall (call_ok k) v ∧ Forall (λ e, k < e.1) m ∧ pending_ok m.
Proof.
  unfold pending_ok. rewrite bt_ok_cons, Forall_cons. unfold entry_ok at 1. cbn [fst snd]. tauto.
Qed.

Lemma pending_ok_values (m : list (Z * list BufferedCall)) (k : Z) :
  pending_ok m → Forall (λ e, k < e.1) m → Forall (λ c, k < bc_time c) (values m).
Proof.
  intros [_ Hm] Hk. apply Forall_forall. intros c Hc. apply elem_of_values in Hc as (k' & v & Hin & Hc).
  rewrite Forall_forall in Hm, Hk. destruct (Hm _ Hin) as [_ Hv]. rewrite Forall_forall in Hv.
  destruct (Hv _ Hc) as [Ht _]. specialize (Hk _ Hin). cbn in *. lia.
Qed.

Lemma pending_ok_sorted (m : list (Z * list BufferedCall)) :
  pending_ok m → StronglySorted (λ x y, bc_time x <= bc_time y) (values m).
Proof.
  induction m as [|[k v] m IH]; intros Hm; [constructor|].
  apply pending_ok_cons in Hm as (_ & Hv & Hk & Hm). rewrite values_cons.
  pose proof (pending_ok_values m k Hm Hk) as Hl. specialize (IH Hm).
  induction v as [|c v IHv]; [done|]. apply Forall_cons in Hv as [[Hc _] Hv]. cbn.
  constructor; [by apply IHv|]. apply Forall_app. split.
  - eapply Forall_impl; [exact Hv|]. intros x [Hx _]. lia.
  - eapply Forall_impl; [exact Hl|]. simpl. lia.
Qed.

Lemma sort_values (m : list (Z * list BufferedCall)) :
  pending_ok m → sort_by_key bc_time (values m) = values m.
Proof. intros Hm. by apply sort_by_key_sorted, pending_ok_sorted. Qed.

(** Splitting a map at a key. *)
Definition upto {A} (ts : Z) (m : list (Z * A)) : list (Z * A) := List.filter (λ e, e.1 <=? ts) m.
Definition above {A} (ts : Z) (m : list (Z * A)) : list (Z * A) := List.filter (λ e, ts <? e.1) m.

Lemma above_all {A} (ts : Z) (m : list (Z * A)) : Forall (λ e, ts < e.1) m → above ts m = m ∧ upto ts m = [] ∧ keys_up_to ts m = [].
Proof.
  unfold above, upto, keys_up_to. induction 1 as [|e m He Hm (IH1 & IH2 & IH3)]; [done|]. simpl.
  destruct (Z.ltb_spec ts e.1); [|lia]. destruct (Z.leb_spec e.1 ts); [lia|].
  rewrite IH1, IH2, IH3. done.
Qed.

Lemma take_keys_spec {A} (ts : Z) (m : list (Z * list A)) :
  bt_ok m → take_keys (keys_up_to ts m) m = (values (upto ts m), above ts m) ∧
            values m = values (upto ts m) ++ values (above ts m).
Proof.
  induction m as [|[k v] m IH]; intros Hok; [done|].
  apply bt_ok_cons in Hok as [Hok Hk]. cbn [fst] in Hk.
  destruct (Z.leb_spec k ts) as [Hle|Hgt].
  - destruct (IH Hok) as [E1 E2].
    assert (upto ts ((k, v) :: m) = (k, v) :: upto ts m) as ->
      by (unfold upto; simpl; by destruct (Z.leb_spec k ts); [|lia]).
    assert (above ts ((k, v) :: m) = above ts m) as ->
      by (unfold above; simpl; by destruct (Z.ltb_spec ts k); [lia|]).
    assert (keys_up_to ts ((k, v) :: m) = k :: keys_up_to ts m) as ->
      by (unfold keys_up_to; simpl; by destruct (Z.leb_spec k ts); [|lia]).
    cbn [take_keys bt_lookup]. rewrite Z.eqb_refl, bt_remove_head, E1. split; [done|].
    rewrite !values_cons, E2. by rewrite app_assoc.
  - destruct (above_all ts ((k, v) :: m)) as (-> & -> & ->).
    { constructor; [cbn; lia|]. eapply Forall_impl; [exact Hk|]. simpl. lia. }
    done.
Qed.

Lemma filter_pending_ok (f : Z * list BufferedCall → bool) (m : list (Z * list BufferedCall)) :
  pending_ok m → pending_ok (List.filter f m).
Proof.
  intros [Hb He]. split.
  - induction m as [|e m IH]; [constructor|]. apply bt_ok_cons in Hb as [Hb Hf].
    apply Forall_cons in He as [_ He]. simpl. destruct (f e); [|by apply IH].
    apply bt_ok_cons. split; [by apply IH|]. apply Forall_forall. intros x Hx.
    rewrite Forall_forall in Hf. apply Hf. apply list_elem_of_In in Hx. apply filter_In in Hx as [Hx _].
    by apply list_elem_of_In.
  - apply Forall_forall. intros x Hx. apply list_elem_of_In in Hx. apply filter_In in Hx as [Hx _].
    rewrite Forall_forall in He. apply He. by apply list_elem_of_In.
Qed.

Lemma values_upto_le (ts : Z) (m : list (Z * list BufferedCall)) :
  pending_ok m →
  Forall (λ c, bc_time c <= ts) (values (upto ts m)) ∧
  Forall (λ c, ts < bc_time c) (values (above ts m)).
Proof.
  intros Hm. pose proof (filter_pending_ok (λ e, e.1 <=? ts) m Hm) as [_ H1].
  pose proof (filter_pending_ok (λ e, ts <? e.1) m Hm) as [_ H2].
  split; apply Forall_forall; intros c Hc; apply elem_of_values in Hc as (k & v & Hin & Hc).
  - rewrite Forall_forall in H1. destruct (H1 _ Hin) as [_ Hv]. rewrite Forall_forall in Hv.
    destruct (Hv _ Hc) as [-> _]. apply list_elem_of_In, filter_In in Hin as [_ Hle]. by apply Z.leb_le.
  - rewrite Forall_forall in H2. destruct (H2 _ Hin) as [_ Hv]. rewrite Forall_forall in Hv.
    destruct (Hv _ Hc) as [-> _]. apply list_elem_of_In, filter_In in Hin as [_ Hle]. by apply Z.ltb_lt.
Qed.
(** ** What closing partitions does

    A partition is a session and its calls; [keeps] is the discard rule; a kept
    partition becomes the turn [build_turn] makes of it. *)

Definition keeps (p : session * list AgentCall) : bool :=
  existsb main_agent_user_turn_start p.2 || partition_has_pid_attribution p.2.

Definition turn_of (p : session * list AgentCall) (tr : Trace) : Prop :=
  ∃ ov d tr0 d', build_turn p.2 ov None d = Ret (tr0, d') ∧ tr = set_key tr0 p.1.1 p.1.2.

Definition closes (parts : list (session * list AgentCall)) (fx fx' : Effects) : Prop :=
  (∃ evs, fx_events fx' = fx_events fx ++ evs ∧
     Forall2 turn_of (List.filter keeps parts) (map event_trace evs)) ∧
  Forall (λ p, p.2 ≠ []) parts ∧
  fx_metrics fx' TurnsCompleted = fx_metrics fx TurnsCompleted + zlen (List.filter keeps parts) ∧
  fx_metrics fx' TurnDiscardedNoUserStart =
    fx_metrics fx TurnDiscardedNoUserStart + zlen (List.filter (λ p, negb (keeps p)) parts) ∧
  Forall (λ m, fx_metrics fx' m = fx_metrics fx m)
    [TurnCallsIngested; TurnCallsAuxiliary; TurnCallsDroppedLate].

Lemma closes_nil (fx : Effects) : closes [] fx fx.
Proof.
  split; [exists []; split; [by rewrite app_nil_r|constructor]|].
  split; [constructor|]. unfold zlen. simpl. split; [lia|]. split; [lia|]. by repeat constructor.
Qed.

Lemma closes_app (ps qs : list (session * list AgentCall)) (fx fx1 fx2 : Effects) :
  closes ps fx fx1 → closes qs fx1 fx2 → closes (ps ++ qs) fx fx2.
Proof.
  intros ((e1 & E1 & F1) & N1 & C1 & D1 & M1) ((e2 & E2 & F2) & N2 & C2 & D2 & M2).
  split; [|split; [by apply Forall_app|split; [|split]]].
  - exists (e1 ++ e2). rewrite E2, E1, app_assoc, List.filter_app, map_app. split; [done|].
    by apply Forall2_app.
  - rewrite C2, C1, List.filter_app, zlen_app. lia.
  - rewrite D2, D1, List.filter_app, zlen_app. lia.
  - apply Forall_forall. intros m Hm. rewrite Forall_forall in M1, M2. rewrite M2, M1 by done. done.
Qed.

(** Counters outside the accounting do not matter to it. *)
Lemma closes_inc (ps : list (session * list AgentCall)) (fx fx' : Effects) (m : Metric) :
  m ∉ [TurnsCompleted; TurnDiscardedNoUserStart; TurnCallsIngested; TurnCallsAuxiliary;
       TurnCallsDroppedLate] →
  closes ps fx fx' → closes ps fx (fx_inc m fx').
Proof.
  intros Hm ((e & E & F) & N & C & D & M).
  assert (Hne : ∀ m', m' ∈ [TurnsCompleted; TurnDiscardedNoUserStart; TurnCallsIngested;
    TurnCallsAuxiliary; TurnCallsDroppedLate] → fx_metrics (fx_inc m fx') m' = fx_metrics fx' m').
  { intros m' Hm'. cbn. apply add_counter_ne. intros ->. done. }
  split; [by exists e|]. split; [done|].
  rewrite !Hne by set_solver. split; [done|]. split; [done|].
  apply Forall_forall. intros m' Hm'. rewrite Forall_forall in M. rewrite Hne by set_solver. by apply M.
Qed.

Lemma emit_closes (key : session) (calls : list BufferedCall) (ov : option string)
    (kind : FinalizeKind) (fx : Effects) :
  calls ≠ [] →
  ∃ r fx', emit_or_discard key.1 key.2 calls ov kind fx = Ret (r, fx') ∧
    closes [(key, map bc_ic calls)] fx fx'.
Proof.
  intros Hne. destruct calls as [|c calls]; [done|].
  assert (Hb : ∃ tr d, build_turn (map bc_ic (c :: calls)) ov None (fx_drawn fx) = Ret (tr, d)).
  { cbn [map build_turn]. destruct (match ov with Some id => _ | None => _ end).
    destruct (match user_pick _ with Some _ => _ | None => _ end).
    destruct (match terminal_pick _ with Some _ => _ | None => _ end) as [[? ?] ?]. eauto. }
  unfold emit_or_discard. set (refs := map bc_ic (c :: calls)) in *.
  set (us := existsb main_agent_user_turn_start refs).
  set (pid := partition_has_pid_attribution refs).
  assert (Hk : keeps (key, refs) = us || pid) by done.
  assert (Hrefs : refs ≠ []) by done. clearbody refs.
  destruct (us || (negb us && pid)) eqn:Eu.
  - assert (Hkeep : keeps (key, refs) = true) by (rewrite Hk; by destruct us, pid).
    destruct Hb as (tr & d & Hb).
    assert (Hb' : build_turn refs ov None
      (fx_drawn (if negb us && pid then fx_inc TurnKeptByPidAttribution fx else fx)) = Ret (tr, d))
      by (by destruct (negb us && pid)).
    cbn [negb]. rewrite Hb'. cbn [res_bind]. do 2 eexists. split; [reflexivity|].
    set (fx1 := if negb us && pid then _ else fx).
    assert (H1 : fx_events fx1 = fx_events fx ∧ ∀ m, m ≠ TurnKeptByPidAttribution →
      fx_metrics fx1 m = fx_metrics fx m).
    { subst fx1. destruct (negb us && pid); [|done]. split; [done|]. intros m Hm.
      cbn. by apply add_counter_ne. }
    destruct H1 as [He Hm].
    assert (Hc : closes [(key, refs)] fx (mkEffects (inc_counter TurnsCompleted (fx_metrics fx1)) d
      (fx_events fx1 ++ [Completed (set_key tr key.1 key.2)]))).
    { unfold closes. cbn [List.filter]. rewrite Hkeep. cbn [negb fx_events fx_metrics]. split.
      - exists [Completed (set_key tr key.1 key.2)]. rewrite He. split; [done|].
        constructor; [|constructor]. by exists ov, (fx_drawn fx), tr, d.
      - split; [by repeat constructor|]. unfold inc_counter.
        rewrite add_counter_eq, !add_counter_ne, !Hm by done. unfold zlen; simpl.
        split; [lia|]. split; [lia|].
        repeat constructor; rewrite add_counter_ne, Hm by done; done. }
    destruct kind; [|exact Hc]. apply closes_inc; [set_solver|exact Hc].
  - assert (Hkeep : keeps (key, refs) = false) by (rewrite Hk; by destruct us, pid).
    cbn [negb]. do 2 eexists. split; [reflexivity|].
    assert (negb us && pid = false) as -> by (by destruct us, pid).
    unfold closes. cbn [List.filter]. rewrite Hkeep. cbn [negb]. split.
    + exists []. split; [by rewrite app_nil_r|constructor].
    + split; [by repeat constructor|]. cbn. unfold inc_counter.
      rewrite add_counter_eq, !add_counter_ne by done. unfold zlen; simpl.
      split; [lia|]. split; [lia|]. repeat constructor; by rewrite add_counter_ne by done.
Qed.
(** ** Partitioning at terminals

    The specification of [finalize_session] on the calls in request order: cut
    after the last call not younger than the first terminal, as long as that
    terminal has waited for the grace. *)

Inductive splits (now gr : Z) : list BufferedCall → list (list BufferedCall) →
    list BufferedCall → Prop :=
| splits_done l :
    match List.find bc_is_terminal l with
    | Some c => duration_since now (bc_arrived_at_wall c) < gr
    | None => True
    end → splits now gr l [] l
| splits_cut p rest c parts l :
    List.find bc_is_terminal (p ++ rest) = Some c →
    gr <= duration_since now (bc_arrived_at_wall c) →
    c ∈ p →
    Forall (λ x, bc_time x <= bc_time c) p →
    Forall (λ x, bc_time c < bc_time x) rest →
    splits now gr rest parts l →
    splits now gr (p ++ rest) (p :: parts) l.

Lemma splits_concat (now gr : Z) (l l' : list BufferedCall) (parts : list (list BufferedCall)) :
  splits now gr l parts l' → l = concat parts ++ l'.
Proof. induction 1 as [|? ? ? ? ? ? ? ? ? ? ? ->]; [done|]. cbn. by rewrite app_assoc. Qed.

Lemma find_terminal_elem (l : list BufferedCall) (c : BufferedCall) :
  List.find bc_is_terminal l = Some c → c ∈ l ∧ bc_is_terminal c = true.
Proof. intros H. apply find_some in H as [Hin Ht]. split; [by apply list_elem_of_In|done]. Qed.

Lemma find_terminal_None (l : list BufferedCall) :
  List.find bc_is_terminal l = None → Forall (λ c, bc_is_terminal c = false) l.
Proof.
  intros H. apply Forall_forall. intros c Hc. apply list_elem_of_In in Hc.
  by apply (find_none _ _ H).
Qed.

Lemma length_above {A} (ts : Z) (m : list (Z * A)) :
  upto ts m ≠ [] → (length (above ts m) < length m)%nat.
Proof.
  assert (Hl : ∀ m : list (Z * A), (length (upto ts m) + length (above ts m) = length m)%nat).
  { clear m. induction m as [|e m IH]; [done|]. unfold upto, above in *. simpl.
    destruct (Z.leb_spec e.1 ts), (Z.ltb_spec ts e.1); try lia; simpl; lia. }
  specialize (Hl m). destruct (upto ts m); [done|]. simpl in Hl. lia.
Qed.

Definition to_parts (key : session) (parts : list (list BufferedCall))
    : list (session * list AgentCall) := map (λ p, (key, map bc_ic p)) parts.

Lemma finalize_loop_spec (fuel : nat) (key : session) (buf : SessionBuffer) (now gr : Z)
    (fx : Effects) :
  (length (pending buf) < fuel)%nat → pending_ok (pending buf) →
  ∃ buf' fx' parts, finalize_loop fuel key.1 key.2 buf now gr fx = Ret (buf', fx') ∧
    splits now gr (calls_of buf) parts (calls_of buf') ∧
    closes (to_parts key parts) fx fx' ∧
    pending_ok (pending buf') ∧ grace_ok (grace_started_at_wall buf') (calls_of buf') ∧
    (last_finalized_request_time buf' =
       match last (concat parts) with
       | Some c => Some (bc_time c)
       | None => last_finalized_request_time buf
       end).
Proof.
  revert buf fx; induction fuel as [|fuel IH]; intros buf fx Hfuel Hp; [lia|].
  cbn [finalize_loop]. rewrite sort_values by done.
  destruct (List.find bc_is_terminal (values (pending buf))) as [c|] eqn:Ef.
  2:{ exists (set_grace buf None), fx, []. split; [done|].
      split; [apply (splits_done now gr (calls_of buf)); unfold calls_of; by rewrite Ef|].
      split; [apply closes_nil|]. split; [done|]. split; [by apply find_terminal_None|done]. }
  destruct (find_terminal_elem _ _ Ef) as [Hin Hterm].
  destruct (Z.ltb_spec (duration_since now (bc_arrived_at_wall c)) gr) as [Hlt|Hge].
  { exists (set_grace buf (Some (bc_arrived_at_wall c))), fx, []. split; [done|].
    split; [apply (splits_done now gr (calls_of buf)); unfold calls_of; by rewrite Ef|].
    split; [apply closes_nil|]. split; [done|]. split; [by exists c|done]. }
  destruct (take_keys_spec (bc_time c) (pending buf) (proj1 Hp)) as [-> Hv].
  destruct (values_upto_le (bc_time c) _ Hp) as [Hle Hgt].
  set (p := values (upto (bc_time c) (pending buf))) in *.
  set (rest := above (bc_time c) (pending buf)) in *.
  assert (Hcp : c ∈ p).
  { rewrite Hv in Hin. apply elem_of_app in Hin as [|Hin]; [done|].
    rewrite Forall_forall in Hgt. specialize (Hgt _ Hin). cbn in Hgt. lia. }
  assert (Hpne : p ≠ []) by (intros E; rewrite E in Hcp; by apply not_elem_of_nil in Hcp).
  destruct (emit_closes key p (current_turn_id buf) KFlush fx Hpne) as (r & fx1 & -> & Hc1).
  cbn [res_bind].
  set (fx2 := if r then fx_inc TurnClosedByGrace fx1 else fx1).
  assert (Hc2 : closes [(key, map bc_ic p)] fx fx2).
  { subst fx2. destruct r; [|done]. apply closes_inc; [set_solver|done]. }
  set (buf1 := mkBuffer rest _ _ _ _).
  destruct (IH buf1 fx2) as (buf' & fx' & parts & -> & Hs & Hc & Hp' & Hg & Hl).
  { cbn [pending buf1]. apply Nat.lt_le_trans with (length (pending buf)); [|lia].
    apply length_above. intros E. subst p. by rewrite E in Hpne. }
  { cbn [pending buf1]. by apply filter_pending_ok. }
  exists buf', fx', (p :: parts). split; [done|]. split.
  { unfold calls_of at 1. rewrite Hv. apply (splits_cut _ _ _ _ c); try done.
    by rewrite <- Hv. }
  split; [by apply (closes_app [(key, map bc_ic p)] _ fx fx2 fx')|].
  split; [done|]. split; [done|]. rewrite Hl. cbn [concat]. rewrite last_app.
  destruct (last (concat parts)) as [x|] eqn:El; [done|]. cbn [last_finalized_request_time buf1].
  destruct (last p) as [x|] eqn:Elp; [|by apply last_None in Elp]. f_equal.
  apply last_Some in Elp as [p' Ep]. rewrite Forall_forall in Hle.
  assert (bc_time x <= bc_time c) by (apply Hle; rewrite Ep; set_solver).
  assert (Hsort : StronglySorted (λ x y, bc_time x <= bc_time y) p)
    by (apply pending_ok_sorted; by apply filter_pending_ok).
  rewrite Ep in Hsort, Hcp. apply elem_of_app in Hcp as [Hcp|Hcp].
  - apply StronglySorted_app in Hsort as (Hx & _ & _).
    assert (bc_time c <= bc_time x) by (apply Hx; [done|by left]). lia.
  - apply list_elem_of_singleton in Hcp as ->. lia.
Qed.

Lemma finalize_session_spec (key : session) (buf : SessionBuffer) (now gr : Z) (fx : Effects) :
  pending_ok (pending buf) →
  ∃ buf' fx' parts, finalize_session key.1 key.2 buf now gr fx = Ret (buf', fx') ∧
    splits now gr (calls_of buf) parts (calls_of buf') ∧
    closes (to_parts key parts) fx fx' ∧
    pending_ok (pending buf') ∧ grace_ok (grace_started_at_wall buf') (calls_of buf') ∧
    (last_finalized_request_time buf' =
       match last (concat parts) with
       | Some c => Some (bc_time c)
       | None => last_finalized_request_time buf
       end).
Proof. intros Hp. apply finalize_loop_spec; [lia|done]. Qed.
Lemma splits_above (now gr : Z) (l l' : list BufferedCall) (parts : list (list BufferedCall))
    (x : BufferedCall) :
  splits now gr l parts l' → last (concat parts) = Some x →
  Forall (λ c, bc_time x < bc_time c) l'.
Proof.
  induction 1 as [|p rest c parts l' Hf Hg Hc Hp Hr Hs IH]; [done|]. cbn [concat].
  rewrite last_app. destruct (last (concat parts)) as [y|] eqn:El; [exact IH|].
  apply last_None in El. apply splits_concat in Hs. rewrite El in Hs. cbn in Hs. subst rest.
  intros Hx. apply last_Some in Hx as [p' Ep]. rewrite Forall_forall in Hp.
  assert (bc_time x <= bc_time c) by (apply Hp; rewrite Ep; set_solver).
  eapply Forall_impl; [exact Hr|]. simpl. lia.
Qed.

(** The session a call belongs to, and the invariant of a stored buffer. *)
Definition call_session (ic : AgentCall) : session :=
  (lc_source_id (ac_call ic), ai_session_id (ac_agent ic)).
Definition stored_ok (k : session) (b : SessionBuffer) : Prop :=
  buffer_ok b ∧ Forall (λ c, call_session (bc_ic c) = k) (calls_of b).
Definition buffers_ok (m : gmap session SessionBuffer) : Prop := map_Forall stored_ok m.
Definition tracker_ok (t : TurnTracker) : Prop := buffers_ok (tt_buffers t).

(** What closing partitions of one buffer must do. *)
Definition closing_step (f : session → SessionBuffer → Effects → res (SessionBuffer * Effects))
    (Q : SessionBuffer → SessionBuffer → Prop) : Prop :=
  ∀ key b fx, stored_ok key b →
    ∃ b' fx' parts, f key b fx = Ret (b', fx') ∧ stored_ok key b' ∧
      closes (to_parts key parts) fx fx' ∧ calls_of b = concat parts ++ calls_of b' ∧ Q b b'.

Lemma finalize_closing (now gr : Z) :
  closing_step (finalize_key now gr) (λ b b', ∃ parts, splits now gr (calls_of b) parts (calls_of b')).
Proof.
  intros key b fx [(Hp & Hg & Hh) Hk]. unfold finalize_key.
  destruct (finalize_session_spec key b now gr fx Hp) as (b' & fx' & parts & -> & Hs & Hc & Hp' & Hg' & Hl).
  pose proof (splits_concat _ _ _ _ _ Hs) as E. exists b', fx', parts. split; [done|].
  split; [|split; [done|split; [done|by exists parts]]].
  rewrite E, Forall_app in Hk. split; [|by destruct Hk]. split; [done|]. split; [done|]. rewrite Hl.
  destruct (last (concat parts)) as [x|] eqn:El.
  - eapply Forall_impl; [by apply (splits_above _ _ _ _ _ _ Hs El)|]. simpl. lia.
  - destruct (last_finalized_request_time b); [|done]. rewrite E, Forall_app in Hh. by destruct Hh.
Qed.

Lemma drain_closing (kind : FinalizeKind) :
  closing_step (λ key b fx, drain_buffer key b kind fx) (λ b b', pending b' = []).
Proof.
  intros key b fx [(Hp & Hg & Hh) Hk]. unfold drain_buffer. unfold calls_of in *.
  destruct (values (pending b)) as [|c l] eqn:Ev.
  - do 2 eexists. exists []. split; [done|]. split; [|split; [apply closes_nil|done]].
    unfold stored_ok, buffer_ok, calls_of; cbn. split; [|constructor]. split; [by repeat constructor|].
    split; [done|]. by destruct (last_finalized_request_time b).
  - destruct (emit_closes key (c :: l) (current_turn_id b) kind fx) as (r & fx' & -> & Hc); [done|].
    cbn [res_bind]. do 2 eexists. exists [c :: l]. split; [done|]. split; [|split; [done|]].
    + unfold stored_ok, buffer_ok, calls_of; cbn. split; [|constructor]. split; [by repeat constructor|].
      split; constructor.
    + by cbn; rewrite !app_nil_r.
Qed.
Lemma flush_closing (force gr : Z) :
  closing_step (flush_key force gr) (λ b b', pending b' = []).
Proof.
  intros key b fx Hb. unfold flush_key.
  destruct (finalize_closing force gr key b fx Hb) as (b1 & fx1 & ps1 & E1 & Hb1 & Hc1 & Hl1 & _).
  unfold finalize_key in E1. rewrite E1. cbn [res_bind].
  destruct (drain_closing KFlush key b1 fx1 Hb1) as (b2 & fx2 & ps2 & E2 & Hb2 & Hc2 & Hl2 & HQ).
  exists b2, fx2, (ps1 ++ ps2). split; [done|]. split; [done|]. split.
  - unfold to_parts. rewrite map_app. by apply (closes_app _ _ fx fx1 fx2).
  - split; [|done]. by rewrite Hl1, Hl2, concat_app, app_assoc.
Qed.

(** ** The calls a tracker holds *)

Definition map_calls (m : gmap session SessionBuffer) : list AgentCall :=
  map_to_list m ≫= λ kb, map bc_ic (calls_of kb.2).
Definition buffered (t : TurnTracker) : list AgentCall := map_calls (tt_buffers t).

Lemma map_calls_insert (k : session) (b : SessionBuffer) (m : gmap session SessionBuffer) :
  m !! k = None → map_calls (<[k := b]> m) ≡ₚ map bc_ic (calls_of b) ++ map_calls m.
Proof. intros H. unfold map_calls. by rewrite map_to_list_insert. Qed.

Lemma map_calls_update (k : session) (b : SessionBuffer) (m : gmap session SessionBuffer) :
  map_calls (<[k := b]> m) ≡ₚ map bc_ic (calls_of b) ++ map_calls (delete k m).
Proof. rewrite <- insert_delete_eq. apply map_calls_insert, lookup_delete_eq. Qed.

Lemma map_calls_lookup (k : session) (b : SessionBuffer) (m : gmap session SessionBuffer) :
  m !! k = Some b → map_calls m ≡ₚ map bc_ic (calls_of b) ++ map_calls (delete k m).
Proof. intros H. rewrite <- map_calls_update. by rewrite insert_id. Qed.

Lemma map_calls_filter (f : session * SessionBuffer → bool) (m : gmap session SessionBuffer) :
  (∀ k b, m !! k = Some b → f (k, b) = false → pending b = []) →
  map_calls (filter (λ kb, f kb = true) m) ≡ₚ map_calls m.
Proof.
  induction m as [|k b m Hk IH] using map_ind; intros Hf; [by rewrite map_filter_empty|].
  assert (Hf' : ∀ k' b', m !! k' = Some b' → f (k', b') = false → pending b' = []).
  { intros k' b' Hl. apply Hf. rewrite lookup_insert_ne; [done|]. intros ->. congruence. }
  rewrite map_calls_insert by done. destruct (f (k, b)) eqn:E.
  - rewrite map_filter_insert_True by done. rewrite map_calls_insert, IH by done || by
      (rewrite map_lookup_filter, Hk). done.
  - rewrite map_filter_insert_False, delete_id by (done || congruence).
    unfold calls_of. rewrite (Hf k b) by (rewrite ?lookup_insert_eq; done). cbn. by apply IH.
Qed.

Lemma buffers_ok_insert (k : session) (b : SessionBuffer) (m : gmap session SessionBuffer) :
  stored_ok k b → buffers_ok m → buffers_ok (<[k := b]> m).
Proof. intros Hb Hm. by apply map_Forall_insert_2. Qed.

Definition part_calls (parts : list (session * list AgentCall)) : list AgentCall :=
  concat (map snd parts).

Lemma part_calls_to_parts (key : session) (parts : list (list BufferedCall)) :
  part_calls (to_parts key parts) = map bc_ic (concat parts).
Proof.
  unfold part_calls, to_parts. induction parts as [|p parts IH]; [done|]. cbn. by rewrite IH, map_app.
Qed.

Lemma part_calls_app (ps qs : list (session * list AgentCall)) :
  part_calls (ps ++ qs) = part_calls ps ++ part_calls qs.
Proof. unfold part_calls. by rewrite map_app, concat_app. Qed.

Lemma for_keys_spec (f : session → SessionBuffer → Effects → res (SessionBuffer * Effects))
    (Q : SessionBuffer → SessionBuffer → Prop) (skip : bool) (keys : list session) (bufs : gmap session SessionBuffer)
    (fx : Effects) :
  closing_step f Q → NoDup keys → buffers_ok bufs →
  (∀ k, k ∈ keys → is_Some (bufs !! k)) →
  ∃ bufs' fx' parts, for_keys f skip keys bufs fx = Ret (bufs', fx') ∧
    buffers_ok bufs' ∧ closes parts fx fx' ∧
    map_calls bufs ≡ₚ part_calls parts ++ map_calls bufs' ∧
    (∀ k, k ∉ keys → bufs' !! k = bufs !! k) ∧
    (∀ k b, k ∈ keys → bufs !! k = Some b → ∃ b', bufs' !! k = Some b' ∧ Q b b').
Proof.
  intros Hf. revert bufs fx; induction keys as [|key keys IH]; intros bufs fx Hnd Hok Hin.
  { exists bufs, fx, []. split; [done|]. split; [done|]. split; [apply closes_nil|].
    split; [done|]. split; [done|]. by intros k b ?%not_elem_of_nil. }
  apply NoDup_cons in Hnd as [Hni Hnd]. cbn [for_keys].
  destruct (Hin key) as [b Hb]; [by left|]. rewrite Hb.
  destruct (Hf key b fx (Hok _ _ Hb)) as (b' & fx1 & ps1 & -> & Hb' & Hc1 & Hl1 & HQ).
  cbn [res_bind].
  destruct (IH (<[key := b']> bufs) fx1 Hnd) as (bufs' & fx' & ps & -> & Hok' & Hc & Hp & Hother & Hin').
  { by apply buffers_ok_insert. }
  { intros k Hk. destruct (decide (key = k)) as [->|Hne]; [by rewrite lookup_insert_eq|].
    rewrite lookup_insert_ne by done. apply Hin. by right. }
  exists bufs', fx', (to_parts key ps1 ++ ps). split; [done|]. split; [done|].
  split; [by apply (closes_app _ _ fx fx1 fx')|]. split; [|split].
  - rewrite part_calls_app, part_calls_to_parts, (map_calls_lookup key b bufs Hb), Hl1, map_app.
    rewrite <- !app_assoc, <- Hp, map_calls_update. done.
  - intros k Hk. apply not_elem_of_cons in Hk as [Hne Hk]. rewrite Hother by done.
    by apply lookup_insert_ne.
  - intros k b0 [->|Hk]%elem_of_cons Hb0.
    + exists b'. rewrite Hother by done. rewrite lookup_insert_eq. split; [done|]. congruence.
    + apply Hin'; [done|]. rewrite lookup_insert_ne; [done|]. by intros ->.
Qed.
(** ** Storing a call *)

Lemma pending_insert (k : Z) (c : BufferedCall) (m : list (Z * list BufferedCall)) :
  pending_ok m → call_ok k c →
  let m' := bt_insert k (default [] (bt_lookup k m) ++ [c]) m in
  pending_ok m' ∧ values m' ≡ₚ c :: values m.
Proof.
  intros Hm Hc. cbn zeta. induction m as [|[k' v'] m IH]; cbn [bt_insert bt_lookup default].
  { split; [|done]. apply pending_ok_cons. split; [done|]. split; [by apply Forall_singleton|]. by split; [constructor|]. }
  pose proof Hm as Hm0. apply pending_ok_cons in Hm as (Hv & Hcs & Hk & Hm).
  destruct (Z.ltb_spec k k') as [Hlt|Hge].
  - assert (Hf : Forall (λ e : Z * list BufferedCall, k < e.1) ((k', v') :: m)).
    { constructor; [cbn; lia|]. eapply Forall_impl; [exact Hk|]. simpl. lia. }
    destruct (Z.eqb_spec k k'); [lia|].
    rewrite bt_lookup_below by (by apply Forall_cons in Hf as [_ Hf]). cbn [default app].
    split; [|by rewrite values_cons]. apply pending_ok_cons. split; [done|].
    split; [by apply Forall_singleton|done].
  - destruct (Z.eqb_spec k k') as [->|Hne]; cbn [default].
    + split; [|rewrite !values_cons, <- app_assoc; cbn; by rewrite <- Permutation_middle].
      apply pending_ok_cons. split; [by destruct v'|]. split; [|done].
      apply Forall_app. split; [done|by apply Forall_singleton].
    + destruct (IH Hm) as [IHok IHv]. split.
      * apply pending_ok_cons. split; [done|]. split; [done|]. split; [|done].
        apply Forall_forall. intros x Hx. apply elem_of_bt_insert in Hx as [->|Hx]; cbn; [lia|].
        rewrite Forall_forall in Hk. by apply Hk.
      * rewrite !values_cons, IHv. by rewrite <- Permutation_middle.
Qed.

Lemma buffer_call_ok (buf : SessionBuffer) (ic : AgentCall) (vn now : Z) (fresh : string) :
  stored_ok (call_session ic) buf → late buf ic = false →
  stored_ok (call_session ic) (buffer_call buf ic vn now fresh) ∧
  map bc_ic (calls_of (buffer_call buf ic vn now fresh)) ≡ₚ ic :: map bc_ic (calls_of buf).
Proof.
  intros [(Hp & Hg & Hh) Hk] Hlate.
  set (c := mkBuffered ic now (is_terminal_call ic)).
  destruct (pending_insert (lc_request_time (ac_call ic)) c (pending buf) Hp) as [Hp' Hv]; [done|].
  fold (calls_of buf) in Hv. split; [|unfold calls_of at 1; cbn [pending buffer_call]; fold c; by rewrite Hv].
  unfold stored_ok, buffer_ok. unfold calls_of in Hk, Hg, Hh |- *.
  cbn [pending buffer_call grace_started_at_wall last_finalized_request_time].
  fold c. split; [split; [done|split]|].
  - destruct (is_terminal_call ic && bool_decide (grace_started_at_wall buf = None)) eqn:E.
    + exists c. rewrite Hv. split; [by left|]. split; [|done]. zify_bool. done.
    + destruct (grace_started_at_wall buf) as [g|]; cbn [grace_ok] in *.
      * destruct Hg as (x & Hx & Ht & Ha). exists x. rewrite Hv. split; [by right|done].
      * rewrite Hv. constructor; [|done]. cbn. by destruct (is_terminal_call ic).
  - unfold late in Hlate. destruct (last_finalized_request_time buf) as [hw|]; [|done].
    rewrite Hv. constructor; [|done]. unfold bc_time; cbn. by apply Z.ltb_ge.
  - rewrite Hv. by constructor.
Qed.

Lemma stored_default (k : session) : stored_ok k buffer_default.
Proof. split; [|constructor]. split; [by repeat constructor|]. split; [constructor|done]. Qed.

Lemma default_stored (t : TurnTracker) (k : session) :
  tracker_ok t → stored_ok k (default buffer_default (tt_buffers t !! k)).
Proof.
  intros Ht. destruct (tt_buffers t !! k) as [b|] eqn:E; [by apply Ht|apply stored_default].
Qed.

Lemma default_calls (t : TurnTracker) (k : session) :
  buffered t ≡ₚ map bc_ic (calls_of (default buffer_default (tt_buffers t !! k)))
                ++ map_calls (delete k (tt_buffers t)).
Proof.
  unfold buffered. destruct (tt_buffers t !! k) as [b|] eqn:E; cbn [default].
  - by apply map_calls_lookup.
  - cbn. by rewrite delete_id.
Qed.

(** ** The operations *)

(** What an operation does to the calls it held: it closes partitions, and keeps
    the rest. *)
Definition op_closes (parts : list (session * list AgentCall)) (t t' : TurnTracker)
    (evs : list TurnEvent) : Prop :=
  closes parts (tt_effects t) (mkEffects (tt_metrics t') (tt_drawn t') evs) ∧
  tracker_ok t' ∧ tt_config t' = tt_config t ∧
  buffered t ≡ₚ part_calls parts ++ buffered t'.

Section Laws.
Context `{HIL : !HashIterLaws (string * string) SessionBuffer HI}.

Lemma gc_lookup (t : TurnTracker) (k : session) (b : SessionBuffer) :
  tt_buffers (gc_buffers t) !! k = Some b → tt_buffers t !! k = Some b.
Proof. intros H. by apply map_lookup_filter_Some in H as [H _]. Qed.

Lemma gc_ok (t : TurnTracker) : tracker_ok t → tracker_ok (gc_buffers t).
Proof. intros H k b Hl. apply H. by apply gc_lookup. Qed.

Lemma gc_buffered (t : TurnTracker) : buffered (gc_buffers t) ≡ₚ buffered t.
Proof.
  apply (map_calls_filter (λ kb, gc_keeps t kb.1 kb.2)). intros k b _ Hg. unfold gc_keeps in Hg.
  cbn [fst snd] in Hg. zify_bool. done.
Qed.

Lemma NoDup_filter_keys (f : session * SessionBuffer → bool) (m : gmap session SessionBuffer) :
  NoDup (map fst (List.filter f (hash_iter m))) ∧
  ∀ k, k ∈ map fst (List.filter f (hash_iter m)) ↔ ∃ b, m !! k = Some b ∧ f (k, b) = true.
Proof.
  pose proof (NoDup_hash_iter m) as Hn. split.
  - induction (hash_iter m) as [|[k b] l IH]; [constructor|]. cbn in Hn.
    apply NoDup_cons in Hn as [Hk Hn]. simpl. destruct (f (k, b)); [|by apply IH].
    cbn. apply NoDup_cons. split; [|by apply IH]. intros Hin. apply Hk.
    apply list_elem_of_In, in_map_iff in Hin as (x & Hx & Hin). apply filter_In in Hin as [Hin _].
    apply list_elem_of_In, in_map_iff. by exists x.
  - intros k. rewrite list_elem_of_In, in_map_iff. split.
    + intros ([k' b] & <- & Hin). apply filter_In in Hin as [Hin Hf].
      apply list_elem_of_In, elem_of_hash_iter in Hin. by exists b.
    + intros (b & Hl & Hf). exists (k, b). split; [done|]. apply filter_In. split; [|done].
      by apply list_elem_of_In, elem_of_hash_iter.
Qed.

(** Looping over listed keys and committing, with a collection or not. *)
Lemma commit_closes (t : TurnTracker) (bufs : gmap session SessionBuffer) (fx : Effects)
    (parts : list (session * list AgentCall)) (evs : list TurnEvent) :
  buffers_ok bufs → closes parts (tt_effects t) fx → evs = fx_events fx →
  buffered t ≡ₚ part_calls parts ++ map_calls bufs →
  op_closes parts t (drop_completed_from_registry (tt_commit t bufs fx) evs) evs ∧
  op_closes parts t (drop_completed_from_registry (gc_buffers (tt_commit t bufs fx)) evs) evs.
Proof.
  intros Hok Hc -> Hp. split.
  - split; [by destruct fx|]. split; [done|]. split; [done|]. exact Hp.
  - split; [by destruct fx|]. split; [by apply (gc_ok (tt_commit t bufs fx))|]. split; [done|].
    rewrite Hp. f_equiv. symmetry. apply (gc_buffered (tt_commit t bufs fx)).
Qed.

Definition waits (now gr : Z) (b : SessionBuffer) : Prop :=
  Forall (λ c, bc_is_terminal c = false) (calls_of b) ∨
  ∃ c, c ∈ calls_of b ∧ bc_is_terminal c = true ∧
    duration_since now (bc_arrived_at_wall c) < gr.

Lemma flush_ready_spec (t : TurnTracker) (now : Z) :
  tracker_ok t →
  ∃ t' evs parts, flush_ready_buffers t now = Ret (t', evs) ∧ op_closes parts t t' evs ∧
    map_Forall (λ _ b, waits now (grace (tt_config t)) b) (tt_buffers t').
Proof.
  intros Ht. unfold flush_ready_buffers, ready_keys.
  destruct (NoDup_filter_keys (λ kb, match grace_started_at_wall kb.2 with
      | Some started => grace (tt_config t) <=? duration_since now started
      | None => false end) (tt_buffers t)) as [Hnd Hkeys].
  set (keys := map fst _) in *.
  destruct (for_keys_spec _ _ false keys (tt_buffers t) (tt_effects t)
    (finalize_closing now (grace (tt_config t))) Hnd Ht) as
    (bufs & fx & parts & -> & Hok & Hc & Hp & Hother & Hin).
  { intros k Hk. apply Hkeys in Hk as (b & Hb & _). by exists b. }
  cbn [res_bind]. do 2 eexists. exists parts. split; [reflexivity|].
  split; [by apply commit_closes|].
  intros k b Hb. cbn in Hb. apply (gc_lookup (tt_commit t bufs fx)) in Hb. cbn in Hb.
  destruct (decide (k ∈ keys)) as [Hk|Hk].
  - destruct (proj1 (Hkeys k) Hk) as (b0 & Hb0 & _).
    destruct (Hin k b0 Hk Hb0) as (b' & Hb' & ps & Hs). rewrite Hb' in Hb. injection Hb as ->.
    remember (calls_of b) as l eqn:El. unfold waits. rewrite <- El. clear -Hs.
    induction Hs as [l Hd|]; [|done].
    destruct (List.find bc_is_terminal l) as [c|] eqn:Ef.
    + right. exists c. destruct (find_terminal_elem _ _ Ef). done.
    + left. by apply find_terminal_None.
  - rewrite Hother in Hb by done. destruct (Ht k b Hb) as [(_ & Hg & _) _]. unfold waits.
    destruct (grace_started_at_wall b) as [g|] eqn:Eg; [right|by left].
    destruct Hg as (c & Hc' & Ht' & Ha). exists c. split; [done|]. split; [done|]. rewrite Ha.
    destruct (Z.ltb_spec (duration_since now g) (grace (tt_config t))); [done|].
    exfalso. apply Hk. apply Hkeys. exists b. split; [done|]. cbn. rewrite Eg. by apply Z.leb_le.
Qed.
Lemma sweep_spec (t : TurnTracker) :
  tracker_ok t →
  ∃ t' evs parts, sweep t = Ret (t', evs) ∧ op_closes parts t t' evs.
Proof.
  intros Ht. unfold sweep. set (now := default 0 _). destruct (_ <? _).
  - exists t, [], []. split; [done|]. split; [apply (closes_nil (tt_effects t))|done].
  - set (t0 := mkTracker _ _ _ _ _ _ _). unfold idle_keys. set (f := λ kb, _ && _).
    destruct (NoDup_filter_keys f (tt_buffers t0)) as [Hnd Hkeys].
    destruct (for_keys_spec sweep_key _ true _ (tt_buffers t0) (tt_effects t0) (drain_closing KIdle) Hnd Ht)
      as (bufs & fx & parts & -> & Hok & Hc & Hp & _).
    { intros k Hk. apply Hkeys in Hk as (b & Hb & _). by exists b. }
    cbn [res_bind]. do 2 eexists. exists parts. split; [reflexivity|].
    by apply (commit_closes t0).
Qed.

Lemma refresh_spec (t : TurnTracker) (s k : string) :
  ∃ r, refresh_active_snapshot t s k = Ret (set_registry t r).
Proof.
  assert (Hid : t = set_registry t (tt_registry t)) by (by destruct t).
  unfold refresh_active_snapshot. destruct (tt_registry t) as [reg|] eqn:Er; [|by eexists; rewrite <- Hid].
  destruct (tt_buffers t !! (s, k)) as [buf|]; [|by eexists; rewrite <- Hid].
  destruct (current_turn_id buf) as [id|]; [|by eexists; rewrite <- Hid].
  destruct (up_to_terminal _) as [|c l]; [by eexists; rewrite <- Hid|].
  destruct (negb _); [by eexists; rewrite <- Hid|]. cbn [build_turn].
  destruct (match user_pick _ with Some _ => _ | None => _ end).
  destruct (match terminal_pick _ with Some _ => _ | None => _ end) as [[? ?] ?].
  cbn [res_bind]. by eexists.
Qed.

(** ** Accounting for calls

    From [t] to [t'], the calls taken in and those already buffered are, each
    exactly once, in a closed partition, still buffered, auxiliary, or late;
    the kept partitions are the turns emitted; the counters say so. *)
Definition delta (m : Metric) (t t' : TurnTracker) : Z := tt_metrics t' m - tt_metrics t m.

Definition auxiliary (ics : list AgentCall) : list AgentCall :=
  List.filter (λ ic, ai_is_auxiliary (ac_agent ic)) ics.

Definition accounts (ics : list AgentCall) (t t' : TurnTracker) (evs : list TurnEvent) : Prop :=
  ∃ parts late_calls,
    Forall2 turn_of (List.filter keeps parts) (map event_trace evs) ∧
    Forall (λ p, p.2 ≠ []) parts ∧
    ics ++ buffered t ≡ₚ part_calls parts ++ buffered t' ++ auxiliary ics ++ late_calls ∧
    delta TurnCallsIngested t t' = zlen ics ∧
    delta TurnCallsAuxiliary t t' = zlen (auxiliary ics) ∧
    delta TurnCallsDroppedLate t t' = zlen late_calls ∧
    delta TurnsCompleted t t' = zlen evs ∧
    delta TurnDiscardedNoUserStart t t' = zlen (List.filter (λ p, negb (keeps p)) parts).

Lemma accounts_intro (ics late_calls : list AgentCall) (t t0 t' : TurnTracker)
    (evs : list TurnEvent) (parts : list (session * list AgentCall)) :
  op_closes parts t0 t' evs →
  ics ++ buffered t ≡ₚ buffered t0 ++ auxiliary ics ++ late_calls →
  delta TurnCallsIngested t t0 = zlen ics →
  delta TurnCallsAuxiliary t t0 = zlen (auxiliary ics) →
  delta TurnCallsDroppedLate t t0 = zlen late_calls →
  delta TurnsCompleted t t0 = 0 → delta TurnDiscardedNoUserStart t t0 = 0 →
  accounts ics t t' evs.
Proof.
  unfold delta. intros (((e & He & Hf) & Hne & Hcm & Hd & Hm) & _ & _ & Hp) Hb H1 H2 H3 H4 H5.
  cbn in He, Hcm, Hd, Hm. subst e. exists parts, late_calls. split; [done|]. split; [done|].
  rewrite Hb, Hp, <- !app_assoc. split; [done|]. apply Forall_cons in Hm as [M1 Hm].
  apply Forall_cons in Hm as [M2 Hm]. apply Forall_cons in Hm as [M3 _].
  apply Forall2_length in Hf. rewrite length_map in Hf. unfold zlen in *. unfold delta. lia.
Qed.

Lemma accounts_app (ics1 ics2 : list AgentCall) (t t1 t2 : TurnTracker) (evs1 evs2 : list TurnEvent) :
  accounts ics1 t t1 evs1 → accounts ics2 t1 t2 evs2 → accounts (ics1 ++ ics2) t t2 (evs1 ++ evs2).
Proof.
  intros (p1 & l1 & F1 & N1 & P1 & A1 & B1 & C1 & D1 & E1)
         (p2 & l2 & F2 & N2 & P2 & A2 & B2 & C2 & D2 & E2).
  exists (p1 ++ p2), (l1 ++ l2). unfold delta, auxiliary in *.
  rewrite !List.filter_app, map_app, part_calls_app, !zlen_app.
  split; [by apply Forall2_app|]. split; [by apply Forall_app|]. split; [|lia].
  trans (ics2 ++ (ics1 ++ buffered t)); [solve_Permutation|]. rewrite P1.
  trans (part_calls p1 ++ List.filter (λ ic, ai_is_auxiliary (ac_agent ic)) ics1 ++ l1
         ++ (ics2 ++ buffered t1)); [solve_Permutation|]. rewrite P2. solve_Permutation.
Qed.

Lemma accounts_nil (t : TurnTracker) : accounts [] t t [].
Proof.
  exists [], []. split; [constructor|]. split; [constructor|]. unfold delta, zlen; cbn.
  split; [by rewrite app_nil_r|]. lia.
Qed.

Definition op_accounts (ics : list AgentCall) (t : TurnTracker)
    (r : res (TurnTracker * list TurnEvent)) : Prop :=
  ∃ t' evs, r = Ret (t', evs) ∧ tracker_ok t' ∧ tt_config t' = tt_config t ∧ accounts ics t t' evs.

Lemma op_accounts_closes (ics late_calls : list AgentCall) (t t0 : TurnTracker)
    (r : res (TurnTracker * list TurnEvent)) :
  (∃ t' evs parts, r = Ret (t', evs) ∧ op_closes parts t0 t' evs) →
  tt_config t0 = tt_config t →
  ics ++ buffered t ≡ₚ buffered t0 ++ auxiliary ics ++ late_calls →
  delta TurnCallsIngested t t0 = zlen ics →
  delta TurnCallsAuxiliary t t0 = zlen (auxiliary ics) →
  delta TurnCallsDroppedLate t t0 = zlen late_calls →
  delta TurnsCompleted t t0 = 0 → delta TurnDiscardedNoUserStart t t0 = 0 →
  op_accounts ics t r.
Proof.
  intros (t' & evs & parts & -> & Hc) Hcfg Hp H1 H2 H3 H4 H5. exists t', evs. split; [done|].
  split; [by destruct Hc as (_ & ? & _)|]. split; [destruct Hc as (_ & _ & -> & _); done|].
  by eapply accounts_intro.
Qed.

Lemma sweep_accounts (t : TurnTracker) : tracker_ok t → op_accounts [] t (sweep t).
Proof.
  intros Ht. apply (op_accounts_closes [] [] t t); unfold delta, zlen; try (cbn; simpl_counters; lia); [|done|].
  - by apply sweep_spec.
  - by rewrite !app_nil_r.
Qed.

Lemma ingest_accounts (t : TurnTracker) (ic : AgentCall) (now : Z) :
  tracker_ok t → op_accounts [ic] t (ingest_at t ic now).
Proof.
  intros Ht. unfold ingest_at. cbn [bump_event_time].
  set (vn := Z.max _ _). set (t1 := mkTracker _ _ _ _ _ _ _). set (t2 := tt_inc TurnCallsIngested t1).
  assert (Ht2 : tracker_ok t2) by exact Ht.
  assert (Hflush : ∀ t0, tracker_ok t0 → ∃ t' evs parts,
    flush_ready_buffers t0 now = Ret (t', evs) ∧ op_closes parts t0 t' evs).
  { intros t0 H0. destruct (flush_ready_spec t0 now H0) as (t' & evs & parts & ? & ? & _). eauto. }
  destruct (ai_is_auxiliary (ac_agent ic)) eqn:Ea.
  { apply (op_accounts_closes [ic] [] t (tt_inc TurnCallsAuxiliary t2)); [by apply Hflush|done|..];
      unfold delta, auxiliary; cbn [List.filter]; rewrite ?Ea; unfold zlen; cbn;
      rewrite ?app_nil_r; [|simpl_counters; lia..].
    apply Permutation_cons_append. }
  change (tt_buffers t2) with (tt_buffers t).
  set (key := (lc_source_id (ac_call ic), ai_session_id (ac_agent ic))).
  set (buf := default buffer_default (tt_buffers t !! key)).
  pose proof (default_stored t key Ht) as Hbuf. fold buf in Hbuf.
  pose proof (default_calls t key) as Hcalls. fold buf in Hcalls.
  destruct (late buf ic) eqn:El.
  { apply (op_accounts_closes [ic] [ic] t (tt_inc TurnCallsDroppedLate
      (set_buffers t2 (<[key := buf]> (tt_buffers t))))); [|done|..];
      unfold delta, auxiliary; cbn [List.filter]; rewrite ?Ea; unfold zlen; cbn; [| |simpl_counters; lia..].
    - apply Hflush. by apply buffers_ok_insert.
    - unfold buffered at 2. cbn [tt_buffers tt_inc set_buffers]. rewrite map_calls_update, <- Hcalls.
      apply Permutation_cons_append. }
  set (buf' := buffer_call _ _ _ _ _). set (t3 := mkTracker _ _ _ _ _ _ _).
  destruct (buffer_call_ok buf ic vn now (now_v7 (tt_drawn t2)) Hbuf El) as [Hok' Hv].
  destruct (refresh_spec t3 (lc_source_id (ac_call ic)) (ai_session_id (ac_agent ic))) as [r ->].
  cbn [res_bind]. apply (op_accounts_closes [ic] [] t (set_registry t3 r)); [|done|..];
    unfold delta, auxiliary; cbn [List.filter]; rewrite ?Ea; unfold zlen; cbn; rewrite ?app_nil_r; [| |simpl_counters; lia..].
  - apply Hflush. by apply buffers_ok_insert.
  - unfold buffered at 2. cbn [tt_buffers set_registry t3]. rewrite map_calls_update.
    change (call_session ic) with key in Hv. fold buf' in Hv. rewrite Hv, Hcalls. done.
Qed.

Lemma op_accounts_bind (ics1 ics2 : list AgentCall) (t : TurnTracker)
    (r : res (TurnTracker * list TurnEvent)) (f : TurnTracker → res (TurnTracker * list TurnEvent)) :
  op_accounts ics1 t r → (∀ t1, tracker_ok t1 → op_accounts ics2 t1 (f t1)) →
  op_accounts (ics1 ++ ics2) t
    (let* (t1, evs) := r in let* (t2, evs') := f t1 in Ret (t2, evs ++ evs')).
Proof.
  intros (t1 & e1 & -> & H1 & C1 & A1) Hf. cbn [res_bind].
  destruct (Hf t1 H1) as (t2 & e2 & -> & H2 & C2 & A2). cbn [res_bind]. do 2 eexists.
  split; [reflexivity|]. split; [done|]. split; [congruence|]. by apply (accounts_app _ _ _ t1).
Qed.

Lemma advance_accounts (t : TurnTracker) (ts : Z) (s : string) (now : Z) :
  tracker_ok t → op_accounts [] t (advance_time_at t ts s now).
Proof.
  intros Ht. unfold advance_time_at. cbn [bump_event_time]. set (t1 := mkTracker _ _ _ _ _ _ _).
  change (@nil AgentCall) with ([] ++ [] : list AgentCall).
  apply (op_accounts_bind [] [] t (flush_ready_buffers t1 now) sweep).
  - apply (op_accounts_closes [] [] t t1); unfold delta, zlen; try (cbn; simpl_counters; lia); [|done|by rewrite !app_nil_r].
    destruct (flush_ready_spec t1 now Ht) as (t' & evs & parts & ? & ? & _). eauto.
  - apply sweep_accounts.
Qed.

Definition input_calls (input : TurnShardInput) : list AgentCall :=
  match input with TCall ic => [ic] | THeartbeat _ _ => [] end.

Lemma shard_step_accounts (t : TurnTracker) (input : TurnShardInput) (now : Z) :
  tracker_ok t → op_accounts (input_calls input) t (shard_step t input now).
Proof.
  intros Ht. destruct input as [ic|ts s]; cbn [shard_step input_calls].
  - apply (op_accounts_bind [ic] [] t (ingest_at t ic now) sweep).
    + by apply ingest_accounts.
    + apply sweep_accounts.
  - by apply advance_accounts.
Qed.
Fixpoint run_shard (t : TurnTracker) (inputs : list (TurnShardInput * Z))
    : res (TurnTracker * list TurnEvent) :=
  match inputs with
  | [] => Ret (t, [])
  | (input, now_wall) :: inputs' =>
      let* (t1, events) := shard_step t input now_wall in
      let* (t2, events') := run_shard t1 inputs' in
      Ret (t2, events ++ events')
  end.

Definition ingested (inputs : list (TurnShardInput * Z)) : list AgentCall :=
  inputs ≫= λ i, input_calls i.1.

Lemma run_shard_accounts (t : TurnTracker) (inputs : list (TurnShardInput * Z)) :
  tracker_ok t → op_accounts (ingested inputs) t (run_shard t inputs).
Proof.
  revert t; induction inputs as [|[input now] inputs IH]; intros t Ht; cbn [run_shard].
  - exists t, []. split; [done|]. split; [done|]. split; [done|]. apply accounts_nil.
  - apply (op_accounts_bind (input_calls input) (ingested inputs) t (shard_step t input now)
      (λ t1, run_shard t1 inputs)); [by apply shard_step_accounts|exact IH].
Qed.

Lemma flush_all_spec (t : TurnTracker) (now : Z) :
  tracker_ok t →
  ∃ t' evs parts, flush_all_at t now = Ret (t', evs) ∧ op_closes parts t t' evs ∧ buffered t' = [].
Proof.
  intros Ht. unfold flush_all_at. set (keys := merge_sort _ _).
  assert (Hperm : keys ≡ₚ map fst (hash_iter (tt_buffers t))) by apply merge_sort_Permutation.
  assert (Hkeys : ∀ k, k ∈ keys ↔ is_Some (tt_buffers t !! k)).
  { intros k. rewrite Hperm, list_elem_of_In, in_map_iff. split.
    - intros ([k' b] & <- & Hin). apply list_elem_of_In, elem_of_hash_iter in Hin. by exists b.
    - intros [b Hb]. exists (k, b). split; [done|]. by apply list_elem_of_In, elem_of_hash_iter. }
  destruct (for_keys_spec _ _ false keys (tt_buffers t) (tt_effects t)
    (flush_closing (now + grace (tt_config t) + 1) (grace (tt_config t)))) as
    (bufs & fx & parts & -> & Hok & Hc & Hp & Hother & Hin); [| |intros k; apply Hkeys|].
  { rewrite Hperm. apply NoDup_hash_iter. }
  { exact Ht. }
  cbn [res_bind]. do 2 eexists. exists parts. split; [reflexivity|].
  destruct (commit_closes t bufs fx parts (fx_events fx) Hok Hc eq_refl Hp) as [H _].
  split; [exact H|]. unfold buffered. cbn [tt_buffers drop_completed_from_registry set_registry tt_commit].
  assert (He : ∀ k b, bufs !! k = Some b → pending b = []).
  { intros k b Hb. destruct (decide (k ∈ keys)) as [Hk|Hk].
    - destruct (proj1 (Hkeys k) Hk) as [b0 Hb0].
      destruct (Hin k b0 Hk Hb0) as (b' & Hb' & HQ). congruence.
    - rewrite Hother in Hb by done. exfalso. apply Hk, Hkeys. by exists b. }
  unfold map_calls. apply elem_of_nil_inv. intros ic Hic.
  apply list_elem_of_bind in Hic as ([k b] & Hic & Hkb). apply elem_of_map_to_list in Hkb.
  cbn [snd] in Hic. unfold calls_of in Hic. rewrite (He k b Hkb) in Hic. by apply not_elem_of_nil in Hic.
Qed.

(** ** The theorems *)

(** C3: a shard loses and duplicates no call: whatever calls and heartbeats
    arrive, at whatever times, the tracker never panics and its loops end, its
    buffers stay well formed, and every call taken in is exactly one of: part of
    an emitted turn, part of a partition the discard rule dropped, still
    buffered, auxiliary, or dropped as late; each emitted turn is the one
    [build_turn] makes of its partition, and the counters tell the numbers. *)
Theorem shard_accounts_for_every_call :
  ∀ (cfg : TrackerConfig) (registry : option (gmap string Trace))
    (inputs : list (TurnShardInput * Z)),
    ∃ t evs, run_shard (tracker_new cfg registry) inputs = Ret (t, evs) ∧ tracker_ok t ∧
      ∃ parts late_calls,
        Forall2 turn_of (List.filter keeps parts) (map event_trace evs) ∧
        ingested inputs ≡ₚ
          part_calls parts ++ buffered t ++ auxiliary (ingested inputs) ++ late_calls ∧
        tt_metrics t TurnCallsIngested = zlen (ingested inputs) ∧
        tt_metrics t TurnCallsAuxiliary = zlen (auxiliary (ingested inputs)) ∧
        tt_metrics t TurnCallsDroppedLate = zlen late_calls ∧
        tt_metrics t TurnsCompleted = zlen evs ∧
        tt_metrics t TurnDiscardedNoUserStart
          = zlen (List.filter (λ p, negb (keeps p)) parts).
Proof.
  intros cfg registry inputs.
  destruct (run_shard_accounts (tracker_new cfg registry) inputs) as
    (t & evs & E & Hok & _ & parts & late_calls & HF & _ & HP & H1 & H2 & H3 & H4 & H5).
  { intros k b Hl. cbn in Hl. by rewrite lookup_empty in Hl. }
  exists t, evs. split; [done|]. split; [done|]. exists parts, late_calls. split; [done|].
  unfold delta in *. cbn in H1, H2, H3, H4, H5. unfold counters_zero in *. rewrite !Z.sub_0_r in *.
  split; [|done]. rewrite <- HP. unfold buffered, map_calls. cbn.
  by rewrite map_to_list_empty, app_nil_r.
Qed.

(** C12: shutdown leaves nothing behind: [flush_all] terminates without a panic,
    empties every buffer, and accounts for each call that was buffered: it is in
    an emitted turn or in a partition the discard rule dropped. *)
Theorem flush_all_drains :
  ∀ (t : TurnTracker) (now_wall : Z) (Hok : tracker_ok t),
    ∃ t' evs parts, flush_all_at t now_wall = Ret (t', evs) ∧ buffered t' = [] ∧
      buffered t ≡ₚ part_calls parts ∧
      Forall2 turn_of (List.filter keeps parts) (map event_trace evs).
Proof.
  intros t now Hok. destruct (flush_all_spec t now Hok) as (t' & evs & parts & E & Hc & Hb).
  exists t', evs, parts. split; [done|]. split; [done|]. destruct Hc as (((e & He & Hf) & _) & _ & _ & Hp).
  cbn in He. subst e. split; [|done]. by rewrite Hp, Hb, app_nil_r.
Qed.

(** C11: a turn closes when its grace is over, not later: after any flush at
    wall-clock [now_wall], a buffer whose waiting terminals have all been there
    for the grace has none left. *)
Theorem grace_closes_terminals :
  ∀ (t t' : TurnTracker) (now_wall : Z) (evs : list TurnEvent) (k : session) (b : SessionBuffer)
    (Hok : tracker_ok t)
    (Hrun : flush_ready_buffers t now_wall = Ret (t', evs))
    (Hb : tt_buffers t' !! k = Some b)
    (Hwait : ∀ c, c ∈ calls_of b → bc_is_terminal c = true →
       grace (tt_config t) <= duration_since now_wall (bc_arrived_at_wall c)),
    ∀ c, c ∈ calls_of b → is_terminal_call (bc_ic c) = false.
Proof.
  intros t t' now evs k b Hok Hrun Hb Hwait c Hc.
  destruct (flush_ready_spec t now Hok) as (t1 & e1 & parts & E & (_ & Hok' & _) & Hw).
  rewrite E in Hrun. simplify_eq. specialize (Hw k b Hb). destruct Hw as [Hw|(x & Hx & Ht & Hd)].
  - destruct (Hok' k b Hb) as [([Hp He] & _) _]. rewrite Forall_forall in Hw.
    specialize (Hw c Hc). unfold calls_of in Hc. apply elem_of_values in Hc as (ts & v & Hin & Hc).
    rewrite Forall_forall in He. destruct (He _ Hin) as [_ Hv]. rewrite Forall_forall in Hv.
    destruct (Hv c Hc) as [_ Hterm]. congruence.
  - specialize (Hwait x Hx Ht). lia.
Qed.

(** C4: [finalize_session] partitions a session's calls at its terminals: on the
    buffered calls in request order it computes exactly the relation [splits] -
    while the first terminal has waited for the grace, cut off everything up to
    its request time - so no turn closes before its terminal's grace, a turn's
    calls are all older than the next turn's, what stays is newer than what was
    cut, and each cut becomes the turn of its calls or is discarded. *)
Theorem finalize_session_partitions :
  ∀ (key : session) (buf : SessionBuffer) (now_wall gr : Z) (fx : Effects)
    (Hp : pending_ok (pending buf)),
    ∃ buf' fx' parts evs,
      finalize_session key.1 key.2 buf now_wall gr fx = Ret (buf', fx') ∧
      splits now_wall gr (calls_of buf) parts (calls_of buf') ∧
      calls_of buf = concat parts ++ calls_of buf' ∧
      fx_events fx' = fx_events fx ++ evs ∧
      Forall2 turn_of (List.filter keeps (to_parts key parts)) (map event_trace evs) ∧
      last_finalized_request_time buf' =
        match last (concat parts) with
        | Some c => Some (bc_time c)
        | None => last_finalized_request_time buf
        end.
Proof.
  intros key buf now gr fx Hp.
  destruct (finalize_session_spec key buf now gr fx Hp) as
    (buf' & fx' & parts & E & Hs & ((evs & He & Hf) & _) & _ & _ & Hl).
  exists buf', fx', parts, evs. split; [done|]. split; [done|].
  split; [by eapply splits_concat|]. by split.
Qed.
End Laws.
End Tracker.

(** ** Concrete runs *)

#[local] Instance sample_iter : HashIter (string * string) SessionBuffer :=
  hash_iter_std (string * string) SessionBuffer.
#[local] Instance sample_iter_laws : HashIterLaws (string * string) SessionBuffer sample_iter :=
  hash_iter_std_laws (string * string) SessionBuffer.

(** The two calls of [sample_turn], then a heartbeat after the grace. *)
Definition sample_inputs : list (TurnShardInput * Z) :=
  [ (TCall (sample_agent_call "c2" 200 false true), 0);
    (TCall (sample_agent_call "c1" 100 true false), 500000000);
    (THeartbeat 300 "tap", 1000000000) ].

Definition turn_ids (r : res (TurnTracker * list TurnEvent)) : option (list (list string)) :=
  match r with Ret (_, evs) => Some (map (λ e, tr_span_ids (event_trace e)) evs) | _ => None end.

(** Reordered calls come out in one turn, in request order, when the terminal's
    grace is over. *)
Example sample_run :
  turn_ids (run_shard (tracker_new tracker_config_default None) sample_inputs)
  = Some [["c1"; "c2"]]%string.
Proof. vm_compute. reflexivity. Qed.

Lemma shard_accounts_for_every_call_witness :
  ∃ t evs, run_shard (tracker_new tracker_config_default None) sample_inputs = Ret (t, evs) ∧
    tt_metrics t TurnsCompleted = zlen evs ∧ tt_metrics t TurnCallsIngested = 2.
Proof.
  destruct (shard_accounts_for_every_call tracker_config_default None sample_inputs) as
    (t & evs & E & _ & ps & l & _ & _ & Hi & _ & _ & Hc & _).
  exists t, evs. split; [exact E|]. split; [exact Hc|]. rewrite Hi. reflexivity.
Defined.

(** A tracker that still buffers the sample turn's first call. *)
Definition sample_pending (time : Z) (c : AgentCall) (terminal : bool) : SessionBuffer :=
  mkBuffer [(time, [mkBuffered c 0 terminal])] (if terminal then Some 0 else None) None 0
    (Some "t1"%string).
Definition sample_tracker (b : SessionBuffer) : TurnTracker :=
  mkTracker tracker_config_default {[ ("tap", "s1")%string := b ]} ∅ 0 counters_zero None 1.

Lemma sample_tracker_ok (time : Z) (start terminal : bool) :
  tracker_ok (sample_tracker (sample_pending time (sample_agent_call "c" time start terminal) terminal)).
Proof.
  intros k b Hl. unfold sample_tracker in Hl. cbn [tt_buffers] in Hl.
  apply lookup_singleton_Some in Hl as [<- <-].
  split; [|repeat constructor]. split; [|split; [|done]].
  - apply pending_ok_cons. split; [done|]. split; [by repeat constructor|]. split; [constructor|].
    by split; [constructor|constructor].
  - destruct terminal; [|by repeat constructor]. eexists. split; [by left|]. done.
Qed.

Lemma flush_all_drains_witness :
  ∃ t' evs, flush_all_at (sample_tracker
      (sample_pending 100 (sample_agent_call "c" 100 true false) false)) 7 = Ret (t', evs) ∧
    buffered t' = [].
Proof.
  destruct (flush_all_drains (sample_tracker
    (sample_pending 100 (sample_agent_call "c" 100 true false) false)) 7) as (t' & evs & _ & E & Hb & _);
    [apply sample_tracker_ok|].
  exists t', evs. split; [exact E|exact Hb].
Defined.

Lemma grace_closes_terminals_witness :
  ∃ t' evs, flush_ready_buffers (sample_tracker
      (sample_pending 100 (sample_agent_call "c" 100 true true) true)) 2000000000 = Ret (t', evs) ∧
    ∀ b c, tt_buffers t' !! ("tap", "s1")%string = Some b → c ∈ calls_of b →
      is_terminal_call (bc_ic c) = false.
Proof.
  destruct (flush_ready_buffers (sample_tracker
    (sample_pending 100 (sample_agent_call "c" 100 true true) true)) 2000000000) as [[t' evs]| |] eqn:E;
    [|vm_compute in E; discriminate E|vm_compute in E; discriminate E].
  exists t', evs. split; [reflexivity|]. intros b c Hb.
  apply (grace_closes_terminals _ t' 2000000000 evs ("tap", "s1")%string b
    (sample_tracker_ok 100 true true) E Hb).
  intros x Hx Ht. exfalso. vm_compute in E. injection E as <- _. vm_compute in Hb.
  injection Hb as <-. vm_compute in Hx. by apply not_elem_of_nil in Hx.
Defined.

Lemma finalize_session_partitions_witness :
  ∃ buf' fx' parts,
    finalize_session "tap" "s1" (sample_pending 100 (sample_agent_call "c" 100 true true) true)
      2000000000 1000000000 (mkEffects counters_zero 1 []) = Ret (buf', fx') ∧
    splits 2000000000 1000000000 [mkBuffered (sample_agent_call "c" 100 true true) 0 true]
      parts (calls_of buf').
Proof.
  destruct (finalize_session_partitions ("tap", "s1")%string
    (sample_pending 100 (sample_agent_call "c" 100 true true) true)
    2000000000 1000000000 (mkEffects counters_zero 1 [])) as (b' & fx' & ps & evs & E & Hs & _).
  - apply pending_ok_cons. split; [done|]. split; [by repeat constructor|]. split; [constructor|].
    by split; [constructor|constructor].
  - exists b', fx', ps. split; [exact E|exact Hs].
Defined.

(** A call that opens a turn is shown in the registry under the buffer's id; an
    older terminal call then takes that id into a partition that is discarded,
    and the entry stays: no later turn removes it. *)
Lemma discarded_partition_leaks_snapshot :
  let inputs :=
    [ (TCall (sample_agent_call "c1" 200 true false), 0);
      (TCall (sample_agent_call "c0" 100 false true), 0);
      (THeartbeat 300 "tap", 1000000000);
      (TCall (sample_agent_call "c2" 400 false true), 1000000000);
      (THeartbeat 500 "tap", 2000000000) ] in
  match run_shard (tracker_new tracker_config_default (Some ∅)) inputs with
  | Ret (t, evs) =>
      map (λ e, tr_span_ids (event_trace e)) evs = [["c1"; "c2"]]%string ∧
      buffered t = [] ∧
      map (λ tr, (tr_status tr, tr_span_ids tr)) (snapshot_active t)
        = [(InProgress, ["c1"]%string)]
  | _ => False
  end.
Proof. vm_compute. split; [reflexivity|split; reflexivity]. Qed.
