(* ===== verification/Dims.v ===== *)
(** * Metric dimensions (h-metrics/src/aggregator.rs)

    The dimension keys under which a call is counted.  Server addresses are
    counted by their text, so this file also holds the standard library's
    [Display] of IP addresses. *)

From Stdlib Require Import Strings.Byte Strings.String ZArith Lia.
From stdpp Require Import base gmap sets list strings.
From S2P Require Import Prelude.
From S2P Require Import Net.
From S2P Require Import Text.

Open Scope Z_scope.

(** ** [Display for IpAddr] *)

Definition decimal (z : Z) : list byte := to_radix 10 z.

Definition show_v4 (a : Z) : list byte :=
  join (B ".") (map (λ s, decimal (Z.land (Z.shiftr a s) 0xFF)) [24; 16; 8; 0]).

(** The eight 16-bit segments, most significant first. *)
Definition segments (a : Z) : list Z :=
  map (λ s, Z.land (Z.shiftr a s) 0xFFFF) [112; 96; 80; 64; 48; 32; 16; 0].

(** The first longest run of zero segments, as (start, length): [i] is the
    current index, [cur] the run being read, [best] the longest so far. *)
Fixpoint zero_run (l : list Z) (i : nat) (cur best : nat * nat) : nat * nat :=
  match l with
  | [] => best
  | s :: l' =>
      if s =? 0 then
        let cur' := ((if (cur.2 =? 0)%nat then i else cur.1), S cur.2) in
        zero_run l' (S i) cur' (if (best.2 <? cur'.2)%nat then cur' else best)
      else zero_run l' (S i) (0%nat, 0%nat) best
  end.

Definition show_segments (l : list Z) : list byte := join (B ":") (map (to_radix 16) l).

Definition show_v6 (a : Z) : list byte :=
  if Z.shiftr a 32 =? 0xFFFF then B "::ffff:" ++ show_v4 (Z.land a 0xFFFFFFFF)
  else
    let segs := segments a in
    let '(start, len) := zero_run segs 0 (0%nat, 0%nat) (0%nat, 0%nat) in
    if (1 <? len)%nat then
      show_segments (take start segs) ++ B "::" ++ show_segments (drop (start + len) segs)
    else show_segments segs.

Definition show_ip (ip : IpAddr) : string :=
  String.string_of_list_byte (match ip with V4 a => show_v4 a | V6 a => show_v6 a end).

Example show_ip_v4 : show_ip (V4 0x7F000001) = "127.0.0.1"%string.
Proof. vm_compute. reflexivity. Qed.
Example show_ip_v6 : show_ip (V6 0x20010db8000000000000000000000001) = "2001:db8::1"%string.
Proof. vm_compute. reflexivity. Qed.
Example show_ip_any : show_ip (V6 0) = "::"%string.
Proof. vm_compute. reflexivity. Qed.
Example show_ip_mapped : show_ip (V6 0xFFFF7F000001) = "::ffff:127.0.0.1"%string.
Proof. vm_compute. reflexivity. Qed.

(** ** Dimension keys *)

Record DimensionKey : Type := mkDim {
  dk_source_id : string;
  dk_wire_api : string;
  dk_model : string;
  dk_server_ip : string;
}.

#[global] Instance DimensionKey_eq_dec : EqDecision DimensionKey.
Proof. solve_decision. Defined.
#[global] Instance DimensionKey_countable : Countable DimensionKey.
Proof.
  refine (inj_countable' (λ k, (dk_source_id k, dk_wire_api k, dk_model k, dk_server_ip k))
    (λ '(s, w, m, i), mkDim s w m i) _); by intros [].
Defined.

(** The four keys of an event, from the finest to all of its source. *)
Definition dimension_keys (source_id wire_api model server_ip : string) : list DimensionKey :=
  [ mkDim source_id wire_api model server_ip;
    mkDim source_id wire_api model "*";
    mkDim source_id "*" "*" server_ip;
    mkDim source_id "*" "*" "*" ].
