(* ===== verification/Active.v ===== *)
(** * Calls in flight (h-metrics/src/active.rs)

    The table of open calls, shared by the metrics shards, with a counter per
    dimension.  Its operations run under one lock, so a run is a sequence of
    them. *)

From Stdlib Require Import ZArith Lia.
From stdpp Require Import base gmap sets list strings.
From S2P Require Import Prelude.
From S2P Require Import Net.
From S2P Require Import Counters.
From S2P Require Import Calls.
From S2P Require Import Dims.

Open Scope Z_scope.

Definition MAX_OPEN_US : Z := 3600000000.

Record Open : Type := mkOpen { op_dims : list DimensionKey; op_start_us : Z }.

(** The mutex's content: the open calls and the counters, u32. *)
Record ActiveCalls : Type := mkActive {
  ac_open : gmap CallKey Open;
  ac_counts : gmap DimensionKey Z;
}.

Definition active_new : ActiveCalls := mkActive ∅ ∅.

Definition increment (counts : gmap DimensionKey Z) (d : DimensionKey) : gmap DimensionKey Z :=
  <[d := u32_add (default 0 (counts !! d)) 1]> counts.

Definition decrement_one (counts : gmap DimensionKey Z) (d : DimensionKey) : gmap DimensionKey Z :=
  match counts !! d with
  | Some n => if u32_sub n 1 =? 0 then delete d counts else <[d := u32_sub n 1]> counts
  | None => counts
  end.
Definition decrement (counts : gmap DimensionKey Z) (dims : list DimensionKey) :
    gmap DimensionKey Z := foldl decrement_one counts dims.

Definition active_start (a : ActiveCalls) (key : CallKey) (dims : list DimensionKey) (start_us : Z)
    : ActiveCalls * list Z :=
  let a' :=
    match ac_open a !! key with
    | Some _ => a
    | None => mkActive (<[key := mkOpen dims start_us]> (ac_open a))
                (foldl increment (ac_counts a) dims)
    end in
  (a', map (λ d, default 0 (ac_counts a' !! d)) dims).

Definition active_complete (a : ActiveCalls) (key : CallKey) : ActiveCalls :=
  match ac_open a !! key with
  | Some o => mkActive (delete key (ac_open a)) (decrement (ac_counts a) (op_dims o))
  | None => a
  end.

Section Active.
Context `{HI : !HashIter CallKey Open}.

Definition stale_keys (a : ActiveCalls) (source_id : string) (now_us : Z) : list CallKey :=
  map fst (List.filter (λ ko, bool_decide (ck_source_id ko.1 = source_id)
                              && (MAX_OPEN_US <? now_us - op_start_us ko.2))
             (hash_iter (ac_open a))).

Definition active_expire (a : ActiveCalls) (source_id : string) (now_us : Z) : ActiveCalls * Z :=
  let stale := stale_keys a source_id now_us in
  (foldl active_complete a stale, zlen stale).

Definition open_count (a : ActiveCalls) : nat := size (ac_open a).

(** ** Counters and open calls agree *)

(** How often [d] is among the dimensions of the open calls. *)
Definition occurrences (d : DimensionKey) (l : list DimensionKey) : Z :=
  zlen (filter (λ x, x = d) l).
Definition open_dims (m : gmap CallKey Open) : list DimensionKey :=
  map_to_list m ≫= λ ko, op_dims ko.2.

(** A table that counts the list [l]: no entry for what does not occur. *)
Definition counts_of (l : list DimensionKey) (counts : gmap DimensionKey Z) : Prop :=
  ∀ d, counts !! d = (let n := occurrences d l in if n =? 0 then None else Some n).

Definition active_ok (a : ActiveCalls) : Prop :=
  counts_of (open_dims (ac_open a)) (ac_counts a) ∧
  map_Forall (λ _ o, length (op_dims o) = 4%nat) (ac_open a).

Lemma open_dims_insert (k : CallKey) (o : Open) (m : gmap CallKey Open) :
  m !! k = None → open_dims (<[k := o]> m) ≡ₚ op_dims o ++ open_dims m.
Proof. intros H. unfold open_dims. by rewrite map_to_list_insert. Qed.

Lemma open_dims_delete (k : CallKey) (o : Open) (m : gmap CallKey Open) :
  m !! k = Some o → open_dims m ≡ₚ op_dims o ++ open_dims (delete k m).
Proof.
  intros H. rewrite <- open_dims_insert by apply lookup_delete_eq. by rewrite insert_delete_id.
Qed.

Lemma occurrences_perm (d : DimensionKey) (l l' : list DimensionKey) :
  l ≡ₚ l' → occurrences d l = occurrences d l'.
Proof. intros H. unfold occurrences, zlen. by rewrite H. Qed.

Lemma occurrences_app (d : DimensionKey) (l l' : list DimensionKey) :
  occurrences d (l ++ l') = occurrences d l + occurrences d l'.
Proof. unfold occurrences. by rewrite filter_app, zlen_app. Qed.

Lemma occurrences_cons (d x : DimensionKey) (l : list DimensionKey) :
  occurrences d (x :: l) = (if decide (x = d) then 1 else 0) + occurrences d l.
Proof.
  unfold occurrences. rewrite filter_cons. destruct (decide (x = d)); unfold zlen; cbn; lia.
Qed.

Lemma occurrences_nonneg (d : DimensionKey) (l : list DimensionKey) : 0 <= occurrences d l <= zlen l.
Proof.
  unfold occurrences, zlen. pose proof (length_filter (λ x, x = d) l). lia.
Qed.

Lemma increment_counts (l dims : list DimensionKey) (counts : gmap DimensionKey Z) :
  zlen (dims ++ l) < 2 ^ 32 → counts_of l counts → counts_of (dims ++ l) (foldl increment counts dims).
Proof.
  revert l counts; induction dims as [|x dims IH]; intros l counts Hlen Hc; [done|].
  cbn [foldl app]. unfold zlen in Hlen. cbn [length app] in Hlen.
  assert (Hx : counts_of (x :: l) (increment counts x)).
  { intros d. unfold increment. cbn zeta. rewrite occurrences_cons.
    pose proof (occurrences_nonneg d l) as Hn. pose proof (occurrences_nonneg x l) as Hnx.
    unfold zlen in Hn, Hnx. rewrite length_app in Hlen.
    destruct (decide (x = d)) as [->|Hne].
    - rewrite lookup_insert_eq, Hc. cbn zeta.
      destruct (Z.eqb_spec (occurrences d l) 0) as [E|E]; cbn [default].
      + rewrite E. done.
      + unfold id, u32_add. rewrite wrap_small by lia. zcase. f_equal. lia.
    - rewrite lookup_insert_ne, Hc by done. by rewrite Z.add_0_l. }
  assert (Hlen' : zlen (dims ++ x :: l) < 2 ^ 32)
    by (unfold zlen; rewrite !length_app in Hlen |- *; cbn [length] in *; lia).
  specialize (IH (x :: l) (increment counts x) Hlen' Hx).
  intros d. rewrite IH. cbn zeta. by rewrite (occurrences_perm d (dims ++ x :: l) (x :: dims ++ l))
    by (symmetry; apply Permutation_middle).
Qed.

Lemma decrement_counts (l dims : list DimensionKey) (counts : gmap DimensionKey Z) :
  zlen (dims ++ l) < 2 ^ 32 → counts_of (dims ++ l) counts → counts_of l (decrement counts dims).
Proof.
  unfold decrement. revert counts; induction dims as [|x dims IH]; intros counts Hlen Hc; [done|].
  cbn [foldl app] in *. apply IH; [unfold zlen in *; cbn in *; lia|].
  intros d. unfold decrement_one. rewrite (Hc x). cbn zeta. rewrite occurrences_cons, decide_True by done.
  pose proof (occurrences_nonneg x (dims ++ l)) as Hn. unfold zlen in *. cbn [length] in Hlen.
  destruct (Z.eqb_spec (1 + occurrences x (dims ++ l)) 0); [lia|].
  unfold u32_sub. rewrite wrap_small by lia.
  replace (1 + occurrences x (dims ++ l) - 1) with (occurrences x (dims ++ l)) by lia.
  destruct (decide (x = d)) as [->|Hne].
  - destruct (Z.eqb_spec (occurrences d (dims ++ l)) 0) as [E|E];
      [by rewrite lookup_delete_eq|by rewrite lookup_insert_eq].
  - assert (counts !! d = (let n := occurrences d (dims ++ l) in if n =? 0 then None else Some n)) as Hd.
    { rewrite (Hc d). cbn zeta. by rewrite occurrences_cons, decide_False by done. }
    destruct (_ =? 0); [by rewrite lookup_delete_ne|by rewrite lookup_insert_ne].
Qed.

(** ** Runs of the table *)

(** The dimensions a start is counted under. *)
Definition start_dims (s : LlmCallStart) : list DimensionKey :=
  dimension_keys (ls_source_id s) (ls_wire_api s) (ls_model s) (show_ip (ls_server_ip s)).

Inductive ActiveOp : Type :=
| OpStart (s : LlmCallStart)
| OpComplete (c : LlmCall)
| OpExpire (source_id : string) (now_us : Z).

Definition active_op (a : ActiveCalls) (op : ActiveOp) : ActiveCalls :=
  match op with
  | OpStart s => (active_start a (start_key s) (start_dims s) (ls_timestamp_us s)).1
  | OpComplete c => active_complete a (call_key c)
  | OpExpire s now => (active_expire a s now).1
  end.
Definition active_run (a : ActiveCalls) (ops : list ActiveOp) : ActiveCalls :=
  foldl active_op a ops.

Lemma open_dims_length (m : gmap CallKey Open) :
  map_Forall (λ _ o, length (op_dims o) = 4%nat) m → zlen (open_dims m) = 4 * Z.of_nat (size m).
Proof.
  induction m as [|k o m Hk IH] using map_ind; intros Hm; [done|].
  apply map_Forall_insert in Hm as [Ho Hm]; [|done].
  unfold zlen. rewrite (open_dims_insert k o m Hk), length_app, map_size_insert_None by done.
  specialize (IH Hm). unfold zlen in IH. cbn in Ho. lia.
Qed.

Lemma active_start_ok (a : ActiveCalls) (key : CallKey) (dims : list DimensionKey) (t : Z) :
  active_ok a → length dims = 4%nat → 4 * (Z.of_nat (size (ac_open a)) + 1) < 2 ^ 32 →
  let a' := (active_start a key dims t).1 in
  active_ok a' ∧ (size (ac_open a') <= S (size (ac_open a)))%nat.
Proof.
  intros [Hc Hd] Hdims Hsz. unfold active_start. cbn [fst].
  destruct (ac_open a !! key) as [o|] eqn:E; [split; [done|lia]|]. cbn [ac_open ac_counts].
  pose proof (open_dims_length _ Hd) as Hl.
  split; [|rewrite map_size_insert_None by done; lia]. split.
  - cbn [ac_open ac_counts]. intros d.
    rewrite (increment_counts (open_dims (ac_open a)) dims (ac_counts a)); [|rewrite zlen_app; unfold zlen in *; lia|done].
    cbn zeta. by rewrite (occurrences_perm d _ _ (open_dims_insert key (mkOpen dims t) _ E)).
  - by apply map_Forall_insert_2.
Qed.

Lemma active_complete_ok (a : ActiveCalls) (key : CallKey) :
  active_ok a → 4 * Z.of_nat (size (ac_open a)) < 2 ^ 32 →
  let a' := active_complete a key in
  active_ok a' ∧ (size (ac_open a') <= size (ac_open a))%nat ∧ ac_open a' = delete key (ac_open a).
Proof.
  intros [Hc Hd] Hsz. unfold active_complete.
  destruct (ac_open a !! key) as [o|] eqn:E; [|split; [done|split; [done|by rewrite delete_id]]].
  cbn [ac_open ac_counts]. pose proof (open_dims_length _ Hd) as Hl.
  split; [|split; [rewrite map_size_delete_Some by done; lia|done]]. split.
  - cbn [ac_open ac_counts]. apply decrement_counts.
    + unfold zlen in *. rewrite <- (open_dims_delete key o _ E). lia.
    + intros d. rewrite Hc. cbn zeta. by rewrite (occurrences_perm d _ _ (open_dims_delete key o _ E)).
  - by apply map_Forall_delete.
Qed.

Lemma active_close_all_ok (a : ActiveCalls) (keys : list CallKey) :
  active_ok a → 4 * Z.of_nat (size (ac_open a)) < 2 ^ 32 →
  let a' := foldl active_complete a keys in
  active_ok a' ∧ (size (ac_open a') <= size (ac_open a))%nat ∧
  ∀ k, ac_open a' !! k = if decide (k ∈ keys) then None else ac_open a !! k.
Proof.
  cbn zeta. revert a; induction keys as [|key keys IH]; intros a Hok Hsz; cbn [foldl].
  - split; [done|]. split; [done|]. intros k. by rewrite decide_False by set_solver.
  - destruct (active_complete_ok a key Hok Hsz) as (H1 & H2 & H3).
    destruct (IH (active_complete a key) H1) as (I1 & I2 & I3); [lia|].
    split; [done|]. split; [lia|]. intros k. rewrite I3, H3.
    destruct (decide (k = key)) as [->|Hne].
    + rewrite lookup_delete_eq. rewrite (decide_True (P := key ∈ key :: keys)) by set_solver.
      by destruct (decide _).
    + rewrite lookup_delete_ne by done. destruct (decide (k ∈ keys)) as [Hin|Hin].
      * by rewrite decide_True by set_solver.
      * by rewrite decide_False by set_solver.
Qed.

Section ActiveLaws.
Context `{HIL : !HashIterLaws CallKey Open HI}.

Lemma elem_of_stale (a : ActiveCalls) (s : string) (now : Z) (k : CallKey) :
  k ∈ stale_keys a s now ↔
  ∃ o, ac_open a !! k = Some o ∧ ck_source_id k = s ∧ MAX_OPEN_US < now - op_start_us o.
Proof.
  unfold stale_keys. rewrite list_elem_of_In, in_map_iff. split.
  - intros ([k' o] & <- & Hin). apply filter_In in Hin as [Hin Hc]. cbn [fst snd] in *.
    apply list_elem_of_In, elem_of_hash_iter in Hin. zify_bool. by exists o.
  - intros (o & Hl & Hs & Ht). exists (k, o). split; [done|]. apply filter_In. split.
    + by apply list_elem_of_In, elem_of_hash_iter.
    + cbn [fst snd]. apply andb_true_iff. split; [by apply bool_decide_eq_true|by apply Z.ltb_lt].
Qed.

Lemma active_run_ok (ops : list ActiveOp) (a : ActiveCalls) :
  active_ok a → 4 * (Z.of_nat (size (ac_open a)) + zlen ops) < 2 ^ 32 →
  active_ok (active_run a ops) ∧
  Z.of_nat (size (ac_open (active_run a ops))) <= Z.of_nat (size (ac_open a)) + zlen ops.
Proof.
  unfold active_run. revert a; induction ops as [|op ops IH]; intros a Hok Hsz; cbn [foldl].
  { unfold zlen; cbn. split; [done|lia]. }
  unfold zlen in *. cbn [length] in *.
  assert (Hop : active_ok (active_op a op) ∧
    (size (ac_open (active_op a op)) <= S (size (ac_open a)))%nat).
  { destruct op as [s|c|s now]; cbn [active_op].
    - apply active_start_ok; [done|done|lia].
    - destruct (active_complete_ok a (call_key c) Hok) as (? & ? & _); [lia|]. split; [done|lia].
    - destruct (active_close_all_ok a (stale_keys a s now) Hok) as (? & ? & _); [lia|].
      cbn [active_expire fst]. split; [done|lia]. }
  destruct Hop as [Hok' Hs']. destruct (IH (active_op a op) Hok') as [? ?]; [lia|]. split; [done|lia].
Qed.

(** The in-flight counters never drift: after any run of starts,
    completions and expiries, whatever model names the completions carry, the
    counter of each dimension is the number of open calls started under it, no
    counter has ever wrapped, none remains when no call is open, and an expiry
    closes exactly the source's calls that opened too long ago. *)
Theorem active_counts_exact :
  ∀ (ops : list ActiveOp) (source_id : string) (now_us : Z) (Hlen : 4 * zlen ops < 2 ^ 32),
    let a := active_run active_new ops in
    (∀ d, default 0 (ac_counts a !! d) = occurrences d (open_dims (ac_open a))) ∧
    (ac_open a = ∅ → ac_counts a = ∅) ∧
    (∀ k o, ac_open (active_expire a source_id now_us).1 !! k = Some o ↔
       ac_open a !! k = Some o ∧
       ¬ (ck_source_id k = source_id ∧ MAX_OPEN_US < now_us - op_start_us o)).
Proof.
  intros ops s now Hlen a.
  destruct (active_run_ok ops active_new) as [Hok Hsz].
  { split; [|done]. intros d. done. }
  { change (Z.of_nat (size (ac_open active_new))) with 0. lia. }
  fold a in Hok, Hsz. change (Z.of_nat (size (ac_open active_new))) with 0 in Hsz. pose proof Hok as [Hc Hd].
  split; [|split].
  - intros d. rewrite Hc. cbn zeta. by destruct (Z.eqb_spec (occurrences d (open_dims (ac_open a))) 0).
  - intros E. apply map_eq. intros d. rewrite Hc, E, lookup_empty. done.
  - intros k o. cbn [active_expire fst].
    destruct (active_close_all_ok a (stale_keys a s now) Hok) as (_ & _ & ->); [lia|].
    destruct (decide (k ∈ stale_keys a s now)) as [Hin|Hin].
    + split; [done|]. intros [Hl Hn]. apply elem_of_stale in Hin as (o' & Hl' & Hs & Ht).
      rewrite Hl in Hl'. simplify_eq. by destruct Hn.
    + split; [|by intros [? _]]. intros Hl. split; [done|]. intros [Hs Ht]. apply Hin.
      apply elem_of_stale. by exists o.
Qed.
End ActiveLaws.
End Active.

(** ** A concrete run *)

#[local] Instance sample_iter : HashIter CallKey Open := hash_iter_std CallKey Open.
#[local] Instance sample_iter_laws : HashIterLaws CallKey Open sample_iter :=
  hash_iter_std_laws CallKey Open.

Definition sample_start (ts : Z) : LlmCallStart :=
  mkStart "tap" "openai-chat" "DeepSeek-V4" true (V4 1) 40000 (V4 2) 443 ts.

Lemma active_counts_exact_witness :
  let a := active_run active_new [OpStart (sample_start 0); OpStart (sample_start 5); OpStart (sample_start 5)] in
  default 0 (ac_counts a !! mkDim "tap" "*" "*" "*") = 2.
Proof.
  cbv zeta. rewrite (proj1 (active_counts_exact
    [OpStart (sample_start 0); OpStart (sample_start 5); OpStart (sample_start 5)] "tap" 0
    ltac:(vm_compute; reflexivity))).
  vm_compute. reflexivity.
Defined.
