(* ===== verification/Bucket.v ===== *)
(** * Metric buckets (h-metrics/src/bucket.rs, h-metrics/src/model.rs)

    One bucket of one window and dimension: counters fed by starts and
    completions, and latency distributions.  The t-digest is a third-party type,
    a parameter; doubles are [spec_float] at precision 53.  Counters of events
    are [u64]s that no run fills, so they are plain integers. *)

From Stdlib Require Import Strings.Byte Strings.String ZArith Lia SpecFloat.
From stdpp Require Import base gmap sets list strings.
From S2P Require Import Prelude.
From S2P Require Import Net.
From S2P Require Import Calls.

Open Scope Z_scope.

(** ** Distributions *)

(** The [tdigest] crate. *)
Class TDigest : Type := {
  digest : Type;
  new_with_size : Z → digest;
  merge_unsorted : digest → list f64 → digest;
  estimate_quantile : digest → f64 → f64;
}.

Definition BUFFER_CAPACITY : nat := 500.

Section Bucket.
Context `{TD : TDigest}.

Record DistributionDigest : Type := mkDigest {
  dd_digest : digest;
  dd_buffer : list f64;
  dd_sum : f64;
  dd_count : Z;
}.

Definition digest_new : DistributionDigest := mkDigest (new_with_size 100) [] f64_zero 0.

Definition digest_compact (d : DistributionDigest) : DistributionDigest :=
  match dd_buffer d with
  | [] => d
  | _ :: _ => mkDigest (merge_unsorted (dd_digest d) (dd_buffer d)) [] (dd_sum d) (dd_count d)
  end.

Definition digest_add (d : DistributionDigest) (value : f64) : DistributionDigest :=
  let d1 := mkDigest (dd_digest d) (dd_buffer d ++ [value]) (f64_add (dd_sum d) value)
              (dd_count d + 1) in
  if (BUFFER_CAPACITY <=? length (dd_buffer d1))%nat then digest_compact d1 else d1.

(** [quantile] compacts the digest it is asked of. *)
Definition digest_quantile (d : DistributionDigest) (q : f64) : option f64 * DistributionDigest :=
  if dd_count d =? 0 then (None, d)
  else let d1 := digest_compact d in (Some (estimate_quantile (dd_digest d1) q), d1).

Definition add_if_some (d : DistributionDigest) (v : option f64) : DistributionDigest :=
  match v with Some x => digest_add d x | None => d end.

(** ** Counts per finish reason: a [BTreeMap<String, u64>] *)

Fixpoint finish_incr (reason : string) (m : list (string * Z)) : list (string * Z) :=
  match m with
  | [] => [(reason, 1)]
  | (r, n) :: m' =>
      match String.compare reason r with
      | Lt => (reason, 1) :: m
      | Eq => (r, n + 1) :: m'
      | Gt => (r, n) :: finish_incr reason m'
      end
  end.

(** ** The bucket *)

Record WindowBucket : Type := mkWindow {
  wb_call_count : Z;
  wb_stream_count : Z;
  wb_non_stream_count : Z;
  wb_active_calls_sum : Z;
  wb_active_calls_sample_count : Z;
  wb_active_calls_max : Z;
  wb_total_input_tokens : Z;
  wb_total_output_tokens : Z;
  wb_input_token_count : Z;
  wb_output_token_count : Z;
  wb_total_cache_read_input_tokens : Z;
  wb_total_cache_creation_input_tokens : Z;
  wb_error_count : Z;
  wb_error_4xx_count : Z;
  wb_error_429_count : Z;
  wb_error_5xx_count : Z;
  wb_finish_counts : list (string * Z);
  wb_ttft : DistributionDigest;
  wb_ttft_stream : DistributionDigest;
  wb_ttft_nonstream : DistributionDigest;
  wb_e2e : DistributionDigest;
  wb_tpot : DistributionDigest;
  wb_complete_count : Z;
}.

Definition window_new : WindowBucket :=
  mkWindow 0 0 0 0 0 0 0 0 0 0 0 0 0 0 0 0 [] digest_new digest_new digest_new digest_new
    digest_new 0.

(** Start-side fields replaced. *)
Definition with_start (b : WindowBucket) (calls stream non_stream sum samples mx : Z) : WindowBucket :=
  mkWindow calls stream non_stream sum samples mx
    (wb_total_input_tokens b) (wb_total_output_tokens b) (wb_input_token_count b)
    (wb_output_token_count b) (wb_total_cache_read_input_tokens b)
    (wb_total_cache_creation_input_tokens b) (wb_error_count b) (wb_error_4xx_count b)
    (wb_error_429_count b) (wb_error_5xx_count b) (wb_finish_counts b) (wb_ttft b)
    (wb_ttft_stream b) (wb_ttft_nonstream b) (wb_e2e b) (wb_tpot b) (wb_complete_count b).

Definition window_on_call_start (b : WindowBucket) (is_stream : bool) : WindowBucket :=
  with_start b (wb_call_count b + 1)
    (if is_stream then wb_stream_count b + 1 else wb_stream_count b)
    (if is_stream then wb_non_stream_count b else wb_non_stream_count b + 1)
    (wb_active_calls_sum b) (wb_active_calls_sample_count b) (wb_active_calls_max b).

Definition sample_active_calls (b : WindowBucket) (current : Z) : WindowBucket :=
  with_start b (wb_call_count b) (wb_stream_count b) (wb_non_stream_count b)
    (wb_active_calls_sum b + current) (wb_active_calls_sample_count b + 1)
    (if wb_active_calls_max b <? current then current else wb_active_calls_max b).

(** An optional count added, and whether it was there. *)
Definition plus_opt (n : Z) (o : option Z) : Z := match o with Some t => n + t | None => n end.
Definition plus_one {A : Type} (n : Z) (o : option A) : Z :=
  match o with Some _ => n + 1 | None => n end.

(** The status is an error of the kind [p] selects. *)
Definition status_is (p : Z → bool) (o : option Z) : Z :=
  match o with Some s => if (400 <=? s) && p s then 1 else 0 | None => 0 end.
Definition is_5xx (s : Z) : bool := 500 <=? s.
Definition is_429 (s : Z) : bool := negb (500 <=? s) && (s =? 429).
Definition is_4xx (s : Z) : bool := negb (500 <=? s).

(** The time per output token of a stream, in milliseconds. *)
Definition tpot_of (call : LlmCall) : option f64 :=
  if lc_is_stream call then
    match lc_output_tokens call, lc_response_time call, lc_complete_time call with
    | Some ot, Some resp_time, Some comp_time =>
        let duration_us := comp_time - resp_time in
        if (0 <? duration_us) && (0 <? ot) then
          Some (f64_div (f64_div (f64_of_Z duration_us) (f64_of_Z 1000)) (f64_of_Z ot))
        else None
    | _, _, _ => None
    end
  else None.

Definition window_on_call_complete (b : WindowBucket) (call : LlmCall) : WindowBucket :=
  let status := lc_status_code call in
  mkWindow (wb_call_count b) (wb_stream_count b) (wb_non_stream_count b)
    (wb_active_calls_sum b) (wb_active_calls_sample_count b) (wb_active_calls_max b)
    (plus_opt (wb_total_input_tokens b) (lc_input_tokens call))
    (plus_opt (wb_total_output_tokens b) (lc_output_tokens call))
    (plus_one (wb_input_token_count b) (lc_input_tokens call))
    (plus_one (wb_output_token_count b) (lc_output_tokens call))
    (plus_opt (wb_total_cache_read_input_tokens b) (lc_cache_read_input_tokens call))
    (plus_opt (wb_total_cache_creation_input_tokens b) (lc_cache_creation_input_tokens call))
    (wb_error_count b + status_is (λ _, true) status)
    (wb_error_4xx_count b + status_is is_4xx status)
    (wb_error_429_count b + status_is is_429 status)
    (wb_error_5xx_count b + status_is is_5xx status)
    (match lc_finish_reason call with
     | Some r => finish_incr r (wb_finish_counts b)
     | None => wb_finish_counts b
     end)
    (add_if_some (wb_ttft b) (lc_ttft_ms call))
    (if lc_is_stream call then add_if_some (wb_ttft_stream b) (lc_ttft_ms call) else wb_ttft_stream b)
    (if lc_is_stream call then wb_ttft_nonstream b
     else add_if_some (wb_ttft_nonstream b) (lc_ttft_ms call))
    (add_if_some (wb_e2e b) (lc_e2e_latency_ms call))
    (add_if_some (wb_tpot b) (tpot_of call))
    (wb_complete_count b + 1).

Definition has_data (b : WindowBucket) : bool :=
  (0 <? wb_call_count b) || (0 <? wb_complete_count b).

(** ** Rows *)

Record LlmFinishMetric : Type := mkFinish {
  fm_timestamp_us : Z;
  fm_source_id : string;
  fm_granularity : string;
  fm_wire_api : string;
  fm_model : string;
  fm_server_ip : string;
  fm_finish_reason : string;
  fm_count : Z;
}.

(** Sum, count and percentiles of one distribution. *)
Record Distribution : Type := mkDist {
  ds_sum : f64;
  ds_count : Z;
  ds_p50 : option f64;
  ds_p95 : option f64;
  ds_p99 : option f64;
}.

Record LlmMetric : Type := mkMetric {
  lm_timestamp_us : Z;
  lm_source_id : string;
  lm_granularity : string;
  lm_wire_api : string;
  lm_model : string;
  lm_server_ip : string;
  lm_call_count : Z;
  lm_stream_count : Z;
  lm_non_stream_count : Z;
  lm_active_calls_sum : Z;
  lm_active_calls_sample_count : Z;
  lm_active_calls_max : Z;
  lm_total_input_tokens : Z;
  lm_input_token_count : Z;
  lm_total_output_tokens : Z;
  lm_output_token_count : Z;
  lm_total_cache_read_input_tokens : Z;
  lm_total_cache_creation_input_tokens : Z;
  lm_error_count : Z;
  lm_error_4xx_count : Z;
  lm_error_429_count : Z;
  lm_error_5xx_count : Z;
  lm_ttft : Distribution;
  lm_ttft_stream : Distribution;
  lm_ttft_nonstream : Distribution;
  lm_e2e : Distribution;
  lm_tpot : Distribution;
  lm_tool_surface : option string;
}.

Record LlmMetricsBatch : Type := mkBatch {
  mb_metric : LlmMetric;
  mb_finish_metrics : list LlmFinishMetric;
}.

(** The literals 0.5, 0.95 and 0.99: correctly rounded quotients. *)
Definition q50 : f64 := f64_div (f64_of_Z 1) (f64_of_Z 2).
Definition q95 : f64 := f64_div (f64_of_Z 95) (f64_of_Z 100).
Definition q99 : f64 := f64_div (f64_of_Z 99) (f64_of_Z 100).

Definition distribution (d : DistributionDigest) : Distribution :=
  let '(p50, d1) := digest_quantile d q50 in
  let '(p95, d2) := digest_quantile d1 q95 in
  let '(p99, _) := digest_quantile d2 q99 in
  mkDist (dd_sum d) (dd_count d) p50 p95 p99.

(** [flush]; the bucket is dropped afterwards. *)
Definition window_flush (b : WindowBucket) (timestamp_us : Z)
    (source_id granularity wire_api model server_ip : string) (tool_surface : option ToolSurface)
    : LlmMetricsBatch :=
  mkBatch
    (mkMetric timestamp_us source_id granularity wire_api model server_ip
       (wb_call_count b) (wb_stream_count b) (wb_non_stream_count b)
       (wb_active_calls_sum b) (wb_active_calls_sample_count b) (wb_active_calls_max b)
       (wb_total_input_tokens b) (wb_input_token_count b)
       (wb_total_output_tokens b) (wb_output_token_count b)
       (wb_total_cache_read_input_tokens b) (wb_total_cache_creation_input_tokens b)
       (wb_error_count b) (wb_error_4xx_count b) (wb_error_429_count b) (wb_error_5xx_count b)
       (distribution (wb_ttft b)) (distribution (wb_ttft_stream b))
       (distribution (wb_ttft_nonstream b)) (distribution (wb_e2e b)) (distribution (wb_tpot b))
       (surface_name <$> tool_surface))
    (map (λ '(reason, count),
            mkFinish timestamp_us source_id granularity wire_api model server_ip reason count)
       (wb_finish_counts b)).
End Bucket.

(** A concrete digest: all the values, and the first of them. *)
Definition sample_tdigest : TDigest := {|
  digest := list f64;
  new_with_size := λ _, [];
  merge_unsorted := λ d l, d ++ l;
  estimate_quantile := λ d _, hd f64_zero d;
|}.
