(* ===== verification/Aggregator.v ===== *)
(** * The metrics aggregator (h-metrics/src/aggregator.rs)

    Every start and completion is written to sixteen buckets, four granularities
    by four dimensions, in the window of the call's request time; the buckets of
    a source and granularity are drained as rows each time its event time has
    moved on by a window.  A query sums the rows of a key, so correctness is that
    rows add up: the second half states it field by field. *)

From Stdlib Require Import Strings.Byte Strings.String ZArith Lia SpecFloat Sorting.Sorted.
From stdpp Require Import base gmap sets list strings.
From S2P Require Import Prelude.
From S2P Require Import Net.
From S2P Require Import Counters.
From S2P Require Import Calls.
From S2P Require Import Dims.
From S2P Require Import Active.
From S2P Require Import Bucket.

Open Scope Z_scope.

Record GranularityConfig : Type := mkGran { gc_label : string; gc_window_secs : Z }.

Definition GRANULARITIES : list GranularityConfig :=
  [mkGran "10s" 10; mkGran "1m" 60; mkGran "5m" 300; mkGran "1h" 3600].

(** [GRANULARITIES.iter().enumerate()]. *)
Definition granularities : list (nat * GranularityConfig) := imap pair GRANULARITIES.

Record BucketKey : Type := mkBucketKey {
  bk_source_id : string;
  bk_granularity_idx : nat;
  bk_window_start_us : Z;
  bk_wire_api : string;
  bk_model : string;
  bk_server_ip : string;
  bk_tool_surface : option ToolSurface;
}.

#[global] Instance BucketKey_eq_dec : EqDecision BucketKey.
Proof. solve_decision. Defined.
#[global] Instance ToolSurface_countable : Countable ToolSurface.
Proof.
  refine (inj_countable surface_rank
    (λ r, if r =? 0 then Some FunctionCall else if r =? 1 then Some Mcp
          else if r =? 2 then Some Cli else if r =? 3 then Some Mixed
          else if r =? 4 then Some Unknown else None) _); by intros [].
Defined.
#[global] Instance BucketKey_countable : Countable BucketKey.
Proof.
  refine (inj_countable'
    (λ k, (bk_source_id k, bk_granularity_idx k, bk_window_start_us k, bk_wire_api k, bk_model k,
           bk_server_ip k, bk_tool_surface k))
    (λ '(s, g, w, a, m, i, t), mkBucketKey s g w a m i t) _); by intros [].
Defined.

(** [i64] division truncates. *)
Definition window_start (timestamp_us window_secs : Z) : Z :=
  let window_us := window_secs * 1000000 in
  tdiv timestamp_us window_us * window_us.

Definition event_clock (ev : LlmEvent) : string * Z :=
  match ev with
  | LStart s => (ls_source_id s, ls_timestamp_us s)
  | LComplete c _ => (lc_source_id c, default (lc_request_time c) (lc_complete_time c))
  | LHeartbeat ts s => (s, ts)
  end.

(** The key of a dimension in a window. *)
Definition bucket_key (source_id : string) (gi : nat) (ws : Z) (surface : option ToolSurface)
    (dk : DimensionKey) : BucketKey :=
  mkBucketKey source_id gi ws (dk_wire_api dk) (dk_model dk) (dk_server_ip dk) surface.

Definition complete_dims (c : LlmCall) : list DimensionKey :=
  dimension_keys (lc_source_id c) (lc_wire_api c) (lc_model c) (show_ip (lc_server_ip c)).

Section Aggregator.
Context `{TD : TDigest}.
Context `{HIB : !HashIter BucketKey WindowBucket} `{HIO : !HashIter CallKey Open}.

Record MetricsAggregator : Type := mkAgg {
  ma_buckets : gmap BucketKey WindowBucket;
  ma_active_calls : ActiveCalls;
  ma_latest_ts : gmap string Z;
  ma_last_flush_ts : gmap (string * nat) Z;
  ma_metrics : counters;
}.

Definition with_active_calls (a : ActiveCalls) : MetricsAggregator :=
  mkAgg ∅ a ∅ ∅ counters_zero.

Definition open_bucket_count (a : MetricsAggregator) : nat := size (ma_buckets a).

(** ** Writes *)

(** [buckets.entry(bk).or_insert_with(WindowBucket::new)], then an update. *)
Definition write_bucket (bs : gmap BucketKey WindowBucket) (bk : BucketKey)
    (f : WindowBucket → WindowBucket) : gmap BucketKey WindowBucket :=
  <[bk := f (default window_new (bs !! bk))]> bs.

(** The loops of [on_call_start] and [on_call_complete]: for each granularity,
    set the cadence anchor if there is none, and write each dimension. *)
Definition write_windows (a : MetricsAggregator) (source_id : string) (ts : Z)
    (surface : option ToolSurface) (writes : list (DimensionKey * (WindowBucket → WindowBucket)))
    : MetricsAggregator :=
  let '(bs, last) :=
    foldl (λ '(bs, last) '(gi, gran),
      let ws := window_start ts (gc_window_secs gran) in
      (foldl (λ bs '(dk, f), write_bucket bs (bucket_key source_id gi ws surface dk) f) bs writes,
       match last !! (source_id, gi) with
       | Some _ => last
       | None => <[(source_id, gi) := ws]> last
       end))
      (ma_buckets a, ma_last_flush_ts a) granularities in
  mkAgg bs (ma_active_calls a) (ma_latest_ts a) last (ma_metrics a).

Definition set_active (a : MetricsAggregator) (ac : ActiveCalls) : MetricsAggregator :=
  mkAgg (ma_buckets a) ac (ma_latest_ts a) (ma_last_flush_ts a) (ma_metrics a).

Definition agg_on_call_start (a : MetricsAggregator) (start : LlmCallStart) : MetricsAggregator :=
  let dim_keys := start_dims start in
  let '(ac, active_calls_values) :=
    active_start (ma_active_calls a) (start_key start) dim_keys (ls_timestamp_us start) in
  write_windows (set_active a ac) (ls_source_id start) (ls_timestamp_us start) None
    (zip_with (λ dk v, (dk, λ b,
       sample_active_calls (window_on_call_start b (ls_is_stream start)) v))
       dim_keys active_calls_values).

Definition agg_on_call_complete (a : MetricsAggregator) (call : LlmCall) : MetricsAggregator :=
  let ac := active_complete (ma_active_calls a) (call_key call) in
  write_windows (set_active a ac) (lc_source_id call) (lc_request_time call)
    (lc_tool_surface call)
    (map (λ dk, (dk, λ b, window_on_call_complete b call)) (complete_dims call)).

(** ** Draining *)

Definition label_of (gi : nat) : string :=
  match GRANULARITIES !! gi with Some g => gc_label g | None => "" end.

Definition flush_key (key : BucketKey) (b : WindowBucket) : LlmMetricsBatch :=
  window_flush b (bk_window_start_us key) (bk_source_id key) (label_of (bk_granularity_idx key))
    (bk_wire_api key) (bk_model key) (bk_server_ip key) (bk_tool_surface key).

(** Remove the listed buckets and flush those with data. *)
Fixpoint drain_keys (keys : list BucketKey) (bs : gmap BucketKey WindowBucket) (c : counters)
    : gmap BucketKey WindowBucket * counters * list LlmMetricsBatch :=
  match keys with
  | [] => (bs, c, [])
  | key :: keys' =>
      match bs !! key with
      | None => drain_keys keys' bs c
      | Some b =>
          if has_data b then
            let '(bs', c', rows) :=
              drain_keys keys' (delete key bs) (inc_counter MetricsWindowsEmitted c) in
            (bs', c', flush_key key b :: rows)
          else drain_keys keys' (delete key bs) c
      end
  end.

Definition dirty_keys (bs : gmap BucketKey WindowBucket) (source_id : string) (gi : nat)
    : list BucketKey :=
  map fst (List.filter (λ kb, bool_decide (bk_source_id kb.1 = source_id)
                              && bool_decide (bk_granularity_idx kb.1 = gi)) (hash_iter bs)).

(** One round of [maybe_drain]. *)
Definition drain_granularity (source_id : string) (now_ts : Z)
    (acc : MetricsAggregator * list LlmMetricsBatch) (g : nat * GranularityConfig)
    : MetricsAggregator * list LlmMetricsBatch :=
  let '(a, batches) := acc in
  let '(gi, gran) := g in
  let interval_us := gc_window_secs gran * 1000000 in
  match ma_last_flush_ts a !! (source_id, gi) with
  | None => (a, batches)
  | Some last =>
      if now_ts - last <? interval_us then (a, batches)
      else
        let '(bs, c, rows) :=
          drain_keys (dirty_keys (ma_buckets a) source_id gi) (ma_buckets a) (ma_metrics a) in
        (mkAgg bs (ma_active_calls a) (ma_latest_ts a)
           (<[(source_id, gi) := now_ts]> (ma_last_flush_ts a)) c, batches ++ rows)
  end.

Definition maybe_drain (a : MetricsAggregator) (source_id : string) (now_ts : Z)
    : MetricsAggregator * list LlmMetricsBatch :=
  foldl (drain_granularity source_id now_ts) (a, []) granularities.

(** ** Events *)

Definition agg_inc (m : Metric) (v : Z) (a : MetricsAggregator) : MetricsAggregator :=
  mkAgg (ma_buckets a) (ma_active_calls a) (ma_latest_ts a) (ma_last_flush_ts a)
    (add_counter m v (ma_metrics a)).

(** The event's own writes. *)
Definition absorb (a : MetricsAggregator) (ev : LlmEvent) : MetricsAggregator :=
  match ev with
  | LStart s => agg_on_call_start (agg_inc MetricsLlmEventsStart 1 a) s
  | LComplete c _ => agg_on_call_complete (agg_inc MetricsLlmEventsComplete 1 a) c
  | LHeartbeat _ _ => agg_inc MetricsHeartbeatsReceived 1 a
  end.

(** The rest of [process]: watermark, expiry, drain. *)
Definition agg_settle (a1 : MetricsAggregator) (ev : LlmEvent)
    : MetricsAggregator * list LlmMetricsBatch :=
  let '(source_id, ts) := event_clock ev in
  let watermark := Z.max (default 0 (ma_latest_ts a1 !! source_id)) ts in
  let '(ac, expired) := active_expire (ma_active_calls a1) source_id watermark in
  let a2 := mkAgg (ma_buckets a1) ac (<[source_id := watermark]> (ma_latest_ts a1))
              (ma_last_flush_ts a1) (ma_metrics a1) in
  let a3 := if 0 <? expired then agg_inc MetricsActiveCallsExpired expired a2 else a2 in
  maybe_drain a3 source_id watermark.

Definition agg_process (a : MetricsAggregator) (ev : LlmEvent)
    : MetricsAggregator * list LlmMetricsBatch := agg_settle (absorb a ev) ev.

(** ** The final flush *)

(** [a.cmp(b).then(..)]. *)
Definition opt_cmp (a b : option string) : comparison :=
  match a, b with
  | None, None => Eq
  | None, Some _ => Lt
  | Some _, None => Gt
  | Some x, Some y => String.compare x y
  end.
Definition row_cmp (x y : LlmMetricsBatch) : comparison :=
  let a := mb_metric x in
  let b := mb_metric y in
  then_cmp (String.compare (lm_granularity a) (lm_granularity b))
    (then_cmp (Z.compare (lm_timestamp_us a) (lm_timestamp_us b))
      (then_cmp (String.compare (lm_wire_api a) (lm_wire_api b))
        (then_cmp (String.compare (lm_model a) (lm_model b))
          (then_cmp (String.compare (lm_server_ip a) (lm_server_ip b))
            (opt_cmp (lm_tool_surface a) (lm_tool_surface b)))))).

(** [sort_by], which is stable. *)
Fixpoint insert_row (x : LlmMetricsBatch) (l : list LlmMetricsBatch) : list LlmMetricsBatch :=
  match l with
  | [] => [x]
  | y :: l' => match row_cmp x y with Gt => y :: insert_row x l' | _ => x :: l end
  end.
Definition sort_rows (l : list LlmMetricsBatch) : list LlmMetricsBatch := foldr insert_row [] l.

Definition agg_flush_all (a : MetricsAggregator) : MetricsAggregator * list LlmMetricsBatch :=
  let keys := map fst (hash_iter (ma_buckets a)) in
  let '(bs, c, rows) := drain_keys keys (ma_buckets a) (ma_metrics a) in
  (mkAgg bs (ma_active_calls a) (ma_latest_ts a) (ma_last_flush_ts a) c, sort_rows rows).

(** A run of one aggregator. *)
Fixpoint agg_run (a : MetricsAggregator) (evs : list LlmEvent)
    : MetricsAggregator * list LlmMetricsBatch :=
  match evs with
  | [] => (a, [])
  | ev :: evs' =>
      let '(a1, rows) := agg_process a ev in
      let '(a2, rows') := agg_run a1 evs' in
      (a2, rows ++ rows')
  end.

(** ** Additive fields

    The fields a query sums, and what an event adds to each.  Active-call samples
    are counted here; their values depend on the table and are not. *)

Inductive Field : Type :=
| FCalls | FStream | FNonStream | FSamples
| FInTokens | FInCount | FOutTokens | FOutCount | FCacheRead | FCacheCreation
| FErrors | F4xx | F429 | F5xx
| FTtft | FTtftStream | FTtftNonstream | FE2e | FTpot
| FFinish (reason : string).

Definition finish_total (r : string) (m : list (string * Z)) : Z :=
  foldr (λ e n, (if decide (e.1 = r) then e.2 else 0) + n) 0 m.

Definition bucket_field (f : Field) (b : WindowBucket) : Z :=
  match f with
  | FCalls => wb_call_count b | FStream => wb_stream_count b
  | FNonStream => wb_non_stream_count b | FSamples => wb_active_calls_sample_count b
  | FInTokens => wb_total_input_tokens b | FInCount => wb_input_token_count b
  | FOutTokens => wb_total_output_tokens b | FOutCount => wb_output_token_count b
  | FCacheRead => wb_total_cache_read_input_tokens b
  | FCacheCreation => wb_total_cache_creation_input_tokens b
  | FErrors => wb_error_count b | F4xx => wb_error_4xx_count b
  | F429 => wb_error_429_count b | F5xx => wb_error_5xx_count b
  | FTtft => dd_count (wb_ttft b) | FTtftStream => dd_count (wb_ttft_stream b)
  | FTtftNonstream => dd_count (wb_ttft_nonstream b) | FE2e => dd_count (wb_e2e b)
  | FTpot => dd_count (wb_tpot b)
  | FFinish r => finish_total r (wb_finish_counts b)
  end.

Definition row_field (f : Field) (row : LlmMetricsBatch) : Z :=
  let m := mb_metric row in
  match f with
  | FCalls => lm_call_count m | FStream => lm_stream_count m
  | FNonStream => lm_non_stream_count m | FSamples => lm_active_calls_sample_count m
  | FInTokens => lm_total_input_tokens m | FInCount => lm_input_token_count m
  | FOutTokens => lm_total_output_tokens m | FOutCount => lm_output_token_count m
  | FCacheRead => lm_total_cache_read_input_tokens m
  | FCacheCreation => lm_total_cache_creation_input_tokens m
  | FErrors => lm_error_count m | F4xx => lm_error_4xx_count m
  | F429 => lm_error_429_count m | F5xx => lm_error_5xx_count m
  | FTtft => ds_count (lm_ttft m) | FTtftStream => ds_count (lm_ttft_stream m)
  | FTtftNonstream => ds_count (lm_ttft_nonstream m) | FE2e => ds_count (lm_e2e m)
  | FTpot => ds_count (lm_tpot m)
  | FFinish r =>
      foldr (λ e n, (if decide (fm_finish_reason e = r) then fm_count e else 0) + n) 0
        (mb_finish_metrics row)
  end.

Definition start_field (f : Field) (s : LlmCallStart) : Z :=
  match f with
  | FCalls | FSamples => 1
  | FStream => if ls_is_stream s then 1 else 0
  | FNonStream => if ls_is_stream s then 0 else 1
  | _ => 0
  end.

Definition opt_value (o : option Z) : Z := default 0 o.
Definition opt_count {A : Type} (o : option A) : Z := match o with Some _ => 1 | None => 0 end.

Definition complete_field (f : Field) (c : LlmCall) : Z :=
  match f with
  | FCalls | FStream | FNonStream | FSamples => 0
  | FInTokens => opt_value (lc_input_tokens c) | FInCount => opt_count (lc_input_tokens c)
  | FOutTokens => opt_value (lc_output_tokens c) | FOutCount => opt_count (lc_output_tokens c)
  | FCacheRead => opt_value (lc_cache_read_input_tokens c)
  | FCacheCreation => opt_value (lc_cache_creation_input_tokens c)
  | FErrors => status_is (λ _, true) (lc_status_code c) | F4xx => status_is is_4xx (lc_status_code c)
  | F429 => status_is is_429 (lc_status_code c) | F5xx => status_is is_5xx (lc_status_code c)
  | FTtft => opt_count (lc_ttft_ms c)
  | FTtftStream => if lc_is_stream c then opt_count (lc_ttft_ms c) else 0
  | FTtftNonstream => if lc_is_stream c then 0 else opt_count (lc_ttft_ms c)
  | FE2e => opt_count (lc_e2e_latency_ms c) | FTpot => opt_count (tpot_of c)
  | FFinish r => if decide (lc_finish_reason c = Some r) then 1 else 0
  end.

Lemma digest_add_count (d : DistributionDigest) (v : f64) :
  dd_count (digest_add d v) = dd_count d + 1.
Proof.
  unfold digest_add. destruct (_ <=? _)%nat; [|done]. unfold digest_compact. by destruct (dd_buffer _).
Qed.

Lemma add_if_some_count (d : DistributionDigest) (o : option f64) :
  dd_count (add_if_some d o) = dd_count d + opt_count o.
Proof. destruct o; cbn; [apply digest_add_count|lia]. Qed.

Lemma finish_incr_total (r reason : string) (m : list (string * Z)) :
  finish_total r (finish_incr reason m) = finish_total r m + if decide (reason = r) then 1 else 0.
Proof.
  unfold finish_total. induction m as [|[x n] m IH]; [cbn; lia|]. cbn [finish_incr].
  destruct (String.compare reason x) eqn:E; cbn [foldr fst snd].
  - apply String.compare_eq_iff in E as ->. destruct (decide (x = r)); lia.
  - lia.
  - rewrite IH. lia.
Qed.

Lemma start_bucket_field (f : Field) (b : WindowBucket) (s : LlmCallStart) (v : Z) :
  bucket_field f (sample_active_calls (window_on_call_start b (ls_is_stream s)) v)
  = bucket_field f b + start_field f s.
Proof. destruct f; try (cbn; destruct (ls_is_stream s); lia). symmetry. apply Z.add_0_r. Qed.

Lemma plus_opt_value (n : Z) (o : option Z) : plus_opt n o = n + opt_value o.
Proof. destruct o; cbn; unfold id; lia. Qed.

Lemma plus_one_count {A : Type} (n : Z) (o : option A) : plus_one n o = n + opt_count o.
Proof. destruct o; cbn; lia. Qed.

Lemma complete_bucket_field (f : Field) (b : WindowBucket) (c : LlmCall) :
  bucket_field f (window_on_call_complete b c) = bucket_field f b + complete_field f c.
Proof.
  destruct f; cbn [bucket_field complete_field window_on_call_complete wb_call_count wb_stream_count
    wb_non_stream_count wb_active_calls_sample_count wb_total_input_tokens wb_input_token_count
    wb_total_output_tokens wb_output_token_count wb_total_cache_read_input_tokens
    wb_total_cache_creation_input_tokens wb_error_count wb_error_4xx_count wb_error_429_count
    wb_error_5xx_count wb_ttft wb_ttft_stream wb_ttft_nonstream wb_e2e wb_tpot wb_finish_counts];
    rewrite ?plus_opt_value, ?plus_one_count, ?add_if_some_count; try lia.
  1, 2: destruct (lc_is_stream c); rewrite ?add_if_some_count; lia.
  destruct (lc_finish_reason c) as [r|]; [rewrite finish_incr_total|].
  - destruct (decide (r = reason)), (decide (Some r = Some reason)); congruence || lia.
  - rewrite decide_False by done. lia.
Qed.

Lemma distribution_count (d : DistributionDigest) : ds_count (distribution d) = dd_count d.
Proof.
  unfold distribution. destruct (digest_quantile d q50) as [? d1].
  destruct (digest_quantile d1 q95) as [? d2]. by destruct (digest_quantile d2 q99).
Qed.

Lemma flush_row_field (f : Field) (k : BucketKey) (b : WindowBucket) :
  row_field f (flush_key k b) = bucket_field f b.
Proof.
  destruct f; cbn [row_field flush_key window_flush mb_metric lm_ttft lm_ttft_stream
    lm_ttft_nonstream lm_e2e lm_tpot]; try rewrite distribution_count; try done.
  cbn. induction (wb_finish_counts b) as [|[r n] m IH]; [done|]. cbn. by rewrite IH.
Qed.

(** Rows of a key, summed. *)
Definition row_is (k : BucketKey) (row : LlmMetricsBatch) : bool :=
  let m := mb_metric row in
  bool_decide (lm_source_id m = bk_source_id k ∧
    lm_granularity m = label_of (bk_granularity_idx k) ∧
    lm_timestamp_us m = bk_window_start_us k ∧ lm_wire_api m = bk_wire_api k ∧
    lm_model m = bk_model k ∧ lm_server_ip m = bk_server_ip k ∧
    lm_tool_surface m = surface_name <$> bk_tool_surface k).

Definition rows_total (f : Field) (k : BucketKey) (rows : list LlmMetricsBatch) : Z :=
  foldr (λ row n, (if row_is k row then row_field f row else 0) + n) 0 rows.

Definition at_key (f : Field) (k : BucketKey) (bs : gmap BucketKey WindowBucket) : Z :=
  match bs !! k with Some b => bucket_field f b | None => 0 end.

(** The keys an event writes, and what it adds to each. *)
Definition keys_of (source_id : string) (ts : Z) (surface : option ToolSurface)
    (dims : list DimensionKey) : list BucketKey :=
  granularities ≫= λ '(gi, gran),
    map (bucket_key source_id gi (window_start ts (gc_window_secs gran)) surface) dims.

Definition event_keys (ev : LlmEvent) : list BucketKey :=
  match ev with
  | LStart s => keys_of (ls_source_id s) (ls_timestamp_us s) None (start_dims s)
  | LComplete c _ => keys_of (lc_source_id c) (lc_request_time c) (lc_tool_surface c) (complete_dims c)
  | LHeartbeat _ _ => []
  end.
Definition event_field (f : Field) (ev : LlmEvent) : Z :=
  match ev with
  | LStart s => start_field f s
  | LComplete c _ => complete_field f c
  | LHeartbeat _ _ => 0
  end.
Definition key_count (k : BucketKey) (l : list BucketKey) : Z := zlen (filter (λ x, x = k) l).
Definition events_total (f : Field) (k : BucketKey) (evs : list LlmEvent) : Z :=
  foldr (λ ev n, key_count k (event_keys ev) * event_field f ev + n) 0 evs.

Lemma key_count_app (k : BucketKey) (l l' : list BucketKey) :
  key_count k (l ++ l') = key_count k l + key_count k l'.
Proof. unfold key_count. by rewrite filter_app, zlen_app. Qed.

Lemma key_count_cons (k x : BucketKey) (l : list BucketKey) :
  key_count k (x :: l) = (if decide (x = k) then 1 else 0) + key_count k l.
Proof. unfold key_count. rewrite filter_cons. destruct (decide (x = k)); unfold zlen; cbn; lia. Qed.

Lemma rows_total_app (f : Field) (k : BucketKey) (r r' : list LlmMetricsBatch) :
  rows_total f k (r ++ r') = rows_total f k r + rows_total f k r'.
Proof. unfold rows_total. induction r as [|x r IH]; cbn; [done|]. rewrite IH. lia. Qed.

Lemma events_total_app (f : Field) (k : BucketKey) (l l' : list LlmEvent) :
  events_total f k (l ++ l') = events_total f k l + events_total f k l'.
Proof.
  induction l as [|ev l IH]; [done|]. unfold events_total in *. cbn [app foldr]. rewrite IH. lia.
Qed.

Lemma rows_total_perm (f : Field) (k : BucketKey) (r r' : list LlmMetricsBatch) :
  r ≡ₚ r' → rows_total f k r = rows_total f k r'.
Proof. unfold rows_total. induction 1; cbn; lia. Qed.

(** ** Writes, flattened *)

Definition write_list (bs : gmap BucketKey WindowBucket)
    (ws : list (BucketKey * (WindowBucket → WindowBucket))) : gmap BucketKey WindowBucket :=
  foldl (λ bs '(k, f), write_bucket bs k f) bs ws.

Definition writes_of (source_id : string) (ts : Z) (surface : option ToolSurface)
    (writes : list (DimensionKey * (WindowBucket → WindowBucket)))
    : list (BucketKey * (WindowBucket → WindowBucket)) :=
  granularities ≫= λ '(gi, gran),
    map (λ '(dk, f), (bucket_key source_id gi (window_start ts (gc_window_secs gran)) surface dk, f))
      writes.

Lemma write_list_app (bs : gmap BucketKey WindowBucket) (l l' : list _) :
  write_list bs (l ++ l') = write_list (write_list bs l) l'.
Proof. apply foldl_app. Qed.

Lemma write_list_map (bs : gmap BucketKey WindowBucket) (g : DimensionKey → BucketKey)
    (l : list (DimensionKey * (WindowBucket → WindowBucket))) :
  write_list bs (map (λ '(dk, f), (g dk, f)) l)
  = foldl (λ bs '(dk, f), write_bucket bs (g dk) f) bs l.
Proof. revert bs; induction l as [|[dk f] l IH]; intros bs; [done|]. cbn. apply IH. Qed.

Lemma write_windows_buckets (a : MetricsAggregator) (s : string) (ts : Z) (sf : option ToolSurface)
    (ws : list (DimensionKey * (WindowBucket → WindowBucket))) :
  ma_buckets (write_windows a s ts sf ws) = write_list (ma_buckets a) (writes_of s ts sf ws).
Proof.
  unfold write_windows, writes_of. generalize granularities. intros gs.
  generalize (ma_last_flush_ts a). generalize (ma_buckets a). induction gs as [|[gi g] gs IH]; intros bs last.
  - done.
  - cbn [foldl mbind list_bind]. rewrite write_list_app,
      (write_list_map bs (bucket_key s gi (window_start ts (gc_window_secs g)) sf)).
    apply IH.
Qed.

Lemma writes_of_keys (s : string) (ts : Z) (sf : option ToolSurface)
    (ws : list (DimensionKey * (WindowBucket → WindowBucket))) :
  map fst (writes_of s ts sf ws) = keys_of s ts sf (map fst ws).
Proof.
  unfold writes_of, keys_of. generalize granularities. intros gs.
  induction gs as [|[gi g] gs IH]; [done|]. cbn. rewrite map_app, IH. f_equal.
  rewrite !map_map. apply map_ext. by intros [].
Qed.

Lemma elem_of_writes (s : string) (ts : Z) (sf : option ToolSurface)
    (ws : list (DimensionKey * (WindowBucket → WindowBucket)))
    (kf : BucketKey * (WindowBucket → WindowBucket)) :
  kf ∈ writes_of s ts sf ws →
  (bk_granularity_idx kf.1 < length GRANULARITIES)%nat ∧ ∃ dk, (dk, kf.2) ∈ ws.
Proof.
  intros H. apply list_elem_of_bind in H as ([gi g] & H & Hg).
  apply list_elem_of_In, in_map_iff in H as ([dk f] & <- & H%list_elem_of_In). cbn.
  split; [|by exists dk]. apply elem_of_lookup_imap in Hg as (i & x & E & Hl). simplify_eq.
  by apply lookup_lt_Some in Hl.
Qed.

Lemma window_new_field (f : Field) : bucket_field f window_new = 0.
Proof. by destruct f. Qed.

Lemma at_key_write (f : Field) (k key : BucketKey) (bs : gmap BucketKey WindowBucket)
    (g : WindowBucket → WindowBucket) (d : Z) :
  (∀ b, bucket_field f (g b) = bucket_field f b + d) →
  at_key f k (write_bucket bs key g) = at_key f k bs + (if decide (key = k) then d else 0).
Proof.
  intros Hg. unfold at_key, write_bucket. destruct (decide (key = k)) as [->|Hne].
  - rewrite lookup_insert_eq, Hg. destruct (bs !! k); [done|]. by rewrite window_new_field.
  - rewrite lookup_insert_ne by done. lia.
Qed.

Lemma at_key_write_list (f : Field) (k : BucketKey) (d : Z)
    (ws : list (BucketKey * (WindowBucket → WindowBucket))) (bs : gmap BucketKey WindowBucket) :
  (∀ kf, kf ∈ ws → ∀ b, bucket_field f (kf.2 b) = bucket_field f b + d) →
  at_key f k (write_list bs ws) = at_key f k bs + key_count k (map fst ws) * d.
Proof.
  revert bs; induction ws as [|[key g] ws IH]; intros bs H; [cbn [write_list foldl map]; change (key_count k []) with 0; lia|].
  cbn [write_list foldl map fst]. change (foldl _ ?b ws) with (write_list b ws).
  rewrite IH by (intros; apply H; set_solver).
  rewrite (at_key_write f k key bs g d) by (apply (H (key, g)); set_solver).
  rewrite key_count_cons. destruct (decide (key = k)); lia.
Qed.

(** ** Every bucket in the table has something to emit *)

Definition bucket_ok (k : BucketKey) (b : WindowBucket) : Prop :=
  (bk_granularity_idx k < length GRANULARITIES)%nat ∧
  0 <= wb_call_count b ∧ 0 <= wb_complete_count b ∧ has_data b = true.
Definition buckets_ok (bs : gmap BucketKey WindowBucket) : Prop := map_Forall bucket_ok bs.

(** An update that keeps the two counts non-negative and makes one positive. *)
Definition fills (f : WindowBucket → WindowBucket) : Prop :=
  ∀ b, 0 <= wb_call_count b → 0 <= wb_complete_count b →
    0 <= wb_call_count (f b) ∧ 0 <= wb_complete_count (f b) ∧ has_data (f b) = true.

Lemma start_fills (is_stream : bool) (v : Z) :
  fills (λ b, sample_active_calls (window_on_call_start b is_stream) v).
Proof. intros b ? ?. unfold has_data. cbn. zify_bool. lia. Qed.

Lemma complete_fills (c : LlmCall) : fills (λ b, window_on_call_complete b c).
Proof. intros b ? ?. unfold has_data. cbn. zify_bool. lia. Qed.

Lemma write_list_ok (ws : list (BucketKey * (WindowBucket → WindowBucket)))
    (bs : gmap BucketKey WindowBucket) :
  buckets_ok bs →
  (∀ kf, kf ∈ ws → (bk_granularity_idx kf.1 < length GRANULARITIES)%nat ∧ fills kf.2) →
  buckets_ok (write_list bs ws).
Proof.
  revert bs; induction ws as [|[key g] ws IH]; intros bs Hb Hw; [done|].
  apply (IH (write_bucket bs key g)); [|intros; apply Hw; set_solver].
  destruct (Hw (key, g)) as [Hi Hg]; [set_solver|]. cbn in Hi, Hg.
  apply map_Forall_insert_2; [|done]. split; [done|]. apply Hg.
  - destruct (bs !! key) as [b|] eqn:E; [apply (Hb _ _ E)|done].
  - destruct (bs !! key) as [b|] eqn:E; [apply (Hb _ _ E)|done].
Qed.

(** ** Draining moves a key's sums from the table to the rows *)

Lemma label_of_inj (i j : nat) :
  (i < length GRANULARITIES)%nat → label_of i = label_of j → i = j.
Proof.
  intros Hi. do 4 (destruct i as [|i]; [do 4 (destruct j as [|j]; [done|]); done|]). cbn in Hi. lia.
Qed.

Lemma surface_name_inj (s s' : option ToolSurface) :
  surface_name <$> s = surface_name <$> s' → s = s'.
Proof. by destruct s as [[]|], s' as [[]|]. Qed.

Lemma row_is_flush (k key : BucketKey) (b : WindowBucket) :
  (bk_granularity_idx key < length GRANULARITIES)%nat →
  row_is k (flush_key key b) = bool_decide (key = k).
Proof.
  intros Hi. unfold row_is. apply bool_decide_ext. cbn. split; [|by intros ->].
  destruct k, key; cbn in *. intros (? & H%label_of_inj & ? & ? & ? & ? & ?%surface_name_inj); [|done].
  by subst.
Qed.

Lemma rows_total_cons (f : Field) (k key : BucketKey) (b : WindowBucket) (rows : list LlmMetricsBatch) :
  bucket_ok key b →
  rows_total f k (flush_key key b :: rows)
  = (if decide (key = k) then bucket_field f b else 0) + rows_total f k rows.
Proof.
  intros [Hi _]. unfold rows_total. cbn [foldr]. rewrite row_is_flush, flush_row_field by done.
  by destruct (decide (key = k)); [rewrite bool_decide_true|rewrite bool_decide_false].
Qed.

Lemma at_key_delete (f : Field) (k key : BucketKey) (bs : gmap BucketKey WindowBucket) :
  at_key f k (delete key bs) = if decide (key = k) then 0 else at_key f k bs.
Proof.
  unfold at_key. destruct (decide (key = k)) as [->|Hne];
    [by rewrite lookup_delete_eq|by rewrite lookup_delete_ne].
Qed.

Lemma drain_keys_spec (keys : list BucketKey) (bs : gmap BucketKey WindowBucket) (c : counters) :
  buckets_ok bs →
  let '(bs', c', rows) := drain_keys keys bs c in
  (∀ k, bs' !! k = if decide (k ∈ keys) then None else bs !! k) ∧
  (∀ f k, at_key f k bs' + rows_total f k rows = at_key f k bs) ∧
  (∀ m, c' m = c m + if decide (m = MetricsWindowsEmitted) then zlen rows else 0) ∧
  Forall (λ row, ∃ k b, k ∈ keys ∧ bs !! k = Some b ∧ row = flush_key k b) rows.
Proof.
  revert bs c; induction keys as [|key keys IH]; intros bs c Hb; cbn [drain_keys].
  { split; [done|]. split; [cbn; lia|]. split; [|done].
    intros m. destruct (decide _); change (zlen []) with 0; lia. }
  destruct (bs !! key) as [b|] eqn:E.
  2: { specialize (IH bs c Hb). destruct (drain_keys keys bs c) as [[bs' c'] rows].
    destruct IH as (I1 & I2 & I3 & I4). split; [|split; [done|split; [done|]]].
    - intros k. rewrite I1. destruct (decide (k = key)) as [->|Hne].
      + rewrite (decide_True (P := key ∈ key :: keys)) by set_solver. by destruct (decide _).
      + destruct (decide (k ∈ keys)); [by rewrite decide_True by set_solver
          |by rewrite decide_False by set_solver].
    - eapply Forall_impl; [exact I4|]. intros row (k & b & ? & ? & ?). exists k, b.
      split; [set_solver|done]. }
  pose proof (Hb _ _ E) as Hok. destruct Hok as (Hi & H1 & H2 & Hd). rewrite Hd.
  specialize (IH (delete key bs) (inc_counter MetricsWindowsEmitted c)).
  destruct (drain_keys keys (delete key bs) _) as [[bs' c'] rows].
  destruct IH as (I1 & I2 & I3 & I4); [by apply map_Forall_delete|].
  split; [|split; [|split]].
  - intros k. rewrite I1. destruct (decide (k = key)) as [->|Hne].
    + rewrite lookup_delete_eq, (decide_True (P := key ∈ key :: keys)) by set_solver.
      by destruct (decide _).
    + rewrite lookup_delete_ne by done. destruct (decide (k ∈ keys));
        [by rewrite decide_True by set_solver|by rewrite decide_False by set_solver].
  - intros f k. rewrite rows_total_cons by done. specialize (I2 f k). rewrite at_key_delete in I2.
    destruct (decide (key = k)) as [->|]; [|lia]. unfold at_key in I2 |- *. rewrite E. lia.
  - intros m. rewrite I3. unfold inc_counter, add_counter, zlen. cbn [length].
    destruct (decide (MetricsWindowsEmitted = m)), (decide (m = MetricsWindowsEmitted));
      congruence || lia.
  - constructor; [by exists key, b; split; [set_solver|]|].
    eapply Forall_impl; [exact I4|]. intros row (k & b' & ? & Hl & ?).
    apply lookup_delete_Some in Hl as [? ?]. exists k, b'. split; [set_solver|done].
Qed.

Lemma drain_keys_ok (keys : list BucketKey) (bs : gmap BucketKey WindowBucket) (c : counters) :
  buckets_ok bs → buckets_ok (drain_keys keys bs c).1.1.
Proof.
  intros Hb. pose proof (drain_keys_spec keys bs c Hb) as H.
  destruct (drain_keys keys bs c) as [[bs' c'] rows]. destruct H as [H _]. cbn.
  intros k b Hk. rewrite H in Hk. destruct (decide _); [done|]. by apply Hb.
Qed.

(** ** Balance: a step of the aggregator loses no sum and counts its rows *)

Definition emitted (a : MetricsAggregator) : Z := ma_metrics a MetricsWindowsEmitted.

Definition balanced (a a' : MetricsAggregator) (rows : list LlmMetricsBatch) : Prop :=
  buckets_ok (ma_buckets a') ∧
  (∀ f k, at_key f k (ma_buckets a') + rows_total f k rows = at_key f k (ma_buckets a)) ∧
  emitted a' = emitted a + zlen rows.

Lemma balanced_refl (a : MetricsAggregator) : buckets_ok (ma_buckets a) → balanced a a [].
Proof. intros H. split; [done|]. change (zlen []) with 0. split; [intros f k; cbn; lia|lia]. Qed.

Lemma balanced_trans (a a1 a2 : MetricsAggregator) (r r' : list LlmMetricsBatch) :
  balanced a a1 r → balanced a1 a2 r' → balanced a a2 (r ++ r').
Proof.
  intros (_ & H1 & H2) (? & I1 & I2). split; [done|]. split.
  - intros f k. rewrite rows_total_app. specialize (H1 f k). specialize (I1 f k). lia.
  - rewrite zlen_app. lia.
Qed.

Lemma drain_granularity_app (s : string) (now : Z) (a : MetricsAggregator)
    (rows : list LlmMetricsBatch) (g : nat * GranularityConfig) :
  drain_granularity s now (a, rows) g
  = let '(a', r) := drain_granularity s now (a, []) g in (a', rows ++ r).
Proof.
  unfold drain_granularity. destruct g as [gi gran].
  destruct (ma_last_flush_ts a !! (s, gi)); [|by rewrite app_nil_r].
  destruct (_ <? _); [by rewrite app_nil_r|]. by destruct (drain_keys _ _ _) as [[??]?].
Qed.

Lemma drain_granularity_balanced (s : string) (now : Z) (a : MetricsAggregator)
    (g : nat * GranularityConfig) :
  buckets_ok (ma_buckets a) →
  let '(a', rows) := drain_granularity s now (a, []) g in balanced a a' rows.
Proof.
  intros Hb. unfold drain_granularity. destruct g as [gi gran].
  destruct (ma_last_flush_ts a !! (s, gi)); [|by apply balanced_refl].
  destruct (_ <? _); [by apply balanced_refl|].
  set (keys := dirty_keys _ _ _).
  pose proof (drain_keys_spec keys (ma_buckets a) (ma_metrics a) Hb) as H.
  pose proof (drain_keys_ok keys (ma_buckets a) (ma_metrics a) Hb) as Hok.
  destruct (drain_keys keys _ _) as [[bs c] rows]. destruct H as (_ & H1 & H2 & _).
  split; [done|]. split; [done|]. unfold emitted. cbn. by rewrite H2.
Qed.

Lemma drain_fold_balanced (s : string) (now : Z) (gs : list (nat * GranularityConfig))
    (a a' : MetricsAggregator) (rows rows' : list LlmMetricsBatch) :
  buckets_ok (ma_buckets a) → foldl (drain_granularity s now) (a, rows) gs = (a', rows') →
  ∃ new, rows' = rows ++ new ∧ balanced a a' new.
Proof.
  revert a rows; induction gs as [|g gs IH]; intros a rows Hb E; cbn [foldl] in E.
  { simplify_eq. exists []. split; [by rewrite app_nil_r|by apply balanced_refl]. }
  rewrite drain_granularity_app in E.
  pose proof (drain_granularity_balanced s now a g Hb) as H1.
  destruct (drain_granularity s now (a, []) g) as [a1 r].
  destruct (IH a1 (rows ++ r) (proj1 H1) E) as (new & -> & H2).
  exists (r ++ new). split; [by rewrite app_assoc|]. by apply (balanced_trans a a1).
Qed.

(** *** The event's own writes *)

Definition start_writes (s : LlmCallStart) (values : list Z)
    : list (DimensionKey * (WindowBucket → WindowBucket)) :=
  zip_with (λ dk v, (dk, λ b, sample_active_calls (window_on_call_start b (ls_is_stream s)) v))
    (start_dims s) values.

Lemma start_writes_fst (s : LlmCallStart) (values : list Z) :
  length values = length (start_dims s) → map fst (start_writes s values) = start_dims s.
Proof.
  unfold start_writes. generalize (start_dims s). intros l. revert values.
  induction l as [|x l IH]; intros [|v values]; cbn; try done. intros [=]. f_equal. by apply IH.
Qed.

Lemma elem_of_start_writes (s : LlmCallStart) (values : list Z) dk (f : WindowBucket → WindowBucket) :
  (dk, f) ∈ start_writes s values →
  ∃ v, f = λ b, sample_active_calls (window_on_call_start b (ls_is_stream s)) v.
Proof.
  unfold start_writes. intros (x & v & E & _)%elem_of_zip_with. simplify_eq. by exists v.
Qed.

Lemma agg_on_call_start_buckets (a : MetricsAggregator) (s : LlmCallStart) :
  ∃ values, length values = length (start_dims s) ∧
    ma_buckets (agg_on_call_start a s)
    = write_list (ma_buckets a)
        (writes_of (ls_source_id s) (ls_timestamp_us s) None (start_writes s values)).
Proof.
  unfold agg_on_call_start. destruct (active_start _ _ _ _) as [ac values] eqn:E.
  exists values. split; [unfold active_start in E; simplify_eq; by rewrite length_map|].
  by rewrite write_windows_buckets.
Qed.

Lemma write_windows_metrics (a : MetricsAggregator) s ts sf ws :
  ma_metrics (write_windows a s ts sf ws) = ma_metrics a.
Proof. unfold write_windows. by destruct (foldl _ _ granularities). Qed.

Lemma absorb_emitted (a : MetricsAggregator) (ev : LlmEvent) : emitted (absorb a ev) = emitted a.
Proof.
  unfold emitted. destruct ev; cbn [absorb]; unfold agg_on_call_start, agg_on_call_complete.
  - destruct (active_start _ _ _ _). by rewrite write_windows_metrics.
  - by rewrite write_windows_metrics.
  - done.
Qed.

Lemma absorb_at_key (a : MetricsAggregator) (ev : LlmEvent) (f : Field) (k : BucketKey) :
  at_key f k (ma_buckets (absorb a ev))
  = at_key f k (ma_buckets a) + key_count k (event_keys ev) * event_field f ev.
Proof.
  destruct ev as [s|c arc|ts s]; cbn [absorb event_keys event_field].
  - destruct (agg_on_call_start_buckets (agg_inc MetricsLlmEventsStart 1 a) s) as (vs & Hl & ->).
    rewrite (at_key_write_list f k (start_field f s)), writes_of_keys, start_writes_fst; [done|done|].
    intros [key g] (_ & dk & (v & ->)%elem_of_start_writes)%elem_of_writes b.
    apply start_bucket_field.
  - unfold agg_on_call_complete. rewrite write_windows_buckets.
    rewrite (at_key_write_list f k (complete_field f c)), writes_of_keys, map_map, map_id; [done|].
    intros [key g] (_ & dk & H)%elem_of_writes b.
    apply list_elem_of_In, in_map_iff in H as (? & [= <- <-] & _). apply complete_bucket_field.
  - cbn. lia.
Qed.

Lemma absorb_ok (a : MetricsAggregator) (ev : LlmEvent) :
  buckets_ok (ma_buckets a) → buckets_ok (ma_buckets (absorb a ev)).
Proof.
  intros Hb. destruct ev as [s|c arc|ts s]; cbn [absorb]; [| |done].
  - destruct (agg_on_call_start_buckets (agg_inc MetricsLlmEventsStart 1 a) s) as (vs & _ & ->).
    apply write_list_ok; [done|]. intros [key g] (? & dk & (v & ->)%elem_of_start_writes)%elem_of_writes.
    split; [done|apply start_fills].
  - unfold agg_on_call_complete. rewrite write_windows_buckets. apply write_list_ok; [done|].
    intros [key g] (? & dk & H)%elem_of_writes.
    apply list_elem_of_In, in_map_iff in H as (? & [= <- <-] & _). split; [done|apply complete_fills].
Qed.

Definition watermark (a1 : MetricsAggregator) (ev : LlmEvent) : Z :=
  Z.max (default 0 (ma_latest_ts a1 !! (event_clock ev).1)) (event_clock ev).2.

(** The state [agg_settle] hands to [maybe_drain]. *)
Lemma agg_settle_drains (a : MetricsAggregator) (ev : LlmEvent) :
  ∃ a3, agg_settle a ev = maybe_drain a3 (event_clock ev).1 (watermark a ev) ∧
    ma_buckets a3 = ma_buckets a ∧ emitted a3 = emitted a ∧
    ma_last_flush_ts a3 = ma_last_flush_ts a.
Proof.
  unfold agg_settle, watermark. destruct (event_clock ev) as [s ts]. cbn [fst snd].
  destruct (active_expire _ _ _) as [ac expired]. eexists. split; [done|].
  unfold emitted. by destruct (0 <? expired).
Qed.

Lemma agg_settle_balanced (a : MetricsAggregator) (ev : LlmEvent) :
  buckets_ok (ma_buckets a) → let '(a', rows) := agg_settle a ev in balanced a a' rows.
Proof.
  intros Hb. destruct (agg_settle_drains a ev) as (a3 & -> & E1 & E2 & _).
  destruct (maybe_drain a3 _ _) as [a' rows] eqn:E.
  apply drain_fold_balanced in E as (new & -> & H1 & H2 & H3); [|by rewrite E1].
  split; [done|]. split; [by rewrite <- E1|]. by rewrite H3, E2.
Qed.

(** ** The order of the final rows *)

Definition row_le (x y : LlmMetricsBatch) : Prop := row_cmp x y ≠ Gt.

Lemma opt_cmp_antisym (a b : option string) : opt_cmp a b = CompOpp (opt_cmp b a).
Proof. destruct a, b; cbn; try done. apply String.compare_antisym. Qed.

Lemma row_cmp_antisym (x y : LlmMetricsBatch) : row_cmp x y = CompOpp (row_cmp y x).
Proof.
  unfold row_cmp. rewrite <- !then_cmp_opp, <- opt_cmp_antisym, <- Z.compare_antisym.
  by rewrite <- !String.compare_antisym.
Qed.

Lemma insert_row_perm (x : LlmMetricsBatch) (l : list LlmMetricsBatch) : insert_row x l ≡ₚ x :: l.
Proof.
  induction l as [|y l IH]; [done|]. cbn. destruct (row_cmp x y); try done.
  rewrite IH. constructor.
Qed.

Lemma sort_rows_perm (l : list LlmMetricsBatch) : sort_rows l ≡ₚ l.
Proof.
  induction l as [|x l IH]; [done|]. cbn. rewrite insert_row_perm. by constructor.
Qed.

Lemma insert_row_sorted (x : LlmMetricsBatch) (l : list LlmMetricsBatch) :
  Sorted row_le l → Sorted row_le (insert_row x l).
Proof.
  induction l as [|y l IH]; intros Hl; [by repeat constructor|]. cbn.
  inversion Hl as [|?? Hs Hh]; subst.
  destruct (row_cmp x y) eqn:E; [constructor; [done|constructor; unfold row_le; congruence]..|].
  constructor; [by apply IH|].
  assert (Hyx : row_le y x) by (unfold row_le; rewrite row_cmp_antisym, E; done).
  destruct l as [|z l]; cbn; [by constructor|].
  inversion Hh; subst. by destruct (row_cmp x z); constructor.
Qed.

Lemma sort_rows_sorted (l : list LlmMetricsBatch) : Sorted row_le (sort_rows l).
Proof. induction l as [|x l IH]; [constructor|]. cbn. by apply insert_row_sorted. Qed.

(** Draining a list of entries yields their rows, in its order. *)
Lemma drain_keys_rows (l : list (BucketKey * WindowBucket)) (bs : gmap BucketKey WindowBucket)
    (c : counters) :
  buckets_ok bs → NoDup l.*1 → (∀ k b, (k, b) ∈ l → bs !! k = Some b) →
  (drain_keys (map fst l) bs c).2 = map (λ kb, flush_key kb.1 kb.2) l.
Proof.
  revert bs c; induction l as [|[k b] l IH]; intros bs c Hb Hnd Hl; [done|].
  apply NoDup_cons in Hnd as [Hk Hnd]. cbn [map fst drain_keys].
  assert (E : bs !! k = Some b) by (apply Hl; set_solver). rewrite E.
  destruct (Hb _ _ E) as (_ & _ & _ & ->).
  specialize (IH (delete k bs) (inc_counter MetricsWindowsEmitted c)).
  destruct (drain_keys (map fst l) (delete k bs) _) as [[bs' c'] rows]. cbn in *. f_equal.
  apply IH; [by apply map_Forall_delete|done|].
  intros k' b' Hin. rewrite lookup_delete_ne; [apply Hl; set_solver|].
  intros ->. apply Hk. apply list_elem_of_fmap. by exists (k', b').
Qed.

(** ** Which pairs of source and granularity are due *)

Definition due_at (a : MetricsAggregator) (s : string) (now : Z) (g : nat * GranularityConfig) : bool :=
  match ma_last_flush_ts a !! (s, g.1) with
  | Some t => gc_window_secs g.2 * 1000000 <=? now - t
  | None => false
  end.
Definition due (a : MetricsAggregator) (s : string) (now : Z) (gs : list (nat * GranularityConfig))
    (gi : nat) : bool :=
  existsb (λ g, (g.1 =? gi)%nat && due_at a s now g) gs.

Lemma due_ext (a a' : MetricsAggregator) (s : string) (now : Z)
    (gs : list (nat * GranularityConfig)) (gi : nat) :
  (∀ g, g ∈ gs → ma_last_flush_ts a' !! (s, g.1) = ma_last_flush_ts a !! (s, g.1)) →
  due a' s now gs gi = due a s now gs gi.
Proof.
  intros H. unfold due. induction gs as [|g gs IH]; [done|]. cbn.
  rewrite IH by (intros; apply H; set_solver). unfold due_at at 1 3. by rewrite H by set_solver.
Qed.

Lemma due_not_in (a : MetricsAggregator) (s : string) (now : Z)
    (gs : list (nat * GranularityConfig)) (gi : nat) :
  gi ∉ gs.*1 → due a s now gs gi = false.
Proof.
  intros H. unfold due. induction gs as [|g gs IH]; [done|]. cbn.
  destruct (Nat.eqb_spec g.1 gi) as [<-|]; [set_solver|]. apply IH. set_solver.
Qed.

(** ** Cadence anchors *)

Definition set_anchor (s : string) (ts : Z) (last : gmap (string * nat) Z)
    (g : nat * GranularityConfig) : gmap (string * nat) Z :=
  match last !! (s, g.1) with
  | Some _ => last
  | None => <[(s, g.1) := window_start ts (gc_window_secs g.2)]> last
  end.

Lemma write_windows_anchors (a : MetricsAggregator) (s : string) (ts : Z) sf ws :
  ma_last_flush_ts (write_windows a s ts sf ws)
  = foldl (set_anchor s ts) (ma_last_flush_ts a) granularities.
Proof.
  unfold write_windows. generalize granularities. intros gs. generalize (ma_last_flush_ts a).
  generalize (ma_buckets a). induction gs as [|[gi g] gs IH]; intros bs last; [done|]. apply IH.
Qed.

Lemma anchors_keep (s : string) (ts : Z) (gs : list (nat * GranularityConfig))
    (last : gmap (string * nat) Z) (p : string * nat) (t : Z) :
  last !! p = Some t → foldl (set_anchor s ts) last gs !! p = Some t.
Proof.
  revert last; induction gs as [|g gs IH]; intros last Hp; [done|]. cbn. apply IH.
  unfold set_anchor. destruct (last !! (s, g.1)) eqn:E; [done|].
  rewrite lookup_insert_ne by congruence. done.
Qed.

Lemma anchors_set (s : string) (ts : Z) (gs : list (nat * GranularityConfig))
    (last : gmap (string * nat) Z) (gi : nat) (gran : GranularityConfig) :
  NoDup gs.*1 → (gi, gran) ∈ gs → last !! (s, gi) = None →
  foldl (set_anchor s ts) last gs !! (s, gi) = Some (window_start ts (gc_window_secs gran)).
Proof.
  revert last; induction gs as [|g gs IH]; intros last Hnd Hin Hl; [set_solver|].
  apply NoDup_cons in Hnd as [Hg Hnd]. cbn. apply elem_of_cons in Hin as [<-|Hin].
  - apply anchors_keep. unfold set_anchor. cbn. by rewrite Hl, lookup_insert_eq.
  - apply IH; [done|done|]. unfold set_anchor.
    destruct (last !! (s, g.1)); [done|]. rewrite lookup_insert_ne; [done|].
    intros [= E]. apply Hg. rewrite E. apply list_elem_of_fmap. by exists (gi, gran).
Qed.

Lemma granularities_NoDup : NoDup granularities.*1.
Proof. vm_compute. repeat constructor; set_solver. Qed.

Lemma elem_of_granularities (gi : nat) (gran : GranularityConfig) :
  (gi, gran) ∈ granularities ↔ GRANULARITIES !! gi = Some gran.
Proof.
  unfold granularities. rewrite elem_of_lookup_imap. split; [|intros; by exists gi, gran].
  by intros (i & x & [= -> ->] & H).
Qed.

(** The window an event belongs to, if it writes. *)
Definition write_time (ev : LlmEvent) : option Z :=
  match ev with
  | LStart s => Some (ls_timestamp_us s)
  | LComplete c _ => Some (lc_request_time c)
  | LHeartbeat _ _ => None
  end.

Lemma absorb_last (a : MetricsAggregator) (ev : LlmEvent) :
  ma_last_flush_ts (absorb a ev)
  = match write_time ev with
    | Some ts => foldl (set_anchor (event_clock ev).1 ts) (ma_last_flush_ts a) granularities
    | None => ma_last_flush_ts a
    end.
Proof.
  destruct ev as [s|c arc|ts s]; cbn [absorb write_time event_clock fst]; [| |done].
  - unfold agg_on_call_start. destruct (active_start _ _ _ _). by rewrite write_windows_anchors.
  - unfold agg_on_call_complete. by rewrite write_windows_anchors.
Qed.

Lemma absorb_anchor (a : MetricsAggregator) (ev : LlmEvent) (gi : nat) (gran : GranularityConfig) :
  GRANULARITIES !! gi = Some gran →
  ma_last_flush_ts (absorb a ev) !! ((event_clock ev).1, gi)
  = match ma_last_flush_ts a !! ((event_clock ev).1, gi) with
    | Some t => Some t
    | None => (λ ts, window_start ts (gc_window_secs gran)) <$> write_time ev
    end.
Proof.
  intros Hg%elem_of_granularities. rewrite absorb_last.
  destruct (write_time ev) as [ts|]; [|by destruct (_ !! _)].
  destruct (ma_last_flush_ts a !! _) as [t|] eqn:E; [by apply anchors_keep|].
  by apply anchors_set; [apply granularities_NoDup| |].
Qed.

(** Every bucket's source and granularity has an anchor. *)
Definition anchored (a : MetricsAggregator) : Prop :=
  ∀ k b, ma_buckets a !! k = Some b →
    is_Some (ma_last_flush_ts a !! (bk_source_id k, bk_granularity_idx k)).

Lemma write_list_dom (ws : list (BucketKey * (WindowBucket → WindowBucket)))
    (bs : gmap BucketKey WindowBucket) (k : BucketKey) (b : WindowBucket) :
  write_list bs ws !! k = Some b → is_Some (bs !! k) ∨ k ∈ ws.*1.
Proof.
  revert bs; induction ws as [|[key g] ws IH]; intros bs H; [by left; exists b|].
  destruct (IH (write_bucket bs key g) H) as [Hs|Hin]; [|right; set_solver].
  unfold write_bucket in Hs. destruct (decide (key = k)) as [->|Hne]; [right; set_solver|].
  rewrite lookup_insert_ne in Hs by done. by left.
Qed.

Lemma absorb_writes (a : MetricsAggregator) (ev : LlmEvent) :
  ∃ ws, ma_buckets (absorb a ev) = write_list (ma_buckets a) ws ∧ ws.*1 = event_keys ev.
Proof.
  destruct ev as [s|c arc|ts s]; cbn [absorb event_keys]; [| |by exists []].
  - destruct (agg_on_call_start_buckets (agg_inc MetricsLlmEventsStart 1 a) s) as (vs & Hl & E).
    eexists. split; [exact E|]. change (@fmap list _ ?A ?B) with (@map A B).
    by rewrite writes_of_keys, start_writes_fst.
  - unfold agg_on_call_complete. rewrite write_windows_buckets. eexists. split; [done|].
    change (@fmap list _ ?A ?B) with (@map A B). by rewrite writes_of_keys, map_map, map_id.
Qed.

Lemma elem_of_event_keys (ev : LlmEvent) (k : BucketKey) :
  k ∈ event_keys ev →
  bk_source_id k = (event_clock ev).1 ∧ is_Some (write_time ev) ∧
  ∃ gran, GRANULARITIES !! bk_granularity_idx k = Some gran.
Proof.
  assert (Hk : ∀ s ts sf dims, k ∈ keys_of s ts sf dims →
    bk_source_id k = s ∧ ∃ gran, GRANULARITIES !! bk_granularity_idx k = Some gran).
  { intros s ts sf dims ([gi g] & Hin & Hg)%list_elem_of_bind.
    apply list_elem_of_In, in_map_iff in Hin as (dk & <- & _). split; [done|].
    exists g. by apply elem_of_granularities. }
  destruct ev as [s|c arc|ts s]; cbn [event_keys event_clock fst write_time]; [| |set_solver].
  - intros [? ?]%Hk. split; [done|]. split; [by eexists|done].
  - intros [? ?]%Hk. split; [done|]. split; [by eexists|done].
Qed.

Lemma absorb_anchored (a : MetricsAggregator) (ev : LlmEvent) : anchored a → anchored (absorb a ev).
Proof.
  intros Ha k b Hk. destruct (absorb_writes a ev) as (ws & E & Hws). rewrite E in Hk.
  apply write_list_dom in Hk as [[b' Hb]|Hin].
  - destruct (Ha k b' Hb) as [t Ht]. exists t. rewrite absorb_last.
    destruct (write_time ev); [by apply anchors_keep|done].
  - rewrite Hws in Hin. apply elem_of_event_keys in Hin as (-> & [ts Hts] & gran & Hg).
    rewrite (absorb_anchor a ev _ gran Hg), Hts. cbn [fmap option_fmap option_map].
    destruct (ma_last_flush_ts a !! _); by eexists.
Qed.

(** ** With iteration laws *)

Section AggregatorLaws.
Context `{HILB : !HashIterLaws BucketKey WindowBucket HIB}.

Lemma elem_of_dirty (bs : gmap BucketKey WindowBucket) (s : string) (gi : nat) (k : BucketKey) :
  k ∈ dirty_keys bs s gi ↔
  is_Some (bs !! k) ∧ bk_source_id k = s ∧ bk_granularity_idx k = gi.
Proof.
  unfold dirty_keys. rewrite list_elem_of_In, in_map_iff. split.
  - intros ([k' b] & <- & Hin). apply filter_In in Hin as [Hin Hc]. cbn [fst snd] in *.
    apply list_elem_of_In, elem_of_hash_iter in Hin. zify_bool. split; [by exists b|done].
  - intros ([b Hb] & Hs & Hg). exists (k, b). split; [done|]. apply filter_In. split.
    + by apply list_elem_of_In, elem_of_hash_iter.
    + cbn [fst snd]. by rewrite !bool_decide_true.
Qed.

(** What is drained, in the terms of the state before. *)
Definition drained (a : MetricsAggregator) (s : string) (now : Z)
    (gs : list (nat * GranularityConfig)) (k : BucketKey) : bool :=
  bool_decide (bk_source_id k = s) && due a s now gs (bk_granularity_idx k).

Lemma drain_granularity_spec (s : string) (now : Z) (a : MetricsAggregator)
    (g : nat * GranularityConfig) :
  buckets_ok (ma_buckets a) →
  let '(a', rows) := drain_granularity s now (a, []) g in
  ma_last_flush_ts a'
    = (if due_at a s now g then <[(s, g.1) := now]> (ma_last_flush_ts a) else ma_last_flush_ts a) ∧
  (∀ k, ma_buckets a' !! k = if drained a s now [g] k then None else ma_buckets a !! k) ∧
  Forall (λ row, ∃ k b, ma_buckets a !! k = Some b ∧ drained a s now [g] k = true ∧
                        row = flush_key k b) rows.
Proof.
  intros Hb. unfold drain_granularity, drained, due. destruct g as [gi gran]. cbn [existsb fst].
  destruct (due_at a s now (gi, gran)) eqn:Ed; unfold due_at in Ed; cbn [fst snd] in Ed.
  2: { assert (E : ∀ k : BucketKey, bool_decide (bk_source_id k = s)
         && ((gi =? bk_granularity_idx k)%nat && false || false) = false).
       { intros k. by rewrite andb_false_r, andb_false_r. }
       destruct (ma_last_flush_ts a !! (s, gi)) as [t|];
         [destruct (Z.ltb_spec (now - t) (gc_window_secs gran * 1000000)); [|zify_bool; lia]|];
         (split; [done|]; split; [|done]; intros k; by rewrite E). }
  destruct (ma_last_flush_ts a !! (s, gi)) as [t|]; [|done].
  destruct (Z.ltb_spec (now - t) (gc_window_secs gran * 1000000)); [zify_bool; lia|].
  pose proof (drain_keys_spec (dirty_keys (ma_buckets a) s gi) (ma_buckets a) (ma_metrics a) Hb) as H1.
  destruct (drain_keys _ _ _) as [[bs c] rows]. destruct H1 as (H1 & _ & _ & H4). cbn [app].
  split; [done|]. split; cbn [ma_buckets].
  - intros k. rewrite H1, andb_true_r, orb_false_r.
    destruct (decide (k ∈ dirty_keys (ma_buckets a) s gi)) as [Hin|Hin].
    + apply elem_of_dirty in Hin as (_ & Hs & Hg).
      by rewrite bool_decide_true, Hg, Nat.eqb_refl by done.
    + destruct (bool_decide_reflect (bk_source_id k = s)) as [Hs|]; [|done].
      destruct (Nat.eqb_spec gi (bk_granularity_idx k)) as [Hg|]; [|done]. cbn.
      destruct (ma_buckets a !! k) as [b|] eqn:E; [|done]. destruct Hin. apply elem_of_dirty.
      split; [by exists b|done].
  - eapply Forall_impl; [exact H4|]. intros row (k & b & Hk & Hl & Hrow). exists k, b.
    split; [done|]. split; [|done]. apply elem_of_dirty in Hk as (_ & Hs & Hg).
    by rewrite bool_decide_true, Hg, Nat.eqb_refl by done.
Qed.

Lemma drained_cons (a : MetricsAggregator) (s : string) (now : Z) (g : nat * GranularityConfig)
    (gs : list (nat * GranularityConfig)) (k : BucketKey) :
  drained a s now (g :: gs) k = drained a s now [g] k || drained a s now gs k.
Proof. unfold drained, due. cbn [existsb]. by rewrite orb_false_r, andb_orb_distrib_r. Qed.

Lemma drain_fold_spec (s : string) (now : Z) (gs : list (nat * GranularityConfig))
    (a a' : MetricsAggregator) (rows rows' : list LlmMetricsBatch) :
  buckets_ok (ma_buckets a) → NoDup gs.*1 →
  foldl (drain_granularity s now) (a, rows) gs = (a', rows') →
  (∀ s' gi, ma_last_flush_ts a' !! (s', gi)
     = if bool_decide (s' = s) && due a s now gs gi then Some now
       else ma_last_flush_ts a !! (s', gi)) ∧
  (∀ k, ma_buckets a' !! k = if drained a s now gs k then None else ma_buckets a !! k) ∧
  ∃ new, rows' = rows ++ new ∧
    Forall (λ row, ∃ k b, ma_buckets a !! k = Some b ∧ drained a s now gs k = true ∧
                          row = flush_key k b) new.
Proof.
  revert a rows; induction gs as [|g gs IH]; intros a rows Hb Hnd E; cbn [foldl] in E.
  { simplify_eq. unfold drained. cbn. split; [intros; by rewrite andb_false_r|].
    split; [intros; by rewrite andb_false_r|]. exists []. by rewrite app_nil_r. }
  apply NoDup_cons in Hnd as [Hg Hnd]. rewrite drain_granularity_app in E.
  pose proof (drain_granularity_spec s now a g Hb) as H.
  pose proof (drain_granularity_balanced s now a g Hb) as Hbal.
  destruct (drain_granularity s now (a, []) g) as [a1 r]. destruct H as (H1 & H2 & H3).
  destruct (IH a1 (rows ++ r) (proj1 Hbal) Hnd E) as (I1 & I2 & new & -> & I3).
  assert (Hdue : ∀ gi, due a1 s now gs gi = due a s now gs gi).
  { intros gi. apply due_ext. intros g' Hg'. rewrite H1. destruct (due_at a s now g); [|done].
    rewrite lookup_insert_ne; [done|]. intros [= Eg]. apply Hg. rewrite Eg.
    apply list_elem_of_fmap. by exists g'. }
  assert (Hdr : ∀ k, drained a1 s now gs k = drained a s now gs k).
  { intros k. unfold drained. by rewrite Hdue. }
  split; [|split].
  - intros s' gi. rewrite I1, Hdue, H1. unfold due at 2. cbn [existsb].
    change (existsb _ gs) with (due a s now gs gi).
    destruct (bool_decide_reflect (s' = s)) as [->|Hs]; cbn [andb].
    + destruct (Nat.eqb_spec g.1 gi) as [<-|Hne]; cbn [andb orb].
      * rewrite (due_not_in a s now gs g.1) by done. rewrite orb_false_r.
        by destruct (due_at a s now g); rewrite ?lookup_insert_eq.
      * destruct (due a s now gs gi); [done|]. destruct (due_at a s now g); [|done].
        by rewrite lookup_insert_ne by congruence.
    + destruct (due_at a s now g); [|done]. by rewrite lookup_insert_ne by congruence.
  - intros k. rewrite I2, Hdr, H2, (drained_cons a s now g gs).
    by destruct (drained a s now gs k), (drained a s now [g] k).
  - exists (r ++ new). split; [by rewrite app_assoc|]. apply Forall_app. split.
    + eapply Forall_impl; [exact H3|]. intros row (k & b & ? & Hd & ?). exists k, b.
      by rewrite drained_cons, Hd.
    + eapply Forall_impl; [exact I3|]. intros row (k & b & Hl & Hd & ?). rewrite H2 in Hl.
      destruct (drained a s now [g] k) eqn:Eg; [done|]. rewrite Hdr in Hd. exists k, b.
      by rewrite drained_cons, Hd, orb_true_r.
Qed.

(** ** Reachable states *)

Definition agg_ok (a : MetricsAggregator) : Prop := buckets_ok (ma_buckets a) ∧ anchored a.

Lemma absorb_agg_ok (a : MetricsAggregator) (ev : LlmEvent) : agg_ok a → agg_ok (absorb a ev).
Proof. intros [? ?]. split; [by apply absorb_ok|by apply absorb_anchored]. Qed.

(** Settling, with the drain in the terms of the state before. *)
Lemma agg_settle_spec (a : MetricsAggregator) (ev : LlmEvent) :
  buckets_ok (ma_buckets a) →
  let s := (event_clock ev).1 in
  let now := watermark a ev in
  let '(a', rows) := agg_settle a ev in
  (∀ s' gi, ma_last_flush_ts a' !! (s', gi)
     = if bool_decide (s' = s) && due a s now granularities gi then Some now
       else ma_last_flush_ts a !! (s', gi)) ∧
  (∀ k, ma_buckets a' !! k = if drained a s now granularities k then None else ma_buckets a !! k) ∧
  Forall (λ row, ∃ k b, ma_buckets a !! k = Some b ∧ drained a s now granularities k = true ∧
                        row = flush_key k b) rows.
Proof.
  intros Hb s now. destruct (agg_settle_drains a ev) as (a3 & -> & E1 & _ & E3).
  fold s now. destruct (maybe_drain a3 s now) as [a' rows] eqn:E.
  apply drain_fold_spec in E as (H1 & H2 & new & -> & H3);
    [|by rewrite E1|apply granularities_NoDup].
  assert (Hdue : ∀ gi, due a3 s now granularities gi = due a s now granularities gi)
    by (intros gi; apply due_ext; intros g _; by rewrite E3).
  assert (Hdr : ∀ k, drained a3 s now granularities k = drained a s now granularities k)
    by (intros k; unfold drained; by rewrite Hdue).
  split; [|split].
  - intros s' gi. by rewrite H1, Hdue, E3.
  - intros k. by rewrite H2, Hdr, E1.
  - eapply Forall_impl; [exact H3|]. intros row (k & b & Hl & Hd & ?).
    rewrite E1 in Hl. rewrite Hdr in Hd. by exists k, b.
Qed.

Lemma agg_settle_ok (a : MetricsAggregator) (ev : LlmEvent) :
  agg_ok a → agg_ok (agg_settle a ev).1.
Proof.
  intros [Hb Ha]. pose proof (agg_settle_balanced a ev Hb) as H1.
  pose proof (agg_settle_spec a ev Hb) as H2. cbn zeta in H2.
  destruct (agg_settle a ev) as [a' rows]. destruct H1 as [H1 _]. destruct H2 as (H2 & H3 & _).
  split; [done|]. intros k b Hk. cbn in *. rewrite H3 in Hk. destruct (drained _ _ _ _ k); [done|].
  rewrite H2. destruct (_ && _); [by eexists|by apply (Ha k b)].
Qed.

Lemma agg_run_ok (evs : list LlmEvent) (a : MetricsAggregator) :
  agg_ok a → agg_ok (agg_run a evs).1.
Proof.
  revert a; induction evs as [|ev evs IH]; intros a Ha; [done|]. cbn [agg_run].
  pose proof (agg_settle_ok (absorb a ev) ev (absorb_agg_ok a ev Ha)) as H. fold (agg_process a ev) in H.
  destruct (agg_process a ev) as [a1 rows]. specialize (IH a1 H).
  by destruct (agg_run a1 evs).
Qed.

Lemma with_active_calls_ok (ac : ActiveCalls) : agg_ok (with_active_calls ac).
Proof. by split. Qed.

Lemma due_nth (a : MetricsAggregator) (s : string) (now : Z) (gi : nat) (gran : GranularityConfig) :
  GRANULARITIES !! gi = Some gran → due a s now granularities gi = due_at a s now (gi, gran).
Proof.
  intros H. do 4 (destruct gi as [|gi]; [injection H as <-; unfold due; cbn; by rewrite ?orb_false_r|]).
  done.
Qed.

(** In any state a shard reaches, an event leaves each of its source's
    granularities in one of two ways.  Where a window of event time has passed
    since the anchor, everything of the pair is drained, each field's sums going
    to the rows of its key, and the watermark is the new anchor; otherwise
    nothing of the pair is emitted and the anchor stays.  A pair without an
    anchor holds no bucket, so nothing waits for ever; a first write anchors at
    the start of its window.  Other sources are untouched. *)
Theorem drain_cadence :
  ∀ (ac : ActiveCalls) (evs : list LlmEvent) (ev : LlmEvent) (gi : nat) (gran : GranularityConfig)
    (Hgi : GRANULARITIES !! gi = Some gran),
    let a := (agg_run (with_active_calls ac) evs).1 in
    let a1 := absorb a ev in
    let s := (event_clock ev).1 in
    let now := watermark a1 ev in
    let '(a', rows) := agg_process a ev in
    ma_last_flush_ts a1 !! (s, gi)
      = match ma_last_flush_ts a !! (s, gi) with
        | Some t => Some t
        | None => (λ ts, window_start ts (gc_window_secs gran)) <$> write_time ev
        end ∧
    ma_last_flush_ts a' !! (s, gi)
      = (if due_at a1 s now (gi, gran) then Some now else ma_last_flush_ts a1 !! (s, gi)) ∧
    (∀ k, bk_source_id k = s → bk_granularity_idx k = gi →
       (ma_last_flush_ts a1 !! (s, gi) = None → ma_buckets a1 !! k = None) ∧
       if due_at a1 s now (gi, gran) then
         ma_buckets a' !! k = None ∧ ∀ f, rows_total f k rows = at_key f k (ma_buckets a1)
       else ma_buckets a' !! k = ma_buckets a1 !! k ∧ ∀ f, rows_total f k rows = 0) ∧
    (∀ k, bk_source_id k ≠ s →
       ma_buckets a' !! k = ma_buckets a1 !! k ∧ ∀ f, rows_total f k rows = 0).
Proof.
  intros ac evs ev gi gran Hgi a a1 s now.
  assert (Ha1 : agg_ok a1).
  { apply absorb_agg_ok, agg_run_ok, with_active_calls_ok. }
  pose proof (agg_settle_spec a1 ev (proj1 Ha1)) as H. cbn zeta in H. fold s now in H.
  pose proof (agg_settle_balanced a1 ev (proj1 Ha1)) as Hbal.
  change (agg_process a ev) with (agg_settle a1 ev).
  destruct (agg_settle a1 ev) as [a' rows]. destruct H as (H1 & H2 & _).
  destruct Hbal as (_ & H3 & _).
  assert (Hsame : ∀ k, ma_buckets a' !! k = ma_buckets a1 !! k → ∀ f, rows_total f k rows = 0).
  { intros k E f. specialize (H3 f k). unfold at_key in H3. rewrite E in H3. lia. }
  split; [by apply absorb_anchor|]. split; [|split].
  - by rewrite H1, bool_decide_true, (due_nth _ _ _ _ gran).
  - intros k Hs Hk. split.
    { intros E. destruct (ma_buckets a1 !! k) as [b|] eqn:Eb; [|done].
      destruct (proj2 Ha1 k b Eb) as [t Ht]. rewrite Hs, Hk in Ht. congruence. }
    specialize (H2 k). unfold drained in H2. rewrite Hk, bool_decide_true, (due_nth _ _ _ gi gran) in H2 by done.
    cbn [andb] in H2. destruct (due_at a1 s now (gi, gran)); (split; [done|]).
    + intros f. specialize (H3 f k). unfold at_key in H3 at 1. rewrite H2 in H3. lia.
    + by apply Hsame.
  - intros k Hs. assert (E : ma_buckets a' !! k = ma_buckets a1 !! k).
    { rewrite H2. unfold drained. by rewrite bool_decide_false. }
    split; [done|]. by apply Hsame.
Qed.

Lemma agg_flush_all_empties (a : MetricsAggregator) :
  buckets_ok (ma_buckets a) →
  let '(a', rows) := agg_flush_all a in
  balanced a a' rows ∧ ma_buckets a' = ∅ ∧ ma_active_calls a' = ma_active_calls a.
Proof.
  intros Hb. unfold agg_flush_all. set (keys := map fst (hash_iter (ma_buckets a))).
  pose proof (drain_keys_spec keys (ma_buckets a) (ma_metrics a) Hb) as H.
  destruct (drain_keys keys _ _) as [[bs c] rows]. destruct H as (H1 & H2 & H3 & _).
  assert (Hbs : bs = ∅).
  { apply map_eq. intros k. rewrite H1, lookup_empty.
    destruct (decide _) as [|Hn]; [done|]. destruct (ma_buckets a !! k) as [b|] eqn:E; [|done].
    destruct Hn. apply list_elem_of_In, in_map_iff. exists (k, b). split; [done|].
    by apply list_elem_of_In, elem_of_hash_iter. }
  split; [|done]. subst bs. split; [done|]. split; cbn [ma_buckets].
  - intros f k. by rewrite (rows_total_perm f k _ rows) by apply sort_rows_perm.
  - unfold emitted. cbn [ma_metrics]. rewrite H3, decide_True by done. f_equal.
    unfold zlen. by rewrite (sort_rows_perm rows).
Qed.

(** The flush at the end of a run emits exactly one row for each bucket
    still open, in the order of granularity, window, wire API, model, server and
    surface, counts them, and leaves no bucket. *)
Theorem flush_all_exact :
  ∀ (ac : ActiveCalls) (evs : list LlmEvent),
    let a := (agg_run (with_active_calls ac) evs).1 in
    let '(a', rows) := agg_flush_all a in
    rows ≡ₚ map (λ kb, flush_key kb.1 kb.2) (map_to_list (ma_buckets a)) ∧
    Sorted row_le rows ∧ ma_buckets a' = ∅ ∧
    emitted a' = emitted a + Z.of_nat (open_bucket_count a).
Proof.
  intros ac evs a. pose proof (agg_run_ok evs _ (with_active_calls_ok ac)) as [Hb _]. fold a in Hb.
  pose proof (agg_flush_all_empties a Hb) as He. unfold agg_flush_all in *.
  pose proof (drain_keys_rows (hash_iter (ma_buckets a)) (ma_buckets a) (ma_metrics a) Hb
    (NoDup_hash_iter _) (λ k b, proj1 (elem_of_hash_iter (ma_buckets a) k b))) as Hr.
  destruct (drain_keys _ _ _) as [[bs c] rows]. cbn [snd] in Hr. destruct He as ((_ & _ & H3) & H1 & _).
  assert (Hp : sort_rows rows ≡ₚ map (λ kb, flush_key kb.1 kb.2) (map_to_list (ma_buckets a))).
  { rewrite sort_rows_perm, Hr. apply Permutation_map. by rewrite hash_iter_perm. }
  split; [done|]. split; [apply sort_rows_sorted|]. split; [done|].
  rewrite H3. f_equal. unfold zlen, open_bucket_count. by rewrite Hp, length_map, length_map_to_list.
Qed.
End AggregatorLaws.
End Aggregator.

(** ** A concrete run *)

#[local] Existing Instance sample_tdigest.
#[local] Instance buckets_iter : HashIter BucketKey WindowBucket := hash_iter_std _ _.
#[local] Instance buckets_iter_laws : HashIterLaws BucketKey WindowBucket buckets_iter :=
  hash_iter_std_laws _ _.
#[local] Instance open_iter : HashIter CallKey Open := hash_iter_std _ _.

Definition sample_complete (model : string) (ts done_at : Z) : LlmEvent :=
  LComplete
    (mkCall "tap" "c1" "openai-chat" model Chat ts (Some (ts + 100000)) (Some done_at) [] true
       None (Some 200) (Some "stop") None (Some 10) (Some 5) (Some 15) None None
       (Some (f64_of_Z 100)) (Some (f64_of_Z 200)) (V4 1) 40000 (V4 2) 443 None [] [] false None
       None 0 [] 0 None) None.

(** The key of all of a source's starts in a ten-second window. *)
Definition sample_bucket_key (ws : Z) : BucketKey := mkBucketKey "tap" 0 ws "*" "*" "*" None.

(** A completion 21 s after its window began finds the pair due and is emitted
    with the start it belongs to. *)
Lemma drain_cadence_witness :
  let a := absorb (agg_run (with_active_calls active_new) [LStart (sample_start 1000000)]).1
             (sample_complete "m" 1000000 21000000) in
  let rows := (agg_process (agg_run (with_active_calls active_new) [LStart (sample_start 1000000)]).1
                 (sample_complete "m" 1000000 21000000)).2 in
  rows_total FCalls (sample_bucket_key 0) rows = 1 ∧
  at_key FInTokens (sample_bucket_key 0) (ma_buckets a) = 10.
Proof.
  pose proof (drain_cadence active_new [LStart (sample_start 1000000)]
    (sample_complete "m" 1000000 21000000) 0 (mkGran "10s" 10) eq_refl) as H.
  cbv zeta in *. destruct (agg_process _ _) as [a' rows]. destruct H as (_ & _ & H & _).
  destruct (H (sample_bucket_key 0) eq_refl eq_refl) as [_ H']. clear H.
  match type of H' with if ?b then _ else _ => assert (E : b = true) by (vm_compute; reflexivity) end.
  rewrite E in H'. destruct H' as [_ H']. cbn [snd]. rewrite H'. vm_compute. split; reflexivity.
Defined.

(** What is still open at the end comes out once. *)
Lemma flush_all_exact_witness :
  let a := (agg_run (with_active_calls active_new)
              [LStart (sample_start 1000000); LStart (sample_start 2000000)]).1 in
  ma_buckets (agg_flush_all a).1 = ∅ ∧ emitted (agg_flush_all a).1 = 16.
Proof.
  pose proof (flush_all_exact active_new
    [LStart (sample_start 1000000); LStart (sample_start 2000000)]) as H.
  cbv zeta in *. destruct (agg_flush_all _) as [a' rows]. destruct H as (_ & _ & H1 & H2).
  cbn [fst]. split; [exact H1|]. rewrite H2. vm_compute. reflexivity.
Defined.
