(* ===== verification/MetricsStage.v ===== *)
(** * The metrics stage (h-metrics/src/stage.rs)

    The shards, each an aggregator, and the table of open calls they share.  A
    shard takes the table's lock twice for an event, once to open or close the
    call and once to expire, so a schedule interleaves two steps per event and
    an end of stream per shard.  A shard's rows are appended to the output
    together: how the channel interleaves them with another shard's does not
    change a sum.  A closed output, which stops a shard, is not modelled. *)

From Stdlib Require Import Strings.Byte Strings.String ZArith Lia SpecFloat.
From stdpp Require Import base gmap sets list strings.
From S2P Require Import Prelude.
From S2P Require Import Net.
From S2P Require Import Counters.
From S2P Require Import Calls.
From S2P Require Import Dims.
From S2P Require Import Active.
From S2P Require Import Bucket.
From S2P Require Import Aggregator.

Open Scope Z_scope.

Section Stage.
Context `{TD : TDigest}.
Context `{HIB : !HashIter BucketKey WindowBucket} `{HIO : !HashIter CallKey Open}.

(** One task: its aggregator, the event it has absorbed and not settled, and
    whether its input has ended.  The aggregator's own table is a handle on the
    shared one. *)
Record Shard : Type := mkShard {
  sh_agg : MetricsAggregator;
  sh_event : option LlmEvent;
  sh_done : bool;
}.

Record MetricsStage : Type := mkStage {
  ms_active : ActiveCalls;
  ms_shards : list Shard;
  ms_rows : list LlmMetricsBatch;
}.

Definition metrics_stage_new (n : nat) : MetricsStage :=
  mkStage active_new (replicate n (mkShard (with_active_calls active_new) None false)) [].

Inductive StageStep : Type :=
| Recv (i : nat) (ev : LlmEvent)
| Settle (i : nat)
| Eof (i : nat).

Definition stage_step (st : MetricsStage) (step : StageStep) : option MetricsStage :=
  match step with
  | Recv i ev =>
      match ms_shards st !! i with
      | Some (mkShard agg None false) =>
          let a := absorb (set_active agg (ms_active st)) ev in
          Some (mkStage (ma_active_calls a) (<[i := mkShard a (Some ev) false]> (ms_shards st))
                  (ms_rows st))
      | _ => None
      end
  | Settle i =>
      match ms_shards st !! i with
      | Some (mkShard agg (Some ev) false) =>
          let '(a, rows) := agg_settle (set_active agg (ms_active st)) ev in
          Some (mkStage (ma_active_calls a) (<[i := mkShard a None false]> (ms_shards st))
                  (ms_rows st ++ rows))
      | _ => None
      end
  | Eof i =>
      match ms_shards st !! i with
      | Some (mkShard agg None false) =>
          let '(a, rows) := agg_flush_all (set_active agg (ms_active st)) in
          Some (mkStage (ma_active_calls a) (<[i := mkShard a None true]> (ms_shards st))
                  (ms_rows st ++ rows))
      | _ => None
      end
  end.

Fixpoint stage_run (st : MetricsStage) (steps : list StageStep) : option MetricsStage :=
  match steps with
  | [] => Some st
  | step :: steps' => match stage_step st step with
                      | Some st' => stage_run st' steps'
                      | None => None
                      end
  end.

(** The events a schedule delivers. *)
Definition received (steps : list StageStep) : list LlmEvent :=
  steps ≫= λ step, match step with Recv _ ev => [ev] | _ => [] end.

Definition stage_done (st : MetricsStage) : bool := forallb sh_done (ms_shards st).

(** ** Sums over the shards *)

Definition shard_sum (g : Shard → Z) (l : list Shard) : Z := foldr (λ sh n, g sh + n) 0 l.

Lemma shard_sum_insert (g : Shard → Z) (l : list Shard) (i : nat) (x y : Shard) :
  l !! i = Some x → shard_sum g (<[i := y]> l) = shard_sum g l - g x + g y.
Proof.
  revert i; induction l as [|z l IH]; intros [|i] H; try done.
  - injection H as ->. cbn. lia.
  - specialize (IH i H).
    change (g z + shard_sum g (<[i:=y]> l) = g z + shard_sum g l - g x + g y). lia.
Qed.

Lemma shard_sum_zero (g : Shard → Z) (l : list Shard) : (∀ x, x ∈ l → g x = 0) → shard_sum g l = 0.
Proof.
  induction l as [|x l IH]; intros H; [done|]. cbn. change (foldr _ 0 l) with (shard_sum g l).
  rewrite IH by (intros; apply H; set_solver). rewrite H by set_solver. done.
Qed.

Lemma elem_of_list_insert {A : Type} (l : list A) (i : nat) (x y : A) :
  x ∈ <[i := y]> l → x = y ∨ x ∈ l.
Proof.
  intros [j [(_ & -> & _)|[_ H]]%list_lookup_insert_Some]%list_elem_of_lookup; [by left|].
  right. apply list_elem_of_lookup. by exists j.
Qed.

(** ** The invariant *)

Definition shard_ok (sh : Shard) : Prop :=
  buckets_ok (ma_buckets (sh_agg sh)) ∧ (sh_done sh = true → ma_buckets (sh_agg sh) = ∅).

Record stage_ok (st : MetricsStage) (evs : list LlmEvent) (ops : list ActiveOp) : Prop := {
  so_shards : ∀ sh, sh ∈ ms_shards st → shard_ok sh;
  so_sums : ∀ f k,
    shard_sum (λ sh, at_key f k (ma_buckets (sh_agg sh))) (ms_shards st)
    + rows_total f k (ms_rows st) = events_total f k evs;
  so_rows : shard_sum (λ sh, emitted (sh_agg sh)) (ms_shards st) = zlen (ms_rows st);
  so_table : ms_active st = active_run active_new ops;
}.

(** *** The table only moves by its operations *)

Lemma write_windows_active (a : MetricsAggregator) s ts sf ws :
  ma_active_calls (write_windows a s ts sf ws) = ma_active_calls a.
Proof. unfold write_windows. by destruct (foldl _ _ granularities). Qed.

Lemma absorb_active (a : MetricsAggregator) (ev : LlmEvent) :
  ∃ ops, (length ops <= 1)%nat ∧
    ma_active_calls (absorb a ev) = active_run (ma_active_calls a) ops.
Proof.
  destruct ev as [s|c arc|ts s]; cbn [absorb].
  - exists [OpStart s]. split; [done|]. unfold agg_on_call_start.
    cbn [active_run foldl active_op]. unfold agg_inc. cbn [ma_active_calls].
    destruct (active_start _ _ _ _). by rewrite write_windows_active.
  - exists [OpComplete c]. split; [done|]. unfold agg_on_call_complete. by rewrite write_windows_active.
  - exists []. split; [cbn; lia|done].
Qed.

Lemma maybe_drain_active (a : MetricsAggregator) (s : string) (now : Z) :
  ma_active_calls (maybe_drain a s now).1 = ma_active_calls a.
Proof.
  unfold maybe_drain. generalize (@nil LlmMetricsBatch). generalize granularities. intros gs.
  revert a; induction gs as [|[gi g] gs IH]; intros a rows; [done|]. cbn [foldl].
  unfold drain_granularity at 2. destruct (ma_last_flush_ts a !! (s, gi)); [|apply IH].
  destruct (_ <? _); [apply IH|]. destruct (drain_keys _ _ _) as [[??]?]. by rewrite IH.
Qed.

Lemma settle_active (a : MetricsAggregator) (ev : LlmEvent) :
  ma_active_calls (agg_settle a ev).1
  = active_run (ma_active_calls a) [OpExpire (event_clock ev).1 (watermark a ev)].
Proof.
  unfold agg_settle, watermark. destruct (event_clock ev) as [s ts]. cbn [fst snd].
  cbn [active_run foldl active_op]. destruct (active_expire _ _ _) as [ac n].
  rewrite maybe_drain_active. by destruct (0 <? n).
Qed.

Lemma active_run_app (a : ActiveCalls) (ops ops' : list ActiveOp) :
  active_run a (ops ++ ops') = active_run (active_run a ops) ops'.
Proof. apply foldl_app. Qed.

(** *** Every step keeps it *)

Lemma metrics_stage_new_ok (n : nat) : stage_ok (metrics_stage_new n) [] [].
Proof.
  assert (Hsh : ∀ sh, sh ∈ ms_shards (metrics_stage_new n) →
    sh = mkShard (with_active_calls active_new) None false)
    by (intros sh H; by apply elem_of_replicate in H as [-> _]).
  split; [| | |done].
  - intros sh ->%Hsh. split; [apply with_active_calls_ok|done].
  - intros f k. rewrite shard_sum_zero; [done|]. by intros sh ->%Hsh.
  - rewrite shard_sum_zero; [done|]. by intros sh ->%Hsh.
Qed.

(** A shard replaced by one its step balances, up to what an event adds. *)
Lemma stage_ok_replace (st : MetricsStage) (evs new : list LlmEvent) (ops ops' : list ActiveOp)
    (i : nat) (sh sh' : Shard) (rows : list LlmMetricsBatch) (ac : ActiveCalls) :
  stage_ok st evs ops → ms_shards st !! i = Some sh → shard_ok sh' →
  (∀ f k, at_key f k (ma_buckets (sh_agg sh')) + rows_total f k rows
          = at_key f k (ma_buckets (sh_agg sh)) + events_total f k new) →
  emitted (sh_agg sh') = emitted (sh_agg sh) + zlen rows →
  ac = active_run (ms_active st) ops' →
  stage_ok (mkStage ac (<[i := sh']> (ms_shards st)) (ms_rows st ++ rows)) (evs ++ new) (ops ++ ops').
Proof.
  intros [H1 H2 H3 H4] Hi Hok Hs He Hac. split; cbn [ms_shards ms_rows ms_active].
  - intros x [->|Hx]%elem_of_list_insert; [done|by apply H1].
  - intros f k. rewrite (shard_sum_insert _ _ _ sh sh' Hi), rows_total_app, events_total_app.
    specialize (H2 f k). specialize (Hs f k). cbn beta in H2. lia.
  - rewrite (shard_sum_insert _ _ _ sh sh' Hi), zlen_app. cbn beta in H3. lia.
  - by rewrite Hac, H4, active_run_app.
Qed.

Section StageLaws.
Context `{HILB : !HashIterLaws BucketKey WindowBucket HIB} `{HILO : !HashIterLaws CallKey Open HIO}.

Lemma recv_ok (st : MetricsStage) evs ops (i : nat) (agg : MetricsAggregator) (ev : LlmEvent) :
  stage_ok st evs ops → ms_shards st !! i = Some (mkShard agg None false) →
  let a := absorb (set_active agg (ms_active st)) ev in
  ∃ ops', (length ops' <= 1)%nat ∧
    stage_ok (mkStage (ma_active_calls a) (<[i := mkShard a (Some ev) false]> (ms_shards st))
      (ms_rows st)) (evs ++ [ev]) (ops ++ ops').
Proof.
  intros Hst Hi a. destruct (absorb_active (set_active agg (ms_active st)) ev) as (ops' & Hl & Hac).
  exists ops'. split; [done|]. rewrite <- (app_nil_r (ms_rows st)).
  assert (Hb : buckets_ok (ma_buckets agg)).
  { apply (so_shards _ _ _ Hst (mkShard agg None false)). by apply (list_elem_of_lookup_2 _ i). }
  eapply stage_ok_replace; [exact Hst|exact Hi| | | |exact Hac].
  - split; [|done]. by apply absorb_ok.
  - intros f k. cbn [sh_agg]. unfold a. rewrite absorb_at_key.
    change (events_total f k [ev]) with (key_count k (event_keys ev) * event_field f ev + 0).
    change (rows_total f k []) with 0.
    change (ma_buckets (set_active agg (ms_active st))) with (ma_buckets agg). lia.
  - change (zlen []) with 0. cbn [sh_agg]. unfold a. rewrite absorb_emitted.
    change (emitted (set_active agg (ms_active st))) with (emitted agg). lia.
Qed.

Lemma settle_ok (st : MetricsStage) evs ops (i : nat) (agg : MetricsAggregator) (ev : LlmEvent) :
  stage_ok st evs ops → ms_shards st !! i = Some (mkShard agg (Some ev) false) →
  let '(a, rows) := agg_settle (set_active agg (ms_active st)) ev in
  ∃ ops', (length ops' <= 1)%nat ∧
    stage_ok (mkStage (ma_active_calls a) (<[i := mkShard a None false]> (ms_shards st))
      (ms_rows st ++ rows)) (evs ++ []) (ops ++ ops').
Proof.
  intros Hst Hi. pose proof (settle_active (set_active agg (ms_active st)) ev) as Hac.
  assert (Hb : buckets_ok (ma_buckets agg)).
  { apply (so_shards _ _ _ Hst (mkShard agg (Some ev) false)). by apply (list_elem_of_lookup_2 _ i). }
  pose proof (agg_settle_balanced (set_active agg (ms_active st)) ev Hb) as H.
  destruct (agg_settle _ ev) as [a rows]. destruct H as (H1 & H2 & H3).
  eexists. split; [|eapply stage_ok_replace; [exact Hst|exact Hi| | | |exact Hac]]; [done|done| |done].
  intros f k. cbn [sh_agg]. rewrite H2. change (events_total f k []) with 0. cbn. lia.
Qed.

Lemma eof_ok (st : MetricsStage) evs ops (i : nat) (agg : MetricsAggregator) :
  stage_ok st evs ops → ms_shards st !! i = Some (mkShard agg None false) →
  let '(a, rows) := agg_flush_all (set_active agg (ms_active st)) in
  stage_ok (mkStage (ma_active_calls a) (<[i := mkShard a None true]> (ms_shards st))
    (ms_rows st ++ rows)) (evs ++ []) (ops ++ []).
Proof.
  intros Hst Hi.
  assert (Hb : buckets_ok (ma_buckets agg)).
  { apply (so_shards _ _ _ Hst (mkShard agg None false)). by apply (list_elem_of_lookup_2 _ i). }
  pose proof (agg_flush_all_empties (set_active agg (ms_active st)) Hb) as H.
  destruct (agg_flush_all _) as [a rows]. destruct H as ((H1 & H2 & H3) & H4 & H5).
  eapply stage_ok_replace; [exact Hst|exact Hi|done| |done|exact H5].
  intros f k. cbn [sh_agg]. rewrite H2. change (events_total f k []) with 0. cbn. lia.
Qed.

Lemma stage_step_ok (st st' : MetricsStage) (step : StageStep) evs ops :
  stage_ok st evs ops → stage_step st step = Some st' →
  ∃ ops', (length ops' <= 1)%nat ∧ stage_ok st' (evs ++ received [step]) (ops ++ ops').
Proof.
  intros Hst E. destruct step as [i ev|i|i]; cbn [stage_step] in E;
    destruct (ms_shards st !! i) as [[agg [ev'|] [|]]|] eqn:Hi; try done.
  - injection E as <-. by apply (recv_ok st evs ops i agg ev).
  - pose proof (settle_ok st evs ops i agg ev' Hst Hi) as H.
    destruct (agg_settle _ _) as [a rows]. by injection E as <-.
  - pose proof (eof_ok st evs ops i agg Hst Hi) as H.
    destruct (agg_flush_all _) as [a rows]. injection E as <-. exists []. split; [cbn; lia|done].
Qed.

Lemma received_cons (step : StageStep) (steps : list StageStep) :
  received (step :: steps) = received [step] ++ received steps.
Proof. by destruct step. Qed.

Lemma stage_run_ok (steps : list StageStep) (st st' : MetricsStage) evs ops :
  stage_ok st evs ops → stage_run st steps = Some st' →
  ∃ ops', (length ops' <= length steps)%nat ∧ stage_ok st' (evs ++ received steps) (ops ++ ops').
Proof.
  revert st evs ops; induction steps as [|step steps IH]; intros st evs ops Hst E; cbn [stage_run] in E.
  { injection E as <-. exists []. split; [done|]. by rewrite !app_nil_r. }
  destruct (stage_step st step) as [st1|] eqn:E1; [|done].
  destruct (stage_step_ok st st1 step evs ops Hst E1) as (o1 & Hl1 & H1).
  destruct (IH st1 _ _ H1 E) as (o2 & Hl2 & H2). exists (o1 ++ o2).
  split; [rewrite length_app; cbn [length]; lia|].
  by rewrite received_cons, (app_assoc evs), (app_assoc ops).
Qed.

(** *** A stage can always finish *)

Definition weight (sh : Shard) : Z :=
  if sh_done sh then 0 else match sh_event sh with Some _ => 2 | None => 1 end.

Lemma weight_nonneg (sh : Shard) : 0 <= weight sh.
Proof. unfold weight. destruct (sh_done sh), (sh_event sh); lia. Qed.

Lemma shard_sum_nonneg (l : list Shard) : 0 <= shard_sum weight l.
Proof.
  induction l as [|x l IH]; [done|]. change (0 <= weight x + shard_sum weight l).
  pose proof (weight_nonneg x). lia.
Qed.

(** A shard at its end has nothing pending. *)
Definition ended (st : MetricsStage) : Prop :=
  ∀ sh, sh ∈ ms_shards st → sh_done sh = true → sh_event sh = None.

Lemma stage_step_ended (st st' : MetricsStage) (step : StageStep) :
  ended st → stage_step st step = Some st' → ended st'.
Proof.
  intros He E. destruct step as [i ev|i|i]; cbn [stage_step] in E;
    destruct (ms_shards st !! i) as [[agg [ev'|] [|]]|] eqn:Hi; try done;
    [|destruct (agg_settle _ _) as [a rows]|destruct (agg_flush_all _) as [a rows]];
    injection E as <-; intros sh [->|Hin]%elem_of_list_insert; try done; by apply He.
Qed.

Lemma stage_finishes (st : MetricsStage) :
  ended st →
  ∃ steps st', received steps = [] ∧ stage_run st steps = Some st' ∧ stage_done st' = true.
Proof.
  remember (Z.to_nat (shard_sum weight (ms_shards st))) as n eqn:Hn. revert st Hn.
  induction n as [n IH] using (well_founded_induction Nat.lt_wf_0). intros st Hn He.
  destruct (stage_done st) eqn:Ed; [by exists [], st|].
  assert (Hsh : ∃ i sh, ms_shards st !! i = Some sh ∧ sh_done sh = false).
  { unfold stage_done in Ed. apply not_true_iff_false in Ed. rewrite forallb_forall in Ed.
    destruct (decide (Exists (λ sh, sh_done sh = false) (ms_shards st))) as [Hx|Hx].
    - apply Exists_exists in Hx as (sh & [i Hi]%list_elem_of_lookup & Hd). by exists i, sh.
    - destruct Ed. intros sh Hin%list_elem_of_In. destruct (sh_done sh) eqn:E; [done|].
      destruct Hx. apply Exists_exists. by exists sh. }
  destruct Hsh as (i & [agg ev dn] & Hi & Hd). cbn in Hd. subst dn.
  assert (Hnext : ∃ step st1 sh', received [step] = [] ∧ stage_step st step = Some st1 ∧
    ms_shards st1 = <[i := sh']> (ms_shards st) ∧ weight sh' < weight (mkShard agg ev false)).
  { destruct ev as [ev|].
    - exists (Settle i). cbn [stage_step]. rewrite Hi. destruct (agg_settle _ _) as [a rows].
      by eexists _, _.
    - exists (Eof i). cbn [stage_step]. rewrite Hi. destruct (agg_flush_all _) as [a rows].
      by eexists _, _. }
  destruct Hnext as (step & st1 & sh' & Hr & Hs & Hm & Hw).
  pose proof (shard_sum_insert weight _ i _ sh' Hi) as Hsum. rewrite <- Hm in Hsum.
  pose proof (shard_sum_nonneg (ms_shards st1)). pose proof (shard_sum_nonneg (ms_shards st)).
  destruct (IH (Z.to_nat (shard_sum weight (ms_shards st1)))) with (st := st1)
    as (steps & st' & Hr' & Hrun & Hdone); [lia|done|by apply (stage_step_ended st st1 step)|].
  exists (step :: steps), st'. rewrite received_cons, Hr, Hr'. cbn [stage_run]. by rewrite Hs.
Qed.

Lemma stage_run_ended (steps : list StageStep) (st st' : MetricsStage) :
  ended st → stage_run st steps = Some st' → ended st'.
Proof.
  revert st; induction steps as [|step steps IH]; intros st He E; cbn [stage_run] in E.
  { by injection E as <-. }
  destruct (stage_step st step) as [st1|] eqn:E1; [|done].
  apply (IH st1); [by apply (stage_step_ended st st1 step)|done].
Qed.

Lemma stage_run_app (st : MetricsStage) (s1 s2 : list StageStep) :
  stage_run st (s1 ++ s2)
  = match stage_run st s1 with Some st' => stage_run st' s2 | None => None end.
Proof.
  revert st; induction s1 as [|step s1 IH]; intros st; [done|]. cbn.
  destruct (stage_step st step); [apply IH|done].
Qed.

Lemma metrics_stage_new_ended (n : nat) : ended (metrics_stage_new n).
Proof. intros sh H. by apply elem_of_replicate in H as [-> _]. Qed.

(** C10: however the shards' steps interleave and wherever an event is routed, the
    shared table counts exactly the open calls; the stage can finish, whatever
    it still holds; and once every input has ended no bucket is left, each
    emitted row was counted, and for every key and every field the rows sum to
    what the events delivered to that key add: nothing is lost, duplicated or
    moved to another window, late events and repeated drains included. *)
Theorem stage_conserves :
  ∀ (n : nat) (steps : list StageStep) (st : MetricsStage)
    (Hrun : stage_run (metrics_stage_new n) steps = Some st) (Hlen : 4 * zlen steps < 2 ^ 32),
    (∀ d, default 0 (ac_counts (ms_active st) !! d)
          = occurrences d (open_dims (ac_open (ms_active st)))) ∧
    (∃ closing st', received closing = [] ∧ stage_run st closing = Some st' ∧
                    stage_done st' = true) ∧
    (stage_done st = true →
       (∀ sh, sh ∈ ms_shards st → ma_buckets (sh_agg sh) = ∅) ∧
       shard_sum (λ sh, emitted (sh_agg sh)) (ms_shards st) = zlen (ms_rows st) ∧
       ∀ f k, rows_total f k (ms_rows st) = events_total f k (received steps)).
Proof.
  intros n steps st Hrun Hlen.
  destruct (stage_run_ok steps _ _ [] [] (metrics_stage_new_ok n) Hrun) as (ops & Hl & Hst).
  cbn [app] in Hst. split; [|split].
  - rewrite (so_table _ _ _ Hst). destruct (active_run_ok ops active_new) as [[Hc _] _].
    { by split. }
    { change (Z.of_nat (size (ac_open active_new))) with 0. unfold zlen in *. lia. }
    intros d. rewrite Hc. cbn zeta.
    by destruct (Z.eqb_spec (occurrences d (open_dims (ac_open (active_run active_new ops)))) 0).
  - apply stage_finishes, (stage_run_ended steps _ _ (metrics_stage_new_ended n) Hrun).
  - intros Hd. unfold stage_done in Hd. rewrite forallb_forall in Hd.
    assert (Hempty : ∀ sh, sh ∈ ms_shards st → ma_buckets (sh_agg sh) = ∅).
    { intros sh Hin. apply (so_shards _ _ _ Hst sh Hin), Hd. by apply list_elem_of_In. }
    split; [done|]. split; [apply (so_rows _ _ _ Hst)|]. intros f k.
    rewrite <- (so_sums _ _ _ Hst f k), shard_sum_zero; [done|].
    intros sh Hin. by rewrite Hempty.
Qed.
End StageLaws.
End Stage.

(** ** A concrete run: a call that starts on one shard and completes on another,
    under another model *)

#[local] Existing Instance sample_tdigest.
#[local] Instance buckets_iter : HashIter BucketKey WindowBucket := hash_iter_std _ _.
#[local] Instance buckets_iter_laws : HashIterLaws BucketKey WindowBucket buckets_iter :=
  hash_iter_std_laws _ _.
#[local] Instance open_iter : HashIter CallKey Open := hash_iter_std _ _.
#[local] Instance open_iter_laws : HashIterLaws CallKey Open open_iter := hash_iter_std_laws _ _.

Definition sample_steps : list StageStep :=
  [ Recv 0 (LStart (sample_start 1000000)); Recv 1 (sample_complete "served" 1000000 1200000);
    Settle 1; Settle 0; Eof 0; Recv 1 (LHeartbeat 30000000 "tap"); Settle 1; Eof 1 ].

Lemma stage_conserves_witness :
  match stage_run (metrics_stage_new 2) sample_steps with
  | Some st =>
      rows_total FCalls (sample_bucket_key 0) (ms_rows st) = 1 ∧
      rows_total FInTokens (sample_bucket_key 0) (ms_rows st) = 10
  | None => False
  end.
Proof.
  assert (Hdone : stage_done <$> stage_run (metrics_stage_new 2) sample_steps = Some true)
    by (vm_compute; reflexivity).
  destruct (stage_run (metrics_stage_new 2) sample_steps) as [st|] eqn:E; [|discriminate Hdone].
  destruct (stage_conserves 2 sample_steps st E ltac:(vm_compute; reflexivity)) as (_ & _ & H).
  injection Hdone as Hd. destruct (H Hd) as (_ & _ & Hsum). rewrite !Hsum.
  vm_compute. split; reflexivity.
Defined.
