(* ===== verification/Throttle.v ===== *)
(** * Throttled warnings (h-common/src/throttle.rs)

    At most one line per interval for a repeated warning, with the number of
    those it stands for. *)

From Stdlib Require Import ZArith Lia.
From stdpp Require Import base list.
From S2P Require Import Prelude.

Open Scope Z_scope.

Record ThrottledWarn : Type := mkThrottle {
  tw_interval : Z;
  tw_last_emit : option Z;
  tw_suppressed : Z;
}.
Definition throttle_new (interval : Z) : ThrottledWarn := mkThrottle interval None 0.

Definition tick_at (t : ThrottledWarn) (now : Z) : ThrottledWarn * option Z :=
  match tw_last_emit t with
  | None => (mkThrottle (tw_interval t) (Some now) (tw_suppressed t), Some 0)
  | Some l =>
      if tw_interval t <=? duration_since now l
      then (mkThrottle (tw_interval t) (Some now) 0, Some (tw_suppressed t))
      else (mkThrottle (tw_interval t) (Some l) (u64_sat_add (tw_suppressed t) 1), None)
  end.

Fixpoint tick_all (t : ThrottledWarn) (times : list Z) : ThrottledWarn * list (Z * Z) :=
  match times with
  | [] => (t, [])
  | now :: times' =>
      let '(t1, r) := tick_at t now in
      let '(t2, lines) := tick_all t1 times' in
      (t2, match r with Some n => (now, n) :: lines | None => lines end)
  end.

(** Lines are at least an interval apart. *)
Fixpoint spaced (interval : Z) (last : option Z) (lines : list (Z * Z)) : Prop :=
  match lines with
  | [] => True
  | (t, _) :: lines' => match last with Some l => interval <= duration_since t l | None => True end ∧ spaced interval (Some t) lines'
  end.

(** A throttled warning counts every event once: the lines written, the events
    they mention as suppressed and those pending add up to the events, and two
    lines are an interval apart. *)
Theorem throttle_accounts (interval : Z) (times : list Z) :
  zlen times < 2 ^ 64 →
  let '(t, lines) := tick_all (throttle_new interval) times in
  zlen times = zlen lines + foldr Z.add 0 (map snd lines) + tw_suppressed t ∧ spaced interval None lines.
Proof.
  intros Hlen. cut (∀ t, tw_interval t = interval → 0 <= tw_suppressed t → tw_suppressed t + zlen times < 2 ^ 64 →
    (tw_last_emit t = None → tw_suppressed t = 0) →
    let '(t', lines) := tick_all t times in
    tw_suppressed t + zlen times = zlen lines + foldr Z.add 0 (map snd lines) + tw_suppressed t' ∧
    spaced interval (tw_last_emit t) lines).
  { intros H. specialize (H (throttle_new interval) eq_refl). cbn in H. apply H; done || lia. }
  clear Hlen. induction times as [|now times IH]; intros t Hi Hs Hb Hl; cbn [tick_all].
  { split; [unfold zlen; cbn; lia|done]. }
  rewrite zlen_cons_eq in *. unfold tick_at. destruct (tw_last_emit t) as [l|] eqn:El.
  - zcase.
    + specialize (IH (mkThrottle (tw_interval t) (Some now) 0) Hi). destruct (tick_all _ times) as [t' lines]. cbn in IH.
      destruct IH as [IH1 IH2]; [lia|pose proof (zlen_nonneg times); lia|done|]. cbn. rewrite zlen_cons_eq, <- Hi. split; [lia|].
      split; [lia|by rewrite Hi].
    + specialize (IH (mkThrottle (tw_interval t) (Some l) (u64_sat_add (tw_suppressed t) 1)) Hi).
      destruct (tick_all _ times) as [t' lines]. cbn in IH. unfold u64_sat_add in IH. pose proof (zlen_nonneg times).
      destruct IH as [IH1 IH2]; [lia|lia|done|]. split; [lia|done].
  - specialize (IH (mkThrottle (tw_interval t) (Some now) (tw_suppressed t)) Hi). destruct (tick_all _ times) as [t' lines].
    cbn in IH. specialize (Hl eq_refl). destruct IH as [IH1 IH2]; [lia|lia|done|]. cbn. rewrite zlen_cons_eq. split; [lia|done].
Qed.

Lemma throttle_accounts_witness :
  let '(t, lines) := tick_all (throttle_new 10) [0; 3; 5; 12; 13; 30] in
  zlen [0; 3; 5; 12; 13; 30] = zlen lines + foldr Z.add 0 (map snd lines) + tw_suppressed t ∧ lines = [(0, 0); (12, 2); (30, 1)].
Proof. split; [exact (proj1 (throttle_accounts 10 [0; 3; 5; 12; 13; 30] eq_refl))|reflexivity]. Defined.
