(* ===== verification/Sink.v ===== *)
(** * The storage sink (h-storage/src/buffer.rs, sink.rs)

    Four write buffers, each batching what it receives by size and by time, over
    one store.  A buffer reacts to what its [select!] completes with: a value, the
    end of its channel, or a tick; each event carries the instant its branch is
    taken and the instant it is done with, and says nothing about which branch
    wins when several are ready. *)

From Stdlib Require Import Strings.Byte Strings.String ZArith Lia.
From stdpp Require Import base gmap sets list strings.
From S2P Require Import Prelude.
From S2P Require Import Net.
From S2P Require Import Counters.
From S2P Require Import Throttle.
From S2P Require Import Joiner.
From S2P Require Import Calls.
From S2P Require Import Turns.
From S2P Require Import Bucket.

Open Scope Z_scope.

(** ** Timers: [tokio::time::interval] *)

Class Interval : Type := {
  ticker : Type;
  interval : Z → Z → res ticker;          (* the period, and now *)
  tick_ready : ticker → Z → option ticker;
  reset : ticker → Z → ticker;
}.

(** A ticker of period [p] is first due at once, then every [p] after it was due;
    [reset] makes it due [p] from now.  A period of zero panics. *)
Class IntervalLaws (I : Interval) : Type := {
  due : ticker → Z;
  period : ticker → Z;
  interval_spec (p now : Z) :
    match interval p now with
    | Ret t => 0 < p ∧ due t = now ∧ period t = p
    | Panic => p <= 0
    | OutOfFuel => False
    end;
  tick_spec (t : ticker) (now : Z) :
    match tick_ready t now with
    | Some t' => due t <= now ∧ due t' = due t + period t ∧ period t' = period t
    | None => now < due t
    end;
  reset_spec (t : ticker) (now : Z) : due (reset t now) = now + period t ∧ period (reset t now) = period t;
}.

(** ** The write buffer *)

Record BufferMetrics : Type := mkBufMetrics { bm_buffered : Metric; bm_flushed : Metric; bm_errors : Metric }.

(** [MetricHandle::set]. *)
Definition set_counter (m : Metric) (v : Z) (c : counters) : counters := λ m', if decide (m = m') then v else c m'.

Definition FLUSH_ERR_WARN_THROTTLE : Z := 10000000.

Section Buffer.
Context `{I : Interval} {T St : Type}.

Record WriteBuffer : Type := mkWriteBuffer {
  sb_batch_size : nat;
  sb_metrics : option BufferMetrics;
  sb_throttle : ThrottledWarn;
  sb_batch : list T;
  sb_interval : ticker;
}.

(** What the task's [select!] completes with. *)
Inductive Event : Type := Item (x : T) | Eof | Tick.

(** A call of the flush function: what it was given, whether it went well, and
    the number of failures an error line mentions, if one is written. *)
Record Flush : Type := mkFlush { fl_batch : list T; fl_ok : bool; fl_line : option Z }.

(** [new], and [run] up to its loop: the first tick is ready at once. *)
Definition buffer_new (batch_size : nat) (flush_interval : Z) (m : option BufferMetrics) (now : Z) : res WriteBuffer :=
  let* t := interval flush_interval now in
  Ret (mkWriteBuffer batch_size m (throttle_new FLUSH_ERR_WARN_THROTTLE) [] (default t (tick_ready t now))).

Context (flush_fn : St → list T → St * bool).

(** [flush] at the instant [fin], with the gauge set after it. *)
Definition flush (b : WriteBuffer) (st : St) (c : counters) (batch : list T) (fin : Z)
    : WriteBuffer * St * counters * Flush :=
  let '(st', ok) := flush_fn st batch in
  let '(tw, line) := if ok then (sb_throttle b, None) else tick_at (sb_throttle b) fin in
  let c1 := match sb_metrics b with
            | Some m => if ok then add_counter (bm_flushed m) (zlen batch) c else inc_counter (bm_errors m) c
            | None => c
            end in
  let c2 := match sb_metrics b with Some m => set_counter (bm_buffered m) 0 c1 | None => c1 end in
  (mkWriteBuffer (sb_batch_size b) (sb_metrics b) tw [] (sb_interval b), st', c2, mkFlush batch ok line).

Definition with_interval (b : WriteBuffer) (t : ticker) : WriteBuffer :=
  mkWriteBuffer (sb_batch_size b) (sb_metrics b) (sb_throttle b) (sb_batch b) t.

(** One turn of the loop: [None] where the branch is not ready, or the task has
    returned; the buffer is gone once the channel ends. *)
Definition buffer_step (b : option WriteBuffer) (st : St) (c : counters) (at_ fin : Z) (e : Event)
    : option (option WriteBuffer * St * counters * list Flush) :=
  match b with
  | None => None
  | Some b =>
      match e with
      | Item x =>
          let batch := sb_batch b ++ [x] in
          let c1 := match sb_metrics b with Some m => set_counter (bm_buffered m) (zlen batch) c | None => c end in
          if (sb_batch_size b <=? length batch)%nat
          then
            let '(b', st', c', f) := flush b st c1 batch fin in
            Some (Some (with_interval b' (reset (sb_interval b') fin)), st', c', [f])
          else Some (Some (mkWriteBuffer (sb_batch_size b) (sb_metrics b) (sb_throttle b) batch (sb_interval b)), st, c1, [])
      | Eof =>
          if bool_decide (sb_batch b = []) then Some (None, st, c, [])
          else
            let '(_, st', c', f) := flush b st c (sb_batch b) fin in
            Some (None, st', c', [f])
      | Tick =>
          match tick_ready (sb_interval b) at_ with
          | None => None
          | Some t =>
              let b1 := with_interval b t in
              if bool_decide (sb_batch b = []) then Some (Some b1, st, c, [])
              else
                let '(b', st', c', f) := flush b1 st c (sb_batch b) fin in
                Some (Some b', st', c', [f])
          end
      end
  end.

Fixpoint buffer_run (b : option WriteBuffer) (st : St) (c : counters) (sched : list (Z * Z * Event))
    : option (option WriteBuffer * St * counters * list Flush) :=
  match sched with
  | [] => Some (b, st, c, [])
  | (at_, fin, e) :: sched' =>
      match buffer_step b st c at_ fin e with
      | None => None
      | Some (b1, st1, c1, o1) =>
          match buffer_run b1 st1 c1 sched' with
          | None => None
          | Some (b2, st2, c2, o2) => Some (b2, st2, c2, o1 ++ o2)
          end
      end
  end.
End Buffer.
Arguments WriteBuffer {I} T.
Arguments Event T : clear implicits.
Arguments Flush T : clear implicits.

(** ** The store's writes, and the four streams *)

(** A write changes the store even when it fails. *)
Class SinkBackend (St : Type) : Type := {
  write_spans : St → list LlmCall → St * bool;
  write_traces : St → list Trace → St * bool;
  write_metrics : St → list LlmMetric → St * bool;
  write_finish_metrics : St → list LlmFinishMetric → St * bool;
  write_exchanges : St → list HttpExchange → St * bool;
}.

Record StorageSinkConfig : Type := mkSinkConfig { sc_batch_size : nat; sc_flush_interval_ms : Z }.
Definition sink_config_default : StorageSinkConfig := mkSinkConfig 1000 1000.

Definition calls_buf_metrics : BufferMetrics :=
  mkBufMetrics StorageBufferedCalls StorageFlushedCalls StorageFlushErrors.
Definition turns_buf_metrics : BufferMetrics :=
  mkBufMetrics StorageBufferedTurns StorageFlushedTurns StorageFlushErrors.
Definition metrics_buf_metrics : BufferMetrics :=
  mkBufMetrics StorageBufferedMetrics StorageFlushedMetrics StorageFlushErrors.
Definition exch_buf_metrics : BufferMetrics :=
  mkBufMetrics StorageBufferedHttpExchanges StorageFlushedHttpExchanges StorageFlushErrors.

Section Sink.
Context `{I : Interval} {St : Type} `{SB : !SinkBackend St}.

(** A batch of metrics: the wide rows, and then the finish-reason rows unless the
    first write failed. *)
Definition write_metrics_batch (st : St) (batch : list LlmMetricsBatch) : St * bool :=
  let wide := map mb_metric batch in
  let finish := concat (map mb_finish_metrics batch) in
  match write_metrics st wide with
  | (st', true) => write_finish_metrics st' finish
  | (st', false) => (st', false)
  end.

Record Sink : Type := mkSink {
  sk_calls : option (WriteBuffer LlmCall);
  sk_turns : option (WriteBuffer Trace);
  sk_metrics : option (WriteBuffer LlmMetricsBatch);
  sk_exchanges : option (WriteBuffer HttpExchange);
  sk_store : St;
  sk_counters : counters;
}.

Inductive SinkEvent : Type :=
| OnCalls (e : Event LlmCall)
| OnTurns (e : Event Trace)
| OnMetrics (e : Event LlmMetricsBatch)
| OnExchanges (e : Event HttpExchange).

Inductive SinkFlush : Type :=
| FlushCalls (f : Flush LlmCall)
| FlushTurns (f : Flush Trace)
| FlushMetrics (f : Flush LlmMetricsBatch)
| FlushExchanges (f : Flush HttpExchange).

(** [spawn_storage_sink_stage]: the buffers as their tasks start. *)
Definition sink_new (cfg : StorageSinkConfig) (now : Z) (st : St) (c : counters) : res Sink :=
  let new {T} m : res (WriteBuffer T) := buffer_new (sc_batch_size cfg) (sc_flush_interval_ms cfg * 1000) (Some m) now in
  let* calls := new calls_buf_metrics in
  let* turns := new turns_buf_metrics in
  let* metrics := new metrics_buf_metrics in
  let* exchanges := new exch_buf_metrics in
  Ret (mkSink (Some calls) (Some turns) (Some metrics) (Some exchanges) st c).

Definition sink_step (s : Sink) (at_ fin : Z) (e : SinkEvent) : option (Sink * list SinkFlush) :=
  let st := sk_store s in
  let c := sk_counters s in
  match e with
  | OnCalls e =>
      match buffer_step write_spans (sk_calls s) st c at_ fin e with
      | Some (b, st', c', o) =>
          Some (mkSink b (sk_turns s) (sk_metrics s) (sk_exchanges s) st' c', map FlushCalls o)
      | None => None
      end
  | OnTurns e =>
      match buffer_step write_traces (sk_turns s) st c at_ fin e with
      | Some (b, st', c', o) =>
          Some (mkSink (sk_calls s) b (sk_metrics s) (sk_exchanges s) st' c', map FlushTurns o)
      | None => None
      end
  | OnMetrics e =>
      match buffer_step write_metrics_batch (sk_metrics s) st c at_ fin e with
      | Some (b, st', c', o) =>
          Some (mkSink (sk_calls s) (sk_turns s) b (sk_exchanges s) st' c', map FlushMetrics o)
      | None => None
      end
  | OnExchanges e =>
      match buffer_step write_exchanges (sk_exchanges s) st c at_ fin e with
      | Some (b, st', c', o) =>
          Some (mkSink (sk_calls s) (sk_turns s) (sk_metrics s) b st' c', map FlushExchanges o)
      | None => None
      end
  end.

(** The five tasks, in the order their branches complete. *)
Fixpoint sink_run (s : Sink) (sched : list (Z * Z * SinkEvent)) : option (Sink * list SinkFlush) :=
  match sched with
  | [] => Some (s, [])
  | (at_, fin, e) :: sched' =>
      match sink_step s at_ fin e with
      | None => None
      | Some (s1, o1) =>
          match sink_run s1 sched' with
          | None => None
          | Some (s2, o2) => Some (s2, o1 ++ o2)
          end
      end
  end.
End Sink.

(** ** One buffer accounts for what it receives *)

Section BufferSpec.
Context {I : Interval} {IL : IntervalLaws I} {T St : Type} (flush_fn : St → list T → St * bool).

Definition received (e : Event T) : list T := match e with Item x => [x] | _ => [] end.
Definition pending (b : option (WriteBuffer T)) : list T := match b with Some b => sb_batch b | None => [] end.
Definition flushed_in (o : list (Flush T)) : Z :=
  zlen (concat (map fl_batch (filter (λ f, fl_ok f = true) o))).
Definition failed_in (o : list (Flush T)) : Z := zlen (filter (λ f, fl_ok f = false) o).

(** After the events [evs], which led to the flushes [o], the buffer is [b]. *)
Record stream_ok (size : nat) (m : BufferMetrics) (evs : list (Event T)) (o : list (Flush T))
    (b : option (WriteBuffer T)) (c : counters) : Prop := {
  so_order : mjoin (map received evs) = mjoin (map fl_batch o) ++ pending b;
  so_batches : Forall (λ f, 0 < length (fl_batch f) <= Nat.max 1 size)%nat o;
  so_bound : (length (pending b) < Nat.max 1 size)%nat;
  so_ended : Eof ∈ evs ↔ b = None;
  so_config : ∀ b0, b = Some b0 → sb_batch_size b0 = size ∧ sb_metrics b0 = Some m;
  so_flushed : c (bm_flushed m) = flushed_in o;
  so_buffered : c (bm_buffered m) = zlen (pending b);
}.

Definition distinct_names (m : BufferMetrics) : Prop :=
  bm_buffered m ≠ bm_flushed m ∧ bm_buffered m ≠ bm_errors m ∧ bm_flushed m ≠ bm_errors m.

Lemma set_counter_eq (m : Metric) (v : Z) (c : counters) : set_counter m v c m = v.
Proof. unfold set_counter. by rewrite decide_True. Qed.
Lemma set_counter_ne (m m' : Metric) (v : Z) (c : counters) : m ≠ m' → set_counter m v c m' = c m'.
Proof. intros H. unfold set_counter. by rewrite decide_False. Qed.

Lemma flushed_in_app (a b : list (Flush T)) : flushed_in (a ++ b) = flushed_in a + flushed_in b.
Proof. unfold flushed_in. by rewrite filter_app, map_app, concat_app, zlen_app. Qed.
Lemma failed_in_app (a b : list (Flush T)) : failed_in (a ++ b) = failed_in a + failed_in b.
Proof. unfold failed_in. by rewrite filter_app, zlen_app. Qed.

Lemma flushed_in_one (f : Flush T) : flushed_in [f] = if fl_ok f then zlen (fl_batch f) else 0.
Proof. unfold flushed_in. rewrite filter_cons. destruct (fl_ok f); case_decide; try done. cbn. by rewrite app_nil_r. Qed.
Lemma failed_in_one (f : Flush T) : failed_in [f] = if fl_ok f then 0 else 1.
Proof. unfold failed_in. rewrite filter_cons. destruct (fl_ok f); by case_decide. Qed.

(** What a flush does to the counters: the batch is flushed or an error counted,
    and nothing is buffered. *)
Definition flush_counts (m : BufferMetrics) (c c' : counters) (f : Flush T) : Prop :=
  c' (bm_flushed m) = c (bm_flushed m) + flushed_in [f] ∧
  c' (bm_errors m) = c (bm_errors m) + failed_in [f] ∧
  c' (bm_buffered m) = 0 ∧
  ∀ k, k ≠ bm_flushed m → k ≠ bm_errors m → k ≠ bm_buffered m → c' k = c k.

Lemma flush_spec (b : WriteBuffer T) (st : St) (c : counters) (batch : list T) (fin : Z) (m : BufferMetrics)
    (b' : WriteBuffer T) (st' : St) (c' : counters) (f : Flush T) :
  flush flush_fn b st c batch fin = (b', st', c', f) →
  sb_metrics b = Some m → distinct_names m →
  fl_batch f = batch ∧ flush_fn st batch = (st', fl_ok f) ∧ flush_counts m c c' f ∧
  sb_batch b' = [] ∧ sb_batch_size b' = sb_batch_size b ∧ sb_metrics b' = Some m ∧ sb_interval b' = sb_interval b.
Proof.
  unfold flush. destruct (flush_fn st batch) as [st1 ok] eqn:E. intros H Hm (N1 & N2 & N3). rewrite Hm in H.
  assert (Hc : ∀ line, flush_counts m c (set_counter (bm_buffered m) 0
    (if ok then add_counter (bm_flushed m) (zlen batch) c else inc_counter (bm_errors m) c)) (mkFlush batch ok line)).
  { intros line. unfold flush_counts, inc_counter. rewrite flushed_in_one, failed_in_one, set_counter_eq. cbn [fl_ok fl_batch].
    destruct ok; repeat split; intros; rewrite ?set_counter_ne, ?add_counter_eq, ?add_counter_ne by done; lia. }
  destruct ok; [|destruct (tick_at (sb_throttle b) fin)]; injection H as <- <- <- <-; done.
Qed.

Lemma join_snoc {A B} (f : A → list B) (l : list A) (x : A) : mjoin (map f (l ++ [x])) = mjoin (map f l) ++ f x.
Proof. rewrite map_app, join_app. cbn. by rewrite app_nil_r. Qed.

Lemma elem_of_snoc {A} (x y : A) (l : list A) : x ∈ l ++ [y] ↔ x ∈ l ∨ x = y.
Proof. rewrite elem_of_app, list_elem_of_singleton. done. Qed.

(** What one step does besides: the store sees the flush, and no other counter
    changes. *)
Definition step_effect (m : BufferMetrics) (st st' : St) (c c' : counters) (o : list (Flush T)) : Prop :=
  c' (bm_errors m) = c (bm_errors m) + failed_in o ∧
  (∀ k, k ≠ bm_flushed m → k ≠ bm_errors m → k ≠ bm_buffered m → c' k = c k) ∧
  match o with [] => st' = st | [f] => flush_fn st (fl_batch f) = (st', fl_ok f) | _ => False end.

(** A flush of a batch after the event [e]. *)
Lemma flush_ok (size : nat) (m : BufferMetrics) (evs : list (Event T)) (o : list (Flush T)) (b b1 b2 : WriteBuffer T)
    (b' : option (WriteBuffer T)) (st st' : St) (c c1 c' : counters) (e : Event T) (batch : list T) (fin : Z) (f : Flush T) :
  stream_ok size m evs o (Some b) c → distinct_names m →
  sb_metrics b1 = Some m → sb_batch_size b1 = size → batch = sb_batch b ++ received e →
  (0 < length batch <= Nat.max 1 size)%nat → (∀ k, k ≠ bm_buffered m → c1 k = c k) →
  flush flush_fn b1 st c1 batch fin = (b2, st', c', f) →
  (b' = None ∧ e = Eof ∨ (∃ t, b' = Some (with_interval b2 t)) ∧ e ≠ Eof) →
  stream_ok size m (evs ++ [e]) (o ++ [f]) b' c' ∧ step_effect m st st' c c' [f].
Proof.
  intros [Ho Hb Hl He Hg Hf Hu] Hd Hm1 Hs1 -> Hlen Hc1 Hfl Hb'.
  destruct (flush_spec _ _ _ _ _ _ _ _ _ _ Hfl Hm1 Hd) as (Hbt & Hst & (C1 & C2 & C3 & C4) & E1 & E2 & E3 & E4).
  destruct Hd as (N1 & N2 & N3).
  assert (Hp : pending b' = []) by (destruct Hb' as [[-> _]|[[t ->] _]]; [done|exact E1]).
  split.
  - split; rewrite ?Hp.
    + rewrite !join_snoc, Ho, Hbt, app_nil_r. by rewrite app_assoc.
    + apply Forall_app. split; [done|]. apply Forall_singleton. by rewrite Hbt.
    + cbn [length]. lia.
    + rewrite elem_of_snoc, He. destruct Hb' as [[-> ->]|[[t ->] Hne]]; [tauto|]. split; [intros [?|?]; [done|by subst]|done].
    + intros b0 Hb0. destruct Hb' as [[-> _]|[[t ->] _]]; [done|]. injection Hb0 as <-. cbn. by rewrite E2, E3.
    + rewrite C1, flushed_in_app, Hc1, Hf; done.
    + by rewrite C3.
  - split_and!; [rewrite C2, Hc1; done| |by rewrite Hbt]. intros k K1 K2 K3. rewrite C4, Hc1; done.
Qed.

Lemma buffer_step_ok (size : nat) (m : BufferMetrics) (evs : list (Event T)) (o : list (Flush T))
    (b b' : option (WriteBuffer T)) (st st' : St) (c c' : counters) (at_ fin : Z) (e : Event T) (o1 : list (Flush T)) :
  stream_ok size m evs o b c → distinct_names m →
  buffer_step flush_fn b st c at_ fin e = Some (b', st', c', o1) →
  stream_ok size m (evs ++ [e]) (o ++ o1) b' c' ∧ step_effect m st st' c c' o1.
Proof.
  intros Hok Hd Hs. pose proof Hok as [Ho Hb Hl He Hg Hf Hu]. destruct b as [b|]; [|done].
  destruct (Hg b eq_refl) as [Hsz Hm]. cbn [buffer_step] in Hs. rewrite Hm in Hs. cbn [pending] in *.
  assert (Hnil : ∀ b1 c1, sb_batch_size b1 = size → sb_metrics b1 = Some m → (length (sb_batch b1) < Nat.max 1 size)%nat →
    sb_batch b1 = sb_batch b ++ received e → e ≠ Eof → c1 (bm_buffered m) = zlen (sb_batch b1) →
    (∀ k, k ≠ bm_buffered m → c1 k = c k) →
    stream_ok size m (evs ++ [e]) (o ++ []) (Some b1) c1 ∧ step_effect m st st c c1 []).
  { intros b1 c1 S1 M1 L1 B1 Hne U1 F1. destruct Hd as (N1 & N2 & N3). rewrite app_nil_r. split.
    - split; cbn [pending]; [|done|done| | | |done].
      + by rewrite join_snoc, Ho, B1, app_assoc.
      + rewrite elem_of_snoc, He. split; [intros [?|?]; done|done].
      + intros b0 [= <-]. done.
      + rewrite F1; done.
    - split_and!; [rewrite F1, Z.add_0_r; done| |done]. intros k K1 K2 K3. by apply F1. }
  destruct e as [x| |].
  - destruct (Nat.leb_spec (sb_batch_size b) (length (sb_batch b ++ [x]))) as [Hle|Hlt].
    + destruct (flush _ _ _ _ _ _) as [[[b2 s2] c2] f] eqn:Efl. injection Hs as <- <- <- <-.
      eapply flush_ok; [done|done| | | | | |exact Efl|]; try done.
      * rewrite length_app. cbn [length]. lia.
      * intros k Hk. by apply set_counter_ne.
      * right. split; [by eexists|done].
    + injection Hs as <- <- <- <-. apply Hnil; cbn; try done; [lia|by apply set_counter_eq|].
      intros k Hk. by apply set_counter_ne.
  - case_bool_decide as Eb.
    + injection Hs as <- <- <- <-. rewrite app_nil_r. split.
      * split; cbn [pending]; [|done|cbn [length]; lia| |done|done|by rewrite Hu, Eb].
        -- by rewrite join_snoc, Ho, Eb, !app_nil_r.
        -- rewrite elem_of_snoc. tauto.
      * split_and!; [by rewrite Z.add_0_r|done|done].
    + destruct (flush _ _ _ _ _ _) as [[[b2 s2] c2] f] eqn:Efl. injection Hs as <- <- <- <-.
      eapply flush_ok; [done|done| | | | | |exact Efl|by left]; try done; [by rewrite app_nil_r|].
      destruct (sb_batch b); [done|cbn [length] in *; lia].
  - destruct (tick_ready _ _) as [t|]; [|done]. case_bool_decide as Eb.
    + injection Hs as <- <- <- <-. apply Hnil; cbn; try done. by rewrite app_nil_r.
    + destruct (flush _ _ _ _ _ _) as [[[b2 s2] c2] f] eqn:Efl. injection Hs as <- <- <- <-.
      eapply flush_ok; [done|done| | | | | |exact Efl|]; try done; [by rewrite app_nil_r| |].
      * destruct (sb_batch b); [done|cbn [length] in *; lia].
      * right. split; [|done]. destruct (flush_spec _ _ _ _ _ _ _ _ _ _ Efl Hm Hd) as (_ & _ & _ & E1 & E2 & E3 & E4).
        exists (sb_interval b2). by destruct b2.
Qed.
End BufferSpec.

(** ** The sink *)

Section SinkSpec.
Context {I : Interval} {IL : IntervalLaws I} {St : Type} `{SB : !SinkBackend St}.

Definition ev_calls (x : Z * Z * SinkEvent) : option (Event LlmCall) := match x.2 with OnCalls e => Some e | _ => None end.
Definition ev_turns (x : Z * Z * SinkEvent) : option (Event Trace) := match x.2 with OnTurns e => Some e | _ => None end.
Definition ev_metrics (x : Z * Z * SinkEvent) : option (Event LlmMetricsBatch) :=
  match x.2 with OnMetrics e => Some e | _ => None end.
Definition ev_exchanges (x : Z * Z * SinkEvent) : option (Event HttpExchange) :=
  match x.2 with OnExchanges e => Some e | _ => None end.
Definition of_calls (f : SinkFlush) : option (Flush LlmCall) := match f with FlushCalls f => Some f | _ => None end.
Definition of_turns (f : SinkFlush) : option (Flush Trace) := match f with FlushTurns f => Some f | _ => None end.
Definition of_metrics (f : SinkFlush) : option (Flush LlmMetricsBatch) := match f with FlushMetrics f => Some f | _ => None end.
Definition of_exchanges (f : SinkFlush) : option (Flush HttpExchange) :=
  match f with FlushExchanges f => Some f | _ => None end.

Definition sink_flush_ok (f : SinkFlush) : bool :=
  match f with FlushCalls f => fl_ok f | FlushTurns f => fl_ok f | FlushMetrics f => fl_ok f | FlushExchanges f => fl_ok f end.
Definition write_of (st : St) (f : SinkFlush) : St * bool :=
  match f with
  | FlushCalls f => write_spans st (fl_batch f)
  | FlushTurns f => write_traces st (fl_batch f)
  | FlushMetrics f => write_metrics_batch st (fl_batch f)
  | FlushExchanges f => write_exchanges st (fl_batch f)
  end.

(** Writing the flushes [o] one after the other takes the store to [st'], with
    the outcomes they record. *)
Inductive replays : St → list SinkFlush → St → Prop :=
| replays_nil (st : St) : replays st [] st
| replays_snoc (st st1 st2 : St) (o : list SinkFlush) (f : SinkFlush) :
    replays st o st1 → write_of st1 f = (st2, sink_flush_ok f) → replays st (o ++ [f]) st2.

Record sink_ok (size : nat) (st0 : St) (sched : list (Z * Z * SinkEvent)) (o : list SinkFlush) (s : Sink) : Prop := {
  ok_calls : stream_ok size calls_buf_metrics (omap ev_calls sched) (omap of_calls o) (sk_calls s) (sk_counters s);
  ok_turns : stream_ok size turns_buf_metrics (omap ev_turns sched) (omap of_turns o) (sk_turns s) (sk_counters s);
  ok_metrics : stream_ok size metrics_buf_metrics (omap ev_metrics sched) (omap of_metrics o) (sk_metrics s) (sk_counters s);
  ok_exchanges :
    stream_ok size exch_buf_metrics (omap ev_exchanges sched) (omap of_exchanges o) (sk_exchanges s) (sk_counters s);
  ok_errors : sk_counters s StorageFlushErrors = zlen (filter (λ f, sink_flush_ok f = false) o);
  ok_store : replays st0 o (sk_store s);
}.

(** A stream's account depends on two counters only. *)
Lemma stream_ok_counters {T} (size : nat) (m : BufferMetrics) (evs : list (Event T)) (o : list (Flush T))
    (b : option (WriteBuffer T)) (c c' : counters) :
  c' (bm_flushed m) = c (bm_flushed m) → c' (bm_buffered m) = c (bm_buffered m) →
  stream_ok size m evs o b c → stream_ok size m evs o b c'.
Proof. intros H1 H2 []. by split; rewrite ?H1, ?H2. Qed.

Lemma omap_map_some {A B C} (g : A → B) (p : B → option C) (f : A → C) (l : list A) :
  (∀ x, p (g x) = Some (f x)) → omap p (map g l) = map f l.
Proof. intros H. induction l as [|x l IH]; [done|]. cbn. by rewrite H, IH. Qed.
Lemma omap_map_none {A B C} (g : A → B) (p : B → option C) (l : list A) :
  (∀ x, p (g x) = None) → omap p (map g l) = [].
Proof. intros H. induction l as [|x l IH]; [done|]. cbn. by rewrite H, IH. Qed.

(** Steps of one stream, lifted by its constructors. *)
Lemma lift_effect {T} (flush_fn : St → list T → St * bool) (m : BufferMetrics) (st0 st st' : St) (c c' : counters)
    (o : list SinkFlush) (o1 : list (Flush T)) (inj : Flush T → SinkFlush) :
  bm_errors m = StorageFlushErrors →
  (∀ f, sink_flush_ok (inj f) = fl_ok f) → (∀ st f, write_of st (inj f) = flush_fn st (fl_batch f)) →
  c StorageFlushErrors = zlen (filter (λ f, sink_flush_ok f = false) o) → replays st0 o st →
  step_effect flush_fn m st st' c c' o1 →
  c' StorageFlushErrors = zlen (filter (λ f, sink_flush_ok f = false) (o ++ map inj o1)) ∧
  replays st0 (o ++ map inj o1) st'.
Proof.
  intros Hm Hok Hw Hc Hr (E1 & _ & E3). rewrite Hm in E1. split.
  - rewrite E1, Hc, filter_app, zlen_app. f_equal. clear -Hok. unfold failed_in.
    induction o1 as [|f o1 IH]; [done|]. cbn [map]. rewrite !filter_cons, Hok. case_decide; [|done]. rewrite !zlen_cons_eq, IH. done.
  - destruct o1 as [|f [|? ?]]; [subst; by rewrite app_nil_r| |done].
    apply (replays_snoc _ st); [done|]. by rewrite Hw, Hok.
Qed.

Lemma sink_step_ok (size : nat) (st0 : St) (sched : list (Z * Z * SinkEvent)) (o : list SinkFlush) (s s' : Sink)
    (at_ fin : Z) (e : SinkEvent) (o1 : list SinkFlush) :
  sink_ok size st0 sched o s → sink_step s at_ fin e = Some (s', o1) →
  sink_ok size st0 (sched ++ [(at_, fin, e)]) (o ++ o1) s'.
Proof.
  intros [H1 H2 H3 H4 H5 H6] Hs. destruct e as [e|e|e|e]; cbn [sink_step] in Hs;
    destruct (buffer_step _ _ _ _ _ _ _) as [[[[b st'] c'] o']|] eqn:Eb; try done; injection Hs as <- <-;
    (eapply buffer_step_ok in Eb; [|eassumption|done]); destruct Eb as [Hb Heff]; pose proof Heff as (_ & Hframe & _).
  all: split; cbn [sk_calls sk_turns sk_metrics sk_exchanges sk_counters sk_store].
  all: try (refine (proj1 (lift_effect _ _ _ _ _ _ _ _ _ _ _ _ _ H5 H6 Heff)); done).
  all: try (refine (proj2 (lift_effect _ _ _ _ _ _ _ _ _ _ _ _ _ H5 H6 Heff)); done).
  all: rewrite !omap_app; cbn [omap list_omap ev_calls ev_turns ev_metrics ev_exchanges snd].
  all: try (rewrite (omap_map_some _ _ id) by done; rewrite map_id; exact Hb).
  all: rewrite omap_map_none, !app_nil_r by done; eapply stream_ok_counters; [| |eassumption]; by apply Hframe.
Qed.

(** A value or the end of a channel that has not ended. *)
Definition still_open (sched : list (Z * Z * SinkEvent)) (e : SinkEvent) : Prop :=
  match e with
  | OnCalls e => e ≠ Tick ∧ Eof ∉ omap ev_calls sched
  | OnTurns e => e ≠ Tick ∧ Eof ∉ omap ev_turns sched
  | OnMetrics e => e ≠ Tick ∧ Eof ∉ omap ev_metrics sched
  | OnExchanges e => e ≠ Tick ∧ Eof ∉ omap ev_exchanges sched
  end.

Lemma buffer_step_open {T} (flush_fn : St → list T → St * bool) (size : nat) (m : BufferMetrics) (evs : list (Event T))
    (o : list (Flush T)) (b : option (WriteBuffer T)) (st : St) (c c' : counters) (at_ fin : Z) (e : Event T) :
  stream_ok size m evs o b c → e ≠ Tick → Eof ∉ evs → is_Some (buffer_step flush_fn b st c' at_ fin e).
Proof.
  intros [_ _ _ He _ _ _] Ht Hn. destruct b as [b|]; [|by destruct Hn; apply He]. cbn. unfold flush.
  destruct e as [x| |]; [| |done]; (case_match; [|by eexists]) || (case_match; [by eexists|]);
    destruct (flush_fn _ _) as [st1 []]; [|destruct (tick_at _ _)| |destruct (tick_at _ _)]; by eexists.
Qed.

Lemma sink_run_ok (size : nat) (st0 : St) (sched sched' : list (Z * Z * SinkEvent)) (o o' : list SinkFlush) (s s' : Sink) :
  sink_ok size st0 sched o s → sink_run s sched' = Some (s', o') → sink_ok size st0 (sched ++ sched') (o ++ o') s'.
Proof.
  revert sched o o' s. induction sched' as [|[[at_ fin] e] sched' IH]; intros sched o o' s Hok Hr; cbn [sink_run] in Hr.
  { injection Hr as <- <-. by rewrite !app_nil_r. }
  destruct (sink_step s at_ fin e) as [[s1 o1]|] eqn:E1; [|done].
  destruct (sink_run s1 sched') as [[s2 o2]|] eqn:E2; [|done]. injection Hr as <- <-.
  rewrite app_assoc. change ((at_, fin, e) :: sched') with ([(at_, fin, e)] ++ sched'). rewrite app_assoc.
  by apply (IH _ _ _ s1); [eapply sink_step_ok|].
Qed.

Lemma buffer_new_spec {T} (size : nat) (p now : Z) (m : option BufferMetrics) :
  match buffer_new (T := T) size p m now with
  | Ret b => 0 < p ∧ sb_batch_size b = size ∧ sb_metrics b = m ∧ sb_batch b = [] ∧
      due (sb_interval b) = now + p ∧ period (sb_interval b) = p
  | Panic => p <= 0
  | OutOfFuel => False
  end.
Proof.
  unfold buffer_new. pose proof (interval_spec p now) as H. destruct (interval p now) as [t| |]; [|done|done].
  cbn. destruct H as (H0 & H1 & H2). pose proof (tick_spec t now) as Ht. destruct (tick_ready t now) as [t'|]; [|lia].
  cbn. destruct Ht as (_ & -> & ->). split_and!; [done|done|done|done|lia|done].
Qed.

Lemma stream_ok_new {T} (size : nat) (m : BufferMetrics) (b : WriteBuffer T) :
  sb_batch_size b = size → sb_metrics b = Some m → sb_batch b = [] → stream_ok size m [] [] (Some b) counters_zero.
Proof.
  intros H1 H2 H3. split; cbn [pending]; rewrite ?H3; try done.
  - cbn [length]. lia.
  - split; [by intros ?%elem_of_nil|done].
  - by intros b0 [= <-].
Qed.

(** C26: the sink starts unless its flush interval is zero, in which case it
    panics; after any sequence of events, on each of its four streams the values
    received are, in order, those of the batches given to the store and those
    still buffered, no batch is empty or longer than the configured size, what is
    buffered is shorter, and a stream that has ended buffers nothing; the flushed
    counters hold what the store accepted and the gauges what is buffered, every
    refused batch is one error; the store has seen those writes and no others;
    and a stream that has not ended can always receive. *)
Theorem sink_accounts (cfg : StorageSinkConfig) (now : Z) (st : St) :
  match sink_new cfg now st counters_zero with
  | Ret s0 =>
      ∀ sched s o, sink_run s0 sched = Some (s, o) →
        sink_ok (sc_batch_size cfg) st sched o s ∧
        ∀ at_ fin e, still_open sched e → is_Some (sink_step s at_ fin e)
  | Panic => sc_flush_interval_ms cfg <= 0
  | OutOfFuel => False
  end.
Proof.
  pose proof (λ T, buffer_new_spec (T := T) (sc_batch_size cfg) (sc_flush_interval_ms cfg * 1000)) as Hn.
  unfold sink_new. cbv zeta.
  pose proof (Hn LlmCall now (Some calls_buf_metrics)) as H1. destruct (buffer_new _ _ _ _) as [b1| |]; cbn in *; [|lia|done].
  pose proof (Hn Trace now (Some turns_buf_metrics)) as H2. destruct (buffer_new _ _ _ _) as [b2| |]; cbn in *; [|lia|done].
  pose proof (Hn LlmMetricsBatch now (Some metrics_buf_metrics)) as H3. destruct (buffer_new _ _ _ _) as [b3| |]; cbn in *; [|lia|done].
  pose proof (Hn HttpExchange now (Some exch_buf_metrics)) as H4. destruct (buffer_new _ _ _ _) as [b4| |]; cbn in *; [|lia|done].
  intros sched s o Hr.
  assert (Hok : sink_ok (sc_batch_size cfg) st sched o s).
  { refine (sink_run_ok _ _ [] _ [] _ _ _ _ Hr). destruct H1 as (_ & ? & ? & ? & _), H2 as (_ & ? & ? & ? & _).
    destruct H3 as (_ & ? & ? & ? & _), H4 as (_ & ? & ? & ? & _).
    split; [by apply stream_ok_new..|done|constructor]. }
  split; [done|]. destruct Hok as [O1 O2 O3 O4 _ _].
  intros at_ fin [e|e|e|e] [Ht Hn']; cbn [sink_step].
  - destruct (buffer_step_open write_spans _ _ _ _ _ (sk_store s) _ (sk_counters s) at_ fin e O1 Ht Hn') as [[[[? ?] ?] ?] ->]. by eexists.
  - destruct (buffer_step_open write_traces _ _ _ _ _ (sk_store s) _ (sk_counters s) at_ fin e O2 Ht Hn') as [[[[? ?] ?] ?] ->]. by eexists.
  - destruct (buffer_step_open write_metrics_batch _ _ _ _ _ (sk_store s) _ (sk_counters s) at_ fin e O3 Ht Hn') as [[[[? ?] ?] ?] ->]. by eexists.
  - destruct (buffer_step_open write_exchanges _ _ _ _ _ (sk_store s) _ (sk_counters s) at_ fin e O4 Ht Hn') as [[[[? ?] ?] ?] ->]. by eexists.
Qed.
End SinkSpec.

(** ** Nothing waits longer than the flush interval *)

Section Latency.
Context {I : Interval} {IL : IntervalLaws I} {T St : Type} (flush_fn : St → list T → St * bool) (stamp : T → Z).

(** Events at instants that do not decrease, the first not before [last]; a value
    bears the instant it is received. *)
Fixpoint timed (last : Z) (sched : list (Z * Z * Event T)) : Prop :=
  match sched with
  | [] => True
  | (at_, fin, e) :: sched' =>
      last <= at_ <= fin ∧ match e with Item x => stamp x = at_ | _ => True end ∧ timed fin sched'
  end.

(** The ticker is due within a period of [last], and within a period of every
    value it has to flush. *)
Definition in_time (p last : Z) (b : option (WriteBuffer T)) : Prop :=
  match b with
  | None => True
  | Some b => period (sb_interval b) = p ∧ due (sb_interval b) <= last + p ∧
      ∀ x, x ∈ sb_batch b → due (sb_interval b) <= stamp x + p
  end.

Lemma flush_interval_kept (b : WriteBuffer T) (st : St) (c : counters) (batch : list T) (fin : Z) :
  sb_interval (flush flush_fn b st c batch fin).1.1.1 = sb_interval b ∧
  sb_batch (flush flush_fn b st c batch fin).1.1.1 = [].
Proof. unfold flush. destruct (flush_fn st batch) as [st1 []]; [done|]. by destruct (tick_at (sb_throttle b) fin). Qed.

Lemma buffer_step_in_time (p last at_ fin : Z) (b b' : option (WriteBuffer T)) (st st' : St) (c c' : counters)
    (e : Event T) (o : list (Flush T)) :
  0 < p → in_time p last b → last <= at_ <= fin → match e with Item x => stamp x = at_ | _ => True end →
  buffer_step flush_fn b st c at_ fin e = Some (b', st', c', o) → in_time p fin b'.
Proof.
  intros Hp Hin Ht He Hs. destruct b as [b|]; [|done]. destruct Hin as (Hpe & Hd & Hx). cbn [buffer_step] in Hs.
  destruct e as [x| |].
  - destruct (_ <=? _)%nat.
    + pose proof (flush_interval_kept b st (match sb_metrics b with Some m => set_counter (bm_buffered m) (zlen (sb_batch b ++ [x])) c | None => c end)
        (sb_batch b ++ [x]) fin) as [E1 E2].
      destruct (flush _ _ _ _ _ _) as [[[b2 s2] c2] f]. injection Hs as <- <- <- <-. cbn in *.
      destruct (reset_spec (sb_interval b2) fin) as [R1 R2]. rewrite R1, R2, E1, E2, Hpe.
      split_and!; [done|lia|]. by intros ? ?%elem_of_nil.
    + injection Hs as <- <- <- <-. cbn. split_and!; [done|lia|]. intros y [Hy| ->]%elem_of_snoc; [by apply Hx|lia].
  - case_bool_decide; [by injection Hs as <- <- <- <-|].
    destruct (flush _ _ _ _ _ _) as [[[b2 s2] c2] f]. by injection Hs as <- <- <- <-.
  - pose proof (tick_spec (sb_interval b) at_) as Htick. destruct (tick_ready _ _) as [t|]; [|done].
    destruct Htick as (T1 & T2 & T3). case_bool_decide as Eb.
    + injection Hs as <- <- <- <-. cbn. rewrite T2, T3, Eb, Hpe. split_and!; [done|lia|]. by intros ? ?%elem_of_nil.
    + pose proof (flush_interval_kept (with_interval b t) st c (sb_batch b) fin) as [E1 E2].
      destruct (flush _ _ _ _ _ _) as [[[b2 s2] c2] f]. injection Hs as <- <- <- <-. cbn in *.
      rewrite E1, E2, T2, T3, Hpe. split_and!; [done|lia|]. by intros ? ?%elem_of_nil.
Qed.

Lemma buffer_run_in_time (p last : Z) (sched : list (Z * Z * Event T)) (b b' : option (WriteBuffer T)) (st st' : St)
    (c c' : counters) (o : list (Flush T)) :
  0 < p → in_time p last b → timed last sched → buffer_run flush_fn b st c sched = Some (b', st', c', o) →
  ∃ last', in_time p last' b'.
Proof.
  intros Hp. revert last b st c o. induction sched as [|[[at_ fin] e] sched IH]; intros last b st c o Hin Ht Hr; cbn in Hr, Ht.
  { injection Hr as <- <- <- <-. by exists last. }
  destruct (buffer_step _ _ _ _ _ _ _) as [[[[b1 st1] c1] o1]|] eqn:E1; [|done].
  destruct (buffer_run _ b1 st1 c1 sched) as [[[[b2 st2] c2] o2]|] eqn:E2; [|done]. injection Hr as <- <- <- <-.
  destruct Ht as (Ht & He & Ht'). eapply (IH fin b1); [|done|done]. by eapply buffer_step_in_time.
Qed.

(** Nothing waits in a write buffer longer than the flush interval: after any
    sequence of events in time order, a value that is still buffered is younger
    than the interval unless the loop's timer is ready to flush it. *)
Theorem buffered_in_time :
  ∀ (size : nat) (p now : Z) (m : option BufferMetrics) (b0 : WriteBuffer T) (st st' : St) (c c' : counters)
    (sched : list (Z * Z * Event T)) (b : WriteBuffer T) (o : list (Flush T)),
    buffer_new size p m now = Ret b0 → timed now sched →
    buffer_run flush_fn (Some b0) st c sched = Some (Some b, st', c', o) →
    ∀ x t, x ∈ sb_batch b → tick_ready (sb_interval b) t = None → t < stamp x + p.
Proof.
  intros size p now m b0 st st' c c' sched b o Hnew Ht Hr x t Hx Hn.
  pose proof (buffer_new_spec (T := T) size p now m) as Hs. rewrite Hnew in Hs. destruct Hs as (Hp & _ & _ & Hb & Hd & Hpe).
  destruct (buffer_run_in_time p now sched (Some b0) (Some b) st st' c c' o Hp) as (last' & _ & _ & Hin); [|done|done|].
  { cbn. rewrite Hd, Hpe, Hb. split_and!; [done|lia|]. by intros ? ?%elem_of_nil. }
  pose proof (tick_spec (sb_interval b) t) as Htk. rewrite Hn in Htk. specialize (Hin x Hx). lia.
Qed.
End Latency.

(** ** Throttling loses no count *)

(** ** A concrete timer and store *)

#[local] Instance burst_interval : Interval := {|
  ticker := Z * Z;
  interval := λ p now, if 0 <? p then Ret (now, p) else Panic;
  tick_ready := λ t now, if t.1 <=? now then Some (t.1 + t.2, t.2) else None;
  reset := λ t now, (now + t.2, t.2);
|}.
#[local] Instance burst_interval_laws : IntervalLaws burst_interval.
Proof.
  refine {| due := λ t : ticker, t.1; period := λ t : ticker, t.2 |}.
  - intros p now. cbn. zcase; cbn; [split_and!; done|lia].
  - intros t now. cbn. zcase; [split_and!; done|lia].
  - intros t now. done.
Defined.

(** A store that lists what it holds, and refuses finish-reason rows. *)
Record MemSink : Type := mkMemSink { mm_spans : list LlmCall; mm_wide : list LlmMetric; mm_finish : list LlmFinishMetric }.
#[local] Instance mem_sink : SinkBackend MemSink := {|
  write_spans := λ s l, (mkMemSink (mm_spans s ++ l) (mm_wide s) (mm_finish s), true);
  write_traces := λ s _, (s, true);
  write_metrics := λ s l, (mkMemSink (mm_spans s) (mm_wide s ++ l) (mm_finish s), true);
  write_finish_metrics := λ s _, (s, false);
  write_exchanges := λ s _, (s, true);
|}.

Definition sample_config : StorageSinkConfig := mkSinkConfig 2 200.
Definition sample_sched : list (Z * Z * SinkEvent) :=
  let call n := OnCalls (Item (sample_call n 5 "m" None)) in
  [(10, 10, call "a"); (20, 30, call "b"); (40, 40, call "c"); (210000, 210010, OnCalls Tick); (300000, 300000, OnCalls Eof)]%string.

(** Two values fill a batch; the third is flushed when the interval has passed. *)
Example sample_sink_run :
  match sink_new sample_config 0 (mkMemSink [] [] []) counters_zero with
  | Ret s0 => (λ r, (map (λ f, length (fl_batch f)) (omap of_calls r.2), length (mm_spans (sk_store r.1)),
                     sk_counters r.1 StorageFlushedCalls)) <$> sink_run s0 sample_sched
  | _ => None
  end = Some ([2; 1], 3, 3%Z)%nat.
Proof. vm_compute. reflexivity. Qed.

Lemma sink_accounts_witness :
  ∃ s0, sink_new sample_config 0 (mkMemSink [] [] []) counters_zero = Ret s0 ∧
    ∃ s o, sink_run s0 sample_sched = Some (s, o) ∧ sink_ok 2 (mkMemSink [] [] []) sample_sched o s.
Proof.
  pose proof (sink_accounts sample_config 0 (mkMemSink [] [] [])) as H.
  destruct (sink_new sample_config 0 (mkMemSink [] [] []) counters_zero) as [s0| |] eqn:E; [|exfalso; discriminate E..].
  exists s0. split; [reflexivity|]. injection E as <-.
  match goal with |- context [sink_run ?s sample_sched] =>
    destruct (sink_run s sample_sched) as [[s1 o]|] eqn:Er; [|exfalso; discriminate Er] end.
  exists s1, o. split; [reflexivity|]. exact (proj1 (H sample_sched s1 o Er)).
Defined.

(** A metrics batch whose second write fails is half written: the error log calls
    it dropped and it does not count as flushed, but its wide rows are stored. *)
Example half_written_batch (b : LlmMetricsBatch) :
  let '(s, o) := write_metrics_batch (mkMemSink [] [] []) [b] in o = false ∧ mm_wide s = [mb_metric b].
Proof. split; reflexivity. Qed.

(** A flush interval of zero panics the sink. *)
Example zero_interval_panics : sink_new (mkSinkConfig 1000 0) 0 (mkMemSink [] [] []) counters_zero = Panic.
Proof. reflexivity. Qed.

Lemma buffered_in_time_witness :
  ∃ b0 b st c o, buffer_new (T := Z * nat) 3 200 None 0 = Ret b0 ∧
    buffer_run (λ (s : nat) _, (S s, true)) (Some b0) 0%nat counters_zero [(50, 50, Item (50, 7%nat))] = Some (Some b, st, c, o) ∧
    199 < 50 + 200.
Proof.
  eexists _, _, _, _, _. split; [reflexivity|]. split; [reflexivity|].
  refine (buffered_in_time (λ (s : nat) _, (S s, true)) fst 3 200 0 None _ 0%nat _ counters_zero _
    [(50, 50, Item (50, 7%nat))] _ _ eq_refl _ eq_refl (50, 7%nat) 199 _ eq_refl).
  - cbn. split_and!; [lia..|exact Logic.I].
  - cbn. by left.
Defined.
