(* ===== verification/Json.v ===== *)
(** * JSON values (serde_json, h-llm/src/parsed_json.rs)

    [serde_json]'s [Value] has the six constructors the code matches on; its
    numbers, its parser and its printer are the library's own, parameters here.
    An object is what iterating it yields, its entries in key order.  The file
    also has the parse-once cache of a body. *)

From Stdlib Require Import Strings.Byte Strings.String ZArith Lia.
From stdpp Require Import base gmap sets list strings sorting.
From S2P Require Import Prelude.
From S2P Require Import Text.

Open Scope Z_scope.

(** [o.and_then(f)], chained from the left. *)
Notation "o ▷ f" := (@mbind option _ _ _ f o) (at level 50, left associativity) : heron_scope.

(** An identifier taken from text, and back. *)
Definition str (t : text) : string := String.string_of_list_byte t.

Lemma str_B (s : string) : str (B s) = s.
Proof. apply String.string_of_list_byte_of_string. Qed.

Lemma B_str (t : text) : B (str t) = t.
Proof. apply String.list_byte_of_string_of_list_byte. Qed.

(** [serde_json::Number]: [as_u64], whether it is an integer ([is_u64] or
    [is_i64]), the number of a [u64], and [Display]. *)
Class JsonNumber : Type := {
  number : Type;
  number_as_u64 : number → option Z;
  number_is_int : number → bool;
  number_of_u64 : Z → number;
  number_show : number → text;
}.

Class JsonNumberLaws (JN : JsonNumber) : Prop := {
  as_u64_of_u64 (n : Z) : 0 <= n < 2 ^ 64 → number_as_u64 (number_of_u64 n) = Some n;
  is_int_of_u64 (n : Z) : 0 <= n < 2 ^ 64 → number_is_int (number_of_u64 n) = true;
}.

Section Json.
Context `{JN : JsonNumber}.

#[local] Unset Elimination Schemes.
Inductive Value : Type :=
| Null
| Bool (b : bool)
| Number (n : number)
| Str (s : text)
| Array (l : list Value)
| Object (m : list (string * Value)).
#[local] Set Elimination Schemes.

Section value_ind.
Variable P : Value → Prop.
Hypothesis Hnull : P Null.
Hypothesis Hbool : ∀ b, P (Bool b).
Hypothesis Hnumber : ∀ n, P (Number n).
Hypothesis Hstr : ∀ s, P (Str s).
Hypothesis Harray : ∀ l, Forall P l → P (Array l).
Hypothesis Hobject : ∀ m, Forall (λ kv, P kv.2) m → P (Object m).

Fixpoint Value_ind (v : Value) : P v :=
  match v with
  | Null => Hnull
  | Bool b => Hbool b
  | Number n => Hnumber n
  | Str s => Hstr s
  | Array l =>
      Harray l ((fix go l : Forall P l :=
        match l with [] => Forall_nil_2 _ | x :: l' => Forall_cons_2 _ _ _ (Value_ind x) (go l') end) l)
  | Object m =>
      Hobject m ((fix go m : Forall (λ kv, P kv.2) m :=
        match m with
        | [] => Forall_nil_2 _
        | kv :: m' => Forall_cons_2 _ _ _ (Value_ind kv.2) (go m')
        end) m)
  end.
End value_ind.

(** ** Objects: [serde_json::Map], a [BTreeMap] by key *)

Fixpoint map_get (k : string) (m : list (string * Value)) : option Value :=
  match m with
  | [] => None
  | (k', v) :: m' => if String.eqb k k' then Some v else map_get k m'
  end.

Fixpoint map_insert (k : string) (v : Value) (m : list (string * Value)) : list (string * Value) :=
  match m with
  | [] => [(k, v)]
  | (k', v') :: m' =>
      match String.compare k k' with
      | Lt => (k, v) :: m
      | Eq => (k, v) :: m'
      | Gt => (k', v') :: map_insert k v m'
      end
  end.

(** The [json!] literal of an object: its entries inserted in turn. *)
Definition obj (l : list (string * Value)) : Value :=
  Object (foldl (λ m '(k, v), map_insert k v m) [] l).

(** ** Accessors *)

Definition get (k : string) (v : Value) : option Value :=
  match v with Object m => map_get k m | _ => None end.
Definition get_idx (i : nat) (v : Value) : option Value :=
  match v with Array l => l !! i | _ => None end.
Definition as_str (v : Value) : option text := match v with Str s => Some s | _ => None end.
Definition as_u64 (v : Value) : option Z := match v with Number n => number_as_u64 n | _ => None end.
Definition as_bool (v : Value) : option bool := match v with Bool b => Some b | _ => None end.
Definition as_array (v : Value) : option (list Value) :=
  match v with Array l => Some l | _ => None end.
Definition is_object (v : Value) : bool := match v with Object _ => true | _ => false end.
Definition is_null (v : Value) : bool := match v with Null => true | _ => false end.

(** [as_object_mut] and an insertion; nothing where the value is no object. *)
Definition insert_key (k : string) (x v : Value) : Value :=
  match v with Object m => Object (map_insert k x m) | _ => v end.

Definition of_u64 (n : Z) : Value := Number (number_of_u64 n).

(** [.as_u64().map(|v| v as u32)]. *)
Definition as_u32 (v : Value) : option Z := wrap 32 <$> as_u64 v.

(** [v.get(k).and_then(as_str)], the commonest read. *)
Definition get_str (k : string) (v : Value) : option text := get k v ▷ as_str.
Definition get_u32 (k : string) (v : Value) : option Z := get k v ▷ as_u32.
Definition get_arr (k : string) (v : Value) : option (list Value) := get k v ▷ as_array.

(** [v.get(k).and_then(as_str) == Some(s)]. *)
Definition str_is (k s : string) (v : Value) : bool := bool_decide (get_str k v = Some (B s)).

(** ** Objects, proved *)

Lemma map_get_insert (k k' : string) (v : Value) (m : list (string * Value)) :
  map_get k (map_insert k' v m) = if String.eqb k k' then Some v else map_get k m.
Proof.
  induction m as [|[x w] m IH]; [done|]. cbn [map_insert].
  destruct (String.compare k' x) eqn:E; cbn [map_get].
  - apply String.compare_eq_iff in E as ->. by destruct (String.eqb k x).
  - done.
  - rewrite IH. destruct (String.eqb_spec k x) as [->|]; [|done].
    destruct (String.eqb_spec x k') as [<-|]; [|done].
    pose proof (String.compare_antisym x x) as Ha. by rewrite E in Ha.
Qed.

Lemma get_insert_key (k k' : string) (x v : Value) :
  is_object v = true → get k (insert_key k' x v) = if String.eqb k k' then Some x else get k v.
Proof. destruct v; try done. intros _. apply map_get_insert. Qed.

Lemma is_object_insert_key (k : string) (x v : Value) : is_object (insert_key k x v) = is_object v.
Proof. by destruct v. Qed.

(** The last entry of a literal's list under a key wins. *)
Fixpoint last_get (k : string) (l : list (string * Value)) : option Value :=
  match l with
  | [] => None
  | (k', v) :: l' =>
      match last_get k l' with
      | Some w => Some w
      | None => if String.eqb k k' then Some v else None
      end
  end.

Lemma get_obj (k : string) (l : list (string * Value)) : get k (obj l) = last_get k l.
Proof.
  unfold obj. cbn [get].
  assert (H : ∀ m, map_get k (foldl (λ m '(k, v), map_insert k v m) m l)
    = match last_get k l with Some w => Some w | None => map_get k m end); [|rewrite H; by destruct (last_get k l)].
  induction l as [|[k' v] l IH]; intros m; [done|]. cbn [foldl last_get].
  rewrite IH, map_get_insert. by destruct (last_get k l), (String.eqb k k').
Qed.

Lemma is_object_obj (l : list (string * Value)) : is_object (obj l) = true.
Proof. done. Qed.

(** ** Values that printing and parsing preserves: sorted keys, strings in UTF-8,
    integer numbers (floats lose precision), and the parser's recursion limit *)

Definition keys_sorted (m : list (string * Value)) : Prop :=
  StronglySorted (λ a b, String.compare a.1 b.1 = Lt) m.

Fixpoint value_ok (v : Value) : Prop :=
  match v with
  | Null | Bool _ => True
  | Number n => number_is_int n = true
  | Str s => utf8_valid s = true
  | Array l => foldr (λ x P, value_ok x ∧ P) True l
  | Object m =>
      keys_sorted m ∧ foldr (λ kv P, utf8_valid (B kv.1) = true ∧ value_ok kv.2 ∧ P) True m
  end.

Fixpoint depth (v : Value) : nat :=
  match v with
  | Array l => S (foldr (λ x n, Nat.max (depth x) n) 0 l)%nat
  | Object m => S (foldr (λ kv n, Nat.max (depth kv.2) n) 0 m)%nat
  | _ => 0%nat
  end.

Definition RECURSION_LIMIT : nat := 128.
End Json.
#[export] Hint Rewrite @map_get_insert @get_obj @is_object_insert_key : heron_json.

(** ** The parser and the printer *)

Class JsonText `{JN : JsonNumber} : Type := {
  from_slice : text → option Value;
  to_string : Value → text;
  string_to_json : text → text;
}.

(** What is printed parses back, within what [serde_json] documents, and only
    UTF-8 parses. *)
Class JsonTextLaws `{JN : JsonNumber} (JT : JsonText) : Prop := {
  from_slice_to_string (v : Value) :
    value_ok v → (depth v < RECURSION_LIMIT)%nat → from_slice (to_string v) = Some v;
  to_string_utf8 (v : Value) : utf8_valid (to_string v) = true;
  from_slice_utf8 (t : text) (v : Value) : from_slice t = Some v → utf8_valid t = true;
}.

(** ** ParsedJson

    A body's bytes, parsed at the first read and remembered, or a value built
    already.  Parsing is a function of the bytes, so what is remembered cannot
    be told from parsing again. *)
Section ParsedJson.
Context `{JT : JsonText}.

Inductive ParsedJson : Type :=
| Lazy (bytes : text)
| Eager (v : option Value).

Definition pj_get (c : ParsedJson) : option Value :=
  match c with Lazy b => from_slice b | Eager v => v end.
End ParsedJson.
