(* ===== verification/ProxyPair.v ===== *)
(** * Proxy pairing (h-turn/src/proxy_pair.rs)

    Turns that are one logical call seen from several vantage points are folded
    into groups: bucketed by content, clustered by start time, and each member
    given a role relative to the leg that started first. *)

From Stdlib Require Import Strings.Byte Strings.String ZArith Lia Sorting.Sorted.
From stdpp Require Import base gmap sets list strings relations sorting.
From S2P Require Import Prelude.
From S2P Require Import Net.
From S2P Require Import Counters.
From S2P Require Import Joiner.
From S2P Require Import Calls.
From S2P Require Import Turns.
From S2P Require Import Dims.
From S2P Require Import Json.

Open Scope Z_scope.

Inductive ProxyRole : Type := ProxyIn | ProxyOut | MirrorPrimary | MirrorSecondary.

#[global] Instance ProxyRole_eq_dec : EqDecision ProxyRole.
Proof. solve_decision. Defined.

Definition role_as_str (r : ProxyRole) : string :=
  match r with
  | ProxyIn => "proxy_in"
  | ProxyOut => "proxy_out"
  | MirrorPrimary => "mirror_primary"
  | MirrorSecondary => "mirror_secondary"
  end.

Definition hidden_by_default (r : ProxyRole) : bool :=
  match r with ProxyOut | MirrorSecondary => true | _ => false end.

Definition MAX_REQ_TIME_GAP_US : Z := 100000.
Definition MIRROR_TIME_TOLERANCE_US : Z := 500.

Record PairCandidate : Type := mkPair {
  pc_turn_id : string;
  pc_session_id : string;
  pc_agent_kind : string;
  pc_wire_api : string;
  pc_start_time_us : Z;
  pc_end_time_us : Z;
  pc_call_count : Z;
  pc_total_input_tokens : Z;
  pc_total_output_tokens : Z;
  pc_final_finish_reason : option string;
  pc_primary_model : option string;
  pc_network_view : string;
}.

#[global] Instance PairCandidate_eq_dec : EqDecision PairCandidate.
Proof. solve_decision. Defined.

Record GroupMember : Type := mkMember { gm_turn_id : string; gm_role : ProxyRole }.
Record ProxyGroup : Type := mkGroup { pg_group_id : string; pg_members : list GroupMember }.

(** [i64] subtraction and [abs], which wrap around in a release build. *)
Definition i64_sub (a b : Z) : Z := swrap 64 (a - b).
Definition i64_abs (a : Z) : Z := swrap 64 (Z.abs a).

Notation Fingerprint := (string * string * Z * Z * Z)%type.
Definition content_fingerprint (c : PairCandidate) : Fingerprint :=
  (pc_session_id c, pc_agent_kind c, pc_call_count c, pc_total_input_tokens c, pc_total_output_tokens c).

(** An index into the candidates, with the candidate there. *)
Notation Leg := (nat * PairCandidate)%type.
Definition leg_start (l : Leg) : Z := pc_start_time_us l.2.
Definition leg_end (l : Leg) : Z := pc_end_time_us l.2.

(** The next leg joins the last cluster while it starts close to its last one. *)
Definition add_leg (out : list (list Leg)) (i : Leg) : list (list Leg) :=
  match last out with
  | Some cluster =>
      match last cluster with
      | Some l =>
          if i64_sub (leg_start i) (leg_start l) <=? MAX_REQ_TIME_GAP_US
          then removelast out ++ [cluster ++ [i]]
          else out ++ [[i]]
      | None => out ++ [[i]]
      end
  | None => out ++ [[i]]
  end.

Definition time_clusters (idxs : list Leg) : list (list Leg) := foldl add_leg [] (sort_by_key leg_start idxs).

(** The canonical leg: the first to start, then the last to end, then by id. *)
Definition canon_cmp (a b : Leg) : comparison :=
  then_cmp (Z.compare (leg_start a) (leg_start b))
    (then_cmp (Z.compare (leg_end b) (leg_end a)) (String.compare (pc_turn_id a.2) (pc_turn_id b.2))).
Definition pick_canonical (cluster : list Leg) : option Leg := min_by canon_cmp cluster.

(** The role of [c] beside [canon], if their times and views allow one. *)
Definition role_beside (canon c : PairCandidate) : option ProxyRole :=
  if String.eqb (pc_network_view c) (pc_network_view canon) then None
  else
    let start_gap := i64_abs (i64_sub (pc_start_time_us c) (pc_start_time_us canon)) in
    let end_gap := i64_abs (i64_sub (pc_end_time_us c) (pc_end_time_us canon)) in
    if (start_gap <=? MIRROR_TIME_TOLERANCE_US) && (end_gap <=? MIRROR_TIME_TOLERANCE_US)
    then Some MirrorSecondary
    else if (pc_start_time_us canon <=? pc_start_time_us c) && (pc_end_time_us c <=? pc_end_time_us canon)
    then Some ProxyOut
    else None.

Definition assign_roles (cluster : list Leg) (canonical : Leg) : list (Leg * option ProxyRole) :=
  map (λ i, (i, if (i.1 =? canonical.1)%nat then None else role_beside canonical.2 i.2)) cluster.

Definition member_of (ir : Leg * ProxyRole) : GroupMember := mkMember (pc_turn_id ir.1.2) ir.2.

(** The members of a cluster's group, the canonical leg first. *)
Definition cluster_members (cluster : list Leg) : option (list GroupMember) :=
  if (length cluster <? 2)%nat then None
  else
    match pick_canonical cluster with
    | None => None
    | Some canonical =>
        let valid := omap (λ ir, if (ir.1.1 =? canonical.1)%nat then None
                                 else (λ role, (ir.1, role)) <$> ir.2) (assign_roles cluster canonical) in
        if bool_decide (valid = []) then None
        else
          let role := if existsb (λ ir, bool_decide (ir.2 = ProxyOut)) valid then ProxyIn else MirrorPrimary in
          Some (mkMember (pc_turn_id canonical.2) role :: map member_of valid)
    end.

(** The candidates of each fingerprint, in order. *)
Definition add_to_bucket (m : gmap Fingerprint (list Leg)) (i : Leg) : gmap Fingerprint (list Leg) :=
  <[content_fingerprint i.2 := default [] (m !! content_fingerprint i.2) ++ [i]]> m.
Definition enumerate (set : list PairCandidate) : list Leg := imap pair set.
Definition by_fingerprint (set : list PairCandidate) : gmap Fingerprint (list Leg) :=
  foldl add_to_bucket ∅ (enumerate set).

Section Grouping.
Context {HI : HashIter Fingerprint (list Leg)} {U : UuidSupply}.

(** The members of every group, in the order the map is iterated. *)
Definition grouped_members (set : list PairCandidate) : list (list GroupMember) :=
  hash_iter (by_fingerprint set) ≫= λ fi,
    if (length fi.2 <? 2)%nat then [] else omap cluster_members (time_clusters fi.2).

(** The [n]-th group made takes the [n]-th identifier from [k] on. *)
Definition group_all (k : nat) (set : list PairCandidate) : list ProxyGroup :=
  zip_with (λ n ms, mkGroup ("group-" +:+ now_v7 (k + n)) ms)
    (seq 0 (length (grouped_members set))) (grouped_members set).
End Grouping.

(** [Vec<String>::sort]. *)
Fixpoint insert_string (x : string) (l : list string) : list string :=
  match l with
  | [] => [x]
  | y :: l' => if String.leb x y then x :: l else y :: insert_string x l'
  end.
Definition sort_strings (l : list string) : list string := foldr insert_string [] l.

Section Metadata.
Context `{JN : JsonNumber}.

Definition metadata_for (g : ProxyGroup) (turn_id : string) : option Value :=
  match List.find (λ m, String.eqb (gm_turn_id m) turn_id) (pg_members g) with
  | None => None
  | Some me =>
      let peers := sort_strings
        (map gm_turn_id (List.filter (λ m, negb (String.eqb (gm_turn_id m) turn_id)) (pg_members g))) in
      Some (obj [("proxy", obj
        [("role", Str (B (role_as_str (gm_role me))));
         ("pair_id", Str (B (pg_group_id g)));
         ("peer_turn_ids", Array (map (λ p, Str (B p)) peers));
         ("peer_turn_id", match head peers with Some p => Str (B p) | None => Null end)])])%string
  end.
End Metadata.

Definition candidate_from_turn (t : Trace) : PairCandidate :=
  mkPair (tr_turn_id t) (tr_session_id t) (tr_agent_kind t) (tr_wire_api t) (tr_start_time_us t)
    (tr_end_time_us t) (tr_call_count t) (tr_total_input_tokens t) (tr_total_output_tokens t)
    (tr_final_finish_reason t) (head (tr_models_used t))
    (show_ip (tr_client_ip t) +:+ "->" +:+ show_ip (tr_server_ip t)).

(** ** Which turns belong together *)

Section Spec.
Variable set : list PairCandidate.

(** Times at which no subtraction wraps around. *)
Definition times_ok : Prop :=
  ∀ c, c ∈ set → 0 <= pc_start_time_us c < 2 ^ 62 ∧ 0 <= pc_end_time_us c < 2 ^ 62.

(** Two candidates with the same content that start close to each other; and a
    chain of such. *)
Definition near (a b : PairCandidate) : Prop :=
  a ∈ set ∧ b ∈ set ∧ content_fingerprint a = content_fingerprint b ∧
  Z.abs (pc_start_time_us a - pc_start_time_us b) <= MAX_REQ_TIME_GAP_US.
Definition together : PairCandidate → PairCandidate → Prop := rtc near.

Definition canon_le (a b : PairCandidate) : Prop :=
  pc_start_time_us a < pc_start_time_us b ∨
  pc_start_time_us a = pc_start_time_us b ∧
    (pc_end_time_us b < pc_end_time_us a ∨
     pc_end_time_us a = pc_end_time_us b ∧ String.leb (pc_turn_id a) (pc_turn_id b) = true).

(** [c] leads its cluster, and [m] has role [r] under it. *)
Definition leads (c : PairCandidate) : Prop := c ∈ set ∧ ∀ b, together c b → canon_le c b.
Definition mirrors (c m : PairCandidate) : Prop :=
  Z.abs (pc_start_time_us m - pc_start_time_us c) <= MIRROR_TIME_TOLERANCE_US ∧
  Z.abs (pc_end_time_us m - pc_end_time_us c) <= MIRROR_TIME_TOLERANCE_US.
Definition nested (c m : PairCandidate) : Prop :=
  pc_start_time_us c <= pc_start_time_us m ∧ pc_end_time_us m <= pc_end_time_us c.
Definition role_under (c m : PairCandidate) (r : ProxyRole) : Prop :=
  pc_network_view m ≠ pc_network_view c ∧
  (r = MirrorSecondary ∧ mirrors c m ∨ r = ProxyOut ∧ ¬ mirrors c m ∧ nested c m).
Definition follows (c m : PairCandidate) (r : ProxyRole) : Prop :=
  together c m ∧ m ≠ c ∧ role_under c m r.

(** The group that [c] leads. *)
Definition group_of (c : PairCandidate) (ms : list GroupMember) : Prop :=
  ∃ lead rest, ms = mkMember (pc_turn_id c) lead :: rest ∧ rest ≠ [] ∧
    (∀ t r, mkMember t r ∈ rest ↔ ∃ m, pc_turn_id m = t ∧ follows c m r) ∧
    lead = (if existsb (λ m, bool_decide (gm_role m = ProxyOut)) rest then ProxyIn else MirrorPrimary).
End Spec.

(** ** Clusters *)

Definition far (c1 c2 : list Leg) : Prop :=
  ∀ x y, x ∈ c1 → y ∈ c2 → MAX_REQ_TIME_GAP_US < leg_start y - leg_start x.
Definition near_in (c : list Leg) (x y : Leg) : Prop :=
  x ∈ c ∧ y ∈ c ∧ Z.abs (leg_start x - leg_start y) <= MAX_REQ_TIME_GAP_US.
Definition chained (c : list Leg) : Prop := c ≠ [] ∧ ∀ x y, x ∈ c → y ∈ c → rtc (near_in c) x y.

Definition clustered (done : list Leg) (out : list (list Leg)) : Prop :=
  concat out = done ∧ Forall chained out ∧ StronglySorted far out.

Lemma i64_sub_small (a b : Z) : 0 <= a < 2 ^ 62 → 0 <= b < 2 ^ 62 → i64_sub a b = a - b.
Proof. intros. unfold i64_sub. apply swrap_small; lia. Qed.

Lemma chained_snoc (c : list Leg) (l i : Leg) :
  chained (c ++ [l]) → Z.abs (leg_start i - leg_start l) <= MAX_REQ_TIME_GAP_US → chained ((c ++ [l]) ++ [i]).
Proof.
  intros [_ Hc] Hi. split; [by intros [_ ?]%app_eq_nil|].
  assert (Hsub : ∀ x y, x ∈ c ++ [l] → y ∈ c ++ [l] → rtc (near_in ((c ++ [l]) ++ [i])) x y).
  { intros x y Hx Hy. eapply rtc_subrel; [|by apply Hc]. intros a b (? & ? & ?). split_and!; set_solver. }
  assert (Hl : l ∈ c ++ [l]) by set_solver.
  assert (Hli : near_in ((c ++ [l]) ++ [i]) l i ∧ near_in ((c ++ [l]) ++ [i]) i l)
    by (split; split_and!; [set_solver|set_solver|lia|set_solver|set_solver|lia]).
  destruct Hli as [Hli Hil].
  intros x y [Hx| ->%list_elem_of_singleton]%elem_of_app [Hy| ->%list_elem_of_singleton]%elem_of_app.
  - by apply Hsub.
  - apply (rtc_r _ l); [by apply Hsub|done].
  - apply (rtc_l _ _ l); [done|by apply Hsub].
  - apply rtc_refl.
Qed.

Lemma add_leg_clustered (done : list Leg) (out : list (list Leg)) (i : Leg) :
  clustered done out → StronglySorted (λ x y, leg_start x <= leg_start y) (done ++ [i]) →
  (∀ x, x ∈ i :: done → 0 <= leg_start x < 2 ^ 62) → clustered (done ++ [i]) (add_leg out i).
Proof.
  intros (<- & Hch & Hfar) Hs Hok. unfold add_leg.
  apply StronglySorted_app in Hs as (Hle & Hs & _).
  assert (Hone : chained [i]).
  { split; [done|]. intros x y ->%list_elem_of_singleton ->%list_elem_of_singleton. apply rtc_refl. }
  destruct out as [|c out _] using rev_ind.
  { cbn. split_and!; [done|by constructor|repeat constructor]. }
  rewrite last_snoc. apply Forall_app in Hch as [Hch [Hc _]%Forall_cons].
  destruct c as [|l c _] using rev_ind; [by destruct Hc|]. rewrite last_snoc.
  rewrite concat_app in *. cbn [concat] in *. rewrite app_nil_r in *.
  assert (Hli : leg_start l <= leg_start i) by (apply Hle; set_solver).
  rewrite app_assoc in Hs. apply StronglySorted_app in Hs as (Hlast & _ & _).
  rewrite i64_sub_small by (apply Hok; set_solver).
  apply StronglySorted_app in Hfar as (Hsep & Hf & _).
  destruct (Z.leb_spec (leg_start i - leg_start l) MAX_REQ_TIME_GAP_US) as [Hg|Hg].
  - rewrite removelast_last. split_and!.
    + rewrite concat_app. cbn [concat]. by rewrite app_nil_r, !app_assoc.
    + apply Forall_app. split; [done|]. constructor; [|done]. apply chained_snoc; [done|lia].
    + apply StronglySorted_app. split_and!; [|done|repeat constructor].
      intros c1 c2 Hc1 ->%list_elem_of_singleton x y Hx [Hy| ->%list_elem_of_singleton]%elem_of_app.
      * eapply Hsep; [done|by apply list_elem_of_singleton|done|done].
      * pose proof (Hsep c1 (c ++ [l]) Hc1 ltac:(by apply list_elem_of_singleton) x l Hx ltac:(set_solver)). lia.
  - split_and!.
    + rewrite !concat_app. cbn [concat]. by rewrite !app_nil_r.
    + apply Forall_app. split; [|by constructor]. apply Forall_app. by split; [|constructor].
    + apply StronglySorted_app. split_and!; [|apply StronglySorted_app; split_and!; [done..|repeat constructor]
        |repeat constructor].
      intros c1 c2 Hc1 ->%list_elem_of_singleton x y Hx ->%list_elem_of_singleton.
      apply elem_of_app in Hc1 as [Hc1| ->%list_elem_of_singleton].
      * pose proof (Hsep c1 (c ++ [l]) Hc1 ltac:(by apply list_elem_of_singleton) x l Hx ltac:(set_solver)). lia.
      * apply elem_of_app in Hx as [Hx| ->%list_elem_of_singleton]; [|lia].
        pose proof (Hlast x l ltac:(set_solver) ltac:(by apply list_elem_of_singleton)). cbn in *. lia.
Qed.

Lemma time_clusters_spec (l : list Leg) :
  (∀ x, x ∈ l → 0 <= leg_start x < 2 ^ 62) → clustered (sort_by_key leg_start l) (time_clusters l).
Proof.
  intros Hok. unfold time_clusters.
  assert (Hok' : ∀ x, x ∈ sort_by_key leg_start l → 0 <= leg_start x < 2 ^ 62).
  { intros x. rewrite sort_by_key_perm. apply Hok. }
  pose proof (sort_by_key_ordered leg_start l) as Hs. revert Hok' Hs. generalize (sort_by_key leg_start l).
  intros s. induction s as [|i s IH] using rev_ind; intros Hok' Hs; [split_and!; [done|constructor..]|].
  rewrite foldl_snoc. apply add_leg_clustered; [|done|set_solver].
  apply IH; [set_solver|]. by apply StronglySorted_app in Hs as (_ & ? & _).
Qed.

Lemma clusters_sep (cs : list (list Leg)) (c1 c2 : list Leg) (x y : Leg) :
  StronglySorted far cs → c1 ∈ cs → c2 ∈ cs → x ∈ c1 → y ∈ c2 →
  Z.abs (leg_start x - leg_start y) <= MAX_REQ_TIME_GAP_US → c1 = c2.
Proof.
  induction 1 as [|c cs Hs IH Hc]; [by intros ?%elem_of_nil|]. rewrite Forall_forall in Hc.
  intros [->|H1]%elem_of_cons [->|H2]%elem_of_cons Hx Hy Hn; [done| | |by apply IH].
  - specialize (Hc c2 H2 x y Hx Hy). lia.
  - specialize (Hc c1 H1 y x Hy Hx). lia.
Qed.

(** ** Buckets *)

Lemma bucket_fold (ls : list Leg) (m : gmap Fingerprint (list Leg)) (fp : Fingerprint) :
  default [] (foldl add_to_bucket m ls !! fp)
  = default [] (m !! fp) ++ filter (λ i, content_fingerprint i.2 = fp) ls.
Proof.
  revert m; induction ls as [|i ls IH]; intros m; [by rewrite app_nil_r|]. cbn [foldl].
  rewrite IH, filter_cons. unfold add_to_bucket. destruct (decide (content_fingerprint i.2 = fp)) as [<-|Hn].
  - rewrite lookup_insert_eq. cbn. by rewrite <- (app_assoc _ [i]).
  - by rewrite lookup_insert_ne.
Qed.

Lemma bucket_spec (set : list PairCandidate) (fp : Fingerprint) (l : list Leg) :
  by_fingerprint set !! fp = Some l → l = filter (λ i, content_fingerprint i.2 = fp) (enumerate set).
Proof. intros E. pose proof (bucket_fold (enumerate set) ∅ fp) as H. unfold by_fingerprint in E. by rewrite E in H. Qed.

Lemma bucket_some (set : list PairCandidate) (i : Leg) :
  i ∈ enumerate set → is_Some (by_fingerprint set !! content_fingerprint i.2).
Proof.
  intros Hi. pose proof (bucket_fold (enumerate set) ∅ (content_fingerprint i.2)) as H. fold (by_fingerprint set) in H.
  destruct (by_fingerprint set !! _); [done|]. rewrite lookup_empty in H. cbn in H.
  assert (Hf : i ∈ filter (λ j, content_fingerprint j.2 = content_fingerprint i.2) (enumerate set))
    by by apply list_elem_of_filter.
  rewrite <- H in Hf. by apply elem_of_nil in Hf.
Qed.

Lemma elem_of_enumerate (set : list PairCandidate) (i : nat) (c : PairCandidate) :
  (i, c) ∈ enumerate set ↔ set !! i = Some c.
Proof. unfold enumerate. rewrite elem_of_lookup_imap. naive_solver. Qed.

Lemma enumerate_fst (set : list PairCandidate) (x y : Leg) :
  x ∈ enumerate set → y ∈ enumerate set → x.1 = y.1 → x = y.
Proof. destruct x, y. rewrite !elem_of_enumerate. cbn. intros ? ? ->. congruence. Qed.

Lemma enumerate_snd (set : list PairCandidate) (x y : Leg) :
  NoDup (map pc_turn_id set) → x ∈ enumerate set → y ∈ enumerate set → pc_turn_id x.2 = pc_turn_id y.2 → x = y.
Proof.
  intros Hnd. destruct x as [i x], y as [j y]. rewrite !elem_of_enumerate. cbn. intros Hx Hy E.
  assert (i = j) as ->; [|congruence].
  apply (NoDup_lookup (map pc_turn_id set) i j (pc_turn_id x)); [done| |]; rewrite list_lookup_fmap.
  - by rewrite Hx.
  - by rewrite Hy, E.
Qed.

Lemma enumerate_elem (set : list PairCandidate) (c : PairCandidate) :
  c ∈ set ↔ ∃ x, x ∈ enumerate set ∧ x.2 = c.
Proof.
  rewrite list_elem_of_lookup. split.
  - intros [i Hi]. exists (i, c). by rewrite elem_of_enumerate.
  - intros ([i d] & Hi%elem_of_enumerate & <-). by exists i.
Qed.

Lemma NoDup_enumerate (set : list PairCandidate) : NoDup (enumerate set).
Proof.
  unfold enumerate. apply NoDup_alt. intros i j x. rewrite !list_lookup_imap.
  destruct (set !! i), (set !! j); cbn; congruence.
Qed.

(** ** The canonical leg *)

Lemma canon_cmp_opp (a b : Leg) : canon_cmp a b = CompOpp (canon_cmp b a).
Proof.
  unfold canon_cmp. rewrite <- !then_cmp_opp, <- !Z.compare_antisym. by rewrite <- String.compare_antisym.
Qed.

Lemma canon_cmp_le (a b : Leg) : canon_cmp a b ≠ Gt ↔ canon_le a.2 b.2.
Proof.
  unfold canon_cmp, canon_le, leg_start, leg_end, String.leb.
  destruct (Z.compare_spec (pc_start_time_us a.2) (pc_start_time_us b.2)); cbn; [|intuition (congruence || lia)..].
  destruct (Z.compare_spec (pc_end_time_us b.2) (pc_end_time_us a.2)); cbn; [|intuition (congruence || lia)..].
  destruct (String.compare _ _); intuition (congruence || lia).
Qed.

Lemma canon_le_trans (a b c : PairCandidate) : canon_le a b → canon_le b c → canon_le a c.
Proof.
  unfold canon_le. intros H1 H2.
  assert (Htr : String.leb (pc_turn_id a) (pc_turn_id b) = true → String.leb (pc_turn_id b) (pc_turn_id c) = true →
    String.leb (pc_turn_id a) (pc_turn_id c) = true).
  { intros Hab%Is_true_true Hbc%Is_true_true. apply Is_true_true. by apply (transitivity (R := String.le) Hab Hbc). }
  naive_solver lia.
Qed.

Lemma canon_le_antisym (set : list PairCandidate) (a b : PairCandidate) :
  NoDup (map pc_turn_id set) → a ∈ set → b ∈ set → canon_le a b → canon_le b a → a = b.
Proof.
  intros Hnd Ha Hb H1 H2. assert (E : pc_turn_id a = pc_turn_id b).
  { unfold canon_le in *. apply String.leb_antisym; naive_solver lia. }
  apply enumerate_elem in Ha as (x & Hx & <-), Hb as (y & Hy & <-). f_equal. by apply (enumerate_snd set).
Qed.

Lemma pick_canonical_spec (c : list Leg) :
  c ≠ [] → ∃ k, pick_canonical c = Some k ∧ k ∈ c ∧ ∀ y, y ∈ c → canon_le k.2 y.2.
Proof.
  intros Hc. unfold pick_canonical. destruct (min_by canon_cmp c) as [k|] eqn:E; [|by destruct c].
  exists k. split; [done|]. apply min_by_spec in E as [Hin Hle]; [|apply canon_cmp_opp|].
  - split; [done|]. intros y Hy. by apply canon_cmp_le, Hle.
  - intros x y z. rewrite !canon_cmp_le. apply canon_le_trans.
Qed.

(** ** One cluster's group *)

Definition valid_legs (k : Leg) (c : list Leg) : list (Leg * ProxyRole) :=
  omap (λ l, if (l.1 =? k.1)%nat then None else pair l <$> role_beside k.2 l.2) c.

Lemma valid_assigned (k : Leg) (c : list Leg) :
  omap (λ ir : Leg * option ProxyRole, if (ir.1.1 =? k.1)%nat then None else (λ role, (ir.1, role)) <$> ir.2)
    (assign_roles c k) = valid_legs k c.
Proof.
  unfold assign_roles, valid_legs. induction c as [|l c IH]; [done|]. cbn. rewrite IH.
  by destruct (l.1 =? k.1)%nat.
Qed.

Lemma elem_of_valid (k : Leg) (c : list Leg) (l : Leg) (r : ProxyRole) :
  (l, r) ∈ valid_legs k c ↔ l ∈ c ∧ l.1 ≠ k.1 ∧ role_beside k.2 l.2 = Some r.
Proof.
  unfold valid_legs. rewrite list_elem_of_omap. split.
  - intros (x & Hx & E). destruct (Nat.eqb_spec x.1 k.1); [done|].
    apply fmap_Some in E as (r' & E & [= -> ->]). done.
  - intros (Hl & Hn & E). exists l. split; [done|]. destruct (Nat.eqb_spec l.1 k.1); [done|]. by rewrite E.
Qed.

Lemma existsb_map {A C : Type} (f : A → C) (p : C → bool) (l : list A) :
  existsb p (map f l) = existsb (λ x, p (f x)) l.
Proof. induction l as [|x l IH]; [done|]. cbn. by rewrite IH. Qed.

Lemma cluster_members_eq (c : list Leg) (k : Leg) :
  pick_canonical c = Some k → k ∈ c →
  let rest := map member_of (valid_legs k c) in
  cluster_members c =
    if bool_decide (rest = []) then None
    else Some (mkMember (pc_turn_id k.2)
                 (if existsb (λ m, bool_decide (gm_role m = ProxyOut)) rest then ProxyIn else MirrorPrimary) :: rest).
Proof.
  intros Ek Hk. cbv zeta. unfold cluster_members. rewrite Ek, valid_assigned, existsb_map. cbn [member_of gm_role].
  assert (Hnil : bool_decide (map member_of (valid_legs k c) = []) = bool_decide (valid_legs k c = [])).
  { apply bool_decide_ext. by destruct (valid_legs k c). }
  rewrite Hnil. destruct (Nat.ltb_spec (length c) 2) as [Hl|_]; [|done].
  destruct c as [|x [|y c]]; [by apply elem_of_nil in Hk| |cbn in Hl; lia].
  apply list_elem_of_singleton in Hk as <-. unfold valid_legs. cbn. by rewrite Nat.eqb_refl.
Qed.

(** ** Clusters are the classes of [together] *)

Section Classes.
Variable set : list PairCandidate.
Hypothesis Hnd : NoDup (map pc_turn_id set).
Hypothesis Hok : times_ok set.

Lemma leg_in_set (x : Leg) : x ∈ enumerate set → x.2 ∈ set.
Proof. intros Hx. apply enumerate_elem. by exists x. Qed.

Lemma leg_start_ok (x : Leg) : x ∈ enumerate set → 0 <= leg_start x < 2 ^ 62.
Proof. intros Hx. by apply Hok, leg_in_set. Qed.

Lemma bucket_clusters (fp : Fingerprint) (l : list Leg) :
  by_fingerprint set !! fp = Some l →
  (∀ x, x ∈ concat (time_clusters l) ↔ x ∈ enumerate set ∧ content_fingerprint x.2 = fp) ∧
  NoDup (concat (time_clusters l)) ∧ Forall chained (time_clusters l) ∧ StronglySorted far (time_clusters l).
Proof.
  intros ->%bucket_spec.
  destruct (time_clusters_spec (filter (λ i, content_fingerprint i.2 = fp) (enumerate set))) as (E & Hc & Hf).
  { intros x [_ Hx]%list_elem_of_filter. by apply leg_start_ok. }
  rewrite E. split_and!; [|rewrite sort_by_key_perm; apply NoDup_filter, NoDup_enumerate|done|done].
  intros x. rewrite sort_by_key_perm, list_elem_of_filter. tauto.
Qed.

Lemma cluster_class (fp : Fingerprint) (l c : list Leg) (x : Leg) (m : PairCandidate) :
  by_fingerprint set !! fp = Some l → c ∈ time_clusters l → x ∈ c →
  together set x.2 m ↔ ∃ y, y ∈ c ∧ y.2 = m.
Proof.
  intros Hl Hc Hx. destruct (bucket_clusters fp l Hl) as (Hin & _ & Hch & Hfar).
  assert (Hcin : ∀ y, y ∈ c → y ∈ enumerate set ∧ content_fingerprint y.2 = fp)
    by (intros y Hy; apply Hin, elem_of_concat; by exists c).
  split.
  - intros Ht. unfold together in Ht. remember x.2 as a eqn:Ea. revert x Hx Ea.
    induction Ht as [a|a b m Hab Ht IH]; intros x Hx ->; [by exists x|].
    destruct Hab as (_ & Hb & Hfp & Hgap). apply enumerate_elem in Hb as (y & Hy & <-).
    apply (IH y); [|done]. destruct (Hcin x Hx) as [_ Hxfp].
    assert (Hyc : y ∈ concat (time_clusters l)) by (apply Hin; split; [done|congruence]).
    apply elem_of_concat in Hyc as (c' & Hc' & Hy').
    by rewrite (clusters_sep _ c c' x y Hfar Hc Hc' Hx Hy' Hgap).
  - intros (y & Hy & <-). rewrite Forall_forall in Hch. destruct (Hch c Hc) as [_ Hr].
    apply (rtc_congruence snd (R := near_in c)); [|by apply Hr].
    intros a b (Ha & Hb & Hgap). destruct (Hcin a Ha), (Hcin b Hb).
    split_and!; [by apply leg_in_set..|congruence|done].
Qed.

Lemma i64_abs_small (a : Z) : - 2 ^ 62 < a < 2 ^ 62 → i64_abs a = Z.abs a.
Proof. intros Ha. unfold i64_abs. apply swrap_small; lia. Qed.

Lemma role_beside_under (c m : PairCandidate) (r : ProxyRole) :
  c ∈ set → m ∈ set → role_beside c m = Some r ↔ role_under c m r.
Proof.
  intros [C1 C2]%Hok [M1 M2]%Hok. unfold role_beside, role_under, mirrors, nested.
  rewrite !i64_sub_small, !i64_abs_small by (done || lia).
  destruct (String.eqb_spec (pc_network_view m) (pc_network_view c)) as [E|E]; [split; [done|tauto]|].
  repeat match goal with |- context [(?a <=? ?b) && (?c <=? ?d)] =>
    destruct (Z.leb_spec a b), (Z.leb_spec c d); cbn [andb] end;
  (split; [intros Hr; try discriminate Hr; injection Hr as <-|intros (_ & [[-> ?]|(-> & ? & ?)])]); try done; try lia;
  (split; [done|]); solve [left; split; done || lia | right; split_and!; done || lia].
Qed.

Lemma cluster_group (fp : Fingerprint) (l c : list Leg) :
  by_fingerprint set !! fp = Some l → c ∈ time_clusters l →
  ∃ k, k ∈ c ∧ leads set k.2 ∧
    (∀ m r, follows set k.2 m r ↔ ∃ y, (y, r) ∈ valid_legs k c ∧ y.2 = m) ∧
    (∀ ms, cluster_members c = Some ms → group_of set k.2 ms) ∧
    (valid_legs k c ≠ [] → is_Some (cluster_members c)).
Proof.
  intros Hl Hc. destruct (bucket_clusters fp l Hl) as (Hin & _ & Hch & _).
  rewrite Forall_forall in Hch. destruct (pick_canonical_spec c) as (k & Ek & Hk & Hmin); [by apply Hch|].
  assert (Hcin : ∀ y, y ∈ c → y ∈ enumerate set)
    by (intros y Hy; apply Hin, elem_of_concat; by exists c).
  assert (Hfol : ∀ m r, follows set k.2 m r ↔ ∃ y, (y, r) ∈ valid_legs k c ∧ y.2 = m).
  { intros m r. unfold follows. rewrite (cluster_class fp l c k m Hl Hc Hk). split.
    - intros ((y & Hy & <-) & Hn & Hr). exists y. rewrite elem_of_valid.
      apply role_beside_under in Hr; [|by apply leg_in_set, Hcin..]. split_and!; try done.
      intros E. apply Hn. by rewrite (enumerate_fst set y k (Hcin y Hy) (Hcin k Hk) E).
    - intros (y & (Hy & Hn & Hr)%elem_of_valid & <-). apply role_beside_under in Hr; [|by apply leg_in_set, Hcin..].
      split_and!; [by exists y| |done]. intros E. apply Hn. f_equal. apply (enumerate_snd set); [done|by apply Hcin..|by rewrite E]. }
  pose proof (cluster_members_eq c k Ek Hk) as Eq. cbv zeta in Eq.
  exists k. split_and!; [done| |done| |].
  - split; [by apply leg_in_set, Hcin|].
    intros b (y & Hy & <-)%(cluster_class fp l c k b Hl Hc Hk). by apply Hmin.
  - intros ms. rewrite Eq. case_bool_decide as Hnil; [done|]. intros [= <-].
    eexists _, _. split; [done|]. split_and!; [done| |done].
    intros t r. rewrite list_elem_of_fmap. split.
    + intros ([y r'] & [= -> ->] & Hy). exists y.2. split; [done|]. apply Hfol. by exists y.
    + intros (m & <- & (y & Hy & <-)%Hfol). by exists (y, r).
  - intros Hv. rewrite Eq. rewrite bool_decide_eq_false_2; [done|]. by destruct (valid_legs k c).
Qed.

Lemma members_NoDup (fp : Fingerprint) (l c : list Leg) (ms : list GroupMember) :
  by_fingerprint set !! fp = Some l → c ∈ time_clusters l → cluster_members c = Some ms →
  NoDup (map gm_turn_id ms) ∧ ∀ t, t ∈ map gm_turn_id ms → ∃ x, x ∈ c ∧ pc_turn_id x.2 = t.
Proof.
  intros Hl Hc E. destruct (bucket_clusters fp l Hl) as (Hin & Hndc & Hch & _).
  rewrite Forall_forall in Hch. destruct (pick_canonical_spec c) as (k & Ek & Hk & _); [by apply Hch|].
  assert (Hcin : ∀ y, y ∈ c → y ∈ enumerate set)
    by (intros y Hy; apply Hin, elem_of_concat; by exists c).
  rewrite (cluster_members_eq c k Ek Hk) in E. case_bool_decide; [done|]. injection E as <-. cbn [map gm_turn_id].
  assert (Hids : map gm_turn_id (map member_of (valid_legs k c))
    = map (λ l : Leg, pc_turn_id l.2) (map fst (valid_legs k c))).
  { rewrite !map_map. apply map_ext. by intros []. }
  rewrite Hids.
  assert (Hsub : ∀ x, x ∈ map fst (valid_legs k c) → x ∈ c ∧ x.1 ≠ k.1).
  { intros x ([y r] & -> & Hy)%list_elem_of_fmap. by apply elem_of_valid in Hy as (? & ? & _). }
  split.
  - constructor.
    + intros (x & Ex & [Hx Hn]%Hsub)%list_elem_of_fmap. apply Hn. f_equal.
      symmetry. apply (enumerate_snd set); [done|by apply Hcin..|done].
    + apply NoDup_fmap_2_strong.
      * intros x y [Hx _]%Hsub [Hy _]%Hsub Exy. apply (enumerate_snd set); [done|by apply Hcin..|done].
      * assert (Hc' : NoDup c).
        { apply list_elem_of_split in Hc as (c1 & c2 & Ec). rewrite Ec, concat_app in Hndc.
          apply NoDup_app in Hndc as (_ & _ & Hndc). by apply NoDup_app in Hndc as (? & _ & _). }
        clear -Hc'. unfold valid_legs. induction Hc' as [|x c Hx Hc IH]; [constructor|]. cbn.
        destruct (x.1 =? k.1)%nat; [done|]. destruct (role_beside k.2 x.2); [|done]. cbn. constructor; [|done].
        intros ([y r] & -> & (Hy & _)%elem_of_valid)%list_elem_of_fmap. done.
  - intros t [->|(x & -> & [Hx _]%Hsub)%list_elem_of_fmap]%elem_of_cons; [by exists k|by exists x].
Qed.
End Classes.

(** ** What is grouped *)

Section Exact.
Context {HI : HashIter Fingerprint (list Leg)} {HL : HashIterLaws Fingerprint (list Leg) HI} {U : UuidSupply}.

Lemma group_all_members (k : nat) (set : list PairCandidate) :
  map pg_members (group_all k set) = grouped_members set.
Proof.
  unfold group_all. generalize (grouped_members set). intros ls. generalize 0%nat.
  induction ls as [|l ls IH]; intros n; [done|]. cbn. by rewrite IH.
Qed.

Lemma grouped_elem (set : list PairCandidate) (ms : list GroupMember) :
  times_ok set →
  ms ∈ grouped_members set ↔
  ∃ fp l c, by_fingerprint set !! fp = Some l ∧ c ∈ time_clusters l ∧ cluster_members c = Some ms.
Proof.
  intros Hok. unfold grouped_members. rewrite list_elem_of_bind. split.
  - intros ([fp l] & Hm & Hl%elem_of_hash_iter). cbn [fst snd] in *.
    destruct (length l <? 2)%nat; [by apply elem_of_nil in Hm|].
    apply list_elem_of_omap in Hm as (c & Hc & E). by exists fp, l, c.
  - intros (fp & l & c & Hl & Hc & E). exists (fp, l). split; [|by apply elem_of_hash_iter]. cbn [fst snd].
    destruct (Nat.ltb_spec (length l) 2) as [Hlen|_]; [exfalso|by apply list_elem_of_omap; exists c].
    assert (Hlc : (length c <= length l)%nat).
    { destruct (time_clusters_spec l) as (Ec & _).
      { intros x Hx. apply (leg_start_ok set Hok).
        pose proof (bucket_spec set fp l Hl) as ->. by apply list_elem_of_filter in Hx as [_ Hx]. }
      rewrite <- (Permutation_length (sort_by_key_perm leg_start l)), <- Ec.
      apply list_elem_of_split in Hc as (c1 & c2 & ->). rewrite concat_app. cbn. rewrite !length_app. lia. }
    unfold cluster_members in E. by rewrite (proj2 (Nat.ltb_lt (length c) 2)) in E by lia.
Qed.

Lemma groups_NoDup (set : list PairCandidate) :
  NoDup (map pc_turn_id set) → times_ok set → NoDup (grouped_members set ≫= map gm_turn_id).
Proof.
  intros Hnd Hok.
  assert (Hleg : ∀ fp l c x, by_fingerprint set !! fp = Some l → c ∈ time_clusters l → x ∈ c →
    x ∈ enumerate set ∧ content_fingerprint x.2 = fp).
  { intros fp l c x Hl Hc Hx. apply (bucket_clusters set Hok fp l Hl), elem_of_concat. by exists c. }
  assert (E : grouped_members set ≫= map gm_turn_id = hash_iter (by_fingerprint set) ≫= λ fi,
    if (length fi.2 <? 2)%nat then []
    else time_clusters fi.2 ≫= λ c, map gm_turn_id (default [] (cluster_members c))).
  { unfold grouped_members. induction (hash_iter (by_fingerprint set)) as [|[fp l] fis IH]; [done|].
    rewrite !bind_cons, bind_app, IH. f_equal. cbn [fst snd]. destruct (length l <? 2)%nat; [done|].
    induction (time_clusters l) as [|c cs IHc]; [done|]. rewrite bind_cons, <- IHc. cbn [omap list_omap].
    by destruct (cluster_members c). }
  rewrite E. apply NoDup_bind.
  - intros [fp1 l1] [fp2 l2] t H1%elem_of_hash_iter H2%elem_of_hash_iter. cbn [fst snd].
    destruct (length l1 <? 2)%nat, (length l2 <? 2)%nat; try by intros ?%elem_of_nil.
    { by intros _ ?%elem_of_nil. }
    intros (c1 & Ht1 & Hc1)%list_elem_of_bind (c2 & Ht2 & Hc2)%list_elem_of_bind.
    destruct (cluster_members c1) as [m1|] eqn:E1; [|by apply elem_of_nil in Ht1].
    destruct (cluster_members c2) as [m2|] eqn:E2; [|by apply elem_of_nil in Ht2].
    apply (members_NoDup set Hnd Hok _ _ _ _ H1 Hc1 E1) in Ht1 as (x & Hx & Ex).
    apply (members_NoDup set Hnd Hok _ _ _ _ H2 Hc2 E2) in Ht2 as (y & Hy & Ey).
    apply (Hleg _ _ _ _ H1 Hc1) in Hx as [Hx <-]. apply (Hleg _ _ _ _ H2 Hc2) in Hy as [Hy <-].
    assert (x = y) as <- by (apply (enumerate_snd set); congruence). by rewrite H1 in H2; injection H2 as ->.
  - intros [fp l] Hl%elem_of_hash_iter. cbn [fst snd]. destruct (length l <? 2)%nat; [constructor|].
    destruct (bucket_clusters set Hok fp l Hl) as (_ & Hndc & Hch & Hfar). apply NoDup_bind.
    + intros c1 c2 t Hc1 Hc2 Ht1 Ht2.
      destruct (cluster_members c1) as [m1|] eqn:E1; [|by apply elem_of_nil in Ht1].
      destruct (cluster_members c2) as [m2|] eqn:E2; [|by apply elem_of_nil in Ht2].
      apply (members_NoDup set Hnd Hok _ _ _ _ Hl Hc1 E1) in Ht1 as (x & Hx & Ex).
      apply (members_NoDup set Hnd Hok _ _ _ _ Hl Hc2 E2) in Ht2 as (y & Hy & Ey).
      destruct (Hleg _ _ _ _ Hl Hc1 Hx) as [Hx' _], (Hleg _ _ _ _ Hl Hc2 Hy) as [Hy' _].
      assert (x = y) as <- by (apply (enumerate_snd set); congruence).
      apply (clusters_sep _ c1 c2 x x Hfar Hc1 Hc2 Hx Hy). rewrite Z.sub_diag. unfold MAX_REQ_TIME_GAP_US. lia.
    + intros c Hc. destruct (cluster_members c) as [ms|] eqn:Em; [|constructor].
      by apply (members_NoDup set Hnd Hok _ _ _ _ Hl Hc Em).
    + apply (concat_NoDup (time_clusters l)); [|done]. eapply Forall_impl; [exact Hch|by intros ? []].
  - apply (NoDup_fmap_1 fst), NoDup_hash_iter.
Qed.

Lemma grouped_group_of (set : list PairCandidate) (ms : list GroupMember) :
  NoDup (map pc_turn_id set) → times_ok set → ms ∈ grouped_members set → ∃ c, leads set c ∧ group_of set c ms.
Proof.
  intros Hnd Hok (fp & l & c & Hl & Hc & E)%grouped_elem; [|done].
  destruct (cluster_group set Hnd Hok fp l c Hl Hc) as (x & _ & Hx & _ & Hg & _). eauto.
Qed.

Lemma leader_has_group (set : list PairCandidate) (c m : PairCandidate) (r : ProxyRole) :
  NoDup (map pc_turn_id set) → times_ok set → leads set c → follows set c m r →
  ∃ ms, ms ∈ grouped_members set ∧ group_of set c ms.
Proof.
  intros Hnd Hok Hlead Hf.
  destruct (proj1 (enumerate_elem set c) (proj1 Hlead)) as (x & Hx & Ex).
  destruct (bucket_some set x Hx) as [l Hl]. destruct (bucket_clusters set Hok _ l Hl) as (Hin & _).
  assert (Hxc : x ∈ concat (time_clusters l)) by by apply Hin.
  apply elem_of_concat in Hxc as (cl & Hcl & Hxc).
  destruct (cluster_group set Hnd Hok _ l cl Hl Hcl) as (y & Hy & Hlead' & Hfol & Hg & Hsome).
  assert (E : y.2 = c).
  { subst c. apply (canon_le_antisym set _ _ Hnd); [apply Hlead'|apply Hlead| |].
    - apply Hlead'. apply (cluster_class set Hok _ l cl y _ Hl Hcl Hy). by exists x.
    - apply Hlead. apply (cluster_class set Hok _ l cl x _ Hl Hcl Hxc). by exists y. }
  rewrite E in *. destruct Hsome as [ms Ems].
  { apply Hfol in Hf as (z & Hz & _). by intros Hn; rewrite Hn in Hz; apply elem_of_nil in Hz. }
  exists ms. split; [|by apply Hg]. apply grouped_elem; [done|]. by exists (content_fingerprint x.2), l, cl.
Qed.

(** A group has two members at least, all of them candidates. *)
Lemma group_of_size (set : list PairCandidate) (c : PairCandidate) (ms : list GroupMember) :
  leads set c → group_of set c ms →
  (2 <= length ms)%nat ∧ ∀ t, t ∈ map gm_turn_id ms → t ∈ map pc_turn_id set.
Proof.
  intros [Hc _] (lead & rest & -> & Hne & Hrest & _). split; [destruct rest; [done|cbn; lia]|].
  intros t [->|(m & -> & Hm)%list_elem_of_fmap]%elem_of_cons; [by apply (list_elem_of_fmap_2 pc_turn_id)|].
  destruct m as [t r]. apply Hrest in Hm as (m & <- & Ht & _). apply (list_elem_of_fmap_2 pc_turn_id).
  unfold together in Ht. apply rtc_inv_r in Ht as [->|(x & _ & _ & Hm & _)]; done.
Qed.

(** The groups of any candidates: each is led by the first leg to start of a chain
    of turns with the same content, each close to another. *)
Lemma groups_of_chains (k : nat) (set : list PairCandidate) :
  NoDup (map pc_turn_id set) → times_ok set →
  let gs := map pg_members (group_all k set) in
  (∀ ms, ms ∈ gs → ∃ c, leads set c ∧ group_of set c ms) ∧
  (∀ c m r, leads set c → follows set c m r → ∃ ms, ms ∈ gs ∧ group_of set c ms) ∧
  NoDup (gs ≫= map gm_turn_id).
Proof.
  intros Hnd Hok. cbv zeta. rewrite group_all_members. split_and!.
  - intros ms. by apply grouped_group_of.
  - intros c m r. by apply leader_has_group.
  - by apply groups_NoDup.
Qed.

(** ** Groups without long chains, led by their widest leg *)

(** No chain of close turns outreaches the gap: any two turns of one are close. *)
Definition chains_close (set : list PairCandidate) : Prop :=
  ∀ a b c, near set a b → near set b c → near set a c.

(** One of the turns close to [a] starts first and ends last of them. *)
Definition spans_all (set : list PairCandidate) (e a : PairCandidate) : Prop :=
  ∀ b, near set a b → pc_start_time_us e <= pc_start_time_us b ∧ pc_end_time_us b <= pc_end_time_us e.
Definition widest_exists (set : list PairCandidate) : Prop :=
  ∀ a, a ∈ set → ∃ e, near set a e ∧ spans_all set e a.

(** [c] is the widest of the turns close to it, the least by id among equals. *)
Definition widest (set : list PairCandidate) (c : PairCandidate) : Prop :=
  c ∈ set ∧ spans_all set c c ∧
  ∀ b, near set c b → pc_start_time_us b = pc_start_time_us c → pc_end_time_us b = pc_end_time_us c →
    String.leb (pc_turn_id c) (pc_turn_id b) = true.

(** [m] is a copy of [c]'s call seen from elsewhere, in role [r]. *)
Definition duplicate_of (set : list PairCandidate) (c m : PairCandidate) (r : ProxyRole) : Prop :=
  near set c m ∧ m ≠ c ∧ pc_network_view m ≠ pc_network_view c ∧
  (r = MirrorSecondary ∧ mirrors c m ∨ r = ProxyOut ∧ ¬ mirrors c m).

Definition duplicates_group (set : list PairCandidate) (c : PairCandidate) (ms : list GroupMember) : Prop :=
  ∃ lead rest, ms = mkMember (pc_turn_id c) lead :: rest ∧ rest ≠ [] ∧
    (∀ t r, mkMember t r ∈ rest ↔ ∃ m, pc_turn_id m = t ∧ duplicate_of set c m r) ∧
    lead = (if existsb (λ m, bool_decide (gm_role m = ProxyOut)) rest then ProxyIn else MirrorPrimary).

Lemma near_refl (set : list PairCandidate) (a : PairCandidate) : a ∈ set → near set a a.
Proof. intros Ha. split_and!; [done..|]. unfold MAX_REQ_TIME_GAP_US. lia. Qed.

Lemma near_sym (set : list PairCandidate) (a b : PairCandidate) : near set a b → near set b a.
Proof. intros (? & ? & ? & ?). split_and!; [done..|lia]. Qed.

Lemma together_near (set : list PairCandidate) (a b : PairCandidate) :
  chains_close set → a ∈ set → together set a b ↔ near set a b.
Proof.
  intros Hc Ha. split; [|apply rtc_once]. induction 1 as [x|x y z Hxy _ IH]; [by apply near_refl|].
  apply (Hc x y z Hxy), IH. by destruct Hxy as (_ & ? & _).
Qed.

Lemma leads_widest (set : list PairCandidate) (c : PairCandidate) :
  chains_close set → widest_exists set → leads set c ↔ widest set c.
Proof.
  intros Hch Hw. split.
  - intros [Hc Hl]. destruct (Hw c Hc) as (e & Hce & He). split; [done|].
    destruct (He c (near_refl _ _ Hc)) as [Hs Hd].
    assert (Hle : canon_le c e) by (apply Hl; by apply together_near).
    assert (Heq : pc_start_time_us c = pc_start_time_us e ∧ pc_end_time_us c = pc_end_time_us e).
    { destruct Hle as [?|(? & [?|[? _]])]; lia. }
    destruct Heq as [Es Ee]. split.
    + intros b Hb. rewrite Es, Ee. by apply He.
    + intros b Hb Eb Eb'. assert (Hcb : canon_le c b) by (apply Hl; by apply together_near).
      destruct Hcb as [?|(_ & [?|[_ ?]])]; [lia|lia|done].
  - intros (Hc & Hs & Hid). split; [done|]. intros b Hb%together_near; [|done..].
    destruct (Hs b Hb) as [Hb1 Hb2]. unfold canon_le.
    destruct (decide (pc_start_time_us b = pc_start_time_us c)) as [E|]; [|left; lia].
    destruct (decide (pc_end_time_us b = pc_end_time_us c)) as [E'|]; [|right; lia].
    right. split; [lia|]. right. split; [lia|]. by apply Hid.
Qed.

Lemma follows_duplicate (set : list PairCandidate) (c m : PairCandidate) (r : ProxyRole) :
  chains_close set → widest set c → follows set c m r ↔ duplicate_of set c m r.
Proof.
  intros Hch (Hc & Hs & _). unfold follows, duplicate_of, role_under. rewrite together_near by done.
  split; [naive_solver|]. intros (Hn & Hm & Hv & Hr). split_and!; [done..|].
  destruct Hr as [?|[-> Hr]]; [by left|]. right. split; [done|]. split; [done|by apply Hs].
Qed.

(** C24: where closeness in time does not chain beyond the gap, and each lot of
    close turns has one that starts first and ends last, pairing finds exactly
    the duplicates: each group is led by the widest leg of such a lot, the least
    by id among equals, and holds with it precisely the other turns of the lot
    that were seen from elsewhere, as mirrors of it or as hops within it; every
    widest leg with such a turn has its group, any two members of a group start
    within the gap, no turn is in two groups, and none of this depends on the
    order of the candidates or of the hash map. *)
Theorem proxy_groups_exact :
  ∀ (k : nat) (set : list PairCandidate),
    NoDup (map pc_turn_id set) → times_ok set → chains_close set → widest_exists set →
    let gs := map pg_members (group_all k set) in
    (∀ ms, ms ∈ gs → ∃ c, widest set c ∧ duplicates_group set c ms) ∧
    (∀ c m r, widest set c → duplicate_of set c m r → ∃ ms, ms ∈ gs ∧ duplicates_group set c ms) ∧
    (∀ ms m1 m2, ms ∈ gs → m1 ∈ ms → m2 ∈ ms →
       ∃ a b, a ∈ set ∧ b ∈ set ∧ pc_turn_id a = gm_turn_id m1 ∧ pc_turn_id b = gm_turn_id m2 ∧
         content_fingerprint a = content_fingerprint b ∧
         Z.abs (pc_start_time_us a - pc_start_time_us b) <= MAX_REQ_TIME_GAP_US) ∧
    NoDup (gs ≫= map gm_turn_id).
Proof.
  intros k set Hnd Hok Hch Hw. destruct (groups_of_chains k set Hnd Hok) as (H1 & H2 & H3).
  assert (Hg : ∀ c ms, widest set c → group_of set c ms ↔ duplicates_group set c ms).
  { intros c ms Hc. unfold group_of, duplicates_group.
    split; intros (lead & rest & -> & Hne & Hr & Hl); exists lead, rest; split_and!; try done;
      intros t r; rewrite Hr; split; intros (m & Hm & Hf); exists m; (split; [done|]);
      by apply (follows_duplicate set c m r Hch Hc). }
  assert (H1' : ∀ ms, ms ∈ map pg_members (group_all k set) → ∃ c, widest set c ∧ duplicates_group set c ms).
  { intros ms (c & Hc%leads_widest & Hms)%H1; [|done..]. exists c. split; [done|]. by apply Hg. }
  split_and!; [done| | |done].
  - intros c m r Hc Hd. destruct (H2 c m r) as (ms & Hms & Hgr);
      [by apply leads_widest|by apply follows_duplicate|]. exists ms. split; [done|]. by apply Hg.
  - intros ms m1 m2 Hms Hm1 Hm2. destruct (H1' ms Hms) as (c & Hc & lead & rest & -> & _ & Hr & _).
    assert (Hx : ∀ x, x ∈ mkMember (pc_turn_id c) lead :: rest → ∃ a, pc_turn_id a = gm_turn_id x ∧ near set c a).
    { intros x [->|Hx]%elem_of_cons; [exists c; split; [done|]; apply near_refl, Hc|].
      destruct x as [t r]. apply Hr in Hx as (m & Hm & Hn & _). by exists m. }
    destruct (Hx m1 Hm1) as (a & Ea & Ha), (Hx m2 Hm2) as (b & Eb & Hb).
    destruct (Hch a c b (near_sym _ _ _ Ha) Hb) as (? & ? & ? & ?). by exists a, b.
Qed.
End Exact.

(** ** Concrete legs *)

#[local] Instance sample_legs_iter : HashIter Fingerprint (list Leg) := hash_iter_std Fingerprint (list Leg).
#[local] Instance sample_legs_laws : HashIterLaws Fingerprint (list Leg) sample_legs_iter.
Proof. apply hash_iter_std_laws. Qed.

Definition sample_leg (id : string) (start_us end_us : Z) (view : string) : PairCandidate :=
  mkPair id "S" "openclaw" "openai-chat" start_us end_us 1 11345 128 (Some "stop"%string) (Some "GLM"%string) view.

(** A proxied call: seen on two interfaces on its way in, and once on its way out. *)
Definition sample_legs : list PairCandidate :=
  [sample_leg "out" 3000 9000 "c->d"; sample_leg "b" 1000 10000 "a->b"; sample_leg "h" 1100 9900 "e->f"]%string.

Example sample_group :
  map (λ m, (gm_turn_id m, gm_role m)) <$> head (grouped_members sample_legs)
  = Some [("b", ProxyIn); ("h", MirrorSecondary); ("out", ProxyOut)]%string.
Proof. vm_compute. reflexivity. Qed.

Lemma sample_legs_ok : times_ok sample_legs.
Proof.
  intros c Hc. unfold sample_legs in Hc. rewrite !elem_of_cons, elem_of_nil in Hc.
  destruct Hc as [->|[->|[->|[]]]]; cbn; lia.
Qed.

Lemma sample_legs_near (a b : PairCandidate) : a ∈ sample_legs → b ∈ sample_legs → near sample_legs a b.
Proof.
  intros Ha Hb. split; [done|]. split; [done|]. unfold sample_legs in Ha, Hb.
  rewrite !elem_of_cons, elem_of_nil in Ha, Hb.
  destruct Ha as [->|[->|[->|[]]]], Hb as [->|[->|[->|[]]]]; split; vm_compute; congruence.
Qed.

Lemma proxy_groups_exact_witness :
  NoDup (map pc_turn_id sample_legs) ∧
  (∃ ms, ms ∈ map pg_members (group_all 0 sample_legs) ∧ mkMember "out" ProxyOut ∈ ms) ∧
  NoDup (map pg_members (group_all 0 sample_legs) ≫= map gm_turn_id).
Proof.
  assert (Hnd : NoDup (map pc_turn_id sample_legs)) by (apply (proj1 (bool_decide_eq_true _)); vm_compute; reflexivity).
  assert (Hc : chains_close sample_legs).
  { intros a b c (Ha & _) (_ & Hc & _). by apply sample_legs_near. }
  set (lead := sample_leg "b" 1000 10000 "a->b").
  assert (Hl : lead ∈ sample_legs) by (right; left).
  assert (Hspan : ∀ a, spans_all sample_legs lead a).
  { intros a b (_ & Hb & _). unfold sample_legs in Hb. rewrite !elem_of_cons, elem_of_nil in Hb.
    destruct Hb as [->|[->|[->|[]]]]; cbn; lia. }
  assert (Hw : widest_exists sample_legs).
  { intros a Ha. exists lead. split; [by apply sample_legs_near|apply Hspan]. }
  destruct (proxy_groups_exact 0 sample_legs Hnd sample_legs_ok Hc Hw) as (_ & H2 & _ & H4).
  split; [exact Hnd|]. split; [|exact H4].
  assert (Hd : duplicate_of sample_legs lead (sample_leg "out" 3000 9000 "c->d") ProxyOut).
  { split; [apply sample_legs_near; [done|left]|]. split; [discriminate|]. split; [discriminate|]. right.
    split; [done|]. intros [H _]. vm_compute in H. by apply H. }
  destruct (H2 lead (sample_leg "out" 3000 9000 "c->d") ProxyOut) as (ms & Hms & (ld & rest & -> & _ & Hr & _)).
  - split; [exact Hl|]. split; [apply Hspan|]. intros b (_ & Hb & _). unfold sample_legs in Hb.
    rewrite !elem_of_cons, elem_of_nil in Hb. destruct Hb as [->|[->|[->|[]]]]; cbn; try lia. done.
  - exact Hd.
  - exists (mkMember "b" ld :: rest). split; [exact Hms|]. right. apply Hr. by exists (sample_leg "out" 3000 9000 "c->d").
Defined.

(** The leg with the widest span is not the one that leads: one that starts a
    moment earlier and ends at once does, and then they are no pair. *)
Example widest_leg_unpaired :
  grouped_members [sample_leg "wide" 1100 900000 "a->b"; sample_leg "brief" 1000 2000 "c->d"]%string = [].
Proof. vm_compute. reflexivity. Qed.

(** The times of a candidate read back from the DuckDB store, to the millisecond. *)
Definition row_us (us : Z) : Z := tdiv us 1000 * 1000.

(** Two copies of one packet, one microsecond apart, are a mirror; read back from
    the store they can be a millisecond apart, and one becomes a proxy hop. *)
Example truncated_mirror_is_a_hop :
  role_beside (sample_leg "b" 1999 9999 "a->b") (sample_leg "h" 2000 9999 "e->f") = Some MirrorSecondary ∧
  role_beside (sample_leg "b" (row_us 1999) (row_us 9999) "a->b")
    (sample_leg "h" (row_us 2000) (row_us 9999) "e->f") = Some ProxyOut.
Proof. by vm_compute. Qed.
