(* ===== verification/JsonSample.v ===== *)
(** * A concrete JSON library

    An instance of the classes of [Json] for the witnesses: integer numbers, and
    a prefix notation in ASCII letters that its reader reads back.  It stands
    for no text format. *)

From Stdlib Require Import Strings.Byte Strings.String ZArith Lia.
From stdpp Require Import base gmap sets list strings countable.
From S2P Require Import Prelude.
From S2P Require Import Text.
From S2P Require Import Json.

Open Scope Z_scope.

(** ** Bytes as two letters, texts ended by a dot *)

Definition letter (n : N) : byte := default x00 (Byte.of_N (97 + n)).
Definition letter_val (b : byte) : N := (Byte.to_N b - 97)%N.

Fixpoint print_text (t : text) : text :=
  match t with
  | [] => [x2e]
  | b :: t => letter (Byte.to_N b / 16) :: letter (Byte.to_N b mod 16) :: print_text t
  end.
Fixpoint read_text (t : text) : option (text * text) :=
  match t with
  | x2e :: r => Some ([], r)
  | h :: l :: r =>
      match read_text r with
      | Some (s, r') => Some (default x00 (Byte.of_N (letter_val h * 16 + letter_val l)) :: s, r')
      | None => None
      end
  | _ => None
  end.

Fixpoint print_pos (p : positive) : text :=
  match p with xH => [x2e] | xO p => x30 :: print_pos p | xI p => x31 :: print_pos p end.
Fixpoint read_pos (t : text) : option (positive * text) :=
  match t with
  | x2e :: r => Some (xH, r)
  | b :: r => match read_pos r with
              | Some (p, r') => Some ((if bool_decide (b = x30) then xO p else xI p), r')
              | None => None
              end
  | [] => None
  end.

#[global] Instance sample_json_number : JsonNumber := {|
  number := Z;
  number_as_u64 := λ n, match n with
    | Z0 => Some 0
    | Zpos p => if (Pos.size_nat p <=? 64)%nat then Some n else None
    | Zneg _ => None
    end;
  number_is_int := λ _, true;
  number_of_u64 := λ n, n;
  number_show := λ n, match n with Z0 => [x7a] | Zpos p => print_pos p | Zneg p => x6d :: print_pos p end;
|}.

Lemma size_nat_le (k : nat) (p : positive) : Zpos p < 2 ^ Z.of_nat k → (Pos.size_nat p <= k)%nat.
Proof.
  revert p; induction k as [|k IH]; intros p Hp; [cbn in Hp; lia|].
  rewrite Nat2Z.inj_succ, Z.pow_succ_r in Hp by lia.
  destruct p as [p|p|]; cbn [Pos.size_nat]; [| |lia]; apply le_n_S, IH; lia.
Qed.

#[global] Instance sample_json_number_laws : JsonNumberLaws sample_json_number.
Proof.
  split; [|done]. intros [|p|p] Hn; [done| |lia]. cbn [number_as_u64 sample_json_number number_of_u64].
  rewrite (proj2 (Nat.leb_le _ _)); [done|]. apply size_nat_le. change (Z.of_nat 64) with 64. lia.
Qed.

(** ** Values *)

Fixpoint print (v : Value) : text :=
  match v with
  | Null => [x6e]
  | Bool true => [x74]
  | Bool false => [x66]
  | Number 0 => [x7a]
  | Number (Zpos p) => x70 :: print_pos p
  | Number (Zneg p) => x6d :: print_pos p
  | Str s => x73 :: print_text s
  | Array l => x5b :: concat (map print l) ++ [x5d]
  | Object m => x7b :: concat (map (λ kv, x73 :: print_text (B kv.1) ++ print kv.2) m) ++ [x7d]
  end.

(** Items read one after another up to a closing byte. *)
Section until.
Context {A : Type} (close : byte) (item : text → option (A * text)).

Fixpoint read_until (n : nat) (r : text) : option (list A * text) :=
  match n, r with
  | S n, b :: r' =>
      if bool_decide (b = close) then Some ([], r')
      else match item r with
           | Some (x, r1) =>
               match read_until n r1 with Some (l, r2) => Some (x :: l, r2) | None => None end
           | None => None
           end
  | _, _ => None
  end.

Lemma read_until_print (pr : A → text) (l : list A) (n : nat) (r : text) :
  Forall (λ x, (∃ b t, pr x = b :: t ∧ b ≠ close) ∧ ∀ r, item (pr x ++ r) = Some (x, r)) l →
  (length (concat (map pr l) ++ [close]) <= n)%nat →
  read_until n (concat (map pr l) ++ close :: r) = Some (l, r).
Proof.
  intros Hl; revert n; induction Hl as [|x l [(b & t & E & Hb) Hx] Hl IH]; intros [|n] Hn;
    try (rewrite length_app in Hn; cbn in Hn; lia).
  - cbn. by rewrite bool_decide_true.
  - cbn [map concat] in Hn |- *. rewrite <-(app_assoc (pr x)). specialize (Hx (concat (map pr l) ++ close :: r)).
    rewrite E in *. cbn [app read_until] in *. rewrite bool_decide_false by done.
    rewrite Hx, IH; [done|]. cbn in Hn. rewrite !length_app in *. lia.
Qed.
End until.

Definition read_entry (rd : text → option (Value * text)) (r : text) : option ((string * Value) * text) :=
  match r with
  | _ :: r0 =>
      match read_text r0 with
      | Some (k, r1) => match rd r1 with Some (v, r2) => Some ((str k, v), r2) | None => None end
      | None => None
      end
  | [] => None
  end.

Fixpoint read (fuel : nat) (t : text) : option (Value * text) :=
  match fuel, t with
  | S f, x6e :: r => Some (Null, r)
  | S f, x74 :: r => Some (Bool true, r)
  | S f, x66 :: r => Some (Bool false, r)
  | S f, x7a :: r => Some (Number 0, r)
  | S f, x70 :: r => prod_map (λ p, Number (Zpos p)) id <$> read_pos r
  | S f, x6d :: r => prod_map (λ p, Number (Zneg p)) id <$> read_pos r
  | S f, x73 :: r => prod_map Str id <$> read_text r
  | S f, x5b :: r => prod_map Array id <$> read_until x5d (read f) (length t) r
  | S f, x7b :: r => prod_map Object id <$> read_until x7d (read_entry (read f)) (length t) r
  | _, _ => None
  end.

Lemma letters (b : byte) :
  letter (Byte.to_N b / 16) ≠ x2e ∧
  default x00 (Byte.of_N (letter_val (letter (Byte.to_N b / 16)) * 16
                          + letter_val (letter (Byte.to_N b mod 16)))) = b ∧
  byteZ (letter (Byte.to_N b / 16)) < 0x80 ∧ byteZ (letter (Byte.to_N b mod 16)) < 0x80.
Proof. by destruct b; vm_compute. Qed.

Lemma read_print_text (s r : text) : read_text (print_text s ++ r) = Some (s, r).
Proof.
  induction s as [|b s IH]; [done|]. cbn [print_text app]. cbn [read_text].
  destruct (letters b) as (H1 & H2 & _). rewrite IH, H2.
  by destruct (letter (Byte.to_N b / 16)).
Qed.

Lemma read_print_pos (p : positive) (r : text) : read_pos (print_pos p ++ r) = Some (p, r).
Proof. induction p as [p IH|p IH|]; cbn; by rewrite ?IH. Qed.

Lemma print_cons (v : Value) : ∃ b t, print v = b :: t ∧ b ≠ x5d.
Proof. destruct v as [|[]|[]| | |]; cbn; by eexists _, _. Qed.

Lemma concat_map_le {A} (f : A → text) (l : list A) (x : A) :
  x ∈ l → (length (f x) <= length (concat (map f l)))%nat.
Proof.
  induction 1 as [|x y l _ IH]; cbn [map concat]; rewrite length_app; lia.
Qed.

Lemma read_print (v : Value) (fuel : nat) (r : text) :
  (length (print v) <= fuel)%nat → read fuel (print v ++ r) = Some (v, r).
Proof.
  revert fuel r; induction v as [|b|n|s|l IH|m IH] using Value_ind; intros [|f] r Hf;
    try (cbn in Hf; repeat case_match; cbn in Hf; lia); try done.
  - by destruct b.
  - destruct n; cbn; by rewrite ?read_print_pos.
  - cbn. by rewrite read_print_text.
  - cbn [print length] in Hf. cbn [print app read]. rewrite <-app_assoc. cbn [app].
    rewrite read_until_print; [done| |cbn [length]; rewrite !length_app; cbn; lia].
    apply Forall_forall. intros x Hx. split; [apply print_cons|intros r'].
    rewrite Forall_forall in IH. apply (IH x Hx).
    apply list_elem_of_In, (concat_map_le print) in Hx. rewrite length_app in Hf. lia.
  - cbn [print length] in Hf. cbn [print app read]. rewrite <-app_assoc. cbn [app].
    rewrite read_until_print; [done| |cbn [length]; rewrite !length_app; cbn; lia].
    apply Forall_forall. intros [k x] Hx. split; [by eexists _, _|intros r'].
    cbn [fst snd app read_entry]. rewrite <-app_assoc, read_print_text.
    rewrite Forall_forall in IH. rewrite (IH (k, x) Hx), str_B; [done|].
    apply list_elem_of_In, (concat_map_le (λ kv, x73 :: print_text (B kv.1) ++ print kv.2)) in Hx.
    cbn [fst snd length] in Hx. rewrite length_app in Hx, Hf. cbn [snd]. lia.
Qed.

(** Every printed byte is ASCII, so what is printed is UTF-8. *)
Lemma print_ascii (v : Value) : Forall (λ b, byteZ b < 0x80) (print v).
Proof.
  assert (Ht : ∀ s, Forall (λ b, byteZ b < 0x80) (print_text s)).
  { induction s as [|b s IH]; cbn [print_text]; [by repeat constructor|].
    destruct (letters b) as (_ & _ & ? & ?). by repeat constructor. }
  assert (Hp : ∀ p, Forall (λ b, byteZ b < 0x80) (print_pos p)) by (induction p; by constructor).
  induction v as [|[]|[]|s|l IH|m IH] using Value_ind; cbn [print]; repeat (constructor; [done|]); auto.
  - apply Forall_app. split; [|by repeat constructor].
    apply Forall_concat, Forall_map. done.
  - apply Forall_app. split; [|by repeat constructor].
    apply Forall_concat, Forall_map. eapply list.Forall_impl; [exact IH|]. cbn. intros kv H.
    constructor; [done|]. apply Forall_app. auto.
Qed.

#[global] Instance sample_json_text : JsonText := {|
  from_slice := λ t,
    if utf8_valid t then match read (length t) t with Some (v, []) => Some v | _ => None end else None;
  to_string := print;
  string_to_json := λ t, t;
|}.

Lemma sample_from_to (v : Value) : from_slice (to_string v) = Some v.
Proof.
  cbn [from_slice to_string sample_json_text]. rewrite (utf8_valid_ascii _ (print_ascii v)).
  pose proof (read_print v (length (print v)) [] (le_n _)) as H.
  by rewrite app_nil_r in H; rewrite H.
Qed.

#[global] Instance sample_json_text_laws : JsonTextLaws sample_json_text.
Proof.
  split; [intros v _ _; apply sample_from_to| |].
  - intros v. apply utf8_valid_ascii, print_ascii.
  - intros t v. cbn. by destruct (utf8_valid t).
Qed.
