(* ===== verification/Sweeper.v ===== *)
(** * The pair sweeper (h-storage/src/pair_sweeper.rs)

    A sweep asks the store for the turns of a window without a role, groups them,
    and writes each group's annotation to its members.  The store is known by the
    two operations of its trait and what their documentation promises. *)

From Stdlib Require Import Strings.Byte Strings.String ZArith Lia.
From stdpp Require Import base gmap sets list strings relations sorting.
From S2P Require Import Prelude.
From S2P Require Import Net.
From S2P Require Import Text.
From S2P Require Import Counters.
From S2P Require Import Joiner.
From S2P Require Import Json.
From S2P Require Import JsonSample.
From S2P Require Import ProxyPair.

Open Scope Z_scope.

(** Where sweeping meets the store: a query answers [None] on an error, an update
    says whether it succeeded, and the store goes on from either. *)
Class PairStore (St : Type) `{JN : JsonNumber} : Type := {
  query_pair_candidates : St → Z → Z → St * option (list PairCandidate);
  update_trace_metadata : St → string → Value → St * bool;
}.

(** [metadata.proxy.role] of a patch. *)
Definition patch_role `{JN : JsonNumber} (patch : Value) : option text := get "proxy" patch ▷ get_str "role".

(** The documented behaviour: a query that succeeds projects the turns that start
    in the window and have no role, and changes nothing; a patch with a role that
    succeeds gives its turn one; one that fails may have done so or not; and
    nothing else of what the query sees is touched. *)
Class PairStoreLaws (St : Type) `{JN : JsonNumber} (PS : PairStore St) : Type := {
  stored_turns : St → list PairCandidate;
  has_role : St → string → bool;
  query_keeps (s : St) (a b : Z) :
    stored_turns (query_pair_candidates s a b).1 = stored_turns s ∧
    ∀ u, has_role (query_pair_candidates s a b).1 u = has_role s u;
  query_spec (s : St) (a b : Z) (l : list PairCandidate) :
    (query_pair_candidates s a b).2 = Some l →
    l = filter (λ c, a <= pc_start_time_us c < b ∧ has_role s (pc_turn_id c) = false) (stored_turns s);
  update_spec (s : St) (t : string) (patch : Value) :
    is_Some (patch_role patch) →
    stored_turns (update_trace_metadata s t patch).1 = stored_turns s ∧
    ∃ landed : bool, ((update_trace_metadata s t patch).2 = true → landed = true) ∧
      ∀ u, has_role (update_trace_metadata s t patch).1 u = (landed && String.eqb u t) || has_role s u;
}.

Record SweepStats : Type := mkSweepStats {
  candidates_scanned : nat;
  pairs_assigned : nat;
  turns_tagged : nat;
}.

Section Sweep.
Context `{JN : JsonNumber} {St : Type} `{PS : !PairStore St}.
Context {HI : HashIter Fingerprint (list Leg)} {U : UuidSupply}.

(** The members of one group in turn.  [?] returns with what was written so far;
    [expect] panics on a member without metadata. *)
Fixpoint tag_members (s : St) (g : ProxyGroup) (ms : list GroupMember) (tagged : nat)
    : St * res (option nat) :=
  match ms with
  | [] => (s, Ret (Some tagged))
  | m :: ms' =>
      match metadata_for g (gm_turn_id m) with
      | None => (s, Panic)
      | Some patch =>
          let '(s', ok) := update_trace_metadata s (gm_turn_id m) patch in
          if ok then tag_members s' g ms' (tagged + 1) else (s', Ret None)
      end
  end.

Fixpoint tag_groups (s : St) (gs : list ProxyGroup) (tagged : nat) : St * res (option nat) :=
  match gs with
  | [] => (s, Ret (Some tagged))
  | g :: gs' =>
      match tag_members s g (pg_members g) tagged with
      | (s', Ret (Some n)) => tag_groups s' gs' n
      | r => r
      end
  end.

(** One sweep at [now_us], the [k]-th identifier being the next. *)
Definition sweep_once (k : nat) (s : St) (now_us lookback_us : Z) : St * res (option SweepStats) :=
  match query_pair_candidates s (i64_sub now_us lookback_us) now_us with
  | (s, None) => (s, Ret None)
  | (s, Some candidates) =>
      let groups := group_all k candidates in
      match tag_groups s groups 0 with
      | (s', Ret (Some n)) => (s', Ret (Some (mkSweepStats (length candidates) (length groups) n)))
      | (s', Ret None) => (s', Ret None)
      | (s', Panic) => (s', Panic)
      | (s', OutOfFuel) => (s', OutOfFuel)
      end
  end.

(** Sweeps one after the other, each with the time it runs at. *)
Fixpoint sweep_all (k : nat) (s : St) (lookback_us : Z) (times : list Z) : St * list (res (option SweepStats)) :=
  match times with
  | [] => (s, [])
  | now_us :: times' =>
      let '(s1, r) := sweep_once k s now_us lookback_us in
      let k1 := match r with Ret (Some st) => k + pairs_assigned st | _ => k end%nat in
      let '(s2, rs) := sweep_all k1 s1 lookback_us times' in
      (s2, r :: rs)
  end.
End Sweep.

(** ** A sweep tags its groups *)

Lemma metadata_role `{JN : JsonNumber} (g : ProxyGroup) (t : string) :
  t ∈ map gm_turn_id (pg_members g) → ∃ patch, metadata_for g t = Some patch ∧ is_Some (patch_role patch).
Proof.
  intros (m & -> & Hm)%list_elem_of_fmap. unfold metadata_for.
  destruct (List.find _ (pg_members g)) as [me|] eqn:E.
  - eexists. split; [done|]. unfold patch_role. by rewrite !get_obj.
  - apply list_elem_of_In in Hm. pose proof (List.find_none _ _ E m Hm) as Hf. cbn in Hf. by rewrite String.eqb_refl in Hf.
Qed.

Section Laws.
Context `{JN : JsonNumber} {St : Type} `{PS : !PairStore St} {PL : PairStoreLaws St PS}.
Context {HI : HashIter Fingerprint (list Leg)} {HL : HashIterLaws Fingerprint (list Leg) HI} {U : UuidSupply}.

(** [s'] is [s] with a role for each of [ts]. *)
Definition tagged_with (s s' : St) (ts : list string) : Prop :=
  stored_turns s' = stored_turns s ∧ ∀ u, has_role s' u = bool_decide (u ∈ ts) || has_role s u.

Lemma tagged_nil (s : St) : tagged_with s s [].
Proof. split; [done|]. intros u. by rewrite bool_decide_eq_false_2 by apply not_elem_of_nil. Qed.

Lemma tagged_trans (s1 s2 s3 : St) (a b : list string) :
  tagged_with s1 s2 a → tagged_with s2 s3 b → tagged_with s1 s3 (a ++ b).
Proof.
  intros [E1 H1] [E2 H2]. split; [congruence|]. intros u. rewrite H2, H1.
  rewrite (bool_decide_ext (u ∈ a ++ b) (u ∈ a ∨ u ∈ b)) by apply elem_of_app.
  rewrite bool_decide_or. by destruct (bool_decide (u ∈ a)), (bool_decide (u ∈ b)).
Qed.

(** The writes of a list of members: all of them, or those before a failure and
    perhaps the one that failed. *)
Definition written (s : St) (ts : list string) (n : nat) (out : St * res (option nat)) : Prop :=
  ∃ done, done `prefix_of` ts ∧ tagged_with s out.1 done ∧
    (out.2 = Ret None ∨ out.2 = Ret (Some (n + length ts)%nat) ∧ done = ts).

Lemma tag_members_spec (g : ProxyGroup) (ms : list GroupMember) (s : St) (n : nat) :
  (∀ m, m ∈ ms → m ∈ pg_members g) → written s (map gm_turn_id ms) n (tag_members s g ms n).
Proof.
  revert s n; induction ms as [|m ms IH]; intros s n Hin; cbn [tag_members map].
  { exists []. split; [done|]. split; [apply tagged_nil|]. right. by rewrite Nat.add_0_r. }
  destruct (metadata_role g (gm_turn_id m)) as (patch & -> & Hr).
  { apply list_elem_of_fmap_2, Hin. by left. }
  destruct (update_spec s (gm_turn_id m) patch Hr) as (E1 & landed & Hok & H1).
  destruct (update_trace_metadata s (gm_turn_id m) patch) as [s1 ok]. cbn [fst snd] in *.
  assert (Hs1 : tagged_with s s1 (if landed then [gm_turn_id m] else [])).
  { split; [done|]. intros u. rewrite H1. f_equal. destruct landed; cbn [andb].
    - destruct (String.eqb_spec u (gm_turn_id m)) as [->|Hn]; symmetry.
      + by apply bool_decide_eq_true_2, list_elem_of_singleton.
      + by apply bool_decide_eq_false_2; rewrite list_elem_of_singleton.
    - symmetry. apply bool_decide_eq_false_2, not_elem_of_nil. }
  destruct ok; cbn [fst snd].
  - rewrite (Hok eq_refl) in Hs1. destruct (IH s1 (n + 1)%nat) as (ts & Hp & Ht & Hr'); [intros; apply Hin; by right|].
    exists (gm_turn_id m :: ts). split; [by apply prefix_cons|]. split; [by apply (tagged_trans s s1 _ [gm_turn_id m])|].
    destruct Hr' as [->|[-> ->]]; [by left|]. right. split; [|done]. cbn [length]. do 2 f_equal. lia.
  - exists (if landed then [gm_turn_id m] else []). split; [|split; [done|by left]].
    destruct landed; [apply prefix_cons|]; apply prefix_nil.
Qed.

Lemma tag_groups_spec (gs : list ProxyGroup) (s : St) (n : nat) :
  written s (map pg_members gs ≫= map gm_turn_id) n (tag_groups s gs n).
Proof.
  revert s n; induction gs as [|g gs IH]; intros s n; cbn [tag_groups map].
  { exists []. split; [done|]. split; [apply tagged_nil|]. right. cbn. by rewrite Nat.add_0_r. }
  rewrite bind_cons. destruct (tag_members_spec g (pg_members g) s n) as (ts & Hp & Ht & Hr); [done|].
  destruct (tag_members s g (pg_members g) n) as [s1 r]. cbn [fst snd] in *.
  destruct Hr as [->|[-> ->]].
  - exists ts. split; [by apply prefix_app_r|]. split; [done|by left].
  - rewrite length_map. destruct (IH s1 (n + length (pg_members g))%nat) as (ts & Hp2 & Ht2 & Hr).
    exists (map gm_turn_id (pg_members g) ++ ts). split; [by apply prefix_app|].
    split; [by apply (tagged_trans s s1)|]. destruct Hr as [->|[-> ->]]; [by left|]. right. split; [|done].
    rewrite length_app, length_map. do 2 f_equal. lia.
Qed.

(** Every call to the store succeeds. *)
Definition store_answers : Prop :=
  (∀ s a b, (query_pair_candidates s a b).2 ≠ None) ∧
  ∀ s t patch, (update_trace_metadata s t patch).2 = true.

Lemma tag_groups_answers (gs : list ProxyGroup) (s : St) (n : nat) :
  store_answers → (tag_groups s gs n).2 ≠ Ret None.
Proof.
  intros [_ Hu]. revert s n; induction gs as [|g gs IH]; intros s n; [done|]. cbn [tag_groups].
  assert (Hm : ∀ ms s n, (tag_members s g ms n).2 ≠ Ret None).
  { induction ms as [|m ms IHm]; intros s0 n0; [done|]. cbn [tag_members]. destruct (metadata_for _ _) as [patch|]; [|done].
    specialize (Hu s0 (gm_turn_id m) patch). destruct (update_trace_metadata _ _ _) as [s1 ok]. cbn in Hu. subst ok. apply IHm. }
  specialize (Hm (pg_members g) s n). destruct (tag_members _ _ _ _) as [s1 [[n1|]| |]]; cbn in *; try done.
Qed.

Definition untagged (s : St) : list PairCandidate :=
  filter (λ c, has_role s (pc_turn_id c) = false) (stored_turns s).

Lemma NoDup_map_filter {A B} (f : A → B) (P : A → Prop) `{!∀ x, Decision (P x)} (l : list A) :
  NoDup (map f l) → NoDup (map f (filter P l)).
Proof. intros Hd. apply (sublist_NoDup _ (map f l)); [done|]. apply (fmap_sublist f), sublist_filter. Qed.

Lemma untagged_drop (s s' : St) (ts : list string) :
  NoDup (map pc_turn_id (stored_turns s)) → tagged_with s s' ts → NoDup ts →
  (∀ t, t ∈ ts → t ∈ map pc_turn_id (untagged s)) →
  length (untagged s) = (length (untagged s') + length ts)%nat.
Proof.
  intros Hnd [Es Hr] Hts Hin. rewrite <- (length_map pc_turn_id (untagged s)), <- (length_map pc_turn_id (untagged s')).
  rewrite <- length_app. apply Permutation_length, NoDup_Permutation.
  - by apply NoDup_map_filter.
  - apply NoDup_app. split_and!; [| |done].
    + apply NoDup_map_filter. by rewrite Es.
    + intros t (c & -> & [Hc _]%list_elem_of_filter)%list_elem_of_fmap Ht. rewrite Hr in Hc.
      by rewrite bool_decide_eq_true_2 in Hc.
  - intros t. rewrite elem_of_app. split.
    + intros (c & -> & [Hc Hs]%list_elem_of_filter)%list_elem_of_fmap. destruct (decide (pc_turn_id c ∈ ts)); [by right|].
      left. apply (list_elem_of_fmap_2 pc_turn_id), list_elem_of_filter. rewrite Hr, bool_decide_eq_false_2, Es; done.
    + intros [(c & -> & [Hc Hs]%list_elem_of_filter)%list_elem_of_fmap|Ht]; [|by apply Hin].
      apply (list_elem_of_fmap_2 pc_turn_id), list_elem_of_filter. rewrite Es in Hs. split; [|done].
      rewrite Hr in Hc. by destruct (bool_decide _) in Hc.
Qed.

Definition store_ok (s : St) : Prop := NoDup (map pc_turn_id (stored_turns s)) ∧ times_ok (stored_turns s).

(** What a sweep from [s] that ended in [s'] with [r] did. *)
Definition swept (s s' : St) (r : res (option SweepStats)) : Prop :=
  stored_turns s' = stored_turns s ∧ (∀ u, has_role s u = true → has_role s' u = true) ∧
  (length (untagged s') <= length (untagged s))%nat ∧
  (r = Ret None ∨
   ∃ st, r = Ret (Some st) ∧ length (untagged s) = (length (untagged s') + turns_tagged st)%nat ∧
     (2 * pairs_assigned st <= turns_tagged st)%nat).

Lemma untagged_ext (s s' : St) :
  stored_turns s' = stored_turns s → (∀ u, has_role s' u = has_role s u) → untagged s' = untagged s.
Proof. intros E H. unfold untagged. rewrite E. apply list_filter_iff. intros c. by rewrite H. Qed.

Lemma sweep_once_spec (k : nat) (s : St) (now_us lookback_us : Z) :
  store_ok s → let '(s', r) := sweep_once k s now_us lookback_us in swept s s' r ∧ (store_answers → r ≠ Ret None).
Proof.
  intros [Hnd Hok]. unfold sweep_once.
  destruct (query_keeps s (i64_sub now_us lookback_us) now_us) as [E0 H0].
  pose proof (query_spec s (i64_sub now_us lookback_us) now_us) as Hq.
  destruct (query_pair_candidates s (i64_sub now_us lookback_us) now_us) as [s0 [cands|]] eqn:Equery; cbn [fst snd] in *.
  2:{ split; [|intros [Ha _]; specialize (Ha s (i64_sub now_us lookback_us) now_us); rewrite Equery in Ha; by destruct Ha].
      split; [done|]. split; [by intros u; rewrite H0|]. split; [by rewrite (untagged_ext s s0)|by left]. }
  specialize (Hq cands eq_refl). set (gs := group_all k cands).
  assert (Hsub : ∀ c, c ∈ cands → c ∈ stored_turns s ∧ has_role s (pc_turn_id c) = false).
  { intros c. rewrite Hq. by intros [[_ ?] ?]%list_elem_of_filter. }
  assert (Hndc : NoDup (map pc_turn_id cands)) by (rewrite Hq; by apply NoDup_map_filter).
  assert (Hokc : times_ok cands) by (intros c [Hc _]%Hsub; by apply Hok).
  destruct (tag_groups_spec gs s0 0) as (ts & Hp & [Es Hr] & Hres). pose proof (tag_groups_answers gs s0 0) as Hans.
  destruct (tag_groups s0 gs 0) as [s' r]. cbn [fst snd] in *. rewrite E0 in Es.
  assert (Ht : tagged_with s s' ts) by (split; [done|intros u; by rewrite Hr, H0]).
  assert (Hms : map pg_members gs = grouped_members cands) by apply group_all_members.
  rewrite Hms in Hp, Hres. rewrite <- (length_map pg_members gs), Hms.
  assert (Hall : ∀ ms, ms ∈ grouped_members cands →
    (2 <= length ms)%nat ∧ ∀ t, t ∈ map gm_turn_id ms → t ∈ map pc_turn_id cands).
  { intros ms Hin. destruct (grouped_group_of cands ms Hndc Hokc Hin) as (c & Hl & Hg). by apply (group_of_size cands c). }
  assert (Hdrop : length (untagged s) = (length (untagged s') + length ts)%nat).
  { apply untagged_drop; [done|done| |].
    - destruct Hp as [rest E]. pose proof (groups_NoDup cands Hndc Hokc) as Hn. rewrite E in Hn. by apply NoDup_app in Hn as [? _].
    - intros t Ht'. assert (Hb : t ∈ grouped_members cands ≫= map gm_turn_id).
      { destruct Hp as [rest ->]. apply elem_of_app. by left. }
      apply list_elem_of_bind in Hb as (ms & Hm & Hin). apply (Hall ms Hin) in Hm.
      apply list_elem_of_fmap in Hm as (c & -> & [Hc Hro]%Hsub). apply (list_elem_of_fmap_2 pc_turn_id).
      by apply list_elem_of_filter. }
  assert (Hsize : (2 * length (grouped_members cands) <= length (grouped_members cands ≫= map gm_turn_id))%nat).
  { clear -Hall. induction (grouped_members cands) as [|ms l IH]; [done|]. rewrite bind_cons, length_app, length_map.
    cbn [length]. pose proof (proj1 (Hall ms ltac:(by left))). specialize (IH ltac:(intros ? ?; apply Hall; by right)). lia. }
  assert (Hkeep : ∀ u, has_role s u = true → has_role s' u = true).
  { intros u Hu. destruct Ht as [_ Hr']. by rewrite Hr', Hu, orb_true_r. }
  destruct Hres as [->|[-> ->]]; (split; [|intros Ha; try done; by specialize (Hans Ha)]).
  - split_and!; [done|done|lia|by left].
  - split_and!; [done|done|lia|]. right. eexists. split; [done|]. cbn [turns_tagged pairs_assigned]. by split.
Qed.

Lemma swept_ok (s s' : St) (r : res (option SweepStats)) : store_ok s → swept s s' r → store_ok s'.
Proof. intros Hs (E & _). unfold store_ok. by rewrite E. Qed.

Definition stats_of (rs : list (res (option SweepStats))) : list SweepStats :=
  omap (λ r, match r with Ret (Some st) => Some st | _ => None end) rs.

(** C25: sweeping converges and never tags twice, however the store's calls fail:
    a sweep never panics, and fails only where the store did; no turn loses a
    role; each turn that a sweep reports tagged had none before, at least two for
    each group, so of any sequence of sweeps over the same turns no more than
    half as many as there were untagged turns report a group; and where the store
    answers every call no sweep fails, and the turns reported are exactly those
    that are tagged at the end and were not at the start. *)
Theorem sweeps_converge :
  ∀ (k : nat) (s : St) (lookback_us : Z) (times : list Z),
    store_ok s →
    let '(s', rs) := sweep_all k s lookback_us times in
    let stats := stats_of rs in
    store_ok s' ∧ stored_turns s' = stored_turns s ∧ (∀ u, has_role s u = true → has_role s' u = true) ∧
    length rs = length times ∧ Forall (λ r, r = Ret None ∨ ∃ st, r = Ret (Some st)) rs ∧
    Forall (λ st, 2 * pairs_assigned st <= turns_tagged st)%nat stats ∧
    (length (untagged s') + list_sum (map turns_tagged stats) <= length (untagged s))%nat ∧
    (2 * length (filter (λ st, pairs_assigned st ≠ 0%nat) stats) <= length (untagged s))%nat ∧
    (store_answers → length stats = length times ∧
       length (untagged s) = (length (untagged s') + list_sum (map turns_tagged stats))%nat).
Proof.
  intros k s lookback_us times. revert k s; induction times as [|now_us times IH]; intros k s Hs; cbn [sweep_all].
  { cbn. split_and!; try done; try lia; constructor. }
  pose proof (sweep_once_spec k s now_us lookback_us Hs) as H1.
  destruct (sweep_once k s now_us lookback_us) as [s1 r]. destruct H1 as [Hsw Hans].
  pose proof (swept_ok _ _ _ Hs Hsw) as Hs1. destruct Hsw as (E1 & K1 & L1 & Hr).
  specialize (IH (match r with Ret (Some st) => k + pairs_assigned st | _ => k end)%nat s1 Hs1).
  destruct (sweep_all _ s1 lookback_us times) as [s2 rs].
  destruct IH as (Hs2 & E2 & K2 & Hl & Hf & Hg & Hsum & Hn & Hall).
  unfold stats_of in *. cbn [omap list_omap length] in *.
  destruct Hr as [->|(st & -> & Hd & H2)].
  - split_and!; try done; [congruence|eauto|lia|by constructor; [left|]|lia|lia|]. intros Ha. by destruct (Hans Ha).
  - cbn [map length]. rewrite filter_cons. unfold list_sum in *. cbn [foldr] in *.
    split_and!; try done; [congruence|eauto|lia|by constructor; [right; eexists|]|by constructor|lia| |].
    + destruct (decide _); cbn [length]; lia.
    + intros Ha. destruct (Hall Ha) as [? ?]. split; [lia|]. lia.
Qed.
End Laws.

(** ** A store that keeps its turns and the roles it was given *)

Record MemStore : Type := mkMem { ms_turns : list PairCandidate; ms_roles : list (string * text) }.
Definition ms_has_role (s : MemStore) (t : string) : bool := existsb (String.eqb t) (map fst (ms_roles s)).

#[local] Instance mem_store : PairStore MemStore := {|
  query_pair_candidates := λ s a b,
    (s, Some (filter (λ c, a <= pc_start_time_us c < b ∧ ms_has_role s (pc_turn_id c) = false) (ms_turns s)));
  update_trace_metadata := λ s t patch, (mkMem (ms_turns s)
    (match patch_role patch with Some r => (t, r) :: ms_roles s | None => ms_roles s end), true);
|}.
#[local] Instance mem_store_laws : PairStoreLaws MemStore mem_store.
Proof.
  refine {| stored_turns := ms_turns; has_role := ms_has_role |}; [done|by intros s a b l [= <-]|].
  intros s t patch [r Hr]. cbn. rewrite Hr. split; [done|]. by exists true.
Defined.

(** The same store, except that its second write fails. *)
Definition failing_store : PairStore MemStore := {|
  query_pair_candidates := query_pair_candidates (PairStore := mem_store);
  update_trace_metadata := λ s t patch,
    if (length (ms_roles s) =? 1)%nat then (s, false) else update_trace_metadata (PairStore := mem_store) s t patch;
|}.

(** A store that fails its third call of each kind, the last tag having landed. *)
Record FlakyStore : Type := mkFlaky { fl_store : MemStore; fl_queries : nat; fl_updates : nat }.
#[local] Instance flaky_store : PairStore FlakyStore := {|
  query_pair_candidates := λ s a b,
    let '(m, r) := query_pair_candidates (fl_store s) a b in
    (mkFlaky m (S (fl_queries s)) (fl_updates s), if (fl_queries s =? 2)%nat then None else r);
  update_trace_metadata := λ s t patch,
    let '(m, ok) := update_trace_metadata (fl_store s) t patch in
    (mkFlaky m (fl_queries s) (S (fl_updates s)), if (fl_updates s =? 2)%nat then false else ok);
|}.
#[local] Instance flaky_store_laws : PairStoreLaws FlakyStore flaky_store.
Proof.
  refine {| stored_turns := λ s, ms_turns (fl_store s); has_role := λ s, ms_has_role (fl_store s) |}; [done| |].
  - intros s a b l. cbn. by destruct (fl_queries s =? 2)%nat; [|intros [= <-]].
  - intros s t patch [r Hr]. cbn. rewrite Hr. split; [done|]. by exists true.
Defined.

#[local] Instance sample_legs_iter : HashIter Fingerprint (list Leg) := hash_iter_std Fingerprint (list Leg).
#[local] Instance sample_legs_laws : HashIterLaws Fingerprint (list Leg) sample_legs_iter.
Proof. apply hash_iter_std_laws. Qed.

Definition sample_store : MemStore := mkMem sample_legs [].

Lemma sample_store_ok : store_ok sample_store.
Proof.
  split; [|exact sample_legs_ok]. apply (proj1 (bool_decide_eq_true _)). vm_compute. reflexivity.
Qed.

(** Two sweeps over the sample: the first tags the three legs, the second none. *)
Example sample_sweeps :
  map (λ r, match r with Ret (Some st) => Some (pairs_assigned st, turns_tagged st) | _ => None end)
    (sweep_all 0 sample_store 100000 [50000; 60000]).2 = [Some (1, 3); Some (0, 0)]%nat.
Proof. vm_compute. reflexivity. Qed.

Definition sample_flaky : FlakyStore := mkFlaky sample_store 0 0.

(** The first sweep fails at its third write, the second finds nothing left, the
    third cannot ask, and the fourth can. *)
Example sample_flaky_sweeps :
  map (λ r, match r with Ret (Some st) => Some (pairs_assigned st, turns_tagged st) | _ => None end)
    (sweep_all 0 sample_flaky 100000 [50000; 60000; 70000; 80000]).2
  = [None; Some (0, 0); None; Some (0, 0)]%nat.
Proof. vm_compute. reflexivity. Qed.

Lemma sweeps_converge_witness :
  let '(s', rs) := sweep_all 0 sample_flaky 100000 [50000; 60000; 70000] in
  stored_turns s' = sample_legs ∧ (length (untagged s') <= 3)%nat ∧
  let '(s2, rs2) := sweep_all 0 sample_store 100000 [50000; 60000] in
  length (untagged sample_store) = (length (untagged s2) + list_sum (map turns_tagged (stats_of rs2)))%nat.
Proof.
  pose proof (sweeps_converge 0 sample_flaky 100000 [50000; 60000; 70000] sample_store_ok) as H.
  destruct (sweep_all 0 sample_flaky 100000 [50000; 60000; 70000]) as [s' rs].
  destruct H as (_ & E & _ & _ & _ & _ & Hs & _). split; [exact E|]. split; [change (length (untagged sample_flaky)) with 3%nat in Hs; lia|].
  pose proof (sweeps_converge 0 sample_store 100000 [50000; 60000] sample_store_ok) as H.
  destruct (sweep_all 0 sample_store 100000 [50000; 60000]) as [s2 rs2].
  destruct H as (_ & _ & _ & _ & _ & _ & _ & _ & Ha). apply Ha. by split.
Defined.

(** When the store fails between two members, what was written stays: the store
    answers again for the next sweep, but the tagged leg is no candidate any more,
    and its partner is left without a role for good. *)
Example interrupted_pair_is_lost :
  let pair := take 2 sample_legs in
  let s1 := (sweep_once (PS := failing_store) 0 (mkMem pair []) 50000 100000).1 in
  let r2 := sweep_all (PS := mem_store) 1 s1 100000 [60000; 70000] in
  map fst (ms_roles s1) = ["b"]%string ∧ r2.1 = s1 ∧
  map (λ r, match r with Ret (Some st) => Some (candidates_scanned st, turns_tagged st) | _ => None end) r2.2
  = [Some (1, 0); Some (1, 0)]%nat.
Proof. vm_compute. split_and!; reflexivity. Qed.
