(* ===== verification/Dialect.v ===== *)
(** * Dimension filters in SQL (h-storage/src/dialect.rs, h-storage-clickhouse/src/sql.rs)

    The builders of literals, lists and [WHERE] clauses over the pre-aggregated
    metrics, and a reading of what they build: literals as the store's documented
    lexical rules read them, predicates as the three shapes the builders emit. *)

From Stdlib Require Import Strings.Byte Strings.String ZArith Lia.
From stdpp Require Import base gmap sets list strings.
From S2P Require Import Prelude.
From S2P Require Import Net.
From S2P Require Import Text.
From S2P Require Import Dims.
From S2P Require Import Json.

Open Scope Z_scope.

Record DimensionFilter : Type := mkFilter {
  df_wire_apis : list string;
  df_models : list string;
  df_server_ips : list string;
  df_tool_surfaces : list string;
}.

(** ** The builders *)

Definition QUOTE : byte := x27.
Definition BACKSLASH : byte := x5c.

(** [str::replace] of a one-byte pattern. *)
Definition replace_byte (c : byte) (by_ : text) (s : text) : text :=
  flat_map (λ b, if bool_decide (b = c) then by_ else [b]) s.

Definition escape_standard (s : text) : text := replace_byte QUOTE [QUOTE; QUOTE] s.
Definition escape_clickhouse (s : text) : text :=
  replace_byte QUOTE [QUOTE; QUOTE] (replace_byte BACKSLASH [BACKSLASH; BACKSLASH] s).

Definition sql_in_list_with (values : list string) (escape : text → text) : text :=
  join (B ", ") (map (λ s, QUOTE :: escape (B s) ++ [QUOTE]) values).
Definition sql_in_list (values : list string) : text := sql_in_list_with values escape_standard.

(** The ClickHouse backend's own copies. *)
Definition escape_str (s : text) : text := escape_clickhouse s.
Definition ch_sql_in_list (values : list string) : text := sql_in_list_with values escape_clickhouse.

Definition build_tool_surface_clause (surfaces : list string) (escape : text → text) : text :=
  if bool_decide (surfaces = []) then []
  else B " AND tool_surface IN (" ++ sql_in_list_with surfaces escape ++ B ")".

(** [col IN (...)] with a filter, or the given clause without one. *)
Definition clause_for (col : string) (values : list string) (escape : text → text) (without : text) : text :=
  if bool_decide (values = []) then without
  else B col ++ B " IN (" ++ sql_in_list_with values escape ++ B ")".

Definition build_dimension_where (f : DimensionFilter) (escape : text → text) : text :=
  let has_wire := negb (bool_decide (df_wire_apis f = [])) in
  let has_model := negb (bool_decide (df_models f = [])) in
  let '(wire_clause, model_clause) :=
    if negb has_wire && negb has_model then (B "wire_api = '*'", B "model = '*'")
    else (clause_for "wire_api" (df_wire_apis f) escape (B "wire_api != '*'"),
          clause_for "model" (df_models f) escape (B "model != '*'")) in
  let server_clause := clause_for "server_ip" (df_server_ips f) escape (B "server_ip = '*'") in
  wire_clause ++ B " AND " ++ model_clause ++ B " AND " ++ server_clause
    ++ build_tool_surface_clause (df_tool_surfaces f) escape.

Definition build_dimension_where_for_group (f : DimensionFilter) (group_by : string) (escape : text → text) : text :=
  if String.eqb group_by "wire_api" || String.eqb group_by "model"
  then
    let wire_clause := clause_for "wire_api" (df_wire_apis f) escape (B "wire_api != '*'") in
    let model_clause := clause_for "model" (df_models f) escape (B "model != '*'") in
    let server_clause := clause_for "server_ip" (df_server_ips f) escape (B "server_ip = '*'") in
    wire_clause ++ B " AND " ++ model_clause ++ B " AND " ++ server_clause
      ++ build_tool_surface_clause (df_tool_surfaces f) escape
  else build_dimension_where f escape.

Definition sample_filter : DimensionFilter := mkFilter ["openai-chat"; "o'b"] [] ["10.0.0.1"] ["mcp"].
Example sample_where :
  build_dimension_where sample_filter escape_standard =
  B "wire_api IN ('openai-chat', 'o''b') AND model != '*' AND server_ip IN ('10.0.0.1') AND tool_surface IN ('mcp')".
Proof. vm_compute. reflexivity. Qed.

(** ** How the store reads a literal *)

(** The content of a literal, from after its opening quote, and what follows its
    closing one. *)
Class SqlStrings : Type := read_literal : text → option (text * text).

Definition more (b : byte) (p : option (text * text)) : option (text * text) := (λ p, (b :: p.1, p.2)) <$> p.
Definition opens_with (b : byte) (r : text) : bool := match r with c :: _ => bool_decide (c = b) | [] => false end.

(** DuckDB: a doubled quote is a quote, every other byte stands for itself. *)
Class StandardStrings (S : SqlStrings) : Prop := {
  std_close (r : text) : opens_with QUOTE r = false → read_literal (QUOTE :: r) = Some ([], r);
  std_quote (r : text) : read_literal (QUOTE :: QUOTE :: r) = more QUOTE (read_literal r);
  std_byte (b : byte) (r : text) : b ≠ QUOTE → read_literal (b :: r) = more b (read_literal r);
}.

(** ClickHouse: the same, but a doubled backslash is a backslash (and a lone one
    is something else still). *)
Class ClickHouseStrings (S : SqlStrings) : Prop := {
  ch_close (r : text) : opens_with QUOTE r = false → read_literal (QUOTE :: r) = Some ([], r);
  ch_quote (r : text) : read_literal (QUOTE :: QUOTE :: r) = more QUOTE (read_literal r);
  ch_backslash (r : text) : read_literal (BACKSLASH :: BACKSLASH :: r) = more BACKSLASH (read_literal r);
  ch_byte (b : byte) (r : text) : b ≠ QUOTE → b ≠ BACKSLASH → read_literal (b :: r) = more b (read_literal r);
}.

(** What the builders rely on: an escaped value is read back. *)
Class ReadsBack (S : SqlStrings) (escape : text → text) : Prop := {
  reads_back (v r : text) : opens_with QUOTE r = false → read_literal (escape v ++ QUOTE :: r) = Some (v, r);
  escape_star : escape (B "*") = B "*";
}.

Lemma replace_byte_cons (c : byte) (by_ : text) (b : byte) (s : text) :
  replace_byte c by_ (b :: s) = (if bool_decide (b = c) then by_ else [b]) ++ replace_byte c by_ s.
Proof. done. Qed.

#[export] Instance standard_reads_back (S : SqlStrings) : StandardStrings S → ReadsBack S escape_standard.
Proof.
  intros HS. split; [|done]. intros v r Hr. unfold escape_standard. induction v as [|b v IH]; [by apply std_close|].
  rewrite replace_byte_cons. case_bool_decide as Eb; cbn [app].
  - by rewrite std_quote, IH, Eb.
  - by rewrite std_byte, IH.
Qed.

#[export] Instance clickhouse_reads_back (S : SqlStrings) : ClickHouseStrings S → ReadsBack S escape_clickhouse.
Proof.
  intros HS. split; [|done]. intros v r Hr. unfold escape_clickhouse. induction v as [|b v IH]; [by apply ch_close|].
  rewrite (replace_byte_cons BACKSLASH). case_bool_decide as Eb; cbn [app]; rewrite replace_byte_cons.
  - subst b. cbn [app bool_decide]. rewrite bool_decide_eq_false_2 by done. cbn [app]. rewrite replace_byte_cons.
    rewrite bool_decide_eq_false_2 by done. cbn [app]. by rewrite ch_backslash, IH.
  - case_bool_decide as Eq; cbn [app].
    + by rewrite ch_quote, IH, Eq.
    + by rewrite ch_byte, IH.
Qed.

(** ** Predicates, and reading them *)

Inductive Pred : Type :=
| PEq (col : text) (v : text)
| PNe (col : text) (v : text)
| PIn (col : text) (vs : list text).

Definition columns : list text := [B "wire_api"; B "model"; B "server_ip"; B "tool_surface"].

(** The items of a list, from after a [(], to after its [)]. *)
Fixpoint read_items `{SqlStrings} (fuel : nat) (t : text) : option (list text * text) :=
  match fuel with
  | O => None
  | S fuel =>
      match t with
      | b :: r =>
          if bool_decide (b = QUOTE) then
            match read_literal r with
            | Some (v, r1) =>
                match strip_prefix (B ", ") r1 with
                | Some r2 => (λ p, (v :: p.1, p.2)) <$> read_items fuel r2
                | None => match strip_prefix (B ")") r1 with Some r2 => Some ([v], r2) | None => None end
                end
            | None => None
            end
          else None
      | [] => None
      end
  end.

(** What follows the name of a column. *)
Definition read_rest `{SqlStrings} (fuel : nat) (col : text) (t : text) : option (Pred * text) :=
  match strip_prefix (B " = '") t with
  | Some r => (λ p, (PEq col p.1, p.2)) <$> read_literal r
  | None =>
      match strip_prefix (B " != '") t with
      | Some r => (λ p, (PNe col p.1, p.2)) <$> read_literal r
      | None =>
          match strip_prefix (B " IN (") t with
          | Some r => (λ p, (PIn col p.1, p.2)) <$> read_items fuel r
          | None => None
          end
      end
  end.

Fixpoint read_pred `{SqlStrings} (fuel : nat) (cols : list text) (t : text) : option (Pred * text) :=
  match cols with
  | [] => None
  | col :: cols' =>
      match strip_prefix col t with
      | Some r => match read_rest fuel col r with Some p => Some p | None => read_pred fuel cols' t end
      | None => read_pred fuel cols' t
      end
  end.

(** Predicates between [AND]s, to the end of the text. *)
Fixpoint read_where `{SqlStrings} (fuel : nat) (t : text) : option (list Pred) :=
  match fuel with
  | O => None
  | S fuel =>
      match read_pred fuel columns t with
      | Some (p, []) => Some [p]
      | Some (p, r) =>
          match strip_prefix (B " AND ") r with
          | Some r' => cons p <$> read_where fuel r'
          | None => None
          end
      | None => None
      end
  end.

(** ** Reading back what the builders print *)

Section ReadBack.
Context `{S : SqlStrings} (escape : text → text) {RB : ReadsBack S escape}.

Definition quoted (v : text) : text := QUOTE :: escape v ++ [QUOTE].
Definition print_list (vs : list text) : text := join (B ", ") (map quoted vs).
Definition print_pred (p : Pred) : text :=
  match p with
  | PEq col v => col ++ B " = " ++ quoted v
  | PNe col v => col ++ B " != " ++ quoted v
  | PIn col vs => col ++ B " IN (" ++ print_list vs ++ B ")"
  end.
Definition pred_col (p : Pred) : text := match p with PEq c _ | PNe c _ | PIn c _ => c end.
Definition pred_ok (p : Pred) : Prop :=
  pred_col p ∈ columns ∧ match p with PIn _ vs => vs ≠ [] | _ => True end.

Lemma read_items_print (fuel : nat) (vs : list text) (r : text) :
  vs ≠ [] → (length vs <= fuel)%nat → read_items fuel (print_list vs ++ B ")" ++ r) = Some (vs, r).
Proof.
  revert fuel. induction vs as [|v vs IH]; intros fuel Hne Hf; [done|]. destruct fuel as [|fuel]; [cbn in Hf; lia|].
  destruct vs as [|w vs].
  - cbn [print_list map join quoted app read_items]. rewrite bool_decide_eq_true_2 by done.
    rewrite <- app_assoc. cbn [app]. by rewrite reads_back.
  - change (print_list (v :: w :: vs)) with (quoted v ++ B ", " ++ print_list (w :: vs)).
    cbn [quoted app read_items]. rewrite bool_decide_eq_true_2 by done. rewrite <- !app_assoc. cbn [app].
    rewrite reads_back by done. rewrite (strip_prefix_app (B ", ")), IH; [done|done|cbn in *; lia].
Qed.

Lemma read_rest_print (fuel : nat) (p : Pred) (r : text) :
  match p with PIn _ vs => vs ≠ [] ∧ (length vs <= fuel)%nat | _ => True end → opens_with QUOTE r = false →
  ∃ t, print_pred p = pred_col p ++ t ∧ read_rest fuel (pred_col p) (t ++ r) = Some (p, r).
Proof.
  intros Hp Hr. destruct p as [col v|col v|col vs]; cbn [print_pred pred_col]; (eexists; split; [reflexivity|]); unfold read_rest.
  - change (B " = " ++ quoted v) with (B " = '" ++ escape v ++ [QUOTE]). rewrite <- !app_assoc, strip_prefix_app.
    cbn [app]. by rewrite reads_back.
  - change (B " != " ++ quoted v) with (B " != '" ++ escape v ++ [QUOTE]). rewrite <- !app_assoc. cbn [app].
    change (strip_prefix (B " = '") _) with (@None text). cbn beta iota.
    change (x20 :: x21 :: x3d :: x20 :: x27 :: ?l) with (B " != '" ++ l). rewrite strip_prefix_app. by rewrite reads_back.
  - rewrite <- !app_assoc. change (strip_prefix (B " = '") _) with (@None text).
    change (strip_prefix (B " != '") _) with (@None text). cbn beta iota. rewrite strip_prefix_app, read_items_print; tauto || done.
Qed.

Lemma read_pred_print (fuel : nat) (p : Pred) (r : text) :
  pred_ok p → match p with PIn _ vs => length vs <= fuel | _ => True end%nat → opens_with QUOTE r = false →
  read_pred fuel columns (print_pred p ++ r) = Some (p, r).
Proof.
  intros [Hc Hne] Hf Hr. destruct (read_rest_print fuel p r) as (t & Et & Ht); [by destruct p|done|].
  rewrite Et, <- app_assoc. unfold columns in *. rewrite !elem_of_cons, elem_of_nil in Hc.
  destruct Hc as [Ec|[Ec|[Ec|[Ec|[]]]]]; rewrite Ec in *; cbn [read_pred].
  all: rewrite ?strip_prefix_app, ?Ht; try done.
  all: repeat (match goal with |- context [strip_prefix ?a ?b] =>
    lazymatch a with context [strip_prefix] => fail | _ => idtac end; change (strip_prefix a b) with (@None text) || rewrite (strip_prefix_app a) end; cbn beta iota); by rewrite ?Ht.
Qed.

Definition pred_size (p : Pred) : nat := match p with PIn _ vs => length vs | _ => 0 end.

Lemma read_where_print (fuel : nat) (ps : list Pred) :
  ps ≠ [] → Forall pred_ok ps → (length ps + list_sum (map pred_size ps) <= fuel)%nat →
  read_where fuel (join (B " AND ") (map print_pred ps)) = Some ps.
Proof.
  revert fuel. induction ps as [|p ps IH]; intros fuel Hne Hok Hf; [done|]. destruct fuel as [|fuel]; [cbn in Hf; lia|].
  inversion_clear Hok as [|? ? Hp Hps]. unfold list_sum in Hf. cbn [length map foldr] in Hf.
  assert (Hsz : match p with PIn _ vs => length vs <= fuel | _ => True end%nat) by (destruct p; cbn in *; lia || done).
  destruct ps as [|q ps].
  - cbn [map join read_where]. rewrite <- (app_nil_r (print_pred p)). by rewrite read_pred_print.
  - change (join _ _) with (print_pred p ++ B " AND " ++ join (B " AND ") (map print_pred (q :: ps))).
    cbn [read_where]. rewrite read_pred_print by done. rewrite strip_prefix_app, IH; [done|done|done|].
    unfold list_sum. cbn [map length foldr] in *. lia.
Qed.

(** Enough fuel for any predicate of a text is its length. *)
Lemma print_size (ps : list Pred) :
  Forall pred_ok ps → (length ps + list_sum (map pred_size ps) <= length (join (B " AND ") (map print_pred ps)))%nat.
Proof.
  assert (Hl : ∀ vs, (length vs <= length (print_list vs))%nat).
  { intros vs. induction vs as [|v vs IH]; [done|]. destruct vs as [|w vs]; [cbn; lia|].
    change (print_list (v :: w :: vs)) with (quoted v ++ B ", " ++ print_list (w :: vs)). rewrite !length_app. cbn [length] in *.
    change (length (B ", ")) with 2%nat. lia. }
  assert (H1 : ∀ p, (1 + pred_size p <= length (print_pred p))%nat).
  { intros [c v|c v|c vs]; cbn [pred_size print_pred]; rewrite !length_app;
      [change (length (B " = ")) with 3%nat|change (length (B " != ")) with 4%nat|change (length (B " IN (")) with 5%nat];
      [lia|lia|specialize (Hl vs); lia]. }
  intros _. unfold list_sum. induction ps as [|p ps IH]; [done|]. specialize (H1 p). cbn [length map foldr].
  destruct ps as [|q ps]; [cbn [map join foldr length]; lia|].
  assert (Ej : join (B " AND ") (print_pred p :: map print_pred (q :: ps)) =
    print_pred p ++ B " AND " ++ join (B " AND ") (map print_pred (q :: ps))) by done.
  rewrite Ej, !length_app. cbn [map foldr length] in *. lia.
Qed.
End ReadBack.

(** ** What a filter selects *)

(** The predicates of a filter, for a query grouped by [wire_api] or [model]
    ([forced]) or not. *)
Definition pred_for (col : string) (values : list string) (without : text → text → Pred) : Pred :=
  if bool_decide (values = []) then without (B col) (B "*") else PIn (B col) (map B values).
Definition filter_preds (f : DimensionFilter) (forced : bool) : list Pred :=
  let without := if negb forced && bool_decide (df_wire_apis f = []) && bool_decide (df_models f = []) then PEq else PNe in
  [pred_for "wire_api" (df_wire_apis f) without; pred_for "model" (df_models f) without;
   pred_for "server_ip" (df_server_ips f) PEq] ++
  (if bool_decide (df_tool_surfaces f = []) then [] else [PIn (B "tool_surface") (map B (df_tool_surfaces f))]).

Definition grouped_by (g : string) : bool := String.eqb g "wire_api" || String.eqb g "model".

(** A row of the metrics table; a surface can be [NULL], and then no comparison
    holds of it. *)
Record MetricRow : Type := mkRow { row_dims : DimensionKey; row_surface : option string }.

Definition col_value (r : MetricRow) (col : text) : option text :=
  if bool_decide (col = B "wire_api") then Some (B (dk_wire_api (row_dims r)))
  else if bool_decide (col = B "model") then Some (B (dk_model (row_dims r)))
  else if bool_decide (col = B "server_ip") then Some (B (dk_server_ip (row_dims r)))
  else if bool_decide (col = B "tool_surface") then B <$> row_surface r
  else None.

Definition holds (r : MetricRow) (p : Pred) : bool :=
  match p with
  | PEq c v => match col_value r c with Some x => bool_decide (x = v) | None => false end
  | PNe c v => match col_value r c with Some x => negb (bool_decide (x = v)) | None => false end
  | PIn c vs => match col_value r c with Some x => bool_decide (x ∈ vs) | None => false end
  end.

Definition sql_selects `{SqlStrings} (clause : text) (r : MetricRow) : bool :=
  match read_where (length clause) clause with
  | Some ps => forallb (holds r) ps
  | None => false
  end.

(** The calls a filter asks for, by their dimensions. *)
Definition asks_for (values : list string) (v : string) : bool := bool_decide (values = []) || bool_decide (v ∈ values).
Definition call_matches (f : DimensionFilter) (wire_api model server_ip : string) (surface : option string) : bool :=
  asks_for (df_wire_apis f) wire_api && asks_for (df_models f) model && asks_for (df_server_ips f) server_ip &&
  match surface with Some s => asks_for (df_tool_surfaces f) s | None => bool_decide (df_tool_surfaces f = []) end.

(** No value of the filter is the mark of a rollup. *)
Definition filter_ok (f : DimensionFilter) : Prop :=
  ("*" ∉ df_wire_apis f ∧ "*" ∉ df_models f ∧ "*" ∉ df_server_ips f)%string.

Global Instance B_inj : Inj (=) (=) B.
Proof. intros a b H. by rewrite <- (str_B a), H, str_B. Qed.

Lemma elem_of_map_B (v : string) (vs : list string) : bool_decide (B v ∈ map B vs) = bool_decide (v ∈ vs).
Proof. apply bool_decide_ext. apply list_elem_of_fmap_inj, _. Qed.

Section Filters.
Context `{SQ : SqlStrings} (escape : text → text) {RB : ReadsBack SQ escape}.

Lemma filter_preds_ok (f : DimensionFilter) (forced : bool) : Forall pred_ok (filter_preds f forced).
Proof.
  assert (H : ∀ col vs wo, B col ∈ columns → (wo = PEq ∨ wo = PNe) → pred_ok (pred_for col vs wo)).
  { intros col vs wo Hc Hw. unfold pred_for. case_bool_decide as E; [by destruct Hw as [-> | ->]|].
    split; [done|]. by destruct vs. }
  unfold filter_preds. cbv zeta. apply Forall_app. split.
  - rewrite !Forall_cons. split_and!; [| | |constructor]; apply H; try (unfold columns; rewrite !elem_of_cons; tauto);
      try case_match; tauto.
  - case_bool_decide as E; [constructor|]. constructor; [|constructor]. split.
    + cbn [pred_col]. unfold columns. rewrite !elem_of_cons. tauto.
    + by destruct (df_tool_surfaces f).
Qed.

Lemma sql_in_list_print (vs : list string) : sql_in_list_with vs escape = print_list escape (map B vs).
Proof. unfold sql_in_list_with, print_list. by rewrite map_map. Qed.

Lemma clause_for_print (col : string) (vs : list string) (wo : text → text → Pred) :
  clause_for col vs escape (print_pred escape (wo (B col) (B "*"))) = print_pred escape (pred_for col vs wo).
Proof. unfold clause_for, pred_for. case_bool_decide; [done|]. cbn [print_pred]. by rewrite sql_in_list_print. Qed.

Lemma build_is_print (f : DimensionFilter) (g : string) :
  build_dimension_where_for_group f g escape = join (B " AND ") (map (print_pred escape) (filter_preds f (grouped_by g))) ∧
  build_dimension_where f escape = join (B " AND ") (map (print_pred escape) (filter_preds f false)).
Proof.
  assert (Es : ∀ v, quoted escape (B v) = QUOTE :: escape (B v) ++ [QUOTE]) by done.
  assert (E1 : ∀ col, print_pred escape (PEq col (B "*")) = col ++ B " = '*'") by (intros; cbn [print_pred]; by rewrite Es, escape_star).
  assert (E2 : ∀ col, print_pred escape (PNe col (B "*")) = col ++ B " != '*'") by (intros; cbn [print_pred]; by rewrite Es, escape_star).
  assert (Hj : ∀ wo1 wo2 : text → text → Pred,
    print_pred escape (pred_for "wire_api" (df_wire_apis f) wo1) ++ B " AND " ++
    print_pred escape (pred_for "model" (df_models f) wo1) ++ B " AND " ++
    print_pred escape (pred_for "server_ip" (df_server_ips f) wo2) ++ build_tool_surface_clause (df_tool_surfaces f) escape =
    join (B " AND ") (map (print_pred escape) ([pred_for "wire_api" (df_wire_apis f) wo1; pred_for "model" (df_models f) wo1;
      pred_for "server_ip" (df_server_ips f) wo2] ++
      (if bool_decide (df_tool_surfaces f = []) then [] else [PIn (B "tool_surface") (map B (df_tool_surfaces f))])))).
  { intros wo1 wo2. unfold build_tool_surface_clause. case_bool_decide; cbn [app map join]; [by rewrite app_nil_r|].
    rewrite sql_in_list_print. do 5 f_equal. }
  assert (Hu : build_dimension_where f escape = join (B " AND ") (map (print_pred escape) (filter_preds f false))).
  { unfold build_dimension_where, filter_preds. cbv zeta. cbn [negb andb]. rewrite !negb_involutive.
    destruct (bool_decide (df_wire_apis f = []) && bool_decide (df_models f = [])) eqn:E; cbn beta iota;
      rewrite <- Hj, <- !clause_for_print, ?E1, ?E2; [|done].
    apply andb_true_iff in E as [E3 E4]. unfold clause_for. by rewrite E3, E4. }
  split; [|exact Hu]. unfold build_dimension_where_for_group, grouped_by.
  destruct (_ || _) eqn:Eg; [|exact Hu]. unfold filter_preds. cbn [negb andb].
  by rewrite <- Hj, <- !clause_for_print, E1, !E2.
Qed.

Lemma selects_print (f : DimensionFilter) (forced : bool) (r : MetricRow) :
  sql_selects (join (B " AND ") (map (print_pred escape) (filter_preds f forced))) r = forallb (holds r) (filter_preds f forced).
Proof.
  unfold sql_selects. rewrite (read_where_print escape); [done| |apply filter_preds_ok|].
  - unfold filter_preds. done.
  - apply print_size, filter_preds_ok.
Qed.

Definition star_if (vs : list string) (v : string) : bool :=
  if bool_decide (vs = []) then bool_decide (v = "*"%string) else bool_decide (v ∈ vs).
Definition not_star_if (vs : list string) (v : string) : bool :=
  if bool_decide (vs = []) then negb (bool_decide (v = "*"%string)) else bool_decide (v ∈ vs).
Definition surface_in (vs : list string) (surface : option string) : bool :=
  match surface with Some s => asks_for vs s | None => bool_decide (vs = []) end.

Lemma bool_decide_B (a b : string) : bool_decide (B a = B b) = bool_decide (a = b).
Proof. apply bool_decide_ext. split; [apply (inj B)|by intros ->]. Qed.

Lemma holds_filter (f : DimensionFilter) (forced : bool) (r : MetricRow) :
  forallb (holds r) (filter_preds f forced) =
  (let d := row_dims r in
   if negb forced && bool_decide (df_wire_apis f = []) && bool_decide (df_models f = [])
   then star_if [] (dk_wire_api d) && star_if [] (dk_model d)
   else not_star_if (df_wire_apis f) (dk_wire_api d) && not_star_if (df_models f) (dk_model d)) &&
  star_if (df_server_ips f) (dk_server_ip (row_dims r)) && surface_in (df_tool_surfaces f) (row_surface r).
Proof.
  assert (H1 : ∀ col v vs, col_value r (B col) = Some (B v) → holds r (pred_for col vs PNe) = not_star_if vs v).
  { intros col v vs Hc. unfold pred_for, not_star_if. case_bool_decide; cbn [holds]; rewrite Hc;
      [by rewrite bool_decide_B|apply elem_of_map_B]. }
  assert (H2 : ∀ col v vs, col_value r (B col) = Some (B v) → holds r (pred_for col vs PEq) = star_if vs v).
  { intros col v vs Hc. unfold pred_for, star_if. case_bool_decide; cbn [holds]; rewrite Hc;
      [by rewrite bool_decide_B|apply elem_of_map_B]. }
  assert (Hs : forallb (holds r) (if bool_decide (df_tool_surfaces f = []) then [] else [PIn (B "tool_surface") (map B (df_tool_surfaces f))])
    = surface_in (df_tool_surfaces f) (row_surface r)).
  { unfold surface_in, asks_for. case_bool_decide as E; cbn [forallb holds]; [by destruct (row_surface r)|].
    change (col_value r (B "tool_surface")) with (B <$> row_surface r). rewrite andb_true_r.
    destruct (row_surface r) as [s|]; [|done]. cbn [fmap option_fmap option_map orb]. apply elem_of_map_B. }
  unfold filter_preds. cbv zeta. rewrite forallb_app, Hs. cbn [forallb]. rewrite (H2 "server_ip" (dk_server_ip (row_dims r))) by done.
  destruct (negb forced && _ && _) eqn:E.
  - apply andb_true_iff in E as [[_ E1]%andb_true_iff E2]. apply bool_decide_eq_true in E1, E2. rewrite E1, E2.
    rewrite (H2 "wire_api" (dk_wire_api (row_dims r))), (H2 "model" (dk_model (row_dims r))) by done.
    by rewrite andb_true_r, !andb_assoc.
  - rewrite (H1 "wire_api" (dk_wire_api (row_dims r))), (H1 "model" (dk_model (row_dims r))) by done.
    by rewrite andb_true_r, !andb_assoc.
Qed.

Definition rows_of (source_id wire_api model server_ip : string) (surface : option string) : list MetricRow :=
  map (λ d, mkRow d surface) (dimension_keys source_id wire_api model server_ip).

Lemma asks_for_named (vs : list string) (v : string) :
  v ≠ "*"%string → not_star_if vs v = asks_for vs v.
Proof. intros Hv. unfold not_star_if, asks_for. case_bool_decide; [|done]. by rewrite bool_decide_eq_false_2. Qed.

Lemma filter_counts_once (f : DimensionFilter) (forced : bool) (source_id w m s : string) (surface : option string) :
  filter_ok f → w ≠ "*"%string → m ≠ "*"%string → s ≠ "*"%string →
  let selected := filter (λ r, forallb (holds r) (filter_preds f forced) = true) (rows_of source_id w m s surface) in
  length selected = (if call_matches f w m s surface then 1 else 0)%nat ∧
  (forced = true → ∀ r, r ∈ selected → dk_wire_api (row_dims r) = w ∧ dk_model (row_dims r) = m).
Proof.
  intros (Hw & Hm & Hs) Nw Nm Ns. cbv zeta. unfold rows_of, dimension_keys. cbn [map].
  assert (Ew : not_star_if (df_wire_apis f) "*" = false).
  { unfold not_star_if. case_bool_decide; [by rewrite bool_decide_eq_true_2|]. by rewrite bool_decide_eq_false_2. }
  assert (Es : star_if (df_server_ips f) "*" = bool_decide (df_server_ips f = []) ∧
    star_if (df_server_ips f) s = negb (bool_decide (df_server_ips f = [])) && asks_for (df_server_ips f) s).
  { unfold star_if, asks_for. case_bool_decide; [|by rewrite bool_decide_eq_false_2].
    split; [done|]. by rewrite bool_decide_eq_false_2. }
  destruct Es as [Es1 Es2]. unfold call_matches. fold (surface_in (df_tool_surfaces f) surface).
  rewrite !filter_cons, filter_nil, !holds_filter. cbn [row_dims row_surface dk_wire_api dk_model dk_server_ip].
  rewrite !Es1, !Es2, Ew, !asks_for_named by done. cbn [andb].
  destruct (negb forced && _ && _) eqn:E.
  - apply andb_true_iff in E as [[E0 E1]%andb_true_iff E2]. unfold star_if, asks_for. rewrite E1, E2.
    rewrite (bool_decide_eq_false_2 (w = "*"%string)) by done. destruct forced; [done|].
    rewrite (bool_decide_eq_true_2 ([] = [])), (bool_decide_eq_true_2 ("*"%string = "*"%string)) by done.
    cbn [andb orb]. split; [|done].
    destruct (bool_decide (df_server_ips f = [])), (bool_decide (s ∈ df_server_ips f)), (surface_in _ surface); done.
  - destruct (asks_for (df_wire_apis f) w), (asks_for (df_models f) m), (bool_decide (df_server_ips f = [])) eqn:E3,
      (asks_for (df_server_ips f) s) eqn:E4, (surface_in (df_tool_surfaces f) surface); cbn [andb negb];
      unfold asks_for in E4; rewrite E3 in E4; try discriminate E4; (split; [done|]); intros Hf r Hr;
      repeat (apply elem_of_cons in Hr as [->|Hr]; [done|]); by apply elem_of_nil in Hr.
Qed.
End Filters.

(** C29: no value of a filter can change a query: whatever bytes the values hold,
    the clause built for it, with the escaping of either store, is read by that
    store as exactly the predicates of the filter and nothing else. *)
Theorem where_reads_back (SQ : SqlStrings) (f : DimensionFilter) (g : string) :
  (StandardStrings SQ →
    (let c := build_dimension_where f escape_standard in read_where (length c) c = Some (filter_preds f false)) ∧
    (let c := build_dimension_where_for_group f g escape_standard in read_where (length c) c = Some (filter_preds f (grouped_by g)))) ∧
  (ClickHouseStrings SQ →
    (let c := build_dimension_where f escape_clickhouse in read_where (length c) c = Some (filter_preds f false)) ∧
    (let c := build_dimension_where_for_group f g escape_clickhouse in read_where (length c) c = Some (filter_preds f (grouped_by g)))).
Proof.
  assert (H : ∀ escape forced, ReadsBack SQ escape →
    let c := join (B " AND ") (map (print_pred escape) (filter_preds f forced)) in read_where (length c) c = Some (filter_preds f forced)).
  { intros escape forced RB. apply (read_where_print escape); [done|apply filter_preds_ok|apply print_size, filter_preds_ok]. }
  split; intros HS; (split; cbv zeta; [rewrite (proj2 (build_is_print _ f g))|rewrite (proj1 (build_is_print _ f g))]); apply H, _.
Qed.

(** C28: a filtered metrics query counts each call once: of the four rows a call is
    counted in, the clause of a filter selects exactly one if the call is among
    those asked for, and none otherwise; a query grouped by API or model selects
    a row that names the call's own. *)
Theorem sql_counts_once (SQ : SqlStrings) (escape : text → text) (RB : ReadsBack SQ escape) :
  ∀ (f : DimensionFilter) (g source_id w m s : string) (surface : option string),
    filter_ok f → w ≠ "*"%string → m ≠ "*"%string → s ≠ "*"%string →
    let rows := rows_of source_id w m s surface in
    let picked clause := filter (λ r, sql_selects clause r = true) rows in
    let count := (if call_matches f w m s surface then 1 else 0)%nat in
    length (picked (build_dimension_where f escape)) = count ∧
    length (picked (build_dimension_where_for_group f g escape)) = count ∧
    (grouped_by g = true → ∀ r, r ∈ picked (build_dimension_where_for_group f g escape) →
      dk_wire_api (row_dims r) = w ∧ dk_model (row_dims r) = m).
Proof.
  intros f g src w m s surface Hf Nw Nm Ns. cbv zeta. destruct (build_is_print escape f g) as [-> ->].
  assert (E : ∀ forced (rows : list MetricRow), filter (λ r, sql_selects (join (B " AND ") (map (print_pred escape) (filter_preds f forced))) r = true) rows =
    filter (λ r, forallb (holds r) (filter_preds f forced) = true) rows).
  { intros forced rows. apply list_filter_iff. intros r. by rewrite (selects_print escape). }
  rewrite !E. split; [|split].
  - by apply (filter_counts_once f false).
  - by apply (filter_counts_once f (grouped_by g)).
  - intros Hg. by apply (filter_counts_once f (grouped_by g) src w m s surface).
Qed.

(** ** Two readers *)

Fixpoint read_std (t : text) : option (text * text) :=
  match t with
  | [] => None
  | b :: r =>
      if bool_decide (b = QUOTE) then
        match r with
        | c :: r' => if bool_decide (c = QUOTE) then more QUOTE (read_std r') else Some ([], r)
        | [] => Some ([], [])
        end
      else more b (read_std r)
  end.
Fixpoint read_ch (t : text) : option (text * text) :=
  match t with
  | [] => None
  | b :: r =>
      if bool_decide (b = QUOTE) then
        match r with
        | c :: r' => if bool_decide (c = QUOTE) then more QUOTE (read_ch r') else Some ([], r)
        | [] => Some ([], [])
        end
      else if bool_decide (b = BACKSLASH) then
        match r with c :: r' => more c (read_ch r') | [] => None end
      else more b (read_ch r)
  end.

Lemma read_std_standard : @StandardStrings read_std.
Proof.
  split.
  - intros [|c r] Hr; [done|]. cbn in *. by rewrite Hr.
  - done.
  - intros b r Hb. cbn. by rewrite bool_decide_eq_false_2.
Defined.
Lemma read_ch_clickhouse : @ClickHouseStrings read_ch.
Proof.
  split.
  - intros [|c r] Hr; [done|]. cbn in *. by rewrite Hr.
  - done.
  - done.
  - intros b r Hb1 Hb2. cbn. by rewrite !bool_decide_eq_false_2.
Defined.

Definition hostile_filter : DimensionFilter := mkFilter [] ["\') OR 1=1 --"; "m"] [] [].

Lemma where_reads_back_witness :
  (let c := build_dimension_where hostile_filter escape_clickhouse in
   @read_where read_ch (length c) c = Some (filter_preds hostile_filter false)) ∧
  (let c := build_dimension_where hostile_filter escape_standard in
   @read_where read_std (length c) c = Some (filter_preds hostile_filter false)).
Proof.
  split.
  - exact (proj1 (proj2 (where_reads_back read_ch hostile_filter "") read_ch_clickhouse)).
  - exact (proj1 (proj1 (where_reads_back read_std hostile_filter "") read_std_standard)).
Defined.

(** Quotes alone are not enough for ClickHouse: its reader leaves the literal early. *)
Example standard_escape_breaks_clickhouse :
  let c := build_dimension_where hostile_filter escape_standard in @read_where read_ch (length c) c = None.
Proof. vm_compute. reflexivity. Qed.

Lemma sql_counts_once_witness :
  length (filter (λ r, @sql_selects read_std (build_dimension_where sample_filter escape_standard) r = true)
    (rows_of "tap" "openai-chat" "m" "10.0.0.1" (Some "mcp"))) = 1%nat.
Proof.
  refine (proj1 (sql_counts_once read_std escape_standard (@standard_reads_back read_std read_std_standard)
    sample_filter "" "tap" "openai-chat" "m" "10.0.0.1" (Some "mcp"%string) _ _ _ _)); [|done..].
  unfold filter_ok, sample_filter. cbn. rewrite !elem_of_cons, !elem_of_nil. naive_solver.
Defined.

(** Grouping by server without a filter on servers picks the row summed over all
    of them: one group, named ["*"]. *)
Example group_by_server_is_one_group :
  map (λ r, dk_server_ip (row_dims r))
    (filter (λ r, @sql_selects read_std (build_dimension_where_for_group (mkFilter [] [] [] []) "server_ip" escape_standard) r = true)
      (rows_of "tap" "openai-chat" "m" "10.0.0.1" None ++ rows_of "tap" "openai-chat" "m" "10.0.0.2" None))
  = ["*"; "*"]%string.
Proof. vm_compute. reflexivity. Qed.

(** A call whose model is named ["*"] is in no view filtered by its API. *)
Example star_model_is_hidden :
  filter (λ r, @sql_selects read_std (build_dimension_where (mkFilter ["openai-chat"] [] [] []) escape_standard) r = true)
    (rows_of "tap" "openai-chat" "*" "10.0.0.1" None) = [].
Proof. vm_compute. reflexivity. Qed.
