(* ===== verification/Spl.v ===== *)
(** * Queries of the aglake store (h-storage-aglake/src/spl.rs, dims.rs, rows.rs)

    The builders of SPL searches, and the choice of a metrics tier by an ordinary
    field instead of the rollups' stars.  What a search selects is read off its
    text: quoted values as the language's documented escapes read them, terms and
    comparisons as the shapes the builders emit. *)

From Stdlib Require Import Strings.Byte Strings.String ZArith Lia.
From stdpp Require Import base gmap sets list strings.
From S2P Require Import Prelude.
From S2P Require Import Net.
From S2P Require Import Text.
From S2P Require Import Dims.
From S2P Require Import Json.
From S2P Require Import Dialect.

Open Scope Z_scope.

(** ** Quoting *)

Definition DQUOTE : byte := x22.
Definition STAR : byte := x2a.

Definition quote (s : text) : text :=
  DQUOTE :: flat_map (λ c, if bool_decide (c = DQUOTE) then [BACKSLASH; DQUOTE]
                           else if bool_decide (c = BACKSLASH) then [BACKSLASH; BACKSLASH] else [c]) s ++ [DQUOTE].

Definition needs_literal_compare (v : text) : bool := bool_decide (STAR ∈ v).

Definition match_term (field value : text) : option text :=
  if needs_literal_compare value then None else Some (field ++ B "=" ++ quote value).

Definition body_term (span_id : text) : option text :=
  if needs_literal_compare span_id then None
  else Some (quote (B "{" ++ DQUOTE :: B "span_id" ++ DQUOTE :: B ":" ++ DQUOTE :: span_id ++ [DQUOTE])).

Definition body_terms (span_ids : list text) : option text :=
  match omap body_term span_ids with
  | [] => None
  | [t] => Some t
  | ts => Some (B "(" ++ join (B " OR ") ts ++ B ")")
  end.

Definition in_list (field : text) (values : list text) : option text :=
  if bool_decide (values = []) then None
  else Some (field ++ B " IN (" ++ join (B ", ") (map quote values) ++ B ")").

Definition where_eq (field value : text) : text := field ++ B " == " ++ quote value.

(** [Display] of a signed integer. *)
Definition show_z (z : Z) : text := if z <? 0 then x2d :: to_radix 10 (- z) else to_radix 10 z.

(** ** Searches *)

Record Search : Type := mkSearch {
  se_head : text;
  se_terms : list text;
  se_wheres : list text;
  se_evals : list text;
  se_dedup : option text;
}.

Definition search_new (index sourcetype : text) : Search :=
  mkSearch (B "search index=" ++ index ++ B " sourcetype=" ++ sourcetype) [] [] [] None.

Definition add_term (t : text) (s : Search) : Search :=
  mkSearch (se_head s) (se_terms s ++ [t]) (se_wheres s) (se_evals s) (se_dedup s).
Definition add_where (w : text) (s : Search) : Search :=
  mkSearch (se_head s) (se_terms s) (se_wheres s ++ [w]) (se_evals s) (se_dedup s).

Definition any_of (field : text) (values : list text) (s : Search) : Search :=
  if bool_decide (values = []) then s
  else if existsb needs_literal_compare values
  then add_where (B "(" ++ join (B " OR ") (map (where_eq field) values) ++ B ")") s
  else match in_list field values with Some t => add_term t s | None => s end.

Definition any_of_nums (field : text) (values : list Z) (s : Search) : Search :=
  if bool_decide (values = []) then s
  else add_term (field ++ B " IN (" ++ join (B ", ") (map show_z values) ++ B ")") s.

Definition eq_num (field : text) (value : Z) (s : Search) : Search := add_term (field ++ B "=" ++ show_z value) s.

Definition glob_body (s : text) : text := replace_byte DQUOTE [BACKSLASH; DQUOTE] (replace_byte BACKSLASH [BACKSLASH; BACKSLASH] s).
Definition contains_term (field substr : text) (s : Search) : Search :=
  add_term (field ++ B "=" ++ DQUOTE :: STAR :: glob_body substr ++ [STAR; DQUOTE]) s.

Definition range (field : text) (lo hi : Z) (s : Search) : Search :=
  add_where (field ++ B ">=" ++ show_z lo ++ B " AND " ++ field ++ B "<" ++ show_z hi) s.

Definition eval (name expr : text) (s : Search) : Search :=
  mkSearch (se_head s) (se_terms s) (se_wheres s) (se_evals s ++ [name ++ B "=" ++ expr]) (se_dedup s).
Definition dedup (field : text) (s : Search) : Search :=
  mkSearch (se_head s) (se_terms s) (se_wheres s) (se_evals s) (Some field).

Definition build (s : Search) : text :=
  se_head s ++ concat (map (λ t, SP :: t) (se_terms s)) ++
  (if bool_decide (se_wheres s = []) then [] else B " | where " ++ join (B " AND ") (se_wheres s)) ++
  match se_dedup s with Some f => B " | dedup " ++ f | None => [] end ++
  concat (map (λ e, B " | eval " ++ e) (se_evals s)).

(** [epoch_secs]: seconds and six digits of microseconds, from 1970 on. *)
Definition pad6 (t : text) : text := replicate (6 - length t) x30 ++ t.
Definition epoch_secs (us : Z) : text :=
  let us := Z.max us 0 in to_radix 10 (us / 1000000) ++ B "." ++ pad6 (to_radix 10 (us mod 1000000)).

Definition paginate (search sort_keys : text) (offset limit : Z) (columns : list text) : text :=
  let end_ := wrap 64 (offset + limit) in
  search ++ B " | sort " ++ to_radix 10 end_ ++ SP :: sort_keys ++
  B " | streamstats count as _rn | where _rn>" ++ to_radix 10 offset ++ B " AND _rn<=" ++ to_radix 10 end_ ++
  B " | table " ++ join (B ", ") columns.
Definition count_query (search : text) : text := search ++ B " | stats count as n | table n".
Definition raw_query (search : text) (limit : Z) : text := search ++ B " | head " ++ to_radix 10 limit ++ B " | table _raw".

(** ** Tiers (dims.rs; the write side is [dim_tier] of rows.rs) *)

Definition tier_for (has_wire has_model has_server : bool) : string :=
  match has_wire || has_model, has_server with
  | false, false => "all"
  | false, true => "s"
  | true, false => "wm"
  | true, true => "wms"
  end.

Definition dim_tier (wire_api model server_ip : string) : string :=
  match String.eqb wire_api "*", String.eqb model "*", String.eqb server_ip "*" with
  | false, false, false => "wms"
  | false, false, true => "wm"
  | true, true, false => "s"
  | true, true, true => "all"
  | _, _, _ => "other"
  end.

Definition any_of_s (field : string) (values : list string) (s : Search) : Search := any_of (B field) (map B values) s.
Definition given (l : list string) : bool := negb (bool_decide (l = [])).

Definition apply_parts (wire_apis models server_ips tool_surfaces : list string) (s : Search) : Search :=
  let tier := tier_for (given wire_apis) (given models) (given server_ips) in
  any_of_s "tool_surface" tool_surfaces
    (any_of_s "server_ip" server_ips (any_of_s "model" models (any_of_s "wire_api" wire_apis (any_of_s "dim_tier" [tier] s)))).
Definition apply_filter (f : DimensionFilter) (s : Search) : Search :=
  apply_parts (df_wire_apis f) (df_models f) (df_server_ips f) (df_tool_surfaces f) s.

Definition apply_for_group (f : DimensionFilter) (group_by : option string) (s : Search) : Search :=
  let forced := match group_by with Some g => String.eqb g "wire_api" || String.eqb g "model" | None => false end in
  let tier := tier_for (forced || given (df_wire_apis f)) (forced || given (df_models f)) (given (df_server_ips f)) in
  any_of_s "tool_surface" (df_tool_surfaces f)
    (any_of_s "server_ip" (df_server_ips f) (any_of_s "model" (df_models f)
      (any_of_s "wire_api" (df_wire_apis f) (any_of_s "dim_tier" [tier] s)))).

Example sample_search :
  build (apply_filter (mkFilter ["openai-chat"] ["gpt-*"] [] []) (search_new (B "heron_metrics_10s") (B "heron_metric"))) =
  B "search index=heron_metrics_10s sourcetype=heron_metric dim_tier IN (" ++ quote (B "wm") ++ B ") wire_api IN ("
    ++ quote (B "openai-chat") ++ B ") | where (model == " ++ quote (B "gpt-*") ++ B ")".
Proof. vm_compute. reflexivity. Qed.
Example sample_epoch : map epoch_secs [0; 1700000000123456; -5; 5] = map B ["0.000000"; "1700000000.123456"; "0.000000"; "0.000005"].
Proof. vm_compute. reflexivity. Qed.

(** ** How aglake reads a search *)

(** A quoted string, from after its opening quote; and the matching of a search
    term, in which a star stands for anything. *)
Class SplLanguage : Type := {
  read_string : text → option (text * text);
  glob_match : text → text → bool;
}.

(** The two escapes of a string, and terms without a star. *)
Class SplLaws (L : SplLanguage) : Prop := {
  spl_close (r : text) : read_string (DQUOTE :: r) = Some ([], r);
  spl_quote (r : text) : read_string (BACKSLASH :: DQUOTE :: r) = more DQUOTE (read_string r);
  spl_backslash (r : text) : read_string (BACKSLASH :: BACKSLASH :: r) = more BACKSLASH (read_string r);
  spl_byte (b : byte) (r : text) : b ≠ DQUOTE → b ≠ BACKSLASH → read_string (b :: r) = more b (read_string r);
  glob_literal (p v : text) : STAR ∉ p → glob_match p v = bool_decide (p = v);
}.

(** One item or more, between separators. *)
Fixpoint sep_by {A : Type} (item : text → option (A * text)) (sep : text) (fuel : nat) (t : text) : option (list A * text) :=
  match fuel with
  | O => None
  | S fuel =>
      match item t with
      | Some (x, r) =>
          match strip_prefix sep r with
          | Some r' => (λ p, (x :: p.1, p.2)) <$> sep_by item sep fuel r'
          | None => Some ([x], r)
          end
      | None => None
      end
  end.

Section Reading.
Context `{L : SplLanguage}.

Definition read_quoted (t : text) : option (text * text) :=
  match t with b :: r => if bool_decide (b = DQUOTE) then read_string r else None | [] => None end.

(** A field's name, up to a space. *)
Definition read_field (t : text) : text * text := (until SP t, drop (length (until SP t)) t).

(** [field IN ("a", "b")]. *)
Definition read_term (fuel : nat) (t : text) : option ((text * list text) * text) :=
  let '(f, r) := read_field t in
  match strip_prefix (B " IN (") r with
  | Some r1 =>
      match sep_by read_quoted (B ", ") fuel r1 with
      | Some (vs, r2) => (λ r3, ((f, vs), r3)) <$> strip_prefix (B ")") r2
      | None => None
      end
  | None => None
  end.

(** [field == "a"], and [(field == "a" OR ...)]. *)
Definition read_eq (t : text) : option ((text * text) * text) :=
  let '(f, r) := read_field t in
  match strip_prefix (B " == ") r with
  | Some r1 => (λ p, ((f, p.1), p.2)) <$> read_quoted r1
  | None => None
  end.
Definition read_or (fuel : nat) (t : text) : option (list (text * text) * text) :=
  match strip_prefix (B "(") t with
  | Some r =>
      match sep_by read_eq (B " OR ") fuel r with
      | Some (es, r1) => (λ r2, (es, r2)) <$> strip_prefix (B ")") r1
      | None => None
      end
  | None => None
  end.

(** The terms, each after a space, as long as one can be read. *)
Fixpoint read_terms (width fuel : nat) (t : text) : list (text * list text) * text :=
  match fuel with
  | O => ([], t)
  | S fuel =>
      match t with
      | b :: r =>
          if bool_decide (b = SP) then
            match read_term width r with
            | Some (x, r1) => let '(xs, r2) := read_terms width fuel r1 in (x :: xs, r2)
            | None => ([], t)
            end
          else ([], t)
      | [] => ([], t)
      end
  end.

Definition read_search (fuel : nat) (head t : text) : option (list (text * list text) * list (list (text * text))) :=
  match strip_prefix head t with
  | None => None
  | Some r =>
      let '(terms, r1) := read_terms fuel fuel r in
      match r1 with
      | [] => Some (terms, [])
      | _ =>
          match strip_prefix (B " | where ") r1 with
          | Some r2 =>
              match sep_by (read_or fuel) (B " AND ") fuel r2 with
              | Some (ws, []) => Some (terms, ws)
              | _ => None
              end
          | None => None
          end
      end
  end.

(** The fields of a stored metrics row. *)
Definition field_value (r : MetricRow) (f : text) : option text :=
  if bool_decide (f = B "dim_tier")
  then Some (B (dim_tier (dk_wire_api (row_dims r)) (dk_model (row_dims r)) (dk_server_ip (row_dims r))))
  else col_value r f.

Definition term_holds (r : MetricRow) (t : text * list text) : bool :=
  match field_value r t.1 with Some v => existsb (λ p, glob_match p v) t.2 | None => false end.
Definition eq_holds (r : MetricRow) (e : text * text) : bool :=
  match field_value r e.1 with Some v => bool_decide (v = e.2) | None => false end.

Definition spl_selects (head query : text) (r : MetricRow) : bool :=
  match read_search (length query) head query with
  | Some (terms, ws) => forallb (term_holds r) terms && forallb (existsb (eq_holds r)) ws
  | None => false
  end.
End Reading.

(** ** Reading back *)

Section ReadBack.
Context `{L : SplLanguage} {LL : SplLaws L}.

Lemma quote_reads_back (v r : text) : read_quoted (quote v ++ r) = Some (v, r).
Proof.
  unfold quote, read_quoted. cbn [app]. rewrite bool_decide_eq_true_2 by done. rewrite <- app_assoc. cbn [app].
  induction v as [|b v IH]; [apply spl_close|]. cbn [flat_map].
  repeat case_bool_decide; subst; cbn [app]; rewrite <- ?app_assoc; cbn [app].
  - by rewrite spl_quote, IH.
  - by rewrite spl_backslash, IH.
  - by rewrite spl_byte, IH.
Qed.

Lemma sep_by_print {A : Type} (item : text → option (A * text)) (print : A → text) (sep r : text) (xs : list A) (fuel : nat) :
  (∀ x r', x ∈ xs → item (print x ++ r') = Some (x, r')) → strip_prefix sep r = None →
  xs ≠ [] → (length xs <= fuel)%nat → sep_by item sep fuel (join sep (map print xs) ++ r) = Some (xs, r).
Proof.
  revert fuel. induction xs as [|x xs IH]; intros fuel Hi Hr Hne Hf; [done|]. destruct fuel as [|fuel]; [cbn in Hf; lia|].
  destruct xs as [|y xs].
  - cbn [map join sep_by]. rewrite Hi by (by left). by rewrite Hr.
  - change (join sep (map print (x :: y :: xs))) with (print x ++ sep ++ join sep (map print (y :: xs))).
    cbn [sep_by]. rewrite <- !app_assoc, Hi by (by left). rewrite strip_prefix_app, IH; [done| |done|done|cbn in *; lia].
    intros z r' Hz. apply Hi. by right.
Qed.

Lemma read_field_app (f r : text) : SP ∉ f → read_field (f ++ SP :: r) = (f, SP :: r).
Proof.
  intros Hf. unfold read_field. assert (E : until SP (f ++ SP :: r) = f).
  { induction f as [|b f IH]; cbn; [by rewrite bool_decide_eq_true_2|]. rewrite not_elem_of_cons in Hf.
    rewrite bool_decide_eq_false_2 by (intros ->; tauto). by rewrite IH by tauto. }
  rewrite E. by rewrite drop_app_length.
Qed.

Definition print_term (t : text * list text) : text := t.1 ++ B " IN (" ++ join (B ", ") (map quote t.2) ++ B ")".
Definition print_eq (e : text * text) : text := where_eq e.1 e.2.
Definition print_or (es : list (text * text)) : text := B "(" ++ join (B " OR ") (map print_eq es) ++ B ")".

Lemma read_term_print (fuel : nat) (t : text * list text) (r : text) :
  SP ∉ t.1 → t.2 ≠ [] → (length t.2 <= fuel)%nat → read_term fuel (print_term t ++ r) = Some (t, r).
Proof.
  intros Hf Hne Hl. unfold read_term, print_term. rewrite <- !app_assoc. change (B " IN (") with (SP :: B "IN (").
  cbn [app]. rewrite read_field_app by done. change (SP :: ?x ++ ?y) with ((SP :: x) ++ y). rewrite strip_prefix_app.
  rewrite (sep_by_print read_quoted quote); [|intros; apply quote_reads_back|done|done|done].
  rewrite strip_prefix_app. by destruct t.
Qed.

Lemma read_eq_print (e : text * text) (r : text) : SP ∉ e.1 → read_eq (print_eq e ++ r) = Some (e, r).
Proof.
  intros Hf. unfold read_eq, print_eq, where_eq. rewrite <- !app_assoc. change (B " == ") with (SP :: B "== ").
  cbn [app]. rewrite read_field_app by done. change (SP :: ?x ++ ?y) with ((SP :: x) ++ y). rewrite strip_prefix_app.
  rewrite quote_reads_back. by destruct e.
Qed.

Lemma read_or_print (fuel : nat) (es : list (text * text)) (r : text) :
  (∀ e, e ∈ es → SP ∉ e.1) → es ≠ [] → (length es <= fuel)%nat → read_or fuel (print_or es ++ r) = Some (es, r).
Proof.
  intros He Hne Hl. unfold read_or, print_or. rewrite <- !app_assoc, strip_prefix_app.
  rewrite (sep_by_print read_eq print_eq); [|intros x r' Hx; by apply read_eq_print, He|done|done|done].
  by rewrite strip_prefix_app.
Qed.

(** A search of terms and comparisons that can be read back. *)
Definition term_ok (fuel : nat) (t : text * list text) : Prop := SP ∉ t.1 ∧ t.2 ≠ [] ∧ (length t.2 <= fuel)%nat.
Definition or_ok (fuel : nat) (es : list (text * text)) : Prop := (∀ e, e ∈ es → SP ∉ e.1) ∧ es ≠ [] ∧ (length es <= fuel)%nat.

Lemma read_terms_print (width fuel : nat) (ts : list (text * list text)) (r : text) :
  Forall (term_ok width) ts → (length ts <= fuel)%nat → r = [] ∨ (∃ r', r = B " | where " ++ r') →
  read_terms width fuel (concat (map (λ t, SP :: print_term t) ts) ++ r) = (ts, r).
Proof.
  intros Hok Hl Hr. revert fuel Hl. induction Hok as [|t ts [H1 [H2 H3]] _ IH]; intros fuel Hl; cbn [map concat app].
  - destruct Hr as [-> | [r' ->]]; [by destruct fuel|]. destruct fuel as [|fuel]; [done|]. by destruct r'.
  - destruct fuel as [|fuel]; [cbn in Hl; lia|]. cbn [read_terms]. rewrite bool_decide_eq_true_2 by done.
    rewrite <- app_assoc, read_term_print by done. rewrite IH; [done|]. cbn in Hl. lia.
Qed.

Lemma read_search_print (fuel : nat) (head : text) (ts : list (text * list text)) (ws : list (list (text * text))) :
  Forall (term_ok fuel) ts → Forall (or_ok fuel) ws → (length ts <= fuel)%nat → (length ws <= fuel)%nat →
  read_search fuel head (build (mkSearch head (map print_term ts) (map print_or ws) [] None)) = Some (ts, ws).
Proof.
  intros Ht Hw L1 L2. unfold read_search, build. cbn [se_head se_terms se_wheres se_evals se_dedup map concat app].
  rewrite app_nil_r, strip_prefix_app, map_map.
  destruct ws as [|w ws].
  - cbn [map]. rewrite bool_decide_eq_true_2, read_terms_print by (done || by left). done.
  - rewrite bool_decide_eq_false_2 by done. rewrite read_terms_print; [|done|done|right; by eexists].
    destruct (B " | where " ++ join (B " AND ") (map print_or (w :: ws))) eqn:E; [done|]. rewrite <- E, strip_prefix_app.
    rewrite <- (app_nil_r (join _ _)), (sep_by_print (read_or fuel) print_or); [done| |done|done|done].
    intros x r' Hx. rewrite Forall_forall in Hw. destruct (Hw x Hx) as (W1 & W2 & W3). by apply read_or_print.
Qed.

(** What a filter on one field adds. *)
Definition added (field : text) (vs : list text) : list (text * list text) * list (list (text * text)) :=
  if bool_decide (vs = []) then ([], [])
  else if existsb needs_literal_compare vs then ([], [map (pair field) vs])
  else ([(field, vs)], []).

Lemma any_of_print (field : text) (vs : list text) (head : text) (ts : list (text * list text)) (ws : list (list (text * text))) :
  any_of field vs (mkSearch head (map print_term ts) (map print_or ws) [] None) =
  mkSearch head (map print_term (ts ++ (added field vs).1)) (map print_or (ws ++ (added field vs).2)) [] None.
Proof.
  unfold any_of, added, in_list. case_bool_decide as E; cbn [fst snd]; [by rewrite !app_nil_r|].
  destruct (existsb needs_literal_compare vs); cbn [fst snd]; rewrite app_nil_r, map_app; [|done].
  unfold add_where. cbn [se_head se_terms se_wheres se_evals se_dedup map]. unfold print_or. by rewrite map_map.
Qed.

Lemma added_ok (field : text) (vs : list text) (fuel : nat) :
  SP ∉ field → (length vs <= fuel)%nat →
  Forall (term_ok fuel) (added field vs).1 ∧ Forall (or_ok fuel) (added field vs).2.
Proof.
  intros Hf Hl. unfold added. case_bool_decide as E; [by split|]. case_match; split; try constructor; try constructor.
  - intros e (x & -> & _)%list_elem_of_fmap. done.
  - rewrite length_map. split; [by destruct vs|done].
  - done.
  - done.
Qed.

Lemma added_holds (r : MetricRow) (field : text) (vs : list text) :
  forallb (term_holds r) (added field vs).1 && forallb (existsb (eq_holds r)) (added field vs).2 =
  bool_decide (vs = []) || match field_value r field with Some v => bool_decide (v ∈ vs) | None => false end.
Proof.
  unfold added. case_bool_decide as E; [done|]. destruct (existsb needs_literal_compare vs) eqn:Es; cbn [fst snd forallb orb andb].
  - rewrite andb_true_r. unfold eq_holds. destruct (field_value r field) as [v|] eqn:Ev.
    + apply eq_iff_eq_true. rewrite existsb_exists, bool_decide_eq_true. split.
      * intros (e & He & Hv). apply list_elem_of_In, list_elem_of_fmap in He as (x & -> & Hx). cbn in Hv. rewrite Ev in Hv.
        by apply bool_decide_eq_true in Hv as ->.
      * intros Hv. exists (field, v). split; [by apply list_elem_of_In, list_elem_of_fmap_2|]. cbn. rewrite Ev. by apply bool_decide_eq_true.
    + apply not_true_is_false. rewrite existsb_exists. intros (e & He & Hv).
      apply list_elem_of_In, list_elem_of_fmap in He as (x & -> & Hx). cbn in Hv. by rewrite Ev in Hv.
  - rewrite !andb_true_r. unfold term_holds. cbn [fst snd]. destruct (field_value r field) as [v|]; [|done].
    apply eq_iff_eq_true. rewrite existsb_exists, bool_decide_eq_true. split.
    + intros (p & Hp & Hg). apply list_elem_of_In in Hp. rewrite glob_literal in Hg; [by apply bool_decide_eq_true in Hg as <-|].
      intros Hstar. assert (true = false) as [=]. rewrite <- Es. symmetry. apply existsb_exists. exists p.
      split; [by apply list_elem_of_In|]. by apply bool_decide_eq_true.
    + intros Hv. exists v. split; [by apply list_elem_of_In|]. rewrite glob_literal; [by apply bool_decide_eq_true|].
      intros Hstar. assert (true = false) as [=]. rewrite <- Es. symmetry. apply existsb_exists. exists v.
      split; [by apply list_elem_of_In|]. by apply bool_decide_eq_true.
Qed.
End ReadBack.

(** ** What a filter selects from aglake *)

Section Selection.
Context `{L : SplLanguage} {LL : SplLaws L}.

Lemma length_join_ge (sep : text) (l : list text) (x : text) : x ∈ l → (length x <= length (join sep l))%nat.
Proof.
  induction l as [|y l IH]; [by intros ?%elem_of_nil|]. intros [->|Hx]%elem_of_cons.
  - destruct l as [|z l]; [done|]. change (join sep (y :: z :: l)) with (y ++ sep ++ join sep (z :: l)). rewrite length_app. lia.
  - destruct l as [|z l]; [by apply elem_of_nil in Hx|].
    change (join sep (y :: z :: l)) with (y ++ sep ++ join sep (z :: l)). rewrite !length_app. specialize (IH Hx). lia.
Qed.

Lemma length_join_count (sep : text) (l : list text) :
  (∀ x, x ∈ l → (0 < length x)%nat) → (length l <= length (join sep l))%nat.
Proof.
  induction l as [|y l IH]; intros H; [done|]. specialize (IH ltac:(intros x Hx; apply H; by right)).
  pose proof (H y ltac:(by left)). destruct l as [|z l]; [cbn in *; lia|].
  change (join sep (y :: z :: l)) with (y ++ sep ++ join sep (z :: l)). rewrite !length_app. cbn [length] in *. lia.
Qed.

Lemma length_concat_ge (l : list text) (x : text) : x ∈ l → (length x <= length (concat l))%nat.
Proof.
  induction l as [|y l IH]; [by intros ?%elem_of_nil|]. intros [->|Hx]%elem_of_cons; cbn; rewrite length_app; [lia|].
  specialize (IH Hx). lia.
Qed.
Lemma length_concat_count (l : list text) : (∀ x, x ∈ l → (0 < length x)%nat) → (length l <= length (concat l))%nat.
Proof.
  induction l as [|y l IH]; intros H; [done|]. specialize (IH ltac:(intros x Hx; apply H; by right)).
  pose proof (H y ltac:(by left)). cbn. rewrite length_app. lia.
Qed.

Lemma quote_length (v : text) : (0 < length (quote v))%nat.
Proof. unfold quote. cbn [length]. lia. Qed.

Lemma values_length (f : text) (vs : list text) :
  (length vs <= length (print_term (f, vs)))%nat ∧ (length vs <= length (print_or (map (pair f) vs)))%nat.
Proof.
  split.
  - unfold print_term. cbn [fst snd]. rewrite !length_app. pose proof (length_join_count (B ", ") (map quote vs)) as H.
    rewrite length_map in H. specialize (H ltac:(intros x (v & -> & _)%list_elem_of_fmap; apply quote_length)). lia.
  - unfold print_or. rewrite !length_app. pose proof (length_join_count (B " OR ") (map print_eq (map (pair f) vs))) as H.
    rewrite !length_map in H. specialize (H ltac:(intros x (e & -> & _)%list_elem_of_fmap; unfold print_eq, where_eq; rewrite !length_app; pose proof (quote_length e.2); lia)). lia.
Qed.

(** Filters on fields, one after the other. *)
Definition apply_all (parts : list (text * list text)) (s : Search) : Search :=
  foldl (λ s p, any_of p.1 p.2 s) s parts.
Definition all_added (parts : list (text * list text)) : list (text * list text) * list (list (text * text)) :=
  (parts ≫= λ p, (added p.1 p.2).1, parts ≫= λ p, (added p.1 p.2).2).

Lemma apply_all_print (parts : list (text * list text)) (head : text) (ts : list (text * list text)) (ws : list (list (text * text))) :
  apply_all parts (mkSearch head (map print_term ts) (map print_or ws) [] None) =
  mkSearch head (map print_term (ts ++ (all_added parts).1)) (map print_or (ws ++ (all_added parts).2)) [] None.
Proof.
  unfold all_added. cbn [fst snd]. revert ts ws. induction parts as [|[f vs] parts IH]; intros ts ws; cbn [apply_all foldl].
  { by rewrite !app_nil_r. }
  rewrite any_of_print. unfold apply_all in IH. rewrite IH, !bind_cons. cbn [fst snd]. by rewrite <- !app_assoc.
Qed.

Lemma build_length (head : text) (ts : list (text * list text)) (ws : list (list (text * text))) :
  let n := length (build (mkSearch head (map print_term ts) (map print_or ws) [] None)) in
  (length ts <= n)%nat ∧ (length ws <= n)%nat ∧ (∀ t, t ∈ ts → (length (print_term t) <= n)%nat) ∧
  (∀ w, w ∈ ws → (length (print_or w) <= n)%nat).
Proof.
  cbv zeta. unfold build. cbn [se_head se_terms se_wheres se_evals se_dedup map concat]. rewrite !length_app, map_map.
  set (T := length (concat _)). set (W := length (if bool_decide _ then _ else _)).
  assert (HT : (length ts <= T)%nat ∧ ∀ t, t ∈ ts → (length (print_term t) <= T)%nat).
  { unfold T. split.
    - pose proof (length_concat_count (map (λ t, SP :: print_term t) ts)) as H. rewrite length_map in H. apply H.
      intros x (t & -> & _)%list_elem_of_fmap. cbn. lia.
    - intros t Ht. pose proof (length_concat_ge (map (λ t, SP :: print_term t) ts) (SP :: print_term t)) as H.
      cbn [length] in H. specialize (H (list_elem_of_fmap_2 _ _ _ Ht)). lia. }
  assert (HW : (length ws <= W)%nat ∧ ∀ w, w ∈ ws → (length (print_or w) <= W)%nat).
  { unfold W. destruct ws as [|w0 ws0]; [split; [done|by intros ? ?%elem_of_nil]|]. rewrite bool_decide_eq_false_2 by done.
    rewrite length_app. split.
    - pose proof (length_join_count (B " AND ") (map print_or (w0 :: ws0))) as H. rewrite length_map in H.
      specialize (H ltac:(intros x (t & -> & _)%list_elem_of_fmap; cbn; lia)). lia.
    - intros w Hw. pose proof (length_join_ge (B " AND ") (map print_or (w0 :: ws0)) (print_or w) (list_elem_of_fmap_2 _ _ _ Hw)). lia. }
  destruct HT as [T1 T2], HW as [W1 W2]. split_and!; [lia|lia| |].
  - intros t Ht. specialize (T2 t Ht). lia.
  - intros w Hw. specialize (W2 w Hw). lia.
Qed.

Lemma spl_selects_all (parts : list (text * list text)) (index sourcetype : text) (r : MetricRow) :
  (∀ p, p ∈ parts → SP ∉ p.1) →
  spl_selects (se_head (search_new index sourcetype)) (build (apply_all parts (search_new index sourcetype))) r =
  forallb (λ p, bool_decide (p.2 = []) || match field_value r p.1 with Some v => bool_decide (v ∈ p.2) | None => false end) parts.
Proof.
  intros Hsp. change (search_new index sourcetype) with (mkSearch (se_head (search_new index sourcetype)) (map print_term []) (map print_or []) [] None) at 2.
  rewrite apply_all_print. cbn [app]. set (head := se_head _). set (ts := (all_added parts).1). set (ws := (all_added parts).2).
  unfold spl_selects. destruct (build_length head ts ws) as (L1 & L2 & L3 & L4). cbv zeta in *.
  rewrite read_search_print; [| | |done|done].
  - unfold ts, ws, all_added. cbn [fst snd]. clear -LL. induction parts as [|[f vs] parts IH]; [done|].
    rewrite !bind_cons, !forallb_app. cbn [forallb fst snd]. rewrite <- IH, <- added_holds.
    destruct (forallb _ (added f vs).1), (forallb _ (added f vs).2), (forallb (term_holds r) _); done.
  - apply Forall_forall. intros t Ht. pose proof Ht as Ht'. unfold ts, all_added in Ht. cbn [fst] in Ht.
    apply list_elem_of_bind in Ht as ([f vs] & Hin & Hp).
    specialize (L3 t Ht'). unfold added in Hin. cbn [fst snd] in Hin.
    case_bool_decide as E; [by apply elem_of_nil in Hin|]. case_match; [by apply elem_of_nil in Hin|].
    apply list_elem_of_singleton in Hin as ->. split_and!; [by apply (Hsp (f, vs))|done|]. cbn [snd].
    pose proof (proj1 (values_length f vs)). lia.
  - apply Forall_forall. intros w Hw. pose proof Hw as Hw'. unfold ws, all_added in Hw. cbn [snd] in Hw.
    apply list_elem_of_bind in Hw as ([f vs] & Hin & Hp).
    specialize (L4 w Hw'). unfold added in Hin. cbn [fst snd] in Hin.
    case_bool_decide as E; [by apply elem_of_nil in Hin|]. case_match; [|by apply elem_of_nil in Hin].
    apply list_elem_of_singleton in Hin as ->. split_and!.
    + intros e (x & -> & _)%list_elem_of_fmap. by apply (Hsp (f, vs)).
    + by destruct vs.
    + rewrite length_map. pose proof (proj2 (values_length f vs)). lia.
Qed.
End Selection.

Section Equivalence.
Context `{L : SplLanguage} {LL : SplLaws L}.

Definition filter_parts (f : DimensionFilter) (tier : string) : list (text * list text) :=
  [(B "dim_tier", [B tier]); (B "wire_api", map B (df_wire_apis f)); (B "model", map B (df_models f));
   (B "server_ip", map B (df_server_ips f)); (B "tool_surface", map B (df_tool_surfaces f))].

Lemma map_B_nil (vs : list string) : bool_decide (map B vs = []) = bool_decide (vs = []).
Proof. apply bool_decide_ext. by destruct vs. Qed.

(** The tier and the value filters pick what the stars and the lists pick. *)
Lemma tier_selects (f : DimensionFilter) (forced : bool) (r : MetricRow) :
  filter_ok f →
  forallb (λ p, bool_decide (p.2 = []) || match field_value r p.1 with Some v => bool_decide (v ∈ p.2) | None => false end)
    (filter_parts f (tier_for (forced || given (df_wire_apis f)) (forced || given (df_models f)) (given (df_server_ips f)))) =
  forallb (holds r) (filter_preds f forced).
Proof.
  intros (Hw & Hm & Hs). rewrite holds_filter. destruct r as [[src w m s] su]. cbn [row_dims row_surface dk_wire_api dk_model dk_server_ip].
  unfold filter_parts. cbn [forallb fst snd]. rewrite !map_B_nil.
  change (field_value _ (B "dim_tier")) with (Some (B (dim_tier w m s))).
  change (field_value _ (B "wire_api")) with (Some (B w)). change (field_value _ (B "model")) with (Some (B m)).
  change (field_value _ (B "server_ip")) with (Some (B s)). change (field_value _ (B "tool_surface")) with (B <$> su).
  rewrite (bool_decide_eq_false_2 ([_] = [])) by done. cbn [orb]. rewrite !elem_of_map_B.
  assert (Et : ∀ t : string, bool_decide (B (dim_tier w m s) ∈ [B t]) = String.eqb (dim_tier w m s) t).
  { intros t. apply eq_iff_eq_true. rewrite bool_decide_eq_true, list_elem_of_singleton, String.eqb_eq. split; [apply (inj B)|by intros ->]. }
  rewrite Et.
  assert (Esu : (bool_decide (df_tool_surfaces f = []) || match B <$> su with Some v => bool_decide (v ∈ map B (df_tool_surfaces f)) | None => false end)
    = surface_in (df_tool_surfaces f) su).
  { unfold surface_in, asks_for. destruct su; cbn; [by rewrite elem_of_map_B|by rewrite orb_false_r]. }
  rewrite Esu, andb_true_r. unfold star_if, not_star_if, given, dim_tier.
  assert (Estar : ∀ v : string, bool_decide (v = "*"%string) = String.eqb v "*").
  { intros v. apply eq_iff_eq_true. by rewrite bool_decide_eq_true, String.eqb_eq. }
  rewrite !Estar, (bool_decide_eq_true_2 ([] = [])) by done.
  assert (Hin : ∀ (v : string) (vs : list string), "*"%string ∉ vs → String.eqb v "*" = true → bool_decide (v ∈ vs) = false).
  { intros v vs Hn ->%String.eqb_eq. by apply bool_decide_eq_false_2. }
  pose proof (Hin w _ Hw) as Iw. pose proof (Hin m _ Hm) as Im. pose proof (Hin s _ Hs) as Is.
  destruct (String.eqb w "*"), (String.eqb m "*"), (String.eqb s "*");
    rewrite ?Iw, ?Im, ?Is by done; clear Iw Im Is Hin Estar Esu Et;
    destruct forced, (bool_decide (df_wire_apis f = [])), (bool_decide (df_models f = [])), (bool_decide (df_server_ips f = []));
    cbn; rewrite ?andb_true_r, ?andb_false_r; cbn; rewrite ?andb_assoc; done || (repeat destruct (bool_decide _); done).
Qed.

(** C27: the two ways of choosing a metrics tier agree: on every row the search
    built for aglake, which asks for an exact tier, selects what the clause built
    for the SQL stores selects with its stars, grouped or not; this includes
    values with a star, which are compared literally. *)
Theorem aglake_selects_what_sql_selects :
  ∀ (SQ : SqlStrings) (escape : text → text) (RB : ReadsBack SQ escape)
    (f : DimensionFilter) (group_by : option string) (index sourcetype : text) (r : MetricRow),
    filter_ok f →
    let s0 := search_new index sourcetype in
    spl_selects (se_head s0) (build (apply_filter f s0)) r = sql_selects (build_dimension_where f escape) r ∧
    spl_selects (se_head s0) (build (apply_for_group f group_by s0)) r =
    sql_selects (match group_by with Some g => build_dimension_where_for_group f g escape | None => build_dimension_where f escape end) r.
Proof.
  intros SQ escape RB f group_by index sourcetype r Hf. cbv zeta.
  assert (Hsp : ∀ tier p, p ∈ filter_parts f tier → SP ∉ p.1).
  { intros tier p Hp. unfold filter_parts in Hp. rewrite !elem_of_cons, elem_of_nil in Hp.
    destruct Hp as [->|[->|[->|[->|[->|[]]]]]]; apply (proj1 (bool_decide_eq_true _)); vm_compute; reflexivity. }
  assert (Ha : apply_filter f (search_new index sourcetype) = apply_all
    (filter_parts f (tier_for (false || given (df_wire_apis f)) (false || given (df_models f)) (given (df_server_ips f)))) (search_new index sourcetype)) by done.
  set (forced := match group_by with Some g => grouped_by g | None => false end).
  assert (Hg : apply_for_group f group_by (search_new index sourcetype) = apply_all
    (filter_parts f (tier_for (forced || given (df_wire_apis f)) (forced || given (df_models f)) (given (df_server_ips f)))) (search_new index sourcetype)) by done.
  rewrite Ha, Hg, !spl_selects_all, !tier_selects by (done || apply Hsp). split.
  - by rewrite (proj2 (build_is_print escape f "")), (selects_print escape).
  - unfold forced. destruct group_by as [g|].
    + by rewrite (proj1 (build_is_print escape f g)), (selects_print escape).
    + by rewrite (proj2 (build_is_print escape f "")), (selects_print escape).
Qed.
End Equivalence.

(** ** A reader *)

Fixpoint read_dq (t : text) : option (text * text) :=
  match t with
  | [] => None
  | b :: r =>
      if bool_decide (b = DQUOTE) then Some ([], r)
      else if bool_decide (b = BACKSLASH) then
        match r with
        | c :: r' =>
            if bool_decide (c = DQUOTE) then more DQUOTE (read_dq r')
            else if bool_decide (c = BACKSLASH) then more BACKSLASH (read_dq r')
            else more BACKSLASH (more c (read_dq r'))
        | [] => None
        end
      else more b (read_dq r)
  end.
Fixpoint glob (p v : text) : bool :=
  match p with
  | [] => bool_decide (v = [])
  | b :: p' =>
      if bool_decide (b = STAR) then
        (fix go (v : text) : bool := glob p' v || match v with [] => false | _ :: v' => go v' end) v
      else match v with c :: v' => bool_decide (b = c) && glob p' v' | [] => false end
  end.

#[local] Instance aglake_language : SplLanguage := {| read_string := read_dq; glob_match := glob |}.
#[local] Instance aglake_laws : SplLaws aglake_language.
Proof.
  split.
  - done.
  - done.
  - done.
  - intros b r H1 H2. cbn. by rewrite !bool_decide_eq_false_2.
  - intros p. cbn. induction p as [|b p IH]; intros v Hp; cbn [glob].
    + apply bool_decide_ext. split; congruence.
    + rewrite not_elem_of_cons in Hp. destruct Hp as [Hb Hp]. rewrite bool_decide_eq_false_2 by congruence.
      destruct v as [|c v]; [by rewrite bool_decide_eq_false_2|]. rewrite IH by done. rewrite <- bool_decide_and.
      apply bool_decide_ext. split; [intros [-> ->]; done|]. by intros [= -> ->].
Defined.

Definition hostile_models : DimensionFilter := mkFilter ["openai-chat"] ["gpt-*"; "\')"] [] [].

Lemma aglake_selects_what_sql_selects_witness :
  let s0 := search_new (B "idx") (B "heron_metric") in
  let r := mkRow (mkDim "tap" "openai-chat" "gpt-4" "*") None in
  spl_selects (se_head s0) (build (apply_filter hostile_models s0)) r =
  @sql_selects read_ch (build_dimension_where hostile_models escape_clickhouse) r.
Proof.
  refine (proj1 (aglake_selects_what_sql_selects read_ch escape_clickhouse (@clickhouse_reads_back read_ch read_ch_clickhouse)
    hostile_models None (B "idx") (B "heron_metric") (mkRow (mkDim "tap" "openai-chat" "gpt-4" "*") None) _)).
  unfold filter_ok, hostile_models. cbn. rewrite !not_elem_of_cons. split_and!; try done; apply not_elem_of_nil.
Defined.

(** As a term, the value with a star would have matched a model nobody asked for. *)
Example star_stays_literal :
  let s0 := search_new (B "idx") (B "heron_metric") in
  let q := build (apply_filter (mkFilter ["openai-chat"] ["gpt-*"] [] []) s0) in
  map (λ m, spl_selects (se_head s0) q (mkRow (mkDim "tap" "openai-chat" m "*") None)) ["gpt-4"; "gpt-*"]%string = [false; true] ∧
  term_holds (mkRow (mkDim "tap" "openai-chat" "gpt-4" "*") None) (B "model", [B "gpt-*"]) = true.
Proof. vm_compute. split; reflexivity. Qed.
