(* ===== verification/Calendar.v ===== *)
(** * Minute labels (h-capture/src/pcap_dump.rs, h-pcap-extract/src/format.rs)

    The name of a minute of UTC, [YYYYMMDDTHHMM], and its inverse, with the
    conversions between days and civil dates behind them.  The writer and the
    reader of packet dumps each have a copy of this code. *)

From Stdlib Require Import Strings.Byte Strings.String ZArith Lia.
From stdpp Require Import base gmap sets list strings.
From S2P Require Import Prelude.
From S2P Require Import Text.

Open Scope Z_scope.
#[local] Ltac Zify.zify_post_hook ::= Z.to_euclidean_division_equations.

(** ** The code *)

Definition MICROS_PER_MINUTE : Z := 60 * 1000000.

Definition ymd_to_days (y m d : Z) : Z :=
  let y := if m <=? 2 then y - 1 else y in
  let era := tdiv (if 0 <=? y then y else y - 399) 400 in
  let yoe := y - era * 400 in
  let m_shift := if 2 <? m then m - 3 else m + 9 in
  let doy := (153 * m_shift + 2) / 5 + d - 1 in
  let doe := yoe * 365 + yoe / 4 - yoe / 100 + doy in
  era * 146097 + doe - 719468.

Definition days_to_ymd (days : Z) : Z * Z * Z :=
  let z := days + 719468 in
  let era := tdiv (if 0 <=? z then z else z - 146096) 146097 in
  let doe := z - era * 146097 in
  let yoe := (doe - doe / 1460 + doe / 36524 - doe / 146096) / 365 in
  let y := yoe + era * 400 in
  let doy := doe - (365 * yoe + yoe / 4 - yoe / 100) in
  let mp := (5 * doy + 2) / 153 in
  let d := doy - (153 * mp + 2) / 5 + 1 in
  let m := if mp <? 10 then mp + 3 else mp - 9 in
  let y := if m <=? 2 then y + 1 else y in
  (swrap 32 y, m, d).

(** [format!("{z:0w}")]: at least [w] characters, with zeros after the sign. *)
Fixpoint digits (w : nat) (z : Z) : text :=
  match w with
  | O => []
  | S w => digits w (z / 10) ++ [Zbyte (48 + z mod 10)]
  end.
Definition pad_num (w : nat) (z : Z) : text :=
  if z <? 0
  then x2d :: (if - z <? 10 ^ (Z.of_nat w - 1) then digits (w - 1) (- z) else to_radix 10 (- z))
  else if z <? 10 ^ Z.of_nat w then digits w z else to_radix 10 z.

Definition minute_label (minute_key : Z) : text :=
  let total_secs := minute_key * 60 in
  let days := total_secs / 86400 in
  let rem := total_secs mod 86400 in
  let '(h, m) := (rem / 3600, (rem mod 3600) / 60) in
  let '(y, mo, d) := days_to_ymd days in
  pad_num 4 y ++ pad_num 2 mo ++ pad_num 2 d ++ B "T" ++ pad_num 2 h ++ pad_num 2 m.

Definition is_digit (b : byte) : bool := in_range 48 57 b.

Definition parse_minute_label (s : text) : option Z :=
  if negb (length s =? 13)%nat || negb (bool_decide (nth 8 s x00 = x54)) then None
  else if negb (forallb is_digit (take 8 s)) then None
  else if negb (forallb is_digit (drop 9 s)) then None
  else
    y ← parse_digits 10 0 (take 4 s);
    mo ← parse_digits 10 0 (take 2 (drop 4 s));
    d ← parse_digits 10 0 (take 2 (drop 6 s));
    h ← parse_digits 10 0 (take 2 (drop 9 s));
    mi ← parse_digits 10 0 (take 2 (drop 11 s));
    if negb ((1 <=? mo) && (mo <=? 12)) || negb ((1 <=? d) && (d <=? 31)) || (23 <? h) || (59 <? mi) then None
    else
      let days := ymd_to_days y mo d in
      if negb (bool_decide (days_to_ymd days = (y, mo, d))) then None
      else Some (days * 1440 + h * 60 + mi).

Example minute_label_anchored :
  minute_label 0 = B "19700101T0000" ∧ minute_label 29633130 = B "20260505T1330" ∧
  map parse_minute_label (map B ["20260505T2530"; "20260532T1330"; "20261305T1330"; "20260505X1330"; "20260230T0000"; "19700101T0001"])
  = [None; None; None; None; None; Some 1].
Proof. vm_compute. split_and!; reflexivity. Qed.

(** ** The calendar *)

Definition leap (y : Z) : bool := ((y mod 4 =? 0) && negb (y mod 100 =? 0)) || (y mod 400 =? 0).
Definition month_days (y m : Z) : Z :=
  if m =? 2 then (if leap y then 29 else 28)
  else if (m =? 4) || (m =? 6) || (m =? 9) || (m =? 11) then 30 else 31.
Definition valid_date (t : Z * Z * Z) : Prop :=
  let '(y, m, d) := t in 1 <= m <= 12 ∧ 1 <= d <= month_days y m.
Definition next_day (t : Z * Z * Z) : Z * Z * Z :=
  let '(y, m, d) := t in
  if d <? month_days y m then (y, m, d + 1)
  else if m <? 12 then (y, m + 1, 1) else (y + 1, 1, 1).

(** ** Years and months *)

(** Years here begin in March; [year_start] is the first day of a year of the
    400-year cycle and [month_start] the first day of a month of the year. *)
Definition year_start (Y : Z) : Z := 365 * Y + Y / 4 - Y / 100.
Definition year_len (Y : Z) : Z := if leap (Y + 1) then 366 else 365.
Definition month_start (mp : Z) : Z := (153 * mp + 2) / 5.

Lemma tdiv_floor (b c x : Z) : 0 < b → c = b - 1 → tdiv (if 0 <=? x then x else x - c) b = x / b.
Proof.
  intros Hb ->. unfold tdiv. case_match eqn:E; [apply Z.leb_le in E|apply Z.leb_gt in E].
  - by rewrite Z.quot_div_nonneg by lia.
  - Z.to_euclidean_division_equations. nia.
Qed.

Definition yoe_of (doe : Z) : Z := (doe - doe / 1460 + doe / 36524 - doe / 146096) / 365.

Lemma yoe_mono x y : 0 <= x <= y → y < 146097 → yoe_of x <= yoe_of y.
Proof.
  intros Hx Hy. unfold yoe_of. apply Z.div_le_mono; [lia|].
  assert (x / 36524 <= y / 36524) by (apply Z.div_le_mono; lia).
  assert (y / 1460 - x / 1460 <= y - x).
  { destruct (decide (x = y)) as [->|]; [lia|]. assert (y / 1460 <= x / 1460 + (y - x)); [|lia].
    rewrite <-Z.div_add by lia. apply Z.div_le_mono; lia. }
  destruct (decide (x = y)) as [->|]; [lia|].
  destruct (decide (y = 146096)) as [->|]; [|rewrite !(Z.div_small _ 146096) by lia; lia].
  rewrite (Z.div_small x 146096) by lia. change (146096 / 1460) with 100. change (146096 / 36524) with 4. change (146096 / 146096) with 1.
  change (146096 / 1460) with 100 in H0. clear H.
  assert (x / 36524 < 4) as H4 by (apply Z.div_lt_upper_bound; [reflexivity|change (36524 * 4) with 146096; lia]).
  clear -H0 H4. lia.
Qed.

Lemma year_table : forallb (λ Y, (yoe_of (year_start Y) =? Y) && (yoe_of (year_start Y + year_len Y - 1) =? Y)
  && (year_start Y + year_len Y =? if Y =? 399 then 146097 else year_start (Y + 1))
  && (0 <=? year_start Y) && (year_start Y + year_len Y <=? 146097)) (map Z.of_nat (seq 0 400)) = true.
Proof. vm_compute. reflexivity. Qed.

Lemma year_facts Y : 0 <= Y < 400 →
  yoe_of (year_start Y) = Y ∧ yoe_of (year_start Y + year_len Y - 1) = Y ∧
  year_start Y + year_len Y = (if Y =? 399 then 146097 else year_start (Y + 1)) ∧ 0 <= year_start Y ∧ year_start Y + year_len Y <= 146097.
Proof.
  intros HY. pose proof year_table as HE. rewrite forallb_forall in HE.
  assert (In Y (map Z.of_nat (seq 0 400))) as HIn.
  { apply in_map_iff. exists (Z.to_nat Y). rewrite in_seq. lia. }
  specialize (HE Y HIn).
  rewrite !andb_true_iff, !Z.eqb_eq, !Z.leb_le in HE. tauto.
Qed.

Lemma year_len_bounds Y : 365 <= year_len Y <= 366.
Proof. unfold year_len. case_match; lia. Qed.

Lemma yoe_spec Y doy : 0 <= Y < 400 → 0 <= doy < year_len Y → yoe_of (year_start Y + doy) = Y.
Proof.
  intros HY Hd. destruct (year_facts Y HY) as (H1 & H2 & _ & H3 & H4).
  pose proof (yoe_mono (year_start Y) (year_start Y + doy)).
  pose proof (yoe_mono (year_start Y + doy) (year_start Y + year_len Y - 1)). lia.
Qed.

Lemma year_of_day doe : 0 <= doe < 146097 →
  ∃ Y doy, 0 <= Y < 400 ∧ 0 <= doy < year_len Y ∧ doe = year_start Y + doy.
Proof.
  intros [Hd Hlt]. revert Hlt. pattern doe. apply natlike_ind; [|clear doe Hd; intros doe Hd IH Hlt|done].
  { intros _. exists 0, 0. vm_compute. split_and!; congruence. }
  destruct IH as (Y & doy & HY & Hdoy & ->); [lia|].
  destruct (decide (doy + 1 < year_len Y)); [exists Y, (doy + 1); lia|].
  destruct (year_facts Y HY) as (_ & _ & E & _). destruct (Z.eqb_spec Y 399); [lia|].
  exists (Y + 1), 0. pose proof (year_len_bounds (Y + 1)). lia.
Qed.

(** A day of the March-based year and its month. *)
Definition month_of (doy : Z) : Z := (5 * doy + 2) / 153.
Definition civil_month (mp : Z) : Z := if mp <? 10 then mp + 3 else mp - 9.
Definition month_shift (m : Z) : Z := if 2 <? m then m - 3 else m + 9.

Lemma month_table : forallb (λ doy, let mp := month_of doy in
    (0 <=? mp) && (mp <=? 11) && (month_start mp <=? doy) && (doy <? month_start mp + month_days 4 (civil_month mp)))
  (map Z.of_nat (seq 0 366)) = true.
Proof. vm_compute. reflexivity. Qed.

Lemma month_facts doy : 0 <= doy < 366 →
  0 <= month_of doy <= 11 ∧ month_start (month_of doy) <= doy < month_start (month_of doy) + month_days 4 (civil_month (month_of doy)).
Proof.
  intros Hd. pose proof month_table as HE. rewrite forallb_forall in HE.
  assert (In doy (map Z.of_nat (seq 0 366))) as HIn.
  { apply in_map_iff. exists (Z.to_nat doy). rewrite in_seq. lia. }
  specialize (HE doy HIn). cbv zeta in HE. rewrite !andb_true_iff, !Z.leb_le, Z.ltb_lt in HE. tauto.
Qed.

Lemma months : ∀ m, 1 <= m <= 12 →
  m = 1 ∨ m = 2 ∨ m = 3 ∨ m = 4 ∨ m = 5 ∨ m = 6 ∨ m = 7 ∨ m = 8 ∨ m = 9 ∨ m = 10 ∨ m = 11 ∨ m = 12.
Proof. lia. Qed.
Ltac each_month H := apply months in H; destruct_or! H; subst.

Lemma leap_period y k : leap (y + k * 400) = leap y.
Proof.
  unfold leap. rewrite Z.mod_add by lia.
  replace (y + k * 400) with (y + (k * 4) * 100) at 2 by lia. rewrite Z.mod_add by lia.
  replace (y + k * 400) with (y + (k * 100) * 4) by lia. by rewrite Z.mod_add by lia.
Qed.

Lemma month_shift_civil m : 1 <= m <= 12 → 0 <= month_shift m <= 11 ∧ civil_month (month_shift m) = m.
Proof. intros Hm. each_month Hm; vm_compute; split_and!; congruence. Qed.

(** The day of the March-based year a date is, and back. *)
Definition march_year (y m : Z) : Z := if m <=? 2 then y - 1 else y.
Lemma month_doy y m d : 1 <= m <= 12 → 1 <= d <= month_days y m →
  0 <= month_start (month_shift m) + d - 1 < year_len (march_year y m) ∧
  month_of (month_start (month_shift m) + d - 1) = month_shift m.
Proof.
  intros Hm Hd. pose proof (year_len_bounds (march_year y m)).
  assert (1 <= d <= month_days y m ∧ (m = 2 → year_len (march_year y m) = if leap y then 366 else 365)) as [Hd' H2].
  { split; [done|]. intros ->. unfold year_len, march_year. cbn [Z.leb Z.compare]. change (2 <=? 2) with true. cbn iota. by replace (y - 1 + 1) with y by lia. }
  unfold month_days in *. each_month Hm; cbn -[Z.mul Z.add Z.sub Z.div year_len march_year leap] in *; try specialize (H2 eq_refl); unfold month_of, month_start; try destruct (leap y); split; lia.
Qed.

Lemma month_days_shift Y mp : 0 <= mp <= 11 →
  month_days (Y + if civil_month mp <=? 2 then 1 else 0) (civil_month mp) = month_days 4 (civil_month mp) ∨
  mp = 11 ∧ month_days (Y + if civil_month mp <=? 2 then 1 else 0) (civil_month mp) = 28 + (year_len Y - 365).
Proof.
  intros Hmp. destruct (decide (mp = 11)) as [->|].
  - right. split; [done|]. change (civil_month 11) with 2. unfold month_days, year_len. cbn [Z.eqb Z.leb Z.compare Pos.eqb].
    change (2 <=? 2) with true. cbn iota. by destruct (leap (Y + 1)).
  - left. unfold month_days. replace (civil_month mp =? 2) with false; [done|].
    symmetry. apply Z.eqb_neq. unfold civil_month. case_match; lia.
Qed.

Lemma days_to_ymd_eq n era Y doy : 0 <= Y < 400 → 0 <= doy < year_len Y →
  n + 719468 = era * 146097 + (year_start Y + doy) →
  let mp := month_of doy in
  days_to_ymd n = (swrap 32 (Y + era * 400 + if civil_month mp <=? 2 then 1 else 0), civil_month mp, doy - month_start mp + 1).
Proof.
  intros HY Hd Hn. cbv zeta. destruct (year_facts Y HY) as (_ & _ & _ & H1 & H2).
  unfold days_to_ymd. rewrite Hn, tdiv_floor by lia.
  replace ((era * 146097 + (year_start Y + doy)) / 146097) with era by lia.
  replace (era * 146097 + (year_start Y + doy) - era * 146097) with (year_start Y + doy) by lia.
  fold (yoe_of (year_start Y + doy)). rewrite (yoe_spec Y doy) by done.
  change (365 * Y + Y / 4 - Y / 100) with (year_start Y).
  replace (year_start Y + doy - year_start Y) with doy by lia.
  fold (month_of doy) (month_start (month_of doy)) (civil_month (month_of doy)).
  do 2 f_equal. case_match; f_equal; lia.
Qed.

Lemma ymd_to_days_eq y m d : 1 <= m <= 12 →
  let Y := march_year y m in
  ymd_to_days y m d + 719468 = (Y / 400) * 146097 + (year_start (Y mod 400) + (month_start (month_shift m) + d - 1)).
Proof.
  intros Hm Y. unfold ymd_to_days. fold Y. fold (month_shift m) (month_start (month_shift m)).
  change (if m <=? 2 then y - 1 else y) with Y. rewrite tdiv_floor by lia.
  replace (Y - Y / 400 * 400) with (Y mod 400) by lia. unfold year_start. lia.
Qed.

(** The days the conversions are exact for: those of a year of 32 bits. *)
Definition day_range (n : Z) : Prop := -(2 ^ 37) <= n <= 2 ^ 37.

Lemma day_fields n : day_range n → ∃ era Y doy, 0 <= Y < 400 ∧ 0 <= doy < year_len Y ∧
  n + 719468 = era * 146097 + (year_start Y + doy) ∧
  ∀ c, 0 <= c <= 1 → swrap 32 (Y + era * 400 + c) = Y + era * 400 + c.
Proof.
  intros Hn. destruct (year_of_day ((n + 719468) mod 146097)) as (Y & doy & HY & Hd & E); [lia|].
  exists ((n + 719468) / 146097), Y, doy. split_and!; try lia.
  intros c Hc. apply swrap_small; [lia|]. unfold day_range in Hn. lia.
Qed.

Lemma days_ymd_inv n : day_range n → valid_date (days_to_ymd n) ∧
  ∃ y m d, days_to_ymd n = (y, m, d) ∧ ymd_to_days y m d = n.
Proof.
  intros Hn. destruct (day_fields n Hn) as (era & Y & doy & HY & Hd & E & Hw).
  rewrite (days_to_ymd_eq n era Y doy) by done. cbv zeta.
  pose proof (year_len_bounds Y). destruct (month_facts doy) as [Hmp Hdoy]; [lia|].
  set (mp := month_of doy) in *. set (c := if civil_month mp <=? 2 then 1 else 0).
  assert (0 <= c <= 1) as Hc by (subst c; case_match; lia). rewrite (Hw c Hc).
  assert (1 <= civil_month mp <= 12) as Hm by (unfold civil_month; case_match; lia).
  split.
  - split; [done|]. replace (Y + era * 400 + c) with ((Y + c) + era * 400) by lia.
    replace (month_days (Y + c + era * 400) (civil_month mp)) with (month_days (Y + c) (civil_month mp))
      by (unfold month_days; by rewrite leap_period).
    destruct (month_days_shift Y mp Hmp) as [E'|[-> E']]; subst c; rewrite E'; [lia|].
    change (month_start 11) with 337 in *. lia.
  - eexists _, _, _. split; [done|].
    pose proof (ymd_to_days_eq (Y + era * 400 + c) (civil_month mp) (doy - month_start mp + 1) Hm) as E2. cbv zeta in E2.
    replace (march_year (Y + era * 400 + c) (civil_month mp)) with (Y + era * 400) in E2
      by (unfold march_year; subst c; case_match; lia).
    replace (month_shift (civil_month mp)) with mp in E2
      by (unfold month_shift, civil_month; repeat case_match; lia).
    replace ((Y + era * 400) / 400) with era in E2 by lia.
    replace ((Y + era * 400) mod 400) with Y in E2 by lia. lia.
Qed.

Lemma ymd_days_inv y m d : valid_date (y, m, d) → - 2 ^ 31 <= y < 2 ^ 31 →
  days_to_ymd (ymd_to_days y m d) = (y, m, d).
Proof.
  intros [Hm Hd] Hy. destruct (month_doy y m d Hm Hd) as [Hdoy Hmo].
  destruct (month_shift_civil m Hm) as [Hs Hc].
  set (Y := march_year y m) in *.
  assert (year_len (Y mod 400) = year_len Y) as EL.
  { unfold year_len. replace (Y + 1) with (Y mod 400 + 1 + (Y / 400) * 400) by lia. by rewrite leap_period. }
  rewrite (days_to_ymd_eq _ (Y / 400) (Y mod 400) (month_start (month_shift m) + d - 1)); [|lia|lia|by apply ymd_to_days_eq].
  rewrite Hmo, Hc. f_equal; [f_equal|lia].
  rewrite swrap_small; [|lia|]; subst Y; unfold march_year; case_match; lia.
Qed.

Lemma ymd_linear y m d : 1 <= m <= 12 →
  let Y := march_year y m in
  ymd_to_days y m d = 365 * Y + Y / 4 - Y / 100 + Y / 400 + month_start (month_shift m) + d - 719469.
Proof.
  intros Hm Y. pose proof (ymd_to_days_eq y m d Hm) as E. cbv zeta in E. fold Y in E. unfold year_start in E. lia.
Qed.

Lemma next_day_succ y m d : valid_date (y, m, d) →
  let '(y', m', d') := next_day (y, m, d) in
  valid_date (y', m', d') ∧ ymd_to_days y' m' d' = ymd_to_days y m d + 1.
Proof.
  intros [Hm Hd]. unfold next_day.
  destruct (Z.ltb_spec d (month_days y m)); [|destruct (Z.ltb_spec m 12)].
  - split; [split; lia|]. rewrite !ymd_linear by lia. lia.
  - split. { split; [lia|]. unfold month_days. repeat case_match; lia. }
    rewrite !ymd_linear by lia. assert (d = month_days y m) as -> by lia.
    unfold month_days, leap, march_year, month_shift, month_start.
    each_month Hm; cbn -[Z.mul Z.add Z.sub Z.div Z.modulo]; repeat case_match; lia.
  - split. { split; [lia|]. vm_compute. split; congruence. }
    rewrite !ymd_linear by lia. assert (m = 12) as -> by lia. unfold month_days in *. cbn in *.
    unfold march_year, month_shift, month_start. cbn -[Z.mul Z.add Z.sub Z.div]. lia.
Qed.

(** ** Labels *)

Lemma digits_length w z : length (digits w z) = w.
Proof. revert z; induction w as [|w IH]; intros z; [done|]. cbn [digits]. rewrite length_app, IH. cbn [length]. lia. Qed.

Lemma is_digit_val b : is_digit b = true ↔ ∃ v, 0 <= v < 10 ∧ b = Zbyte (48 + v).
Proof.
  unfold is_digit, in_range. rewrite andb_true_iff, !Z.leb_le. split.
  - intros [H1 H2]. exists (byteZ b - 48). split; [lia|]. replace (48 + (byteZ b - 48)) with (byteZ b) by lia. by rewrite Zbyte_byteZ.
  - intros (v & Hv & ->). rewrite byteZ_Zbyte, Z.mod_small by lia. lia.
Qed.

Lemma digit_val_digit v : 0 <= v < 10 → digit_val (Zbyte (48 + v)) = Some v.
Proof.
  intros Hv. replace (Zbyte (48 + v)) with (digit_byte v); [apply digit_val_byte; lia|].
  unfold digit_byte. by rewrite (proj2 (Z.ltb_lt v 10)) by lia.
Qed.

Lemma digits_are_digits w z : forallb is_digit (digits w z) = true.
Proof.
  revert z; induction w as [|w IH]; intros z; [done|]. cbn [digits]. rewrite forallb_app, IH. cbn.
  rewrite andb_true_r. apply is_digit_val. exists (z mod 10). split; [lia|done].
Qed.

Lemma pow10_succ w : 10 ^ Z.of_nat (S w) = 10 * 10 ^ Z.of_nat w.
Proof. rewrite Nat2Z.inj_succ, Z.pow_succ_r by lia. done. Qed.

Lemma parse_of_digits w z : (w <= 4)%nat → 0 <= z < 10 ^ Z.of_nat w → parse_digits 10 0 (digits w z) = Some z.
Proof.
  revert z; induction w as [|w IH]; intros z Hw Hz.
  { cbn in *. f_equal. lia. }
  rewrite pow10_succ in Hz. assert (10 ^ Z.of_nat w <= 10 ^ 4) by (apply Z.pow_le_mono_r; lia).
  cbn [digits]. rewrite parse_digits_app, IH by lia. cbn [parse_digits]. rewrite digit_val_digit by lia.
  rewrite (proj2 (Z.ltb_lt _ _)) by lia. cbv zeta. rewrite (proj2 (Z.leb_le _ _)) by (unfold USIZE_MAX; lia).
  f_equal. lia.
Qed.

Lemma digits_of_parse s : (length s <= 4)%nat → forallb is_digit s = true →
  ∃ v, parse_digits 10 0 s = Some v ∧ 0 <= v < 10 ^ zlen s ∧ digits (length s) v = s.
Proof.
  induction s as [|b s IH] using rev_ind; intros Hw Hs.
  { exists 0. done. }
  rewrite length_app in *. cbn [length] in *. rewrite forallb_app in Hs. apply andb_true_iff in Hs as [Hs Hb].
  cbn in Hb. rewrite andb_true_r in Hb. apply is_digit_val in Hb as (u & Hu & ->).
  destruct (IH ltac:(lia) Hs) as (v & Hp & Hv & Hd).
  assert (10 ^ zlen s <= 10 ^ 4) by (apply Z.pow_le_mono_r; unfold zlen; lia).
  exists (v * 10 + u). rewrite parse_digits_app, Hp. cbn [parse_digits]. rewrite digit_val_digit by lia.
  rewrite (proj2 (Z.ltb_lt _ _)) by lia. cbv zeta. rewrite (proj2 (Z.leb_le _ _)) by (unfold USIZE_MAX; lia).
  unfold zlen in *. rewrite length_app. cbn [length]. replace (length s + 1)%nat with (S (length s)) by lia.
  rewrite pow10_succ. split_and!; [done|lia|lia|].
  cbn [digits]. replace ((v * 10 + u) / 10) with v by lia. replace ((v * 10 + u) mod 10) with u by lia. by rewrite Hd.
Qed.

(** The check [parse_minute_label] makes of its five numbers. *)
Definition label_instant (y mo d h mi : Z) : option Z :=
  if negb ((1 <=? mo) && (mo <=? 12)) || negb ((1 <=? d) && (d <=? 31)) || (23 <? h) || (59 <? mi) then None
  else if negb (bool_decide (days_to_ymd (ymd_to_days y mo d) = (y, mo, d))) then None
  else Some (ymd_to_days y mo d * 1440 + h * 60 + mi).

Definition label_text (y mo d h mi : Z) : text :=
  digits 4 y ++ digits 2 mo ++ digits 2 d ++ B "T" ++ digits 2 h ++ digits 2 mi.

Lemma parse_fields a b c e f :
  length a = 4%nat → length b = 2%nat → length c = 2%nat → length e = 2%nat → length f = 2%nat →
  forallb is_digit (a ++ b ++ c) = true → forallb is_digit (e ++ f) = true →
  parse_minute_label (a ++ b ++ c ++ B "T" ++ e ++ f) =
    (y ← parse_digits 10 0 a; mo ← parse_digits 10 0 b; d ← parse_digits 10 0 c;
     h ← parse_digits 10 0 e; mi ← parse_digits 10 0 f; label_instant y mo d h mi).
Proof.
  intros La Lb Lc Le Lf D1 D2.
  repeat match goal with
  | H : length ?l = _ |- _ => destruct l; try discriminate H; cbn [length] in H; try apply Nat.succ_inj in H
  end.
  cbn [app] in D1, D2. unfold parse_minute_label. change (B "T") with [x54].
  cbn [app length Nat.eqb negb nth take drop orb].
  rewrite bool_decide_true by done. cbn [negb]. by rewrite D1, D2.
Qed.

Lemma label_fields s : length s = 13%nat → nth 8 s x00 = x54 →
  s = take 4 s ++ take 2 (drop 4 s) ++ take 2 (drop 6 s) ++ B "T" ++ take 2 (drop 9 s) ++ take 2 (drop 11 s) ∧
  take 8 s = take 4 s ++ take 2 (drop 4 s) ++ take 2 (drop 6 s) ∧ drop 9 s = take 2 (drop 9 s) ++ take 2 (drop 11 s).
Proof.
  intros L. repeat (destruct s; try discriminate L; cbn [length] in L; try apply Nat.succ_inj in L).
  cbn. intros ->. done.
Qed.

Lemma parse_label_inv s k : parse_minute_label s = Some k → ∃ y mo d h mi,
  0 <= y <= 9999 ∧ 0 <= h ∧ 0 <= mi ∧ s = label_text y mo d h mi ∧ label_instant y mo d h mi = Some k.
Proof.
  intros Hp. assert (length s = 13%nat ∧ nth 8 s x00 = x54 ∧ forallb is_digit (take 8 s) = true ∧ forallb is_digit (drop 9 s) = true) as (L & HT & D1 & D2).
  { unfold parse_minute_label in Hp. destruct (Nat.eqb_spec (length s) 13); [|done]. case_bool_decide; [|done]. cbn [negb orb] in Hp.
    destruct (forallb is_digit (take 8 s)); [|done]. destruct (forallb is_digit (drop 9 s)); done. }
  destruct (label_fields s L HT) as (E & E1 & E2). rewrite E1 in D1. rewrite E2 in D2.
  rewrite E, parse_fields in Hp; rewrite ?length_take, ?length_drop, ?L; try done.
  rewrite !forallb_app, !andb_true_iff in D1. rewrite forallb_app, andb_true_iff in D2. destruct D1 as (Da & Db & Dc), D2 as (De & Df).
  assert (∀ n m, (n <= 4)%nat → length (take n (drop m s)) = n → forallb is_digit (take n (drop m s)) = true →
    ∃ v, parse_digits 10 0 (take n (drop m s)) = Some v ∧ 0 <= v < 10 ^ Z.of_nat n ∧ digits n v = take n (drop m s)) as HD.
  { intros n m Hn Hl Hd. destruct (digits_of_parse (take n (drop m s))) as (v & Hv); [lia|done|]. exists v. unfold zlen in Hv. by rewrite Hl in Hv. }
  destruct (HD 4%nat 0%nat) as (y & Py & By & Qy); [lia|by rewrite length_take, drop_0, L|done|].
  destruct (HD 2%nat 4%nat) as (mo & Pm & Bm & Qm); [lia|by rewrite length_take, length_drop, L|done|].
  destruct (HD 2%nat 6%nat) as (d & Pd & Bd & Qd); [lia|by rewrite length_take, length_drop, L|done|].
  destruct (HD 2%nat 9%nat) as (h & Ph & Bh & Qh); [lia|by rewrite length_take, length_drop, L|done|].
  destruct (HD 2%nat 11%nat) as (mi & Pi & Bi & Qi); [lia|by rewrite length_take, length_drop, L|done|].
  rewrite drop_0 in Py, Qy. rewrite Py, Pm, Pd, Ph, Pi in Hp. cbn in Hp.
  exists y, mo, d, h, mi. split_and!; [lia|lia|lia|lia| |done]. unfold label_text. by rewrite Qy, Qm, Qd, Qh, Qi.
Qed.

Lemma parse_label_text y mo d h mi : 0 <= y <= 9999 → 0 <= mo <= 99 → 0 <= d <= 99 → 0 <= h <= 99 → 0 <= mi <= 99 →
  parse_minute_label (label_text y mo d h mi) = label_instant y mo d h mi.
Proof.
  intros. unfold label_text. rewrite parse_fields; rewrite ?digits_length, ?forallb_app, ?digits_are_digits; try done.
  rewrite !parse_of_digits by lia. done.
Qed.

Lemma month_days_le y m : month_days y m <= 31.
Proof. unfold month_days. repeat case_match; lia. Qed.

Lemma minute_label_eq k : let '(y, mo, d) := days_to_ymd (k / 1440) in
  0 <= y <= 9999 → valid_date (y, mo, d) →
  minute_label k = label_text y mo d (k mod 1440 / 60) (k mod 60).
Proof.
  unfold minute_label. replace (k * 60 / 86400) with (k / 1440) by lia.
  replace (k * 60 mod 86400 / 3600) with (k mod 1440 / 60) by lia.
  replace (k * 60 mod 86400 mod 3600 / 60) with (k mod 60) by lia.
  destruct (days_to_ymd (k / 1440)) as [[y mo] d]. intros Hy [Hm Hd].
  pose proof (month_days_le y mo).
  unfold label_text, pad_num.
  repeat rewrite (proj2 (Z.ltb_ge _ 0)) by lia. change (10 ^ Z.of_nat 4) with 10000. change (10 ^ Z.of_nat 2) with 100.
  repeat rewrite (proj2 (Z.ltb_lt _ _)) by lia. done.
Qed.

Lemma valid_instant y mo d h mi : valid_date (y, mo, d) → - 2 ^ 31 <= y < 2 ^ 31 → 0 <= h <= 23 → 0 <= mi <= 59 →
  label_instant y mo d h mi = Some (ymd_to_days y mo d * 1440 + h * 60 + mi).
Proof.
  intros [Hm Hd] Hy Hh Hmi. unfold label_instant.
  pose proof (month_days_le y mo).
  rewrite (proj2 (Z.leb_le 1 mo)), (proj2 (Z.leb_le mo 12)), (proj2 (Z.leb_le 1 d)), (proj2 (Z.leb_le d 31)) by lia.
  rewrite (proj2 (Z.ltb_ge 23 h)), (proj2 (Z.ltb_ge 59 mi)) by lia. cbn [andb negb orb].
  rewrite bool_decide_true by by apply ymd_days_inv. done.
Qed.

Lemma instant_label y mo d h mi k : 0 <= y <= 9999 → label_instant y mo d h mi = Some k → 0 <= h → 0 <= mi →
  days_to_ymd (k / 1440) = (y, mo, d) ∧ k mod 1440 / 60 = h ∧ k mod 60 = mi ∧ -(2 ^ 30) <= k / 1440 <= 2 ^ 30.
Proof.
  intros Hy. unfold label_instant.
  destruct (negb ((1 <=? mo) && (mo <=? 12)) || negb ((1 <=? d) && (d <=? 31)) || (23 <? h) || (59 <? mi)) eqn:E; [done|].
  rewrite !orb_false_iff, !negb_false_iff, !andb_true_iff, !Z.leb_le, !Z.ltb_ge in E.
  case_bool_decide as ED; [|done]. cbn [negb]. intros [= <-] Hh Hmi.
  assert ((ymd_to_days y mo d * 1440 + h * 60 + mi) / 1440 = ymd_to_days y mo d) as -> by lia.
  split_and!; [done|lia|lia| |]; rewrite (ymd_linear y mo d) by lia;
    unfold month_start, month_shift, march_year; repeat case_match; lia.
Qed.

(** ** Properties *)

Lemma year_bound y m d : valid_date (y, m, d) → day_range (ymd_to_days y m d) → - 2 ^ 31 <= y < 2 ^ 31.
Proof.
  intros [Hm Hd] Hr. rewrite ymd_linear in Hr by done. cbv zeta in Hr. pose proof (month_days_le y m).
  assert (0 <= month_start (month_shift m) <= 400) as Hs
    by (unfold month_start, month_shift; case_match; lia).
  assert (y - 1 <= march_year y m <= y) as HY by (unfold march_year; case_match; lia).
  revert Hr Hs HY. generalize (month_start (month_shift m)) (march_year y m). clear Hm. unfold day_range. intros. lia.
Qed.

(** The day numbers of dump file names follow the Gregorian calendar: day
    0 is the first of January 1970, every day of the range is a valid date, the
    day after it is the next date of the calendar, and [ymd_to_days] takes the
    date back to the day. *)
Theorem days_follow_the_calendar n : day_range n → day_range (n + 1) →
  days_to_ymd 0 = (1970, 1, 1) ∧ valid_date (days_to_ymd n) ∧
  days_to_ymd (n + 1) = next_day (days_to_ymd n) ∧
  (let '(y, m, d) := days_to_ymd n in ymd_to_days y m d) = n.
Proof.
  intros Hn Hn1. destruct (days_ymd_inv n Hn) as (Hv & y & m & d & E & Ed).
  rewrite E in *. split_and!; [done..| |done].
  pose proof (next_day_succ y m d Hv) as Hs. destruct (next_day (y, m, d)) as [[y' m'] d']. destruct Hs as [Hv' Hs].
  rewrite <-(ymd_days_inv y' m' d'), Hs, Ed; [done..|].
  apply (year_bound y' m' d' Hv'). by rewrite Hs, Ed.
Qed.
Lemma days_follow_the_calendar_witness : days_to_ymd 20513 = (2026, 3, 1) ∧ days_to_ymd 20512 = (2026, 2, 28) ∧
  days_to_ymd (20512 + 1) = next_day (days_to_ymd 20512).
Proof.
  split; [reflexivity|]. split; [reflexivity|].
  apply (days_follow_the_calendar 20512); unfold day_range; lia.
Defined.

Definition minute_range (k : Z) : Prop := day_range (k / 1440).
Definition label_year (k : Z) : Z := (days_to_ymd (k / 1440)).1.1.

Lemma parse_minute_label_label k : minute_range k → 0 <= label_year k <= 9999 → parse_minute_label (minute_label k) = Some k.
Proof.
  intros Hk. destruct (days_ymd_inv (k / 1440) Hk) as (Hv & y & m & d & E & Ed).
  unfold label_year. pose proof (minute_label_eq k) as HL. rewrite E in *. cbn [fst]. intros Hy. rewrite HL by done.
  destruct Hv as [Hm Hd] eqn:EV. clear EV. pose proof (month_days_le y m).
  rewrite parse_label_text by lia. rewrite valid_instant by (try split; lia). f_equal. rewrite Ed. lia.
Qed.

(** Minutes of 32-bit seconds have years of four digits. *)
Definition near (k : Z) : Prop := 0 <= k <= 2 ^ 32 / 60.

Lemma near_minute k : near k → minute_range k ∧ 0 <= label_year k <= 9999.
Proof.
  unfold near. intros Hk. assert (minute_range k) as Hr by (unfold minute_range, day_range; lia). split; [done|].
  unfold label_year. destruct (days_ymd_inv (k / 1440) Hr) as (Hv & y & m & d & E & Ed). rewrite E in *. cbn [fst].
  destruct Hv as [Hm Hd] eqn:EV. clear EV. rewrite ymd_linear in Ed by done. cbv zeta in Ed. pose proof (month_days_le y m).
  assert (0 <= month_start (month_shift m) <= 400) as Hs by (unfold month_start, month_shift; case_match; lia).
  assert (y - 1 <= march_year y m <= y) as HY by (unfold march_year; case_match; lia).
  assert (0 <= k / 1440 <= 50000) as Hd' by lia. rewrite <-Ed in Hd'. revert Hd' Hs HY.
  generalize (month_start (month_shift m)) (march_year y m). clear -Hd H. intros. lia.
Qed.

Lemma near_label_inj k k' : near k → near k' → minute_label k = minute_label k' → k = k'.
Proof.
  intros [Hr Hy]%near_minute [Hr' Hy']%near_minute E.
  apply parse_minute_label_label in Hy, Hy'; [|done..]. rewrite E in Hy. congruence.
Qed.

(** A name parses to a minute exactly when it is the label the writer gives
    that minute, for the years of four digits: labels are distinct, every one
    is read back, and no other name is taken for one. *)
Theorem minute_label_roundtrip s k : minute_range k →
  parse_minute_label s = Some k ↔ s = minute_label k ∧ 0 <= label_year k <= 9999.
Proof.
  intros Hk. destruct (days_ymd_inv (k / 1440) Hk) as (Hv & y & m & d & E & Ed).
  unfold label_year. pose proof (minute_label_eq k) as HL. rewrite E in *. cbn [fst]. split.
  - intros (y' & m' & d' & h & mi & Hy & Hh & Hmi & -> & Hi)%parse_label_inv.
    destruct (instant_label y' m' d' h mi k Hy Hi Hh Hmi) as (E' & Eh & Emi & _).
    rewrite E in E'. injection E' as -> -> ->. split; [|done]. rewrite HL by done. by rewrite Eh, Emi.
  - intros [-> Hy]. apply parse_minute_label_label; [done|]. unfold label_year. by rewrite E.
Qed.
Lemma minute_label_roundtrip_witness : minute_label 29633130 = B "20260505T1330" ∧
  parse_minute_label (B "20260505T1330") = Some 29633130.
Proof.
  split; [vm_compute; reflexivity|]. apply minute_label_roundtrip.
  - unfold minute_range, day_range. vm_compute. split; congruence.
  - vm_compute. split; [reflexivity|]. split; congruence.
Defined.

(** Labels are not unfolded by [simpl] and [cbn], and last by conversion tests. *)
#[global] Arguments minute_label : simpl never.
#[global] Strategy 1000 [minute_label].
