(* ===== verification/Disk.v ===== *)
(** * Files and buffered writers

    What the dump and its readers use of the standard library's [std::fs] and
    [std::io]: a disk of directories and files, files opened for appending,
    and [BufWriter].  A name leads to an inode, so that a file that is removed
    while it is open can still be written.  What the operating system does with
    each call is read off a list: the call succeeds, a write takes only a part
    of its bytes, or the call fails; past the end of the list calls succeed. *)

From Stdlib Require Import Strings.Byte Strings.String ZArith Lia.
From stdpp Require Import base gmap sets list strings.
From S2P Require Import Prelude.
From S2P Require Import Text.

Open Scope Z_scope.

#[global] Instance byte_countable : Countable byte := inj_countable Byte.to_N Byte.of_N Byte.of_to_N.

(** A path, as its components from the root; [Path::join] of one component. *)
Definition Path : Type := list text.
Definition join_path (p : Path) (c : text) : Path := p ++ [c].
Definition starts_with (p base : Path) : bool := bool_decide (take (length base) p = base).

Inductive IoError : Type := NotFound | WriteZero | OtherError.
Inductive Outcome : Type := Done | Short (n : nat) | Fault (e : IoError).

Record Disk : Type := mkDisk {
  dk_dirs : gset Path;
  dk_names : gmap Path nat;
  dk_data : gmap nat (list byte);
  dk_next : nat;
  dk_os : list Outcome;
}.

Definition io (A : Type) : Type := Disk → (A + IoError) * Disk.
Definition io_ret {A} (a : A) : io A := λ d, (inl a, d).
Definition io_bind {A C} (m : io A) (k : A → io C) : io C := λ d,
  match m d with
  | (inl a, d') => k a d'
  | (inr e, d') => (inr e, d')
  end.
Notation "'let?' p := m 'in' k" := (io_bind m (λ p, k))
  (at level 10, p pattern, m at level 100, k at level 200) : heron_scope.

(** What happens to the next call. *)
Definition os_call : Disk → Outcome * Disk := λ d,
  match dk_os d with
  | [] => (Done, d)
  | o :: os => (o, mkDisk (dk_dirs d) (dk_names d) (dk_data d) (dk_next d) os)
  end.
Definition syscall {A} (k : io A) : io A := λ d,
  match os_call d with
  | (Fault e, d') => (inr e, d')
  | (_, d') => k d'
  end.

Definition with_dirs (D : gset Path) (d : Disk) : Disk := mkDisk D (dk_names d) (dk_data d) (dk_next d) (dk_os d).
Definition with_names (N : gmap Path nat) (d : Disk) : Disk := mkDisk (dk_dirs d) N (dk_data d) (dk_next d) (dk_os d).
Definition with_data (m : gmap nat (list byte)) (d : Disk) : Disk := mkDisk (dk_dirs d) (dk_names d) m (dk_next d) (dk_os d).

(** [fs::create_dir_all]. *)
Definition prefixes (p : Path) : list Path := map (λ n, take n p) (seq 0 (S (length p))).
Definition create_dir_all (p : Path) : io unit :=
  syscall (λ d, (inl tt, with_dirs (list_to_set (prefixes p) ∪ dk_dirs d) d)).

(** [OpenOptions::new().create(true).append(true).open(p)]. *)
Definition open_append (p : Path) : io nat :=
  syscall (λ d,
    match dk_names d !! p with
    | Some h => (inl h, d)
    | None =>
        if decide (removelast p ∈ dk_dirs d)
        then (inl (dk_next d), mkDisk (dk_dirs d) (<[p := dk_next d]> (dk_names d)) (<[dk_next d := []]> (dk_data d)) (S (dk_next d)) (dk_os d))
        else (inr NotFound, d)
    end).

(** The bytes of an open file, and [File::metadata().len()]. *)
Definition file_bytes (h : nat) (d : Disk) : list byte := default [] (dk_data d !! h).
Definition file_len (h : nat) : io Z := syscall (λ d, (inl (zlen (file_bytes h d)), d)).

(** [File::write] on a file opened for appending. *)
Definition append_bytes (h : nat) (l : list byte) (d : Disk) : Disk :=
  with_data (<[h := file_bytes h d ++ l]> (dk_data d)) d.
Definition file_write (h : nat) (l : list byte) : io nat := λ d,
  match os_call d with
  | (Fault e, d') => (inr e, d')
  | (Short n, d') => (inl (Nat.min n (length l)), append_bytes h (take n l) d')
  | (Done, d') => (inl (length l), append_bytes h l d')
  end.

(** [fs::remove_file]. *)
Definition remove_file (p : Path) : io unit :=
  syscall (λ d, match dk_names d !! p with
                | Some _ => (inl tt, with_names (delete p (dk_names d)) d)
                | None => (inr (if decide (p ∈ dk_dirs d) then OtherError else NotFound), d)
                end).

(** [Path::is_dir], [Path::is_file] and the bytes under a name. *)
Definition is_dir (p : Path) (d : Disk) : bool := bool_decide (p ∈ dk_dirs d).
Definition is_file (p : Path) (d : Disk) : bool := bool_decide (is_Some (dk_names d !! p)).
Definition file_at (p : Path) (d : Disk) : option (list byte) := (λ h, file_bytes h d) <$> dk_names d !! p.

(** ** [BufWriter] *)

Definition BUF_CAPACITY : Z := 64 * 1024.
Record BufWriter : Type := mkBufWriter { bw_file : nat; bw_buf : list byte }.

(** [flush_buf]: what could not be written stays in the buffer. *)
Fixpoint flush_loop (fuel : nat) (h : nat) (l : list byte) (d : Disk) : (unit + IoError) * list byte * Disk :=
  match l with
  | [] => (inl tt, [], d)
  | _ =>
      match fuel with
      | O => (inr OtherError, l, d)
      | S fuel' =>
          match file_write h l d with
          | (inr e, d') => (inr e, l, d')
          | (inl 0%nat, d') => (inr WriteZero, l, d')
          | (inl n, d') => flush_loop fuel' h (drop n l) d'
          end
      end
  end.
Definition bw_flush (w : BufWriter) (d : Disk) : (unit + IoError) * BufWriter * Disk :=
  let '(r, l, d') := flush_loop (length (bw_buf w)) (bw_file w) (bw_buf w) d in
  (r, mkBufWriter (bw_file w) l, d').

(** [write]: bytes that fit are buffered; otherwise the buffer is flushed, and
    bytes that would fill it go to the file directly. *)
Definition bw_write (w : BufWriter) (l : list byte) (d : Disk) : (nat + IoError) * BufWriter * Disk :=
  let spare := BUF_CAPACITY - zlen (bw_buf w) in
  if zlen l <? spare then (inl (length l), mkBufWriter (bw_file w) (bw_buf w ++ l), d)
  else
    let '(r, w1, d1) := if spare <? zlen l then bw_flush w d else (inl tt, w, d) in
    match r with
    | inr e => (inr e, w1, d1)
    | inl _ =>
        if BUF_CAPACITY <=? zlen l
        then let '(n, d2) := file_write (bw_file w1) l d1 in (n, w1, d2)
        else (inl (length l), mkBufWriter (bw_file w1) (bw_buf w1 ++ l), d1)
    end.

(** [write_all], which writes what does not fit in a loop. *)
Definition bw_write_all (w : BufWriter) (l : list byte) (d : Disk) : (unit + IoError) * BufWriter * Disk :=
  let spare := BUF_CAPACITY - zlen (bw_buf w) in
  if zlen l <? spare then (inl tt, mkBufWriter (bw_file w) (bw_buf w ++ l), d)
  else
    let '(r, w1, d1) := if spare <? zlen l then bw_flush w d else (inl tt, w, d) in
    match r with
    | inr e => (inr e, w1, d1)
    | inl _ =>
        if BUF_CAPACITY <=? zlen l
        then let '(r, _, d2) := flush_loop (length l) (bw_file w1) l d1 in (r, w1, d2)
        else (inl tt, mkBufWriter (bw_file w1) (bw_buf w1 ++ l), d1)
    end.

(** ** What the calls do *)

(** No call fails, and none writes nothing. *)
Definition quiet (d : Disk) : Prop :=
  Forall (λ o, match o with Done => True | Short n => (0 < n)%nat | Fault _ => False end) (dk_os d).

(** The bytes [m] were appended to the open file [h], and nothing else changed. *)
Record appended (h : nat) (m : list byte) (d d' : Disk) : Prop := {
  ap_dirs : dk_dirs d' = dk_dirs d;
  ap_names : dk_names d' = dk_names d;
  ap_next : dk_next d' = dk_next d;
  ap_data : dk_data d' = <[h := file_bytes h d ++ m]> (dk_data d);
  ap_os : suffix (dk_os d') (dk_os d);
}.

Lemma quiet_suffix d d' : suffix (dk_os d') (dk_os d) → quiet d → quiet d'.
Proof. intros [k E]. unfold quiet. rewrite E, Forall_app. by intros [_ ?]. Qed.

Lemma appended_quiet h m d d' : appended h m d d' → quiet d → quiet d'.
Proof. intros []. by apply quiet_suffix. Qed.

Lemma appended_open h m d d' h' : appended h m d d' → is_Some (dk_data d !! h') → is_Some (dk_data d' !! h').
Proof. intros [] Hs. rewrite ap_data0. destruct (decide (h = h')) as [->|]; simplify_map_eq; eauto. Qed.

Lemma appended_bytes h m d d' : appended h m d d' → file_bytes h d' = file_bytes h d ++ m.
Proof. intros []. unfold file_bytes at 1. rewrite ap_data0. by simplify_map_eq. Qed.

Lemma appended_other h m d d' h' : appended h m d d' → h' ≠ h → dk_data d' !! h' = dk_data d !! h'.
Proof. intros [] Hne. rewrite ap_data0. by simplify_map_eq. Qed.

Lemma appended_refl h d : is_Some (dk_data d !! h) → appended h [] d d.
Proof.
  intros [c Hc]. split; [done..| |done]. unfold file_bytes. rewrite Hc. cbn. by rewrite app_nil_r, insert_id.
Qed.

Lemma appended_trans h m m' d d1 d2 : appended h m d d1 → appended h m' d1 d2 → appended h (m ++ m') d d2.
Proof.
  intros H1 H2. pose proof (appended_bytes _ _ _ _ H1) as E. destruct H1, H2. split; try congruence.
  - rewrite ap_data1, E, ap_data0, app_assoc. by rewrite insert_insert_eq.
  - by etrans.
Qed.

Lemma os_call_spec d : let '(o, d') := os_call d in
  dk_dirs d' = dk_dirs d ∧ dk_names d' = dk_names d ∧ dk_next d' = dk_next d ∧ dk_data d' = dk_data d ∧
  suffix (dk_os d') (dk_os d) ∧
  (quiet d → match o with Done => True | Short n => (0 < n)%nat | Fault _ => False end).
Proof.
  unfold os_call. destruct (dk_os d) as [|o os] eqn:E; cbn; rewrite ?E; split_and!; try done.
  - by exists [o].
  - unfold quiet. rewrite E. by inversion 1.
Qed.

Lemma file_write_spec h l d r d' : is_Some (dk_data d !! h) → file_write h l d = (r, d') →
  match r with
  | inl n => (n <= length l)%nat ∧ appended h (take n l) d d'
  | inr _ => appended h [] d d'
  end ∧ (quiet d → ∃ n, r = inl n ∧ (l ≠ [] → (0 < n)%nat)).
Proof.
  intros Hh. unfold file_write. pose proof (os_call_spec d) as Hos. destruct (os_call d) as [o d1].
  destruct Hos as (H1 & H2 & H3 & H4 & H5 & H6).
  assert (∀ m, appended h m d (append_bytes h m d1)) as Ha.
  { intros m. split; cbn; [done..| |done]. unfold file_bytes. by rewrite H4. }
  destruct o as [|n|e]; intros [= <- <-].
  - split; [split; [lia|]; by rewrite take_ge|]. intros _. eexists; split; [done|]. destruct l; cbn; [done|lia].
  - split.
    { split; [lia|]. replace (take (n `min` length l) l) with (take n l); [apply Ha|].
      destruct (Nat.min_spec n (length l)) as [[_ ->]|[? ->]]; [done|]. by rewrite !take_ge by lia. }
   
    intros Hq. specialize (H6 Hq). eexists; split; [done|]. destruct l; cbn [length]; [done|lia].
  - split; [|intros Hq; by destruct (H6 Hq)]. destruct (appended_refl h d Hh). split; congruence || done.
Qed.

Lemma flush_loop_spec fuel h l d r rest d' : is_Some (dk_data d !! h) → (length l <= fuel)%nat →
  flush_loop fuel h l d = (r, rest, d') →
  ∃ m, appended h m d d' ∧ l = m ++ rest ∧ (r = inl tt → rest = []) ∧ (quiet d → r = inl tt).
Proof.
  revert l d. induction fuel as [|fuel IH]; intros l d Hh Hf; cbn [flush_loop].
  { destruct l; [|cbn in Hf; lia]. intros [= <- <- <-]. exists []. auto using appended_refl. }
  destruct l as [|b l]; [intros [= <- <- <-]; exists []; auto using appended_refl|].
  destruct (file_write h (b :: l) d) as [w d1] eqn:Ew. apply file_write_spec in Ew as [Ha Hq]; [|done].
  destruct w as [[|n]|e].
  - intros [= <- <- <-]. destruct Ha as [_ Ha]. exists []. split_and!; [done..|].
    intros Hd. destruct (Hq Hd) as (? & [= <-] & Hlt). specialize (Hlt ltac:(done)). lia.
  - destruct Ha as [Hn Ha]. intros Hl. apply IH in Hl as (m & Ha' & El & Hr & Hok);
      [|by eapply appended_open|cbn [length] in *; rewrite length_drop; cbn [length]; lia].
    exists (take (S n) (b :: l) ++ m). split_and!; [by eapply appended_trans| |done|eauto using appended_quiet].
    by rewrite <-app_assoc, <-El, take_drop.
  - intros [= <- <- <-]. exists []. split_and!; [done..|]. intros Hd. by destruct (Hq Hd) as (? & ? & _).
Qed.

(** Bytes that passed through a buffered writer: [m] of them reached the file. *)
Lemma bw_flush_spec w d r w' d' : is_Some (dk_data d !! bw_file w) → bw_flush w d = (r, w', d') →
  ∃ m, appended (bw_file w) m d d' ∧ bw_file w' = bw_file w ∧ bw_buf w = m ++ bw_buf w' ∧
       (r = inl tt → bw_buf w' = []) ∧ (quiet d → r = inl tt).
Proof.
  intros Hh. unfold bw_flush. destruct (flush_loop _ _ _ _) as [[r1 l] d1] eqn:E.
  apply flush_loop_spec in E as (m & ? & ? & ? & ?); [|done|lia]. intros [= <- <- <-]. exists m. done.
Qed.

(** The room a write makes before it buffers or writes its bytes. *)
Lemma bw_spill_spec w (l : list byte) d r w' d' : is_Some (dk_data d !! bw_file w) →
  (if BUF_CAPACITY - zlen (bw_buf w) <? zlen l then bw_flush w d else (inl tt, w, d)) = (r, w', d') →
  ∃ m, appended (bw_file w) m d d' ∧ bw_file w' = bw_file w ∧ bw_buf w = m ++ bw_buf w' ∧
       (r = inl tt → BUF_CAPACITY <= zlen l → bw_buf w' = []) ∧ (quiet d → r = inl tt).
Proof.
  intros Hh. destruct (Z.ltb_spec (BUF_CAPACITY - zlen (bw_buf w)) (zlen l)).
  - intros (m & ? & ? & ? & ? & ?)%bw_flush_spec; [|done]. exists m. split_and!; auto.
  - intros [= <- <- <-]. exists []. split_and!; auto using appended_refl.
    intros _ Hc. destruct (bw_buf w); [done|]. rewrite zlen_cons_eq in *. pose proof (zlen_nonneg l0). lia.
Qed.

Lemma bw_write_spec w l d r w' d' : is_Some (dk_data d !! bw_file w) → bw_write w l d = (r, w', d') →
  ∃ m, appended (bw_file w) m d d' ∧ bw_file w' = bw_file w ∧
       match r with
       | inl n => (n <= length l)%nat ∧ bw_buf w ++ take n l = m ++ bw_buf w'
       | inr _ => bw_buf w = m ++ bw_buf w'
       end ∧ (quiet d → ∃ n, r = inl n ∧ (l ≠ [] → (0 < n)%nat)).
Proof.
  intros Hh. unfold bw_write.
  assert (l ≠ [] → (0 < length l)%nat) as Hpos by (destruct l; cbn; [done|lia]).
  destruct (Z.ltb_spec (zlen l) (BUF_CAPACITY - zlen (bw_buf w))).
  { intros [= <- <- <-]. exists []. cbn. rewrite firstn_all. split_and!; eauto using appended_refl. }
  destruct (if BUF_CAPACITY - zlen (bw_buf w) <? zlen l then _ else _) as [[r1 w1] d1] eqn:E1.
  apply bw_spill_spec in E1 as (m & Ha & Hf & Hb & Hr & Hq); [|done]. rewrite Hb.
  destruct r1 as [[]|e]; cycle 1.
  { intros [= <- <- <-]. exists m. split_and!; try done. intros Hd. by specialize (Hq Hd). }
  destruct (Z.leb_spec BUF_CAPACITY (zlen l)) as [Hc|Hc].
  - specialize (Hr eq_refl Hc). destruct (file_write (bw_file w1) l d1) as [n d2] eqn:Ew.
    apply file_write_spec in Ew as [Hw Hq2]; [|rewrite Hf; by eapply appended_open]. rewrite Hf in Hw.
    intros [= <- <- <-]. rewrite Hr, app_nil_r. destruct n as [n|e].
    + destruct Hw as [Hn Hw]. exists (m ++ take n l).
      split_and!; [by eapply appended_trans|done|done|by rewrite app_nil_r|eauto using appended_quiet].
    + exists m. split_and!; [rewrite <-(app_nil_r m); by eapply appended_trans|done|by rewrite app_nil_r|eauto using appended_quiet].
  - intros [= <- <- <-]. exists m. cbn. rewrite firstn_all, app_assoc. split_and!; eauto.
Qed.

Lemma bw_write_all_spec w l d r w' d' : is_Some (dk_data d !! bw_file w) → bw_write_all w l d = (r, w', d') →
  ∃ m, appended (bw_file w) m d d' ∧ bw_file w' = bw_file w ∧
       (r = inl tt → bw_buf w ++ l = m ++ bw_buf w') ∧ (quiet d → r = inl tt).
Proof.
  intros Hh. unfold bw_write_all.
  destruct (Z.ltb_spec (zlen l) (BUF_CAPACITY - zlen (bw_buf w))).
  { intros [= <- <- <-]. exists []. cbn. split_and!; eauto using appended_refl. }
  destruct (if BUF_CAPACITY - zlen (bw_buf w) <? zlen l then _ else _) as [[r1 w1] d1] eqn:E1.
  apply bw_spill_spec in E1 as (m & Ha & Hf & Hb & Hr & Hq); [|done]. rewrite Hb.
  destruct r1 as [[]|e]; cycle 1.
  { intros [= <- <- <-]. by exists m. }
  destruct (Z.leb_spec BUF_CAPACITY (zlen l)) as [Hc|Hc].
  - specialize (Hr eq_refl Hc). destruct (flush_loop (length l) (bw_file w1) l d1) as [[r2 rest] d2] eqn:Ew.
    apply flush_loop_spec in Ew as (m' & Ha' & El & Hrest & Hq'); [|rewrite Hf; by eapply appended_open|lia]. rewrite Hf in Ha'.
    intros [= <- <- <-]. exists (m ++ m'). split_and!; [by eapply appended_trans|done| |eauto using appended_quiet].
    intros E2. rewrite Hr, El, (Hrest E2). by rewrite !app_nil_r.
  - intros [= <- <- <-]. exists m. cbn. rewrite app_assoc. split_and!; eauto.
Qed.
