(* ===== verification/PcapDump.v ===== *)
(** * Packet dumps (h-capture/src/pcap_dump.rs, h-common/src/path.rs)

    The writer of pcap files, one per source and minute: naming, rotation,
    buffering, compression, and what it does when the disk fails.  The snappy
    encoder is a parameter (class [FrameEncoder]): the chunks it hands to the
    writer below it, and its state afterwards.  A call takes the instant its
    error would be logged at. *)

From Stdlib Require Import Strings.Byte Strings.String ZArith Lia.
From stdpp Require Import base gmap sets list strings.
From S2P Require Import Prelude.
From S2P Require Import Net.
From S2P Require Import Text.
From S2P Require Import Counters.
From S2P Require Import Throttle.
From S2P Require Import Calendar.
From S2P Require Import Disk.

Open Scope Z_scope.

(** ** Names of files and directories *)

(** [sanitize_path_component]: every character that is not plain becomes one
    underscore; the bytes that continue a character have none of their own. *)
Definition safe_char (b : byte) : bool :=
  in_range 48 57 b || in_range 65 90 b || in_range 97 122 b || bool_decide (b ∈ B "._-").
Definition sanitize_path_component (s : text) : option text :=
  match s with
  | [] => None
  | _ =>
      let out := map (λ b, if safe_char b then b else x5f) (List.filter (λ b, negb (is_cont b)) s) in
      if bool_decide (out = B ".") || bool_decide (out = B "..") then None else Some out
  end.
Definition is_safe_path_component (s : text) : bool := bool_decide (is_Some (sanitize_path_component s)).

Definition pcap_dump_dir_for (base : Path) (pipeline_name : text) : option Path :=
  join_path base <$> sanitize_path_component pipeline_name.

Inductive PcapCompression : Type := NoCompression | SnappyCompression.
Definition dump_ext (c : PcapCompression) : text :=
  match c with NoCompression => B ".pcap" | SnappyCompression => B ".pcap.snappy" end.
Definition dump_filename (minute_key : Z) (c : PcapCompression) : text := minute_label minute_key ++ dump_ext c.

(** ** The pcap format *)

Definition PCAP_MAGIC : Z := 0xa1b2c3d4.
Definition PCAP_VERSION_MAJOR : Z := 2.
Definition PCAP_VERSION_MINOR : Z := 4.
Definition PCAP_SNAPLEN : Z := 262144.

(** What [write_pcap_global_header] and [write_pcap_record] write, one call each. *)
Definition global_header_fields (link_type : Z) : list (list byte) :=
  [le_bytes 4 PCAP_MAGIC; le_bytes 2 PCAP_VERSION_MAJOR; le_bytes 2 PCAP_VERSION_MINOR; le_bytes 4 0; le_bytes 4 0;
   le_bytes 4 PCAP_SNAPLEN; le_bytes 4 link_type].
Definition record_fields (pkt : RawPacket) : list (list byte) :=
  [le_bytes 4 (Z.quot (raw_ts pkt) 1000000); le_bytes 4 (Z.rem (raw_ts pkt) 1000000);
   le_bytes 4 (caplen pkt); le_bytes 4 (wirelen pkt); raw_data pkt].

(** ** The sink of a minute's file *)

(** [snap::write::FrameEncoder]: a write or a flush hands chunks to the writer
    below with [write_all], and stops at the first that fails. *)
Class FrameEncoder : Type := {
  encoder : Type;
  encoder_new : encoder;
  encode_write : encoder → list byte → list (list byte) * encoder;
  encode_flush : encoder → list (list byte) * encoder;
  write_failed : encoder → list byte → nat → encoder;   (* at the n-th chunk *)
  flush_failed : encoder → nat → encoder;
  decode_frames : list byte → list byte;                (* [snap::read::FrameDecoder] *)
}.

(** [frames c x]: the bytes [c] are whole frames that carry [x]. *)
Class FrameLaws (FE : FrameEncoder) : Type := {
  frames : list byte → list byte → Prop;
  pending : encoder → list byte;
  frames_nil : frames [] [];
  frames_app c x c' x' : frames c x → frames c' x' → frames (c ++ c') (x ++ x');
  frames_decode c x : frames c x → decode_frames c = x;
  pending_new : pending encoder_new = [];
  encode_write_spec e l :
    let '(cs, e') := encode_write e l in ∃ x, frames (concat cs) x ∧ pending e ++ l = x ++ pending e';
  encode_flush_spec e :
    let '(cs, e') := encode_flush e in frames (concat cs) (pending e) ∧ pending e' = [];
}.

Section Dump.
Context `{FE : FrameEncoder}.

Inductive Sink : Type := Plain (w : BufWriter) | Snappy (e : encoder) (w : BufWriter).

(** The chunks of an encoder, each with [write_all]; how many went through. *)
Fixpoint write_chunks (w : BufWriter) (cs : list (list byte)) (n : nat) (d : Disk) : (unit + IoError) * nat * BufWriter * Disk :=
  match cs with
  | [] => (inl tt, n, w, d)
  | c :: cs' =>
      let '(r, w', d') := bw_write_all w c d in
      match r with
      | inl _ => write_chunks w' cs' (S n) d'
      | inr e => (inr e, n, w', d')
      end
  end.

Definition sink_write (s : Sink) (l : list byte) (d : Disk) : (nat + IoError) * Sink * Disk :=
  match s with
  | Plain w => let '(r, w', d') := bw_write w l d in (r, Plain w', d')
  | Snappy e w =>
      let '(cs, e') := encode_write e l in
      let '(r, n, w', d') := write_chunks w cs 0 d in
      match r with
      | inl _ => (inl (length l), Snappy e' w', d')
      | inr err => (inr err, Snappy (write_failed e l n) w', d')
      end
  end.

(** [FrameEncoder::flush], which does not reach the writer's own buffer. *)
Definition frame_flush (e : encoder) (w : BufWriter) (d : Disk) : (unit + IoError) * encoder * BufWriter * Disk :=
  let '(cs, e') := encode_flush e in
  let '(r, n, w', d') := write_chunks w cs 0 d in
  match r with
  | inl _ => (inl tt, e', w', d')
  | inr err => (inr err, flush_failed e n, w', d')
  end.

Definition flush_all_layers (s : Sink) (d : Disk) : (unit + IoError) * Sink * Disk :=
  match s with
  | Plain w => let '(r, w', d') := bw_flush w d in (r, Plain w', d')
  | Snappy e w =>
      let '(r, e', w', d') := frame_flush e w d in
      match r with
      | inr err => (inr err, Snappy e' w', d')
      | inl _ => let '(r2, w2, d2) := bw_flush w' d' in (r2, Snappy e' w2, d2)
      end
  end.

(** Dropping a sink flushes it and forgets what failed. *)
Definition drop_sink (s : Sink) (d : Disk) : Disk :=
  match s with
  | Plain w => (bw_flush w d).2
  | Snappy e w => let '(_, _, w', d') := frame_flush e w d in (bw_flush w' d').2
  end.

(** [Write::write_all], and a series of them up to the first that fails. *)
Fixpoint write_all_loop (fuel : nat) (s : Sink) (l : list byte) (d : Disk) : (unit + IoError) * Sink * Disk :=
  match l with
  | [] => (inl tt, s, d)
  | _ =>
      match fuel with
      | O => (inr OtherError, s, d)
      | S fuel' =>
          let '(r, s', d') := sink_write s l d in
          match r with
          | inr e => (inr e, s', d')
          | inl 0%nat => (inr WriteZero, s', d')
          | inl n => write_all_loop fuel' s' (drop n l) d'
          end
      end
  end.
Definition write_all (s : Sink) (l : list byte) (d : Disk) := write_all_loop (length l) s l d.
Fixpoint write_fields (s : Sink) (ls : list (list byte)) (d : Disk) : (unit + IoError) * Sink * Disk :=
  match ls with
  | [] => (inl tt, s, d)
  | l :: ls' =>
      let '(r, s', d') := write_all s l d in
      match r with
      | inl _ => write_fields s' ls' d'
      | inr e => (inr e, s', d')
      end
  end.
Definition write_pcap_global_header (s : Sink) (link_type : Z) (d : Disk) := write_fields s (global_header_fields link_type) d.
Definition write_pcap_record (s : Sink) (pkt : RawPacket) (d : Disk) := write_fields s (record_fields pkt) d.

(** ** The dumper *)

Record MinuteFile : Type := mkMinuteFile { mf_minute_key : Z; mf_sink : Sink }.
Record SourceWriter : Type := mkSourceWriter {
  sw_src_dir : Path;
  sw_link_type : Z;
  sw_current : option MinuteFile;
}.
Record PacketDumper : Type := mkDumper {
  pd_dir : Path;
  pd_compression : PcapCompression;
  pd_writers : gmap string SourceWriter;
  pd_disabled : gset string;
  pd_err_throttle : ThrottledWarn;
  pd_metrics : counters;
}.

Definition WARN_THROTTLE : Z := 5000000.

Definition dumper_new (dir : Path) (c : PcapCompression) (m : counters) : io PacketDumper :=
  let? _ := create_dir_all dir in
  io_ret (mkDumper dir c ∅ ∅ (throttle_new WARN_THROTTLE) m).

Definition set_writers (W : gmap string SourceWriter) (p : PacketDumper) : PacketDumper :=
  mkDumper (pd_dir p) (pd_compression p) W (pd_disabled p) (pd_err_throttle p) (pd_metrics p).
Definition set_writer (sid : string) (sw : SourceWriter) (p : PacketDumper) : PacketDumper :=
  set_writers (<[sid := sw]> (pd_writers p)) p.
Definition disable (sid : string) (p : PacketDumper) : PacketDumper :=
  mkDumper (pd_dir p) (pd_compression p) (pd_writers p) ({[sid]} ∪ pd_disabled p) (pd_err_throttle p) (pd_metrics p).
Definition note_error (now : Z) (p : PacketDumper) : PacketDumper :=
  mkDumper (pd_dir p) (pd_compression p) (pd_writers p) (pd_disabled p)
    (tick_at (pd_err_throttle p) now).1 (inc_counter CaptureDumpErrors (pd_metrics p)).
Definition note_late (p : PacketDumper) : PacketDumper :=
  mkDumper (pd_dir p) (pd_compression p) (pd_writers p) (pd_disabled p) (pd_err_throttle p)
    (inc_counter CaptureDumpLateMinutePackets (pd_metrics p)).

Definition open_source_dir (now : Z) (source_id : string) (link_type : Z) (p : PacketDumper) (d : Disk)
    : option SourceWriter * PacketDumper * Disk :=
  match sanitize_path_component (B source_id) with
  | None => (None, disable source_id (note_error now p), d)
  | Some safe =>
      let src_dir := join_path (pd_dir p) safe in
      if negb (starts_with src_dir (pd_dir p)) then (None, disable source_id (note_error now p), d)
      else
        match create_dir_all src_dir d with
        | (inr _, d') => (None, disable source_id (note_error now p), d')
        | (inl _, d') => (Some (mkSourceWriter src_dir link_type None), p, d')
        end
  end.

Definition open_retry (src_dir path : Path) : io nat := λ d,
  match open_append path d with
  | (inl h, d1) => (inl h, d1)
  | (inr NotFound, d1) => (let? _ := create_dir_all src_dir in open_append path) d1
  | (inr e, d1) => (inr e, d1)
  end.
Definition sink_new (c : PcapCompression) (h : nat) : Sink :=
  match c with
  | NoCompression => Plain (mkBufWriter h [])
  | SnappyCompression => Snappy encoder_new (mkBufWriter h [])
  end.
Definition open_minute_file (src_dir : Path) (minute_key link_type : Z) (c : PcapCompression) : io MinuteFile :=
  let path := join_path src_dir (dump_filename minute_key c) in
  let? h := open_retry src_dir path in
  let? len := file_len h in
  λ d,
    if len =? 0 then
      match write_pcap_global_header (sink_new c h) link_type d with
      | (inr e, s, d1) => let '(_, d2) := remove_file path d1 in (inr e, drop_sink s d2)
      | (inl _, s, d1) => (inl (mkMinuteFile minute_key s), d1)
      end
    else (inl (mkMinuteFile minute_key (sink_new c h)), d).

Definition expect {A} (o : option A) : res A := match o with Some a => Ret a | None => Panic end.

(** [write]'s phases: 1, the writer of the source; 4, the rotation; 5, the record. *)
Definition ensure_writer (now : Z) (pkt : RawPacket) (p : PacketDumper) (d : Disk) : bool * PacketDumper * Disk :=
  match pd_writers p !! raw_source pkt with
  | Some _ => (true, p, d)
  | None =>
      match open_source_dir now (raw_source pkt) (raw_link_type pkt) p d with
      | (Some sw, p', d') => (true, set_writer (raw_source pkt) sw p', d')
      | (None, p', d') => (false, p', d')
      end
  end.

Definition set_current (m : option MinuteFile) (sw : SourceWriter) : SourceWriter :=
  mkSourceWriter (sw_src_dir sw) (sw_link_type sw) m.

Definition rotate (now pkt_minute : Z) (sid : string) (p : PacketDumper) (d : Disk) : res (bool * PacketDumper * Disk) :=
  let* source := expect (pd_writers p !! sid) in
  let d1 := match sw_current source with Some cur => drop_sink (mf_sink cur) d | None => d end in
  let p1 := set_writer sid (set_current None source) p in
  match open_minute_file (sw_src_dir source) pkt_minute (sw_link_type source) (pd_compression p) d1 with
  | (inl mf, d2) =>
      let* source1 := expect (pd_writers p1 !! sid) in
      Ret (true, set_writer sid (set_current (Some mf) source1) p1, d2)
  | (inr _, d2) => Ret (false, disable sid (note_error now p1), d2)
  end.

Definition write_record (now pkt_minute : Z) (pkt : RawPacket) (p : PacketDumper) (d : Disk) : res (PacketDumper * Disk) :=
  let* source := expect (pd_writers p !! raw_source pkt) in
  let* cur := expect (sw_current source) in
  let is_late := pkt_minute <? mf_minute_key cur in
  let '(r, s, d1) := write_pcap_record (mf_sink cur) pkt d in
  let p1 := set_writer (raw_source pkt) (set_current (Some (mkMinuteFile (mf_minute_key cur) s)) source) p in
  let p2 := if is_late then note_late p1 else p1 in
  Ret (match r with inr _ => note_error now p2 | inl _ => p2 end, d1).

(** Phases 2 to 5, of a source that has its writer. *)
Definition write_ready (now : Z) (pkt : RawPacket) (p : PacketDumper) (d : Disk) : res (PacketDumper * Disk) :=
  let pkt_minute := raw_ts pkt / MICROS_PER_MINUTE in
  let* source := expect (pd_writers p !! raw_source pkt) in
  if negb (sw_link_type source =? raw_link_type pkt) then Ret (note_error now p, d)
  else
    let need_new_file := match sw_current source with None => true | Some cur => mf_minute_key cur <? pkt_minute end in
    if need_new_file then
      let* (ok, p1, d1) := rotate now pkt_minute (raw_source pkt) p d in
      if ok : bool then write_record now pkt_minute pkt p1 d1 else Ret (p1, d1)
    else write_record now pkt_minute pkt p d.

Definition write (now : Z) (pkt : RawPacket) (p : PacketDumper) (d : Disk) : res (PacketDumper * Disk) :=
  if is_heartbeat pkt then Ret (p, d)
  else if decide (raw_source pkt ∈ pd_disabled p) then Ret (p, d)
  else
    let '(ok, p1, d1) := ensure_writer now pkt p d in
    if ok : bool then write_ready now pkt p1 d1 else Ret (p1, d1).

(** [flush_all] walks the writers in the map's order; the errors are noted after. *)
Context `{HI : !HashIter string SourceWriter}.

Definition flush_writer (sid : string) (sw : SourceWriter) (d : Disk) : SourceWriter * bool * Disk :=
  match sw_current sw with
  | None => (sw, true, d)
  | Some cur =>
      let '(r, s, d') := flush_all_layers (mf_sink cur) d in
      (set_current (Some (mkMinuteFile (mf_minute_key cur) s)) sw, if r then true else false, d')
  end.
Fixpoint flush_writers (l : list (string * SourceWriter)) (W : gmap string SourceWriter) (errs : nat) (d : Disk)
    : gmap string SourceWriter * nat * Disk :=
  match l with
  | [] => (W, errs, d)
  | (sid, sw) :: l' =>
      let '(sw', ok, d') := flush_writer sid sw d in
      flush_writers l' (<[sid := sw']> W) (if ok then errs else S errs) d'
  end.
Definition flush_all (now : nat → Z) (p : PacketDumper) (d : Disk) : PacketDumper * Disk :=
  let '(W, errs, d') := flush_writers (hash_iter (pd_writers p)) (pd_writers p) 0 d in
  (foldl (λ p i, note_error (now i) p) (set_writers W p) (seq 0 errs), d').

(** Dropping the dumper drops its writers. *)
Definition drop_dumper (p : PacketDumper) (d : Disk) : Disk :=
  foldl (λ d kv, match sw_current kv.2 with Some cur => drop_sink (mf_sink cur) d | None => d end) d (hash_iter (pd_writers p)).

End Dump.
