(* ===== verification/DumpSinks.v ===== *)
(** * The sinks of a packet dump

    What reaches a file through a sink, whatever the disk does, and what a sink
    holds when the disk works. *)

From Stdlib Require Import Strings.Byte Strings.String ZArith Lia.
From stdpp Require Import base gmap sets list strings.
From S2P Require Import Prelude.
From S2P Require Import Net.
From S2P Require Import Text.
From S2P Require Import Counters.
From S2P Require Import Throttle.
From S2P Require Import Calendar.
From S2P Require Import Disk.
From S2P Require Import PcapDump.

Open Scope Z_scope.

(** ** Sinks *)

Section Sinks.
Context `{FL : FrameLaws}.

Definition sink_writer (s : Sink) : BufWriter := match s with Plain w => w | Snappy _ w => w end.
Definition sink_file (s : Sink) : nat := bw_file (sink_writer s).
Definition is_open (s : Sink) (d : Disk) : Prop := is_Some (dk_data d !! sink_file s).

(** What a file's bytes say, and what a sink's file will say once it is flushed. *)
Definition reads_as (c : PcapCompression) (content x : list byte) : Prop :=
  match c with NoCompression => content = x | SnappyCompression => frames content x end.
Definition sink_kind (s : Sink) : PcapCompression := match s with Plain _ => NoCompression | Snappy _ _ => SnappyCompression end.
Definition sink_holds (s : Sink) (d : Disk) (x : list byte) : Prop :=
  let content := file_bytes (sink_file s) d ++ bw_buf (sink_writer s) in
  match s with
  | Plain _ => content = x
  | Snappy e _ => ∃ y, frames content y ∧ y ++ pending e = x
  end.

Lemma reads_as_det c content x y : reads_as c content x → reads_as c content y → x = y.
Proof. destruct c; cbn; [congruence|]. intros H%frames_decode H'%frames_decode. congruence. Qed.

Lemma reads_as_nil c x : reads_as c [] x → x = [].
Proof. intros H. symmetry. eapply reads_as_det; [|done]. destruct c; [done|apply frames_nil]. Qed.

Lemma write_chunks_spec w cs n d r n' w' d' : is_Some (dk_data d !! bw_file w) → write_chunks w cs n d = (r, n', w', d') →
  ∃ m, appended (bw_file w) m d d' ∧ bw_file w' = bw_file w ∧
       (r = inl tt → bw_buf w ++ concat cs = m ++ bw_buf w') ∧ (quiet d → r = inl tt).
Proof.
  revert w n d. induction cs as [|c cs IH]; intros w n d Hh; cbn [write_chunks].
  { intros [= <- <- <- <-]. exists []. cbn. rewrite app_nil_r. auto using appended_refl. }
  destruct (bw_write_all w c d) as [[r1 w1] d1] eqn:E.
  apply bw_write_all_spec in E as (m & Ha & Hf & Hb & Hq); [|done]. destruct r1 as [[]|e].
  - intros (m' & Ha' & Hf' & Hb' & Hq')%IH; [|rewrite Hf; by eapply appended_open]. rewrite Hf in *.
    exists (m ++ m'). split_and!; [by eapply appended_trans|done| |eauto using appended_quiet].
    intros Hr. cbn. rewrite app_assoc, Hb, <-!app_assoc by done. by rewrite Hb'.
  - intros [= <- <- <- <-]. exists m. split_and!; [done..|]. intros Hd. by specialize (Hq Hd).
Qed.

(** A flushed encoder: what it held is in the writer below. *)
Lemma frame_flush_spec e w d r e' w' d' : is_Some (dk_data d !! bw_file w) → frame_flush e w d = (r, e', w', d') →
  ∃ m, appended (bw_file w) m d d' ∧ bw_file w' = bw_file w ∧
       (quiet d → r = inl tt ∧ pending e' = [] ∧ ∃ cs, frames (concat cs) (pending e) ∧ bw_buf w ++ concat cs = m ++ bw_buf w').
Proof.
  intros Hh. unfold frame_flush. pose proof (encode_flush_spec e) as He. destruct (encode_flush e) as [cs e1]. destruct He as [He Hp].
  destruct (write_chunks w cs 0 d) as [[[r1 n1] w1] d1] eqn:E. apply write_chunks_spec in E as (m & Ha & Hf & Hb & Hq); [|done].
  destruct r1 as [[]|err]; intros [= <- <- <- <-]; exists m; split_and!; try done.
  - intros Hd. split_and!; [done..|]. exists cs. auto.
  - intros Hd. by specialize (Hq Hd).
Qed.

Lemma sink_write_spec s l d r s' d' : is_open s d → sink_write s l d = (r, s', d') →
  ∃ m, appended (sink_file s) m d d' ∧ sink_file s' = sink_file s ∧ sink_kind s' = sink_kind s ∧
  (quiet d → ∃ n, r = inl n ∧ (n <= length l)%nat ∧ (l ≠ [] → (0 < n)%nat) ∧
   ∀ x, sink_holds s d x → sink_holds s' d' (x ++ take n l)).
Proof.
  intros Hh. destruct s as [w|e w]; cbn [sink_write].
  - destruct (bw_write w l d) as [[r1 w1] d1] eqn:E. apply bw_write_spec in E as (m & Ha & Hf & Hb & Hq); [|done].
    intros [= <- <- <-]. exists m. split_and!; [done..|]. intros Hd. destruct (Hq Hd) as (n & -> & Hn). destruct Hb as [Hle Hb].
    exists n. split_and!; [done..|]. intros x <-. cbn. unfold sink_file in *. cbn in *.
    by rewrite Hf, (appended_bytes _ _ _ _ Ha), <-!app_assoc, Hb.
  - pose proof (encode_write_spec e l) as He. destruct (encode_write e l) as [cs e1]. destruct He as (x1 & He & Hp).
    destruct (write_chunks w cs 0 d) as [[[r1 n1] w1] d1] eqn:E. apply write_chunks_spec in E as (m & Ha & Hf & Hb & Hq); [|done].
    destruct r1 as [[]|err]; intros [= <- <- <-]; exists m; split_and!; try done.
    + intros Hd. exists (length l). split_and!; [done|lia|destruct l; cbn; [done|lia]|].
      rewrite firstn_all. intros x (y & Hy & <-). exists (y ++ x1). unfold sink_file in *. cbn in *.
      rewrite Hf, (appended_bytes _ _ _ _ Ha), <-!app_assoc, Hp. split; [|done].
      rewrite <-Hb, app_assoc by done. by apply frames_app.
    + intros Hd. by specialize (Hq Hd).
Qed.

Lemma write_all_spec s l d r s' d' : is_open s d → write_all s l d = (r, s', d') →
  ∃ m, appended (sink_file s) m d d' ∧ sink_file s' = sink_file s ∧ sink_kind s' = sink_kind s ∧
  (quiet d → r = inl tt ∧ ∀ x, sink_holds s d x → sink_holds s' d' (x ++ l)).
Proof.
  unfold write_all. assert (length l <= length l)%nat as Hf by lia. revert Hf. generalize (length l) at 2 3. intros fuel.
  revert s l d. induction fuel as [|fuel IH]; intros s l d Hf Hh; cbn [write_all_loop].
  { destruct l; [|cbn in Hf; lia]. intros [= <- <- <-]. exists []. split_and!; auto using appended_refl.
    intros _. split; [done|]. intros x. by rewrite app_nil_r. }
  destruct l as [|b l]. { intros [= <- <- <-]. exists []. split_and!; auto using appended_refl. intros _. split; [done|]. intros x. by rewrite app_nil_r. }
  destruct (sink_write s (b :: l) d) as [[r1 s1] d1] eqn:E. apply sink_write_spec in E as (m & Ha & Hs & Hk & Hq); [|done].
  destruct r1 as [[|n]|e].
  - intros [= <- <- <-]. exists m. split_and!; [done..|]. intros Hd. destruct (Hq Hd) as (n & [= <-] & _ & Hn & _). specialize (Hn ltac:(done)). lia.
  - intros Hl. apply IH in Hl as (m' & Ha' & Hs' & Hk' & Hq');
      [|cbn [length] in *; rewrite length_drop; cbn [length]; lia|unfold is_open; rewrite Hs; by eapply appended_open].
    rewrite Hs in *. exists (m ++ m'). split_and!; [by eapply appended_trans|done|congruence|].
    intros Hd. destruct (Hq Hd) as (? & [= <-] & Hn & _ & Hx). destruct Hq' as [Hr Hx']; [eauto using appended_quiet|].
    split; [done|]. intros x Hh1. rewrite <-(take_drop (S n) (b :: l)), app_assoc. auto.
  - intros [= <- <- <-]. exists m. split_and!; [done..|]. intros Hd. by destruct (Hq Hd) as (? & ? & _).
Qed.

Lemma write_fields_spec s ls d r s' d' : is_open s d → write_fields s ls d = (r, s', d') →
  ∃ m, appended (sink_file s) m d d' ∧ sink_file s' = sink_file s ∧ sink_kind s' = sink_kind s ∧
  (quiet d → r = inl tt ∧ ∀ x, sink_holds s d x → sink_holds s' d' (x ++ concat ls)).
Proof.
  revert s d. induction ls as [|l ls IH]; intros s d Hh; cbn [write_fields].
  { intros [= <- <- <-]. exists []. split_and!; auto using appended_refl. intros _. split; [done|]. intros x. cbn. by rewrite app_nil_r. }
  destruct (write_all s l d) as [[r1 s1] d1] eqn:E. apply write_all_spec in E as (m & Ha & Hs & Hk & Hq); [|done].
  destruct r1 as [[]|e].
  - intros Hl. apply IH in Hl as (m' & Ha' & Hs' & Hk' & Hq'); [|unfold is_open; rewrite Hs; by eapply appended_open].
    rewrite Hs in *. exists (m ++ m'). split_and!; [by eapply appended_trans|done|congruence|].
    intros Hd. destruct (Hq Hd) as [_ Hx]. destruct Hq' as [Hr Hx']; [eauto using appended_quiet|]. split; [done|].
    intros x Hh1. cbn. rewrite app_assoc. auto.
  - intros [= <- <- <-]. exists m. split_and!; [done..|]. intros Hd. by destruct (Hq Hd).
Qed.

(** After a flush of all layers, or a drop, the file says what the sink held. *)
Lemma flush_all_layers_spec s d r s' d' : is_open s d → flush_all_layers s d = (r, s', d') →
  ∃ m, appended (sink_file s) m d d' ∧ sink_file s' = sink_file s ∧ sink_kind s' = sink_kind s ∧
  (quiet d → r = inl tt ∧ ∀ x, sink_holds s d x → sink_holds s' d' x ∧ reads_as (sink_kind s) (file_bytes (sink_file s) d') x).
Proof.
  intros Hh. destruct s as [w|e w]; cbn [flush_all_layers].
  - destruct (bw_flush w d) as [[r1 w1] d1] eqn:E. apply bw_flush_spec in E as (m & Ha & Hf & Hb & Hr & Hq); [|done].
    intros [= <- <- <-]. exists m. split_and!; [done..|]. intros Hd. specialize (Hq Hd). split; [done|].
    intros x <-. unfold sink_file, sink_holds, reads_as in *. cbn in *. unfold sink_file. cbn.
    rewrite Hf, (appended_bytes _ _ _ _ Ha), Hb, (Hr Hq), !app_nil_r. done.
  - destruct (frame_flush e w d) as [[[r1 e1] w1] d1] eqn:E. apply frame_flush_spec in E as (m & Ha & Hf & Hq); [|done].
    destruct r1 as [[]|err]; cycle 1.
    { intros [= <- <- <-]. exists m. split_and!; [done..|]. intros Hd. by destruct (Hq Hd). }
    destruct (bw_flush w1 d1) as [[r2 w2] d2] eqn:E2.
    apply bw_flush_spec in E2 as (m' & Ha' & Hf' & Hb' & Hr' & Hq'); [|rewrite Hf; by eapply appended_open]. rewrite Hf in *.
    intros [= <- <- <-]. exists (m ++ m'). split_and!; [by eapply appended_trans|done|done|].
    intros Hd. destruct (Hq Hd) as (_ & Hp & cs & Hcs & Hb). specialize (Hq' ltac:(eauto using appended_quiet)). split; [done|].
    intros x (y & Hy & <-). unfold sink_file, sink_holds, reads_as in *. cbn in *. unfold sink_file. cbn.
    rewrite Hf', (appended_bytes _ _ _ _ Ha'), (appended_bytes _ _ _ _ Ha). rewrite Hb', (Hr' Hq'), !app_nil_r in *.
    assert (frames ((file_bytes (bw_file w) d ++ m) ++ m') (y ++ pending e)) as HF.
    { rewrite <-app_assoc, <-Hb, app_assoc. by apply frames_app. }
    split; [|done]. eexists; split; [done|]. by rewrite Hp, app_nil_r.
Qed.

Lemma drop_sink_spec s d : is_open s d →
  ∃ m, appended (sink_file s) m d (drop_sink s d) ∧
  (quiet d → ∀ x, sink_holds s d x → reads_as (sink_kind s) (file_bytes (sink_file s) (drop_sink s d)) x).
Proof.
  intros Hh. destruct s as [w|e w]; cbn [drop_sink].
  - destruct (flush_all_layers (Plain w) d) as [[r1 s1] d1] eqn:E. pose proof E as E'. cbn in E'.
    destruct (bw_flush w d) as [[r2 w2] d2]. injection E' as <- <- <-. cbn.
    apply flush_all_layers_spec in E as (m & Ha & _ & _ & Hq); [|done]. exists m. split; [done|]. intros Hd x Hx. by apply (Hq Hd).
  - destruct (frame_flush e w d) as [[[r1 e1] w1] d1] eqn:E.
    destruct (bw_flush w1 d1) as [[r2 w2] d2] eqn:E2. cbn.
    destruct (flush_all_layers (Snappy e w) d) as [[r3 s3] d3] eqn:E3. pose proof E3 as E'. cbn in E'. rewrite E, E2 in E'.
    apply frame_flush_spec in E as (m & Ha & Hf & Hq); [|done].
    apply bw_flush_spec in E2 as (m' & Ha' & _); [|rewrite Hf; by eapply appended_open]. rewrite Hf in *.
    exists (m ++ m'). split; [by eapply appended_trans|]. intros Hd x Hx. destruct (Hq Hd) as [-> _]. injection E' as <- <- <-.
    apply flush_all_layers_spec in E3 as (? & _ & _ & _ & Hq3); [|done]. by apply (Hq3 Hd).
Qed.

End Sinks.
