(* ===== verification/DumpSafety.v ===== *)
(** * A dumper on any disk

    How calls change the disk's files, and the safety of the dumper: it only
    appends, whatever fails. *)

From Stdlib Require Import Strings.Byte Strings.String ZArith Lia.
From stdpp Require Import base gmap sets list strings.
From S2P Require Import Prelude.
From S2P Require Import Net.
From S2P Require Import Text.
From S2P Require Import Counters.
From S2P Require Import Throttle.
From S2P Require Import Calendar.
From S2P Require Import Disk.
From S2P Require Import PcapDump.
From S2P Require Import DumpSinks.

Open Scope Z_scope.

(** ** Whatever the disk does *)

(** Names lead to different inodes that exist. *)
Record disk_ok (d : Disk) : Prop := {
  ok_open p h : dk_names d !! p = Some h → is_Some (dk_data d !! h);
  ok_inj p q h : dk_names d !! p = Some h → dk_names d !! q = Some h → p = q;
  ok_next h : is_Some (dk_data d !! h) → (h < dk_next d)%nat;
}.

(** Files that held something are still there, with what they held. *)
Definition keeps (d d' : Disk) : Prop := ∀ p h c,
  dk_names d !! p = Some h → dk_data d !! h = Some c → c ≠ [] →
  dk_names d' !! p = Some h ∧ ∃ m, dk_data d' !! h = Some (c ++ m).

Record evolution (d d' : Disk) : Prop := {
  ev_ok : disk_ok d';
  ev_keeps : keeps d d';
  ev_open h : is_Some (dk_data d !! h) → is_Some (dk_data d' !! h);
}.
Definition evolves (d d' : Disk) : Prop := disk_ok d → evolution d d'.

#[export] Instance evolves_refl : Reflexive evolves.
Proof.
  intros d Hd. split; [done| |done]. intros p h c Hn Hc _. split; [done|]. exists []. by rewrite app_nil_r.
Qed.

Lemma evolution_trans d d1 d2 : evolution d d1 → evolution d1 d2 → evolution d d2.
Proof.
  intros [O1 K1 D1] [O2 K2 D2]. split; [done| |auto].
  intros p h c Hn Hc Hne. destruct (K1 _ _ _ Hn Hc Hne) as (Hn1 & m & Hc1).
  destruct (K2 _ _ _ Hn1 Hc1) as (Hn2 & m' & Hc2); [by destruct c|]. split; [done|]. exists (m ++ m'). by rewrite app_assoc.
Qed.

#[export] Instance evolves_trans : Transitive evolves.
Proof. intros d d1 d2 H1 H2 Hd. pose proof (H1 Hd) as E1. eapply evolution_trans; [done|]. apply H2, E1. Qed.

Lemma appended_evolves h m d d' : is_Some (dk_data d !! h) → appended h m d d' → evolves d d'.
Proof.
  intros [c0 Hh] Ha Hd. pose proof (λ h', appended_open h m d d' h' Ha) as Hopen. destruct Ha, Hd. split; [split| |done].
  - intros p h'. rewrite ap_names. eauto.
  - rewrite ap_names. done.
  - intros h' Hs. rewrite ap_next. apply ok_next0. rewrite ap_data in Hs.
    destruct (decide (h = h')) as [->|]; simplify_map_eq; eauto.
  - intros p h' c Hn Hc _. rewrite ap_names, ap_data. split; [done|].
    destruct (decide (h = h')) as [->|]; simplify_map_eq; [|exists []; by rewrite app_nil_r].
    unfold file_bytes. rewrite Hh. cbn. eauto.
Qed.

(** A call that only reads, fails, or makes directories. *)
Lemma same_files_evolves d d' : dk_names d' = dk_names d → dk_data d' = dk_data d → dk_next d' = dk_next d → evolves d d'.
Proof.
  intros En Ed Ex Hd. destruct Hd. split; [split| |]; rewrite ?En, ?Ed, ?Ex; try done.
  intros p h c Hn Hc _. rewrite En, Ed. split; [done|]. exists []. by rewrite app_nil_r.
Qed.

Lemma os_call_same d o d' : os_call d = (o, d') →
  dk_dirs d' = dk_dirs d ∧ dk_names d' = dk_names d ∧ dk_data d' = dk_data d ∧ dk_next d' = dk_next d.
Proof. intros E. pose proof (os_call_spec d) as H. rewrite E in H. tauto. Qed.

Lemma syscall_evolves {A} (k : io A) d r d' : (∀ d1 r d2, k d1 = (r, d2) → evolves d1 d2) →
  syscall k d = (r, d') → evolves d d'.
Proof.
  intros Hk. unfold syscall. destruct (os_call d) as [o d1] eqn:E. apply os_call_same in E as (_ & ? & ? & ?).
  assert (evolves d d1) as Hev by by apply same_files_evolves.
  destruct o; [intros ?%Hk; by etrans..|by intros [= _ <-]].
Qed.

Lemma create_dir_all_evolves p d r d' : create_dir_all p d = (r, d') → evolves d d'.
Proof. apply syscall_evolves. intros d1 r1 d2 [= _ <-]. by apply same_files_evolves. Qed.

Lemma file_len_evolves h d r d' : file_len h d = (r, d') → evolves d d'.
Proof. apply syscall_evolves. by intros d1 r1 d2 [= _ <-]. Qed.

Lemma file_len_value h d n d' : file_len h d = (inl n, d') → n = zlen (file_bytes h d) ∧ file_bytes h d' = file_bytes h d.
Proof.
  unfold file_len, syscall. destruct (os_call d) as [o d1] eqn:E. apply os_call_same in E as (_ & ? & Ed & ?).
  assert (file_bytes h d1 = file_bytes h d) as Eb by (unfold file_bytes; by rewrite Ed).
  destruct o; intros [= <- <-]; by rewrite Eb.
Qed.

Lemma new_file_evolves p d : dk_names d !! p = None →
  evolves d (mkDisk (dk_dirs d) (<[p := dk_next d]> (dk_names d)) (<[dk_next d := []]> (dk_data d)) (S (dk_next d)) (dk_os d)).
Proof.
  intros Hp Hd. destruct Hd.
  assert (∀ q h, dk_names d !! q = Some h → (h < dk_next d)%nat) as Hold by eauto.
  split; [split; cbn| |].
  - intros q h. rewrite lookup_insert_Some, lookup_insert_is_Some. intros [[-> <-]|[_ Hq]]; [by left|].
    right. pose proof (Hold _ _ Hq). split; [lia|eauto].
  - intros q q' h. rewrite !lookup_insert_Some.
    intros [[<- <-]|[_ Hq]] [[<- Heq]|[_ Hq']]; [done|pose proof (Hold _ _ Hq'); lia|pose proof (Hold _ _ Hq); lia|eauto].
  - intros h. rewrite lookup_insert_is_Some. intros [<-|[_ Hh]]; [lia|]. specialize (ok_next0 _ Hh). lia.
  - intros q h c Hq Hc _. cbn. pose proof (Hold _ _ Hq).
    rewrite !lookup_insert_ne by (congruence || lia). split; [done|]. exists []. by rewrite app_nil_r.
  - intros h Hh. cbn. rewrite lookup_insert_is_Some. destruct (decide (dk_next d = h)); [by left|by right].
Qed.

Lemma open_append_evolves p d r d' : open_append p d = (r, d') → evolves d d' ∧
  (disk_ok d → ∀ h, r = inl h → dk_names d' !! p = Some h ∧ is_Some (dk_data d' !! h)).
Proof.
  intros Hop. unfold open_append, syscall in Hop. destruct (os_call d) as [o d0] eqn:E.
  apply os_call_same in E as (_ & En & Ed & Ex).
  assert (evolves d d0) as H0 by by apply same_files_evolves.
  destruct (dk_names d0 !! p) as [h|] eqn:Hn.
  - destruct o; injection Hop as <- <-; (split; [done|]); intros Hd h'; try done.
    all: intros [= <-]; split; [done|]; destruct (H0 Hd) as [[] _ _]; eauto.
  - assert (evolves d0 (mkDisk (dk_dirs d0) (<[p:=dk_next d0]> (dk_names d0)) (<[dk_next d0:=[]]> (dk_data d0)) (S (dk_next d0)) (dk_os d0))) as Hnew
      by by apply new_file_evolves.
    destruct o; [destruct (decide _)..|]; injection Hop as <- <-; (split; [done || by etrans|]); intros _ h' [= <-]; cbn; by simplify_map_eq.
Qed.

Lemma remove_file_evolves_but p d r d' : remove_file p d = (r, d') →
  dk_data d' = dk_data d ∧ dk_next d' = dk_next d ∧ (dk_names d' = dk_names d ∨ dk_names d' = delete p (dk_names d)).
Proof.
  unfold remove_file, syscall. destruct (os_call d) as [o d1] eqn:E. apply os_call_same in E as (_ & En & Ed & Ex).
  destruct o; [destruct (dk_names d1 !! p)..|]; intros [= _ <-]; cbn; rewrite ?En, ?Ed, ?Ex; auto.
Qed.

(** An empty file that is removed takes nothing with it. *)
Lemma remove_empty_evolves p d r d' d0 : evolves d0 d →
  (∀ q hq c, dk_names d0 !! q = Some hq → dk_data d0 !! hq = Some c → c ≠ [] → q ≠ p) →
  remove_file p d = (r, d') → evolves d0 d'.
Proof.
  intros He Hne (Ed & Ex & En)%remove_file_evolves_but Hd0. destruct (He Hd0) as [Hd K D]. destruct Hd. split; [split| |].
  - intros q hq Hq. rewrite Ed. destruct En as [En|En]; rewrite En in Hq; [eauto|]. apply lookup_delete_Some in Hq as [_ Hq]. eauto.
  - intros q q' hq Hq Hq'. destruct En as [En|En]; rewrite En in *; [eauto|].
    apply lookup_delete_Some in Hq as [_ Hq], Hq' as [_ Hq']. eauto.
  - intros hq. rewrite Ed, Ex. auto.
  - intros q hq c Hq Hc Hn. destruct (K _ _ _ Hq Hc Hn) as (Hq' & m & Hc'). rewrite Ed. split; [|eauto].
    destruct En as [En|En]; rewrite En; [done|]. rewrite lookup_delete_ne; [done|]. intros <-. by eapply Hne.
  - intros hq Hh. rewrite Ed. auto.
Qed.

Lemma open_retry_evolves src p d r d' : open_retry src p d = (r, d') → evolves d d' ∧
  (disk_ok d → ∀ h, r = inl h → dk_names d' !! p = Some h ∧ is_Some (dk_data d' !! h)).
Proof.
  unfold open_retry. destruct (open_append p d) as [r1 d1] eqn:E1. apply open_append_evolves in E1 as [H1 H2].
  destruct r1 as [h|[]]; try by intros [= <- <-].
  unfold io_bind. destruct (create_dir_all src d1) as [r2 d2] eqn:E2. apply create_dir_all_evolves in E2 as H3.
  destruct r2 as [[]|e]; [|intros [= <- <-]; split; [by etrans|done]].
  intros (H4 & H5)%open_append_evolves. split; [do 2 (etrans; [done|]); done|].
  intros Hd. apply H5. by destruct (H3 (ev_ok _ _ (H1 Hd))).
Qed.

Section Safety.
Context `{FL : FrameLaws}.

Lemma sink_file_new c h : sink_file (sink_new c h) = h.
Proof. by destruct c. Qed.

Lemma open_minute_file_evolves src k lt c d r d' : open_minute_file src k lt c d = (r, d') → evolves d d' ∧
  (disk_ok d → ∀ mf, r = inl mf → is_open (mf_sink mf) d').
Proof.
  unfold open_minute_file, io_bind. set (path := join_path src (dump_filename k c)).
  destruct (open_retry src path d) as [r1 d1] eqn:E1. apply open_retry_evolves in E1 as [H1 H1'].
  destruct r1 as [h|e]; [|intros [= <- <-]; split; [done|by intros]].
  destruct (file_len h d1) as [r2 d2] eqn:E2. pose proof (file_len_evolves _ _ _ _ E2) as H2.
  destruct r2 as [n|e]; [|intros [= <- <-]; split; [by etrans|by intros]].
  apply file_len_value in E2 as [Hn Hb]. assert (evolves d d2) as H12 by by etrans.
  assert (disk_ok d → is_Some (dk_data d2 !! h)) as Hopen.
  { intros Hd. destruct (H1' Hd h eq_refl) as [_ Ho]. by apply (H2 (ev_ok _ _ (H1 Hd))). }
  destruct (Z.eqb_spec n 0) as [Hz|Hz]; cycle 1.
  { intros [= <- <-]. split; [done|]. intros Hd mf [= <-]. unfold is_open. cbn. rewrite sink_file_new. auto. }
  unfold write_pcap_global_header. destruct (write_fields (sink_new c h) (global_header_fields lt) d2) as [[r3 s] d3] eqn:E3.
  assert (disk_ok d → ∃ m, appended h m d2 d3 ∧ sink_file s = h) as H3.
  { intros Hd. apply write_fields_spec in E3 as (m & Ha & Hs & _); unfold is_open; rewrite ?sink_file_new in *; eauto. }
  assert (evolves d d3) as H13.
  { intros Hd. destruct (H3 Hd) as (m & Ha & _). eapply evolves_trans; [done| |done]. eapply appended_evolves; [|done]. auto. }
  destruct r3 as [[]|e].
  - intros [= <- <-]. split; [done|]. intros Hd mf [= <-]. unfold is_open. cbn. destruct (H3 Hd) as (m & Ha & ->). eapply appended_open; eauto.
  - destruct (remove_file path d3) as [r4 d4] eqn:E4. intros [= <- <-]. split; [|by intros].
    intros Hd. destruct (H3 Hd) as (m & Ha & Hs).
    assert (evolves d d4) as H14.
    { eapply remove_empty_evolves; [exact H13| |exact E4]. intros q hq cq Hq Hc Hne ->.
      destruct (H1' Hd h eq_refl) as [Hp _]. destruct (H1 Hd) as [_ K _]. destruct (K _ _ _ Hq Hc Hne) as (Hq1 & m1 & Hc1).
      assert (h = hq) as <- by congruence. unfold file_bytes in Hn. rewrite Hc1 in Hn. destruct cq; [done|].
      cbn in Hn. unfold zlen in Hn. cbn [length] in Hn. lia. }
    eapply evolves_trans; [exact H14| |exact Hd].
    apply remove_file_evolves_but in E4 as (Ed & _).
    assert (is_open s d4) as Ho. { unfold is_open. rewrite Ed, Hs. eapply appended_open; eauto. }
    destruct (drop_sink_spec s d4 Ho) as (m' & Ha' & _). eapply appended_evolves; [exact Ho|]. exact Ha'.
Qed.

(** The files of the dumper's writers exist. *)
Definition writer_open (sw : SourceWriter) (d : Disk) : Prop :=
  ∀ mf, sw_current sw = Some mf → is_open (mf_sink mf) d.
Definition dumper_open (p : PacketDumper) (d : Disk) : Prop :=
  ∀ sid sw, pd_writers p !! sid = Some sw → writer_open sw d.

Lemma dumper_open_evolves p d d' : (∀ h, is_Some (dk_data d !! h) → is_Some (dk_data d' !! h)) → dumper_open p d → dumper_open p d'.
Proof. intros H Hp sid sw Hs mf Hm. unfold is_open. apply H. by eapply Hp. Qed.

Lemma set_writer_open sid sw p d : writer_open sw d → dumper_open p d → dumper_open (set_writer sid sw p) d.
Proof. intros Hw Hp sid' sw'. cbn. intros [[<- <-]|[_ H]]%lookup_insert_Some; [done|by eapply Hp]. Qed.

Lemma ensure_writer_safe now pkt p d ok p1 d1 : disk_ok d → dumper_open p d → ensure_writer now pkt p d = (ok, p1, d1) →
  evolution d d1 ∧ dumper_open p1 d1 ∧ (ok = true → is_Some (pd_writers p1 !! raw_source pkt)).
Proof.
  intros Hd Hp. unfold ensure_writer. destruct (pd_writers p !! raw_source pkt) as [sw|] eqn:Ew.
  { intros [= <- <- <-]. split_and!; [by apply evolves_refl|done|eauto]. }
  unfold open_source_dir. destruct (sanitize_path_component _) as [safe|];
    [|intros [= <- <- <-]; split_and!; [by apply evolves_refl|done|done]].
  destruct (negb _); [intros [= <- <- <-]; split_and!; [by apply evolves_refl|done|done]|].
  destruct (create_dir_all _ d) as [r d2] eqn:E. apply create_dir_all_evolves in E. specialize (E Hd).
  assert (dumper_open p d2) as Hp2 by (eapply dumper_open_evolves; [apply E|done]).
  destruct r; intros [= <- <- <-]; (split_and!; [done| |]); try done.
  - by apply set_writer_open.
  - intros _. cbn. rewrite lookup_insert_eq. eauto.
Qed.

Lemma drop_current_safe sw d : disk_ok d → writer_open sw d →
  evolution d (match sw_current sw with Some cur => drop_sink (mf_sink cur) d | None => d end).
Proof.
  intros Hd Hw. destruct (sw_current sw) as [cur|] eqn:E; [|by apply evolves_refl].
  destruct (drop_sink_spec (mf_sink cur) d) as (m & Ha & _); [by apply Hw|]. eapply appended_evolves; [|done|done]. by apply Hw.
Qed.

Lemma rotate_safe now k sid p d : disk_ok d → dumper_open p d → is_Some (pd_writers p !! sid) →
  ∃ ok p1 d1, rotate now k sid p d = Ret (ok, p1, d1) ∧ evolution d d1 ∧ dumper_open p1 d1 ∧
    (ok = true → ∃ sw cur, pd_writers p1 !! sid = Some sw ∧ sw_current sw = Some cur).
Proof.
  intros Hd Hp [sw Hs]. unfold rotate. rewrite Hs. cbn [expect res_bind].
  pose proof (drop_current_safe sw d Hd (Hp _ _ Hs)) as H1.
  set (d1 := match sw_current sw with Some cur => _ | None => d end) in *.
  destruct (open_minute_file _ _ _ _ d1) as [r d2] eqn:E. apply open_minute_file_evolves in E as [H2 H2'].
  specialize (H2 (ev_ok _ _ H1)). specialize (H2' (ev_ok _ _ H1)).
  assert (evolution d d2) as H12 by by eapply evolution_trans.
  assert (dumper_open (set_writer sid (set_current None sw) p) d2) as Hp2.
  { apply set_writer_open; [by intros ??|]. eapply dumper_open_evolves; [apply H12|done]. }
  destruct r as [mf|e].
  - cbn [pd_writers set_writer set_writers]. rewrite lookup_insert_eq. cbn [expect res_bind].
    eexists _, _, _. split_and!; [done..| |].
    + apply set_writer_open; [|done]. intros mf' [= <-]. by apply H2'.
    + intros _. cbn. rewrite lookup_insert_eq. eauto.
  - eexists _, _, _. split_and!; [done..|by intros].
Qed.

Lemma write_record_safe now k pkt p d sw cur : disk_ok d → dumper_open p d →
  pd_writers p !! raw_source pkt = Some sw → sw_current sw = Some cur →
  ∃ p1 d1, write_record now k pkt p d = Ret (p1, d1) ∧ evolution d d1 ∧ dumper_open p1 d1.
Proof.
  intros Hd Hp Hs Hc. unfold write_record. rewrite Hs. cbn [expect res_bind]. rewrite Hc. cbn [expect res_bind].
  pose proof (Hp _ _ Hs _ Hc) as Ho. unfold write_pcap_record.
  destruct (write_fields (mf_sink cur) (record_fields pkt) d) as [[r s] d1] eqn:E. apply write_fields_spec in E as (m & Ha & Hf & _); [|done].
  eexists _, _. split; [done|]. split; [by eapply appended_evolves|].
  assert (dumper_open (set_writer (raw_source pkt) (set_current (Some (mkMinuteFile (mf_minute_key cur) s)) sw) p) d1) as H1.
  { apply set_writer_open; [|by eapply dumper_open_evolves; [intros; eapply appended_open|]].
    intros mf [= <-]. unfold is_open. cbn. rewrite Hf. eapply appended_open; [done|by eapply Hp]. }
  by destruct r, (k <? mf_minute_key cur).
Qed.

Lemma write_ready_safe now pkt p d : disk_ok d → dumper_open p d → is_Some (pd_writers p !! raw_source pkt) →
  ∃ p1 d1, write_ready now pkt p d = Ret (p1, d1) ∧ evolution d d1 ∧ dumper_open p1 d1.
Proof.
  intros Hd Hp [sw Hs]. unfold write_ready. rewrite Hs. cbn [expect res_bind]. set (k := raw_ts pkt / MICROS_PER_MINUTE).
  destruct (negb _); [eexists _, _; split_and!; [done|by apply evolves_refl|done]|].
  assert (∃ p1 d1, (let* (ok, p2, d2) := rotate now k (raw_source pkt) p d in
      if ok : bool then write_record now k pkt p2 d2 else Ret (p2, d2)) = Ret (p1, d1) ∧ evolution d d1 ∧ dumper_open p1 d1) as Hrot.
  { destruct (rotate_safe now k (raw_source pkt) p d) as (ok & p2 & d2 & -> & H2 & Hp2 & Hcur); [done..|by eauto|].
    cbn [res_bind]. destruct ok; [|by eauto]. destruct (Hcur eq_refl) as (sw2 & cur & ? & ?).
    destruct (write_record_safe now k pkt p2 d2 sw2 cur) as (p3 & d3 & ? & ? & ?); [apply H2|done..|].
    exists p3, d3. split_and!; [done|by eapply evolution_trans|done]. }
  destruct (sw_current sw) as [cur|] eqn:Ec; [|exact Hrot]. destruct (mf_minute_key cur <? _); [exact Hrot|]. by eapply write_record_safe.
Qed.

Lemma write_safe now pkt p d : disk_ok d → dumper_open p d →
  ∃ p1 d1, write now pkt p d = Ret (p1, d1) ∧ evolution d d1 ∧ dumper_open p1 d1.
Proof.
  intros Hd Hp. unfold write. pose proof (evolves_refl d Hd) as Hr.
  destruct (is_heartbeat pkt); [by eauto|]. case_decide; [by eauto|].
  destruct (ensure_writer now pkt p d) as [[ok p1] d1] eqn:E. apply ensure_writer_safe in E as (H1 & Hp1 & Hw); [|done..].
  destruct ok; [|by eauto].
  destruct (write_ready_safe now pkt p1 d1) as (p2 & d2 & ? & ? & ?); [apply H1|done|by apply Hw|].
  exists p2, d2. split_and!; [done|by eapply evolution_trans|done].
Qed.

(** ** Flushing and dropping *)

Context `{HI : !HashIter string SourceWriter} `{HL : !HashIterLaws string SourceWriter HI}.

Lemma hash_iter_lookup (W : gmap string SourceWriter) sid sw : (sid, sw) ∈ hash_iter W ↔ W !! sid = Some sw.
Proof. rewrite (hash_iter_perm W). apply elem_of_map_to_list. Qed.

Lemma flush_writer_safe sid sw d sw' ok d' : disk_ok d → writer_open sw d → flush_writer sid sw d = (sw', ok, d') →
  evolution d d' ∧ writer_open sw' d'.
Proof.
  intros Hd Hw. unfold flush_writer. destruct (sw_current sw) as [cur|] eqn:Ec.
  - destruct (flush_all_layers (mf_sink cur) d) as [[r s] d1] eqn:E.
    apply flush_all_layers_spec in E as (m & Ha & Hf & _ & _); [|by apply Hw]. intros [= <- <- <-].
    split; [eapply appended_evolves; [|done|done]; by apply Hw|].
    intros mf [= <-]. unfold is_open. cbn. rewrite Hf. eapply appended_open; [done|]. by apply Hw.
  - intros [= <- <- <-]. split; [by apply evolves_refl|]. by intros mf; rewrite Ec.
Qed.

Lemma flush_writers_safe l W errs d : disk_ok d → (∀ sid sw, (sid, sw) ∈ l → writer_open sw d) →
  (∀ sid sw, W !! sid = Some sw → writer_open sw d) →
  let '(W', _, d') := flush_writers l W errs d in
  evolution d d' ∧ ∀ sid sw, W' !! sid = Some sw → writer_open sw d'.
Proof.
  revert W errs d. induction l as [|[sid sw] l IH]; intros W errs d Hd Hl HW; cbn [flush_writers].
  { split; [by apply evolves_refl|done]. }
  destruct (flush_writer sid sw d) as [[sw1 ok] d1] eqn:E. apply flush_writer_safe in E as [He Ho]; [|done|apply (Hl sid); by left].
  assert (∀ sw, writer_open sw d → writer_open sw d1) as Hmono by (intros sw2 H2 mf Hm; apply He; by apply H2).
  specialize (IH (<[sid := sw1]> W) (if ok then errs else S errs) d1).
  destruct (flush_writers l _ _ d1) as [[W2 e2] d2]. destruct IH as [H2 H2'].
  - apply He.
  - intros sid' sw' Hin. apply Hmono, (Hl sid'). by right.
  - intros sid' sw'. rewrite lookup_insert_Some. intros [[<- <-]|[_ H]]; [done|]. apply Hmono. by eapply HW.
  - split; [by eapply evolution_trans|done].
Qed.

Lemma note_errors_writers (now : nat → Z) l p : pd_writers (foldl (λ p i, note_error (now i) p) p l) = pd_writers p.
Proof. revert p; induction l as [|i l IH]; intros p; [done|]. cbn. by rewrite IH. Qed.

Lemma flush_all_safe now p d : disk_ok d → dumper_open p d →
  let '(p', d') := flush_all now p d in evolution d d' ∧ dumper_open p' d'.
Proof.
  intros Hd Hp. unfold flush_all. pose proof (flush_writers_safe (hash_iter (pd_writers p)) (pd_writers p) 0 d Hd) as H.
  destruct (flush_writers _ _ 0 d) as [[W e] d']. destruct H as [He Ho].
  - intros sid sw Hin. apply (Hp sid). by apply hash_iter_lookup.
  - exact Hp.
  - split; [done|]. unfold dumper_open. rewrite note_errors_writers. exact Ho.
Qed.

Lemma drop_dumper_safe p d : disk_ok d → dumper_open p d → evolution d (drop_dumper p d).
Proof.
  intros Hd Hp. unfold drop_dumper. assert (∀ sid sw, (sid, sw) ∈ hash_iter (pd_writers p) → writer_open sw d) as Hl.
  { intros sid sw Hin. apply (Hp sid). by apply hash_iter_lookup. }
  clear Hp. revert d Hd Hl. induction (hash_iter (pd_writers p)) as [|[sid sw] l IH]; intros d Hd Hl; [by apply evolves_refl|].
  cbn [foldl snd]. pose proof (drop_current_safe sw d Hd (Hl sid sw ltac:(by left))) as He.
  eapply evolution_trans; [exact He|]. apply IH; [apply He|].
  intros sid' sw' Hin mf Hm. apply He. eapply (Hl sid'); [by right|done].
Qed.

(** A run of the dumper: packets and flushes, in any order. *)
Inductive DumpOp : Type := OpPacket (now : Z) (pkt : RawPacket) | OpFlush (now : nat → Z).
Fixpoint run_dump (ops : list DumpOp) (p : PacketDumper) (d : Disk) : res (PacketDumper * Disk) :=
  match ops with
  | [] => Ret (p, d)
  | OpPacket now pkt :: ops' => let* (p1, d1) := write now pkt p d in run_dump ops' p1 d1
  | OpFlush now :: ops' => let '(p1, d1) := flush_all now p d in run_dump ops' p1 d1
  end.

Lemma run_dump_safe ops p d : disk_ok d → dumper_open p d →
  ∃ p1 d1, run_dump ops p d = Ret (p1, d1) ∧ evolution d d1 ∧ dumper_open p1 d1.
Proof.
  revert p d. induction ops as [|[now pkt|now] ops IH]; intros p d Hd Hp; cbn [run_dump].
  - eexists _, _. split_and!; [done|by apply evolves_refl|done].
  - destruct (write_safe now pkt p d Hd Hp) as (p1 & d1 & -> & H1 & Hp1). cbn [res_bind].
    destruct (IH p1 d1) as (p2 & d2 & ? & ? & ?); [apply H1|done|]. eexists _, _. split_and!; [done|by eapply evolution_trans|done].
  - pose proof (flush_all_safe now p d Hd Hp) as H1. destruct (flush_all now p d) as [p1 d1]. destruct H1 as [H1 Hp1].
    destruct (IH p1 d1) as (p2 & d2 & ? & ? & ?); [apply H1|done|]. eexists _, _. split_and!; [done|by eapply evolution_trans|done].
Qed.

(** C31: Whatever the disk does -- calls that fail, writes cut short, in any order
    and number -- and whatever packets and flushes come, the dumper never
    panics, and every file that held something before the dumper was made is
    still there afterwards, with its bytes followed by others: the dump only
    appends. *)
Theorem dump_never_destroys dir c m ops p d d1 : disk_ok d → dumper_new dir c m d = (inl p, d1) →
  ∃ p' d', run_dump ops p d1 = Ret (p', d') ∧ keeps d d' ∧ keeps d (drop_dumper p' d').
Proof.
  intros Hd. unfold dumper_new, io_bind. destruct (create_dir_all dir d) as [r d0] eqn:E. apply create_dir_all_evolves in E. specialize (E Hd).
  destruct r as [[]|e]; [|done]. intros [= <- <-].
  destruct (run_dump_safe ops (mkDumper dir c ∅ ∅ (throttle_new WARN_THROTTLE) m) d0) as (p' & d' & Hr & He & Hp); [apply E|by intros sid sw|].
  exists p', d'. split; [done|]. assert (evolution d d') as H1 by by eapply evolution_trans.
  split; [apply H1|]. eapply evolution_trans; [exact H1|]. apply drop_dumper_safe; [apply H1|done].
Qed.

End Safety.
