(* ===== verification/DumpContents.v ===== *)
(** * What a packet dump holds

    The contents of the dump's files when the disk works, source by source and
    minute by minute. *)

From Stdlib Require Import Strings.Byte Strings.String ZArith Lia.
From stdpp Require Import base gmap sets list strings.
From S2P Require Import Prelude.
From S2P Require Import Net.
From S2P Require Import Text.
From S2P Require Import Counters.
From S2P Require Import Throttle.
From S2P Require Import Calendar.
From S2P Require Import Disk.
From S2P Require Import PcapDump.
From S2P Require Import DumpSinks.
From S2P Require Import DumpSafety.

Open Scope Z_scope.

(** ** What a working dump holds *)

Definition minute_of (p : RawPacket) : Z := raw_ts p / MICROS_PER_MINUTE.

(** The packets of a source, and those of its first packet's link type. *)
Definition seen (sid : string) (hist : list RawPacket) : list RawPacket :=
  List.filter (λ p, bool_decide (raw_source p = sid) && negb (is_heartbeat p)) hist.
Definition same_link (p0 p : RawPacket) : bool := raw_link_type p0 =? raw_link_type p.
Definition accepted (sid : string) (hist : list RawPacket) : list RawPacket :=
  match seen sid hist with
  | [] => []
  | p0 :: _ => List.filter (same_link p0) (seen sid hist)
  end.

(** Each packet with the latest minute up to it. *)
Fixpoint in_minutes (last : option Z) (l : list RawPacket) : list (Z * RawPacket) :=
  match l with
  | [] => []
  | p :: l' =>
      let k := match last with Some c => Z.max c (minute_of p) | None => minute_of p end in
      (k, p) :: in_minutes (Some k) l'
  end.
Definition in_file (k : Z) (l : list RawPacket) : list RawPacket :=
  map snd (List.filter (λ kp, kp.1 =? k) (in_minutes None l)).
Definition file_packets (sid : string) (k : Z) (hist : list RawPacket) : list RawPacket := in_file k (accepted sid hist).

Definition record_bytes (p : RawPacket) : list byte := concat (record_fields p).
Definition header_bytes (link_type : Z) : list byte := concat (global_header_fields link_type).

Definition last_minute (l : list RawPacket) : option Z := fst <$> last (in_minutes None l).
Definition next_minute (l : list RawPacket) (p : RawPacket) : Z :=
  match last_minute l with Some c => Z.max c (minute_of p) | None => minute_of p end.

Lemma in_minutes_snoc o l p : in_minutes o (l ++ [p]) = in_minutes o l ++
  [(match from_option Some o (fst <$> last (in_minutes o l)) with Some c => Z.max c (minute_of p) | None => minute_of p end, p)].
Proof.
  revert o. induction l as [|q l IH]; intros o; [done|]. cbn [in_minutes app]. rewrite IH. f_equal. f_equal. f_equal.
  rewrite last_cons. by destruct (last _).
Qed.

Lemma in_minutes_snoc_None l p : in_minutes None (l ++ [p]) = in_minutes None l ++ [(next_minute l p, p)].
Proof. rewrite in_minutes_snoc. unfold next_minute, last_minute. by destruct (fst <$> _). Qed.

Lemma in_file_snoc k l p : in_file k (l ++ [p]) = in_file k l ++ if next_minute l p =? k then [p] else [].
Proof. unfold in_file. rewrite in_minutes_snoc_None, List.filter_app, map_app. cbn. by destruct (_ =? k). Qed.

Lemma last_minute_snoc l p : last_minute (l ++ [p]) = Some (next_minute l p).
Proof. unfold last_minute. by rewrite in_minutes_snoc_None, last_snoc. Qed.

(** The minutes do not decrease. *)
Lemma in_file_future l k c : last_minute l = Some c → c < k → in_file k l = [].
Proof.
  revert k c. induction l as [|p l IH] using rev_ind; intros k c; [done|].
  rewrite last_minute_snoc, in_file_snoc. intros [= <-] Hk. rewrite (proj2 (Z.eqb_neq _ _)) by lia. rewrite app_nil_r.
  unfold next_minute in Hk. destruct (last_minute l) as [c|] eqn:E; [by apply (IH _ c); [|lia]|].
  unfold last_minute in E. destruct l as [|q l _] using rev_ind; [done|]. by rewrite in_minutes_snoc_None, last_snoc in E.
Qed.

Lemma seen_snoc sid hist p : seen sid (hist ++ [p]) = seen sid hist ++
  if bool_decide (raw_source p = sid) && negb (is_heartbeat p) then [p] else [].
Proof. unfold seen. rewrite List.filter_app. cbn. by destruct (_ && _). Qed.

Lemma accepted_other sid hist p : raw_source p ≠ sid ∨ is_heartbeat p = true → accepted sid (hist ++ [p]) = accepted sid hist.
Proof.
  intros H. unfold accepted. rewrite seen_snoc.
  replace (bool_decide (raw_source p = sid) && negb (is_heartbeat p)) with false; [by rewrite app_nil_r|].
  destruct H as [H| ->]; [by rewrite bool_decide_false|by rewrite andb_false_r].
Qed.

Lemma accepted_own sid hist p p0 : raw_source p = sid → is_heartbeat p = false → head (seen sid (hist ++ [p])) = Some p0 →
  accepted sid (hist ++ [p]) = accepted sid hist ++ if same_link p0 p then [p] else [].
Proof.
  intros Hs Hh. unfold accepted. rewrite seen_snoc, bool_decide_true, Hh by done. cbn [andb negb].
  destruct (seen sid hist) as [|q l] eqn:E; cbn [app head].
  - intros [= <-]. cbn. by destruct (same_link p p).
  - intros [= <-]. rewrite app_comm_cons, List.filter_app. done.
Qed.

(** ** Calls of a quiet disk *)

(** Only the names of [P] are touched, and no name goes away. *)
Record local_step (P : Path → Prop) (d d' : Disk) : Prop := {
  ls_quiet : quiet d';
  ls_ok : disk_ok d';
  ls_dirs : dk_dirs d ⊆ dk_dirs d';
  ls_names q h : dk_names d !! q = Some h → dk_names d' !! q = Some h;
  ls_other q : ¬ P q →
    dk_names d' !! q = dk_names d !! q ∧ ∀ h, dk_names d !! q = Some h → dk_data d' !! h = dk_data d !! h;
}.

Lemma local_refl P d : quiet d → disk_ok d → local_step P d d.
Proof. by split. Qed.

Lemma local_trans P d d1 d2 : local_step P d d1 → local_step P d1 d2 → local_step P d d2.
Proof.
  intros [] []. split; [done..|by etrans|eauto|]. intros q Hq. destruct (ls_other0 q Hq) as [E1 D1], (ls_other1 q Hq) as [E2 D2].
  split; [congruence|]. intros h Hh. rewrite D2, D1 by congruence. done.
Qed.

Lemma local_weaken (P Q : Path → Prop) d d' : (∀ q, P q → Q q) → local_step P d d' → local_step Q d d'.
Proof. intros H []. split; [done..|]. intros q Hq. apply ls_other0. intros Hp. by apply Hq, H. Qed.

Lemma local_appended path h m d d' : quiet d → disk_ok d → dk_names d !! path = Some h → appended h m d d' → local_step (eq path) d d'.
Proof.
  intros Hq Hd Hn Ha. pose proof (ok_open _ Hd _ _ Hn) as Ho. split.
  - by eapply appended_quiet.
  - by eapply appended_evolves.
  - by rewrite (ap_dirs _ _ _ _ Ha).
  - by rewrite (ap_names _ _ _ _ Ha).
  - intros q Hne. rewrite (ap_names _ _ _ _ Ha). split; [done|]. intros h' Hh'. apply (appended_other _ _ _ _ _ Ha).
    intros ->. apply Hne. by eapply ok_inj.
Qed.

Lemma local_file_at P d d' q : local_step P d d' → ¬ P q → file_at q d' = file_at q d.
Proof.
  intros [] Hq. destruct (ls_other0 q Hq) as [E D]. unfold file_at. rewrite E.
  destruct (dk_names d !! q) as [h|] eqn:Hh; [|done]. cbn. unfold file_bytes. by rewrite D.
Qed.

Lemma syscall_quiet {A} (k : io A) d r d' : quiet d → syscall k d = (r, d') →
  ∃ d1, k d1 = (r, d') ∧ quiet d1 ∧ dk_dirs d1 = dk_dirs d ∧ dk_names d1 = dk_names d ∧ dk_data d1 = dk_data d ∧ dk_next d1 = dk_next d.
Proof.
  intros Hq. unfold syscall. pose proof (os_call_spec d) as Hos. destruct (os_call d) as [o d1].
  destruct Hos as (H1 & H2 & H3 & H4 & H5 & H6). specialize (H6 Hq).
  destruct o; try done; intros Hk; exists d1; split_and!; eauto using quiet_suffix.
Qed.

Lemma same_tree_local P d d' : quiet d' → disk_ok d → dk_dirs d ⊆ dk_dirs d' → dk_names d' = dk_names d → dk_data d' = dk_data d → dk_next d' = dk_next d → local_step P d d'.
Proof. intros Hq Hd Hdirs En Ed Ex. split; [done|by apply (same_files_evolves d)|done|by rewrite En|by rewrite En, Ed]. Qed.

Lemma create_dir_all_quiet P p d r d' : quiet d → disk_ok d → create_dir_all p d = (r, d') →
  r = inl tt ∧ local_step P d d' ∧ p ∈ dk_dirs d'.
Proof.
  intros Hq Hd Hc. apply syscall_quiet in Hc as (d1 & E & Hq1 & E1 & E2 & E3 & E4); [|done]. apply pair_equal_spec in E as [<- <-]. split; [done|].
  split; [apply same_tree_local; cbn; [done|done|rewrite E1; set_solver|done..]|]. unfold with_dirs. cbn [dk_dirs].
  rewrite elem_of_union, elem_of_list_to_set. left. unfold prefixes. apply list_elem_of_fmap. exists (length p). rewrite firstn_all. split; [done|].
  apply elem_of_seq. lia.
Qed.

Lemma file_len_quiet P h d r d' : quiet d → disk_ok d → file_len h d = (r, d') →
  r = inl (zlen (file_bytes h d)) ∧ local_step P d d' ∧ dk_data d' = dk_data d.
Proof.
  intros Hq Hd Hc. apply syscall_quiet in Hc as (d1 & E & Hq1 & E1 & E2 & E3 & E4); [|done]. injection E as <- <-.
  unfold file_bytes. rewrite E3. split; [done|]. split; [|done]. by apply same_tree_local; rewrite ?E1.
Qed.

Lemma open_append_quiet src f d r d' : quiet d → disk_ok d → src ∈ dk_dirs d → open_append (join_path src f) d = (r, d') →
  ∃ h, r = inl h ∧ local_step (eq (join_path src f)) d d' ∧ dk_names d' !! join_path src f = Some h ∧
       file_bytes h d' = default [] (file_at (join_path src f) d).
Proof.
  intros Hq Hd Hsrc Hc. pose proof (open_append_evolves _ _ _ _ Hc) as [He _]. specialize (He Hd).
  apply syscall_quiet in Hc as (d1 & E & Hq1 & E1 & E2 & E3 & E4); [|done]. rewrite E2 in E.
  destruct (dk_names d !! join_path src f) as [h|] eqn:Hn.
  - injection E as <- <-. exists h. split; [done|]. split; [by apply same_tree_local; rewrite ?E1|]. rewrite E2. split; [done|].
    unfold file_at, file_bytes. by rewrite Hn, E3.
  - unfold join_path in E. rewrite removelast_last, decide_True in E by by rewrite E1. injection E as <- <-. fold (join_path src f) in *.
    exists (dk_next d1). rewrite E4. split; [done|]. split; [split; cbn; rewrite ?E1; try done|].
    + rewrite E4, E1 in He. apply He.
    + intros q h' Hh'. rewrite lookup_insert_ne; [done|congruence].
    + intros q Hne. rewrite lookup_insert_ne by done. split; [done|]. intros h' Hh'.
      rewrite E3, lookup_insert_ne; [done|]. intros <-. pose proof (ok_next _ Hd _ (ok_open _ Hd _ _ Hh')). lia.
    + cbn. split; [by simplify_map_eq|]. unfold file_at, file_bytes. cbn. rewrite Hn. by simplify_map_eq.
Qed.

Section Quiet.
Context `{FL : FrameLaws}.

(** The dump directory, and the disk before the dumper was made, with what its
    files said. *)
Context (dir : Path) (c : PcapCompression) (d0 : Disk) (old : Path → list byte).

(** What a minute's file starts with. *)
Definition dump_start (path : Path) (lt : Z) : list byte :=
  match file_at path d0 with
  | Some (_ :: _) => old path
  | _ => header_bytes lt
  end.

Context (Hold : ∀ q content, file_at q d0 = Some content → reads_as c content (old q)).

Lemma sink_new_kind h : sink_kind (sink_new c h) = c.
Proof. by destruct c. Qed.

Lemma sink_new_holds h d x : reads_as c (file_bytes h d) x → sink_holds (sink_new c h) d x.
Proof.
  unfold sink_holds. rewrite sink_file_new. destruct c; cbn; rewrite app_nil_r; [done|].
  intros Hx. exists x. by rewrite pending_new, app_nil_r.
Qed.

Lemma open_minute_file_quiet src k lt d r d' : quiet d → disk_ok d → src ∈ dk_dirs d →
  let path := join_path src (dump_filename k c) in
  open_minute_file src k lt c d = (r, d') →
  ∃ s, r = inl (mkMinuteFile k s) ∧ local_step (eq path) d d' ∧ sink_kind s = c ∧ dk_names d' !! path = Some (sink_file s) ∧
       (file_at path d = file_at path d0 → sink_holds s d' (dump_start path lt)).
Proof.
  intros Hq Hd Hsrc path. unfold open_minute_file, open_retry, io_bind. fold path.
  destruct (open_append path d) as [r1 d1] eqn:E1.
  apply open_append_quiet in E1 as (h & -> & L1 & Hn & Hb); [|done..]. fold path in L1, Hn, Hb.
  destruct (file_len h d1) as [r2 d2] eqn:E2. apply (file_len_quiet (eq path)) in E2 as (-> & L2 & Ed2); [|apply L1..].
  assert (local_step (eq path) d d2) as L12 by by eapply local_trans.
  assert (dk_names d2 !! path = Some h) as Hn2 by by apply L2.
  assert (file_bytes h d2 = default [] (file_at path d)) as Hb2 by (unfold file_bytes in *; by rewrite Ed2).
  assert (is_open (sink_new c h) d2) as Ho by (unfold is_open; rewrite sink_file_new; by eapply ok_open; [apply L12|]).
  rewrite Hb. destruct (Z.eqb_spec (zlen (default [] (file_at path d))) 0) as [Hz|Hz].
  - unfold write_pcap_global_header. destruct (write_fields (sink_new c h) (global_header_fields lt) d2) as [[r3 s] d3] eqn:E3.
    apply write_fields_spec in E3 as (m & Ha & Hs & Hk & Hx); [|done]. rewrite sink_file_new in *. rewrite sink_new_kind in Hk.
    destruct Hx as [-> Hx]; [apply L12|]. intros [= <- <-]. exists s. split; [done|].
    assert (local_step (eq path) d2 d3) as L3 by by eapply local_appended; [apply L12..| |].
    split; [by eapply local_trans|]. split; [done|]. split; [rewrite Hs; by apply L3|]. intros Hat.
    assert (dump_start path lt = header_bytes lt) as ->.
    { unfold dump_start. rewrite <-Hat. destruct (file_at path d) as [[|b l]|]; [done| |done]. unfold zlen in Hz. cbn in Hz. lia. }
    apply (Hx []), sink_new_holds. rewrite Hb2. destruct (default [] (file_at path d)); [|by unfold zlen in Hz; cbn in Hz; lia].
    destruct c; [done|apply frames_nil].
  - intros [= <- <-]. exists (sink_new c h). rewrite sink_file_new. split_and!; [done..|by apply sink_new_kind|done|].
    intros Hat. apply sink_new_holds. rewrite Hb2, Hat. unfold dump_start. rewrite Hat in Hz.
    destruct (file_at path d0) as [[|b l]|] eqn:E; [done| |done]. cbn. by apply Hold.
Qed.

(** ** One source *)

Context (sid : string) (safe : text).
Definition src_path : Path := join_path dir safe.
Definition dump_path (k : Z) : Path := join_path src_path (dump_filename k c).

Lemma dump_path_inj k k' : near k → near k' → dump_path k = dump_path k' → k = k'.
Proof.
  intros Hk Hk' E. unfold dump_path, join_path in E. apply app_inj_tail in E as [_ E].
  unfold dump_filename in E. apply app_inv_tail in E. by apply near_label_inj.
Qed.

Definition payload (k : Z) (hist : list RawPacket) : list byte := concat (map record_bytes (file_packets sid k hist)).

(** The file of a minute that is not being written. *)
Definition closed_file (lt k : Z) (hist : list RawPacket) (d : Disk) : Prop :=
  match file_packets sid k hist with
  | [] => file_at (dump_path k) d = file_at (dump_path k) d0
  | _ => ∃ content, file_at (dump_path k) d = Some content ∧
           reads_as c content (dump_start (dump_path k) lt ++ payload k hist)
  end.

(** The file that is being written, and the others. *)
Record current_ok (lt : Z) (hist : list RawPacket) (mf : MinuteFile) (d : Disk) : Prop := {
  co_near : near (mf_minute_key mf);
  co_kind : sink_kind (mf_sink mf) = c;
  co_name : dk_names d !! dump_path (mf_minute_key mf) = Some (sink_file (mf_sink mf));
  co_holds : sink_holds (mf_sink mf) d (dump_start (dump_path (mf_minute_key mf)) lt ++ payload (mf_minute_key mf) hist);
  co_others k : near k → k ≠ mf_minute_key mf → closed_file lt k hist d;
}.

Lemma closed_frame P lt k hist d d' : local_step P d d' → ¬ P (dump_path k) → closed_file lt k hist d → closed_file lt k hist d'.
Proof. intros L Hp. unfold closed_file. by rewrite (local_file_at _ _ _ _ L Hp). Qed.

Lemma closed_same_packets lt k hist hist' d : file_packets sid k hist' = file_packets sid k hist →
  closed_file lt k hist d → closed_file lt k hist' d.
Proof. intros E. unfold closed_file, payload. by rewrite E. Qed.

Lemma current_frame P lt hist mf d d' : disk_ok d → local_step P d d' → (∀ k, ¬ P (dump_path k)) → current_ok lt hist mf d → current_ok lt hist mf d'.
Proof.
  intros Hd L Hp []. destruct (ls_other _ _ _ L _ (Hp (mf_minute_key mf))) as [En Ed].
  split; [done|done|by rewrite En| |].
  - unfold sink_holds in *. unfold file_bytes in *. by rewrite (Ed _ co_name0).
  - intros k Hk Hne. eapply closed_frame; eauto.
Qed.

Lemma current_open lt hist mf d : disk_ok d → current_ok lt hist mf d → is_open (mf_sink mf) d.
Proof. intros Hd []. by eapply ok_open. Qed.

(** A packet of the current minute is written. *)
Lemma write_record_quiet lt hist mf pkt d r s d' : quiet d → disk_ok d → current_ok lt hist mf d →
  (∀ k, file_packets sid k (hist ++ [pkt]) = file_packets sid k hist ++ if mf_minute_key mf =? k then [pkt] else []) →
  write_pcap_record (mf_sink mf) pkt d = (r, s, d') →
  r = inl tt ∧ local_step (eq (dump_path (mf_minute_key mf))) d d' ∧
  current_ok lt (hist ++ [pkt]) (mkMinuteFile (mf_minute_key mf) s) d'.
Proof.
  intros Hq Hd Hc Hk Hw. pose proof (current_open _ _ _ _ Hd Hc) as Ho. destruct Hc.
  apply write_fields_spec in Hw as (m & Ha & Hf & Hkind & Hx); [|done]. destruct (Hx Hq) as [-> Hx']. split; [done|].
  assert (local_step (eq (dump_path (mf_minute_key mf))) d d') as L by by eapply local_appended.
  split; [done|]. split; cbn; [done|congruence|rewrite Hf; by apply L| |].
  - unfold payload. rewrite Hk, Z.eqb_refl, map_app, concat_app, app_assoc. cbn. rewrite app_nil_r. by apply Hx'.
  - intros k Hnear Hne. eapply closed_same_packets; [|eapply closed_frame; [done| |eauto]].
    + rewrite Hk, (proj2 (Z.eqb_neq _ _)) by done. by rewrite app_nil_r.
    + intros E. apply Hne. symmetry. by apply dump_path_inj.
Qed.

Lemma stored_closed lt hist mf d d' : disk_ok d → current_ok lt hist mf d →
  local_step (eq (dump_path (mf_minute_key mf))) d d' → file_packets sid (mf_minute_key mf) hist ≠ [] →
  reads_as c (file_bytes (sink_file (mf_sink mf)) d') (dump_start (dump_path (mf_minute_key mf)) lt ++ payload (mf_minute_key mf) hist) →
  ∀ k, near k → closed_file lt k hist d'.
Proof.
  intros Hd [] L Hne Hr k Hk. destruct (decide (k = mf_minute_key mf)) as [->|Hne'].
  - unfold closed_file. destruct (file_packets _ _ _); [done|]. unfold file_at. rewrite (ls_names _ _ _ L _ _ co_name0). cbn. eauto.
  - eapply closed_frame; [done| |by eauto]. intros E. apply Hne'. symmetry. by apply dump_path_inj.
Qed.

(** A sink that is dropped, or flushed, leaves its file as it should be. *)
Lemma drop_quiet lt hist mf d : quiet d → disk_ok d → current_ok lt hist mf d → file_packets sid (mf_minute_key mf) hist ≠ [] →
  local_step (eq (dump_path (mf_minute_key mf))) d (drop_sink (mf_sink mf) d) ∧
  ∀ k, near k → closed_file lt k hist (drop_sink (mf_sink mf) d).
Proof.
  intros Hq Hd Hc Hne. pose proof (current_open _ _ _ _ Hd Hc) as Ho. destruct (drop_sink_spec (mf_sink mf) d Ho) as (m & Ha & Hx).
  assert (local_step (eq (dump_path (mf_minute_key mf))) d (drop_sink (mf_sink mf) d)) as L by (eapply local_appended; [done|done|apply Hc|done]).
  split; [done|]. eapply stored_closed; [done|done|done|done|]. destruct Hc. rewrite co_kind0 in Hx. by apply Hx.
Qed.

Lemma flush_quiet lt hist mf d r s d' : quiet d → disk_ok d → current_ok lt hist mf d → file_packets sid (mf_minute_key mf) hist ≠ [] →
  flush_all_layers (mf_sink mf) d = (r, s, d') →
  r = inl tt ∧ local_step (eq (dump_path (mf_minute_key mf))) d d' ∧
  current_ok lt hist (mkMinuteFile (mf_minute_key mf) s) d' ∧ ∀ k, near k → closed_file lt k hist d'.
Proof.
  intros Hq Hd Hc Hne E. pose proof (current_open _ _ _ _ Hd Hc) as Ho.
  apply flush_all_layers_spec in E as (m & Ha & Hf & Hk & Hx); [|done]. destruct (Hx Hq) as [-> Hx']. split; [done|].
  assert (local_step (eq (dump_path (mf_minute_key mf))) d d') as L by (eapply local_appended; [done|done|apply Hc|done]).
  split; [done|]. pose proof Hc as []. destruct (Hx' _ co_holds0) as [Hh Hr]. rewrite co_kind0 in Hr, Hk.
  assert (∀ k, near k → closed_file lt k hist d') as Hcl by by eapply stored_closed.
  split; [|done]. split; cbn; [done|done|rewrite Hf; by apply L|done|auto].
Qed.

Lemma open_quiet lt hist k d r d' : quiet d → disk_ok d → src_path ∈ dk_dirs d → near k →
  (∀ k, near k → closed_file lt k hist d) → file_packets sid k hist = [] →
  open_minute_file src_path k lt c d = (r, d') →
  ∃ mf, r = inl mf ∧ mf_minute_key mf = k ∧ local_step (eq (dump_path k)) d d' ∧ current_ok lt hist mf d'.
Proof.
  intros Hq Hd Hsrc Hk Hcl Hempty E. apply open_minute_file_quiet in E as (s & -> & L & Hkind & Hn & Hh); [|done..].
  assert (file_at (dump_path k) d = file_at (dump_path k) d0) as Hat.
  { specialize (Hcl k Hk). unfold closed_file in Hcl. by rewrite Hempty in Hcl. }
  eexists. split; [done|]. split; [done|]. split; [done|]. split; cbn; [done|done|done| |].
  - unfold payload. rewrite Hempty. cbn. rewrite app_nil_r. by apply Hh.
  - intros k' Hk' Hne. eapply closed_frame; [done| |by apply Hcl]. intros E. apply Hne. symmetry. by apply dump_path_inj.
Qed.

(** ** Every source's writer *)

(** A writer's directory, and the name of the file it has open. *)
Definition placed (d : Disk) (s : string) (sw : SourceWriter) : Prop :=
  ∃ safe', sanitize_path_component (B s) = Some safe' ∧ sw_src_dir sw = join_path dir safe' ∧ sw_src_dir sw ∈ dk_dirs d ∧
  ∀ mf, sw_current sw = Some mf → dk_names d !! join_path (sw_src_dir sw) (dump_filename (mf_minute_key mf) c) = Some (sink_file (mf_sink mf)).

Record dumper_ok (p : PacketDumper) (d : Disk) : Prop := {
  do_dir : pd_dir p = dir;
  do_comp : pd_compression p = c;
  do_quiet : quiet d;
  do_disk : disk_ok d;
  do_placed s sw : pd_writers p !! s = Some sw → placed d s sw;
}.

Definition same_frame (p p1 : PacketDumper) : Prop :=
  pd_dir p1 = pd_dir p ∧ pd_compression p1 = pd_compression p ∧ pd_disabled p1 = pd_disabled p.

Lemma placed_local P d d' s sw : local_step P d d' → placed d s sw → placed d' s sw.
Proof.
  intros L (safe' & H1 & H2 & H3 & H4). exists safe'. split_and!; [done|done|by apply L|]. intros mf Hm. apply L. by apply H4.
Qed.

Lemma dumper_ok_step P p p1 d d' s sw : dumper_ok p d → same_frame p p1 → pd_writers p1 = <[s := sw]> (pd_writers p) →
  local_step P d d' → placed d' s sw → dumper_ok p1 d'.
Proof.
  intros [] (E1 & E2 & _) Ew L Hs. split; [congruence|congruence|apply L|apply L|]. rewrite Ew.
  intros s' sw' [[<- <-]|[_ H]]%lookup_insert_Some; [done|]. eapply placed_local; eauto.
Qed.

Lemma ensure_new_quiet now pkt p d safe' : dumper_ok p d → pd_writers p !! raw_source pkt = None →
  sanitize_path_component (B (raw_source pkt)) = Some safe' →
  ∃ d1, ensure_writer now pkt p d = (true, set_writer (raw_source pkt) (mkSourceWriter (join_path dir safe') (raw_link_type pkt) None) p, d1) ∧
    local_step (λ _, False) d d1 ∧ join_path dir safe' ∈ dk_dirs d1.
Proof.
  intros [] Hw Hs. unfold ensure_writer, open_source_dir. rewrite Hw, Hs, do_dir0.
  assert (starts_with (join_path dir safe') dir = true) as ->.
  { unfold starts_with, join_path. apply bool_decide_eq_true. by rewrite take_app_length. }
  cbn [negb]. destruct (create_dir_all (join_path dir safe') d) as [r d1] eqn:E.
  apply (create_dir_all_quiet (λ _, False)) in E as (-> & L & Hin); [|done..]. exists d1. done.
Qed.

Lemma drop_current_quiet d s sw : quiet d → disk_ok d → placed d s sw →
  let d' := match sw_current sw with Some cur => drop_sink (mf_sink cur) d | None => d end in
  local_step (λ q, ∃ k, q = join_path (sw_src_dir sw) (dump_filename k c)) d d'.
Proof.
  intros Hq Hd (safe' & _ & _ & _ & Hm). destruct (sw_current sw) as [cur|]; [|by apply local_refl].
  pose proof (Hm _ eq_refl) as Hn. destruct (drop_sink_spec (mf_sink cur) d) as (m & Ha & _); [by eapply ok_open|].
  eapply local_weaken; [|by eapply local_appended]. intros q <-. eauto.
Qed.

Lemma rotate_quiet now k s p d sw : dumper_ok p d → pd_writers p !! s = Some sw →
  let d1 := match sw_current sw with Some cur => drop_sink (mf_sink cur) d | None => d end in
  ∃ mf p2 d2, rotate now k s p d = Ret (true, p2, d2) ∧ same_frame p p2 ∧
    pd_writers p2 = <[s := set_current (Some mf) sw]> (pd_writers p) ∧ mf_minute_key mf = k ∧
    open_minute_file (sw_src_dir sw) k (sw_link_type sw) c d1 = (inl mf, d2) ∧
    local_step (λ q, ∃ k, q = join_path (sw_src_dir sw) (dump_filename k c)) d d2 ∧ dumper_ok p2 d2.
Proof.
  intros Hp Hs d1. pose proof Hp as []. pose proof (do_placed0 _ _ Hs) as Hpl.
  pose proof (drop_current_quiet d s sw do_quiet0 do_disk0 Hpl) as L1. fold d1 in L1.
  unfold rotate. rewrite Hs. cbn [expect res_bind]. fold d1. rewrite do_comp0.
  destruct (open_minute_file _ _ _ _ d1) as [r d2] eqn:E. pose proof E as E'.
  destruct Hpl as (safe' & Hsafe & Hsrc & Hin & Hm).
  apply open_minute_file_quiet in E' as (snk & -> & L2 & Hk & Hn & _); [|apply L1..|by apply L1].
  cbn [pd_writers set_writer set_writers]. rewrite lookup_insert_eq. cbn [expect res_bind].
  assert (local_step (λ q, ∃ k, q = join_path (sw_src_dir sw) (dump_filename k c)) d d2) as L.
  { eapply local_trans; [done|]. eapply local_weaken; [|done]. intros q <-. eauto. }
  eexists _, _, _. split; [done|]. split; [done|]. cbn. rewrite insert_insert_eq. split; [done|]. split; [done|]. split; [done|]. split; [done|].
  eapply dumper_ok_step; [done|done|by cbn; rewrite insert_insert_eq|done|].
  exists safe'. cbn. split_and!; [done|done|by apply L|]. intros mf [= <-]. done.
Qed.

Lemma write_record_eq now k pkt p d sw cur snk d1 : pd_writers p !! raw_source pkt = Some sw → sw_current sw = Some cur →
  write_pcap_record (mf_sink cur) pkt d = (inl tt, snk, d1) →
  ∃ p1, write_record now k pkt p d = Ret (p1, d1) ∧ same_frame p p1 ∧
    pd_writers p1 = <[raw_source pkt := set_current (Some (mkMinuteFile (mf_minute_key cur) snk)) sw]> (pd_writers p).
Proof.
  intros Hs Hc E. unfold write_record. rewrite Hs. cbn [expect res_bind]. rewrite Hc. cbn [expect res_bind]. rewrite E.
  eexists. split; [done|]. by destruct (k <? mf_minute_key cur).
Qed.

(** Any record: where it goes. *)
Lemma write_record_local now k pkt p d sw cur : dumper_ok p d → pd_writers p !! raw_source pkt = Some sw → sw_current sw = Some cur →
  ∃ p1 d1, write_record now k pkt p d = Ret (p1, d1) ∧ same_frame p p1 ∧ (∃ sw1, pd_writers p1 = <[raw_source pkt := sw1]> (pd_writers p)) ∧
    local_step (λ q, ∃ k, q = join_path (sw_src_dir sw) (dump_filename k c)) d d1 ∧ dumper_ok p1 d1.
Proof.
  intros Hp Hs Hc. pose proof Hp as []. destruct (do_placed0 _ _ Hs) as (safe' & H1 & H2 & H3 & Hm). pose proof (Hm _ Hc) as Hn.
  destruct (write_pcap_record (mf_sink cur) pkt d) as [[r snk] d1] eqn:E. pose proof E as E'.
  apply write_fields_spec in E' as (m & Ha & Hf & _ & Hx); [|by eapply ok_open]. destruct (Hx do_quiet0) as [-> _].
  destruct (write_record_eq now k pkt p d sw cur snk d1 Hs Hc E) as (p1 & Hr & Hfr & Hw).
  assert (local_step (λ q, ∃ k, q = join_path (sw_src_dir sw) (dump_filename k c)) d d1) as L.
  { eapply local_weaken; [|by eapply local_appended]. intros q <-. eauto. }
  exists p1, d1. split; [done|]. split; [done|]. split; [eauto|]. split; [done|].
  eapply dumper_ok_step; [done..|]. exists safe'. cbn. split_and!; [done|done|by apply L|].
  intros mf [= <-]. cbn. rewrite Hf. by apply L.
Qed.

(** A packet of a source that has its writer touches that source's directory only. *)
Lemma write_ready_local now pkt p d sw p1 d1 : dumper_ok p d → pd_writers p !! raw_source pkt = Some sw →
  write_ready now pkt p d = Ret (p1, d1) →
  dumper_ok p1 d1 ∧ local_step (λ q, ∃ k, q = join_path (sw_src_dir sw) (dump_filename k c)) d d1 ∧ pd_disabled p1 = pd_disabled p ∧
  ∃ sw1, pd_writers p1 = <[raw_source pkt := sw1]> (pd_writers p).
Proof.
  intros Hp Hs. unfold write_ready. rewrite Hs. cbn [expect res_bind]. set (k := raw_ts pkt / MICROS_PER_MINUTE).
  destruct (negb _).
  { intros [= <- <-]. pose proof Hp as []. split; [by split|]. split; [by apply local_refl|]. split; [done|].
    exists sw. cbn. by rewrite insert_id. }
  assert ((let* (ok, p2, d2) := rotate now k (raw_source pkt) p d in
      if ok : bool then write_record now k pkt p2 d2 else Ret (p2, d2)) = Ret (p1, d1) →
    dumper_ok p1 d1 ∧ local_step (λ q, ∃ k, q = join_path (sw_src_dir sw) (dump_filename k c)) d d1 ∧ pd_disabled p1 = pd_disabled p ∧
    ∃ sw1, pd_writers p1 = <[raw_source pkt := sw1]> (pd_writers p)) as Hrot.
  { destruct (rotate_quiet now k (raw_source pkt) p d sw) as (mf & p2 & d2 & -> & Hf & Hw & Hk & _ & L & Hp2); [done..|]. cbn [res_bind].
    destruct (write_record_local now k pkt p2 d2 (set_current (Some mf) sw) mf) as (p3 & d3 & -> & Hf3 & (sw3 & Hw3) & L3 & Hp3); [done|by rewrite Hw, lookup_insert_eq|done|].
    intros [= <- <-]. split; [done|]. split; [by eapply local_trans|].
    split; [destruct Hf as (_ & _ & E), Hf3 as (_ & _ & E3); congruence|]. exists sw3. by rewrite Hw3, Hw, insert_insert_eq. }
  destruct (sw_current sw) as [cur|] eqn:Ec; [|exact Hrot]. destruct (mf_minute_key cur <? k); [exact Hrot|].
  destruct (write_record_local now k pkt p d sw cur) as (p3 & d3 & -> & Hf3 & (sw3 & Hw3) & L3 & Hp3); [done..|].
  intros [= <- <-]. split; [done|]. split; [done|]. split; [apply Hf3|eauto].
Qed.

(** Directories of other sources. *)
Definition elsewhere (q : Path) : Prop := ∃ safe' f, safe' ≠ safe ∧ q = join_path (join_path dir safe') f.

Lemma elsewhere_not k : ¬ elsewhere (dump_path k).
Proof.
  intros (safe' & f & Hne & E). unfold dump_path, src_path, join_path in E.
  apply app_inj_tail in E as [E _]. apply app_inj_tail in E as [_ E]. by apply Hne.
Qed.

Lemma other_write now pkt p d p1 d1 : dumper_ok p d → is_heartbeat pkt = true ∨ raw_source pkt ≠ sid ∧ sanitize_path_component (B (raw_source pkt)) ≠ Some safe →
  write now pkt p d = Ret (p1, d1) →
  dumper_ok p1 d1 ∧ local_step elsewhere d d1 ∧ pd_writers p1 !! sid = pd_writers p !! sid ∧ (sid ∈ pd_disabled p1 ↔ sid ∈ pd_disabled p).
Proof.
  intros Hp Hcase. pose proof Hp as []. unfold write.
  assert (local_step elsewhere d d) as L0 by by apply local_refl.
  destruct (is_heartbeat pkt); [by intros [= <- <-]|]. destruct Hcase as [|[Hne Hsan]]; [done|]. case_decide; [by intros [= <- <-]|].
  destruct (pd_writers p !! raw_source pkt) as [sw|] eqn:Ew.
  - unfold ensure_writer. rewrite Ew. intros Hr. apply (write_ready_local _ _ _ _ sw) in Hr as (? & L & -> & sw1 & ->); [|done..].
    split; [done|]. rewrite lookup_insert_ne by done. split; [|done].
    destruct (do_placed0 _ _ Ew) as (safe' & H1 & H2 & _). eapply local_weaken; [|done]. intros q (k & ->). exists safe', (dump_filename k c). rewrite H2. split; [|done]. congruence.
  - destruct (sanitize_path_component (B (raw_source pkt))) as [safe'|] eqn:Es.
    + destruct (ensure_new_quiet now pkt p d safe' Hp Ew Es) as (d2 & -> & L & Hin).
      set (sw := mkSourceWriter (join_path dir safe') (raw_link_type pkt) None).
      assert (dumper_ok (set_writer (raw_source pkt) sw p) d2) as Hp2.
      { eapply (dumper_ok_step (λ _, False) p); [done|done|done|done|]. exists safe'. done. }
      intros Hr. apply (write_ready_local _ _ _ _ sw) in Hr as (? & L' & Hdis & sw1 & Ew1); [|done|by cbn; rewrite lookup_insert_eq].
      split; [done|]. rewrite Hdis, Ew1. cbn. rewrite !lookup_insert_ne by done. split; [|done].
      eapply local_trans; [by eapply (local_weaken _ elsewhere); [|exact L]|]. eapply local_weaken; [|done].
      intros q (k & ->). exists safe', (dump_filename k c). split; [congruence|done].
    + unfold ensure_writer, open_source_dir. rewrite Ew, Es. intros [= <- <-]. split; [by split|]. split; [done|]. split; [done|].
      cbn. rewrite elem_of_union, elem_of_singleton. split; [by intros [->|]|by right].
Qed.

(** ** The source's own packets *)

Context (Hsafe : sanitize_path_component (B sid) = Some safe).

Definition source_state (hist : list RawPacket) (p : PacketDumper) (d : Disk) : Prop :=
  sid ∉ pd_disabled p ∧
  match seen sid hist with
  | [] => pd_writers p !! sid = None ∧ ∀ k, near k → file_at (dump_path k) d = file_at (dump_path k) d0
  | p0 :: _ => ∃ mf, pd_writers p !! sid = Some (mkSourceWriter src_path (raw_link_type p0) (Some mf)) ∧ src_path ∈ dk_dirs d ∧
      last_minute (accepted sid hist) = Some (mf_minute_key mf) ∧ current_ok (raw_link_type p0) hist mf d
  end.

Lemma file_packets_snoc hist pkt p0 k : raw_source pkt = sid → is_heartbeat pkt = false → head (seen sid (hist ++ [pkt])) = Some p0 → same_link p0 pkt = true →
  accepted sid (hist ++ [pkt]) = accepted sid hist ++ [pkt] ∧
  file_packets sid k (hist ++ [pkt]) = file_packets sid k hist ++ if next_minute (accepted sid hist) pkt =? k then [pkt] else [].
Proof.
  intros Hs Hh H0 Hl. assert (accepted sid (hist ++ [pkt]) = accepted sid hist ++ [pkt]) as E by (by erewrite accepted_own, Hl).
  split; [done|]. unfold file_packets. by rewrite E, in_file_snoc.
Qed.

Lemma rotate_write_quiet now hist pkt p d sw p1 d1 : dumper_ok p d → raw_source pkt = sid → pd_writers p !! sid = Some sw →
  sw_src_dir sw = src_path → src_path ∈ dk_dirs d → near (minute_of pkt) →
  let d' := match sw_current sw with Some cur => drop_sink (mf_sink cur) d | None => d end in
  (∀ k, near k → closed_file (sw_link_type sw) k hist d') → file_packets sid (minute_of pkt) hist = [] →
  (∀ k, file_packets sid k (hist ++ [pkt]) = file_packets sid k hist ++ if minute_of pkt =? k then [pkt] else []) →
  (let* (ok, p2, d2) := rotate now (minute_of pkt) (raw_source pkt) p d in
    if ok : bool then write_record now (minute_of pkt) pkt p2 d2 else Ret (p2, d2)) = Ret (p1, d1) →
  ∃ mf, pd_writers p1 !! sid = Some (mkSourceWriter src_path (sw_link_type sw) (Some mf)) ∧ pd_disabled p1 = pd_disabled p ∧
    mf_minute_key mf = minute_of pkt ∧ src_path ∈ dk_dirs d1 ∧ current_ok (sw_link_type sw) (hist ++ [pkt]) mf d1.
Proof.
  intros Hp Hs Hw Hsrc Hin Hnear d' Hcl Hempty Hpk. pose proof Hp as [].
  rewrite <-Hs in Hw. destruct (rotate_quiet now (minute_of pkt) (raw_source pkt) p d sw Hp Hw) as (mf & p2 & d2 & -> & Hf & Hw2 & Hk & Hopen & L & Hp2).
  cbn [res_bind]. fold d' in Hopen. rewrite Hsrc in Hopen.
  pose proof (drop_current_quiet d _ sw do_quiet0 do_disk0 (do_placed0 _ _ Hw)) as Ld. fold d' in Ld.
  apply (open_quiet (sw_link_type sw) hist) in Hopen as (mf' & [= <-] & _ & L2 & Hc); [|apply Ld|apply Ld|by apply Ld|done..].
  destruct (write_pcap_record (mf_sink mf) pkt d2) as [[r snk] d3] eqn:E.
  pose proof E as E'. apply (write_record_quiet (sw_link_type sw) hist) in E' as (-> & L3 & Hc3); [|apply Hp2|apply Hp2|done|by rewrite Hk].
  destruct (write_record_eq now (minute_of pkt) pkt p2 d2 (set_current (Some mf) sw) mf snk d3) as (p3 & -> & Hf3 & Hw3); [by rewrite Hw2, lookup_insert_eq|done..|].
  intros [= <- <-]. exists (mkMinuteFile (mf_minute_key mf) snk). rewrite Hw3, <-Hs, lookup_insert_eq. unfold set_current. cbn. rewrite Hsrc.
  split; [done|]. split; [destruct Hf as (_ & _ & E1), Hf3 as (_ & _ & E3); congruence|]. split; [done|]. split; [|done].
  apply L3. by apply L.
Qed.

Lemma next_minute_first pkt : next_minute [] pkt = minute_of pkt.
Proof. done. Qed.

Lemma own_write now hist pkt p d p1 d1 : dumper_ok p d → source_state hist p d → raw_source pkt = sid → is_heartbeat pkt = false →
  near (minute_of pkt) → write now pkt p d = Ret (p1, d1) → dumper_ok p1 d1 ∧ source_state (hist ++ [pkt]) p1 d1.
Proof.
  intros Hp [Hdis Hst] Hs Hh Hnear. unfold write. rewrite Hh, Hs, decide_False by done. pose proof Hp as [].
  unfold source_state. rewrite seen_snoc, bool_decide_true, Hh by done. cbn [andb negb].
  destruct (seen sid hist) as [|p0 l] eqn:Eseen; cbn [app].
  - destruct Hst as [Hnone Hat]. rewrite <-Hs in Hnone. pose proof Hsafe as Hsan. rewrite <-Hs in Hsan.
    destruct (ensure_new_quiet now pkt p d safe Hp Hnone Hsan) as (d2 & -> & L & Hin).
    set (sw := mkSourceWriter (join_path dir safe) (raw_link_type pkt) None).
    assert (dumper_ok (set_writer (raw_source pkt) sw p) d2) as Hp2.
    { eapply (dumper_ok_step (λ _, False) p); [done|done|done|done|]. exists safe. done. }
    assert (pd_writers (set_writer (raw_source pkt) sw p) !! raw_source pkt = Some sw) as Hw2 by (cbn; by rewrite lookup_insert_eq).
    intros Hr. split; [exact (proj1 (write_ready_local _ _ _ _ sw _ _ Hp2 Hw2 Hr))|].
    unfold write_ready in Hr. rewrite Hw2 in Hr. cbn [expect res_bind sw_link_type sw sw_current] in Hr. rewrite Z.eqb_refl in Hr. cbn [negb] in Hr.
    assert (accepted sid hist = []) as Eacc by (unfold accepted; by rewrite Eseen).
    assert (∀ k, file_packets sid k (hist ++ [pkt]) = file_packets sid k hist ++ if minute_of pkt =? k then [pkt] else []) as Hpk.
    { intros k. destruct (file_packets_snoc hist pkt pkt k) as [_ E]; [done|done| |apply Z.eqb_refl|].
      - rewrite seen_snoc, Eseen, bool_decide_true, Hh by done. done.
      - rewrite E. unfold file_packets. by rewrite Eacc. }
    assert (∀ k, file_packets sid k hist = []) as Hnil by (intros k; unfold file_packets; by rewrite Eacc).
    assert (pd_writers (set_writer (raw_source pkt) sw p) !! sid = Some sw) as Hw3 by (rewrite <-Hs; exact Hw2).
    eapply (rotate_write_quiet now hist pkt) in Hr as (mf & Hw & Hd1 & Hk & Hsrc & Hc); [|done|done|exact Hw3|done|done|done| |done|done].
    + cbn in Hc, Hw, Hd1. split; [by rewrite Hd1|]. exists mf. split; [done|]. split; [done|]. split; [|done].
      destruct (file_packets_snoc hist pkt pkt 0) as [E _]; [done|done| |apply Z.eqb_refl|].
      { rewrite seen_snoc, Eseen, bool_decide_true, Hh by done. done. }
      rewrite E, Eacc. cbn. by rewrite Hk.
    + intros k Hk. cbn. unfold closed_file. rewrite Hnil. rewrite (local_file_at _ _ _ _ L) by by intros []. by apply Hat.
  - destruct Hst as (mf & Hw & Hin & Hlast & Hc). unfold ensure_writer. rewrite Hs, Hw.
    intros Hr. split; [rewrite <-Hs in Hw; exact (proj1 (write_ready_local _ _ _ _ _ _ _ Hp Hw Hr))|].
    assert (head (seen sid (hist ++ [pkt])) = Some p0) as Hhead by (rewrite seen_snoc, Eseen; done).
    unfold write_ready in Hr. rewrite Hs, Hw in Hr. cbn [expect res_bind sw_link_type sw_current] in Hr.
    fold (same_link p0 pkt) in Hr. destruct (same_link p0 pkt) eqn:El; cbn [negb] in Hr; cycle 1.
    { injection Hr as <- <-. split; [done|]. exists mf.
      assert (accepted sid (hist ++ [pkt]) = accepted sid hist) as Ea by (erewrite accepted_own by done; by rewrite El, app_nil_r).
      rewrite Ea. split; [done|]. split; [done|]. split; [done|].
      destruct Hc. unfold payload, file_packets in *. split; [done|done|done|by unfold payload, file_packets; rewrite Ea|].
      intros k Hk Hne. eapply closed_same_packets; [|by eauto]. unfold file_packets. by rewrite Ea. }
    pose proof (λ k, file_packets_snoc hist pkt p0 k Hs Hh Hhead El) as Hpk. destruct (Hpk 0) as [Ea _].
    assert (∀ k, file_packets sid k (hist ++ [pkt]) = file_packets sid k hist ++ if next_minute (accepted sid hist) pkt =? k then [pkt] else []) as Hpk' by (intros k; apply Hpk).
    clear Hpk. unfold next_minute in Hpk'. rewrite Hlast in Hpk'. fold (minute_of pkt) in Hr. rewrite Ea, last_minute_snoc. unfold next_minute. rewrite Hlast.
    destruct (Z.ltb_spec (mf_minute_key mf) (minute_of pkt)) as [Hlt|Hle].
    + rewrite Z.max_r in * by lia.
      assert (file_packets sid (mf_minute_key mf) hist ≠ []) as Hne.
      { unfold last_minute in Hlast. destruct (last (in_minutes None (accepted sid hist))) as [[kk q]|] eqn:El2; [|done]. cbn in Hlast.
        apply last_Some_elem_of in El2. injection Hlast as ->. unfold file_packets, in_file. intros E.
        assert (q ∈ map snd (List.filter (λ kp, kp.1 =? mf_minute_key mf) (in_minutes None (accepted sid hist)))) as Hq; [|rewrite E in Hq; by apply not_elem_of_nil in Hq].
        apply list_elem_of_fmap. exists (mf_minute_key mf, q). split; [done|]. apply list_elem_of_In, List.filter_In. split; [by apply list_elem_of_In|apply Z.eqb_refl]. }
      destruct (drop_quiet _ _ _ _ do_quiet0 do_disk0 Hc Hne) as [Ld Hcl].
      rewrite <-Hs in Hr. eapply (rotate_write_quiet now hist pkt) in Hr as (mf' & Hw' & Hd1 & Hk & Hsrc & Hc'); [|done|done|exact Hw|done|done|done|exact Hcl| |done].
      * split; [by rewrite Hd1|]. exists mf'. by rewrite Hk.
      * unfold file_packets. by eapply in_file_future.
    + rewrite Z.max_l in * by lia. destruct (write_pcap_record (mf_sink mf) pkt d) as [[r snk] d3] eqn:E.
      pose proof E as E'. apply (write_record_quiet (raw_link_type p0) hist) in E' as (-> & L3 & Hc3); [|done..].
      rewrite <-Hs in Hw. destruct (write_record_eq now (minute_of pkt) pkt p d _ mf snk d3 Hw) as (p3 & Hr' & Hf3 & Hw3); [done..|].
      unfold minute_of in Hr'. fold (minute_of pkt) in Hr'. rewrite Hr' in Hr. injection Hr as <- <-.
      destruct Hf3 as (_ & _ & ->). split; [done|]. exists (mkMinuteFile (mf_minute_key mf) snk). rewrite Hw3, <-Hs, lookup_insert_eq.
      split; [done|]. split; [by apply L3|]. split; [done|exact Hc3].
Qed.

(** ** Runs *)

Definition unshared (p : PacketDumper) : Prop :=
  ∀ s, is_Some (pd_writers p !! s) → s ≠ sid → sanitize_path_component (B s) ≠ Some safe.

Lemma source_state_frame P hist hist' p p' d d' : disk_ok d → local_step P d d' → (∀ k, ¬ P (dump_path k)) →
  seen sid hist' = seen sid hist → pd_writers p' !! sid = pd_writers p !! sid → (sid ∈ pd_disabled p' ↔ sid ∈ pd_disabled p) →
  source_state hist p d → source_state hist' p' d'.
Proof.
  intros Hd L HP Es Ew Edis [H1 H2]. split; [tauto|]. rewrite Es, Ew.
  assert (accepted sid hist' = accepted sid hist) as Ea by (unfold accepted; by rewrite Es).
  destruct (seen sid hist) as [|p0 l].
  - destruct H2 as [? H2]. split; [done|]. intros k Hk. rewrite (local_file_at _ _ _ _ L) by apply HP. auto.
  - destruct H2 as (mf & H2 & H3 & H4 & H5). exists mf. rewrite Ea. split; [done|]. split; [by apply L|]. split; [done|].
    apply (current_frame P (raw_link_type p0) hist mf d d') in H5; [|done..].
    destruct H5. split; [done|done|done|by unfold payload, file_packets in *; rewrite Ea|].
    intros k Hk Hne. eapply closed_same_packets; [|by eauto]. unfold file_packets. by rewrite Ea.
Qed.

(** The dump's own files, of any source. *)
Definition touched (q : Path) : Prop := ∃ safe' k, q = join_path (join_path dir safe') (dump_filename k c).

Lemma placed_touched d s sw : placed d s sw → ∀ q, (∃ k, q = join_path (sw_src_dir sw) (dump_filename k c)) → touched q.
Proof. intros (safe' & _ & -> & _) q (k & ->). by exists safe', k. Qed.

Lemma write_writers now pkt p d p1 d1 : dumper_ok p d → write now pkt p d = Ret (p1, d1) →
  local_step touched d d1 ∧
  ∀ s, is_Some (pd_writers p1 !! s) → is_Some (pd_writers p !! s) ∨ s = raw_source pkt ∧ is_heartbeat pkt = false.
Proof.
  intros Hp. pose proof Hp as []. pose proof (local_refl touched d do_quiet0 do_disk0) as Lr.
  unfold write. destruct (is_heartbeat pkt); [intros [= <- <-]; split; [done|by left]|]. case_decide; [intros [= <- <-]; split; [done|by left]|].
  assert (∀ p2 d2 sw, dumper_ok p2 d2 → pd_writers p2 !! raw_source pkt = Some sw → write_ready now pkt p2 d2 = Ret (p1, d1) →
    local_step touched d2 d1 ∧
    ∀ s, is_Some (pd_writers p1 !! s) → is_Some (pd_writers p2 !! s) ∨ s = raw_source pkt ∧ false = false) as Hready.
  { intros p2 d2 sw H2 Hs Hr. destruct (write_ready_local _ _ _ _ sw _ _ H2 Hs Hr) as (_ & L & _ & sw1 & ->).
    split; [eapply local_weaken; [|exact L]; eapply placed_touched; by apply (do_placed _ _ H2)|].
    intros s. rewrite lookup_insert_is_Some. intros [<-|[_ Hx]]; [by right|by left]. }
  destruct (pd_writers p !! raw_source pkt) as [sw|] eqn:Ew.
  - unfold ensure_writer. rewrite Ew. intros Hr. by eapply Hready.
  - destruct (sanitize_path_component (B (raw_source pkt))) as [safe'|] eqn:Es.
    + destruct (ensure_new_quiet now pkt p d safe' Hp Ew Es) as (d2 & -> & L & Hin). intros Hr.
      eapply Hready in Hr as [L2 Hr]; [|eapply (dumper_ok_step (λ _, False) p); [done|done|done|done|by exists safe']|by cbn; rewrite lookup_insert_eq].
      split; [eapply local_trans; [by eapply (local_weaken _ touched); [|exact L]|done]|]. intros s Hx. specialize (Hr s Hx).
      cbn in Hr. rewrite lookup_insert_is_Some in Hr. destruct Hr as [[<-|[_ ?]]|?]; [by right|by left|by right].
    + unfold ensure_writer, open_source_dir. rewrite Ew, Es. intros [= <- <-]. split; [done|by left].
Qed.

(** The names of other sources that send packets are other names. *)
Definition own_name (pkt : RawPacket) : Prop :=
  is_heartbeat pkt = true ∨ raw_source pkt = sid ∨ sanitize_path_component (B (raw_source pkt)) ≠ Some safe.

Lemma write_quiet now hist pkt p d p1 d1 : dumper_ok p d → source_state hist p d → unshared p → own_name pkt → near (minute_of pkt) →
  write now pkt p d = Ret (p1, d1) → dumper_ok p1 d1 ∧ source_state (hist ++ [pkt]) p1 d1 ∧ unshared p1 ∧ local_step touched d d1.
Proof.
  intros Hp Hs Hu Hown Hnear Hw. destruct (write_writers _ _ _ _ _ _ Hp Hw) as [L Hww].
  assert (unshared p1) as Hu1.
  { intros s Hx Hne. destruct (Hww s Hx) as [?|[-> Hh]]; [by apply Hu|].
    destruct Hown as [?|[?|?]]; congruence. }
  assert (is_heartbeat pkt = true ∨ raw_source pkt ≠ sid ∧ sanitize_path_component (B (raw_source pkt)) ≠ Some safe →
          dumper_ok p1 d1 ∧ source_state (hist ++ [pkt]) p1 d1) as Hother.
  { intros Hc. destruct (other_write _ _ _ _ _ _ Hp Hc Hw) as (Hp1 & L1 & Ew & Edis). split; [done|].
    eapply source_state_frame; [apply Hp|done|apply elsewhere_not| |done|done|done].
    rewrite seen_snoc. destruct Hc as [->|[Hne _]]; [by rewrite andb_false_r, app_nil_r|by rewrite bool_decide_false, app_nil_r]. }
  destruct (is_heartbeat pkt) eqn:Hh; [by destruct (Hother (or_introl eq_refl))|].
  destruct (decide (raw_source pkt = sid)) as [Hsid|Hne].
  - by destruct (own_write now hist pkt p d p1 d1).
  - destruct Hown as [?|[?|Hn]]; [congruence..|]. by destruct (Hother (or_intror (conj Hne Hn))).
Qed.

(** All the source's files are as they should be. *)
Definition source_link (hist : list RawPacket) : Z := match seen sid hist with p0 :: _ => raw_link_type p0 | [] => 0 end.
Definition all_closed (hist : list RawPacket) (d : Disk) : Prop := ∀ k, near k → closed_file (source_link hist) k hist d.

Lemma unseen_closed hist p d : seen sid hist = [] → source_state hist p d → all_closed hist d.
Proof.
  intros E [_ H] k Hk. rewrite E in H. unfold closed_file.
  replace (file_packets sid k hist) with (@nil RawPacket) by (unfold file_packets, accepted; by rewrite E). by apply (proj2 H).
Qed.

Lemma current_nonempty hist mf : last_minute (accepted sid hist) = Some (mf_minute_key mf) → file_packets sid (mf_minute_key mf) hist ≠ [].
Proof.
  unfold last_minute. destruct (last (in_minutes None (accepted sid hist))) as [[kk q]|] eqn:El; [|done]. intros [= ->].
  apply last_Some_elem_of in El. unfold file_packets, in_file. intros E.
  assert (q ∈ map snd (List.filter (λ kp, kp.1 =? mf_minute_key mf) (in_minutes None (accepted sid hist)))) as Hq;
    [|rewrite E in Hq; by apply not_elem_of_nil in Hq].
  apply list_elem_of_fmap. exists (mf_minute_key mf, q). split; [done|]. apply list_elem_of_In, List.filter_In.
  split; [by apply list_elem_of_In|apply Z.eqb_refl].
Qed.

Lemma all_closed_frame P hist d d' : local_step P d d' → (∀ k, ¬ P (dump_path k)) → all_closed hist d → all_closed hist d'.
Proof. intros L HP Hc k Hk. eapply closed_frame; [done|apply HP|by apply Hc]. Qed.

(** A writer of another source that is flushed or dropped. *)
Lemma elsewhere_placed p d s sw : unshared p → pd_writers p !! s = Some sw → s ≠ sid → placed d s sw →
  ∀ q, (∃ k, q = join_path (sw_src_dir sw) (dump_filename k c)) → elsewhere q.
Proof.
  intros Hu Hs Hne (safe' & H1 & H2 & _) q (k & ->). exists safe', (dump_filename k c). rewrite H2. split; [|done]. intros ->. by apply (Hu s); [eauto| |].
Qed.

Lemma flush_writer_quiet hist p d s sw sw1 ok d1 : dumper_ok p d → source_state hist p d → unshared p → pd_writers p !! s = Some sw →
  flush_writer s sw d = (sw1, ok, d1) →
  dumper_ok (set_writer s sw1 p) d1 ∧ source_state hist (set_writer s sw1 p) d1 ∧ unshared (set_writer s sw1 p) ∧
  (s = sid ∨ all_closed hist d → all_closed hist d1) ∧ local_step touched d d1.
Proof.
  intros Hp Hst Hu Hs Hfl. pose proof Hp as []. pose proof (do_placed0 _ _ Hs) as Hpl.
  assert (unshared (set_writer s sw1 p)) as Hu1.
  { intros s'. cbn. rewrite lookup_insert_is_Some. intros [<-|[_ ?]]; apply Hu; [eauto|done]. }
  unfold flush_writer in Hfl. destruct (sw_current sw) as [cur|] eqn:Ec; cycle 1.
  { injection Hfl as <- <- <-. assert (pd_writers (set_writer s sw p) = pd_writers p) as Ew by by cbn; rewrite insert_id.
    split; [split; cbn; rewrite ?insert_id; done|]. split; [unfold source_state in *; by rewrite Ew|]. split; [done|].
    split; [|by apply local_refl].
    intros [->|?]; [|done]. destruct Hst as [_ Hst]. destruct (seen sid hist) eqn:E; [destruct Hst; congruence|].
    destruct Hst as (mf & Hw & _). rewrite Hs in Hw. injection Hw as ->. done. }
  destruct (flush_all_layers (mf_sink cur) d) as [[r snk] d2] eqn:E. injection Hfl as <- <- <-. pose proof E as E'.
  destruct Hpl as (safe' & H1 & H2 & H3 & Hm). pose proof (Hm _ Ec) as Hn.
  apply flush_all_layers_spec in E' as (m & Ha & Hf & Hk & _); [|by eapply ok_open].
  assert (local_step (λ q, ∃ k, q = join_path (sw_src_dir sw) (dump_filename k c)) d d2) as L.
  { eapply local_weaken; [|by eapply local_appended]. intros q <-. eauto. }
  split.
  { eapply dumper_ok_step; [done..|]. exists safe'. cbn. split_and!; [done|done|by apply L|]. intros mf [= <-]. cbn. rewrite Hf. by apply L. }
  destruct (decide (s = sid)) as [->|Hne].
  - destruct Hst as [Hdis Hst]. destruct (seen sid hist) as [|p0 l] eqn:Es; [destruct Hst; congruence|].
    destruct Hst as (mf & Hw & Hin & Hlast & Hc). rewrite Hs in Hw. injection Hw as ->. cbn in Ec. injection Ec as <-.
    apply (flush_quiet (raw_link_type p0) hist) in E as (-> & _ & Hc1 & Hcl); [|done|done|done|by apply current_nonempty].
    split; [|split; [done|split; [|eapply local_weaken; [by eapply placed_touched; exists safe'|exact L]]]].
    + split; [done|]. rewrite Es. exists (mkMinuteFile (mf_minute_key mf) snk). cbn. rewrite lookup_insert_eq.
      split; [done|]. split; [by apply L|]. done.
    + intros _ k Hk1. unfold source_link. rewrite Es. by apply Hcl.
  - assert (local_step elsewhere d d2) as L'.
    { eapply local_weaken; [|exact L]. apply (elsewhere_placed p d s sw); [done..|]. by exists safe'. }
    split; [|split; [done|split; [|eapply local_weaken; [by eapply placed_touched; exists safe'|exact L]]]].
    + eapply source_state_frame; [done|done|apply elsewhere_not|done|by cbn; rewrite lookup_insert_ne|done|done].
    + intros [?|?]; [done|]. by eapply all_closed_frame; [|apply elsewhere_not|].
Qed.

Context `{HI : !HashIter string SourceWriter} `{HL : !HashIterLaws string SourceWriter HI}.

Lemma flush_writers_quiet hist p l W errs d : dumper_ok (set_writers W p) d → source_state hist (set_writers W p) d → unshared (set_writers W p) →
  (∀ s sw, (s, sw) ∈ l → W !! s = Some sw) → NoDup (map fst l) →
  let '(W', _, d') := flush_writers l W errs d in
  dumper_ok (set_writers W' p) d' ∧ source_state hist (set_writers W' p) d' ∧ unshared (set_writers W' p) ∧
  (sid ∈ map fst l ∨ all_closed hist d → all_closed hist d') ∧ local_step touched d d'.
Proof.
  revert W errs d. induction l as [|[s sw] l IH]; intros W errs d Hp Hst Hu Hl Hnd; cbn [flush_writers].
  { split_and!; [done..|by intros [H%not_elem_of_nil|]|apply local_refl; apply Hp]. }
  destruct (flush_writer s sw d) as [[sw1 ok] d1] eqn:E.
  apply (flush_writer_quiet hist (set_writers W p)) in E as (Hp1 & Hst1 & Hu1 & Hcl & L1); [|done..|by cbn; apply Hl; left].
  cbn [map fst] in Hnd. apply NoDup_cons in Hnd as [Hnin Hnd].
  specialize (IH (<[s := sw1]> W) (if ok then errs else S errs) d1 Hp1 Hst1 Hu1).
  destruct (flush_writers l _ _ d1) as [[W2 e2] d2]. destruct IH as (H1 & H2 & H3 & H4 & L2); [|done|].
  - intros s' sw' Hin. rewrite lookup_insert_ne; [apply Hl; by right|]. intros <-. apply Hnin, list_elem_of_fmap. by exists (s, sw').
  - split_and!; [done..| |by eapply local_trans]. cbn [map fst]. rewrite elem_of_cons. intros [[->|?]|?]; apply H4; auto.
Qed.

Lemma hash_iter_nodup (W : gmap string SourceWriter) : NoDup (map fst (hash_iter W)).
Proof. pose proof (hash_iter_perm W) as E. apply (fmap_Permutation fst) in E. rewrite E. apply NoDup_fst_map_to_list. Qed.

Lemma source_listed hist p d : source_state hist p d →
  sid ∉ map fst (hash_iter (pd_writers p)) ∧ all_closed hist d ∨ sid ∈ map fst (hash_iter (pd_writers p)).
Proof.
  intros Hst. destruct (seen sid hist) eqn:E; [left|right].
  { split; [|by eapply unseen_closed]. destruct Hst as [_ Hst]. rewrite E in Hst. destruct Hst as [Hw _].
    intros ([s sw] & -> & Hin%hash_iter_lookup)%list_elem_of_fmap. cbn in Hw. congruence. }
  destruct Hst as [_ Hst]. rewrite E in Hst. destruct Hst as (mf & Hw & _). apply list_elem_of_fmap. eexists (sid, _). split; [done|].
  by apply hash_iter_lookup.
Qed.

Lemma flush_all_quiet now hist p d : dumper_ok p d → source_state hist p d → unshared p →
  let '(p', d') := flush_all now p d in
  dumper_ok p' d' ∧ source_state hist p' d' ∧ unshared p' ∧ all_closed hist d' ∧ local_step touched d d'.
Proof.
  intros Hp Hst Hu. unfold flush_all. pose proof (source_listed _ _ _ Hst) as Hlist.
  assert (set_writers (pd_writers p) p = p) as Eself by by destruct p.
  pose proof (flush_writers_quiet hist p (hash_iter (pd_writers p)) (pd_writers p) 0 d) as H. rewrite Eself in H.
  destruct (flush_writers _ _ 0 d) as [[W e] d']. destruct H as (H1 & H2 & H3 & H4 & L); [done..| |apply hash_iter_nodup|].
  { intros s sw Hin. by apply hash_iter_lookup. }
  assert (∀ l p1, pd_dir (foldl (λ p i, note_error (now i) p) p1 l) = pd_dir p1 ∧ pd_compression (foldl (λ p i, note_error (now i) p) p1 l) = pd_compression p1 ∧
     pd_disabled (foldl (λ p i, note_error (now i) p) p1 l) = pd_disabled p1) as Hsame.
  { intros l. induction l as [|i l IH]; intros p1; [done|]. cbn. destruct (IH (note_error (now i) p1)) as (-> & -> & ->). done. }
  destruct (Hsame (seq 0 e) (set_writers W p)) as (E1 & E2 & E3).
  split_and!.
  - destruct H1. split; rewrite ?E1, ?E2, ?note_errors_writers; done.
  - unfold source_state in *. rewrite note_errors_writers, E3. done.
  - unfold unshared. rewrite note_errors_writers. done.
  - apply H4. tauto.
  - done.
Qed.

(** Dropping the writers. *)
Lemma drop_all_quiet hist p l d : dumper_ok p d → unshared p → (∀ s sw, (s, sw) ∈ l → pd_writers p !! s = Some sw) → NoDup (map fst l) →
  (source_state hist p d ∧ sid ∈ map fst l ∨ sid ∉ map fst l ∧ all_closed hist d) →
  let d' := foldl (λ d (kv : string * SourceWriter), match sw_current kv.2 with Some cur => drop_sink (mf_sink cur) d | None => d end) d l in
  all_closed hist d' ∧ local_step touched d d'.
Proof.
  revert d. induction l as [|[s sw] l IH]; intros d Hp Hu Hl Hnd Hst; cbn [foldl snd].
  { destruct Hst as [[_ H%not_elem_of_nil]|[_ ?]]; [done|]. split; [done|]. apply local_refl; apply Hp. }
  cbn [map fst] in Hnd. apply NoDup_cons in Hnd as [Hnin Hnd]. pose proof Hp as [].
  assert (pd_writers p !! s = Some sw) as Hs by (apply Hl; by left). pose proof (do_placed0 _ _ Hs) as Hpl.
  pose proof (drop_current_quiet d s sw do_quiet0 do_disk0 Hpl) as L.
  set (d1 := match sw_current sw with Some cur => drop_sink (mf_sink cur) d | None => d end) in *.
  destruct (IH d1) as [H1 H2]; [|done|intros s' sw' Hin; apply Hl; by right|done| |].
  3:{ split; [done|]. eapply local_trans; [|done]. eapply local_weaken; [by eapply placed_touched|exact L]. }
  { split; [done|done|apply L|apply L|]. intros s' sw' Hs'. eapply placed_local; [exact L|]. by apply do_placed0. }
  destruct (decide (s = sid)) as [->|Hne].
  - right. split; [done|]. cbn [map fst] in Hst. rewrite elem_of_cons in Hst. destruct Hst as [[[_ Hst] _]|[Hno _]]; [|tauto].
    intros k Hk. unfold source_link. destruct (seen sid hist) as [|p0 l0] eqn:Es; [destruct Hst; congruence|].
    destruct Hst as (mf & Hw & Hin & Hlast & Hc). rewrite Hs in Hw. injection Hw as ->. subst d1. cbn.
    by apply (drop_quiet (raw_link_type p0) hist mf d do_quiet0 do_disk0 Hc (current_nonempty _ _ Hlast)).
  - assert (local_step elsewhere d d1) as L' by (eapply local_weaken; [by apply (elsewhere_placed p d s sw)|exact L]).
    cbn [map fst] in Hst. rewrite elem_of_cons in Hst. destruct Hst as [[Hst [?|Hin]]|[Hno Hcl]]; [done| |].
    + left. split; [|done]. by eapply source_state_frame; [| |apply elsewhere_not|..].
    + right. split; [tauto|]. by eapply all_closed_frame; [|apply elsewhere_not|].
Qed.

Lemma drop_dumper_quiet hist p d : dumper_ok p d → source_state hist p d → unshared p →
  all_closed hist (drop_dumper p d) ∧ local_step touched d (drop_dumper p d).
Proof.
  intros Hp Hst Hu. unfold drop_dumper. eapply drop_all_quiet; [done|done| |apply hash_iter_nodup|].
  - intros s sw. apply hash_iter_lookup.
  - destruct (source_listed _ _ _ Hst); tauto.
Qed.

(** The packets of a run. *)
Definition packets (ops : list DumpOp) : list RawPacket :=
  omap (λ o, match o with OpPacket _ pkt => Some pkt | OpFlush _ => None end) ops.

Lemma run_quiet ops hist p d p1 d1 : dumper_ok p d → source_state hist p d → unshared p →
  Forall own_name (packets ops) → Forall (λ pkt, near (minute_of pkt)) (packets ops) →
  run_dump ops p d = Ret (p1, d1) →
  dumper_ok p1 d1 ∧ source_state (hist ++ packets ops) p1 d1 ∧ unshared p1 ∧ local_step touched d d1.
Proof.
  revert hist p d. induction ops as [|[now pkt|now] ops IH]; intros hist p d Hp Hst Hu Ho Hn; cbn [run_dump packets omap list_omap] in *.
  - intros [= <- <-]. rewrite app_nil_r. split_and!; [done..|apply local_refl; apply Hp].
  - apply Forall_cons in Ho as [Ho1 Ho], Hn as [Hn1 Hn]. destruct (write now pkt p d) as [[p2 d2]| |] eqn:E; [|done..]. cbn [res_bind].
    eapply write_quiet in E as (Hp2 & Hst2 & Hu2 & L); [|done..]. rewrite (cons_middle pkt), app_assoc. intros Hr.
    eapply IH in Hr as (?&?&?&?); [|done..]. split_and!; [done..|by eapply local_trans].
  - pose proof (flush_all_quiet now hist p d Hp Hst Hu) as Hf. destruct (flush_all now p d) as [p2 d2].
    destruct Hf as (Hp2 & Hst2 & Hu2 & _ & L). intros Hr.
    eapply IH in Hr as (?&?&?&?); [|done..]. split_and!; [done..|by eapply local_trans].
Qed.
End Quiet.

(** ** Properties *)

Section Contents.
Context `{FL : FrameLaws} `{HI : !HashIter string SourceWriter} `{HL : !HashIterLaws string SourceWriter HI}.

(** A run from the start. *)
Lemma dump_run_quiet dir c m ops p d0 d p' d' sid safe old :
  quiet d0 → disk_ok d0 → (∀ q content, file_at q d0 = Some content → reads_as c content (old q)) →
  sanitize_path_component (B sid) = Some safe →
  Forall (own_name sid safe) (packets ops) → Forall (λ pkt, near (minute_of pkt)) (packets ops) →
  dumper_new dir c m d0 = (inl p, d) → run_dump ops p d = Ret (p', d') →
  dumper_ok dir c p' d' ∧ source_state dir c d0 old sid safe (packets ops) p' d' ∧ unshared sid safe p' ∧ local_step (touched dir c) d0 d'.
Proof.
  intros Hq Hd Hold Hsafe Hown Hnear Hnew Hrun. unfold dumper_new, io_bind in Hnew.
  destruct (create_dir_all dir d0) as [r d1] eqn:E. apply (create_dir_all_quiet (λ _, False)) in E as (-> & L & Hin); [|done..].
  injection Hnew as <- <-.
  assert (dumper_ok dir c (mkDumper dir c ∅ ∅ (throttle_new WARN_THROTTLE) m) d1) as Hp by by split; [..|apply L|apply L|].
  assert (source_state dir c d0 old sid safe [] (mkDumper dir c ∅ ∅ (throttle_new WARN_THROTTLE) m) d1) as Hst.
  { split; [by apply not_elem_of_empty|]. cbn. split; [done|]. intros k _. apply (local_file_at _ _ _ _ L). by intros []. }
  eapply run_quiet in Hrun as (Hp' & Hst' & Hu' & L'); [|done..|by intros s [? ?]|done|done].
  split_and!; [done..|]. eapply local_trans; [|done]. by eapply (local_weaken (λ _, False)).
Qed.

(** Files of the source's directory that are not the dump's stay. *)
Definition foreign_kept (dir : Path) (c : PcapCompression) (safe : text) (d0 d : Disk) : Prop :=
  ∀ f, (∀ k, f ≠ dump_filename k c) → file_at (join_path (join_path dir safe) f) d = file_at (join_path (join_path dir safe) f) d0.

Lemma touched_foreign dir c safe d0 d : local_step (touched dir c) d0 d → foreign_kept dir c safe d0 d.
Proof.
  intros L f Hf. apply (local_file_at _ _ _ _ L). intros (safe' & k & E). unfold join_path in E.
  apply app_inj_tail in E as [_ ->]. by apply (Hf k).
Qed.

(** C30: On a disk that works -- writes may be cut short -- the files of a source
    hold exactly its packets.  Take the packets of the run that are not
    heartbeats and have the link type of the source's first; each belongs to the
    file of the latest minute up to it.  After a flush, and after the dumper is
    dropped, the file of a minute reads as what it held before the run, or a
    global header if it held nothing, followed by the records of the minute's
    packets in order; a minute without packets has its file as it was, and other
    files of the directory are not touched.  Another source must not have a name
    that sanitizes to the same directory. *)
Theorem dump_holds_its_packets dir c m ops p d0 d p' d' sid safe old now :
  quiet d0 → disk_ok d0 →
  (∀ q content, file_at q d0 = Some content → reads_as c content (old q)) →
  sanitize_path_component (B sid) = Some safe →
  Forall (own_name sid safe) (packets ops) →
  Forall (λ pkt, near (minute_of pkt)) (packets ops) →
  dumper_new dir c m d0 = (inl p, d) → run_dump ops p d = Ret (p', d') →
  let flushed := (flush_all now p' d').2 in
  let dropped := drop_dumper p' d' in
  (all_closed dir c d0 old sid safe (packets ops) flushed ∧ foreign_kept dir c safe d0 flushed) ∧
  (all_closed dir c d0 old sid safe (packets ops) dropped ∧ foreign_kept dir c safe d0 dropped).
Proof.
  intros Hq Hd Hold Hsafe Hown Hnear Hnew Hrun.
  destruct (dump_run_quiet dir c m ops p d0 d p' d' sid safe old) as (Hp & Hst & Hu & L); [done..|].
  split.
  - pose proof (flush_all_quiet dir c d0 old sid safe Hsafe now (packets ops) p' d' Hp Hst Hu) as Hf.
    destruct (flush_all now p' d') as [p2 d2]. destruct Hf as (_ & _ & _ & Hc & L2).
    split; [done|]. eapply touched_foreign, local_trans; done.
  - destruct (drop_dumper_quiet dir c d0 old sid safe Hsafe (packets ops) p' d' Hp Hst Hu) as [Hc L2].
    split; [done|]. eapply touched_foreign, local_trans; done.
Qed.

End Contents.

(** ** A concrete encoder *)

(** An encoder that stores its bytes, eight or more at a time. *)
#[local] Instance stored_encoder : FrameEncoder := {|
  encoder := list byte;
  encoder_new := [];
  encode_write := λ e l, if (8 <=? length (e ++ l))%nat then ([e ++ l], []) else ([], e ++ l);
  encode_flush := λ e, ([e], []);
  write_failed := λ (e l : list byte) (n : nat), e;
  flush_failed := λ (e : list byte) (n : nat), e;
  decode_frames := λ c, c;
|}.
#[local] Program Instance stored_laws : FrameLaws stored_encoder := {|
  frames := λ c x, c = x;
  pending := λ e, e;
|}.
Next Obligation. done. Qed.
Next Obligation. by intros ???? -> ->. Qed.
Next Obligation. done. Qed.
Next Obligation. done. Qed.
Next Obligation.
  intros e l. unfold encode_write; cbn [stored_encoder]. destruct (8 <=? length (e ++ l))%nat; cbn.
  - exists (e ++ l). cbn. by rewrite !app_nil_r.
  - by exists [].
Qed.
Next Obligation. intros e. cbn. by rewrite app_nil_r. Qed.

#[local] Instance sample_hash : HashIter string SourceWriter := hash_iter_std string SourceWriter.
#[local] Instance sample_hash_laws : HashIterLaws string SourceWriter sample_hash := hash_iter_std_laws string SourceWriter.

Definition sample_pkt (src : string) (ts link : Z) (data : list byte) : RawPacket :=
  mkRaw ts (zlen data) (zlen data) link data src None.
Definition sample_disk (os : list Outcome) : Disk := mkDisk ∅ ∅ ∅ 0 os.
Definition sample_dumper (c : PcapCompression) : PacketDumper := mkDumper [B "d"] c ∅ ∅ (throttle_new WARN_THROTTLE) counters_zero.

Lemma sample_disk_ok os : disk_ok (sample_disk os).
Proof. split; cbn; [by intros ??|by intros ???|by intros ? [? ?]]. Qed.

Definition dumped_at (f : Path) (r : res (PacketDumper * Disk)) : option (list byte) :=
  match r with Ret (p, d) => file_at f (drop_dumper p d) | _ => None end.

Definition sample_ops : list DumpOp :=
  [OpPacket 0 (sample_pkt "eth0" 1000000 1 [x01; x02]); OpFlush (λ _, 0); OpPacket 0 (sample_pkt "lo" 1000000 1 [x09]);
   OpPacket 0 (sample_pkt "eth0" 61000000 1 [x03]); OpPacket 0 (sample_pkt "eth0" 59000000 1 [x04])].

Lemma dump_holds_its_packets_witness :
  file_packets "eth0" 1 (packets sample_ops) = [sample_pkt "eth0" 61000000 1 [x03]; sample_pkt "eth0" 59000000 1 [x04]] ∧
  match dumper_new [B "d"] SnappyCompression counters_zero (sample_disk [Done; Done; Done; Short 3]) with
  | (inl p, d) =>
      match run_dump sample_ops p d with
      | Ret (p', d') => all_closed [B "d"] SnappyCompression (sample_disk [Done; Done; Done; Short 3]) (λ _, []) "eth0" (B "eth0") (packets sample_ops) (drop_dumper p' d') ∧
                         foreign_kept [B "d"] SnappyCompression (B "eth0") (sample_disk [Done; Done; Done; Short 3]) (drop_dumper p' d')
      | _ => False
      end
  | _ => False
  end.
Proof.
  split; [reflexivity|].
  destruct (dumper_new [B "d"] SnappyCompression counters_zero (sample_disk [Done; Done; Done; Short 3])) as [[p|e] d] eqn:E; [|discriminate E].
  assert (match run_dump sample_ops p d with Ret _ => true | _ => false end = true) as Hret by (injection E as <- <-; vm_compute; reflexivity).
  destruct (run_dump sample_ops p d) as [[p' d']| |] eqn:Er; [|discriminate Hret..].
  - apply (dump_holds_its_packets [B "d"] SnappyCompression counters_zero sample_ops p (sample_disk [Done; Done; Done; Short 3]) d p' d' "eth0" (B "eth0") (λ _, []) (λ _, 0)).
    + unfold quiet. cbn. repeat constructor.
    + apply sample_disk_ok.
    + intros q content. discriminate.
    + reflexivity.
    + change (packets sample_ops) with (map (λ '(n, t, x), sample_pkt n t 1 x)
        [("eth0"%string, 1000000, [x01; x02]); ("lo"%string, 1000000, [x09]); ("eth0"%string, 61000000, [x03]); ("eth0"%string, 59000000, [x04])]).
      cbn [map]. repeat (apply Forall_cons; split; [first [right; left; reflexivity | right; right; discriminate]|]). by apply Forall_nil.
    + change (packets sample_ops) with (map (λ '(n, t, x), sample_pkt n t 1 x)
        [("eth0"%string, 1000000, [x01; x02]); ("lo"%string, 1000000, [x09]); ("eth0"%string, 61000000, [x03]); ("eth0"%string, 59000000, [x04])]).
      repeat constructor; vm_compute; congruence.
    + exact E.
    + exact Er.
Defined.

(** A disk with a dump on it already, that then fails twice. *)
Definition used_disk : Disk :=
  mkDisk ∅ {[[B "d"; B "eth0"; B "19700101T0000.pcap"] := 0%nat]} {[0%nat := [x01; x02; x03]]} 1
    [Done; Done; Done; Done; Fault OtherError; Done; Fault NotFound].

Lemma used_disk_ok : disk_ok used_disk.
Proof.
  split; cbn.
  - intros p h. rewrite lookup_singleton_Some. intros [<- <-]. by rewrite lookup_singleton_eq.
  - intros p q h. rewrite !lookup_singleton_Some. by intros [<- _] [<- _].
  - intros h. rewrite lookup_singleton_is_Some. lia.
Qed.

Lemma dump_never_destroys_witness :
  ∃ p d p' d', dumper_new [B "d"] NoCompression counters_zero used_disk = (inl p, d) ∧
    run_dump [OpPacket 0 (sample_pkt "eth0" 5 1 [x09]); OpFlush (λ _, 0)] p d = Ret (p', d') ∧
    keeps used_disk d' ∧ keeps used_disk (drop_dumper p' d').
Proof.
  destruct (dumper_new [B "d"] NoCompression counters_zero used_disk) as [[p|e] d] eqn:E; [|discriminate E].
  destruct (dump_never_destroys [B "d"] NoCompression counters_zero
    [OpPacket 0 (sample_pkt "eth0" 5 1 [x09]); OpFlush (λ _, 0)] p used_disk d used_disk_ok E) as (p' & d' & Hr & Hk).
  exists p, d, p', d'. split; [reflexivity|]. split; [exact Hr|exact Hk].
Defined.

(** ** Where the code departs from its comments *)

(** [open_minute_file] promises to remove a file whose header could not be
    written.  The header always goes to the buffer, so on a full disk the failure
    shows when the buffer is flushed: the empty file stays, and when the flush is
    that of a drop nothing is counted. *)
Example half_born_file_stays :
  let r := run_dump [OpPacket 0 (sample_pkt "eth0" 1000000 1 [x01])] (sample_dumper NoCompression) (sample_disk [Done; Done; Done; Fault OtherError]) in
  dumped_at [B "d"; B "eth0"; B "19700101T0000.pcap"] r = Some [] ∧
  match r with Ret (p, _) => pd_metrics p CaptureDumpErrors = 0 | _ => False end.
Proof. vm_compute. split; reflexivity. Qed.

(** Sources whose ids sanitize alike share a file: its second writer finds it
    empty and writes a second header, which readers take for a record. *)
Example shared_directory :
  dumped_at [B "d"; B "a_b"; B "19700101T0000.pcap"]
    (run_dump [OpPacket 0 (sample_pkt "a/b" 1000000 1 [x01]); OpPacket 0 (sample_pkt "a_b" 1000000 1 [x02])]
      (sample_dumper NoCompression) (sample_disk []))
  = Some (header_bytes 1 ++ record_bytes (sample_pkt "a_b" 1000000 1 [x02]) ++
          header_bytes 1 ++ record_bytes (sample_pkt "a/b" 1000000 1 [x01])).
Proof. vm_compute. reflexivity. Qed.

(** A record whose data does not fit fails after its header went to the buffer,
    when the flush that makes room fails: the header stays without its data, and
    the records of the packets that follow are read as that data. *)
Lemma failed_record_leaves_its_header `{FL : FrameLaws} w pkt d e os :
  dk_os d = Fault e :: os → zlen (bw_buf w) + 16 < BUF_CAPACITY → BUF_CAPACITY <= zlen (raw_data pkt) →
  ∃ d', write_pcap_record (Plain w) pkt d = (inr e, Plain (mkBufWriter (bw_file w) (bw_buf w ++ concat (take 4 (record_fields pkt)))), d').
Proof.
  intros Hos Hb Hl. unfold write_pcap_record, record_fields. set (f := bw_file w) in *.
  assert (∀ b z ls, zlen b + 4 < BUF_CAPACITY →
    write_fields (Plain (mkBufWriter f b)) (le_bytes 4 z :: ls) d = write_fields (Plain (mkBufWriter f (b ++ le_bytes 4 z))) ls d) as Hpush.
  { intros b z ls Hlt. cbn [write_fields]. unfold write_all. rewrite length_le_bytes. cbn [write_all_loop].
    change (le_bytes 4 z) with (Zbyte z :: le_bytes 3 (z / 256)) at 1. cbn iota. fold (le_bytes 4 z).
    cbn [sink_write]. unfold bw_write. rewrite (proj2 (Z.ltb_lt _ _)) by (unfold zlen at 1; rewrite length_le_bytes; cbn; lia).
    rewrite length_le_bytes. cbn iota beta. replace (drop 4 (le_bytes 4 z)) with (@nil byte) by done. done. }
  destruct w as [h b]. cbn [bw_buf bw_file] in *. subst f.
  assert (∀ b z, zlen (b ++ le_bytes 4 z) = zlen b + 4) as Hz by (intros b' z; rewrite zlen_app; unfold zlen at 2; rewrite length_le_bytes; lia).
  rewrite Hpush by lia. rewrite Hpush by (rewrite !Hz; lia). rewrite Hpush by (rewrite !Hz; lia). rewrite Hpush by (rewrite !Hz; lia).
  rewrite <-!app_assoc. cbn [concat take firstn]. rewrite app_nil_r. set (b' := b ++ _).
  assert (zlen b < zlen b') as Hb'. { unfold b'. rewrite zlen_app. unfold zlen at 3. rewrite !length_app, !length_le_bytes. lia. }
  cbn [write_fields]. unfold write_all. destruct (raw_data pkt) as [|x l] eqn:Ed; [by unfold zlen in Hl; cbn in Hl; unfold BUF_CAPACITY in Hl; lia|].
  rewrite <-Ed in *. destruct (length (raw_data pkt)) eqn:El; [by rewrite Ed in El|]. cbn [write_all_loop]. rewrite Ed. cbn iota. rewrite <-Ed.
  cbn [sink_write]. unfold bw_write. cbn [bw_buf bw_file]. pose proof (zlen_nonneg b).
  rewrite (proj2 (Z.ltb_ge _ _)), (proj2 (Z.ltb_lt _ _)) by lia. unfold bw_flush. cbn [bw_buf bw_file].
  destruct b' as [|y b2] eqn:Eb; [by unfold zlen in Hb' at 2; cbn in Hb'; lia|]. cbn [length flush_loop]. unfold file_write, os_call. rewrite Hos.
  cbn. eauto.
Qed.
