(* ===== verification/PcapRetention.v ===== *)
(** * Retention of packet dumps (h-capture/src/pcap_retention.rs)

    The sweep that deletes old dump files by age and by size.  The order in which
    a directory is listed, and the length the system gives for a directory, are
    parameters (class [ReadDir]); log lines are not modelled. *)

From Stdlib Require Import Strings.Byte Strings.String ZArith Lia.
From stdpp Require Import base gmap sets list strings sorting lexico.
From S2P Require Import Prelude.
From S2P Require Import Net.
From S2P Require Import Text.
From S2P Require Import Counters.
From S2P Require Import Calendar.
From S2P Require Import Disk.
From S2P Require Import PcapDump.
From S2P Require Import DumpSinks.
From S2P Require Import DumpSafety.
From S2P Require Import DumpContents.

Open Scope Z_scope.

Definition MIB : Z := 1024 * 1024.

Record PcapDumpRetentionConfig : Type := mkRetentionConfig {
  rc_enabled : bool;
  rc_check_interval_secs : Z;
  rc_max_age_hours : Z;
  rc_max_size_mb : Z;
}.
Definition retention_is_empty (cfg : PcapDumpRetentionConfig) : bool :=
  (rc_max_age_hours cfg =? 0) && (rc_max_size_mb cfg =? 0).

Record SweepReport : Type := mkReport { sr_files_deleted : Z; sr_bytes_deleted : Z; sr_errors : Z }.
Definition report_default : SweepReport := mkReport 0 0 0.
Definition report_error (r : SweepReport) : SweepReport := mkReport (sr_files_deleted r) (sr_bytes_deleted r) (sr_errors r + 1).
Definition report_removed (size : Z) (r : SweepReport) : SweepReport :=
  mkReport (sr_files_deleted r + 1) (sr_bytes_deleted r + size) (sr_errors r).
Definition is_noop (r : SweepReport) : bool :=
  (sr_files_deleted r =? 0) && (sr_bytes_deleted r =? 0) && (sr_errors r =? 0).

Record Candidate : Type := mkCandidate { ca_path : Path; ca_minute_key : Z; ca_size : Z }.
Inductive UnlinkOutcome : Type := Removed | AlreadyGone | Failed.

Definition strip_suffix (suf s : text) : option text :=
  if (length suf <=? length s)%nat && bool_decide (drop (length s - length suf) s = suf)
  then Some (take (length s - length suf) s) else None.
Definition parse_dump_filename (name : text) : option Z :=
  match strip_suffix (B ".pcap.snappy") name with
  | Some stem => parse_minute_label stem
  | None => strip_suffix (B ".pcap") name ≫= parse_minute_label
  end.

(** The seconds since the epoch, or what they are short of it. *)
Definition system_time_to_minute_key (now : Z) : Z := (if now <? 0 then 0 else now) / 60.

Definition try_unlink (p : Path) (r : SweepReport) (d : Disk) : UnlinkOutcome * SweepReport * Disk :=
  match remove_file p d with
  | (inl _, d') => (Removed, r, d')
  | (inr NotFound, d') => (AlreadyGone, r, d')
  | (inr _, d') => (Failed, report_error r, d')
  end.

(** ** Listing directories *)

Class ReadDir : Type := {
  list_dir : Path → Disk → list text;
  dir_len : Path → Z;
}.

(** What is directly under a directory. *)
Definition child (p : Path) (c : text) (d : Disk) : Prop :=
  join_path p c ∈ dk_dirs d ∨ is_Some (dk_names d !! join_path p c).
Class ReadDirLaws (RD : ReadDir) : Prop := {
  list_dir_children p d c : c ∈ list_dir p d ↔ child p c d;
  list_dir_nodup p d : NoDup (list_dir p d);
}.

Section Sweep.
Context `{RD : ReadDir}.

Definition read_dir (p : Path) : io (list text) :=
  syscall (λ d, (if is_dir p d then inl (list_dir p d) else inr NotFound, d)).

(** [DirEntry::metadata]'s length. *)
Definition entry_len (p : Path) : io Z :=
  syscall (λ d, (match file_at p d with
                 | Some c => inl (zlen c)
                 | None => if is_dir p d then inl (dir_len p) else inr NotFound
                 end, d)).

(** An entry of a listing can itself fail. *)
Definition next_entry : io unit := syscall (λ d, (inl tt, d)).

Fixpoint walk_files (race_cutoff : Z) (src_dir : Path) (names : list text) (r : SweepReport) (cs : list Candidate) (d : Disk)
    : SweepReport * list Candidate * Disk :=
  match names with
  | [] => (r, cs, d)
  | name :: names' =>
      match next_entry d with
      | (inr _, d1) => walk_files race_cutoff src_dir names' (report_error r) cs d1
      | (inl _, d1) =>
          let path := join_path src_dir name in
          match parse_dump_filename name with
          | None => walk_files race_cutoff src_dir names' r cs d1
          | Some minute_key =>
              if race_cutoff <=? minute_key then walk_files race_cutoff src_dir names' r cs d1
              else
                match entry_len path d1 with
                | (inr _, d2) => walk_files race_cutoff src_dir names' (report_error r) cs d2
                | (inl size, d2) => walk_files race_cutoff src_dir names' r (cs ++ [mkCandidate path minute_key size]) d2
                end
          end
      end
  end.

Fixpoint walk_dirs (race_cutoff : Z) (dump_dir : Path) (names : list text) (r : SweepReport) (cs : list Candidate) (d : Disk)
    : SweepReport * list Candidate * Disk :=
  match names with
  | [] => (r, cs, d)
  | name :: names' =>
      match next_entry d with
      | (inr _, d1) => walk_dirs race_cutoff dump_dir names' (report_error r) cs d1
      | (inl _, d1) =>
          let src_dir := join_path dump_dir name in
          if negb (is_dir src_dir d1) then walk_dirs race_cutoff dump_dir names' r cs d1
          else
            match read_dir src_dir d1 with
            | (inr _, d2) => walk_dirs race_cutoff dump_dir names' (report_error r) cs d2
            | (inl inner, d2) =>
                let '(r', cs', d3) := walk_files race_cutoff src_dir inner r cs d2 in
                walk_dirs race_cutoff dump_dir names' r' cs' d3
            end
      end
  end.

(** ** The two phases *)

(** [candidates.retain(...)]. *)
Fixpoint age_sweep (age_cutoff : Z) (cs : list Candidate) (r : SweepReport) (d : Disk) : list Candidate * SweepReport * Disk :=
  match cs with
  | [] => ([], r, d)
  | c :: cs' =>
      if age_cutoff <=? ca_minute_key c then
        let '(kept, r', d') := age_sweep age_cutoff cs' r d in (c :: kept, r', d')
      else
        let '(o, r1, d1) := try_unlink (ca_path c) r d in
        let r2 := match o with Removed => report_removed (ca_size c) r1 | _ => r1 end in
        let '(kept, r', d') := age_sweep age_cutoff cs' r2 d1 in
        (match o with Failed => c :: kept | _ => kept end, r', d')
  end.

Fixpoint size_loop (cap_bytes : Z) (cs : list Candidate) (current : Z) (r : SweepReport) (d : Disk) : SweepReport * Disk :=
  match cs with
  | [] => (r, d)
  | c :: cs' =>
      if current <=? cap_bytes then (r, d)
      else
        let '(o, r1, d1) := try_unlink (ca_path c) r d in
        match o with
        | Removed => size_loop cap_bytes cs' (sat_sub current (ca_size c)) (report_removed (ca_size c) r1) d1
        | AlreadyGone => size_loop cap_bytes cs' (sat_sub current (ca_size c)) r1 d1
        | Failed => size_loop cap_bytes cs' current r1 d1
        end
  end.

(** The order of deletion: by minute, then by path. *)
Definition ca_key (c : Candidate) : Z * list (list Z) := (ca_minute_key c, map (map byteZ) (ca_path c)).
Definition older (a b : Candidate) : Prop := ¬ lexico (ca_key b) (ca_key a).
#[export] Instance older_dec : RelDecision older.
Proof.
  intros a b. unfold older.
  destruct (trichotomyT lexico (ca_key b) (ca_key a)) as [[H|H]|H]; [right; intros Hn; by apply Hn|left|left].
  - rewrite H. apply (irreflexivity lexico).
  - intros H'. apply (irreflexivity lexico (ca_key a)). by trans (ca_key b).
Defined.

Definition total_size (cs : list Candidate) : Z := foldr (λ c z, ca_size c + z) 0 cs.

Definition size_sweep (max_size_mb : Z) (cs : list Candidate) (r : SweepReport) (d : Disk) : SweepReport * Disk :=
  let cap_bytes := Z.min (max_size_mb * MIB) (2 ^ 64 - 1) in
  let total := total_size cs in
  if cap_bytes <? total then size_loop cap_bytes (merge_sort older cs) total r d else (r, d).

Definition run_sweep (dump_dir : Path) (cfg : PcapDumpRetentionConfig) (now : Z) (d : Disk) : SweepReport * Disk :=
  let now_minute := system_time_to_minute_key now in
  let race_cutoff := now_minute - 1 in
  match read_dir dump_dir d with
  | (inr NotFound, d1) => (report_default, d1)
  | (inr _, d1) => (report_error report_default, d1)
  | (inl entries, d1) =>
      let '(r1, cs, d2) := walk_dirs race_cutoff dump_dir entries report_default [] d1 in
      let '(cs2, r2, d3) :=
        if 0 <? rc_max_age_hours cfg
        then age_sweep (now_minute - rc_max_age_hours cfg * 60) cs r1 d2
        else (cs, r1, d2) in
      if 0 <? rc_max_size_mb cfg then size_sweep (rc_max_size_mb cfg) cs2 r2 d3 else (r2, d3)
  end.

(** The task's loop after a tick: the sweep, and its counters. *)
Definition sweep_tick (dump_dir : Path) (cfg : PcapDumpRetentionConfig) (now : Z) (m : counters) (d : Disk) : counters * Disk :=
  let '(r, d') := run_sweep dump_dir cfg now d in
  (add_counter CaptureDumpRetentionErrors (sr_errors r)
    (add_counter CaptureDumpRetentionBytesDeleted (sr_bytes_deleted r)
      (add_counter CaptureDumpRetentionFilesDeleted (sr_files_deleted r) m)), d').

(** The task: off, or with nothing to do, it ends at once. *)
Definition retention_runs (cfg : PcapDumpRetentionConfig) : bool := rc_enabled cfg && negb (retention_is_empty cfg).
Definition retention_interval (cfg : PcapDumpRetentionConfig) : Z := Z.max (rc_check_interval_secs cfg) 1.

(** ** Safety *)

(** A dump file the sweep may delete: one of the dump's, by its name, and old
    enough. *)
Definition deletable (dump_dir : Path) (cfg : PcapDumpRetentionConfig) (now : Z) (q : Path) : Prop :=
  ∃ src f k, q = join_path (join_path dump_dir src) f ∧ parse_dump_filename f = Some k ∧
    k < system_time_to_minute_key now - 1 ∧
    (0 < rc_max_size_mb cfg ∨ 0 < rc_max_age_hours cfg ∧ k < system_time_to_minute_key now - rc_max_age_hours cfg * 60).

(** Only names of [P] go, and nothing else changes. *)
Record unlinks (P : Path → Prop) (d d' : Disk) : Prop := {
  ul_dirs : dk_dirs d' = dk_dirs d;
  ul_data : dk_data d' = dk_data d;
  ul_next : dk_next d' = dk_next d;
  ul_os : suffix (dk_os d') (dk_os d);
  ul_names q : dk_names d' !! q = dk_names d !! q ∨ P q ∧ dk_names d' !! q = None;
}.

#[export] Instance unlinks_refl P : Reflexive (unlinks P).
Proof. intros d. split; [done..|by left]. Qed.

#[export] Instance unlinks_trans P : Transitive (unlinks P).
Proof.
  intros d d1 d2 [] []. split; try congruence; [by etrans|]. intros q.
  destruct (ul_names1 q) as [->|?]; [done|by right].
Qed.

Lemma unlinks_weaken (P Q : Path → Prop) d d' : (∀ q, P q → Q q) → unlinks P d d' → unlinks Q d d'.
Proof. intros H []. split; [done..|]. intros q. destruct (ul_names0 q) as [?|[??]]; [by left|right; auto]. Qed.

Lemma os_unlinks P d o d1 : os_call d = (o, d1) → unlinks P d d1.
Proof. intros E. pose proof (os_call_spec d) as H. rewrite E in H. destruct H as (?&?&?&?&?&_). split; [done..|]. left. congruence. Qed.

Lemma syscall_unlinks {A} P (k : io A) d r d' : (∀ d1 r d2, k d1 = (r, d2) → unlinks P d1 d2) → syscall k d = (r, d') → unlinks P d d'.
Proof.
  intros Hk. unfold syscall. destruct (os_call d) as [o d1] eqn:E. apply (os_unlinks P) in E.
  destruct o; [intros ?%Hk; by etrans..|by intros [= _ <-]].
Qed.

Lemma next_entry_unlinks P d r d' : next_entry d = (r, d') → unlinks P d d'.
Proof. apply syscall_unlinks. by intros d1 r1 d2 [= _ <-]. Qed.
Lemma read_dir_unlinks P p d r d' : read_dir p d = (r, d') → unlinks P d d'.
Proof. apply syscall_unlinks. by intros d1 r1 d2 [= _ <-]. Qed.
Lemma entry_len_unlinks P p d r d' : entry_len p d = (r, d') → unlinks P d d'.
Proof. apply syscall_unlinks. by intros d1 r1 d2 [= _ <-]. Qed.

Lemma try_unlink_unlinks (P : Path → Prop) p r d o r' d' : P p → try_unlink p r d = (o, r', d') → unlinks P d d'.
Proof.
  intros Hp. unfold try_unlink. destruct (remove_file p d) as [w d1] eqn:E.
  assert (unlinks P d d1) as H.
  { unfold remove_file in E. revert E. apply syscall_unlinks. intros d2 r2 d3.
    destruct (dk_names d2 !! p) as [h|] eqn:Hn; intros [= _ <-]; [|done].
    split; [done..|]. intros q. cbn. destruct (decide (p = q)) as [<-|]; simplify_map_eq; [by right|by left]. }
  destruct w as [|[]]; by intros [= _ _ <-].
Qed.

(** What the walks find. *)
Definition found (dump_dir : Path) (race_cutoff : Z) (c : Candidate) : Prop :=
  ∃ src f, ca_path c = join_path (join_path dump_dir src) f ∧ parse_dump_filename f = Some (ca_minute_key c) ∧ ca_minute_key c < race_cutoff.

Lemma walk_files_unlinks P dump_dir rcut src names r cs d :
  let '(r', cs', d') := walk_files rcut (join_path dump_dir src) names r cs d in
  unlinks P d d' ∧ (Forall (found dump_dir rcut) cs → Forall (found dump_dir rcut) cs').
Proof.
  revert r cs d. induction names as [|name names IH]; intros r cs d; cbn [walk_files]; [done|].
  destruct (next_entry d) as [[[]|e] d1] eqn:E1; apply (next_entry_unlinks P) in E1.
  - destruct (parse_dump_filename name) as [k|] eqn:Ep.
    + destruct (Z.leb_spec rcut k) as [Hk|Hk].
      { specialize (IH r cs d1). destruct (walk_files _ _ names r cs d1) as [[r' cs'] d']. destruct IH. split; [by etrans|done]. }
      destruct (entry_len _ d1) as [[size|e] d2] eqn:E2; apply (entry_len_unlinks P) in E2.
      * specialize (IH r (cs ++ [mkCandidate (join_path (join_path dump_dir src) name) k size]) d2).
        destruct (walk_files _ _ names r _ d2) as [[r' cs'] d']. destruct IH as [? IH]. split; [by do 2 (etrans; [done|])|].
        intros Hcs. apply IH, Forall_app. split; [done|]. apply Forall_singleton. by exists src, name.
      * specialize (IH (report_error r) cs d2). destruct (walk_files _ _ names _ cs d2) as [[r' cs'] d']. destruct IH. split; [by do 2 (etrans; [done|])|done].
    + specialize (IH r cs d1). destruct (walk_files _ _ names r cs d1) as [[r' cs'] d']. destruct IH. split; [by etrans|done].
  - specialize (IH (report_error r) cs d1). destruct (walk_files _ _ names _ cs d1) as [[r' cs'] d']. destruct IH. split; [by etrans|done].
Qed.

Lemma walk_dirs_unlinks P dump_dir rcut names r cs d :
  let '(r', cs', d') := walk_dirs rcut dump_dir names r cs d in
  unlinks P d d' ∧ (Forall (found dump_dir rcut) cs → Forall (found dump_dir rcut) cs').
Proof.
  revert r cs d. induction names as [|name names IH]; intros r cs d; cbn [walk_dirs]; [done|].
  destruct (next_entry d) as [[[]|e] d1] eqn:E1; apply (next_entry_unlinks P) in E1.
  - destruct (negb _).
    { specialize (IH r cs d1). destruct (walk_dirs _ _ names r cs d1) as [[r' cs'] d']. destruct IH. split; [by etrans|done]. }
    destruct (read_dir _ d1) as [[inner|e] d2] eqn:E2; apply (read_dir_unlinks P) in E2.
    + pose proof (walk_files_unlinks P dump_dir rcut name inner r cs d2) as Hf.
      destruct (walk_files _ _ inner r cs d2) as [[r3 cs3] d3]. destruct Hf as [? Hf].
      specialize (IH r3 cs3 d3). destruct (walk_dirs _ _ names r3 cs3 d3) as [[r' cs'] d']. destruct IH. split; [by do 3 (etrans; [done|])|auto].
    + specialize (IH (report_error r) cs d2). destruct (walk_dirs _ _ names _ cs d2) as [[r' cs'] d']. destruct IH. split; [by do 2 (etrans; [done|])|done].
  - specialize (IH (report_error r) cs d1). destruct (walk_dirs _ _ names _ cs d1) as [[r' cs'] d']. destruct IH. split; [by etrans|done].
Qed.

Lemma age_sweep_unlinks (P : Path → Prop) cutoff cs r d : (∀ c, c ∈ cs → ca_minute_key c < cutoff → P (ca_path c)) →
  let '(kept, r', d') := age_sweep cutoff cs r d in unlinks P d d' ∧ ∀ c, c ∈ kept → c ∈ cs.
Proof.
  revert r d. induction cs as [|c cs IH]; intros r d HP; cbn [age_sweep]; [done|].
  assert (∀ c, c ∈ cs → ca_minute_key c < cutoff → P (ca_path c)) as HP' by (intros c' Hc'; apply HP; by right).
  destruct (Z.leb_spec cutoff (ca_minute_key c)) as [Hk|Hk].
  { specialize (IH r d HP'). destruct (age_sweep cutoff cs r d) as [[kept r'] d']. destruct IH as [? IH]. split; [done|].
    intros c'. rewrite !elem_of_cons. naive_solver. }
  destruct (try_unlink (ca_path c) r d) as [[o r1] d1] eqn:E. apply (try_unlink_unlinks P) in E; [|apply HP; [by left|done]].
  set (r2 := match o with Removed => _ | _ => r1 end). specialize (IH r2 d1 HP').
  destruct (age_sweep cutoff cs r2 d1) as [[kept r'] d']. destruct IH as [? IH]. split; [by etrans|].
  intros c'. destruct o; rewrite ?elem_of_cons; naive_solver.
Qed.

Lemma size_loop_unlinks (P : Path → Prop) cap cs current r d : (∀ c, c ∈ cs → P (ca_path c)) →
  unlinks P d (size_loop cap cs current r d).2.
Proof.
  revert current r d. induction cs as [|c cs IH]; intros current r d HP; cbn [size_loop]; [done|].
  destruct (_ <=? _); [done|]. destruct (try_unlink (ca_path c) r d) as [[o r1] d1] eqn:E.
  apply (try_unlink_unlinks P) in E; [|apply HP; by left].
  assert (∀ c, c ∈ cs → P (ca_path c)) as HP' by (intros c' Hc'; apply HP; by right).
  destruct o; (etrans; [exact E|by apply IH]).
Qed.

(** Whatever the disk does, a sweep writes to no file and makes or removes no
    directory; a name that goes is that of a dump file of a directory directly
    under the dump's, older than the minute before the current one, and then
    only if a size limit is set or it is past the age limit.  Foreign files stay. *)
Theorem sweep_spares dump_dir cfg now d :
  unlinks (deletable dump_dir cfg now) d (run_sweep dump_dir cfg now d).2.
Proof.
  unfold run_sweep. set (P := deletable dump_dir cfg now). set (rcut := system_time_to_minute_key now - 1).
  destruct (read_dir dump_dir d) as [[entries|e] d1] eqn:E1; apply (read_dir_unlinks P) in E1; [|by destruct e].
  pose proof (walk_dirs_unlinks P dump_dir rcut entries report_default [] d1) as Hw.
  destruct (walk_dirs rcut dump_dir entries report_default [] d1) as [[r1 cs] d2]. destruct Hw as [Hw Hcs].
  specialize (Hcs ltac:(by apply Forall_nil)). rewrite Forall_forall in Hcs. trans d2; [by etrans|].
  set (ages := if 0 <? rc_max_age_hours cfg then _ else _).
  assert (unlinks P d2 ages.2 ∧ ∀ c, c ∈ ages.1.1 → found dump_dir rcut c) as [Hu Hin].
  { subst ages. destruct (Z.ltb_spec 0 (rc_max_age_hours cfg)); [|done].
    pose proof (age_sweep_unlinks P (system_time_to_minute_key now - rc_max_age_hours cfg * 60) cs r1 d2) as Ha.
    destruct (age_sweep _ cs r1 d2) as [[kept r2] d3]. destruct Ha as [? Ha]; [|split; [done|auto]].
    intros c Hc Hk. destruct (Hcs c Hc) as (src & f & ? & ? & ?). exists src, f, (ca_minute_key c). split_and!; [done..|by right]. }
  destruct ages as [[cs2 r2] d3]. trans d3; [exact Hu|].
  destruct (Z.ltb_spec 0 (rc_max_size_mb cfg)) as [Hm|]; [|done]. unfold size_sweep. destruct (_ <? _); [|done].
  apply size_loop_unlinks. intros c Hc. rewrite (merge_sort_Permutation older) in Hc.
  destruct (Hin c Hc) as (src & f & ? & ? & ?). exists src, f, (ca_minute_key c). split_and!; [done..|by left].
Qed.

(** ** What a sweep deletes *)

#[export] Instance older_total : Total older.
Proof.
  intros a b. unfold older. destruct (trichotomyT lexico (ca_key a) (ca_key b)) as [[H|H]|H].
  - left. intros H'. apply (irreflexivity lexico (ca_key a)). by trans (ca_key b).
  - left. rewrite H. apply (irreflexivity lexico).
  - right. intros H'. apply (irreflexivity lexico (ca_key a)). by trans (ca_key b).
Qed.

#[export] Instance older_trans : Transitive older.
Proof.
  intros a b c Hab Hbc Hca. destruct (trichotomyT lexico (ca_key a) (ca_key b)) as [[H|H]|H]; [|rewrite H in Hca; done|done].
  apply Hbc. by trans (ca_key a).
Qed.

Lemma older_minutes a b : older a b → ca_minute_key a <= ca_minute_key b.
Proof.
  intros H. destruct (Z.le_gt_cases (ca_minute_key a) (ca_minute_key b)) as [|Hlt]; [done|].
  exfalso. apply H. left. cbn. exact Hlt.
Qed.

Context `{RL : !ReadDirLaws RD}.

(** A disk on which the sweep can be followed: files are in directories, and no
    directory has the name of a dump file. *)
Record tree_ok (dump_dir : Path) (d : Disk) : Prop := {
  tr_parent p f : is_Some (dk_names d !! join_path p f) → p ∈ dk_dirs d;
  tr_root : dump_dir ∈ dk_dirs d;
  tr_named src f k : parse_dump_filename f = Some k → join_path (join_path dump_dir src) f ∉ dk_dirs d;
}.

(** A dump file of the disk, as the sweep's candidate. *)
Definition dump_file (dump_dir : Path) (rcut : Z) (d : Disk) (c : Candidate) : Prop :=
  ∃ src f content, ca_path c = join_path (join_path dump_dir src) f ∧ file_at (ca_path c) d = Some content ∧
    parse_dump_filename f = Some (ca_minute_key c) ∧ ca_minute_key c < rcut ∧ ca_size c = zlen content.

Lemma same_file_at q d d' : dk_names d' = dk_names d → dk_data d' = dk_data d → file_at q d' = file_at q d.
Proof. intros En Ed. unfold file_at, file_bytes. by rewrite En, Ed. Qed.

(** The disk has only moved on to its next calls. *)
Definition same_disk (d d' : Disk) : Prop := quiet d' ∧ dk_dirs d' = dk_dirs d ∧ dk_names d' = dk_names d ∧ dk_data d' = dk_data d.

Lemma next_entry_quiet d : quiet d → ∃ d', next_entry d = (inl tt, d') ∧ same_disk d d'.
Proof.
  intros Hq. destruct (next_entry d) as [r d'] eqn:E. unfold next_entry, syscall in E. pose proof (os_call_spec d) as Ho.
  destruct (os_call d) as [o d1]. destruct Ho as (?&?&?&?&?&Ho). specialize (Ho Hq).
  destruct o; try done; injection E as <- <-; exists d1; (split; [done|]); split_and!; eauto using quiet_suffix.
Qed.

Lemma read_dir_quiet p d : quiet d → p ∈ dk_dirs d →
  ∃ l d', read_dir p d = (inl l, d') ∧ same_disk d d' ∧ NoDup l ∧ ∀ c, c ∈ l ↔ child p c d.
Proof.
  intros Hq Hp. destruct (read_dir p d) as [r d'] eqn:E. unfold read_dir, syscall in E. pose proof (os_call_spec d) as Ho.
  destruct (os_call d) as [o d1]. destruct Ho as (E1&E2&E3&E4&?&Ho). specialize (Ho Hq).
  assert (is_dir p d1 = true) as Hd by (unfold is_dir; rewrite E1; by apply bool_decide_eq_true).
  rewrite Hd in E. destruct o; try done; injection E as <- <-; exists (list_dir p d1), d1;
    (split; [done|]; split; [split_and!; eauto using quiet_suffix|]; split; [apply list_dir_nodup|]);
    intros c; rewrite list_dir_children; unfold child; by rewrite E1, E2.
Qed.

Lemma entry_len_quiet p d content : quiet d → file_at p d = Some content →
  ∃ d', entry_len p d = (inl (zlen content), d') ∧ same_disk d d'.
Proof.
  intros Hq Hf. destruct (entry_len p d) as [r d'] eqn:E. unfold entry_len, syscall in E. pose proof (os_call_spec d) as Ho.
  destruct (os_call d) as [o d1]. destruct Ho as (E1&E2&E3&E4&?&Ho). specialize (Ho Hq).
  rewrite (same_file_at p d d1), Hf in E by done.
  destruct o; try done; injection E as <- <-; exists d1; (split; [done|]); split_and!; eauto using quiet_suffix.
Qed.

Lemma same_disk_trans d d1 d2 : same_disk d d1 → same_disk d1 d2 → same_disk d d2.
Proof. intros (?&?&?&?) (?&?&?&?). split_and!; congruence || done. Qed.

(** The candidates a list of names in a directory stands for. *)
Definition file_candidate (d : Disk) (rcut : Z) (src_dir : Path) (name : text) : option Candidate :=
  match parse_dump_filename name with
  | Some k => if rcut <=? k then None else mkCandidate (join_path src_dir name) k ∘ zlen <$> file_at (join_path src_dir name) d
  | None => None
  end.

Lemma walk_files_quiet dump_dir d0 rcut src names r cs d : tree_ok dump_dir d0 → same_disk d0 d →
  (∀ c, c ∈ names → child (join_path dump_dir src) c d0) →
  ∃ d', walk_files rcut (join_path dump_dir src) names r cs d = (r, cs ++ omap (file_candidate d0 rcut (join_path dump_dir src)) names, d') ∧ same_disk d0 d'.
Proof.
  intros Ht. revert cs d. induction names as [|name names IH]; intros cs d Hs Hc; cbn [walk_files].
  { exists d. cbn. by rewrite app_nil_r. }
  destruct (next_entry_quiet d) as (d1 & -> & Hs1); [apply Hs|]. pose proof (same_disk_trans _ _ _ Hs Hs1) as Hs01.
  assert (∀ c, c ∈ names → child (join_path dump_dir src) c d0) as Hc' by (intros c Hin; apply Hc; by right).
  cbn [omap list_omap]. unfold file_candidate at 1. destruct (parse_dump_filename name) as [k|] eqn:Ep; [|by apply IH].
  destruct (Z.leb_spec rcut k); [by apply IH|].
  destruct (Hc name ltac:(by left)) as [Hdir|[h Hh]]; [by destruct (tr_named _ _ Ht src name k Ep)|].
  assert (file_at (join_path (join_path dump_dir src) name) d0 = Some (file_bytes h d0)) as Hf by (unfold file_at; by rewrite Hh).
  assert (file_at (join_path (join_path dump_dir src) name) d1 = Some (file_bytes h d0)) as Hf1.
  { rewrite <-Hf. apply same_file_at; apply Hs01. }
  destruct (entry_len_quiet _ d1 _ (proj1 Hs01) Hf1) as (d2 & -> & Hs2). rewrite Hf. cbn [fmap option_fmap option_map compose].
  destruct (IH (cs ++ [mkCandidate (join_path (join_path dump_dir src) name) k (zlen (file_bytes h d0))]) d2) as (d3 & -> & Hs3);
    [by eapply same_disk_trans|done|]. exists d3. by rewrite <-app_assoc.
Qed.

Lemma file_candidates_nodup d rcut src_dir names : NoDup names → NoDup (map ca_path (omap (file_candidate d rcut src_dir) names)).
Proof.
  induction names as [|f names IH]; intros Hnd; cbn; [by apply NoDup_nil|]. apply NoDup_cons in Hnd as [Hnin Hnd]. specialize (IH Hnd).
  destruct (file_candidate d rcut src_dir f) as [c|] eqn:E; [|done]. cbn. apply NoDup_cons. split; [|done].
  intros (c' & Ec & (f' & Hf' & E')%list_elem_of_omap)%list_elem_of_fmap.
  assert (∀ g x, file_candidate d rcut src_dir g = Some x → ca_path x = join_path src_dir g) as Hpath.
  { intros g x. unfold file_candidate. destruct (parse_dump_filename g); [|done]. destruct (_ <=? _); [done|]. destruct (file_at _ d); [|done]. by intros [= <-]. }
  rewrite (Hpath _ _ E), (Hpath _ _ E') in Ec. unfold join_path in Ec. apply app_inj_tail in Ec as [_ ->]. done.
Qed.

Lemma walk_dirs_quiet dump_dir d0 rcut names r cs d : tree_ok dump_dir d0 → same_disk d0 d →
  ∃ cs' d', walk_dirs rcut dump_dir names r cs d = (r, cs ++ cs', d') ∧ same_disk d0 d' ∧
    (NoDup names → NoDup (map ca_path cs') ∧
    (∀ c, c ∈ cs' ↔ ∃ src, src ∈ names ∧ ∃ f content, ca_path c = join_path (join_path dump_dir src) f ∧ file_at (ca_path c) d0 = Some content ∧
       parse_dump_filename f = Some (ca_minute_key c) ∧ ca_minute_key c < rcut ∧ ca_size c = zlen content)).
Proof.
  intros Ht. revert cs d. induction names as [|name names IH]; intros cs d Hs; cbn [walk_dirs].
  { exists [], d. rewrite app_nil_r. split; [done|]. split; [done|]. intros _. split; [by apply NoDup_nil|].
    intros c. split; [by intros ?%not_elem_of_nil|]. by intros (? & ?%not_elem_of_nil & _). }
  destruct (next_entry_quiet d) as (d1 & -> & Hs1); [apply Hs|]. pose proof (same_disk_trans _ _ _ Hs Hs1) as Hs01.
  assert (is_dir (join_path dump_dir name) d1 = is_dir (join_path dump_dir name) d0) as -> by (unfold is_dir; by destruct Hs01 as (_ & -> & _)).
  destruct (is_dir (join_path dump_dir name) d0) eqn:Ed; cbn [negb].
  - apply bool_decide_eq_true in Ed.
    destruct (read_dir_quiet (join_path dump_dir name) d1) as (l & d2 & -> & Hs2 & Hnd & Hl); [apply Hs01|by destruct Hs01 as (_ & -> & _)|].
    destruct (walk_files_quiet dump_dir d0 rcut name l r cs d2) as (d3 & -> & Hs3); [done|by eapply same_disk_trans| |].
    { intros c Hc. apply Hl in Hc. unfold child in *. destruct Hs01 as (_ & E1 & E2 & _). by rewrite E1, E2 in Hc. }
    destruct (IH (cs ++ omap (file_candidate d0 rcut (join_path dump_dir name)) l) d3 Hs3) as (cs' & d4 & -> & Hs4 & Hcs').
    exists (omap (file_candidate d0 rcut (join_path dump_dir name)) l ++ cs'), d4. rewrite app_assoc. split; [done|]. split; [done|].
    intros [Hnin Hnd']%NoDup_cons. destruct (Hcs' Hnd') as [Hnodup Hmem].
    assert (∀ c, c ∈ omap (file_candidate d0 rcut (join_path dump_dir name)) l ↔ ∃ f content, ca_path c = join_path (join_path dump_dir name) f ∧
      file_at (ca_path c) d0 = Some content ∧ parse_dump_filename f = Some (ca_minute_key c) ∧ ca_minute_key c < rcut ∧ ca_size c = zlen content) as Hfirst.
    { intros c. rewrite list_elem_of_omap. split.
      - intros (f & Hf & Hcand). unfold file_candidate in Hcand. destruct (parse_dump_filename f) as [k|] eqn:Ep; [|done].
        destruct (Z.leb_spec rcut k); [done|]. destruct (file_at _ d0) as [content|] eqn:Ef; [|done]. injection Hcand as <-. exists f, content. cbn. auto.
      - intros (f & content & E1 & E2 & E3 & E4 & E5). exists f. split.
        + apply Hl. right. destruct Hs01 as (_ & _ & E & _). rewrite E, <-E1. unfold file_at in E2. destruct (dk_names d0 !! ca_path c); [eauto|done].
        + unfold file_candidate. rewrite E3. rewrite (proj2 (Z.leb_gt _ _)) by done. rewrite <-E1, E2. destruct c; cbn in *. congruence. }
    split.
    + rewrite map_app. apply NoDup_app. split_and!; [|  |done].
      * by apply file_candidates_nodup.
      * intros q (c & -> & Hc)%list_elem_of_fmap (c' & E & Hc')%list_elem_of_fmap. apply Hfirst in Hc as (f & _ & E1 & _).
        apply Hmem in Hc' as (src & Hsrc & f' & _ & E1' & _). rewrite E1, E1' in E. unfold join_path in E.
        apply app_inj_tail in E as [E _]. apply app_inj_tail in E as [_ ->]. done.
    + intros c. rewrite elem_of_app, Hfirst, Hmem. setoid_rewrite elem_of_cons. naive_solver.
  - apply bool_decide_eq_false in Ed. destruct (IH cs d1 Hs01) as (cs' & d2 & -> & Hs2 & Hcs').
    exists cs', d2. split; [done|]. split; [done|]. intros [_ Hnd]%NoDup_cons. destruct (Hcs' Hnd) as [Hnodup Hmem]. split; [done|].
    intros c. rewrite Hmem. setoid_rewrite elem_of_cons. split; [naive_solver|].
    intros (src & [->|Hsrc] & f & content & E1 & E2 & Hrest); [|naive_solver]. exfalso. apply Ed. apply (tr_parent _ _ Ht _ f).
    rewrite <-E1. unfold file_at in E2. destruct (dk_names d0 !! ca_path c); [eauto|done].
Qed.

Definition removed_report (l : list Candidate) (r : SweepReport) : SweepReport :=
  mkReport (sr_files_deleted r + zlen l) (sr_bytes_deleted r + total_size l) (sr_errors r).

(** The names [ps] are gone. *)
Definition without (ps : list Path) (d d' : Disk) : Prop :=
  quiet d' ∧ dk_dirs d' = dk_dirs d ∧ dk_data d' = dk_data d ∧
  ∀ q, dk_names d' !! q = if decide (q ∈ ps) then None else dk_names d !! q.

Definition listed (cs : list Candidate) (d : Disk) : Prop :=
  NoDup (map ca_path cs) ∧ (∀ c, c ∈ cs → is_Some (dk_names d !! ca_path c) ∧ 0 <= ca_size c).

Lemma listed_perm cs cs' d : cs ≡ₚ cs' → listed cs d → listed cs' d.
Proof. intros E [H1 H2]. split; [by rewrite <-E|]. intros c. rewrite <-E. apply H2. Qed.

Lemma listed_app cs cs' d : listed (cs ++ cs') d → listed cs d ∧ listed cs' d.
Proof.
  intros [H1 H2]. rewrite map_app in H1. apply NoDup_app in H1 as (Ha & _ & Hb).
  split; (split; [done|]); intros c Hc; apply H2, elem_of_app; auto.
Qed.

Lemma without_app ps ps' d d1 d2 : without ps d d1 → without ps' d1 d2 → without (ps ++ ps') d d2.
Proof.
  intros (? & ? & ? & Hn1) (? & ? & ? & Hn2). split_and!; [done|congruence|congruence|].
  intros q. rewrite Hn2, Hn1. destruct (decide (q ∈ ps')), (decide (q ∈ ps)), (decide (q ∈ ps ++ ps')) as [Hin|Hin];
    rewrite elem_of_app in Hin; tauto.
Qed.

Lemma without_listed ps cs d d' : without ps d d' → (∀ c, c ∈ cs → ca_path c ∉ ps) → listed cs d → listed cs d'.
Proof.
  intros (_ & _ & _ & H) Hno [H1 H2]. split; [done|]. intros c Hc. rewrite H, decide_False by auto. auto.
Qed.

Lemma try_unlink_quiet p r d : quiet d → is_Some (dk_names d !! p) → ∃ d', try_unlink p r d = (Removed, r, d') ∧ without [p] d d'.
Proof.
  intros Hq [h Hh]. unfold try_unlink, remove_file, syscall. pose proof (os_call_spec d) as Ho.
  destruct (os_call d) as [o d1]. destruct Ho as (E1&E2&E3&E4&?&Ho). specialize (Ho Hq). rewrite E2, Hh.
  assert (without [p] d (with_names (delete p (dk_names d)) d1)) as Hw.
  { split_and!; cbn; [by eapply (quiet_suffix d)|done|done|]. intros q.
    case_decide as Hin; rewrite elem_of_cons in Hin; setoid_rewrite elem_of_nil in Hin.
    - destruct Hin as [->|[]]. by rewrite lookup_delete_eq.
    - rewrite lookup_delete_ne; [done|]. intros ->. tauto. }
  destruct o; try done; eexists; (split; [reflexivity|]); done.
Qed.

Lemma total_size_app l k : total_size (l ++ k) = total_size l + total_size k.
Proof. unfold total_size. induction l as [|c l IH]; cbn; [done|]. rewrite IH. lia. Qed.

Lemma total_size_cons c l : total_size (c :: l) = ca_size c + total_size l.
Proof. done. Qed.

Lemma total_size_perm l k : l ≡ₚ k → total_size l = total_size k.
Proof. induction 1; rewrite ?total_size_cons; lia. Qed.

Lemma total_size_nonneg l : (∀ c, c ∈ l → 0 <= ca_size c) → 0 <= total_size l.
Proof.
  induction l as [|c l IH]; intros H; [done|]. rewrite total_size_cons. pose proof (H c ltac:(by left)).
  assert (0 <= total_size l) by (apply IH; intros c' Hc; apply H; by right). lia.
Qed.

Lemma age_sweep_quiet cutoff cs r d : quiet d → listed cs d →
  let aged := List.filter (λ c, ca_minute_key c <? cutoff) cs in
  ∃ d', age_sweep cutoff cs r d = (List.filter (λ c, cutoff <=? ca_minute_key c) cs, removed_report aged r, d') ∧ without (map ca_path aged) d d'.
Proof.
  revert r d. induction cs as [|c cs IH]; intros r d Hq Hl; cbn [age_sweep].
  { exists d. split; [|by split_and!]. cbn. unfold removed_report. destruct r; cbn. unfold zlen. cbn. by rewrite !Z.add_0_r. }
  pose proof Hl as [[Hnin Hnd]%NoDup_cons Hall]. assert (listed cs d) as Hl' by (split; [done|]; intros c' Hc'; apply Hall; by right).
  cbn [List.filter map]. destruct (Z.leb_spec cutoff (ca_minute_key c)) as [Hk|Hk].
  - rewrite (proj2 (Z.ltb_ge _ _)) by done. destruct (IH r d Hq Hl') as (d' & -> & Hw). exists d'. done.
  - rewrite (proj2 (Z.ltb_lt _ _)) by done. destruct (try_unlink_quiet (ca_path c) r d Hq) as (d1 & -> & Hw1); [by apply Hall; left|].
    destruct (IH (report_removed (ca_size c) r) d1) as (d' & -> & Hw); [apply Hw1| |].
    { eapply without_listed; [done| |done]. intros c' Hc'. rewrite list_elem_of_singleton. intros E. apply Hnin, list_elem_of_fmap. by exists c'. }
    exists d'. split; [|by eapply (without_app [ca_path c])]. f_equal. f_equal. unfold removed_report, report_removed. cbn [sr_files_deleted sr_bytes_deleted sr_errors]. rewrite zlen_cons_eq, total_size_cons. f_equal; lia.
Qed.

Lemma size_loop_quiet cap cs r d : quiet d → listed cs d → 0 <= cap →
  ∃ del keep d', cs = del ++ keep ∧ size_loop cap cs (total_size cs) r d = (removed_report del r, d') ∧ without (map ca_path del) d d' ∧
    total_size keep <= cap ∧ ∀ del' c, del = del' ++ [c] → cap < total_size (c :: keep).
Proof.
  intros Hq Hl Hcap. revert r d Hq Hl. induction cs as [|c cs IH]; intros r d Hq Hl; cbn [size_loop].
  { exists [], [], d. split; [done|]. split; [|split; [by split_and!|split; [done|by intros []]]].
    f_equal. unfold removed_report. destruct r; cbn. unfold zlen. cbn. by rewrite !Z.add_0_r. }
  pose proof Hl as [[Hnin Hnd]%NoDup_cons Hall]. assert (listed cs d) as Hl' by (split; [done|]; intros c' Hc'; apply Hall; by right).
  destruct (Z.leb_spec (total_size (c :: cs)) cap) as [Hle|Hgt].
  { exists [], (c :: cs), d. split; [done|]. split; [|split; [by split_and!|split; [done|by intros []]]].
    f_equal. unfold removed_report. destruct r; cbn. unfold zlen. cbn. by rewrite !Z.add_0_r. }
  destruct (try_unlink_quiet (ca_path c) r d Hq) as (d1 & -> & Hw1); [by apply Hall; left|].
  assert (sat_sub (total_size (c :: cs)) (ca_size c) = total_size cs) as ->.
  { rewrite total_size_cons. unfold sat_sub. pose proof (total_size_nonneg cs). assert (0 <= total_size cs) by (apply H; intros c' Hc'; apply Hall; by right). lia. }
  destruct (IH (report_removed (ca_size c) r) d1) as (del & keep & d' & -> & -> & Hw & Hfit & Hmin); [apply Hw1| |].
  { eapply without_listed; [done| |done]. intros c' Hc'. rewrite list_elem_of_singleton. intros E. apply Hnin, list_elem_of_fmap. by exists c'. }
  exists (c :: del), keep, d'. split; [done|]. split; [|split; [by eapply (without_app [ca_path c])|split; [done|]]].
  - f_equal. unfold removed_report, report_removed. cbn [sr_files_deleted sr_bytes_deleted sr_errors]. rewrite zlen_cons_eq, total_size_cons. f_equal; lia.
  - intros del' x E. destruct del' as [|y del']; cbn in E; injection E as <- E; [|by eapply Hmin]. subst del. exact Hgt.
Qed.

Lemma same_disk_without d d1 ps d' : same_disk d d1 → without ps d1 d' → without ps d d'.
Proof. intros (_ & E1 & E2 & E3) (Hq & E4 & E5 & Hn). split_and!; [done|congruence|congruence|]. intros q. by rewrite Hn, E2. Qed.

Lemma candidates_split cutoff cs :
  List.filter (λ c, ca_minute_key c <? cutoff) cs ++ List.filter (λ c, cutoff <=? ca_minute_key c) cs ≡ₚ cs.
Proof.
  induction cs as [|c cs IH]; [done|]. cbn. destruct (Z.ltb_spec (ca_minute_key c) cutoff).
  - rewrite (proj2 (Z.leb_gt _ _)) by done. cbn. by constructor.
  - rewrite (proj2 (Z.leb_le _ _)) by done. rewrite <-Permutation_middle. by constructor.
Qed.

(** The age phase, with or without a limit. *)
Lemma age_phase_quiet cfg now cs r d : quiet d → listed cs d →
  let cutoff := system_time_to_minute_key now - rc_max_age_hours cfg * 60 in
  ∃ aged rest d', (if 0 <? rc_max_age_hours cfg then age_sweep cutoff cs r d else (cs, r, d)) = (rest, removed_report aged r, d') ∧
    without (map ca_path aged) d d' ∧ cs ≡ₚ aged ++ rest ∧
    (∀ c, c ∈ aged → 0 < rc_max_age_hours cfg ∧ ca_minute_key c < cutoff) ∧
    (∀ c, c ∈ rest → 0 < rc_max_age_hours cfg → cutoff <= ca_minute_key c).
Proof.
  intros Hq Hl cutoff. destruct (Z.ltb_spec 0 (rc_max_age_hours cfg)).
  - destruct (age_sweep_quiet cutoff cs r d Hq Hl) as (d' & -> & Hw). eexists _, _, d'. split; [done|]. split; [done|].
    split; [by rewrite candidates_split|]. split; intros c (_ & Hc)%list_elem_of_In%List.filter_In; lia.
  - exists [], cs, d. split; [|split; [by split_and!|split; [done|split; [by intros c ?%not_elem_of_nil|lia]]]].
    unfold removed_report. destruct r; cbn. unfold zlen. cbn. by rewrite !Z.add_0_r.
Qed.

(** What a sweep does to the dump files older than the minute before the current
    one. *)
Lemma sweep_outcome dump_dir cfg now d : quiet d → tree_ok dump_dir d → 0 <= rc_max_size_mb cfg →
  let '(r, d') := run_sweep dump_dir cfg now d in
  let cutoff := system_time_to_minute_key now - rc_max_age_hours cfg * 60 in
  let cap := Z.min (rc_max_size_mb cfg * MIB) (2 ^ 64 - 1) in
  ∃ aged del keep,
    NoDup (map ca_path (aged ++ del ++ keep)) ∧
    (∀ c, c ∈ aged ++ del ++ keep ↔ dump_file dump_dir (system_time_to_minute_key now - 1) d c) ∧
    (∀ c, c ∈ aged → 0 < rc_max_age_hours cfg ∧ ca_minute_key c < cutoff) ∧
    (∀ c, c ∈ del ++ keep → 0 < rc_max_age_hours cfg → cutoff <= ca_minute_key c) ∧
    StronglySorted older (del ++ keep) ∧
    (rc_max_size_mb cfg = 0 → del = []) ∧
    (0 < rc_max_size_mb cfg → total_size keep <= cap ∧ ∀ del' c, del = del' ++ [c] → cap < total_size (c :: keep)) ∧
    r = removed_report (aged ++ del) report_default ∧
    dk_data d' = dk_data d ∧ dk_dirs d' = dk_dirs d ∧
    ∀ q, dk_names d' !! q = if decide (q ∈ map ca_path (aged ++ del)) then None else dk_names d !! q.
Proof.
  intros Hq Ht Hmb. unfold run_sweep. set (rcut := system_time_to_minute_key now - 1).
  destruct (read_dir_quiet dump_dir d Hq (tr_root _ _ Ht)) as (entries & d1 & -> & Hs1 & Hnd & Hent).
  destruct (walk_dirs_quiet dump_dir d rcut entries report_default [] d1 Ht Hs1) as (cs & d2 & -> & Hs2 & Hcs).
  destruct (Hcs Hnd) as [Hnodup Hmem]. cbn [app].
  assert (∀ c, c ∈ cs ↔ dump_file dump_dir rcut d c) as Hall.
  { intros c. rewrite Hmem. unfold dump_file. split; [naive_solver|]. intros (src & f & content & E1 & E2 & Hrest).
    exists src. split; [|eauto]. apply Hent. left. apply (tr_parent _ _ Ht _ f). rewrite <-E1. unfold file_at in E2.
    destruct (dk_names d !! ca_path c); [eauto|done]. }
  assert (listed cs d2) as Hl.
  { split; [done|]. intros c (src & f & content & _ & E2 & _ & _ & ->)%Hall. split; [|apply zlen_nonneg].
    destruct Hs2 as (_ & _ & -> & _). unfold file_at in E2. destruct (dk_names d !! ca_path c); [eauto|done]. }
  destruct (age_phase_quiet cfg now cs report_default d2 (proj1 Hs2) Hl) as (aged & rest & d3 & -> & Hw & Eperm & Haged & Hrest).
  apply (same_disk_without _ _ _ _ Hs2) in Hw. pose proof Hw as (Hq3 & _).
  assert (listed rest d3) as Hl3.
  { apply (listed_perm _ _ _ Eperm) in Hl. pose proof (proj1 Hl) as Hnd2. rewrite map_app in Hnd2. apply NoDup_app in Hnd2 as (_ & Hdisj & _).
    apply listed_app in Hl as [_ [Hl1 Hl2]]. split; [done|]. intros c Hc. destruct Hw as (_ & _ & _ & Hn). rewrite Hn, decide_False.
    - destruct (Hl2 c Hc) as [Hx ?]. split; [|done]. destruct Hs2 as (_ & _ & E & _). by rewrite <-E.
    - intros Hin. apply (Hdisj _ Hin). apply list_elem_of_fmap. by exists c. }
  set (sorted := merge_sort older rest). assert (sorted ≡ₚ rest) as Esort by apply merge_sort_Permutation.
  assert (StronglySorted older sorted) as Hsorted by apply (StronglySorted_merge_sort older).
  assert (∃ del keep d', sorted = del ++ keep ∧
    (if 0 <? rc_max_size_mb cfg then size_sweep (rc_max_size_mb cfg) rest (removed_report aged report_default) d3
     else (removed_report aged report_default, d3)) = (removed_report del (removed_report aged report_default), d') ∧
    without (map ca_path del) d3 d' ∧ (rc_max_size_mb cfg = 0 → del = []) ∧
    (0 < rc_max_size_mb cfg → total_size keep <= Z.min (rc_max_size_mb cfg * MIB) (2 ^ 64 - 1) ∧
      ∀ del' c, del = del' ++ [c] → Z.min (rc_max_size_mb cfg * MIB) (2 ^ 64 - 1) < total_size (c :: keep)))
    as (del & keep & d' & Edk & -> & Hw' & Hoff & Hon).
  { assert (∀ r, removed_report [] r = r) as Hnil by (intros []; unfold removed_report, zlen; cbn; by rewrite !Z.add_0_r).
    assert (without (map ca_path []) d3 d3) as Hw0 by by split_and!.
    destruct (Z.ltb_spec 0 (rc_max_size_mb cfg)) as [Hpos|Hneg]; cycle 1.
    { exists [], sorted, d3. rewrite Hnil. split_and!; [done..|lia]. }
    assert (0 <= Z.min (rc_max_size_mb cfg * MIB) (2 ^ 64 - 1)) as Hcap by (unfold MIB; lia).
    unfold size_sweep. rewrite <-(total_size_perm _ _ Esort). destruct (Z.ltb_spec (Z.min (rc_max_size_mb cfg * MIB) (2 ^ 64 - 1)) (total_size sorted)).
    - destruct (size_loop_quiet (Z.min (rc_max_size_mb cfg * MIB) (2 ^ 64 - 1)) sorted (removed_report aged report_default) d3)
        as (del & keep & d' & E & E2 & Hw2 & Hfit & Hmin); [done|by eapply listed_perm|done|].
      exists del, keep, d'. split_and!; [done..|lia|done].
    - exists [], sorted, d3. rewrite Hnil. split_and!; [done..|]. intros _. split; [done|by intros []]. }
  exists aged, del, keep. assert (aged ++ del ++ keep ≡ₚ cs) as Ecs by (rewrite Eperm, <-Esort, Edk; done).
  pose proof (without_app _ _ _ _ _ Hw Hw') as (_ & E1 & E2 & E3).
  split; [by rewrite Ecs|]. split; [intros c; rewrite Ecs; apply Hall|]. split; [done|].
  split; [intros c; rewrite <-Edk, Esort; apply Hrest|]. split; [by rewrite <-Edk|]. split; [done|]. split; [done|].
  split; [|by rewrite map_app]. unfold removed_report. cbn. rewrite zlen_app, total_size_app. done.
Qed.

(** The bytes of the files under a directory. *)
Definition file_len (d : Disk) (p : Path) : Z := match file_at p d with Some c => zlen c | None => 0 end.
Definition paths_under (dir : Path) (d : Disk) : list Path :=
  filter (λ p, dir `prefix_of` p) (map fst (map_to_list (dk_names d))).
Definition dir_usage (dir : Path) (d : Disk) : Z := sum_of (file_len d) (paths_under dir d).

(** Everything under the directory is a dump file older than the protected minutes. *)
Definition only_old_dumps (dump_dir : Path) (rcut : Z) (d : Disk) : Prop :=
  ∀ p, dump_dir `prefix_of` p → is_Some (dk_names d !! p) → ∃ c, ca_path c = p ∧ dump_file dump_dir rcut d c.

Lemma paths_under_elem dir d p : p ∈ paths_under dir d ↔ dir `prefix_of` p ∧ is_Some (dk_names d !! p).
Proof.
  unfold paths_under. rewrite list_elem_of_filter, list_elem_of_fmap. apply and_iff_compat_l. split.
  - intros ([q h] & -> & H%elem_of_map_to_list). by exists h.
  - intros [h Hh]. exists (p, h). split; [done|]. by apply elem_of_map_to_list.
Qed.

Lemma paths_under_nodup dir d : NoDup (paths_under dir d).
Proof. apply NoDup_filter, NoDup_fst_map_to_list. Qed.

Lemma dump_file_under dump_dir rcut d c : dump_file dump_dir rcut d c →
  dump_dir `prefix_of` ca_path c ∧ is_Some (dk_names d !! ca_path c) ∧ file_len d (ca_path c) = ca_size c.
Proof.
  intros (src & f & content & E & Hf & _ & _ & ->). split; [|split].
  - rewrite E. unfold join_path. rewrite <-app_assoc. by eexists.
  - unfold file_at in Hf. destruct (dk_names d !! ca_path c); [by eexists|done].
  - unfold file_len. by rewrite Hf.
Qed.

(** What is kept is all that is left under the directory. *)
Lemma usage_of_kept dump_dir rcut d d' gone keep :
  only_old_dumps dump_dir rcut d → NoDup (map ca_path (gone ++ keep)) →
  (∀ c, c ∈ gone ++ keep ↔ dump_file dump_dir rcut d c) → dk_data d' = dk_data d →
  (∀ q, dk_names d' !! q = if decide (q ∈ map ca_path gone) then None else dk_names d !! q) →
  dir_usage dump_dir d' = total_size keep.
Proof.
  intros Honly Hnd Hall Ed En. rewrite map_app in Hnd. apply NoDup_app in Hnd as (_ & Hdisj & Hndk).
  assert (Hfile : ∀ c, c ∈ keep → dk_names d' !! ca_path c = dk_names d !! ca_path c).
  { intros c Hc. rewrite En, decide_False; [done|]. intros Hg. apply (Hdisj _ Hg), list_elem_of_fmap. by exists c. }
  assert (Hk : ∀ c, c ∈ keep → dump_file dump_dir rcut d c) by (intros c Hc; apply Hall, elem_of_app; by right).
  assert (Hp : paths_under dump_dir d' ≡ₚ map ca_path keep).
  { apply NoDup_Permutation; [apply paths_under_nodup|done|]. intros p. rewrite paths_under_elem. split.
    - intros [Hp Hs]. rewrite En in Hs. destruct (decide (p ∈ map ca_path gone)) as [|Hg]; [by destruct Hs|].
      destruct (Honly p Hp Hs) as (c & <- & Hc%Hall). apply elem_of_app in Hc as [Hc|Hc].
      + destruct Hg. apply list_elem_of_fmap. by exists c.
      + apply list_elem_of_fmap. by exists c.
    - intros (c & -> & Hc)%list_elem_of_fmap. rewrite Hfile by done.
      by destruct (dump_file_under _ _ _ _ (Hk c Hc)) as (? & ? & _). }
  unfold dir_usage. rewrite (sum_of_perm _ _ _ Hp), sum_of_map. clear Hp Hndk Hdisj Hall.
  induction keep as [|c keep IH]; [done|]. rewrite total_size_cons, <-IH by (intros; (apply Hfile || apply Hk); by right).
  unfold sum_of. cbn [foldr]. f_equal. destruct (dump_file_under _ _ _ _ (Hk c ltac:(by left))) as (_ & _ & <-).
  unfold file_len, file_at, file_bytes. by rewrite Hfile, Ed by by left.
Qed.

(** C33: On a disk that works, a sweep deletes exactly what the configuration
    says, the current minute and the one before it left alone.  Of the dump files
    older than those, the ones past the age limit go; of the others, in the order
    of their minutes (then paths), the fewest of the oldest that bring the whole
    directory within the size limit, where a size limit is set and the directory
    holds nothing but such files.  Without a limit its rule deletes nothing.  The
    report counts the files and the bytes that went, and every other name stays. *)
Theorem sweep_exact dump_dir cfg now d : quiet d → tree_ok dump_dir d → 0 <= rc_max_size_mb cfg →
  (0 < rc_max_size_mb cfg → only_old_dumps dump_dir (system_time_to_minute_key now - 1) d) →
  let '(r, d') := run_sweep dump_dir cfg now d in
  let cutoff := system_time_to_minute_key now - rc_max_age_hours cfg * 60 in
  let cap := Z.min (rc_max_size_mb cfg * MIB) (2 ^ 64 - 1) in
  ∃ aged del keep,
    NoDup (map ca_path (aged ++ del ++ keep)) ∧
    (∀ c, c ∈ aged ++ del ++ keep ↔ dump_file dump_dir (system_time_to_minute_key now - 1) d c) ∧
    (∀ c, c ∈ aged → 0 < rc_max_age_hours cfg ∧ ca_minute_key c < cutoff) ∧
    (∀ c, c ∈ del ++ keep → 0 < rc_max_age_hours cfg → cutoff <= ca_minute_key c) ∧
    StronglySorted older (del ++ keep) ∧
    (rc_max_size_mb cfg = 0 → del = []) ∧
    (0 < rc_max_size_mb cfg → dir_usage dump_dir d' <= cap ∧
       ∀ del' c, del = del' ++ [c] → cap < ca_size c + dir_usage dump_dir d') ∧
    r = removed_report (aged ++ del) report_default ∧
    dk_data d' = dk_data d ∧ dk_dirs d' = dk_dirs d ∧
    ∀ q, dk_names d' !! q = if decide (q ∈ map ca_path (aged ++ del)) then None else dk_names d !! q.
Proof.
  intros Hq Ht Hmb Honly. pose proof (sweep_outcome dump_dir cfg now d Hq Ht Hmb) as H.
  destruct (run_sweep dump_dir cfg now d) as [r d'].
  destruct H as (aged & del & keep & Hnd & Hall & Ha & Hr & Hs & Hoff & Hon & Er & Ed & Edir & En).
  exists aged, del, keep. split_and!; try done. intros Hpos.
  rewrite (usage_of_kept dump_dir (system_time_to_minute_key now - 1) d d' (aged ++ del) keep);
    [by apply Hon|by apply Honly|by rewrite <-app_assoc|intros c; rewrite <-app_assoc; apply Hall|done|done].
Qed.

End Sweep.

(** ** A concrete listing *)

Definition children (p : Path) (d : Disk) : list text :=
  remove_dups (omap (λ q, if decide (q ≠ [] ∧ removelast q = p) then last q else None) (elements (dk_dirs d) ++ map fst (map_to_list (dk_names d)))).
#[local] Instance sample_dir : ReadDir := {| list_dir := children; dir_len := λ _, 4096 |}.
#[local] Instance sample_dir_laws : ReadDirLaws sample_dir.
Proof.
  split; [|intros; apply NoDup_remove_dups]. intros p d c. cbn. unfold children, child. rewrite elem_of_remove_dups, list_elem_of_omap.
  assert (∀ q, (if decide (q ≠ [] ∧ removelast q = p) then last q else None) = Some c ↔ q = join_path p c) as Hq.
  { intros q. unfold join_path. split.
    - case_decide as H; [|done]. destruct H as [Hne <-]. intros Hl. rewrite (app_removelast_last [] Hne) at 1. f_equal. f_equal.
      revert Hl. induction q as [|x q IH]; [done|]. destruct q as [|y q]; [by intros [= ->]|]. rewrite last_cons_cons. intros Hl. cbn. by apply IH.
    - intros ->. rewrite decide_True by (rewrite removelast_last; split; [by destruct p|done]). by rewrite last_snoc. }
  split.
  - intros (q & Hin & ->%Hq). apply elem_of_app in Hin as [Hin%elem_of_elements|Hin]; [by left|right].
    apply list_elem_of_fmap in Hin as ([q h] & -> & Hin%elem_of_map_to_list). eauto.
  - intros [Hd|[h Hh]]; exists (join_path p c); (split; [|by apply Hq]); apply elem_of_app; [left; by apply elem_of_elements|right].
    apply list_elem_of_fmap. exists (join_path p c, h). split; [done|]. by apply elem_of_map_to_list.
Qed.

(** Two dump files, one of a year ago, and a file of someone else's. *)
Definition swept_disk : Disk :=
  mkDisk (list_to_set [[]; [B "d"]; [B "d"; B "eth0"]])
    (list_to_map [([B "d"; B "eth0"; B "20250505T1330.pcap"], 0%nat); ([B "d"; B "eth0"; B "20260505T1325.pcap.snappy"], 1%nat);
                  ([B "d"; B "eth0"; B "notes.txt"], 2%nat)])
    (list_to_map [(0%nat, [x01; x02; x03]); (1%nat, [x04]); (2%nat, [x05])]) 3 [].
Definition swept_cfg : PcapDumpRetentionConfig := mkRetentionConfig true 3600 24 1.
(** 2026-05-05 13:30 UTC, in seconds. *)
Definition swept_now : Z := 29633130 * 60 + 12.

Lemma tree_ok_decide dump_dir dirs names data n os :
  bool_decide (dump_dir ∈ dirs) = true →
  bool_decide (Forall (λ q, removelast q ∈ dirs) (map fst (map_to_list names))) = true →
  forallb (λ q, match last q with Some f => bool_decide (parse_dump_filename f = None) | None => true end) (elements dirs) = true →
  tree_ok dump_dir (mkDisk dirs names data n os).
Proof.
  intros Hroot%bool_decide_eq_true Hparents%bool_decide_eq_true Hdirs. rewrite Forall_forall in Hparents.
  split; cbn [dk_names dk_dirs].
  - intros p f [h Hh]. specialize (Hparents (join_path p f)). unfold join_path in Hparents.
    rewrite removelast_last in Hparents. apply Hparents, list_elem_of_fmap. exists (p ++ [f], h).
    split; [done|]. by apply elem_of_map_to_list.
  - done.
  - intros src f k Hf Hin. rewrite forallb_forall in Hdirs.
    specialize (Hdirs (join_path (join_path dump_dir src) f)). unfold join_path in Hdirs at 3. rewrite last_snoc in Hdirs.
    rewrite Hf in Hdirs. discriminate Hdirs. by apply list_elem_of_In, elem_of_elements.
Qed.

Lemma swept_disk_tree : tree_ok [B "d"] swept_disk.
Proof. apply tree_ok_decide; vm_compute; reflexivity. Qed.

(** Two dump files of 600000 bytes each, and a limit of one MiB. *)
Definition big_file : list byte := replicate (Z.to_nat 600000) x00.
Definition big_path (minute : string) : Path := [B "d"; B "eth0"; B minute].
Definition full_disk : Disk :=
  mkDisk (list_to_set [[]; [B "d"]; [B "d"; B "eth0"]])
    (list_to_map [(big_path "20260505T1320.pcap", 0%nat); (big_path "20260505T1325.pcap", 1%nat)])
    (list_to_map [(0%nat, big_file); (1%nat, big_file)]) 2 [].
Definition full_cfg : PcapDumpRetentionConfig := mkRetentionConfig true 3600 0 1.

Lemma full_disk_tree : tree_ok [B "d"] full_disk.
Proof. apply tree_ok_decide; vm_compute; reflexivity. Qed.

Lemma zlen_big_file : zlen big_file = 600000.
Proof. unfold zlen, big_file. rewrite length_replicate. apply Z2Nat.id. lia. Qed.

#[local] Opaque big_file.

Lemma full_disk_files (p : Path) :
  is_Some (dk_names full_disk !! p) → ∃ minute k, p = big_path minute ∧ parse_dump_filename (B minute) = Some k ∧
    k < system_time_to_minute_key swept_now - 1 ∧ file_at p full_disk = Some big_file.
Proof.
  intros [h Hh]. unfold full_disk in Hh. cbn [dk_names] in Hh.
  apply elem_of_list_to_map_2 in Hh. rewrite !elem_of_cons, elem_of_nil in Hh.
  destruct Hh as [[= -> ->]|[[= -> ->]|[]]].
  - exists "20260505T1320.pcap"%string, 29633120. split_and!; [done|vm_compute; reflexivity|vm_compute; reflexivity|reflexivity].
  - exists "20260505T1325.pcap"%string, 29633125. split_and!; [done|vm_compute; reflexivity|vm_compute; reflexivity|reflexivity].
Qed.

Lemma full_disk_dumps : only_old_dumps [B "d"] (system_time_to_minute_key swept_now - 1) full_disk.
Proof.
  intros p _ (minute & k & -> & Hk & Hlt & Hf)%full_disk_files. exists (mkCandidate (big_path minute) k 600000).
  split; [done|]. exists (B "eth0"), (B minute), big_file. by rewrite zlen_big_file.
Qed.

Lemma full_disk_usage (d' : Disk) :
  dk_names d' = dk_names full_disk → dk_data d' = dk_data full_disk → dir_usage [B "d"] d' = 1200000.
Proof.
  intros En Ed.
  assert (Hp : ∃ p q, paths_under [B "d"] full_disk = [p; q]) by (vm_compute; eauto).
  assert (Hu : paths_under [B "d"] d' = paths_under [B "d"] full_disk) by (unfold paths_under; by rewrite En).
  destruct Hp as (p & q & Hp). unfold dir_usage. rewrite Hu, Hp.
  assert (Hl : ∀ x, x ∈ paths_under [B "d"] full_disk → file_len d' x = 600000).
  { intros x [_ (minute & k & -> & _ & _ & Hf)%full_disk_files]%paths_under_elem.
    unfold file_len. rewrite (same_file_at _ _ _ En Ed), Hf. apply zlen_big_file. }
  rewrite Hp in Hl. unfold sum_of. cbn [foldr]. rewrite (Hl p (list_elem_of_here _ _)), (Hl q (list_elem_of_further _ _ _ (list_elem_of_here _ _))). lia.
Qed.

(** The oldest file goes, since both are more than the limit. *)
Lemma sweep_exact_witness :
  let '(r, d') := run_sweep [B "d"] full_cfg swept_now full_disk in
  dir_usage [B "d"] d' <= 1048576 ∧ 0 < sr_files_deleted r ∧ sr_errors r = 0.
Proof.
  pose proof (sweep_exact [B "d"] full_cfg swept_now full_disk) as H.
  destruct (run_sweep [B "d"] full_cfg swept_now full_disk) as [r d'].
  destruct H as (aged & del & keep & _ & _ & _ & _ & _ & _ & Hsize & -> & Hd & _ & Hn).
  - by apply Forall_nil.
  - exact full_disk_tree.
  - cbn. lia.
  - intros _. exact full_disk_dumps.
  - destruct (Hsize ltac:(cbn; lia)) as [Hcap _]. unfold full_cfg, MIB in Hcap. cbn [rc_max_size_mb] in Hcap.
    rewrite Z.min_l in Hcap by lia.
    split; [lia|]. split; [|done]. cbn [removed_report report_default sr_files_deleted].
    destruct (aged ++ del) as [|c l]; [|unfold zlen; cbn; lia]. exfalso.
    assert (En : dk_names d' = dk_names full_disk).
    { apply map_eq. intros q. rewrite Hn. by rewrite decide_False by apply not_elem_of_nil. }
    rewrite (full_disk_usage d' En Hd) in Hcap. lia.
Defined.

Example swept_by_age :
  let '(r, d') := run_sweep [B "d"] swept_cfg swept_now swept_disk in
  r = mkReport 1 3 0 ∧
  file_at [B "d"; B "eth0"; B "20250505T1330.pcap"] d' = None ∧ file_at [B "d"; B "eth0"; B "notes.txt"] d' = Some [x05].
Proof. vm_compute. split; [|split]; reflexivity. Qed.

(** ** Where the code departs from its comments *)

#[local] Existing Instance stored_encoder.
#[local] Existing Instance sample_hash.

(** The race protection goes by the wall clock, but a file's minute is its
    packets': when an old capture is replayed the sweep deletes the file that is
    being written, and what was and will be written to it is lost. *)
Example sweep_deletes_an_open_file :
  match run_dump [OpPacket 0 (sample_pkt "eth0" 1000000 1 [x01])] (sample_dumper NoCompression) (sample_disk []) with
  | Ret (p, d) =>
      let '(r, d1) := run_sweep [B "d"] swept_cfg swept_now d in
      match run_dump [OpPacket 0 (sample_pkt "eth0" 2000000 1 [x02])] p d1 with
      | Ret (p2, d2) =>
          r = mkReport 1 0 0 ∧ file_at [B "d"; B "eth0"; B "19700101T0000.pcap"] (drop_dumper p2 d2) = None ∧
          pd_metrics p2 CaptureDumpErrors = 0
      | _ => False
      end
  | _ => False
  end.
Proof. vm_compute. split; [|split]; reflexivity. Qed.
