(* ===== verification/Heartbeat.v ===== *)
(** * The heartbeats of a source (h-capture/src/heartbeat.rs)

    The tracker that makes heartbeats out of the times of packets, source by
    source, for the sources that have no clock of their own. *)

From Stdlib Require Import Strings.Byte Strings.String ZArith Lia.
From stdpp Require Import base gmap sets list strings.
From S2P Require Import Prelude.
From S2P Require Import Net.

Open Scope Z_scope.

Definition HEARTBEAT_INTERVAL_US : Z := 1000000.
Definition SAFETY_MARGIN_US : Z := 10000.

Abbreviation HeartbeatTracker := (gmap string Z).
Definition tracker_new : HeartbeatTracker := ∅.

(** A slot is made for every source seen; zero is one that has no time yet. *)
Definition on_packet (t : HeartbeatTracker) (pkt : RawPacket) : option RawPacket * HeartbeatTracker :=
  let slot := default 0 (t !! raw_source pkt) in
  if is_heartbeat pkt then (None, <[raw_source pkt := if slot <? raw_ts pkt then raw_ts pkt else slot]> t)
  else if slot =? 0 then (None, <[raw_source pkt := raw_ts pkt]> t)
  else if raw_ts pkt - slot <? HEARTBEAT_INTERVAL_US then (None, <[raw_source pkt := slot]> t)
  else (Some (raw_heartbeat (raw_ts pkt) (raw_source pkt)), <[raw_source pkt := raw_ts pkt]> t).

(** Each packet with the heartbeat that goes before it. *)
Fixpoint track_all (t : HeartbeatTracker) (pkts : list RawPacket) : list (option RawPacket * RawPacket) * HeartbeatTracker :=
  match pkts with
  | [] => ([], t)
  | p :: pkts' =>
      let '(h, t1) := on_packet t p in
      let '(l, t2) := track_all t1 pkts' in
      ((h, p) :: l, t2)
  end.

(** ** When a heartbeat is made *)

(** The times a source is known to have reached: its first packet's, and its
    heartbeats'. *)
Definition mark_step (s : string) (ms : list Z) (hp : option RawPacket * RawPacket) : list Z :=
  let '(h, p) := hp in
  if bool_decide (raw_source p = s) && (is_heartbeat p || bool_decide (is_Some h) || bool_decide (ms = []))
  then raw_ts p :: ms else ms.
Definition marks (s : string) (l : list (option RawPacket * RawPacket)) : list Z := foldl (mark_step s) [] l.

(** The slot is the latest of the times. *)
Definition slot_ok (s : string) (ms : list Z) (t : HeartbeatTracker) : Prop :=
  match ms with
  | [] => t !! s = None
  | _ => ∃ z, t !! s = Some z ∧ z ∈ ms ∧ ∀ m, m ∈ ms → 0 < m <= z
  end.

(** What is made before a packet. *)
Definition paced (s : string) (ms : list Z) (h : option RawPacket) (p : RawPacket) : Prop :=
  (h = None ∨ h = Some (raw_heartbeat (raw_ts p) (raw_source p)) ∧ is_heartbeat p = false) ∧
  (raw_source p = s → is_heartbeat p = false → is_Some h ↔ ms ≠ [] ∧ ∀ m, m ∈ ms → m + HEARTBEAT_INTERVAL_US <= raw_ts p).

Lemma on_packet_paced s ms t p : slot_ok s ms t → (raw_source p = s → 0 < raw_ts p) →
  let '(h, t') := on_packet t p in paced s ms h p ∧ slot_ok s (mark_step s ms (h, p)) t'.
Proof.
  intros Hs Hts. unfold on_packet, mark_step. destruct (decide (raw_source p = s)) as [E|Hne]; cycle 1.
  { rewrite bool_decide_false by done. cbn [andb].
    assert (∀ z, slot_ok s ms (<[raw_source p := z]> t)) as Hother.
    { intros z. unfold slot_ok in *. destruct ms; cbn [slot_ok] in *; [by rewrite lookup_insert_ne|]. destruct Hs as (z' & ? & ?). exists z'. by rewrite lookup_insert_ne. }
    unfold paced. destruct (is_heartbeat p) eqn:Eh; [split; [split; [by left|done]|apply Hother]|].
    destruct (_ =? 0); [split; [split; [by left|done]|apply Hother]|].
    destruct (_ <? _); (split; [split; [|done]|apply Hother]); [by left|by right]. }
  rewrite bool_decide_true by done. specialize (Hts E). rewrite E. cbn [andb]. unfold paced, HEARTBEAT_INTERVAL_US.
  destruct ms as [|m0 ms].
  - cbn in Hs. rewrite Hs. cbn [default from_option id]. rewrite (proj2 (Z.ltb_lt 0 _)) by done.
    destruct (is_heartbeat p) eqn:Eh; cbn [orb].
    all: (split; [split; [by left|]|]; [first [discriminate | intros _ _; split; [by intros [? [=]]|by intros [? _]]]|]).
    + exists (raw_ts p). rewrite lookup_insert_eq. split_and!; [done|by left|]. intros m ->%list_elem_of_singleton. lia.
    + rewrite bool_decide_false by (by intros [? [=]]). cbn [orb]. rewrite bool_decide_true by done.
      exists (raw_ts p). rewrite lookup_insert_eq. split_and!; [done|by left|]. intros m ->%list_elem_of_singleton. lia.
  - destruct Hs as (z & Hz & Hin & Hmax). rewrite Hz. cbn [default from_option id]. pose proof (Hmax z Hin).
    destruct (is_heartbeat p) eqn:Eh; cbn [orb].
    { split; [split; [by left|discriminate]|]. destruct (Z.ltb_spec z (raw_ts p)).
      - exists (raw_ts p). rewrite lookup_insert_eq. split_and!; [done|by left|]. intros m [->|Hm]%elem_of_cons; [lia|]. specialize (Hmax m Hm). lia.
      - exists z. rewrite lookup_insert_eq. split_and!; [done|by right|]. intros m [->|Hm]%elem_of_cons; [lia|]. by apply Hmax. }
    rewrite (proj2 (Z.eqb_neq z 0)) by lia. destruct (Z.ltb_spec (raw_ts p - z) 1000000).
    + split; [split; [by left|]|].
      * intros _ _. split; [by intros [? [=]]|]. intros [_ Hall]. specialize (Hall z Hin). lia.
      * rewrite bool_decide_false by by intros [? [=]]. rewrite bool_decide_false by done. exists z. by rewrite lookup_insert_eq.
    + split; [split; [right; by rewrite E|]|].
      * intros _ _. split; [|intros _; by eexists]. intros _. split; [done|]. intros m Hm. specialize (Hmax m Hm). lia.
      * rewrite bool_decide_true by by eexists. cbn [orb]. exists (raw_ts p). rewrite lookup_insert_eq. split_and!; [done|by left|].
        intros m [->|Hm]%elem_of_cons; [lia|]. specialize (Hmax m Hm). lia.
Qed.

Lemma track_all_paced s ms t pkts : slot_ok s ms t → Forall (λ p, raw_source p = s → 0 < raw_ts p) pkts →
  ∀ pre h p post, (track_all t pkts).1 = pre ++ (h, p) :: post → paced s (foldl (mark_step s) ms pre) h p.
Proof.
  intros Hs Hall. revert ms t Hs. induction Hall as [|q pkts Hq Hall IH]; intros ms t Hs pre h p post; cbn [track_all]; [by destruct pre|].
  pose proof (on_packet_paced s ms t q Hs Hq) as Hp. destruct (on_packet t q) as [h1 t1]. destruct Hp as [Hp Hs1].
  destruct (track_all t1 pkts) as [l t2] eqn:E. cbn [fst]. destruct pre as [|x pre]; cbn [app]; intros [= Ex El].
  - by subst.
  - subst x. cbn [foldl]. eapply IH; [exact Hs1|]. rewrite E. exact El.
Qed.

Lemma track_all_packets t pkts : map snd (track_all t pkts).1 = pkts.
Proof.
  revert t. induction pkts as [|p pkts IH]; intros t; cbn [track_all]; [done|]. destruct (on_packet t p) as [h t1].
  specialize (IH t1). destruct (track_all t1 pkts) as [l t2]. cbn in *. by rewrite IH.
Qed.

(** The tracker forwards every packet, in order, and puts heartbeats before
    some: before a packet of a source exactly when every time the source is known
    to have reached is at least a second before the packet's.  So a source's time
    lags its packets by less than a second, and its own heartbeats are a second
    apart. *)
Theorem tracker_paces s pkts : Forall (λ p, raw_source p = s → 0 < raw_ts p) pkts →
  let l := (track_all tracker_new pkts).1 in
  map snd l = pkts ∧
  ∀ pre h p post, l = pre ++ (h, p) :: post →
    (h = None ∨ h = Some (raw_heartbeat (raw_ts p) (raw_source p)) ∧ is_heartbeat p = false) ∧
    (raw_source p = s → is_heartbeat p = false →
       is_Some h ↔ marks s pre ≠ [] ∧ ∀ m, m ∈ marks s pre → m + HEARTBEAT_INTERVAL_US <= raw_ts p).
Proof.
  intros Hall l. split; [apply track_all_packets|]. intros pre h p post E.
  exact (track_all_paced s [] tracker_new pkts eq_refl Hall pre h p post E).
Qed.

Lemma tracker_paces_witness :
  let pkt := λ t, mkRaw t 0 0 1 [] "a" None in
  (track_all tracker_new (map pkt [5; 1000004; 1000005; 2000000])).1 =
  [(None, pkt 5); (None, pkt 1000004)] ++ (Some (raw_heartbeat 1000005 "a"), pkt 1000005) :: [(None, pkt 2000000)] ∧
  marks "a" [(None, pkt 5); (None, pkt 1000004)] ≠ [].
Proof.
  intros pkt. assert ((track_all tracker_new (map pkt [5; 1000004; 1000005; 2000000])).1 =
    [(None, pkt 5); (None, pkt 1000004)] ++ (Some (raw_heartbeat 1000005 "a"), pkt 1000005) :: [(None, pkt 2000000)]) as E by (vm_compute; reflexivity).
  split; [exact E|].
  destruct (tracker_paces "a" (map pkt [5; 1000004; 1000005; 2000000])) as [_ H]; [repeat constructor|].
  destruct (H _ _ _ _ E) as [_ Hi]. destruct (Hi eq_refl eq_refl) as [Hi' _]. apply Hi'. eexists. reflexivity.
Defined.
