(* ===== verification/CloudProbe.v ===== *)
(** * Batches of a cloud probe (h-capture/src/cloud_probe.rs)

    The wire format of a batch of packets, and its parser. *)

From Stdlib Require Import Strings.Byte Strings.String ZArith Lia.
From stdpp Require Import base gmap sets list strings.
From S2P Require Import Prelude.
From S2P Require Import Net.
From S2P Require Import Decode.
From S2P Require Import Text.
From S2P Require Import Synth.

Open Scope Z_scope.

Definition BATCH_HDR_LEN : Z := 24.
Definition PKT_HDR_LEN : Z := 16.
Definition PKT_DATA_LEN_FIELD : Z := 2.

Inductive BatchError : Type := Truncated (needed have offset : Z).

(** [&bytes[o..o + n]]. *)
Definition slice_at (bytes : list byte) (o n : Z) : res (list byte) :=
  if (0 <=? o) && (o + n <=? zlen bytes) then Ret (field (Z.to_nat o) (Z.to_nat n) bytes) else Panic.
Definition read_u32_be (bytes : list byte) (offset : Z) : res Z :=
  let* l := slice_at bytes offset 4 in Ret (be_combine l).

(** [{:02x}]. *)
Definition hex02 (b : byte) : text := [digit_byte (byteZ b / 16); digit_byte (byteZ b mod 16)].
Definition format_uuid (bytes : list byte) : text :=
  let part := λ o n, concat (map hex02 (field o n bytes)) in
  part 0%nat 4%nat ++ B "-" ++ part 4%nat 2%nat ++ B "-" ++ part 6%nat 2%nat ++ B "-" ++ part 8%nat 2%nat ++ B "-" ++ part 10%nat 6%nat.

Fixpoint parse_packets (n : nat) (bytes : list byte) (offset : Z) : res (list RawPacket + BatchError) :=
  match n with
  | O => Ret (inl [])
  | S n' =>
      let total := zlen bytes in
      let record_header_len := PKT_DATA_LEN_FIELD + PKT_HDR_LEN in
      if total - offset <? record_header_len
      then Ret (inr (Truncated (record_header_len - (total - offset)) (total - offset) offset))
      else
        let* lenf := slice_at bytes offset 2 in
        let pkt_data_len := be_combine lenf in
        let offset := offset + PKT_DATA_LEN_FIELD in
        let* tv_sec := read_u32_be bytes offset in
        let* tv_usec := read_u32_be bytes (offset + 4) in
        let* cap := read_u32_be bytes (offset + 8) in
        let* wire := read_u32_be bytes (offset + 12) in
        let offset := offset + PKT_HDR_LEN in
        if total - offset <? pkt_data_len
        then Ret (inr (Truncated (pkt_data_len - (total - offset)) (total - offset) offset))
        else
          let* data := slice_at bytes offset pkt_data_len in
          let* r := parse_packets n' bytes (offset + pkt_data_len) in
          Ret match r with
              | inl out => inl (mkRaw (tv_sec * 1000000 + tv_usec) cap wire LINKTYPE_ETHERNET data "" None :: out)
              | inr e => inr e
              end
  end.

Definition parse_batch (bytes : list byte) : res (text * list RawPacket + BatchError) :=
  let total := zlen bytes in
  if total <? BATCH_HDR_LEN then Ret (inr (Truncated (BATCH_HDR_LEN - total) total 0))
  else
    let* uuid := slice_at bytes 8 16 in
    let* num := slice_at bytes 2 2 in
    let* r := parse_packets (Z.to_nat (be_combine num)) bytes BATCH_HDR_LEN in
    Ret match r with inl out => inl (format_uuid uuid, out) | inr e => inr e end.

(** ** The format *)

(** A record on the wire, and the packet it stands for. *)
Record ProbeRecord : Type := mkProbe { pb_sec : Z; pb_usec : Z; pb_caplen : Z; pb_wirelen : Z; pb_data : list byte }.
Definition probe_ok (r : ProbeRecord) : Prop :=
  0 <= pb_sec r < 2 ^ 32 ∧ 0 <= pb_usec r < 2 ^ 32 ∧ 0 <= pb_caplen r < 2 ^ 32 ∧ 0 <= pb_wirelen r < 2 ^ 32 ∧ zlen (pb_data r) < 2 ^ 16.
Definition probe_bytes (r : ProbeRecord) : list byte :=
  be_bytes 2 (zlen (pb_data r)) ++ be_bytes 4 (pb_sec r) ++ be_bytes 4 (pb_usec r) ++ be_bytes 4 (pb_caplen r) ++ be_bytes 4 (pb_wirelen r) ++ pb_data r.
Definition probe_packet (r : ProbeRecord) : RawPacket :=
  mkRaw (pb_sec r * 1000000 + pb_usec r) (pb_caplen r) (pb_wirelen r) LINKTYPE_ETHERNET (pb_data r) "" None.
(** A batch: four bytes and four more that are not read, around the number of
    packets; the probe's identity; the packets. *)
Definition batch_bytes (version rest4 uuid : list byte) (rs : list ProbeRecord) : list byte :=
  version ++ be_bytes 2 (zlen rs) ++ rest4 ++ uuid ++ concat (map probe_bytes rs).

(** ** The parser reads the format *)

Lemma be_bytes_be_combine l : be_bytes (length l) (be_combine l) = l.
Proof.
  unfold be_combine. induction l as [|b l IH] using rev_ind; [done|]. rewrite length_app, be_combine_acc_app. cbn [length be_combine_acc].
  replace (length l + 1)%nat with (S (length l)) by lia. cbn [be_bytes]. pose proof (byteZ_range b).
  replace ((be_combine_acc 0 l * 256 + byteZ b) / 256) with (be_combine_acc 0 l) by (rewrite Z.div_add_l by lia; rewrite (Z.div_small (byteZ b)) by lia; lia).
  rewrite IH. f_equal. f_equal. rewrite <-(Zbyte_byteZ b) at 2. apply byteZ_inj. rewrite !byteZ_Zbyte.
  by rewrite Z.add_comm, Z_mod_plus_full.
Qed.

Lemma length_field o n (l : list byte) : (o + n <= length l)%nat → length (field o n l) = n.
Proof. intros H. unfold field. rewrite length_take, length_drop. lia. Qed.

Lemma field_split o n (l : list byte) : drop o l = field o n l ++ drop (o + n) l.
Proof. unfold field. rewrite <-drop_drop. symmetry. apply take_drop. Qed.

Lemma be_field n o (l : list byte) : (o + n <= length l)%nat → be_bytes n (be_combine (field o n l)) = field o n l.
Proof. intros H. rewrite <-(length_field o n l H) at 1. apply be_bytes_be_combine. Qed.

Lemma slice_at_ok bytes o n : 0 <= o → 0 <= n → o + n <= zlen bytes →
  slice_at bytes o n = Ret (field (Z.to_nat o) (Z.to_nat n) bytes).
Proof. intros H1 H2 H3. unfold slice_at. by rewrite (proj2 (Z.leb_le 0 o)), (proj2 (Z.leb_le _ _)) by lia. Qed.

(** The record at an offset, and what follows it. *)
Definition record_at (o : nat) (bytes : list byte) : ProbeRecord :=
  mkProbe (be_combine (field (o + 2) 4 bytes)) (be_combine (field (o + 6) 4 bytes)) (be_combine (field (o + 10) 4 bytes))
    (be_combine (field (o + 14) 4 bytes)) (field (o + 18) (Z.to_nat (be_combine (field o 2 bytes))) bytes).

Lemma record_at_bytes o bytes : (o + 18 + Z.to_nat (be_combine (field o 2 bytes)) <= length bytes)%nat →
  let n := Z.to_nat (be_combine (field o 2 bytes)) in
  probe_ok (record_at o bytes) ∧ zlen (pb_data (record_at o bytes)) = be_combine (field o 2 bytes) ∧
  drop o bytes = probe_bytes (record_at o bytes) ++ drop (o + 18 + n) bytes.
Proof.
  intros Hle n. pose proof (λ k m, field_bound bytes k m) as Hb.
  assert (zlen (pb_data (record_at o bytes)) = be_combine (field o 2 bytes)) as Hl.
  { unfold zlen. cbn [record_at pb_data]. rewrite length_field by lia. pose proof (Hb o 2%nat). lia. }
  split; [|split; [done|]].
  - pose proof (Hb o 2%nat). split_and!; rewrite ?Hl; cbn [record_at pb_sec pb_usec pb_caplen pb_wirelen]; try apply (Hb _ 4%nat). apply H.
  - unfold probe_bytes. rewrite Hl. cbn [record_at pb_sec pb_usec pb_caplen pb_wirelen pb_data]. rewrite !be_field by lia.
    rewrite (field_split o 2), (field_split (o + 2) 4), (field_split (o + 2 + 4) 4), (field_split (o + 2 + 4 + 4) 4), (field_split (o + 2 + 4 + 4 + 4) 4), (field_split (o + 2 + 4 + 4 + 4 + 4) n).
    rewrite <-!app_assoc. replace (o + 2 + 4)%nat with (o + 6)%nat by lia. replace (o + 6 + 4)%nat with (o + 10)%nat by lia.
    replace (o + 10 + 4)%nat with (o + 14)%nat by lia. replace (o + 14 + 4)%nat with (o + 18)%nat by lia. done.
Qed.

(** A record laid out at an offset is the record there. *)
Lemma record_at_unique o bytes r rest : probe_ok r → drop o bytes = probe_bytes r ++ rest →
  record_at o bytes = r ∧ be_combine (field o 2 bytes) = zlen (pb_data r) ∧
  (o + 18 + length (pb_data r) <= length bytes)%nat ∧ rest = drop (o + 18 + length (pb_data r)) bytes.
Proof.
  intros (H1 & H2 & H3 & H4 & H5) E. pose proof (zlen_nonneg (pb_data r)) as Hz.
  assert (∀ k m, field (o + k) m bytes = field k m (probe_bytes r ++ rest)) as Hf by (intros k m; unfold field; by rewrite <-drop_drop, E).
  assert (length (drop o bytes) = length (probe_bytes r ++ rest)) as Hlen by by rewrite E.
  unfold probe_bytes in Hf, Hlen. rewrite length_drop, !length_app, !length_be_bytes in Hlen.
  assert (field o 2 bytes = be_bytes 2 (zlen (pb_data r))) as Hf0.
  { rewrite <-(Nat.add_0_r o), Hf, <-app_assoc. by apply field_app_here. }
  assert (be_combine (field o 2 bytes) = zlen (pb_data r)) as E0 by (rewrite Hf0; apply be_combine_be_bytes; done).
  assert (∀ k (p q : list byte), length p = k → field k 4 (p ++ q) = field 0 4 q) as Hskip.
  { intros k p q Hp. rewrite field_app_skip by lia. by rewrite Hp, Nat.sub_diag. }
  split; [|split; [done|split; [lia|]]].
  - unfold record_at. rewrite E0. destruct r as [sec usec cap wire data]. cbn [pb_sec pb_usec pb_caplen pb_wirelen pb_data] in *. f_equal.
    + rewrite Hf, <-app_assoc, Hskip, <-app_assoc, field_app_here by by rewrite ?length_be_bytes. by apply be_combine_be_bytes.
    + rewrite Hf. rewrite <-!app_assoc, app_assoc, Hskip, field_app_here by by rewrite ?length_app, ?length_be_bytes. by apply be_combine_be_bytes.
    + rewrite Hf. rewrite <-!app_assoc, app_assoc, (app_assoc (_ ++ _)), Hskip, field_app_here by by rewrite ?length_app, ?length_be_bytes. by apply be_combine_be_bytes.
    + rewrite Hf. rewrite <-!app_assoc, app_assoc, (app_assoc (_ ++ _)), (app_assoc ((_ ++ _) ++ _)), Hskip, field_app_here by by rewrite ?length_app, ?length_be_bytes.
      by apply be_combine_be_bytes.
    + rewrite Hf. rewrite <-!app_assoc, app_assoc, (app_assoc (_ ++ _)), (app_assoc ((_ ++ _) ++ _)), (app_assoc (((_ ++ _) ++ _) ++ _)).
      rewrite field_app_skip by by rewrite !length_app, !length_be_bytes. rewrite !length_app, !length_be_bytes.
      unfold zlen. rewrite Nat2Z.id. by apply field_app_here.
  - rewrite <-drop_drop, <-drop_drop, E. symmetry. rewrite drop_drop. apply drop_app_length'. unfold probe_bytes. rewrite !length_app, !length_be_bytes. lia.
Qed.

(** What is left at an offset is [n] records and more. *)
Definition holds_records (n : nat) (l : list byte) (rs : list ProbeRecord) : Prop :=
  length rs = n ∧ Forall probe_ok rs ∧ ∃ trail, l = concat (map probe_bytes rs) ++ trail.

(** Fewer than [n] records are complete in [l]; of the one that follows them [part]
    is there of its head, or of the data that its head announces, and [needed]
    bytes are missing. *)
Definition short_in (n : nat) (l part : list byte) (needed : Z) : Prop :=
  ∃ rs rest, l = concat (map probe_bytes rs) ++ rest ∧ Forall probe_ok rs ∧ (length rs < n)%nat ∧
    (part = rest ∧ needed = 18 - zlen rest ∨
     ∃ head, rest = head ++ part ∧ length head = 18%nat ∧ needed = be_combine (take 2 head) - zlen part).

Lemma short_in_cons n l part needed r rest : probe_ok r → l = probe_bytes r ++ rest → short_in n rest part needed → short_in (S n) l part needed.
Proof.
  intros Hr -> (rs & rest' & -> & Hok & Hl & H). exists (r :: rs), rest'. split; [|split; [by apply Forall_cons|split; [cbn; lia|done]]].
  cbn [map concat]. by rewrite <-app_assoc.
Qed.

Lemma parse_packets_spec n bytes offset : 0 <= offset <= zlen bytes →
  ∃ r, parse_packets n bytes offset = Ret r ∧
    match r with
    | inl out => ∃ rs, holds_records n (drop (Z.to_nat offset) bytes) rs ∧ out = map probe_packet rs
    | inr (Truncated needed have o) =>
        0 < needed ∧ have = zlen bytes - o ∧ offset <= o <= zlen bytes ∧ short_in n (drop (Z.to_nat offset) bytes) (drop (Z.to_nat o) bytes) needed ∧
        ∀ rs, ¬ holds_records n (drop (Z.to_nat offset) bytes) rs
    end.
Proof.
  revert offset. induction n as [|n IH]; intros offset Ho; cbn [parse_packets].
  { eexists. split; [done|]. exists []. split; [|done]. split_and!; [done|done|by eexists]. }
  set (o := Z.to_nat offset). pose proof (field_bound bytes o 2) as Hb.
  assert (∀ rs, holds_records (S n) (drop o bytes) rs → ∃ r rs', rs = r :: rs' ∧ probe_ok r ∧
    holds_records n (drop (o + 18 + length (pb_data r)) bytes) rs' ∧ be_combine (field o 2 bytes) = zlen (pb_data r) ∧
    (o + 18 + length (pb_data r) <= length bytes)%nat ∧ record_at o bytes = r) as Hinv.
  { intros [|r rs] (Hl & Hok & trail & E); [done|]. apply Forall_cons in Hok as [Hr Hok]. cbn [map concat] in E. rewrite <-app_assoc in E.
    destruct (record_at_unique _ _ _ _ Hr E) as (E1 & E2 & Hle & E3). exists r, rs. split_and!; [done|done| |done|done|done].
    split_and!; [by injection Hl|done|]. exists trail. by rewrite <-E3. }
  unfold PKT_DATA_LEN_FIELD, PKT_HDR_LEN. destruct (Z.ltb_spec (zlen bytes - offset) (2 + 16)) as [Hs|Hs].
  { eexists. split; [done|]. split_and!; [lia|done|lia|lia| |intros rs (r & rs' & _ & _ & _ & _ & Hle & _)%Hinv; unfold zlen in *; lia].
    exists [], (drop o bytes). split_and!; [done|done|cbn; lia|]. left. split; [done|]. unfold zlen in *. rewrite length_drop. lia. }
  unfold read_u32_be. rewrite !slice_at_ok by lia. cbn [res_bind].
  replace (Z.to_nat (offset + 2)) with (o + 2)%nat by lia. replace (Z.to_nat (offset + 2 + 4)) with (o + 6)%nat by lia.
  replace (Z.to_nat (offset + 2 + 8)) with (o + 10)%nat by lia. replace (Z.to_nat (offset + 2 + 12)) with (o + 14)%nat by lia.
  change (Z.to_nat 2) with 2%nat. change (Z.to_nat 4) with 4%nat. fold o. set (len := be_combine (field o 2 bytes)) in *.
  destruct (Z.ltb_spec (zlen bytes - (offset + 2 + 16)) len) as [Hd|Hd].
  { eexists. split; [done|]. split_and!; [lia|done|lia|lia| |intros rs (r & rs' & _ & _ & _ & Hlen & Hle & _)%Hinv; unfold zlen in *; lia].
    exists [], (drop o bytes). split_and!; [done|done|cbn; lia|]. right. exists (field o 18 bytes). unfold zlen in *.
    replace (Z.to_nat (offset + 2 + 16)) with (o + 18)%nat by lia. split; [apply field_split|]. split; [apply length_field; lia|].
    rewrite length_drop. replace (take 2 (field o 18 bytes)) with (field o 2 bytes) by (unfold field; by rewrite take_take). fold len. lia. }
  rewrite slice_at_ok by lia. cbn [res_bind]. destruct (IH (offset + 2 + 16 + len) ltac:(lia)) as (q & -> & Hq). cbn [res_bind]. eexists. split; [done|].
  replace (Z.to_nat (offset + 2 + 16 + len)) with (o + 18 + Z.to_nat len)%nat in Hq by lia.
  destruct (record_at_bytes o bytes) as (Hok & Hzl & E); [unfold zlen in *; fold len; lia|]. fold len in E, Hzl.
  destruct q as [out|[needed have o']].
  - destruct Hq as (rs & (Hl & Hall & trail & Et) & ->). exists (record_at o bytes :: rs). split.
    + split_and!; [cbn; by rewrite Hl|by apply Forall_cons|]. exists trail. cbn [map concat]. by rewrite <-app_assoc, <-Et.
    + cbn [map]. f_equal. unfold probe_packet. cbn [record_at pb_sec pb_usec pb_caplen pb_wirelen pb_data].
      by replace (Z.to_nat (offset + 2 + 16)) with (o + 18)%nat by lia.
  - destruct Hq as (? & ? & ? & Hsh & Hno). split_and!; [done|done|lia|lia|by eapply short_in_cons|]. intros rs (r & rs' & _ & _ & Hrs & Hlen & _ & _)%Hinv.
    apply (Hno rs'). fold len in Hlen. rewrite Hlen. unfold zlen. by rewrite Nat2Z.id.
Qed.

(** A payload laid out as a batch, perhaps with more behind it. *)
Definition is_batch (bytes uuid : list byte) (rs : list ProbeRecord) : Prop :=
  ∃ version rest4 trail, bytes = batch_bytes version rest4 uuid rs ++ trail ∧
    length version = 2%nat ∧ length rest4 = 4%nat ∧ length uuid = 16%nat ∧ zlen rs < 2 ^ 16 ∧ Forall probe_ok rs.

Lemma is_batch_fields bytes uuid rs : is_batch bytes uuid rs →
  24 <= zlen bytes ∧ field 8 16 bytes = uuid ∧ be_combine (field 2 2 bytes) = zlen rs ∧ holds_records (length rs) (drop 24 bytes) rs.
Proof.
  intros (ver & r4 & trail & -> & Hv & Hr & Hu & Hn & Hok). unfold batch_bytes.
  assert (length (be_bytes 2 (zlen rs)) = 2%nat) as H2 by apply length_be_bytes. set (nf := be_bytes 2 (zlen rs)) in *.
  split_and!.
  - unfold zlen. rewrite !length_app. lia.
  - rewrite <-!app_assoc, field_app_skip, field_app_skip, field_app_skip by lia. rewrite Hv, H2, Hr. by apply field_app_here.
  - rewrite <-!app_assoc, field_app_skip by lia. rewrite Hv. rewrite field_app_here by done. apply be_combine_be_bytes. pose proof (zlen_nonneg rs). done.
  - split_and!; [done|done|]. exists trail.
    replace ((ver ++ nf ++ r4 ++ uuid ++ concat (map probe_bytes rs)) ++ trail)
      with ((ver ++ nf ++ r4 ++ uuid) ++ concat (map probe_bytes rs) ++ trail) by (by rewrite <-!app_assoc).
    apply drop_app_length'. rewrite !length_app. lia.
Qed.

(** No payload makes the parser panic. *)
Lemma parse_batch_returns bytes : ∃ r, parse_batch bytes = Ret r.
Proof.
  unfold parse_batch, BATCH_HDR_LEN. pose proof (zlen_nonneg bytes). destruct (Z.ltb_spec (zlen bytes) 24) as [Hs|Hs]; [by eexists|].
  rewrite !slice_at_ok by lia. cbn [res_bind].
  destruct (parse_packets_spec (Z.to_nat (be_combine (field (Z.to_nat 2) (Z.to_nat 2) bytes))) bytes 24 ltac:(lia)) as (r & -> & _).
  cbn [res_bind]. by eexists.
Qed.

(** The payload ends [needed] bytes too early at [o]: in its own header, or in one of
    the records that the header announces. *)
Definition short_at (bytes : list byte) (o needed : Z) : Prop :=
  o = 0 ∧ needed = 24 - zlen bytes ∨
  24 <= o ∧ short_in (Z.to_nat (be_combine (field 2 2 bytes))) (drop 24 bytes) (drop (Z.to_nat o) bytes) needed.

(** C37: A payload is read without panicking.  It is accepted exactly when it is laid
    out as a batch, whatever its version, its other metadata and whatever follows
    the announced records, and then the records' packets are what is delivered, in
    their order.  Otherwise the error is the offset at which the header, the first
    incomplete record's head or that record's data begins, the bytes that are there
    and exactly how many are missing of it. *)
Theorem parse_batch_exact bytes :
  ∃ r, parse_batch bytes = Ret r ∧
    match r with
    | inl (_, pkts) => ∃ uuid rs, is_batch bytes uuid rs ∧ pkts = map probe_packet rs
    | inr (Truncated needed have o) =>
        0 < needed ∧ have = zlen bytes - o ∧ 0 <= o <= zlen bytes ∧ short_at bytes o needed ∧ ∀ uuid rs, ¬ is_batch bytes uuid rs
    end.
Proof.
  unfold parse_batch, BATCH_HDR_LEN. pose proof (zlen_nonneg bytes). destruct (Z.ltb_spec (zlen bytes) 24) as [Hs|Hs].
  { eexists. split; [done|]. split_and!; [lia|lia|lia|lia|by left|]. intros uuid rs [Hl _]%is_batch_fields. lia. }
  rewrite !slice_at_ok by lia. cbn [res_bind]. change (Z.to_nat 8) with 8%nat. change (Z.to_nat 16) with 16%nat. change (Z.to_nat 2) with 2%nat.
  pose proof (field_bound bytes 2 2) as Hb.
  destruct (parse_packets_spec (Z.to_nat (be_combine (field 2 2 bytes))) bytes 24 ltac:(lia)) as (r & -> & Hr). cbn [res_bind]. eexists. split; [done|].
  change (Z.to_nat 24) with 24%nat in Hr. unfold zlen in Hs. destruct r as [out|[needed have o]].
  - destruct Hr as (rs & (Hl & Hok & trail & E) & ->). exists (field 8 16 bytes), rs. split; [|done].
    exists (field 0 2 bytes), (field 4 4 bytes), trail. split_and!; [|apply length_field; lia..|unfold zlen; lia|done].
    unfold batch_bytes. assert (zlen rs = be_combine (field 2 2 bytes)) as -> by (unfold zlen; lia). rewrite be_field by lia.
    rewrite <-!app_assoc, <-E. rewrite <-(drop_0 bytes) at 1.
    by rewrite (field_split 0 2), (field_split (0 + 2) 2), (field_split (0 + 2 + 2) 4), (field_split (0 + 2 + 2 + 4) 16).
  - destruct Hr as (? & ? & ? & ? & Hno). split_and!; [done|done|lia|lia|by right; split; [lia|]|]. intros uuid rs (_ & _ & E & Hh)%is_batch_fields.
    apply (Hno rs). replace (Z.to_nat (be_combine (field 2 2 bytes))) with (length rs) by (rewrite E; unfold zlen; lia). done.
Qed.

Example sample_batch :
  parse_batch (batch_bytes [x00; x01] [x00; x00; x00; x00] (replicate 15 x00 ++ [xab]) [mkProbe 7 9 2 60 [x01; x02]] ++ [xff]) =
  Ret (inl (B "00000000-0000-0000-0000-0000000000ab", [mkRaw 7000009 2 60 1 [x01; x02] "" None])).
Proof. reflexivity. Qed.
