(* ===== verification/CaptureLoops.v ===== *)
(** * The loops of the packet sources (h-capture/src/)

    What the cloud probe's, the live interface's and the pcap file's loops send,
    count and hand to the dumper (cloud_probe.rs, pcap_live.rs, pcap_file.rs).
    A loop is driven by what it receives; sleeping and logging are left out. *)

From Stdlib Require Import Strings.Byte Strings.String ZArith Lia Sorting.Sorted.
From stdpp Require Import base gmap sets list strings.
From S2P Require Import Prelude.
From S2P Require Import Net.
From S2P Require Import Decode.
From S2P Require Import Text.
From S2P Require Import Counters.
From S2P Require Import Heartbeat.
From S2P Require Import CloudProbe.

Open Scope Z_scope.

(** ** What a source does *)

(** The calls on the dumper, which answer nothing. *)
Inductive DumpCall : Type := DWrite (pkt : RawPacket) | DFlush.

(** What was sent, how many more packets the other side takes before it is gone,
    the calls on the dumper if there is one, and the counters. *)
Record Out : Type := mkOut { o_sent : list RawPacket; o_room : nat; o_dump : option (list DumpCall); o_metrics : counters }.

Definition out_new (room : nat) (dump : bool) : Out := mkOut [] room (if dump then Some [] else None) counters_zero.
Definition out_send (p : RawPacket) (o : Out) : bool * Out :=
  match o_room o with
  | O => (false, o)
  | S r => (true, mkOut (o_sent o ++ [p]) r (o_dump o) (o_metrics o))
  end.
Definition out_dump (c : DumpCall) (o : Out) : Out := mkOut (o_sent o) (o_room o) ((λ l, l ++ [c]) <$> o_dump o) (o_metrics o).
Definition out_add (m : Metric) (v : Z) (o : Out) : Out := mkOut (o_sent o) (o_room o) (o_dump o) (add_counter m v (o_metrics o)).
Definition out_inc (m : Metric) (o : Out) : Out := out_add m 1 o.

(** ** The cloud probe *)

Inductive ProbeInput : Type := PCancelled | PMessage (frames : list (list byte)) | PRecvError.
Definition flatten_message (frames : list (list byte)) : list byte := concat frames.

Definition from_uuid (uuid : text) (p : RawPacket) : RawPacket :=
  mkRaw (raw_ts p) (caplen p) (wirelen p) (raw_link_type p) (raw_data p) (String.string_of_list_byte uuid) (raw_process p).

Definition forward_heartbeat (hb : option RawPacket) (o : Out) : bool * Out :=
  match hb with
  | None => (true, o)
  | Some h =>
      let '(ok, o) := out_send h o in
      if ok then (true, out_dump DFlush (out_inc CaptureHeartbeatsEmitted o)) else (false, out_dump DFlush o)
  end.
Definition forward_packet (pkt : RawPacket) (o : Out) : bool * Out :=
  let o := out_dump (DWrite pkt) o in
  let '(ok, o) := out_send pkt o in
  if negb ok then (false, out_dump DFlush o)
  else if is_heartbeat pkt then (true, out_dump DFlush (out_inc CaptureHeartbeatsEmitted o))
  else
    let o := out_inc CapturePacketsReceived o in
    (true, if caplen pkt <? wirelen pkt then out_inc CaptureTruncatedPackets o else o).

Fixpoint probe_packets (uuid : text) (pkts : list RawPacket) (t : HeartbeatTracker) (o : Out) : bool * HeartbeatTracker * Out :=
  match pkts with
  | [] => (true, t, o)
  | p :: pkts' =>
      let pkt := from_uuid uuid p in
      let '(hb, t) := on_packet t pkt in
      let '(go, o) := forward_heartbeat hb o in
      if negb go then (false, t, o)
      else
        let '(go, o) := forward_packet pkt o in
        if negb go then (false, t, o) else probe_packets uuid pkts' t o
  end.

Definition probe_message (frames : list (list byte)) (t : HeartbeatTracker) (o : Out) : res (bool * HeartbeatTracker * Out) :=
  let* r := parse_batch (flatten_message frames) in
  Ret match r with
      | inl (uuid, pkts) => probe_packets uuid pkts t (out_inc CaptureBatchesReceived o)
      | inr _ => (true, t, out_inc CaptureZmqBatchesDropped o)
      end.

Fixpoint probe_run (ins : list ProbeInput) (t : HeartbeatTracker) (o : Out) : res Out :=
  match ins with
  | [] => Ret o
  | PCancelled :: _ => Ret (out_dump DFlush o)
  | PRecvError :: ins' => probe_run ins' t (out_inc CaptureReadErrors o)
  | PMessage frames :: ins' =>
      let* x := probe_message frames t o in
      let '(go, t, o) := x in
      if go then probe_run ins' t o else Ret o
  end.

(** ** A live interface *)

Record CapPacket : Type := mkCap { cp_sec : Z; cp_usec : Z; cp_caplen : Z; cp_len : Z; cp_data : list byte }.
Definition cap_ts (p : CapPacket) : Z := cp_sec p * 1000000 + cp_usec p.
Definition cap_raw (source_id : string) (link_type ts : Z) (p : CapPacket) : RawPacket :=
  mkRaw ts (cp_caplen p) (cp_len p) link_type (cp_data p) source_id None.

(** What [next_packet] gives: with a timeout, the count of dropped packets if the
    capture has one, whether the source is to stop, and the time. *)
Inductive LiveInput : Type :=
| LCancelled
| LPacket (p : CapPacket)
| LBreak
| LTimeout (dropped : option Z) (stop : bool) (wall_us : Z)
| LReadError.

Record Live : Type := mkLive { lv_last_dropped : Z; lv_last_hb : Z; lv_out : Out }.
Definition live_new (o : Out) : Live := mkLive 0 0 o.
Definition live_out (f : Out → Out) (l : Live) : Live := mkLive (lv_last_dropped l) (lv_last_hb l) (f (lv_out l)).

Definition update_drop_stats (dropped : option Z) (l : Live) : Live :=
  match dropped with
  | Some d => if lv_last_dropped l <? d
              then mkLive d (lv_last_hb l) (out_add CaptureKernelPacketsDropped (d - lv_last_dropped l) (lv_out l)) else l
  | None => l
  end.

(** A heartbeat at a time, which becomes the last one. *)
Definition live_heartbeat (source_id : string) (ts : Z) (l : Live) : bool * Live :=
  let '(ok, o) := out_send (raw_heartbeat ts source_id) (lv_out l) in
  if ok then (true, mkLive (lv_last_dropped l) ts (out_dump DFlush (out_inc CaptureHeartbeatsEmitted o)))
  else (false, mkLive (lv_last_dropped l) (lv_last_hb l) o).

Definition live_packet (source_id : string) (link_type : Z) (p : CapPacket) (l : Live) : bool * Live :=
  let raw := cap_raw source_id link_type (cap_ts p) p in
  let '(go, l) :=
    if lv_last_hb l =? 0 then (true, mkLive (lv_last_dropped l) (raw_ts raw) (lv_out l))
    else if HEARTBEAT_INTERVAL_US <=? raw_ts raw - lv_last_hb l then live_heartbeat source_id (raw_ts raw) l
    else (true, l) in
  if negb go then (false, l)
  else
    let '(ok, o) := out_send raw (out_dump (DWrite raw) (lv_out l)) in
    if negb ok then (false, mkLive (lv_last_dropped l) (lv_last_hb l) o)
    else
      let o := out_inc CapturePacketsReceived o in
      (true, mkLive (lv_last_dropped l) (lv_last_hb l) (if cp_caplen p <? cp_len p then out_inc CaptureTruncatedPackets o else o)).

Definition live_timeout (source_id : string) (dropped : option Z) (stop : bool) (wall_us : Z) (l : Live) : bool * Live :=
  let l := update_drop_stats dropped l in
  if stop then (false, l)
  else if (0 <? lv_last_hb l) && (HEARTBEAT_INTERVAL_US <=? wall_us - lv_last_hb l)
  then live_heartbeat source_id (Z.max (wall_us - SAFETY_MARGIN_US) (lv_last_hb l + 1)) l
  else (true, l).

Definition live_step (source_id : string) (link_type : Z) (l : Live) (i : LiveInput) : bool * Live :=
  match i with
  | LCancelled | LBreak => (false, l)
  | LPacket p => live_packet source_id link_type p l
  | LTimeout dropped stop wall => live_timeout source_id dropped stop wall l
  | LReadError => (true, live_out (out_inc CaptureReadErrors) l)
  end.
Fixpoint live_loop (source_id : string) (link_type : Z) (l : Live) (ins : list LiveInput) : Live :=
  match ins with
  | [] => l
  | i :: ins' => let '(go, l) := live_step source_id link_type l i in if go then live_loop source_id link_type l ins' else l
  end.
(** The loop, then the last look at the statistics and the flush. *)
Definition live_run (source_id : string) (link_type : Z) (o : Out) (ins : list LiveInput) (dropped : option Z) : Out :=
  out_dump DFlush (lv_out (update_drop_stats dropped (live_loop source_id link_type (live_new o) ins))).

(** ** A pcap file *)

Definition LOOP_GAP_US : Z := 300000000.
Definition sat_i64 (z : Z) : Z := Z.max (- 2 ^ 63) (Z.min (2 ^ 63 - 1) z).

Record FileSource : Type := mkFile { f_source_id : string; f_loop_count : Z; f_loop_secs : Z }.
Definition with_loop (source_id : string) (loop_count loop_secs : Z) : FileSource := mkFile source_id (Z.max loop_count 1) loop_secs.
Definition looping (f : FileSource) : bool := (0 <? f_loop_secs f) || (1 <? f_loop_count f).

(** A pass: the file as it is opened, if it is, its packets, whether reading ends
    with an error, and the seconds since the start when it is over; the run is
    cancelled before the packet of this number, if ever. *)
Record Pass : Type := mkPass { ps_file : option (Z * list CapPacket); ps_error : bool; ps_elapsed_secs : Z; ps_cancel : option nat }.

Definition pass_source_id (f : FileSource) (iter : Z) : string :=
  if looping f then (f_source_id f ++ "-" ++ String.string_of_list_byte (to_radix 10 iter))%string else f_source_id f.

Definition pass_offset (iter min_ts max_ts : Z) : Z :=
  if (iter =? 0) || (max_ts <? min_ts) then 0 else sat_i64 ((max_ts - min_ts + LOOP_GAP_US) * iter).

Inductive PassEnd : Type := PassDone | PassStopped | PassFailed.

Fixpoint file_packets (sid : string) (link_type iter offset : Z) (pkts : list CapPacket) (error : bool) (cancel : option nat)
    (mm : Z * Z) (o : Out) : PassEnd * (Z * Z) * Out :=
  match cancel with
  | Some O => (PassStopped, mm, o)
  | _ =>
      match pkts with
      | [] => (if error then PassFailed else PassDone, mm, o)
      | p :: pkts' =>
          let raw_t := cap_ts p in
          let mm := if iter =? 0 then (Z.min mm.1 raw_t, Z.max mm.2 raw_t) else mm in
          let raw := cap_raw sid link_type (sat_i64 (raw_t + offset)) p in
          let '(ok, o) := out_send raw (out_dump (DWrite raw) o) in
          if negb ok then (PassStopped, mm, o)
          else
            let o := out_inc CapturePacketsReceived o in
            let o := if cp_caplen p <? cp_len p then out_inc CaptureTruncatedPackets o else o in
            file_packets sid link_type iter offset pkts' error (pred <$> cancel) mm o
      end
  end.

(** The passes: [None] is an error, which leaves the dumper unflushed. *)
Fixpoint file_passes (f : FileSource) (passes : list Pass) (iter : Z) (mm : Z * Z) (o : Out) : option Out :=
  match passes with
  | [] => Some o
  | p :: passes' =>
      let sid := pass_source_id f iter in
      let offset := pass_offset iter mm.1 mm.2 in
      match ps_file p with
      | None => None
      | Some (link_type, pkts) =>
          let '(e, mm, o) := file_packets sid link_type iter offset pkts (ps_error p) (ps_cancel p) mm o in
          match e with
          | PassFailed => None
          | PassStopped => Some (out_dump DFlush o)
          | PassDone =>
              let iter := iter + 1 in
              let over := if 0 <? f_loop_secs f then f_loop_secs f <=? ps_elapsed_secs p else f_loop_count f <=? iter in
              if over then Some (out_dump DFlush o) else file_passes f passes' iter mm o
          end
      end
  end.
Definition file_run (f : FileSource) (o : Out) (passes : list Pass) : option Out := file_passes f passes 0 (2 ^ 63 - 1, - 2 ^ 63) o.

(** ** The cloud probe forwards what it accepts *)

(** The packets that a batch delivers, and those of the messages up to the
    cancellation. *)
Definition batch_packets (frames : list (list byte)) : option (list RawPacket) :=
  match parse_batch (flatten_message frames) with Ret (inl (uuid, pkts)) => Some (map (from_uuid uuid) pkts) | _ => None end.
Fixpoint messages (ins : list ProbeInput) : list (list (list byte)) :=
  match ins with [] | PCancelled :: _ => [] | PRecvError :: ins' => messages ins' | PMessage f :: ins' => f :: messages ins' end.
Fixpoint recv_errors (ins : list ProbeInput) : Z :=
  match ins with [] | PCancelled :: _ => 0 | PRecvError :: ins' => 1 + recv_errors ins' | PMessage _ :: ins' => recv_errors ins' end.

(** Packets with the heartbeats that go before them. *)
Definition in_line (l : list (option RawPacket * RawPacket)) : list RawPacket :=
  concat (map (λ hp, match hp.1 with Some h => [h; hp.2] | None => [hp.2] end) l).
Definition written (d : list DumpCall) : list RawPacket := omap (λ c, match c with DWrite p => Some p | DFlush => None end) d.
Definition of_kind (hb : bool) (l : list RawPacket) : Z := zlen (List.filter (λ p, Bool.eqb (is_heartbeat p) hb) l).

Lemma of_kind_app hb l k : of_kind hb (l ++ k) = of_kind hb l + of_kind hb k.
Proof. unfold of_kind. by rewrite List.filter_app, zlen_app. Qed.
Lemma of_kind_one hb p : of_kind hb [p] = if Bool.eqb (is_heartbeat p) hb then 1 else 0.
Proof. unfold of_kind. cbn. by destruct (Bool.eqb _ _). Qed.
Lemma in_line_app l k : in_line (l ++ k) = in_line l ++ in_line k.
Proof. unfold in_line. by rewrite map_app, concat_app. Qed.
Lemma written_app l k : written (l ++ k) = written l ++ written k.
Proof. apply omap_app. Qed.

(** What a stretch of the loop adds: the packets [l], up to the room there is;
    when there is room for all, what was written and counted. *)
Definition forwards (o o' : Out) (go : bool) (l writes : list RawPacket) : Prop :=
  o_sent o' = o_sent o ++ take (o_room o) l ∧ (go = true ↔ (length l <= o_room o)%nat) ∧
  (go = true →
     o_room o' = (o_room o - length l)%nat ∧
     (∀ d, o_dump o = Some d → ∃ d', o_dump o' = Some (d ++ d') ∧ written d' = writes) ∧
     o_metrics o' CaptureHeartbeatsEmitted = o_metrics o CaptureHeartbeatsEmitted + of_kind true l ∧
     o_metrics o' CapturePacketsReceived = o_metrics o CapturePacketsReceived + of_kind false l ∧
     ∀ m, m ≠ CaptureHeartbeatsEmitted → m ≠ CapturePacketsReceived → m ≠ CaptureTruncatedPackets → o_metrics o' m = o_metrics o m).

Lemma forwards_none o : forwards o o true [] [].
Proof.
  split; [by rewrite firstn_nil, app_nil_r|]. split; [split; [cbn; lia|done]|]. intros _. 
  change (of_kind true []) with 0. change (of_kind false []) with 0. split_and!; [cbn; lia| |lia|lia|done].
  intros d Hd. exists []. by rewrite app_nil_r.
Qed.

Lemma forwards_app o1 o2 o3 go l1 l2 w1 w2 : forwards o1 o2 true l1 w1 → forwards o2 o3 go l2 w2 → forwards o1 o3 go (l1 ++ l2) (w1 ++ w2).
Proof.
  intros (A1 & A2 & A3) (B1 & B2 & B3). destruct (A3 eq_refl) as (A4 & A5 & A6 & A7 & A8). assert (length l1 <= o_room o1)%nat as Hle by by apply A2. split_and!.
  - rewrite B1, A1, A4, <-app_assoc. f_equal. rewrite take_app_ge by done. by rewrite (firstn_all2 l1).
  - rewrite B2, A4, length_app. lia.
  - intros Hgo. destruct (B3 Hgo) as (B4 & B5 & B6 & B7 & B8). rewrite B4, B6, B7, A4, A6, A7, !of_kind_app, length_app. split_and!; [lia| |lia|lia|intros m ? ? ?; by rewrite B8, A8].
    intros d Hd. destruct (A5 d Hd) as (d1 & H1 & <-). destruct (B5 _ H1) as (d2 & H2 & <-). exists (d1 ++ d2). by rewrite app_assoc, written_app.
Qed.

Lemma forwards_stop o1 o2 o3 l1 l2 w1 w : forwards o1 o2 false l1 w1 → o_sent o3 = o_sent o2 → forwards o1 o3 false (l1 ++ l2) w.
Proof.
  intros (A1 & A2 & _) Hs. assert (o_room o1 < length l1)%nat as Hlt by (destruct (decide (length l1 <= o_room o1)%nat) as [Hle|]; [apply A2 in Hle; discriminate|lia]).
  split_and!; [rewrite Hs, A1; by rewrite take_app_le by lia|rewrite length_app; split; [done|lia]|done].
Qed.

Lemma forward_heartbeat_spec hb o : (∀ h, hb = Some h → is_heartbeat h = true) →
  let '(go, o') := forward_heartbeat hb o in forwards o o' go match hb with Some h => [h] | None => [] end [].
Proof.
  intros Hh. unfold forward_heartbeat. destruct hb as [h|]; [|apply forwards_none]. unfold out_send. destruct (o_room o) as [|r] eqn:Er.
  - split_and!; cbn [out_dump o_sent length]; [rewrite Er; by rewrite app_nil_r|split; [done|lia]|done].
  - split_and!; cbn [out_dump out_inc out_add o_sent o_room o_dump o_metrics length]; [rewrite Er; cbn; by rewrite firstn_nil|split; [lia|done]|].
    intros _. rewrite !of_kind_one, (Hh h eq_refl). split_and!; [lia| |by rewrite add_counter_eq|by rewrite add_counter_ne, Z.add_0_r by discriminate|intros m ? ? ?; by rewrite add_counter_ne].
    intros d ->. exists [DFlush]. done.
Qed.

Lemma forward_packet_spec pkt o : let '(go, o') := forward_packet pkt o in forwards o o' go [pkt] [pkt].
Proof.
  unfold forward_packet, out_send. cbn [out_dump o_room o_sent o_dump o_metrics]. destruct (o_room o) as [|r] eqn:Er; cbn [negb].
  - split_and!; cbn [out_dump o_sent length]; [rewrite Er; by rewrite app_nil_r|split; [done|lia]|done].
  - destruct (is_heartbeat pkt) eqn:Eh.
    + split_and!; cbn [out_dump out_inc out_add o_sent o_room o_dump o_metrics length]; [rewrite Er; cbn; by rewrite firstn_nil|split; [lia|done]|].
      intros _. rewrite !of_kind_one, Eh. split_and!; [lia| |by rewrite add_counter_eq|by rewrite add_counter_ne, Z.add_0_r by discriminate|intros m ? ? ?; by rewrite add_counter_ne].
      intros d ->. exists [DWrite pkt; DFlush]. cbn. by rewrite <-app_assoc.
    + destruct (_ <? _); (split_and!; cbn [out_dump out_inc out_add o_sent o_room o_dump o_metrics length]; [rewrite Er; cbn; by rewrite firstn_nil|split; [lia|done]|]);
        intros _; rewrite !of_kind_one, Eh; (split_and!; [lia| |by rewrite !add_counter_ne, Z.add_0_r by discriminate|rewrite ?(add_counter_ne CaptureTruncatedPackets) by discriminate; by rewrite add_counter_eq|intros m ? ? ?; by rewrite !add_counter_ne]);
        intros d ->; exists [DWrite pkt]; done.
Qed.

Lemma on_packet_heartbeat t p h : (on_packet t p).1 = Some h → is_heartbeat h = true.
Proof.
  unfold on_packet. destruct (is_heartbeat p); [done|]. destruct (_ =? 0); [done|]. destruct (_ <? _); [done|]. cbn. intros [= <-]. apply heartbeat_is_heartbeat.
Qed.

Lemma probe_packets_spec uuid pkts : ∀ t o,
  let ps := map (from_uuid uuid) pkts in
  let '(go, t', o') := probe_packets uuid pkts t o in
  forwards o o' go (in_line (track_all t ps).1) ps ∧ (go = true → t' = (track_all t ps).2).
Proof.
  induction pkts as [|p pkts IH]; intros t o; cbn [map probe_packets track_all]; [split; [apply forwards_none|done]|].
  set (pkt := from_uuid uuid p). pose proof (on_packet_heartbeat t pkt) as Hhb. destruct (on_packet t pkt) as [hb t1]. cbn [fst] in Hhb.
  assert (in_line [(hb, pkt)] = match hb with Some h => [h] | None => [] end ++ [pkt]) as Eone by by destruct hb.
  pose proof (forward_heartbeat_spec hb o Hhb) as H1. destruct (forward_heartbeat hb o) as [go1 o1].
  specialize (IH t1). cbv zeta in IH. destruct (track_all t1 (map (from_uuid uuid) pkts)) as [l t2]. cbn [fst snd] in *.
  change ((hb, pkt) :: l) with ([(hb, pkt)] ++ l). rewrite in_line_app, Eone. destruct go1; cbn [negb]; cycle 1.
  { split; [|done]. rewrite <-app_assoc. by eapply forwards_stop. }
  pose proof (forward_packet_spec pkt o1) as H2. destruct (forward_packet pkt o1) as [go2 o2]. pose proof (forwards_app _ _ _ _ _ _ _ _ H1 H2) as H12.
  destruct go2; cbn [negb]; cycle 1. { split; [|done]. exact (forwards_stop _ _ _ _ _ _ _ H12 eq_refl). }
  specialize (IH o2). destruct (probe_packets uuid pkts t1 o2) as [[go t'] o']. destruct IH as [IH1 IH2]. split; [|done].
  exact (forwards_app _ _ _ _ _ _ _ _ H12 IH1).
Qed.

Lemma track_all_app t l k : track_all t (l ++ k) =
  ((track_all t l).1 ++ (track_all (track_all t l).2 k).1, (track_all (track_all t l).2 k).2).
Proof.
  revert t; induction l as [|p l IH]; intros t; cbn [app track_all fst snd]; [by destruct (track_all t k)|]. destruct (on_packet t p) as [h t1].
  rewrite IH. by destruct (track_all t1 l).
Qed.

(** Everything in one line: the accepted packets, each with the heartbeat that
    goes before it. *)
Definition accepted (ins : list ProbeInput) : list RawPacket := concat (omap batch_packets (messages ins)).
Definition rejected (ins : list ProbeInput) : Z := zlen (messages ins) - zlen (omap batch_packets (messages ins)).

Lemma batch_packets_parse frames : ∃ r, parse_batch (flatten_message frames) = Ret r ∧
  batch_packets frames = match r with inl (uuid, pkts) => Some (map (from_uuid uuid) pkts) | inr _ => None end.
Proof. destruct (parse_batch_returns (flatten_message frames)) as (r & E). exists r. split; [done|]. unfold batch_packets. rewrite E. by destruct r as [[? ?]|]. Qed.

Lemma probe_run_spec ins : ∀ t o,
  let line := in_line (track_all t (accepted ins)).1 in
  ∃ o', probe_run ins t o = Ret o' ∧ o_sent o' = o_sent o ++ take (o_room o) line ∧
    ((length line <= o_room o)%nat →
       (∀ d, o_dump o = Some d → ∃ d', o_dump o' = Some (d ++ d') ∧ written d' = accepted ins) ∧
       o_metrics o' CaptureHeartbeatsEmitted = o_metrics o CaptureHeartbeatsEmitted + of_kind true line ∧
       o_metrics o' CapturePacketsReceived = o_metrics o CapturePacketsReceived + of_kind false line ∧
       o_metrics o' CaptureBatchesReceived = o_metrics o CaptureBatchesReceived + zlen (omap batch_packets (messages ins)) ∧
       o_metrics o' CaptureZmqBatchesDropped = o_metrics o CaptureZmqBatchesDropped + rejected ins ∧
       o_metrics o' CaptureReadErrors = o_metrics o CaptureReadErrors + recv_errors ins).
Proof.
  assert (∀ (o : Out) d, o_dump o = Some d → ∃ d', o_dump o = Some (d ++ d') ∧ written d' = []) as Hd0.
  { intros o d Hd. exists []. by rewrite app_nil_r. }
  induction ins as [|[|frames|] ins IH]; intros t o line; unfold line, accepted, rejected; cbn [probe_run messages recv_errors omap list_omap concat].
  - exists o. cbn. rewrite firstn_nil, app_nil_r, !Z.add_0_r. split_and!; try done. intros _. split_and!; try done. by apply Hd0.
  - exists (out_dump DFlush o). cbn [track_all fst in_line map concat out_dump o_sent o_metrics]. rewrite firstn_nil, app_nil_r.
    change (of_kind true []) with 0. change (of_kind false []) with 0. change (zlen (@nil (list RawPacket))) with 0. change (zlen (@nil (list (list byte)))) with 0.
    rewrite !Z.add_0_r. split_and!; try done. intros _. split_and!; try done. intros d Hd. exists [DFlush]. cbn. by rewrite Hd.
  - destruct (batch_packets_parse frames) as (r & Er & Hb). unfold probe_message. rewrite Er, Hb. cbn [res_bind]. destruct r as [[uuid pkts]|e]; cycle 1.
    { cbn [res_bind]. destruct (IH t (out_inc CaptureZmqBatchesDropped o)) as (o' & -> & H1 & H2). exists o'. split; [done|]. split; [exact H1|]. intros Hle.
      destruct (H2 Hle) as (D & M1 & M2 & M3 & M4 & M5). unfold accepted, rejected in *. cbn [out_inc out_add o_metrics o_dump] in *.
      split; [exact D|]. rewrite M1, M2, M3, M4, M5, zlen_cons_eq. simpl_counters. split_and!; lia. }
    cbn [concat]. rewrite track_all_app. cbn [fst]. rewrite in_line_app.
    pose proof (probe_packets_spec uuid pkts t (out_inc CaptureBatchesReceived o)) as Hp. cbv zeta in Hp.
    destruct (probe_packets uuid pkts t (out_inc CaptureBatchesReceived o)) as [[go t'] o1]. destruct Hp as [Hf Ht]. cbn [res_bind].
    set (l1 := in_line (track_all t (map (from_uuid uuid) pkts)).1) in *. destruct Hf as (F1 & F2 & F3). cbn [out_inc out_add o_sent o_room o_dump o_metrics] in F1, F2, F3.
    destruct go; cycle 1.
    { assert (o_room o < length l1)%nat as Hlt by (destruct (decide (length l1 <= o_room o)%nat) as [Hle|]; [apply F2 in Hle; discriminate|lia]).
      exists o1. split; [done|]. split; [rewrite F1; by rewrite take_app_le by lia|]. rewrite length_app. lia. }
    assert (length l1 <= o_room o)%nat as Hle by by apply F2. rewrite (Ht eq_refl). destruct (F3 eq_refl) as (F4 & F5 & F6 & F7 & F8).
    destruct (IH (track_all t (map (from_uuid uuid) pkts)).2 o1) as (o' & -> & H1 & H2). exists o'. split; [done|]. fold (accepted ins). split.
    + rewrite H1, F1, F4, <-app_assoc. f_equal. rewrite take_app_ge by done. by rewrite (firstn_all2 l1).
    + rewrite length_app. intros Hl. destruct H2 as (D & M1 & M2 & M3 & M4 & M5); [lia|]. rewrite M1, M2, M3, M4, M5, F6, F7, !F8, !of_kind_app, !zlen_cons_eq by discriminate.
      unfold rejected in *. simpl_counters. split_and!; try lia.
      intros d Hd. destruct (F5 d Hd) as (d1 & E1 & W1). destruct (D _ E1) as (d2 & E2 & W2). exists (d1 ++ d2). by rewrite app_assoc, written_app, W1, W2.
  - destruct (IH t (out_inc CaptureReadErrors o)) as (o' & -> & H1 & H2). exists o'. split; [done|]. split; [exact H1|]. intros Hle.
    destruct (H2 Hle) as (D & M1 & M2 & M3 & M4 & M5). cbn [out_inc out_add o_metrics o_dump] in *. split; [exact D|].
    rewrite M1, M2, M3, M4, M5. unfold rejected. fold (accepted ins). simpl_counters. split_and!; lia.
Qed.

(** The cloud probe's loop returns, whatever it receives.  What it sends is the
    packets of the batches it accepts, in order, with the tracker's heartbeats in
    between, until the other side is gone; while it is not, every accepted packet
    is handed to the dumper, and every message, packet and error is counted. *)
Theorem probe_run_forwards ins room dump :
  let line := in_line (track_all tracker_new (accepted ins)).1 in
  ∃ o', probe_run ins tracker_new (out_new room dump) = Ret o' ∧ o_sent o' = take room line ∧
    ((length line <= room)%nat →
       (dump = true → ∃ d, o_dump o' = Some d ∧ written d = accepted ins) ∧
       o_metrics o' CaptureHeartbeatsEmitted = of_kind true line ∧ o_metrics o' CapturePacketsReceived = of_kind false line ∧
       o_metrics o' CaptureBatchesReceived = zlen (omap batch_packets (messages ins)) ∧
       o_metrics o' CaptureZmqBatchesDropped = rejected ins ∧ o_metrics o' CaptureReadErrors = recv_errors ins).
Proof.
  destruct (probe_run_spec ins tracker_new (out_new room dump)) as (o' & E & H1 & H2). exists o'. split; [done|]. split; [exact H1|].
  intros Hle. destruct (H2 Hle) as (D & M). split; [|exact M]. intros ->. destruct (D [] eq_refl) as (d & Hd & W). by exists d.
Qed.

(** ** A live interface's clock *)

Definition hb_times (l : list RawPacket) : list Z := map raw_ts (List.filter is_heartbeat l).

(** The heartbeats' times increase, and a packet is never a second or more after
    the last of them, or after the first packet. *)
Definition clocked (s : list RawPacket) : Prop :=
  StronglySorted Z.lt (hb_times s) ∧
  ∀ pre p post, s = pre ++ p :: post → is_heartbeat p = false →
    ∃ m, (m ∈ hb_times pre ∨ ∃ q, head s = Some q ∧ m = raw_ts q) ∧ raw_ts p < m + HEARTBEAT_INTERVAL_US.

Definition live_ok (l : Live) : Prop :=
  clocked (o_sent (lv_out l)) ∧ 0 <= lv_last_hb l ∧ Forall (λ t, t <= lv_last_hb l) (hb_times (o_sent (lv_out l))) ∧
  if lv_last_hb l =? 0 then o_sent (lv_out l) = []
  else lv_last_hb l ∈ hb_times (o_sent (lv_out l)) ∨ ∃ q, head (o_sent (lv_out l)) = Some q ∧ lv_last_hb l = raw_ts q.

Lemma hb_times_app l k : hb_times (l ++ k) = hb_times l ++ hb_times k.
Proof. unfold hb_times. by rewrite List.filter_app, map_app. Qed.

Lemma clocked_snoc_hb s t sid : clocked s → s ≠ [] → Forall (λ u, u < t) (hb_times s) → clocked (s ++ [raw_heartbeat t sid]).
Proof.
  intros [H1 H2] Hne Hall. split.
  - rewrite hb_times_app. unfold hb_times at 2. cbn [List.filter]. rewrite heartbeat_is_heartbeat. cbn [map raw_heartbeat raw_ts].
    clear -H1 Hall. induction H1 as [|u l Hs IH Hu]; cbn; [constructor; constructor|]. apply Forall_cons in Hall as [Hut Hall]. constructor; [by apply IH|].
    apply Forall_app. split; [done|by constructor].
  - intros pre p post E Hp. destruct post as [|x post _] using rev_ind.
    + apply app_inj_tail in E as [_ <-]. by rewrite heartbeat_is_heartbeat in Hp.
    + rewrite app_comm_cons, app_assoc in E. apply app_inj_tail in E as [E _]. destruct (H2 pre p post E Hp) as (m & [Hm|(q & Hq & ->)] & Hlt).
      * exists m. split; [by left|done].
      * exists (raw_ts q). split; [|done]. right. exists q. split; [|done]. by destruct s.
Qed.

Lemma clocked_snoc_packet s p m : clocked s → (m ∈ hb_times s ∨ ∃ q, head (s ++ [p]) = Some q ∧ m = raw_ts q) → raw_ts p < m + HEARTBEAT_INTERVAL_US →
  is_heartbeat p = false → clocked (s ++ [p]).
Proof.
  intros [H1 H2] Hm Hlt Hp. split.
  - rewrite hb_times_app. unfold hb_times at 2. cbn [List.filter]. rewrite Hp. cbn. by rewrite app_nil_r.
  - intros pre x post E Hx. destruct post as [|y post _] using rev_ind.
    + apply app_inj_tail in E as [<- <-]. by exists m.
    + rewrite app_comm_cons, app_assoc in E. apply app_inj_tail in E as [E _]. destruct (H2 pre x post E Hx) as (k & [Hk|(q & Hq & ->)] & Hlt').
      * exists k. split; [by left|done].
      * exists (raw_ts q). split; [|done]. right. exists q. split; [|done]. by destruct s.
Qed.

Lemma live_heartbeat_ok sid t l : live_ok l → lv_last_hb l ≠ 0 → lv_last_hb l < t →
  let '(go, l') := live_heartbeat sid t l in live_ok l' ∧ (go = true → lv_last_hb l' = t) ∧ (go = false → o_sent (lv_out l') = o_sent (lv_out l)).
Proof.
  intros (Hc & H0 & Hall & Hm) Hne Hlt. unfold live_heartbeat, out_send. rewrite (proj2 (Z.eqb_neq _ _)) in Hm by done.
  destruct (o_room (lv_out l)) as [|r]; [split; [|done]; unfold live_ok; cbn; rewrite (proj2 (Z.eqb_neq _ _)) by done; done|].
  split; [|split; [done|discriminate]]. unfold live_ok. cbn [lv_out lv_last_hb out_dump out_inc out_add o_sent].
  assert (o_sent (lv_out l) ≠ []) as Hns by (destruct Hm as [Hm|(q & Hq & _)]; intros E; rewrite E in *; [by apply not_elem_of_nil in Hm|done]).
  rewrite (proj2 (Z.eqb_neq t 0)) by lia.
  assert (hb_times (o_sent (lv_out l) ++ [raw_heartbeat t sid]) = hb_times (o_sent (lv_out l)) ++ [t]) as E.
  { rewrite hb_times_app. unfold hb_times at 2. cbn [List.filter]. by rewrite heartbeat_is_heartbeat. }
  split_and!; [|lia| |].
  - apply clocked_snoc_hb; [done|done|]. eapply Forall_impl; [exact Hall|]. cbn. lia.
  - rewrite E. apply Forall_app. split; [eapply Forall_impl; [exact Hall|]; cbn; lia|by constructor].
  - left. rewrite E. apply elem_of_app. right. by left.
Qed.

Definition live_input_ok (sid : string) (link_type : Z) (i : LiveInput) : Prop :=
  match i with LPacket p => 0 < cap_ts p ∧ is_heartbeat (cap_raw sid link_type (cap_ts p) p) = false | _ => True end.

Lemma live_step_ok sid lt l i : live_ok l → live_input_ok sid lt i → 
  let '(go, l') := live_step sid lt l i in clocked (o_sent (lv_out l')) ∧ (go = true → live_ok l').
Proof.
  intros Hok Hi. pose proof Hok as (Hc & H0 & Hall & Hm). destruct i as [|p| |dropped stop wall|]; cbn [live_step]; try done.
  - destruct Hi as [Hts Hnh]. set (raw := cap_raw sid lt (cap_ts p) p) in *. unfold live_packet. fold raw. change (raw_ts raw) with (cap_ts p).
    assert (∀ l1, live_ok l1 ∨ (o_sent (lv_out l1) = [] ∧ lv_last_hb l1 = cap_ts p) → cap_ts p < lv_last_hb l1 + HEARTBEAT_INTERVAL_US → lv_last_hb l1 ≠ 0 →
      let '(go, l') := (let '(ok, o) := out_send raw (out_dump (DWrite raw) (lv_out l1)) in
        if negb ok then (false, mkLive (lv_last_dropped l1) (lv_last_hb l1) o)
        else let o := out_inc CapturePacketsReceived o in
          (true, mkLive (lv_last_dropped l1) (lv_last_hb l1) (if cp_caplen p <? cp_len p then out_inc CaptureTruncatedPackets o else o))) in
      clocked (o_sent (lv_out l')) ∧ (go = true → live_ok l')) as Hsend.
    { intros l1 Hl1 Hlt Hne. unfold out_send. cbn [out_dump o_room o_sent].
      assert (clocked (o_sent (lv_out l1))) as Hc1.
      { destruct Hl1 as [(? & _)|[-> _]]; [done|]. split; [constructor|]. intros [|? ?] ? ? E; discriminate E. }
      destruct (o_room (lv_out l1)) as [|r]; cbn [negb lv_out o_sent]; [done|].
      assert (live_ok (mkLive (lv_last_dropped l1) (lv_last_hb l1) (mkOut (o_sent (lv_out l1) ++ [raw]) r (o_dump (lv_out l1)) (o_metrics (lv_out l1))))) as Hl'.
      { unfold live_ok. cbn [lv_out lv_last_hb o_sent]. rewrite (proj2 (Z.eqb_neq _ _)) by done.
        assert (hb_times (o_sent (lv_out l1) ++ [raw]) = hb_times (o_sent (lv_out l1))) as E.
        { rewrite hb_times_app. unfold hb_times at 2. cbn [List.filter]. rewrite Hnh. cbn. by rewrite app_nil_r. }
        rewrite E. destruct Hl1 as [(_ & K0 & Kall & Km)|[Es Eh]].
        - rewrite (proj2 (Z.eqb_neq _ _)) in Km by done.
          assert (lv_last_hb l1 ∈ hb_times (o_sent (lv_out l1)) ∨ ∃ q, head (o_sent (lv_out l1) ++ [raw]) = Some q ∧ lv_last_hb l1 = raw_ts q) as Km'.
          { destruct Km as [?|(q & Hq & ?)]; [by left|right; exists q; split; [by destruct (o_sent (lv_out l1))|done]]. }
          split_and!; [|done|done|done]. by eapply clocked_snoc_packet.
        - rewrite Es in *. split_and!; [|lia|constructor|right; by exists raw].
          eapply (clocked_snoc_packet [] raw (cap_ts p)); [done|right; by exists raw| |done]. change (raw_ts raw) with (cap_ts p). unfold HEARTBEAT_INTERVAL_US. lia. }
      split; [|intros _].
      - destruct (_ <? _); exact (proj1 Hl').
      - destruct (_ <? _); exact Hl'. }
    destruct (Z.eqb_spec (lv_last_hb l) 0) as [E|E]; cbn [negb].
    { apply Hsend; [|cbn; unfold HEARTBEAT_INTERVAL_US; lia|cbn; lia]. right. done. }
    destruct (Z.leb_spec HEARTBEAT_INTERVAL_US (cap_ts p - lv_last_hb l)) as [Hge|Hlt]; cbn [negb]; [|apply Hsend; [by left|lia|done]].
    assert (lv_last_hb l < cap_ts p) as Hlt by (unfold HEARTBEAT_INTERVAL_US in Hge; lia).
    pose proof (live_heartbeat_ok sid (cap_ts p) l Hok E Hlt) as Hh. destruct (live_heartbeat sid (cap_ts p) l) as [[|] l1]; cbn [negb].
    + destruct Hh as (K1 & K2 & _). specialize (K2 eq_refl). apply Hsend; [by left|rewrite K2; unfold HEARTBEAT_INTERVAL_US; lia|rewrite K2; lia].
    + split; [|done]. apply Hh.
  - unfold live_timeout. set (l1 := update_drop_stats dropped l). assert (live_ok l1 ∧ lv_last_hb l1 = lv_last_hb l) as [Hok1 E1].
    { unfold l1, update_drop_stats. destruct dropped as [d|]; [|done]. by destruct (_ <? _). }
    destruct stop; [split; [apply Hok1|done]|]. destruct (_ && _) eqn:Ea; [|split; [apply Hok1|done]]. apply andb_true_iff in Ea as [Ea1%Z.ltb_lt Ea2].
    assert (lv_last_hb l1 < Z.max (wall - SAFETY_MARGIN_US) (lv_last_hb l1 + 1)) as Hlt by lia. assert (lv_last_hb l1 ≠ 0) as Hne by lia.
    pose proof (live_heartbeat_ok sid _ l1 Hok1 Hne Hlt) as Hh. destruct (live_heartbeat _ _ l1) as [go l2]. destruct Hh as (K & _). split; [apply K|done].
Qed.

(** On an interface that captures nothing that looks like a heartbeat, the
    heartbeats that are sent, made by packets or by the wall clock, have
    increasing times, and no packet that is sent is a second or more after the
    last heartbeat, or after the first packet. *)
Theorem live_clock sid lt o ins dropped : o_sent o = [] → Forall (live_input_ok sid lt) ins → clocked (o_sent (live_run sid lt o ins dropped)).
Proof.
  intros Ho Hins. unfold live_run. cbn [out_dump o_sent].
  assert (∀ l, o_sent (lv_out (update_drop_stats dropped l)) = o_sent (lv_out l)) as -> by (intros l; unfold update_drop_stats; destruct dropped; [by destruct (_ <? _)|done]).
  assert (live_ok (live_new o)) as Hok.
  { unfold live_ok, live_new. cbn [lv_out lv_last_hb]. rewrite Ho. split_and!; [|lia|constructor|done]. split; [constructor|]. intros [|? ?] ? ? E; discriminate E. }
  revert Hok. generalize (live_new o). induction Hins as [|i ins Hi Hins IH]; intros l Hok; cbn [live_loop]; [apply Hok|].
  pose proof (live_step_ok sid lt l i Hok Hi) as Hs. destruct (live_step sid lt l i) as [[|] l1]; [apply IH; by apply Hs|exact (proj1 Hs)].
Qed.

Lemma live_clock_witness :
  let pkt := λ s us, LPacket (mkCap s us 2 2 [x01; x02]) in
  let ins := [pkt 5 0; pkt 5 999999; pkt 6 0; LTimeout (Some 3) false 7000001; pkt 6 999999; LCancelled] in
  let o := live_run "lo" 1 (out_new 10 true) ins (Some 4) in
  clocked (o_sent o) ∧ hb_times (o_sent o) = [6000000; 6990001] ∧ o_metrics o CaptureKernelPacketsDropped = 4.
Proof.
  intros pkt ins o. split; [|split; vm_compute; reflexivity].
  apply (live_clock "lo" 1 (out_new 10 true) ins (Some 4)); [reflexivity|]. repeat (constructor; [first [exact I|split; reflexivity]|]). constructor.
Defined.

(** ** Replays of a file keep apart *)

(** The packets of the pass with number [k], from a file whose times span from
    [lo] to [hi]. *)
Definition pass_line (f : FileSource) (link_type lo hi : Z) (pkts : list CapPacket) (k : Z) : list RawPacket :=
  map (λ p, cap_raw (pass_source_id f k) link_type (cap_ts p + k * (hi - lo + LOOP_GAP_US)) p) pkts.

Definition span_ok (lo hi : Z) (pkts : list CapPacket) : Prop :=
  Forall (λ p, lo <= cap_ts p <= hi) pkts ∧ (∃ p, p ∈ pkts ∧ cap_ts p = lo) ∧ ∃ p, p ∈ pkts ∧ cap_ts p = hi.

Lemma sat_i64_small z : - 2 ^ 63 <= z < 2 ^ 63 → sat_i64 z = z.
Proof. unfold sat_i64. lia. Qed.

(** The least and the greatest time seen. *)
Definition widen (mm : Z * Z) (pkts : list CapPacket) : Z * Z := foldl (λ mm p, (Z.min mm.1 (cap_ts p), Z.max mm.2 (cap_ts p))) mm pkts.

Lemma widen_spec mm pkts : let r := widen mm pkts in
  r.1 <= mm.1 ∧ mm.2 <= r.2 ∧ (∀ p, p ∈ pkts → r.1 <= cap_ts p <= r.2) ∧
  (r.1 = mm.1 ∨ ∃ p, p ∈ pkts ∧ cap_ts p = r.1) ∧ (r.2 = mm.2 ∨ ∃ p, p ∈ pkts ∧ cap_ts p = r.2).
Proof.
  unfold widen. revert mm; induction pkts as [|p pkts IH]; intros mm; cbn [foldl].
  { split_and!; [lia|lia|by intros p ?%not_elem_of_nil|by left|by left]. }
  destruct (IH (Z.min mm.1 (cap_ts p), Z.max mm.2 (cap_ts p))) as (H1 & H2 & H3 & H4 & H5). cbn [fst snd] in *. split_and!; [lia|lia| | |].
  - intros q [->|Hq]%elem_of_cons; [lia|by apply H3].
  - destruct H4 as [E|(q & Hq & E)]; [|right; exists q; split; [by right|done]].
    destruct (Z.le_gt_cases mm.1 (cap_ts p)); [left; lia|right; exists p; split; [by left|lia]].
  - destruct H5 as [E|(q & Hq & E)]; [|right; exists q; split; [by right|done]].
    destruct (Z.le_gt_cases (cap_ts p) mm.2); [left; lia|right; exists p; split; [by left|lia]].
Qed.

Lemma widen_span lo hi pkts : - 2 ^ 63 <= lo → hi < 2 ^ 63 → span_ok lo hi pkts → widen (2 ^ 63 - 1, - 2 ^ 63) pkts = (lo, hi).
Proof.
  intros Hlo Hhi (Hall & (p & Hp & Ep) & (q & Hq & Eq)). rewrite Forall_forall in Hall.
  destruct (widen_spec (2 ^ 63 - 1, - 2 ^ 63) pkts) as (H1 & H2 & H3 & H4 & H5). cbn [fst snd] in *.
  destruct (widen _ pkts) as [a b]. cbn [fst snd] in *. pose proof (H3 p Hp). pose proof (H3 q Hq). pose proof (Hall p Hp). f_equal.
  - destruct H4 as [->|(x & Hx & <-)]; [lia|]. pose proof (Hall x Hx). lia.
  - destruct H5 as [->|(x & Hx & <-)]; [lia|]. pose proof (Hall x Hx). lia.
Qed.

Lemma file_packets_spec sid lt iter offset pkts : ∀ mm o, (length pkts <= o_room o)%nat → 
  Forall (λ p, - 2 ^ 63 <= cap_ts p + offset < 2 ^ 63) pkts →
  let line := map (λ p, cap_raw sid lt (cap_ts p + offset) p) pkts in
  ∃ o', file_packets sid lt iter offset pkts false None mm o = (PassDone, if iter =? 0 then widen mm pkts else mm, o') ∧
    o_sent o' = o_sent o ++ line ∧ o_room o' = (o_room o - length pkts)%nat ∧
    ∀ d, o_dump o = Some d → ∃ d', o_dump o' = Some (d ++ d') ∧ written d' = line.
Proof.
  induction pkts as [|p pkts IH]; intros mm o Hroom Hts; cbn [file_packets map length] in *.
  { exists o. split; [unfold widen; cbn; by destruct (iter =? 0)|]. rewrite app_nil_r. split_and!; [done|lia|]. intros d Hd. exists []. by rewrite app_nil_r. }
  apply Forall_cons in Hts as [Hp Hts]. rewrite sat_i64_small by done. unfold out_send. cbn [out_dump o_room o_sent o_dump o_metrics].
  destruct (o_room o) as [|r] eqn:Er; [lia|]. cbn [negb fmap option_fmap option_map].
  set (raw := cap_raw sid lt (cap_ts p + offset) p).
  match goal with |- context [file_packets sid lt iter offset pkts false None ?mm' ?o'] => set (mm1 := mm'); set (o1 := o') end.
  assert (o_sent o1 = o_sent o ++ [raw] ∧ o_room o1 = r ∧ o_dump o1 = (λ l, l ++ [DWrite raw]) <$> o_dump o) as (E1 & E2 & E3) by (unfold o1; by destruct (_ <? _)).
  destruct (IH mm1 o1) as (o' & -> & H1 & H2 & H3); [lia|done|]. exists o'. split_and!.
  - unfold mm1, widen. cbn [foldl]. by destruct (iter =? 0).
  - rewrite H1, E1. by rewrite <-app_assoc.
  - rewrite H2, E2. lia.
  - intros d Hd. rewrite Hd in E3. destruct (H3 _ E3) as (d' & Hd' & W). exists (DWrite raw :: d'). rewrite <-app_assoc in Hd'. split; [done|]. change (written (DWrite raw :: d')) with (raw :: written d'). by rewrite W.
Qed.

(** Passes over the same file, not cut short. *)
Definition whole_pass (link_type : Z) (pkts : list CapPacket) (p : Pass) : Prop :=
  ps_file p = Some (link_type, pkts) ∧ ps_error p = false ∧ ps_cancel p = None.

Lemma file_passes_spec f lt lo hi pkts : f_loop_secs f = 0 → span_ok lo hi pkts → ∀ passes iter o mm,
  Forall (whole_pass lt pkts) passes → 0 <= iter → Z.of_nat (length passes) = f_loop_count f - iter → (0 < length passes)%nat →
  (length passes * length pkts <= o_room o)%nat →
  - 2 ^ 63 <= lo → hi + f_loop_count f * (hi - lo + LOOP_GAP_US) < 2 ^ 63 → (f_loop_count f * (hi - lo + LOOP_GAP_US) < 2 ^ 63) →
  (if iter =? 0 then mm = (2 ^ 63 - 1, - 2 ^ 63) else mm = (lo, hi)) →
  let line := concat (map (λ i, pass_line f lt lo hi pkts (iter + Z.of_nat i)) (seq 0 (length passes))) in
  ∃ o', file_passes f passes iter mm o = Some o' ∧ o_sent o' = o_sent o ++ line ∧
    ∀ d, o_dump o = Some d → ∃ d', o_dump o' = Some (d ++ d') ∧ written d' = line.
Proof.
  intros Hsecs Hspan. pose proof Hspan as (Hall & (a & Ha & Ea) & _). assert (lo <= hi) as Hlh by (rewrite Forall_forall in Hall; pose proof (Hall a Ha); lia).
  assert (0 < LOOP_GAP_US) as Hgap by done. set (gap := hi - lo + LOOP_GAP_US).
  induction passes as [|p passes IH]; intros iter o mm Hpass Hit Hlen Hpos Hroom Hlo Hhi Hmul Hmm; cbn [length] in *; [lia|]. clear Hpos.
  apply Forall_cons in Hpass as [(Hf & He & Hc) Hpass]. cbn [file_passes]. rewrite Hf, He, Hc.
  assert (pass_offset iter mm.1 mm.2 = iter * gap) as ->.
  { unfold pass_offset. destruct (Z.eqb_spec iter 0) as [->|Hne]; [done|]. subst mm. cbn [fst snd orb]. rewrite (proj2 (Z.ltb_ge _ _)) by done.
    rewrite sat_i64_small; [fold gap; lia|]. fold gap. nia. }
  destruct (file_packets_spec (pass_source_id f iter) lt iter (iter * gap) pkts mm o) as (o1 & -> & S1 & R1 & D1); [lia| |].
  { eapply Forall_impl; [exact Hall|]. cbn. intros q Hq. nia. }
  rewrite Hsecs. change (0 <? 0) with false. cbv iota.
  assert ((if iter =? 0 then widen mm pkts else mm) = (lo, hi)) as ->.
  { destruct (Z.eqb_spec iter 0) as [->|]; [|done]. subst mm. apply widen_span; [done|nia|done]. }
  assert (pass_line f lt lo hi pkts (iter + Z.of_nat 0) = map (λ p, cap_raw (pass_source_id f iter) lt (cap_ts p + iter * gap) p) pkts) as El by (by rewrite Z.add_0_r).
  cbn [seq map concat]. rewrite El. destruct (Z.leb_spec (f_loop_count f) (iter + 1)) as [Hover|Hmore].
  - assert (passes = []) as -> by (destruct passes; [done|cbn in Hlen; lia]). cbn [seq map concat]. rewrite app_nil_r. exists (out_dump DFlush o1).
    split; [done|]. split; [done|]. intros d Hd. destruct (D1 d Hd) as (d' & Hd' & W). exists (d' ++ [DFlush]). cbn [out_dump o_dump]. rewrite Hd'. cbn. rewrite app_assoc. split; [done|].
    rewrite written_app, W. by rewrite app_nil_r.
  - destruct (IH (iter + 1) o1 (lo, hi)) as (o2 & -> & S2 & D2); try done; try lia.
    { destruct (Z.eqb_spec (iter + 1) 0); [lia|done]. }
    assert (concat (map (λ i, pass_line f lt lo hi pkts (iter + 1 + Z.of_nat i)) (seq 0 (length passes))) =
            concat (map (λ i, pass_line f lt lo hi pkts (iter + Z.of_nat i)) (seq 1 (length passes)))) as El2.
    { rewrite <-seq_shift, map_map. f_equal. apply map_ext. intros i. f_equal. lia. }
    rewrite El2 in S2, D2. exists o2. split; [done|]. split; [rewrite S2, S1; by rewrite app_assoc|].
    intros d Hd. destruct (D1 d Hd) as (d1 & Hd1 & W1). destruct (D2 _ Hd1) as (d2 & Hd2 & W2). exists (d1 ++ d2). by rewrite app_assoc, written_app, W1, W2.
Qed.

Lemma pass_ids_differ f j k : looping f = true → 0 <= j <= USIZE_MAX → 0 <= k <= USIZE_MAX → j ≠ k → pass_source_id f j ≠ pass_source_id f k.
Proof.
  intros Hl Hj Hk Hne E. unfold pass_source_id in E. rewrite Hl in E. apply (inj (String.append _)), (inj (String.append _)) in E.
  apply (f_equal String.list_byte_of_string) in E. rewrite !String.list_byte_of_string_of_list_byte in E.
  apply (f_equal (from_str_radix 10)) in E. rewrite !to_radix_roundtrip in E by lia. by injection E.
Qed.

(** A file that is replayed a number of times is sent that number of times, and
    handed to the dumper as sent.  Two passes share no source, so no flow, and
    what a later one sends is five minutes or more after what an earlier one
    sent, so that the flows of the earlier are given up. *)
Theorem replay_passes_apart id count passes lt lo hi pkts room dump
    (Hspan : span_ok lo hi pkts) (Hpass : Forall (whole_pass lt pkts) passes) (Hlen : Z.of_nat (length passes) = Z.max count 1)
    (Hroom : (length passes * length pkts <= room)%nat) (Hcount : count < 2 ^ 32)
    (Hlo : - 2 ^ 63 <= lo) (Hhi : hi + Z.max count 1 * (hi - lo + LOOP_GAP_US) < 2 ^ 63) (Hmul : Z.max count 1 * (hi - lo + LOOP_GAP_US) < 2 ^ 63) :
  let f := with_loop id count 0 in
  let line := pass_line f lt lo hi pkts in
  ∃ o', file_run f (out_new room dump) passes = Some o' ∧
    o_sent o' = concat (map (λ i, line (Z.of_nat i)) (seq 0 (length passes))) ∧
    (dump = true → ∃ d, o_dump o' = Some d ∧ written d = o_sent o') ∧
    ∀ j k p q, 0 <= j < k → k < Z.max count 1 → p ∈ line j → q ∈ line k → raw_source p ≠ raw_source q ∧ raw_ts p + LOOP_GAP_US <= raw_ts q.
Proof.
  intros f line. destruct (file_passes_spec f lt lo hi pkts eq_refl Hspan passes 0 (out_new room dump) (2 ^ 63 - 1, - 2 ^ 63)) as (o' & E & S & D);
    try done; [cbn; lia|cbn; lia|]. exists o'. split; [exact E|]. split; [exact S|]. split.
  { intros ->. destruct (D [] eq_refl) as (d & Hd & W). exists d. split; [done|]. by rewrite S. }
  intros j k p q Hjk Hk Hp Hq. unfold line, pass_line in Hp, Hq.
  change (map ?g ?l) with (g <$> l) in Hp, Hq. apply list_elem_of_fmap in Hp as (x & -> & Hx), Hq as (y & -> & Hy). cbn [cap_raw raw_source raw_ts]. split.
  - apply pass_ids_differ; [|unfold USIZE_MAX; lia|unfold USIZE_MAX; lia|lia].
    unfold looping, f, with_loop. cbn [f_loop_secs f_loop_count]. apply orb_true_iff. right. apply Z.ltb_lt. lia.
  - destruct Hspan as (Hall & _). rewrite Forall_forall in Hall. pose proof (Hall x Hx). pose proof (Hall y Hy).
    assert (0 < LOOP_GAP_US) by done. nia.
Qed.

Lemma replay_passes_apart_witness :
  let pkts := [mkCap 10 0 1 1 [x01]; mkCap 12 0 1 1 [x02]] in
  let pass := mkPass (Some (1, pkts)) false 0 None in
  ∃ o', file_run (with_loop "f" 2 0) (out_new 4 true) [pass; pass] = Some o' ∧
    map (λ p, (raw_source p, raw_ts p)) (o_sent o') = [("f-0"%string, 10000000); ("f-0"%string, 12000000); ("f-1"%string, 312000000); ("f-1"%string, 314000000)].
Proof.
  intros pkts pass. destruct (replay_passes_apart "f" 2 [pass; pass] 1 10000000 12000000 pkts 4 true) as (o' & E & S & _).
  - split; [|split].
    + repeat (constructor; [vm_compute; split; discriminate|]). constructor.
    + exists (mkCap 10 0 1 1 [x01]). split; [by left|reflexivity].
    + exists (mkCap 12 0 1 1 [x02]). split; [by right; left|reflexivity].
  - repeat (constructor; [done|]). constructor.
  - reflexivity.
  - cbn. lia.
  - lia.
  - lia.
  - unfold LOOP_GAP_US. lia.
  - unfold LOOP_GAP_US. lia.
  - exists o'. split; [exact E|]. rewrite S. vm_compute. reflexivity.
Defined.
