(* ===== verification/Sigscan.v ===== *)
(** * Signatures in executables (h-capture/src/ebpf/sigscan.rs)

    Masked byte signatures, the executable segments of an ELF image, and the
    search for one in the other; on a 64-bit target, with arithmetic that wraps,
    as a release build has it. *)

From Stdlib Require Import Strings.Byte ZArith Lia Sorting.Sorted.
From stdpp Require Import base gmap sets list strings.
From S2P Require Import Prelude.
From S2P Require Import Net.
From S2P Require Import Decode.
From S2P Require Import Text.
From S2P Require Import CloudProbe.

Open Scope Z_scope.

(** [str::split_whitespace]. *)
Fixpoint split_ws_acc (fuel : nat) (cur l : text) : list text :=
  let flush := match cur with [] => [] | _ => [cur] end in
  match fuel, l with
  | O, _ | _, [] => flush
  | S fuel', b :: l' =>
      match ws_prefix l with
      | O => split_ws_acc fuel' (cur ++ [b]) l'
      | n => flush ++ split_ws_acc fuel' [] (drop n l)
      end
  end.
Definition split_whitespace (l : text) : list text := split_ws_acc (length l) [] l.

Record Signature : Type := mkSig { sig_bytes : list byte; sig_mask : list byte }.
Definition sig_len (s : Signature) : nat := length (sig_bytes s).
Definition sig_is_empty (s : Signature) : bool := (sig_len s =? 0)%nat.

(** [u8::from_str_radix(_, 16)]. *)
Definition hex_u8 (tok : text) : option byte :=
  n ← from_str_radix 16 tok; if n <? 256 then Some (Zbyte n) else None.

Fixpoint parse_tokens (toks : list text) : option (list (byte * byte)) :=
  match toks with
  | [] => Some []
  | tok :: toks' =>
      x ← (if bool_decide (tok = B "??" ∨ tok = B "?") then Some (x00, x00) else (λ b, (b, xff)) <$> hex_u8 tok);
      rest ← parse_tokens toks'; Some (x :: rest)
  end.
Definition sig_parse (pattern : text) : option Signature :=
  l ← parse_tokens (split_whitespace pattern);
  match l with [] => None | _ => Some (mkSig (map fst l) (map snd l)) end.

(** [hay[i]]. *)
Definition byte_idx (hay : list byte) (i : nat) : res byte := match hay !! i with Some b => Ret b | None => Panic end.

(** The comparison stops at the first byte that differs. *)
Fixpoint match_from (hay : list byte) (pos : nat) (bm : list (byte * byte)) : res bool :=
  match bm with
  | [] => Ret true
  | (b, m) :: bm' =>
      if byteZ m =? 0 then match_from hay (S pos) bm'
      else
        let* h := byte_idx hay pos in
        if byteZ h =? byteZ b then match_from hay (S pos) bm' else Ret false
  end.
Definition matches_at (s : Signature) (hay : list byte) (pos : nat) : res bool :=
  if (length hay <? pos + sig_len s)%nat then Ret false else match_from hay pos (zip (sig_bytes s) (sig_mask s)).

(** [n] positions from [pos] on. *)
Fixpoint scan_loop (n : nat) (s : Signature) (hay : list byte) (a : nat) (anchor : byte) (pos : nat) : res (list nat) :=
  match n with
  | O => Ret []
  | S n' =>
      let* h := byte_idx hay (pos + a) in
      let* hit := (if byteZ h =? byteZ anchor then matches_at s hay pos else Ret false) in
      let* rest := scan_loop n' s hay a anchor (S pos) in
      Ret (if hit then pos :: rest else rest)
  end.
Definition find_all (s : Signature) (hay : list byte) : res (list nat) :=
  if sig_is_empty s || (length hay <? sig_len s)%nat then Ret []
  else
    let last := (length hay - sig_len s)%nat in
    match position (λ m, negb (byteZ m =? 0)) (sig_mask s) with
    | Some a =>
        let* anchor := byte_idx (sig_bytes s) a in
        scan_loop (S last) s hay a anchor 0
    | None => Ret (seq 0 (S last))
    end.

(** ** ELF images *)

Record ExecSegment : Type := mkSeg { file_off : Z; file_size : Z }.

Definition read_le (data : list byte) (o n : Z) : res Z := let* l := slice_at data o n in Ret (le_combine l).

Definition PT_LOAD : Z := 1.
Definition PF_X : Z := 1.

Fixpoint segments_loop (n : nat) (data : list byte) (ph e_phentsize : Z) : res (list ExecSegment) :=
  match n with
  | O => Ret []
  | S n' =>
      if zlen data <? wrap 64 (ph + 56) then Ret []
      else
        let* p_type := read_le data ph 4 in
        let* p_flags := read_le data (wrap 64 (ph + 4)) 4 in
        let* p_offset := read_le data (wrap 64 (ph + 8)) 8 in
        let* p_filesz := read_le data (wrap 64 (ph + 32)) 8 in
        let* rest := segments_loop n' data (wrap 64 (ph + e_phentsize)) e_phentsize in
        Ret (if (p_type =? PT_LOAD) && negb (Z.land p_flags PF_X =? 0) && (u64_sat_add p_offset p_filesz <=? zlen data)
             then mkSeg p_offset p_filesz :: rest else rest)
  end.

Definition is_elf64_le (data : list byte) : bool :=
  (64 <=? zlen data) && bool_decide (take 4 data = [x7f; x45; x4c; x46]) && (byteZ (byte_at 4 data) =? 2) && (byteZ (byte_at 5 data) =? 1).
Definition exec_segments (data : list byte) : res (list ExecSegment) :=
  if negb (is_elf64_le data) then Ret []
  else
    let* e_phoff := read_le data 0x20 8 in
    let* e_phentsize := read_le data 0x36 2 in
    let* e_phnum := read_le data 0x38 2 in
    if e_phentsize <? 56 then Ret [] else segments_loop (Z.to_nat e_phnum) data e_phoff e_phentsize.

Fixpoint scan_segments (segs : list ExecSegment) (data : list byte) (s : Signature) : res (list Z) :=
  match segs with
  | [] => Ret []
  | seg :: segs' =>
      let* slice := slice_at data (file_off seg) (file_size seg) in
      let* hits := find_all s slice in
      let* rest := scan_segments segs' data s in
      Ret (map (λ local, file_off seg + Z.of_nat local) hits ++ rest)
  end.
Definition scan_elf_executable (data : list byte) (s : Signature) : res (list Z) :=
  let* segs := exec_segments data in scan_segments segs data s.

(** ** What a match is *)

Definition sig_ok (s : Signature) : Prop := sig_bytes s ≠ [] ∧ length (sig_mask s) = length (sig_bytes s).

(** Every byte that the mask does not leave open is there. *)
Definition occurs (s : Signature) (hay : list byte) (pos : nat) : Prop :=
  (pos + sig_len s <= length hay)%nat ∧
  ∀ i b m, sig_bytes s !! i = Some b → sig_mask s !! i = Some m → byteZ m = 0 ∨ hay !! (pos + i)%nat = Some b.

Lemma sig_parse_ok p s : sig_parse p = Some s → sig_ok s.
Proof.
  unfold sig_parse. destruct (parse_tokens _) as [[|x l]|]; cbn; [done| |done]. intros [= <-]. split; [done|]. cbn. by rewrite !length_map.
Qed.

Lemma match_from_spec hay bm : ∀ pos, (pos + length bm <= length hay)%nat →
  ∃ b, match_from hay pos bm = Ret b ∧
    (b = true ↔ ∀ i x, bm !! i = Some x → byteZ x.2 = 0 ∨ hay !! (pos + i)%nat = Some x.1).
Proof.
  induction bm as [|[c m] bm IH]; intros pos Hle; cbn [match_from length] in *; [by exists true|].
  destruct (IH (S pos)) as (b & Hb & Hi); [lia|].
  assert (∀ P : Prop, (P ↔ byteZ m = 0 ∨ hay !! pos = Some c) →
    (P ∧ (∀ i x, bm !! i = Some x → byteZ x.2 = 0 ∨ hay !! (S pos + i)%nat = Some x.1)) ↔
    ∀ i x, ((c, m) :: bm) !! i = Some x → byteZ x.2 = 0 ∨ hay !! (pos + i)%nat = Some x.1) as Hsplit.
  { intros P HP. split.
    - intros [H1 H2] [|i] x; cbn [lookup list_lookup]; [intros [= <-]; rewrite Nat.add_0_r; by apply HP|]. intros Hx.
      replace (pos + S i)%nat with (S pos + i)%nat by lia. by apply H2.
    - intros H. split; [apply HP; pose proof (H 0%nat _ eq_refl) as H0; by rewrite Nat.add_0_r in H0|].
      intros i x Hx. replace (S pos + i)%nat with (pos + S i)%nat by lia. by apply (H (S i)). }
  destruct (Z.eqb_spec (byteZ m) 0) as [E|E].
  { exists b. split; [done|]. rewrite Hi, <-(Hsplit True) by tauto. tauto. }
  destruct (lookup_lt_is_Some_2 hay pos) as [h Hh]; [lia|]. unfold byte_idx. rewrite Hh. cbn [res_bind].
  destruct (Z.eqb_spec (byteZ h) (byteZ c)) as [E2|E2].
  - exists b. split; [done|]. rewrite Hi, <-(Hsplit True); [tauto|]. split; [|done]. intros _. right. by rewrite Hh, (byteZ_inj _ _ E2).
  - exists false. split; [done|]. split; [done|]. rewrite <-(Hsplit False); [tauto|]. split; [done|]. intros [?|H]; [done|]. rewrite Hh in H. injection H as ->. done.
Qed.

Lemma matches_at_spec s hay pos : sig_ok s → ∃ b, matches_at s hay pos = Ret b ∧ (b = true ↔ occurs s hay pos).
Proof.
  intros [_ Hl]. unfold matches_at, occurs, sig_len. destruct (Nat.ltb_spec (length hay) (pos + length (sig_bytes s))) as [H|H].
  { exists false. split; [done|]. split; [done|]. intros [? _]. lia. }
  destruct (match_from_spec hay (zip (sig_bytes s) (sig_mask s)) pos) as (b & Hb & Hi); [rewrite length_zip_with; lia|].
  exists b. split; [done|]. rewrite Hi. split.
  - intros Hall. split; [done|]. intros i c m Hc Hm. apply (Hall i (c, m)). apply lookup_zip_with_Some. by exists c, m.
  - intros [_ Hall] i [c m] Hx. apply lookup_zip_with_Some in Hx as (x & y & [= <- <-] & Hx & Hy). by eapply Hall.
Qed.

Lemma scan_loop_spec s hay a anchor n : sig_ok s → sig_bytes s !! a = Some anchor → 
  (∃ m, sig_mask s !! a = Some m ∧ byteZ m ≠ 0) → ∀ pos, (pos + n + sig_len s <= S (length hay))%nat →
  ∃ l, scan_loop n s hay a anchor pos = Ret l ∧ StronglySorted lt l ∧ (∀ q, q ∈ l ↔ (pos <= q < pos + n)%nat ∧ occurs s hay q).
Proof.
  intros Hok Ha (m & Hm & Hm0). assert (a < sig_len s)%nat as Halt by (apply lookup_lt_Some in Ha; done).
  induction n as [|n IH]; intros pos Hle; cbn [scan_loop].
  { exists []. split; [done|]. split; [constructor|]. intros q. split; [by intros ?%not_elem_of_nil|lia]. }
  destruct (IH (S pos)) as (l & -> & Hs & Hl); [lia|]. destruct (lookup_lt_is_Some_2 hay (pos + a)) as [h Hh]; [lia|].
  unfold byte_idx. rewrite Hh. cbn [res_bind]. destruct (matches_at_spec s hay pos Hok) as (b & Hb & Hi).
  assert (∃ hit, (if byteZ h =? byteZ anchor then matches_at s hay pos else Ret false) = Ret hit ∧ (hit = true ↔ occurs s hay pos)) as (hit & -> & Hhit).
  { destruct (Z.eqb_spec (byteZ h) (byteZ anchor)) as [E|E]; [by exists b|]. exists false. split; [done|]. split; [done|]. intros [_ Hocc].
    destruct (Hocc a anchor m Ha Hm) as [?|H]; [done|]. rewrite Hh in H. injection H as ->. done. }
  cbn [res_bind]. eexists. split; [done|]. destruct hit.
  - split.
    + constructor; [done|]. apply Forall_forall. intros q Hq. apply Hl in Hq. lia.
    + intros q. rewrite elem_of_cons, Hl. split; [intros [->|?]; [split; [lia|by apply Hhit]|split; [lia|tauto]]|].
      intros [Hq Ho]. destruct (decide (q = pos)); [by left|right]. split; [lia|done].
  - split; [done|]. intros q. rewrite Hl. split; [intros [? ?]; split; [lia|done]|]. intros [Hq Ho]. destruct (decide (q = pos)) as [->|]; [|split; [lia|done]].
    apply Hhit in Ho. done.
Qed.

Lemma position_none_inv {A} (f : A → bool) l : position f l = None → Forall (λ x, f x = false) l.
Proof.
  induction l as [|x l IH]; cbn; [constructor|]. destruct (f x) eqn:E; [done|]. destruct (position f l); [done|]. intros _. constructor; auto.
Qed.

(** The search finds, from left to right, every place where a signature occurs. *)
Lemma find_all_exact s hay : sig_ok s → ∃ l, find_all s hay = Ret l ∧ StronglySorted lt l ∧ ∀ q, q ∈ l ↔ occurs s hay q.
Proof.
  intros Hok. pose proof Hok as [Hne Hl]. unfold find_all, sig_is_empty.
  assert (sig_len s ≠ 0%nat) as Hn by (unfold sig_len; by destruct (sig_bytes s)). rewrite (proj2 (Nat.eqb_neq _ _)) by done. cbn [orb].
  destruct (Nat.ltb_spec (length hay) (sig_len s)) as [Hs|Hs].
  { exists []. split; [done|]. split; [constructor|]. intros q. split; [by intros ?%not_elem_of_nil|]. intros [? _]. lia. }
  destruct (position _ (sig_mask s)) as [a|] eqn:Ep.
  - assert (∃ m, sig_mask s !! a = Some m ∧ byteZ m ≠ 0) as Hm.
    { clear -Ep. revert a Ep. induction (sig_mask s) as [|m l IH]; intros a Ep; cbn in Ep; [done|]. destruct (Z.eqb_spec (byteZ m) 0); cbn in Ep.
      - destruct (position _ l) as [j|]; [|done]. injection Ep as <-. cbn. by apply IH.
      - injection Ep as <-. by exists m. }
    destruct Hm as (m & Hm & Hm0). destruct (lookup_lt_is_Some_2 (sig_bytes s) a) as [anchor Ha]; [apply lookup_lt_Some in Hm; lia|].
    unfold byte_idx. rewrite Ha. cbn [res_bind]. destruct (scan_loop_spec s hay a anchor (S (length hay - sig_len s)) Hok Ha (ex_intro _ m (conj Hm Hm0)) 0) as (l & -> & H1 & H2); [lia|].
    exists l. split; [done|]. split; [done|]. intros q. rewrite H2. split; [tauto|]. intros Ho. split; [|done]. destruct Ho as [Ho _]. lia.
  - exists (seq 0 (S (length hay - sig_len s))). split; [done|]. split.
    + generalize 0%nat, (S (length hay - sig_len s)). clear. intros o n. revert o; induction n as [|n IH]; intros o; cbn; constructor; [apply IH|].
      apply Forall_forall. intros q Hq%elem_of_seq. lia.
    + intros q. rewrite elem_of_seq. split; [|intros [? _]; lia]. intros Hq. split; [lia|]. intros i b m Hb Hm. left.
      pose proof (proj1 (Forall_forall _ _) (position_none_inv _ _ Ep) m (list_elem_of_lookup_2 _ _ _ Hm)) as E. apply negb_false_iff, Z.eqb_eq in E. done.
Qed.

(** ** What an executable segment is *)

Definition elf_field (data : list byte) (o : Z) (n : nat) : Z := le_combine (field (Z.to_nat o) n data).
Definition e_phoff (data : list byte) : Z := elf_field data 0x20 8.
Definition e_phentsize (data : list byte) : Z := elf_field data 0x36 2.
Definition e_phnum (data : list byte) : Z := elf_field data 0x38 2.

(** The header at [ph] is whole, loads an executable segment, and the segment
    lies in the file. *)
Definition exec_header (data : list byte) (ph : Z) (seg : ExecSegment) : Prop :=
  ph + 56 <= zlen data ∧ elf_field data ph 4 = PT_LOAD ∧ Z.land (elf_field data (ph + 4) 4) PF_X ≠ 0 ∧
  file_off seg = elf_field data (ph + 8) 8 ∧ file_size seg = elf_field data (ph + 32) 8 ∧ file_off seg + file_size seg <= zlen data.

(** The table of program headers ends before the address space does. *)
Definition table_fits (data : list byte) : Prop := e_phoff data + e_phnum data * e_phentsize data + 56 < 2 ^ 64.

Lemma read_le_ok data o n : 0 <= o → 0 <= n → o + n <= zlen data → read_le data o n = Ret (elf_field data o (Z.to_nat n)).
Proof. intros. unfold read_le. by rewrite slice_at_ok. Qed.

Lemma le_combine_bound l : 0 <= le_combine l < 256 ^ zlen l.
Proof.
  induction l as [|b l IH]; [done|]. cbn [le_combine]. rewrite zlen_cons_eq, Z.pow_add_r by (pose proof (zlen_nonneg l); lia). pose proof (byteZ_range b). lia.
Qed.

Lemma elf_field_bound data o n : 0 <= elf_field data o n < 256 ^ Z.of_nat n.
Proof.
  unfold elf_field. pose proof (le_combine_bound (field (Z.to_nat o) n data)) as H. split; [lia|]. eapply Z.lt_le_trans; [apply H|].
  apply Z.pow_le_mono_r; [lia|]. unfold zlen, field. rewrite length_take. lia.
Qed.

Lemma segments_loop_spec data sz n : 56 <= sz → ∀ ph, zlen data < 2 ^ 63 → 0 <= ph → ph + Z.of_nat n * sz + 56 < 2 ^ 64 →
  ∃ l, segments_loop n data ph sz = Ret l ∧ ∀ seg, seg ∈ l ↔ ∃ i, 0 <= i < Z.of_nat n ∧ exec_header data (ph + i * sz) seg.
Proof.
  intros Hsz. induction n as [|n IH]; intros ph Hd Hp Hle; cbn [segments_loop].
  { exists []. split; [done|]. intros seg. split; [by intros ?%not_elem_of_nil|]. intros (i & ? & _). lia. }
  rewrite (wrap_small 64 (ph + 56)) by lia. destruct (Z.ltb_spec (zlen data) (ph + 56)) as [Hs|Hs].
  { exists []. split; [done|]. intros seg. split; [by intros ?%not_elem_of_nil|]. intros (i & Hi & H & _). nia. }
  rewrite !wrap_small by lia. rewrite !read_le_ok by lia. cbn [res_bind].
  destruct (IH (ph + sz) Hd ltac:(lia) ltac:(lia)) as (l & -> & Hl). cbn [res_bind]. eexists. split; [done|]. intros seg.
  change (Z.to_nat 4) with 4%nat. change (Z.to_nat 8) with 8%nat.
  pose proof (elf_field_bound data (ph + 8) 8) as Hb1. pose proof (elf_field_bound data (ph + 32) 8) as Hb2.
  assert (((elf_field data ph 4 =? PT_LOAD) && negb (Z.land (elf_field data (ph + 4) 4) PF_X =? 0) &&
    (u64_sat_add (elf_field data (ph + 8) 8) (elf_field data (ph + 32) 8) <=? zlen data)) = true ↔
    exec_header data ph (mkSeg (elf_field data (ph + 8) 8) (elf_field data (ph + 32) 8))) as Hc.
  { unfold exec_header, u64_sat_add. cbn [file_off file_size]. rewrite !andb_true_iff, negb_true_iff, Z.eqb_eq, Z.eqb_neq, Z.leb_le. split; [intros ((? & ?) & ?)|intros (? & ? & ? & _ & _ & ?)]; split_and!; try done; lia. }
  assert (∀ s, exec_header data ph s → s = mkSeg (elf_field data (ph + 8) 8) (elf_field data (ph + 32) 8)) as Hu by (intros [o z] (_ & _ & _ & H1 & H2 & _); cbn in *; by subst).
  assert ((∃ i, 0 <= i < Z.of_nat (S n) ∧ exec_header data (ph + i * sz) seg) ↔ exec_header data ph seg ∨ seg ∈ l) as ->.
  { rewrite Hl. split.
    - intros (i & Hi & H). destruct (decide (i = 0)) as [->|Hne]; [left; by rewrite Z.add_0_r in H|]. right. exists (i - 1). split; [lia|].
      by replace (ph + sz + (i - 1) * sz) with (ph + i * sz) by lia.
    - intros [H|(i & Hi & H)]; [exists 0; split; [lia|by rewrite Z.add_0_r]|]. exists (i + 1). split; [lia|].
      by replace (ph + (i + 1) * sz) with (ph + sz + i * sz) by lia. }
  match goal with |- context [if ?c then _ else _] => destruct c end.
  - rewrite elem_of_cons. split; [intros [->|?]; [left; by apply Hc|by right]|]. intros [H|?]; [left; by apply Hu|by right].
  - split; [by right|]. intros [H|?]; [|done]. rewrite (Hu _ H) in H. by apply Hc in H.
Qed.

Lemma occurs_in_slice s data o n pos : (o + n <= length data)%nat → occurs s (field o n data) pos ↔ (pos + sig_len s <= n)%nat ∧ occurs s data (o + pos).
Proof.
  intros H. unfold occurs. assert (length (field o n data) = n) as -> by by apply length_field.
  assert (∀ i, (i < n)%nat → field o n data !! i = data !! (o + i)%nat) as Hf by (intros i Hi; unfold field; by rewrite lookup_take_lt, lookup_drop).
  split.
  - intros [Hp Ho]. split_and!; [done|lia|]. intros i b m Hb Hm. destruct (Ho i b m Hb Hm) as [?|Hx]; [by left|right].
    apply lookup_lt_Some in Hb. unfold sig_len in Hp. rewrite Hf in Hx by lia. by rewrite <-Nat.add_assoc.
  - intros (Hp & _ & Ho). split; [done|]. intros i b m Hb Hm. destruct (Ho i b m Hb Hm) as [?|Hx]; [by left|right].
    apply lookup_lt_Some in Hb. unfold sig_len in Hp. rewrite Hf by lia. by rewrite Nat.add_assoc.
Qed.

Lemma scan_segments_spec data s segs : sig_ok s → Forall (λ g, 0 <= file_off g ∧ 0 <= file_size g ∧ file_off g + file_size g <= zlen data) segs →
  ∃ l, scan_segments segs data s = Ret l ∧
    ∀ o, o ∈ l ↔ ∃ g, g ∈ segs ∧ file_off g <= o ∧ o + Z.of_nat (sig_len s) <= file_off g + file_size g ∧ occurs s data (Z.to_nat o).
Proof.
  intros Hok. induction 1 as [|g segs (Ho & Hz & Hle) _ IH]; cbn [scan_segments].
  { exists []. split; [done|]. intros o. split; [by intros ?%not_elem_of_nil|]. by intros (g & ?%not_elem_of_nil & _). }
  rewrite slice_at_ok by done. cbn [res_bind]. destruct (find_all_exact s (field (Z.to_nat (file_off g)) (Z.to_nat (file_size g)) data) Hok) as (hits & -> & _ & Hh).
  destruct IH as (l & -> & Hl). cbn [res_bind]. eexists. split; [done|]. intros o. rewrite elem_of_app, Hl.
  assert (o ∈ map (λ local, file_off g + Z.of_nat local) hits ↔ file_off g <= o ∧ o + Z.of_nat (sig_len s) <= file_off g + file_size g ∧ occurs s data (Z.to_nat o)) as ->.
  { change (map ?f ?l) with (f <$> l). rewrite list_elem_of_fmap. split.
    - intros (q & -> & Hq). apply Hh in Hq. apply occurs_in_slice in Hq as [H1 H2]; [|unfold zlen in Hle; lia]. split_and!; [lia|lia|].
      by replace (Z.to_nat (file_off g + Z.of_nat q)) with (Z.to_nat (file_off g) + q)%nat by lia.
    - intros (H1 & H2 & H3). exists (Z.to_nat (o - file_off g)). split; [lia|]. apply Hh, occurs_in_slice; [unfold zlen in Hle; lia|]. split; [lia|].
      by replace (Z.to_nat (file_off g) + Z.to_nat (o - file_off g))%nat with (Z.to_nat o) by lia. }
  split.
  - intros [H|(h & Hin & H)]; [exists g; split; [by left|done]|exists h; split; [by right|done]].
  - intros (h & Hin & H). apply elem_of_cons in Hin as [->|Hin]; [by left|right; by exists h].
Qed.

Lemma scan_elf_spec data s : sig_ok s → zlen data < 2 ^ 63 → table_fits data →
  ∃ l, scan_elf_executable data s = Ret l ∧
    ∀ o, o ∈ l ↔ is_elf64_le data = true ∧ 56 <= e_phentsize data ∧
      ∃ i seg, 0 <= i < e_phnum data ∧ exec_header data (e_phoff data + i * e_phentsize data) seg ∧
        file_off seg <= o ∧ o + Z.of_nat (sig_len s) <= file_off seg + file_size seg ∧ occurs s data (Z.to_nat o).
Proof.
  intros Hs Hd Ht. unfold scan_elf_executable, exec_segments. destruct (is_elf64_le data) eqn:Ee; cbn [negb res_bind]; cycle 1.
  { exists []. split; [done|]. intros o. split; [by intros ?%not_elem_of_nil|]. by intros (? & _). }
  assert (64 <= zlen data) as H64 by (unfold is_elf64_le in Ee; destruct (Z.leb_spec 64 (zlen data)); done).
  rewrite !read_le_ok by lia. cbn [res_bind]. change (Z.to_nat 8) with 8%nat. change (Z.to_nat 2) with 2%nat.
  fold (e_phoff data). fold (e_phentsize data). fold (e_phnum data). destruct (Z.ltb_spec (e_phentsize data) 56) as [H56|H56].
  { exists []. split; [done|]. intros o. split; [by intros ?%not_elem_of_nil|]. intros (_ & ? & _). lia. }
  pose proof (elf_field_bound data 0x20 8) as B1. pose proof (elf_field_bound data 0x38 2) as B2. fold (e_phoff data) in B1. fold (e_phnum data) in B2.
  destruct (segments_loop_spec data (e_phentsize data) (Z.to_nat (e_phnum data)) H56 (e_phoff data)) as (segs & -> & Hsegs); [done|lia|rewrite Z2Nat.id by lia; exact Ht|].
  rewrite Z2Nat.id in Hsegs by lia. cbn [res_bind].
  destruct (scan_segments_spec data s segs Hs) as (l & -> & Hl).
  { apply Forall_forall. intros g (i & _ & _ & _ & _ & -> & -> & Hle)%Hsegs. pose proof (elf_field_bound data (e_phoff data + i * e_phentsize data + 8) 8).
    pose proof (elf_field_bound data (e_phoff data + i * e_phentsize data + 32) 8). split_and!; [lia|lia|done]. }
  exists l. split; [done|]. intros o. rewrite Hl. split.
  - intros (g & (i & Hi & Hg)%Hsegs & H). split; [done|]. split; [done|]. exists i, g. tauto.
  - intros (_ & _ & i & g & Hi & Hg & H). exists g. split; [|done]. apply Hsegs. by exists i.
Qed.

(** On any file whose table of program headers does not run past the end of the
    address space, the scan returns, and what it returns is the file offsets, and
    only those, at which the signature occurs within an executable segment of a
    64-bit little-endian ELF image; on other files there are none. *)
Theorem scan_exact data s (Hs : sig_ok s) (Hd : zlen data < 2 ^ 63) (Ht : table_fits data) :
  ∃ l, scan_elf_executable data s = Ret l ∧
    ∀ o, o ∈ l ↔ is_elf64_le data = true ∧ 56 <= e_phentsize data ∧
      ∃ i seg, 0 <= i < e_phnum data ∧ exec_header data (e_phoff data + i * e_phentsize data) seg ∧
        file_off seg <= o ∧ o + Z.of_nat (sig_len s) <= file_off seg + file_size seg ∧ occurs s data (Z.to_nat o).
Proof. by apply scan_elf_spec. Qed.

(** A minimal image: an executable segment of sixteen bytes at 120. *)
Definition sample_elf (phoff : Z) : list byte :=
  [x7f; x45; x4c; x46; x02; x01] ++ replicate 26 x00 ++ le_bytes 8 phoff ++ replicate 14 x00 ++ le_bytes 2 56 ++ le_bytes 2 1 ++ replicate 6 x00 ++
  le_bytes 4 1 ++ le_bytes 4 5 ++ le_bytes 8 120 ++ replicate 16 x00 ++ le_bytes 8 16 ++ replicate 16 x00 ++
  [x90; x55; x48; x89; xe5; x90; x55; x48; x90; xe5] ++ replicate 6 x90.
Definition sample_sig : Signature := mkSig [x55; x48; x00; xe5] [xff; xff; x00; xff].

Example sample_sig_parse : sig_parse (B "55 48 ?? e5") = Some sample_sig.
Proof. reflexivity. Qed.

Lemma scan_exact_witness :
  table_fits (sample_elf 64) ∧ ∃ l, scan_elf_executable (sample_elf 64) sample_sig = Ret l ∧ l = [121; 126] ∧ 121 ∈ l.
Proof.
  assert (table_fits (sample_elf 64)) as Ht by (vm_compute; reflexivity). split; [exact Ht|].
  destruct (scan_exact (sample_elf 64) sample_sig) as (l & E & H); [split; [discriminate|reflexivity]|vm_compute; reflexivity|exact Ht|].
  exists l. split; [exact E|]. assert (l = [121; 126]) as El by (apply (f_equal (λ r, match r with Ret x => x | _ => [] end)) in E; cbn [fst] in E; rewrite <-E; vm_compute; reflexivity).
  split; [exact El|]. rewrite El. by left.
Defined.

(** An image whose table starts just below the end of the address space is not
    passed over: the check of the header's end wraps, and the read of it panics. *)
Example wrapped_table_panics : scan_elf_executable (sample_elf (2 ^ 64 - 16)) sample_sig = Panic.
Proof. vm_compute. reflexivity. Qed.
