(* ===== verification/EbpfTargets.v ===== *)
(** * The targets of the SSL probes (h-capture/src/ebpf/source.rs)

    Where in a binary the probes go, and the passes that keep them attached to
    every live inode of the configured targets. *)

From Stdlib Require Import Strings.Byte Strings.String ZArith Lia.
From stdpp Require Import base gmap sets list strings.
From S2P Require Import Prelude.
From S2P Require Import Net.
From S2P Require Import Decode.
From S2P Require Import Text.
From S2P Require Import Counters.
From S2P Require Import Sigscan.

Open Scope Z_scope.

Record EbpfTarget : Type := mkTarget {
  tg_binary : text;
  tg_flavor : text;
  tg_write_sig : option text;
  tg_read_sig : option text;
  tg_write_offset : option Z;
  tg_read_offset : option Z;
}.

(** ** Where the probes go *)

Record FlavorSig : Type := mkFlavor { fl_read_sig : text; fl_write_sig : text; fl_write_window : Z }.
Definition flavor_signatures (flavor : text) : option FlavorSig :=
  if bool_decide (flavor = B "bun" ∨ flavor = B "boringssl-bun" ∨ flavor = B "claude-code")
  then Some (mkFlavor (B "55 48 89 e5 41 57 41 56 53 50 48 83 bf 98 00 00 00 00 74")
               (B "55 48 89 e5 41 57 41 56 41 55 41 54 53 48 83 ec 18 41 89 d7 49 89 f6 48 89 fb") 0x10000)
  else None.

Definition resolve_windowed (data : list byte) (pattern : text) (anchor window : Z) : res (option Z) :=
  match sig_parse pattern with
  | None => Ret None
  | Some s =>
      let* hits := scan_elf_executable data s in
      Ret (head (List.filter (λ o, (anchor <=? o) && (o <? u64_sat_add anchor window)) hits))
  end.

Definition resolve_single_offset (data : list byte) (pattern : text) : res (option Z) :=
  match sig_parse pattern with
  | None => Ret None
  | Some s => let* hits := scan_elf_executable data s in Ret match hits with [off] => Some off | _ => None end
  end.

Definition target_has_source (t : EbpfTarget) : bool :=
  bool_decide (is_Some (tg_write_offset t)) || bool_decide (is_Some (tg_read_offset t)) ||
  bool_decide (is_Some (tg_write_sig t)) || bool_decide (is_Some (tg_read_sig t)) || bool_decide (is_Some (flavor_signatures (tg_flavor t))).

(** An offset from the configured signature, if there is none yet. *)
Definition offset_or (off : option Z) (data : list byte) (pattern : option text) : res (option Z) :=
  match off, pattern with
  | None, Some p => resolve_single_offset data p
  | _, _ => Ret off
  end.

Definition resolve_target_offsets (data : list byte) (t : EbpfTarget) : res (option Z * option Z) :=
  let read_off := tg_read_offset t in
  let write_off := tg_write_offset t in
  if bool_decide (is_Some read_off) && bool_decide (is_Some write_off) then Ret (read_off, write_off)
  else
    let* read_off := offset_or read_off data (tg_read_sig t) in
    let* write_off := offset_or write_off data (tg_write_sig t) in
    match flavor_signatures (tg_flavor t) with
    | None => Ret (read_off, write_off)
    | Some fs =>
        let* read_off := offset_or read_off data (Some (fl_read_sig fs)) in
        let* write_off :=
          match write_off, read_off with
          | None, Some anchor => resolve_windowed data (fl_write_sig fs) anchor (fl_write_window fs)
          | _, _ => Ret write_off
          end in
        Ret (read_off, write_off)
    end.

(** ** The host, as a pass sees it *)

Abbreviation Inode := (Z * Z)%type.
Record Host : Type := mkHost {
  host_exists : text → bool;
  host_proc : option (list text);
  host_link : Z → option text;
  host_inode : text → option Inode;
  host_read : text → option (list byte);
}.

Definition SLASH : byte := x2f.
Fixpoint split_slash (cur l : text) : list text :=
  match l with
  | [] => [cur]
  | b :: l' => if bool_decide (b = SLASH) then cur :: split_slash [] l' else split_slash (cur ++ [b]) l'
  end.
(** [Path::file_name]: the last component, if it is a name. *)
Definition file_name (path : text) : option text :=
  c ← last (List.filter (λ c, negb (bool_decide (c = [] ∨ c = B "."))) (split_slash [] path));
  if bool_decide (c = B "..") then None else Some c.

Definition exe_link_has_basename (link basename : text) : bool :=
  let path := if ends_with (B " (deleted)") link then take (length link - 10) link else link in
  bool_decide (file_name path = Some basename).

Definition parse_u32 (s : text) : option Z := n ← from_str_radix 10 s; if n <? 2 ^ 32 then Some n else None.

Definition target_pids (h : Host) (basename : text) : list Z :=
  match host_proc h with
  | None => []
  | Some entries =>
      omap (λ name, pid ← (from_utf8 name ≫= parse_u32);
              link ← host_link h pid;
              if exe_link_has_basename link basename then Some pid else None) entries
  end.

Definition exe_path (pid : Z) : text := B "/proc/" ++ to_radix 10 pid ++ B "/exe".

Definition target_basename (t : EbpfTarget) : text := default (tg_binary t) (file_name (tg_binary t)).
Definition target_candidates (h : Host) (t : EbpfTarget) : list text :=
  (if host_exists h (tg_binary t) then [tg_binary t] else []) ++ map exe_path (target_pids h (target_basename t)).

(** ** Attaching and detaching *)

(** The loaded programs: a link is a program and the link's number. Either call may
    fail, for a program that is missing as for the kernel's own reasons; what a
    failed detach is asked for is in [api_refused]. *)
Class UprobeApi (E : Type) : Type := {
  api_attach : E → string → Z → text → option Z * E;
  api_detach : E → string → Z → bool * E;
  api_live : E → gset (string * Z);
  api_refused : E → gset (string * Z);
}.
(** A new link is one that was not there; a detach takes its own link at most, and
    does take it unless it fails. *)
Class UprobeLaws (E : Type) `{UprobeApi E} : Prop := {
  attach_fresh e p o path id e' : api_attach e p o path = (Some id, e') →
    (p, id) ∉ api_live e ∧ api_live e' = {[(p, id)]} ∪ api_live e ∧ api_refused e' = api_refused e;
  attach_failed e p o path e' : api_attach e p o path = (None, e') → api_live e' = api_live e ∧ api_refused e' = api_refused e;
  detach_done e p id e' : api_detach e p id = (true, e') → api_live e' = api_live e ∖ {[(p, id)]} ∧ api_refused e' = api_refused e;
  detach_failed e p id e' : api_detach e p id = (false, e') →
    api_live e ∖ {[(p, id)]} ⊆ api_live e' ∧ api_live e' ⊆ api_live e ∧ api_refused e' = {[(p, id)]} ∪ api_refused e;
}.

Abbreviation InodeLinks := (list (string * Z)).

Section Targets.
Context {E : Type} `{API : UprobeApi E} `{HI : !HashIter (Z * Z) (list (string * Z))}.

(** A link that cannot be detached is logged and passed over. *)
Definition detach_links (e : E) (links : InodeLinks) : E := foldl (λ e x, (api_detach e x.1 x.2).2) e links.

Fixpoint attach_probes (probes : list (string * option Z)) (path : text) (e : E) (links : InodeLinks) : option InodeLinks * E :=
  match probes with
  | [] => (Some links, e)
  | (_, None) :: probes' => attach_probes probes' path e links
  | (name, Some off) :: probes' =>
      match api_attach e name off path with
      | (Some id, e) => attach_probes probes' path e (links ++ [(name, id)])
      | (None, e) => (None, detach_links e links)
      end
  end.
Definition attach_at (e : E) (path : text) (read_off write_off : option Z) : option InodeLinks * E :=
  attach_probes [("ssl_write", write_off); ("ssl_read_enter", read_off); ("ssl_read_exit", read_off)] path e [].

Record Scan : Type := mkScan {
  sc_ebpf : E;
  sc_seen : gset Inode;
  sc_attached : gmap Inode InodeLinks;
  sc_live : gset Inode;
  sc_newly : nat;
}.

Definition scan_candidate (h : Host) (t : EbpfTarget) (s : Scan) (path : text) : res Scan :=
  match host_inode h path with
  | None => Ret s
  | Some ino =>
      let s := mkScan (sc_ebpf s) (sc_seen s) (sc_attached s) ({[ino]} ∪ sc_live s) (sc_newly s) in
      if bool_decide (ino ∈ sc_seen s) then Ret s
      else
        match host_read h path with
        | None => Ret s
        | Some data =>
            let* off := resolve_target_offsets data t in
            let '(r, e) := attach_at (sc_ebpf s) path off.1 off.2 in
            let seen := {[ino]} ∪ sc_seen s in
            match r with
            | Some ((_ :: _) as links) => Ret (mkScan e seen (<[ino := links]> (sc_attached s)) (sc_live s) (S (sc_newly s)))
            | _ => Ret (mkScan e seen (sc_attached s) (sc_live s) (sc_newly s))
            end
        end
  end.
Fixpoint scan_candidates (h : Host) (t : EbpfTarget) (s : Scan) (paths : list text) : res Scan :=
  match paths with
  | [] => Ret s
  | p :: ps => let* s := scan_candidate h t s p in scan_candidates h t s ps
  end.
Fixpoint scan_targets (h : Host) (ts : list EbpfTarget) (s : Scan) : res Scan :=
  match ts with
  | [] => Ret s
  | t :: ts' =>
      let* s := (if target_has_source t then scan_candidates h t s (target_candidates h t) else Ret s) in
      scan_targets h ts' s
  end.

(** Dead inodes are detached and forgotten. *)
Fixpoint reap (dead : list Inode) (e : E) (attached : gmap Inode InodeLinks) : E * gmap Inode InodeLinks :=
  match dead with
  | [] => (e, attached)
  | ino :: dead' =>
      match attached !! ino with
      | Some links => reap dead' (detach_links e links) (delete ino attached)
      | None => reap dead' e attached
      end
  end.

Record Probes : Type := mkProbes { pr_ebpf : E; pr_seen : gset Inode; pr_attached : gmap Inode InodeLinks }.

Definition rescan_targets (h : Host) (ts : list EbpfTarget) (p : Probes) : res (nat * nat * Probes) :=
  let* s := scan_targets h ts (mkScan (pr_ebpf p) (pr_seen p) (pr_attached p) ∅ 0) in
  let dead := List.filter (λ ino, negb (bool_decide (ino ∈ sc_live s))) (map fst (hash_iter (sc_attached s))) in
  let '(e, attached) := reap dead (sc_ebpf s) (sc_attached s) in
  let seen := filter (λ ino, ino ∈ sc_live s ∨ is_Some (attached !! ino)) (sc_seen s) in
  Ret (sc_newly s, length dead, mkProbes e seen attached).
End Targets.

(** ** Links are not lost *)

Section Laws.
Context {E : Type} `{API : UprobeApi E} `{UL : !UprobeLaws E} `{HI : !HashIter (Z * Z) (list (string * Z))} `{HL : !HashIterLaws (Z * Z) (list (string * Z)) HI}.

Abbreviation Link := (string * Z)%type.

(** The links that an inode's entry holds. *)
Definition owned (attached : gmap Inode InodeLinks) (x : Link) : Prop := ∃ i ls, attached !! i = Some ls ∧ x ∈ ls.

(** The links of the libraries, [base], and those that an inode holds are live,
    each held once; and any other live link is one whose detach failed. *)
Definition links_ok (base : gset Link) (e : E) (attached : gmap Inode InodeLinks) : Prop :=
  (∀ x, x ∈ base ∨ owned attached x → x ∈ api_live e) ∧
  (∀ x, x ∈ api_live e → x ∈ base ∨ owned attached x ∨ x ∈ api_refused e) ∧
  (∀ x, x ∈ base → ¬ owned attached x) ∧
  ∀ i j ls ms x, attached !! i = Some ls → attached !! j = Some ms → x ∈ ls → x ∈ ms → i = j.
Definition scan_ok (base : gset Link) (s : Scan (E:=E)) : Prop :=
  links_ok base (sc_ebpf s) (sc_attached s) ∧ ∀ i, is_Some (sc_attached s !! i) → i ∈ sc_seen s.

Lemma detach_links_live links (e : E) :
  (∀ x, x ∈ api_live e → x ∉ links → x ∈ api_live (detach_links e links)) ∧
  (∀ x, x ∈ api_live (detach_links e links) → x ∈ api_live e ∧ (x ∉ links ∨ x ∈ api_refused (detach_links e links))) ∧
  api_refused e ⊆ api_refused (detach_links e links).
Proof.
  unfold detach_links. revert e; induction links as [|[p id] links IH]; intros e; cbn [foldl].
  { split_and!; [done| |done]. intros x Hx. split; [done|]. left. apply not_elem_of_nil. }
  destruct (api_detach e p id) as [ok e1] eqn:Ed. cbn [fst snd]. rewrite Ed. cbn [snd]. destruct (IH e1) as (I1 & I2 & I3). destruct ok.
  - destruct (detach_done _ _ _ _ Ed) as [Hl Hr]. rewrite Hl, Hr in *. setoid_rewrite not_elem_of_cons. split_and!; [set_solver| |done].
    intros x Hx. destruct (I2 x Hx) as [? ?]. set_solver.
  - destruct (detach_failed _ _ _ _ Ed) as (Hl1 & Hl2 & Hr). rewrite Hr in *. setoid_rewrite not_elem_of_cons. split_and!; [set_solver| |set_solver].
    intros x Hx. destruct (I2 x Hx) as [H1 H2]. split; [set_solver|]. destruct (decide (x = (p, id))); [|tauto]. right. set_solver.
Qed.

(** From [e] to [e'] no link is gone, and one that is new is one whose detach failed. *)
Definition undone (e e' : E) : Prop :=
  api_live e ⊆ api_live e' ∧ (∀ x, x ∈ api_live e' → x ∈ api_live e ∨ x ∈ api_refused e') ∧ api_refused e ⊆ api_refused e'.

Lemma attach_probes_live probes path (e0 : E) : ∀ (e : E) links,
  (∀ x, x ∈ links → x ∉ api_live e0) → (∀ x, x ∈ api_live e ↔ x ∈ api_live e0 ∨ x ∈ links) → api_refused e = api_refused e0 →
  match attach_probes probes path e links with
  | (Some ls, e') => (∀ x, x ∈ ls → x ∉ api_live e0) ∧ (∀ x, x ∈ api_live e' ↔ x ∈ api_live e0 ∨ x ∈ ls) ∧ api_refused e' = api_refused e0
  | (None, e') => undone e0 e'
  end.
Proof.
  induction probes as [|[name [off|]] probes IH]; intros e links Hf Hl Hr; cbn [attach_probes]; [done| |by apply IH].
  destruct (api_attach e name off path) as [[id|] e1] eqn:Ea.
  - destruct (attach_fresh _ _ _ _ _ _ Ea) as (Hn & Hlive & Hr1). rewrite Hl in Hn. apply IH; [| |congruence].
    + intros x [?| ->%list_elem_of_singleton]%elem_of_app; [by apply Hf|tauto].
    + intros x. rewrite Hlive, elem_of_union, elem_of_singleton, elem_of_app, list_elem_of_singleton, Hl. tauto.
  - destruct (attach_failed _ _ _ _ _ Ea) as [Hlive Hr1]. destruct (detach_links_live links e1) as (D1 & D2 & D3). rewrite Hlive, Hr1, Hr in *.
    split_and!; [|intros x [Hx ?]%D2; rewrite Hl in Hx; tauto|done]. intros x Hx. apply D1; [apply Hl; by left|]. intros Hx'. by apply (Hf x Hx').
Qed.

Lemma attach_at_live (e : E) path ro wo :
  match attach_at e path ro wo with
  | (Some ls, e') => (∀ x, x ∈ ls → x ∉ api_live e) ∧ (∀ x, x ∈ api_live e' ↔ x ∈ api_live e ∨ x ∈ ls) ∧ api_refused e' = api_refused e
  | (None, e') => undone e e'
  end.
Proof. apply attach_probes_live; [by intros x ?%not_elem_of_nil| |done]. intros x. split; [by left|by intros [?|?%not_elem_of_nil]]. Qed.

Lemma links_ok_undone base (e e' : E) attached : undone e e' → links_ok base e attached → links_ok base e' attached.
Proof. intros (U1 & U2 & U3) (H1 & H2 & H3). split; [intros x Hx; by apply U1, H1|]. split; [|done].
  intros x [Hx|?]%U2; [|tauto]. apply H2 in Hx as [?|[?|?]]; [tauto..|]. right; right. by apply U3.
Qed.

Lemma links_ok_insert base (e e' : E) attached i ls : links_ok base e attached → attached !! i = None →
  (∀ x, x ∈ ls → x ∉ api_live e) → (∀ x, x ∈ api_live e' ↔ x ∈ api_live e ∨ x ∈ ls) → api_refused e' = api_refused e →
  links_ok base e' (<[i := ls]> attached).
Proof.
  intros (H1 & H1' & H2 & H3) Hi Hf Hl Hr.
  assert (∀ x, owned (<[i := ls]> attached) x ↔ owned attached x ∨ x ∈ ls) as Ho.
  { intros x. unfold owned. split.
    - intros (j & ms & Hj & Hx). apply lookup_insert_Some in Hj as [[-> ->]|[_ Hj]]; [by right|left; by exists j, ms].
    - intros [(j & ms & Hj & Hx)|Hx]; [|exists i, ls; by rewrite lookup_insert_eq].
      exists j, ms. rewrite lookup_insert_ne; [done|]. intros ->. congruence. }
  split_and!.
  - intros x. rewrite Hl, Ho. specialize (H1 x). tauto.
  - intros x. rewrite Hl, Ho, Hr. specialize (H1' x). tauto.
  - intros x Hb. rewrite Ho. intros [?|Hx]; [by eapply H2|]. apply (Hf x Hx), H1. by left.
  - intros j k ms ns x Hj Hk Hx Hy. apply lookup_insert_Some in Hj as [[<- <-]|[Hij Hj]], Hk as [[<- <-]|[Hik Hk]].
    + done.
    + exfalso. apply (Hf x Hx), H1. right. by exists k, ns.
    + exfalso. apply (Hf x Hy), H1. right. by exists j, ms.
    + by eapply H3.
Qed.

(** What can be read of a file can be scanned. *)
Definition scannable (h : Host) : Prop := ∀ p data, host_read h p = Some data → zlen data < 2 ^ 63 ∧ table_fits data.

Lemma scan_returns data p s : zlen data < 2 ^ 63 → table_fits data → sig_parse p = Some s → ∃ l, scan_elf_executable data s = Ret l.
Proof. intros Hd Ht Hs. destruct (scan_elf_spec data s (sig_parse_ok _ _ Hs) Hd Ht) as (l & Hl & _). by exists l. Qed.

Lemma resolve_single_returns data p : zlen data < 2 ^ 63 → table_fits data → ∃ o, resolve_single_offset data p = Ret o.
Proof.
  intros Hd Ht. unfold resolve_single_offset. destruct (sig_parse p) as [s|] eqn:Es; [|by eexists].
  destruct (scan_returns data p s Hd Ht Es) as (l & ->). by eexists.
Qed.

Lemma offset_or_returns off data p : zlen data < 2 ^ 63 → table_fits data → ∃ o, offset_or off data p = Ret o.
Proof. intros Hd Ht. destruct off, p; cbn; try by eexists. by apply resolve_single_returns. Qed.

Lemma resolve_returns data t : zlen data < 2 ^ 63 → table_fits data → ∃ o, resolve_target_offsets data t = Ret o.
Proof.
  intros Hd Ht. unfold resolve_target_offsets. destruct (_ && _); [by eexists|].
  destruct (offset_or_returns (tg_read_offset t) data (tg_read_sig t) Hd Ht) as (r & ->). cbn [res_bind].
  destruct (offset_or_returns (tg_write_offset t) data (tg_write_sig t) Hd Ht) as (w & ->). cbn [res_bind].
  destruct (flavor_signatures _) as [fs|]; [|by eexists].
  destruct (offset_or_returns r data (Some (fl_read_sig fs)) Hd Ht) as (r' & ->). cbn [res_bind].
  destruct w, r'; cbn [res_bind]; try by eexists. unfold resolve_windowed. destruct (sig_parse _) as [s|] eqn:Es; cbn [res_bind]; [|by eexists].
  destruct (scan_returns data _ s Hd Ht Es) as (l & ->). cbn [res_bind]. by eexists.
Qed.

(** ** A pass *)

(** The paths a pass looks at, with an inode behind them. *)
Definition pass_paths (h : Host) (ts : list EbpfTarget) : list text :=
  concat (map (λ t, if target_has_source t then target_candidates h t else []) ts).

(** What a run over [paths] leaves. *)
Definition after_paths (h : Host) (s s' : Scan (E:=E)) (paths : list text) : Prop :=
  (∀ i, i ∈ sc_live s' ↔ i ∈ sc_live s ∨ ∃ p, p ∈ paths ∧ host_inode h p = Some i) ∧
  (∀ i, i ∈ sc_seen s' ↔ i ∈ sc_seen s ∨ ∃ p, p ∈ paths ∧ host_inode h p = Some i ∧ is_Some (host_read h p)) ∧
  (∀ i ls, sc_attached s !! i = Some ls → sc_attached s' !! i = Some ls) ∧
  (∀ i, is_Some (sc_attached s' !! i) → is_Some (sc_attached s !! i) ∨ i ∈ sc_live s') ∧
  (size (sc_attached s') = size (sc_attached s) + (sc_newly s' - sc_newly s))%nat ∧ (sc_newly s <= sc_newly s')%nat.

Lemma after_paths_refl h (s : Scan (E:=E)) : after_paths h s s [].
Proof.
  unfold after_paths. split_and!; try done; try lia.
  - intros i. split; [by left|]. by intros [?|(p & ?%not_elem_of_nil & _)].
  - intros i. split; [by left|]. by intros [?|(p & ?%not_elem_of_nil & _)].
  - intros i ?. by left.
Qed.

Lemma after_paths_trans h (s1 s2 s3 : Scan (E:=E)) p1 p2 : after_paths h s1 s2 p1 → after_paths h s2 s3 p2 → after_paths h s1 s3 (p1 ++ p2).
Proof.
  intros (A1 & A2 & A3 & A4 & A5 & A6) (B1 & B2 & B3 & B4 & B5 & B6). unfold after_paths. split_and!; try lia.
  - intros i. rewrite B1, A1. setoid_rewrite elem_of_app. naive_solver.
  - intros i. rewrite B2, A2. setoid_rewrite elem_of_app. naive_solver.
  - intros i ls Hi. by apply B3, A3.
  - intros i [H|H]%B4; [|by right]. apply A4 in H as [?|?]; [by left|right]. apply B1. by left.
Qed.

Lemma scan_candidate_spec h t base s p : scannable h → scan_ok base s →
  ∃ s', scan_candidate h t s p = Ret s' ∧ scan_ok base s' ∧ after_paths h s s' [p].
Proof.
  intros Hsc [Hlinks Hseen]. unfold scan_candidate.
  assert (∀ P : text → Prop, (∃ q, q ∈ [p] ∧ P q) ↔ P p) as Hone by (intros P; split; [intros (q & ->%list_elem_of_singleton & ?); done|intros ?; exists p; split; [by left|done]]).
  unfold after_paths. setoid_rewrite Hone. destruct (host_inode h p) as [ino|] eqn:Ei; cycle 1.
  { exists s. split; [done|]. split; [done|]. split_and!; try done; try lia; try naive_solver. }
  assert (∀ i (L : gset Inode), i ∈ {[ino]} ∪ L ↔ i ∈ L ∨ Some ino = Some i) as Hu by (intros i L; rewrite elem_of_union, elem_of_singleton; naive_solver).
  case_bool_decide as Hin.
  { eexists. split; [done|]. cbn [sc_ebpf sc_seen sc_attached sc_live sc_newly] in *. split; [done|]. split_and!; try done; try lia; naive_solver. }
  cbn [sc_ebpf sc_seen sc_attached sc_live sc_newly]. destruct (host_read h p) as [data|] eqn:Er; cycle 1.
  { eexists. split; [done|]. split; [done|]. cbn [sc_ebpf sc_seen sc_attached sc_live sc_newly] in *. split_and!; try done; try lia; naive_solver.
    }
  destruct (Hsc p data Er) as [Hd Ht]. destruct (resolve_returns data t Hd Ht) as (off & ->). cbn [res_bind].
  pose proof (attach_at_live (sc_ebpf s) p off.1 off.2) as Hat. destruct (attach_at (sc_ebpf s) p off.1 off.2) as [[[|x ls]|] e'].
  - eexists. split; [done|]. destruct Hat as [_ Hat]. split.
    + split; [|cbn; intros i Hi; rewrite Hu; left; by apply Hseen]. eapply links_ok_undone; [|exact Hlinks]. destruct Hat as [Hat Hr].
      split; [intros y ?; apply Hat; by left|]. split; [intros y [?|?%not_elem_of_nil]%Hat; [by left|done]|]. cbn. by rewrite Hr.
    + cbn [sc_seen sc_attached sc_live sc_newly]. split_and!; try done; try lia; naive_solver.
  - eexists. split; [done|]. destruct Hat as (Hf & Hat & Hr).
    assert (sc_attached s !! ino = None) as Hnone by (destruct (sc_attached s !! ino) eqn:Ea; [exfalso; apply Hin, Hseen; by eexists|done]). split.
    + split; cbn [sc_ebpf sc_seen sc_attached].
      * by eapply links_ok_insert.
      * intros i. destruct (decide (i = ino)) as [->|Hne]; [set_solver|]. rewrite lookup_insert_ne by done. intros Hi. rewrite Hu. left. by apply Hseen.
    + cbn [sc_seen sc_attached sc_live sc_newly]. split_and!; try lia.
      * naive_solver.
      * naive_solver.
      * intros i l Hi. rewrite lookup_insert_ne; [done|]. intros ->. congruence.
      * intros i. destruct (decide (i = ino)) as [->|Hne]; [intros _; right; set_solver|]. rewrite lookup_insert_ne by done. by left.
      * rewrite map_size_insert_None by done. lia.
  - eexists. split; [done|]. split.
    + split; [|cbn; intros i Hi; rewrite Hu; left; by apply Hseen]. by eapply links_ok_undone.
    + cbn [sc_seen sc_attached sc_live sc_newly]. split_and!; try done; try lia; naive_solver.
Qed.

Lemma scan_candidates_spec h t base ps : scannable h → ∀ s, scan_ok base s →
  ∃ s', scan_candidates h t s ps = Ret s' ∧ scan_ok base s' ∧ after_paths h s s' ps.
Proof.
  intros Hsc. induction ps as [|p ps IH]; intros s Hs; cbn [scan_candidates]; [exists s; split; [done|]; split; [done|apply after_paths_refl]|].
  destruct (scan_candidate_spec h t base s p Hsc Hs) as (s1 & -> & H1 & A1). cbn [res_bind]. destruct (IH s1 H1) as (s2 & -> & H2 & A2).
  exists s2. split; [done|]. split; [done|]. by eapply (after_paths_trans h s s1 s2 [p] ps).
Qed.

Lemma scan_targets_spec h base ts : scannable h → ∀ s, scan_ok base s →
  ∃ s', scan_targets h ts s = Ret s' ∧ scan_ok base s' ∧ after_paths h s s' (pass_paths h ts).
Proof.
  intros Hsc. induction ts as [|t ts IH]; intros s Hs; cbn [scan_targets]; [exists s; split; [done|]; split; [done|apply after_paths_refl]|].
  unfold pass_paths. cbn [map concat]. destruct (target_has_source t).
  - destruct (scan_candidates_spec h t base (target_candidates h t) Hsc s Hs) as (s1 & -> & H1 & A1). cbn [res_bind]. destruct (IH s1 H1) as (s2 & -> & H2 & A2).
    exists s2. split; [done|]. split; [done|]. by eapply after_paths_trans.
  - cbn [res_bind app]. by apply IH.
Qed.

Lemma reap_spec base dead : ∀ (e : E) attached, NoDup dead → (∀ i, i ∈ dead → is_Some (attached !! i)) → links_ok base e attached →
  let '(e', attached') := reap dead e attached in
  links_ok base e' attached' ∧ (∀ i, attached' !! i = if decide (i ∈ dead) then None else attached !! i) ∧ (size attached' + length dead = size attached)%nat.
Proof.
  induction dead as [|d dead IH]; intros e attached Hnd Hin Hok; cbn [reap length].
  { split; [done|]. split; [|lia]. intros i. rewrite decide_False; [done|apply not_elem_of_nil]. }
  apply NoDup_cons in Hnd as [Hd Hnd]. destruct (Hin d) as [ls Hls]; [by left|]. rewrite Hls.
  specialize (IH (detach_links e ls) (delete d attached) Hnd).
  assert (∀ x, owned (delete d attached) x ↔ owned attached x ∧ x ∉ ls) as Ho.
  { destruct Hok as (_ & _ & _ & H3). intros x. unfold owned. split.
    - intros (i & ms & Hi & Hx). apply lookup_delete_Some in Hi as [Hne Hi]. split; [by exists i, ms|]. intros Hx'. apply Hne. by eapply H3.
    - intros [(i & ms & Hi & Hx) Hx']. exists i, ms. rewrite lookup_delete_ne; [done|]. intros <-. rewrite Hls in Hi. by injection Hi as ->. }
  destruct (reap dead (detach_links e ls) (delete d attached)) as [e' attached']. destruct IH as (H1 & H2 & H3).
  - intros i Hi. rewrite lookup_delete_ne by (intros ->; done). apply Hin. by right.
  - destruct Hok as (L1 & L1' & L2 & L3), (detach_links_live ls e) as (D1 & D2 & D3). split_and!.
    + intros x Hx. apply D1; [apply L1; rewrite Ho in Hx; tauto|]. intros Hx'. destruct Hx as [Hb|[_ ?]%Ho]; [|done]. apply (L2 x Hb). by exists d, ls.
    + intros x [Hx Hx']%D2. rewrite Ho. destruct (decide (x ∈ ls)); [tauto|]. apply L1' in Hx as [?|[?|?]]; [tauto..|]. right; right. by apply D3.
    + intros x Hb. rewrite Ho. intros [? _]. by eapply L2.
    + intros i j ms ns x Hi Hj. apply lookup_delete_Some in Hi as [_ Hi], Hj as [_ Hj]. by eapply L3.
  - split; [done|]. split.
    + intros i. rewrite H2. destruct (decide (i = d)) as [->|Hne].
      * rewrite (decide_True (P := d ∈ d :: dead)) by by left. case_decide; [done|]. by rewrite lookup_delete_eq.
      * rewrite lookup_delete_ne by done. destruct (decide (i ∈ dead)); [rewrite decide_True by by right|rewrite decide_False by (rewrite elem_of_cons; tauto)]; done.
    + assert (size attached = S (size (delete d attached))) as ->; [|lia].
      rewrite <-(insert_delete_id attached d ls Hls) at 1. rewrite map_size_insert_None; [done|apply lookup_delete_eq].
Qed.

(** A binary of the targets in which no offset is found: its signatures miss. *)
Definition sig_miss (h : Host) (ts : list EbpfTarget) (i : Inode) : Prop :=
  ∃ t path data, t ∈ ts ∧ target_has_source t = true ∧ path ∈ target_candidates h t ∧ host_inode h path = Some i ∧
    host_read h path = Some data ∧ resolve_target_offsets data t = Ret (None, None).

Lemma elem_of_pass_paths h ts t path : t ∈ ts → target_has_source t = true → path ∈ target_candidates h t → path ∈ pass_paths h ts.
Proof. intros Ht Hs Hp. unfold pass_paths. apply list_elem_of_In, in_concat. exists (target_candidates h t). split; [|by apply list_elem_of_In]. apply in_map_iff. exists t. rewrite Hs. split; [done|by apply list_elem_of_In]. Qed.

(** C36: After any pass over files that can be scanned, however attaching and
    detaching fail: the links of the libraries and those that an attached inode
    holds are live, each held once, and any other link that is live is one whose
    detach failed; the attached inodes are live ones, and those that stay live keep
    their links; remembered as tried are live inodes only, and among them every
    attached one, every one whose signatures miss and every one remembered before,
    while one that could not be read is tried again; and the counts are what
    changed. *)
Theorem rescan_tracks_links h ts base (p : Probes (E:=E)) (Hsc : scannable h)
    (Hok : links_ok base (pr_ebpf p) (pr_attached p)) (Hseen : ∀ i, is_Some (pr_attached p !! i) → i ∈ pr_seen p) :
  let live i := ∃ path, path ∈ pass_paths h ts ∧ host_inode h path = Some i in
  ∃ newly detached p', rescan_targets h ts p = Ret (newly, detached, p') ∧
    links_ok base (pr_ebpf p') (pr_attached p') ∧
    (∀ i, is_Some (pr_attached p' !! i) → live i ∧ i ∈ pr_seen p') ∧
    (∀ i ls, pr_attached p !! i = Some ls → live i → pr_attached p' !! i = Some ls) ∧
    (∀ i, i ∈ pr_seen p' → live i ∧ (i ∈ pr_seen p ∨ ∃ path, path ∈ pass_paths h ts ∧ host_inode h path = Some i ∧ is_Some (host_read h path))) ∧
    (∀ i, sig_miss h ts i ∨ live i ∧ i ∈ pr_seen p → i ∈ pr_seen p') ∧
    (size (pr_attached p') + detached = size (pr_attached p) + newly)%nat.
Proof.
  intros live. unfold rescan_targets.
  destruct (scan_targets_spec h base ts Hsc (mkScan (pr_ebpf p) (pr_seen p) (pr_attached p) ∅ 0)) as (s & -> & [Hlk Hsn] & A1 & A2 & A3 & A4 & A5 & A6); [by split|].
  cbn [res_bind sc_ebpf sc_seen sc_attached sc_live sc_newly] in *.
  assert (∀ i, i ∈ sc_live s ↔ live i) as Hlive by (intros i; rewrite A1; split; [intros [?%elem_of_empty|?]; done|by right]).
  set (dead := List.filter (λ ino, negb (bool_decide (ino ∈ sc_live s))) (map fst (hash_iter (sc_attached s)))).
  assert (∀ i, i ∈ dead ↔ is_Some (sc_attached s !! i) ∧ ¬ live i) as Hdead.
  { intros i. unfold dead. rewrite <-Hlive, list_elem_of_In, filter_In, <-list_elem_of_In, negb_true_iff, bool_decide_eq_false.
    change (map fst ?l) with (l.*1). rewrite list_elem_of_fmap. split.
    - intros [([j ls] & -> & Hj) ?]. split; [|done]. exists ls. by apply elem_of_hash_iter.
    - intros [[ls Hls] ?]. split; [|done]. exists (i, ls). split; [done|]. by apply elem_of_hash_iter. }
  assert (NoDup dead) as Hnd by (unfold dead; apply NoDup_ListNoDup, List.NoDup_filter, NoDup_ListNoDup, NoDup_hash_iter).
  pose proof (reap_spec base dead (sc_ebpf s) (sc_attached s) Hnd (λ i Hi, proj1 (proj1 (Hdead i) Hi)) Hlk) as Hr.
  destruct (reap dead (sc_ebpf s) (sc_attached s)) as [e' attached']. destruct Hr as (R1 & R2 & R3).
  eexists _, _, _. split; [done|]. cbn [pr_ebpf pr_seen pr_attached].
  assert (∀ i, is_Some (attached' !! i) ↔ is_Some (sc_attached s !! i) ∧ live i) as Hatt.
  { intros i. rewrite R2. case_decide as Hd; rewrite Hdead in Hd; [split; [by intros [? ?]|tauto]|]. split; [|tauto].
    intros Hi. split; [done|]. apply Hlive. destruct (decide (i ∈ sc_live s)) as [|Hn]; [done|]. exfalso. apply Hd. split; [done|]. by rewrite <-Hlive. }
  assert (∀ i, i ∈ filter (λ ino, ino ∈ sc_live s ∨ is_Some (attached' !! ino)) (sc_seen s) ↔ i ∈ sc_seen s ∧ live i) as Hs'
    by (intros i; rewrite elem_of_filter, Hatt, Hlive; tauto).
  split_and!; [done| | | | |lia].
  - intros i [Hi Hl]%Hatt. split; [done|]. apply Hs'. split; [by apply Hsn|done].
  - intros i ls Hi Hl. rewrite R2, decide_False by (rewrite Hdead; tauto). by apply A3.
  - intros i. rewrite Hs', A2. tauto.
  - intros i [(t & path & data & Ht & Hs & Hp & Hi & Hd & _)|[Hl Hi]]; apply Hs'; rewrite A2; [|by split; [left|]].
    assert (path ∈ pass_paths h ts) as Hpp by by eapply elem_of_pass_paths.
    split; [right|]; exists path; [|done]. split; [done|]. split; [done|]. by rewrite Hd.
Qed.
End Laws.

(** ** An example *)

Section Sample.
(** Links numbered as they are made, an offset at which attaching fails and a
    program whose links cannot be detached. *)
Record SampleEbpf : Type := mkSampleEbpf { se_next : Z; se_live : gset (string * Z); se_refused : gset (string * Z) }.
#[local] Instance sample_api : UprobeApi SampleEbpf := {
  api_attach e p o path :=
    if o =? 7 then (None, e)
    else (Some (se_next e), mkSampleEbpf (se_next e + 1) ({[(p, se_next e)]} ∪ filter (λ x, x.2 < se_next e) (se_live e)) (se_refused e));
  api_detach e p id :=
    if bool_decide (p = "ssl_read_enter"%string) then (false, mkSampleEbpf (se_next e) (se_live e) ({[(p, id)]} ∪ se_refused e))
    else (true, mkSampleEbpf (se_next e) (se_live e ∖ {[(p, id)]}) (se_refused e));
  api_live e := filter (λ x, x.2 < se_next e) (se_live e);
  api_refused e := se_refused e;
}.
#[local] Instance sample_api_laws : UprobeLaws SampleEbpf.
Proof.
  split; cbn; intros e p.
  - intros o path id e' H. destruct (o =? 7); [done|]. injection H as <- <-. cbn. split_and!; [rewrite elem_of_filter; cbn; lia| |done].
    apply set_eq. intros x. rewrite elem_of_filter, !elem_of_union, !elem_of_filter, elem_of_singleton. cbn. split; [intros [? [->|[? ?]]]; [by left|by right]|].
    intros [->|[? ?]]; cbn; [split; [lia|by left]|split; [lia|by right]].
  - intros o path e' H. destruct (o =? 7); [|done]. by injection H as <-.
  - intros id e' H. case_bool_decide; [done|]. injection H as <-. cbn. split; [|done]. apply set_eq. intros x. rewrite elem_of_filter, !elem_of_difference, elem_of_filter. tauto.
  - intros id e' H. case_bool_decide; [|done]. injection H as <-. cbn. set_solver.
Qed.
#[local] Instance sample_order : HashIter (Z * Z) (list (string * Z)) := hash_iter_std _ _.
#[local] Instance sample_order_laws : HashIterLaws (Z * Z) (list (string * Z)) sample_order := hash_iter_std_laws _ _.

(** A binary with both offsets configured: first the build on disk, then a
    session that still runs it after an update put another one there. *)
Definition sample_target : EbpfTarget := mkTarget (B "/opt/bin/claude") (B "boringssl") None None (Some 64) (Some 32).
Definition sample_host (on_disk : Z) (session : option Z) : Host := {|
  host_exists p := true;
  host_proc := Some [B "self"; B "42"];
  host_link pid := match session with Some _ => Some (B "/opt/bin/.claude-x1/claude (deleted)") | None => None end;
  host_inode p := if bool_decide (p = B "/opt/bin/claude") then Some (1, on_disk) else (λ i, (1, i)) <$> session;
  host_read p := Some [];
|}.
Definition no_probes : Probes (E:=SampleEbpf) := mkProbes (mkSampleEbpf 0 ∅ ∅) ∅ ∅.

Example rescan_follows :
  match rescan_targets (sample_host 100 None) [sample_target] no_probes with
  | Ret (1%nat, 0%nat, p1) =>
      map_to_list (pr_attached p1) = [((1, 100), [("ssl_write"%string, 0); ("ssl_read_enter"%string, 1); ("ssl_read_exit"%string, 2)])] ∧
      match rescan_targets (sample_host 200 (Some 100)) [sample_target] p1 with
      | Ret (1%nat, 0%nat, p2) =>
          match rescan_targets (sample_host 200 None) [sample_target] p2 with
          | Ret (0%nat, 1%nat, p3) => map fst (map_to_list (pr_attached p3)) = [(1, 200)] ∧ size (api_live (pr_ebpf p3)) = 4%nat ∧
              api_refused (pr_ebpf p3) = {[("ssl_read_enter"%string, 1)]}
          | _ => False
          end
      | _ => False
      end
  | _ => False
  end.
Proof. vm_compute. done. Qed.

(** The binary was replaced, and no session runs the old one. *)
Definition old_links : InodeLinks := [("ssl_write"%string, 0); ("ssl_read_enter"%string, 1); ("ssl_read_exit"%string, 2)].
Definition old_probes : Probes (E:=SampleEbpf) := mkProbes (mkSampleEbpf 3 (list_to_set old_links) ∅) {[(1, 100)]} {[(1, 100) := old_links]}.

Lemma old_attached i ls : pr_attached old_probes !! i = Some ls ↔ (1, 100) = i ∧ old_links = ls.
Proof. apply lookup_singleton_Some. Qed.

Lemma rescan_tracks_links_witness :
  ∃ p', rescan_targets (sample_host 200 None) [sample_target] old_probes = Ret (1%nat, 1%nat, p') ∧
    links_ok ∅ (pr_ebpf p') (pr_attached p') ∧ (1, 100) ∉ pr_seen p'.
Proof.
  destruct (rescan_tracks_links (sample_host 200 None) [sample_target] ∅ old_probes) as (n & d & p' & E & H & _ & _ & Hs & _).
  - intros p data [= <-]. vm_compute. split; reflexivity.
  - assert (∀ x, owned (pr_attached old_probes) x ↔ x ∈ old_links) as Ho.
    { intros x. split; [by intros (i & ls & [_ <-]%old_attached & Hx)|]. intros Hx. exists (1, 100), old_links. split; [by apply old_attached|done]. }
    split; [|split; [|split]].
    + intros x [?|Hx%Ho]; [set_solver|]. apply elem_of_filter. split; [|by apply elem_of_list_to_set].
      by repeat (apply elem_of_cons in Hx as [->|Hx]; [done|]); apply not_elem_of_nil in Hx.
    + intros x [_ Hx]%elem_of_filter. right; left. apply Ho. by apply elem_of_list_to_set in Hx.
    + intros x Hx. set_solver.
    + intros i j ls ms x [<- _]%old_attached [<- _]%old_attached. done.
  - intros i [ls [<- _]%old_attached]. by apply elem_of_singleton.
  - assert (n = 1%nat ∧ d = 1%nat) as [-> ->].
    { assert (rescan_targets (sample_host 200 None) [sample_target] old_probes = Ret (1%nat, 1%nat, p')) as E'; [|rewrite E in E'; by injection E'].
      revert E. vm_compute. by intros [= <- <- <-]. }
    exists p'. split; [exact E|]. split; [exact H|].
    intros [(path & [Hp|Hp%not_elem_of_nil]%elem_of_cons & Hi) _]%Hs; [|done]. rewrite Hp in Hi. vm_compute in Hi. discriminate Hi.
Defined.
End Sample.
