(* ===== verification/EbpfProg.v ===== *)
(** * The SSL probes (h-ebpf-common/src/lib.rs, h-ebpf-prog/src/main.rs)

    The record that the kernel's probes write and userspace reads, and the probes
    themselves over the maps they keep. *)

From Stdlib Require Import Strings.Byte ZArith Lia.
From stdpp Require Import base gmap sets list strings.
From S2P Require Import Prelude.
From S2P Require Import Net.
From S2P Require Import Decode.
From S2P Require Import Synth.

Open Scope Z_scope.

(** ** The record *)

Definition COMM_LEN : nat := 16.
Definition DATA_CAP : Z := 32768.
Definition DATA_WRITE : Z := 1.
Definition DATA_READ : Z := 2.
Definition CLOSE : Z := 3.

Record RawSslEvent : Type := mkRawEvent {
  re_kind : Z;
  re_pid : Z;
  re_conn_id : Z;
  re_ktime_ns : Z;
  re_seq_off : Z;
  re_data_len : Z;
  re_comm : list byte;
  re_data : list byte;
}.

(** [size_of::<SslEvent>()]: the fields end at 52 + 32768, and the alignment is
    that of a [u64]. *)
Definition SIZE : Z := 32824.

Definition raw_event_ok (r : RawSslEvent) : Prop :=
  0 <= re_kind r < 2 ^ 32 ∧ 0 <= re_pid r < 2 ^ 32 ∧ 0 <= re_conn_id r < 2 ^ 64 ∧ 0 <= re_ktime_ns r < 2 ^ 64 ∧
  0 <= re_seq_off r < 2 ^ 64 ∧ 0 <= re_data_len r < 2 ^ 32 ∧ length (re_comm r) = COMM_LEN ∧ zlen (re_data r) = DATA_CAP.

(** The record in memory, little-endian, with its four bytes of padding. *)
Definition raw_event_bytes (r : RawSslEvent) (pad : list byte) : list byte :=
  le_bytes 4 (re_kind r) ++ le_bytes 4 (re_pid r) ++ le_bytes 8 (re_conn_id r) ++ le_bytes 8 (re_ktime_ns r) ++
  le_bytes 8 (re_seq_off r) ++ le_bytes 4 (re_data_len r) ++ re_comm r ++ re_data r ++ pad.

(** [read_unaligned]. *)
Definition raw_event_of_bytes (l : list byte) : RawSslEvent :=
  mkRawEvent (le_combine (field 0 4 l)) (le_combine (field 4 4 l)) (le_combine (field 8 8 l)) (le_combine (field 16 8 l))
    (le_combine (field 24 8 l)) (le_combine (field 32 4 l)) (field 36 COMM_LEN l) (field 52 (Z.to_nat DATA_CAP) l).

Lemma le_combine_bytes n z : 0 <= z < 256 ^ Z.of_nat n → le_combine (le_bytes n z) = z.
Proof. intros H. rewrite le_combine_le_bytes. by apply Z.mod_small. Qed.

Lemma raw_event_roundtrip r pad : raw_event_ok r → raw_event_of_bytes (raw_event_bytes r pad) = r.
Proof.
  intros (H1 & H2 & H3 & H4 & H5 & H6 & H7 & H8). unfold raw_event_of_bytes, raw_event_bytes.
  assert (length (re_data r) = Z.to_nat DATA_CAP) as Hd by (unfold zlen in H8; lia).
  destruct r as [kind pid conn kt off len comm data]. cbn [re_kind re_pid re_conn_id re_ktime_ns re_seq_off re_data_len re_comm re_data] in *.
  assert (∀ o n (p q : list byte) k, length p = k → (k <= o)%nat → field o n (p ++ q) = field (o - k) n q) as Hskip
    by (intros o n p q k <- Hk; by apply field_app_skip).
  assert (∀ k z, length (le_bytes k z) = k) as Hle by (intros; apply length_le_bytes).
  f_equal.
  - rewrite field_app_here by done. by apply le_combine_bytes.
  - rewrite (Hskip 4%nat _ _ _ 4%nat) by (done || lia). rewrite field_app_here by done. by apply le_combine_bytes.
  - do 2 rewrite (Hskip _ _ _ _ 4%nat) by (done || lia). rewrite field_app_here by done. by apply le_combine_bytes.
  - do 2 rewrite (Hskip _ _ _ _ 4%nat) by (done || lia). rewrite (Hskip _ _ _ _ 8%nat) by (done || lia).
    rewrite field_app_here by done. by apply le_combine_bytes.
  - do 2 rewrite (Hskip _ _ _ _ 4%nat) by (done || lia). do 2 rewrite (Hskip _ _ _ _ 8%nat) by (done || lia).
    rewrite field_app_here by done. by apply le_combine_bytes.
  - do 2 rewrite (Hskip _ _ _ _ 4%nat) by (done || lia). do 3 rewrite (Hskip _ _ _ _ 8%nat) by (done || lia).
    rewrite field_app_here by done. by apply le_combine_bytes.
  - do 2 rewrite (Hskip _ _ _ _ 4%nat) by (done || lia). do 3 rewrite (Hskip _ _ _ _ 8%nat) by (done || lia).
    rewrite (Hskip _ _ _ _ 4%nat) by (done || lia). by apply field_app_here.
  - do 2 rewrite (Hskip _ _ _ _ 4%nat) by (done || lia). do 3 rewrite (Hskip _ _ _ _ 8%nat) by (done || lia).
    rewrite (Hskip _ _ _ _ 4%nat) by (done || lia). rewrite (Hskip _ _ _ _ 16%nat) by (done || lia). by apply field_app_here.
Qed.

Lemma length_raw_event_bytes r pad : raw_event_ok r → length pad = 4%nat → zlen (raw_event_bytes r pad) = SIZE.
Proof.
  intros (_ & _ & _ & _ & _ & _ & H7 & H8) Hp. unfold raw_event_bytes. rewrite !zlen_app, H8. unfold zlen.
  rewrite !length_le_bytes, H7, Hp. reflexivity.
Qed.

(** ** The probes *)

(** The maps: the next offset of each connection, by direction; the arguments of
    each thread's [SSL_read]. *)
Record ReadArgs : Type := mkReadArgs { ra_ssl : Z; ra_buf : Z }.
Record Kernel : Type := mkKernel { WRITE_OFF : gmap Z Z; READ_OFF : gmap Z Z; READ_ARGS : gmap Z ReadArgs }.
Definition kernel_new : Kernel := mkKernel ∅ ∅ ∅.

(** What a probe finds when it runs: the thread; whether the maps take one more
    entry; the place that the ring gives for a record, if any, with what it held
    before, the clock and the name of the process at that time; and what copying
    the byte at an address yields, whether it can be read or not. *)
Record Slot : Type := mkSlot { slot_prior : RawSslEvent; slot_ktime : Z; slot_comm : option (list byte) }.
Record ProbeEnv : Type := mkEnv {
  pe_pid_tgid : Z;
  pe_insert : bool;
  pe_reserve : Z → option Slot;
  pe_mem : Z → byte;
}.
Definition slot_ok (s : Slot) : Prop :=
  raw_event_ok (slot_prior s) ∧ 0 <= slot_ktime s < 2 ^ 64 ∧ ∀ c, slot_comm s = Some c → length c = COMM_LEN.
Definition env_ok (e : ProbeEnv) : Prop := 0 <= pe_pid_tgid e < 2 ^ 64 ∧ ∀ i s, pe_reserve e i = Some s → slot_ok s.

(** [bpf_probe_read_user] of [n] bytes. *)
Definition read_user (e : ProbeEnv) (n : nat) (addr : Z) : list byte :=
  map (λ i, pe_mem e (wrap 64 (addr + Z.of_nat i))) (seq 0 n).

Definition off_map (k : Kernel) (is_write : bool) : gmap Z Z := if is_write then WRITE_OFF k else READ_OFF k.
Definition stream_off (k : Kernel) (conn_id : Z) (is_write : bool) : Z := default 0 (off_map k is_write !! conn_id).
Definition set_stream_off (e : ProbeEnv) (k : Kernel) (conn_id : Z) (is_write : bool) (next : Z) : Kernel :=
  if pe_insert e then
    if is_write then mkKernel (<[conn_id := next]> (WRITE_OFF k)) (READ_OFF k) (READ_ARGS k)
    else mkKernel (WRITE_OFF k) (<[conn_id := next]> (READ_OFF k)) (READ_ARGS k)
  else k.

Definition MAX_CHUNKS : nat := 8.

Definition emit_chunk_at (e : ProbeEnv) (ev_kind ssl buf start len base_off : Z) : list RawSslEvent :=
  if len <=? start then []
  else
    let remaining := len - start in
    let n := if DATA_CAP <? remaining then DATA_CAP else remaining in
    match pe_reserve e start with
    | None => []
    | Some s =>
        [mkRawEvent ev_kind (wrap 32 (Z.shiftr (pe_pid_tgid e) 32)) ssl (slot_ktime s) (wrap 64 (base_off + start)) n
           (default (re_comm (slot_prior s)) (slot_comm s))
           (read_user e (Z.to_nat n) (wrap 64 (buf + start)) ++ drop (Z.to_nat n) (re_data (slot_prior s)))]
    end.

Definition emit_data (e : ProbeEnv) (k : Kernel) (ev_kind ssl buf len : Z) : list RawSslEvent * Kernel :=
  let is_write := ev_kind =? DATA_WRITE in
  let base := stream_off k ssl is_write in
  (concat (map (λ i, emit_chunk_at e ev_kind ssl buf (Z.of_nat i * DATA_CAP) len base) (seq 0 MAX_CHUNKS)),
   set_stream_off e k ssl is_write (wrap 64 (base + len))).

Definition emit_close (e : ProbeEnv) (k : Kernel) (ssl : Z) : list RawSslEvent * Kernel :=
  (match pe_reserve e 0 with
   | None => []
   | Some s =>
       [mkRawEvent CLOSE (wrap 32 (Z.shiftr (pe_pid_tgid e) 32)) ssl (slot_ktime s) 0 0
          (default (re_comm (slot_prior s)) (slot_comm s)) (re_data (slot_prior s))]
   end,
   mkKernel (delete ssl (WRITE_OFF k)) (delete ssl (READ_OFF k)) (READ_ARGS k)).

(** The probes, with the arguments that could be read. *)
Definition ssl_write (e : ProbeEnv) (k : Kernel) (ssl buf num : option Z) : list RawSslEvent * Kernel :=
  if negb (default 0 buf =? 0) && (0 <? default 0 num)
  then emit_data e k DATA_WRITE (default 0 ssl) (default 0 buf) (default 0 num) else ([], k).
Definition ssl_read_enter (e : ProbeEnv) (k : Kernel) (ssl buf : option Z) : list RawSslEvent * Kernel :=
  let tid := wrap 32 (pe_pid_tgid e) in
  ([], if pe_insert e then mkKernel (WRITE_OFF k) (READ_OFF k) (<[tid := mkReadArgs (default 0 ssl) (default 0 buf)]> (READ_ARGS k)) else k).
Definition ssl_read_exit (e : ProbeEnv) (k : Kernel) (ret : option Z) : list RawSslEvent * Kernel :=
  let tid := wrap 32 (pe_pid_tgid e) in
  match READ_ARGS k !! tid with
  | None => ([], k)
  | Some args =>
      let k := mkKernel (WRITE_OFF k) (READ_OFF k) (delete tid (READ_ARGS k)) in
      let ret := default 0 ret in
      if negb (ra_buf args =? 0) && (0 <? ret) then emit_data e k DATA_READ (ra_ssl args) (ra_buf args) ret
      else if ret =? 0 then emit_close e k (ra_ssl args)
      else ([], k)
  end.
Definition ssl_shutdown (e : ProbeEnv) (k : Kernel) (ssl : option Z) : list RawSslEvent * Kernel := emit_close e k (default 0 ssl).
Definition ssl_free (e : ProbeEnv) (k : Kernel) (ssl : option Z) : list RawSslEvent * Kernel := emit_close e k (default 0 ssl).

Inductive ProbeCall : Type :=
| SslWrite (ssl buf num : option Z)
| SslReadEnter (ssl buf : option Z)
| SslReadExit (ret : option Z)
| SslShutdown (ssl : option Z)
| SslFree (ssl : option Z).

Definition probe (k : Kernel) (c : ProbeEnv * ProbeCall) : list RawSslEvent * Kernel :=
  match c.2 with
  | SslWrite ssl buf num => ssl_write c.1 k ssl buf num
  | SslReadEnter ssl buf => ssl_read_enter c.1 k ssl buf
  | SslReadExit ret => ssl_read_exit c.1 k ret
  | SslShutdown ssl => ssl_shutdown c.1 k ssl
  | SslFree ssl => ssl_free c.1 k ssl
  end.

(** The probes of a run, one after the other: the records in the ring. *)
Fixpoint probe_all (k : Kernel) (cs : list (ProbeEnv * ProbeCall)) : list RawSslEvent * Kernel :=
  match cs with
  | [] => ([], k)
  | c :: cs' => let '(l, k1) := probe k c in let '(l', k2) := probe_all k1 cs' in (l ++ l', k2)
  end.
