(* ===== verification/EbpfPump.v ===== *)
(** * From the ring to packets (h-capture/src/ebpf/mod.rs, source.rs)

    Decoding the probes' records, the pump that turns them into synthesised
    frames with heartbeats between them, and the loop that drains the ring. *)

From Stdlib Require Import Strings.Byte Strings.String ZArith Lia.
From stdpp Require Import base gmap sets list strings.
From S2P Require Import Prelude.
From S2P Require Import Net.
From S2P Require Import Decode.
From S2P Require Import Text.
From S2P Require Import Counters.
From S2P Require Import Synth.
From S2P Require Import Heartbeat.
From S2P Require Import EbpfProg.

Open Scope Z_scope.

Inductive SslEvent : Type :=
| EvConnect (conn_id pid : Z) (comm : string) (exe : option string) (tuple : option ConnTuple) (ktime_ns : Z)
| EvData (conn_id pid : Z) (comm : string) (exe : option string) (dir : StreamDir) (data : list byte) (seq_off ktime_ns : Z)
| EvClose (conn_id ktime_ns : Z).

Definition ev_pid (ev : SslEvent) : option Z :=
  match ev with EvConnect _ p _ _ _ _ | EvData _ p _ _ _ _ _ _ => Some p | EvClose _ _ => None end.
Definition ev_process (ev : SslEvent) : option ProcessInfo :=
  match ev with
  | EvConnect _ p c e _ _ | EvData _ p c e _ _ _ _ => Some (mkProcess p c e)
  | EvClose _ _ => None
  end.
Definition ev_ktime_ns (ev : SslEvent) : Z :=
  match ev with EvConnect _ _ _ _ _ t | EvData _ _ _ _ _ _ _ t | EvClose _ t => t end.

(** [BootClock], its offset in microseconds. *)
Definition ktime_to_epoch_us (offset_us ktime_ns : Z) : Z := ktime_ns / 1000 + offset_us.

Record EbpfPump : Type := mkPump {
  ep_synth : FlowSynthesizer;
  ep_heartbeat : HeartbeatTracker;
  ep_clock : Z;
  pid_allowlist : list Z;
}.
Definition pump_new (cfg : SynthConfig) (clock : Z) (allow : list Z) : EbpfPump := mkPump (synth_new cfg) tracker_new clock allow.
Definition pump_conn_count (p : EbpfPump) : nat := conn_count (ep_synth p).

Definition stamp (process : option ProcessInfo) (r : RawPacket) : RawPacket :=
  mkRaw (raw_ts r) (caplen r) (wirelen r) (raw_link_type r) (raw_data r) (raw_source r) process.

(** The frames, each with the heartbeat that goes before it. *)
Fixpoint interleave (hb : HeartbeatTracker) (process : option ProcessInfo) (frames : list RawPacket) : list RawPacket * HeartbeatTracker :=
  match frames with
  | [] => ([], hb)
  | f :: fs =>
      let '(h, hb1) := on_packet hb f in
      let '(out, hb2) := interleave hb1 process fs in
      (match h with Some h => [h] | None => [] end ++ stamp process f :: out, hb2)
  end.

Definition allowed (allow : list Z) (ev : SslEvent) : bool :=
  match allow, ev_pid ev with
  | [], _ | _, None => true
  | _, Some p => bool_decide (p ∈ allow)
  end.

Definition on_event (p : EbpfPump) (ev : SslEvent) : list RawPacket * EbpfPump :=
  if negb (allowed (pid_allowlist p) ev) then ([], p)
  else
    let ts := ktime_to_epoch_us (ep_clock p) (ev_ktime_ns ev) in
    let '(frames, s) :=
      match ev with
      | EvConnect conn_id _ _ _ tuple _ => Synth.open (ep_synth p) conn_id (default (synthetic_tuple conn_id) tuple) ts
      | EvData conn_id _ _ _ dir data seq_off _ => Synth.data (ep_synth p) conn_id dir data seq_off ts
      | EvClose conn_id _ => Synth.close (ep_synth p) conn_id ts
      end in
    let '(out, hb) := interleave (ep_heartbeat p) (ev_process ev) frames in
    (out, mkPump s hb (ep_clock p) (pid_allowlist p)).

(** ** Decoding *)

Definition EXE_CACHE_CAP : nat := 4096.
Abbreviation ExeCache := (gmap Z (option string)).

Definition comm_to_string (comm : list byte) : string :=
  let end_ := default (length comm) (position (λ b, byteZ b =? 0) comm) in
  String.string_of_list_byte (from_utf8_lossy (take end_ comm)).

(** What [/proc/<pid>/exe] links to, as text, where it can be read. *)
Class ProcFs : Type := read_exe_link : Z → option string.

Section Loader.
Context `{PF : ProcFs}.

Definition resolve_exe (pid : Z) (cache : ExeCache) : option string * ExeCache :=
  match cache !! pid with
  | Some v => (v, cache)
  | None =>
      let cache := if (EXE_CACHE_CAP <=? size cache)%nat then ∅ else cache in
      let resolved := read_exe_link pid in
      (resolved, <[pid := resolved]> cache)
  end.

Definition decode_event (bytes : list byte) (cache : ExeCache) : option SslEvent * ExeCache :=
  if zlen bytes <? SIZE then (None, cache)
  else
    let raw := raw_event_of_bytes bytes in
    let comm := comm_to_string (re_comm raw) in
    if re_kind raw =? CLOSE then (Some (EvClose (re_conn_id raw) (re_ktime_ns raw)), cache)
    else if (re_kind raw =? DATA_WRITE) || (re_kind raw =? DATA_READ) then
      let len := Z.min (re_data_len raw) DATA_CAP in
      let dir := if re_kind raw =? DATA_WRITE then ClientToServer else ServerToClient in
      let '(exe, cache) := resolve_exe (re_pid raw) cache in
      (Some (EvData (re_conn_id raw) (re_pid raw) comm exe dir (take (Z.to_nat len) (re_data raw)) (re_seq_off raw) (re_ktime_ns raw)), cache)
    else (None, cache).

(** ** The loop over the ring *)

(** The loader's state: the pump, the memo, the counters, and what it sent;
    [room] is how many more packets the other side of the channel takes before it
    is gone. *)
Record Loader : Type := mkLoader {
  ld_pump : EbpfPump;
  ld_cache : ExeCache;
  ld_metrics : counters;
  ld_sent : list RawPacket;
  ld_room : nat;
}.

(** [tx.send] of the pump's packets, counted as what they are.  [false] is the
    closed channel, which ends the source. *)
Fixpoint send_all (pkts : list RawPacket) (l : Loader) : bool * Loader :=
  match pkts with
  | [] => (true, l)
  | p :: pkts' =>
      match ld_room l with
      | O => (false, l)
      | S r =>
          let m := if is_heartbeat p then inc_counter CaptureHeartbeatsEmitted (ld_metrics l)
                   else inc_counter EbpfFramesSynthesized (inc_counter CapturePacketsReceived (ld_metrics l)) in
          send_all pkts' (mkLoader (ld_pump l) (ld_cache l) m (ld_sent l ++ [p]) r)
      end
  end.

Definition ring_item (l : Loader) (item : list byte) : bool * Loader :=
  let '(ev, cache) := decode_event item (ld_cache l) in
  match ev with
  | None => (true, mkLoader (ld_pump l) cache (inc_counter EbpfEventsDropped (ld_metrics l)) (ld_sent l) (ld_room l))
  | Some ev =>
      let m := inc_counter EbpfEventsReceived (ld_metrics l) in
      let m := match ev with EvData _ _ _ _ _ data _ _ => add_counter EbpfBytesCaptured (zlen data) m | _ => m end in
      let '(pkts, pump) := on_event (ld_pump l) ev in
      send_all pkts (mkLoader pump cache m (ld_sent l) (ld_room l))
  end.

Fixpoint drain_ring (l : Loader) (items : list (list byte)) : bool * Loader :=
  match items with
  | [] => (true, l)
  | item :: items' => let '(go, l) := ring_item l item in if go then drain_ring l items' else (false, l)
  end.

(** A turn of the loop: the idle heartbeat, a batch of the ring, whose gauges are
    set after it. *)
Inductive LoaderInput : Type := IdleTick (now_us : Z) | RingReady (items : list (list byte)).

Definition set_gauge (m : Metric) (v : Z) (c : counters) : counters := λ m', if decide (m = m') then v else c m'.
Definition idle_tick (source_id : string) (l : Loader) (now : Z) : bool * Loader :=
  match ld_room l with
  | O => (false, l)
  | S r => (true, mkLoader (ld_pump l) (ld_cache l) (inc_counter CaptureHeartbeatsEmitted (ld_metrics l))
                    (ld_sent l ++ [raw_heartbeat now source_id]) r)
  end.
Definition ring_ready (l : Loader) (items : list (list byte)) : bool * Loader :=
  let '(go, l) := drain_ring l items in
  if go then
    (true, mkLoader (ld_pump l) (ld_cache l)
             (set_gauge EbpfProcessCacheSize (Z.of_nat (size (ld_cache l)))
                (set_gauge EbpfConnectionsActive (Z.of_nat (pump_conn_count (ld_pump l))) (ld_metrics l)))
             (ld_sent l) (ld_room l))
  else (false, l).
Definition loader_step (source_id : string) (l : Loader) (i : LoaderInput) : bool * Loader :=
  match i with IdleTick now => idle_tick source_id l now | RingReady items => ring_ready l items end.
Fixpoint loader_run (source_id : string) (l : Loader) (is_ : list LoaderInput) : bool * Loader :=
  match is_ with
  | [] => (true, l)
  | i :: is' => let '(go, l) := loader_step source_id l i in if go then loader_run source_id l is' else (false, l)
  end.

(** ** A record is decoded to the event it was made for *)

Definition event_of (r : RawSslEvent) (exe : option string) : option SslEvent :=
  if re_kind r =? CLOSE then Some (EvClose (re_conn_id r) (re_ktime_ns r))
  else if (re_kind r =? DATA_WRITE) || (re_kind r =? DATA_READ) then
    Some (EvData (re_conn_id r) (re_pid r) (comm_to_string (re_comm r)) exe (if re_kind r =? DATA_WRITE then ClientToServer else ServerToClient)
            (take (Z.to_nat (Z.min (re_data_len r) DATA_CAP)) (re_data r)) (re_seq_off r) (re_ktime_ns r))
  else None.

Lemma decode_event_bytes r pad cache : raw_event_ok r → length pad = 4%nat →
  ∃ exe, (decode_event (raw_event_bytes r pad) cache).1 = event_of r exe.
Proof.
  intros Hr Hp. unfold decode_event. rewrite length_raw_event_bytes by done. change (SIZE <? SIZE) with false. cbv iota.
  rewrite raw_event_roundtrip by done. cbn zeta. unfold event_of.
  destruct (re_kind r =? CLOSE); [by exists None|]. destruct (_ || _); [|by exists None].
  destruct (resolve_exe (re_pid r) cache) as [exe c]. by exists exe.
Qed.

Lemma decode_event_short bytes cache : zlen bytes < SIZE → decode_event bytes cache = (None, cache).
Proof. intros H. unfold decode_event. by rewrite (proj2 (Z.ltb_lt _ _)). Qed.

(** The memo answers what the link says when it is first read. *)
Lemma cache_bounded pid cache : (size cache <= EXE_CACHE_CAP)%nat → (size (resolve_exe pid cache).2 <= EXE_CACHE_CAP)%nat.
Proof.
  intros H. unfold resolve_exe. destruct (cache !! pid) eqn:E; [done|]. cbn [snd]. destruct (Nat.leb_spec EXE_CACHE_CAP (size cache)) as [Hf|Hf].
  - rewrite map_size_insert_None by apply lookup_empty. rewrite map_size_empty. unfold EXE_CACHE_CAP. lia.
  - rewrite map_size_insert_None by done. lia.
Qed.
End Loader.
