(* ===== verification/EbpfStream.v ===== *)
(** * The plaintext from the probes to the stream

    What a process writes to and reads from a TLS connection, followed from the
    probes of [EbpfProg] through the pump of [EbpfPump], the frames of [Synth] and
    the decoder, into a direction of [Reassembly]. *)

From Stdlib Require Import Strings.Byte Strings.String ZArith Lia.
From stdpp Require Import base gmap sets list strings.
From S2P Require Import Prelude.
From S2P Require Import Net.
From S2P Require Import Decode.
From S2P Require Import Counters.
From S2P Require Import Synth.
From S2P Require Import BTree.
From S2P Require Import Reassembly.
From S2P Require Import TcpFlow.
From S2P Require Import Heartbeat.
From S2P Require Import EbpfProg.
From S2P Require Import EbpfPump.

Open Scope Z_scope.

(** ** Pieces of a stream *)

(** Pieces of a stream, at increasing offsets from [n] on and without overlap. *)
Fixpoint in_stream (stream : list byte) (n : nat) (ps : list (nat * list byte)) : Prop :=
  match ps with
  | [] => (n <= length stream)%nat
  | (o, b) :: ps' =>
      (n <= o)%nat ∧ b ≠ [] ∧ b = slice stream o (length b) ∧ (o + length b <= length stream)%nat ∧
      in_stream stream (o + length b) ps'
  end.

(** They leave no gap. *)
Fixpoint gapless (n : nat) (ps : list (nat * list byte)) : Prop :=
  match ps with [] => True | (o, b) :: ps' => o = n ∧ gapless (o + length b) ps' end.

Lemma in_stream_le stream n ps : in_stream stream n ps → (n <= length stream)%nat.
Proof. destruct ps as [|[o b] ps]; cbn; [done|]. intros (? & ? & ? & ? & ?). lia. Qed.

Lemma in_stream_mono stream n m ps : (n <= m)%nat → in_stream stream m ps → in_stream stream n ps.
Proof. destruct ps as [|[o b] ps]; cbn; [lia|]. intros ? (? & ?). split; [lia|done]. Qed.

Lemma slice_app_l (s t : list byte) o n : (o + n <= length s)%nat → slice (s ++ t) o n = slice s o n.
Proof. intros H. unfold slice. rewrite drop_app_le by lia. apply take_app_le. rewrite length_drop. lia. Qed.

Lemma in_stream_app s t n ps qs : in_stream s n ps → in_stream (s ++ t) (length s) qs → in_stream (s ++ t) n (ps ++ qs).
Proof.
  revert n; induction ps as [|[o b] ps IH]; intros n Hp Hq; cbn [app in_stream] in *.
  - by eapply in_stream_mono.
  - destruct Hp as (H1 & H2 & H3 & H4 & H5). rewrite length_app. split_and!; [done|done| |lia|by apply IH].
    by rewrite slice_app_l by lia.
Qed.

Lemma in_stream_sublist s n ps qs : sublist qs ps → in_stream s n ps → in_stream s n qs.
Proof.
  intros Hs. revert n; induction Hs as [|[o b] qs ps Hs IH|[o b] qs ps Hs IH]; intros n; cbn [in_stream]; [done| |].
  - intros (H1 & H2 & H3 & H4 & H5). split_and!; try done. by apply IH.
  - intros (H1 & H2 & H3 & H4 & H5). apply IH. eapply in_stream_mono; [|exact H5]. lia.
Qed.

Lemma gapless_app n ps qs : gapless n (ps ++ qs) ↔ gapless n ps ∧ gapless (n + length (concat ps.*2)) qs.
Proof.
  revert n; induction ps as [|[o b] ps IH]; intros n; cbn [app gapless fmap list_fmap concat snd length].
  - rewrite Nat.add_0_r. tauto.
  - rewrite IH, length_app. replace (o + length b + length (concat ps.*2))%nat with (o + (length b + length (concat ps.*2)))%nat by lia.
    split; [intros (-> & ? & ?)|intros ((-> & ?) & ?)]; done.
Qed.

(** ** What a probe carries *)

Definition is_write (d : StreamDir) : bool := match d with ClientToServer => true | ServerToClient => false end.
Definition kind_of (d : StreamDir) : Z := match d with ClientToServer => DATA_WRITE | ServerToClient => DATA_READ end.

#[global] Instance StreamDir_eq_dec : EqDecision StreamDir.
Proof. solve_decision. Defined.

(** The plaintext that a call hands over: the connection, the direction, and the
    bytes of its buffer. *)
Definition carried (k : Kernel) (c : ProbeEnv * ProbeCall) : option (Z * StreamDir * list byte) :=
  match c.2 with
  | SslWrite ssl buf num =>
      if negb (default 0 buf =? 0) && (0 <? default 0 num)
      then Some (default 0 ssl, ClientToServer, read_user c.1 (Z.to_nat (default 0 num)) (default 0 buf)) else None
  | SslReadExit ret =>
      match READ_ARGS k !! wrap 32 (pe_pid_tgid c.1) with
      | Some args =>
          if negb (ra_buf args =? 0) && (0 <? default 0 ret)
          then Some (ra_ssl args, ServerToClient, read_user c.1 (Z.to_nat (default 0 ret)) (ra_buf args)) else None
      | None => None
      end
  | _ => None
  end.

(** The connection that a call ends. *)
Definition closes (k : Kernel) (c : ProbeEnv * ProbeCall) : option Z :=
  match c.2 with
  | SslShutdown ssl | SslFree ssl => Some (default 0 ssl)
  | SslReadExit ret =>
      match READ_ARGS k !! wrap 32 (pe_pid_tgid c.1) with
      | Some args => if default 0 ret =? 0 then Some (ra_ssl args) else None
      | None => None
      end
  | _ => None
  end.

Definition bytes_for (conn : Z) (d : StreamDir) (x : option (Z * StreamDir * list byte)) : list byte :=
  match x with Some (conn', d', bs) => if decide (conn' = conn ∧ d' = d) then bs else [] | None => [] end.

(** The plaintext of a direction of a connection over a run of calls. *)
Fixpoint plaintext (conn : Z) (d : StreamDir) (k : Kernel) (cs : list (ProbeEnv * ProbeCall)) : list byte :=
  match cs with
  | [] => []
  | c :: cs' => bytes_for conn d (carried k c) ++ plaintext conn d (probe k c).2 cs'
  end.

(** A run within one life of a connection: no call ends it, and the map of its
    offsets takes what is put there. *)
Fixpoint one_life (conn : Z) (k : Kernel) (cs : list (ProbeEnv * ProbeCall)) : Prop :=
  match cs with
  | [] => True
  | c :: cs' =>
      env_ok c.1 ∧ closes k c ≠ Some conn ∧ (∀ d bs, carried k c = Some (conn, d, bs) → pe_insert c.1 = true) ∧
      one_life conn (probe k c).2 cs'
  end.

(** No call of the connection loses a record: the ring has room, and the call is
    within what the probes send of one. *)
Fixpoint none_lost (conn : Z) (k : Kernel) (cs : list (ProbeEnv * ProbeCall)) : Prop :=
  match cs with
  | [] => True
  | c :: cs' =>
      (∀ d bs, carried k c = Some (conn, d, bs) → zlen bs <= Z.of_nat MAX_CHUNKS * DATA_CAP ∧ ∀ i, is_Some (pe_reserve c.1 i)) ∧
      none_lost conn (probe k c).2 cs'
  end.

Definition piece_of (conn : Z) (d : StreamDir) (r : RawSslEvent) : option (nat * list byte) :=
  if decide (re_conn_id r = conn ∧ re_kind r = kind_of d)
  then Some (Z.to_nat (re_seq_off r), take (Z.to_nat (Z.min (re_data_len r) DATA_CAP)) (re_data r)) else None.

(** ** One call *)

Lemma length_read_user e n addr : length (read_user e n addr) = n.
Proof. unfold read_user. by rewrite length_map, length_seq. Qed.

Lemma read_user_slice e n addr o m : (o + m <= n)%nat → 
  read_user e m (wrap 64 (addr + Z.of_nat o)) = take m (drop o (read_user e n addr)).
Proof.
  intros H. unfold read_user. change (map ?f ?l) with (f <$> l). apply list_eq. intros i. destruct (decide (i < m)%nat).
  - rewrite lookup_take_lt, lookup_drop, !list_lookup_fmap, !lookup_seq_lt by lia. cbn [fmap option_fmap option_map]. do 2 f_equal.
    unfold wrap. rewrite Zplus_mod_idemp_l. f_equal. lia.
  - rewrite lookup_take_ge by lia. rewrite list_lookup_fmap, lookup_seq_ge by lia. done.
Qed.

Definition chunk_len : nat := Z.to_nat DATA_CAP.
Lemma chunk_len_eq : Z.of_nat chunk_len = DATA_CAP. Proof. unfold chunk_len. rewrite Z2Nat.id; [done|unfold DATA_CAP; lia]. Qed.
#[local] Opaque chunk_len.

(** The piece that the chunk at [start] of a buffer is. *)
Definition chunk_piece (pre bs : list byte) (start : nat) : nat * list byte :=
  ((length pre + start)%nat, take chunk_len (drop start bs)).

Definition reserved (e : ProbeEnv) (start : nat) : bool := bool_decide (is_Some (pe_reserve e (Z.of_nat start))).

Lemma emit_chunk_pieces e d ssl buf start pre bs : env_ok e → bs = read_user e (length bs) buf → zlen (pre ++ bs) < 2 ^ 64 →
  omap (piece_of ssl d) (emit_chunk_at e (kind_of d) ssl buf (Z.of_nat start) (zlen bs) (zlen pre)) =
  if (start <? length bs)%nat && reserved e start then [chunk_piece pre bs start] else [].
Proof.
  intros [_ He] Hbs Hlen. rewrite zlen_app in Hlen. unfold emit_chunk_at, reserved. destruct (Z.leb_spec (zlen bs) (Z.of_nat start)) as [Hs|Hs].
  { rewrite (proj2 (Nat.ltb_ge _ _)); [done|]. unfold zlen in Hs. lia. }
  rewrite (proj2 (Nat.ltb_lt _ _)) by (unfold zlen in Hs; lia). cbn [andb]. destruct (pe_reserve e (Z.of_nat start)) as [s|] eqn:Er; cycle 1.
  { by rewrite bool_decide_false by by intros [? [=]]. }
  rewrite bool_decide_true by by eexists. destruct (He _ _ Er) as ((_ & _ & _ & _ & _ & _ & _ & Hd) & _ & _).
  set (n := if DATA_CAP <? zlen bs - Z.of_nat start then DATA_CAP else zlen bs - Z.of_nat start).
  assert (n = Z.min DATA_CAP (zlen bs - Z.of_nat start)) as Hn by (unfold n; destruct (Z.ltb_spec DATA_CAP (zlen bs - Z.of_nat start)); lia).
  pose proof chunk_len_eq as Hc. assert (0 < DATA_CAP) as Hcap by done. pose proof (zlen_nonneg pre).
  cbn [omap list_omap]. unfold piece_of at 1. cbn [re_conn_id re_kind re_data_len re_data re_seq_off]. rewrite decide_True by (split; reflexivity).
  unfold chunk_piece. do 2 f_equal.
  - rewrite wrap_small by lia. unfold zlen. lia.
  - replace (Z.min n DATA_CAP) with n by lia. rewrite take_app_le by (rewrite length_read_user; lia).
    rewrite firstn_all2 by (rewrite length_read_user; lia). rewrite (read_user_slice e (length bs) buf start) by (unfold zlen in *; lia).
    rewrite <-Hbs. destruct (decide (chunk_len <= length bs - start)%nat).
    + f_equal. unfold zlen in *. lia.
    + rewrite !firstn_all2; [done| |]; rewrite length_drop; unfold zlen in *; lia.
Qed.

(** The chunks of a buffer from the [j]th on. *)
Definition chunks_from (e : ProbeEnv) (pre bs : list byte) (j m : nat) : list (nat * list byte) :=
  concat (map (λ i, if (i * chunk_len <? length bs)%nat && reserved e (i * chunk_len) then [chunk_piece pre bs (i * chunk_len)] else []) (seq j m)).

Lemma chunks_from_in_stream e pre bs j m :
  in_stream (pre ++ bs) (length pre + Nat.min (j * chunk_len) (length bs)) (chunks_from e pre bs j m).
Proof.
  unfold chunks_from. revert j; induction m as [|m IH]; intros j; cbn [seq map concat].
  { cbn [in_stream]. rewrite length_app. lia. }
  specialize (IH (S j)). pose proof chunk_len_eq as Hc. assert (0 < DATA_CAP) as Hcap by done.
  destruct (Nat.ltb_spec (j * chunk_len) (length bs)) as [Hj|Hj]; cycle 1.
  { cbn [andb app]. eapply in_stream_mono; [|exact IH]. lia. }
  destruct (reserved e (j * chunk_len)); cbn [andb app]; [|eapply in_stream_mono; [|exact IH]; lia].
  unfold chunk_piece at 1. cbn [in_stream].
  assert (length (take chunk_len (drop (j * chunk_len) bs)) = Nat.min chunk_len (length bs - j * chunk_len)) as El by (rewrite length_take, length_drop; lia).
  split_and!; [lia|intros E; rewrite E in El; cbn in El; lia| |rewrite length_app, El; lia|].
  - rewrite El. unfold slice. rewrite drop_app_ge by lia. replace (length pre + j * chunk_len - length pre)%nat with (j * chunk_len)%nat by lia.
    destruct (decide (chunk_len <= length bs - j * chunk_len)%nat); [f_equal; lia|]. rewrite !firstn_all2; [done| |]; rewrite length_drop; lia.
  - rewrite El. eapply in_stream_mono; [|exact IH]. lia.
Qed.

Lemma chunks_from_gapless e pre bs j m : (∀ i, reserved e i = true) →
  gapless (length pre + Nat.min (j * chunk_len) (length bs)) (chunks_from e pre bs j m) ∧
  length (concat (chunks_from e pre bs j m).*2) = (Nat.min ((j + m) * chunk_len) (length bs) - Nat.min (j * chunk_len) (length bs))%nat.
Proof.
  intros He. unfold chunks_from. revert j; induction m as [|m IH]; intros j; cbn [seq map concat].
  { cbn. split; [done|]. rewrite Nat.add_0_r. lia. }
  specialize (IH (S j)) as [IH1 IH2]. pose proof chunk_len_eq as Hc. assert (0 < DATA_CAP) as Hcap by done. rewrite He.
  replace (j + S m)%nat with (S j + m)%nat by lia. destruct (Nat.ltb_spec (j * chunk_len) (length bs)) as [Hj|Hj]; cbn [andb app]; cycle 1.
  { replace (Nat.min (j * chunk_len) (length bs)) with (Nat.min (S j * chunk_len) (length bs)) by lia. split; [exact IH1|exact IH2]. }
  unfold chunk_piece at 1 3. cbn [gapless fmap list_fmap snd concat].
  assert (length (take chunk_len (drop (j * chunk_len) bs)) = Nat.min chunk_len (length bs - j * chunk_len)) as El by (rewrite length_take, length_drop; lia).
  rewrite length_app, IH2, El. split; [split; [lia|]|].
  - match goal with |- gapless ?a _ => replace a with (length pre + Nat.min (S j * chunk_len) (length bs))%nat by lia end. done.
  - nia.
Qed.

Lemma emit_data_pieces e k d ssl buf pre bs : env_ok e → bs = read_user e (length bs) buf → zlen (pre ++ bs) < 2 ^ 64 →
  stream_off k ssl (is_write d) = zlen pre →
  omap (piece_of ssl d) (emit_data e k (kind_of d) ssl buf (zlen bs)).1 = chunks_from e pre bs 0 MAX_CHUNKS.
Proof.
  intros He Hbs Hlen Hoff. unfold emit_data. cbn [fst].
  replace (kind_of d =? DATA_WRITE) with (is_write d) by by destruct d. rewrite Hoff. unfold chunks_from.
  induction (seq 0 MAX_CHUNKS) as [|i l IH]; [done|]. cbn [map concat]. rewrite omap_app, IH. f_equal.
  rewrite <-chunk_len_eq, <-Nat2Z.inj_mul. by apply emit_chunk_pieces.
Qed.

Lemma emit_data_other e k d ssl buf len conn d' : ¬ (ssl = conn ∧ d = d') →
  omap (piece_of conn d') (emit_data e k (kind_of d) ssl buf len).1 = [].
Proof.
  intros Hne. unfold emit_data. cbn [fst]. induction (seq 0 MAX_CHUNKS) as [|i l IH]; [done|]. cbn [map concat]. rewrite omap_app, IH, app_nil_r.
  unfold emit_chunk_at. destruct (_ <=? _); [done|]. destruct (pe_reserve _ _); [|done]. cbn [omap list_omap]. unfold piece_of.
  cbn [re_conn_id re_kind]. rewrite decide_False; [done|]. intros [-> E]. apply Hne. split; [done|]. by destruct d, d'.
Qed.

(** What a call does, by what it carries and what it ends. *)
Lemma probe_cases k c :
  match carried k c, closes k c with
  | Some (ssl, d, bs), None => ∃ k' buf, WRITE_OFF k' = WRITE_OFF k ∧ READ_OFF k' = READ_OFF k ∧
      bs = read_user c.1 (length bs) buf ∧ probe k c = emit_data c.1 k' (kind_of d) ssl buf (zlen bs)
  | None, Some ssl => (∀ conn d, omap (piece_of conn d) (probe k c).1 = []) ∧
      ∀ w, off_map (probe k c).2 w = delete ssl (off_map k w)
  | None, None => (probe k c).1 = [] ∧ ∀ w, off_map (probe k c).2 w = off_map k w
  | Some _, Some _ => False
  end.
Proof.
  assert (∀ e k ssl, (∀ conn d, omap (piece_of conn d) (emit_close e k ssl).1 = []) ∧ ∀ w, off_map (emit_close e k ssl).2 w = delete ssl (off_map k w)) as Hclose.
  { intros e k' ssl. split; [|by intros []]. intros conn d. unfold emit_close. cbn [fst]. destruct (pe_reserve e 0); [|done]. cbn [omap list_omap].
    unfold piece_of. cbn [re_conn_id re_kind]. rewrite decide_False; [done|]. intros [_ E]. by destruct d. }
  assert (∀ e n buf, 0 < n → read_user e (Z.to_nat n) buf = read_user e (length (read_user e (Z.to_nat n) buf)) buf ∧ zlen (read_user e (Z.to_nat n) buf) = n) as Hrd.
  { intros e n buf Hn. unfold zlen. rewrite length_read_user. split; [done|lia]. }
  destruct c as [e [ssl buf num|ssl buf|ret|ssl|ssl]]; unfold carried, closes, probe; cbn [fst snd]; [| | |apply Hclose|apply Hclose].
  - unfold ssl_write. destruct (negb (default 0 buf =? 0)); cbn [andb]; [|done]. destruct (Z.ltb_spec 0 (default 0 num)) as [Hn|Hn]; [|done].
    destruct (Hrd e _ (default 0 buf) Hn) as [H1 H2]. exists k, (default 0 buf). by rewrite H2.
  - split; [done|]. unfold ssl_read_enter. cbn [snd]. by destruct (pe_insert e), w.
  - unfold ssl_read_exit. destruct (READ_ARGS k !! wrap 32 (pe_pid_tgid e)) as [args|] eqn:Ea; [|done]. cbn zeta.
    set (k1 := mkKernel _ _ _). destruct (negb (ra_buf args =? 0)) eqn:Eb; cbn [andb].
    + destruct (Z.ltb_spec 0 (default 0 ret)) as [Hn|Hn].
      * rewrite (proj2 (Z.eqb_neq _ _)) by lia. destruct (Hrd e _ (ra_buf args) Hn) as [H1 H2]. exists k1, (ra_buf args). by rewrite H2.
      * destruct (default 0 ret =? 0); cbn [fst snd]; [|split; [done|by intros []]]. destruct (Hclose e k1 (ra_ssl args)) as [H1 H2]. split; [done|]. intros []; apply H2.
    + destruct (default 0 ret =? 0); cbn [fst snd]; [|split; [done|by intros []]]. destruct (Hclose e k1 (ra_ssl args)) as [H1 H2]. split; [done|]. intros []; apply H2.
Qed.

(** ** A run of calls *)

Lemma stream_off_of_map k k' conn w : off_map k' w = off_map k w → stream_off k' conn w = stream_off k conn w.
Proof. intros E. unfold stream_off. by rewrite E. Qed.

Lemma set_stream_off_map e k ssl w next conn w' : pe_insert e = true →
  stream_off (set_stream_off e k ssl w next) conn w' = if decide (ssl = conn ∧ w = w') then next else stream_off k conn w'.
Proof.
  intros He. unfold set_stream_off, stream_off. rewrite He. case_decide as Hd.
  - destruct Hd as [-> ->]. destruct w'; cbn [off_map WRITE_OFF READ_OFF]; by rewrite lookup_insert_eq.
  - destruct w, w'; cbn [off_map WRITE_OFF READ_OFF]; try done; rewrite lookup_insert_ne; naive_solver.
Qed.

Lemma set_stream_off_other e k ssl w next conn w' : ¬ (ssl = conn ∧ w = w') →
  stream_off (set_stream_off e k ssl w next) conn w' = stream_off k conn w'.
Proof.
  intros Hd. destruct (pe_insert e) eqn:He; [|unfold set_stream_off; by rewrite He].
  rewrite set_stream_off_map by done. by rewrite decide_False.
Qed.

Lemma is_write_inj d d' : is_write d = is_write d' → d = d'.
Proof. by destruct d, d'. Qed.

Lemma probe_step conn d k c pre :
  let bs := bytes_for conn d (carried k c) in
  let ps := omap (piece_of conn d) (probe k c).1 in
  env_ok c.1 → closes k c ≠ Some conn → (∀ d' bs', carried k c = Some (conn, d', bs') → pe_insert c.1 = true) →
  stream_off k conn (is_write d) = zlen pre → zlen (pre ++ bs) < 2 ^ 64 →
  in_stream (pre ++ bs) (length pre) ps ∧ stream_off (probe k c).2 conn (is_write d) = zlen (pre ++ bs) ∧
  ((∀ d' bs', carried k c = Some (conn, d', bs') → zlen bs' <= Z.of_nat MAX_CHUNKS * DATA_CAP ∧ ∀ i, is_Some (pe_reserve c.1 i)) →
   gapless (length pre) ps ∧ length (concat ps.*2) = length bs).
Proof.
  intros bs ps He Hcl Hins Hoff Hlen. pose proof (probe_cases k c) as Hp. unfold bs, ps in *.
  destruct (carried k c) as [[[ssl d'] b]|] eqn:Ec; cycle 1.
  { cbn [bytes_for] in *. rewrite app_nil_r in *.
    assert (omap (piece_of conn d) (probe k c).1 = [] ∧ stream_off (probe k c).2 conn (is_write d) = zlen pre) as [-> ->].
    { destruct (closes k c) as [ssl|].
      - destruct Hp as [H1 H2]. split; [apply H1|]. unfold stream_off. rewrite H2, lookup_delete_ne by congruence. done.
      - destruct Hp as [-> H2]. split; [done|]. by rewrite (stream_off_of_map _ _ _ _ (H2 _)). }
    split_and!; [cbn; lia|done|done]. }
  destruct (closes k c) as [?|]; [done|]. destruct Hp as (k' & buf & Hw & Hr & Hb & ->).
  assert (∀ w, off_map k' w = off_map k w) as Hmap by (by intros []).
  cbn [bytes_for] in *. case_decide as Hd.
  - destruct Hd as [-> ->]. assert (stream_off k' conn (is_write d) = zlen pre) as Hoff' by (by rewrite (stream_off_of_map _ _ _ _ (Hmap _))).
    rewrite (emit_data_pieces c.1 k' d conn buf pre b He Hb Hlen Hoff').
    pose proof (chunks_from_in_stream c.1 pre b 0 MAX_CHUNKS) as Hin. rewrite Nat.mul_0_l, Nat.min_0_l, Nat.add_0_r in Hin.
    split; [done|]. split.
    + unfold emit_data. cbn [snd]. replace (kind_of d =? DATA_WRITE) with (is_write d) by by destruct d.
      rewrite set_stream_off_map by by eapply Hins. rewrite decide_True by done. rewrite (stream_off_of_map _ _ _ _ (Hmap _)), Hoff, zlen_app.
      rewrite zlen_app in Hlen. pose proof (zlen_nonneg pre). pose proof (zlen_nonneg b). apply wrap_small; lia.
    + intros Hall. destruct (Hall d b eq_refl) as [Hle Hres].
      destruct (chunks_from_gapless c.1 pre b 0 MAX_CHUNKS) as [Hg Hn].
      { intros i. unfold reserved. by apply bool_decide_true. }
      rewrite Nat.mul_0_l, Nat.min_0_l, Nat.add_0_r in Hg. split; [done|]. rewrite Hn. rewrite <-chunk_len_eq in Hle. unfold zlen in Hle. lia.
  - rewrite emit_data_other by done. rewrite app_nil_r in *. split_and!; [cbn; lia| |done].
    unfold emit_data. cbn [snd]. replace (kind_of d' =? DATA_WRITE) with (is_write d') by by destruct d'.
    rewrite set_stream_off_other by (intros [? ?%is_write_inj]; naive_solver). by rewrite (stream_off_of_map _ _ _ _ (Hmap _)).
Qed.

(** The records of a direction of a connection are pieces of what was written or
    read, in order, each at its place; if nothing is lost they are all of it. *)
Lemma probe_all_pieces conn d cs : ∀ k pre,
  let s := pre ++ plaintext conn d k cs in
  let ps := omap (piece_of conn d) (probe_all k cs).1 in
  one_life conn k cs → stream_off k conn (is_write d) = zlen pre → zlen s < 2 ^ 64 →
  in_stream s (length pre) ps ∧ (none_lost conn k cs → gapless (length pre) ps ∧ length (concat ps.*2) = length (plaintext conn d k cs)).
Proof.
  induction cs as [|c cs IH]; intros k pre; cbn [plaintext one_life none_lost probe_all].
  { rewrite app_nil_r. intros _ _ _. split; [cbn; lia|done]. }
  pose proof (probe_step conn d k c pre) as Hstep. destruct (probe k c) as [l k1] eqn:Ep. cbn [fst snd] in *.
  specialize (IH k1 (pre ++ bytes_for conn d (carried k c))). destruct (probe_all k1 cs) as [l' k2]. cbn [fst snd] in *. rewrite <-app_assoc in IH.
  intros (He & Hcl & Hins & Hlife) Hoff Hlen. rewrite app_assoc, zlen_app in Hlen. pose proof (zlen_nonneg (plaintext conn d k1 cs)).
  destruct Hstep as (H1 & H2 & H3); [done|done|done|done|lia|].
  destruct IH as (H4 & H5); [done|done|rewrite app_assoc, zlen_app; lia|].
  rewrite omap_app. split.
  - rewrite app_assoc. apply in_stream_app; [exact H1|]. by rewrite <-app_assoc.
  - intros [Hn1 Hn2]. destruct (H3 Hn1) as [H6 H7]. destruct (H5 Hn2) as [H8 H9]. rewrite fmap_app, concat_app, !length_app, H7, H9. split; [|done].
    apply gapless_app. split; [done|]. rewrite H7. by rewrite length_app in H8.
Qed.

(** ** Records are well formed *)

Definition call_ok (c : ProbeEnv * ProbeCall) : Prop :=
  env_ok c.1 ∧
  match c.2 with
  | SslWrite ssl _ _ | SslReadEnter ssl _ | SslShutdown ssl | SslFree ssl => 0 <= default 0 ssl < 2 ^ 64
  | SslReadExit _ => True
  end.
Definition kernel_ok (k : Kernel) : Prop := ∀ t a, READ_ARGS k !! t = Some a → 0 <= ra_ssl a < 2 ^ 64.
Definition pid_of (c : ProbeEnv * ProbeCall) : Z := wrap 32 (Z.shiftr (pe_pid_tgid c.1) 32).
Definition good_record (c : ProbeEnv * ProbeCall) (r : RawSslEvent) : Prop := raw_event_ok r ∧ re_pid r = pid_of c.

Lemma emit_chunk_ok c kind ssl buf start len base : env_ok c.1 → 0 <= kind < 2 ^ 32 → 0 <= ssl < 2 ^ 64 →
  Forall (good_record c) (emit_chunk_at c.1 kind ssl buf start len base).
Proof.
  intros [_ He] Hk Hs. unfold emit_chunk_at. destruct (Z.leb_spec len start) as [|Hlt]; [done|].
  destruct (pe_reserve c.1 start) as [s|] eqn:Er; [|done]. destruct (He _ _ Er) as ((_ & _ & _ & _ & _ & _ & Hc & Hd) & Ht & Hcomm).
  set (n := if DATA_CAP <? len - start then DATA_CAP else len - start). assert (0 < DATA_CAP < 2 ^ 32) as Hcap by done.
  assert (0 < n <= DATA_CAP) as Hn by (unfold n; destruct (Z.ltb_spec DATA_CAP (len - start)); lia).
  apply Forall_singleton. split; [|done]. split_and!; cbn [re_kind re_pid re_conn_id re_ktime_ns re_seq_off re_data_len re_comm re_data];
    try lia; try (apply wrap_range; lia).
  - destruct (slot_comm s) as [x|] eqn:Ex; cbn [default from_option id]; [by apply Hcomm|done].
  - rewrite zlen_app. unfold zlen in *. rewrite length_read_user, length_drop. lia.
Qed.

Lemma emit_close_ok c k ssl : env_ok c.1 → 0 <= ssl < 2 ^ 64 → Forall (good_record c) (emit_close c.1 k ssl).1.
Proof.
  intros [_ He] Hs. unfold emit_close. cbn [fst]. destruct (pe_reserve c.1 0) as [s|] eqn:Er; [|done].
  destruct (He _ _ Er) as ((_ & _ & _ & _ & _ & _ & Hc & Hd) & Ht & Hcomm). apply Forall_singleton. split; [|done].
  split_and!; cbn [re_kind re_pid re_conn_id re_ktime_ns re_seq_off re_data_len re_comm re_data]; try done; try lia; try (apply wrap_range; lia); try (unfold CLOSE; lia).
  destruct (slot_comm s) as [x|] eqn:Ex; cbn [default from_option id]; [by apply Hcomm|done].
Qed.

Lemma emit_data_ok c k kind ssl buf len : env_ok c.1 → 0 <= kind < 2 ^ 32 → 0 <= ssl < 2 ^ 64 → Forall (good_record c) (emit_data c.1 k kind ssl buf len).1.
Proof.
  intros He Hk Hs. unfold emit_data. cbn [fst]. induction (seq 0 MAX_CHUNKS) as [|i l IH]; [constructor|].
  cbn [map concat]. apply Forall_app. split; [by apply emit_chunk_ok|done].
Qed.

Lemma probe_ok k c : kernel_ok k → call_ok c → Forall (good_record c) (probe k c).1 ∧ kernel_ok (probe k c).2.
Proof.
  intros Hk [He Hc]. destruct c as [e [ssl buf num|ssl buf|ret|ssl|ssl]]; unfold probe; cbn [fst snd] in *.
  - unfold ssl_write. destruct (_ && _); [|done]. split; [by apply (emit_data_ok (e, SslWrite ssl buf num))|].
    unfold emit_data, set_stream_off. cbn [snd]. by destruct (pe_insert e).
  - unfold ssl_read_enter. split; [constructor|]. cbn [snd]. destruct (pe_insert e); [|done]. intros t a. cbn [READ_ARGS].
    rewrite lookup_insert_Some. intros [[<- <-]|[_ H]]; [done|by eapply Hk].
  - unfold ssl_read_exit. destruct (READ_ARGS k !! _) as [a|] eqn:Ea; [|done]. pose proof (Hk _ _ Ea) as Ha. cbn zeta.
    set (k1 := mkKernel _ _ _). assert (kernel_ok k1) as Hk1 by (intros t x Hx; cbn in Hx; apply lookup_delete_Some in Hx as [_ Hx]; by eapply Hk).
    destruct (_ && _); [split; [by apply (emit_data_ok (e, SslReadExit ret))|]|].
    { unfold emit_data, set_stream_off. cbn [snd]. by destruct (pe_insert e). }
    destruct (_ =? 0); [split; [by apply (emit_close_ok (e, SslReadExit ret))|done]|by split].
  - split; [by apply (emit_close_ok (e, SslShutdown ssl))|done].
  - split; [by apply (emit_close_ok (e, SslFree ssl))|done].
Qed.

Lemma probe_all_ok cs : ∀ k, kernel_ok k → Forall call_ok cs →
  Forall (λ r, raw_event_ok r ∧ ∃ c, c ∈ cs ∧ re_pid r = pid_of c) (probe_all k cs).1.
Proof.
  induction cs as [|c cs IH]; intros k Hk Hcs; cbn [probe_all]; [constructor|]. apply Forall_cons in Hcs as [Hc Hcs].
  destruct (probe_ok k c Hk Hc) as [H1 H2]. destruct (probe k c) as [l k1]. cbn [fst snd] in *. specialize (IH k1 H2 Hcs).
  destruct (probe_all k1 cs) as [l' k2]. cbn [fst] in *. apply Forall_app. split.
  - eapply Forall_impl; [exact H1|]. intros r [Hr Hp]. split; [done|]. exists c. split; [by left|done].
  - eapply Forall_impl; [exact IH|]. intros r [Hr (c' & Hin & Hp)]. split; [done|]. exists c'. split; [by right|done].
Qed.

(** ** Through userspace *)

Section Userspace.
Context `{PF : ProcFs}.

(** The events of the ring's items, and what the pump makes of them. *)
Fixpoint decode_all (cache : ExeCache) (items : list (list byte)) : list SslEvent :=
  match items with
  | [] => []
  | i :: items' => let '(ev, cache) := decode_event i cache in match ev with Some ev => [ev] | None => [] end ++ decode_all cache items'
  end.
Fixpoint pump_all (p : EbpfPump) (evs : list SslEvent) : list (SslEvent * list RawPacket) :=
  match evs with
  | [] => []
  | ev :: evs' => let '(out, p') := on_event p ev in (ev, out) :: pump_all p' evs'
  end.

(** The piece that an event is, and the segment that a packet is decoded to. *)
Definition event_piece (conn : Z) (d : StreamDir) (ev : SslEvent) : option (nat * list byte) :=
  match ev with
  | EvData c _ _ _ d' data off _ => if decide (c = conn ∧ d' = d) then Some (Z.to_nat off, data) else None
  | _ => None
  end.
Definition segment_of_frame (r : RawPacket) : option Segment :=
  if is_heartbeat r then None
  else match decode (raw_data r) (raw_link_type r) (raw_ts r) (raw_source r) with DOk p => Some (segment_of p) | _ => None end.
Definition segments_for (conn : Z) (d : StreamDir) (trace : list (SslEvent * list RawPacket)) : list Segment :=
  concat (map (λ x, match event_piece conn d x.1 with Some _ => omap segment_of_frame x.2 | None => [] end) trace).

Lemma decode_all_pieces conn d items recs cache : 
  Forall2 (λ r i, ∃ pad, length pad = 4%nat ∧ i = raw_event_bytes r pad) recs items → Forall raw_event_ok recs →
  omap (event_piece conn d) (decode_all cache items) = omap (piece_of conn d) recs.
Proof.
  intros H. revert cache; induction H as [|r i recs items (pad & Hp & ->) _ IH]; intros cache Hok; [done|]. apply Forall_cons in Hok as [Hr Hok].
  cbn [decode_all]. destruct (decode_event_bytes r pad cache Hr Hp) as [exe He]. destruct (decode_event (raw_event_bytes r pad) cache) as [ev c'].
  cbn [fst] in He. subst ev. rewrite omap_app, (IH c' Hok). cbn [omap list_omap]. unfold event_of, piece_of.
  destruct (re_kind r =? CLOSE) eqn:Ec.
  { apply Z.eqb_eq in Ec. cbn [omap list_omap event_piece]. rewrite decide_False; [done|]. intros [_ E]. rewrite Ec in E. by destruct d. }
  destruct (re_kind r =? DATA_WRITE) eqn:Ew; [|destruct (re_kind r =? DATA_READ) eqn:Er]; cbn [orb].
  - apply Z.eqb_eq in Ew. cbn [omap list_omap event_piece]. rewrite Ew. destruct (decide (re_conn_id r = conn)) as [He|He].
    + destruct d; [rewrite !decide_True by done; done|]. rewrite !decide_False by (intros [_ E]; discriminate E). done.
    + rewrite !decide_False by tauto. done.
  - apply Z.eqb_eq in Er. cbn [omap list_omap event_piece]. rewrite Er. destruct (decide (re_conn_id r = conn)) as [He|He].
    + destruct d; [|rewrite !decide_True by done; done]. rewrite !decide_False by (intros [_ E]; discriminate E). done.
    + rewrite !decide_False by tauto. done.
  - cbn [omap list_omap]. rewrite decide_False; [done|]. intros [_ E]. rewrite E in *. by destruct d.
Qed.

Lemma frame_not_heartbeat cfg src dst seq ack flags body ts : is_heartbeat (frame cfg src dst seq ack flags body ts) = false.
Proof.
  unfold is_heartbeat, frame, frame_bytes; cbn [raw_link_type raw_data]. change (negb (LINKTYPE_ETHERNET =? 1)) with false. cbv iota.
  destruct (_ <? _); [done|]. destruct (existsb _ _); [done|]. rewrite drop_app_exact by reflexivity.
  by destruct (src.1), (dst.1); rewrite be_bytes2_eq.
Qed.

(** Chunks laid end to end. *)
Fixpoint spread (o : nat) (chunks : list (list byte)) : list (nat * list byte) :=
  match chunks with [] => [] | c :: cs => (o, c) :: spread (o + length c) cs end.

Definition is_piece (s : Segment) (ob : nat * list byte) : Prop :=
  seg_seq s = seq_at SYNTH_ISN ob.1 ∧ seg_payload s = ob.2 ∧ seg_wire_len s = zlen ob.2.

Lemma place_spread seq o chunks f : seq = seq_at SYNTH_ISN o →
  (∀ q c, seg_seq (f (q, c)) = q ∧ seg_payload (f (q, c)) = c ∧ seg_wire_len (f (q, c)) = zlen c) →
  Forall2 is_piece (map f (place seq chunks)) (spread o chunks).
Proof.
  intros Hs Hf. revert seq o Hs; induction chunks as [|c cs IH]; intros seq o ->; cbn [place map spread]; [constructor|]. constructor.
  - destruct (Hf (seq_at SYNTH_ISN o) c) as (? & ? & ?). done.
  - apply IH. rewrite <-seq_at_add. unfold u32_add, wrap. rewrite Zplus_mod_idemp_r. done.
Qed.

Lemma data_segments s k dir bytes off ts : synth_ok s → 0 <= off →
  ∃ chunks, concat chunks = bytes ∧ Forall (λ c, c ≠ []) chunks ∧
    Forall2 is_piece (omap segment_of_frame (Synth.data s k dir bytes off ts).1) (spread (Z.to_nat off) chunks).
Proof.
  intros Hok Hoff. pose proof (synth_data_covers_chunk s k dir bytes off ts Hok) as H. cbn zeta in H.
  destruct (endpoints _ dir) as [src dst] eqn:Ee. destruct H as (chunks & Hcat & Hall & Hmap). exists chunks. split; [done|]. split.
  { eapply Forall_impl; [exact Hall|]. intros c Hc ->. unfold zlen in Hc. cbn in Hc. lia. }
  set (q := u32_add SYNTH_ISN (wrap 32 off)) in *.
  assert (q = seq_at SYNTH_ISN (Z.to_nat off)) as Hq.
  { unfold q, seq_at, u32_add, wrap. rewrite Zplus_mod_idemp_r. by rewrite Z2Nat.id by done. }
  assert (Forall (λ r, is_heartbeat r = false) (Synth.data s k dir bytes off ts).1) as Hhb.
  { unfold Synth.data. destruct bytes as [|b l]; [constructor|]. destruct (endpoints _ dir) as [x y]. cbn [fst].
    generalize (length (b :: l)) as fuel, 0 as n. intros fuel. induction fuel as [|fuel IH]; intros n; cbn [segment_loop]; [constructor|].
    destruct (_ <? _); [|constructor]. constructor; [apply frame_not_heartbeat|apply IH]. }
  set (f := λ sc : Z * list byte, mkSegment sc.1 sc.2 (zlen sc.2) ts).
  assert (omap segment_of_frame (Synth.data s k dir bytes off ts).1 = map f (place q chunks)) as ->.
  2: { apply place_spread; [done|done]. }
  revert Hhb Hmap. generalize (Synth.data s k dir bytes off ts).1 as rs. clear. generalize (place q chunks) as pl. intros pl.
  induction pl as [|[sq c] pl IH]; intros [|r rs] Hhb Hmap; try discriminate; [done|]. cbn [map] in Hmap. injection Hmap as H1 H2.
  apply Forall_cons in Hhb as [Hr Hhb]. cbn [omap list_omap map]. unfold segment_of_frame at 1. rewrite Hr, H1. f_equal; [|by apply IH].
  unfold segment_of, f. cbn [fst snd]. f_equal; try done. apply frame_wire_len.
Qed.

Lemma interleave_segments hb pr frames : omap segment_of_frame (interleave hb pr frames).1 = omap segment_of_frame frames.
Proof.
  revert hb; induction frames as [|f fs IH]; intros hb; cbn [interleave]; [done|]. destruct (on_packet hb f) as [h hb1] eqn:Eh.
  specialize (IH hb1). destruct (interleave hb1 pr fs) as [out hb2]. cbn [fst] in *. rewrite omap_app.
  assert (omap segment_of_frame match h with Some h => [h] | None => [] end = []) as ->.
  { unfold on_packet in Eh. destruct (is_heartbeat f); [by injection Eh as <- _|]. destruct (_ =? 0); [by injection Eh as <- _|].
    destruct (_ <? _); injection Eh as <- _; [done|]. cbn [omap list_omap]. unfold segment_of_frame. by rewrite heartbeat_is_heartbeat. }
  cbn [app omap list_omap]. rewrite IH. done.
Qed.

(** The segments of an event: its piece, in chunks, if its process is captured. *)
Lemma on_event_segments conn d p ev ob : synth_ok (ep_synth p) → event_piece conn d ev = Some ob → 
  (∀ c q m x d' b off t, ev = EvData c q m x d' b off t → 0 <= off) →
  if allowed (pid_allowlist p) ev then
    ∃ chunks, concat chunks = ob.2 ∧ Forall (λ c, c ≠ []) chunks ∧ Forall2 is_piece (omap segment_of_frame (on_event p ev).1) (spread ob.1 chunks)
  else (on_event p ev).1 = [].
Proof.
  intros Hok Hev Hoff. unfold on_event. destruct (allowed _ _) eqn:Ea; cbn [negb]; [|done].
  destruct ev as [|c q m x d' b off t|]; try discriminate. cbn [event_piece] in Hev. case_decide as Hd; [|discriminate]. destruct Hd as [-> ->]. injection Hev as <-.
  destruct (data_segments (ep_synth p) conn d b off (ktime_to_epoch_us (ep_clock p) t) Hok) as (chunks & H1 & H2 & H3); [by eapply Hoff|].
  cbn [ev_ktime_ns]. destruct (Synth.data _ _ _ _ _ _) as [frames s]. cbn [fst] in H3.
  pose proof (interleave_segments (ep_heartbeat p) (ev_process (EvData conn q m x d b off t)) frames) as Hi.
  destruct (interleave _ _ frames) as [out hb]. cbn [fst] in *. exists chunks. rewrite Hi. done.
Qed.

(** What the loader decodes. *)
Definition plain_event (ev : SslEvent) : Prop :=
  match ev with EvConnect _ _ _ _ _ _ => False | EvData _ _ _ _ _ _ off _ => 0 <= off | EvClose _ _ => True end.

Lemma decode_all_plain cache items : Forall plain_event (decode_all cache items).
Proof.
  revert cache; induction items as [|i items IH]; intros cache; cbn [decode_all]; [constructor|].
  destruct (decode_event i cache) as [ev c'] eqn:E. apply Forall_app. split; [|apply IH].
  unfold decode_event in E. destruct (_ <? _); [by injection E as <- _|]. cbn zeta in E.
  destruct (_ =? CLOSE); [injection E as <- _; by apply Forall_singleton|]. destruct (_ || _); [|by injection E as <- _].
  destruct (resolve_exe _ cache) as [x c'']. apply (f_equal fst) in E. cbn [fst] in E. subst ev. apply Forall_singleton. apply le_combine_nonneg.
Qed.

Lemma on_event_keeps p ev : synth_ok (ep_synth p) → plain_event ev →
  synth_ok (ep_synth (on_event p ev).2) ∧ pid_allowlist (on_event p ev).2 = pid_allowlist p.
Proof.
  intros Hok Hev. unfold on_event. destruct (allowed _ _); cbn [negb]; [|done]. destruct ev as [|c q m x d b off t|c t]; [done| |]; cbn [ev_ktime_ns].
  - pose proof (data_ok (ep_synth p) c d b off (ktime_to_epoch_us (ep_clock p) t) Hok) as H. destruct (Synth.data _ _ _ _ _ _). destruct (interleave _ _ _). done.
  - pose proof (close_ok (ep_synth p) c (ktime_to_epoch_us (ep_clock p) t) Hok) as H. destruct (Synth.close _ _ _). destruct (interleave _ _ _). done.
Qed.

Lemma spread_in_stream s o chunks rest : Forall (λ c, c ≠ []) chunks →
  concat chunks = slice s o (length (concat chunks)) → (o + length (concat chunks) <= length s)%nat →
  in_stream s (o + length (concat chunks)) rest → in_stream s o (spread o chunks ++ rest).
Proof.
  intros Hc. revert o; induction Hc as [|c cs Hne Hc IH]; intros o Hs Hle Hr; cbn [concat spread app in_stream length] in *; [by rewrite Nat.add_0_r in Hr|].
  rewrite length_app in *. assert (c = slice s o (length c) ∧ concat cs = slice s (o + length c) (length (concat cs))) as [H1 H2].
  { unfold slice in *. rewrite (Nat.add_comm (length c)), <-(take_drop (length c) (drop o s)) in Hs.
    assert (length (take (length c) (drop o s)) = length c) as El by (rewrite length_take, length_drop; lia).
    rewrite take_app_ge, El in Hs by lia. apply app_inj_1 in Hs as [Hs1 Hs2]; [|by rewrite El]. split; [done|].
    rewrite Hs2 at 1. rewrite drop_drop. f_equal. lia. }
  split_and!; [lia|done|done|lia|]. apply IH; [done|lia|]. by rewrite <-Nat.add_assoc.
Qed.

Lemma spread_gapless n chunks rest : gapless n (spread n chunks ++ rest) ↔ gapless (n + length (concat chunks)) rest.
Proof.
  revert n; induction chunks as [|c cs IH]; intros n; cbn [spread app gapless concat]; [by rewrite Nat.add_0_r|].
  rewrite IH, length_app, Nat.add_assoc. tauto.
Qed.
Lemma spread_concat n chunks : concat (spread n chunks).*2 = concat chunks.
Proof. revert n; induction chunks as [|c cs IH]; intros n; [done|]. cbn. by rewrite IH. Qed.

(** The segments of a connection are pieces of what its events carry. *)
Lemma pump_pieces conn d evs : ∀ p, synth_ok (ep_synth p) → Forall plain_event evs →
  ∃ ps, Forall2 is_piece (segments_for conn d (pump_all p evs)) ps ∧
    (∀ s n, in_stream s n (omap (event_piece conn d) evs) → in_stream s n ps) ∧
    (Forall (λ ev, allowed (pid_allowlist p) ev = true) evs → ∀ n, gapless n (omap (event_piece conn d) evs) →
       gapless n ps ∧ concat ps.*2 = concat (omap (event_piece conn d) evs).*2).
Proof.
  induction evs as [|ev evs IH]; intros p Hok Hpl; [by exists []|]. apply Forall_cons in Hpl as [Hev Hpl]. cbn [pump_all].
  destruct (on_event_keeps p ev Hok Hev) as [Hok' Hal]. pose proof (on_event_segments conn d p ev) as Hseg.
  destruct (on_event p ev) as [out p']. cbn [fst snd] in *. destruct (IH p' Hok' Hpl) as (ps & H1 & H2 & H3). clear IH. rewrite Hal in H3.
  unfold segments_for in *. cbn [map concat fst snd omap list_omap].
  destruct (event_piece conn d ev) as [[o b]|] eqn:Ep; cycle 1.
  { exists ps. cbn [app]. split; [done|]. split; [done|]. intros [_ Hall]%Forall_cons. by apply H3. }
  specialize (Hseg (o, b) Hok eq_refl). assert (∀ c q m x d' b' off t, ev = EvData c q m x d' b' off t → 0 <= off) as Hoff by (by intros ???????? ->).
  specialize (Hseg Hoff). destruct (allowed (pid_allowlist p) ev) eqn:Ea; cycle 1.
  { subst out. exists ps. cbn [omap list_omap app]. split; [done|]. split; [|intros [? ?]%Forall_cons; congruence].
    intros s n (Hn & _ & _ & _ & Hr). apply H2. eapply in_stream_mono; [|exact Hr]. lia. }
  destruct Hseg as (chunks & Hcat & Hne & Hp). cbn [fst snd] in *. subst b. exists (spread o chunks ++ ps). split; [by apply Forall2_app|]. split.
  - intros s n (Hn & _ & Hsl & Hle & Hr). eapply in_stream_mono; [exact Hn|]. apply spread_in_stream; auto.
  - intros [_ Hall]%Forall_cons n (-> & Hg). destruct (H3 Hall _ Hg) as [H4 H5]. rewrite spread_gapless. split; [done|].
    rewrite fmap_app, concat_app, spread_concat. cbn [fmap list_fmap concat snd]. by rewrite H5.
Qed.
End Userspace.

(** ** Into the stream *)

Lemma is_piece_seg_at s o n ob sg : (o <= ob.1)%nat → is_piece sg ob → ob.2 = slice s ob.1 (length ob.2) → (ob.1 + length ob.2 <= length s)%nat →
  n = (ob.1 - o)%nat → seg_at (seq_at SYNTH_ISN o) (drop o s) n sg.
Proof.
  intros Ho (H1 & H2 & H3) Hsl Hle ->. unfold seg_at. rewrite H1, H2, H3, length_drop. split_and!; [|lia| |done].
  - unfold seq_at, u32_add, wrap. rewrite Zplus_mod_idemp_l. f_equal. lia.
  - rewrite Hsl at 1. unfold slice. rewrite drop_drop. do 2 f_equal. lia.
Qed.

Lemma in_stream_faithful s o n ps segs : (o <= n)%nat → in_stream s n ps → Forall2 is_piece segs ps →
  Forall (faithful (seq_at SYNTH_ISN o) (drop o s)) segs.
Proof.
  intros Ho Hin H2. revert n Ho Hin; induction H2 as [|sg [q b] segs ps Hp _ IH]; intros n Ho Hin; [constructor|].
  destruct Hin as (Hn & _ & Hsl & Hle & Hr). constructor; [|eapply (IH (q + length b)%nat); [lia|done]].
  exists (q - o)%nat. by eapply is_piece_seg_at; [|exact Hp|..]; cbn [fst snd]; try lia.
Qed.

(** The first segment fixes where the direction starts. *)
Lemma append_first st sg : append_payload dir_new st sg =
  (mkDir (seg_payload sg) (Some (u32_add (seg_seq sg) (seg_wire_len sg))) (seg_ts sg) None, st).
Proof. done. Qed.

Lemma pieces_in_order s ps segs st : zlen s < 2 ^ 31 → in_stream s 0 ps → Forall2 is_piece segs ps →
  ∃ o n, buf (append_all dir_new st segs).1 = take n (drop o s).
Proof.
  intros Hlen Hin H2. destruct H2 as [|sg [o b] segs ps Hp H2]; [by exists 0%nat, 0%nat|]. cbn [append_all]. rewrite append_first. cbv iota beta.
  destruct Hin as (_ & _ & Hsl & Hle & Hr). destruct Hp as (P1 & P2 & P3). cbn [fst snd] in *.
  pose proof (zlen_nonneg s). assert (zlen (drop o s) < 2 ^ 31) as Hl by (unfold zlen in *; rewrite length_drop; lia).
  assert (delivered (seq_at SYNTH_ISN o) (drop o s) (length b) (mkDir (seg_payload sg) (Some (u32_add (seg_seq sg) (seg_wire_len sg))) (seg_ts sg) None)) as Hd.
  { unfold delivered. cbn [buf next_seq ooo]. rewrite P1, P2, P3, length_drop. split_and!; [lia|done|done|]. by intros x ?%not_elem_of_nil. }
  destruct (append_all_delivered (seq_at SYNTH_ISN o) (drop o s) Hl segs _ _ st Hd) as (n & _ & _ & Hb & _).
  { eapply in_stream_faithful; [|exact Hr|exact H2]. lia. }
  by exists o, n.
Qed.

(** Segments without a gap are appended one after the other. *)
Lemma append_next d st o sg b : next_seq d = Some (seq_at SYNTH_ISN o) → ooo d = None → is_piece sg (o, b) →
  ∃ d', append_payload d st sg = (d', st) ∧ buf d' = buf d ++ b ∧ next_seq d' = Some (seq_at SYNTH_ISN (o + length b)) ∧ ooo d' = None.
Proof.
  intros Hn Ho (P1 & P2 & P3). cbn [fst snd] in *. unfold append_payload. cbn [next_seq buf ooo last_data_ts]. rewrite Hn, P1.
  assert (seq_diff (seq_at SYNTH_ISN o) (seq_at SYNTH_ISN o) = 0) as -> by (unfold seq_diff, u32_sub; by rewrite Z.sub_diag).
  change (0 =? 0) with true. cbv iota zeta. unfold ooo_nonempty. cbn [ooo]. rewrite Ho. eexists. split; [done|]. cbn [buf next_seq ooo]. rewrite P2, P3. split_and!; [done| |done].
  f_equal. unfold seq_at, u32_add, wrap, zlen. rewrite Zplus_mod_idemp_l. f_equal. lia.
Qed.

Lemma pieces_whole ps : ∀ segs d st o, next_seq d = Some (seq_at SYNTH_ISN o) → ooo d = None → gapless o ps → Forall2 is_piece segs ps →
  buf (append_all d st segs).1 = buf d ++ concat ps.*2.
Proof.
  induction ps as [|[q b] ps IH]; intros segs d st o Hn Ho Hg H2; inversion H2 as [|sg ? segs' ? Hp H2']; subst; cbn [append_all]; [by rewrite app_nil_r|].
  destruct Hg as [-> Hg]. destruct (append_next d st o sg b Hn Ho Hp) as (d' & -> & Hb & Hn' & Ho'). rewrite (IH segs' d' st _ Hn' Ho' Hg H2'), Hb.
  cbn [fmap list_fmap concat snd]. by rewrite app_assoc.
Qed.

Lemma pieces_whole_new ps segs st : gapless 0 ps → Forall2 is_piece segs ps → buf (append_all dir_new st segs).1 = concat ps.*2.
Proof.
  intros Hg H2. destruct H2 as [|sg [o b] segs ps (P1 & P2 & P3) H2]; [done|]. destruct Hg as [-> Hg]. cbn [append_all fst snd] in *. rewrite append_first. cbv iota beta.
  rewrite (pieces_whole ps segs _ st (0 + length b)); [cbn [buf fmap list_fmap concat snd]; by rewrite P2| |done|done|done].
  cbn [next_seq]. rewrite P1, P3. reflexivity.
Qed.

Lemma in_stream_whole s ps : in_stream s 0 ps → gapless 0 ps → length (concat ps.*2) = length s → concat ps.*2 = s.
Proof.
  intros Hin Hg Hl. assert (∀ n, in_stream s n ps → gapless n ps → concat ps.*2 = slice s n (length (concat ps.*2))) as H.
  { clear. induction ps as [|[o b] ps IH]; intros n Hin Hg; [done|]. destruct Hin as (_ & _ & Hsl & Hle & Hr). destruct Hg as [-> Hg].
    cbn [fmap list_fmap concat snd]. rewrite (IH _ Hr Hg), Hsl at 1. unfold slice. rewrite length_app.
    rewrite <-drop_drop. rewrite <-(take_drop (length b) (drop n s)) at 3. rewrite take_app_ge by (rewrite length_take; lia).
    rewrite length_take, length_drop. f_equal. f_equal. lia. }
  rewrite (H 0%nat Hin Hg), Hl. unfold slice. rewrite drop_0. apply firstn_all.
Qed.

Section Captured.
Context `{PF : ProcFs}.

Definition ring_record (r : RawSslEvent) (i : list byte) : Prop := ∃ pad, length pad = 4%nat ∧ i = raw_event_bytes r pad.

Lemma decode_all_pids items recs cache : Forall2 ring_record recs items → Forall raw_event_ok recs →
  Forall (λ ev, ∀ q, ev_pid ev = Some q → ∃ r, r ∈ recs ∧ q = re_pid r) (decode_all cache items).
Proof.
  intros H. revert cache; induction H as [|r i recs items (pad & Hp & ->) _ IH]; intros cache Hok; [constructor|]. apply Forall_cons in Hok as [Hr Hok].
  cbn [decode_all]. destruct (decode_event_bytes r pad cache Hr Hp) as [exe He]. destruct (decode_event (raw_event_bytes r pad) cache) as [ev c'].
  cbn [fst] in He. subst ev. apply Forall_app. split.
  - unfold event_of. destruct (_ =? CLOSE); [by apply Forall_singleton|]. destruct (_ || _); [|constructor].
    apply Forall_singleton. cbn [ev_pid]. intros q [= <-]. exists r. split; [by left|done].
  - eapply Forall_impl; [apply (IH c' Hok)|]. intros ev Hev q Hq. destruct (Hev q Hq) as (r' & Hin & ->). exists r'. split; [by right|done].
Qed.

(** C8: What becomes of the plaintext that a process writes to a connection, or reads
    from it, from the first call on until one ends it: whatever the ring drops and
    whatever other connections do between, the direction that is reassembled from
    the frames is a contiguous part of the plaintext, and never anything else.  If
    nothing of it is dropped, no call is larger than the probes send, and its
    process is captured, it is the plaintext. *)
Theorem ssl_plaintext_reassembles conn d k cs items cache p st
    (Hk : kernel_ok k) (Hcs : Forall call_ok cs) (Hp : synth_ok (ep_synth p))
    (Hlife : one_life conn k cs) (Hstart : stream_off k conn (is_write d) = 0)
    (Hlen : zlen (plaintext conn d k cs) < 2 ^ 31)
    (Hring : Forall2 ring_record (probe_all k cs).1 items) :
  let b := buf (append_all dir_new st (segments_for conn d (pump_all p (decode_all cache items)))).1 in
  (∃ o n, b = take n (drop o (plaintext conn d k cs))) ∧
  (none_lost conn k cs → pid_allowlist p = [] ∨ Forall (λ c, pid_of c ∈ pid_allowlist p) cs → b = plaintext conn d k cs).
Proof.
  intros b. pose proof (probe_all_ok cs k Hk Hcs) as Hok.
  assert (Forall raw_event_ok (probe_all k cs).1) as Hrec by (eapply Forall_impl; [exact Hok|]; by intros r [? _]).
  destruct (probe_all_pieces conn d cs k []) as [Hin Hwhole]; [done|by rewrite Hstart|cbn [app]; lia|]. cbn [app] in *.
  rewrite <-(decode_all_pieces conn d items _ cache Hring Hrec) in Hin, Hwhole.
  destruct (pump_pieces conn d (decode_all cache items) p Hp (decode_all_plain cache items)) as (ps & H1 & H2 & H3). split.
  - exact (pieces_in_order _ ps _ st Hlen (H2 _ _ Hin) H1).
  - intros [Hg Hl]%Hwhole Hal. assert (Forall (λ ev, allowed (pid_allowlist p) ev = true) (decode_all cache items)) as Hall.
    { eapply Forall_impl; [apply (decode_all_pids items _ cache Hring Hrec)|]. intros ev Hev. unfold allowed.
      destruct Hal as [->|Hal]; [done|]. destruct (pid_allowlist p) as [|a al]; [done|]. destruct (ev_pid ev) as [q|] eqn:Eq; [|done].
      apply bool_decide_true. destruct (Hev q Eq) as (r & Hr & ->). rewrite Forall_forall in Hok. destruct (Hok r Hr) as (_ & c & Hc & ->).
      rewrite Forall_forall in Hal. by apply Hal. }
    destruct (H3 Hall 0%nat Hg) as [Hg' Hc]. unfold b. rewrite (pieces_whole_new ps) by done. apply in_stream_whole; [exact (H2 _ _ Hin)|done|]. by rewrite Hc, Hl.
Qed.
End Captured.

(** Calls within what the probes send, on a ring with room, lose nothing. *)
Definition within (c : ProbeEnv * ProbeCall) : Prop :=
  (∀ i, is_Some (pe_reserve c.1 i)) ∧
  match c.2 with SslWrite _ _ n | SslReadExit n => default 0 n <= Z.of_nat MAX_CHUNKS * DATA_CAP | _ => True end.

Lemma within_none_lost conn cs : ∀ k, Forall within cs → none_lost conn k cs.
Proof.
  induction cs as [|c cs IH]; intros k; cbn [none_lost]; [done|]. intros [[Hr Hw] Hcs]%Forall_cons. split; [|by apply IH].
  intros d bs Hc. split; [|done]. assert (0 <= Z.of_nat MAX_CHUNKS * DATA_CAP) as H0 by done. revert H0 Hw. generalize (Z.of_nat MAX_CHUNKS * DATA_CAP). intros m H0 Hw.
  unfold carried in Hc. destruct c as [e [ssl buf num|ssl buf|ret|ssl|ssl]]; cbn [fst snd] in *; try discriminate.
  - destruct (_ && _); [|discriminate]. injection Hc as _ _ <-. unfold zlen. rewrite length_read_user. lia.
  - destruct (READ_ARGS k !! _); [|discriminate]. destruct (_ && _); [|discriminate]. injection Hc as _ _ <-. unfold zlen. rewrite length_read_user. lia.
Qed.

(** A run without teardown and with room in the maps is within one life of every
    connection. *)
Definition living (c : ProbeEnv * ProbeCall) : Prop :=
  pe_insert c.1 = true ∧ match c.2 with SslShutdown _ | SslFree _ => False | SslReadExit r => default 0 r ≠ 0 | _ => True end.

Lemma living_one_life conn cs : ∀ k, Forall call_ok cs → Forall living cs → one_life conn k cs.
Proof.
  induction cs as [|c cs IH]; intros k; cbn [one_life]; [done|]. intros [[He _] Hcs]%Forall_cons [[Hi Hl] Hls]%Forall_cons. split_and!; [done| |done|by apply IH].
  unfold closes. destruct c as [e [ssl buf num|ssl buf|ret|ssl|ssl]]; cbn [fst snd] in *; try done.
  destruct (READ_ARGS k !! _); [|done]. by rewrite (proj2 (Z.eqb_neq _ _)).
Qed.

(** ** Examples *)

Section Sample.
#[local] Instance sample_procfs : ProcFs := λ _, None.

Definition sample_slot : Slot :=
  mkSlot (mkRawEvent 0 0 0 0 0 0 (replicate COMM_LEN x00) (replicate (Z.to_nat DATA_CAP) x00)) 5000 (Some (B "node" ++ replicate 12 x00)).
(** A thread of process 7 whose buffer at 100 holds a text. *)
Definition sample_env (text : list byte) : ProbeEnv :=
  mkEnv (7 * 2 ^ 32 + 9) true (λ _, Some sample_slot) (λ a, nth (Z.to_nat (a - 100)) text x00).
Definition sample_calls : list (ProbeEnv * ProbeCall) :=
  [(sample_env (B "GET /"), SslWrite (Some 48) (Some 100) (Some 5));
   (sample_env [], SslReadEnter (Some 48) (Some 100));
   (sample_env (B " HTTP/1.1"), SslWrite (Some 48) (Some 100) (Some 9));
   (sample_env (B "HTTP/1.1 200"), SslReadExit (Some 12))].
Definition sample_pump : EbpfPump := pump_new (mkSynthConfig "ebpf" 0 false) 0 [7].

Lemma sample_env_ok text : env_ok (sample_env text).
Proof.
  split; [vm_compute; by split|]. intros i s [= <-]. split; [|split; [vm_compute; by split|]].
  - split_and!; try (vm_compute; by split || done). 
  - intros c [= <-]. reflexivity.
Qed.

Lemma ssl_plaintext_reassembles_witness :
  let items := map (λ r, raw_event_bytes r (zeros 4)) (probe_all kernel_new sample_calls).1 in
  plaintext 48 ClientToServer kernel_new sample_calls = B "GET / HTTP/1.1" ∧
  buf (append_all dir_new stats_zero (segments_for 48 ClientToServer (pump_all sample_pump (decode_all ∅ items)))).1 =
  plaintext 48 ClientToServer kernel_new sample_calls.
Proof.
  intros items. assert (plaintext 48 ClientToServer kernel_new sample_calls = B "GET / HTTP/1.1") as E by (vm_compute; reflexivity).
  split; [exact E|]. refine (proj2 (ssl_plaintext_reassembles 48 ClientToServer kernel_new sample_calls items ∅ sample_pump stats_zero _ _ _ _ _ _ _) _ _).
  - intros t a Ha. discriminate Ha.
  - repeat (apply Forall_cons; split; [split; [apply sample_env_ok|vm_compute; by split]|]). constructor.
  - split; [vm_compute; discriminate|]. intros c x Hx. discriminate Hx.
  - apply living_one_life; repeat (apply Forall_cons; split; [first [split; [apply sample_env_ok|vm_compute; by split]|split; [reflexivity|vm_compute; first [exact I|discriminate]]]|]); constructor.
  - reflexivity.
  - rewrite E. vm_compute. reflexivity.
  - unfold items. generalize (probe_all kernel_new sample_calls).1. intros l. induction l as [|r l IH]; [constructor|]. constructor; [|exact IH].
    exists (zeros 4). split; [reflexivity|done].
  - apply within_none_lost. repeat (apply Forall_cons; split; [split; [intros i; by eexists|vm_compute; first [exact I|discriminate]]|]). constructor.
  - right. repeat (apply Forall_cons; split; [vm_compute; by left|]). constructor.
Defined.
End Sample.

(** ** The loop over the ring accounts for every record *)

Section Accounts.
Context `{PF : ProcFs}.

Definition captured_bytes (evs : list SslEvent) : Z :=
  foldr (λ ev n, match ev with EvData _ _ _ _ _ data _ _ => zlen data | _ => 0 end + n) 0 evs.
Definition heartbeats (pkts : list RawPacket) : Z := zlen (filter (λ p, is_heartbeat p = true) pkts).

Lemma heartbeats_cons p pkts : heartbeats (p :: pkts) = (if is_heartbeat p then 1 else 0) + heartbeats pkts.
Proof. unfold heartbeats. rewrite filter_cons. destruct (is_heartbeat p); [rewrite decide_True by done; apply zlen_cons_eq|by rewrite decide_False]. Qed.
Lemma heartbeats_app p q : heartbeats (p ++ q) = heartbeats p + heartbeats q.
Proof. unfold heartbeats. by rewrite filter_app, zlen_app. Qed.

Lemma send_all_spec pkts : ∀ l, let '(go, l') := send_all pkts l in
  ld_sent l' = ld_sent l ++ take (ld_room l) pkts ∧ (go = true ↔ (length pkts <= ld_room l)%nat) ∧
  (go = true → ld_pump l' = ld_pump l ∧ ld_cache l' = ld_cache l ∧ ld_room l' = (ld_room l - length pkts)%nat ∧
     ld_metrics l' CaptureHeartbeatsEmitted = ld_metrics l CaptureHeartbeatsEmitted + heartbeats pkts ∧
     ld_metrics l' EbpfFramesSynthesized = ld_metrics l EbpfFramesSynthesized + (zlen pkts - heartbeats pkts) ∧
     ld_metrics l' CapturePacketsReceived = ld_metrics l CapturePacketsReceived + (zlen pkts - heartbeats pkts) ∧
     ∀ m, m ≠ CaptureHeartbeatsEmitted → m ≠ EbpfFramesSynthesized → m ≠ CapturePacketsReceived → ld_metrics l' m = ld_metrics l m).
Proof.
  induction pkts as [|p pkts IH]; intros l; cbn [send_all length].
  { rewrite firstn_nil, app_nil_r. split_and!; [done|split; [lia|done]|]. intros _. change (heartbeats []) with 0.
    change (zlen (@nil RawPacket)) with 0. split_and!; [done|done|lia|lia|lia|lia|done]. }
  destruct (ld_room l) as [|r] eqn:Er. { rewrite app_nil_r. split_and!; [done|split; [done|lia]|done]. }
  match goal with |- context [send_all pkts ?x] => set (l1 := x) in *; specialize (IH l1); destruct (send_all pkts l1) as [go l'] end.
  assert (ld_room l1 = r) as Er1 by done. assert (ld_sent l1 = ld_sent l ++ [p]) as Es by done. rewrite Er1, Es in IH. destruct IH as (H1 & H2 & H3). split_and!.
  - rewrite H1. cbn [take firstn]. by rewrite <-app_assoc.
  - rewrite H2. lia.
  - intros Hgo. destruct (H3 Hgo) as (H4 & H5 & H6 & M1 & M2 & M3 & M4). rewrite heartbeats_cons, zlen_cons_eq, M1, M2, M3.
    split_and!; [done|done|rewrite H6; lia|..]; [| | |intros m ? ? ?; rewrite M4 by done]; subst l1; cbn [ld_metrics];
      destruct (is_heartbeat p); simpl_counters; unfold inc_counter; rewrite ?add_counter_ne by done; lia || done.
Qed.

(** What the loop sends is what the pump makes of the records, in order, until
    the other side is gone; while it is not, every record is counted as received
    or dropped, and every packet as a frame or a heartbeat. *)
Theorem ring_accounts items : ∀ l,
  let evs := decode_all (ld_cache l) items in
  let out := concat (map snd (pump_all (ld_pump l) evs)) in
  let '(go, l') := drain_ring l items in
  ld_sent l' = ld_sent l ++ take (ld_room l) out ∧ (go = true ↔ (length out <= ld_room l)%nat) ∧
  (go = true →
     ld_metrics l' EbpfEventsReceived = ld_metrics l EbpfEventsReceived + zlen evs ∧
     ld_metrics l' EbpfEventsDropped = ld_metrics l EbpfEventsDropped + (zlen items - zlen evs) ∧
     ld_metrics l' EbpfBytesCaptured = ld_metrics l EbpfBytesCaptured + captured_bytes evs ∧
     ld_metrics l' CaptureHeartbeatsEmitted = ld_metrics l CaptureHeartbeatsEmitted + heartbeats out ∧
     ld_metrics l' EbpfFramesSynthesized = ld_metrics l EbpfFramesSynthesized + (zlen out - heartbeats out) ∧
     ld_metrics l' CapturePacketsReceived = ld_metrics l CapturePacketsReceived + (zlen out - heartbeats out)).
Proof.
  induction items as [|i items IH]; intros l; cbn [drain_ring decode_all].
  { cbn [pump_all map concat length]. rewrite firstn_nil, app_nil_r. split_and!; [done|split; [lia|done]|]. intros _.
    change (heartbeats []) with 0. change (zlen (@nil RawPacket)) with 0. change (zlen (@nil (list byte))) with 0.
    change (zlen (@nil SslEvent)) with 0. change (captured_bytes []) with 0. lia. }
  unfold ring_item. destruct (decode_event i (ld_cache l)) as [[ev|] cache] eqn:Ed; cycle 1.
  { match goal with |- context [drain_ring ?x items] => specialize (IH x); destruct (drain_ring x items) as [go l'] end.
    cbn [ld_cache ld_pump ld_sent ld_room ld_metrics app] in *. destruct IH as (H1 & H2 & H3). split_and!; [done|done|]. intros Hgo.
    destruct (H3 Hgo) as (E1 & E2 & E3 & E4 & E5 & E6). rewrite zlen_cons_eq, E1, E2, E3, E4, E5, E6. simpl_counters. split_and!; lia. }
  cbn [app pump_all]. destruct (on_event (ld_pump l) ev) as [pkts pump] eqn:Eo.
  match goal with |- context [send_all pkts ?x] => pose proof (send_all_spec pkts x) as Hs; destruct (send_all pkts x) as [go1 l1] end.
  cbn [ld_cache ld_pump ld_sent ld_room ld_metrics] in Hs. destruct Hs as (S1 & S2 & S3). cbn [map concat snd]. destruct go1; cycle 1.
  { assert (ld_room l < length pkts)%nat as Hlt by (destruct (decide (length pkts <= ld_room l)%nat) as [Hle|]; [apply S2 in Hle; discriminate|lia]).
    rewrite take_app_le by lia. split_and!; [done|rewrite length_app; split; [done|lia]|done]. }
  assert (length pkts <= ld_room l)%nat as Hle by by apply S2. destruct (S3 eq_refl) as (P1 & P2 & P3 & M1 & M2 & M3 & M4).
  specialize (IH l1). rewrite P1, P2 in IH. destruct (drain_ring l1 items) as [go l']. destruct IH as (H1 & H2 & H3). split_and!.
  - rewrite H1, S1, P3, <-app_assoc. f_equal. rewrite take_app_ge by lia. by rewrite firstn_all2 by lia.
  - rewrite H2, P3, length_app. lia.
  - intros Hgo. destruct (H3 Hgo) as (E1 & E2 & E3 & E4 & E5 & E6). rewrite E1, E2, E3, E4, E5, E6, M1, M2, M3, !M4, heartbeats_app, !zlen_app, !zlen_cons_eq by discriminate.
    unfold captured_bytes. cbn [foldr]. fold (captured_bytes (decode_all cache items)).
    split_and!; destruct ev; simpl_counters; lia.
Qed.
End Accounts.

(** ** Connections are known by their pointers *)

(** Two processes whose [SSL] objects have the same address share a stream: the
    second one's bytes are placed over, or after, the first one's.  The record's
    comment says that the pointer is unique in a process. *)
Section Shared.
#[local] Instance shared_procfs : ProcFs := λ _, None.

Definition shared_segments (evs : list SslEvent) : list Segment :=
  segments_for 48 ClientToServer (pump_all (pump_new (mkSynthConfig "ebpf" 0 false) 0 []) evs).

Example pointers_shared :
  buf (append_all dir_new stats_zero (shared_segments
    [EvData 48 7 "node" None ClientToServer (B "GET /a") 0 1000000; EvData 48 8 "curl" None ClientToServer (B "GET /b") 6 2000000])).1
  = B "GET /aGET /b".
Proof. vm_compute. reflexivity. Qed.

(** If the ring drops the record of a close, the probes have started their
    offsets again while the synthesizer has not: what the next connection writes
    is taken for a retransmission of what the last one wrote. *)
Example lost_close_hides_bytes :
  let '(d, st) := append_all dir_new stats_zero (shared_segments
    [EvData 48 7 "node" None ClientToServer (B "GET /a") 0 1000000; EvData 48 7 "node" None ClientToServer (B "GET /b") 0 2000000]) in
  buf d = B "GET /a" ∧ rexmit_ignored st = 1.
Proof. vm_compute. done. Qed.
End Shared.
