(* ===== verification/PcapExtract.v ===== *)
(** * Extraction from packet dumps (h-pcap-extract, h-api/src/routes/pcap_extract.rs)

    The read side of the dump: the files of a window of minutes, their records,
    the filter by time and addresses, the merge in time order, and the pcap
    stream made of it.  A file is read as it is when it is opened.  Channels and
    blocking threads are not modelled: a stream is the list of its chunks. *)

From Stdlib Require Import Strings.Byte Strings.String ZArith Lia.
From stdpp Require Import base gmap sets list strings.
From S2P Require Import Prelude.
From S2P Require Import Net.
From S2P Require Import Decode.
From S2P Require Import Text.
From S2P Require Import Calendar.
From S2P Require Import Disk.
From S2P Require Import PcapDump.

Open Scope Z_scope.

Record ExtractRequest : Type := mkRequest {
  rq_source_id : string;
  rq_start_us : Z;
  rq_end_us : Z;
  rq_client_ip : option IpAddr;
  rq_client_port : option Z;
  rq_server_ip : option IpAddr;
  rq_server_port : option Z;
}.
Record PipelineRoot : Type := mkRoot { pr_name : text; pr_dump_dir : Path }.
Inductive ExtractError : Type := LinkTypeMismatch (expected got : Z).

(** The checks of the request's parameters before their addresses are parsed;
    the subtraction is that of a release build. *)
Definition MAX_WINDOW_US : Z := 60 * 60 * 1000000.
Inductive ParamError : Type := InvalidSourceId | StartNotBeforeEnd | WindowTooWide.
Definition check_request (source_id : text) (start_us end_us : Z) : option ParamError :=
  if negb (is_safe_path_component source_id) then Some InvalidSourceId
  else if end_us <=? start_us then Some StartNotBeforeEnd
  else if MAX_WINDOW_US <? swrap 64 (end_us - start_us) then Some WindowTooWide
  else None.

(** ** Candidate files *)

Record CandidateFile : Type := mkCandidateFile { cf_path : Path; cf_compressed : bool }.

Definition push_if_file (d : Disk) (dir : Path) (label ext : text) (compressed : bool) : list CandidateFile :=
  let path := join_path dir (label ++ ext) in
  if is_file path d then [mkCandidateFile path compressed] else [].

Definition minutes_between (lo hi : Z) : list Z := map (λ i, lo + Z.of_nat i) (seq 0 (Z.to_nat (hi - lo + 1))).

Definition root_candidates (d : Disk) (safe_source : text) (minute_lo minute_hi : Z) (root : PipelineRoot) : list CandidateFile :=
  match sanitize_path_component (pr_name root) with
  | None => []
  | Some safe_pipeline =>
      let src_dir := join_path (join_path (pr_dump_dir root) safe_pipeline) safe_source in
      if negb (is_dir src_dir d) then []
      else
        concat (map (λ k, push_if_file d src_dir (minute_label k) (B ".pcap") false ++
                          push_if_file d src_dir (minute_label k) (B ".pcap.snappy") true) (minutes_between minute_lo minute_hi))
  end.

Definition list_candidate_files (req : ExtractRequest) (roots : list PipelineRoot) (d : Disk) : list CandidateFile :=
  match sanitize_path_component (B (rq_source_id req)) with
  | None => []
  | Some safe_source =>
      concat (map (root_candidates d safe_source (rq_start_us req / MICROS_PER_MINUTE) (rq_end_us req / MICROS_PER_MINUTE)) roots)
  end.

(** ** Reading a file *)

Record RawRec : Type := mkRec { rr_ts_us : Z; rr_caplen : Z; rr_wirelen : Z; rr_data : list byte }.
Record PacketIter : Type := mkIter { pi_inner : list byte; pi_link_type : Z }.

(** [read_full_or_eof] into a buffer of [n] bytes: what was read, and the rest. *)
Definition read_full (n : Z) (l : list byte) : option (list byte * list byte) :=
  if n <=? zlen l then Some (take (Z.to_nat n) l, drop (Z.to_nat n) l) else None.

Definition iter_open (bytes : list byte) : option PacketIter :=
  match read_full 24 bytes with
  | None => None
  | Some (header, rest) =>
      if negb (le_combine (take 4 header) =? PCAP_MAGIC) then None
      else Some (mkIter rest (le_combine (take 4 (drop 20 header))))
  end.

Definition iter_next (it : PacketIter) : option (RawRec * PacketIter) :=
  match read_full 16 (pi_inner it) with
  | None => None
  | Some (hdr, rest) =>
      let ts_sec := le_combine (take 4 hdr) in
      let ts_usec := le_combine (take 4 (drop 4 hdr)) in
      let caplen := le_combine (take 4 (drop 8 hdr)) in
      let wirelen := le_combine (take 4 (drop 12 hdr)) in
      match read_full caplen rest with
      | None => None
      | Some (data, rest') => Some (mkRec (ts_sec * 1000000 + ts_usec) caplen wirelen data, mkIter rest' (pi_link_type it))
      end
  end.

(** ** The filter *)

Definition field_match {T : Type} `{EqDecision T} (filter : option T) (actual : T) : bool :=
  match filter with None => true | Some f => bool_decide (f = actual) end.

Definition filter_matches (req : ExtractRequest) (link_type : Z) (rec : RawRec) : bool :=
  if (rr_ts_us rec <? rq_start_us req) || (rq_end_us req <? rr_ts_us rec) then false
  else
    match decode (rr_data rec) link_type (rr_ts_us rec) (rq_source_id req) with
    | DOk parsed =>
        let forward := field_match (rq_client_ip req) (src_ip parsed) && field_match (rq_client_port req) (src_port parsed)
                       && field_match (rq_server_ip req) (dst_ip parsed) && field_match (rq_server_port req) (dst_port parsed) in
        let reverse := field_match (rq_client_ip req) (dst_ip parsed) && field_match (rq_client_port req) (dst_port parsed)
                       && field_match (rq_server_ip req) (src_ip parsed) && field_match (rq_server_port req) (src_port parsed) in
        forward || reverse
    | _ => false
    end.

(** ** The merge *)

Record HeapEntry : Type := mkEntry { he_ts_us : Z; he_file_idx : nat; he_rec : RawRec }.
Definition entry_ltb (a b : HeapEntry) : bool :=
  (he_ts_us a <? he_ts_us b) || ((he_ts_us a =? he_ts_us b) && (he_file_idx a <? he_file_idx b)%nat).

(** [BinaryHeap::pop] of reversed entries: the least, and the others. *)
Fixpoint heap_pop (h : list HeapEntry) : option (HeapEntry * list HeapEntry) :=
  match h with
  | [] => None
  | e :: h' =>
      match heap_pop h' with
      | None => Some (e, [])
      | Some (m, rest) => if entry_ltb m e then Some (m, e :: rest) else Some (e, h')
      end
  end.

Record MergeIter : Type := mkMerge {
  mi_iters : list PacketIter;
  mi_heap : list HeapEntry;
  mi_req : ExtractRequest;
  mi_link_types : list Z;
}.

(** [by_ref] over one file up to its next match. *)
Fixpoint next_match (fuel : nat) (req : ExtractRequest) (link_type : Z) (it : PacketIter) : option RawRec * PacketIter :=
  match fuel with
  | O => (None, it)
  | S fuel' =>
      match iter_next it with
      | None => (None, it)
      | Some (rec, it') => if filter_matches req link_type rec then (Some rec, it') else next_match fuel' req link_type it'
      end
  end.

Definition refill (idx : nat) (m : MergeIter) : MergeIter :=
  match mi_iters m !! idx, mi_link_types m !! idx with
  | Some it, Some lt =>
      let '(r, it') := next_match (S (length (pi_inner it))) (mi_req m) lt it in
      let heap := match r with Some rec => mkEntry (rr_ts_us rec) idx rec :: mi_heap m | None => mi_heap m end in
      mkMerge (<[idx := it']> (mi_iters m)) heap (mi_req m) (mi_link_types m)
  | _, _ => m
  end.

Definition merge_new (iters : list PacketIter) (req : ExtractRequest) : MergeIter :=
  foldl (λ m idx, refill idx m) (mkMerge iters [] req (map pi_link_type iters)) (seq 0 (length iters)).

Definition merge_next (m : MergeIter) : option (RawRec * MergeIter) :=
  match heap_pop (mi_heap m) with
  | None => None
  | Some (e, heap) => Some (he_rec e, refill (he_file_idx e) (mkMerge (mi_iters m) heap (mi_req m) (mi_link_types m)))
  end.

(** ** The output *)

Definition DEFAULT_EMPTY_LINK_TYPE : Z := 1.

Definition global_header (link_type : Z) : list byte :=
  le_bytes 4 PCAP_MAGIC ++ le_bytes 2 PCAP_VERSION_MAJOR ++ le_bytes 2 PCAP_VERSION_MINOR ++ le_bytes 4 0 ++ le_bytes 4 0 ++
  le_bytes 4 PCAP_SNAPLEN ++ le_bytes 4 link_type.
Definition record_header (rec : RawRec) : list byte :=
  le_bytes 4 (Z.quot (rr_ts_us rec) 1000000) ++ le_bytes 4 (Z.rem (rr_ts_us rec) 1000000) ++
  le_bytes 4 (rr_caplen rec) ++ le_bytes 4 (rr_wirelen rec).

Inductive ChunkState : Type := NeedHeader | Records.
Record ChunkIter : Type := mkChunks { ci_state : ChunkState; ci_merge : MergeIter; ci_link_type : Z }.

Definition chunk_next (ci : ChunkIter) : option (list byte * ChunkIter) :=
  match ci_state ci with
  | NeedHeader => Some (global_header (ci_link_type ci), mkChunks Records (ci_merge ci) (ci_link_type ci))
  | Records =>
      match merge_next (ci_merge ci) with
      | None => None
      | Some (rec, m) => Some (record_header rec ++ rr_data rec, mkChunks Records m (ci_link_type ci))
      end
  end.

(** The chunks of a stream that is read to its end. *)
Fixpoint collect (fuel : nat) (ci : ChunkIter) : res (list (list byte)) :=
  match fuel with
  | O => OutOfFuel
  | S fuel' =>
      match chunk_next ci with
      | None => Ret []
      | Some (chunk, ci') => let* l := collect fuel' ci' in Ret (chunk :: l)
      end
  end.

(** ** Preparing and streaming *)

Record Prep : Type := mkPrep { pp_iters : list PacketIter; pp_header_link_type : Z; pp_req : ExtractRequest }.

Definition link_mismatch (lt : Z) (its : list PacketIter) : option Z :=
  find_map (λ it, if pi_link_type it =? lt then None else Some (pi_link_type it)) its.

Section Prepare.
Context `{FE : FrameEncoder}.

(** [PacketIter::open]: the file is opened, decoded if it is compressed, and its
    header read. *)
Definition open_candidate (f : CandidateFile) : io PacketIter :=
  syscall (λ d,
    match file_at (cf_path f) d with
    | None => (inr NotFound, d)
    | Some content =>
        match iter_open (if cf_compressed f then decode_frames content else content) with
        | Some it => (inl it, d)
        | None => (inr OtherError, d)
        end
    end).

(** A file that does not open is skipped. *)
Fixpoint open_all (files : list CandidateFile) (d : Disk) : list PacketIter * Disk :=
  match files with
  | [] => ([], d)
  | f :: files' =>
      let '(r, d1) := open_candidate f d in
      let '(its, d2) := open_all files' d1 in
      (match r with inl it => it :: its | inr _ => its end, d2)
  end.

Definition prepare (req : ExtractRequest) (roots : list PipelineRoot) (d : Disk) : (Prep + ExtractError) * Disk :=
  let '(iters, d1) := open_all (list_candidate_files req roots d) d in
  (match iters with
   | [] => inl (mkPrep iters DEFAULT_EMPTY_LINK_TYPE req)
   | first :: rest =>
       match link_mismatch (pi_link_type first) rest with
       | Some got => inr (LinkTypeMismatch (pi_link_type first) got)
       | None => inl (mkPrep iters (pi_link_type first) req)
       end
   end, d1).

End Prepare.

(** What a merge still has to read: a bound of the records to come. *)
Definition merge_measure (m : MergeIter) : nat :=
  (sum_list (map (λ it, length (pi_inner it)) (mi_iters m)) + length (mi_heap m))%nat.

Definition stream_extract (prep : Prep) : res (list (list byte)) :=
  let merge := merge_new (pp_iters prep) (pp_req prep) in
  collect (S (S (merge_measure merge))) (mkChunks NeedHeader merge (pp_header_link_type prep)).
