(* ===== verification/ExtractSpec.v ===== *)
(** * What an extraction returns

    The records of a file, the merge as an interleaving of the files' matching
    records, and the composition with the dump that wrote the files. *)

From Stdlib Require Import Strings.Byte Strings.String ZArith Lia.
From stdpp Require Import base gmap sets list strings sorting.
From S2P Require Import Prelude.
From S2P Require Import Net.
From S2P Require Import Decode.
From S2P Require Import Text.
From S2P Require Import Counters.
From S2P Require Import Throttle.
From S2P Require Import Calendar.
From S2P Require Import Disk.
From S2P Require Import PcapDump.
From S2P Require Import DumpSinks.
From S2P Require Import DumpSafety.
From S2P Require Import DumpContents.
From S2P Require Import PcapExtract.

Open Scope Z_scope.

(** ** Records of a file *)

Fixpoint read_records (fuel : nat) (it : PacketIter) : list RawRec :=
  match fuel with
  | O => []
  | S fuel' => match iter_next it with Some (rec, it') => rec :: read_records fuel' it' | None => [] end
  end.
Definition records (it : PacketIter) : list RawRec := read_records (S (length (pi_inner it))) it.

Lemma read_full_spec n l a b : 0 <= n → read_full n l = Some (a, b) → l = a ++ b ∧ zlen a = n.
Proof.
  intros Hn. unfold read_full. destruct (Z.leb_spec n (zlen l)) as [Hle|]; [|done]. intros [= <- <-].
  split; [by rewrite take_drop|]. unfold zlen in *. rewrite length_take. lia.
Qed.

Lemma read_full_app n a b : zlen a = n → read_full n (a ++ b) = Some (a, b).
Proof.
  intros <-. unfold read_full. rewrite zlen_app. pose proof (zlen_nonneg b). rewrite (proj2 (Z.leb_le _ _)) by lia.
  unfold zlen. rewrite Nat2Z.id. by rewrite take_app_length, drop_app_length.
Qed.

Lemma read_full_short n l : zlen l < n → read_full n l = None.
Proof. intros H. unfold read_full. by rewrite (proj2 (Z.leb_gt _ _)). Qed.

Lemma iter_next_length it rec it' : iter_next it = Some (rec, it') →
  (length (pi_inner it') + 16 <= length (pi_inner it))%nat ∧ pi_link_type it' = pi_link_type it.
Proof.
  unfold iter_next. destruct (read_full 16 (pi_inner it)) as [[hdr rest]|] eqn:E; [|done]. apply read_full_spec in E as [E1 E2]; [|done].
  destruct (read_full _ rest) as [[data rest']|] eqn:E'; [|done]. apply read_full_spec in E' as [E1' _]; [|apply le_combine_nonneg].
  intros [= _ <-]. cbn. rewrite E1, E1', !length_app. unfold zlen in E2. lia.
Qed.

Lemma read_records_enough n m it : (length (pi_inner it) < n)%nat → (length (pi_inner it) < m)%nat → read_records n it = read_records m it.
Proof.
  revert m it. induction n as [|n IH]; intros m it Hn Hm; [lia|]. destruct m as [|m]; [lia|]. cbn [read_records].
  destruct (iter_next it) as [[rec it']|] eqn:E; [|done]. apply iter_next_length in E as [E _]. f_equal. apply IH; lia.
Qed.

Lemma records_unfold it : records it = match iter_next it with Some (rec, it') => rec :: records it' | None => [] end.
Proof.
  unfold records at 1. cbn [read_records]. destruct (iter_next it) as [[rec it']|] eqn:E; [|done]. apply iter_next_length in E as [E _].
  f_equal. apply read_records_enough; lia.
Qed.

(** ** What the dump writes is read back *)

(** A packet whose fields fit their records. *)
Definition recordable (p : RawPacket) : Prop :=
  0 <= raw_ts p < 2 ^ 32 * 1000000 ∧ caplen p = zlen (raw_data p) ∧ zlen (raw_data p) < 2 ^ 32 ∧ 0 <= wirelen p < 2 ^ 32.
Definition rec_of (p : RawPacket) : RawRec := mkRec (raw_ts p) (caplen p) (wirelen p) (raw_data p).

Lemma le4 z : 0 <= z < 2 ^ 32 → le_combine (le_bytes 4 z) = z.
Proof. intros Hz. rewrite le_combine_le_bytes. apply Z.mod_small. exact Hz. Qed.

Lemma zlen_le4 z : zlen (le_bytes 4 z) = 4.
Proof. unfold zlen. by rewrite length_le_bytes. Qed.

(** Four fields of four bytes. *)
Lemma four_fields (a b c d : list byte) : zlen a = 4 → zlen b = 4 → zlen c = 4 → zlen d = 4 →
  let h := a ++ b ++ c ++ d in take 4 h = a ∧ take 4 (drop 4 h) = b ∧ take 4 (drop 8 h) = c ∧ take 4 (drop 12 h) = d.
Proof.
  intros Ha Hb Hc Hd h. subst h. unfold zlen in *. split_and!.
  - by rewrite take_app_length' by lia.
  - by rewrite drop_app_length', take_app_length' by lia.
  - by rewrite app_assoc, drop_app_length', take_app_length' by (rewrite ?length_app; lia).
  - by rewrite !app_assoc, drop_app_length', take_ge by (rewrite ?length_app; lia).
Qed.

Lemma iter_next_record p rest lt : recordable p → iter_next (mkIter (record_bytes p ++ rest) lt) = Some (rec_of p, mkIter rest lt).
Proof.
  intros (Hts & Hcap & Hlen & Hw). unfold record_bytes, record_fields, iter_next. cbn [concat pi_inner].
  set (a := le_bytes 4 (Z.quot _ _)). set (b := le_bytes 4 (Z.rem _ _)). set (c := le_bytes 4 (caplen p)). set (w := le_bytes 4 (wirelen p)).
  rewrite app_nil_r. replace ((a ++ b ++ c ++ w ++ raw_data p) ++ rest) with ((a ++ b ++ c ++ w) ++ raw_data p ++ rest) by (rewrite <-!app_assoc; done).
  rewrite read_full_app by (rewrite !zlen_app; unfold a, b, c, w; rewrite !zlen_le4; done).
  destruct (four_fields a b c w) as (-> & -> & -> & ->); [apply zlen_le4..|]. unfold a, b, c, w.
  rewrite Z.quot_div_nonneg, Z.rem_mod_nonneg by lia.
  pose proof (zlen_nonneg (raw_data p)).
  assert (0 <= raw_ts p / 1000000 < 2 ^ 32) by (split; [apply Z.div_pos; lia|apply Z.div_lt_upper_bound; lia]).
  assert (0 <= raw_ts p mod 1000000 < 1000000) by (apply Z.mod_pos_bound; lia).
  rewrite !le4 by (rewrite ?Hcap; lia). rewrite read_full_app by done. unfold rec_of. do 3 f_equal.
  rewrite (Z.div_mod (raw_ts p) 1000000) at 3 by lia. lia.
Qed.

Lemma read_full_more n l a b t : 0 <= n → read_full n l = Some (a, b) → read_full n (l ++ t) = Some (a, b ++ t).
Proof. intros Hn H. apply read_full_spec in H as [-> <-]; [|done]. rewrite <-app_assoc. by apply read_full_app. Qed.

(** Bytes that follow a record do not change it. *)
Lemma iter_next_app it rec it' t : iter_next it = Some (rec, it') →
  iter_next (mkIter (pi_inner it ++ t) (pi_link_type it)) = Some (rec, mkIter (pi_inner it' ++ t) (pi_link_type it)).
Proof.
  unfold iter_next. cbn [pi_inner pi_link_type]. destruct (read_full 16 (pi_inner it)) as [[hdr rest]|] eqn:E; [|done].
  rewrite (read_full_more 16 _ _ _ t ltac:(lia) E). destruct (read_full _ rest) as [[data rest']|] eqn:E'; [|done].
  rewrite (read_full_more _ rest _ _ t (le_combine_nonneg _) E'). by intros [= <- <-].
Qed.

Lemma records_dump pkts rest lt : Forall recordable pkts →
  records (mkIter (concat (map record_bytes pkts) ++ rest) lt) = map rec_of pkts ++ records (mkIter rest lt).
Proof.
  induction 1 as [|p pkts Hp Hall IH]; [done|]. cbn [map concat]. rewrite <-app_assoc, records_unfold, iter_next_record by done.
  cbn [app]. by rewrite IH.
Qed.

Lemma records_empty lt : records (mkIter [] lt) = [].
Proof. done. Qed.

Lemma iter_open_dump lt rest : 0 <= lt < 2 ^ 32 → iter_open (header_bytes lt ++ rest) = Some (mkIter rest lt).
Proof.
  intros Hlt. unfold iter_open. rewrite read_full_app by done.
  change (take 4 (header_bytes lt)) with (le_bytes 4 PCAP_MAGIC). rewrite le4 by (unfold PCAP_MAGIC; lia). rewrite Z.eqb_refl. cbn [negb].
  change (take 4 (drop 20 (header_bytes lt))) with (le_bytes 4 lt). by rewrite le4.
Qed.

Lemma iter_next_cut p l t lt : recordable p → record_bytes p = l ++ t → t ≠ [] → iter_next (mkIter l lt) = None.
Proof.
  intros Hp E Ht. destruct (iter_next (mkIter l lt)) as [[rec it']|] eqn:En; [exfalso|done].
  pose proof (iter_next_record p [] lt Hp) as H1. rewrite app_nil_r, E in H1.
  pose proof (iter_next_app (mkIter l lt) rec it' t En) as H2. cbn [pi_inner pi_link_type] in H2. rewrite H1 in H2.
  injection H2 as _ H2. apply Ht. symmetry in H2. by apply app_eq_nil in H2 as [_ ->].
Qed.

(** Whatever the file's end was cut to, what is read is a prefix: a record cut
    short ends the file. *)
Lemma records_cut pkts l t lt : Forall recordable pkts → concat (map record_bytes pkts) = l ++ t → records (mkIter l lt) `prefix_of` map rec_of pkts.
Proof.
  intros Hall. revert l t. induction Hall as [|p pkts Hp Hall IH]; intros l t E; cbn [map concat] in *.
  { symmetry in E. apply app_eq_nil in E as [-> ->]. by exists []. }
  apply List.app_eq_app in E as (m & [[E ->]|[-> E]]).
  - rewrite records_unfold. destruct m as [|b m]; cycle 1.
    { rewrite (iter_next_cut p l (b :: m)) by done. apply prefix_nil. }
    rewrite app_nil_r in E. subst l. rewrite <-(app_nil_r (record_bytes p)), iter_next_record by done. apply prefix_cons.
    by apply (IH [] (concat (map record_bytes pkts))).
  - rewrite records_unfold, iter_next_record by done. by apply prefix_cons, (IH m t).
Qed.

(** ** The merge *)

(** The records of a file that are in the request. *)
Definition matching (req : ExtractRequest) (lt : Z) (it : PacketIter) : list RawRec := List.filter (filter_matches req lt) (records it).

Lemma matching_unfold req lt it : matching req lt it =
  match iter_next it with
  | Some (rec, it') => if filter_matches req lt rec then rec :: matching req lt it' else matching req lt it'
  | None => []
  end.
Proof. unfold matching. rewrite records_unfold. by destruct (iter_next it) as [[rec it']|]. Qed.

Lemma next_match_spec req lt fuel it : (length (pi_inner it) < fuel)%nat →
  match next_match fuel req lt it with
  | (Some rec, it') => matching req lt it = rec :: matching req lt it' ∧ (length (pi_inner it') < length (pi_inner it))%nat
  | (None, it') => matching req lt it = [] ∧ matching req lt it' = [] ∧ (length (pi_inner it') <= length (pi_inner it))%nat
  end.
Proof.
  revert it. induction fuel as [|fuel IH]; intros it Hf; [lia|]. cbn [next_match]. rewrite (matching_unfold req lt it).
  destruct (iter_next it) as [[rec it1]|] eqn:E; [|by rewrite matching_unfold, E].
  apply iter_next_length in E as [El _]. destruct (filter_matches req lt rec); [split; [done|lia]|].
  specialize (IH it1 ltac:(lia)). destruct (next_match fuel req lt it1) as [[rec'|] it']; (intuition auto; lia).
Qed.

(** What file [i] has still to give: its entry, then the rest of its file. *)
Definition entries_of (i : nat) (h : list HeapEntry) : list RawRec := map he_rec (List.filter (λ e, (he_file_idx e =? i)%nat) h).
Definition remaining (m : MergeIter) (i : nat) : list RawRec :=
  match mi_iters m !! i, mi_link_types m !! i with
  | Some it, Some lt => entries_of i (mi_heap m) ++ matching (mi_req m) lt it
  | _, _ => []
  end.
Definition in_heap (i : nat) (h : list HeapEntry) : Prop := i ∈ map he_file_idx h.

Record merge_ok (m : MergeIter) : Prop := {
  mo_types : length (mi_link_types m) = length (mi_iters m);
  mo_nodup : NoDup (map he_file_idx (mi_heap m));
  mo_entry e : e ∈ mi_heap m → (he_file_idx e < length (mi_iters m))%nat ∧ he_ts_us e = rr_ts_us (he_rec e);
}.
(** A file without an entry has nothing left. *)
Definition settled (m : MergeIter) (i : nat) : Prop := in_heap i (mi_heap m) ∨ remaining m i = [].

Lemma entries_of_absent i h : ¬ in_heap i h → entries_of i h = [].
Proof.
  unfold entries_of, in_heap. induction h as [|e h IH]; [done|]. cbn. rewrite elem_of_cons. intros Hn.
  destruct (Nat.eqb_spec (he_file_idx e) i); [exfalso; auto|]. apply IH. auto.
Qed.

Lemma entries_of_perm i h h' : NoDup (map he_file_idx h) → h ≡ₚ h' → entries_of i h = entries_of i h'.
Proof.
  intros Hnd Hp. assert (∀ h, NoDup (map he_file_idx h) → ∀ e, e ∈ h → he_file_idx e = i → entries_of i h = [he_rec e]) as Hone.
  { clear. intros h. induction h as [|e h IH]; intros Hnd e0 Hin <-; [by apply not_elem_of_nil in Hin|].
    cbn [map] in Hnd. apply NoDup_cons in Hnd as [Hnin Hnd]. unfold entries_of. cbn [List.filter].
    apply elem_of_cons in Hin as [->|Hin].
    - rewrite Nat.eqb_refl. cbn. f_equal. by apply (entries_of_absent (he_file_idx e)).
    - destruct (Nat.eqb_spec (he_file_idx e) (he_file_idx e0)) as [E|]; [|by apply IH]. exfalso. apply Hnin. rewrite E.
      apply list_elem_of_fmap. by exists e0. }
  destruct (decide (i ∈ map he_file_idx h)) as [Hin|Hno].
  - apply list_elem_of_fmap in Hin as (e & -> & He). rewrite (Hone h Hnd e He eq_refl).
    symmetry. apply Hone; [by rewrite <-Hp|by rewrite <-Hp|done].
  - rewrite !entries_of_absent; [done| |done]. unfold in_heap. by rewrite <-Hp.
Qed.

(** *** Refilling *)

Lemma total_left_insert l i it it' : l !! i = Some it →
  (sum_list (map (λ it, length (pi_inner it)) (<[i := it']> l)) + length (pi_inner it) =
   sum_list (map (λ it, length (pi_inner it)) l) + length (pi_inner it'))%nat.
Proof.
  revert i. induction l as [|a l IH]; intros i Hi; [done|]. destruct i as [|i].
  - injection Hi as ->. change (<[0%nat := it']> (it :: l)) with (it' :: l). cbn. lia.
  - apply (IH i) in Hi. change (<[S i := it']> (a :: l)) with (a :: <[i := it']> l). cbn. lia.
Qed.

Lemma refill_spec m i : merge_ok m → (i < length (mi_iters m))%nat → ¬ in_heap i (mi_heap m) →
  let m' := refill i m in
  merge_ok m' ∧ mi_req m' = mi_req m ∧ length (mi_iters m') = length (mi_iters m) ∧
  (∀ j, remaining m' j = remaining m j) ∧ settled m' i ∧ (∀ j, in_heap j (mi_heap m) → in_heap j (mi_heap m')) ∧
  (∀ j, in_heap j (mi_heap m') → in_heap j (mi_heap m) ∨ j = i) ∧
  (merge_measure m' <= merge_measure m)%nat.
Proof.
  intros [Hlen Hnd He] Hi Hno. unfold refill. destruct (lookup_lt_is_Some_2 (mi_iters m) i Hi) as [it Hit].
  destruct (lookup_lt_is_Some_2 (mi_link_types m) i ltac:(lia)) as [lt Hlt]. rewrite Hit, Hlt.
  pose proof (next_match_spec (mi_req m) lt (S (length (pi_inner it))) it ltac:(lia)) as Hn.
  pose proof (λ it', total_left_insert (mi_iters m) i it it' Hit) as Hsum.
  destruct (next_match _ _ _ it) as [[rec|] it']; cbn zeta.
  - destruct Hn as [Em Hl]. split.
    { split; cbn; [by rewrite length_insert|by apply NoDup_cons|]. intros e. rewrite elem_of_cons, length_insert. intros [->|?]; [done|by apply He]. }
    split; [done|]. split; [by cbn; rewrite length_insert|]. split; [|split; [|split; [|split]]].
    + intros j. unfold remaining. cbn [mi_iters mi_heap mi_link_types mi_req]. destruct (decide (j = i)) as [->|Hne].
      * rewrite list_lookup_insert_eq, Hlt, Hit by done. unfold entries_of. cbn [List.filter he_file_idx]. rewrite Nat.eqb_refl. cbn [map he_rec app].
        fold (entries_of i (mi_heap m)). rewrite entries_of_absent by done. by rewrite Em.
      * rewrite list_lookup_insert_ne by done. unfold entries_of. cbn [List.filter he_file_idx]. destruct (Nat.eqb_spec i j); [congruence|done].
    + left. unfold in_heap. cbn. by left.
    + intros j. unfold in_heap. cbn. by right.
    + intros j. unfold in_heap. cbn. rewrite elem_of_cons. intros [->|?]; [by right|by left].
    + unfold merge_measure. cbn. specialize (Hsum it'). lia.
  - destruct Hn as (Em & Em' & Hl). split.
    { split; cbn; [by rewrite length_insert|done|]. intros e. rewrite length_insert. apply He. }
    split; [done|]. split; [by cbn; rewrite length_insert|].
    assert (∀ j, remaining (mkMerge (<[i:=it']> (mi_iters m)) (mi_heap m) (mi_req m) (mi_link_types m)) j = remaining m j) as Hrem.
    { intros j. unfold remaining. cbn [mi_iters mi_heap mi_link_types mi_req]. destruct (decide (j = i)) as [->|Hne].
      - rewrite list_lookup_insert_eq, Hlt, Hit by done. by rewrite Em, Em'.
      - by rewrite list_lookup_insert_ne. }
    split; [done|]. split; [|split; [|split]].
    + right. rewrite Hrem. unfold remaining. rewrite Hit, Hlt, entries_of_absent by done. by rewrite Em.
    + done.
    + by left.
    + unfold merge_measure. cbn. specialize (Hsum it'). lia.
Qed.

(** *** The run of a merge *)

Lemma entry_ltb_spec a b :
  let before := he_ts_us a < he_ts_us b ∨ he_ts_us a = he_ts_us b ∧ (he_file_idx a < he_file_idx b)%nat in
  BoolSpec before (¬ before) (entry_ltb a b).
Proof.
  cbn zeta. unfold entry_ltb. destruct (Z.ltb_spec (he_ts_us a) (he_ts_us b)); [constructor; by left|]. cbn [orb].
  destruct (Z.eqb_spec (he_ts_us a) (he_ts_us b)); [|constructor; lia]. cbn [andb].
  destruct (Nat.ltb_spec (he_file_idx a) (he_file_idx b)); constructor; [by right|lia].
Qed.

Lemma heap_pop_spec h : match heap_pop h with
  | None => h = []
  | Some (m, rest) => h ≡ₚ m :: rest ∧ ∀ e, e ∈ h → entry_ltb e m = false
  end.
Proof.
  assert (∀ a, entry_ltb a a = false) as Hirr by (intros a; destruct (entry_ltb_spec a a); [lia|done]).
  induction h as [|e h IH]; [done|]. cbn [heap_pop]. destruct (heap_pop h) as [[m rest]|]; cycle 1.
  { subst h. split; [done|]. by intros e' ->%list_elem_of_singleton. }
  destruct IH as [Hp Hmin]. destruct (entry_ltb_spec m e) as [E|E].
  - split; [rewrite Hp; constructor|]. intros e' [->|?]%elem_of_cons; [|auto]. destruct (entry_ltb_spec e m); [lia|done].
  - split; [done|]. intros e' [->|He']%elem_of_cons; [apply Hirr|]. specialize (Hmin e' He').
    destruct (entry_ltb_spec e' e); [|done]. destruct (entry_ltb_spec e' m); [done|lia].
Qed.

Definition full_ok (m : MergeIter) : Prop := merge_ok m ∧ ∀ i, settled m i.

(** The entry of a file that has something left is its first record. *)
Lemma settled_head m j r l : full_ok m → remaining m j = r :: l →
  ∃ e, e ∈ mi_heap m ∧ he_file_idx e = j ∧ he_rec e = r ∧ he_ts_us e = rr_ts_us r.
Proof.
  intros [Hm Hs] E. destruct (Hs j) as [Hin|]; [|congruence]. apply list_elem_of_fmap in Hin as (e & -> & He).
  exists e. destruct (mo_entry _ Hm e He) as [_ Hts].
  assert (he_rec e = r) as <-; [|done]. unfold remaining in E. destruct (mi_iters m !! _); [|done]. destruct (mi_link_types m !! _); [|done].
  apply list_elem_of_split in He as (h1 & h2 & Eh). pose proof (mo_nodup _ Hm) as Hnd.
  rewrite (entries_of_perm _ _ (e :: h1 ++ h2) Hnd) in E by (rewrite Eh; symmetry; apply Permutation_middle).
  unfold entries_of in E. cbn [List.filter] in E. rewrite Nat.eqb_refl in E. by injection E.
Qed.

Lemma merge_next_spec m : full_ok m →
  match merge_next m with
  | None => ∀ i, remaining m i = []
  | Some (rec, m') =>
      full_ok m' ∧ (merge_measure m' < merge_measure m)%nat ∧ mi_req m' = mi_req m ∧ length (mi_iters m') = length (mi_iters m) ∧
      ∃ i, (i < length (mi_iters m))%nat ∧ remaining m i = rec :: remaining m' i ∧ (∀ j, j ≠ i → remaining m' j = remaining m j) ∧
        ∀ j r l, remaining m j = r :: l → rr_ts_us rec < rr_ts_us r ∨ rr_ts_us rec = rr_ts_us r ∧ (i <= j)%nat
  end.
Proof.
  intros Hf. pose proof Hf as [Hm Hs]. unfold merge_next. pose proof (heap_pop_spec (mi_heap m)) as Hpop. destruct (heap_pop (mi_heap m)) as [[e h]|]; cycle 1.
  { intros i. destruct (Hs i) as [Hin|]; [|done]. unfold in_heap in Hin. rewrite Hpop in Hin. by apply not_elem_of_nil in Hin. }
  destruct Hpop as [Hp Hmin]. set (m1 := mkMerge (mi_iters m) h (mi_req m) (mi_link_types m)). set (i := he_file_idx e).
  assert (e ∈ mi_heap m) as He by (rewrite Hp; by left). destruct (mo_entry _ Hm e He) as [Hi Hts].
  pose proof (mo_nodup _ Hm) as Hnd. rewrite Hp in Hnd. cbn [map] in Hnd. apply NoDup_cons in Hnd as [Hnin Hnd].
  assert (merge_ok m1) as Hm1.
  { split; [apply Hm|done|]. cbn. intros e' He'. apply (mo_entry _ Hm). rewrite Hp. by right. }
  assert (∀ j, remaining m j = if (i =? j)%nat then he_rec e :: remaining m1 j else remaining m1 j) as Hrem.
  { intros j. unfold remaining. cbn [m1 mi_iters mi_heap mi_link_types mi_req].
    rewrite (entries_of_perm j _ (e :: h) (mo_nodup _ Hm) Hp). unfold entries_of at 1. cbn [List.filter]. fold i.
    destruct (Nat.eqb_spec i j) as [<-|]; [|done].
    destruct (lookup_lt_is_Some_2 (mi_iters m) i Hi) as [it ->].
    destruct (lookup_lt_is_Some_2 (mi_link_types m) i) as [lt ->]; [by rewrite (mo_types _ Hm)|]. done. }
  destruct (refill_spec m1 i Hm1 Hi Hnin) as (H1 & H2 & H3 & H4 & H5 & H6 & _ & H7).
  split; [split; [done|]|].
  { intros j. destruct (decide (j = i)) as [->|Hne]; [done|]. destruct (Hs j) as [Hin|Hnil].
    - left. apply H6. unfold in_heap in *. rewrite Hp in Hin. cbn [map] in Hin. apply elem_of_cons in Hin as [->|?]; [done|done].
    - right. rewrite H4. rewrite Hrem in Hnil. destruct (i =? j)%nat; done. }
  split; [unfold merge_measure in *; rewrite (Permutation_length Hp); cbn in *; lia|]. split; [done|]. split; [done|].
  exists i. split; [done|]. split; [by rewrite H4, Hrem, Nat.eqb_refl|]. split.
  - intros j Hne. rewrite H4, Hrem. destruct (Nat.eqb_spec i j); [congruence|done].
  - intros j r l E. destruct (settled_head _ _ _ _ Hf E) as (e' & He' & <- & <- & Ets). specialize (Hmin e' He').
    destruct (entry_ltb_spec e' e); [done|]. subst i. lia.
Qed.

(** [merged ls out]: [out] takes, again and again, the first record of a list
    that is earliest, and of the first list among equals. *)
Inductive merged : list (list RawRec) → list RawRec → Prop :=
| merged_done ls : (∀ l, l ∈ ls → l = []) → merged ls []
| merged_take ls i r l out :
    ls !! i = Some (r :: l) →
    (∀ j r' l', ls !! j = Some (r' :: l') → rr_ts_us r < rr_ts_us r' ∨ rr_ts_us r = rr_ts_us r' ∧ (i <= j)%nat) →
    merged (<[i := l]> ls) out → merged ls (r :: out).

Definition in_order (l : list RawRec) : Prop := StronglySorted (λ a b, rr_ts_us a <= rr_ts_us b) l.

Lemma concat_take ls i (r : RawRec) l : ls !! i = Some (r :: l) → concat ls ≡ₚ r :: concat (<[i := l]> ls).
Proof.
  intros Hi. rewrite <-(take_drop_middle ls i _ Hi) at 1. rewrite (insert_take_drop ls i) by by eapply lookup_lt_Some.
  rewrite !concat_app. cbn [concat]. rewrite <-app_comm_cons. symmetry. apply Permutation_middle.
Qed.

Lemma merged_perm ls out : merged ls out → out ≡ₚ concat ls.
Proof.
  induction 1 as [ls Hnil|ls i r l out Hi _ _ IH].
  - replace (concat ls) with (@nil RawRec); [done|]. induction ls as [|l ls IH]; [done|]. cbn. rewrite (Hnil l) by by left.
    apply IH. intros l' Hl'. apply Hnil. by right.
  - rewrite IH. symmetry. by apply concat_take.
Qed.

(** Of lists that are in order, the merge is. *)
Lemma merged_sorted ls out : merged ls out → (∀ l, l ∈ ls → in_order l) → in_order out.
Proof.
  induction 1 as [ls Hnil|ls i r l out Hi Hmin Hm IH]; intros Hs; [constructor|].
  assert (in_order (r :: l)) as Hl by (apply Hs; by eapply list_elem_of_lookup_2).
  apply StronglySorted_inv in Hl as [Hl Hrl].
  constructor.
  - apply IH. intros l' (j & Hj)%list_elem_of_lookup. apply list_lookup_insert_Some in Hj as [(_ & <- & _)|[_ Hj]]; [done|].
    apply Hs. by eapply list_elem_of_lookup_2.
  - rewrite (merged_perm _ _ Hm), Forall_concat, Forall_lookup. intros j l' Hj.
    apply list_lookup_insert_Some in Hj as [(_ & <- & _)|[_ Hj]]; [done|].
    destruct l' as [|r' l']; [done|]. specialize (Hmin j r' l' Hj).
    assert (in_order (r' :: l')) as [_ Hl']%StronglySorted_inv by (apply Hs; by eapply list_elem_of_lookup_2).
    constructor; [lia|]. eapply Forall_impl; [done|]. cbn. lia.
Qed.

(** What the files of a merge have left. *)
Definition all_remaining (m : MergeIter) : list (list RawRec) := map (remaining m) (seq 0 (length (mi_iters m))).

Lemma lookup_remaining m i : (i < length (mi_iters m))%nat → all_remaining m !! i = Some (remaining m i).
Proof. intros Hi. unfold all_remaining. rewrite list_lookup_fmap, lookup_seq_lt by done. done. Qed.

Lemma all_remaining_take m m' i : (i < length (mi_iters m))%nat → length (mi_iters m') = length (mi_iters m) →
  (∀ j, j ≠ i → remaining m' j = remaining m j) → <[i := remaining m' i]> (all_remaining m) = all_remaining m'.
Proof.
  intros Hi Hlen Hj. apply list_eq. intros j. destruct (decide (j < length (mi_iters m))%nat) as [Hlt|Hge].
  - rewrite (lookup_remaining m') by lia. destruct (decide (j = i)) as [->|Hne].
    + rewrite list_lookup_insert_eq; [done|]. unfold all_remaining. by rewrite length_map, length_seq.
    + rewrite list_lookup_insert_ne, lookup_remaining by done. by rewrite Hj.
  - rewrite !lookup_ge_None_2; [done| |]; unfold all_remaining; rewrite ?length_insert, length_map, length_seq; lia.
Qed.

Definition record_chunk (rec : RawRec) : list byte := record_header rec ++ rr_data rec.

Lemma collect_spec fuel m lt : full_ok m → (merge_measure m < fuel)%nat →
  ∃ out, collect fuel (mkChunks Records m lt) = Ret (map record_chunk out) ∧ merged (all_remaining m) out.
Proof.
  revert m. induction fuel as [|fuel IH]; intros m Hm Hf; [lia|]. cbn [collect]. unfold chunk_next. cbn [ci_state ci_merge ci_link_type].
  pose proof (merge_next_spec m Hm) as Hn. destruct (merge_next m) as [[rec m']|].
  - destruct Hn as (Hm' & Hlt & _ & Hlen & i & Hi & Er & Hj & Hmin). destruct (IH m' Hm' ltac:(lia)) as (out & -> & Hout).
    exists (rec :: out). split; [done|]. eapply merged_take with (i := i); [by rewrite lookup_remaining, Er| |].
    + intros j r' l' Hr'. apply (Hmin j r' l').
      destruct (decide (j < length (mi_iters m))%nat); [by rewrite lookup_remaining in Hr' by done; injection Hr'|].
      rewrite lookup_ge_None_2 in Hr'; [done|]. unfold all_remaining. rewrite length_map, length_seq. lia.
    + by erewrite all_remaining_take.
  - exists []. split; [done|]. constructor. intros l (i & -> & _)%list_elem_of_fmap. apply Hn.
Qed.

(** Each file's first match is in the heap at the start. *)
Lemma merge_new_spec iters req : let m := merge_new iters req in
  full_ok m ∧ all_remaining m = map (λ it, matching req (pi_link_type it) it) iters.
Proof.
  cbn zeta. unfold merge_new. set (m0 := mkMerge iters [] req (map pi_link_type iters)).
  assert (∀ n, (n <= length iters)%nat → let m := foldl (λ m idx, refill idx m) m0 (seq 0 n) in
    merge_ok m ∧ length (mi_iters m) = length iters ∧ (∀ j, remaining m j = remaining m0 j) ∧
    (∀ j, (j < n)%nat → settled m j) ∧ ∀ j, in_heap j (mi_heap m) → (j < n)%nat) as Hind.
  { induction n as [|n IH]; intros Hle; cbn zeta.
    - cbn. split; [split; cbn; [by rewrite length_map|constructor|by intros e ?%not_elem_of_nil]|].
      split_and!; [done|done|lia|]. by intros j ?%not_elem_of_nil.
    - rewrite seq_S, foldl_snoc. destruct (IH ltac:(lia)) as (H1 & H2 & H3 & H4 & H5). cbn zeta in *. cbn [Nat.add].
      set (m := foldl _ m0 (seq 0 n)) in *.
      destruct (refill_spec m n H1) as (R1 & R2 & R3 & R4 & R5 & R6 & R7 & _); [lia|intros Hin%H5; lia|].
      split; [done|]. split; [congruence|]. split; [intros j; by rewrite R4|]. split.
      + intros j Hj. destruct (decide (j = n)) as [->|]; [done|]. destruct (H4 j ltac:(lia)) as [?|E]; [by left; apply R6|].
        right. by rewrite R4.
      + intros j [?%H5| ->]%R7; lia. }
  destruct (Hind (length iters) ltac:(done)) as (H1 & H2 & H3 & H4 & H5). cbn zeta in *. set (m := foldl _ m0 _) in *. split.
  - split; [done|]. intros i. destruct (decide (i < length iters)%nat) as [|Hge]; [by apply H4|]. right. rewrite H3. unfold remaining.
    cbn. by rewrite lookup_ge_None_2 by lia.
  - unfold all_remaining. rewrite H2. apply list_eq. intros i. rewrite !list_lookup_fmap.
    destruct (iters !! i) as [it|] eqn:E.
    + rewrite lookup_seq_lt by by eapply lookup_lt_Some. cbn [fmap option_fmap option_map Nat.add]. rewrite H3. unfold remaining. cbn [m0 mi_iters mi_link_types mi_heap mi_req].
      rewrite E, list_lookup_fmap, E. done.
    + rewrite lookup_ge_None_2; [done|]. rewrite length_seq. by apply lookup_ge_None.
Qed.

Lemma stream_extract_spec prep : ∃ out,
  stream_extract prep = Ret (global_header (pp_header_link_type prep) :: map record_chunk out) ∧
  merged (map (λ it, matching (pp_req prep) (pi_link_type it) it) (pp_iters prep)) out.
Proof.
  unfold stream_extract. destruct (merge_new_spec (pp_iters prep) (pp_req prep)) as [Hm Hr].
  set (m := merge_new _ _) in *. destruct (collect_spec (S (merge_measure m)) m (pp_header_link_type prep) Hm ltac:(lia)) as (out & Ec & Ho).
  exists out. set (fuel := S (merge_measure m)) in *. cbn [collect]. unfold chunk_next at 1. cbn [ci_state ci_merge ci_link_type]. rewrite Ec.
  by rewrite <-Hr.
Qed.

Lemma merged_concat ls out : merged ls out → in_order (concat ls) → out = concat ls.
Proof.
  induction 1 as [ls Hnil|ls i r l out Hi Hmin _ IH]; intros Hs.
  { induction ls as [|l ls IH]; [done|]. cbn. rewrite (Hnil l) by by left. apply IH; [|by rewrite (Hnil l) in Hs by by left].
    intros l' Hl'. apply Hnil. by right. }
  assert (concat ls = r :: concat (<[i := l]> ls)) as E.
  { clear IH. revert i Hi Hmin. induction ls as [|l0 ls IH]; intros i Hi Hmin; [done|]. destruct l0 as [|r0 l0].
    - destruct i as [|i]; [done|]. cbn [concat app] in *. apply (IH Hs i Hi). intros j r' l' Hj.
      destruct (Hmin (S j) r' l' Hj) as [?|[??]]; [by left|right; split; [done|lia]].
    - destruct i as [|i]; [by injection Hi as -> ->|]. exfalso. cbn [concat app] in Hs. apply StronglySorted_inv in Hs as [_ Hs].
      destruct (Hmin 0%nat r0 l0 eq_refl) as [Hlt|[_ ?]]; [|lia]. rewrite Forall_forall in Hs.
      assert (r ∈ l0 ++ concat ls) as Hin.
      { apply elem_of_app. right. apply list_elem_of_In, List.in_concat. exists (r :: l). split; [|by left].
        apply list_elem_of_In. apply (list_elem_of_lookup_2 ls i _ Hi). }
      specialize (Hs r Hin). cbn in Hs. lia. }
  rewrite E. f_equal. apply IH. rewrite E in Hs. apply StronglySorted_inv in Hs as [Hs _]. exact Hs.
Qed.

(** ** From the dump to the extract *)

Lemma filter_concat_map {A C} (f : C → list A) (P : A → bool) l : List.filter P (concat (map f l)) = concat (map (λ k, List.filter P (f k)) l).
Proof. induction l as [|a l IH]; [done|]. cbn. by rewrite List.filter_app, IH. Qed.

Lemma concat_filter_nonempty {A C} (f : C → list A) (P : C → bool) l : (∀ k, P k = false → f k = []) →
  concat (map f (List.filter P l)) = concat (map f l).
Proof.
  intros H. induction l as [|a l IH]; [done|]. cbn. destruct (P a) eqn:E; cbn; rewrite IH; [done|]. by rewrite (H a).
Qed.

Lemma filter_map_comm {A C} (f : A → C) (P : C → bool) l : List.filter P (map f l) = map f (List.filter (λ a, P (f a)) l).
Proof. induction l as [|a l IH]; [done|]. cbn. rewrite IH. by destruct (P (f a)). Qed.

(** Minutes of packets do not decrease. *)
Lemma in_minutes_sorted o l : StronglySorted (λ a b, a.1 <= b.1) (in_minutes o l) ∧
  ∀ c kp, o = Some c → kp ∈ in_minutes o l → c <= kp.1.
Proof.
  revert o. induction l as [|p l IH]; intros o; cbn [in_minutes]; [by split; [constructor|intros ????%not_elem_of_nil]|].
  set (k := match o with Some c => Z.max c (minute_of p) | None => minute_of p end).
  destruct (IH (Some k)) as [Hs Hle]. split.
  - constructor; [done|]. apply Forall_forall. intros kp Hkp. by apply (Hle k kp).
  - intros c kp -> [->|Hkp]%elem_of_cons; [cbn; lia|]. specialize (Hle k kp eq_refl Hkp). lia.
Qed.

Lemma sorted_between (L : list (Z * RawPacket)) lo n : StronglySorted (λ a b, a.1 <= b.1) L →
  concat (map (λ k, List.filter (λ kp, kp.1 =? k) L) (map (λ i, lo + Z.of_nat i) (seq 0 n))) =
  List.filter (λ kp, (lo <=? kp.1) && (kp.1 <? lo + Z.of_nat n)) L.
Proof.
  intros Hs. induction n as [|n IH].
  { cbn. symmetry. clear. induction L as [|kp L IH]; [done|]. cbn.
    replace ((lo <=? kp.1) && (kp.1 <? lo + Z.of_nat 0)) with false; [exact IH|]. symmetry. destruct (Z.leb_spec lo kp.1); [|done]. apply Z.ltb_ge. lia. }
  rewrite seq_S, !map_app, concat_app, IH. cbn. rewrite app_nil_r. clear IH.
  induction Hs as [|kp L Hs IH Hall]; [done|]. cbn.
  destruct (Z.leb_spec lo kp.1) as [Hlo|Hlo]; cbn [andb].
  - destruct (Z.ltb_spec kp.1 (lo + Z.of_nat n)).
    + rewrite (proj2 (Z.ltb_lt _ _)), (proj2 (Z.eqb_neq _ _)) by lia. cbn. by rewrite IH.
    + assert (List.filter (λ kp, (lo <=? kp.1) && (kp.1 <? lo + Z.of_nat n)) L = []) as E.
      { clear IH Hs. induction Hall as [|kp' L Hle _ IH]; [done|]. cbn. cbn in Hle. rewrite (proj2 (Z.ltb_ge kp'.1 _)) by lia. by rewrite andb_false_r. }
      rewrite E in *. cbn in *. destruct (Z.eqb_spec kp.1 (lo + Z.of_nat n)).
      * rewrite (proj2 (Z.ltb_lt _ _)) by lia. by rewrite IH.
      * rewrite (proj2 (Z.ltb_ge _ _)) by lia. done.
  - rewrite (proj2 (Z.eqb_neq _ _)) by lia. done.
Qed.

Lemma sorted_between_range lo hi (L : list (Z * RawPacket)) : StronglySorted (λ a b, a.1 <= b.1) L →
  concat (map (λ k, List.filter (λ kp, kp.1 =? k) L) (map (λ i, lo + Z.of_nat i) (seq 0 (Z.to_nat (hi - lo + 1))))) =
  List.filter (λ kp, (lo <=? kp.1) && (kp.1 <=? hi)) L.
Proof.
  intros Hs. rewrite sorted_between by done. clear Hs. induction L as [|kp L IH]; [done|]. cbn. rewrite IH.
  replace ((lo <=? kp.1) && (kp.1 <? lo + Z.of_nat (Z.to_nat (hi - lo + 1)))) with ((lo <=? kp.1) && (kp.1 <=? hi)); [done|].
  destruct (Z.leb_spec lo kp.1); [|done]. cbn [andb].
  destruct (Z.leb_spec kp.1 hi), (Z.ltb_spec kp.1 (lo + Z.of_nat (Z.to_nat (hi - lo + 1)))); (done || lia).
Qed.

(** The packets in the files of a range of minutes. *)
Definition in_range_files (lo hi : Z) (l : list RawPacket) : list RawPacket :=
  map snd (List.filter (λ kp, (lo <=? kp.1) && (kp.1 <=? hi)) (in_minutes None l)).

Lemma range_files_concat lo hi l : concat (map (λ k, in_file k l) (minutes_between lo hi)) = in_range_files lo hi l.
Proof.
  unfold in_file, in_range_files, minutes_between. rewrite <-(sorted_between_range lo hi) by apply in_minutes_sorted.
  induction (map _ (seq 0 _)) as [|k ks IH]; [done|]. cbn. by rewrite map_app, IH.
Qed.

(** Packets in order of time are in the files of their own minutes. *)
Definition on_time (l : list RawPacket) : Prop := StronglySorted (λ a b, raw_ts a <= raw_ts b) l.

Lemma in_minutes_on_time o l : on_time l → (∀ c p, o = Some c → p ∈ l → c <= minute_of p) → in_minutes o l = map (λ p, (minute_of p, p)) l.
Proof.
  intros Hs. revert o. induction Hs as [|p l Hs IH Hall]; intros o Ho; [done|]. cbn [in_minutes map].
  assert (match o with Some c => Z.max c (minute_of p) | None => minute_of p end = minute_of p) as ->.
  { destruct o as [c|]; [|done]. specialize (Ho c p eq_refl ltac:(by left)). lia. }
  f_equal. apply IH. intros c q [= <-] Hq. rewrite Forall_forall in Hall. apply Z.div_le_mono; [done|]. by apply Hall.
Qed.

Lemma dump_ext_inj k k' c c' : dump_filename k c = dump_filename k' c' → c = c'.
Proof.
  unfold dump_filename. destruct c, c'; [done| | |done]; intros E.
  - change (dump_ext NoCompression) with (B ".pca" ++ [x70]) in E. change (dump_ext SnappyCompression) with (B ".pcap.snapp" ++ [x79]) in E.
    rewrite !app_assoc in E. by apply app_inj_tail in E as [_ E].
  - change (dump_ext NoCompression) with (B ".pca" ++ [x70]) in E. change (dump_ext SnappyCompression) with (B ".pcap.snapp" ++ [x79]) in E.
    rewrite !app_assoc in E. by apply app_inj_tail in E as [_ E].
Qed.

#[export] Instance pcap_compression_eq_dec : EqDecision PcapCompression.
Proof. solve_decision. Defined.

Definition compressed (c : PcapCompression) : bool := match c with NoCompression => false | SnappyCompression => true end.

Section Extract.
Context `{FL : FrameLaws}.

Lemma reads_as_decode c content x : reads_as c content x → (if compressed c then decode_frames content else content) = x.
Proof. destruct c; [done|]. apply frames_decode. Qed.

(** A disk with the files of a dump. *)
Context (dir : Path) (c : PcapCompression) (safe : text) (sid : string) (hist : list RawPacket) (lt : Z).
Notation file k := (dump_path dir c safe k).
Notation pkts k := (file_packets sid k hist).

Record dump_on (d : Disk) : Prop := {
  dp_quiet : quiet d;
  dp_file k : near k → match pkts k with
    | [] => file_at (file k) d = None
    | _ => ∃ content, file_at (file k) d = Some content ∧ reads_as c content (header_bytes lt ++ payload sid k hist)
    end;
  dp_other k c' : c' ≠ c → file_at (join_path (src_path dir safe) (dump_filename k c')) d = None;
  dp_dir k : pkts k ≠ [] → src_path dir safe ∈ dk_dirs d;
}.

Definition has_packets (k : Z) : bool := negb (bool_decide (pkts k = [])).
Definition file_iter (k : Z) : PacketIter := mkIter (payload sid k hist) lt.

Lemma is_file_at q d : is_file q d = bool_decide (is_Some (file_at q d)).
Proof. apply bool_decide_ext. unfold file_at. by rewrite fmap_is_Some. Qed.

Lemma push_dump d k c' : dump_on d → near k →
  push_if_file d (src_path dir safe) (minute_label k) (dump_ext c') (compressed c') =
  if bool_decide (c' = c) && has_packets k then [mkCandidateFile (file k) (compressed c)] else [].
Proof.
  intros Hd Hk. unfold push_if_file. fold (dump_filename k c'). rewrite is_file_at. destruct (decide (c' = c)) as [->|Hne].
  - rewrite (bool_decide_true (c = c)) by done. cbn [andb]. unfold has_packets. fold (file k). pose proof (dp_file _ Hd k Hk) as Hf. destruct (pkts k).
    + rewrite Hf, (bool_decide_false (is_Some None)) by by intros [? [=]]. by rewrite bool_decide_true.
    + destruct Hf as (content & -> & _). rewrite (bool_decide_true (is_Some _)), bool_decide_false by eauto; done.
  - rewrite (dp_other _ Hd k c' Hne), (bool_decide_false (c' = c)), (bool_decide_false (is_Some None)); [done|by intros [? [=]]|done].
Qed.

Lemma candidates_dump d ks : dump_on d → Forall near ks →
  concat (map (λ k, push_if_file d (src_path dir safe) (minute_label k) (B ".pcap") false ++
                    push_if_file d (src_path dir safe) (minute_label k) (B ".pcap.snappy") true) ks) =
  map (λ k, mkCandidateFile (file k) (compressed c)) (List.filter has_packets ks).
Proof.
  intros Hd. induction 1 as [|k ks Hk Hks IH]; [done|]. cbn [map concat List.filter]. rewrite IH.
  change (B ".pcap") with (dump_ext NoCompression). change (B ".pcap.snappy") with (dump_ext SnappyCompression).
  change false with (compressed NoCompression). change true with (compressed SnappyCompression).
  rewrite !push_dump by done. by destruct c, (has_packets k).
Qed.

Context (Hlt : 0 <= lt < 2 ^ 32).

Lemma open_dump d k : dump_on d → near k → has_packets k = true →
  ∃ d', open_candidate (mkCandidateFile (file k) (compressed c)) d = (inl (file_iter k), d') ∧ dump_on d'.
Proof.
  intros Hd Hk Hp. pose proof Hd as []. unfold has_packets in Hp. specialize (dp_file0 k Hk).
  destruct (open_candidate _ d) as [r d'] eqn:E. unfold open_candidate in E. apply syscall_quiet in E as (d1 & E & Hq & E1 & E2 & E3 & _); [|done].
  assert (∀ q, file_at q d1 = file_at q d) as Hat by (intros q; unfold file_at, file_bytes; by rewrite E2, E3).
  assert (dump_on d1) as Hd1.
  { split; [done| | |by rewrite E1]; [intros k' Hk'; rewrite Hat; by apply (dp_file _ Hd)|intros k' c' Hne; rewrite Hat; by apply dp_other0]. }
  exists d'. cbn [cf_path cf_compressed] in E. rewrite Hat in E. destruct (pkts k) eqn:Ek; [by rewrite bool_decide_true in Hp|].
  destruct dp_file0 as (content & Ef & Hr). rewrite Ef, (reads_as_decode _ _ _ Hr), iter_open_dump in E by done.
  injection E as <- <-. done.
Qed.

Lemma open_all_dump d ks : dump_on d → Forall near ks → Forall (λ k, has_packets k = true) ks →
  ∃ d', open_all (map (λ k, mkCandidateFile (file k) (compressed c)) ks) d = (map file_iter ks, d') ∧ dump_on d'.
Proof.
  intros Hd Hn. revert d Hd. induction Hn as [|k ks Hk Hks IH]; intros d Hd Hp; [by exists d|].
  apply Forall_cons in Hp as [Hp Hps]. destruct (open_dump d k Hd Hk Hp) as (d1 & E1 & Hd1). destruct (IH d1 Hd1 Hps) as (d2 & E2 & Hd2).
  exists d2. cbn [map open_all]. by rewrite E1, E2.
Qed.

(** What is read of a file: its packets. *)
Lemma records_file k : Forall recordable hist → records (file_iter k) = map rec_of (pkts k).
Proof.
  intros Hr. unfold file_iter, payload. rewrite <-(app_nil_r (concat _)), records_dump; [by rewrite records_empty, app_nil_r|].
  apply Forall_forall. intros p Hp. rewrite Forall_forall in Hr. apply Hr.
  apply list_elem_of_fmap in Hp as ([k' p'] & -> & Hp). apply list_elem_of_In, List.filter_In in Hp as [Hp _]. cbn.
  assert (∀ o l, (k', p') ∈ in_minutes o l → p' ∈ l) as Hin.
  { intros o l. revert o. induction l as [|q l IH]; intros o; [by intros ?%not_elem_of_nil|]. cbn. rewrite !elem_of_cons. intros [[= _ ->]|?]; eauto. }
  apply list_elem_of_In, Hin in Hp. unfold accepted in Hp. destruct (seen sid hist) as [|p0 l] eqn:E; [by apply not_elem_of_nil in Hp|]. rewrite <-E in Hp.
  apply list_elem_of_In, List.filter_In in Hp as [Hp _]. unfold seen in Hp. apply List.filter_In in Hp as [Hp _]. by apply list_elem_of_In.
Qed.

(** The minutes of a request that have a file. *)
Definition window_minutes (req : ExtractRequest) : list Z :=
  List.filter has_packets (minutes_between (rq_start_us req / MICROS_PER_MINUTE) (rq_end_us req / MICROS_PER_MINUTE)).
Definition window (req : ExtractRequest) : list RawPacket :=
  in_range_files (rq_start_us req / MICROS_PER_MINUTE) (rq_end_us req / MICROS_PER_MINUTE) (accepted sid hist).

Lemma window_concat req : concat (map (λ k, pkts k) (window_minutes req)) = window req.
Proof.
  unfold window, window_minutes. rewrite <-range_files_concat. apply concat_filter_nonempty. intros k Hk. unfold has_packets in Hk.
  case_bool_decide; [done|discriminate].
Qed.

Definition prep_of (req : ExtractRequest) : Prep :=
  mkPrep (map file_iter (window_minutes req)) (match window req with [] => DEFAULT_EMPTY_LINK_TYPE | _ => lt end) req.

Lemma prepare_dump base name req d : dump_on d → pcap_dump_dir_for base name = Some dir →
  sanitize_path_component (B sid) = Some safe → rq_source_id req = sid →
  near (rq_start_us req / MICROS_PER_MINUTE) → near (rq_end_us req / MICROS_PER_MINUTE) →
  ∃ d', prepare req [mkRoot name base] d = (inl (prep_of req), d').
Proof.
  intros Hd Hdir Hsafe Hsid Hlo Hhi. unfold pcap_dump_dir_for in Hdir. unfold prepare, list_candidate_files, root_candidates.
  rewrite Hsid, Hsafe. cbn [map concat pr_name pr_dump_dir]. rewrite app_nil_r.
  destruct (sanitize_path_component name) as [pl|]; [|done]. cbn [fmap option_fmap option_map] in Hdir. injection Hdir as ->. fold (src_path dir safe).
  assert (Forall near (window_minutes req)) as Hnear.
  { apply Forall_forall. intros k Hk. apply list_elem_of_In, List.filter_In in Hk as [Hk _]. apply list_elem_of_In in Hk.
    unfold minutes_between in Hk. apply list_elem_of_fmap in Hk as (i & -> & Hi%elem_of_seq). unfold near in *. lia. }
  assert (open_all (if negb (is_dir (src_path dir safe) d) then []
      else map (λ k, mkCandidateFile (file k) (compressed c)) (window_minutes req)) d =
    open_all (map (λ k, mkCandidateFile (file k) (compressed c)) (window_minutes req)) d) as Hif.
  { unfold is_dir. case_bool_decide as Hin; [done|]. cbn [negb]. replace (window_minutes req) with (@nil Z); [done|].
    destruct (window_minutes req) as [|k ks] eqn:E; [done|]. exfalso.
    assert (k ∈ window_minutes req) as Hk by (rewrite E; by left). apply list_elem_of_In, List.filter_In in Hk as [_ Hk].
    unfold has_packets in Hk. apply Hin, (dp_dir _ Hd k). case_bool_decide; done. }
  rewrite candidates_dump; [|done|].
  2:{ apply Forall_forall. intros k Hk. unfold minutes_between in Hk. apply list_elem_of_fmap in Hk as (i & -> & Hi%elem_of_seq). unfold near in *. lia. }
  fold (window_minutes req). rewrite Hif.
  destruct (open_all_dump d (window_minutes req) Hd Hnear) as (d' & -> & _).
  { apply Forall_forall. intros k Hk. by apply list_elem_of_In, List.filter_In in Hk as [_ Hk]. }
  exists d'. f_equal. unfold prep_of. destruct (window_minutes req) as [|k ks] eqn:E; cbn [map].
  - pose proof (window_concat req) as Hw. rewrite E in Hw. cbn in Hw. by rewrite <-Hw.
  - replace (link_mismatch (pi_link_type (file_iter k)) (map file_iter ks)) with (@None Z).
    + cbn [file_iter pi_link_type]. destruct (window req) eqn:Ew; [exfalso|done].
      rewrite <-window_concat, E in Ew. cbn in Ew. apply app_eq_nil in Ew as [Ew _].
      assert (k ∈ window_minutes req) as Hk by (rewrite E; by left). apply list_elem_of_In, List.filter_In in Hk as [_ Hk].
      unfold has_packets in Hk. rewrite Ew in Hk. by rewrite bool_decide_true in Hk.
    + clear. symmetry. unfold link_mismatch. induction ks as [|k' ks IH]; [done|]. cbn. by rewrite Z.eqb_refl.
Qed.

Definition in_request (req : ExtractRequest) (p : RawPacket) : bool := filter_matches req lt (rec_of p).

Lemma matches_dump req : Forall recordable hist →
  concat (map (λ it, matching req (pi_link_type it) it) (map file_iter (window_minutes req))) =
  map rec_of (List.filter (in_request req) (window req)).
Proof.
  intros Hr. rewrite <-window_concat, filter_concat_map, concat_map, !map_map. f_equal. apply map_ext. intros k.
  unfold matching. cbn [file_iter pi_link_type]. rewrite (records_file k Hr). by rewrite filter_map_comm.
Qed.

Lemma window_on_time req : on_time (accepted sid hist) →
  List.filter (in_request req) (window req) = List.filter (in_request req) (accepted sid hist).
Proof.
  intros Ht. unfold window, in_range_files. rewrite in_minutes_on_time by done. clear Ht.
  induction (accepted sid hist) as [|p l IH]; [done|]. cbn [map List.filter fst].
  destruct (in_request req p) eqn:E.
  - assert ((rq_start_us req / MICROS_PER_MINUTE <=? minute_of p) && (minute_of p <=? rq_end_us req / MICROS_PER_MINUTE) = true) as ->.
    { unfold in_request, filter_matches in E. cbn [rec_of rr_ts_us] in E.
      destruct (Z.ltb_spec (raw_ts p) (rq_start_us req)); [done|]. destruct (Z.ltb_spec (rq_end_us req) (raw_ts p)); [done|].
      apply andb_true_iff. split; apply Z.leb_le, Z.div_le_mono; done. }
    cbn [map snd List.filter]. by rewrite E, IH.
  - destruct (_ && _); cbn [map snd List.filter]; by rewrite ?E, IH.
Qed.

Lemma on_time_in_order req l : on_time l → in_order (map rec_of (List.filter (in_request req) l)).
Proof.
  induction 1 as [|p l Hs IH Hall]; [constructor|]. cbn. destruct (in_request req p); [|done]. cbn. constructor; [done|].
  apply Forall_forall. intros r (q & -> & Hq)%list_elem_of_fmap. apply list_elem_of_In, List.filter_In in Hq as [Hq _].
  rewrite Forall_forall in Hall. by apply Hall, list_elem_of_In.
Qed.
End Extract.

(** A stream of an extraction always ends.  It is a pcap global header of the
    files' link type followed by one record for each record of the files that
    passes the filter, none lost and none twice: the merge of the files' matches,
    which takes the earliest of their next records each time (of equals the first
    file's), so that matches that are in order of time in each file come out in
    order of time. *)
Theorem extraction_merges prep :
  let matches := map (λ it, matching (pp_req prep) (pi_link_type it) it) (pp_iters prep) in
  ∃ out, stream_extract prep = Ret (global_header (pp_header_link_type prep) :: map record_chunk out) ∧
    merged matches out ∧ out ≡ₚ concat matches ∧ ((∀ l, l ∈ matches → in_order l) → in_order out).
Proof.
  intros matches. destruct (stream_extract_spec prep) as (out & E & Ho). exists out. split; [done|].
  split; [done|]. split; [by apply merged_perm|]. intros Hs. by eapply merged_sorted.
Qed.

(** ** Properties *)

Section Properties.
Context `{FL : FrameLaws} `{HI : !HashIter string SourceWriter} `{HL : !HashIterLaws string SourceWriter HI}.

(** The disk after a run on a disk without files. *)
Lemma run_dump_on dir c m ops p d0 d p' d' sid safe : quiet d0 → disk_ok d0 → dk_names d0 = ∅ →
  sanitize_path_component (B sid) = Some safe →
  Forall (own_name sid safe) (packets ops) → Forall (λ pkt, near (minute_of pkt)) (packets ops) →
  dumper_new dir c m d0 = (inl p, d) → run_dump ops p d = Ret (p', d') →
  dump_on dir c safe sid (packets ops) (source_link sid (packets ops)) (drop_dumper p' d').
Proof.
  intros Hq Hd Hn Hsafe Hown Hnear Hnew Hrun.
  assert (∀ q, file_at q d0 = None) as Hnone by (intros q; unfold file_at; by rewrite Hn).
  destruct (dump_run_quiet dir c m ops p d0 d p' d' sid safe (λ _, [])) as (Hp & Hst & Hu & L); [done|done|intros q x; by rewrite Hnone|done..|].
  destruct (drop_dumper_quiet dir c d0 (λ _, []) sid safe Hsafe (packets ops) p' d' Hp Hst Hu) as [Hc L2].
  assert (local_step (touched dir c) d0 (drop_dumper p' d')) as L3 by by eapply local_trans.
  split; [apply L2|..].
  - intros k Hk. specialize (Hc k Hk). unfold closed_file, dump_start in Hc. rewrite Hnone in Hc. by destruct (file_packets sid k (packets ops)).
  - intros k c' Hne. rewrite (local_file_at _ _ _ _ L3); [apply Hnone|]. intros (safe' & k' & E). unfold join_path in E.
    apply app_inj_tail in E as [_ E]. by apply dump_ext_inj in E.
  - intros k Hk. apply L2. destruct Hst as [_ Hst]. unfold file_packets, accepted in Hk. destruct (seen sid (packets ops)) as [|p0 l]; [done|].
    by destruct Hst as (mf & _ & ? & _).
Qed.

(** C32: What a dump wrote an extraction gives back.  On a disk that works and had
    no files, packets go through the dumper, which is then dropped; a request for
    the source is prepared and streamed.  The stream is a global header and a
    record for each packet of the files of the window's minutes that passes the
    filter, with the packet's own time, lengths and bytes: none is lost, made up
    or altered by the files, the compression or the merge.  When the source's
    packets come in order of time the files are no limit: the stream holds every
    packet of the source that passes the filter, in order.  (The packets are
    those the dump accepts: no heartbeats, one link type.) *)
Theorem extraction_returns_the_dump base name dir c m ops p d0 d p' d' sid safe req :
  quiet d0 → disk_ok d0 → dk_names d0 = ∅ → pcap_dump_dir_for base name = Some dir →
  sanitize_path_component (B sid) = Some safe →
  Forall (own_name sid safe) (packets ops) → Forall (λ pkt, near (minute_of pkt)) (packets ops) →
  Forall recordable (packets ops) → 0 <= source_link sid (packets ops) < 2 ^ 32 →
  dumper_new dir c m d0 = (inl p, d) → run_dump ops p d = Ret (p', d') →
  rq_source_id req = sid → near (rq_start_us req / MICROS_PER_MINUTE) → near (rq_end_us req / MICROS_PER_MINUTE) →
  let lt := source_link sid (packets ops) in
  ∃ prep d2 out,
    prepare req [mkRoot name base] (drop_dumper p' d') = (inl prep, d2) ∧
    stream_extract prep = Ret (global_header (match window sid (packets ops) req with [] => DEFAULT_EMPTY_LINK_TYPE | _ => lt end) :: map record_chunk out) ∧
    out ≡ₚ map rec_of (List.filter (in_request lt req) (window sid (packets ops) req)) ∧
    (on_time (accepted sid (packets ops)) → out = map rec_of (List.filter (in_request lt req) (accepted sid (packets ops)))).
Proof.
  intros Hq Hd Hn Hdir Hsafe Hown Hnear Hrec Hlt Hnew Hrun Hsid Hlo Hhi lt.
  pose proof (run_dump_on dir c m ops p d0 d p' d' sid safe Hq Hd Hn Hsafe Hown Hnear Hnew Hrun) as Hon. fold lt in Hon.
  destruct (prepare_dump dir c safe sid (packets ops) lt Hlt base name req _ Hon Hdir Hsafe Hsid Hlo Hhi) as [d2 Ep].
  destruct (stream_extract_spec (prep_of sid (packets ops) lt req)) as (out & Es & Hm). cbn [prep_of pp_iters pp_req pp_header_link_type] in Es, Hm.
  exists (prep_of sid (packets ops) lt req), d2, out. split; [done|]. split; [done|].
  pose proof (matches_dump sid (packets ops) lt req Hrec) as Em. split; [rewrite <-Em; by apply merged_perm|].
  intros Ht. rewrite <-(window_on_time _ _ _ _ Ht), <-Em. apply merged_concat; [done|]. rewrite Em, window_on_time by done. by apply on_time_in_order.
Qed.

End Properties.

(** ** A dump and its extraction *)

#[local] Existing Instance stored_encoder.
#[local] Existing Instance stored_laws.
#[local] Existing Instance sample_hash.
#[local] Existing Instance sample_hash_laws.

(** A TCP segment from 10.0.0.1:port to 10.0.0.2:80. *)
Definition sample_frame (port : list byte) : list byte :=
  repeat x00 12 ++ [x08; x00] ++
  [x45; x00; x00; x28; x00; x00; x00; x00; x40; x06; x00; x00; x0a; x00; x00; x01; x0a; x00; x00; x02] ++
  port ++ [x00; x50; x00; x00; x00; x00; x00; x00; x00; x00; x50; x10; x00; x00; x00; x00; x00; x00].
Definition tcp_pkt (src : string) (ts : Z) (port : list byte) : RawPacket := sample_pkt src ts 1 (sample_frame port).
Definition port_a : list byte := [x1f; x90].
Definition port_b : list byte := [x1f; x91].

Definition sample_req (start_us end_us : Z) (port : option Z) : ExtractRequest := mkRequest "eth0" start_us end_us None port None None.
Definition extract_ops : list DumpOp :=
  [OpPacket 0 (tcp_pkt "eth0" 1000000 port_a); OpPacket 0 (tcp_pkt "lo" 1500000 port_a); OpPacket 0 (tcp_pkt "eth0" 2000000 port_b);
   OpFlush (λ _, 0); OpPacket 0 (tcp_pkt "eth0" 61000000 port_a)].

Definition extracted_by (req : ExtractRequest) (r : res (PacketDumper * Disk)) : res (list (list byte)) :=
  match r with
  | Ret (p, d) => match prepare req [mkRoot (B "p") [B "d"]] (drop_dumper p d) with (inl prep, _) => stream_extract prep | _ => Panic end
  | _ => Panic
  end.
Definition dump_dir : Path := [B "d"; B "p"].

Lemma extraction_returns_the_dump_witness :
  match dumper_new dump_dir SnappyCompression counters_zero (sample_disk [Done; Done; Short 9]) with
  | (inl p, d) =>
      match run_dump extract_ops p d with
      | Ret (p', d') => ∃ prep d2 out,
          prepare (sample_req 1000000 61000000 (Some 8080)) [mkRoot (B "p") [B "d"]] (drop_dumper p' d') = (inl prep, d2) ∧
          stream_extract prep = Ret (global_header 1 :: map record_chunk out) ∧
          out = map rec_of [tcp_pkt "eth0" 1000000 port_a; tcp_pkt "eth0" 61000000 port_a]
      | _ => False
      end
  | _ => False
  end.
Proof.
  destruct (dumper_new dump_dir SnappyCompression counters_zero (sample_disk [Done; Done; Short 9])) as [[p|e] d] eqn:E; [|discriminate E].
  assert (match run_dump extract_ops p d with Ret _ => true | _ => false end = true) as Hret by (injection E as <- <-; vm_compute; reflexivity).
  destruct (run_dump extract_ops p d) as [[p' d']| |] eqn:Er; [|discriminate Hret..].
  assert (packets extract_ops = [tcp_pkt "eth0" 1000000 port_a; tcp_pkt "lo" 1500000 port_a; tcp_pkt "eth0" 2000000 port_b; tcp_pkt "eth0" 61000000 port_a]) as Ep by reflexivity.
  destruct (extraction_returns_the_dump [B "d"] (B "p") dump_dir SnappyCompression counters_zero extract_ops p (sample_disk [Done; Done; Short 9]) d p' d' "eth0" (B "eth0")
    (sample_req 1000000 61000000 (Some 8080))) as (prep & d2 & out & H1 & H2 & _ & H4).
  - unfold quiet. cbn. repeat constructor.
  - apply sample_disk_ok.
  - reflexivity.
  - reflexivity.
  - reflexivity.
  - rewrite Ep. repeat (apply Forall_cons; split; [first [right; left; reflexivity | right; right; discriminate]|]). by apply Forall_nil.
  - rewrite Ep. repeat constructor; vm_compute; congruence.
  - rewrite Ep. repeat constructor; vm_compute; congruence.
  - rewrite Ep. split; vm_compute; congruence.
  - exact E.
  - exact Er.
  - reflexivity.
  - split; vm_compute; congruence.
  - split; vm_compute; congruence.
  - exists prep, d2, out. split; [exact H1|]. rewrite Ep in H2, H4. split; [exact H2|]. rewrite H4; [vm_compute; reflexivity|].
    vm_compute. repeat constructor; vm_compute; congruence.
Defined.

(** ** Where the code departs from its comments *)

(** A packet that arrives after the first of a later minute is in that minute's
    file: a window that ends before does not look there. *)
Example late_packet_missed :
  let r := run_dump [OpPacket 0 (tcp_pkt "eth0" 61000000 port_a); OpPacket 0 (tcp_pkt "eth0" 59000000 port_a)]
             (mkDumper dump_dir NoCompression ∅ ∅ (throttle_new WARN_THROTTLE) counters_zero) (sample_disk []) in
  extracted_by (sample_req 0 59500000 None) r = Ret [global_header 1].
Proof. vm_compute. reflexivity. Qed.

(** The merge promises records whose times never decrease; the records of one
    file come in the file's own order. *)
Example merge_out_of_order :
  let r := run_dump [OpPacket 0 (tcp_pkt "eth0" 2000000 port_a); OpPacket 0 (tcp_pkt "eth0" 1000000 port_b)]
             (mkDumper dump_dir NoCompression ∅ ∅ (throttle_new WARN_THROTTLE) counters_zero) (sample_disk []) in
  extracted_by (sample_req 0 3000000 None) r =
  Ret (global_header 1 :: map record_chunk [rec_of (tcp_pkt "eth0" 2000000 port_a); rec_of (tcp_pkt "eth0" 1000000 port_b)]).
Proof. vm_compute. reflexivity. Qed.

(** The width of a window is computed in 64 bits: the widest ones pass. *)
Example widest_window_passes :
  check_request (B "eth0") 0 (MAX_WINDOW_US + 1) = Some WindowTooWide ∧ check_request (B "eth0") (- 2 ^ 63) (2 ^ 63 - 1) = None.
Proof. split; reflexivity. Qed.
