(* ===== verification/Wire.v ===== *)
(** * Wire APIs and their registry (h-llm/src/model.rs, wire_api_registry.rs)

    The interface of a wire API, the [WireApi] trait, as a record of its
    methods, and the registry that picks one for a request in two passes: the
    first that accepts the route, else the first undecided one whose shape
    matches the body. *)

From Stdlib Require Import Strings.Byte Strings.String ZArith Lia.
From stdpp Require Import base gmap sets list strings.
From S2P Require Import Prelude.
From S2P Require Import Net.
From S2P Require Import Text.
From S2P Require Import Events.
From S2P Require Import Json.

Open Scope Z_scope.

Record RequestInfo : Type := mkReqInfo { ri_model : string; ri_is_stream : bool }.

Record ResponseInfo : Type := mkRespInfo {
  rp_model : option string;
  rp_finish_reason : option string;
  rp_input_tokens : option Z;
  rp_output_tokens : option Z;
  rp_total_tokens : option Z;
  rp_cache_read_input_tokens : option Z;
  rp_cache_creation_input_tokens : option Z;
  rp_response_body : option text;
  rp_response_id : option text;
}.

Inductive RouteVerdict : Type := Accept | Reject | Undecided.

#[global] Instance RouteVerdict_eq_dec : EqDecision RouteVerdict.
Proof. solve_decision. Defined.

(** What a wire API anchors a session on (wire_apis/mod.rs). *)
Inductive AssistantSig : Type :=
| ToolId (id : text)
| SigText (joined : text).

(** ** Header predicates (wire_apis/openai/shared.rs) *)

(** [uri.split('?').next()]. *)
Definition route_path (req : HttpRequestData) : text := until x3f (req_uri req).

(** [is_some_and] on a header. *)
Definition header_is (req : HttpRequestData) (name : string) (f : text → bool) : bool :=
  is_some_and f (req_header req (B name)).

Definition has_bearer_auth (req : HttpRequestData) : bool :=
  header_is req "authorization" (starts_with (B "Bearer ")).

(** The bearer token is an Anthropic key. *)
Definition bearer_sk_ant (req : HttpRequestData) : bool :=
  is_some_and (starts_with (B "sk-ant-"))
    (req_header req (B "authorization") ▷ strip_prefix (B "Bearer ")).

Definition is_anthropic_request (req : HttpRequestData) : bool :=
  header_is req "anthropic-version" (λ _, true) || bearer_sk_ant req.

Definition is_post (req : HttpRequestData) : bool := bool_decide (req_method req = B "POST").

(** [matches!(s, "a" | "b" | ..)]. *)
Definition one_of (l : list string) (s : string) : bool := existsb (String.eqb s) l.

Definition or_else {A : Type} (a b : option A) : option A :=
  match a with Some x => Some x | None => b end.

Section Wire.
Context `{JT : JsonText}.

(** The [WireApi] trait. *)
Record WireApi : Type := mkWireApi {
  wa_name : string;
  classify_route : HttpRequestData → RouteVerdict;
  matches_shape : HttpRequestData → ParsedJson → bool;
  extract_request : HttpRequestData → ParsedJson → RequestInfo;
  extract_response : HttpResponseData → ParsedJson → ResponseInfo;
  extract_sse : list SseEventData → ResponseInfo * ParsedJson;
  is_terminal : string → bool;
  is_tool_use : string → bool;
}.

(** A registry is the list of its wire APIs, in the order they are registered. *)

Record DetectionOutcome : Type := mkOutcome { do_wire_api : WireApi; do_request_info : RequestInfo }.

(** The media type of Content-Type is [application/json]. *)
Definition is_json_content_type (req : HttpRequestData) : bool :=
  match req_header req (B "content-type") with
  | Some ct => eq_ignore_ascii_case (trim (until x3b ct)) (B "application/json")
  | None => false
  end.

(** Pass 1: the first that accepts, or the undecided in order. *)
Fixpoint route_pass (req : HttpRequestData) (apis deferred : list WireApi) : WireApi + list WireApi :=
  match apis with
  | [] => inr deferred
  | p :: apis' =>
      match classify_route p req with
      | Accept => inl p
      | Reject => route_pass req apis' deferred
      | Undecided => route_pass req apis' (deferred ++ [p])
      end
  end.

Definition detect (reg : list WireApi) (req : HttpRequestData) (req_body : ParsedJson)
    : option DetectionOutcome :=
  match route_pass req reg [] with
  | inl p => Some (mkOutcome p (extract_request p req req_body))
  | inr [] => None
  | inr deferred =>
      if negb (bool_decide (req_method req = B "POST")) || negb (is_json_content_type req) then None
      else match pj_get req_body with
           | None => None
           | Some _ =>
               match List.find (λ p, matches_shape p req req_body) deferred with
               | Some winner => Some (mkOutcome winner (extract_request winner req req_body))
               | None => None
               end
           end
  end.

Definition find_by_name (reg : list WireApi) (name : string) : option WireApi :=
  List.find (λ p, String.eqb (wa_name p) name) reg.

(** ** Two-pass detection as a specification *)

Definition accepts (req : HttpRequestData) (p : WireApi) : Prop := classify_route p req = Accept.
Definition undecided (req : HttpRequestData) (p : WireApi) : Prop := classify_route p req = Undecided.

#[local] Instance undecided_dec (req : HttpRequestData) (p : WireApi) : Decision (undecided req p).
Proof. unfold undecided. apply _. Defined.

(** The registered wire API that a request belongs to. *)
Definition detects (reg : list WireApi) (req : HttpRequestData) (body : ParsedJson) (p : WireApi)
    : Prop :=
  first_with (accepts req) reg p ∨
  (Forall (λ q, ¬ accepts req q) reg ∧
   req_method req = B "POST" ∧ is_json_content_type req = true ∧ is_Some (pj_get body) ∧
   first_with (λ q, undecided req q ∧ matches_shape q req body = true) reg p).

Lemma route_pass_spec (req : HttpRequestData) (apis deferred : list WireApi) :
  match route_pass req apis deferred with
  | inl p => first_with (accepts req) apis p
  | inr d => Forall (λ q, ¬ accepts req q) apis ∧
             d = deferred ++ filter (undecided req) apis
  end.
Proof.
  revert deferred; induction apis as [|p apis IH]; intros deferred; cbn [route_pass].
  { split; [constructor|]. by rewrite filter_nil, app_nil_r. }
  destruct (classify_route p req) eqn:E.
  - by apply first_with_cons_yes.
  - specialize (IH deferred). destruct (route_pass req apis deferred) as [q|d].
    + apply first_with_cons_no; [unfold accepts; congruence|done].
    + destruct IH as [H ->]. split; [constructor; [unfold accepts; congruence|done]|].
      by rewrite filter_cons_False by (unfold undecided; congruence).
  - specialize (IH (deferred ++ [p])). destruct (route_pass req apis _) as [q|d].
    + apply first_with_cons_no; [unfold accepts; congruence|done].
    + destruct IH as [H ->]. split; [constructor; [unfold accepts; congruence|done]|].
      by rewrite filter_cons_True, <- app_assoc by done.
Qed.

Lemma find_filter {A : Type} (P : A → Prop) `{∀ x, Decision (P x)} (f : A → bool) (l : list A) :
  List.find f (filter P l) = List.find (λ y, bool_decide (P y) && f y) l.
Proof.
  induction l as [|y l IH]; [done|]. cbn [List.find]. destruct (decide (P y)) as [Hy|Hy].
  - rewrite filter_cons_True, bool_decide_true by done. cbn. by destruct (f y).
  - by rewrite filter_cons_False, bool_decide_false by done.
Qed.

Lemma first_with_iff {A : Type} (P Q : A → Prop) (l : list A) (x : A) :
  (∀ y, P y ↔ Q y) → first_with P l x ↔ first_with Q l x.
Proof.
  intros H. unfold first_with. split; intros (l1 & l2 & ? & ? & Hf); exists l1, l2;
    (split; [done|]; split; [by apply H|]); eapply Forall_impl; try exact Hf; cbn; intros y ? ?%H; done.
Qed.

Lemma first_with_unique {A : Type} (P : A → Prop) (l : list A) (x y : A) :
  first_with P l x → first_with P l y → x = y.
Proof.
  intros (l1 & l2 & -> & Hx & Hf) (k1 & k2 & E & Hy & Hg).
  revert k1 E Hg; induction l1 as [|z l1 IH]; intros [|w k1] E Hg; cbn in E; simplify_eq.
  - done.
  - by inversion Hg.
  - by inversion Hf.
  - apply Forall_cons in Hf as [_ Hf], Hg as [_ Hg]. by apply (IH Hf k1).
Qed.

Lemma detect_two_pass :
  ∀ (reg : list WireApi) (req : HttpRequestData) (body : ParsedJson),
    (∀ o, detect reg req body = Some o ↔
       detects reg req body (do_wire_api o) ∧
       do_request_info o = extract_request (do_wire_api o) req body) ∧
    (∀ p q, detects reg req body p → detects reg req body q → p = q).
Proof.
  intros reg req body.
  assert (Hpass1 : ∀ p q, first_with (accepts req) reg p → Forall (λ q, ¬ accepts req q) reg →
    p = q) by (intros p q [H1 H2]%first_with_elem Hf; rewrite Forall_forall in Hf; by destruct (Hf p)).
  split.
  2: { intros p q [Hp|(Hp & _ & _ & _ & Hp')] [Hq|(Hq & _ & _ & _ & Hq')].
       - exact (first_with_unique _ _ _ _ Hp Hq).
       - exact (Hpass1 p q Hp Hq).
       - symmetry. exact (Hpass1 q p Hq Hp).
       - exact (first_with_unique _ _ _ _ Hp' Hq'). }
  intros [api info]. cbn. unfold detect. pose proof (route_pass_spec req reg []) as H.
  destruct (route_pass req reg []) as [p|d].
  { split.
    - intros [= <- <-]. split; [by left|done].
    - intros [[Hp|(Hf & _)] ->].
      + by rewrite (first_with_unique _ _ _ _ H Hp).
      + by rewrite (Hpass1 p api H Hf). }
  destruct H as [Hf ->]. cbn [app].
  assert (Hfind : ∀ p, List.find (λ p, matches_shape p req body) (filter (undecided req) reg) = Some p
    ↔ first_with (λ q, undecided req q ∧ matches_shape q req body = true) reg p).
  { intros p. rewrite (find_filter (undecided req)), find_first_with. apply first_with_iff. intros y.
    by rewrite andb_true_iff, bool_decide_eq_true. }
  assert (Hnone : ¬ first_with (accepts req) reg api)
    by (intros [H1 H2]%first_with_elem; rewrite Forall_forall in Hf; by destruct (Hf api)).
  unfold detects.
  assert (Hd : filter (undecided req) reg = [] →
    ¬ first_with (λ q, undecided req q ∧ matches_shape q req body = true) reg api)
    by (intros E Hw; apply Hfind in Hw; by rewrite E in Hw).
  destruct (filter (undecided req) reg) as [|d1 d2];
    [split; [done|]; intros [[?|(_ & _ & _ & _ & Hw)] _]; [done|by destruct (Hd eq_refl)]|].
  destruct (bool_decide_reflect (req_method req = B "POST")) as [Hm|Hm]; cbn [negb orb];
    [|split; [done|]; by intros [[?|(_ & ? & _)] _]].
  destruct (is_json_content_type req); cbn [negb];
    [|split; [done|]; by intros [[?|(_ & _ & ? & _)] _]].
  destruct (pj_get body) as [v|];
    [|split; [done|]; intros [[?|(_ & _ & _ & Hs & _)] _]; [done|by apply is_Some_None in Hs]].
  destruct (List.find _ (d1 :: d2)) as [w|].
  - pose proof (proj1 (Hfind w) eq_refl) as E. split.
    + intros [= <- <-]. split; [|done]. right. do 3 (split; [done|]). split; [by eexists|done].
    + intros [[?|(_ & _ & _ & _ & Hw)] ->]; [done|]. by rewrite (first_with_unique _ _ _ _ E Hw).
  - split; [done|]. intros [[?|(_ & _ & _ & _ & Hw)] _]; [done|]. by apply Hfind in Hw.
Qed.

(** Detection implements its two-pass specification: the outcome, if any, is
    the first API that accepts the route, or, where none accepts, the request
    is a JSON POST and its body parses, the first undecided API whose shape
    matches; its request information is that API's, and no two APIs qualify. *)
Theorem detect_refines_two_pass :
  ∀ (reg : list WireApi) (req : HttpRequestData) (body : ParsedJson),
    (∀ o, detect reg req body = Some o ↔
       detects reg req body (do_wire_api o) ∧
       do_request_info o = extract_request (do_wire_api o) req body) ∧
    (∀ p q, detects reg req body p → detects reg req body q → p = q).
Proof. exact detect_two_pass. Qed.
End Wire.
