(* ===== verification/Estimator.v ===== *)
(** * Token estimation (h-llm/src/token_estimator.rs)

    What is counted when a response carries no [usage]: the distinct pieces of
    text the assistant emitted, whatever channel carried them.  The tokenizer is
    a parameter. *)

From Stdlib Require Import Strings.Byte Strings.String ZArith Lia.
From stdpp Require Import base gmap sets list strings.
From S2P Require Import Prelude.
From S2P Require Import Text.
From S2P Require Import Json.

Open Scope Z_scope.

(** The [TokenEstimator] trait: a [u32] per text. *)
Class TokenEstimator : Type := count_text : text → Z.

Class TokenEstimatorLaws (TE : TokenEstimator) : Prop := {
  count_text_range (t : text) : 0 <= count_text t < 2 ^ 32;
  count_text_empty : count_text [] = 0;
}.

(** ** [<think>] blocks

    The matches of [(?s)<think>(.*?)</think>], from the left: each runs to the
    first closing tag after its opening one. *)

Definition THINK_OPEN : text := B "<think>".
Definition THINK_CLOSE : text := B "</think>".

(** The next match: the text before it, its inside, the text after it. *)
Definition next_think (content : text) : option (text * text * text) :=
  match find_sub THINK_OPEN content with
  | None => None
  | Some i =>
      let rest := drop (i + length THINK_OPEN) content in
      match find_sub THINK_CLOSE rest with
      | None => None
      | Some j => Some (take i content, take j rest, drop (j + length THINK_CLOSE) rest)
      end
  end.

Fixpoint think_fuel (fuel : nat) (content : text) : list text * text :=
  match fuel with
  | O => ([], content)
  | S fuel' =>
      match next_think content with
      | None => ([], content)
      | Some (before, inner, after) =>
          let '(blocks, cleaned) := think_fuel fuel' after in (inner :: blocks, before ++ cleaned)
      end
  end.

Definition extract_think_blocks (content : text) : list text * text :=
  think_fuel (length content) content.

(** ** Distinct fragments *)

Definition push_unique (frags : list text) (s : text) : list text :=
  if bool_decide (s = []) || bool_decide (s ∈ frags) then frags else frags ++ [s].
Definition push_opt (frags : list text) (o : option text) : list text :=
  match o with Some s => push_unique frags s | None => frags end.

(** The [<think>] blocks of a piece of text, then the rest of it. *)
Definition push_think (frags : list text) (t : text) : list text :=
  let '(blocks, rest) := extract_think_blocks t in
  push_unique (foldl push_unique frags blocks) rest.
Definition push_think_opt (frags : list text) (o : option text) : list text :=
  match o with Some t => push_think frags t | None => frags end.

Section Collect.
Context `{JT : JsonText}.

(** The type of a block is one of [ks]. *)
Definition kind_in (ks : list string) (v : Value) : bool :=
  is_some_and (λ t, existsb (λ k, bool_decide (t = B k)) ks) (get_str "type" v).

Definition push_json (frags : list text) (v : Value) : list text := push_unique frags (to_string v).

Definition collect_chat_assistant_text (message : Value) : text :=
  let frags := push_opt [] (get_str "reasoning_content" message) in
  let frags := push_opt frags (get_str "reasoning" message) in
  let frags :=
    match get_str "content" message with
    | Some c => push_think frags c
    | None =>
        foldl (λ frags part,
          if kind_in ["text"; "input_text"; "output_text"]%string part
          then push_think_opt frags (get_str "text" part) else frags)
          frags (default [] (get_arr "content" message))
    end in
  let frags := foldl push_json frags (default [] (get_arr "tool_calls" message)) in
  join [LF] frags.

Definition collect_anthropic_assistant_text (message : Value) : text :=
  join [LF]
    match get_arr "content" message with
    | Some blocks =>
        foldl (λ frags blk,
          if kind_in ["thinking"]%string blk then push_opt frags (get_str "thinking" blk)
          else if kind_in ["text"]%string blk then push_think_opt frags (get_str "text" blk)
          else if kind_in ["tool_use"]%string blk then push_json frags blk
          else frags) [] blocks
    | None => push_think_opt [] (get_str "content" message)
    end.

Definition collect_responses_output_text (output : Value) : text :=
  let push_texts := foldl (λ frags s, push_opt frags (get_str "text" s)) in
  join [LF]
    (foldl (λ frags item,
       if kind_in ["reasoning"]%string item then
         push_texts (push_texts frags (default [] (get_arr "summary" item)))
           (default [] (get_arr "content" item))
       else if kind_in ["message"]%string item then
         foldl (λ frags c,
           if kind_in ["output_text"; "input_text"; "text"]%string c
           then push_think_opt frags (get_str "text" c) else frags)
           frags (default [] (get_arr "content" item))
       else if kind_in ["function_call"; "tool_call"]%string item then push_json frags item
       else frags) [] (default [] (as_array output))).

(** [total.saturating_add(est.count_text(s))] over the texts found. *)
Context `{TE : TokenEstimator}.
Definition add_count (total : Z) (t : text) : Z := u32_sat_add total (count_text t).
Definition add_opt (total : Z) (o : option text) : Z :=
  match o with Some t => add_count total t | None => total end.
Definition add_json (total : Z) (v : Value) : Z := add_count total (to_string v).
End Collect.

(** ** Think blocks, proved *)

Lemma next_think_split (content before inner after : text) :
  next_think content = Some (before, inner, after) →
  content = before ++ THINK_OPEN ++ inner ++ THINK_CLOSE ++ after ∧
  find_sub THINK_OPEN (before ++ removelast THINK_OPEN) = None ∧
  find_sub THINK_CLOSE (inner ++ removelast THINK_CLOSE) = None.
Proof.
  unfold next_think. destruct (find_sub THINK_OPEN content) as [i|] eqn:E; [|done].
  destruct (find_sub_Some _ _ _ E) as (b & rest & -> & Hi).
  assert (Hd : drop (i + length THINK_OPEN) (b ++ THINK_OPEN ++ rest) = rest)
    by (rewrite app_assoc; apply drop_app_exact; rewrite length_app; lia).
  rewrite Hd. destruct (find_sub THINK_CLOSE rest) as [j|] eqn:E2; [|done].
  destruct (find_sub_Some _ _ _ E2) as (c & k & -> & Hj).
  assert (Hd2 : drop (j + length THINK_CLOSE) (c ++ THINK_CLOSE ++ k) = k)
    by (rewrite app_assoc; apply drop_app_exact; rewrite length_app; lia).
  rewrite (take_app_exact b), Hd2, (take_app_exact c) by done. intros [= <- <- <-]. split; [done|].
  split; [by apply (find_sub_first THINK_OPEN b (c ++ THINK_CLOSE ++ k) i)|by apply (find_sub_first THINK_CLOSE c k j)].
Qed.

Lemma think_fuel_spec (fuel : nat) (content : text) :
  (length content <= fuel)%nat →
  let '(blocks, cleaned) := think_fuel fuel content in
  ∃ (pieces : list (text * text)) (rest : text),
    content = concat (map (λ p, p.1 ++ THINK_OPEN ++ p.2 ++ THINK_CLOSE) pieces) ++ rest ∧
    cleaned = concat (map fst pieces) ++ rest ∧ blocks = map snd pieces ∧
    next_think rest = None ∧
    Forall (λ p, find_sub THINK_OPEN (p.1 ++ removelast THINK_OPEN) = None ∧
                 find_sub THINK_CLOSE (p.2 ++ removelast THINK_CLOSE) = None) pieces.
Proof.
  revert content; induction fuel as [|fuel IH]; intros content Hf; cbn [think_fuel].
  { destruct content; [|cbn in Hf; lia]. by exists [], []. }
  destruct (next_think content) as [[[before inner] after]|] eqn:E; [|by exists [], content].
  destruct (next_think_split _ _ _ _ E) as (-> & Hb & Hi).
  specialize (IH after). destruct (think_fuel fuel after) as [blocks cleaned].
  destruct IH as (pieces & rest & -> & -> & -> & Hr & Hp).
  { rewrite !length_app in Hf. change (length THINK_OPEN) with 7%nat in Hf. lia. }
  exists ((before, inner) :: pieces), rest. cbn [map concat fst snd].
  split; [by rewrite <- !app_assoc|]. split; [by rewrite <- app_assoc|].
  split; [done|]. split; [done|]. by constructor.
Qed.

(** The text of a response is split, not lost: the content is the kept text
    with the think blocks put back where they stood, each block runs from the
    first opening tag to the first closing one after it, and no complete block
    is left in what follows the last. *)
Theorem think_blocks_partition :
  ∀ (content : text),
    let '(blocks, cleaned) := extract_think_blocks content in
    ∃ (pieces : list (text * text)) (rest : text),
      content = concat (map (λ p, p.1 ++ THINK_OPEN ++ p.2 ++ THINK_CLOSE) pieces) ++ rest ∧
      cleaned = concat (map fst pieces) ++ rest ∧ blocks = map snd pieces ∧
      next_think rest = None ∧
      Forall (λ p, find_sub THINK_OPEN (p.1 ++ removelast THINK_OPEN) = None ∧
                   find_sub THINK_CLOSE (p.2 ++ removelast THINK_CLOSE) = None) pieces.
Proof. intros content. by apply think_fuel_spec. Qed.

(** ** Fragments are distinct and none is empty *)

Definition frags_ok (frags : list text) : Prop := NoDup frags ∧ [] ∉ frags.

Lemma push_unique_ok (frags : list text) (s : text) : frags_ok frags → frags_ok (push_unique frags s).
Proof.
  intros [H1 H2]. unfold push_unique.
  destruct (bool_decide_reflect (s = [])); [done|].
  destruct (bool_decide_reflect (s ∈ frags)); [done|]. cbn. split.
  - apply NoDup_app. split; [done|]. split; [set_solver|apply NoDup_singleton].
  - set_solver.
Qed.

Lemma elem_of_push_frag (frags : list text) (s x : text) :
  x ∈ push_unique frags s ↔ x ∈ frags ∨ (x = s ∧ s ≠ []).
Proof.
  unfold push_unique. destruct (bool_decide_reflect (s = [])) as [->|].
  - cbn. naive_solver.
  - destruct (bool_decide_reflect (s ∈ frags)); cbn; [|set_solver].
    split; [by left|]. by intros [?|[-> _]].
Qed.
#[export] Hint Resolve push_unique_ok : heron.

(** ** A concrete estimator: a token per byte *)

#[global] Instance sample_estimator : TokenEstimator := λ t, Z.min (zlen t) (2 ^ 32 - 1).

#[global] Instance sample_estimator_laws : TokenEstimatorLaws sample_estimator.
Proof. split; [|done]. intros t. unfold count_text, sample_estimator, zlen. lia. Qed.
