(* ===== verification/Readers.v ===== *)
(** * Shared readers and builders of JSON bodies (h-llm/src/wire_apis)

    What the wire APIs' readers have in common: the model and stream flag of a
    request, texts that are not blank, the texts of content blocks, the names of
    tools, and the conditional insertions of the synthetic bodies. *)

From Stdlib Require Import Strings.Byte Strings.String ZArith Lia.
From stdpp Require Import base gmap sets list strings.
From S2P Require Import Prelude.
From S2P Require Import Net.
From S2P Require Import Text.
From S2P Require Import Events.
From S2P Require Import Json.
From S2P Require Import JsonSample.
From S2P Require Import Wire.
From S2P Require Import Estimator.

Open Scope Z_scope.

(** FNV-1a, 64 bits. *)
Definition FNV_OFFSET : Z := 0xcbf29ce484222325.
Definition FNV_PRIME : Z := 0x100000001b3.
Definition fnv1a_64 (s : text) : Z :=
  foldl (λ h b, wrap 64 (Z.lxor h (byteZ b) * FNV_PRIME)) FNV_OFFSET s.

Section Readers.
Context `{JT : JsonText}.

(** The model and stream flag of a request body, the same in three of the APIs. *)
Definition body_request_info (req_body : ParsedJson) : RequestInfo :=
  let body := pj_get req_body in
  mkReqInfo (str (default (B "unknown") (body ▷ get_str "model")))
    (default false (body ▷ get "stream" ▷ as_bool)).

Definition push_str (t : text) (o : option text) : text := t ++ default [] o.

(** [if let Some(x) = o { message[k] = x }]. *)
Definition insert_opt (k : string) (x : option Value) (v : Value) : Value :=
  match x with Some x => insert_key k x v | None => v end.
Definition insert_text (k : string) (t : text) (v : Value) : Value :=
  match t with [] => v | _ => insert_key k (Str t) v end.

Definition opt_str (o : option text) : Value := match o with Some s => Str s | None => Null end.

(** ** Readers *)

(** A text unless it is blank. *)
Definition non_blank (t : text) : option text := if bool_decide (trim t = []) then None else Some t.

(** The texts of blocks of the given types, joined by line feeds; none where
    there is no such block. *)
Definition block_texts (kinds : list string) (blocks : list Value) : list text :=
  omap (λ b, if kind_in kinds b then get_str "text" b else None) blocks.
Definition join_some (parts : list text) : option text :=
  match parts with [] => None | _ => Some (join [LF] parts) end.

(** [tools] read entry by entry: absent is no tool, another shape is unreadable. *)
Definition tools_with (name : Value → option text) (req : Value) : option (list text) :=
  match get "tools" req with
  | None => Some []
  | Some (Array arr) => Some (omap name arr)
  | Some _ => None
  end.

Definition positive_u64 (k : string) (u : Value) : bool :=
  is_some_and (λ n, 0 <? n) (get k u ▷ as_u64).

(** ** Insertions, proved *)

Lemma is_object_insert_opt (k : string) (o : option Value) (v : Value) :
  is_object (insert_opt k o v) = is_object v.
Proof. destruct o; [apply is_object_insert_key|done]. Qed.

Lemma get_insert_opt (k k' : string) (o : option Value) (v : Value) :
  is_object v = true →
  get k (insert_opt k' o v) = if String.eqb k k' then or_else o (get k v) else get k v.
Proof.
  intros H. destruct o; cbn [insert_opt or_else]; [by rewrite get_insert_key|].
  by destruct (String.eqb k k').
Qed.

Lemma is_object_insert_text (k : string) (t : text) (v : Value) :
  is_object (insert_text k t v) = is_object v.
Proof. destruct t; [done|apply is_object_insert_key]. Qed.

Lemma get_insert_text (k k' : string) (t : text) (v : Value) :
  is_object v = true →
  get k (insert_text k' t v)
  = if String.eqb k k' then match t with [] => get k v | _ => Some (Str t) end else get k v.
Proof.
  intros H. destruct t; cbn [insert_text]; [by destruct (String.eqb k k')|by rewrite get_insert_key].
Qed.

Context `{JNL : !JsonNumberLaws JN}.

Lemma as_u32_of_u64 (n : Z) : 0 <= n < 2 ^ 32 → as_u32 (of_u64 n) = Some n.
Proof.
  intros H. unfold as_u32, of_u64. cbn [as_u64]. rewrite as_u64_of_u64 by lia. cbn.
  by rewrite wrap_small.
Qed.

Definition u32_opt (o : option Z) : Prop := match o with Some n => 0 <= n < 2 ^ 32 | None => True end.

Lemma get_u32_range (k : string) (v : Value) : u32_opt (get_u32 k v).
Proof.
  unfold get_u32, as_u32. destruct (get k v) as [w|]; [|done]. cbn.
  destruct (as_u64 w); [|done]. cbn. by apply wrap_range.
Qed.

Lemma or_else_range (a b : option Z) : u32_opt a → u32_opt b → u32_opt (or_else a b).
Proof. by destruct a. Qed.

End Readers.

(** ** Concrete events, for the witnesses *)

Definition sample_event (ty : string) (v : Value) : SseEventData :=
  mkSse (mkFlowKey "tap" (V4 1, 40000) (V4 2, 443)) (V4 1, 40000) (V4 2, 443) (B ty) (to_string v) 0 None.
Definition sample_chunk : Value → SseEventData := sample_event "".

Definition sample_response : HttpResponseData :=
  mkResp (mkFlowKey "tap" (V4 1, 40000) (V4 2, 443)) (V4 1, 40000) (V4 2, 443) 200 1 [] [] 0 0 None.


(** Computing a stored value yields the value. *)
Lemma sample_event_data (ty : string) (v : Value) : from_slice (sse_data (sample_event ty v)) = Some v.
Proof. apply sample_from_to. Qed.
