(* ===== verification/OpenAiChat.v ===== *)
(** * OpenAI Chat Completions (h-llm/src/wire_apis/openai/chat.rs)

    The wire API of [POST /v1/chat/completions]: detection, extraction from a
    response body, assembly of a stream of chunks into one body, and the readers
    of bodies the agent profiles use. *)

From Stdlib Require Import Strings.Byte Strings.String ZArith Lia.
From stdpp Require Import base gmap sets list strings.
From S2P Require Import Prelude.
From S2P Require Import Net.
From S2P Require Import Text.
From S2P Require Import Events.
From S2P Require Import BTree.
From S2P Require Import Json.
From S2P Require Import JsonSample.
From S2P Require Import Wire.
From S2P Require Import Estimator.
From S2P Require Import Readers.

Open Scope Z_scope.

Definition OPENAI_CHAT : string := "openai-chat".

Section Chat.
Context `{JT : JsonText}.

Definition chat_classify_route (req : HttpRequestData) : RouteVerdict :=
  if negb (is_post req) then Reject
  else if is_anthropic_request req then Reject
  else if ends_with (B "/v1/chat/completions") (route_path req) && has_bearer_auth req then Accept
  else Undecided.

Definition chat_matches_shape (req : HttpRequestData) (req_body : ParsedJson) : bool :=
  match pj_get req_body with
  | None => false
  | Some b =>
      bool_decide (is_Some (get_str "model" b)) && bool_decide (get "input" b = None)
      && is_some_and (λ a, negb (length a =? 0)%nat) (get_arr "messages" b)
  end.

Definition chat_extract_request (req : HttpRequestData) (req_body : ParsedJson) : RequestInfo :=
  body_request_info req_body.

(** The four counts of a [usage] block, Chat names first. *)
Definition chat_input_tokens (u : Value) : option Z :=
  or_else (get_u32 "prompt_tokens" u) (get_u32 "input_tokens" u).
Definition chat_output_tokens (u : Value) : option Z :=
  or_else (get_u32 "completion_tokens" u) (get_u32 "output_tokens" u).
Definition chat_total_tokens (u : Value) : option Z := get_u32 "total_tokens" u.
Definition chat_cache_read (u : Value) : option Z :=
  or_else (get "prompt_tokens_details" u ▷ get_u32 "cached_tokens")
    (get_u32 "cache_read_input_tokens" u).

Definition first_choice (v : Value) : option Value := get "choices" v ▷ get_idx 0.

Definition chat_extract_response (resp : HttpResponseData) (resp_body : ParsedJson) : ResponseInfo :=
  let parsed := pj_get resp_body in
  let usage := parsed ▷ get "usage" in
  mkRespInfo (str <$> (parsed ▷ get_str "model"))
    (str <$> (parsed ▷ first_choice ▷ get_str "finish_reason"))
    (usage ▷ chat_input_tokens) (usage ▷ chat_output_tokens) (usage ▷ chat_total_tokens)
    (usage ▷ chat_cache_read) None (from_utf8 (Events.resp_body resp)) (parsed ▷ get_str "id").

(** ** Streams *)

(** Per tool call: id, name, arguments. *)
Abbreviation tool_acc := (text * text * text)%type.

Record ChatAcc : Type := mkChatAcc {
  ca_response_id : option text;
  ca_model : option text;
  ca_finish_reason : option text;
  ca_content : text;
  ca_reasoning_content : text;
  ca_reasoning : text;
  ca_tool_calls : list (Z * tool_acc);
  ca_tokens : option Z * option Z * option Z * option Z;
  ca_saw_chunk : bool;
}.

Definition chat_acc_new : ChatAcc := mkChatAcc None None None [] [] [] [] (None, None, None, None) false.

(** One fragment of a tool call, merged into the entry of its index. *)
Definition merge_tool (m : list (Z * tool_acc)) (tc : Value) : list (Z * tool_acc) :=
  let idx := default 0 (get "index" tc ▷ as_u64) in
  let '(id, name, args) := default ([], [], []) (bt_lookup idx m) in
  let f := get "function" tc in
  bt_insert idx
    (default id (get_str "id" tc), default name (f ▷ get_str "name"),
     args ++ default [] (f ▷ get_str "arguments")) m.

(** [usage]: read while no prompt count is known. *)
Definition merge_usage (t : option Z * option Z * option Z * option Z) (data : Value)
    : option Z * option Z * option Z * option Z :=
  match t.1.1.1, get "usage" data with
  | None, Some u =>
      if is_object u then (chat_input_tokens u, chat_output_tokens u, chat_total_tokens u, chat_cache_read u)
      else t
  | _, _ => t
  end.

(** One chunk. *)
Definition chat_chunk (a : ChatAcc) (data : Value) : ChatAcc :=
  let choice := first_choice data in
  let delta := choice ▷ get "delta" in
  mkChatAcc (or_else (ca_response_id a) (get_str "id" data))
    (or_else (ca_model a) (get_str "model" data))
    (or_else (choice ▷ get_str "finish_reason") (ca_finish_reason a))
    (push_str (ca_content a) (delta ▷ get_str "content"))
    (push_str (ca_reasoning_content a) (delta ▷ get_str "reasoning_content"))
    (push_str (ca_reasoning a) (delta ▷ get_str "reasoning"))
    (foldl merge_tool (ca_tool_calls a) (default [] (delta ▷ get_arr "tool_calls")))
    (merge_usage (ca_tokens a) data) true.

(** The chunk an event carries, if it is one of ours. *)
Definition chat_data (e : SseEventData) : option Value :=
  match sse_event_type e with
  | _ :: _ => None
  | [] => match from_slice (sse_data e) with
          | Some v => if is_object v then Some v else None
          | None => None
          end
  end.

Definition chat_accumulate (events : list SseEventData) : ChatAcc :=
  foldl chat_chunk chat_acc_new (omap chat_data events).

Definition tool_call_value (tc : tool_acc) : Value :=
  let '(id, name, args) := tc in
  obj [("id", Str id); ("type", Str (B "function"));
       ("function", obj [("name", Str name); ("arguments", Str args)])]%string.

Definition chat_message (a : ChatAcc) : Value :=
  let m := obj [("role", Str (B "assistant"))]%string in
  let m := insert_text "content" (ca_content a) m in
  let m := insert_text "reasoning_content" (ca_reasoning_content a) m in
  let m := insert_text "reasoning" (ca_reasoning a) m in
  match ca_tool_calls a with
  | [] => m
  | tcs => insert_key "tool_calls" (Array (map (λ tc, tool_call_value tc.2) tcs)) m
  end.

Definition usage_value (t : option Z * option Z * option Z * option Z) : Value :=
  let '(i, o, tot, cr) := t in
  insert_opt "prompt_tokens_details" ((λ c, obj [("cached_tokens", of_u64 c)]%string) <$> cr)
    (insert_opt "total_tokens" (of_u64 <$> tot)
      (insert_opt "completion_tokens" (of_u64 <$> o)
        (insert_opt "prompt_tokens" (of_u64 <$> i) (obj [])))).
Definition chat_usage (t : option Z * option Z * option Z * option Z) : option Value :=
  match t.1 with
  | (None, None, None) => None
  | _ => Some (usage_value t)
  end.

Definition build_synthetic_body (a : ChatAcc) : Value :=
  insert_opt "usage" (chat_usage (ca_tokens a))
    (obj [("model", Str (default [] (ca_model a)));
          ("choices", Array [obj [("index", of_u64 0); ("message", chat_message a);
                                  ("finish_reason", opt_str (ca_finish_reason a))]])]%string).

Definition chat_extract_sse (events : list SseEventData) : ResponseInfo * ParsedJson :=
  let a := chat_accumulate events in
  let '(i, o, tot, cr) := ca_tokens a in
  let synthetic := if ca_saw_chunk a then Some (build_synthetic_body a) else None in
  (mkRespInfo (str <$> ca_model a) (str <$> ca_finish_reason a) i o tot cr None
     (to_string <$> synthetic) (ca_response_id a),
   Eager synthetic).

Definition chat_is_terminal : string → bool :=
  one_of ["stop"; "length"; "tool_calls"; "function_call"; "content_filter"]%string.
Definition chat_is_tool_use : string → bool := one_of ["tool_calls"; "function_call"]%string.

Definition OpenAiChatWireApi : WireApi :=
  mkWireApi OPENAI_CHAT chat_classify_route chat_matches_shape chat_extract_request
    chat_extract_response chat_extract_sse chat_is_terminal chat_is_tool_use.

(** ** Readers of bodies *)

Definition user_content_to_text (content : Value) : option text :=
  match content with
  | Str s => non_blank s
  | Array blocks => join_some (block_texts ["text"; "input_text"]%string blocks)
  | _ => None
  end.

Definition chat_tool_names (req : Value) : option (list text) :=
  tools_with (λ t, get "function" t ▷ get_str "name") req.

(** The first message of a role. *)
Definition first_role (role : string) (msgs : list Value) : option Value :=
  List.find (str_is "role" role) msgs.

Definition chat_first_system_text (req : Value) : option text :=
  get_arr "messages" req ▷ first_role "system" ▷ get "content" ▷ user_content_to_text.

Definition chat_first_user_text (req : Value) : option text :=
  get_arr "messages" req ▷ first_role "user" ▷ get "content" ▷ user_content_to_text.

(** The id of a message's first tool call, else its text. *)
Definition chat_message_sig (msg : Value) : option AssistantSig :=
  match get_arr "tool_calls" msg ▷ head ▷ get_str "id" with
  | Some id => Some (ToolId id)
  | None => SigText <$> (get_str "content" msg ▷ non_blank)
  end.

Definition chat_first_assistant_sig_from_request (req : Value) : option AssistantSig :=
  get_arr "messages" req ▷ first_role "assistant" ▷ chat_message_sig.

Definition chat_first_assistant_sig_from_response_value (resp : Value) : option AssistantSig :=
  first_choice resp ▷ get "message" ▷ chat_message_sig.

Definition chat_extract_user_input (req : Value) : option text :=
  get_arr "messages" req ▷ last ▷ λ m,
    if str_is "role" "user" m then get "content" m ▷ user_content_to_text else None.

Definition chat_is_user_turn_start (req : Value) : option bool :=
  get_arr "messages" req ▷ last ▷ λ m,
    Some (if str_is "role" "user" m
          then bool_decide (is_Some (get "content" m ▷ user_content_to_text)) else false).

Definition chat_extract_assistant_text_value (resp : Value) : option text :=
  first_choice resp ▷ get "message" ▷ get_str "content" ▷ non_blank.

(** ** Token estimation *)

Definition chat_usage_present (body : Value) : bool :=
  match get "usage" body with
  | None => false
  | Some u =>
      is_object u && (positive_u64 "prompt_tokens" u || positive_u64 "completion_tokens" u
                      || positive_u64 "total_tokens" u)
  end.

Definition chat_collected_response_text (body : Value) : text :=
  match first_choice body ▷ get "message" with
  | Some m => collect_chat_assistant_text m
  | None => []
  end.

Section Estimate.
Context `{TE : TokenEstimator}.

Definition chat_estimate_message (total : Z) (m : Value) : Z :=
  let total := add_opt total (get_str "role" m) in
  let total :=
    match get_str "content" m with
    | Some s => add_count total s
    | None => foldl (λ t part, add_opt t (get_str "text" part)) total
                (default [] (get_arr "content" m))
    end in
  foldl add_json total (default [] (get_arr "tool_calls" m)).

Definition chat_estimate_input_tokens (req : Value) : Z :=
  let total := foldl chat_estimate_message 0 (default [] (get_arr "messages" req)) in
  let total := foldl add_json total (default [] (get_arr "tools" req)) in
  add_opt total (get_str "tool_choice" req).

Definition chat_estimate_output_tokens (resp : Value) : Z :=
  count_text (chat_collected_response_text resp).
End Estimate.

(** ** What a stream assembles *)

Definition choice_of (d : Value) : option Value := first_choice d.
Definition delta_of (d : Value) : option Value := first_choice d ▷ get "delta".

(** The fragments of tool calls, in the order they arrive. *)
Definition fragments (ds : list Value) : list Value :=
  ds ≫= λ d, default [] (delta_of d ▷ get_arr "tool_calls").
Definition frag_idx (tc : Value) : Z := default 0 (get "index" tc ▷ as_u64).
Definition frag_fn (k : string) (tc : Value) : option text := get "function" tc ▷ get_str k.

(** The call of an index: its last id and name, its arguments end to end. *)
Definition assembled (frs : list Value) (idx : Z) : option tool_acc :=
  match List.filter (λ tc, frag_idx tc =? idx) frs with
  | [] => None
  | l => Some (default [] (last (omap (get_str "id") l)), default [] (last (omap (frag_fn "name") l)),
               concat (omap (frag_fn "arguments") l))
  end.

(** The counts of the first usage block with a prompt count, else of the last. *)
Definition usage_block (d : Value) : option Value :=
  get "usage" d ▷ λ u, if is_object u then Some u else None.
Definition usage_counts (u : Value) : option Z * option Z * option Z * option Z :=
  (chat_input_tokens u, chat_output_tokens u, chat_total_tokens u, chat_cache_read u).
Definition has_input (u : Value) : bool := is_some_and (λ _, true) (chat_input_tokens u).
Definition usage_of (us : list Value) : option Z * option Z * option Z * option Z :=
  match List.find has_input us, last us with
  | Some u, _ | None, Some u => usage_counts u
  | None, None => (None, None, None, None)
  end.

Lemma merge_tool_lookup (m : list (Z * tool_acc)) (tc : Value) (idx : Z) :
  bt_lookup idx (merge_tool m tc)
  = if idx =? frag_idx tc then
      let '(id, name, args) := default ([], [], []) (bt_lookup idx m) in
      Some (default id (get_str "id" tc), default name (frag_fn "name" tc),
            args ++ default [] (frag_fn "arguments" tc))
    else bt_lookup idx m.
Proof.
  unfold merge_tool. fold (frag_idx tc).
  destruct (default _ (bt_lookup (frag_idx tc) m)) as [[id name] args] eqn:E.
  rewrite bt_lookup_insert. destruct (Z.eqb_spec idx (frag_idx tc)) as [->|]; [|done].
  by rewrite E.
Qed.

Lemma merge_tool_ok (m : list (Z * tool_acc)) (tc : Value) : bt_ok m → bt_ok (merge_tool m tc).
Proof.
  intros H. unfold merge_tool. destruct (default _ _) as [[id name] args]. by apply bt_insert_ok.
Qed.

Lemma merge_tools_ok (frs : list Value) (m : list (Z * tool_acc)) :
  bt_ok m → bt_ok (foldl merge_tool m frs).
Proof.
  revert m; induction frs as [|tc frs IH]; intros m H; [done|]. apply IH. by apply merge_tool_ok.
Qed.

Lemma merge_tools_lookup (frs : list Value) (idx : Z) :
  bt_lookup idx (foldl merge_tool [] frs) = assembled frs idx.
Proof.
  induction frs as [|tc frs IH] using rev_ind; [done|].
  rewrite foldl_app. cbn [foldl]. rewrite merge_tool_lookup, IH. unfold assembled.
  rewrite List.filter_app. cbn [List.filter]. rewrite (Z.eqb_sym idx).
  destruct (frag_idx tc =? idx); [|by rewrite app_nil_r].
  destruct (List.filter _ frs) as [|x l] eqn:E.
  - cbn. by destruct (get_str "id" tc), (frag_fn "name" tc), (frag_fn "arguments" tc);
      cbn; rewrite ?app_nil_r.
  - destruct ((x :: l) ++ [tc]) as [|y k] eqn:Ek; [done|]. rewrite <- Ek. cbn [default].
    rewrite !last_omap_snoc, concat_omap_snoc. unfold id.
    by destruct (get_str "id" tc), (frag_fn "name" tc).
Qed.

Lemma usage_fold (ds : list Value) :
  foldl merge_usage (None, None, None, None) ds = usage_of (omap usage_block ds).
Proof.
  induction ds as [|d ds IH] using rev_ind; [done|].
  rewrite foldl_app. cbn [foldl]. rewrite IH, omap_app. set (us := omap usage_block ds).
  cbn [omap list_omap]. unfold merge_usage, usage_block.
  assert (Hin : ∀ u, List.find has_input us = Some u → chat_input_tokens u ≠ None).
  { intros u [_ Hu]%find_some. unfold has_input in Hu. by destruct (chat_input_tokens u). }
  assert (Hlast : List.find has_input us = None → ∀ u, last us = Some u → chat_input_tokens u = None).
  { intros Hn u Hu. apply last_Some_elem_of, list_elem_of_In in Hu.
    pose proof (find_none _ _ Hn u Hu) as H. unfold has_input in H. by destruct (chat_input_tokens u). }
  assert (Hfa : ∀ x, List.find has_input (us ++ [x])
    = match List.find has_input us with Some u => Some u | None => if has_input x then Some x else None end).
  { intros x. clear. induction us as [|y us IH]; cbn; [by destruct (has_input x)|].
    by destruct (has_input y). }
  destruct (get "usage" d) as [u|]; cbn [mbind option_bind].
  2: { rewrite app_nil_r. by destruct (usage_of us).1.1.1. }
  destruct (is_object u); [|rewrite app_nil_r; by destruct (usage_of us).1.1.1].
  unfold usage_of at 3. rewrite Hfa, last_snoc. unfold usage_of.
  destruct (List.find has_input us) as [w|].
  - cbn [usage_counts fst]. specialize (Hin w eq_refl). by destruct (chat_input_tokens w).
  - destruct (last us) as [w|].
    + cbn [usage_counts fst]. rewrite (Hlast eq_refl w eq_refl). by destruct (has_input u).
    + cbn. by destruct (has_input u).
Qed.

Lemma chat_fold_spec (ds : list Value) :
  let a := foldl chat_chunk chat_acc_new ds in
  ca_response_id a = head (omap (get_str "id") ds) ∧
  ca_model a = head (omap (get_str "model") ds) ∧
  ca_finish_reason a = last (omap (λ d, choice_of d ▷ get_str "finish_reason") ds) ∧
  ca_content a = concat (omap (λ d, delta_of d ▷ get_str "content") ds) ∧
  ca_reasoning_content a = concat (omap (λ d, delta_of d ▷ get_str "reasoning_content") ds) ∧
  ca_reasoning a = concat (omap (λ d, delta_of d ▷ get_str "reasoning") ds) ∧
  ca_tool_calls a = foldl merge_tool [] (fragments ds) ∧
  ca_tokens a = foldl merge_usage (None, None, None, None) ds ∧
  ca_saw_chunk a = negb (bool_decide (ds = [])).
Proof.
  cbn zeta. induction ds as [|d ds IH] using rev_ind; [done|].
  destruct IH as (I1 & I2 & I3 & I4 & I5 & I6 & I7 & I8 & I9).
  rewrite !foldl_app, !head_omap_snoc, !last_omap_snoc, !concat_omap_snoc. cbn [foldl].
  unfold fragments. rewrite bind_app, foldl_app. fold (fragments ds). rewrite <- I7, <- I8.
  cbn [mbind list_bind]. rewrite app_nil_r.
  cbn [chat_chunk ca_response_id ca_model ca_finish_reason ca_content ca_reasoning_content
    ca_reasoning ca_tool_calls ca_tokens ca_saw_chunk]. unfold push_str.
  rewrite I1, I2, I3, I4, I5, I6. unfold choice_of, delta_of, or_else.
  do 8 (split; [done|]).
  rewrite bool_decide_false; [done|]. by intros [_ ?]%app_nil.
Qed.

(** C22: a stream says what its chunks say together, however the provider cut it:
    identifiers come from the first chunk with one, the finish reason from the
    last, each text channel is its pieces end to end, each tool call is the last
    id and name and all argument pieces of its index, in index order, and usage
    is the first block with a prompt count. *)
Theorem chat_sse_assembles :
  ∀ (events : list SseEventData),
    let ds := omap chat_data events in
    let a := chat_accumulate events in
    ca_response_id a = head (omap (get_str "id") ds) ∧
    ca_model a = head (omap (get_str "model") ds) ∧
    ca_finish_reason a = last (omap (λ d, choice_of d ▷ get_str "finish_reason") ds) ∧
    ca_content a = concat (omap (λ d, delta_of d ▷ get_str "content") ds) ∧
    ca_reasoning_content a = concat (omap (λ d, delta_of d ▷ get_str "reasoning_content") ds) ∧
    ca_reasoning a = concat (omap (λ d, delta_of d ▷ get_str "reasoning") ds) ∧
    bt_ok (ca_tool_calls a) ∧
    (∀ idx, bt_lookup idx (ca_tool_calls a) = assembled (fragments ds) idx) ∧
    ca_tokens a = usage_of (omap usage_block ds) ∧
    ca_saw_chunk a = negb (bool_decide (ds = [])).
Proof.
  intros events ds a.
  destruct (chat_fold_spec ds) as (H1 & H2 & H3 & H4 & H5 & H6 & H7 & H8 & H9).
  change (foldl chat_chunk chat_acc_new ds) with a in *.
  do 6 (split; [done|]). rewrite H7, H8. split; [by apply merge_tools_ok; constructor|].
  split; [intros idx; apply merge_tools_lookup|]. split; [apply usage_fold|done].
Qed.

(** ** Reading the assembled body back *)

Lemma get_message_field (k : string) (a : ChatAcc) :
  get k (chat_message a)
  = if String.eqb k "tool_calls" then
      match ca_tool_calls a with [] => None | tcs => Some (Array (map (λ tc, tool_call_value tc.2) tcs)) end
    else if String.eqb k "reasoning" then match ca_reasoning a with [] => None | t => Some (Str t) end
    else if String.eqb k "reasoning_content" then
      match ca_reasoning_content a with [] => None | t => Some (Str t) end
    else if String.eqb k "content" then match ca_content a with [] => None | t => Some (Str t) end
    else if String.eqb k "role" then Some (Str (B "assistant")) else None.
Proof.
  unfold chat_message.
  assert (Hin : get k (insert_text "reasoning" (ca_reasoning a)
      (insert_text "reasoning_content" (ca_reasoning_content a)
        (insert_text "content" (ca_content a) (obj [("role", Str (B "assistant"))]%string))))
    = if String.eqb k "reasoning" then match ca_reasoning a with [] => None | t => Some (Str t) end
      else if String.eqb k "reasoning_content" then
        match ca_reasoning_content a with [] => None | t => Some (Str t) end
      else if String.eqb k "content" then match ca_content a with [] => None | t => Some (Str t) end
      else if String.eqb k "role" then Some (Str (B "assistant")) else None).
  { rewrite !get_insert_text by (by rewrite ?is_object_insert_text). rewrite get_obj. cbn [last_get].
    destruct (String.eqb_spec k "reasoning") as [->|]; [by destruct (ca_reasoning a)|].
    destruct (String.eqb_spec k "reasoning_content") as [->|]; [by destruct (ca_reasoning_content a)|].
    destruct (String.eqb_spec k "content") as [->|]; [by destruct (ca_content a)|done]. }
  destruct (ca_tool_calls a) as [|tc tcs].
  - rewrite Hin. by destruct (String.eqb_spec k "tool_calls") as [->|].
  - rewrite get_insert_key by (by rewrite !is_object_insert_text). by rewrite Hin.
Qed.

Context `{JNL : !JsonNumberLaws JN}.

Definition tokens_ok (t : option Z * option Z * option Z * option Z) : Prop :=
  u32_opt t.1.1.1 ∧ u32_opt t.1.1.2 ∧ u32_opt t.1.2 ∧ u32_opt t.2.

Lemma usage_of_range (us : list Value) : tokens_ok (usage_of us).
Proof.
  assert (Hc : ∀ u, tokens_ok (usage_counts u)).
  { intros u. repeat split; cbn; try apply or_else_range; try apply get_u32_range.
    destruct (get _ u); [apply get_u32_range|done]. }
  unfold usage_of. destruct (List.find has_input us); [done|]. by destruct (last us).
Qed.

(** The counts a usage block built from them reads back as. *)
Lemma chat_usage_read (t : option Z * option Z * option Z * option Z) :
  tokens_ok t →
  match chat_usage t with
  | Some u => usage_counts u = t
  | None => t.1 = (None, None, None)
  end.
Proof.
  destruct t as [[[i o] tot] cr]. intros (Hi & Ho & Ht & Hc). cbn in Hi, Ho, Ht, Hc.
  unfold chat_usage. assert (E : ∀ (x : option Z), u32_opt x → (of_u64 <$> x) ▷ as_u32 = x).
  { intros [n|] Hn; [|done]. cbn. by apply as_u32_of_u64. }
  assert (Hu : ∀ u, (∀ k, get k u
    = if String.eqb k "prompt_tokens_details" then (λ c, obj [("cached_tokens", of_u64 c)]%string) <$> cr
      else if String.eqb k "total_tokens" then of_u64 <$> tot
      else if String.eqb k "completion_tokens" then of_u64 <$> o
      else if String.eqb k "prompt_tokens" then of_u64 <$> i else None) →
    usage_counts u = (i, o, tot, cr)).
  { intros u Hg. unfold usage_counts, chat_input_tokens, chat_output_tokens, chat_total_tokens,
      chat_cache_read, get_u32. rewrite !Hg. cbn [String.eqb Ascii.eqb Bool.eqb].
    rewrite !E by done.
    assert (Hcr : (((λ c, obj [("cached_tokens", of_u64 c)]%string) <$> cr)
      ▷ λ v, get "cached_tokens" v ▷ as_u32) = cr).
    { destruct cr as [c|]; [|done]. cbn [fmap option_fmap option_map mbind option_bind].
      rewrite get_obj. cbn [last_get String.eqb Ascii.eqb Bool.eqb]. by apply as_u32_of_u64. }
    rewrite Hcr. by destruct i, o, cr. }
  assert (Hgu : usage_counts (usage_value (i, o, tot, cr)) = (i, o, tot, cr)).
  { apply Hu. intros k. unfold usage_value.
    rewrite !get_insert_opt by (by rewrite ?is_object_insert_opt).
    rewrite get_obj. cbn [last_get].
    destruct (String.eqb_spec k "prompt_tokens_details") as [->|]; [by destruct cr|].
    destruct (String.eqb_spec k "total_tokens") as [->|]; [by destruct tot|].
    destruct (String.eqb_spec k "completion_tokens") as [->|]; [by destruct o|].
    destruct (String.eqb_spec k "prompt_tokens") as [->|]; [by destruct i|done]. }
  by destruct i, o, tot.
Qed.

(** C23: the assembled body tells a reader of complete responses what the stream
    told: the same finish reason and counts, the model, and the content; two
    things it does not carry, the response id, and a cache count that came
    without any other count. *)
Theorem chat_sse_reads_back :
  ∀ (events : list SseEventData) (resp : HttpResponseData) (v : Value),
    let '(info, cache) := chat_extract_sse events in
    pj_get cache = Some v →
    let again := chat_extract_response resp cache in
    let content := concat (omap (λ d, delta_of d ▷ get_str "content") (omap chat_data events)) in
    rp_model again = Some (default "" (rp_model info)) ∧
    rp_finish_reason again = rp_finish_reason info ∧
    rp_input_tokens again = rp_input_tokens info ∧
    rp_output_tokens again = rp_output_tokens info ∧
    rp_total_tokens again = rp_total_tokens info ∧
    rp_cache_read_input_tokens again
      = (if bool_decide (rp_input_tokens info = None ∧ rp_output_tokens info = None ∧
                         rp_total_tokens info = None)
         then None else rp_cache_read_input_tokens info) ∧
    rp_response_id again = None ∧
    rp_response_body info = Some (to_string v) ∧
    chat_extract_assistant_text_value v = non_blank content.
Proof.
  intros events resp v. unfold chat_extract_sse.
  set (a := chat_accumulate events).
  destruct (ca_tokens a) as [[[i o] tot] cr] eqn:Et.
  destruct (ca_saw_chunk a); [|done]. cbn [pj_get]. intros [= <-].
  pose proof (chat_fold_spec (omap chat_data events)) as (_ & _ & _ & Hc & _ & _ & _ & Ht & _).
  change (foldl chat_chunk chat_acc_new (omap chat_data events)) with a in *.
  rewrite usage_fold in Ht.
  assert (Hr : tokens_ok (i, o, tot, cr)) by (rewrite <- Et, Ht; apply usage_of_range).
  pose proof (chat_usage_read _ Hr) as Hu. rewrite <- Et in Hu.
  assert (Hg : ∀ k, get k (build_synthetic_body a)
    = if String.eqb k "usage" then chat_usage (ca_tokens a)
      else get k (obj [("model", Str (default [] (ca_model a)));
          ("choices", Array [obj [("index", of_u64 0); ("message", chat_message a);
                                  ("finish_reason", opt_str (ca_finish_reason a))]])]%string)).
  { intros k. unfold build_synthetic_body. rewrite get_insert_opt by done. rewrite get_obj.
    cbn [last_get]. destruct (String.eqb_spec k "usage") as [->|]; [|done].
    cbn. by destruct (chat_usage _). }
  assert (Hch : first_choice (build_synthetic_body a)
    = Some (obj [("index", of_u64 0); ("message", chat_message a);
                 ("finish_reason", opt_str (ca_finish_reason a))]%string)).
  { unfold first_choice. rewrite Hg, get_obj. done. }
  cbn zeta. cbn [chat_extract_response pj_get rp_model rp_finish_reason rp_input_tokens
    rp_output_tokens rp_total_tokens rp_cache_read_input_tokens rp_response_id rp_response_body
    mbind option_bind fmap option_fmap option_map].
  unfold chat_extract_response.
  cbn [pj_get rp_model rp_finish_reason rp_input_tokens rp_output_tokens rp_total_tokens
    rp_cache_read_input_tokens rp_response_id rp_response_body mbind option_bind].
  rewrite Hch. unfold get_str. rewrite !Hg, !get_obj.
  split; [by destruct (ca_model a)|].
  split; [by destruct (ca_finish_reason a)|].
  cbn [String.eqb Ascii.eqb Bool.eqb].
  assert (Htok : (chat_usage (ca_tokens a) ▷ chat_input_tokens) = i ∧
    (chat_usage (ca_tokens a) ▷ chat_output_tokens) = o ∧
    (chat_usage (ca_tokens a) ▷ chat_total_tokens) = tot ∧
    (chat_usage (ca_tokens a) ▷ chat_cache_read)
      = (if bool_decide (i = None ∧ o = None ∧ tot = None) then None else cr)).
  { rewrite Et in *. destruct (chat_usage (i, o, tot, cr)) as [u|] eqn:Eu.
    - cbn [mbind option_bind]. injection Hu as -> -> -> ->. do 3 (split; [done|]).
      rewrite bool_decide_false; [done|]. intros (-> & -> & ->). done.
    - cbn in Hu. injection Hu as -> -> ->. by rewrite bool_decide_true. }
  destruct Htok as (-> & -> & -> & ->). do 4 (split; [done|]). split; [done|]. split; [done|].
  unfold chat_extract_assistant_text_value, get_str. rewrite Hch. cbn [mbind option_bind].
  rewrite get_obj. cbn [last_get String.eqb Ascii.eqb Bool.eqb mbind option_bind].
  rewrite get_message_field. cbn [String.eqb Ascii.eqb Bool.eqb].
  unfold get_str in Hc. rewrite <- Hc. by destruct (ca_content a).
Qed.
End Chat.

(** ** A concrete stream: content cut in two, a tool call in three fragments *)

Definition sample_delta (fields : list (string * Value)) : SseEventData :=
  sample_chunk (obj [("id", Str (B "c1")); ("choices", Array [obj [("delta", obj fields)]])]%string).
Definition sample_fragment (fields : list (string * Value)) : Value :=
  obj (("index", of_u64 0)%string :: fields).

Definition sample_chat_stream : list SseEventData :=
  [ sample_delta [("content", Str (B "He"))]%string;
    sample_delta [("content", Str (B "llo"));
      ("tool_calls", Array [sample_fragment [("id", Str (B "call_1"));
                              ("function", obj [("name", Str (B "f")); ("arguments", Str (B "{"))])]])]%string;
    sample_delta [("tool_calls", Array [sample_fragment [("function", obj [("arguments", Str (B "}"))])]])]%string;
    sample_chunk (obj [("choices", Array [obj [("finish_reason", Str (B "tool_calls"))]]);
                       ("usage", obj [("prompt_tokens", of_u64 7); ("completion_tokens", of_u64 3)])]%string) ].

Example sample_stream_arguments :
  assembled (fragments (omap chat_data sample_chat_stream)) 0 = Some (B "call_1", B "f", B "{}").
Proof. vm_compute. reflexivity. Qed.

Lemma chat_sse_reads_back_witness :
  let '(info, cache) := chat_extract_sse sample_chat_stream in
  let again := chat_extract_response sample_response cache in
  rp_finish_reason again = Some "tool_calls"%string ∧ rp_input_tokens again = Some 7.
Proof.
  assert (Hs : match pj_get (chat_extract_sse sample_chat_stream).2 with Some _ => true | None => false end
    = true) by (vm_compute; reflexivity).
  destruct (pj_get (chat_extract_sse sample_chat_stream).2) as [v|] eqn:Hv; [|discriminate Hs].
  pose proof (chat_sse_reads_back sample_chat_stream sample_response v) as H.
  assert (Hf : rp_finish_reason (chat_extract_sse sample_chat_stream).1 = Some "tool_calls"%string)
    by (vm_compute; reflexivity).
  assert (Hi : rp_input_tokens (chat_extract_sse sample_chat_stream).1 = Some 7) by (vm_compute; reflexivity).
  destruct (chat_extract_sse sample_chat_stream) as [info cache].
  destruct (H Hv) as (_ & Ef & Ei & _). cbn [fst] in *. cbv zeta. by rewrite Ef, Ei.
Defined.
