(* ===== verification/Responses.v ===== *)
(** * OpenAI Responses (h-llm/src/wire_apis/openai/responses.rs)

    The wire API of [POST /v1/responses]: detection, extraction from a response
    body, the grafting of streamed items into the terminal event's body, and the
    readers of the flat item lists the agent profiles use. *)

From Stdlib Require Import Strings.Byte Strings.String ZArith Lia.
From stdpp Require Import base gmap sets list strings.
From S2P Require Import Prelude.
From S2P Require Import Net.
From S2P Require Import Text.
From S2P Require Import Events.
From S2P Require Import Json.
From S2P Require Import JsonSample.
From S2P Require Import Wire.
From S2P Require Import Estimator.
From S2P Require Import Readers.

Open Scope Z_scope.

Definition OPENAI_RESPONSES : string := "openai-responses".

Section Responses.
Context `{JT : JsonText}.

Definition responses_classify_route (req : HttpRequestData) : RouteVerdict :=
  if negb (is_post req) then Reject
  else if is_anthropic_request req then Reject
  else if ends_with (B "/v1/responses") (route_path req) && has_bearer_auth req then Accept
  else Undecided.

Definition responses_matches_shape (req : HttpRequestData) (req_body : ParsedJson) : bool :=
  match pj_get req_body with
  | None => false
  | Some b =>
      bool_decide (is_Some (get_str "model" b)) && bool_decide (is_Some (get "input" b))
      && bool_decide (get "messages" b = None)
  end.

Definition responses_extract_request (req : HttpRequestData) (req_body : ParsedJson) : RequestInfo :=
  body_request_info req_body.

Definition responses_cache_read (u : Value) : option Z :=
  get "input_tokens_details" u ▷ get_u32 "cached_tokens".

Definition responses_extract_response (resp : HttpResponseData) (resp_body : ParsedJson)
    : ResponseInfo :=
  let parsed := pj_get resp_body in
  let usage := parsed ▷ get "usage" in
  mkRespInfo (str <$> (parsed ▷ get_str "model")) (str <$> (parsed ▷ get_str "status"))
    (usage ▷ get_u32 "input_tokens") (usage ▷ get_u32 "output_tokens")
    (usage ▷ get_u32 "total_tokens") (usage ▷ responses_cache_read) None
    (from_utf8 (Events.resp_body resp)) (parsed ▷ get_str "id").

(** ** Streams *)

Record RespAcc : Type := mkRespAcc {
  ra_model : option text;
  ra_finish_reason : option text;
  ra_input_tokens : option Z;
  ra_output_tokens : option Z;
  ra_total_tokens : option Z;
  ra_cache_read : option Z;
  ra_response_value : option Value;
  ra_response_id : option text;
  ra_output_items : list Value;
}.

Definition resp_acc_new : RespAcc := mkRespAcc None None None None None None None None [].

Definition event_is (ty : string) (e : SseEventData) : bool := bool_decide (sse_event_type e = B ty).

(** The accumulated items stand in for an [output] that is missing or empty. *)
Definition graft (items : list Value) (response : Value) : Value :=
  let needs_graft :=
    match get_arr "output" response with Some a => bool_decide (a = []) | None => true end in
  if needs_graft && negb (bool_decide (items = [])) then insert_key "output" (Array items) response
  else response.

Definition on_created (a : RespAcc) (response : Value) : RespAcc :=
  mkRespAcc (or_else (ra_model a) (get_str "model" response)) (ra_finish_reason a)
    (ra_input_tokens a) (ra_output_tokens a) (ra_total_tokens a) (ra_cache_read a)
    (ra_response_value a) (or_else (ra_response_id a) (get_str "id" response)) (ra_output_items a).

Definition on_item_done (a : RespAcc) (item : Value) : RespAcc :=
  mkRespAcc (ra_model a) (ra_finish_reason a) (ra_input_tokens a) (ra_output_tokens a)
    (ra_total_tokens a) (ra_cache_read a) (ra_response_value a) (ra_response_id a)
    (ra_output_items a ++ [item]).

Definition on_completed (a : RespAcc) (response : Value) : RespAcc :=
  let usage := get "usage" response in
  mkRespAcc (or_else (get_str "model" response) (ra_model a))
    (or_else (get_str "status" response) (ra_finish_reason a))
    (or_else (usage ▷ get_u32 "input_tokens") (ra_input_tokens a))
    (or_else (usage ▷ get_u32 "output_tokens") (ra_output_tokens a))
    (or_else (usage ▷ get_u32 "total_tokens") (ra_total_tokens a))
    (or_else (usage ▷ responses_cache_read) (ra_cache_read a))
    (Some (graft (ra_output_items a) response))
    (or_else (get_str "id" response) (ra_response_id a)) (ra_output_items a).

(** What an event of a type carries under a key. *)
Definition event_field (ty key : string) (e : SseEventData) : option Value :=
  if event_is ty e then from_slice (sse_data e) ▷ get key else None.

Definition resp_event (a : RespAcc) (e : SseEventData) : RespAcc :=
  if event_is "response.created" e then
    match from_slice (sse_data e) ▷ get "response" with Some r => on_created a r | None => a end
  else if event_is "response.output_item.done" e then
    match from_slice (sse_data e) ▷ get "item" with Some i => on_item_done a i | None => a end
  else if event_is "response.completed" e then
    match from_slice (sse_data e) ▷ get "response" with Some r => on_completed a r | None => a end
  else a.

Definition resp_accumulate (events : list SseEventData) : RespAcc := foldl resp_event resp_acc_new events.

Definition responses_extract_sse (events : list SseEventData) : ResponseInfo * ParsedJson :=
  let a := resp_accumulate events in
  (mkRespInfo (str <$> ra_model a) (str <$> ra_finish_reason a) (ra_input_tokens a)
     (ra_output_tokens a) (ra_total_tokens a) (ra_cache_read a) None
     (to_string <$> ra_response_value a) (ra_response_id a),
   Eager (ra_response_value a)).

Definition responses_is_terminal : string → bool :=
  one_of ["completed"; "incomplete"; "failed"; "cancelled"]%string.
Definition responses_is_tool_use (finish_reason : string) : bool := false.

Definition OpenAiResponsesWireApi : WireApi :=
  mkWireApi OPENAI_RESPONSES responses_classify_route responses_matches_shape
    responses_extract_request responses_extract_response responses_extract_sse
    responses_is_terminal responses_is_tool_use.

(** ** Readers of items *)

Definition is_message (it : Value) : bool := str_is "type" "message" it.
Definition is_role (role : string) (it : Value) : bool := str_is "role" role it.
Definition is_user_message (it : Value) : bool := is_message it && is_role "user" it.
Definition is_fco (it : Value) : bool := str_is "type" "function_call_output" it.

(** A message has been seen, and no item calls a tool. *)
Fixpoint terminal_scan (has_message : bool) (output : list Value) : bool :=
  match output with
  | [] => has_message
  | item :: output' =>
      match get_str "type" item with
      | Some t =>
          if bool_decide (t = B "message") then terminal_scan true output'
          else if bool_decide (t = B "reasoning") then terminal_scan has_message output'
          else if ends_with (B "_call") t then false
          else terminal_scan has_message output'
      | None => terminal_scan has_message output'
      end
  end.
Definition body_has_terminal_message_only_value (resp : Value) : bool :=
  match get_arr "output" resp with Some output => terminal_scan false output | None => false end.

Definition responses_tool_names (req : Value) : option (list text) := tools_with (get_str "name") req.

Definition message_text (item : Value) : option text :=
  match get "content" item with
  | Some (Str s) => non_blank s
  | Some (Array blocks) => join_some (block_texts ["text"; "input_text"; "output_text"]%string blocks)
  | _ => None
  end.

Definition responses_first_system_text (req : Value) : option text :=
  match get_str "instructions" req ▷ non_blank with
  | Some s => Some s
  | None =>
      get_arr "input" req ▷ find_map (λ it,
        if is_message it && (is_role "system" it || is_role "developer" it) then message_text it else None)
  end.

Definition responses_first_user_text (items : list Value) : option text :=
  List.find is_user_message items ▷ message_text.

(** The first call's id before the first text; the scan stops once it has both. *)
Fixpoint scan_from (tool_id txt : option text) (items : list Value) : option AssistantSig :=
  match items with
  | [] => match tool_id with Some id => Some (ToolId id) | None => SigText <$> txt end
  | it :: items' =>
      let tool_id := or_else tool_id
        (if str_is "type" "function_call" it then get_str "call_id" it else None) in
      let txt := or_else txt
        (if is_message it && is_role "assistant" it then message_text it else None) in
      match tool_id, txt with
      | Some id, Some _ => Some (ToolId id)
      | _, _ => scan_from tool_id txt items'
      end
  end.
Definition scan_generation_for_sig : list Value → option AssistantSig := scan_from None None.

(** [while i < items.len() && is_user_message(&items[i]) { i += 1 }]. *)
Fixpoint user_run (items : list Value) : nat :=
  match items with it :: items' => if is_user_message it then S (user_run items') else 0%nat | [] => 0%nat end.

(** The first generation: from the end of the first run of user messages to the
    next user message, or to a tool's output before it. *)
Definition first_generation (items : list Value) : list Value :=
  let start := match position is_user_message items with
               | None => 0%nat
               | Some idx => (idx + user_run (drop idx items))%nat
               end in
  let turn_end := match position is_user_message (drop start items) with
                  | Some i => (start + i)%nat
                  | None => length items
                  end in
  let generation_end := match position is_fco (take (turn_end - start) (drop start items)) with
                        | Some i => (start + i)%nat
                        | None => turn_end
                        end in
  take (generation_end - start) (drop start items).

Definition first_assistant_sig_from_input (items : list Value) : option AssistantSig :=
  scan_generation_for_sig (first_generation items).

Definition responses_first_assistant_sig_from_response_value (resp : Value) : option AssistantSig :=
  get_arr "output" resp ▷ scan_generation_for_sig.

Definition responses_extract_user_input (req : Value) : option text :=
  match get "input" req with
  | Some (Array items) =>
      find_map (λ it, if is_user_message it then message_text it else None) (rev items)
  | Some (Str s) => non_blank s
  | _ => None
  end.

Definition responses_is_user_turn_start (req : Value) : option bool :=
  match get "input" req with
  | Some (Array items) =>
      last items ▷ λ it, Some (is_user_message it && bool_decide (is_Some (message_text it)))
  | Some (Str s) => Some (bool_decide (is_Some (non_blank s)))
  | _ => None
  end.

Definition responses_extract_assistant_text_value (resp : Value) : option text :=
  get_arr "output" resp ▷ find_map (λ it, if is_message it then message_text it else None).

(** ** Token estimation *)

Definition responses_usage_present (body : Value) : bool :=
  match get "usage" body with
  | None => false
  | Some u => is_object u && (positive_u64 "input_tokens" u || positive_u64 "output_tokens" u)
  end.

Definition responses_collected_response_text (body : Value) : text :=
  match get "output" body with Some out => collect_responses_output_text out | None => [] end.

Section Estimate.
Context `{TE : TokenEstimator}.

Definition responses_estimate_item (total : Z) (it : Value) : Z :=
  let total := add_opt total (get_str "role" it) in
  let total :=
    match get_arr "content" it with
    | Some content => foldl (λ t c, add_opt t (get_str "text" c)) total content
    | None => add_opt total (get_str "content" it)
    end in
  let total := add_opt total (get_str "output" it) in
  if str_is "type" "function_call" it then add_json total it else total.

Definition responses_estimate_input_tokens (req : Value) : Z :=
  let total := add_opt 0 (get_str "instructions" req) in
  let total := foldl responses_estimate_item total (default [] (get_arr "input" req)) in
  let total := foldl add_json total (default [] (get_arr "tools" req)) in
  match get "tool_choice" req with Some tc => add_json total tc | None => total end.

Definition responses_estimate_output_tokens (resp : Value) : Z :=
  count_text (responses_collected_response_text resp).
End Estimate.

(** ** Streams and complete bodies *)

(** The response object of a terminal event. *)
Definition completion (e : SseEventData) : option Value := event_field "response.completed" "response" e.

(** The items done before it, and the identifiers its prelude announced. *)
Definition items_done (events : list SseEventData) : list Value :=
  omap (event_field "response.output_item.done" "item") events.
Definition announced (k : string) (events : list SseEventData) : option text :=
  head (omap (λ e, event_field "response.created" "response" e ▷ get_str k) events).

Lemma event_is_excl (t1 t2 : string) (e : SseEventData) :
  t1 ≠ t2 → event_is t1 e = true → event_is t2 e = false.
Proof.
  intros Hne H%bool_decide_eq_true. apply bool_decide_eq_false. intros E. apply Hne.
  rewrite <- (str_B t1), <- (str_B t2). congruence.
Qed.

(** An event's effect, by what it carries. *)
Lemma resp_event_spec (a : RespAcc) (e : SseEventData) :
  resp_event a e
  = match event_field "response.created" "response" e, event_field "response.output_item.done" "item" e,
          completion e with
    | Some r, _, _ => on_created a r
    | None, Some i, _ => on_item_done a i
    | None, None, Some r => on_completed a r
    | None, None, None => a
    end.
Proof.
  unfold resp_event, completion, event_field.
  destruct (event_is "response.created" e) eqn:E1.
  - rewrite !(event_is_excl "response.created" _ e) by done. by destruct (_ ▷ _).
  - destruct (event_is "response.output_item.done" e) eqn:E2.
    + rewrite (event_is_excl "response.output_item.done" "response.completed" e) by done.
      by destruct (_ ▷ _).
    + by destruct (event_is "response.completed" e).
Qed.

Lemma event_field_excl (t1 t2 k1 k2 : string) (e : SseEventData) (v : Value) :
  t1 ≠ t2 → event_field t1 k1 e = Some v → event_field t2 k2 e = None.
Proof.
  unfold event_field. intros Hne. destruct (event_is t1 e) eqn:E; [|done].
  by rewrite (event_is_excl t1 t2).
Qed.

(** While no terminal event arrives, only identifiers and items accumulate. *)
Lemma resp_fold_open (events : list SseEventData) (a : RespAcc) :
  Forall (λ e, completion e = None) events →
  foldl resp_event a events
  = mkRespAcc (or_else (ra_model a) (announced "model" events)) (ra_finish_reason a)
      (ra_input_tokens a) (ra_output_tokens a) (ra_total_tokens a) (ra_cache_read a)
      (ra_response_value a) (or_else (ra_response_id a) (announced "id" events))
      (ra_output_items a ++ items_done events).
Proof.
  intros H; revert a; induction H as [|e events He _ IH]; intros a; cbn [foldl].
  { destruct a as [m ? ? ? ? ? ? i ?]; cbn. by rewrite app_nil_r; destruct m, i. }
  rewrite IH, resp_event_spec, He. unfold announced, items_done. cbn [omap list_omap].
  destruct (event_field "response.created" "response" e) as [r|] eqn:E1.
  - rewrite (event_field_excl "response.created" "response.output_item.done" "response" "item" e r)
      by (done || exact E1).
    cbn [on_created mbind option_bind ra_model ra_finish_reason ra_input_tokens ra_output_tokens
      ra_total_tokens ra_cache_read ra_response_value ra_response_id ra_output_items].
    by destruct (ra_model a), (ra_response_id a), (get_str "model" r), (get_str "id" r).
  - cbn [mbind option_bind].
    destruct (event_field "response.output_item.done" "item" e) as [i|]; [|done].
    cbn. by rewrite <- app_assoc.
Qed.

Lemma get_graft (k : string) (items : list Value) (response : Value) :
  k ≠ "output"%string → get k (graft items response) = get k response.
Proof.
  intros Hk. unfold graft. destruct (_ && _); [|done].
  destruct response; try done. rewrite get_insert_key by done.
  by destruct (String.eqb_spec k "output").
Qed.

(** The terminal event of a stream is what is kept of it: the body is its
    response object, with the items streamed before it where it has none, and
    reading that body as a complete response gives the stream's finish reason,
    counts, model and id, the last two falling back on what the stream announced. *)
Theorem responses_sse_reads_back :
  ∀ (before after : list SseEventData) (e : SseEventData) (response : Value) (resp : HttpResponseData),
    completion e = Some response →
    Forall (λ e, completion e = None) (before ++ after) →
    let '(info, cache) := responses_extract_sse (before ++ e :: after) in
    let again := responses_extract_response resp cache in
    pj_get cache = Some (graft (items_done before) response) ∧
    rp_response_body info = Some (to_string (graft (items_done before) response)) ∧
    rp_finish_reason info = rp_finish_reason again ∧
    rp_input_tokens info = rp_input_tokens again ∧
    rp_output_tokens info = rp_output_tokens again ∧
    rp_total_tokens info = rp_total_tokens again ∧
    rp_cache_read_input_tokens info = rp_cache_read_input_tokens again ∧
    rp_response_id info = or_else (rp_response_id again) (announced "id" (before ++ after)) ∧
    rp_model info = or_else (rp_model again) (str <$> announced "model" (before ++ after)).
Proof.
  intros before after e response resp He Hopen.
  apply Forall_app in Hopen as [Hb Ha]. unfold responses_extract_sse, resp_accumulate.
  rewrite foldl_app, (resp_fold_open before) by done. cbn [foldl].
  assert (E : ∀ t k, t ≠ "response.completed"%string → event_field t k e = None).
  { intros t k Ht. by apply (event_field_excl "response.completed" t "response" k e response). }
  rewrite resp_event_spec, !E, He, (resp_fold_open after) by done.
  cbn [on_completed resp_acc_new or_else ra_model ra_finish_reason ra_input_tokens ra_output_tokens
    ra_total_tokens ra_cache_read ra_response_value ra_response_id ra_output_items app].
  unfold responses_extract_response.
  cbn [pj_get rp_model rp_finish_reason rp_input_tokens rp_output_tokens rp_total_tokens
    rp_cache_read_input_tokens rp_response_id rp_response_body mbind option_bind fmap option_fmap option_map].
  unfold get_str. rewrite !get_graft by done.
  assert (Hor : ∀ (o : option Z), or_else o None = o) by (by intros []).
  rewrite !Hor. do 2 (split; [done|]).
  assert (Hann : ∀ k, announced k (before ++ after) = or_else (announced k before) (announced k after)).
  { intros k. unfold announced. rewrite omap_app. by destruct (omap _ before). }
  rewrite !Hann. fold (get_str "status" response) (get_str "id" response) (get_str "model" response).
  split; [by destruct (get_str "status" response)|]. do 4 (split; [done|]).
  destruct (get_str "id" response), (get_str "model" response), (announced "id" before),
    (announced "model" before); done.
Qed.

(** ** The session anchor *)

Lemma scan_from_spec (items : list Value) (tool_id txt : option text) :
  scan_from tool_id txt items
  = match or_else tool_id (find_map (λ it, if str_is "type" "function_call" it then get_str "call_id" it else None) items) with
    | Some id => Some (ToolId id)
    | None => SigText <$> or_else txt (find_map (λ it, if is_message it && is_role "assistant" it then message_text it else None) items)
    end.
Proof.
  revert tool_id txt; induction items as [|it items IH]; intros tool_id txt; cbn [scan_from find_map].
  { by destruct tool_id, txt. }
  rewrite IH. destruct tool_id as [id|]; cbn [or_else].
  - by destruct txt; cbn [or_else]; [|destruct (if _ && _ then _ else _)].
  - destruct (if str_is _ _ it then _ else _) as [id|]; cbn [or_else];
      (destruct txt; cbn [or_else]; [done|]); by destruct (if _ && _ then _ else _).
Qed.

Lemma user_run_app (users rest : list Value) :
  Forall (λ it, is_user_message it = true) users →
  match rest with it :: _ => is_user_message it = false | [] => True end →
  user_run (users ++ rest) = length users.
Proof.
  intros Hu Hr. induction Hu as [|it users Hit _ IH]; cbn [app user_run length].
  - destruct rest as [|it rest]; [done|]. cbn. by rewrite Hr.
  - by rewrite Hit, IH.
Qed.

Lemma first_generation_spec (pre users output rest : list Value) :
  Forall (λ it, is_user_message it = false) pre →
  users ≠ [] → Forall (λ it, is_user_message it = true) users →
  output ≠ [] → Forall (λ it, is_user_message it = false) output →
  Forall (λ it, is_fco it = false) output →
  match rest with it :: _ => is_user_message it || is_fco it = true | [] => True end →
  first_generation (pre ++ users ++ output ++ rest) = output.
Proof.
  intros Hpre Hne Hus Hone Hou Hof Hrest. unfold first_generation.
  rewrite position_app_no by done.
  assert (H0 : position is_user_message (users ++ output ++ rest) = Some 0%nat).
  { destruct users as [|u us]; [done|]. apply Forall_cons in Hus as [Hu _]. cbn. by rewrite Hu. }
  rewrite H0. cbn [fmap option_fmap option_map]. rewrite Nat.add_0_r, drop_app_length.
  rewrite user_run_app; [|done|by destruct output; [done|inversion Hou]].
  assert (Hd : drop (length pre + length users) (pre ++ users ++ output ++ rest) = output ++ rest).
  { rewrite app_assoc. apply drop_app_exact. rewrite length_app. lia. }
  rewrite Hd. set (start := (length pre + length users)%nat).
  assert (Hl : length (pre ++ users ++ output ++ rest) = (start + length output + length rest)%nat)
    by (unfold start; rewrite !length_app; lia).
  rewrite Hl, (position_app_no is_user_message output) by done.
  destruct rest as [|it rest].
  - cbn [position fmap option_fmap option_map length]. rewrite app_nil_r.
    replace (start + length output + 0 - start)%nat with (length output) by lia.
    rewrite firstn_all, (position_none is_fco) by done.
    replace (start + length output + 0 - start)%nat with (length output) by lia. apply firstn_all.
  - destruct (is_user_message it) eqn:Eu.
    + cbn [position]. rewrite Eu. cbn [fmap option_fmap option_map].
      replace (start + (length output + 0) - start)%nat with (length output) by lia.
      rewrite take_app_length, (position_none is_fco) by done.
      replace (start + (length output + 0) - start)%nat with (length output) by lia.
      by rewrite take_app_exact.
    + cbn in Hrest.
      assert (Htake : ∀ n, (length output < n)%nat →
        position is_fco (take n (output ++ it :: rest)) = Some (length output)).
      { intros n Hn. rewrite take_app_ge by lia. rewrite position_app_no by done.
        destruct (n - length output)%nat eqn:En; [lia|]. cbn. rewrite Hrest. cbn. f_equal. lia. }
      rewrite Htake.
      * replace (start + length output - start)%nat with (length output) by lia.
        by rewrite take_app_exact.
      * cbn [position length]. rewrite Eu. destruct (position is_user_message rest); cbn; lia.
Qed.

(** A session keeps its anchor from its first response on: what the response
    to the first prompt is recognised by is what every later request, which
    replays the prompt and that output and goes on with a tool's output or a
    new prompt, is recognised by. *)
Theorem responses_sig_stable :
  ∀ (pre users output rest : list Value) (resp : Value),
    get_arr "output" resp = Some output → output ≠ [] →
    Forall (λ it, is_user_message it = false) pre →
    users ≠ [] → Forall (λ it, is_user_message it = true) users →
    Forall (λ it, is_user_message it = false) output →
    Forall (λ it, is_fco it = false) output →
    match rest with it :: _ => is_user_message it || is_fco it = true | [] => True end →
    first_assistant_sig_from_input (pre ++ users ++ output ++ rest)
    = responses_first_assistant_sig_from_response_value resp.
Proof.
  intros pre users output rest resp Ho Hne Hpre Hu0 Hus Hou Hof Hrest.
  unfold first_assistant_sig_from_input, responses_first_assistant_sig_from_response_value.
  by rewrite first_generation_spec, Ho.
Qed.

(** A turn ends with a response that has a message and calls no tool. *)
Lemma terminal_scan_spec (output : list Value) (has : bool) :
  terminal_scan has output = true ↔
  (has = true ∨ Exists (λ it, is_message it = true) output) ∧
  Forall (λ it, match get_str "type" it with Some t => ends_with (B "_call") t = false | None => True end) output.
Proof.
  revert has; induction output as [|it output IH]; intros has; cbn [terminal_scan].
  { rewrite Exists_nil. split; [by intros ->; split; [left|constructor]|by intros [[?|[]] _]]. }
  rewrite Exists_cons, Forall_cons. unfold is_message, str_is at 1.
  destruct (get_str "type" it) as [t|]; [|rewrite bool_decide_false by done; rewrite IH; naive_solver].
  destruct (bool_decide_reflect (t = B "message")) as [->|H1].
  { rewrite IH, bool_decide_true by done. naive_solver. }
  rewrite (bool_decide_false (Some t = _)) by congruence.
  destruct (bool_decide_reflect (t = B "reasoning")) as [->|H2]; [rewrite IH; naive_solver|].
  destruct (ends_with (B "_call") t); [|rewrite IH; naive_solver]. split; [done|]. naive_solver.
Qed.
End Responses.

(** ** A concrete stream: a call's item, then a terminal event without it *)

Definition sample_call : Value :=
  obj [("type", Str (B "function_call")); ("call_id", Str (B "call_1")); ("name", Str (B "f"))]%string.
Definition sample_message (role : string) (t : string) : Value :=
  obj [("type", Str (B "message")); ("role", Str (B role)); ("content", Str (B t))]%string.
Definition sample_completed : Value :=
  obj [("id", Str (B "resp_1")); ("status", Str (B "completed")); ("output", Array []);
       ("usage", obj [("input_tokens", of_u64 7); ("output_tokens", of_u64 3)])]%string.
Definition sample_before : list SseEventData :=
  [ sample_event "response.created" (obj [("response", obj [("id", Str (B "resp_1")); ("model", Str (B "gpt"))])])%string;
    sample_event "response.output_item.done" (obj [("item", sample_call)])%string ].
Definition sample_terminal : SseEventData :=
  sample_event "response.completed" (obj [("response", sample_completed)])%string.

Lemma responses_sse_reads_back_witness :
  let '(info, cache) := responses_extract_sse (sample_before ++ [sample_terminal]) in
  rp_finish_reason info = Some "completed"%string ∧ rp_input_tokens info = Some 7 ∧
  rp_model info = Some "gpt"%string ∧
  pj_get cache = Some (graft (items_done sample_before) sample_completed).
Proof.
  pose proof (responses_sse_reads_back sample_before [] sample_terminal sample_completed sample_response) as H.
  assert (Hi : let i := (responses_extract_sse (sample_before ++ [sample_terminal])).1 in
    rp_finish_reason i = Some "completed"%string ∧ rp_input_tokens i = Some 7 ∧
    rp_model i = Some "gpt"%string) by (vm_compute; done).
  destruct (responses_extract_sse (sample_before ++ [sample_terminal])) as [info cache].
  destruct Hi as (? & ? & ?). do 3 (split; [done|]).
  apply H; [vm_compute; reflexivity|]. repeat (constructor; [vm_compute; reflexivity|]). constructor.
Defined.

Lemma responses_sig_stable_witness :
  let output := [sample_message "assistant" "let me see"; sample_call] in
  first_assistant_sig_from_input
    ([sample_message "developer" "be brief"] ++ [sample_message "user" "env"; sample_message "user" "hi"] ++
     output ++ [obj [("type", Str (B "function_call_output"))]%string])
  = responses_first_assistant_sig_from_response_value (obj [("output", Array output)])%string.
Proof.
  apply responses_sig_stable; try discriminate;
    solve [vm_compute; reflexivity | repeat (constructor; [vm_compute; reflexivity|]); constructor].
Defined.
