(* ===== verification/Anthropic.v ===== *)
(** * Anthropic Messages (h-llm/src/wire_apis/anthropic.rs)

    The wire API of [POST /v1/messages]: detection, extraction from a response
    body, assembly of a stream whose blocks may interleave, and the readers of
    bodies the agent profiles use. *)

From Stdlib Require Import Strings.Byte Strings.String ZArith Lia.
From stdpp Require Import base gmap sets list strings.
From S2P Require Import Prelude.
From S2P Require Import Net.
From S2P Require Import Text.
From S2P Require Import Events.
From S2P Require Import BTree.
From S2P Require Import Json.
From S2P Require Import JsonSample.
From S2P Require Import Wire.
From S2P Require Import Estimator.
From S2P Require Import Readers.

Open Scope Z_scope.

Definition ANTHROPIC : string := "anthropic".

Section Anthropic.
Context `{JT : JsonText}.

Definition has_anthropic_api_key (req : HttpRequestData) : bool :=
  header_is req "x-api-key" (starts_with (B "sk-ant-")) || bearer_sk_ant req.

Definition has_anthropic_version (req : HttpRequestData) : bool :=
  header_is req "anthropic-version" (λ _, true).

Definition anthropic_classify_route (req : HttpRequestData) : RouteVerdict :=
  if negb (is_post req) then Reject
  else
    let path := route_path req in
    if ends_with (B "/v1/messages/count_tokens") path || ends_with (B "/v1/messages/batches") path
    then Reject
    else if ends_with (B "/v1/messages") path
            && (has_anthropic_version req || has_anthropic_api_key req) then Accept
    else Undecided.

(** [matches!(m.get("role").and_then(as_str), Some(..))]. *)
Definition strict_role (m : Value) : bool := str_is "role" "user" m || str_is "role" "assistant" m.

Definition anthropic_matches_shape (req : HttpRequestData) (req_body : ParsedJson) : bool :=
  match pj_get req_body with
  | None => false
  | Some body =>
      match get_str "model" body, get_arr "messages" body with
      | None, _ | _, None => false
      | Some _, Some messages =>
          if negb (forallb strict_role messages) then false
          else if bool_decide (is_Some (get "input" body)) then false
          else if has_anthropic_version req || has_anthropic_api_key req then true
          else bool_decide (is_Some (get "system" body))
               || bool_decide (is_Some (get "stop_sequences" body))
      end
  end.

Definition extract_from_request (req : HttpRequestData) (req_body : ParsedJson) : RequestInfo :=
  body_request_info req_body.

Definition extract_from_response (resp : HttpResponseData) (resp_body : ParsedJson) : ResponseInfo :=
  let parsed := pj_get resp_body in
  let usage := parsed ▷ get "usage" in
  mkRespInfo (str <$> (parsed ▷ get_str "model")) (str <$> (parsed ▷ get_str "stop_reason"))
    (usage ▷ get_u32 "input_tokens") (usage ▷ get_u32 "output_tokens") None
    (usage ▷ get_u32 "cache_read_input_tokens") (usage ▷ get_u32 "cache_creation_input_tokens")
    (from_utf8 (Events.resp_body resp)) (parsed ▷ get_str "id").

(** ** Streams: what the events tell of the call *)

Record AnthAcc : Type := mkAnthAcc {
  aa_model : option text;
  aa_finish_reason : option text;
  aa_input_tokens : option Z;
  aa_output_tokens : option Z;
  aa_cache_read : option Z;
  aa_cache_creation : option Z;
  aa_response_id : option text;
}.

Definition anth_acc_new : AnthAcc := mkAnthAcc None None None None None None None.

(** An event's type and its data, [Null] where that does not parse. *)
Definition typed_event : Type := (text * Value)%type.
Definition parse_event (e : SseEventData) : typed_event :=
  (sse_event_type e, default Null (from_slice (sse_data e))).
Definition ev_is (ty : string) (e : typed_event) : bool := bool_decide (e.1 = B ty).

Definition on_message_start (a : AnthAcc) (msg : Value) : AnthAcc :=
  let usage := get "usage" msg in
  mkAnthAcc (or_else (get_str "model" msg) (aa_model a)) (aa_finish_reason a)
    (or_else (usage ▷ get_u32 "input_tokens") (aa_input_tokens a)) (aa_output_tokens a)
    (or_else (usage ▷ get_u32 "cache_read_input_tokens") (aa_cache_read a))
    (or_else (usage ▷ get_u32 "cache_creation_input_tokens") (aa_cache_creation a))
    (or_else (get_str "id" msg) (aa_response_id a)).

(** An input count of zero in a delta does not replace the one known. *)
Definition positive_input (u : Value) : option Z :=
  get "input_tokens" u ▷ as_u64 ▷ λ it, if 0 <? it then Some (wrap 32 it) else None.

Definition on_message_delta (a : AnthAcc) (data : Value) : AnthAcc :=
  let usage := get "usage" data in
  mkAnthAcc (aa_model a)
    (or_else (get "delta" data ▷ get_str "stop_reason") (aa_finish_reason a))
    (or_else (usage ▷ positive_input) (aa_input_tokens a))
    (or_else (usage ▷ get_u32 "output_tokens") (aa_output_tokens a))
    (or_else (usage ▷ get_u32 "cache_read_input_tokens") (aa_cache_read a))
    (or_else (usage ▷ get_u32 "cache_creation_input_tokens") (aa_cache_creation a))
    (aa_response_id a).

Definition anth_event (a : AnthAcc) (e : typed_event) : AnthAcc :=
  if ev_is "message_start" e then
    match get "message" e.2 with Some msg => on_message_start a msg | None => a end
  else if ev_is "message_delta" e then on_message_delta a e.2
  else a.

(** ** Streams: the body they assemble *)

Record PartialBlock : Type := mkPartial { pb_block : Value; pb_text : text; pb_json : text }.

Record BodyAcc : Type := mkBodyAcc {
  ba_message : Value;
  ba_stop_reason : option text;
  ba_usage : option Value;
  ba_blocks : list (Z * PartialBlock);
}.

Definition body_acc_new : BodyAcc := mkBodyAcc Null None None [].

(** What a delta adds to the text and to the JSON of its block. *)
Definition delta_pieces (data : Value) : text * text :=
  match get "delta" data with
  | None => ([], [])
  | Some d =>
      if str_is "type" "text_delta" d then (default [] (get_str "text" d), [])
      else if str_is "type" "input_json_delta" d then ([], default [] (get_str "partial_json" d))
      else if str_is "type" "thinking_delta" d then (default [] (get_str "thinking" d), [])
      else ([], [])
  end.
Definition extend_block (p : PartialBlock) (tj : text * text) : PartialBlock :=
  mkPartial (pb_block p) (pb_text p ++ tj.1) (pb_json p ++ tj.2).

Definition block_index (data : Value) : option Z := get "index" data ▷ as_u64.

Definition body_event (b : BodyAcc) (e : typed_event) : BodyAcc :=
  let data := e.2 in
  if ev_is "message_start" e then
    match get "message" data with
    | Some msg => mkBodyAcc msg (ba_stop_reason b) (ba_usage b) (ba_blocks b)
    | None => b
    end
  else if ev_is "content_block_start" e then
    match block_index data, get "content_block" data with
    | Some idx, Some cb =>
        mkBodyAcc (ba_message b) (ba_stop_reason b) (ba_usage b)
          (bt_insert idx (mkPartial cb [] []) (ba_blocks b))
    | _, _ => b
    end
  else if ev_is "content_block_delta" e then
    match block_index data with
    | None => b
    | Some idx =>
        match bt_lookup idx (ba_blocks b) with
        | None => b
        | Some p =>
            mkBodyAcc (ba_message b) (ba_stop_reason b) (ba_usage b)
              (bt_insert idx (extend_block p (delta_pieces data)) (ba_blocks b))
        end
    end
  else if ev_is "message_delta" e then
    mkBodyAcc (ba_message b) (or_else (get "delta" data ▷ get_str "stop_reason") (ba_stop_reason b))
      (or_else (get "usage" data) (ba_usage b)) (ba_blocks b)
  else b.

Definition finalize_block (p : PartialBlock) : Value :=
  let block := pb_block p in
  if is_object block then
    if str_is "type" "text" block then insert_key "text" (Str (pb_text p)) block
    else if str_is "type" "thinking" block then insert_key "thinking" (Str (pb_text p)) block
    else if str_is "type" "tool_use" block then
      insert_key "input" (default (Str (pb_json p)) (from_slice (pb_json p))) block
    else block
  else block.

Definition build_response_body (events : list typed_event) : option Value :=
  let b := foldl body_event body_acc_new events in
  let content_blocks := map (λ e, finalize_block e.2) (ba_blocks b) in
  if is_null (ba_message b) && bool_decide (content_blocks = []) then None
  else
    let result := if is_object (ba_message b) then ba_message b else obj [] in
    Some (insert_opt "usage" (ba_usage b)
            (insert_opt "stop_reason" (Str <$> ba_stop_reason b)
              (insert_key "content" (Array content_blocks) result))).

Definition extract_from_sse (sse_events : list SseEventData) : ResponseInfo * ParsedJson :=
  let parsed := map parse_event sse_events in
  let a := foldl anth_event anth_acc_new parsed in
  let synthetic := build_response_body parsed in
  (mkRespInfo (str <$> aa_model a) (str <$> aa_finish_reason a) (aa_input_tokens a)
     (aa_output_tokens a) None (aa_cache_read a) (aa_cache_creation a)
     (to_string <$> synthetic) (aa_response_id a),
   Eager synthetic).

Definition anthropic_is_terminal : string → bool :=
  one_of ["end_turn"; "stop_sequence"; "max_tokens"; "tool_use"; "refusal";
          "model_context_window_exceeded"]%string.
Definition anthropic_is_tool_use (finish_reason : string) : bool := String.eqb finish_reason "tool_use".

Definition AnthropicWireApi : WireApi :=
  mkWireApi ANTHROPIC anthropic_classify_route anthropic_matches_shape extract_from_request
    extract_from_response extract_from_sse anthropic_is_terminal anthropic_is_tool_use.

(** ** Readers of bodies *)

Definition anthropic_tool_names (req : Value) : option (list text) := tools_with (get_str "name") req.

Definition anthropic_first_system_text (req : Value) : option text :=
  match get "system" req with
  | Some (Str s) => Some s
  | Some (Array blocks) => find_map (get_str "text") blocks
  | _ => None
  end.

Definition text_blocks (blocks : list Value) : list text := block_texts ["text"]%string blocks.

Definition anthropic_first_user_text (req : Value) : option text :=
  get_arr "messages" req ▷ List.find (str_is "role" "user") ▷ get "content" ▷ λ c,
    match c with
    | Str s => non_blank s
    | Array blocks => join_some (text_blocks blocks)
    | _ => None
    end.

(** The id of the first [tool_use] block that has one, else the texts. *)
Definition blocks_sig (blocks : list Value) : option AssistantSig :=
  match find_map (λ b, if str_is "type" "tool_use" b then get_str "id" b else None) blocks with
  | Some id => Some (ToolId id)
  | None => SigText <$> join_some (text_blocks blocks)
  end.

Definition anthropic_first_assistant_sig_from_request (req : Value) : option AssistantSig :=
  get_arr "messages" req ▷ List.find (str_is "role" "assistant") ▷ get_arr "content" ▷ blocks_sig.

Definition anthropic_first_assistant_sig_from_response_value (resp : Value) : option AssistantSig :=
  get_arr "content" resp ▷ blocks_sig.

Definition anthropic_extract_user_input (req : Value) : option text :=
  get_arr "messages" req ▷ last ▷ λ m,
    if negb (str_is "role" "user" m) then None
    else
      get "content" m ▷ (λ c,
        match c with
        | Str s => Some s
        | Array blocks => Some (join [LF] (text_blocks blocks))
        | _ => None
        end) ▷ λ raw, if bool_decide (trim raw = []) then None else Some (trim raw).

(** A block the user made: not a tool's result, and not an empty text. *)
Definition user_block (b : Value) : bool :=
  match get_str "type" b with
  | Some t =>
      if bool_decide (t = B "tool_result") then false
      else if bool_decide (t = B "text") then is_some_and (λ _, true) (get_str "text" b ▷ non_blank)
      else true
  | None => false
  end.

Definition anthropic_is_user_turn_start (req : Value) : option bool :=
  get_arr "messages" req ▷ (λ msgs, List.find (λ m, negb (str_is "role" "system" m)) (rev msgs)) ▷ λ m,
    if negb (str_is "role" "user" m) then Some false
    else
      get "content" m ▷ λ c,
        match c with
        | Str s => Some (is_some_and (λ _, true) (non_blank s))
        | Array blocks => Some (existsb user_block blocks)
        | _ => None
        end.

Definition anthropic_extract_assistant_text_value (resp : Value) : option text :=
  get_arr "content" resp ▷ λ blocks, non_blank (join [LF] (text_blocks blocks)).

(** ** Token estimation *)

Definition anthropic_usage_present (body : Value) : bool :=
  match get "usage" body with
  | None => false
  | Some u => is_object u && (positive_u64 "input_tokens" u || positive_u64 "output_tokens" u)
  end.

Definition anthropic_collected_response_text (body : Value) : text :=
  collect_anthropic_assistant_text body.

Section Estimate.
Context `{TE : TokenEstimator}.

Definition anthropic_estimate_block (total : Z) (blk : Value) : Z :=
  if str_is "type" "text" blk then add_opt total (get_str "text" blk)
  else if str_is "type" "thinking" blk then add_opt total (get_str "thinking" blk)
  else if kind_in ["tool_use"; "tool_result"]%string blk then add_json total blk
  else total.

Definition anthropic_estimate_message (total : Z) (m : Value) : Z :=
  let total := add_opt total (get_str "role" m) in
  match get_str "content" m with
  | Some s => add_count total s
  | None => foldl anthropic_estimate_block total (default [] (get_arr "content" m))
  end.

Definition anthropic_estimate_input_tokens (req : Value) : Z :=
  let total :=
    match get_str "system" req with
    | Some s => add_count 0 s
    | None => foldl (λ t blk, add_opt t (get_str "text" blk)) 0 (default [] (get_arr "system" req))
    end in
  let total := foldl anthropic_estimate_message total (default [] (get_arr "messages" req)) in
  let total := foldl add_json total (default [] (get_arr "tools" req)) in
  match get "tool_choice" req with Some tc => add_json total tc | None => total end.

Definition anthropic_estimate_output_tokens (resp : Value) : Z :=
  count_text (anthropic_collected_response_text resp).
End Estimate.

(** ** Blocks, however their deltas interleave *)

(** What an event says to the block of an index: its start, or a delta. *)
Definition block_event (idx : Z) (e : typed_event) : option (Value + text * text) :=
  if bool_decide (block_index e.2 = Some idx) then
    if ev_is "content_block_start" e then inl <$> get "content_block" e.2
    else if ev_is "content_block_delta" e then Some (inr (delta_pieces e.2))
    else None
  else None.
Definition block_step (o : option PartialBlock) (x : Value + text * text) : option PartialBlock :=
  match x with
  | inl cb => Some (mkPartial cb [] [])
  | inr tj => (λ p, extend_block p tj) <$> o
  end.

Lemma ev_is_excl (t1 t2 : string) (e : typed_event) : t1 ≠ t2 → ev_is t1 e = true → ev_is t2 e = false.
Proof.
  intros Hne H%bool_decide_eq_true. apply bool_decide_eq_false. intros E. apply Hne.
  rewrite <- (str_B t1), <- (str_B t2). congruence.
Qed.

Lemma body_event_ok (b : BodyAcc) (e : typed_event) : bt_ok (ba_blocks b) → bt_ok (ba_blocks (body_event b e)).
Proof.
  intros H. unfold body_event. repeat (case_match; try done); cbn [ba_blocks]; by apply bt_insert_ok.
Qed.

Lemma body_event_lookup (idx : Z) (b : BodyAcc) (e : typed_event) :
  bt_lookup idx (ba_blocks (body_event b e))
  = match block_event idx e with
    | Some x => block_step (bt_lookup idx (ba_blocks b)) x
    | None => bt_lookup idx (ba_blocks b)
    end.
Proof.
  unfold body_event, block_event.
  destruct (ev_is "message_start" e) eqn:E1.
  { rewrite !(ev_is_excl "message_start" _ e) by done. case_bool_decide; by destruct (get "message" e.2). }
  destruct (ev_is "content_block_start" e) eqn:E2.
  { destruct (block_index e.2) as [i|]; [|done].
    destruct (get "content_block" e.2) as [cb|]; cbn [ba_blocks fmap option_fmap option_map];
      [|by case_bool_decide].
    rewrite bt_lookup_insert. destruct (Z.eqb_spec idx i) as [->|]; [by rewrite bool_decide_true|].
    by rewrite bool_decide_false by congruence. }
  destruct (ev_is "content_block_delta" e) eqn:E3.
  { destruct (block_index e.2) as [i|]; [|done].
    case_bool_decide as Hi; [injection Hi as <-|]; destruct (bt_lookup i (ba_blocks b)) as [p|] eqn:Ep;
      cbn [ba_blocks]; rewrite ?bt_lookup_insert, ?Z.eqb_refl; cbn [block_step]; rewrite ?Ep; try done.
    by destruct (Z.eqb_spec idx i) as [->|]. }
  destruct (ev_is "message_delta" e); by case_bool_decide.
Qed.

Lemma body_fold_lookup (idx : Z) (events : list typed_event) (b : BodyAcc) :
  bt_lookup idx (ba_blocks (foldl body_event b events))
  = foldl block_step (bt_lookup idx (ba_blocks b)) (omap (block_event idx) events).
Proof.
  revert b; induction events as [|e events IH]; intros b; [done|]. cbn [foldl omap list_omap].
  rewrite IH, body_event_lookup. by destruct (block_event idx e).
Qed.

Lemma block_deltas (ds : list (text * text)) (p : PartialBlock) :
  foldl block_step (Some p) (map inr ds)
  = Some (mkPartial (pb_block p) (pb_text p ++ concat (map fst ds)) (pb_json p ++ concat (map snd ds))).
Proof.
  revert p; induction ds as [|d ds IH]; intros p; cbn [map foldl concat].
  { rewrite !app_nil_r. by destruct p. }
  cbn [block_step fmap option_fmap option_map]. rewrite IH. unfold extend_block. cbn.
  by rewrite <- !app_assoc.
Qed.

(** C20: each block of an interleaved stream is what its own index says: it is
    the payload of the index's last start with the pieces of text and of JSON
    that followed it end to end, deltas of other indexes change nothing, a delta
    before any start is dropped, and the blocks come out in index order. *)
Theorem anthropic_blocks_by_index :
  ∀ (events : list SseEventData) (idx : Z),
    let evs := map parse_event events in
    let blocks := ba_blocks (foldl body_event body_acc_new evs) in
    bt_ok blocks ∧
    (∀ before cb ds, omap (block_event idx) evs = before ++ inl cb :: map inr ds →
       bt_lookup idx blocks = Some (mkPartial cb (concat (map fst ds)) (concat (map snd ds)))) ∧
    (∀ ds, omap (block_event idx) evs = map inr ds → bt_lookup idx blocks = None).
Proof.
  intros events idx evs blocks. split; [|split].
  - unfold blocks. assert (H : bt_ok (ba_blocks body_acc_new)) by constructor.
    revert H; generalize body_acc_new; induction evs as [|e l IH]; intros b H; [done|].
    by apply IH, body_event_ok.
  - intros before cb ds E. unfold blocks. rewrite body_fold_lookup, E, foldl_app. cbn [foldl block_step].
    by rewrite block_deltas.
  - intros ds E. unfold blocks. rewrite body_fold_lookup, E. clear E blocks. by induction ds.
Qed.

(** ** Reading the assembled body back *)

Definition message_starts (evs : list typed_event) : list Value :=
  omap (λ e, if ev_is "message_start" e then get "message" e.2 else None) evs.
Definition message_deltas (evs : list typed_event) : list Value :=
  omap (λ e, if ev_is "message_delta" e then Some e.2 else None) evs.
Definition delta_stop_reason (d : Value) : option text := get "delta" d ▷ get_str "stop_reason".

Lemma anth_fold_spec (evs : list typed_event) :
  let a := foldl anth_event anth_acc_new evs in
  aa_model a = last (omap (get_str "model") (message_starts evs)) ∧
  aa_response_id a = last (omap (get_str "id") (message_starts evs)) ∧
  aa_finish_reason a = last (omap delta_stop_reason (message_deltas evs)).
Proof.
  cbn zeta. induction evs as [|e evs IH] using rev_ind; [done|]. destruct IH as (I1 & I2 & I3).
  rewrite foldl_app. cbn [foldl]. unfold message_starts, message_deltas. rewrite !(omap_app _ evs).
  fold (message_starts evs) (message_deltas evs). cbn [omap list_omap]. unfold anth_event.
  destruct (ev_is "message_start" e) eqn:E1.
  - rewrite (ev_is_excl "message_start" "message_delta" e), app_nil_r by done.
    destruct (get "message" e.2) as [msg|]; [|by rewrite app_nil_r].
    rewrite !last_omap_snoc, <- I1, <- I2. done.
  - rewrite app_nil_r. destruct (ev_is "message_delta" e); [|by rewrite app_nil_r].
    by rewrite last_omap_snoc, <- I3.
Qed.

Lemma body_fold_spec (evs : list typed_event) :
  let b := foldl body_event body_acc_new evs in
  ba_message b = default Null (last (message_starts evs)) ∧
  ba_stop_reason b = last (omap delta_stop_reason (message_deltas evs)) ∧
  ba_usage b = last (omap (get "usage") (message_deltas evs)).
Proof.
  cbn zeta. induction evs as [|e evs IH] using rev_ind; [done|]. destruct IH as (I1 & I2 & I3).
  rewrite foldl_app. cbn [foldl]. unfold message_starts, message_deltas. rewrite !(omap_app _ evs).
  fold (message_starts evs) (message_deltas evs). cbn [omap list_omap]. unfold body_event.
  destruct (ev_is "message_start" e) eqn:E1.
  - rewrite (ev_is_excl "message_start" "message_delta" e), app_nil_r by done.
    destruct (get "message" e.2) as [msg|]; [|by rewrite app_nil_r].
    by rewrite last_snoc.
  - rewrite app_nil_r. destruct (ev_is "message_delta" e) eqn:E4.
    + rewrite !(ev_is_excl "message_delta" _ e) by done.
      rewrite !last_omap_snoc, <- I2, <- I3. done.
    + rewrite app_nil_r. repeat (case_match; try done).
Qed.

(** C21: a stream of one message leaves a body that reads back as it: the same
    model, id and finish reason (a stop reason in the message itself standing
    where no delta gave one), the blocks as its content; its usage is the last
    delta's alone, or the message's where no delta carries one. *)
Theorem anthropic_sse_reads_back :
  ∀ (events : list SseEventData) (msg : Value) (resp : HttpResponseData),
    message_starts (map parse_event events) = [msg] → is_object msg = true →
    let evs := map parse_event events in
    let blocks := ba_blocks (foldl body_event body_acc_new evs) in
    let '(info, cache) := extract_from_sse events in
    let again := extract_from_response resp cache in
    let usage := or_else (last (omap (get "usage") (message_deltas evs))) (get "usage" msg) in
    (∃ v, pj_get cache = Some v ∧ rp_response_body info = Some (to_string v) ∧
       get "content" v = Some (Array (map (λ e, finalize_block e.2) blocks))) ∧
    rp_model again = rp_model info ∧
    rp_response_id again = rp_response_id info ∧
    rp_finish_reason again = or_else (rp_finish_reason info) (str <$> get_str "stop_reason" msg) ∧
    rp_input_tokens again = usage ▷ get_u32 "input_tokens" ∧
    rp_output_tokens again = usage ▷ get_u32 "output_tokens".
Proof.
  intros events msg resp Hm Hobj evs blocks. unfold extract_from_sse. fold evs.
  destruct (anth_fold_spec evs) as (A1 & A2 & A3). destruct (body_fold_spec evs) as (B1 & B2 & B3).
  unfold build_response_body. fold evs in Hm. rewrite Hm in A1, A2, B1. cbn in B1.
  rewrite B1. fold blocks. destruct msg as [| | | | |m] eqn:Emsg; try done. rewrite <- Emsg in *.
  replace (is_null msg) with false by (by rewrite Emsg). cbn [andb]. rewrite Hobj.
  set (v := insert_opt "usage" _ _).
  assert (Hg : ∀ k, get k v
    = if String.eqb k "usage" then or_else (last (omap (get "usage") (message_deltas evs))) (get "usage" msg)
      else if String.eqb k "stop_reason" then
        or_else (Str <$> last (omap delta_stop_reason (message_deltas evs))) (get "stop_reason" msg)
      else if String.eqb k "content" then Some (Array (map (λ e, finalize_block e.2) blocks))
      else get k msg).
  { intros k. unfold v. rewrite !get_insert_opt, get_insert_key, B2, B3
      by (by rewrite ?is_object_insert_opt, ?is_object_insert_key).
    destruct (String.eqb_spec k "usage") as [->|]; [done|].
    by destruct (String.eqb_spec k "stop_reason") as [->|]. }
  split.
  { exists v. rewrite Hg. done. }
  unfold extract_from_response. cbn [pj_get rp_model rp_finish_reason rp_input_tokens rp_output_tokens
    rp_response_id mbind option_bind].
  unfold get_str. rewrite !Hg. cbn [String.eqb Ascii.eqb Bool.eqb]. fold (get_str "model" msg) (get_str "id" msg).
  rewrite A1, A2, A3. cbn [omap list_omap].
  split; [by destruct (get_str "model" msg)|]. split; [by destruct (get_str "id" msg)|].
  split; [|done].
  by destruct (last (omap delta_stop_reason (message_deltas evs))).
Qed.
End Anthropic.

(** ** A concrete stream: two tool calls, their deltas interleaved, one without
    arguments *)

Definition sample_msg : Value :=
  obj [("id", Str (B "msg_1")); ("model", Str (B "claude"));
       ("usage", obj [("input_tokens", of_u64 7)])]%string.
Definition sample_block_start (i : Z) (id : string) : SseEventData :=
  sample_event "content_block_start"
    (obj [("index", of_u64 i);
          ("content_block", obj [("type", Str (B "tool_use")); ("id", Str (B id)); ("input", obj [])])])%string.
Definition sample_block_delta (i : Z) (json : string) : SseEventData :=
  sample_event "content_block_delta"
    (obj [("index", of_u64 i);
          ("delta", obj [("type", Str (B "input_json_delta")); ("partial_json", Str (B json))])])%string.

Definition sample_anthropic_stream : list SseEventData :=
  [ sample_event "message_start" (obj [("message", sample_msg)])%string;
    sample_block_start 0 "toolu_a"; sample_block_start 1 "toolu_b"; sample_block_start 2 "toolu_c";
    sample_block_delta 1 "b1"; sample_block_delta 0 "a1"; sample_block_delta 1 "b2";
    sample_event "message_delta"
      (obj [("delta", obj [("stop_reason", Str (B "tool_use"))]);
            ("usage", obj [("output_tokens", of_u64 3)])])%string ].

Lemma anthropic_blocks_by_index_witness :
  (λ p, (pb_text p, pb_json p)) <$>
    bt_lookup 1 (ba_blocks (foldl body_event body_acc_new (map parse_event sample_anthropic_stream)))
  = Some ([], B "b1b2").
Proof.
  destruct (anthropic_blocks_by_index sample_anthropic_stream 1) as (_ & H & _).
  erewrite (H [] _ [([], B "b1"); ([], B "b2")]) by (vm_compute; reflexivity). reflexivity.
Defined.

Lemma anthropic_sse_reads_back_witness :
  let '(info, cache) := extract_from_sse sample_anthropic_stream in
  let again := extract_from_response sample_response cache in
  rp_model again = rp_model info ∧ rp_finish_reason again = Some "tool_use"%string.
Proof.
  pose proof (anthropic_sse_reads_back sample_anthropic_stream sample_msg sample_response) as H.
  assert (Hi : rp_finish_reason (extract_from_sse sample_anthropic_stream).1 = Some "tool_use"%string)
    by (vm_compute; reflexivity).
  cbv zeta in *. destruct (extract_from_sse sample_anthropic_stream) as [info cache]. cbn [fst] in Hi.
  destruct H as (_ & Hm & _ & Hf & _); [vm_compute; reflexivity|vm_compute; reflexivity|].
  split; [exact Hm|]. by rewrite Hf, Hi.
Defined.

(** What the stored body of that stream does not say: the input count that only
    the message's own usage carried, and that the third call's input was an
    object. *)
Example stored_body_differs :
  rp_input_tokens (extract_from_sse sample_anthropic_stream).1 = Some 7 ∧
  rp_input_tokens (extract_from_response sample_response (extract_from_sse sample_anthropic_stream).2) = None ∧
  (pj_get (extract_from_sse sample_anthropic_stream).2 ▷ get_arr "content" ▷ (λ l, l !! 2%nat) ▷ get_str "input")
  = Some [].
Proof. vm_compute. done. Qed.
