(* ===== verification/Gemini.v ===== *)
(** * Gemini AI Studio (h-llm/src/wire_apis/gemini_aistudio.rs)

    The wire API of [POST /v1beta/models/{model}:generateContent] and
    [:streamGenerateContent]: detection by path, extraction from a response body,
    assembly of a stream of chunks per candidate, and the readers of bodies the
    agent profiles use. *)

From Stdlib Require Import Strings.Byte Strings.String ZArith Lia.
From stdpp Require Import base gmap sets list strings.
From S2P Require Import Prelude.
From S2P Require Import Net.
From S2P Require Import Text.
From S2P Require Import Events.
From S2P Require Import BTree.
From S2P Require Import Json.
From S2P Require Import JsonSample.
From S2P Require Import Wire.
From S2P Require Import Estimator.
From S2P Require Import Readers.

Open Scope Z_scope.

Definition GEMINI_AISTUDIO : string := "gemini-aistudio".
Definition SYNTHETIC_TOOL_USE : string := "TOOL_USE".

(** The model and the action of a path's last segment. *)
Definition parse_path_model_action (uri : text) : option text * text :=
  let last_seg := after_last x2f (until x3f uri) in
  let m := until x3a last_seg in
  let action :=
    match after_first x3a last_seg with
    | Some a =>
        if bool_decide (a = B "generateContent") || bool_decide (a = B "streamGenerateContent")
        then a else []
    | None => []
    end in
  (if bool_decide (m = []) then None else Some m, action).

Section Gemini.
Context `{JT : JsonText}.

Definition gemini_classify_route (req : HttpRequestData) : RouteVerdict :=
  if negb (is_post req) then Reject
  else
    let path := route_path req in
    if contains (B "/v1beta/models/") path
       && (ends_with (B ":generateContent") path || ends_with (B ":streamGenerateContent") path)
    then Accept
    else Undecided.

Definition has_key (k : string) (v : Value) : bool := bool_decide (is_Some (get k v)).

Definition gemini_matches_shape (req : HttpRequestData) (req_body : ParsedJson) : bool :=
  match pj_get req_body with
  | None => false
  | Some body =>
      if has_key "messages" body || has_key "input" body || has_key "request" body then false
      else is_some_and (λ a, negb (length a =? 0)%nat) (get_arr "contents" body)
  end.

Definition gemini_extract_request (req : HttpRequestData) (req_body : ParsedJson) : RequestInfo :=
  let '(m, action) := parse_path_model_action (req_uri req) in
  mkReqInfo (str (default (B "unknown") m)) (bool_decide (action = B "streamGenerateContent")).

Definition synthesize_finish_reason (raw : option text) (has_function_call : bool) : option text :=
  match raw with
  | Some s => if bool_decide (s = B "STOP") && has_function_call then Some (B SYNTHETIC_TOOL_USE) else raw
  | None => None
  end.

Definition extract_usage (usage : option Value) : option Z * option Z * option Z * option Z :=
  match usage with
  | None => (None, None, None, None)
  | Some u => (get_u32 "promptTokenCount" u, get_u32 "candidatesTokenCount" u,
               get_u32 "totalTokenCount" u, get_u32 "cachedContentTokenCount" u)
  end.

(** What both kinds of response read off a body. *)
Definition model_version (v : Value) : option text := or_else (get "modelVersion" v) (get "model" v) ▷ as_str.
Definition first_candidate (v : Value) : option Value := get_arr "candidates" v ▷ head.
Definition candidate_parts (c : Value) : option (list Value) := get "content" c ▷ get_arr "parts".
Definition has_function_call (c : Value) : bool :=
  is_some_and (existsb (has_key "functionCall")) (candidate_parts c).

Definition body_response_info (parsed : option Value) (body_str : option text) : ResponseInfo :=
  let '(i, o, tot, cr) := extract_usage (parsed ▷ get "usageMetadata") in
  let c := parsed ▷ first_candidate in
  mkRespInfo (str <$> (parsed ▷ model_version))
    (str <$> synthesize_finish_reason (c ▷ get_str "finishReason") (is_some_and has_function_call c))
    i o tot cr None body_str (parsed ▷ get_str "responseId").

Definition gemini_extract_response (resp : HttpResponseData) (resp_body : ParsedJson) : ResponseInfo :=
  body_response_info (pj_get resp_body) (from_utf8 (Events.resp_body resp)).

(** ** Streams *)

Record PartialCandidate : Type := mkCand {
  pc_role : option text;
  pc_text : text;
  pc_thought : text;
  pc_discrete_parts : list Value;
  pc_finish_reason : option text;
  pc_index : option Z;
}.

Definition cand_new : PartialCandidate := mkCand None [] [] [] None None.

Definition is_thought (p : Value) : bool := bool_decide (get "thought" p ▷ as_bool = Some true).

Definition push_discrete (e : PartialCandidate) (part : Value) : PartialCandidate :=
  mkCand (pc_role e) (pc_text e) (pc_thought e) (pc_discrete_parts e ++ [part]) (pc_finish_reason e)
    (pc_index e).

Definition accumulate_part (e : PartialCandidate) (part : Value) : PartialCandidate :=
  if has_key "functionCall" part || has_key "inlineData" part then push_discrete e part
  else
    match get_str "text" part with
    | Some t =>
        if is_thought part then
          mkCand (pc_role e) (pc_text e) (pc_thought e ++ t) (pc_discrete_parts e) (pc_finish_reason e)
            (pc_index e)
        else
          mkCand (pc_role e) (pc_text e ++ t) (pc_thought e) (pc_discrete_parts e) (pc_finish_reason e)
            (pc_index e)
    | None => push_discrete e part
    end.

Definition cand_index (cand : Value) : Z := default 0 (get "index" cand ▷ as_u64).

(** One chunk's candidate, merged into the entry of its index. *)
Definition merge_cand (e : PartialCandidate) (cand : Value) : PartialCandidate :=
  let e := mkCand (or_else (get "content" cand ▷ get_str "role") (pc_role e)) (pc_text e) (pc_thought e)
             (pc_discrete_parts e) (or_else (get_str "finishReason" cand) (pc_finish_reason e))
             (Some (cand_index cand)) in
  foldl accumulate_part e (default [] (candidate_parts cand)).

Definition add_cand (m : list (Z * PartialCandidate)) (cand : Value) : list (Z * PartialCandidate) :=
  let idx := cand_index cand in
  bt_insert idx (merge_cand (default cand_new (bt_lookup idx m)) cand) m.

Record GemAcc : Type := mkGemAcc {
  ga_candidates : list (Z * PartialCandidate);
  ga_response_id : option text;
  ga_model_version : option text;
  ga_usage : option Value;
  ga_any_data : bool;
}.

Definition gem_acc_new : GemAcc := mkGemAcc [] None None None false.

Definition gem_chunk (a : GemAcc) (chunk : Value) : GemAcc :=
  if negb (is_object chunk) then a
  else
    mkGemAcc (foldl add_cand (ga_candidates a) (default [] (get_arr "candidates" chunk)))
      (or_else (get_str "responseId" chunk) (ga_response_id a))
      (or_else (model_version chunk) (ga_model_version a))
      (match get "usageMetadata" chunk with
       | Some u => if is_null u then ga_usage a else Some u
       | None => ga_usage a
       end) true.

Definition gem_parse (e : SseEventData) : Value := default Null (from_slice (sse_data e)).

Definition candidate_body_parts (p : PartialCandidate) : list Value :=
  match pc_thought p with
  | [] => []
  | t => [obj [("thought", Bool true); ("text", Str t)]%string]
  end ++
  match pc_text p with [] => [] | t => [obj [("text", Str t)]%string] end ++ pc_discrete_parts p.

Definition finalize_candidate (p : PartialCandidate) : Value :=
  let content := insert_opt "role" (Str <$> pc_role p)
                   (obj [("parts", Array (candidate_body_parts p))]%string) in
  insert_opt "finishReason" (Str <$> pc_finish_reason p)
    (insert_opt "index" (of_u64 <$> pc_index p) (obj [("content", content)]%string)).

Definition gemini_build_response_body (parsed : list Value) : option Value :=
  let a := foldl gem_chunk gem_acc_new parsed in
  if negb (ga_any_data a) && bool_decide (ga_candidates a = []) then None
  else
    let candidates := map (λ e, finalize_candidate e.2) (ga_candidates a) in
    Some (insert_opt "usageMetadata" (ga_usage a)
            (insert_opt "modelVersion" (Str <$> ga_model_version a)
              (insert_opt "responseId" (Str <$> ga_response_id a)
                (insert_key "candidates" (Array candidates) (obj []))))).

Definition gemini_extract_sse (events : list SseEventData) : ResponseInfo * ParsedJson :=
  let synthetic := gemini_build_response_body (map gem_parse events) in
  (body_response_info synthetic (to_string <$> synthetic), Eager synthetic).

Definition gemini_is_terminal : string → bool :=
  one_of ["STOP"; "MAX_TOKENS"; "SAFETY"; "RECITATION"; "LANGUAGE"; "BLOCKLIST"; "PROHIBITED_CONTENT";
          "SPII"; "MALFORMED_FUNCTION_CALL"; "IMAGE_SAFETY"; "OTHER"; SYNTHETIC_TOOL_USE]%string.
Definition gemini_is_tool_use (finish_reason : string) : bool := String.eqb finish_reason SYNTHETIC_TOOL_USE.

Definition GeminiAiStudioWireApi : WireApi :=
  mkWireApi GEMINI_AISTUDIO gemini_classify_route gemini_matches_shape gemini_extract_request
    gemini_extract_response gemini_extract_sse gemini_is_terminal gemini_is_tool_use.

(** ** Readers of bodies *)

Definition visible_piece (p : Value) : option text := if is_thought p then None else get_str "text" p.
Definition visible_text_of_parts (parts : list Value) : text := concat (omap visible_piece parts).

(** Keys in lexicographic order, whatever order the object keeps. *)
Fixpoint insert_sorted_key {A : Type} (kv : string * A) (l : list (string * A)) : list (string * A) :=
  match l with
  | [] => [kv]
  | x :: l' => match String.compare kv.1 x.1 with
               | Gt => x :: insert_sorted_key kv l'
               | _ => kv :: l
               end
  end.

Fixpoint canonical_json (v : Value) : text :=
  match v with
  | Null => B "null"
  | Bool b => if b then B "true" else B "false"
  | Number n => number_show n
  | Str s => string_to_json s
  | Array l => B "[" ++ join (B ",") (map canonical_json l) ++ B "]"
  | Object m =>
      let entries := foldr insert_sorted_key [] (map (λ kv, (kv.1, canonical_json kv.2)) m) in
      B "{" ++ join (B ",") (map (λ kv, string_to_json (B kv.1) ++ B ":" ++ kv.2) entries) ++ B "}"
  end.

(** The segment of a part, and whether it is text. *)
Definition part_seg (p : Value) : option (text * bool) :=
  if is_thought p then None
  else Some
    match get_str "text" p with
    | Some t => (B "t:" ++ t, true)
    | None =>
        (match get "functionCall" p with
         | Some fc =>
             match get_str "id" fc with
             | Some id => B "f:" ++ id
             | None => B "f:" ++ default [] (get_str "name" fc) ++ B "/"
                       ++ canonical_json (default Null (get "args" fc))
             end
         | None =>
             match get "inlineData" p with
             | Some d => B "d:" ++ default [] (get_str "mimeType" d) ++ B ":"
                         ++ to_radix 10 (default 0 (zlen <$> get_str "data" d))
             | None => B "?:" ++ canonical_json p
             end
         end, false)
    end.

Definition parts_sig (parts : list Value) : option (text * bool) :=
  match omap part_seg parts with
  | [] => None
  | segs => Some (join (B "|") (map fst segs), forallb snd segs)
  end.

Definition wrap_sig (s : text * bool) : AssistantSig :=
  if s.2 then SigText s.1 else ToolId (B "tu-" ++ hex16 (fnv1a_64 s.1)).

(** The texts of parts joined by line feeds, trimmed, unless blank. *)
Definition joined_text (parts : list Value) : option text :=
  let t := trim (join [LF] (omap (get_str "text") parts)) in
  if bool_decide (t = []) then None else Some t.

Definition gemini_first_user_text (req : Value) : option text :=
  get_arr "contents" req ▷ List.find (str_is "role" "user") ▷ get_arr "parts" ▷ joined_text.

Definition gemini_first_system_text (req : Value) : option text :=
  get "systemInstruction" req ▷ get_arr "parts" ▷ joined_text.

Definition gemini_first_assistant_sig_from_request (req : Value) : option AssistantSig :=
  wrap_sig <$> (get_arr "contents" req ▷ List.find (str_is "role" "model") ▷ get_arr "parts" ▷ parts_sig).

Definition gemini_first_assistant_sig_from_response_value (resp : Value) : option AssistantSig :=
  wrap_sig <$> (first_candidate resp ▷ candidate_parts ▷ parts_sig).

Definition gemini_extract_user_input (req : Value) : option text :=
  get_arr "contents" req ▷ λ contents,
    find_map (λ c,
      if negb (str_is "role" "user" c) then None
      else
        get_arr "parts" c ▷ λ parts,
          if negb (bool_decide (parts = [])) && forallb (has_key "functionResponse") parts then None
          else joined_text parts) (rev contents).

Definition user_part (p : Value) : bool :=
  if has_key "functionResponse" p then false
  else match get_str "text" p with
       | Some t => negb (bool_decide (trim t = []))
       | None => has_key "inlineData" p
       end.

Definition gemini_is_user_turn_start (req : Value) : option bool :=
  get_arr "contents" req ▷ last ▷ λ c,
    if negb (str_is "role" "user" c) then Some false
    else get_arr "parts" c ▷ λ parts, Some (existsb user_part parts).

Definition gemini_extract_assistant_text_value (resp : Value) : option text :=
  first_candidate resp ▷ candidate_parts ▷ λ parts,
    let t := trim (visible_text_of_parts parts) in if bool_decide (t = []) then None else Some t.

(** ** What a stream assembles *)

(** The candidates of all chunks, in order; those of an index, and their parts. *)
Definition streamed (parsed : list Value) : list Value :=
  parsed ≫= λ c, if is_object c then default [] (get_arr "candidates" c) else [].
Definition cands_of (idx : Z) (parsed : list Value) : list Value :=
  List.filter (λ c, cand_index c =? idx) (streamed parsed).
Definition parts_of (cands : list Value) : list Value := cands ≫= λ c, default [] (candidate_parts c).

(** Parts kept whole; the others are pieces of text, thought or not. *)
Definition discrete (p : Value) : bool :=
  has_key "functionCall" p || has_key "inlineData" p || bool_decide (get_str "text" p = None).
Definition text_piece (p : Value) : option text :=
  if discrete p || is_thought p then None else get_str "text" p.
Definition thought_piece (p : Value) : option text :=
  if negb (discrete p) && is_thought p then get_str "text" p else None.

Definition assembled_cand (idx : Z) (cs : list Value) : PartialCandidate :=
  let parts := parts_of cs in
  mkCand (last (omap (λ c, get "content" c ▷ get_str "role") cs)) (concat (omap text_piece parts))
    (concat (omap thought_piece parts)) (List.filter discrete parts) (last (omap (get_str "finishReason") cs))
    (Some idx).

Lemma accumulate_parts_spec (parts : list Value) (e : PartialCandidate) :
  foldl accumulate_part e parts
  = mkCand (pc_role e) (pc_text e ++ concat (omap text_piece parts))
      (pc_thought e ++ concat (omap thought_piece parts)) (pc_discrete_parts e ++ List.filter discrete parts)
      (pc_finish_reason e) (pc_index e).
Proof.
  revert e; induction parts as [|p parts IH]; intros e; cbn [foldl].
  { cbn. rewrite !app_nil_r. by destruct e. }
  rewrite IH. cbn [omap list_omap List.filter]. unfold text_piece at 2, thought_piece at 2.
  assert (E : accumulate_part e p = if discrete p then push_discrete e p else
    mkCand (pc_role e) (pc_text e ++ default [] (if is_thought p then None else get_str "text" p))
      (pc_thought e ++ default [] (if is_thought p then get_str "text" p else None))
      (pc_discrete_parts e) (pc_finish_reason e) (pc_index e)).
  { unfold accumulate_part, discrete. destruct (_ || has_key "inlineData" p); [done|].
    destruct (get_str "text" p); cbn; [|done]. by destruct (is_thought p); cbn; rewrite app_nil_r. }
  rewrite E. destruct (discrete p); cbn [orb negb andb]; [cbn; by rewrite <- app_assoc|].
  by destruct (is_thought p), (get_str "text" p); cbn; rewrite ?app_nil_r, <- ?app_assoc.
Qed.

Lemma add_cand_ok (cs : list Value) (m : list (Z * PartialCandidate)) : bt_ok m → bt_ok (foldl add_cand m cs).
Proof. revert m; induction cs as [|c cs IH]; intros m H; [done|]. apply IH. by apply bt_insert_ok. Qed.

Lemma add_cands_lookup (idx : Z) (cs : list Value) :
  bt_lookup idx (foldl add_cand [] cs)
  = match List.filter (λ c, cand_index c =? idx) cs with
    | [] => None
    | l => Some (assembled_cand idx l)
    end.
Proof.
  induction cs as [|c cs IH] using rev_ind; [done|].
  rewrite foldl_app, List.filter_app. cbn [foldl List.filter]. unfold add_cand at 1.
  rewrite bt_lookup_insert, (Z.eqb_sym idx).
  destruct (Z.eqb_spec (cand_index c) idx) as [<-|]; [|by rewrite app_nil_r].
  rewrite IH. set (l := List.filter _ cs).
  assert (Hm : ∀ e, merge_cand e c = mkCand (or_else (get "content" c ▷ get_str "role") (pc_role e))
      (pc_text e ++ concat (omap text_piece (default [] (candidate_parts c))))
      (pc_thought e ++ concat (omap thought_piece (default [] (candidate_parts c))))
      (pc_discrete_parts e ++ List.filter discrete (default [] (candidate_parts c)))
      (or_else (get_str "finishReason" c) (pc_finish_reason e)) (Some (cand_index c)))
    by (intros e; unfold merge_cand; by rewrite accumulate_parts_spec).
  rewrite Hm.
  assert (Ha : assembled_cand (cand_index c) (l ++ [c]) = let e := assembled_cand (cand_index c) l in
    mkCand (or_else (get "content" c ▷ get_str "role") (pc_role e))
      (pc_text e ++ concat (omap text_piece (default [] (candidate_parts c))))
      (pc_thought e ++ concat (omap thought_piece (default [] (candidate_parts c))))
      (pc_discrete_parts e ++ List.filter discrete (default [] (candidate_parts c)))
      (or_else (get_str "finishReason" c) (pc_finish_reason e)) (Some (cand_index c))).
  { unfold assembled_cand, parts_of. rewrite bind_app. cbn [mbind list_bind]. rewrite app_nil_r.
    rewrite !omap_app, !concat_app, List.filter_app. cbn [pc_role pc_text pc_thought pc_discrete_parts pc_finish_reason].
    cbn [omap list_omap]. f_equal.
    - destruct (get "content" c ▷ get_str "role"); [by rewrite last_snoc|by rewrite app_nil_r].
    - destruct (get_str "finishReason" c); [by rewrite last_snoc|by rewrite app_nil_r]. }
  destruct l as [|x l']; cbn [app] in Ha |- *; by rewrite Ha.
Qed.

Lemma gem_fold_spec (parsed : list Value) (a : GemAcc) :
  let b := foldl gem_chunk a parsed in
  ga_candidates b = foldl add_cand (ga_candidates a) (streamed parsed) ∧
  ga_any_data b = ga_any_data a || existsb is_object parsed.
Proof.
  revert a; induction parsed as [|c parsed IH]; intros a; cbn [foldl existsb]; [by rewrite orb_false_r|].
  specialize (IH (gem_chunk a c)) as [-> ->]. unfold streamed. cbn [mbind list_bind].
  rewrite foldl_app. unfold gem_chunk. destruct (is_object c); cbn; [|done].
  by rewrite orb_true_r.
Qed.

(** A stream says of each candidate what its own chunks say together: the
    last role and finish reason, its texts end to end, its thoughts end to end,
    and the parts of other kinds whole, in order; candidates come out in index
    order, and an index no chunk mentions is no candidate. *)
Theorem gemini_sse_assembles :
  ∀ (events : list SseEventData) (idx : Z),
    let parsed := map gem_parse events in
    let candidates := ga_candidates (foldl gem_chunk gem_acc_new parsed) in
    bt_ok candidates ∧
    bt_lookup idx candidates
    = match cands_of idx parsed with [] => None | cs => Some (assembled_cand idx cs) end.
Proof.
  intros events idx parsed candidates. destruct (gem_fold_spec parsed gem_acc_new) as [E _].
  unfold candidates. rewrite E. split; [by apply add_cand_ok; constructor|apply add_cands_lookup].
Qed.

Lemma visible_discrete (parts : list Value) :
  Forall (λ p, is_Some (get_str "text" p) → discrete p = false) parts →
  visible_text_of_parts (List.filter discrete parts) = [] ∧
  visible_text_of_parts parts = concat (omap text_piece parts).
Proof.
  unfold visible_text_of_parts. induction 1 as [|p parts Hp _ [IH1 IH2]]; [done|].
  cbn [List.filter omap list_omap]. unfold text_piece at 1, visible_piece at 2.
  destruct (get_str "text" p) as [t|] eqn:Et.
  - rewrite (Hp (mk_is_Some _ _ eq_refl)). cbn [orb]. destruct (is_thought p); [done|].
    cbn [concat]. by rewrite IH2.
  - replace (discrete p) with true by (unfold discrete; by rewrite Et, bool_decide_true, orb_true_r).
    cbn [orb omap list_omap]. unfold visible_piece at 1. rewrite Et. by destruct (is_thought p).
Qed.

(** Merging the pieces of a stream neither loses nor reorders what the user
    sees: the visible text of the assembled parts is that of the streamed parts,
    where no part mixes a text with a call or with data. *)
Theorem gemini_visible_text_kept :
  ∀ (cs : list Value) (idx : Z),
    Forall (λ p, is_Some (get_str "text" p) → discrete p = false) (parts_of cs) →
    visible_text_of_parts (candidate_body_parts (assembled_cand idx cs)) = visible_text_of_parts (parts_of cs).
Proof.
  intros cs idx H. destruct (visible_discrete _ H) as [H1 H2]. rewrite H2.
  unfold candidate_body_parts, assembled_cand. cbn [pc_text pc_thought pc_discrete_parts].
  unfold visible_text_of_parts in *. rewrite !omap_app, !concat_app, H1, app_nil_r.
  set (th := concat (omap thought_piece _)). set (t := concat (omap text_piece _)).
  assert (E1 : ∀ b l, visible_piece (obj [("thought", Bool b); ("text", Str l)]%string)
    = if b then None else Some l)
    by (intros [] l; unfold visible_piece, is_thought, get_str; by rewrite !get_obj).
  assert (E2 : ∀ l, visible_piece (obj [("text", Str l)]%string) = Some l)
    by (intros l; unfold visible_piece, is_thought, get_str; by rewrite !get_obj).
  destruct th, t; cbn [omap list_omap]; rewrite ?E1, ?E2; cbn; by rewrite ?app_nil_r.
Qed.
End Gemini.

(** ** A concrete stream: text, a call, more text *)

Definition sample_call_part : Value := obj [("functionCall", obj [("name", Str (B "f"))])]%string.
Definition sample_text_part (t : string) : Value := obj [("text", Str (B t))]%string.
Definition sample_cand (parts : list Value) : Value :=
  obj [("content", obj [("role", Str (B "model")); ("parts", Array parts)])]%string.

Definition sample_parts : list Value := [sample_text_part "a"; sample_call_part; sample_text_part "b"].
Definition sample_gemini_stream : list SseEventData :=
  map (λ p, sample_chunk (obj [("candidates", Array [sample_cand [p]])]%string)) sample_parts.

Lemma gemini_visible_text_kept_witness :
  let cs := map (λ p, sample_cand [p]) sample_parts in
  visible_text_of_parts (candidate_body_parts (assembled_cand 0 cs)) = B "ab".
Proof.
  cbn zeta. rewrite gemini_visible_text_kept; [vm_compute; reflexivity|].
  repeat (constructor; [intros Hp; vm_compute in Hp |- *; first [reflexivity | by destruct Hp]|]). constructor.
Defined.

(** The signature of the assembled response is not that of the parts a client
    replays as it received them: the two texts were merged before the call. *)
Example gemini_sig_not_stable :
  (pj_get (gemini_extract_sse sample_gemini_stream).2 ▷ first_candidate ▷ candidate_parts ▷ parts_sig)
  = Some (B "t:ab|f:f/null", false) ∧
  parts_sig sample_parts = Some (B "t:a|f:f/null|t:b", false).
Proof. vm_compute. done. Qed.
