(* ===== verification/WireApis.v ===== *)
(** * The built-in wire APIs (h-llm/src/wire_apis/mod.rs)

    The default registry, in registration order, the resolution of stored names,
    and when the four APIs can claim the same request. *)

From Stdlib Require Import Strings.Byte Strings.String ZArith Lia.
From stdpp Require Import base gmap sets list strings.
From S2P Require Import Prelude.
From S2P Require Import Net.
From S2P Require Import Text.
From S2P Require Import Events.
From S2P Require Import Json.
From S2P Require Import JsonSample.
From S2P Require Import Wire.
From S2P Require Import Readers.
From S2P Require Import OpenAiChat.
From S2P Require Import Responses.
From S2P Require Import Anthropic.
From S2P Require Import Gemini.

Open Scope Z_scope.

Definition by_name (name : string) : option string :=
  if one_of [ANTHROPIC; OPENAI_CHAT; OPENAI_RESPONSES; GEMINI_AISTUDIO] name then Some name else None.

Section WireApis.
Context `{JT : JsonText}.

Definition build_default_wire_api_registry : list WireApi :=
  [AnthropicWireApi; OpenAiResponsesWireApi; GeminiAiStudioWireApi; OpenAiChatWireApi].

(** ** Which APIs can claim the same request *)

Lemma ends_with_spec (p l : text) : ends_with p l = true ↔ ∃ k, l = k ++ p.
Proof.
  unfold ends_with. rewrite starts_with_spec. split; intros [k Hk].
  - exists (rev k). apply (f_equal (@rev byte)) in Hk. by rewrite rev_involutive, rev_app_distr, rev_involutive in Hk.
  - exists (rev k). by rewrite Hk, rev_app_distr.
Qed.

(** Two suffixes of a text end in the same bytes. *)
Lemma ends_with_agree (p q l : text) :
  ends_with p l = true → ends_with q l = true → ∀ i b c, rev p !! i = Some b → rev q !! i = Some c → b = c.
Proof.
  unfold ends_with. rewrite !starts_with_spec. intros [k1 E1] [k2 E2] i b c Hb Hc.
  apply (lookup_app_l_Some _ k1) in Hb. apply (lookup_app_l_Some _ k2) in Hc. congruence.
Qed.

(** The suffixes of two routes differ at a fixed distance from the end. *)
Ltac route_differs H1 H2 i :=
  pose proof (ends_with_agree _ _ _ H1 H2 i _ _ eq_refl eq_refl); discriminate.

Lemma default_accept_unique (req : HttpRequestData) (p q : WireApi) :
  p ∈ build_default_wire_api_registry → q ∈ build_default_wire_api_registry →
  accepts req p → accepts req q → p = q.
Proof.
  assert (Ha : accepts req AnthropicWireApi → ends_with (B "/v1/messages") (route_path req) = true).
  { unfold accepts; cbn [classify_route AnthropicWireApi OpenAiResponsesWireApi OpenAiChatWireApi GeminiAiStudioWireApi].
    unfold anthropic_classify_route; cbv zeta. destruct (is_post req); [|done]. cbn [negb].
    destruct (_ || ends_with (B "/v1/messages/batches") _); [done|]. by destruct (ends_with (B "/v1/messages") _). }
  assert (Hr : accepts req OpenAiResponsesWireApi → ends_with (B "/v1/responses") (route_path req) = true).
  { unfold accepts; cbn [classify_route AnthropicWireApi OpenAiResponsesWireApi OpenAiChatWireApi GeminiAiStudioWireApi].
    unfold responses_classify_route. destruct (is_post req); [|done]. cbn [negb].
    destruct (is_anthropic_request req); [done|].
    rewrite <- (andb_true_r (ends_with _ _)). intros H. destruct (_ && has_bearer_auth req) eqn:E; [|done].
    apply andb_true_iff in E as [-> _]. done. }
  assert (Hc : accepts req OpenAiChatWireApi → ends_with (B "/v1/chat/completions") (route_path req) = true).
  { unfold accepts; cbn [classify_route AnthropicWireApi OpenAiResponsesWireApi OpenAiChatWireApi GeminiAiStudioWireApi].
    unfold chat_classify_route. destruct (is_post req); [|done]. cbn [negb].
    destruct (is_anthropic_request req); [done|].
    rewrite <- (andb_true_r (ends_with _ _)). intros H. destruct (_ && has_bearer_auth req) eqn:E; [|done].
    apply andb_true_iff in E as [-> _]. done. }
  assert (Hg : accepts req GeminiAiStudioWireApi → ends_with (B "GenerateContent") (route_path req) = true ∨
    ends_with (B "generateContent") (route_path req) = true).
  { unfold accepts; cbn [classify_route AnthropicWireApi OpenAiResponsesWireApi OpenAiChatWireApi GeminiAiStudioWireApi].
    unfold gemini_classify_route; cbv zeta. destruct (is_post req); [|done]. cbn [negb].
    destruct (contains _ _); [|done]. cbn [andb]. rewrite !ends_with_spec.
    destruct (ends_with (B ":generateContent") _) eqn:E1.
    - apply ends_with_spec in E1 as [k ->]. right. exists (k ++ B ":"). by rewrite <- app_assoc.
    - destruct (ends_with (B ":streamGenerateContent") _) eqn:E2; [|done].
      apply ends_with_spec in E2 as [k ->]. left. exists (k ++ B ":stream"). by rewrite <- app_assoc. }
  unfold build_default_wire_api_registry. rewrite !elem_of_cons, !elem_of_nil.
  intros [->|[->|[->|[->|[]]]]] [->|[->|[->|[->|[]]]]] Hp Hq; try done; exfalso;
    repeat match goal with
    | H : accepts _ AnthropicWireApi |- _ => apply Ha in H
    | H : accepts _ OpenAiResponsesWireApi |- _ => apply Hr in H
    | H : accepts _ OpenAiChatWireApi |- _ => apply Hc in H
    | H : accepts _ GeminiAiStudioWireApi |- _ => apply Hg in H as [H|H]
    end; first [route_differs Hp Hq 0%nat | route_differs Hp Hq 1%nat | route_differs Hp Hq 2%nat
               | route_differs Hp Hq 3%nat | route_differs Hp Hq 4%nat].
Qed.

Definition claims (req : HttpRequestData) (body : ParsedJson) (p : WireApi) : Prop :=
  undecided req p ∧ matches_shape p req body = true.

Lemma bool_decide_some_none (o : option Value) :
  bool_decide (is_Some o) = true → bool_decide (o = None) = true → False.
Proof. rewrite !bool_decide_eq_true. intros [? ->] ?. done. Qed.

Lemma default_shapes (req : HttpRequestData) (body : ParsedJson) (p q : WireApi) :
  p ∈ build_default_wire_api_registry → q ∈ build_default_wire_api_registry →
  claims req body p → claims req body q →
  p = q ∨ (p = AnthropicWireApi ∧ q = OpenAiChatWireApi) ∨ (p = OpenAiChatWireApi ∧ q = AnthropicWireApi).
Proof.
  intros Hp Hq [_ Mp] [_ Mq].
  destruct (pj_get body) as [b|] eqn:Eb.
  2: { revert Hp Mp. unfold build_default_wire_api_registry. rewrite !elem_of_cons, elem_of_nil.
       intros [->|[->|[->|[->|[]]]]]; cbn;
         unfold anthropic_matches_shape, responses_matches_shape, gemini_matches_shape, chat_matches_shape;
         by rewrite Eb. }
  assert (Ha : anthropic_matches_shape req body = true → get "input" b = None ∧ get "messages" b ≠ None).
  { unfold anthropic_matches_shape. rewrite Eb. destruct (get_str "model" b); [|done]. unfold get_arr.
    destruct (get "messages" b); [|done]. destruct (_ ▷ _); [|done].
    destruct (negb _); [done|]. destruct (get "input" b); [done|]. done. }
  assert (Hr : responses_matches_shape req body = true → get "input" b ≠ None ∧ get "messages" b = None).
  { unfold responses_matches_shape. rewrite Eb. destruct (get "input" b), (get "messages" b);
      rewrite !andb_true_iff, !bool_decide_eq_true; intros [[_ Hi] Hm];
      first [done | by apply is_Some_None in Hi]. }
  assert (Hg : gemini_matches_shape req body = true → get "input" b = None ∧ get "messages" b = None).
  { unfold gemini_matches_shape, has_key. rewrite Eb. by destruct (get "messages" b), (get "input" b). }
  assert (Hc : chat_matches_shape req body = true → get "input" b = None ∧ get "messages" b ≠ None).
  { unfold chat_matches_shape. rewrite Eb. unfold get_arr. rewrite !andb_true_iff, !bool_decide_eq_true.
    intros [[_ Hi] Hm]. split; [done|]. by destruct (get "messages" b). }
  revert Hp Hq Mp Mq. unfold build_default_wire_api_registry. rewrite !elem_of_cons, !elem_of_nil.
  intros [->|[->|[->|[->|[]]]]] [->|[->|[->|[->|[]]]]]; cbn [matches_shape AnthropicWireApi
    OpenAiResponsesWireApi GeminiAiStudioWireApi OpenAiChatWireApi]; intros Mp Mq;
    first [by left | by right; left | by right; right | exfalso];
    repeat match goal with
    | H : anthropic_matches_shape _ _ = true |- _ => apply Ha in H as [? ?]
    | H : responses_matches_shape _ _ = true |- _ => apply Hr in H as [? ?]
    | H : gemini_matches_shape _ _ = true |- _ => apply Hg in H as [? ?]
    | H : chat_matches_shape _ _ = true |- _ => apply Hc in H as [? ?]
    end; congruence.
Qed.

(** [a] comes before [c] in a list. *)
Definition precedes {A : Type} (a c : A) (l : list A) : Prop := ∃ l1 l2 l3, l = l1 ++ a :: l2 ++ c :: l3.

Lemma first_with_exists {A : Type} (P : A → Prop) (l : list A) (x : A) :
  (∀ y, Decision (P y)) → x ∈ l → P x → ∃ y, first_with P l y.
Proof.
  intros D Hx HP. induction l as [|z l IH]; [by apply not_elem_of_nil in Hx|].
  destruct (D z) as [Hz|Hz]; [exists z; by apply first_with_cons_yes|].
  apply elem_of_cons in Hx as [->|Hx]; [done|]. destruct (IH Hx) as [y Hy].
  exists y. by apply first_with_cons_no.
Qed.

(** The first of a list with a property at most two members can share. *)
Lemma first_with_pair {A : Type} (P : A → Prop) (l : list A) (a c x : A) :
  (∀ y, Decision (P y)) → NoDup l → precedes a c l →
  (∀ y z, y ∈ l → z ∈ l → P y → P z → y = z ∨ (y = a ∧ z = c) ∨ (y = c ∧ z = a)) →
  first_with P l x ↔ x ∈ l ∧ P x ∧ (x = c → ¬ P a).
Proof.
  intros D Hnd (k1 & k2 & k3 & ->) Hpair.
  assert (Hfw : ∀ y, first_with P (k1 ++ a :: k2 ++ c :: k3) y → y = c → ¬ P a).
  { intros y (l1 & l2 & E & Hy & Hf) -> Ha. rewrite Forall_forall in Hf. apply (Hf a); [|done].
    rewrite app_comm_cons, app_assoc in E. apply list_elem_of_In.
    assert (El : l1 = k1 ++ a :: k2).
    { clear -E Hnd. rewrite app_comm_cons, app_assoc in Hnd. revert E Hnd.
      generalize (k1 ++ a :: k2) as m. intros m. revert l1. induction m as [|z m IH]; intros [|w l1] E Hnd; cbn in E; simplify_eq.
      - done.
      - exfalso. cbn in Hnd. apply NoDup_cons in Hnd as [Hn _]. set_solver.
      - exfalso. cbn in Hnd. apply NoDup_cons in Hnd as [Hn _]. set_solver.
      - f_equal. apply IH; [done|]. by apply NoDup_cons in Hnd as [_ ?]. }
    rewrite El. set_solver. }
  split.
  - intros H. destruct (first_with_elem _ _ _ H) as [Hin HP]. split_and!; [done|done|by apply Hfw].
  - intros (Hin & HP & Hc). destruct (first_with_exists P _ x D Hin HP) as [y Hy].
    destruct (first_with_elem _ _ _ Hy) as [Hyin HPy].
    destruct (Hpair y x Hyin Hin HPy HP) as [<-|[[-> ->]|[-> ->]]]; [done|by destruct (Hc eq_refl)|].
    by destruct (Hfw _ Hy eq_refl).
Qed.

Lemma default_nodup : NoDup build_default_wire_api_registry.
Proof.
  apply (NoDup_fmap_1 wa_name). change (NoDup [ANTHROPIC; OPENAI_RESPONSES; GEMINI_AISTUDIO; OPENAI_CHAT]).
  apply (bool_decide_unpack _). vm_compute. done.
Qed.

#[local] Instance accepts_dec (req : HttpRequestData) (p : WireApi) : Decision (accepts req p).
Proof. unfold accepts. apply _. Defined.
#[local] Instance claims_dec (req : HttpRequestData) (body : ParsedJson) (p : WireApi) :
  Decision (claims req body p).
Proof. unfold claims, undecided. apply _. Defined.

(** Which API a request is recorded under does not depend on the order of
    registration but for one pair: any registry of the four APIs that keeps
    Anthropic before OpenAI Chat detects every request as the default one does. *)
Theorem default_detection_order :
  ∀ (reg : list WireApi) (req : HttpRequestData) (body : ParsedJson),
    reg ≡ₚ build_default_wire_api_registry → precedes AnthropicWireApi OpenAiChatWireApi reg →
    detect reg req body = detect build_default_wire_api_registry req body.
Proof.
  intros reg req body Hperm Hprec.
  assert (Hnd : NoDup reg) by (rewrite Hperm; apply default_nodup).
  assert (Hdef : precedes AnthropicWireApi OpenAiChatWireApi build_default_wire_api_registry)
    by (by exists [], [OpenAiResponsesWireApi; GeminiAiStudioWireApi], []).
  assert (Hin : ∀ p, p ∈ reg ↔ p ∈ build_default_wire_api_registry) by (intros p; by rewrite Hperm).
  assert (Ha : ∀ p, first_with (accepts req) reg p ↔ first_with (accepts req) build_default_wire_api_registry p).
  { intros p. rewrite !(first_with_pair (accepts req) _ AnthropicWireApi OpenAiChatWireApi);
      auto using default_nodup, accepts_dec; [by rewrite Hin| |];
      intros y z Hy Hz Py Pz; left; apply (default_accept_unique req); first [done | by apply Hin]. }
  assert (Hc : ∀ p, first_with (claims req body) reg p ↔ first_with (claims req body) build_default_wire_api_registry p).
  { intros p. rewrite !(first_with_pair (claims req body) _ AnthropicWireApi OpenAiChatWireApi);
      auto using default_nodup, claims_dec; [by rewrite Hin| |];
      intros y z Hy Hz Py Pz; apply (default_shapes req body); first [done | by apply Hin]. }
  assert (Hd : ∀ p, detects reg req body p ↔ detects build_default_wire_api_registry req body p).
  { intros p. unfold detects. fold (claims req body). rewrite Ha, Hc, Hperm. done. }
  apply option_eq. intros o. rewrite (proj1 (detect_two_pass reg req body) o), Hd.
  by rewrite <- (proj1 (detect_two_pass build_default_wire_api_registry req body) o).
Qed.

(** A stored name resolves exactly when a registered API has it, to that name. *)
Lemma by_name_registered (name : string) :
  by_name name = (λ p, wa_name p) <$> find_by_name build_default_wire_api_registry name.
Proof.
  unfold by_name, one_of, find_by_name, build_default_wire_api_registry. cbn [existsb List.find wa_name
    AnthropicWireApi OpenAiResponsesWireApi GeminiAiStudioWireApi OpenAiChatWireApi].
  rewrite !(String.eqb_sym name).
  destruct (String.eqb_spec ANTHROPIC name) as [<-|]; [done|].
  destruct (String.eqb_spec OPENAI_CHAT name) as [<-|]; [done|].
  destruct (String.eqb_spec OPENAI_RESPONSES name) as [<-|]; [done|].
  by destruct (String.eqb_spec GEMINI_AISTUDIO name) as [<-|].
Qed.
End WireApis.

(** ** Concrete requests *)

Definition sample_post (uri : string) (headers : list (string * string)) (body : Value) : HttpRequestData :=
  mkReq (mkFlowKey "tap" (V4 1, 40000) (V4 2, 443)) (V4 1, 40000) (V4 2, 443) (B "POST") (B uri) 1
    (map (λ h, (B h.1, B h.2)) (("content-type", "application/json")%string :: headers)) (to_string body) 0 None.
Definition sample_detect (req : HttpRequestData) : option string :=
  (λ o, wa_name (do_wire_api o)) <$> detect build_default_wire_api_registry req (Lazy (req_body req)).

Definition sample_messages_body : Value :=
  obj [("model", Str (B "m")); ("messages", Array [obj [("role", Str (B "user"))]])]%string.

Example sample_detected :
  sample_detect (sample_post "/v1/messages?beta=true" [("anthropic-version", "2023-06-01")]%string Null)
    = Some ANTHROPIC ∧
  sample_detect (sample_post "/gw/chat" [] sample_messages_body) = Some OPENAI_CHAT ∧
  sample_detect (sample_post "/v1/responses" [("Authorization", "Bearer k")]%string Null) = Some OPENAI_RESPONSES ∧
  sample_detect (sample_post "/v1beta/models/g:generateContent" [] Null) = Some GEMINI_AISTUDIO.
Proof. vm_compute. done. Qed.

(** A count of tokens is no inference call, and Anthropic rejects it, yet a key
    in [x-api-key] alone does not keep Chat from taking its body. *)
Example count_tokens_detected :
  sample_detect (sample_post "/v1/messages/count_tokens" [("x-api-key", "sk-ant-1")]%string sample_messages_body)
    = Some OPENAI_CHAT ∧
  sample_detect (sample_post "/v1/messages/count_tokens"
    [("x-api-key", "sk-ant-1"); ("anthropic-version", "2023-06-01")]%string sample_messages_body) = None.
Proof. vm_compute. done. Qed.

Lemma default_detection_order_witness :
  let reg := [OpenAiResponsesWireApi; AnthropicWireApi; OpenAiChatWireApi; GeminiAiStudioWireApi] in
  let req := sample_post "/gw/chat" [] sample_messages_body in
  detect reg req (Lazy (req_body req)) = detect build_default_wire_api_registry req (Lazy (req_body req)).
Proof.
  cbn zeta. apply default_detection_order; [|by exists [OpenAiResponsesWireApi], [], [GeminiAiStudioWireApi]].
  unfold build_default_wire_api_registry. etransitivity; [apply perm_swap|].
  do 2 constructor. apply perm_swap.
Defined.
