(* ===== verification/Classifier.v ===== *)
(** * Agent classification (h-llm/src/agent_classifier.rs, agent_primitives.rs)

    From the facts a profile extracts of a call (its tools, markers of its
    system prompt, its place in an agent tree) to the fields persisted with it:
    whether an agent made it, which surface its tools form, and its topology. *)

From Stdlib Require Import Strings.Byte Strings.String ZArith Lia.
From stdpp Require Import base gmap sets list strings.
From S2P Require Import Prelude.
From S2P Require Import Text.
From S2P Require Import Calls.

Open Scope Z_scope.

(** ** Bit flags: [SystemPromptMarkers] *)

Definition AGENT_LOOP : Z := 1.
Definition REACT_SKELETON : Z := 2.
Definition TOOL_USE_INSTRUCTION : Z := 4.
Definition MCP_SERVER : Z := 8.

Definition intersects (m n : Z) : bool := negb (Z.land m n =? 0).
Definition flags_contain (m n : Z) : bool := Z.land m n =? n.

Record AgentPrimitives : Type := mkPrimitives {
  ap_tool_call_count : Z;
  ap_tool_names : list string;
  ap_has_system_prompt : bool;
  ap_system_prompt_markers : Z;
  ap_subagent_marker : option string;
  ap_dispatches_to_subagent : bool;
}.

Definition primitives_default : AgentPrimitives := mkPrimitives 0 [] false 0 None false.

(** ** Configuration *)

Record ClassifierConfig : Type := mkClassifierConfig {
  cc_cli_tool_allowlist : gset string;
  cc_orchestrator_tool_names : gset string;
  cc_mcp_tool_prefixes : list string;
  cc_known_tool_registry : gset string;
}.

Definition classifier_config_default : ClassifierConfig :=
  mkClassifierConfig
    (list_to_set ["bash"; "shell"; "exec"; "run_command"; "ShellExec"]%string)
    (list_to_set ["Task"; "dispatch_agent"]%string)
    ["mcp__"]%string
    (list_to_set
       ["Read"; "Write"; "Edit"; "MultiEdit"; "NotebookEdit"; "NotebookRead"; "Grep"; "Glob";
        "Bash"; "BashOutput"; "KillShell"; "KillBash"; "WebFetch"; "WebSearch";
        "TodoWrite"; "ExitPlanMode"; "SlashCommand"; "Skill"; "AskUserQuestion";
        "Task"; "Agent"; "TaskCreate"; "TaskGet"; "TaskList"; "TaskOutput"; "TaskStop"; "TaskUpdate";
        "apply_patch"; "update_plan"; "view_image"]%string).

(** The lists of a configuration file; an empty one keeps the seeds. *)
Record ClassifierConfigToml : Type := mkClassifierToml {
  ct_cli_tool_allowlist : list string;
  ct_orchestrator_tool_names : list string;
  ct_mcp_tool_prefixes : list string;
  ct_known_tool_registry : list string;
}.

Definition set_or_seed (l : list string) (seed : gset string) : gset string :=
  match l with [] => seed | _ => list_to_set l end.

Definition from_toml (t : ClassifierConfigToml) : ClassifierConfig :=
  let seeds := classifier_config_default in
  mkClassifierConfig
    (set_or_seed (ct_cli_tool_allowlist t) (cc_cli_tool_allowlist seeds))
    (set_or_seed (ct_orchestrator_tool_names t) (cc_orchestrator_tool_names seeds))
    (match ct_mcp_tool_prefixes t with [] => cc_mcp_tool_prefixes seeds | l => l end)
    (set_or_seed (ct_known_tool_registry t) (cc_known_tool_registry seeds)).

(** ** Classification *)

Record ClassifiedAgent : Type := mkClassified {
  cl_is_agent_request : bool;
  cl_tool_surface : option ToolSurface;
  cl_agent_topology : option AgentTopology;
  cl_suspicious_signals : list SuspiciousSignal;
}.

Definition is_mcp_tool (cfg : ClassifierConfig) (name : string) : bool :=
  existsb (λ p, starts_with (B p) (B name)) (cc_mcp_tool_prefixes cfg).
Definition is_cli_tool (cfg : ClassifierConfig) (name : string) : bool :=
  bool_decide (name ∈ cc_cli_tool_allowlist cfg).

(** One name, into [(has_mcp, has_cli, has_function_call)]. *)
Definition see_tool (cfg : ClassifierConfig) (s : bool * bool * bool) (name : string) : bool * bool * bool :=
  let '(mcp, cli, fc) := s in
  if is_mcp_tool cfg name then (true, cli, fc)
  else if is_cli_tool cfg name then (mcp, true, fc)
  else (mcp, cli, true).

Definition surface_of (s : bool * bool * bool) : ToolSurface :=
  let '(mcp, cli, fc) := s in
  let active := length (List.filter (λ b, b) [mcp; cli; fc]) in
  match active with
  | 0%nat => Unknown
  | 1%nat => if mcp then Mcp else if cli then Cli else FunctionCall
  | _ => Mixed
  end.

Definition classify (primitives : AgentPrimitives) (cfg : ClassifierConfig) : ClassifiedAgent :=
  let has_tool_calls := 0 <? ap_tool_call_count primitives in
  let markers := ap_system_prompt_markers primitives in
  let has_agent_markers :=
    intersects markers (Z.lor (Z.lor AGENT_LOOP REACT_SKELETON) TOOL_USE_INSTRUCTION) in
  let has_subagent := bool_decide (is_Some (ap_subagent_marker primitives)) in
  let is_agent_request := has_tool_calls || has_subagent || has_agent_markers in
  let tool_surface :=
    if negb has_tool_calls then None
    else Some (surface_of
           (foldl (see_tool cfg) (flags_contain markers MCP_SERVER, false, false)
              (ap_tool_names primitives))) in
  let agent_topology :=
    if negb is_agent_request then None
    else if has_subagent then Some SubAgent
    else if ap_dispatches_to_subagent primitives then Some Orchestrator
    else Some SingleAgent in
  mkClassified is_agent_request tool_surface agent_topology [].

(** ** The classification, by what the tools are *)

Lemma see_tools_spec (cfg : ClassifierConfig) (names : list string) (s : bool * bool * bool) :
  foldl (see_tool cfg) s names
  = (s.1.1 || existsb (is_mcp_tool cfg) names,
     s.1.2 || existsb (λ n, negb (is_mcp_tool cfg n) && is_cli_tool cfg n) names,
     s.2 || existsb (λ n, negb (is_mcp_tool cfg n) && negb (is_cli_tool cfg n)) names).
Proof.
  revert s; induction names as [|n names IH]; intros [[a b] c]; cbn [foldl existsb].
  { cbn. by rewrite !orb_false_r. }
  rewrite IH. cbn [see_tool]. destruct (is_mcp_tool cfg n), (is_cli_tool cfg n); cbn;
    by rewrite ?orb_true_r, ?orb_false_r.
Qed.

(** The surface a set of tools forms: one kind alone names it, several mix. *)
Inductive surface_rel (cfg : ClassifierConfig) (p : AgentPrimitives) : ToolSurface → Prop :=
| surface_none :
    ap_tool_names p = [] → flags_contain (ap_system_prompt_markers p) MCP_SERVER = false →
    surface_rel cfg p Unknown
| surface_mcp :
    (∀ n, n ∈ ap_tool_names p → is_mcp_tool cfg n = true) →
    (ap_tool_names p ≠ [] ∨ flags_contain (ap_system_prompt_markers p) MCP_SERVER = true) →
    surface_rel cfg p Mcp
| surface_cli :
    flags_contain (ap_system_prompt_markers p) MCP_SERVER = false → ap_tool_names p ≠ [] →
    (∀ n, n ∈ ap_tool_names p → is_mcp_tool cfg n = false ∧ is_cli_tool cfg n = true) →
    surface_rel cfg p Cli
| surface_fc :
    flags_contain (ap_system_prompt_markers p) MCP_SERVER = false → ap_tool_names p ≠ [] →
    (∀ n, n ∈ ap_tool_names p → is_mcp_tool cfg n = false ∧ is_cli_tool cfg n = false) →
    surface_rel cfg p FunctionCall
| surface_mixed (m : string) :
    m ∈ ap_tool_names p → is_mcp_tool cfg m = false →
    (flags_contain (ap_system_prompt_markers p) MCP_SERVER = true ∨
     ∃ n, n ∈ ap_tool_names p ∧ (is_mcp_tool cfg n = true ∨ is_cli_tool cfg n ≠ is_cli_tool cfg m)) →
    surface_rel cfg p Mixed.

Lemma existsb_false {A : Type} (f : A → bool) (l : list A) :
  existsb f l = false ↔ ∀ x, x ∈ l → f x = false.
Proof.
  split.
  - intros H x Hx. destruct (f x) eqn:E; [|done].
    assert (existsb f l = true); [|congruence]. apply existsb_exists. exists x. by rewrite <- list_elem_of_In.
  - intros H. destruct (existsb f l) eqn:E; [|done]. apply existsb_exists in E as (x & Hx%list_elem_of_In & Hf).
    rewrite (H x Hx) in Hf. done.
Qed.

Lemma surface_of_rel (cfg : ClassifierConfig) (p : AgentPrimitives) :
  surface_rel cfg p (surface_of (foldl (see_tool cfg)
    (flags_contain (ap_system_prompt_markers p) MCP_SERVER, false, false) (ap_tool_names p))).
Proof.
  rewrite see_tools_spec. cbn [fst snd orb].
  set (names := ap_tool_names p). set (k := flags_contain _ _).
  assert (Hex : ∀ f, existsb f names = true → ∃ n, n ∈ names ∧ f n = true).
  { intros f (n & Hn & Hf)%existsb_exists. exists n. by rewrite list_elem_of_In. }
  destruct (existsb (λ n, negb (is_mcp_tool cfg n) && is_cli_tool cfg n) names) eqn:Ec;
  destruct (existsb (λ n, negb (is_mcp_tool cfg n) && negb (is_cli_tool cfg n)) names) eqn:Ef;
  destruct (k || existsb (is_mcp_tool cfg) names) eqn:Em; cbn.
  - apply Hex in Ec as (n & Hn & Hc), Ef as (m & Hm & Hf). apply andb_true_iff in Hc as [? Hc], Hf as [? Hf].
    apply negb_true_iff in Hf. apply (surface_mixed _ _ n); [done|by apply negb_true_iff|].
    right. exists m. split; [done|]. right. by rewrite Hc, Hf.
  - apply Hex in Ec as (n & Hn & Hc), Ef as (m & Hm & Hf). apply andb_true_iff in Hc as [? Hc], Hf as [? Hf].
    apply negb_true_iff in Hf. apply (surface_mixed _ _ n); [done|by apply negb_true_iff|].
    right. exists m. split; [done|]. right. by rewrite Hc, Hf.
  - apply Hex in Ec as (n & Hn & Hc). apply andb_true_iff in Hc as [? Hc].
    apply (surface_mixed _ _ n); [done|by apply negb_true_iff|].
    apply orb_true_iff in Em as [?|Em]; [by left|]. apply Hex in Em as (m & Hm & ?). right. exists m. auto.
  - apply orb_false_iff in Em as [Hk Em]. rewrite existsb_false in Em, Ef.
    apply Hex in Ec as (n0 & Hn0 & _).
    apply surface_cli; [done|by intros E; unfold names in Hn0; rewrite E in Hn0; apply not_elem_of_nil in Hn0|].
    intros n Hn. specialize (Em n Hn). specialize (Ef n Hn). rewrite Em in Ef. split; [done|].
    by destruct (is_cli_tool cfg n).
  - apply Hex in Ef as (n & Hn & Hc). apply andb_true_iff in Hc as [? Hc].
    apply (surface_mixed _ _ n); [done|by apply negb_true_iff|].
    apply orb_true_iff in Em as [?|Em]; [by left|]. apply Hex in Em as (m & Hm & ?). right. exists m. auto.
  - apply orb_false_iff in Em as [Hk Em]. rewrite existsb_false in Em, Ec.
    apply Hex in Ef as (n0 & Hn0 & _).
    apply surface_fc; [done|by intros E; unfold names in Hn0; rewrite E in Hn0; apply not_elem_of_nil in Hn0|].
    intros n Hn. specialize (Em n Hn). specialize (Ec n Hn). by rewrite Em in Ec.
  - rewrite existsb_false in Ec, Ef.
    assert (Hall : ∀ n, n ∈ names → is_mcp_tool cfg n = true).
    { intros n Hn. specialize (Ec n Hn). specialize (Ef n Hn). by destruct (is_mcp_tool cfg n), (is_cli_tool cfg n). }
    apply surface_mcp; [exact Hall|]. apply orb_true_iff in Em as [?|Em]; [by right|left].
    apply Hex in Em as (n & Hn & _). intros E. unfold names in Hn. rewrite E in Hn. by apply not_elem_of_nil in Hn.
  - apply orb_false_iff in Em as [Hk Em]. rewrite existsb_false in Ec, Ef, Em.
    apply surface_none; [|done]. fold names. destruct names as [|n l]; [done|]. exfalso.
    specialize (Ec n ltac:(set_solver)). specialize (Ef n ltac:(set_solver)). specialize (Em n ltac:(set_solver)).
    rewrite Em in Ec, Ef. by destruct (is_cli_tool cfg n).
Qed.

Lemma existsb_true {A : Type} (f : A → bool) (l : list A) (x : A) :
  x ∈ l → f x = true → existsb f l = true.
Proof. intros Hx Hf. apply existsb_exists. exists x. by rewrite <- list_elem_of_In. Qed.

Lemma list_not_nil {A : Type} (l : list A) : l ≠ [] → ∃ x, x ∈ l.
Proof. destruct l as [|x l]; [done|]. intros _. exists x. set_solver. Qed.

(** The relation names one surface. *)
Lemma rel_surface_of (cfg : ClassifierConfig) (p : AgentPrimitives) (s : ToolSurface) :
  surface_rel cfg p s →
  surface_of (foldl (see_tool cfg)
    (flags_contain (ap_system_prompt_markers p) MCP_SERVER, false, false) (ap_tool_names p)) = s.
Proof.
  rewrite see_tools_spec. cbn [fst snd orb]. set (names := ap_tool_names p). set (k := flags_contain _ _).
  intros [Hn Hk | Hall Hor | Hk Hne Hall | Hk Hne Hall | m Hm Hnm Hor].
  - fold names in Hn. fold k in Hk. by rewrite Hn, Hk.
  - rewrite (proj2 (existsb_false (λ n, _ && is_cli_tool cfg _) names)) by (intros n Hn; by rewrite (Hall n Hn)).
    rewrite (proj2 (existsb_false (λ n, _ && negb _) names)) by (intros n Hn; by rewrite (Hall n Hn)).
    replace (k || _) with true; [done|]. symmetry. apply orb_true_iff.
    destruct Hor as [[n Hn]%list_not_nil|]; [right|by left]. apply (existsb_true _ _ n Hn). by apply Hall.
  - fold k in Hk. apply list_not_nil in Hne as [n Hn]. rewrite Hk.
    rewrite (proj2 (existsb_false (is_mcp_tool cfg) names)) by (intros x Hx; by apply Hall).
    rewrite (proj2 (existsb_false (λ n, _ && negb _) names)) by (intros x Hx; by destruct (Hall x Hx) as [-> ->]).
    rewrite (existsb_true _ names n Hn) by (by destruct (Hall n Hn) as [-> ->]). done.
  - fold k in Hk. apply list_not_nil in Hne as [n Hn]. rewrite Hk.
    rewrite (proj2 (existsb_false (is_mcp_tool cfg) names)) by (intros x Hx; by apply Hall).
    rewrite (proj2 (existsb_false (λ n, _ && is_cli_tool cfg _) names)) by (intros x Hx; by destruct (Hall x Hx) as [-> ->]).
    rewrite (existsb_true _ names n Hn) by (by destruct (Hall n Hn) as [-> ->]). done.
  - set (c := existsb (λ n, negb _ && is_cli_tool cfg n) names). set (f := existsb (λ n, negb _ && negb _) names).
    assert (Hcf : if is_cli_tool cfg m then c = true else f = true).
    { destruct (is_cli_tool cfg m) eqn:E; apply (existsb_true _ _ m Hm); by rewrite Hnm, E. }
    assert (Hrest : k || existsb (is_mcp_tool cfg) names = true ∨ (if is_cli_tool cfg m then f = true else c = true)).
    { destruct Hor as [Hk|(n & Hn & Hor)]; [left; fold k in Hk; by rewrite Hk|].
      destruct (is_mcp_tool cfg n) eqn:E; [left; by rewrite (existsb_true _ names n Hn E), orb_true_r|].
      destruct Hor as [?|Hd]; [done|right].
      destruct (is_cli_tool cfg m), (is_cli_tool cfg n) eqn:En; try done; apply (existsb_true _ _ n Hn); by rewrite E, En. }
    by destruct (is_cli_tool cfg m), c, f, (k || existsb (is_mcp_tool cfg) names), Hrest.
Qed.

(** Classification is by what the call shows and nothing else: it is an
    agent's when it has tool calls, a sub-agent marker or an agent marker in its
    prompt; it has a surface exactly when it has tool calls, the one its tools
    form; it has a topology exactly when it is an agent's, sub-agent first. *)
Theorem classify_spec :
  ∀ (p : AgentPrimitives) (cfg : ClassifierConfig),
    let c := classify p cfg in
    (cl_is_agent_request c = true ↔
       0 < ap_tool_call_count p ∨ is_Some (ap_subagent_marker p) ∨
       Z.land (ap_system_prompt_markers p) 7 ≠ 0) ∧
    (∀ s, cl_tool_surface c = Some s ↔ 0 < ap_tool_call_count p ∧ surface_rel cfg p s) ∧
    cl_agent_topology c
    = (if cl_is_agent_request c then
         Some (match ap_subagent_marker p with
               | Some _ => SubAgent
               | None => if ap_dispatches_to_subagent p then Orchestrator else SingleAgent
               end)
       else None) ∧
    cl_suspicious_signals c = [].
Proof.
  intros p cfg. cbn zeta. unfold classify. cbn [cl_is_agent_request cl_tool_surface cl_agent_topology cl_suspicious_signals].
  split_and!; [| | |done].
  - rewrite !orb_true_iff, Z.ltb_lt, bool_decide_eq_true. unfold intersects.
    change (Z.lor (Z.lor AGENT_LOOP REACT_SKELETON) TOOL_USE_INSTRUCTION) with 7.
    rewrite negb_true_iff, Z.eqb_neq. tauto.
  - intros s. destruct (Z.ltb_spec 0 (ap_tool_call_count p)); cbn [negb].
    + split.
      * intros [= <-]. split; [done|]. apply surface_of_rel.
      * intros [_ Hs]. f_equal. exact (rel_surface_of _ _ _ Hs).
    + split; [done|lia].
  - destruct (_ || _ || _); [|done]. cbn [negb]. destruct (ap_subagent_marker p); [by rewrite bool_decide_true|].
    rewrite bool_decide_false by (by intros []). by destruct (ap_dispatches_to_subagent p).
Qed.

(** Two of the four configured lists have no part in it. *)
Lemma classify_ignores_lists (p : AgentPrimitives) (cfg : ClassifierConfig) (orch known : gset string) :
  classify p (mkClassifierConfig (cc_cli_tool_allowlist cfg) orch (cc_mcp_tool_prefixes cfg) known)
  = classify p cfg.
Proof. done. Qed.
