(* ===== verification/Profile.v ===== *)
(** * Agent profiles: the interface (h-llm/src/profile.rs)

    What a profile knows about one kind of agent client, the [AgentProfile]
    trait, as a record of its methods; the context of a call they read; the
    first-match registry; and the methods the trait gives by default. *)

From Stdlib Require Import Strings.Byte Strings.String ZArith Lia.
From stdpp Require Import base gmap sets list strings.
From S2P Require Import Prelude.
From S2P Require Import Net.
From S2P Require Import Text.
From S2P Require Import Events.
From S2P Require Import Calls.
From S2P Require Import Json.
From S2P Require Import Wire.
From S2P Require Import Classifier.

Open Scope Z_scope.

Record SessionIdExtraction : Type := mkSession {
  se_session_id : string;
  se_tool_id_canonicalized : bool;
}.

Section Profile.
Context `{JT : JsonText}.

(** A call and its parsed bodies. *)
Record CallCtx : Type := mkCtx { cx_call : LlmCall; cx_req : option Value; cx_resp : option Value }.

(** [serde_json::from_str] on each stored body. *)
Definition parse_bodies (call : LlmCall) : option Value * option Value :=
  (lc_request_body call ▷ from_slice, lc_response_body call ▷ from_slice).

(** The [AgentProfile] trait. *)
Record AgentProfile : Type := mkProfile {
  pf_name : string;
  pf_matches : CallCtx → bool;
  pf_extract_session_id : CallCtx → option SessionIdExtraction;
  pf_is_user_turn_start : CallCtx → option bool;
  pf_subagent : CallCtx → option string;
  pf_is_auxiliary : CallCtx → bool;
  pf_extract_user_input : CallCtx → option text;
  pf_extract_assistant_text : CallCtx → option text;
  pf_extract_primitives : CallCtx → AgentPrimitives;
  pf_is_turn_terminal : CallCtx → list WireApi → bool;
}.

(** The default methods. *)
Definition default_subagent (ctx : CallCtx) : option string := None.
Definition default_is_auxiliary (ctx : CallCtx) : bool := false.
Definition default_is_turn_terminal (ctx : CallCtx) (wire_apis : list WireApi) : bool :=
  match lc_finish_reason (cx_call ctx) with
  | None => false
  | Some reason =>
      match find_by_name wire_apis (lc_wire_api (cx_call ctx)) with
      | None => false
      | Some api => is_terminal api reason && negb (is_tool_use api reason)
      end
  end.

(** [AgentProfileRegistry::find]: the first profile that matches. *)
Definition find_profile (registry : list AgentProfile) (ctx : CallCtx) : option AgentProfile :=
  List.find (λ p, pf_matches p ctx) registry.
Definition find_profile_by_name (registry : list AgentProfile) (name : string) : option AgentProfile :=
  List.find (λ p, String.eqb (pf_name p) name) registry.

(** The first request header of a name, in any case. *)
Definition call_header (ctx : CallCtx) (name : string) : option text :=
  header (lc_request_headers (cx_call ctx)) (B name).
End Profile.
