(* ===== verification/SessionId.v ===== *)
(** * Session ids (h-llm/src/agents/session_id.rs)

    How a profile without a session header derives one from the anchor of a
    conversation: a tool id in its canonical form, or a hash of the first texts. *)

From Stdlib Require Import Strings.Byte Strings.String ZArith Lia.
From stdpp Require Import base gmap sets list strings.
From S2P Require Import Prelude.
From S2P Require Import Text.
From S2P Require Import Json.
From S2P Require Import Wire.
From S2P Require Import Readers.

Open Scope Z_scope.

Definition PREFIXES : list text := map B ["call"; "toolu"; "fc"; "chatcmpl"]%string.

(** The [for] loop over the prefixes. *)
Fixpoint canonicalize_with (prefixes : list text) (id : text) : text :=
  match prefixes with
  | [] => id
  | p :: prefixes' =>
      match strip_prefix p id with
      | None => canonicalize_with prefixes' id
      | Some after =>
          if negb (bool_decide (after = [])) && negb (starts_with [x5f] after) then p ++ [x5f] ++ after
          else canonicalize_with prefixes' id
      end
  end.
Definition canonicalize_tool_id (id : text) : text := canonicalize_with PREFIXES id.

Definition canonicalize_tool_id_tracked (id : text) : text * bool :=
  let canon := canonicalize_tool_id id in (canon, negb (bool_decide (canon = id))).

Definition synth_text_hash (user_text assistant_text : text) : text :=
  hex16 (fnv1a_64 (user_text ++ [LF] ++ assistant_text)).

Definition HELPER_SESSION_BUCKET_US : Z := 60000000.

(** [i64::to_le_bytes]. *)
Definition le_bytes (z : Z) : text := rev (be_bytes 8 (wrap 64 z)).

Definition synth_helper_session_id (system_text : text) (request_time_us : Z) : text :=
  let bucket := Z.quot request_time_us HELPER_SESSION_BUCKET_US in
  hex16 (fnv1a_64 (system_text ++ le_bytes bucket)).

Definition compose_session_id_tracked (user_text : text) (sig : AssistantSig) : text * bool :=
  match sig with
  | ToolId id => canonicalize_tool_id_tracked id
  | SigText t => (B "gen-" ++ synth_text_hash user_text t, false)
  end.
Definition compose_session_id (user_text : text) (sig : AssistantSig) : text :=
  (compose_session_id_tracked user_text sig).1.

(** ** Canonical forms *)

(** No prefix begins another: what starts with one does not start with a second. *)
Lemma prefixes_clash (p q l : text) :
  p ∈ PREFIXES → q ∈ PREFIXES → p ≠ q → strip_prefix q (p ++ l) = None.
Proof.
  unfold PREFIXES. cbn [map]. rewrite !elem_of_cons, !elem_of_nil.
  intros [->|[->|[->|[->|[]]]]] [->|[->|[->|[->|[]]]]] H; try done; vm_compute; done.
Qed.

Lemma canonicalize_skip (p : text) (l : list text) (after : text) :
  p ∈ PREFIXES → (∀ q, q ∈ l → q ∈ PREFIXES) →
  canonicalize_with l (p ++ after)
  = if bool_decide (p ∈ l) && negb (bool_decide (after = [])) && negb (starts_with [x5f] after)
    then p ++ [x5f] ++ after else p ++ after.
Proof.
  intros Hp. induction l as [|q l IH]; intros Hl; cbn [canonicalize_with]; [done|].
  rewrite IH by set_solver. destruct (decide (q = p)) as [->|Hne].
  - rewrite strip_prefix_app, (bool_decide_true (p ∈ p :: l)) by (apply elem_of_cons; by left). cbn [andb].
    destruct (negb (bool_decide (after = [])) && _) eqn:E; [done|]. by rewrite <- andb_assoc, E, andb_false_r.
  - rewrite prefixes_clash by (try done; set_solver).
    by rewrite (bool_decide_ext (p ∈ q :: l) (p ∈ l)) by set_solver.
Qed.

Lemma canonicalize_prefixed (p after : text) :
  p ∈ PREFIXES →
  canonicalize_tool_id (p ++ after)
  = if negb (bool_decide (after = [])) && negb (starts_with [x5f] after) then p ++ [x5f] ++ after else p ++ after.
Proof. intros Hp. unfold canonicalize_tool_id. rewrite canonicalize_skip, (bool_decide_true (p ∈ PREFIXES)) by done. done. Qed.

Lemma strip_prefix_Some (p l k : text) : strip_prefix p l = Some k → l = p ++ k.
Proof.
  unfold strip_prefix. destruct (starts_with p l) eqn:E; [|done]. apply starts_with_spec in E as [r ->].
  rewrite drop_app_length. by intros [= ->].
Qed.

Lemma canonicalize_other (l : list text) (id : text) :
  (∀ p, p ∈ l → strip_prefix p id = None) → canonicalize_with l id = id.
Proof. induction l as [|p l IH]; intros H; [done|]. cbn. rewrite H by set_solver. apply IH. set_solver. Qed.

(** A tool id is one session anchor however the client echoes it: the id with
    the underscore after its prefix and the id without it have the same canonical
    form, canonical forms are fixed, and any other id is left alone. *)
Theorem canonical_ids :
  (∀ p rest, p ∈ PREFIXES → rest ≠ [] → starts_with [x5f] rest = false →
     canonicalize_tool_id (p ++ rest) = p ++ [x5f] ++ rest ∧
     canonicalize_tool_id (p ++ [x5f] ++ rest) = p ++ [x5f] ++ rest) ∧
  (∀ id, canonicalize_tool_id (canonicalize_tool_id id) = canonicalize_tool_id id) ∧
  (∀ id, (∀ p, p ∈ PREFIXES → strip_prefix p id = None) → canonicalize_tool_id id = id).
Proof.
  assert (Hpre : ∀ p rest, p ∈ PREFIXES → rest ≠ [] → starts_with [x5f] rest = false →
     canonicalize_tool_id (p ++ rest) = p ++ [x5f] ++ rest ∧
     canonicalize_tool_id (p ++ [x5f] ++ rest) = p ++ [x5f] ++ rest).
  { intros p rest Hp Hr Hs. rewrite !canonicalize_prefixed by done.
    rewrite (bool_decide_false _ Hr), Hs. split; [done|].
    rewrite (proj2 (starts_with_spec [x5f] ([x5f] ++ rest))) by (by exists rest). by rewrite andb_false_r. }
  split; [exact Hpre|]. split; [|intros id H; by apply canonicalize_other].
  intros id. destruct (decide (Exists (λ p, is_Some (strip_prefix p id)) PREFIXES)) as [He|Hn].
  - apply Exists_exists in He as (p & Hp & k & ->%strip_prefix_Some).
    rewrite (canonicalize_prefixed p k) by done. destruct (_ && _) eqn:E.
    + apply andb_true_iff in E as [E1 E2]. apply negb_true_iff in E1, E2. apply bool_decide_eq_false in E1.
      by destruct (Hpre p k Hp E1 E2).
    + by rewrite canonicalize_prefixed, E.
  - assert (H : ∀ p, p ∈ PREFIXES → strip_prefix p id = None).
    { intros p Hp. destruct (strip_prefix p id) eqn:E; [|done]. exfalso. apply Hn, Exists_exists.
      exists p. by rewrite E. }
    unfold canonicalize_tool_id. by rewrite !(canonicalize_other PREFIXES id H).
Qed.

Lemma canonical_ids_witness : canonicalize_tool_id (B "calld9c1") = B "call_d9c1".
Proof.
  destruct canonical_ids as (H & _).
  destruct (H (B "call") (B "d9c1")) as [E _]; [apply elem_of_cons; by left|discriminate|reflexivity|].
  exact E.
Defined.
