(* ===== verification/Agents.v ===== *)
(** * The agent profiles (h-llm/src/agents)

    How each client is recognised, how its session is identified, and what its
    bodies show: Claude Code, Codex and opencode by their headers, OpenClaw and
    Hermes by the names of their tools, and the generic profile by the anchor of
    a tool call. *)

From Stdlib Require Import Strings.Byte Strings.String ZArith Lia.
From stdpp Require Import base gmap sets list strings.
From S2P Require Import Prelude.
From S2P Require Import Net.
From S2P Require Import Text.
From S2P Require Import Events.
From S2P Require Import Calls.
From S2P Require Import Json.
From S2P Require Import JsonSample.
From S2P Require Import Wire.
From S2P Require Import Estimator.
From S2P Require Import Readers.
From S2P Require Import OpenAiChat.
From S2P Require Import Responses.
From S2P Require Import Anthropic.
From S2P Require Import Gemini.
From S2P Require Import WireApis.
From S2P Require Import Classifier.
From S2P Require Import Profile.
From S2P Require Import SessionId.

Open Scope Z_scope.

Section Agents.
Context `{JT : JsonText}.

(** [match call.wire_api { .. }]. *)
Definition by_api {A : Type} (api : string) (anth chat resp gem : option A) : option A :=
  if String.eqb api ANTHROPIC then anth
  else if String.eqb api OPENAI_CHAT then chat
  else if String.eqb api OPENAI_RESPONSES then resp
  else if String.eqb api GEMINI_AISTUDIO then gem
  else None.

Definition wire_api_of (ctx : CallCtx) : string := lc_wire_api (cx_call ctx).

(** ** Primitives, piece by piece *)

(** Names are kept once, in order of first appearance. *)
Definition push_name (names : list string) (n : text) : list string :=
  if bool_decide (str n ∈ names) then names else names ++ [str n].

Definition add_name (p : AgentPrimitives) (name : option text) : AgentPrimitives :=
  match name with
  | None => p
  | Some n =>
      mkPrimitives (ap_tool_call_count p) (push_name (ap_tool_names p) n) (ap_has_system_prompt p)
        (ap_system_prompt_markers p) (ap_subagent_marker p) (ap_dispatches_to_subagent p)
  end.

Definition incr_calls (p : AgentPrimitives) : AgentPrimitives :=
  mkPrimitives (ap_tool_call_count p + 1) (ap_tool_names p) (ap_has_system_prompt p)
    (ap_system_prompt_markers p) (ap_subagent_marker p) (ap_dispatches_to_subagent p).

(** A tool call: counted, and its name kept. *)
Definition count_call (p : AgentPrimitives) (name : option text) : AgentPrimitives :=
  add_name (incr_calls p) name.

Definition with_prompt (has : bool) (markers : Z) (p : AgentPrimitives) : AgentPrimitives :=
  mkPrimitives (ap_tool_call_count p) (ap_tool_names p) has markers (ap_subagent_marker p)
    (ap_dispatches_to_subagent p).

Definition agent_loop_in (t : text) : Z :=
  let lower := to_lowercase t in
  if contains (B "you are an agent") lower || contains (B "you are claude code") lower then AGENT_LOOP else 0.
Definition mcp_server_in (t : text) : Z :=
  let lower := to_lowercase t in
  if contains (B "mcp server") lower || contains (B "mcp tool") lower then MCP_SERVER else 0.

(** A system prompt that is not empty, and what it mentions. *)
Definition mark_system (markers : text → Z) (p : AgentPrimitives) (t : text) : AgentPrimitives :=
  match t with
  | [] => p
  | _ => with_prompt true (Z.lor (ap_system_prompt_markers p) (markers t)) p
  end.
Definition all_markers (t : text) : Z := Z.lor (agent_loop_in t) (mcp_server_in t).

Definition mark_opt (markers : text → Z) (p : AgentPrimitives) (o : option text) : AgentPrimitives :=
  match o with Some t => mark_system markers p t | None => p end.

Definition function_name (v : Value) : option text := get "function" v ▷ get_str "name".

(** [tool_use] blocks of a message's content. *)
Definition count_tool_use (p : AgentPrimitives) (block : Value) : AgentPrimitives :=
  if str_is "type" "tool_use" block then count_call p (get_str "name" block) else p.
Definition count_content (p : AgentPrimitives) (msg : Value) : AgentPrimitives :=
  foldl count_tool_use p (default [] (get_arr "content" msg)).

(** A message's [tool_calls]. *)
Definition count_tool_calls (p : AgentPrimitives) (msg : Value) : AgentPrimitives :=
  foldl (λ p tc, count_call p (function_name tc)) p (default [] (get_arr "tool_calls" msg)).

(** [function_call] items of [input]. *)
Definition count_function_call (p : AgentPrimitives) (item : Value) : AgentPrimitives :=
  if str_is "type" "function_call" item then count_call p (get_str "name" item) else p.
Definition count_input (p : AgentPrimitives) (req : Value) : AgentPrimitives :=
  foldl count_function_call p (default [] (get_arr "input" req)).

(** The text of a system message. *)
Definition mark_message (markers : text → Z) (p : AgentPrimitives) (msg : Value) : AgentPrimitives :=
  if str_is "role" "system" msg then mark_opt markers p (get_str "content" msg) else p.

Definition set_subagent (s : option string) (p : AgentPrimitives) : AgentPrimitives :=
  mkPrimitives (ap_tool_call_count p) (ap_tool_names p) (ap_has_system_prompt p)
    (ap_system_prompt_markers p) s (ap_dispatches_to_subagent p).

Definition messages_of (req : Value) : list Value := default [] (get_arr "messages" req).

(** ** Generic *)

Definition is_tool_id (sig : AssistantSig) : bool := match sig with ToolId _ => true | SigText _ => false end.

(** The first user text and the first assistant signature, the request's own
    history first. *)
Definition anchor_of (api : string) (req : Value) (resp : option Value)
    : option (text * AssistantSig) :=
  by_api api
    (anthropic_first_user_text req ▷ λ u,
       pair u <$> or_else (anthropic_first_assistant_sig_from_request req)
                    (resp ▷ anthropic_first_assistant_sig_from_response_value))
    (chat_first_user_text req ▷ λ u,
       pair u <$> or_else (chat_first_assistant_sig_from_request req)
                    (resp ▷ chat_first_assistant_sig_from_response_value))
    (match get "input" req with
     | Some (Array items) =>
         responses_first_user_text items ▷ λ u,
           pair u <$> or_else (first_assistant_sig_from_input items)
                        (resp ▷ responses_first_assistant_sig_from_response_value)
     | Some (Str s) =>
         non_blank s ▷ λ u, pair u <$> (resp ▷ responses_first_assistant_sig_from_response_value)
     | _ => None
     end)
    (gemini_first_user_text req ▷ λ u,
       pair u <$> or_else (gemini_first_assistant_sig_from_request req)
                    (resp ▷ gemini_first_assistant_sig_from_response_value)).

Definition tool_anchored (a : option (text * AssistantSig)) : option (text * AssistantSig) :=
  a ▷ λ us, if is_tool_id us.2 then Some us else None.

Definition extract_tool_anchored_sig (ctx : CallCtx) : option (text * AssistantSig) :=
  cx_req ctx ▷ λ req, tool_anchored (anchor_of (wire_api_of ctx) req (cx_resp ctx)).

(** [compose_session_id_tracked] on an anchor. *)
Definition session_of (us : text * AssistantSig) : SessionIdExtraction :=
  let '(id, changed) := compose_session_id_tracked us.1 us.2 in mkSession (str id) changed.

Definition generic_extract_session_id (ctx : CallCtx) : option SessionIdExtraction :=
  session_of <$> extract_tool_anchored_sig ctx.

Definition generic_matches (ctx : CallCtx) : bool :=
  one_of [ANTHROPIC; OPENAI_CHAT; OPENAI_RESPONSES; GEMINI_AISTUDIO] (wire_api_of ctx)
  && bool_decide (is_Some (extract_tool_anchored_sig ctx)).

Definition generic_is_user_turn_start (ctx : CallCtx) : option bool :=
  cx_req ctx ▷ λ req,
    by_api (wire_api_of ctx) (anthropic_is_user_turn_start req) (chat_is_user_turn_start req)
      (responses_is_user_turn_start req) (gemini_is_user_turn_start req).

Definition generic_extract_user_input (ctx : CallCtx) : option text :=
  cx_req ctx ▷ λ req,
    by_api (wire_api_of ctx) (anthropic_extract_user_input req) (chat_extract_user_input req)
      (responses_extract_user_input req) (gemini_extract_user_input req).

Definition generic_extract_assistant_text (ctx : CallCtx) : option text :=
  cx_resp ctx ▷ λ resp,
    by_api (wire_api_of ctx) (anthropic_extract_assistant_text_value resp)
      (chat_extract_assistant_text_value resp) (responses_extract_assistant_text_value resp)
      (gemini_extract_assistant_text_value resp).

(** Over Responses the body decides, not the finish reason. *)
Definition body_is_terminal (ctx : CallCtx) : bool :=
  match cx_resp ctx with Some resp => body_has_terminal_message_only_value resp | None => false end.
Definition generic_is_turn_terminal (ctx : CallCtx) (wire_apis : list WireApi) : bool :=
  if String.eqb (wire_api_of ctx) OPENAI_RESPONSES then body_is_terminal ctx
  else default_is_turn_terminal ctx wire_apis.

Definition generic_extract_primitives (ctx : CallCtx) : AgentPrimitives :=
  set_subagent (default_subagent ctx)
    match cx_req ctx with
    | None => primitives_default
    | Some req =>
        let p := foldl (λ p msg, count_tool_calls (count_content p msg) msg) primitives_default
                   (messages_of req) in
        let p := count_input p req in
        let p := mark_opt all_markers p (get_str "system" req) in
        foldl (mark_message all_markers) p (messages_of req)
    end.

Definition GenericProfile : AgentProfile :=
  mkProfile "generic" generic_matches generic_extract_session_id generic_is_user_turn_start
    default_subagent default_is_auxiliary generic_extract_user_input generic_extract_assistant_text
    generic_extract_primitives generic_is_turn_terminal.

(** ** Claude Code *)

Definition SECURITY_MONITOR_SYSTEM_SIG : text :=
  B "You are a security monitor for autonomous AI coding agents".

Definition anthropic_tool_anchor (ctx : CallCtx) : option (text * AssistantSig) :=
  cx_req ctx ▷ λ req,
    tool_anchored
      (anthropic_first_user_text req ▷ λ u,
         pair u <$> or_else (anthropic_first_assistant_sig_from_request req)
                      (cx_resp ctx ▷ anthropic_first_assistant_sig_from_response_value)).

Definition parse_tools (req : Value) : option (list text) :=
  get_arr "tools" req ▷ λ arr, Some (omap (get_str "name") arr).

Definition looks_like_subagent (req : Value) : bool :=
  match parse_tools req with
  | Some tools => negb (bool_decide (tools = [])) && negb (bool_decide (B "Agent" ∈ tools))
  | None => false
  end.

Definition is_security_monitor (req : Value) : bool :=
  match get "system" req with
  | Some (Str s) => contains SECURITY_MONITOR_SYSTEM_SIG s
  | Some (Array blocks) =>
      existsb (λ b, is_some_and (contains SECURITY_MONITOR_SYSTEM_SIG) (get_str "text" b)) blocks
  | _ => false
  end.

Definition REMINDER_OPEN : text := B "<system-reminder>".
Definition REMINDER_CLOSE : text := B "</system-reminder>".

(** As many rounds as there are bytes. *)
Fixpoint strip_reminders_fuel (fuel : nat) (rest : text) : text :=
  match fuel with
  | O => rest
  | S fuel' =>
      match find_sub REMINDER_OPEN rest with
      | None => rest
      | Some start =>
          let tail := drop start rest in
          take start rest ++
            match find_sub REMINDER_CLOSE tail with
            | Some e => strip_reminders_fuel fuel' (drop (e + length REMINDER_CLOSE) tail)
            | None => []
            end
      end
  end.
Definition strip_system_reminders (s : text) : text := strip_reminders_fuel (length s) s.

(** The user agent starts with one of the prefixes. *)
Definition user_agent_starts (ctx : CallCtx) (prefixes : list string) : bool :=
  is_some_and (λ ua, existsb (λ p, starts_with (B p) ua) prefixes) (call_header ctx "user-agent").

Definition claude_session_header (ctx : CallCtx) : option text := call_header ctx "x-claude-code-session-id".

Definition claude_matches (ctx : CallCtx) : bool :=
  String.eqb (wire_api_of ctx) ANTHROPIC && user_agent_starts ctx ["claude-cli/"]%string
  && (bool_decide (is_Some (claude_session_header ctx)) || bool_decide (is_Some (anthropic_tool_anchor ctx))).

Definition claude_extract_session_id (ctx : CallCtx) : option SessionIdExtraction :=
  match claude_session_header ctx with
  | Some h => Some (mkSession (str h) false)
  | None => session_of <$> anthropic_tool_anchor ctx
  end.

(** The last message that is not a system notice. *)
Definition operative_message (req : Value) : option Value :=
  get_arr "messages" req ▷ λ msgs, List.find (λ m, negb (str_is "role" "system" m)) (rev msgs).

Definition claude_extract_user_input (ctx : CallCtx) : option text :=
  cx_req ctx ▷ operative_message ▷ λ m,
    if negb (str_is "role" "user" m) then None
    else
      get "content" m ▷ (λ c,
        match c with
        | Str s => Some s
        | Array blocks => Some (join [LF] (text_blocks blocks))
        | _ => None
        end) ▷ λ raw,
        let trimmed := trim (strip_system_reminders raw) in
        if bool_decide (trimmed = []) then None else Some trimmed.

Definition claude_extract_assistant_text (ctx : CallCtx) : option text :=
  cx_resp ctx ▷ get_arr "content" ▷ λ content, non_blank (join [LF] (text_blocks content)).

Definition claude_subagent (ctx : CallCtx) : option string :=
  cx_req ctx ▷ λ req, if looks_like_subagent req then Some "task"%string else None.

(** Blank once the reminders are out. *)
Definition only_reminders (t : text) : bool := bool_decide (trim (strip_system_reminders t) = []).
Definition claude_user_block (b : Value) : bool :=
  match get_str "type" b with
  | Some t =>
      if bool_decide (t = B "tool_result") then false
      else if bool_decide (t = B "text") then negb (only_reminders (default [] (get_str "text" b)))
      else true
  | None => false
  end.

Definition claude_is_user_turn_start (ctx : CallCtx) : option bool :=
  cx_req ctx ▷ operative_message ▷ λ m,
    if negb (str_is "role" "user" m) then Some false
    else
      get "content" m ▷ λ c,
        match c with
        | Str s => Some (negb (only_reminders s))
        | Array blocks => Some (existsb claude_user_block blocks)
        | _ => None
        end.

Definition claude_is_auxiliary (ctx : CallCtx) : bool :=
  match cx_req ctx with
  | None => false
  | Some req =>
      if is_security_monitor req then true
      else match parse_tools req with Some tools => bool_decide (tools = []) | None => false end
  end.

(** [Task] dispatches to a sub-agent. *)
Definition claude_count_block (p : AgentPrimitives) (block : Value) : AgentPrimitives :=
  let p := count_tool_use p block in
  if str_is "type" "tool_use" block && str_is "name" "Task" block then
    mkPrimitives (ap_tool_call_count p) (ap_tool_names p) (ap_has_system_prompt p)
      (ap_system_prompt_markers p) (ap_subagent_marker p) true
  else p.

Definition claude_extract_primitives (ctx : CallCtx) : AgentPrimitives :=
  set_subagent (claude_subagent ctx)
    match cx_req ctx with
    | None => primitives_default
    | Some req =>
        let p := foldl (λ p msg, foldl claude_count_block p (default [] (get_arr "content" msg)))
                   primitives_default (messages_of req) in
        match get_str "system" req with
        | Some system =>
            with_prompt (negb (bool_decide (system = [])))
              (Z.lor (ap_system_prompt_markers p) (all_markers system)) p
        | None => p
        end
    end.

Definition ClaudeCliProfile : AgentProfile :=
  mkProfile "claude-cli" claude_matches claude_extract_session_id claude_is_user_turn_start
    claude_subagent claude_is_auxiliary claude_extract_user_input claude_extract_assistant_text
    claude_extract_primitives default_is_turn_terminal.
End Agents.
