(* ===== verification/AgentRegistry.v ===== *)
(** * More agent profiles and the default registry (h-llm/src/agents)

    Codex, opencode, OpenClaw and Hermes, the registry with its priorities, and
    what holds of the profiles together: which of them can claim a call and then
    fail to place it, and that a conversation keeps its session. *)

From Stdlib Require Import Strings.Byte Strings.String ZArith Lia.
From stdpp Require Import base gmap sets list strings.
From S2P Require Import Prelude.
From S2P Require Import Net.
From S2P Require Import Text.
From S2P Require Import Events.
From S2P Require Import Calls.
From S2P Require Import Json.
From S2P Require Import JsonSample.
From S2P Require Import Wire.
From S2P Require Import Estimator.
From S2P Require Import Readers.
From S2P Require Import OpenAiChat.
From S2P Require Import Responses.
From S2P Require Import Anthropic.
From S2P Require Import Gemini.
From S2P Require Import WireApis.
From S2P Require Import Classifier.
From S2P Require Import Profile.
From S2P Require Import SessionId.
From S2P Require Import Agents.

Open Scope Z_scope.

Section AgentRegistry.
Context `{JT : JsonText}.

(** ** Codex *)

Definition ORIGINATOR_VALUES : list string := ["codex_cli_rs"; "codex-tui"; "codex_exec"].
Definition CODEX_UA_PREFIXES : list string := ["codex_cli_rs/"; "codex-tui/"; "codex_exec/"].

Definition codex_turn_metadata (ctx : CallCtx) : option text := call_header ctx "x-codex-turn-metadata".

Definition codex_matches (ctx : CallCtx) : bool :=
  String.eqb (wire_api_of ctx) OPENAI_RESPONSES
  && (is_some_and (λ orig, existsb (λ v, bool_decide (orig = B v)) ORIGINATOR_VALUES)
        (call_header ctx "originator")
      || user_agent_starts ctx CODEX_UA_PREFIXES)
  && bool_decide (is_Some (codex_turn_metadata ctx)).

Definition parse_turn_metadata (raw : text) : option Value := from_slice raw.

Definition codex_extract_session_id (ctx : CallCtx) : option SessionIdExtraction :=
  (λ s, mkSession (str s) false) <$> (codex_turn_metadata ctx ▷ parse_turn_metadata ▷ get_str "session_id").

Definition codex_last_input (ctx : CallCtx) : option Value := cx_req ctx ▷ get_arr "input" ▷ last.

Definition codex_is_user_turn_start (ctx : CallCtx) : option bool :=
  codex_last_input ctx ▷ λ it,
    get_str "type" it ▷ λ ty,
      if bool_decide (ty = B "message") then Some (str_is "role" "user" it)
      else if existsb (λ k, bool_decide (ty = B k)) ["function_call_output"; "reasoning"; "function_call"]%string
      then Some false
      else None.

Definition codex_subagent (ctx : CallCtx) : option string := str <$> call_header ctx "x-openai-subagent".

Definition codex_extract_user_input (ctx : CallCtx) : option text :=
  codex_last_input ctx ▷ λ it,
    if negb (is_user_message it) then None
    else
      get "content" it ▷ (λ c,
        match c with
        | Str s => Some s
        | Array blocks => Some (join [LF] (block_texts ["input_text"; "text"]%string blocks))
        | _ => None
        end) ▷ λ t, if bool_decide (trim t = []) then None else Some (trim t).

Definition codex_extract_assistant_text (ctx : CallCtx) : option text :=
  cx_resp ctx ▷ λ resp,
    let parts := default [] (get_arr "output" resp) ≫= λ item,
      if is_message item
      then block_texts ["output_text"; "text"]%string (default [] (get_arr "content" item)) else [] in
    let parts :=
      match parts with
      | [] => match first_choice resp ▷ get "message" ▷ get_str "content" with Some c => [c] | None => [] end
      | _ => parts
      end in
    match parts with [] => None | _ => non_blank (join [LF] parts) end.

(** The texts of a content that is a string or blocks, whatever their types. *)
Definition prompt_text (c : Value) : option text :=
  match c with
  | Str s => Some s
  | Array blocks => Some (join [SP] (omap (get_str "text") blocks))
  | _ => None
  end.

Definition codex_mark_item (p : AgentPrimitives) (item : Value) : AgentPrimitives :=
  if str_is "role" "developer" item || str_is "role" "system" item
  then mark_opt all_markers p (get "content" item ▷ prompt_text) else p.

Definition codex_extract_primitives (ctx : CallCtx) : AgentPrimitives :=
  set_subagent (codex_subagent ctx)
    match cx_req ctx with
    | None => primitives_default
    | Some req =>
        foldl codex_mark_item (count_input primitives_default req) (default [] (get_arr "input" req))
    end.

Definition codex_is_turn_terminal (ctx : CallCtx) (wire_apis : list WireApi) : bool := body_is_terminal ctx.

Definition CodexCliProfile : AgentProfile :=
  mkProfile "codex-cli" codex_matches codex_extract_session_id codex_is_user_turn_start
    codex_subagent default_is_auxiliary codex_extract_user_input codex_extract_assistant_text
    codex_extract_primitives codex_is_turn_terminal.

(** ** opencode *)

Definition opencode_session (ctx : CallCtx) : option text := call_header ctx "x-session-affinity".

Definition opencode_matches (ctx : CallCtx) : bool :=
  String.eqb (wire_api_of ctx) OPENAI_CHAT && user_agent_starts ctx ["opencode/"]%string
  && bool_decide (is_Some (opencode_session ctx)).

Definition opencode_extract_session_id (ctx : CallCtx) : option SessionIdExtraction :=
  (λ s, mkSession (str s) false) <$> opencode_session ctx.

(** Names of the tools offered: nested, or flat where the client sends them so. *)
Definition offer_tools (name : Value → option text) (p : AgentPrimitives) (req : Value) : AgentPrimitives :=
  foldl (λ p t, add_name p (name t)) p (default [] (get_arr "tools" req)).

Definition opencode_extract_primitives (ctx : CallCtx) : AgentPrimitives :=
  set_subagent (default_subagent ctx)
    match cx_req ctx with
    | None => primitives_default
    | Some req =>
        foldl (λ p msg, mark_message all_markers (count_tool_calls p msg) msg)
          (offer_tools function_name primitives_default req) (messages_of req)
    end.

Definition OpencodeProfile : AgentProfile :=
  mkProfile "opencode" opencode_matches opencode_extract_session_id
    (λ ctx, cx_req ctx ▷ chat_is_user_turn_start) default_subagent default_is_auxiliary
    (λ ctx, cx_req ctx ▷ chat_extract_user_input) (λ ctx, cx_resp ctx ▷ chat_extract_assistant_text_value)
    opencode_extract_primitives default_is_turn_terminal.

(** ** Profiles recognised by the names of their tools *)

(** Three of the four APIs carry their traffic. *)
Definition by_three {A : Type} (api : string) (anth chat resp : option A) : option A :=
  by_api api anth chat resp None.

Definition parse_tool_names (api : string) (req : Value) : option (list text) :=
  by_three api (anthropic_tool_names req) (chat_tool_names req) (responses_tool_names req).
Definition parse_first_system_text (api : string) (req : Value) : option text :=
  by_three api (anthropic_first_system_text req) (chat_first_system_text req) (responses_first_system_text req).

Definition marker_hits (markers : list string) (names : list text) : nat :=
  length (List.filter (λ m, bool_decide (B m ∈ names)) markers).

Definition three_apis (ctx : CallCtx) : bool :=
  one_of [ANTHROPIC; OPENAI_CHAT; OPENAI_RESPONSES] (wire_api_of ctx).

(** The anchor of either kind, a tool's or a text's. *)
Definition marked_extract_session_id (ctx : CallCtx) : option SessionIdExtraction :=
  cx_req ctx ▷ λ req,
    let resp := cx_resp ctx in
    session_of <$> by_three (wire_api_of ctx)
      (anthropic_first_user_text req ▷ λ u,
         pair u <$> or_else (anthropic_first_assistant_sig_from_request req)
                      (resp ▷ anthropic_first_assistant_sig_from_response_value))
      (chat_first_user_text req ▷ λ u,
         pair u <$> or_else (chat_first_assistant_sig_from_request req)
                      (resp ▷ chat_first_assistant_sig_from_response_value))
      (get_arr "input" req ▷ λ items,
         responses_first_user_text items ▷ λ u,
           pair u <$> or_else (first_assistant_sig_from_input items)
                        (resp ▷ responses_first_assistant_sig_from_response_value)).

Definition marked_is_user_turn_start (ctx : CallCtx) : option bool :=
  cx_req ctx ▷ λ req,
    by_three (wire_api_of ctx) (anthropic_is_user_turn_start req) (chat_is_user_turn_start req)
      (responses_is_user_turn_start req).
Definition marked_extract_user_input (ctx : CallCtx) : option text :=
  cx_req ctx ▷ λ req,
    by_three (wire_api_of ctx) (anthropic_extract_user_input req) (chat_extract_user_input req)
      (responses_extract_user_input req).
Definition marked_extract_assistant_text (ctx : CallCtx) : option text :=
  cx_resp ctx ▷ λ resp,
    by_three (wire_api_of ctx) (anthropic_extract_assistant_text_value resp)
      (chat_extract_assistant_text_value resp) (responses_extract_assistant_text_value resp).

Definition tool_name_either (t : Value) : option text := or_else (function_name t) (get_str "name" t).

(** ** OpenClaw *)

Definition OPENCLAW_MARKERS : list string :=
  ["sessions_spawn"; "sessions_yield"; "subagents"; "sessions_list"; "sessions_history";
   "sessions_send"; "session_status"].
Definition MARKER_HITS_REQUIRED : nat := 2.
Definition SUMMARIZER_PREFIX : text := B "You are a context summarization assistant.".

Definition openclaw_matches (ctx : CallCtx) : bool :=
  if negb (three_apis ctx) then false
  else
    match cx_req ctx with
    | None => false
    | Some req =>
        let names := parse_tool_names (wire_api_of ctx) req in
        if is_some_and (λ ns, MARKER_HITS_REQUIRED <=? marker_hits OPENCLAW_MARKERS ns)%nat names then true
        else if negb (is_some_and (λ ns, bool_decide (ns = [])) names) then false
        else is_some_and (starts_with SUMMARIZER_PREFIX) (parse_first_system_text (wire_api_of ctx) req)
    end.

Definition openclaw_is_auxiliary (ctx : CallCtx) : bool :=
  match cx_req ctx with
  | None => false
  | Some req => is_some_and (λ ns, bool_decide (ns = [])) (parse_tool_names (wire_api_of ctx) req)
  end.

Definition openclaw_extract_primitives (ctx : CallCtx) : AgentPrimitives :=
  set_subagent (default_subagent ctx)
    match cx_req ctx with
    | None => primitives_default
    | Some req =>
        let p := offer_tools tool_name_either primitives_default req in
        let p := foldl (λ p msg, count_tool_calls (count_content p msg) msg) p (messages_of req) in
        let p := count_input p req in
        mark_opt all_markers p (get "system" req ▷ prompt_text)
    end.

Definition OpenClawProfile : AgentProfile :=
  mkProfile "openclaw" openclaw_matches marked_extract_session_id marked_is_user_turn_start
    default_subagent openclaw_is_auxiliary marked_extract_user_input marked_extract_assistant_text
    openclaw_extract_primitives generic_is_turn_terminal.

(** ** Hermes *)

Definition HERMES_MARKERS : list string :=
  ["skill_view"; "skill_manage"; "skills_list"; "delegate_task"; "session_search"; "cronjob"].

Definition hermes_matches (ctx : CallCtx) : bool :=
  if negb (three_apis ctx) then false
  else
    match cx_req ctx with
    | None => false
    | Some req =>
        is_some_and (λ ns, MARKER_HITS_REQUIRED <=? marker_hits HERMES_MARKERS ns)%nat
          (parse_tool_names (wire_api_of ctx) req)
    end.

Definition hermes_extract_primitives (ctx : CallCtx) : AgentPrimitives :=
  set_subagent (default_subagent ctx)
    match cx_req ctx with
    | None => primitives_default
    | Some req =>
        foldl (λ p msg, mark_message agent_loop_in (count_tool_calls p msg) msg)
          (offer_tools tool_name_either primitives_default req) (messages_of req)
    end.

Definition HermesProfile : AgentProfile :=
  mkProfile "hermes" hermes_matches marked_extract_session_id marked_is_user_turn_start
    default_subagent default_is_auxiliary marked_extract_user_input marked_extract_assistant_text
    hermes_extract_primitives generic_is_turn_terminal.

(** ** The registry *)

Definition build_default_registry : list AgentProfile :=
  [ClaudeCliProfile; CodexCliProfile; OpencodeProfile; OpenClawProfile; HermesProfile; GenericProfile].

(** ** Well-formed primitives *)

Definition markers_ok (m : Z) : Prop :=
  m = 0 ∨ m = AGENT_LOOP ∨ m = MCP_SERVER ∨ m = Z.lor AGENT_LOOP MCP_SERVER.

Definition primitives_ok (p : AgentPrimitives) : Prop :=
  NoDup (ap_tool_names p) ∧ 0 <= ap_tool_call_count p ∧ markers_ok (ap_system_prompt_markers p).

Lemma add_name_ok (p : AgentPrimitives) (n : option text) : primitives_ok p → primitives_ok (add_name p n).
Proof.
  intros (H1 & H2 & H3). destruct n as [n|]; [|done]. split; [|done]. cbn. unfold push_name.
  destruct (bool_decide_reflect (str n ∈ ap_tool_names p)); [done|]. apply NoDup_app.
  split; [done|]. split; [set_solver|apply NoDup_singleton].
Qed.

Lemma count_call_ok (p : AgentPrimitives) (n : option text) : primitives_ok p → primitives_ok (count_call p n).
Proof. intros (H1 & H2 & H3). apply add_name_ok. split_and!; cbn; [done|lia|apply H3..]. Qed.

Lemma foldl_ok {A : Type} (f : AgentPrimitives → A → AgentPrimitives) (l : list A) (p : AgentPrimitives) :
  (∀ p x, primitives_ok p → primitives_ok (f p x)) → primitives_ok p → primitives_ok (foldl f p l).
Proof. intros Hf. revert p; induction l as [|x l IH]; intros p H; [done|]. cbn. by apply IH, Hf. Qed.

Lemma lor_markers_ok (m n : Z) : markers_ok m → markers_ok n → markers_ok (Z.lor m n).
Proof.
  unfold markers_ok, AGENT_LOOP, MCP_SERVER.
  intros [->|[->|[->| ->]]] [->|[->|[->| ->]]]; vm_compute; auto 6.
Qed.

Lemma agent_loop_ok (t : text) : markers_ok (agent_loop_in t).
Proof. unfold agent_loop_in, markers_ok. cbv zeta. case_match; auto. Qed.
Lemma mcp_server_ok (t : text) : markers_ok (mcp_server_in t).
Proof. unfold mcp_server_in, markers_ok. cbv zeta. case_match; auto. Qed.
Lemma all_markers_ok (t : text) : markers_ok (all_markers t).
Proof. apply lor_markers_ok; [apply agent_loop_ok|apply mcp_server_ok]. Qed.

Lemma with_prompt_ok (has : bool) (m : Z) (p : AgentPrimitives) :
  markers_ok m → primitives_ok p → primitives_ok (with_prompt has (Z.lor (ap_system_prompt_markers p) m) p).
Proof.
  intros Hm (H1 & H2 & H3). split; [done|]. split; [done|]. by apply lor_markers_ok.
Qed.

Lemma mark_opt_ok (f : text → Z) (p : AgentPrimitives) (o : option text) :
  (∀ t, markers_ok (f t)) → primitives_ok p → primitives_ok (mark_opt f p o).
Proof. intros Hf H. destruct o as [[|b t]|]; [done| |done]. cbn [mark_opt mark_system]. by apply with_prompt_ok. Qed.

Lemma set_subagent_ok (s : option string) (p : AgentPrimitives) : primitives_ok p → primitives_ok (set_subagent s p).
Proof. done. Qed.

Lemma primitives_default_ok : primitives_ok primitives_default.
Proof. split_and!; [constructor|done|by left]. Qed.

#[local] Hint Resolve add_name_ok count_call_ok mark_opt_ok primitives_default_ok set_subagent_ok
  all_markers_ok agent_loop_ok : prims.

Lemma count_tool_use_ok (p : AgentPrimitives) (b : Value) : primitives_ok p → primitives_ok (count_tool_use p b).
Proof. unfold count_tool_use. case_match; eauto with prims. Qed.
Lemma count_content_ok (p : AgentPrimitives) (m : Value) : primitives_ok p → primitives_ok (count_content p m).
Proof. apply foldl_ok, count_tool_use_ok. Qed.
Lemma count_tool_calls_ok (p : AgentPrimitives) (m : Value) : primitives_ok p → primitives_ok (count_tool_calls p m).
Proof. apply foldl_ok. eauto with prims. Qed.
Lemma count_input_ok (p : AgentPrimitives) (r : Value) : primitives_ok p → primitives_ok (count_input p r).
Proof. apply foldl_ok. intros q it Hq. unfold count_function_call. case_match; eauto with prims. Qed.
Lemma mark_message_ok (f : text → Z) (p : AgentPrimitives) (m : Value) :
  (∀ t, markers_ok (f t)) → primitives_ok p → primitives_ok (mark_message f p m).
Proof. intros Hf H. unfold mark_message. case_match; eauto with prims. Qed.
Lemma offer_tools_ok (f : Value → option text) (p : AgentPrimitives) (r : Value) :
  primitives_ok p → primitives_ok (offer_tools f p r).
Proof. apply foldl_ok. eauto with prims. Qed.
Lemma claude_count_block_ok (p : AgentPrimitives) (b : Value) :
  primitives_ok p → primitives_ok (claude_count_block p b).
Proof.
  intros H%(count_tool_use_ok p b). unfold claude_count_block. cbv zeta. case_match; [|done].
  destruct H as (H1 & H2 & H3). split; [exact H1|]. split; [exact H2|exact H3].
Qed.
#[local] Hint Resolve count_tool_use_ok count_content_ok count_tool_calls_ok count_input_ok mark_message_ok
  offer_tools_ok claude_count_block_ok foldl_ok with_prompt_ok : prims.

(** Whatever a body holds, what each built-in profile extracts of it is
    well formed: tool names without repetition, a count that is no negative
    number, and only the two prompt markers that profiles detect. *)
Theorem extracted_primitives_ok :
  ∀ (p : AgentProfile) (ctx : CallCtx),
    p ∈ build_default_registry → primitives_ok (pf_extract_primitives p ctx).
Proof.
  intros p ctx. unfold build_default_registry. rewrite !elem_of_cons, elem_of_nil.
  intros [->|[->|[->|[->|[->|[->|[]]]]]]]; cbn [pf_extract_primitives ClaudeCliProfile CodexCliProfile
    OpencodeProfile OpenClawProfile HermesProfile GenericProfile]; apply set_subagent_ok;
    destruct (cx_req ctx) as [req|]; try apply primitives_default_ok; cbv zeta.
  - destruct (get_str "system" req); [apply with_prompt_ok; [apply all_markers_ok|]|];
      apply foldl_ok; eauto with prims.
  - apply foldl_ok; [|eauto with prims]. intros q it H. unfold codex_mark_item. case_match; eauto with prims.
  - apply foldl_ok; eauto with prims.
  - apply mark_opt_ok; [apply all_markers_ok|]. apply count_input_ok, foldl_ok; eauto with prims.
  - apply foldl_ok; eauto with prims.
  - apply foldl_ok; [eauto with prims|]. apply mark_opt_ok; [apply all_markers_ok|].
    apply count_input_ok, foldl_ok; eauto with prims.
Qed.

(** ** Claims *)

Lemma by_api_some {A : Type} (api : string) (a b c d : option A) (x : A) :
  by_api api a b c d = Some x → one_of [ANTHROPIC; OPENAI_CHAT; OPENAI_RESPONSES; GEMINI_AISTUDIO] api = true.
Proof.
  unfold by_api, one_of. cbn [existsb].
  by destruct (String.eqb api ANTHROPIC), (String.eqb api OPENAI_CHAT), (String.eqb api OPENAI_RESPONSES),
    (String.eqb api GEMINI_AISTUDIO).
Qed.

(** No tool-using conversation goes unclaimed, and none claimed by Claude
    Code, opencode or the generic profile goes unplaced: where a body has a tool
    anchor some profile matches, and where one of the three matches it finds a
    session id. *)
Theorem claims_are_placed :
  ∀ (ctx : CallCtx),
    (is_Some (extract_tool_anchored_sig ctx) → is_Some (find_profile build_default_registry ctx)) ∧
    (∀ p, p ∈ [ClaudeCliProfile; OpencodeProfile; GenericProfile] → pf_matches p ctx = true →
       is_Some (pf_extract_session_id p ctx)).
Proof.
  intros ctx. split.
  - intros [us H].
    assert (Hm : pf_matches GenericProfile ctx = true).
    { cbn [pf_matches GenericProfile]. unfold generic_matches. rewrite H, bool_decide_true, andb_true_r by done.
      unfold extract_tool_anchored_sig, tool_anchored, anchor_of in H. destruct (cx_req ctx); [|done].
      cbn [mbind option_bind] in H. destruct (by_api _ _ _ _ _) eqn:E; [|done]. by apply by_api_some in E. }
    unfold find_profile. destruct (List.find _ _) eqn:E; [by eexists|].
    rewrite (find_none _ _ E GenericProfile) in Hm; [done|]. unfold build_default_registry. cbn [In]. tauto.
  - intros p. rewrite !elem_of_cons, elem_of_nil. intros [->|[->|[->|[]]]]; cbn [pf_matches pf_extract_session_id
      ClaudeCliProfile OpencodeProfile GenericProfile].
    + unfold claude_matches, claude_extract_session_id. rewrite !andb_true_iff, orb_true_iff, !bool_decide_eq_true.
      intros [_ H]. destruct (claude_session_header ctx); [done|]. destruct H as [[]|[us ->]]; [done|]. done.
    + unfold opencode_matches, opencode_extract_session_id. rewrite !andb_true_iff, bool_decide_eq_true.
      by intros [_ [s ->]].
    + unfold generic_matches, generic_extract_session_id. rewrite andb_true_iff, bool_decide_eq_true.
      by intros [_ [us ->]].
Qed.

(** ** A conversation keeps its session *)

(** A later request of a conversation: what the first one sent, then what its
    response said, then anything. *)
Inductive continues (req1 resp1 req2 : Value) : string → Prop :=
| continues_anthropic (msgs rest : list Value) (m : Value) :
    get_arr "messages" req1 = Some msgs → Forall (λ x, str_is "role" "assistant" x = false) msgs →
    get_arr "messages" req2 = Some (msgs ++ m :: rest) → str_is "role" "assistant" m = true →
    get_arr "content" m = get_arr "content" resp1 →
    continues req1 resp1 req2 ANTHROPIC
| continues_chat (msgs rest : list Value) (m : Value) :
    get_arr "messages" req1 = Some msgs → Forall (λ x, str_is "role" "assistant" x = false) msgs →
    get_arr "messages" req2 = Some (msgs ++ m :: rest) → str_is "role" "assistant" m = true →
    first_choice resp1 ▷ get "message" = Some m →
    continues req1 resp1 req2 OPENAI_CHAT
| continues_responses (pre users output rest : list Value) :
    get "input" req1 = Some (Array (pre ++ users)) → get_arr "output" resp1 = Some output →
    get "input" req2 = Some (Array (pre ++ users ++ output ++ rest)) →
    Forall (λ it, is_user_message it = false) pre →
    users ≠ [] → Forall (λ it, is_user_message it = true) users →
    output ≠ [] → Forall (λ it, is_user_message it = false) output → Forall (λ it, is_fco it = false) output →
    match rest with it :: _ => is_user_message it || is_fco it = true | [] => True end →
    continues req1 resp1 req2 OPENAI_RESPONSES
| continues_gemini (contents rest : list Value) (c : Value) :
    get_arr "contents" req1 = Some contents → Forall (λ x, str_is "role" "model" x = false) contents →
    get_arr "contents" req2 = Some (contents ++ c :: rest) → str_is "role" "model" c = true →
    get_arr "parts" c = first_candidate resp1 ▷ candidate_parts →
    continues req1 resp1 req2 GEMINI_AISTUDIO.

Lemma find_none_app {A : Type} (f : A → bool) (l k : list A) :
  Forall (λ x, f x = false) l → List.find f (l ++ k) = List.find f k.
Proof. induction 1 as [|x l Hx _ IH]; [done|]. cbn. by rewrite Hx. Qed.

Lemma find_some_app {A : Type} (f : A → bool) (l k : list A) (x : A) :
  List.find f l = Some x → List.find f (l ++ k) = Some x.
Proof. induction l as [|y l IH]; [done|]. cbn. by destruct (f y). Qed.

Lemma find_all_false {A : Type} (f : A → bool) (l : list A) :
  Forall (λ x, f x = false) l → List.find f l = None.
Proof. intros H. rewrite <- (app_nil_r l), find_none_app by done. done. Qed.

(** The user's side of the anchor is found in the first request's part. *)
Lemma bind_find_app {A C : Type} (f : A → bool) (l k : list A) (g : A → option C) (y : C) :
  List.find f l ▷ g = Some y → List.find f (l ++ k) ▷ g = Some y.
Proof. destruct (List.find f l) as [x|] eqn:E; [|done]. by rewrite (find_some_app _ _ k _ E). Qed.

Lemma first_generation_open (pre users : list Value) :
  Forall (λ it, is_user_message it = false) pre → users ≠ [] →
  Forall (λ it, is_user_message it = true) users → first_generation (pre ++ users) = [].
Proof.
  intros Hpre Hne Hus. unfold first_generation. rewrite position_app_no by done.
  assert (H0 : position is_user_message users = Some 0%nat).
  { destruct users as [|u us]; [done|]. apply Forall_cons in Hus as [Hu _]. cbn. by rewrite Hu. }
  rewrite H0. cbn [fmap option_fmap option_map]. rewrite Nat.add_0_r, drop_app_length.
  assert (Hr : user_run users = length users)
    by (pose proof (user_run_app users [] Hus I) as H; by rewrite app_nil_r in H).
  rewrite Hr. assert (Hd : drop (length pre + length users) (pre ++ users) = [])
    by (rewrite <- length_app; by rewrite drop_all).
  rewrite Hd. apply take_nil.
Qed.

Lemma or_else_none {A : Type} (b : option A) : or_else None b = b.
Proof. done. Qed.

(** The anchor of a first request with its response is that of what follows. *)
Lemma anchor_continues (api : string) (req1 resp1 req2 : Value) (resp2 : option Value) (us : text * AssistantSig) :
  continues req1 resp1 req2 api →
  anchor_of api req1 (Some resp1) = Some us → anchor_of api req2 resp2 = Some us.
Proof.
  unfold anchor_of, by_api. cbn [mbind option_bind].
  intros [msgs rest m H1 Hno H2 Hm Hc | msgs rest m H1 Hno H2 Hm Hc
    | pre users output rest H1 Ho H2 Hpre Hne Hus Hone Hou Hof Hrest | contents rest c H1 Hno H2 Hm Hc];
    cbn [String.eqb Ascii.eqb Bool.eqb ANTHROPIC OPENAI_CHAT OPENAI_RESPONSES GEMINI_AISTUDIO].
  - unfold anthropic_first_user_text, anthropic_first_assistant_sig_from_request,
      anthropic_first_assistant_sig_from_response_value. rewrite H1, H2. cbn [mbind option_bind].
    rewrite (find_all_false _ msgs Hno), (find_none_app _ msgs _ Hno). cbn [List.find]. rewrite Hm.
    cbn [mbind option_bind or_else]. rewrite Hc.
    destruct (List.find (str_is "role" "user") msgs) as [u|] eqn:Eu; [|done].
    rewrite (find_some_app _ _ _ _ Eu). cbn [mbind option_bind].
    destruct (get "content" u ▷ _) as [t|]; [|done]. cbn [mbind option_bind].
    by destruct (get_arr "content" resp1 ▷ blocks_sig).
  - unfold chat_first_user_text, chat_first_assistant_sig_from_request,
      chat_first_assistant_sig_from_response_value, first_role. rewrite H1, H2, Hc. cbn [mbind option_bind].
    rewrite (find_all_false _ msgs Hno), (find_none_app _ msgs _ Hno). cbn [List.find]. rewrite Hm.
    cbn [mbind option_bind or_else].
    destruct (List.find (str_is "role" "user") msgs) as [u|] eqn:Eu; [|done].
    rewrite (find_some_app _ _ _ _ Eu). cbn [mbind option_bind].
    destruct (get "content" u ▷ _) as [t|]; [|done]. cbn [mbind option_bind].
    by destruct (chat_message_sig m).
  - rewrite H1, H2. unfold first_assistant_sig_from_input, responses_first_assistant_sig_from_response_value,
      responses_first_user_text. rewrite first_generation_open, first_generation_spec, Ho by done.
    cbn [mbind option_bind]. change (scan_generation_for_sig []) with (@None AssistantSig). cbn [or_else].
    destruct (List.find is_user_message (pre ++ users)) as [u|] eqn:Eu; [|done].
    rewrite app_assoc, (find_some_app _ _ _ _ Eu). cbn [mbind option_bind].
    destruct (message_text u) as [t|]; [|done]. cbn [mbind option_bind].
    by destruct (scan_generation_for_sig output).
  - unfold gemini_first_user_text, gemini_first_assistant_sig_from_request,
      gemini_first_assistant_sig_from_response_value. rewrite H1, H2. cbn [mbind option_bind].
    rewrite (find_all_false _ contents Hno), (find_none_app _ contents _ Hno). cbn [List.find]. rewrite Hm.
    cbn [mbind option_bind]. rewrite Hc.
    destruct (List.find (str_is "role" "user") contents) as [u|] eqn:Eu; [|done].
    rewrite (find_some_app _ _ _ _ Eu). cbn [mbind option_bind].
    destruct (get_arr "parts" u ▷ _) as [t|]; [|done]. cbn [mbind option_bind].
    by destruct (first_candidate resp1 ▷ candidate_parts ▷ parts_sig).
Qed.

(** C19: a conversation keeps its session: where the first request and its
    response give the generic profile a session id, every later request that
    replays them gives the same one, whatever its own response, over each of the
    four APIs. *)
Theorem generic_session_stable :
  ∀ (ctx1 ctx2 : CallCtx) (req1 resp1 req2 : Value) (s : SessionIdExtraction),
    cx_req ctx1 = Some req1 → cx_resp ctx1 = Some resp1 → cx_req ctx2 = Some req2 →
    wire_api_of ctx2 = wire_api_of ctx1 → continues req1 resp1 req2 (wire_api_of ctx1) →
    generic_extract_session_id ctx1 = Some s → generic_extract_session_id ctx2 = Some s.
Proof.
  intros ctx1 ctx2 req1 resp1 req2 s Hq1 Hr1 Hq2 Hapi Hcont.
  unfold generic_extract_session_id, extract_tool_anchored_sig, tool_anchored. rewrite Hq1, Hq2, Hr1, Hapi.
  cbn [mbind option_bind]. destruct (anchor_of _ req1 _) as [us|] eqn:E; [|done].
  by rewrite (anchor_continues _ _ _ _ (cx_resp ctx2) us Hcont E).
Qed.
End AgentRegistry.

(** ** Concrete conversations *)

Definition sample_llm_call (api : string) : LlmCall :=
  mkCall "tap" "id" api "m" Calls.Chat 0 None None [] false None None None None None None None None None None None
    (V4 1) 40000 (V4 2) 443 None [] [] false None None 0 [] 0 None.
Definition sample_ctx (api : string) (req resp : Value) : CallCtx :=
  mkCtx (sample_llm_call api) (Some req) (Some resp).

Definition sample_role (role : string) (content : Value) : Value :=
  obj [("role", Str (B role)); ("content", content)]%string.
Definition sample_tool_use : Value := obj [("type", Str (B "tool_use")); ("id", Str (B "toolu_1"))]%string.
Definition sample_first : list Value := [sample_role "user" (Str (B "hi"))].
Definition sample_req1 : Value := obj [("messages", Array sample_first)]%string.
Definition sample_resp1 : Value := obj [("content", Array [sample_tool_use])]%string.
Definition sample_req2 : Value :=
  obj [("messages", Array (sample_first ++ sample_role "assistant" (Array [sample_tool_use])
        :: [sample_role "user" (Str (B "go on"))]))]%string.

Lemma generic_session_stable_witness :
  generic_extract_session_id (sample_ctx ANTHROPIC sample_req2 Null) = Some (mkSession "toolu_1" false).
Proof.
  apply (generic_session_stable (sample_ctx ANTHROPIC sample_req1 sample_resp1) _ sample_req1 sample_resp1 sample_req2);
    try reflexivity.
  apply (continues_anthropic _ _ _ sample_first [sample_role "user" (Str (B "go on"))]
    (sample_role "assistant" (Array [sample_tool_use])));
    first [vm_compute; reflexivity | repeat (constructor; [vm_compute; reflexivity|]); constructor].
Defined.

Lemma claims_are_placed_witness :
  is_Some (find_profile build_default_registry (sample_ctx ANTHROPIC sample_req2 Null)).
Proof.
  apply (proj1 (claims_are_placed (sample_ctx ANTHROPIC sample_req2 Null))).
  vm_compute. by eexists.
Defined.

Lemma extracted_primitives_ok_witness :
  primitives_ok (pf_extract_primitives GenericProfile (sample_ctx ANTHROPIC sample_req2 Null)).
Proof. apply extracted_primitives_ok. unfold build_default_registry. rewrite !elem_of_cons. do 5 right. by left. Defined.

(** A request may offer markers of both of the profiles recognised by their
    tools; the one registered first takes it. *)
Definition sample_both : CallCtx :=
  sample_ctx ANTHROPIC
    (obj [("tools", Array (map (λ n, obj [("name", Str (B n))])
       ["sessions_spawn"; "sessions_list"; "skill_view"; "cronjob"]))]%string) Null.
Example both_match :
  pf_matches OpenClawProfile sample_both = true ∧ pf_matches HermesProfile sample_both = true ∧
  (pf_name <$> find_profile build_default_registry sample_both) = Some "openclaw"%string.
Proof. vm_compute. done. Qed.
