(* ===== verification/Processor.v ===== *)
(** * The LLM processor (h-llm/src/processor.rs, h-common/src/config.rs)

    From a joined HTTP exchange to a call record: detection, extraction, token
    estimation where the wire gives no usage, latencies, the stored-body cap,
    and the call's agent.  Counters are returned as the list of increments. *)

From Stdlib Require Import Strings.Byte Strings.String ZArith Lia SpecFloat.
From stdpp Require Import base gmap sets list strings.
From S2P Require Import Prelude.
From S2P Require Import Net.
From S2P Require Import Text.
From S2P Require Import Events.
From S2P Require Import Counters.
From S2P Require Import Joiner.
From S2P Require Import Utf8.
From S2P Require Import Calls.
From S2P Require Import Json.
From S2P Require Import JsonSample.
From S2P Require Import Wire.
From S2P Require Import Estimator.
From S2P Require Import Readers.
From S2P Require Import OpenAiChat.
From S2P Require Import Responses.
From S2P Require Import Anthropic.
From S2P Require Import Gemini.
From S2P Require Import WireApis.
From S2P Require Import Classifier.
From S2P Require Import Profile.
From S2P Require Import SessionId.
From S2P Require Import Agents.
From S2P Require Import AgentRegistry.

Open Scope Z_scope.

(** ** The stored-body cap *)

Record BodyCapConfig : Type := mkBodyCap {
  bc_enabled : bool;
  bc_head_bytes : Z;
  bc_tail_bytes : Z;
}.

Definition body_cap_default : BodyCapConfig := mkBodyCap true (256 * 1024) (64 * 1024).

(** [usize::saturating_add]. *)
Definition budget (cap : BodyCapConfig) : Z := Z.min (bc_head_bytes cap + bc_tail_bytes cap) USIZE_MAX.

Definition cap_marker (dropped : Z) : text :=
  [LF] ++ B "...[heron body cap: " ++ to_radix 10 dropped ++ B " bytes elided]..." ++ [LF].

Definition cap_body (body : option text) (cap : BodyCapConfig) : option text * Z :=
  match body with
  | None => (None, 0)
  | Some body =>
      if negb (bc_enabled cap) || (zlen body <=? budget cap) then (Some body, 0)
      else
        let head_end := snap_down body (Z.to_nat (Z.min (bc_head_bytes cap) (zlen body))) in
        let tail_start := snap_up body (Z.to_nat (Z.max 0 (zlen body - bc_tail_bytes cap))) in
        if (tail_start <=? head_end)%nat then (Some body, 0)
        else
          let dropped := Z.of_nat (tail_start - head_end) in
          (Some (take head_end body ++ cap_marker dropped ++ drop tail_start body), dropped)
  end.

(** Everything that is cut is counted, both ends keep their share up to a
    character, and the result is still UTF-8. *)
Definition capped (cap : BodyCapConfig) (body out : text) (dropped : Z) : Prop :=
  ∃ h t, (h < t <= length body)%nat ∧ dropped = Z.of_nat (t - h) ∧
    out = take h body ++ cap_marker dropped ++ drop t body ∧
    bc_head_bytes cap - 3 <= Z.of_nat h <= bc_head_bytes cap ∧
    bc_tail_bytes cap - 3 <= Z.of_nat (length body - t) <= bc_tail_bytes cap ∧
    utf8_valid out = true.

Lemma print_radix_ascii (fuel : nat) (z : Z) (acc : text) :
  0 <= z → Forall (λ b, byteZ b < 0x80) acc → Forall (λ b, byteZ b < 0x80) (print_radix fuel 10 z acc).
Proof.
  revert z acc; induction fuel as [|fuel IH]; intros z acc Hz Hacc; [done|]. cbn [print_radix].
  assert (Hd : byteZ (digit_byte (z `mod` 10)) < 0x80).
  { pose proof (Z.mod_pos_bound z 10 ltac:(lia)) as Hm. unfold digit_byte.
    rewrite (proj2 (Z.ltb_lt (z `mod` 10) 10)) by lia. rewrite byteZ_Zbyte, Z.mod_small; lia. }
  destruct (z <? 10); [by constructor|]. apply IH; [apply Z.div_pos; lia|by constructor].
Qed.

Lemma cap_marker_utf8 (dropped : Z) : 0 <= dropped → utf8_valid (cap_marker dropped) = true.
Proof.
  intros H. apply utf8_valid_ascii. unfold cap_marker. rewrite !Forall_app. split_and!.
  2: apply (bool_decide_unpack _); vm_compute; exact I.
  3: apply (bool_decide_unpack _); vm_compute; exact I.
  1,3: repeat constructor.
  apply print_radix_ascii; [done|constructor].
Qed.

(** C39: the cap keeps what it promises: a body it leaves alone is stored as it is
    with nothing counted, which is every body within budget; any other is its
    first and last bytes, each short of its share by less than a character, with
    the number of bytes cut between them, and stays valid UTF-8. *)
Theorem cap_body_spec :
  ∀ (cap : BodyCapConfig) (body : text),
    0 <= bc_head_bytes cap → 0 <= bc_tail_bytes cap → zlen body <= USIZE_MAX → utf8_valid body = true →
    let '(stored, dropped) := cap_body (Some body) cap in
    if bc_enabled cap && (bc_head_bytes cap + bc_tail_bytes cap <? zlen body)
    then ∃ out, stored = Some out ∧ 0 < dropped ∧ capped cap body out dropped
    else stored = Some body ∧ dropped = 0.
Proof.
  intros cap body Hh Ht Hmax Hv. unfold cap_body, budget.
  destruct (bc_enabled cap); cbn [negb orb andb]; [|done].
  destruct (Z.ltb_spec (bc_head_bytes cap + bc_tail_bytes cap) (zlen body)) as [Hlt|Hge].
  2: rewrite (proj2 (Z.leb_le _ _)) by lia; done.
  rewrite (proj2 (Z.leb_gt _ _)) by lia.
  set (i := Z.to_nat (Z.min (bc_head_bytes cap) (zlen body))).
  set (j := Z.to_nat (Z.max 0 (zlen body - bc_tail_bytes cap))).
  unfold zlen in *.
  assert (Hi : Z.of_nat i = bc_head_bytes cap) by (unfold i; lia).
  assert (Hj : Z.of_nat j = Z.of_nat (length body) - bc_tail_bytes cap) by (unfold j; lia).
  destruct (snap_down_spec body i) as (Bh & Lh & Nh). destruct (snap_up_spec body j) as (Bt & Lt & Nt); [lia|].
  destruct (boundary_near body i Hv) as (lo & hi0 & Hlo & _ & Hlo3 & _ & Blo & _); [lia|].
  destruct (boundary_near body j Hv) as (lo0 & hi & Hhi & Hhil & _ & Hhi3 & _ & Bhi); [lia|].
  assert (lo <= snap_down body i)%nat.
  { destruct (decide (lo <= snap_down body i)%nat); [done|]. rewrite Nh in Blo by lia. done. }
  assert (snap_up body j <= hi)%nat.
  { destruct (decide (snap_up body j <= hi)%nat); [done|]. rewrite Nt in Bhi by lia. done. }
  rewrite (proj2 (Nat.leb_gt _ _)) by lia.
  eexists. split; [done|]. split; [lia|]. exists (snap_down body i), (snap_up body j).
  split_and!; try done; try lia.
  apply utf8_valid_app; [by apply utf8_valid_cut|]. apply utf8_valid_app; [apply cap_marker_utf8; lia|].
  by apply utf8_valid_cut.
Qed.

Lemma cap_body_spec_witness :
  let '(stored, dropped) := cap_body (Some (B "abcdefghij")) (mkBodyCap true 2 3) in
  0 < dropped.
Proof.
  pose proof (cap_body_spec (mkBodyCap true 2 3) (B "abcdefghij")) as H.
  destruct (cap_body (Some (B "abcdefghij")) (mkBodyCap true 2 3)) as [stored dropped].
  destruct H as (out & _ & Hd & _); [cbn; lia|cbn; lia|vm_compute; discriminate|vm_compute; reflexivity|exact Hd].
Defined.

(** A body counted as whole is stored whole. *)
Lemma cap_body_zero (body : option text) (cap : BodyCapConfig) : (cap_body body cap).2 = 0 → (cap_body body cap).1 = body.
Proof.
  destruct body as [b|]; [|done]. unfold cap_body. destruct (_ || _); [done|]. cbv zeta.
  destruct (_ <=? _)%nat eqn:E; [done|]. apply Nat.leb_gt in E. cbn [fst snd]. lia.
Qed.

Lemma cap_body_nonneg (body : option text) (cap : BodyCapConfig) : 0 <= (cap_body body cap).2.
Proof.
  destruct body as [b|]; [|done]. unfold cap_body. destruct (_ || _); [done|]. cbv zeta.
  destruct (_ <=? _)%nat; cbn [fst snd]; lia.
Qed.

Section Processor.
Context `{JT : JsonText} `{TE : TokenEstimator}.

(** ** The agent of a call *)

Definition count_if (b : bool) (m : Metric) : list Metric := if b then [m] else [].

Definition build_agent_call_info_with_parsed (call : LlmCall) (req resp : option Value)
    (registry : list AgentProfile) (wire_apis : list WireApi) (cfg : ClassifierConfig)
    : list Metric * option AgentCallInfo :=
  let ctx := mkCtx call req resp in
  match find_profile registry ctx with
  | None => ([], None)
  | Some profile =>
      let is_generic := String.eqb (pf_name profile) "generic" in
      match pf_extract_session_id profile ctx with
      | None => (count_if is_generic LlmGenericSessionIdSynthFailed, None)
      | Some ids =>
          let primitives := pf_extract_primitives profile ctx in
          let classified := classify primitives cfg in
          (count_if (is_generic && se_tool_id_canonicalized ids) LlmGenericToolIdCanonicalized ++
           count_if (bool_decide (cl_tool_surface classified = Some Unknown)) AgentClassifierUnknownCount ++
           count_if (bool_decide (cl_tool_surface classified = Some Mixed)) AgentClassifierMixedCount,
           Some (mkAgentInfo (pf_name profile) (se_session_id ids) (pf_subagent profile ctx)
                   (pf_is_user_turn_start profile ctx) (pf_is_turn_terminal profile ctx wire_apis)
                   (pf_is_auxiliary profile ctx) (pf_extract_user_input profile ctx)
                   (pf_extract_assistant_text profile ctx) (cl_is_agent_request classified)
                   (cl_tool_surface classified) (cl_agent_topology classified) (ap_tool_names primitives)
                   (ap_tool_call_count primitives) (cl_suspicious_signals classified)))
      end
  end.

(** The read path: the bodies are parsed from the stored record. *)
Definition build_agent_call_info (call : LlmCall) (registry : list AgentProfile) (wire_apis : list WireApi)
    (cfg : ClassifierConfig) : list Metric * option AgentCallInfo :=
  let '(req, resp) := parse_bodies call in
  build_agent_call_info_with_parsed call req resp registry wire_apis cfg.

(** ** Processing *)

Record LlmProcessor : Type := mkProcessor {
  lp_wire_apis : list WireApi;
  lp_registry : list AgentProfile;
  lp_classifier_cfg : ClassifierConfig;
  lp_body_cap : BodyCapConfig;
}.

Definition processor_new (wire_apis : list WireApi) (registry : list AgentProfile) : LlmProcessor :=
  mkProcessor wire_apis registry classifier_config_default body_cap_default.
Definition with_classifier_cfg (p : LlmProcessor) (cfg : ClassifierConfig) : LlmProcessor :=
  mkProcessor (lp_wire_apis p) (lp_registry p) cfg (lp_body_cap p).
Definition with_body_cap (p : LlmProcessor) (cap : BodyCapConfig) : LlmProcessor :=
  mkProcessor (lp_wire_apis p) (lp_registry p) (lp_classifier_cfg p) cap.

Definition on_request (p : LlmProcessor) (req : HttpRequestData) : list Metric * list LlmEvent :=
  match detect (lp_wire_apis p) req (Lazy (req_body req)) with
  | None => ([WireIgnored], [])
  | Some outcome =>
      ([WireDetected],
       [LStart (mkStart (fk_source (req_flow_key req)) (wa_name (do_wire_api outcome))
          (ri_model (do_request_info outcome)) (ri_is_stream (do_request_info outcome))
          (req_client_addr req).1 (req_client_addr req).2 (req_server_addr req).1 (req_server_addr req).2
          (req_timestamp_us req))])
  end.

(** The estimates of an API, [(0, 0)] where it has no estimator. *)
Definition estimate (api : string) (req resp : Value) : Z * Z :=
  if String.eqb api OPENAI_CHAT then (chat_estimate_input_tokens req, chat_estimate_output_tokens resp)
  else if String.eqb api OPENAI_RESPONSES then
    (responses_estimate_input_tokens req, responses_estimate_output_tokens resp)
  else if String.eqb api ANTHROPIC then
    (anthropic_estimate_input_tokens req, anthropic_estimate_output_tokens resp)
  else (0, 0).

Definition with_tokens (i o tot : Z) (r : ResponseInfo) : ResponseInfo :=
  mkRespInfo (rp_model r) (rp_finish_reason r) (Some i) (Some o) (Some tot) (rp_cache_read_input_tokens r)
    (rp_cache_creation_input_tokens r) (rp_response_body r) (rp_response_id r).

(** A success whose body has no usage is counted by the estimator. *)
Definition no_usage (r : ResponseInfo) : bool :=
  (default 0 (rp_input_tokens r) =? 0) && (default 0 (rp_output_tokens r) =? 0).

Definition estimate_tokens (api : string) (request : HttpRequestData) (response : HttpResponseData)
    (info : ResponseInfo) : list Metric * ResponseInfo :=
  if (200 <=? resp_status response) && (resp_status response <? 300) && no_usage info then
    match rp_response_body info ▷ from_slice with
    | None => ([], info)
    | Some resp_json =>
        let req_json := default Null (from_utf8 (req_body request) ▷ from_slice) in
        let '(est_in, est_out) := estimate api req_json resp_json in
        if (0 <? est_in) || (0 <? est_out)
        then ([LlmTokensEstimated], with_tokens est_in est_out (u32_sat_add est_in est_out) info)
        else ([], info)
    end
  else ([], info).

(** [(later - earlier) as f64 / 1000.0] where time has passed. *)
Definition elapsed_ms (earlier later : Z) : option f64 :=
  if earlier <? later then Some (f64_div (f64_of_Z (later - earlier)) (f64_of_Z 1000)) else None.

(** [i + o] wraps around in a release build. *)
Definition total_of (r : ResponseInfo) : option Z :=
  match rp_total_tokens r with
  | Some t => Some t
  | None => match rp_input_tokens r, rp_output_tokens r with
            | Some i, Some o => Some (wrap 32 (i + o))
            | _, _ => None
            end
  end.

Definition extract (p : WireApi) (response : HttpResponseData) (sse_events : list SseEventData)
    : ResponseInfo * ParsedJson :=
  match sse_events with
  | _ :: _ => extract_sse p sse_events
  | [] => let cache := Lazy (resp_body response) in (extract_response p response cache, cache)
  end.

(** The record of an exchange, before its agent is known; [uuid] is its id. *)
Definition build_call (p : LlmProcessor) (uuid api : string) (req_info : RequestInfo) (info : ResponseInfo)
    (request : HttpRequestData) (response : HttpResponseData) : LlmCall :=
  let request_time := req_timestamp_us request in
  let response_time := resp_first_byte_timestamp_us response in
  let complete_time := resp_complete_timestamp_us response in
  let '(request_body, req_dropped) := cap_body (from_utf8 (req_body request)) (lp_body_cap p) in
  let '(response_body, resp_dropped) := cap_body (rp_response_body info) (lp_body_cap p) in
  {| lc_source_id := fk_source (req_flow_key request);
     lc_id := uuid;
     lc_wire_api := api;
     lc_model := default (ri_model req_info) (rp_model info);
     lc_api_type := Calls.Chat;
     lc_request_time := request_time;
     lc_response_time := Some response_time;
     lc_complete_time := Some complete_time;
     lc_request_path := req_uri request;
     lc_is_stream := ri_is_stream req_info;
     lc_request_body := request_body;
     lc_status_code := Some (resp_status response);
     lc_finish_reason := rp_finish_reason info;
     lc_response_body := response_body;
     lc_input_tokens := rp_input_tokens info;
     lc_output_tokens := rp_output_tokens info;
     lc_total_tokens := total_of info;
     lc_cache_read_input_tokens := rp_cache_read_input_tokens info;
     lc_cache_creation_input_tokens := rp_cache_creation_input_tokens info;
     lc_ttft_ms := elapsed_ms request_time response_time;
     lc_e2e_latency_ms := elapsed_ms request_time complete_time;
     lc_client_ip := (req_client_addr request).1;
     lc_client_port := (req_client_addr request).2;
     lc_server_ip := (req_server_addr request).1;
     lc_server_port := (req_server_addr request).2;
     lc_response_id := rp_response_id info;
     lc_request_headers := req_headers request;
     lc_response_headers := resp_headers response;
     lc_is_agent_request := false;
     lc_tool_surface := None;
     lc_agent_topology := None;
     lc_tool_call_count := 0;
     lc_tool_names := [];
     lc_body_bytes_dropped := u64_sat_add req_dropped resp_dropped;
     lc_process := or_else (req_process request) (resp_process response) |}.

Definition on_exchange (p : LlmProcessor) (uuid : string) (request : HttpRequestData)
    (response : HttpResponseData) (sse_events : list SseEventData) : list Metric * list LlmEvent :=
  let req_body_cache := Lazy (req_body request) in
  match detect (lp_wire_apis p) request req_body_cache with
  | None => ([], [])
  | Some outcome =>
      let extractor := do_wire_api outcome in
      let api := wa_name extractor in
      let '(info, resp_body_cache) := extract extractor response sse_events in
      let '(m1, info) := estimate_tokens api request response info in
      let call := build_call p uuid api (do_request_info outcome) info request response in
      let '(m2, agent) :=
        build_agent_call_info_with_parsed call (pj_get req_body_cache) (pj_get resp_body_cache)
          (lp_registry p) (lp_wire_apis p) (lp_classifier_cfg p) in
      (m1 ++ m2, [LComplete call agent])
  end.

Definition process (p : LlmProcessor) (uuid : string) (event : HttpJoinerEvent) : list Metric * list LlmEvent :=
  match event with
  | JRequest req => on_request p req
  | JExchange _ request response sse_events => on_exchange p uuid request response sse_events
  | JHeartbeat ts source_id => ([LlmHeartbeatsReceived], [LHeartbeat ts source_id])
  end.
End Processor.

(** ** A concrete exchange: a first prompt, answered by a tool call *)

Definition sample_exchange_req : HttpRequestData :=
  sample_post "/v1/messages" [("anthropic-version", "2023-06-01")]%string
    (obj [("model", Str (B "claude")); ("messages", Array sample_first)]%string).
Definition sample_exchange_resp : HttpResponseData :=
  mkResp (mkFlowKey "tap" (V4 1, 40000) (V4 2, 443)) (V4 1, 40000) (V4 2, 443) 200 1 []
    (to_string (obj [("model", Str (B "claude-1")); ("stop_reason", Str (B "tool_use"));
                     ("content", Array [sample_tool_use])]%string)) 1500 3000 None.
Definition sample_processor : LlmProcessor :=
  processor_new build_default_wire_api_registry build_default_registry.

(** The one completion among some events. *)
Definition completion_of (es : list LlmEvent) : option (LlmCall * option AgentCallInfo) :=
  match es with [LComplete c a] => Some (c, a) | _ => None end.
Definition sample_completion : option (LlmCall * option AgentCallInfo) :=
  completion_of (on_exchange sample_processor "u1" sample_exchange_req sample_exchange_resp []).2.

Lemma completion_of_Some (es : list LlmEvent) (c : LlmCall) (a : option AgentCallInfo) :
  completion_of es = Some (c, a) → es = [LComplete c a].
Proof. destruct es as [|[]  []]; try done. by intros [= -> ->]. Qed.

Example sample_exchange_call :
  match sample_completion with
  | Some (c, Some a) =>
      Some (lc_model c, lc_input_tokens c, lc_total_tokens c, ai_session_id a, ai_is_turn_terminal a,
            lc_body_bytes_dropped c)
  | _ => None
  end = Some ("claude-1"%string, Some 6, Some 58, "toolu_1"%string, false, 0).
Proof. vm_compute. reflexivity. Qed.
