(* ===== verification/ProcessorSpec.v ===== *)
(** * What the LLM processor guarantees

    The events of one exchange agree with each other, its counts are [u32]s, the
    tokens of the wire are never replaced, and classifying the stored record
    again gives what was classified in flight. *)

From Stdlib Require Import Strings.Byte Strings.String ZArith Lia SpecFloat.
From stdpp Require Import base gmap sets list strings.
From S2P Require Import Prelude.
From S2P Require Import Net.
From S2P Require Import Text.
From S2P Require Import Events.
From S2P Require Import Counters.
From S2P Require Import Joiner.
From S2P Require Import Calls.
From S2P Require Import Json.
From S2P Require Import JsonSample.
From S2P Require Import Wire.
From S2P Require Import Estimator.
From S2P Require Import Readers.
From S2P Require Import OpenAiChat.
From S2P Require Import Responses.
From S2P Require Import Anthropic.
From S2P Require Import Gemini.
From S2P Require Import WireApis.
From S2P Require Import Classifier.
From S2P Require Import Profile.
From S2P Require Import SessionId.
From S2P Require Import Agents.
From S2P Require Import AgentRegistry.
From S2P Require Import Processor.

Open Scope Z_scope.

Section ProcessorSpec.
Context `{JT : JsonText} `{TE : TokenEstimator}.

(** ** Starts and completions *)

(** What is announced is what completes: a request is announced as a call
    exactly when its exchange becomes one, under the same key, wire API and
    stream flag, and under the same model unless the response names another. *)
Theorem start_complete_agree :
  ∀ (p : LlmProcessor) (uuid : string) (req : HttpRequestData) (resp : HttpResponseData)
    (sse : list SseEventData),
    match (on_request p req).2, (on_exchange p uuid req resp sse).2 with
    | [], [] => detect (lp_wire_apis p) req (Lazy (req_body req)) = None
    | [LStart s], [LComplete c _] =>
        call_key c = start_key s ∧ lc_wire_api c = ls_wire_api s ∧ lc_is_stream c = ls_is_stream s ∧
        ∃ api, find_by_name [api] (lc_wire_api c) = Some api ∧
          lc_model c = default (ls_model s) (rp_model (extract api resp sse).1)
    | _, _ => False
    end.
Proof.
  intros p uuid req resp sse. unfold on_request, on_exchange.
  destruct (detect _ _ _) as [[api info]|]; [|done]. cbn [do_wire_api do_request_info snd].
  destruct (extract api resp sse) as [ri cache] eqn:Ex.
  destruct (estimate_tokens _ _ _ ri) as [m1 ri'] eqn:Et.
  destruct (build_agent_call_info_with_parsed _ _ _ _ _ _) as [m2 agent]. cbn [snd].
  unfold build_call. destruct (cap_body _ _) as [b1 d1], (cap_body _ _) as [b2 d2].
  cbn [call_key start_key lc_source_id lc_client_ip lc_client_port lc_server_ip lc_server_port lc_request_time
    ls_source_id ls_client_ip ls_client_port ls_server_ip ls_server_port ls_timestamp_us lc_wire_api
    ls_wire_api lc_is_stream ls_is_stream lc_model ls_model].
  do 3 (split; [done|]). exists api. rewrite Ex. cbn [fst]. split.
  - unfold find_by_name. cbn. by rewrite String.eqb_refl.
  - f_equal. unfold estimate_tokens in Et. repeat case_match; by injection Et as <- <-.
Qed.

(** ** Tokens *)

(** Estimation fills a gap and nothing else: the counts change only for a
    successful response whose body is JSON and in which the wire gave no count,
    to the estimates, their sum capped, and everything else it extracted stays. *)
Theorem estimate_fills_gaps :
  ∀ (api : string) (req : HttpRequestData) (resp : HttpResponseData) (info : ResponseInfo),
    let '(ms, info') := estimate_tokens api req resp info in
    rp_model info' = rp_model info ∧ rp_finish_reason info' = rp_finish_reason info ∧
    rp_response_body info' = rp_response_body info ∧ rp_response_id info' = rp_response_id info ∧
    (info' = info ∧ ms = [] ∨
     200 <= resp_status resp < 300 ∧ default 0 (rp_input_tokens info) = 0 ∧
     default 0 (rp_output_tokens info) = 0 ∧ ms = [LlmTokensEstimated] ∧
     ∃ body i o, rp_response_body info ▷ from_slice = Some body ∧
       estimate api (default Null (from_utf8 (req_body req) ▷ from_slice)) body = (i, o) ∧
       rp_input_tokens info' = Some i ∧ rp_output_tokens info' = Some o ∧
       rp_total_tokens info' = Some (Z.min (i + o) (2 ^ 32 - 1)) ∧ (0 < i ∨ 0 < o)).
Proof.
  intros api req resp info. unfold estimate_tokens, no_usage.
  destruct (Z.leb_spec 200 (resp_status resp)); cbn [andb]; [|by do 4 (split; [done|]); left].
  destruct (Z.ltb_spec (resp_status resp) 300); cbn [andb]; [|by do 4 (split; [done|]); left].
  destruct (Z.eqb_spec (default 0 (rp_input_tokens info)) 0); cbn [andb]; [|by do 4 (split; [done|]); left].
  destruct (Z.eqb_spec (default 0 (rp_output_tokens info)) 0); [|by do 4 (split; [done|]); left].
  destruct (rp_response_body info ▷ from_slice) as [body|] eqn:Eb; [|by do 4 (split; [done|]); left].
  destruct (estimate _ _ _) as [i o] eqn:Ee.
  destruct ((0 <? i) || (0 <? o)) eqn:Ep; [|by do 4 (split; [done|]); left].
  do 4 (split; [done|]). right. split; [done|]. do 3 (split; [done|]). exists body, i, o.
  do 5 (split; [done|]). apply orb_true_iff in Ep. by rewrite !Z.ltb_lt in Ep.
Qed.

(** ** Every count is a [u32] *)

Definition info_u32 (r : ResponseInfo) : Prop :=
  u32_opt (rp_input_tokens r) ∧ u32_opt (rp_output_tokens r) ∧ u32_opt (rp_total_tokens r) ∧
  u32_opt (rp_cache_read_input_tokens r) ∧ u32_opt (rp_cache_creation_input_tokens r).

Lemma bind_u32 (o : option Value) (f : Value → option Z) :
  (∀ v, u32_opt (f v)) → u32_opt (o ▷ f).
Proof. intros H. destruct o as [v|]; [exact (H v)|exact I]. Qed.

Lemma chat_range (v : Value) :
  u32_opt (chat_input_tokens v) ∧ u32_opt (chat_output_tokens v) ∧ u32_opt (chat_total_tokens v) ∧
  u32_opt (chat_cache_read v).
Proof.
  split_and!; try apply or_else_range; try apply get_u32_range. apply bind_u32. intros. apply get_u32_range.
Qed.

#[local] Hint Resolve get_u32_range or_else_range bind_u32 : u32.

Lemma resp_fold_u32 (events : list SseEventData) :
  let a := resp_accumulate events in
  u32_opt (ra_input_tokens a) ∧ u32_opt (ra_output_tokens a) ∧ u32_opt (ra_total_tokens a) ∧
  u32_opt (ra_cache_read a).
Proof.
  unfold resp_accumulate. cbn zeta. induction events as [|e events IH] using rev_ind; [done|].
  rewrite foldl_app. cbn [foldl]. destruct IH as (I1 & I2 & I3 & I4). unfold resp_event.
  destruct (event_is "response.created" e); [by destruct (_ ▷ _)|].
  destruct (event_is "response.output_item.done" e); [by destruct (_ ▷ _)|].
  destruct (event_is "response.completed" e); [|done]. destruct (_ ▷ _) as [r|]; [|done].
  cbn [on_completed ra_input_tokens ra_output_tokens ra_total_tokens ra_cache_read].
  split_and!; apply or_else_range; try done; apply bind_u32; intros; try apply get_u32_range.
  apply bind_u32. intros. apply get_u32_range.
Qed.

Lemma positive_input_range (u : Value) : u32_opt (positive_input u).
Proof.
  unfold positive_input. destruct (get "input_tokens" u ▷ as_u64) as [n|]; [|done]. cbn.
  destruct (0 <? n); [|done]. cbn. by apply wrap_range.
Qed.

Lemma anth_fold_u32 (evs : list typed_event) :
  let a := foldl anth_event anth_acc_new evs in
  u32_opt (aa_input_tokens a) ∧ u32_opt (aa_output_tokens a) ∧ u32_opt (aa_cache_read a) ∧
  u32_opt (aa_cache_creation a).
Proof.
  cbn zeta. induction evs as [|e evs IH] using rev_ind; [done|].
  rewrite foldl_app. cbn [foldl]. destruct IH as (I1 & I2 & I3 & I4). unfold anth_event.
  destruct (ev_is "message_start" e).
  - destruct (get "message" e.2) as [m|]; [|done].
    cbn [on_message_start aa_input_tokens aa_output_tokens aa_cache_read aa_cache_creation].
    split_and!; try done; apply or_else_range; try done; apply bind_u32; intros; apply get_u32_range.
  - destruct (ev_is "message_delta" e); [|done].
    cbn [on_message_delta aa_input_tokens aa_output_tokens aa_cache_read aa_cache_creation].
    split_and!; apply or_else_range; try done; apply bind_u32; intros;
      first [apply positive_input_range | apply get_u32_range].
Qed.

Lemma gemini_info_u32 (o : option Value) (b : option text) : info_u32 (body_response_info o b).
Proof.
  unfold body_response_info, extract_usage. destruct (o ▷ get "usageMetadata") as [u|]; [|done].
  split_and!; try done; apply get_u32_range.
Qed.

Lemma extract_u32 (api : WireApi) (resp : HttpResponseData) (sse : list SseEventData) :
  api ∈ build_default_wire_api_registry → info_u32 (extract api resp sse).1.
Proof.
  assert (Hb : ∀ (o : option Value) f, (∀ v, u32_opt (f v)) → u32_opt (o ▷ get "usage" ▷ f))
    by (intros o f Hf; by apply bind_u32).
  assert (Hg : ∀ k v, u32_opt (get_u32 k v)) by apply get_u32_range.
  unfold build_default_wire_api_registry. rewrite !elem_of_cons, elem_of_nil.
  intros [->|[->|[->|[->|[]]]]]; unfold extract; destruct sse as [|e sse]; cbn [fst extract_response extract_sse
    AnthropicWireApi OpenAiResponsesWireApi GeminiAiStudioWireApi OpenAiChatWireApi].
  - split_and!; try done; by apply Hb.
  - unfold extract_from_sse. cbv zeta. destruct (anth_fold_u32 (map parse_event (e :: sse))) as (?&?&?&?).
    by split_and!.
  - split_and!; try done; apply Hb; try done. intros v. by apply bind_u32.
  - unfold responses_extract_sse. cbv zeta. destruct (resp_fold_u32 (e :: sse)) as (?&?&?&?). by split_and!.
  - apply gemini_info_u32.
  - apply gemini_info_u32.
  - split_and!; try done; apply Hb; intros v; by destruct (chat_range v) as (?&?&?&?).
  - unfold chat_extract_sse. cbv zeta.
    pose proof (chat_fold_spec (omap chat_data (e :: sse))) as (_&_&_&_&_&_&_&Ht&_).
    change (foldl chat_chunk chat_acc_new (omap chat_data (e :: sse))) with (chat_accumulate (e :: sse)) in Ht.
    rewrite usage_fold in Ht. pose proof (usage_of_range (omap usage_block (omap chat_data (e :: sse)))) as Hr.
    rewrite <- Ht in Hr. destruct (ca_tokens _) as [[[i o] t] c]. destruct Hr as (?&?&?&?). by split_and!.
Qed.

(** Estimates saturate. *)
Context `{TEL : !TokenEstimatorLaws TE}.

Definition in_u32 (z : Z) : Prop := 0 <= z < 2 ^ 32.

Lemma add_count_u32 (n : Z) (t : text) : in_u32 n → in_u32 (add_count n t).
Proof. unfold in_u32, add_count, u32_sat_add. pose proof (count_text_range t). lia. Qed.
Lemma add_opt_u32 (n : Z) (o : option text) : in_u32 n → in_u32 (add_opt n o).
Proof. destruct o; [apply add_count_u32|done]. Qed.
Lemma add_json_u32 (n : Z) (v : Value) : in_u32 n → in_u32 (add_json n v).
Proof. apply add_count_u32. Qed.
Lemma foldl_u32 {A : Type} (f : Z → A → Z) (l : list A) (n : Z) :
  (∀ n x, in_u32 n → in_u32 (f n x)) → in_u32 n → in_u32 (foldl f n l).
Proof. intros Hf. revert n; induction l as [|x l IH]; intros n H; [done|]. by apply IH, Hf. Qed.
Lemma zero_u32 : in_u32 0.
Proof. done. Qed.
#[local] Hint Resolve add_count_u32 add_opt_u32 add_json_u32 foldl_u32 zero_u32 : u32.

Lemma estimate_u32 (api : string) (req resp : Value) :
  in_u32 (estimate api req resp).1 ∧ in_u32 (estimate api req resp).2.
Proof.
  unfold estimate. repeat case_match; cbn [fst snd]; try done; (split; [|apply count_text_range]).
  - apply add_opt_u32, foldl_u32, foldl_u32; eauto with u32. intros n m Hn. unfold chat_estimate_message.
    cbv zeta. case_match; eauto 8 with u32.
  - unfold responses_estimate_input_tokens. cbv zeta.
    assert (Hit : ∀ n it, in_u32 n → in_u32 (responses_estimate_item n it)).
    { intros n it Hn. unfold responses_estimate_item. cbv zeta. repeat case_match; eauto 8 with u32. }
    case_match; [apply add_json_u32|]; eauto 8 with u32.
  - unfold anthropic_estimate_input_tokens. cbv zeta.
    assert (Hb : ∀ n b, in_u32 n → in_u32 (anthropic_estimate_block n b)).
    { intros n b Hn. unfold anthropic_estimate_block. repeat case_match; eauto with u32. }
    assert (Hmsg : ∀ n m, in_u32 n → in_u32 (anthropic_estimate_message n m)).
    { intros n m Hn. unfold anthropic_estimate_message. cbv zeta. case_match; eauto 8 with u32. }
    repeat case_match; try apply add_json_u32; do 2 (apply foldl_u32; [eauto with u32|]); eauto with u32.
Qed.

(** The counts of a recorded call, each a [u32] where there is one. *)
Definition counts_in_u32 (c : LlmCall) : Prop :=
  u32_opt (lc_input_tokens c) ∧ u32_opt (lc_output_tokens c) ∧ u32_opt (lc_total_tokens c) ∧
  u32_opt (lc_cache_read_input_tokens c) ∧ u32_opt (lc_cache_creation_input_tokens c).

(** Every count recorded with a call is a [u32], whatever numbers the body
    holds and however large the estimates grow: the counts of the wire are cut
    to 32 bits, estimates saturate, and a sum of both counts wraps around. *)
Lemma call_counts_u32 :
  ∀ (p : LlmProcessor) (uuid : string) (req : HttpRequestData) (resp : HttpResponseData)
    (sse : list SseEventData) (c : LlmCall) (a : option AgentCallInfo),
    (∀ api, api ∈ lp_wire_apis p → api ∈ build_default_wire_api_registry) →
    (on_exchange p uuid req resp sse).2 = [LComplete c a] →
    counts_in_u32 c.
Proof.
  intros p uuid req resp sse c a Hapis. unfold on_exchange.
  destruct (detect _ _ _) as [o|] eqn:Ed; [|done].
  assert (Ho : do_wire_api o ∈ build_default_wire_api_registry).
  { apply Hapis. apply (detect_two_pass _ _ _) in Ed as [[H|(_&_&_&_&H)] _]; by apply first_with_elem in H as [? _]. }
  pose proof (extract_u32 (do_wire_api o) resp sse Ho) as Hx.
  destruct (extract (do_wire_api o) resp sse) as [ri cache]. cbn [fst] in Hx.
  destruct (estimate_tokens _ _ _ ri) as [m1 ri'] eqn:Et.
  destruct (build_agent_call_info_with_parsed _ _ _ _ _ _) as [m2 agent]. cbn [snd]. intros [= <- _].
  assert (Hr : info_u32 ri').
  { unfold estimate_tokens in Et. destruct (_ && no_usage ri); [|by injection Et as _ <-].
    destruct (_ ▷ from_slice) as [rj|]; [|by injection Et as _ <-].
    match type of Et with context [estimate ?x ?y ?z] => pose proof (estimate_u32 x y z) as [Hi Ho'];
      destruct (estimate x y z) as [i o'] end. cbn [fst snd] in Hi, Ho'.
    destruct (_ || _); [|by injection Et as _ <-]. injection Et as _ <-. destruct Hx as (_&_&_&?&?).
    split_and!; cbn; try done. unfold u32_sat_add, in_u32 in *. lia. }
  unfold build_call, counts_in_u32. destruct (cap_body _ _) as [b1 d1], (cap_body _ _) as [b2 d2].
  destruct Hr as (?&?&?&?&?). split_and!; try done. cbn. unfold total_of.
  destruct (rp_total_tokens ri'); [done|]. destruct (rp_input_tokens ri'), (rp_output_tokens ri'); try done.
  cbn. by apply wrap_range.
Qed.
End ProcessorSpec.
