(* ===== verification/LlmStage.v ===== *)
(** * The LLM stage (h-llm/src/stage.rs)

    A worker's loop: each joined event is processed, and each event it yields is
    fanned out, to one metrics shard, to storage, and to the turn shard of its
    session.  Rust's default hasher is a parameter. *)

From Stdlib Require Import Strings.Byte Strings.String ZArith Lia SpecFloat.
From stdpp Require Import base gmap sets list strings.
From S2P Require Import Prelude.
From S2P Require Import Net.
From S2P Require Import Text.
From S2P Require Import Events.
From S2P Require Import Counters.
From S2P Require Import Dispatch.
From S2P Require Import Joiner.
From S2P Require Import Calls.
From S2P Require Import Json.
From S2P Require Import JsonSample.
From S2P Require Import Wire.
From S2P Require Import Estimator.
From S2P Require Import Readers.
From S2P Require Import OpenAiChat.
From S2P Require Import Responses.
From S2P Require Import Anthropic.
From S2P Require Import Gemini.
From S2P Require Import WireApis.
From S2P Require Import Classifier.
From S2P Require Import Profile.
From S2P Require Import Agents.
From S2P Require Import AgentRegistry.
From S2P Require Import Processor.

Open Scope Z_scope.

Definition LLM_WORKER_METRICS : list Metric :=
  [WireDetected; WireIgnored; LlmCallsWithAgent; LlmCallsWithoutAgent; LlmGenericToolIdCanonicalized;
   LlmGenericSessionIdSynthFailed; LlmHeartbeatsReceived; LlmTokensEstimated; MetricsHeartbeatsDropped;
   TurnHeartbeatsDropped; AgentClassifierUnknownCount; AgentClassifierMixedCount].

(** [DefaultHasher] over the fields hashed in turn. *)
Class LlmHasher : Type := {
  turn_hash : string → string → Z;
  metrics_hash : string → string → IpAddr → Z;
}.

Section LlmStage.
Context `{JT : JsonText} `{TE : TokenEstimator} `{LH : LlmHasher}.

Definition turn_shard_index (source_id session_id : string) (n : nat) : nat :=
  Z.to_nat (wrap 64 (turn_hash source_id session_id) `mod` Z.of_nat n).

Definition metrics_index (wire_api model : string) (server_ip : IpAddr) (n : nat) : nat :=
  Z.to_nat (wrap 64 (metrics_hash wire_api model server_ip) `mod` Z.of_nat n).

(** [unreachable!] on a heartbeat. *)
Definition metrics_shard_index (event : LlmEvent) (n : nat) : res nat :=
  match event with
  | LStart s => Ret (metrics_index (ls_wire_api s) (ls_model s) (ls_server_ip s) n)
  | LComplete c _ => Ret (metrics_index (lc_wire_api c) (lc_model c) (lc_server_ip c) n)
  | LHeartbeat _ _ => Panic
  end.

(** The five fields of the classification, written into the record. *)
Definition with_agent (call : LlmCall) (id : AgentCallInfo) : LlmCall :=
  {| lc_source_id := lc_source_id call;
     lc_id := lc_id call;
     lc_wire_api := lc_wire_api call;
     lc_model := lc_model call;
     lc_api_type := lc_api_type call;
     lc_request_time := lc_request_time call;
     lc_response_time := lc_response_time call;
     lc_complete_time := lc_complete_time call;
     lc_request_path := lc_request_path call;
     lc_is_stream := lc_is_stream call;
     lc_request_body := lc_request_body call;
     lc_status_code := lc_status_code call;
     lc_finish_reason := lc_finish_reason call;
     lc_response_body := lc_response_body call;
     lc_input_tokens := lc_input_tokens call;
     lc_output_tokens := lc_output_tokens call;
     lc_total_tokens := lc_total_tokens call;
     lc_cache_read_input_tokens := lc_cache_read_input_tokens call;
     lc_cache_creation_input_tokens := lc_cache_creation_input_tokens call;
     lc_ttft_ms := lc_ttft_ms call;
     lc_e2e_latency_ms := lc_e2e_latency_ms call;
     lc_client_ip := lc_client_ip call;
     lc_client_port := lc_client_port call;
     lc_server_ip := lc_server_ip call;
     lc_server_port := lc_server_port call;
     lc_response_id := lc_response_id call;
     lc_request_headers := lc_request_headers call;
     lc_response_headers := lc_response_headers call;
     lc_is_agent_request := ai_is_agent_request id;
     lc_tool_surface := ai_tool_surface id;
     lc_agent_topology := ai_agent_topology id;
     lc_tool_call_count := ai_tool_call_count id;
     lc_tool_names := ai_tool_names id;
     lc_body_bytes_dropped := lc_body_bytes_dropped call;
     lc_process := lc_process call |}.

Definition stored_call (call : LlmCall) (agent : option AgentCallInfo) : LlmCall :=
  match agent with Some id => with_agent call id | None => call end.

(** ** Sending *)

Inductive Delivery : Type :=
| ToMetrics (shard : nat) (event : LlmEvent)
| ToCalls (call : LlmCall)
| ToTurn (shard : nat) (input : TurnShardInput).

Record StageTxs : Type := mkTxs {
  tx_turn : list Channel;
  tx_metrics : list Channel;
  tx_calls : Channel;
}.

(** What an event leads to: the deliveries, the counters, and whether the worker
    goes on; a closed channel stops it. *)
Record Sent : Type := mkSent {
  st_delivered : list Delivery;
  st_metrics : list Metric;
  st_continue : bool;
}.

(** [try_send] to every channel, a full or closed one is counted. *)
Fixpoint try_broadcast (mk : nat → Delivery) (dropped : Metric) (txs : list Channel) (i : nat)
    : list Delivery * list Metric :=
  match txs with
  | [] => ([], [])
  | tx :: txs' =>
      let '(ds, ms) := try_broadcast mk dropped txs' (S i) in
      if try_send_ok tx then (mk i :: ds, ms) else (ds, dropped :: ms)
  end.

Definition forward (txs : StageTxs) (event : LlmEvent) : res Sent :=
  match event with
  | LHeartbeat ts source_id =>
      let '(d1, m1) := try_broadcast (λ i, ToMetrics i event) MetricsHeartbeatsDropped (tx_metrics txs) 0 in
      let '(d2, m2) :=
        try_broadcast (λ i, ToTurn i (THeartbeat ts source_id)) TurnHeartbeatsDropped (tx_turn txs) 0 in
      Ret (mkSent (d1 ++ d2) (m1 ++ m2) true)
  | _ =>
      match metrics_shard_index event (length (tx_metrics txs)) with
      | Ret idx =>
          match tx_metrics txs !! idx with
          | None => Panic
          | Some mtx =>
              if negb (send_ok mtx) then Ret (mkSent [] [] false)
              else
                match event with
                | LComplete call agent =>
                    let ms := [match agent with Some _ => LlmCallsWithAgent | None => LlmCallsWithoutAgent end] in
                    let stored := stored_call call agent in
                    if negb (send_ok (tx_calls txs)) then Ret (mkSent [ToMetrics idx event] ms false)
                    else
                      match agent with
                      | None => Ret (mkSent [ToMetrics idx event; ToCalls stored] ms true)
                      | Some id =>
                          let t := turn_shard_index (lc_source_id stored) (ai_session_id id) (length (tx_turn txs)) in
                          match tx_turn txs !! t with
                          | None => Panic
                          | Some ttx =>
                              if send_ok ttx
                              then Ret (mkSent [ToMetrics idx event; ToCalls stored;
                                                ToTurn t (TCall (mkAgentCall stored id))] ms true)
                              else Ret (mkSent [ToMetrics idx event; ToCalls stored] ms false)
                          end
                      end
                | _ => Ret (mkSent [ToMetrics idx event] [] true)
                end
          end
      | Panic => Panic
      | OutOfFuel => OutOfFuel
      end
  end.

(** The events of one joined event in turn, until one stops the worker. *)
Fixpoint forward_all (txs : StageTxs) (events : list LlmEvent) : res Sent :=
  match events with
  | [] => Ret (mkSent [] [] true)
  | e :: events' =>
      match forward txs e with
      | Ret s =>
          if st_continue s then
            match forward_all txs events' with
            | Ret s' => Ret (mkSent (st_delivered s ++ st_delivered s') (st_metrics s ++ st_metrics s') (st_continue s'))
            | r => r
            end
          else Ret s
      | r => r
      end
  end.

Definition llm_step (p : LlmProcessor) (txs : StageTxs) (uuid : string) (event : HttpJoinerEvent) : res Sent :=
  let '(ms, events) := process p uuid event in
  match forward_all txs events with
  | Ret s => Ret (mkSent (st_delivered s) (ms ++ st_metrics s) (st_continue s))
  | r => r
  end.

(** ** The worker does not panic *)

Lemma shard_lt (h : Z) (n : nat) : (0 < n)%nat → (Z.to_nat (wrap 64 h `mod` Z.of_nat n) < n)%nat.
Proof. intros Hn. pose proof (Z.mod_pos_bound (wrap 64 h) (Z.of_nat n) ltac:(lia)). lia. Qed.

Lemma shard_lookup {A : Type} (l : list A) (h : Z) :
  l ≠ [] → is_Some (l !! Z.to_nat (wrap 64 h `mod` Z.of_nat (length l))).
Proof. intros Hl. apply lookup_lt_is_Some_2, shard_lt. destruct l; [done|cbn; lia]. Qed.

Definition registered (ms : list Metric) : Prop := Forall (λ m, m ∈ LLM_WORKER_METRICS) ms.

Lemma registered_app (a b : list Metric) : registered a → registered b → registered (a ++ b).
Proof. intros. by apply Forall_app. Qed.
Lemma registered_cons (m : Metric) (l : list Metric) :
  bool_decide (m ∈ LLM_WORKER_METRICS) = true → registered l → registered (m :: l).
Proof. intros H%bool_decide_eq_true Hl. by constructor. Qed.
Lemma registered_if (b : bool) (m : Metric) :
  bool_decide (m ∈ LLM_WORKER_METRICS) = true → registered (count_if b m).
Proof. intros H. destruct b; [by apply registered_cons, Forall_nil_2|apply Forall_nil_2]. Qed.
Lemma registered_nil : registered [].
Proof. apply Forall_nil_2. Qed.
#[local] Hint Resolve registered_app registered_cons registered_if registered_nil : metrics.

Lemma try_broadcast_registered (mk : nat → Delivery) (m : Metric) (l : list Channel) (i : nat) :
  bool_decide (m ∈ LLM_WORKER_METRICS) = true → registered (try_broadcast mk m l i).2.
Proof.
  intros Hm. revert i; induction l as [|tx l IH]; intros i; cbn [try_broadcast]; [apply registered_nil|].
  specialize (IH (S i)). destruct (try_broadcast mk m l (S i)) as [ds ms]. destruct (try_send_ok tx); [done|].
  by apply registered_cons.
Qed.

Lemma forward_runs (txs : StageTxs) (e : LlmEvent) :
  tx_metrics txs ≠ [] → tx_turn txs ≠ [] → ∃ s, forward txs e = Ret s ∧ registered (st_metrics s).
Proof.
  intros Hm Ht. unfold forward. destruct e as [st|c a|ts src].
  - cbn [metrics_shard_index]. unfold metrics_index. destruct (shard_lookup (tx_metrics txs)
      (metrics_hash (ls_wire_api st) (ls_model st) (ls_server_ip st)) Hm) as [tx ->].
    destruct (negb (send_ok tx)); eauto with metrics.
  - cbn [metrics_shard_index]. unfold metrics_index. destruct (shard_lookup (tx_metrics txs)
      (metrics_hash (lc_wire_api c) (lc_model c) (lc_server_ip c)) Hm) as [tx ->].
    destruct (negb (send_ok tx)); [eauto with metrics|].
    assert (Hr : registered [match a with Some _ => LlmCallsWithAgent | None => LlmCallsWithoutAgent end])
      by (destruct a; apply registered_cons; try apply registered_nil; vm_compute; reflexivity).
    destruct (negb (send_ok (tx_calls txs))); [by eexists|]. destruct a as [id|]; [|by eexists].
    cbv zeta. unfold turn_shard_index. destruct (shard_lookup (tx_turn txs)
      (turn_hash (lc_source_id (stored_call c (Some id))) (ai_session_id id)) Ht) as [ttx ->].
    destruct (send_ok ttx); by eexists.
  - pose proof (try_broadcast_registered (λ i, ToMetrics i (LHeartbeat ts src)) MetricsHeartbeatsDropped
      (tx_metrics txs) 0 ltac:(vm_compute; reflexivity)) as H1.
    pose proof (try_broadcast_registered (λ i, ToTurn i (THeartbeat ts src)) TurnHeartbeatsDropped
      (tx_turn txs) 0 ltac:(vm_compute; reflexivity)) as H2.
    destruct (try_broadcast _ MetricsHeartbeatsDropped _ _), (try_broadcast _ TurnHeartbeatsDropped _ _).
    eexists. split; [done|]. by apply registered_app.
Qed.

Lemma forward_all_runs (txs : StageTxs) (es : list LlmEvent) :
  tx_metrics txs ≠ [] → tx_turn txs ≠ [] → ∃ s, forward_all txs es = Ret s ∧ registered (st_metrics s).
Proof.
  intros Hm Ht. induction es as [|e es (s & E & Hs)]; cbn [forward_all]; [eauto with metrics|].
  destruct (forward_runs txs e Hm Ht) as (s1 & -> & H1). destruct (st_continue s1); [|by eexists].
  rewrite E. eexists. split; [done|]. by apply registered_app.
Qed.

Lemma agent_info_registered (c : LlmCall) (req resp : option Value) (reg : list AgentProfile)
    (was : list WireApi) (cfg : ClassifierConfig) :
  registered (build_agent_call_info_with_parsed c req resp reg was cfg).1.
Proof.
  unfold build_agent_call_info_with_parsed. cbv zeta. destruct (find_profile _ _) as [pf|]; [|apply registered_nil].
  destruct (pf_extract_session_id _ _); cbn [fst]; repeat apply registered_app; apply registered_if;
    vm_compute; reflexivity.
Qed.

Lemma estimate_registered (api : string) (req : HttpRequestData) (resp : HttpResponseData) (info : ResponseInfo) :
  registered (estimate_tokens api req resp info).1.
Proof.
  unfold estimate_tokens. destruct (_ && no_usage info); [|apply registered_nil].
  destruct (_ ▷ _); [|apply registered_nil]. cbv zeta. destruct (estimate _ _ _) as [i o].
  destruct (_ || _); cbn [fst]; [|apply registered_nil]. apply registered_cons; [vm_compute; reflexivity|apply registered_nil].
Qed.

Lemma process_registered (p : LlmProcessor) (uuid : string) (e : HttpJoinerEvent) :
  registered (process p uuid e).1.
Proof.
  destruct e as [req|id req resp sse|ts src]; cbn [process].
  - unfold on_request. destruct (detect _ _ _); cbn [fst]; apply registered_cons;
      try apply registered_nil; vm_compute; reflexivity.
  - unfold on_exchange. destruct (detect _ _ _) as [o|]; [|apply registered_nil].
    destruct (extract _ _ _) as [info cache].
    pose proof (estimate_registered (wa_name (do_wire_api o)) req resp info) as H1.
    destruct (estimate_tokens _ _ _ _) as [m1 info']. cbv zeta.
    match goal with |- context [build_agent_call_info_with_parsed ?a ?b ?c ?d ?e ?f] =>
      pose proof (agent_info_registered a b c d e f) as H2;
      destruct (build_agent_call_info_with_parsed a b c d e f) as [m2 agent] end.
    by apply registered_app.
  - apply registered_cons; [vm_compute; reflexivity|apply registered_nil].
Qed.

(** A worker survives whatever it is sent: with at least one shard of each
    kind no index is out of range and nothing unreachable is reached, and every
    counter it bumps is one its worker registered, so none of the panics that
    would tear the pipeline down can happen, channels open, full or closed. *)
Theorem llm_worker_survives :
  ∀ (p : LlmProcessor) (txs : StageTxs) (uuid : string) (event : HttpJoinerEvent),
    tx_metrics txs ≠ [] → tx_turn txs ≠ [] →
    ∃ s, llm_step p txs uuid event = Ret s ∧ Forall (λ m, m ∈ LLM_WORKER_METRICS) (st_metrics s).
Proof.
  intros p txs uuid event Hm Ht. unfold llm_step. pose proof (process_registered p uuid event) as Hp.
  destruct (process p uuid event) as [ms es]. destruct (forward_all_runs txs es Hm Ht) as (s & -> & Hs).
  eexists. split; [done|]. by apply registered_app.
Qed.

(** ** What an exchange delivers *)

(** A processed exchange is one call when its API is detected, and nothing when
    it is not. *)
Lemma exchange_events (p : LlmProcessor) (uuid : string) (req : HttpRequestData) (resp : HttpResponseData)
    (sse : list SseEventData) :
  match detect (lp_wire_apis p) req (Lazy (req_body req)) with
  | None => (on_exchange p uuid req resp sse).2 = []
  | Some o => ∃ c a, (on_exchange p uuid req resp sse).2 = [LComplete c a] ∧ lc_id c = uuid ∧
      lc_source_id c = fk_source (req_flow_key req) ∧ lc_wire_api c = wa_name (do_wire_api o)
  end.
Proof.
  unfold on_exchange. destruct (detect _ _ _) as [o|]; [|done].
  destruct (extract _ _ _) as [info cache]. destruct (estimate_tokens _ _ _ _) as [m1 info']. cbv zeta.
  match goal with |- context [build_agent_call_info_with_parsed ?a ?b ?c ?d ?e ?f] =>
    destruct (build_agent_call_info_with_parsed a b c d e f) as [m2 agent] end.
  eexists _, _. split; [done|]. unfold build_call. by destruct (cap_body _ _), (cap_body _ _).
Qed.

End LlmStage.

(** ** A concrete stage *)

#[local] Instance sample_hasher : LlmHasher := {|
  turn_hash := λ s i, Z.of_nat (String.length s + String.length i);
  metrics_hash := λ w m _, Z.of_nat (String.length w + String.length m);
|}.
Definition sample_txs : StageTxs :=
  mkTxs [mkChannel true false; mkChannel true true] [mkChannel true true; mkChannel true false] (mkChannel true true).

Lemma llm_worker_survives_witness :
  ∃ s, llm_step sample_processor sample_txs "u1" (JHeartbeat 5 "tap") = Ret s ∧
    Forall (λ m, m ∈ LLM_WORKER_METRICS) (st_metrics s).
Proof. exact (llm_worker_survives sample_processor sample_txs "u1" (JHeartbeat 5 "tap") ltac:(done) ltac:(done)). Defined.


(** A later exchange of the same conversation, whose request shows a tool call. *)
Definition sample_exchange_req2 : HttpRequestData :=
  sample_post "/v1/messages" [("anthropic-version", "2023-06-01")]%string
    (insert_key "model" (Str (B "claude")) sample_req2).

(** What metrics receive of it has no surface; what storage receives has one. *)
Example metrics_miss_the_surface :
  match llm_step sample_processor sample_txs "u1" (JExchange "x" sample_exchange_req2 sample_exchange_resp []) with
  | Ret s => omap (λ d, match d with
                        | ToMetrics _ (LComplete c _) => Some (lc_tool_surface c)
                        | ToCalls c => Some (lc_tool_surface c)
                        | _ => None
                        end) (st_delivered s)
  | _ => []
  end = [None; Some Unknown].
Proof. vm_compute. reflexivity. Qed.
