(* ===== verification/ReadPath.v ===== *)
(** * The read path (h-llm/src/processor.rs, build_agent_call_info)

    A stored call is classified again when it is read; this is where it gives
    what was classified as the call went by. *)

From Stdlib Require Import Strings.Byte Strings.String ZArith Lia SpecFloat.
From stdpp Require Import base gmap sets list strings.
From S2P Require Import Prelude.
From S2P Require Import Net.
From S2P Require Import Text.
From S2P Require Import Events.
From S2P Require Import Counters.
From S2P Require Import Dispatch.
From S2P Require Import Joiner.
From S2P Require Import Calls.
From S2P Require Import Json.
From S2P Require Import JsonSample.
From S2P Require Import Wire.
From S2P Require Import Estimator.
From S2P Require Import Readers.
From S2P Require Import OpenAiChat.
From S2P Require Import Responses.
From S2P Require Import Anthropic.
From S2P Require Import Gemini.
From S2P Require Import WireApis.
From S2P Require Import Classifier.
From S2P Require Import Profile.
From S2P Require Import Agents.
From S2P Require Import AgentRegistry.
From S2P Require Import Processor.
From S2P Require Import LlmStage.

Open Scope Z_scope.

Section ReadPath.
Context `{JTL : JsonTextLaws} `{TE : TokenEstimator}.

(** Two contexts a profile cannot tell apart. *)
Definition same_view (x y : CallCtx) (q : AgentProfile) : Prop :=
  pf_matches q x = pf_matches q y ∧ pf_extract_session_id q x = pf_extract_session_id q y ∧
  pf_is_user_turn_start q x = pf_is_user_turn_start q y ∧ pf_subagent q x = pf_subagent q y ∧
  pf_is_auxiliary q x = pf_is_auxiliary q y ∧ pf_extract_user_input q x = pf_extract_user_input q y ∧
  pf_extract_assistant_text q x = pf_extract_assistant_text q y ∧
  pf_extract_primitives q x = pf_extract_primitives q y ∧
  ∀ was, pf_is_turn_terminal q x was = pf_is_turn_terminal q y was.

Lemma same_view_find (x y : CallCtx) (l : list AgentProfile) :
  Forall (same_view x y) l →
  find_profile l x = find_profile l y ∧ ∀ q, find_profile l y = Some q → same_view x y q.
Proof.
  unfold find_profile. induction 1 as [|q l Hq _ [IH1 IH2]]; [done|]. cbn [List.find].
  destruct Hq as [Hm Hq]. rewrite Hm. destruct (pf_matches q y) eqn:E; [|done].
  split; [done|]. intros r [= <-]. split; [congruence|done].
Qed.

Lemma same_view_info (c c' : LlmCall) (req resp : option Value) (reg : list AgentProfile)
    (was : list WireApi) (cfg : ClassifierConfig) :
  Forall (same_view (mkCtx c req resp) (mkCtx c' req resp)) reg →
  build_agent_call_info_with_parsed c req resp reg was cfg
  = build_agent_call_info_with_parsed c' req resp reg was cfg.
Proof.
  intros H. destruct (same_view_find _ _ _ H) as [E Hv]. unfold build_agent_call_info_with_parsed. cbv zeta.
  rewrite E. destruct (find_profile reg (mkCtx c' req resp)) as [q|]; [|done].
  destruct (Hv q eq_refl) as (_ & E2 & E3 & E4 & E5 & E6 & E7 & E8 & E9).
  by rewrite E2, E3, E4, E5, E6, E7, E8, E9.
Qed.

(** The built-in profiles do not read what classification wrote. *)
Lemma classification_unread (c : LlmCall) (id : AgentCallInfo) (req resp : option Value) :
  Forall (same_view (mkCtx (with_agent c id) req resp) (mkCtx c req resp)) build_default_registry.
Proof. unfold build_default_registry. repeat (constructor; [split_and!; reflexivity|]). constructor. Qed.

(** ** Bodies *)

Lemma from_utf8_slice (b : text) : from_utf8 b ▷ from_slice = from_slice b.
Proof.
  unfold from_utf8. destruct (utf8_valid b) eqn:E; [done|]. cbn.
  destruct (from_slice b) as [v|] eqn:Ev; [|done]. apply from_slice_utf8 in Ev. congruence.
Qed.

(** What a built-in API keeps of a response: the body as received, or the text
    of the value it assembled. *)
Lemma api_body (api : WireApi) (resp : HttpResponseData) (sse : list SseEventData) :
  api ∈ build_default_wire_api_registry →
  let '(info, cache) := extract api resp sse in
  (sse = [] ∧ rp_response_body info = from_utf8 (resp_body resp) ∧ cache = Lazy (resp_body resp)) ∨
  (cache = (extract_sse api sse).2 ∧ ∃ o, cache = Eager o ∧ rp_response_body info = to_string <$> o).
Proof.
  unfold build_default_wire_api_registry. rewrite !elem_of_cons, elem_of_nil.
  intros [->|[->|[->|[->|[]]]]]; unfold extract; destruct sse as [|e sse].
  - left. done.
  - cbn [extract_sse AnthropicWireApi]. unfold extract_from_sse. cbv zeta. right. split; [done|]. by eexists.
  - left. done.
  - cbn [extract_sse OpenAiResponsesWireApi]. unfold responses_extract_sse. cbv zeta. right. split; [done|]. by eexists.
  - left. split; [done|]. split; [|done]. cbn [extract_response GeminiAiStudioWireApi].
    unfold gemini_extract_response, body_response_info. by destruct (extract_usage _) as [[[? ?] ?] ?].
  - cbn [extract_sse GeminiAiStudioWireApi]. unfold gemini_extract_sse, body_response_info. cbv zeta.
    destruct (extract_usage _) as [[[? ?] ?] ?]. right. split; [done|]. by eexists.
  - left. done.
  - cbn [extract_sse OpenAiChatWireApi]. unfold chat_extract_sse. cbv zeta.
    destruct (ca_tokens _) as [[[? ?] ?] ?]. right. split; [done|]. by eexists.
Qed.

Lemma estimate_body (api : string) (req : HttpRequestData) (resp : HttpResponseData) (info : ResponseInfo) :
  rp_response_body (estimate_tokens api req resp info).2 = rp_response_body info.
Proof.
  unfold estimate_tokens. destruct (_ && _); [|done]. destruct (_ ▷ _); [|done]. cbv zeta.
  destruct (estimate _ _ _) as [i o]. by destruct (_ || _).
Qed.

(** What the processor's APIs assemble of these events prints and parses back. *)
Definition assembled_reads_back (p : LlmProcessor) (sse : list SseEventData) : Prop :=
  ∀ api v, api ∈ lp_wire_apis p → pj_get (extract_sse api sse).2 = Some v →
    value_ok v ∧ (depth v < RECURSION_LIMIT)%nat.

(** C15: reading a stored call back gives what was known as it went by: for a call
    stored whole, with the built-in APIs and profiles, classifying the stored
    record again, its classification already in it, yields the same agent
    information, as long as an assembled body is one the JSON printer and parser
    preserve. *)
Theorem stored_call_reclassifies :
  ∀ (p : LlmProcessor) (uuid : string) (req : HttpRequestData) (resp : HttpResponseData)
    (sse : list SseEventData) (c : LlmCall) (a : option AgentCallInfo),
    lp_registry p = build_default_registry →
    (∀ api, api ∈ lp_wire_apis p → api ∈ build_default_wire_api_registry) →
    assembled_reads_back p sse →
    (on_exchange p uuid req resp sse).2 = [LComplete c a] → lc_body_bytes_dropped c = 0 →
    (build_agent_call_info (stored_call c a) (lp_registry p) (lp_wire_apis p) (lp_classifier_cfg p)).2 = a.
Proof.
  intros p uuid req resp sse c a Hreg Hapis Hprint. unfold on_exchange.
  destruct (detect _ _ _) as [o|] eqn:Ed; [|done].
  assert (Ho : do_wire_api o ∈ lp_wire_apis p).
  { apply (detect_two_pass _ _ _) in Ed as [[H|(_&_&_&_&H)] _]; by apply first_with_elem in H as [? _]. }
  specialize (Hprint (do_wire_api o)). pose proof (api_body (do_wire_api o) resp sse (Hapis _ Ho)) as Hb.
  destruct (extract (do_wire_api o) resp sse) as [ri cache].
  pose proof (estimate_body (wa_name (do_wire_api o)) req resp ri) as He.
  destruct (estimate_tokens _ _ _ ri) as [m1 ri']. cbn [snd] in He. cbv zeta.
  match goal with |- context [build_agent_call_info_with_parsed ?x _ _ _ _ _] => set (call := x) end.
  destruct (build_agent_call_info_with_parsed _ _ _ _ _ _) as [m2 agent] eqn:Ea. cbn [snd].
  intros [= <- <-] Hz.
  assert (Hbodies : lc_request_body call = from_utf8 (req_body req) ∧ lc_response_body call = rp_response_body ri').
  { revert Hz. unfold call, build_call.
    pose proof (cap_body_zero (from_utf8 (req_body req)) (lp_body_cap p)) as Z1.
    pose proof (cap_body_nonneg (from_utf8 (req_body req)) (lp_body_cap p)) as N1.
    pose proof (cap_body_zero (rp_response_body ri') (lp_body_cap p)) as Z2.
    pose proof (cap_body_nonneg (rp_response_body ri') (lp_body_cap p)) as N2.
    destruct (cap_body (from_utf8 _) _) as [b1 d1], (cap_body (rp_response_body _) _) as [b2 d2].
    cbn in *. unfold u64_sat_add. intros Hz. rewrite Z1, Z2 by lia. done. }
  destruct Hbodies as [B1 B2].
  assert (Hresp : rp_response_body ri' ▷ from_slice = pj_get cache).
  { rewrite He. destruct Hb as [(_ & -> & ->)|(Hc & v & -> & ->)]; [apply from_utf8_slice|].
    destruct v as [v|]; [|done]. cbn. rewrite <- Hc in Hprint.
    apply from_slice_to_string; by apply (Hprint v Ho eq_refl). }
  assert (Hparse : parse_bodies (stored_call call agent) = (pj_get (Lazy (req_body req)), pj_get cache)).
  { unfold parse_bodies. assert (E : ∀ x : option AgentCallInfo,
      lc_request_body (stored_call call x) = lc_request_body call ∧
      lc_response_body (stored_call call x) = lc_response_body call) by (by intros [x|]).
    destruct (E agent) as [-> ->]. rewrite B1, B2, Hresp. cbn [pj_get]. by rewrite from_utf8_slice. }
  unfold build_agent_call_info. rewrite Hparse, Hreg. rewrite Hreg in Ea.
  destruct agent as [id|]; cbn [stored_call]; [|by rewrite Ea].
  rewrite (same_view_info (with_agent call id) call) by apply classification_unread. by rewrite Ea.
Qed.
End ReadPath.

Lemma stored_call_reclassifies_witness :
  match sample_completion with
  | Some (c, a) =>
      (build_agent_call_info (stored_call c a) build_default_registry build_default_wire_api_registry
         classifier_config_default).2 = a
  | None => False
  end.
Proof.
  assert (Hs : match sample_completion with Some (c, _) => lc_body_bytes_dropped c =? 0 | None => false end = true)
    by (vm_compute; reflexivity).
  destruct sample_completion as [[c a]|] eqn:E; [|discriminate Hs]. apply completion_of_Some in E.
  apply Z.eqb_eq in Hs.
  apply (stored_call_reclassifies sample_processor "u1" sample_exchange_req sample_exchange_resp [] c a);
    [reflexivity|done| |exact E|exact Hs].
  intros api v Hapi. cbn [lp_wire_apis sample_processor processor_new] in Hapi. revert Hapi.
  unfold build_default_wire_api_registry. rewrite !elem_of_cons, elem_of_nil.
  intros [->|[->|[->|[->|[]]]]] H; vm_compute in H; discriminate H.
Defined.
