(* ===== verification/Export.v ===== *)
(** * Training trajectories (h-export)

    A stored request and response, of either of two wire formats, as one
    conversation in the [messages] format of fine-tuning, and that conversation
    as a JSON value.  The bodies are values already parsed; only the arguments
    of a tool call are parsed here. *)

From Stdlib Require Import Strings.Byte Strings.String ZArith Lia.
From stdpp Require Import base gmap sets list strings.
From S2P Require Import Prelude.
From S2P Require Import Text.
From S2P Require Import Json.
From S2P Require Import JsonSample.
From S2P Require Import Wire.
From S2P Require Import Readers.
From S2P Require Import OpenAiChat.
From S2P Require Import Anthropic.

Open Scope Z_scope.

Inductive ExportError : Type :=
| UnsupportedWireApi (wire : string)
| BodyTruncated
| MissingTerminalBody
| Malformed (wire : string) (what : text).

Section Formats.
Context `{JT : JsonText}.

Record ToolCallFunction : Type := mkFunction { tf_name : text; tf_arguments : Value }.
Record ToolCall : Type := mkToolCall { tc_id : text; tc_kind : text; tc_function : ToolCallFunction }.

Record Message : Type := mkMessage {
  msg_role : text;
  msg_content : option text;
  msg_reasoning_content : option text;
  msg_tool_calls : option (list ToolCall);
  msg_tool_call_id : option text;
  msg_name : option text;
}.

Record TrainingTrajectory : Type := mkTrajectory {
  tt_messages : list Message;
  tt_tools : list Value;
  tt_meta : Value;
}.

Definition with_meta (t : TrainingTrajectory) (meta : Value) : TrainingTrajectory :=
  mkTrajectory (tt_messages t) (tt_tools t) meta.

(** A message of a role and a text, the other fields at their default. *)
Definition plain_message (role : text) (content : text) : Message :=
  mkMessage role (Some content) None None None None.

(** [Some] of a text or a list that is not empty. *)
Definition nonempty {A : Type} (l : list A) : option (list A) := match l with [] => None | _ => Some l end.

Definition arguments_to_dict (args : option Value) : Value :=
  match args with
  | Some (Str s) => default (Object []) (from_slice s)
  | Some other => other
  | None => Object []
  end.

(** ** From Chat Completions *)

(** The text of a part: its [text], or itself where it is a string. *)
Definition part_text (p : Value) : option text := or_else (get_str "text" p) (as_str p).

Definition content_to_string (content : option Value) : option text :=
  match content with
  | Some (Str s) => nonempty s
  | Some (Array parts) => nonempty (concat (omap part_text parts))
  | _ => None
  end.

Definition convert_tool_call (tc : Value) : option ToolCall :=
  function ← get "function" tc;
  Some (mkToolCall (default [] (get_str "id" tc)) (B "function")
          (mkFunction (default [] (get_str "name" function)) (arguments_to_dict (get "arguments" function)))).

(** [reasoning] is read only where there is no key [reasoning_content]. *)
Definition convert_message (m : Value) : Message :=
  mkMessage (default [] (get_str "role" m))
    (content_to_string (get "content" m))
    (or_else (get "reasoning_content" m) (get "reasoning" m) ▷ as_str ▷ nonempty)
    (get_arr "tool_calls" m ▷ λ arr, nonempty (omap (M := list) convert_tool_call arr))
    (get_str "tool_call_id" m)
    (get_str "name" m).

Definition final_message (resp : Value) : option Value :=
  get_arr "choices" resp ▷ head ▷ get "message".

Definition openai_reconstruct (req resp : Value) : TrainingTrajectory + ExportError :=
  match get_arr "messages" req with
  | None => inr (Malformed OPENAI_CHAT (B "request has no messages[]"))
  | Some req_msgs =>
      inl (mkTrajectory
             (map convert_message req_msgs
              ++ match final_message resp with Some msg => [convert_message msg] | None => [] end)
             (default [] (get_arr "tools" req)) (Object []))
  end.

(** ** From Messages *)

Definition system_to_string (sys : Value) : option text :=
  match sys with
  | Str s => Some s
  | Array blocks => Some (join [] (omap (get_str "text") blocks))
  | _ => None
  end.

Definition tool_result_content_to_string (content : option Value) : text :=
  match content with
  | Some (Str s) => s
  | Some (Array blocks) => concat (omap part_text blocks)
  | Some other => to_string other
  | None => []
  end.

(** A block of an assistant's content, its type decided by the string [type]. *)
Definition tool_use_of (b : Value) : ToolCall :=
  mkToolCall (default [] (get_str "id" b)) (B "function")
    (mkFunction (default [] (get_str "name" b)) (arguments_to_dict (get "input" b))).

Definition assistant_block (acc : text * text * list ToolCall) (b : Value) : text * text * list ToolCall :=
  let '(text_, thinking, tool_calls) := acc in
  if str_is "type" "text" b then (text_ ++ default [] (get_str "text" b), thinking, tool_calls)
  else if str_is "type" "thinking" b then (text_, thinking ++ default [] (get_str "thinking" b), tool_calls)
  else if str_is "type" "tool_use" b then (text_, thinking, tool_calls ++ [tool_use_of b])
  else acc.

Definition assistant_from_content (content role : option Value) : option Message :=
  let role := default (B "assistant") (role ▷ as_str) in
  match content with
  | Some (Str s) => match s with [] => None | _ => Some (plain_message role s) end
  | Some (Array blocks) =>
      let '(text_, thinking, tool_calls) := foldl assistant_block ([], [], []) blocks in
      match text_, thinking, tool_calls with
      | [], [], [] => None
      | _, _, _ =>
          Some (mkMessage role (nonempty text_) (nonempty thinking) (nonempty tool_calls) None None)
      end
  | _ => None
  end.

Definition tool_result_of (b : Value) : Message :=
  mkMessage (B "tool") (Some (tool_result_content_to_string (get "content" b))) None None
    (get_str "tool_use_id" b) None.

Definition user_content_block (acc : text * list Message) (b : Value) : text * list Message :=
  let '(user_text, out) := acc in
  if str_is "type" "tool_result" b then (user_text, out ++ [tool_result_of b])
  else if str_is "type" "text" b then (user_text ++ default [] (get_str "text" b), out)
  else acc.

(** [out] is the messages so far. *)
Definition convert_request_message_into (m : Value) (out : list Message) : list Message :=
  if str_is "role" "assistant" m then
    match assistant_from_content (get "content" m) (get "role" m) with
    | Some asst => out ++ [asst]
    | None => out
    end
  else
    match get "content" m with
    | Some (Str s) => out ++ [plain_message (B "user") s]
    | Some (Array blocks) =>
        let '(user_text, out) := foldl user_content_block ([], out) blocks in
        match user_text with [] => out | _ => out ++ [plain_message (B "user") user_text] end
    | _ => out
    end.

Definition convert_tool_schema (t : Value) : Value :=
  let func := map_insert "name" (default (Str []) (get "name" t)) [] in
  let func := match get "description" t with Some desc => map_insert "description" desc func | None => func end in
  let func := map_insert "parameters" (default (Object []) (get "input_schema" t)) func in
  obj [("type", Str (B "function")); ("function", Object func)]%string.

(** The leading message of a [system] that is not empty. *)
Definition system_messages (req : Value) : list Message :=
  match get "system" req ▷ system_to_string with
  | Some ((_ :: _) as text_) => [plain_message (B "system") text_]
  | _ => []
  end.

Definition anthropic_reconstruct (req resp : Value) : TrainingTrajectory + ExportError :=
  let messages := system_messages req in
  match get_arr "messages" req with
  | None => inr (Malformed ANTHROPIC (B "request has no messages[]"))
  | Some req_msgs =>
      let messages := foldl (λ out m, convert_request_message_into m out) messages req_msgs in
      let messages := match assistant_from_content (get "content" resp) (get "role" resp) with
                      | Some asst => messages ++ [asst]
                      | None => messages
                      end in
      inl (mkTrajectory messages (map convert_tool_schema (default [] (get_arr "tools" req))) (Object []))
  end.

Definition reconstruct_trajectory (wire_api : string) (request_body response_body : Value)
    : TrainingTrajectory + ExportError :=
  if String.eqb wire_api OPENAI_CHAT then openai_reconstruct request_body response_body
  else if String.eqb wire_api ANTHROPIC then anthropic_reconstruct request_body response_body
  else inr (UnsupportedWireApi wire_api).

(** ** The value serialised: absent fields and an empty [tools] are left out *)

Definition opt_field {A : Type} (k : string) (f : A → Value) (o : option A) : list (string * Value) :=
  match o with Some a => [(k, f a)] | None => [] end.

Definition function_value (f : ToolCallFunction) : Value :=
  obj [("name", Str (tf_name f)); ("arguments", tf_arguments f)]%string.
Definition call_value (c : ToolCall) : Value :=
  obj [("id", Str (tc_id c)); ("type", Str (tc_kind c)); ("function", function_value (tc_function c))]%string.
Definition message_value (m : Message) : Value :=
  obj ([("role"%string, Str (msg_role m))] ++ opt_field "content" Str (msg_content m)
       ++ opt_field "reasoning_content" Str (msg_reasoning_content m)
       ++ opt_field "tool_calls" (λ l, Array (map call_value l)) (msg_tool_calls m)
       ++ opt_field "tool_call_id" Str (msg_tool_call_id m) ++ opt_field "name" Str (msg_name m)).
Definition trajectory_value (t : TrainingTrajectory) : Value :=
  obj ([("messages"%string, Array (map message_value (tt_messages t)))]
       ++ opt_field "tools" Array (nonempty (tt_tools t)) ++ [("_meta"%string, tt_meta t)]).
End Formats.

(** ** What the messages of a trajectory carry *)

Section Channels.
Context `{JT : JsonText}.

Definition calls_of (l : list Message) : list ToolCall := concat (map (λ m, default [] (msg_tool_calls m)) l).
Definition reasoning_of (l : list Message) : text := concat (map (λ m, default [] (msg_reasoning_content m)) l).
Definition of_role (role : string) (l : list Message) : list Message :=
  filter (λ m, msg_role m = B role) l.
Definition contents_of (role : string) (l : list Message) : text :=
  concat (map (λ m, default [] (msg_content m)) (of_role role l)).

(** The same of the messages of a request. *)
Definition content_blocks (ty : string) (v : Value) : list Value :=
  List.filter (str_is "type" ty) (default [] (get_arr "content" v)).
Definition content_text (v : Value) : text :=
  match get "content" v with
  | Some (Str s) => s
  | _ => concat (omap (get_str "text") (content_blocks "text" v))
  end.
Definition content_thinking (v : Value) : text :=
  concat (omap (get_str "thinking") (content_blocks "thinking" v)).
Definition assistants (msgs : list Value) : list Value := List.filter (str_is "role" "assistant") msgs.
Definition others (msgs : list Value) : list Value :=
  List.filter (λ m, negb (str_is "role" "assistant" m)) msgs.

Lemma calls_of_app (a b : list Message) : calls_of (a ++ b) = calls_of a ++ calls_of b.
Proof. unfold calls_of. by rewrite map_app, concat_app. Qed.
Lemma reasoning_of_app (a b : list Message) : reasoning_of (a ++ b) = reasoning_of a ++ reasoning_of b.
Proof. unfold reasoning_of. by rewrite map_app, concat_app. Qed.
Lemma of_role_app (r : string) (a b : list Message) : of_role r (a ++ b) = of_role r a ++ of_role r b.
Proof. apply list.filter_app. Qed.
Lemma contents_of_app (r : string) (a b : list Message) :
  contents_of r (a ++ b) = contents_of r a ++ contents_of r b.
Proof. unfold contents_of. by rewrite of_role_app, map_app, concat_app. Qed.

Lemma str_is_iff (k s : string) (v : Value) : str_is k s v = true ↔ get_str k v = Some (B s).
Proof. unfold str_is. apply bool_decide_eq_true. Qed.

Lemma str_is_excl (k s s' : string) (v : Value) :
  B s ≠ B s' → str_is k s v = true → str_is k s' v = false.
Proof. unfold str_is. rewrite bool_decide_eq_true, bool_decide_eq_false. congruence. Qed.

Lemma default_nonempty {A : Type} (l : list A) : default [] (nonempty l) = l.
Proof. by destruct l. Qed.

(** ** The folds over blocks *)

Lemma concat_omap_cons {A : Type} (f : A → option text) (x : A) (l : list A) :
  concat (omap f (x :: l)) = default [] (f x) ++ concat (omap f l).
Proof. cbn. by destruct (f x). Qed.

Lemma assistant_blocks (l : list Value) (t h : text) (c : list ToolCall) :
  foldl assistant_block (t, h, c) l
  = (t ++ concat (omap (get_str "text") (List.filter (str_is "type" "text") l)),
     h ++ concat (omap (get_str "thinking") (List.filter (str_is "type" "thinking") l)),
     c ++ map tool_use_of (List.filter (str_is "type" "tool_use") l)).
Proof.
  revert t h c; induction l as [|b l IH]; intros t h c; [by rewrite !app_nil_r|].
  cbn [foldl]. unfold assistant_block at 2.
  destruct (str_is "type" "text" b) eqn:E1; [|destruct (str_is "type" "thinking" b) eqn:E2;
    [|destruct (str_is "type" "tool_use" b) eqn:E3]]; rewrite IH; cbn [List.filter].
  - rewrite E1, !(str_is_excl "type" "text" _ b) by done. by rewrite concat_omap_cons, <- app_assoc.
  - rewrite E1, E2, (str_is_excl "type" "thinking" "tool_use" b) by done.
    by rewrite concat_omap_cons, <- app_assoc.
  - rewrite E1, E2, E3. cbn [map]. by rewrite <- app_assoc.
  - by rewrite E1, E2, E3.
Qed.

Lemma user_blocks (l : list Value) (t : text) (out : list Message) :
  foldl user_content_block (t, out) l
  = (t ++ concat (omap (get_str "text") (List.filter (str_is "type" "text") l)),
     out ++ map tool_result_of (List.filter (str_is "type" "tool_result") l)).
Proof.
  revert t out; induction l as [|b l IH]; intros t out; [by rewrite !app_nil_r|].
  cbn [foldl]. unfold user_content_block at 2.
  destruct (str_is "type" "tool_result" b) eqn:E1; [|destruct (str_is "type" "text" b) eqn:E2];
    rewrite IH; cbn [List.filter].
  - rewrite E1, (str_is_excl "type" "tool_result" "text" b) by done. cbn [map]. by rewrite <- app_assoc.
  - rewrite E1, E2. by rewrite concat_omap_cons, <- app_assoc.
  - by rewrite E1, E2.
Qed.

(** ** One message of a request *)

Definition rendered (m : Value) : list Message := convert_request_message_into m [].
Definition answer (content role : option Value) : list Message :=
  match assistant_from_content content role with Some a => [a] | None => [] end.

(** A text as the user's message, where there is one. *)
Definition said (t : text) : list Message := match t with [] => [] | _ => [plain_message (B "user") t] end.

(** A message that is not the assistant's: its tool results, then its text. *)
Definition user_rendered (m : Value) : list Message :=
  match get "content" m with
  | Some (Str s) => [plain_message (B "user") s]
  | Some (Array blocks) =>
      map tool_result_of (content_blocks "tool_result" m)
      ++ said (content_text m)
  | _ => []
  end.

Lemma content_array (ty : string) (m : Value) (l : list Value) :
  get "content" m = Some (Array l) → content_blocks ty m = List.filter (str_is "type" ty) l.
Proof. intros E. unfold content_blocks, get_arr. by rewrite E. Qed.

Lemma into_app (m : Value) (out : list Message) :
  convert_request_message_into m out
  = out ++ if str_is "role" "assistant" m then answer (get "content" m) (get "role" m) else user_rendered m.
Proof.
  unfold convert_request_message_into, answer, user_rendered.
  destruct (str_is "role" "assistant" m).
  { destruct (assistant_from_content _ _); [done|by rewrite app_nil_r]. }
  unfold content_text. destruct (get "content" m) as [[]|] eqn:E; try done; try by rewrite app_nil_r.
  rewrite user_blocks, !(content_array _ _ _ E). cbn [app].
  destruct (concat _); [by rewrite app_nil_r|by rewrite app_assoc].
Qed.

Lemma rendered_eq (m : Value) :
  rendered m = if str_is "role" "assistant" m then answer (get "content" m) (get "role" m) else user_rendered m.
Proof. unfold rendered. by rewrite into_app. Qed.

Lemma fold_rendered (l : list Value) (out : list Message) :
  foldl (λ out m, convert_request_message_into m out) out l = out ++ concat (map rendered l).
Proof.
  revert out; induction l as [|m l IH]; intros out; [by rewrite app_nil_r|]. cbn [foldl map concat].
  by rewrite IH, into_app, <- rendered_eq, <- app_assoc.
Qed.

Lemma of_role_one (r : string) (m : Message) :
  of_role r [m] = if decide (msg_role m = B r) then [m] else [].
Proof. unfold of_role. cbn [filter list_filter]. by destruct (decide _). Qed.
Lemma contents_of_one (r : string) (m : Message) :
  contents_of r [m] = if decide (msg_role m = B r) then default [] (msg_content m) else [].
Proof.
  unfold contents_of. rewrite of_role_one. destruct (decide _); [|done]. cbn [map concat]. apply app_nil_r.
Qed.
Lemma calls_of_one (m : Message) : calls_of [m] = default [] (msg_tool_calls m).
Proof. apply app_nil_r. Qed.
Lemma reasoning_of_one (m : Message) : reasoning_of [m] = default [] (msg_reasoning_content m).
Proof. apply app_nil_r. Qed.

(** The answer of an assistant carries its blocks, by kind. *)
Lemma answer_carries (v : Value) (content role : option Value) :
  content = get "content" v → role = get "role" v →
  default (B "assistant") (get_str "role" v) = B "assistant" →
  let a := answer content role in
  calls_of a = map tool_use_of (content_blocks "tool_use" v) ∧ reasoning_of a = content_thinking v ∧
  of_role "tool" a = [] ∧ contents_of "user" a = [] ∧ contents_of "assistant" a = content_text v.
Proof.
  intros -> -> Hr. unfold answer, assistant_from_content. unfold get_str in Hr. rewrite Hr. clear Hr.
  unfold content_thinking, content_text, content_blocks, get_arr.
  destruct (get "content" v) as [[]|]; try done.
  { destruct s as [|b s]; [done|].
    by rewrite calls_of_one, reasoning_of_one, of_role_one, !contents_of_one. }
  cbn [mbind option_bind as_array default]. rewrite assistant_blocks. cbn [app].
  set (t := concat (omap (get_str "text") _)). set (h := concat (omap (get_str "thinking") _)).
  set (c := map _ _).
  assert (Hm : let a := mkMessage (B "assistant") (nonempty t) (nonempty h) (nonempty c) None None in
    calls_of [a] = c ∧ reasoning_of [a] = h ∧ of_role "tool" [a] = [] ∧ contents_of "user" [a] = [] ∧
    contents_of "assistant" [a] = t).
  { cbv zeta. rewrite calls_of_one, reasoning_of_one, of_role_one, !contents_of_one.
    cbn [msg_role msg_content msg_tool_calls msg_reasoning_content]. rewrite !default_nonempty.
    rewrite (decide_True (P := B "assistant" = B "assistant")) by done. by rewrite !decide_False by done. }
  destruct t; [destruct h; [destruct c|]|]; done.
Qed.

Lemma tool_results_carry (l : list Value) :
  let a := map tool_result_of l in
  calls_of a = [] ∧ reasoning_of a = [] ∧ of_role "tool" a = a ∧ contents_of "user" a = [] ∧
  contents_of "assistant" a = [].
Proof.
  cbv zeta. induction l as [|b l (I1 & I2 & I3 & I4 & I5)]; [done|]. cbn [map].
  change (tool_result_of b :: map tool_result_of l) with ([tool_result_of b] ++ map tool_result_of l).
  by rewrite calls_of_app, reasoning_of_app, of_role_app, !contents_of_app, I1, I2, I3, I4, I5,
    calls_of_one, reasoning_of_one, of_role_one, !contents_of_one.
Qed.
End Channels.

(** ** What an exported conversation keeps *)

Section Exported.
Context `{JT : JsonText}.

Lemma user_part_carries (m : Value) :
  let a := user_rendered m in
  calls_of a = [] ∧ reasoning_of a = [] ∧ of_role "tool" a = map tool_result_of (content_blocks "tool_result" m) ∧
  contents_of "user" a = content_text m ∧ contents_of "assistant" a = [].
Proof.
  cbv zeta. unfold user_rendered.
  assert (Ht : ∀ t, let p := said t in
    calls_of p = [] ∧ reasoning_of p = [] ∧ of_role "tool" p = [] ∧ contents_of "user" p = t ∧
    contents_of "assistant" p = []).
  { intros [|b t]; [done|]. cbv zeta. cbn [said]. by rewrite calls_of_one, reasoning_of_one, of_role_one, !contents_of_one. }
  destruct (get "content" m) as [[]|] eqn:E;
    try (unfold content_blocks, content_text, content_blocks, get_arr; rewrite E; done).
  - unfold content_blocks, content_text, get_arr. rewrite E.
    by rewrite calls_of_one, reasoning_of_one, of_role_one, !contents_of_one.
  - destruct (tool_results_carry (content_blocks "tool_result" m)) as (I1 & I2 & I3 & I4 & I5).
    destruct (Ht (content_text m)) as (J1 & J2 & J3 & J4 & J5).
    rewrite calls_of_app, reasoning_of_app, of_role_app, !contents_of_app.
    by rewrite I1, I2, I3, I4, I5, J1, J2, J3, J4, J5, !app_nil_r.
Qed.

Lemma rendered_carry (l : list Value) :
  let a := concat (map rendered l) in
  calls_of a = map tool_use_of (concat (map (content_blocks "tool_use") (assistants l))) ∧
  reasoning_of a = concat (map content_thinking (assistants l)) ∧
  of_role "tool" a = map tool_result_of (concat (map (content_blocks "tool_result") (others l))) ∧
  contents_of "user" a = concat (map content_text (others l)) ∧
  contents_of "assistant" a = concat (map content_text (assistants l)).
Proof.
  cbv zeta. induction l as [|m l (I1 & I2 & I3 & I4 & I5)]; [done|]. cbn [map concat].
  rewrite calls_of_app, reasoning_of_app, of_role_app, !contents_of_app, I1, I2, I3, I4, I5, rendered_eq.
  unfold assistants, others. cbn [List.filter]. destruct (str_is "role" "assistant" m) eqn:E; cbn [negb].
  - destruct (answer_carries m (get "content" m) (get "role" m)) as (J1 & J2 & J3 & J4 & J5); [done..| |].
    { apply str_is_iff in E. by rewrite E. }
    cbn [map concat]. by rewrite J1, J2, J3, J4, J5, map_app.
  - destruct (user_part_carries m) as (J1 & J2 & J3 & J4 & J5).
    cbn [map concat]. by rewrite J1, J2, J3, J4, J5, map_app.
Qed.

(** The exported conversation, message by message. *)
Lemma anthropic_messages (req resp : Value) (t : TrainingTrajectory) :
  anthropic_reconstruct req resp = inl t →
  ∃ msgs, get_arr "messages" req = Some msgs ∧
    tt_messages t = system_messages req ++ concat (map rendered msgs) ++ answer (get "content" resp) (get "role" resp) ∧
    tt_tools t = map convert_tool_schema (default [] (get_arr "tools" req)) ∧ tt_meta t = Object [].
Proof.
  unfold anthropic_reconstruct. destruct (get_arr "messages" req) as [msgs|]; [|done]. intros [= <-].
  exists msgs. split; [done|]. cbn [tt_messages tt_tools tt_meta]. split; [|done].
  rewrite fold_rendered. unfold answer.
  by destruct (assistant_from_content _ _); rewrite ?app_nil_r, <- ?app_assoc.
Qed.

Lemma system_carries (req : Value) :
  let a := system_messages req in
  calls_of a = [] ∧ reasoning_of a = [] ∧ of_role "tool" a = [] ∧ contents_of "user" a = [] ∧
  contents_of "assistant" a = [].
Proof.
  cbv zeta. unfold system_messages. destruct (_ ▷ _) as [[|b s]|]; try done.
Qed.

(** Nothing of a Messages conversation is lost or invented in its export: the
    system text first, then each message's part where the message stood, then
    the answer; over all of them the tool calls are the assistant's [tool_use]
    blocks, the reasoning is its thinking, the tool messages are the results in
    the others' blocks, one for each with its id, and what the user and the
    assistant say is their text. *)
Theorem anthropic_export_keeps :
  ∀ (req resp : Value) (t : TrainingTrajectory),
    anthropic_reconstruct req resp = inl t →
    default (B "assistant") (get_str "role" resp) = B "assistant" →
    ∃ msgs, get_arr "messages" req = Some msgs ∧
      let ms := tt_messages t in
      let turns := assistants msgs ++ [resp] in
      ms = system_messages req ++ concat (map rendered msgs) ++ answer (get "content" resp) (get "role" resp) ∧
      calls_of ms = map tool_use_of (concat (map (content_blocks "tool_use") turns)) ∧
      reasoning_of ms = concat (map content_thinking turns) ∧
      of_role "tool" ms = map tool_result_of (concat (map (content_blocks "tool_result") (others msgs))) ∧
      contents_of "user" ms = concat (map content_text (others msgs)) ∧
      contents_of "assistant" ms = concat (map content_text turns).
Proof.
  intros req resp t H Hr. apply anthropic_messages in H as (msgs & Em & Ems & _). exists msgs.
  split; [done|]. cbv zeta. split; [done|]. rewrite Ems.
  destruct (system_carries req) as (S1 & S2 & S3 & S4 & S5).
  destruct (rendered_carry msgs) as (I1 & I2 & I3 & I4 & I5).
  destruct (answer_carries resp _ _ eq_refl eq_refl Hr) as (J1 & J2 & J3 & J4 & J5).
  rewrite !calls_of_app, !reasoning_of_app, !of_role_app, !contents_of_app.
  rewrite S1, S2, S3, S4, S5, I1, I2, I3, I4, I5, J1, J2, J3, J4, J5, !map_app, !concat_app, !map_app.
  cbn [map concat app]. by rewrite !app_nil_r.
Qed.
End Exported.

(** ** An exported conversation read again *)

Section ReadAgain.
Context `{JT : JsonText}.

(** A value's arguments are not a string still to be parsed. *)
Definition settled (c : ToolCall) : Prop := ∀ s, tf_arguments (tc_function c) ≠ Str s.

Definition tidy (m : Message) : Message :=
  mkMessage (msg_role m) (msg_content m ▷ nonempty) (msg_reasoning_content m) (msg_tool_calls m)
    (msg_tool_call_id m) (msg_name m).

(** What both conversions leave of a message. *)
Definition converted (m : Message) : Prop :=
  msg_reasoning_content m ≠ Some [] ∧ msg_tool_calls m ≠ Some [] ∧
  Forall (λ c, tc_kind c = B "function") (default [] (msg_tool_calls m)).

Lemma last_get_app (k : string) (a b : list (string * Value)) :
  last_get k (a ++ b) = match last_get k b with Some v => Some v | None => last_get k a end.
Proof.
  induction a as [|[k' v] a IH]; cbn [app last_get]; [by destruct (last_get k b)|].
  rewrite IH. by destruct (last_get k b).
Qed.

Lemma last_get_opt {A : Type} (k k' : string) (f : A → Value) (o : option A) :
  last_get k (opt_field k' f o) = if String.eqb k k' then f <$> o else None.
Proof. destruct o; cbn; by destruct (String.eqb k k'). Qed.

Lemma message_fields (m : Message) :
  get "role" (message_value m) = Some (Str (msg_role m)) ∧
  get "content" (message_value m) = Str <$> msg_content m ∧
  get "reasoning_content" (message_value m) = Str <$> msg_reasoning_content m ∧
  get "reasoning" (message_value m) = None ∧
  get "tool_calls" (message_value m) = (λ l, Array (map call_value l)) <$> msg_tool_calls m ∧
  get "tool_call_id" (message_value m) = Str <$> msg_tool_call_id m ∧
  get "name" (message_value m) = Str <$> msg_name m.
Proof.
  unfold message_value. rewrite !get_obj, !last_get_app, !last_get_opt. cbn.
  by destruct (msg_content m), (msg_reasoning_content m), (msg_tool_calls m), (msg_tool_call_id m), (msg_name m).
Qed.

Lemma convert_tool_call_value (c : ToolCall) :
  tc_kind c = B "function" → settled c → convert_tool_call (call_value c) = Some c.
Proof.
  destruct c as [id kind [name args]]. unfold settled. cbn [tc_kind tc_function tf_arguments].
  intros -> Hs. unfold convert_tool_call, call_value, function_value, get_str. rewrite !get_obj.
  cbn [last_get tc_id tc_kind tc_function tf_name tf_arguments String.eqb Ascii.eqb Bool.eqb].
  cbn [mbind option_bind]. rewrite !get_obj. cbn -[B]. by destruct args as [| | |s| |]; try done; destruct (Hs s).
Qed.

Lemma convert_tool_call_values (l : list ToolCall) :
  Forall (λ c, tc_kind c = B "function") l → Forall settled l →
  omap (M := list) convert_tool_call (map call_value l) = l.
Proof.
  induction l as [|c l IH]; [done|]. rewrite !Forall_cons. intros [Hk Hl] [Hs Hsl].
  cbn [map omap list_omap]. by rewrite convert_tool_call_value, IH.
Qed.

Lemma convert_message_value (m : Message) :
  converted m → Forall settled (default [] (msg_tool_calls m)) → convert_message (message_value m) = tidy m.
Proof.
  intros (Hr & Hc & Hk) Hs. destruct (message_fields m) as (E1 & E2 & E3 & E4 & E5 & E6 & E7).
  unfold convert_message, tidy, get_str, get_arr. rewrite E1, E2, E3, E4, E5, E6, E7.
  f_equal.
  - by destruct (msg_content m).
  - by destruct (msg_reasoning_content m) as [[]|].
  - destruct (msg_tool_calls m) as [l|]; [|done]. cbn. cbn in Hk, Hs.
    rewrite convert_tool_call_values by done. by destruct l.
  - by destruct (msg_tool_call_id m).
  - by destruct (msg_name m).
Qed.

Lemma convert_message_values (l : list Message) :
  Forall converted l → Forall settled (calls_of l) → map convert_message (map message_value l) = map tidy l.
Proof.
  induction l as [|m l IH]; [done|]. intros [Hm Hl]%Forall_cons Hs.
  change (calls_of (m :: l)) with (default [] (msg_tool_calls m) ++ calls_of l) in Hs.
  apply Forall_app in Hs as [Hs Hsl]. cbn [map]. by rewrite convert_message_value, IH.
Qed.

Lemma trajectory_fields (t : TrainingTrajectory) :
  get "messages" (trajectory_value t) = Some (Array (map message_value (tt_messages t))) ∧
  get "tools" (trajectory_value t) = Array <$> nonempty (tt_tools t).
Proof. unfold trajectory_value. rewrite !get_obj. by destruct (tt_tools t). Qed.

(** ** What the conversions leave *)

Lemma nonempty_nil {A : Type} (l : list A) : nonempty l ≠ Some [].
Proof. by destruct l. Qed.

Lemma convert_message_converted (v : Value) : converted (convert_message v) ∧ tidy (convert_message v) = convert_message v.
Proof.
  unfold converted, tidy, convert_message. cbn [msg_reasoning_content msg_tool_calls msg_content msg_role msg_tool_call_id msg_name].
  split; [split_and!|].
  - destruct (_ ▷ as_str) as [s|]; [apply nonempty_nil|done].
  - destruct (get_arr "tool_calls" v) as [l|]; [apply nonempty_nil|done].
  - destruct (get_arr "tool_calls" v) as [l|]; [|done]. cbn. rewrite default_nonempty.
    apply Forall_forall. intros c Hc. apply list_elem_of_omap in Hc as (x & _ & Hx).
    unfold convert_tool_call in Hx. destruct (get "function" x); [|done]. by injection Hx as <-.
  - f_equal. unfold content_to_string. destruct (get "content" v) as [[]|]; try done.
    + by destruct s.
    + by destruct (concat _).
Qed.

Lemma plain_converted (r s : text) : converted (plain_message r s).
Proof. by split_and!; cbn. Qed.

Lemma answer_converted (c r : option Value) : Forall converted (answer c r).
Proof.
  unfold answer, assistant_from_content. destruct c as [[]|]; try done.
  { destruct s; [done|]. repeat constructor; cbn; done. }
  rewrite assistant_blocks. cbn [app]. set (t := concat _). set (h := concat _).
  assert (Hc : converted (mkMessage (default (B "assistant") (r ▷ as_str)) (nonempty t) (nonempty h)
    (nonempty (map tool_use_of (List.filter (str_is "type" "tool_use") l))) None None)).
  { split_and!; cbn; [apply nonempty_nil..|]. rewrite default_nonempty.
    apply Forall_map, Forall_true. done. }
  destruct t; [destruct h; [destruct (map _ _); [done|]|]|]; exact (Forall_cons_2 _ _ _ Hc (Forall_nil_2 _)).
Qed.

Lemma user_part_converted (m : Value) : Forall converted (user_rendered m).
Proof.
  unfold user_rendered. destruct (get "content" m) as [[]|]; try done.
  - constructor; [apply plain_converted|done].
  - apply Forall_app. split; [apply Forall_map, Forall_true; intros b; unfold converted; by split_and!|].
    unfold said. destruct (content_text m); [done|]. constructor; [apply plain_converted|done].
Qed.

Lemma reconstruct_converted (wire : string) (req resp : Value) (t : TrainingTrajectory) :
  reconstruct_trajectory wire req resp = inl t →
  Forall converted (tt_messages t) ∧ (wire = OPENAI_CHAT → map tidy (tt_messages t) = tt_messages t).
Proof.
  unfold reconstruct_trajectory. destruct (String.eqb_spec wire OPENAI_CHAT) as [->|Hw].
  - unfold openai_reconstruct. destruct (get_arr "messages" req) as [l|]; [|done]. intros [= <-].
    cbn [tt_messages]. set (out := match final_message resp with Some v => [v] | None => [] end).
    replace (match final_message resp with Some v => [convert_message v] | None => [] end) with (map convert_message out)
      by (unfold out; by destruct (final_message resp)).
    rewrite <- map_app. split.
    + apply Forall_map, Forall_true. intros v. apply convert_message_converted.
    + intros _. rewrite map_map. apply map_ext. intros v. apply convert_message_converted.
  - destruct (String.eqb wire ANTHROPIC); [|done]. intros H. split; [|done].
    apply anthropic_messages in H as (msgs & _ & -> & _). rewrite !Forall_app. split_and!.
    + unfold system_messages. destruct (_ ▷ _) as [[|]|]; try done. constructor; [apply plain_converted|done].
    + apply Forall_concat, Forall_map, Forall_true. intros m. rewrite rendered_eq.
      destruct (str_is _ _ m); [apply answer_converted|apply user_part_converted].
    + apply answer_converted.
Qed.

(** An exported conversation is in the Chat Completions format: written out and
    read as such a request, it is the same conversation with the same tools, as
    long as no tool call's arguments are a string (a string in a string on the
    wire); a content that is empty text is then no content, and no conversion
    from Chat Completions leaves one. *)
Theorem export_reads_again :
  ∀ (wire : string) (req resp meta : Value) (t : TrainingTrajectory),
    reconstruct_trajectory wire req resp = inl t → Forall settled (calls_of (tt_messages t)) →
    reconstruct_trajectory OPENAI_CHAT (trajectory_value (with_meta t meta)) Null
    = inl (mkTrajectory (map tidy (tt_messages t)) (tt_tools t) (Object [])) ∧
    (wire = OPENAI_CHAT → map tidy (tt_messages t) = tt_messages t).
Proof.
  intros wire req resp meta t H Hs. apply reconstruct_converted in H as [Hc Ht]. split; [|done].
  unfold reconstruct_trajectory. rewrite String.eqb_refl. unfold openai_reconstruct, get_arr.
  destruct (trajectory_fields (with_meta t meta)) as [-> ->]. cbn [tt_messages tt_tools with_meta].
  cbn [mbind option_bind as_array]. rewrite convert_message_values by done.
  change (final_message Null) with (@None Value). rewrite app_nil_r. do 2 f_equal.
  by destruct (tt_tools t).
Qed.
End ReadAgain.

(** ** Two concrete conversations *)

Definition text_block (s : string) : Value := obj [("type", Str (B "text")); ("text", Str (B s))]%string.

Definition sample_messages_request : Value :=
  obj [("system", Array [text_block "diagnose pcaps"]);
       ("messages", Array [
          obj [("role", Str (B "user")); ("content", Str (B "what broke?"))];
          obj [("role", Str (B "assistant"));
               ("content", Array [
                  obj [("type", Str (B "thinking")); ("thinking", Str (B "let me look"))];
                  text_block "checking";
                  obj [("type", Str (B "tool_use")); ("id", Str (B "tu_1")); ("name", Str (B "tshark"));
                       ("input", obj [("filter", Str (B "tcp"))])]])];
          obj [("role", Str (B "user"));
               ("content", Array [
                  text_block "go on";
                  obj [("type", Str (B "tool_result")); ("tool_use_id", Str (B "tu_1"));
                       ("content", Str (B "100 packets"))]])]]);
       ("tools", Array [
          obj [("name", Str (B "tshark")); ("description", Str (B "run tshark"));
               ("input_schema", obj [("type", Str (B "object"))])]])]%string.
Definition sample_messages_response : Value :=
  obj [("role", Str (B "assistant")); ("content", Array [text_block "RST flood from .5"])]%string.

Definition exported_roles (r : TrainingTrajectory + ExportError) : list (string * option string) :=
  match r with
  | inl t => map (λ m, (str (msg_role m), str <$> msg_content m)) (tt_messages t)
  | inr _ => []
  end.

(** The user's text comes after the tool's result, whatever their order in the
    blocks. *)
Example sample_messages_export :
  exported_roles (reconstruct_trajectory ANTHROPIC sample_messages_request sample_messages_response)
  = [("system", Some "diagnose pcaps"); ("user", Some "what broke?"); ("assistant", Some "checking");
     ("tool", Some "100 packets"); ("user", Some "go on"); ("assistant", Some "RST flood from .5")]%string.
Proof. vm_compute. reflexivity. Qed.

Definition sample_chat_request (arguments : text) : Value :=
  obj [("messages", Array [
      obj [("role", Str (B "user")); ("content", Str (B "trace this"))];
      obj [("role", Str (B "assistant")); ("content", Str []);
           ("tool_calls", Array [
              obj [("id", Str (B "call_1")); ("type", Str (B "function"));
                   ("function", obj [("name", Str (B "shell")); ("arguments", Str arguments)])]])]])]%string.
Definition sample_chat_response : Value :=
  obj [("choices", Array [obj [("message",
      obj [("role", Str (B "assistant")); ("content", Str (B "done")); ("reasoning", Str (B "I listed"))])]])]%string.
Definition sample_chat_export (arguments : text) : TrainingTrajectory + ExportError :=
  reconstruct_trajectory OPENAI_CHAT (sample_chat_request arguments) sample_chat_response.

Definition exported_arguments (r : TrainingTrajectory + ExportError) : list Value :=
  match r with inl t => map (λ c, tf_arguments (tc_function c)) (calls_of (tt_messages t)) | inr _ => [] end.

(** Arguments that parse become what they say, others an empty object; the
    number a string of digits says is no object either way. *)
Example arguments_of_strings :
  exported_arguments (sample_chat_export (to_string (obj [("cmd", Str (B "ls"))]%string)))
    = [obj [("cmd", Str (B "ls"))]%string] ∧
  exported_arguments (sample_chat_export (B "not json")) = [Object []] ∧
  exported_arguments (sample_chat_export (to_string (Number 3))) = [Number 3].
Proof. by vm_compute. Qed.

(** A null [reasoning_content] hides the [reasoning] beside it. *)
Example null_hides_reasoning :
  msg_reasoning_content (convert_message (obj [("role", Str (B "assistant")); ("reasoning", Str (B "because"))]%string))
    = Some (B "because") ∧
  msg_reasoning_content (convert_message (obj [("role", Str (B "assistant")); ("reasoning_content", Null);
                                               ("reasoning", Str (B "because"))]%string)) = None.
Proof. by vm_compute. Qed.

Lemma anthropic_export_keeps_witness :
  ∃ t, anthropic_reconstruct sample_messages_request sample_messages_response = inl t ∧
       contents_of "user" (tt_messages t) = B "what broke?go on".
Proof.
  eexists. split; [vm_compute; reflexivity|].
  match goal with |- contents_of _ (tt_messages ?t) = _ =>
    destruct (anthropic_export_keeps sample_messages_request sample_messages_response t) as (msgs & E & K)
  end; [vm_compute; reflexivity|vm_compute; reflexivity|].
  cbv zeta in K. destruct K as (_ & _ & _ & _ & K & _). rewrite K. vm_compute in E. injection E as <-.
  vm_compute. reflexivity.
Defined.

Lemma export_reads_again_witness :
  ∃ t, sample_chat_export (B "{}") = inl t ∧
    reconstruct_trajectory OPENAI_CHAT (trajectory_value (with_meta t (Object []))) Null
    = inl (mkTrajectory (tt_messages t) (tt_tools t) (Object [])).
Proof.
  unfold sample_chat_export. eexists. split; [vm_compute; reflexivity|].
  match goal with |- reconstruct_trajectory _ (trajectory_value (with_meta ?t _)) _ = _ =>
    destruct (export_reads_again OPENAI_CHAT (sample_chat_request (B "{}")) sample_chat_response (Object []) t)
      as [K E]
  end; [vm_compute; reflexivity|vm_compute; repeat constructor; discriminate|].
  rewrite (E eq_refl) in K. exact K.
Defined.
