(* ===== verification/StoreRows.v ===== *)
(** * What the backends share (h-storage/src/convert.rs, query.rs, retention.rs, classify.rs)

    The readings and writings of stored columns, the cursors of the session
    lists, the cutoffs of retention, and the guess at a service's software. *)

From Stdlib Require Import Strings.Byte Strings.String ZArith Lia.
From stdpp Require Import base gmap sets list strings.
From S2P Require Import Prelude.
From S2P Require Import Net.
From S2P Require Import Text.
From S2P Require Import Events.
From S2P Require Import Counters.
From S2P Require Import Json.
From S2P Require Import JsonSample.
From S2P Require Import Wire.
From S2P Require Import Gemini.

Open Scope Z_scope.

(** ** convert.rs *)

Section Convert.
Context `{JT : JsonText}.

Definition USAGE_KEYS : list string := ["prompt_tokens"; "completion_tokens"; "input_tokens"; "output_tokens"]%string.

(** The loop over the four fields: a positive one decides. *)
Definition usage_positive (usage : Value) : bool :=
  existsb (λ k, is_some_and (λ n, 0 <? n) (get k usage ▷ as_u64)) USAGE_KEYS.

Definition derive_tokens_estimated (input_tokens output_tokens : option Z) (response_body : option text) : bool :=
  if (default 0 input_tokens =? 0) && (default 0 output_tokens =? 0) then false
  else
    match response_body with
    | None | Some [] => true
    | Some body =>
        match from_slice body with
        | None => true
        | Some v =>
            match get "usage" v with
            | Some u => if is_object u then negb (usage_positive u) else true
            | None => true
            end
        end
    end.

Definition headers_to_json (headers : list (text * text)) : text :=
  to_string (Array (map (λ kv, Array [Str kv.1; Str kv.2]) headers)).

(** [serde]'s reading of a list of pairs of strings, and of a list of strings. *)
Definition string_pair (v : Value) : option (text * text) :=
  match v with Array [Str a; Str b] => Some (a, b) | _ => None end.
Definition pairs_of_json (s : text) : option (list (text * text)) := l ← from_slice s ▷ as_array; mapM string_pair l.

Definition parse_json_string_list (raw : option text) : list text :=
  match raw with
  | Some ((_ :: _) as s) => default [] (l ← from_slice s ▷ as_array; mapM as_str l)
  | _ => []
  end.
End Convert.

(** ** Cursors (query.rs) *)

(** [as_i64], and a signed integer as a number. *)
Class JsonSigned `{JN : JsonNumber} : Type := {
  number_as_i64 : number → option Z;
  number_of_i64 : Z → number;
}.
Class JsonSignedLaws `{JN : JsonNumber} (JS : JsonSigned) : Prop := {
  as_i64_of_i64 (n : Z) : - 2 ^ 63 <= n < 2 ^ 63 → number_as_i64 (number_of_i64 n) = Some n;
  is_int_of_i64 (n : Z) : - 2 ^ 63 <= n < 2 ^ 63 → number_is_int (number_of_i64 n) = true;
}.

(** [format!("{:02x}")] of each byte, and the way back. *)
Definition hex_char (n : Z) : byte := Zbyte (if n <? 10 then 48 + n else 87 + n).
Definition hex_of (b : byte) : text := [hex_char (Z.shiftr (byteZ b) 4); hex_char (Z.land (byteZ b) 15)].
Definition to_hex (s : text) : text := flat_map hex_of s.

Definition hex_digit (b : byte) : option Z :=
  let c := byteZ b in
  if (48 <=? c) && (c <=? 57) then Some (c - 48)
  else if (97 <=? c) && (c <=? 102) then Some (c - 97 + 10)
  else if (65 <=? c) && (c <=? 70) then Some (c - 65 + 10)
  else None.

(** Two digits at a time; an odd length is refused. *)
Fixpoint from_hex (s : text) : option text :=
  match s with
  | [] => Some []
  | [_] => None
  | h :: l :: r =>
      hi ← hex_digit h; lo ← hex_digit l; bytes ← from_hex r;
      Some (Zbyte (Z.lor (Z.shiftl hi 4) lo) :: bytes)
  end.

Record SessionListCursor : Type := mkListCursor {
  lcu_last_turn_at_ms : Z; lcu_source_id : text; lcu_session_id : text;
}.
Record SessionTracesCursor : Type := mkTracesCursor { tcu_start_time_us : Z; tcu_turn_id : text }.

Section Cursors.
Context `{JT : JsonText} `{JS : !JsonSigned}.

Definition as_i64 (v : Value) : option Z := match v with Number n => number_as_i64 n | _ => None end.

Definition encode_session_cursor (c : SessionListCursor) : text :=
  to_hex (to_string (obj [("t", Number (number_of_i64 (lcu_last_turn_at_ms c))); ("s", Str (lcu_source_id c));
                          ("k", Str (lcu_session_id c))]%string)).
Definition decode_session_cursor (s : text) : option SessionListCursor :=
  out ← from_hex s; v ← from_slice out;
  t ← get "t" v ▷ as_i64; src ← get "s" v ▷ as_str; k ← get "k" v ▷ as_str;
  Some (mkListCursor t src k).

Definition encode_session_turns_cursor (c : SessionTracesCursor) : text :=
  to_hex (to_string (obj [("t", Number (number_of_i64 (tcu_start_time_us c))); ("k", Str (tcu_turn_id c))]%string)).
Definition decode_session_turns_cursor (s : text) : option SessionTracesCursor :=
  decoded ← from_hex s; v ← from_slice decoded;
  t ← get "t" v ▷ as_i64; k ← get "k" v ▷ as_str;
  Some (mkTracesCursor t k).
End Cursors.

(** ** Retention cutoffs (retention.rs) *)

(** The configuration; the map is read in an unspecified order. *)
Record RetentionConfig : Type := mkRetention {
  rc_enabled : bool;
  rc_check_interval_secs : Z;
  rc_spans : Z;
  rc_traces : Z;
  rc_http_exchanges : Z;
  rc_metrics : gmap string Z;
}.

(** Times in seconds; [SystemTime] holds them in an [i64]. *)
Record RetentionPolicy : Type := mkPolicy {
  po_spans_before : option Z;
  po_traces_before : option Z;
  po_http_exchanges_before : option Z;
  po_metrics_before : list (string * Z);
}.

Definition policy_is_empty (p : RetentionPolicy) : bool :=
  match po_spans_before p, po_traces_before p, po_http_exchanges_before p, po_metrics_before p with
  | None, None, None, [] => true
  | _, _, _, _ => false
  end.

Definition days_to_cutoff (now days : Z) : option Z :=
  if days =? 0 then None
  else let t := now - days * 86400 in if - 2 ^ 63 <=? t then Some t else None.

Section Retention.
Context `{HI : !HashIter string Z}.

Definition policy_from_config (cfg : RetentionConfig) (now : Z) : RetentionPolicy :=
  mkPolicy (days_to_cutoff now (rc_spans cfg)) (days_to_cutoff now (rc_traces cfg))
    (days_to_cutoff now (rc_http_exchanges cfg))
    (omap (λ '(label, days), pair label <$> days_to_cutoff now days) (hash_iter (rc_metrics cfg))).

(** The task: whether it runs at all, and the policy of a tick. *)
Definition retention_starts (cfg : RetentionConfig) (now : Z) : bool :=
  rc_enabled cfg && negb (policy_is_empty (policy_from_config cfg now)).
Definition retention_tick (cfg : RetentionConfig) (now : Z) : option RetentionPolicy :=
  let policy := policy_from_config cfg now in if policy_is_empty policy then None else Some policy.
End Retention.

(** ** The software of a service (classify.rs) *)

Definition quoted (s : string) : text := x22 :: B s ++ [x22].

(** [find(|(k, _)| k.eq_ignore_ascii_case(name))]. *)
Section Classify.
Context `{JT : JsonText}.

Definition header_value (name : string) (raw : option text) : option text :=
  parsed ← raw ▷ pairs_of_json;
  snd <$> List.find (λ kv, eq_ignore_ascii_case kv.1 (B name)) parsed.
Definition extract_server_header : option text → option text := header_value "server".
Definition extract_host_header : option text → option text := header_value "host".

Definition lower (s : text) : text := map to_ascii_lower s.
Definition is_text (s : string) (t : text) : bool := bool_decide (t = B s).
Definition is_any (l : list string) (t : text) : bool := existsb (λ s, is_text s t) l.
Definition starts_any (l : list string) (t : text) : bool := existsb (λ s, starts_with (B s) t) l.

Record Signals : Type := mkSignals {
  sg_server_header : option text;
  sg_response_headers : option text;
  sg_request_headers : option text;
  sg_request_paths : list text;
  sg_finish_reasons : list text;
  sg_models : list text;
  sg_request_body : option text;
  sg_response_body : option text;
}.

Definition some_path (f : text → bool) (s : Signals) : bool := existsb f (sg_request_paths s).
Definition host_is (f : text → bool) (s : Signals) : bool :=
  is_some_and (λ h, f (lower h)) (extract_host_header (sg_request_headers s)).
Definition server_is (f : text → bool) (s : Signals) : bool := is_some_and (λ h, f (lower h)) (sg_server_header s).

Definition vllm_bodies : list text :=
  [quoted "id" ++ B ":" ++ x22 :: B "chatcmpl-tool-"; quoted "id" ++ B ": " ++ x22 :: B "chatcmpl-tool-";
   quoted "system_fingerprint" ++ B ":" ++ x22 :: B "fp_"; quoted "system_fingerprint" ++ B ": " ++ x22 :: B "fp_"].

(** The tests in the order the code makes them, each with its label. *)
Definition app_rules : list ((Signals → bool) * string) :=
  [(some_path (λ p, starts_any ["/api/chat"; "/api/generate"; "/api/tags"; "/api/show"] (lower p)
                    || is_text "/api/version" (lower p)), "ollama");
   (some_path (is_any ["/completion"; "/tokenize"; "/detokenize"; "/props"]), "llamacpp");
   (some_path (is_any ["/generate"; "/health_generate"; "/get_server_info"; "/flush_cache"; "/encode";
                       "/start_profile"; "/stop_profile"]), "sglang");
   (some_path (λ p, is_text "/version" p || starts_with (B "/v1/score") p), "vllm");
   (λ s, is_some_and (λ json, contains (B "x-litellm-") (lower json)
                              || contains (quoted "server" ++ B ":" ++ x22 :: B "litellm") (lower json))
           (sg_response_headers s), "litellm");
   (host_is (λ h, is_text "api.openai.com" h || ends_with (B ".api.openai.com") h), "openai");
   (host_is (λ h, is_text "api.anthropic.com" h || ends_with (B ".api.anthropic.com") h), "anthropic");
   (host_is (is_text "generativelanguage.googleapis.com"), "gemini");
   (λ s, existsb (λ fr, is_any ["matched_stop"; "matched_eos"; "stop_str"] (lower fr)) (sg_finish_reasons s), "sglang");
   (λ s, is_some_and (λ b, existsb (λ p, contains p b) vllm_bodies) (sg_response_body s), "vllm");
   (λ s, is_some_and (contains (B "chatcmpl-tool-")) (sg_request_body s), "vllm");
   (server_is (contains (B "ollama")), "ollama");
   (server_is (starts_with (B "litellm")), "litellm");
   (λ s, server_is (λ h, contains (B "uvicorn") h || contains (B "hypercorn") h) s
         && existsb (λ m, starts_with (B "glm") (lower m) || contains (B "/glm") (lower m)
                          || starts_with (B "deepseek") (lower m) || contains (B "/deepseek") (lower m)) (sg_models s),
    "sglang");
   (server_is (λ h, contains (B "uvicorn") h || contains (B "hypercorn") h), "vllm")]%string.

Definition classify_app (s : Signals) : option string := snd <$> List.find (λ r, r.1 s) app_rules.
End Classify.

(** ** Hexadecimal, both ways *)

Lemma from_to_hex_byte (b : byte) :
  (hi ← hex_digit (hex_char (Z.shiftr (byteZ b) 4)); lo ← hex_digit (hex_char (Z.land (byteZ b) 15));
   Some (Zbyte (Z.lor (Z.shiftl hi 4) lo))) = Some b.
Proof. destruct b; reflexivity. Qed.

Lemma from_to_hex (s : text) : from_hex (to_hex s) = Some s.
Proof.
  induction s as [|b s IH]; [done|]. change (to_hex (b :: s)) with (hex_of b ++ to_hex s).
  pose proof (from_to_hex_byte b) as Hb. cbn [hex_of app from_hex].
  destruct (hex_digit (hex_char (Z.shiftr (byteZ b) 4))) as [hi|]; [|done].
  cbn [mbind option_bind] in *. destruct (hex_digit (hex_char (Z.land (byteZ b) 15))) as [lo|]; [|done].
  cbn [mbind option_bind] in *. rewrite IH. cbn [mbind option_bind]. by injection Hb as ->.
Qed.

Lemma to_hex_url_safe (s : text) : Forall (λ b, is_Some (hex_digit b)) (to_hex s).
Proof.
  induction s as [|b s IH]; [constructor|]. change (to_hex (b :: s)) with (hex_of b ++ to_hex s).
  apply Forall_app. split; [|done]. destruct b; repeat constructor; by eexists.
Qed.

Section CursorObjects.
Context `{JN : JsonNumber}.

Lemma list_cursor_ok (n : number) (src ses : text) :
  number_is_int n = true → utf8_valid src = true → utf8_valid ses = true →
  let v := obj [("t", Number n); ("s", Str src); ("k", Str ses)]%string in
  value_ok v ∧ (depth v < RECURSION_LIMIT)%nat.
Proof.
  intros Hn Hs Hk v. assert (E : v = Object [("k", Str ses); ("s", Str src); ("t", Number n)]%string) by done.
  rewrite E. split; [split; [|cbn; by split_and!]|cbn; unfold RECURSION_LIMIT; lia].
  unfold keys_sorted. by repeat (constructor; try done).
Qed.

Lemma turns_cursor_ok (n : number) (turn : text) :
  number_is_int n = true → utf8_valid turn = true →
  let v := obj [("t", Number n); ("k", Str turn)]%string in
  value_ok v ∧ (depth v < RECURSION_LIMIT)%nat.
Proof.
  intros Hn Hk v. assert (E : v = Object [("k", Str turn); ("t", Number n)]%string) by done.
  rewrite E. split; [split; [|cbn; by split_and!]|cbn; unfold RECURSION_LIMIT; lia].
  unfold keys_sorted. by repeat (constructor; try done).
Qed.
End CursorObjects.

Section CursorSpec.
Context `{JTL : JsonTextLaws} `{JSL : !JsonSignedLaws JS}.

Definition i64_range (n : Z) : Prop := - 2 ^ 63 <= n < 2 ^ 63.

Lemma list_cursor_back (t : Z) (src ses : text) :
  i64_range t → utf8_valid src = true → utf8_valid ses = true →
  decode_session_cursor (encode_session_cursor (mkListCursor t src ses)) = Some (mkListCursor t src ses).
Proof.
  intros Ht Hs Hk. pose proof (is_int_of_i64 t Ht) as Hi.
  unfold decode_session_cursor, encode_session_cursor. rewrite from_to_hex. cbn [mbind option_bind].
  rewrite from_slice_to_string by (by apply list_cursor_ok).
  cbn [mbind option_bind]. rewrite !get_obj.
  cbn [last_get String.eqb Ascii.eqb Bool.eqb mbind option_bind as_i64 as_str lcu_last_turn_at_ms lcu_source_id lcu_session_id].
  by rewrite as_i64_of_i64.
Qed.

Lemma turns_cursor_back (t : Z) (turn : text) :
  i64_range t → utf8_valid turn = true →
  decode_session_turns_cursor (encode_session_turns_cursor (mkTracesCursor t turn)) = Some (mkTracesCursor t turn).
Proof.
  intros Ht Hu. pose proof (is_int_of_i64 t Ht) as Hi.
  unfold decode_session_turns_cursor, encode_session_turns_cursor. rewrite from_to_hex. cbn [mbind option_bind].
  rewrite from_slice_to_string by (by apply turns_cursor_ok).
  cbn [mbind option_bind]. rewrite !get_obj.
  cbn [last_get String.eqb Ascii.eqb Bool.eqb mbind option_bind as_i64 as_str tcu_start_time_us tcu_turn_id].
  by rewrite as_i64_of_i64.
Qed.

(** A cursor is hexadecimal digits, and what the server handed out is what it
    reads back, for every time of an [i64] and every name in UTF-8. *)
Theorem cursor_roundtrip :
  ∀ (t : Z) (source session turn : text),
    i64_range t → utf8_valid source = true → utf8_valid session = true → utf8_valid turn = true →
    decode_session_cursor (encode_session_cursor (mkListCursor t source session)) = Some (mkListCursor t source session) ∧
    decode_session_turns_cursor (encode_session_turns_cursor (mkTracesCursor t turn)) = Some (mkTracesCursor t turn) ∧
    Forall (λ b, is_Some (hex_digit b)) (encode_session_cursor (mkListCursor t source session)).
Proof.
  intros t src ses turn Ht Hs Hk Hu.
  split_and!; [by apply list_cursor_back|by apply turns_cursor_back|apply to_hex_url_safe].
Qed.

(** Stored headers read back, repeated names included. *)
Lemma headers_read_back (hs : list (text * text)) :
  Forall (λ h, utf8_valid h.1 = true ∧ utf8_valid h.2 = true) hs → pairs_of_json (headers_to_json hs) = Some hs.
Proof.
  intros H. unfold pairs_of_json, headers_to_json. rewrite from_slice_to_string.
  - cbn [mbind option_bind as_array]. clear H. induction hs as [|[k v] hs IH]; [done|]. cbn [map mapM string_pair].
    cbn. rewrite IH. done.
  - cbn [value_ok]. induction H as [|[k v] hs [Hk Hv] _ IH]; [done|]. cbn in *. auto.
  - cbn [depth]. assert (Hd : (foldr (λ x n, Nat.max (depth x) n) 0 (map (λ kv, Array [Str kv.1; Str kv.2]) hs) <= 1)%nat).
    { clear H. induction hs as [|h hs IH]; cbn in *; lia. }
    unfold RECURSION_LIMIT. lia.
Qed.
End CursorSpec.

(** ** Retention, proved *)

Lemma days_to_cutoff_spec (now days : Z) :
  0 <= now < 2 ^ 63 → 0 <= days < 2 ^ 32 →
  days_to_cutoff now days = if days =? 0 then None else Some (now - days * 86400).
Proof.
  intros Hn Hd. unfold days_to_cutoff. destruct (days =? 0); [done|].
  rewrite (proj2 (Z.leb_le _ _)); [done|]. change (2 ^ 63) with 9223372036854775808. change (2 ^ 32) with 4294967296 in Hd. lia.
Qed.

Section RetentionSpec.
Context `{HL : !HashIterLaws string Z HI}.

(** A table with a number of days is cut off that many days ago, one with zero
    days is never; a granularity likewise, each under its own label and once;
    and the task stops at once exactly when nothing would ever be cut off. *)
Theorem retention_cutoffs :
  ∀ (cfg : RetentionConfig) (now : Z),
    0 <= now < 2 ^ 63 → 0 <= rc_spans cfg < 2 ^ 32 → 0 <= rc_traces cfg < 2 ^ 32 →
    0 <= rc_http_exchanges cfg < 2 ^ 32 → map_Forall (λ _ d, 0 <= d < 2 ^ 32) (rc_metrics cfg) →
    let p := policy_from_config cfg now in
    let cutoff days := if days =? 0 then None else Some (now - days * 86400) in
    po_spans_before p = cutoff (rc_spans cfg) ∧ po_traces_before p = cutoff (rc_traces cfg) ∧
    po_http_exchanges_before p = cutoff (rc_http_exchanges cfg) ∧
    (∀ label t, (label, t) ∈ po_metrics_before p ↔ ∃ d, rc_metrics cfg !! label = Some d ∧ cutoff d = Some t) ∧
    NoDup (po_metrics_before p).*1 ∧
    (policy_is_empty p = true ↔ rc_spans cfg = 0 ∧ rc_traces cfg = 0 ∧ rc_http_exchanges cfg = 0 ∧
       map_Forall (λ _ d, d = 0) (rc_metrics cfg)).
Proof.
  intros cfg now Hn Hs Ht He Hm p cutoff.
  assert (Hin : ∀ label t, (label, t) ∈ po_metrics_before p ↔ ∃ d, rc_metrics cfg !! label = Some d ∧ cutoff d = Some t).
  { intros label t. unfold p, policy_from_config. cbn [po_metrics_before]. rewrite list_elem_of_omap. split.
    - intros ([l d] & Hl & E). apply elem_of_hash_iter in Hl. rewrite days_to_cutoff_spec in E; [|done|by eapply Hm].
      exists d. fold (cutoff d) in E. destruct (cutoff d); [|done]. by injection E as <- <-.
    - intros (d & Hl & E). exists (label, d). split; [by apply elem_of_hash_iter|].
      rewrite days_to_cutoff_spec; [|done|by eapply Hm]. fold (cutoff d). by rewrite E. }
  unfold p at 1 2 3. cbn [policy_from_config po_spans_before po_traces_before po_http_exchanges_before].
  rewrite !days_to_cutoff_spec by done. fold (cutoff (rc_spans cfg)) (cutoff (rc_traces cfg)) (cutoff (rc_http_exchanges cfg)).
  do 3 (split; [done|]). split; [done|]. split.
  - unfold p. cbn [policy_from_config po_metrics_before]. pose proof (NoDup_fst_map_to_list (rc_metrics cfg)) as Hd.
    rewrite <- (hash_iter_perm (rc_metrics cfg)) in Hd. revert Hd. generalize (hash_iter (rc_metrics cfg)) as l.
    induction l as [|[k d] l IH]; cbn; [constructor|]. intros [Hk Hl]%NoDup_cons.
    destruct (days_to_cutoff now d); cbn; [|by apply IH]. constructor; [|by apply IH].
    intros ([k' t'] & Ek & Hx)%list_elem_of_fmap. cbn in Ek. subst k'. apply list_elem_of_omap in Hx as ([l0 d0] & Hx & Ex).
    destruct (days_to_cutoff now d0); [|done]. injection Ex as -> _. apply Hk, list_elem_of_fmap. by eexists (_, _).
  - assert (Hz : ∀ d, cutoff d = None ↔ d = 0).
    { intros d. unfold cutoff. destruct (Z.eqb_spec d 0); split; done || congruence. }
    assert (Hl : po_metrics_before p = [] ↔ map_Forall (λ _ d, d = 0) (rc_metrics cfg)).
    { split.
      - intros E l d Hl. apply Hz. destruct (cutoff d) as [t|] eqn:Ec; [|done].
        assert ((l, t) ∈ po_metrics_before p) by (apply Hin; eauto). rewrite E in H. set_solver.
      - intros H. destruct (po_metrics_before p) as [|[l t] ps] eqn:E; [done|].
        destruct (proj1 (Hin l t)) as (d & Hd & Hc); [set_solver|]. apply H in Hd as ->. done. }
    rewrite <- Hl, <- (Hz (rc_spans cfg)), <- (Hz (rc_traces cfg)), <- (Hz (rc_http_exchanges cfg)).
    unfold policy_is_empty. unfold p at 1 2 3. cbn [policy_from_config po_spans_before po_traces_before po_http_exchanges_before].
    rewrite !days_to_cutoff_spec by done.
    fold (cutoff (rc_spans cfg)) (cutoff (rc_traces cfg)) (cutoff (rc_http_exchanges cfg)).
    destruct (cutoff (rc_spans cfg)), (cutoff (rc_traces cfg)), (cutoff (rc_http_exchanges cfg)), (po_metrics_before p);
      split; try done; intros; destruct_and!; done.
Qed.
End RetentionSpec.

(** ** More evidence, proved *)

Section ClassifySpec.
Context `{JT : JsonText}.

Definition adds {A : Type} (o o' : option A) : Prop := o = None ∨ o' = o.

(** What a wider window adds: more paths, finish reasons and models, and a
    sample where there was none. *)
Record more_evidence (s s' : Signals) : Prop := {
  me_server : adds (sg_server_header s) (sg_server_header s');
  me_response_headers : adds (sg_response_headers s) (sg_response_headers s');
  me_request_headers : adds (sg_request_headers s) (sg_request_headers s');
  me_paths : sg_request_paths s ⊆ sg_request_paths s';
  me_reasons : sg_finish_reasons s ⊆ sg_finish_reasons s';
  me_models : sg_models s ⊆ sg_models s';
  me_request_body : adds (sg_request_body s) (sg_request_body s');
  me_response_body : adds (sg_response_body s) (sg_response_body s');
}.

Lemma existsb_mono {A : Type} (f : A → bool) (l l' : list A) : l ⊆ l' → existsb f l = true → existsb f l' = true.
Proof.
  intros Hl (x & Hx & Hf)%existsb_exists. apply existsb_exists. exists x. split; [|done].
  apply list_elem_of_In, Hl. by apply list_elem_of_In.
Qed.

Lemma adds_mono {A : Type} (f : A → bool) (o o' : option A) :
  adds o o' → is_some_and f o = true → is_some_and f o' = true.
Proof. by intros [->| ->]. Qed.

Lemma header_adds (name : string) (o o' : option text) : adds o o' → adds (header_value name o) (header_value name o').
Proof. intros [->| ->]; [by left|by right]. Qed.

Lemma app_rules_mono (s s' : Signals) :
  more_evidence s s' → Forall (λ r, r.1 s = true → r.1 s' = true) app_rules.
Proof.
  intros [H1 H2 H3 H4 H5 H6 H7 H8]. unfold app_rules, some_path, host_is, server_is, extract_host_header.
  apply (header_adds "host") in H3.
  repeat (apply Forall_cons; split; [cbn [fst];
    first [by apply existsb_mono | by apply adds_mono |
           rewrite !andb_true_iff; intros [? ?]; split; [by eapply adds_mono|by eapply existsb_mono]]|]).
  constructor.
Qed.

(** The position of the rule that decides. *)
Definition deciding_rule (s : Signals) : option nat := fst <$> list_find (λ r, r.1 s = true) app_rules.

Lemma classify_deciding (s : Signals) : classify_app s = deciding_rule s ▷ λ i, snd <$> app_rules !! i.
Proof.
  unfold classify_app, deciding_rule. induction app_rules as [|r l IH]; [done|]. cbn [List.find list_find].
  destruct (r.1 s) eqn:E.
  - rewrite decide_True by done. done.
  - rewrite decide_False by congruence. rewrite IH. by destruct (list_find _ l) as [[]|].
Qed.

(** Widening the window never weakens a guess: with more evidence the deciding
    rule stays or moves to one of higher confidence, and a service that had a
    label keeps having one. *)
Theorem classify_monotone :
  ∀ s s' : Signals, more_evidence s s' →
    match deciding_rule s with
    | Some i => ∃ j, deciding_rule s' = Some j ∧ (j <= i)%nat ∧ is_Some (classify_app s')
    | None => True
    end.
Proof.
  intros s s' Hm. apply app_rules_mono in Hm. rewrite (classify_deciding s').
  unfold deciding_rule. destruct (list_find (λ r, r.1 s = true) app_rules) as [[i r]|] eqn:E; [|done].
  cbn [fmap option_fmap option_map fst]. apply list_find_Some in E as (Hi & Hr & _).
  assert (Hr' : r.1 s' = true).
  { rewrite Forall_forall in Hm. apply Hm; [by eapply list_elem_of_lookup_2|done]. }
  destruct (list_find (λ r, r.1 s' = true) app_rules) as [[j q]|] eqn:E'.
  - apply list_find_Some in E' as (Hj & Hq & Hmin). exists j. cbn [fmap option_fmap option_map fst mbind option_bind].
    split; [done|]. split; [|rewrite Hj; by eexists].
    destruct (Nat.le_gt_cases j i) as [|Hlt]; [done|]. by destruct (Hmin i r Hi Hlt).
  - exfalso. apply list_find_None in E'. rewrite Forall_forall in E'. apply (E' r); [by eapply list_elem_of_lookup_2|done].
Qed.
End ClassifySpec.

(** ** Concrete values *)

Definition sample_as_i64 (n : @number sample_json_number) : option Z :=
  let z : Z := n in if (- 2 ^ 63 <=? z) && (z <? 2 ^ 63) then Some z else None.
Definition sample_of_i64 (z : Z) : @number sample_json_number := z.
#[global] Instance sample_json_signed : JsonSigned := Build_JsonSigned sample_json_number sample_as_i64 sample_of_i64.
#[global] Instance sample_json_signed_laws : JsonSignedLaws sample_json_signed.
Proof.
  split; [|done]. intros n [H1 H2]. cbn [number_as_i64 number_of_i64 sample_json_signed].
  unfold sample_as_i64, sample_of_i64. by rewrite (proj2 (Z.leb_le _ _) H1), (proj2 (Z.ltb_lt _ _) H2).
Qed.

Lemma cursor_roundtrip_witness :
  decode_session_cursor (encode_session_cursor (mkListCursor (-5) (B "tap") (B "s1"))) = Some (mkListCursor (-5) (B "tap") (B "s1")).
Proof.
  destruct (cursor_roundtrip (-5) (B "tap") (B "s1") []) as [H _]; [by vm_compute|reflexivity..|]. exact H.
Defined.

Example cursor_garbage :
  decode_session_turns_cursor (B "abc") = None ∧ decode_session_turns_cursor (B "not-hex!") = None ∧
  decode_session_turns_cursor (B "00") = None.
Proof. by vm_compute. Qed.

#[local] Existing Instance hash_iter_std.
#[local] Existing Instance hash_iter_std_laws.

Definition sample_retention : RetentionConfig :=
  mkRetention true 3600 7 0 0 (<["10s"%string := 0]> (<["1h"%string := 365]> ∅)).

Lemma retention_cutoffs_witness :
  po_spans_before (policy_from_config sample_retention 1700000000) = Some 1699395200 ∧
  po_metrics_before (policy_from_config sample_retention 1700000000) = [("1h"%string, 1668464000)].
Proof.
  destruct (retention_cutoffs sample_retention 1700000000) as (H & _); [by vm_compute..| |].
  { apply (bool_decide_unpack _). vm_compute. exact I. }
  split; [exact H|vm_compute; reflexivity].
Defined.

Definition sample_signals (paths models : list text) : Signals :=
  mkSignals (Some (B "uvicorn")) None None paths [] models None None.

Lemma classify_monotone_witness :
  classify_app (sample_signals [B "/v1/chat/completions"] []) = Some "vllm"%string ∧
  is_Some (classify_app (sample_signals [B "/v1/chat/completions"; B "/generate"] [B "GLM-4"])).
Proof.
  split; [by vm_compute|].
  pose proof (classify_monotone (sample_signals [B "/v1/chat/completions"] [])
    (sample_signals [B "/v1/chat/completions"; B "/generate"] [B "GLM-4"])) as H.
  destruct H as (_ & _ & _ & H); [|exact H]. constructor; try (by right); cbn; set_solver.
Defined.

(** A Gemini body's own counts are under another name, so a call whose tokens
    the wire gave is shown as estimated. *)
Definition sample_gemini_usage : Value :=
  obj [("usageMetadata", obj [("promptTokenCount", of_u64 10); ("candidatesTokenCount", of_u64 5)])]%string.
Example gemini_shown_as_estimated :
  rp_input_tokens (body_response_info (Some sample_gemini_usage) None) = Some 10 ∧
  derive_tokens_estimated (Some 10) (Some 5) (Some (to_string sample_gemini_usage)) = true.
Proof. by vm_compute. Qed.
