(* ===== verification/Api.v ===== *)
(** * Requests of the HTTP API (h-api/src/params.rs, response.rs, routes/)

    What a handler makes of its parameters: lists of comma-separated values,
    time ranges, filters, and the queries of the storage, with the error of the
    first parameter that is wrong.  The parameters arrive parsed by axum. *)

From Stdlib Require Import Strings.Byte Strings.String ZArith Lia.
From stdpp Require Import base gmap sets list strings.
From S2P Require Import Prelude.
From S2P Require Import Net.
From S2P Require Import Text.
From S2P Require Import Json.
From S2P Require Import Dialect.
From S2P Require Import Spl.

Open Scope Z_scope.

Inductive ApiError : Type :=
| InvalidParam (message : text)
| NotFound (message : text)
| Internal (message : text).

(** [From<AppError>]: what the storage says is logged, not shown. *)
Definition from_app_error : ApiError := Internal (B "internal server error").

(** The status and the code of the body of [into_response]. *)
Definition error_response (e : ApiError) : Z * Z * text :=
  match e with
  | InvalidParam msg => (400, 1001, msg)
  | NotFound msg => (404, 2001, msg)
  | Internal msg => (500, 5001, msg)
  end.

(** [?] on a result. *)
Definition api_bind {A C E : Type} (r : A + E) (f : A → C + E) : C + E :=
  match r with inl a => f a | inr e => inr e end.
Notation "x ←? r ; k" := (api_bind r (λ x, k)) (at level 20, r at level 100, k at level 200, right associativity) : heron_scope.

(** [collect::<Result<Vec<_>, _>>()]. *)
Fixpoint collect_results {A C E : Type} (f : A → C + E) (l : list A) : list C + E :=
  match l with
  | [] => inl []
  | a :: l => c ←? f a; cs ←? collect_results f l; inl (c :: cs)
  end.

(** ** Values *)

Definition COMMA : byte := x2c.

(** [s.split(c)]. *)
Fixpoint split_byte (c : byte) (s : text) : list text :=
  match s with
  | [] => [[]]
  | b :: s' =>
      if bool_decide (b = c) then [] :: split_byte c s'
      else match split_byte c s' with
           | [] => [[b]]
           | p :: ps => (b :: p) :: ps
           end
  end.

Definition parse_csv (s : option text) : list text :=
  match s with
  | Some ((_ :: _) as s) => List.filter (λ v, negb (bool_decide (v = []))) (map trim (split_byte COMMA s))
  | _ => []
  end.

(** The list as the queries hold it. *)
Definition csv_strings (s : option text) : list string := map str (parse_csv s).

Definition parse_u16 (s : text) : option Z := n ← from_str_radix 10 s; if n <? 2 ^ 16 then Some n else None.

(** A list of [u16], or the error that names the first value that is none. *)
Definition parse_u16_csv (name : text) (s : option text) : list Z + ApiError :=
  collect_results (λ v, match parse_u16 v with
                | Some n => inl n
                | None => inr (InvalidParam (B "invalid " ++ name ++ B ": " ++ v))
                end) (parse_csv s).

Definition MAX_SECONDS_SINCE_EPOCH : Z := 4102444800.

Record TimeRange : Type := mkTimeRange { tr_start_us : Z; tr_end_us : Z }.

Definition check_seconds (name : text) (v : Z) : unit + ApiError :=
  if v <? 0 then
    inr (InvalidParam (name ++ B "=" ++ show_z v ++ B ": negative seconds-since-epoch not allowed"))
  else if MAX_SECONDS_SINCE_EPOCH <? v then
    inr (InvalidParam (name ++ B "=" ++ show_z v ++ B ": value exceeds " ++ show_z MAX_SECONDS_SINCE_EPOCH
           ++ B " (year 2100 in seconds-since-epoch). The API expects seconds, not milliseconds or microseconds."))
  else inl tt.

(** The products are those of [i64]. *)
Definition to_time_range (start end_ : Z) : TimeRange + ApiError :=
  _ ←? check_seconds (B "start") start;
  _ ←? check_seconds (B "end") end_;
  inl (mkTimeRange (swrap 64 (start * 1000000)) (swrap 64 (end_ * 1000000))).

Definition to_dimension_filter (wire_api model server_ip tool_surface : option text) : DimensionFilter :=
  mkFilter (csv_strings wire_api) (csv_strings model) (csv_strings server_ip) (csv_strings tool_surface).

(** ** Turns: [GET /api/agent-turns] *)

Record TracesQuery : Type := mkTracesQuery {
  tq_time_range : TimeRange;
  tq_filter : DimensionFilter;
  tq_client_ips : list string;
  tq_server_ports : list Z;
  tq_statuses : list string;
  tq_agent_kinds : list string;
  tq_sort_by : text;
  tq_sort_order : text;
  tq_page : Z;
  tq_page_size : Z;
  tq_include_proxy_hops : bool;
}.

Record TracesParams : Type := mkTracesParams {
  tp_start : Z;
  tp_end : Z;
  tp_wire_api : option text;
  tp_model : option text;
  tp_server_ip : option text;
  tp_client_ip : option text;
  tp_server_port : option text;
  tp_status : option text;
  tp_agent_kind : option text;
  tp_sort_by : text;
  tp_sort_order : text;
  tp_page : Z;
  tp_page_size : Z;
  tp_include_proxy_hops : bool;
}.

Definition traces_query (p : TracesParams) : TracesQuery + ApiError :=
  server_ports ←? parse_u16_csv (B "server_port") (tp_server_port p);
  time_range ←? to_time_range (tp_start p) (tp_end p);
  inl {| tq_time_range := time_range;
         tq_filter := to_dimension_filter (tp_wire_api p) (tp_model p) (tp_server_ip p) None;
         tq_client_ips := csv_strings (tp_client_ip p);
         tq_server_ports := server_ports;
         tq_statuses := csv_strings (tp_status p);
         tq_agent_kinds := csv_strings (tp_agent_kind p);
         tq_sort_by := tp_sort_by p;
         tq_sort_order := tp_sort_order p;
         tq_page := tp_page p;
         tq_page_size := Z.min (tp_page_size p) 200;
         tq_include_proxy_hops := tp_include_proxy_hops p |}.

(** ** Calls: [GET /api/llm-calls] *)

Record SpansQuery : Type := mkSpansQuery {
  sq_time_range : TimeRange;
  sq_filter : DimensionFilter;
  sq_status_codes : list Z;
  sq_finish_reasons : list string;
  sq_client_ips : list string;
  sq_server_ports : list Z;
  sq_request_path_contains : option text;
  sq_is_stream : option bool;
  sq_sort_by : text;
  sq_sort_order : text;
  sq_page : Z;
  sq_page_size : Z;
}.

Record SpansParams : Type := mkSpansParams {
  sp_start : Z;
  sp_end : Z;
  sp_wire_api : option text;
  sp_model : option text;
  sp_server_ip : option text;
  sp_status_code : option text;
  sp_finish_reason : option text;
  sp_client_ip : option text;
  sp_server_port : option text;
  sp_request_path : option text;
  sp_is_stream : option text;
  sp_sort_by : text;
  sp_sort_order : text;
  sp_page : Z;
  sp_page_size : Z;
}.

Definition one_of_texts (l : list string) (s : text) : bool := existsb (λ k, bool_decide (s = B k)) l.

Definition parse_is_stream (s : option text) : option bool + ApiError :=
  match s with
  | None => inl None
  | Some s =>
      if one_of_texts [""; "all"]%string s then inl None
      else if one_of_texts ["stream"; "true"; "1"]%string s then inl (Some true)
      else if one_of_texts ["non-stream"; "nonstream"; "false"; "0"]%string s then inl (Some false)
      else inr (InvalidParam (B "is_stream must be one of: stream, non-stream, all (got '" ++ s ++ B "')"))
  end.

(** [o.filter(|s| !s.is_empty())]. *)
Definition non_empty (o : option text) : option text := match o with Some [] => None | _ => o end.

Definition spans_query (p : SpansParams) : SpansQuery + ApiError :=
  status_codes ←? parse_u16_csv (B "status_code") (sp_status_code p);
  server_ports ←? parse_u16_csv (B "server_port") (sp_server_port p);
  is_stream ←? parse_is_stream (sp_is_stream p);
  time_range ←? to_time_range (sp_start p) (sp_end p);
  inl {| sq_time_range := time_range;
         sq_filter := to_dimension_filter (sp_wire_api p) (sp_model p) (sp_server_ip p) None;
         sq_status_codes := status_codes;
         sq_finish_reasons := csv_strings (sp_finish_reason p);
         sq_client_ips := csv_strings (sp_client_ip p);
         sq_server_ports := server_ports;
         sq_request_path_contains := non_empty (sp_request_path p);
         sq_is_stream := is_stream;
         sq_sort_by := sp_sort_by p;
         sq_sort_order := sp_sort_order p;
         sq_page := sp_page p;
         sq_page_size := Z.min (sp_page_size p) 200 |}.

(** ** Services: [GET /api/services] *)

Record ServicesQuery : Type := mkServicesQuery {
  vq_time_range : TimeRange; vq_sort_by : text; vq_sort_order : text; vq_limit : Z;
}.
Definition services_query (start end_ : Z) (sort_by sort_order : text) (limit : Z) : ServicesQuery + ApiError :=
  time_range ←? to_time_range start end_;
  inl (mkServicesQuery time_range sort_by sort_order (Z.min limit 500)).

(** ** Trimming twice is trimming once *)

Lemma ws_prefix_zero (l : text) : ws_prefix l = O ↔ Forall (λ w, starts_with w l = false) whitespace.
Proof.
  unfold ws_prefix. split.
  - intros H. destruct (List.find _ whitespace) as [w|] eqn:E.
    + apply List.find_some in E as [Hw _]. exfalso. revert Hw H.
      assert (Hl : Forall (λ w, length w ≠ O) whitespace) by (by apply (bool_decide_unpack _); vm_compute).
      rewrite List.Forall_forall in Hl. intros Hw. by apply Hl.
    + apply List.Forall_forall. intros w Hw. by eapply List.find_none in E.
  - intros H. destruct (List.find _ whitespace) as [w|] eqn:E; [|done].
    apply List.find_some in E as [Hw Hs]. rewrite List.Forall_forall in H. by rewrite H in Hs.
Qed.

Lemma trim_fuel_suffix (ws : text → nat) (fuel : nat) (l : text) : ∃ k, trim_fuel ws fuel l = drop k l.
Proof.
  revert l; induction fuel as [|fuel IH]; intros l; [by exists O|]. cbn [trim_fuel].
  destruct (ws l) as [|n]; [by exists O|]. destruct (IH (drop (S n) l)) as [k ->].
  exists (S n + k)%nat. by rewrite drop_drop.
Qed.

Lemma trim_fuel_done (ws : text → nat) (fuel : nat) (l : text) :
  (length l <= fuel)%nat → ws [] = O → ws (trim_fuel ws fuel l) = O.
Proof.
  revert l; induction fuel as [|fuel IH]; intros l Hl H0; cbn [trim_fuel].
  { destruct l; [done|cbn in Hl; lia]. }
  destruct (ws l) as [|n] eqn:E; [done|]. apply IH; [|done]. rewrite length_drop. lia.
Qed.

Lemma trim_trim_spec (l : text) : trimmed (trim l) ∧ ∃ a b, l = a ++ trim l ++ b.
Proof.
  unfold trim. destruct (trim_fuel_suffix ws_prefix (length l) l) as [j Ej].
  pose proof (trim_fuel_done ws_prefix (length l) l (le_n _) eq_refl) as Hp.
  fold (trim_start l) in Ej, Hp. set (s := trim_start l) in *. unfold trim_end.
  destruct (trim_fuel_suffix ws_suffix (length s) (rev s)) as [k Ek].
  pose proof (trim_fuel_done ws_suffix (length s) (rev s)) as Hs. rewrite length_rev in Hs.
  specialize (Hs (le_n _) eq_refl). set (e := trim_fuel ws_suffix (length s) (rev s)) in *.
  assert (Es : s = rev e ++ rev (take k (rev s))).
  { rewrite <- rev_app_distr, Ek, take_drop, rev_involutive. done. }
  split; [split; [|by rewrite rev_involutive]|].
  - apply ws_prefix_zero in Hp. apply ws_prefix_zero. eapply List.Forall_impl; [|exact Hp]. cbn. intros w Hw.
    destruct (starts_with w (rev e)) eqn:E; [|done].
    apply (starts_with_app_l w _ (rev (take k (rev s)))) in E. rewrite <- Es in E. congruence.
  - exists (take j l), (rev (take k (rev s))). rewrite <- Es, Ej. by rewrite take_drop.
Qed.

(** ** Comma-separated values *)

Lemma split_byte_no_sep (c : byte) (s : text) : c ∉ s → split_byte c s = [s].
Proof.
  induction s as [|b s IH]; intros Hs; [done|]. cbn [split_byte]. rewrite bool_decide_eq_false_2 by set_solver.
  rewrite IH by set_solver. done.
Qed.

Lemma split_byte_app (c : byte) (a s : text) : c ∉ a → split_byte c (a ++ c :: s) = a :: split_byte c s.
Proof.
  induction a as [|b a IH]; intros Ha; cbn [app split_byte]; [by rewrite bool_decide_eq_true_2|].
  rewrite bool_decide_eq_false_2 by set_solver. by rewrite IH by set_solver.
Qed.

Lemma split_byte_pieces (c : byte) (s : text) : Forall (λ p, c ∉ p) (split_byte c s).
Proof.
  induction s as [|b s IH]; cbn [split_byte]; [repeat constructor; set_solver|].
  case_bool_decide as Hb; [constructor; [set_solver|done]|].
  destruct (split_byte c s) as [|p ps]; [repeat constructor; set_solver|].
  inversion IH; subst. constructor; [set_solver|done].
Qed.

(** A value a list can hold: something, without a comma or white space around it. *)
Definition csv_item (v : text) : Prop := v ≠ [] ∧ COMMA ∉ v ∧ trimmed v.

Lemma split_join (l : list text) :
  l ≠ [] → Forall (λ v, COMMA ∉ v) l → split_byte COMMA (join [COMMA] l) = l.
Proof.
  induction l as [|v l IH]; [done|]. intros _ [Hv Hl]%Forall_cons. destruct l as [|w l].
  - by apply split_byte_no_sep.
  - change (join [COMMA] (v :: w :: l)) with (v ++ COMMA :: join [COMMA] (w :: l)).
    rewrite split_byte_app by done. by rewrite IH.
Qed.

Lemma filter_items (l : list text) :
  Forall csv_item l → List.filter (λ v, negb (bool_decide (v = []))) (map trim l) = l.
Proof.
  induction l as [|v l IH]; [done|]. intros [(Hv & _ & Ht) Hl]%Forall_cons. cbn [map List.filter].
  rewrite trim_trimmed by done. rewrite bool_decide_eq_false_2 by done. cbn [negb]. by rewrite IH.
Qed.

(** What a list parameter means: joining values with commas and parsing gives
    the values back, and whatever is parsed is a list of such values, so that
    writing them out and parsing again changes nothing. *)
Theorem csv_roundtrip :
  ∀ (l : list text), Forall csv_item l →
    parse_csv (Some (join [COMMA] l)) = l ∧
    ∀ s, Forall csv_item (parse_csv s) ∧ parse_csv (Some (join [COMMA] (parse_csv s))) = parse_csv s.
Proof.
  assert (Hj : ∀ l, Forall csv_item l → parse_csv (Some (join [COMMA] l)) = l).
  { intros l Hl. destruct l as [|v l]; [done|]. unfold parse_csv.
    destruct (join [COMMA] (v :: l)) as [|b s] eqn:E.
    { apply Forall_cons in Hl as [[Hv _] _]. destruct v; [done|]. by destruct l. }
    rewrite <- E, split_join; [by apply filter_items|done|].
    eapply list.Forall_impl; [exact Hl|]. by intros ? (_ & ? & _). }
  assert (Hi : ∀ s, Forall csv_item (parse_csv s)).
  { intros [[|b s]|]; [constructor| |constructor]. unfold parse_csv. apply Forall_forall. intros v Hv.
    apply list_elem_of_In, filter_In in Hv as [Hv Hne]. apply in_map_iff in Hv as (p & <- & Hp).
    apply list_elem_of_In in Hp. destruct (trim_trim_spec p) as [Ht (x & y & E)].
    split_and!; [by destruct (trim p)| |done]. pose proof (split_byte_pieces COMMA (b :: s)) as Hc.
    rewrite Forall_forall in Hc. specialize (Hc p Hp). rewrite E in Hc. set_solver. }
  intros l Hl. split; [by apply Hj|]. intros s. split; [apply Hi|]. by apply Hj.
Qed.

Lemma csv_roundtrip_witness :
  Forall csv_item [B "anthropic"; B "openai-chat"] ∧
  parse_csv (Some (B "anthropic,openai-chat")) = [B "anthropic"; B "openai-chat"].
Proof.
  assert (H : Forall csv_item [B "anthropic"; B "openai-chat"]).
  { repeat (constructor; [split_and!; [done|by apply (bool_decide_unpack _); vm_compute|by vm_compute]|]). constructor. }
  split; [exact H|]. exact (proj1 (csv_roundtrip _ H)).
Defined.

Example csv_cases :
  parse_csv (Some (B "a, b ,,c")) = [B "a"; B "b"; B "c"] ∧ parse_csv (Some (B "  ")) = [] ∧ parse_csv None = [].
Proof. by vm_compute. Qed.

(** ** Time ranges *)

Lemma check_seconds_spec (name : text) (v : Z) :
  (check_seconds name v = inl tt ∧ 0 <= v <= MAX_SECONDS_SINCE_EPOCH) ∨
  (¬ 0 <= v <= MAX_SECONDS_SINCE_EPOCH ∧ ∃ m, check_seconds name v = inr (InvalidParam m)).
Proof.
  unfold check_seconds. destruct (Z.ltb_spec v 0); [right; split; [lia|by eexists]|].
  destruct (Z.ltb_spec MAX_SECONDS_SINCE_EPOCH v); [right; split; [lia|by eexists]|]. left. split; [done|lia].
Qed.

Lemma seconds_in_us (v : Z) : 0 <= v <= MAX_SECONDS_SINCE_EPOCH → swrap 64 (v * 1000000) = v * 1000000.
Proof. unfold MAX_SECONDS_SINCE_EPOCH. intros H. apply swrap_small; [done|]. change (2 ^ (64 - 1)) with 9223372036854775808. lia. Qed.

Lemma time_range_ends (start end_ : Z) (r : TimeRange) :
  to_time_range start end_ = inl r →
  0 <= start <= MAX_SECONDS_SINCE_EPOCH ∧ 0 <= end_ <= MAX_SECONDS_SINCE_EPOCH ∧
  r = mkTimeRange (start * 1000000) (end_ * 1000000).
Proof.
  unfold to_time_range.
  destruct (check_seconds_spec (B "start") start) as [[-> Hs]|[_ [m ->]]]; [|done].
  destruct (check_seconds_spec (B "end") end_) as [[-> He]|[_ [m ->]]]; [|done]. cbn [api_bind].
  intros [= <-]. by rewrite !seconds_in_us.
Qed.

(** A range is accepted exactly when both ends are from 1970 to 2100 in
    seconds, whatever their order, and is then exact in microseconds; anything
    else is a bad request. *)
Theorem time_range_exact :
  ∀ start end_ : Z,
    match to_time_range start end_ with
    | inl r => 0 <= start <= MAX_SECONDS_SINCE_EPOCH ∧ 0 <= end_ <= MAX_SECONDS_SINCE_EPOCH ∧
        r = mkTimeRange (start * 1000000) (end_ * 1000000)
    | inr e => ¬ (0 <= start <= MAX_SECONDS_SINCE_EPOCH ∧ 0 <= end_ <= MAX_SECONDS_SINCE_EPOCH) ∧
        ∃ m, e = InvalidParam m
    end.
Proof.
  intros s e. unfold to_time_range.
  destruct (check_seconds_spec (B "start") s) as [[-> Hs]|[Hs [m ->]]]; cbn [api_bind]; [|split; [tauto|by eexists]].
  destruct (check_seconds_spec (B "end") e) as [[-> He]|[He [m ->]]]; cbn [api_bind]; [|split; [tauto|by eexists]].
  by rewrite !seconds_in_us.
Qed.
