(* ===== verification/ApiMetrics.v ===== *)
(** * Metrics over time (h-api/src/routes/metrics.rs)

    The handlers under [/api/metrics]: the checks of the parameters, the time
    grid of a window, and the rows of the storage spread over it, one series
    for each field and group. *)

From Stdlib Require Import Strings.Byte Strings.String ZArith Lia SpecFloat.
From stdpp Require Import base gmap sets list strings sorting.
From S2P Require Import Prelude.
From S2P Require Import Net.
From S2P Require Import Text.
From S2P Require Import Counters.
From S2P Require Import OrdMap.
From S2P Require Import Calls.
From S2P Require Import Dims.
From S2P Require Import Json.
From S2P Require Import Dialect.
From S2P Require Import Spl.
From S2P Require Import Bucket.
From S2P Require Import Aggregator.
From S2P Require Import Api.

Open Scope Z_scope.

Definition VALID_GRANULARITIES : list string := ["10s"; "1m"; "5m"; "1h"]%string.
Definition VALID_TOOL_SURFACES : list string := ["function_call"; "mcp"; "cli"; "mixed"; "unknown"]%string.

Definition comma_list (l : list string) : text := join (B ", ") (map B l).

Fixpoint validate_tool_surfaces (values : list text) : unit + ApiError :=
  match values with
  | [] => inl tt
  | v :: values =>
      if one_of_texts VALID_TOOL_SURFACES v then validate_tool_surfaces values
      else inr (InvalidParam (B "tool_surface=" ++ v ++ B ": must be one of: " ++ comma_list VALID_TOOL_SURFACES))
  end.

Definition granularity_secs (label : string) : Z :=
  if String.eqb label "10s" then 10 else if String.eqb label "1m" then 60
  else if String.eqb label "5m" then 300 else if String.eqb label "1h" then 3600 else 60.

Definition MAX_TIMESERIES_BUCKETS : Z := 20000.

(** [end - start] of a release build. *)
Definition span_of (start end_ : Z) : Z := swrap 64 (end_ - start).

Definition suggested (start end_ : Z) : option string :=
  List.find (λ g, tdiv (span_of start end_) (granularity_secs g) <=? MAX_TIMESERIES_BUCKETS) VALID_GRANULARITIES.

Definition check_bucket_count (start end_ : Z) (granularity : string) : unit + ApiError :=
  let gran := granularity_secs granularity in
  if (end_ <=? start) || (gran <=? 0) then inl tt
  else
    let buckets := tdiv (span_of start end_) gran in
    if buckets <=? MAX_TIMESERIES_BUCKETS then inl tt
    else
      let suggestion := match suggested start end_ with
                        | Some g => B "use granularity=" ++ B g
                        | None => B "narrow the time range"
                        end in
      inr (InvalidParam
        (B "granularity=" ++ B granularity ++ B " over this time range would produce " ++ show_z buckets
         ++ B " points, above the " ++ show_z MAX_TIMESERIES_BUCKETS ++ B " limit — " ++ suggestion
         ++ B ", or request a shorter window")).

(** ** Queries and rows *)

Record MetricsTimeseriesQuery : Type := mkTimeseriesQuery {
  mq_time_range : TimeRange;
  mq_granularity : string;
  mq_filter : DimensionFilter;
  mq_fields : list string;
  mq_group_by : option string;
}.

Record MetricsTimeseriesRow : Type := mkTimeseriesRow {
  mr_timestamp : Z;
  mr_group : option string;
  mr_values : list (option spec_float);
}.

Record TimeseriesParams : Type := mkTimeseriesParams {
  ts_start : Z;
  ts_end : Z;
  ts_granularity : string;
  ts_wire_api : option text;
  ts_model : option text;
  ts_server_ip : option text;
  ts_tool_surface : option text;
  ts_fields : text;
  ts_group_by : option string;
}.

Record TimeseriesSeries : Type := mkSeries {
  se_name : string;
  se_group : option string;
  se_values : list (option spec_float);
}.
Record TimeseriesData : Type := mkTimeseriesData { td_timestamps : list Z; td_series : list TimeseriesSeries }.

(** ** The grid: [while t < end { push(t); t += gran }] *)

Fixpoint grid_loop (fuel : nat) (t end_ gran : Z) : list Z :=
  match fuel with
  | O => []
  | S fuel => if t <? end_ then t :: grid_loop fuel (t + gran) end_ gran else []
  end.

Definition first_ts (start gran : Z) : Z := (start + gran - 1) / gran * gran.

(** One round for each point, and the last. *)
Definition time_grid (start end_ gran : Z) : list Z :=
  if (start <? end_) && (0 <? gran)
  then grid_loop (Z.to_nat ((end_ - first_ts start gran) / gran + 2)) (first_ts start gran) end_ gran
  else [].

(** ** The pivot *)

Definition series_map : Type := list ((string * option string) * list (option spec_float)).

Definition ts_index (timestamps : list Z) (t : Z) : option nat := fst <$> list_find (λ x, x = t) timestamps.

Definition pivot_cell (n idx : nat) (row : MetricsTimeseriesRow) (m : series_map) (f : nat * string) : series_map :=
  om_entry (f.2, mr_group row) (replicate n None) (<[idx := mjoin (mr_values row !! f.1)]>) m.

Definition pivot_row (timestamps : list Z) (fields : list string) (m : series_map)
    (row : MetricsTimeseriesRow) : series_map :=
  match ts_index timestamps (mr_timestamp row) with
  | None => m
  | Some idx => foldl (pivot_cell (length timestamps) idx row) m (imap pair fields)
  end.

Definition pivot (timestamps : list Z) (fields : list string) (rows : list MetricsTimeseriesRow) : series_map :=
  foldl (pivot_row timestamps fields) [] rows.

Definition series_of (e : (string * option string) * list (option spec_float)) : TimeseriesSeries :=
  mkSeries e.1.1 e.1.2 e.2.

(** ** The handler, over what the storage answers *)

Section Timeseries.
Variable query_metrics_timeseries : MetricsTimeseriesQuery → list MetricsTimeseriesRow + unit.

Definition group_by_ok (g : option string) : unit + ApiError :=
  match g with
  | Some gb =>
      if String.eqb gb "wire_api" || String.eqb gb "model" then inl tt
      else inr (InvalidParam (B "group_by must be 'wire_api' or 'model'"))
  | None => inl tt
  end.

Definition granularity_ok (g : string) : unit + ApiError :=
  if existsb (String.eqb g) VALID_GRANULARITIES then inl tt
  else inr (InvalidParam (B "granularity must be one of: " ++ comma_list VALID_GRANULARITIES)).

Definition timeseries_query (p : TimeseriesParams) : MetricsTimeseriesQuery + ApiError :=
  _ ←? granularity_ok (ts_granularity p);
  _ ←? check_bucket_count (ts_start p) (ts_end p) (ts_granularity p);
  let fields := csv_strings (Some (ts_fields p)) in
  _ ←? (match fields with [] => inr (InvalidParam (B "fields is required")) | _ => inl tt end);
  _ ←? group_by_ok (ts_group_by p);
  _ ←? validate_tool_surfaces (parse_csv (ts_tool_surface p));
  time_range ←? to_time_range (ts_start p) (ts_end p);
  inl {| mq_time_range := time_range;
         mq_granularity := ts_granularity p;
         mq_filter := to_dimension_filter (ts_wire_api p) (ts_model p) (ts_server_ip p) (ts_tool_surface p);
         mq_fields := fields;
         mq_group_by := ts_group_by p |}.

Definition timeseries (p : TimeseriesParams) : TimeseriesData + ApiError :=
  query ←? timeseries_query p;
  match query_metrics_timeseries query with
  | inr _ => inr from_app_error
  | inl rows =>
      let timestamps := time_grid (ts_start p) (ts_end p) (granularity_secs (mq_granularity query)) in
      inl (mkTimeseriesData timestamps (map series_of (pivot timestamps (mq_fields query) rows)))
  end.
End Timeseries.

(** ** The grid, proved *)

(** The [n] points from [t] on. *)
Lemma grid_loop_seq (fuel : nat) (t end_ gran : Z) :
  0 < gran → end_ - t < gran * Z.of_nat fuel →
  ∃ n, grid_loop fuel t end_ gran = map (λ i, t + gran * Z.of_nat i) (seq 0 n) ∧
       (∀ i : nat, (i < n)%nat ↔ t + gran * Z.of_nat i < end_).
Proof.
  intros Hg. revert t; induction fuel as [|fuel IH]; intros t Hf.
  { exists O. split; [done|]. intros i. split; [lia|nia]. }
  cbn [grid_loop]. destruct (Z.ltb_spec t end_) as [Ht|Ht].
  - destruct (IH (t + gran)) as (n & E & Hn); [lia|]. exists (S n). rewrite E. split.
    + cbn [seq map]. rewrite Z.mul_0_r, Z.add_0_r, <- seq_shift, map_map. f_equal.
      apply map_ext. intros i. lia.
    + intros [|i]; [split; lia|]. rewrite <- Nat.succ_lt_mono, Hn. lia.
  - exists O. split; [done|]. intros i. split; [lia|nia].
Qed.

Lemma first_ts_spec (start gran : Z) :
  0 < gran → start <= first_ts start gran < start + gran ∧ (gran | first_ts start gran).
Proof.
  intros Hg. unfold first_ts. split; [|by exists ((start + gran - 1) / gran)].
  pose proof (Z.div_mod (start + gran - 1) gran). pose proof (Z.mod_pos_bound (start + gran - 1) gran). lia.
Qed.

(** The grid of a window is its multiples of the granularity, in order. *)
Lemma time_grid_spec (start end_ gran : Z) :
  0 < gran →
  StronglySorted Z.lt (time_grid start end_ gran) ∧
  (∀ t, t ∈ time_grid start end_ gran ↔ start <= t < end_ ∧ (gran | t)) ∧
  gran * (zlen (time_grid start end_ gran) - 1) < Z.max gran (end_ - start).
Proof.
  intros Hg. unfold time_grid. rewrite (proj2 (Z.ltb_lt 0 gran)), andb_true_r by done.
  destruct (Z.ltb_spec start end_) as [Hs|Hs].
  2: { split_and!; [constructor| |unfold zlen; cbn; lia]. intros t. split; [set_solver|lia]. }
  destruct (first_ts_spec start gran Hg) as [Hf [q Hq]]. set (t0 := first_ts start gran) in *.
  destruct (grid_loop_seq (Z.to_nat ((end_ - t0) / gran + 2)) t0 end_ gran Hg) as (n & E & Hn).
  { pose proof (Z.div_mod (end_ - t0) gran). pose proof (Z.mod_pos_bound (end_ - t0) gran).
    assert (-1 <= (end_ - t0) / gran) by (apply Z.div_le_lower_bound; lia). nia. }
  rewrite E. split_and!.
  - clear E Hn. generalize O. induction n as [|n IH]; intros k; cbn [seq map]; constructor; [apply IH|].
    apply Forall_map, Forall_forall. intros i Hi. apply list_elem_of_In, in_seq in Hi. nia.
  - intros t. rewrite list_elem_of_fmap. split.
    + intros (i & -> & Hi). apply list_elem_of_In, in_seq in Hi. pose proof (proj1 (Hn i) ltac:(lia)).
      split; [nia|]. rewrite Hq. exists (q + Z.of_nat i). lia.
    + intros [Ht [k ->]]. exists (Z.to_nat (k - q)).
      assert (q <= k) by nia. split; [rewrite Hq; nia|].
      apply list_elem_of_In, in_seq. split; [lia|]. cbn. apply Hn. nia.
  - unfold zlen. rewrite length_map, length_seq. destruct n as [|n]; [lia|].
    pose proof (proj1 (Hn n) ltac:(lia)). nia.
Qed.

Lemma sorted_nodup (l : list Z) : StronglySorted Z.lt l → NoDup l.
Proof.
  induction 1 as [|x l Hl IH Hx]; constructor; [|done]. rewrite Forall_forall in Hx.
  intros Hin. apply Hx in Hin. lia.
Qed.

(** The start of an aggregation window in the range is a point of the grid. *)
Lemma window_on_grid (us start end_ gran : Z) :
  0 < gran → 0 <= us → start <= window_start us gran / 1000000 < end_ →
  window_start us gran / 1000000 ∈ time_grid start end_ gran.
Proof.
  intros Hg Hus Ht. apply time_grid_spec; [done|]. split; [done|]. unfold window_start.
  exists (tdiv us (gran * 1000000)). rewrite Z.mul_assoc. by rewrite Z.div_mul.
Qed.

Lemma granularity_secs_pos (g : string) : 0 < granularity_secs g <= 3600.
Proof. unfold granularity_secs. repeat case_match; lia. Qed.

(** A window of at most 2^62 seconds that passes has at most one point more than
    the limit. *)
Lemma grid_bounded (start end_ : Z) (g : string) :
  check_bucket_count start end_ g = inl tt → 0 <= start <= MAX_SECONDS_SINCE_EPOCH →
  0 <= end_ <= MAX_SECONDS_SINCE_EPOCH →
  zlen (time_grid start end_ (granularity_secs g)) <= MAX_TIMESERIES_BUCKETS + 1.
Proof.
  intros Hc Hs He. pose proof (granularity_secs_pos g) as Hg.
  destruct (time_grid_spec start end_ (granularity_secs g) ltac:(lia)) as (_ & _ & Hl).
  unfold check_bucket_count in Hc. unfold MAX_SECONDS_SINCE_EPOCH in *.
  destruct (Z.leb_spec end_ start) as [Hle|Hgt]; cbn [orb] in Hc.
  { unfold MAX_TIMESERIES_BUCKETS. nia. }
  rewrite (proj2 (Z.leb_gt _ _)) in Hc by lia.
  destruct (Z.leb_spec (tdiv (span_of start end_) (granularity_secs g)) MAX_TIMESERIES_BUCKETS) as [Hb|]; [|done].
  unfold span_of in Hb. rewrite swrap_small in Hb; [|done|change (2 ^ (64 - 1)) with 9223372036854775808; lia].
  unfold tdiv in Hb. rewrite Z.quot_div_nonneg in Hb by lia.
  pose proof (Z.div_mod (end_ - start) (granularity_secs g)).
  pose proof (Z.mod_pos_bound (end_ - start) (granularity_secs g)). unfold MAX_TIMESERIES_BUCKETS in *. nia.
Qed.

(** ** The pivot, proved *)

(** The last index at which a list has [x]. *)
Fixpoint last_index (x : string) (l : list string) : option nat :=
  match l with
  | [] => None
  | y :: l => match last_index x l with
              | Some i => Some (S i)
              | None => if String.eqb x y then Some O else None
              end
  end.

Lemma last_index_snoc (x y : string) (l : list string) :
  last_index x (l ++ [y]) = if String.eqb x y then Some (length l) else last_index x l.
Proof.
  induction l as [|z l IH]; [cbn; by destruct (String.eqb x y)|]. cbn [app last_index length]. rewrite IH.
  by destruct (String.eqb x y).
Qed.

Lemma last_index_None (x : string) (l : list string) : last_index x l = None ↔ x ∉ l.
Proof.
  induction l as [|z l IH]; cbn [last_index]; [set_solver|]. destruct (last_index x l).
  - split; [done|]. intros H. assert (x ∉ l) as ?%IH by set_solver. done.
  - destruct (String.eqb_spec x z); set_solver.
Qed.

(** What a row has for a field, and what a time of a series shows: of the last
    row of that time and group, the value of the last such field. *)
Definition row_value (fields : list string) (f : string) (row : MetricsTimeseriesRow) : option spec_float :=
  i ← last_index f fields; mjoin (mr_values row !! i).
Definition rows_at (rows : list MetricsTimeseriesRow) (g : option string) (t : Z) : list MetricsTimeseriesRow :=
  filter (λ row, mr_timestamp row = t ∧ mr_group row = g) rows.
Definition cell (fields : list string) (rows : list MetricsTimeseriesRow) (f : string) (g : option string) (t : Z)
    : option spec_float :=
  last (rows_at rows g t) ▷ row_value fields f.

Lemma key_eq_cases (a b : string * option string) :
  (key_cmp a b = Eq ∧ a = b) ∨ (key_cmp a b ≠ Eq ∧ a ≠ b).
Proof. pose proof (key_cmp_eq a b). destruct (key_cmp a b); [left; tauto|right|right]; naive_solver. Qed.

(** One row: every field of its group gets the row's value at its time. *)
Lemma pivot_fields (n idx : nat) (row : MetricsTimeseriesRow) (fields : list string) (m : series_map) :
  om_ok m →
  let m' := foldl (pivot_cell n idx row) m (imap pair fields) in
  om_ok m' ∧
  ∀ f g, om_lookup (f, g) m' =
    match last_index f fields with
    | Some i => if decide (g = mr_group row)
                then Some (<[idx := mjoin (mr_values row !! i)]> (default (replicate n None) (om_lookup (f, g) m)))
                else om_lookup (f, g) m
    | None => om_lookup (f, g) m
    end.
Proof.
  intros Hm. induction fields as [|x fields IH] using rev_ind; [done|]. cbv zeta in *.
  rewrite imap_app, foldl_app. cbn [imap foldl]. destruct IH as [Hok IH]. rewrite Nat.add_0_r.
  set (m1 := foldl _ m _) in *. unfold pivot_cell. split; [by apply om_entry_ok|]. intros f g.
  cbn [fst snd]. rewrite om_lookup_entry by done. rewrite last_index_snoc.
  destruct (key_eq_cases (f, g) (x, mr_group row)) as [[-> [= -> ->]]|[Hc Hne]].
  - rewrite String.eqb_refl, decide_True by done. rewrite IH. destruct (last_index x fields); [|done].
    rewrite decide_True by done. cbn [default from_option id]. by rewrite list_insert_insert_eq.
  - destruct (key_cmp _ _); try done; rewrite IH; destruct (String.eqb_spec f x) as [->|]; try done;
      destruct (decide (g = mr_group row)) as [->|]; try done; by destruct (last_index x fields).
Qed.

Lemma list_find_nodup (l : list Z) (i : nat) (t : Z) :
  NoDup l → l !! i = Some t → ts_index l t = Some i.
Proof.
  intros Hn Hi. unfold ts_index. destruct (list_find (λ x, x = t) l) as [[j y]|] eqn:E.
  - apply list_find_Some in E as (Hj & -> & _). cbn. f_equal. by eapply NoDup_lookup.
  - exfalso. apply list_find_None in E. rewrite Forall_forall in E. by eapply E; [eapply list_elem_of_lookup_2|].
Qed.

Lemma ts_index_Some (l : list Z) (i : nat) (t : Z) : ts_index l t = Some i → l !! i = Some t.
Proof.
  unfold ts_index. destruct (list_find _ l) as [[j y]|] eqn:E; [|done]. intros [= <-].
  by apply list_find_Some in E as (Hj & -> & _).
Qed.

Lemma ts_index_None (l : list Z) (t : Z) : ts_index l t = None ↔ t ∉ l.
Proof.
  unfold ts_index. destruct (list_find _ l) as [[j y]|] eqn:E; cbn.
  - apply list_find_Some in E as (Hj & -> & _). split; [done|]. intros []. by eapply list_elem_of_lookup_2.
  - apply list_find_None in E. rewrite Forall_forall in E. split; [|done]. intros _ Hin. by eapply E.
Qed.

Lemma rows_at_snoc (rows : list MetricsTimeseriesRow) (row : MetricsTimeseriesRow) (g : option string) (t : Z) :
  last (rows_at (rows ++ [row]) g t)
  = if decide (mr_timestamp row = t ∧ mr_group row = g) then Some row else last (rows_at rows g t).
Proof.
  unfold rows_at. rewrite list.filter_app. cbn [filter list_filter].
  destruct (decide _); [apply last_snoc|by rewrite app_nil_r].
Qed.

(** A series is there for every field and every group that has a row on the
    grid, and shows at each time of the grid the value of its cell. *)
Lemma pivot_spec (timestamps : list Z) (fields : list string) (rows : list MetricsTimeseriesRow) :
  NoDup timestamps →
  om_ok (pivot timestamps fields rows) ∧
  ∀ f g,
    (om_lookup (f, g) (pivot timestamps fields rows) = None ∧
       (f ∈ fields → ∀ row, row ∈ rows → mr_group row = g → mr_timestamp row ∉ timestamps)) ∨
    (f ∈ fields ∧ om_lookup (f, g) (pivot timestamps fields rows) = Some (map (cell fields rows f g) timestamps)).
Proof.
  intros Hn. unfold pivot. induction rows as [|row rows [Hok IH]] using rev_ind.
  { split; [constructor|]. intros f g. left. split; [done|set_solver]. }
  rewrite foldl_app. cbn [foldl]. set (m := foldl (pivot_row timestamps fields) [] rows) in *.
  unfold pivot_row.
  destruct (ts_index timestamps (mr_timestamp row)) as [idx|] eqn:Ei.
  2: { split; [done|]. apply ts_index_None in Ei. intros f g. destruct (IH f g) as [[E H]|[Hf E]].
       - left. split; [done|]. set_solver.
       - right. split; [done|]. rewrite E. f_equal. apply map_ext_in. intros t Ht%list_elem_of_In. unfold cell.
         rewrite rows_at_snoc, decide_False; [done|]. intros [<- _]. done. }
  apply ts_index_Some in Ei. destruct (pivot_fields (length timestamps) idx row fields m Hok) as [Hok' Hl].
  split; [done|]. intros f g. rewrite Hl. specialize (IH f g). destruct (last_index f fields) as [i|] eqn:El.
  2: { apply last_index_None in El. destruct IH as [[E _]|[Hf _]]; [|done]. left. split; [done|]. intros Hf. done. }
  assert (Hf : f ∈ fields). { destruct (decide (f ∈ fields)) as [|H%last_index_None]; [done|congruence]. }
  destruct (decide (g = mr_group row)) as [->|Hg].
  2: { destruct IH as [[E H]|[_ E]].
       - left. split; [done|]. intros _ r [Hr| ->%list_elem_of_singleton]%elem_of_app Hrg; [by apply H|done].
       - right. split; [done|]. rewrite E. f_equal. apply map_ext. intros t. unfold cell.
         rewrite rows_at_snoc, decide_False; [done|]. by intros [_ <-]. }
  right. split; [done|]. f_equal.
  assert (Ec : ∀ t, cell fields (rows ++ [row]) f (mr_group row) t
    = if decide (mr_timestamp row = t) then mjoin (mr_values row !! i) else cell fields rows f (mr_group row) t).
  { intros t. unfold cell. rewrite rows_at_snoc. destruct (decide (mr_timestamp row = t)).
    - rewrite decide_True by done. cbn. unfold row_value. by rewrite El.
    - rewrite decide_False; [done|]. by intros [? _]. }
  assert (Eo : default (replicate (length timestamps) None) (om_lookup (f, mr_group row) m)
    = map (cell fields rows f (mr_group row)) timestamps).
  { destruct IH as [[-> H]|[_ ->]]; [|done]. cbn [default]. apply list_eq. intros j. rewrite list_lookup_fmap.
    destruct (timestamps !! j) as [t|] eqn:Ej.
    - rewrite lookup_replicate_2 by (by eapply lookup_lt_Some). cbn. f_equal. unfold cell.
      destruct (last (rows_at rows (mr_group row) t)) as [r|] eqn:Er; [|done]. exfalso.
      apply last_Some in Er as [l' Er]. assert (Hr : r ∈ rows_at rows (mr_group row) t) by (rewrite Er; set_solver).
      apply list_elem_of_filter in Hr as [[Hrt Hrg] Hr]. eapply H; [done|exact Hr|done|].
      rewrite Hrt. by eapply list_elem_of_lookup_2.
    - cbn. apply lookup_ge_None. rewrite length_replicate. by apply lookup_ge_None in Ej. }
  rewrite Eo. apply list_eq. intros j. rewrite list_lookup_fmap.
  destruct (decide (j = idx)) as [->|Hj].
  - rewrite list_lookup_insert_eq; [|rewrite length_map; by eapply lookup_lt_Some]. rewrite Ei. cbn.
    by rewrite Ec, decide_True.
  - rewrite list_lookup_insert_ne, list_lookup_fmap by done. destruct (timestamps !! j) as [t|] eqn:Ej; [|done].
    cbn. rewrite Ec, decide_False; [done|]. intros <-. apply Hj. by eapply NoDup_lookup.
Qed.

(** ** The answer *)

Lemma api_bind_inl {A C E : Type} (r : A + E) (f : A → C + E) (c : C) :
  api_bind r f = inl c → ∃ a, r = inl a ∧ f a = inl c.
Proof. destruct r; [|done]. cbn. eauto. Qed.

Lemma timeseries_query_ok (p : TimeseriesParams) (q : MetricsTimeseriesQuery) :
  timeseries_query p = inl q →
  check_bucket_count (ts_start p) (ts_end p) (ts_granularity p) = inl tt ∧
  0 <= ts_start p <= MAX_SECONDS_SINCE_EPOCH ∧ 0 <= ts_end p <= MAX_SECONDS_SINCE_EPOCH ∧
  mq_granularity q = ts_granularity p.
Proof.
  unfold timeseries_query.
  intros (_ & _ & H)%api_bind_inl. apply api_bind_inl in H as ([] & Hc & H).
  apply api_bind_inl in H as (_ & _ & H). apply api_bind_inl in H as (_ & _ & H).
  apply api_bind_inl in H as (_ & _ & H). apply api_bind_inl in H as (r & Hr & H). injection H as <-.
  pose proof (time_range_ends (ts_start p) (ts_end p) r Hr). tauto.
Qed.

(** C16: The answer of [/api/metrics/timeseries]: its times are the multiples of the
    granularity in the window, in order and at most one more than the limit;
    there is one series for each field and each group of a row on the grid; and
    a series shows at each time what the last row of that time and group has for
    the field, and nothing where there is none. *)
Theorem timeseries_pivots :
  ∀ (storage : MetricsTimeseriesQuery → list MetricsTimeseriesRow + unit) (p : TimeseriesParams) (data : TimeseriesData),
    timeseries storage p = inl data →
    ∃ query rows, timeseries_query p = inl query ∧ storage query = inl rows ∧
      let ts := td_timestamps data in
      let gran := granularity_secs (ts_granularity p) in
      StronglySorted Z.lt ts ∧ (∀ t, t ∈ ts ↔ ts_start p <= t < ts_end p ∧ (gran | t)) ∧
      zlen ts <= MAX_TIMESERIES_BUCKETS + 1 ∧
      NoDup (map (λ s, (se_name s, se_group s)) (td_series data)) ∧
      (∀ s, s ∈ td_series data → se_name s ∈ mq_fields query ∧
         se_values s = map (cell (mq_fields query) rows (se_name s) (se_group s)) ts) ∧
      (∀ f row, f ∈ mq_fields query → row ∈ rows → mr_timestamp row ∈ ts →
         ∃ s, s ∈ td_series data ∧ se_name s = f ∧ se_group s = mr_group row).
Proof.
  intros storage p data H. unfold timeseries in H. apply api_bind_inl in H as (q & Hq & H).
  destruct (storage q) as [rows|] eqn:Es; [|done]. injection H as <-. exists q, rows. do 2 (split; [done|]).
  destruct (timeseries_query_ok p q Hq) as (Hc & Hs & He & Hg). rewrite Hg. cbv zeta. cbn [td_timestamps td_series].
  pose proof (granularity_secs_pos (ts_granularity p)) as Hpos.
  destruct (time_grid_spec (ts_start p) (ts_end p) (granularity_secs (ts_granularity p)) ltac:(lia)) as (Hsort & Ht & _).
  do 2 (split; [done|]). split; [by apply grid_bounded|].
  set (ts := time_grid _ _ _) in *. destruct (pivot_spec ts (mq_fields q) rows (sorted_nodup _ Hsort)) as [Hok Hp].
  rewrite map_map. split; [|split].
  - pose proof (om_ok_nodup _ Hok) as Hn. erewrite map_ext; [exact Hn|]. by intros [[] ?].
  - intros s ([[f g] vs] & -> & Hin)%list_elem_of_fmap. apply om_lookup_elem in Hin; [|done]. cbn.
    destruct (Hp f g) as [[E _]|[Hf E]]; rewrite E in Hin; [done|]. by injection Hin as <-.
  - intros f row Hf Hrow Hts. destruct (Hp f (mr_group row)) as [[_ E]|[_ E]]; [by destruct (E Hf row Hrow eq_refl)|].
    apply om_lookup_elem in E; [|done]. eexists. split; [by apply list_elem_of_fmap_2|done].
Qed.

(** ** A concrete chart *)

Definition sample_timeseries : TimeseriesParams :=
  mkTimeseriesParams 1000 1200 "1m" None None None None (B "call_count,ttft_avg") (Some "model"%string).
Definition sample_timeseries_rows (_ : MetricsTimeseriesQuery) : list MetricsTimeseriesRow + unit :=
  inl [mkTimeseriesRow 1020 (Some "a"%string) [Some (f64_of_Z 3); None];
       mkTimeseriesRow 1140 (Some "b"%string) [Some (f64_of_Z 5); Some (f64_of_Z 7)];
       mkTimeseriesRow 1030 (Some "c"%string) [Some (f64_of_Z 9)]].

(** A row off the grid leaves no series. *)
Example sample_chart :
  timeseries sample_timeseries_rows sample_timeseries
  = inl (mkTimeseriesData [1020; 1080; 1140]
      [mkSeries "call_count" (Some "a"%string) [Some (f64_of_Z 3); None; None];
       mkSeries "call_count" (Some "b"%string) [None; None; Some (f64_of_Z 5)];
       mkSeries "ttft_avg" (Some "a"%string) [None; None; None];
       mkSeries "ttft_avg" (Some "b"%string) [None; None; Some (f64_of_Z 7)]]).
Proof. vm_compute. reflexivity. Qed.

Lemma timeseries_pivots_witness :
  ∃ data, timeseries sample_timeseries_rows sample_timeseries = inl data ∧ StronglySorted Z.lt (td_timestamps data).
Proof.
  eexists. split; [exact sample_chart|].
  destruct (timeseries_pivots _ _ _ sample_chart) as (q & rows & _ & _ & H & _). exact H.
Defined.

(** The limit is of whole granularities in the window, so a window that is not
    aligned to them can have a point more. *)
Example one_point_more :
  check_bucket_count 0 200005 "10s" = inl tt ∧ zlen (time_grid 0 200005 10) = 20001.
Proof. by vm_compute. Qed.

(** What is suggested is the finest granularity that fits; the coarsest that
    does for a week at ten seconds is an hour. *)
Example finest_suggested : suggested 0 604800 = Some "1m"%string ∧ tdiv (span_of 0 604800) 3600 = 168.
Proof. by vm_compute. Qed.

(** An inverted range passes both checks. *)
Example inverted_range_passes :
  check_bucket_count 200 100 "10s" = inl tt ∧ to_time_range 200 100 = inl (mkTimeRange 200000000 100000000).
Proof. by vm_compute. Qed.
