(* ===== verification/ApiStore.v ===== *)
(** * What the handlers read from the storage (h-storage/src/query.rs, backend.rs)

    The rows the API's handlers ask for, and the storage as a class of the
    queries they send.  A query answers or fails; the handlers of one request
    see one state of the storage. *)

From Stdlib Require Import Strings.Byte Strings.String ZArith Lia SpecFloat.
From stdpp Require Import base gmap sets list strings.
From S2P Require Import Prelude.
From S2P Require Import Net.
From S2P Require Import Text.
From S2P Require Import Json.
From S2P Require Import StoreRows.
From S2P Require Import Api.

Open Scope Z_scope.

Section Rows.
Context `{JN : JsonNumber}.

Record TraceListItem : Type := mkListItem {
  li_turn_id : string;
  li_source_id : string;
  li_session_id : string;
  li_start_time : Z;
  li_end_time : Z;
  li_duration_ms : Z;
  li_wire_api : string;
  li_agent_kind : string;
  li_client_ip : string;
  li_server_ip : string;
  li_primary_model : option string;
  li_models_used : list string;
  li_call_count : Z;
  li_total_input_tokens : Z;
  li_total_output_tokens : Z;
  li_status : string;
  li_final_finish_reason : option string;
  li_user_input_preview : option text;
  li_final_answer_preview : option text;
  li_proxy_role : option string;
  li_proxy_peer_turn_id : option string;
  li_proxy_peer_turn_ids : option (list string);
  li_tool_surfaces : list string;
  li_tool_call_total : Z;
  li_agent_topology : option string;
  li_suspicious_skills : list Value;
}.

Record TracesPage : Type := mkTracesPage { pg_total : Z; pg_items : list TraceListItem }.

Record TraceDetail : Type := mkTraceDetail {
  de_turn_id : string;
  de_source_id : string;
  de_session_id : string;
  de_wire_api : string;
  de_agent_kind : string;
  de_client_ip : string;
  de_server_ip : string;
  de_start_time : Z;
  de_end_time : Z;
  de_duration_ms : Z;
  de_call_count : Z;
  de_models_used : list string;
  de_subagents_used : list string;
  de_total_input_tokens : Z;
  de_total_output_tokens : Z;
  de_total_cache_read_input_tokens : Z;
  de_total_cache_creation_input_tokens : Z;
  de_total_cost_usd : option spec_float;
  de_status : string;
  de_final_finish_reason : option string;
  de_user_call_id : option string;
  de_user_input : option text;
  de_final_call_id : option string;
  de_final_answer : option text;
  de_span_ids : list string;
  de_metadata : option Value;
  de_tool_surfaces : list string;
  de_tool_call_total : Z;
  de_agent_topology : option string;
  de_suspicious_skills : list Value;
}.

Record SpanDetail : Type := mkSpanDetail {
  sd_id : string;
  sd_source_id : string;
  sd_request_time : Z;
  sd_response_time : option Z;
  sd_complete_time : option Z;
  sd_wire_api : string;
  sd_model : string;
  sd_api_type : string;
  sd_is_stream : bool;
  sd_request_path : text;
  sd_status_code : option Z;
  sd_finish_reason : option string;
  sd_input_tokens : option Z;
  sd_output_tokens : option Z;
  sd_total_tokens : option Z;
  sd_tokens_estimated : bool;
  sd_ttft_ms : option spec_float;
  sd_e2e_latency_ms : option spec_float;
  sd_response_id : option text;
  sd_client_ip : string;
  sd_client_port : Z;
  sd_server_ip : string;
  sd_server_port : Z;
  sd_request_body : option text;
  sd_response_body : option text;
  sd_request_headers : option text;
  sd_response_headers : option text;
  sd_is_agent_request : bool;
  sd_tool_surface : option string;
  sd_agent_topology : option string;
  sd_tool_call_count : Z;
  sd_tool_names : list string;
  sd_process : option ProcessInfo;
}.

Record TraceSpanItem : Type := mkSpanItem {
  si_id : string;
  si_sequence : Z;
  si_request_time : Z;
  si_response_time : option Z;
  si_complete_time : option Z;
  si_wire_api : string;
  si_model : string;
  si_status_code : option Z;
  si_is_stream : bool;
  si_finish_reason : option string;
  si_ttft_ms : option spec_float;
  si_e2e_latency_ms : option spec_float;
  si_input_tokens : option Z;
  si_output_tokens : option Z;
  si_tokens_estimated : bool;
  si_request_path : text;
  si_client_ip : string;
  si_client_port : Z;
  si_server_ip : string;
  si_server_port : Z;
  si_request_body : option text;
  si_response_body : option text;
  si_request_headers : option text;
  si_response_headers : option text;
}.
Record SessionTracesQuery : Type := mkSessionTracesQuery {
  st_source_id : text;
  st_session_id : text;
  st_cursor : option SessionTracesCursor;
  st_page_size : Z;
}.

(** [Result<_, AppError>]. *)
Definition stored (A : Type) : Type := (A + unit)%type.

(** [?] on what the storage answers. *)
Definition from_store {A : Type} (r : stored A) : A + ApiError :=
  match r with inl a => inl a | inr _ => inr from_app_error end.
End Rows.

(** ** Sessions: [GET /api/agent-sessions] and a session's turns *)

Record SessionListQuery : Type := mkSessionListQuery {
  lq_time_range : TimeRange;
  lq_source_id : option text;
  lq_agent_kinds : list string;
  lq_cursor : option SessionListCursor;
  lq_page_size : Z;
}.

Section Sessions.
Context `{JT : JsonText} `{JS : !JsonSigned}.

(** An absent or empty cursor is the first page; one that does not decode is
    refused. *)
Definition cursor_param {A : Type} (decode : text → option A) (cursor : option text) : option A + ApiError :=
  match cursor with
  | Some ((_ :: _) as s) =>
      match decode s with Some c => inl (Some c) | None => inr (InvalidParam (B "invalid cursor")) end
  | _ => inl None
  end.

Definition clamp_page (page_size : Z) : Z := Z.max 1 (Z.min page_size 200).

Definition sessions_query (start end_ : Z) (source_id agent_kind cursor : option text) (page_size : Z)
    : SessionListQuery + ApiError :=
  cursor ←? cursor_param decode_session_cursor cursor;
  time_range ←? to_time_range start end_;
  inl (mkSessionListQuery time_range (non_empty source_id) (csv_strings agent_kind) cursor (clamp_page page_size)).

Definition session_turns_query (source_id session_id : text) (cursor : option text) (page_size : Z)
    : SessionTracesQuery + ApiError :=
  cursor ←? cursor_param decode_session_turns_cursor cursor;
  inl (mkSessionTracesQuery source_id session_id cursor (clamp_page page_size)).

(** The next page asked for with the cursor the last one gave. *)
Lemma next_page_query `{JTL : !JsonTextLaws JT} `{JSL : !JsonSignedLaws JS} (src ses turn : text) (t page_size : Z) :
  i64_range t → utf8_valid turn = true → encode_session_turns_cursor (mkTracesCursor t turn) ≠ [] →
  session_turns_query src ses (Some (encode_session_turns_cursor (mkTracesCursor t turn))) page_size
  = inl (mkSessionTracesQuery src ses (Some (mkTracesCursor t turn)) (clamp_page page_size)).
Proof.
  intros Ht Hu Hne. unfold session_turns_query, cursor_param. pose proof (turns_cursor_back t turn Ht Hu) as Hd.
  destruct (encode_session_turns_cursor _) as [|b s]; [done|by rewrite Hd].
Qed.
End Sessions.

Class ApiStore `{JN : JsonNumber} : Type := {
  query_traces : TracesQuery → stored TracesPage;
  query_trace_by_id : string → stored (option TraceDetail);
  query_trace_spans : string → bool → stored (list TraceSpanItem);
  query_spans_by_ids : list string → bool → stored (list TraceSpanItem);
  query_span_by_id : string → stored (option SpanDetail);
  query_session_traces : SessionTracesQuery → stored (list string);
}.
