(* ===== verification/ApiTurns.v ===== *)
(** * Turns on the API (h-api/src/routes/traces.rs)

    The list of turns, one turn and its calls: the storage's rows, with the
    turns still in progress from the trackers' registry beside them. *)

From Stdlib Require Import Strings.Byte Strings.String ZArith Lia SpecFloat.
From stdpp Require Import base gmap sets list strings sorting.
From S2P Require Import Prelude.
From S2P Require Import Net.
From S2P Require Import Text.
From S2P Require Import Counters.
From S2P Require Import Calls.
From S2P Require Import Dims.
From S2P Require Import Json.
From S2P Require Import JsonSample.
From S2P Require Import Dialect.
From S2P Require Import Turns.
From S2P Require Import Api.
From S2P Require Import ApiStore.

Open Scope Z_scope.

(** [Display]. *)
Definition status_name (s : TraceStatus) : string :=
  match s with InProgress => "in_progress" | Complete => "complete" | Incomplete => "incomplete" end.

(** An empty list of wanted values means any. *)
Definition any_or (wanted : list string) (f : string → bool) : bool :=
  match wanted with [] => true | _ => existsb f wanted end.

Definition matches_filter (t : Trace) (f : DimensionFilter) : bool :=
  any_or (df_wire_apis f) (λ w, String.eqb w (tr_wire_api t))
  && any_or (df_models f) (λ m, existsb (λ tm, String.eqb tm m) (tr_models_used t))
  && any_or (df_server_ips f) (λ ip, String.eqb ip (show_ip (tr_server_ip t))).

(** The filters of [collect_in_progress], in their order. *)
Definition in_progress_matches (query : TracesQuery) (t : Trace) : bool :=
  ((tr_start_us (tq_time_range query) <=? tr_end_time_us t)
   && (tr_start_time_us t <=? tr_end_us (tq_time_range query)))
  && matches_filter t (tq_filter query)
  && any_or (tq_statuses query) (λ s, String.eqb s "in_progress")
  && any_or (tq_agent_kinds query) (λ k, String.eqb k (tr_agent_kind t))
  && any_or (tq_client_ips query) (λ ip, String.eqb ip (show_ip (tr_client_ip t))).

Section Turns.
Context `{JT : JsonText}.

Definition suspicious_value (s : SuspiciousSkillRollup) : Value :=
  obj [("tool_name", Str (B (ss_tool_name s))); ("reason", Str (B (ss_reason s)))]%string.

Definition agent_turn_to_list_item (t : Trace) : TraceListItem := {|
  li_turn_id := tr_turn_id t;
  li_source_id := tr_source_id t;
  li_session_id := tr_session_id t;
  li_start_time := tdiv (tr_start_time_us t) 1000;
  li_end_time := tdiv (tr_end_time_us t) 1000;
  li_duration_ms := tr_duration_ms t;
  li_wire_api := tr_wire_api t;
  li_agent_kind := tr_agent_kind t;
  li_client_ip := show_ip (tr_client_ip t);
  li_server_ip := show_ip (tr_server_ip t);
  li_primary_model := head (tr_models_used t);
  li_models_used := tr_models_used t;
  li_call_count := tr_call_count t;
  li_total_input_tokens := tr_total_input_tokens t;
  li_total_output_tokens := tr_total_output_tokens t;
  li_status := status_name (tr_status t);
  li_final_finish_reason := tr_final_finish_reason t;
  li_user_input_preview := tr_user_input_preview t;
  li_final_answer_preview := tr_final_answer_preview t;
  li_proxy_role := None;
  li_proxy_peer_turn_id := None;
  li_proxy_peer_turn_ids := None;
  li_tool_surfaces := map surface_name (tr_tool_surfaces t);
  li_tool_call_total := tr_tool_call_total t;
  li_agent_topology := topology_name <$> tr_agent_topology t;
  li_suspicious_skills := map suspicious_value (tr_suspicious_skills t);
|}.

(** The turn's metadata is kept as its text. *)
Definition agent_turn_to_detail (t : Trace) : TraceDetail := {|
  de_turn_id := tr_turn_id t;
  de_source_id := tr_source_id t;
  de_session_id := tr_session_id t;
  de_wire_api := tr_wire_api t;
  de_agent_kind := tr_agent_kind t;
  de_client_ip := show_ip (tr_client_ip t);
  de_server_ip := show_ip (tr_server_ip t);
  de_start_time := tdiv (tr_start_time_us t) 1000;
  de_end_time := tdiv (tr_end_time_us t) 1000;
  de_duration_ms := tr_duration_ms t;
  de_call_count := tr_call_count t;
  de_models_used := tr_models_used t;
  de_subagents_used := tr_subagents_used t;
  de_total_input_tokens := tr_total_input_tokens t;
  de_total_output_tokens := tr_total_output_tokens t;
  de_total_cache_read_input_tokens := tr_total_cache_read_input_tokens t;
  de_total_cache_creation_input_tokens := tr_total_cache_creation_input_tokens t;
  de_total_cost_usd := tr_total_cost_usd t;
  de_status := status_name (tr_status t);
  de_final_finish_reason := tr_final_finish_reason t;
  de_user_call_id := tr_user_call_id t;
  de_user_input := tr_user_input_preview t;
  de_final_call_id := tr_final_call_id t;
  de_final_answer := tr_final_answer_preview t;
  de_span_ids := tr_span_ids t;
  de_metadata := Some (default Null (from_slice (tr_metadata t)));
  de_tool_surfaces := map surface_name (tr_tool_surfaces t);
  de_tool_call_total := tr_tool_call_total t;
  de_agent_topology := topology_name <$> tr_agent_topology t;
  de_suspicious_skills := map suspicious_value (tr_suspicious_skills t);
|}.

(** The registry under its lock; [None] is a poisoned lock. *)
Context `{HI : !HashIter string Trace} `{AS : !ApiStore}.
Abbreviation registry := (option (gmap string Trace)).

Definition collect_in_progress (reg : registry) (query : TracesQuery) : list TraceListItem :=
  match reg with
  | None => []
  | Some map_ =>
      sort_by_key (λ i, - li_start_time i)
        (map agent_turn_to_list_item (List.filter (in_progress_matches query) (map snd (hash_iter map_))))
  end.

Definition traces_list (reg : registry) (p : TracesParams) : TracesPage + ApiError :=
  query ←? traces_query p;
  page ←? from_store (query_traces query);
  let in_progress := collect_in_progress reg query in
  let items := if (tp_page p =? 1) then in_progress ++ pg_items page else pg_items page in
  inl (mkTracesPage (u64_sat_add (pg_total page) (zlen in_progress)) items).

Definition traces_detail (reg : registry) (turn_id : string) : TraceDetail + ApiError :=
  match reg ▷ lookup turn_id with
  | Some t => inl (agent_turn_to_detail t)
  | None =>
      found ←? from_store (query_trace_by_id turn_id);
      match found with
      | Some detail => inl detail
      | None => inr (NotFound (B "turn not found: " ++ B turn_id))
      end
  end.

Definition traces_calls (reg : registry) (turn_id : string) (lite : Z) : list TraceSpanItem + ApiError :=
  let include_bodies := lite =? 0 in
  match reg ▷ lookup turn_id with
  | Some t => from_store (query_spans_by_ids (tr_span_ids t) include_bodies)
  | None => from_store (query_trace_spans turn_id include_bodies)
  end.
End Turns.

(** ** What the list shows *)

Section TurnsSpec.
Context `{JT : JsonText} `{HL : !HashIterLaws string Trace HI} `{AS : !ApiStore}.

Lemma negated_order (l : list TraceListItem) :
  StronglySorted (λ x y, - li_start_time x <= - li_start_time y) l →
  StronglySorted (λ x y, li_start_time y <= li_start_time x) l.
Proof. induction 1 as [|x l Hl IH Hx]; constructor; [done|]. eapply list.Forall_impl; [exact Hx|]. cbn. lia. Qed.

(** The turns in progress that a query wants, newest first. *)
Lemma in_progress_spec (reg : gmap string Trace) (query : TracesQuery) :
  let live := collect_in_progress (Some reg) query in
  StronglySorted (λ x y, li_start_time y <= li_start_time x) live ∧
  live ≡ₚ map agent_turn_to_list_item (List.filter (in_progress_matches query) (map snd (map_to_list reg))).
Proof.
  cbv zeta. unfold collect_in_progress. split; [apply negated_order, sort_by_key_ordered|].
  rewrite sort_by_key_perm. apply Permutation_map.
  pose proof (hash_iter_perm reg) as Hp. apply (Permutation_map snd) in Hp.
  induction Hp as [|x l l' Hp IH|x y l|l l' l'' H1 IH1 H2 IH2]; cbn; [done| | |by etrans].
  - by destruct (in_progress_matches query x); rewrite IH.
  - destruct (in_progress_matches query x), (in_progress_matches query y); first [apply perm_swap|done].
Qed.

(** The first page has every turn in progress that the query wants, newest
    first, before the storage's own rows; the other pages have the storage's
    rows alone; the total counts both on every page.  A poisoned lock only
    hides the turns in progress. *)
Theorem turns_list_unions :
  ∀ (reg : option (gmap string Trace)) (p : TracesParams) (query : TracesQuery) (page : TracesPage),
    traces_query p = inl query → query_traces query = inl page →
    let wanted := match reg with
                  | Some m => List.filter (in_progress_matches query) (map snd (map_to_list m))
                  | None => []
                  end in
    ∃ live, live ≡ₚ map agent_turn_to_list_item wanted ∧
      StronglySorted (λ x y, li_start_time y <= li_start_time x) live ∧
      traces_list reg p = inl (mkTracesPage (Z.min (pg_total page + zlen wanted) (2 ^ 64 - 1))
                                 ((if tp_page p =? 1 then live else []) ++ pg_items page)).
Proof.
  intros reg p query page Hq Hp wanted. exists (collect_in_progress reg query).
  assert (Hl : collect_in_progress reg query ≡ₚ map agent_turn_to_list_item wanted ∧
               StronglySorted (λ x y, li_start_time y <= li_start_time x) (collect_in_progress reg query)).
  { destruct reg as [m|]; [|split; [done|constructor]]. destruct (in_progress_spec m query) as [H1 H2]. done. }
  destruct Hl as [H1 H2]. do 2 (split; [done|]). unfold traces_list. rewrite Hq. cbn [api_bind]. rewrite Hp.
  cbn [api_bind from_store]. unfold u64_sat_add, zlen. rewrite (Permutation_length H1), length_map.
  by destruct (tp_page p =? 1).
Qed.

(** A turn in progress is listed whatever ports the query asks for. *)
Lemma ports_not_applied (reg : option (gmap string Trace)) (q : TracesQuery) (ports : list Z) :
  collect_in_progress reg (mkTracesQuery (tq_time_range q) (tq_filter q) (tq_client_ips q) ports (tq_statuses q)
    (tq_agent_kinds q) (tq_sort_by q) (tq_sort_order q) (tq_page q) (tq_page_size q) (tq_include_proxy_hops q))
  = collect_in_progress reg q.
Proof. done. Qed.
End TurnsSpec.

(** ** A concrete list *)

Definition sample_turn (id : string) (start_us : Z) : Trace :=
  mkTrace "tap" id "s1" "anthropic" "claude-code" (V4 1) (V4 2) start_us (start_us + 500000) 500 1 ["claude"%string] []
    6 52 0 0 None InProgress None (Some (B "hi")) None None None ["u1"%string] (B "{}") [] 0 None [].

Definition sample_row : TraceListItem :=
  agent_turn_to_list_item (set_key (sample_turn "old" 900000000) "tap" "s0").
Definition sample_api_store : ApiStore := {|
  query_traces := λ _, inl (mkTracesPage 41 [sample_row]);
  query_trace_by_id := λ _, inl None;
  query_trace_spans := λ _ _, inl [];
  query_spans_by_ids := λ _ _, inl [];
  query_span_by_id := λ _, inl None;
  query_session_traces := λ _, inl [];
|}.
Definition sample_registry : gmap string Trace :=
  <["t1"%string := sample_turn "t1" 1000000000]> (<["t2"%string := sample_turn "t2" 2000000000]> (
  <["t3"%string := sample_turn "t3" 9000000000]> ∅)).
Definition sample_traces_params : TracesParams :=
  mkTracesParams 1000 3000 (Some (B "anthropic")) None None None (Some (B "8443")) None None
    (B "start_time") (B "desc") 1 50 false.

Definition sample_traces_query : TracesQuery :=
  mkTracesQuery (mkTimeRange 1000000000 3000000000) (mkFilter ["anthropic"%string] [] [] []) [] [8443] [] []
    (B "start_time") (B "desc") 1 50 false.

#[local] Existing Instance hash_iter_std.
#[local] Existing Instance hash_iter_std_laws.
#[local] Existing Instance sample_api_store.

Definition listed (r : TracesPage + ApiError) : option (Z * list string) :=
  match r with inl p => Some (pg_total p, map li_turn_id (pg_items p)) | inr _ => None end.

(** The port names no connection of the two turns in progress. *)
Example sample_list : listed (traces_list (Some sample_registry) sample_traces_params) = Some (43, ["t2"; "t1"; "old"]%string).
Proof. vm_compute. reflexivity. Qed.

Lemma turns_list_unions_witness :
  ∃ live, length live = 2%nat ∧
    traces_list (Some sample_registry) sample_traces_params = inl (mkTracesPage 43 (live ++ [sample_row])).
Proof.
  destruct (turns_list_unions (AS := sample_api_store) (Some sample_registry) sample_traces_params
    sample_traces_query (mkTracesPage 41 [sample_row])) as (live & Hl & _ & E); [by vm_compute|done|].
  assert (Hn : length (List.filter (in_progress_matches sample_traces_query) (map snd (map_to_list sample_registry)))
    = 2%nat) by (by vm_compute).
  exists live. split; [by rewrite (Permutation_length Hl), length_map|].
  rewrite E. unfold zlen. by rewrite Hn.
Defined.
