(* ===== verification/ApiProxy.v ===== *)
(** * The proxy view (h-api/src/routes/traces.rs)

    Every leg of one logical call, as the pair sweeper grouped them: the legs in
    order of their roles, the headers they share and differ in, the model a
    proxy rewrote and the time it took. *)

From Stdlib Require Import Strings.Byte Strings.String ZArith Lia SpecFloat.
From stdpp Require Import base gmap sets list strings sorting.
From S2P Require Import Prelude.
From S2P Require Import Net.
From S2P Require Import Text.
From S2P Require Import OrdMap.
From S2P Require Import Calls.
From S2P Require Import Json.
From S2P Require Import JsonSample.
From S2P Require Import Wire.
From S2P Require Import Turns.
From S2P Require Import ProxyPair.
From S2P Require Import StoreRows.
From S2P Require Import Api.
From S2P Require Import ApiStore.

Open Scope Z_scope.

(** ** The answer's records *)

Record ProxyViewMember : Type := mkViewMember {
  vm_turn_id : string;
  vm_role : string;
  vm_client_ip : string;
  vm_client_port : option Z;
  vm_server_ip : string;
  vm_server_port : option Z;
  vm_start_time : Z;
  vm_end_time : Z;
  vm_duration_ms : Z;
  vm_ttft_ms : option spec_float;
  vm_e2e_latency_ms : option spec_float;
  vm_request_model : option text;
  vm_wire_api : string;
  vm_request_path : option text;
  vm_status_code : option Z;
  vm_request_headers : list (text * text);
  vm_response_headers : list (text * text);
}.

Inductive HeaderDiffKind : Type := Common | Modified | PerLeg.
Record HeaderValueByLeg : Type := mkLegValue { hv_turn_id : string; hv_role : string; hv_value : text }.
Record HeaderDiffEntry : Type := mkDiffEntry {
  hd_name : text;
  hd_kind : HeaderDiffKind;
  hd_values : list HeaderValueByLeg;
}.

Record ModelRewrite : Type := mkRewrite { mw_client_requested : option text; mw_upstream_received : option text }.
Record LatencyBreakdown : Type := mkLatency {
  lb_client_observed_ms : option spec_float;
  lb_upstream_observed_ms : option spec_float;
  lb_proxy_overhead_ms : option spec_float;
}.
Record ProxyViewResponse : Type := mkProxyView {
  pv_group_id : text;
  pv_members : list ProxyViewMember;
  pv_request_header_diff : list HeaderDiffEntry;
  pv_response_header_diff : list HeaderDiffEntry;
  pv_model_rewrite : option ModelRewrite;
  pv_latency_breakdown : LatencyBreakdown;
}.

(** ** Headers *)

Definition leg_value (m : ProxyViewMember) (v : text) : HeaderValueByLeg := mkLegValue (vm_turn_id m) (vm_role m) v.

(** A header of a member, into the entry of its name in lower case. *)
Definition diff_header (m : ProxyViewMember) (by_name : list (string * (text * list HeaderValueByLeg)))
    (h : text * text) : list (string * (text * list HeaderValueByLeg)) :=
  om_entry (str (map to_ascii_lower h.1)) (h.1, []) (λ e, (e.1, e.2 ++ [leg_value m h.2])) by_name.

Definition diff_kind (leg_count : nat) (values : list HeaderValueByLeg) : HeaderDiffKind :=
  if (length values <? leg_count)%nat then PerLeg
  else
    let first := match values with v :: _ => hv_value v | [] => [] end in
    if forallb (λ v, bool_decide (hv_value v = first)) values then Common else Modified.

Definition diff_table (members : list ProxyViewMember) (pick : ProxyViewMember → list (text * text))
    : list (string * (text * list HeaderValueByLeg)) :=
  foldl (λ t m, foldl (diff_header m) t (pick m)) [] members.

Definition diff_headers (members : list ProxyViewMember) (pick : ProxyViewMember → list (text * text))
    : list HeaderDiffEntry :=
  map (λ e, mkDiffEntry e.2.1 (diff_kind (length members) e.2.2) e.2.2) (diff_table members pick).

(** ** The model and the time *)

Definition is_canonical (m : ProxyViewMember) : bool :=
  String.eqb (vm_role m) "proxy_in" || String.eqb (vm_role m) "mirror_primary".
Definition is_upstream (m : ProxyViewMember) : bool := String.eqb (vm_role m) "proxy_out".

Definition detect_model_rewrite (members : list ProxyViewMember) : option ModelRewrite :=
  match List.find is_canonical members, List.find is_upstream members with
  | Some c, Some u =>
      if bool_decide (vm_request_model c = vm_request_model u) then None
      else Some (mkRewrite (vm_request_model c) (vm_request_model u))
  | _, _ => None
  end.

Definition f64_sub (a b : f64) : f64 := SFsub 53 1024 a b.

Definition compute_latency_breakdown (members : list ProxyViewMember) : LatencyBreakdown :=
  let client := List.find is_canonical members ▷ vm_e2e_latency_ms in
  let upstream := List.find is_upstream members ▷ vm_e2e_latency_ms in
  mkLatency client upstream
    (match client, upstream with Some c, Some u => Some (f64_sub c u) | _, _ => None end).

(** ** The members *)

Definition role_sort_key (role : string) : Z :=
  if String.eqb role "proxy_in" then 0 else if String.eqb role "mirror_primary" then 1
  else if String.eqb role "proxy_out" then 2 else if String.eqb role "mirror_secondary" then 3 else 9.

(** By role, then by turn id: the comparison of [order.sort_by]. *)
Definition leg_cmp (a b : string * string) : comparison :=
  match role_sort_key a.2 ?= role_sort_key b.2 with Eq => String.compare a.1 b.1 | c => c end.
Fixpoint insert_leg (x : string * string) (l : list (string * string)) : list (string * string) :=
  match l with
  | [] => [x]
  | y :: l' => match leg_cmp x y with Gt => y :: insert_leg x l' | _ => x :: l end
  end.
Definition sort_legs (l : list (string * string)) : list (string * string) := foldr insert_leg [] l.

Section View.
Context `{JT : JsonText}.

Definition parse_headers_json (blob : option text) : list (text * text) :=
  match blob with
  | None => []
  | Some s => default [] (pairs_of_json s)
  end.

Definition extract_model_from_body (body : option text) : option text := body ▷ from_slice ▷ get_str "model".

Definition member_from (detail : TraceDetail) (role : string) (first_call : option SpanDetail) : ProxyViewMember := {|
  vm_turn_id := de_turn_id detail;
  vm_role := role;
  vm_client_ip := de_client_ip detail;
  vm_client_port := sd_client_port <$> first_call;
  vm_server_ip := de_server_ip detail;
  vm_server_port := sd_server_port <$> first_call;
  vm_start_time := de_start_time detail;
  vm_end_time := de_end_time detail;
  vm_duration_ms := de_duration_ms detail;
  vm_ttft_ms := first_call ▷ sd_ttft_ms;
  vm_e2e_latency_ms := first_call ▷ sd_e2e_latency_ms;
  vm_request_model := first_call ▷ λ c, extract_model_from_body (sd_request_body c);
  vm_wire_api := de_wire_api detail;
  vm_request_path := sd_request_path <$> first_call;
  vm_status_code := first_call ▷ sd_status_code;
  vm_request_headers := match first_call with Some c => parse_headers_json (sd_request_headers c) | None => [] end;
  vm_response_headers := match first_call with Some c => parse_headers_json (sd_response_headers c) | None => [] end;
|}.

Definition proxy_meta (t : TraceDetail) : option Value := de_metadata t ▷ get "proxy".
Definition role_of_meta (proxy : option Value) : string := default "unknown"%string (str <$> (proxy ▷ get_str "role")).

(** The peers, or the single one of older rows. *)
Definition peer_ids_of (proxy : option Value) : list string :=
  match omap (M := list) as_str (default [] (proxy ▷ get_arr "peer_turn_ids")) with
  | [] => match proxy ▷ get_str "peer_turn_id" with Some legacy => [str legacy] | None => [] end
  | ids => map str ids
  end.

Context `{AS : !ApiStore}.

Definition peer_role (pid : string) : (string * string) + ApiError :=
  peer_turn ←? from_store (query_trace_by_id pid);
  inl (pid, role_of_meta (peer_turn ▷ proxy_meta)).

(** A member whose row is gone is skipped. *)
Definition fetch_member (leg : string * string) : list ProxyViewMember + ApiError :=
  found ←? from_store (query_trace_by_id leg.1);
  match found with
  | None => inl []
  | Some detail =>
      first_call ←? (match head (de_span_ids detail) with
                     | Some id => from_store (query_span_by_id id)
                     | None => inl None
                     end);
      inl [member_from detail leg.2 first_call]
  end.

Definition view_of (group_id : text) (members : list ProxyViewMember) : ProxyViewResponse :=
  mkProxyView group_id members (diff_headers members vm_request_headers) (diff_headers members vm_response_headers)
    (detect_model_rewrite members) (compute_latency_breakdown members).

Definition proxy_view (turn_id : string) : ProxyViewResponse + ApiError :=
  found ←? from_store (query_trace_by_id turn_id);
  match found with
  | None => inr (NotFound (B "turn not found: " ++ B turn_id))
  | Some turn =>
      let proxy := proxy_meta turn in
      match proxy ▷ get_str "pair_id" with
      | None => inr (NotFound (B "turn " ++ B turn_id ++ B " is not part of a proxy group"))
      | Some group_id =>
          peers ←? collect_results peer_role (peer_ids_of proxy);
          let order := sort_legs ((turn_id, role_of_meta proxy) :: peers) in
          members ←? collect_results fetch_member order;
          inl (view_of group_id (concat members))
      end
  end.
End View.

(** ** The header diff, proved *)

Section Diff.
Variable members : list ProxyViewMember.
Variable pick : ProxyViewMember → list (text * text).

Definition header_key (h : text * text) : string := str (map to_ascii_lower h.1).
(** The value of a member for a name in lower case, the first it has. *)
Definition value_of (k : string) (m : ProxyViewMember) : option text :=
  snd <$> List.find (λ h, String.eqb (header_key h) k) (pick m).

Abbreviation leg_header := (ProxyViewMember * (text * text))%type.
Definition leg_headers : list leg_header := concat (map (λ m, map (pair m) (pick m)) members).
Definition headers_under (k : string) (l : list leg_header) : list leg_header :=
  List.filter (λ p, String.eqb (header_key p.2) k) l.
Definition leg_value_of (p : leg_header) : HeaderValueByLeg := leg_value p.1 p.2.2.

Lemma diff_table_flat : diff_table members pick = foldl (λ t p, diff_header p.1 t p.2) [] leg_headers.
Proof.
  unfold diff_table, leg_headers. generalize (@nil (string * (text * list HeaderValueByLeg))).
  induction members as [|m ms IH]; intros t; [done|]. cbn [map concat foldl]. rewrite foldl_app, IH. f_equal.
  generalize t. induction (pick m) as [|h hs IHh]; intros t'; [done|]. cbn [map foldl]. by rewrite IHh.
Qed.

Lemma diff_table_lookup (l : list leg_header) :
  let t := foldl (λ t p, diff_header p.1 t p.2) [] l in
  om_ok t ∧ ∀ k, om_lookup k t =
    match headers_under k l with [] => None | p :: ps => Some (p.2.1, map leg_value_of (p :: ps)) end.
Proof.
  induction l as [|p l [Hok IH]] using rev_ind; [split; [constructor|done]|]. cbv zeta in *.
  rewrite foldl_app. cbn [foldl]. set (t := foldl _ [] l) in *. unfold diff_header.
  split; [by apply om_entry_ok|]. intros k. rewrite om_lookup_entry by done.
  unfold headers_under in *. rewrite List.filter_app. cbn [List.filter].
  fold (header_key p.2). pose proof (key_cmp_eq k (header_key p.2)) as Hk.
  destruct (String.eqb_spec (header_key p.2) k) as [<-|Hne].
  - rewrite key_cmp_refl, IH. destruct (List.filter _ l) as [|q qs]; [done|].
    cbn [default from_option id fst snd app map]. by rewrite map_app.
  - rewrite app_nil_r. destruct (key_cmp k (header_key p.2)); [|by rewrite IH..]. destruct Hne. symmetry. by apply Hk.
Qed.

Lemma under_once (k : string) (m : ProxyViewMember) (hs : list (text * text)) :
  NoDup (map header_key hs) →
  map leg_value_of (headers_under k (map (pair m) hs))
  = match snd <$> List.find (λ h, String.eqb (header_key h) k) hs with Some v => [leg_value m v] | None => [] end.
Proof.
  unfold headers_under. induction hs as [|h hs IH]; [done|]. intros [Hh Hn]%NoDup_cons. cbn [map List.filter List.find snd].
  destruct (String.eqb_spec (header_key h) k) as [<-|]; [|by apply IH]. cbn [map]. f_equal.
  clear IH Hn. induction hs as [|g hs IH]; [done|]. cbn [map List.filter snd]. cbn [map] in Hh.
  destruct (String.eqb_spec (header_key g) (header_key h)) as [E|]; [set_solver|]. apply IH. set_solver.
Qed.

(** Every member names a header once. *)
Hypothesis names_once : ∀ m, m ∈ members → NoDup (map header_key (pick m)).

Lemma under_members (k : string) :
  map leg_value_of (headers_under k leg_headers) = omap (λ m, leg_value m <$> value_of k m) members.
Proof.
  unfold leg_headers. revert names_once. induction members as [|m ms IH]; intros Hn; [done|].
  cbn [map concat omap list_omap].
  unfold headers_under. rewrite List.filter_app, map_app. fold (headers_under k (map (pair m) (pick m))).
  fold (headers_under k (concat (map (λ m, map (pair m) (pick m)) ms))).
  rewrite under_once by (apply Hn; set_solver). rewrite IH by (intros; apply Hn; set_solver).
  unfold value_of. by destruct (List.find _ (pick m)).
Qed.

Lemma omap_length_lt {A C : Type} (f : A → option C) (l : list A) :
  ((length (omap f l) < length l)%nat ↔ ∃ x, x ∈ l ∧ f x = None) ∧ (length (omap f l) <= length l)%nat.
Proof.
  induction l as [|x l [IH1 IH2]]; cbn; [split; [split; [lia|set_solver]|lia]|].
  destruct (f x) eqn:E; cbn; split; try lia.
  - rewrite <- Nat.succ_lt_mono, IH1. split; [set_solver|]. intros (y & [->|Hy]%elem_of_cons & Ey); [congruence|eauto].
  - split; [|lia]. intros _. exists x. set_solver.
Qed.

(** What the kind of a header says, when no leg repeats one. *)
Lemma diff_kind_spec (k : string) :
  match diff_kind (length members) (omap (λ m, leg_value m <$> value_of k m) members) with
  | PerLeg => ∃ m, m ∈ members ∧ value_of k m = None
  | Common => ∃ v, ∀ m, m ∈ members → value_of k m = Some v
  | Modified => (∀ m, m ∈ members → is_Some (value_of k m)) ∧ ¬ ∃ v, ∀ m, m ∈ members → value_of k m = Some v
  end.
Proof.
  set (vs := omap _ _). unfold diff_kind.
  destruct (omap_length_lt (λ m, leg_value m <$> value_of k m) members) as [Hlt _]. fold vs in Hlt.
  destruct (Nat.ltb_spec (length vs) (length members)) as [H|H].
  { apply Hlt in H as (m & Hm & E). exists m. split; [done|]. by destruct (value_of k m). }
  assert (Hall : ∀ m, m ∈ members → is_Some (value_of k m)).
  { intros m Hm. destruct (value_of k m) eqn:E; [done|]. exfalso. apply (Nat.lt_irrefl (length vs)).
    eapply Nat.lt_le_trans; [|exact H]. apply Hlt. exists m. by rewrite E. }
  assert (Hvs : ∀ v, v ∈ vs ↔ ∃ m x, m ∈ members ∧ value_of k m = Some x ∧ v = leg_value m x).
  { intros v. unfold vs. rewrite list_elem_of_omap. split.
    - intros (m & Hm & E). destruct (value_of k m) as [x|] eqn:Ex; [|done]. injection E as <-. eauto 6.
    - intros (m & x & Hm & Ex & ->). exists m. by rewrite Ex. }
  set (first := match vs with v :: _ => hv_value v | [] => [] end).
  destruct (forallb _ vs) eqn:Ef.
  - exists first. intros m Hm. destruct (Hall m Hm) as [x Ex]. rewrite forallb_forall in Ef.
    assert (Hin : leg_value m x ∈ vs) by (apply Hvs; eauto 6). apply list_elem_of_In, Ef, bool_decide_eq_true in Hin.
    cbn in Hin. congruence.
  - split; [done|]. intros [v Hv]. apply not_true_iff_false in Ef. apply Ef, forallb_forall. intros w Hw.
    apply list_elem_of_In in Hw. apply bool_decide_eq_true.
    assert (Hc : ∀ w, w ∈ vs → hv_value w = v).
    { intros w' (m & x & Hm & Ex & ->)%Hvs. rewrite (Hv m Hm) in Ex. by injection Ex. }
    rewrite (Hc w Hw). unfold first. destruct vs as [|u us]; [set_solver|]. rewrite Hc; [done|set_solver].
Qed.
End Diff.

(** The header diff of legs that name each header once: there is one entry for
    each name any leg has, whatever its case; it lists the value of every leg
    that has it, in the order of the legs; and it is per-leg when a leg has no
    such header, common when all have the same value, modified when all have it
    with different values. *)
Theorem header_diff_classifies :
  ∀ (members : list ProxyViewMember) (pick : ProxyViewMember → list (text * text)),
    (∀ m, m ∈ members → NoDup (map header_key (pick m))) →
    let diff := diff_headers members pick in
    NoDup (map (λ e, header_key (hd_name e, [])) diff) ∧
    (∀ m h, m ∈ members → h ∈ pick m → ∃ e, e ∈ diff ∧ header_key (hd_name e, []) = header_key h) ∧
    (∀ e, e ∈ diff →
       let value := value_of pick (header_key (hd_name e, [])) in
       hd_values e = omap (λ m, leg_value m <$> value m) members ∧
       match hd_kind e with
       | PerLeg => ∃ m, m ∈ members ∧ value m = None
       | Common => ∃ v, ∀ m, m ∈ members → value m = Some v
       | Modified => (∀ m, m ∈ members → is_Some (value m)) ∧ ¬ ∃ v, ∀ m, m ∈ members → value m = Some v
       end).
Proof.
  intros members pick Hn diff. destruct (diff_table_lookup (leg_headers members pick)) as [Hok Hl].
  rewrite <- diff_table_flat in Hok, Hl. set (t := diff_table members pick) in *.
  assert (Ht : ∀ k name vs, (k, (name, vs)) ∈ t →
    header_key (name, []) = k ∧ vs = omap (λ m, leg_value m <$> value_of pick k m) members).
  { intros k name vs Hin. apply om_lookup_elem in Hin; [|done]. rewrite Hl in Hin.
    rewrite <- (under_members members pick Hn). destruct (headers_under k _) as [|p ps] eqn:E; [done|].
    injection Hin as <- <-. split; [|done].
    assert (Hp : p ∈ headers_under k (leg_headers members pick)) by (rewrite E; set_solver).
    apply list_elem_of_In, filter_In in Hp as [_ Hp]. by apply String.eqb_eq in Hp. }
  assert (Hk : map (λ e, header_key (hd_name e, [])) diff = t.*1).
  { unfold diff, diff_headers. fold t. rewrite map_map. apply map_ext_in. intros [k [name vs]] Hin%list_elem_of_In.
    by destruct (Ht _ _ _ Hin). }
  split_and!.
  - rewrite Hk. by apply om_ok_nodup.
  - intros m h Hm Hh. assert (Hp : (m, h) ∈ headers_under (header_key h) (leg_headers members pick)).
    { apply list_elem_of_In, filter_In. split; [|apply String.eqb_refl]. apply in_concat.
      exists (map (pair m) (pick m)). split; [apply in_map_iff; exists m; split; [done|by apply list_elem_of_In]|].
      apply in_map_iff. exists h. split; [done|by apply list_elem_of_In]. }
    pose proof (Hl (header_key h)) as E. destruct (headers_under (header_key h) _) as [|p ps]; [set_solver|].
    apply om_lookup_elem in E; [|done]. exists (mkDiffEntry p.2.1 (diff_kind (length members) (map leg_value_of (p :: ps)))
      (map leg_value_of (p :: ps))). split; [|by destruct (Ht _ _ _ E)].
    unfold diff, diff_headers. fold t. apply list_elem_of_fmap. eexists; split; [|exact E]. done.
  - intros e ([k [name vs]] & -> & Hin)%list_elem_of_fmap. cbn [hd_name hd_kind hd_values fst snd].
    destruct (Ht _ _ _ Hin) as [-> ->]. split; [done|]. by apply diff_kind_spec.
Qed.

(** ** The same view from each leg *)

Section SameView.
Context `{JT : JsonText} `{AS : !ApiStore}.

(** The order of the legs, as a relation. *)
Definition leg_le (a b : string * string) : Prop := leg_cmp a b ≠ Gt.

Lemma leg_cmp_antisym (a b : string * string) : leg_cmp b a = CompOpp (leg_cmp a b).
Proof.
  unfold leg_cmp. rewrite (Z.compare_antisym (role_sort_key a.2)), (String.compare_antisym b.1).
  by destruct (role_sort_key a.2 ?= role_sort_key b.2).
Qed.

Lemma leg_le_trans (a b c : string * string) : leg_le a b → leg_le b c → leg_le a c.
Proof.
  unfold leg_le, leg_cmp.
  destruct (Z.compare_spec (role_sort_key a.2) (role_sort_key b.2)),
    (Z.compare_spec (role_sort_key b.2) (role_sort_key c.2)),
    (Z.compare_spec (role_sort_key a.2) (role_sort_key c.2)); try done; try lia.
  intros H3 H4. destruct (String.compare a.1 b.1) eqn:E1; [|destruct (String.compare b.1 c.1) eqn:E2|]; try done.
  - apply String.compare_eq_iff in E1 as ->. done.
  - apply String.compare_eq_iff in E2 as <-. by rewrite E1.
  - by rewrite (string_cmp_trans _ _ _ E1 E2).
Qed.

Lemma insert_leg_perm (x : string * string) (l : list (string * string)) : insert_leg x l ≡ₚ x :: l.
Proof.
  induction l as [|y l IH]; [done|]. cbn [insert_leg]. destruct (leg_cmp x y); [done..|].
  rewrite IH. by constructor.
Qed.

Lemma sort_legs_perm (l : list (string * string)) : sort_legs l ≡ₚ l.
Proof. induction l as [|x l IH]; [done|]. cbn. by rewrite insert_leg_perm, IH. Qed.

Lemma insert_leg_sorted (x : string * string) (l : list (string * string)) :
  StronglySorted leg_le l → StronglySorted leg_le (insert_leg x l).
Proof.
  induction l as [|y l IH]; intros Hs; [by repeat constructor|].
  inversion Hs as [|? ? Hs' Hy]; subst. cbn [insert_leg].
  destruct (leg_cmp x y) eqn:E.
  1,2: constructor; [done|]; assert (Hxy : leg_le x y) by (unfold leg_le; by rewrite E);
    (constructor; [done|]; eapply list.Forall_impl; [exact Hy|]; intros z Hz; by eapply leg_le_trans).
  constructor; [by apply IH|]. rewrite insert_leg_perm. constructor; [|done].
  unfold leg_le. by rewrite leg_cmp_antisym, E.
Qed.

Lemma sort_legs_sorted (l : list (string * string)) : StronglySorted leg_le (sort_legs l).
Proof. induction l as [|x l IH]; [constructor|]. by apply insert_leg_sorted. Qed.

(** Legs of different ids have one order. *)
Lemma sort_legs_unique (l l' : list (string * string)) : NoDup l.*1 → l ≡ₚ l' → sort_legs l = sort_legs l'.
Proof.
  intros Hn Hp. apply (StronglySorted_unique_strong leg_le); [|apply sort_legs_sorted..|by rewrite !sort_legs_perm].
  intros a b Ha Hb Hab Hba. rewrite sort_legs_perm in Ha. rewrite sort_legs_perm, <- Hp in Hb.
  unfold leg_le in *. rewrite leg_cmp_antisym in Hba.
  assert (E : leg_cmp a b = Eq) by (by destruct (leg_cmp a b)).
  unfold leg_cmp in E. destruct (_ ?= _); try done. apply String.compare_eq_iff in E.
  apply list_elem_of_lookup in Ha as [i Hi], Hb as [j Hj].
  assert (i = j); [|congruence]. eapply NoDup_lookup; [exact Hn|..]; rewrite list_lookup_fmap.
  - by rewrite Hi.
  - rewrite Hj. cbn. by rewrite E.
Qed.

(** What the pair sweeper wrote: every member of the group is stored under its
    id, with the metadata of its place in the group. *)
Definition group_stored (g : ProxyGroup) : Prop :=
  ∀ m, m ∈ pg_members g →
    ∃ d, query_trace_by_id (gm_turn_id m) = inl (Some d) ∧ de_metadata d = metadata_for g (gm_turn_id m).

Definition leg_of (m : GroupMember) : string * string := (gm_turn_id m, role_as_str (gm_role m)).

Lemma insert_string_perm (x : string) (l : list string) : insert_string x l ≡ₚ x :: l.
Proof. induction l as [|y l IH]; [done|]. cbn. destruct (String.leb x y); [done|]. rewrite IH. by constructor. Qed.
Lemma sort_strings_perm (l : list string) : sort_strings l ≡ₚ l.
Proof. induction l as [|x l IH]; [done|]. cbn. by rewrite insert_string_perm, IH. Qed.

Lemma find_member (l : list GroupMember) (m : GroupMember) :
  NoDup (map gm_turn_id l) → m ∈ l → List.find (λ x, String.eqb (gm_turn_id x) (gm_turn_id m)) l = Some m.
Proof.
  induction l as [|x l IH]; [set_solver|]. intros [Hx Hn]%NoDup_cons Hm. cbn [List.find].
  apply elem_of_cons in Hm as [->|Hm]; [by rewrite String.eqb_refl|].
  destruct (String.eqb_spec (gm_turn_id x) (gm_turn_id m)) as [E|]; [|by apply IH].
  destruct Hx. rewrite E. apply list_elem_of_fmap. eauto.
Qed.

Definition peers_of (g : ProxyGroup) (t : string) : list string :=
  sort_strings (map gm_turn_id (List.filter (λ x, negb (String.eqb (gm_turn_id x) t)) (pg_members g))).

Lemma as_str_texts (l : list string) : omap (M := list) as_str (map (λ p, Str (B p)) l) = map B l.
Proof. induction l as [|p l IH]; [done|]. cbn. by f_equal. Qed.

(** The metadata of a member reads back as it was written. *)
Lemma stored_meta (g : ProxyGroup) (m : GroupMember) (d : TraceDetail) :
  NoDup (map gm_turn_id (pg_members g)) → m ∈ pg_members g → de_metadata d = metadata_for g (gm_turn_id m) →
  proxy_meta d ▷ get_str "pair_id" = Some (B (pg_group_id g)) ∧
  role_of_meta (proxy_meta d) = role_as_str (gm_role m) ∧
  peer_ids_of (proxy_meta d) = peers_of g (gm_turn_id m).
Proof.
  intros Hn Hm Hd. unfold metadata_for in Hd. rewrite find_member in Hd by done. cbv zeta in Hd.
  fold (peers_of g (gm_turn_id m)) in Hd. set (ps := peers_of g (gm_turn_id m)) in *.
  assert (Hp : proxy_meta d = Some (obj [("role", Str (B (role_as_str (gm_role m)))); ("pair_id", Str (B (pg_group_id g)));
    ("peer_turn_ids", Array (map (λ p, Str (B p)) ps));
    ("peer_turn_id", match head ps with Some p => Str (B p) | None => Null end)]%string)).
  { unfold proxy_meta. rewrite Hd. cbn [mbind option_bind]. rewrite get_obj. done. }
  rewrite Hp. unfold role_of_meta, peer_ids_of, get_str, get_arr. cbn [mbind option_bind]. rewrite !get_obj.
  cbn [last_get String.eqb Ascii.eqb Bool.eqb mbind option_bind as_str as_array default from_option id fmap option_fmap option_map].
  split_and!; [done|by rewrite str_B|]. rewrite as_str_texts. destruct ps as [|q qs]; [done|]. cbn [map].
  rewrite str_B. f_equal. rewrite map_map. rewrite <- (map_id qs) at 2. apply map_ext. intros x. apply str_B.
Qed.

Lemma collect_inl {A C E : Type} (f : A → C + E) (h : A → C) (l : list A) :
  (∀ a, a ∈ l → f a = inl (h a)) → collect_results f l = inl (map h l).
Proof.
  induction l as [|a l IH]; intros H; [done|]. cbn [collect_results map]. rewrite H by set_solver. cbn [api_bind].
  rewrite IH by set_solver. done.
Qed.

(** The role of a member by its id, as its metadata says it. *)
Definition role_by_id (g : ProxyGroup) (t : string) : string :=
  match List.find (λ x, String.eqb (gm_turn_id x) t) (pg_members g) with
  | Some m => role_as_str (gm_role m)
  | None => "unknown"%string
  end.

Lemma filter_others (t : string) (l : list GroupMember) :
  t ∉ map gm_turn_id l → List.filter (λ x, negb (String.eqb (gm_turn_id x) t)) l = l.
Proof.
  induction l as [|x l IH]; [done|]. cbn [map List.filter]. intros [Hx Hl]%not_elem_of_cons.
  destruct (String.eqb_spec (gm_turn_id x) t) as [<-|]; [done|]. cbn [negb]. by rewrite IH.
Qed.

Lemma legs_by_id (g : ProxyGroup) (m : GroupMember) :
  NoDup (map gm_turn_id (pg_members g)) → m ∈ pg_members g →
  (gm_turn_id m, role_as_str (gm_role m)) :: map (λ p, (p, role_by_id g p)) (peers_of g (gm_turn_id m))
  ≡ₚ map leg_of (pg_members g).
Proof.
  intros Hn Hm. unfold peers_of. rewrite sort_strings_perm, map_map.
  assert (Hr : ∀ x, x ∈ pg_members g → (gm_turn_id x, role_by_id g (gm_turn_id x)) = leg_of x).
  { intros x Hx. unfold role_by_id. by rewrite find_member. }
  rewrite (map_ext_in _ leg_of); [|intros x [Hx _]%filter_In; by apply Hr, list_elem_of_In].
  change (gm_turn_id m, role_as_str (gm_role m)) with (leg_of m). rewrite <- map_cons. apply Permutation_map.
  clear Hr. induction (pg_members g) as [|x l IH]; [set_solver|]. apply NoDup_cons in Hn as [Hx Hn]. cbn [List.filter].
  destruct (String.eqb_spec (gm_turn_id x) (gm_turn_id m)) as [E|Hne]; cbn [negb].
  - apply elem_of_cons in Hm as [->|Hm]; [|destruct Hx; rewrite E; apply list_elem_of_fmap; eauto].
    constructor. by rewrite filter_others.
  - apply elem_of_cons in Hm as [->|Hm]; [done|]. rewrite Permutation_swap. constructor. by apply IH.
Qed.

Lemma peers_elem (g : ProxyGroup) (t p : string) :
  p ∈ peers_of g t ↔ p ≠ t ∧ ∃ x, x ∈ pg_members g ∧ gm_turn_id x = p.
Proof.
  unfold peers_of. rewrite sort_strings_perm, list_elem_of_fmap. split.
  - intros (x & -> & Hx). apply list_elem_of_In, filter_In in Hx as [Hx Hne]. apply list_elem_of_In in Hx.
    split; [|eauto]. intros E. by rewrite E, String.eqb_refl in Hne.
  - intros [Hne (x & Hx & <-)]. exists x. split; [done|]. apply list_elem_of_In, filter_In.
    split; [by apply list_elem_of_In|]. apply negb_true_iff. by apply String.eqb_neq.
Qed.

(** C17: Whichever leg of a stored group is asked for, the answer is the same: all
    the legs of the group, once each, those of the canonical role first and by
    id within a role, with the group's id and what is computed from them. *)
Theorem view_same_from_each_leg :
  ∀ (g : ProxyGroup) (m : GroupMember),
    group_stored g → NoDup (map gm_turn_id (pg_members g)) → m ∈ pg_members g →
    let legs := sort_legs (map leg_of (pg_members g)) in
    legs ≡ₚ map leg_of (pg_members g) ∧ StronglySorted leg_le legs ∧
    proxy_view (gm_turn_id m) = (members ←? collect_results fetch_member legs; inl (view_of (B (pg_group_id g)) (concat members))).
Proof.
  intros g m Hs Hn Hm. cbv zeta. split; [apply sort_legs_perm|]. split; [apply sort_legs_sorted|].
  unfold proxy_view. destruct (Hs m Hm) as (d & -> & Hd). cbn [from_store api_bind].
  destruct (stored_meta g m d Hn Hm Hd) as (-> & -> & ->).
  rewrite (collect_inl peer_role (λ p, (p, role_by_id g p))).
  2: { intros p (_ & x & Hx & <-)%peers_elem. unfold peer_role. destruct (Hs x Hx) as (d' & -> & Hd').
       cbn [from_store api_bind mbind option_bind]. destruct (stored_meta g x d' Hn Hx Hd') as (_ & -> & _).
       unfold role_by_id. by rewrite find_member. }
  cbn [api_bind]. rewrite (sort_legs_unique _ (map leg_of (pg_members g))); [done| |by apply legs_by_id].
  rewrite (legs_by_id g m Hn Hm). unfold leg_of. by rewrite <- list_fmap_compose.
Qed.
End SameView.

(** ** A concrete group *)

Definition sample_group : ProxyGroup := mkGroup "g1" [mkMember "out" ProxyOut; mkMember "in" ProxyIn].

Definition sample_leg_detail (id : string) (meta : option Value) : TraceDetail :=
  mkTraceDetail id "tap" "s" "anthropic" "claude-code" "10.0.0.1" "10.0.0.2" 1000 1500 500 1 [] [] 6 52 0 0 None
    "complete" None None None None None [("c-" +:+ id)%string] meta [] 0 None [].
Definition sample_headers (l : list (string * string)) : option text :=
  Some (to_string (Array (map (λ '(k, v), Array [Str (B k); Str (B v)]) l))).
Definition sample_leg_call (id : string) : SpanDetail :=
  let own := if String.eqb id "c-in" then [("X-LiteLLM-Call-Id", "abc"); ("Server", "uvicorn")]%string
             else [("Server", "envoy")]%string in
  mkSpanDetail id "tap" 1000000 None None "anthropic" "claude" "chat" false (B "/v1/messages") (Some 200) None None None
    None false None (Some (f64_of_Z (if String.eqb id "c-in" then 90 else 70))) None "10.0.0.1" 40000 "10.0.0.2" 443
    (Some (to_string (obj [("model", Str (B (if String.eqb id "c-in" then "claude" else "qwen")%string))]%string)))
    None None (sample_headers (("Content-Type", "application/json")%string :: own)) true None None 0 [] None.

Definition sample_view_store : ApiStore := {|
  query_traces := λ _, inr tt;
  query_trace_by_id := λ t, inl (match metadata_for sample_group t with
                                 | Some v => Some (sample_leg_detail t (Some v))
                                 | None => None
                                 end);
  query_trace_spans := λ _ _, inl [];
  query_spans_by_ids := λ _ _, inl [];
  query_span_by_id := λ id, inl (Some (sample_leg_call id));
  query_session_traces := λ _, inl [];
|}.

Definition seen_view (r : ProxyViewResponse + ApiError) :
    option (list string * list (text * HeaderDiffKind) * option ModelRewrite * option spec_float) :=
  match r with
  | inl v => Some (map vm_turn_id (pv_members v), map (λ e, (hd_name e, hd_kind e)) (pv_response_header_diff v),
                   pv_model_rewrite v, lb_proxy_overhead_ms (pv_latency_breakdown v))
  | inr _ => None
  end.

Example sample_view :
  seen_view (proxy_view (AS := sample_view_store) "out")
  = Some (["in"; "out"]%string,
          [(B "Content-Type", Common); (B "Server", Modified); (B "X-LiteLLM-Call-Id", PerLeg)],
          Some (mkRewrite (Some (B "claude")) (Some (B "qwen"))), Some (f64_of_Z 20)).
Proof. vm_compute. reflexivity. Qed.

Lemma sample_group_stored : group_stored (AS := sample_view_store) sample_group.
Proof.
  intros m Hm. repeat (apply elem_of_cons in Hm as [->|Hm]; [eexists; split; reflexivity|]). set_solver.
Qed.

Lemma view_same_from_each_leg_witness :
  proxy_view (AS := sample_view_store) "in" = proxy_view (AS := sample_view_store) "out".
Proof.
  assert (Hn : NoDup (map gm_turn_id (pg_members sample_group))) by (apply (bool_decide_unpack _); vm_compute; exact I).
  destruct (view_same_from_each_leg sample_group (mkMember "in" ProxyIn) sample_group_stored Hn) as (_ & _ & E1).
  { right. left. }
  destruct (view_same_from_each_leg sample_group (mkMember "out" ProxyOut) sample_group_stored Hn) as (_ & _ & E2).
  { left. }
  exact (eq_trans E1 (eq_sym E2)).
Defined.

Definition sample_view_member (id : string) (hs : list (text * text)) : ProxyViewMember :=
  mkViewMember id "proxy_in" "x" None "y" None 0 0 0 None None None "openai-chat" None None hs [].

(** A header one leg repeats and the other lacks counts as if both had it. *)
Example repeated_header_hides_a_leg :
  map (λ e, (hd_name e, hd_kind e))
    (diff_headers [sample_view_member "t1" [(B "via", B "a"); (B "via", B "a")]; sample_view_member "t2" []]
       vm_request_headers)
  = [(B "via", Common)].
Proof. vm_compute. reflexivity. Qed.

Lemma header_diff_classifies_witness :
  ∃ e, e ∈ diff_headers [sample_view_member "t1" [(B "Via", B "a")]; sample_view_member "t2" [(B "via", B "b")]]
            vm_request_headers ∧ header_key (hd_name e, []) = "via"%string.
Proof.
  destruct (header_diff_classifies [sample_view_member "t1" [(B "Via", B "a")]; sample_view_member "t2" [(B "via", B "b")]]
    vm_request_headers) as (_ & H & _).
  { intros m Hm. repeat (apply elem_of_cons in Hm as [->|Hm];
      [apply (bool_decide_unpack _); vm_compute; exact I|]). set_solver. }
  exact (H _ (B "via", B "b") (list_elem_of_further _ _ _ (list_elem_of_here _ _)) (list_elem_of_here _ _)).
Defined.
