(* ===== verification/ExportApi.v ===== *)
(** * Export of stored turns (h-api/src/routes/export.rs)

    One turn, one session or every turn of a query as lines of JSON for
    fine-tuning: the terminal call's stored bodies, converted ([Export]), with
    where they come from.  Requests to the storage are those of [ApiStore]; what
    a header value may hold is the http library's. *)

From Stdlib Require Import Strings.Byte Strings.String ZArith Lia SpecFloat.
From stdpp Require Import base gmap sets list strings.
From S2P Require Import Prelude.
From S2P Require Import Net.
From S2P Require Import Text.
From S2P Require Import Events.
From S2P Require Import Counters.
From S2P Require Import Utf8.
From S2P Require Import Calls.
From S2P Require Import Json.
From S2P Require Import JsonSample.
From S2P Require Import Wire.
From S2P Require Import Estimator.
From S2P Require Import OpenAiChat.
From S2P Require Import Anthropic.
From S2P Require Import WireApis.
From S2P Require Import AgentRegistry.
From S2P Require Import Processor.
From S2P Require Import Spl.
From S2P Require Import StoreRows.
From S2P Require Import Api.
From S2P Require Import ApiStore.
From S2P Require Import Export.

Open Scope Z_scope.

Definition MAX_BATCH_TURNS : Z := 2000.

Record ExportTrajectoryParams : Type := mkExportParams {
  ep_scope : text;
  ep_turn_id : option text;
  ep_source_id : option text;
  ep_session_id : option text;
}.

Record ExportBatchParams : Type := mkBatchParams {
  eb_start : Z;
  eb_end : Z;
  eb_wire_api : option text;
  eb_model : option text;
  eb_server_ip : option text;
  eb_client_ip : option text;
  eb_server_port : option text;
  eb_status : option text;
  eb_agent_kind : option text;
  eb_include_proxy_hops : bool;
  eb_limit : option Z;
}.

(** [Display] of an export error. *)
Definition export_error_text (e : ExportError) : text :=
  match e with
  | UnsupportedWireApi w => B "unsupported wire_api: " ++ B w
  | BodyTruncated => B "captured body was truncated (body_bytes_dropped > 0); trajectory would be lossy"
  | MissingTerminalBody => B "no terminal call body to reconstruct from"
  | Malformed w what => B "malformed " ++ B w ++ B " body: " ++ what
  end.

Definition batch_query (p : ExportBatchParams) : TracesQuery + ApiError :=
  server_ports ←? parse_u16_csv (B "server_port") (eb_server_port p);
  let page_size := Z.max 1 (Z.min (default 1000 (eb_limit p)) MAX_BATCH_TURNS) in
  time_range ←? to_time_range (eb_start p) (eb_end p);
  inl {| tq_time_range := time_range;
         tq_filter := to_dimension_filter (eb_wire_api p) (eb_model p) (eb_server_ip p) None;
         tq_client_ips := csv_strings (eb_client_ip p);
         tq_server_ports := server_ports;
         tq_statuses := csv_strings (eb_status p);
         tq_agent_kinds := csv_strings (eb_agent_kind p);
         tq_sort_by := B "start_time";
         tq_sort_order := B "desc";
         tq_page := 1;
         tq_page_size := page_size;
         tq_include_proxy_hops := eb_include_proxy_hops p |}.

Section Line.
Context `{JT : JsonText} `{JS : !JsonSigned}.

(** A struct as [serde_json] writes it: its fields in their declared order,
    absent ones and an empty [tools] left out. *)
Definition object_text (fields : list (string * text)) : text :=
  B "{" ++ join (B ",") (map (λ '(k, v), string_to_json (B k) ++ B ":" ++ v) fields) ++ B "}".
Definition array_text (items : list text) : text := B "[" ++ join (B ",") items ++ B "]".
Definition opt_text {A : Type} (k : string) (f : A → text) (o : option A) : list (string * text) :=
  match o with Some a => [(k, f a)] | None => [] end.

Definition tool_call_text (c : ToolCall) : text :=
  object_text [("id", string_to_json (tc_id c)); ("type", string_to_json (tc_kind c));
    ("function", object_text [("name", string_to_json (tf_name (tc_function c)));
                              ("arguments", to_string (tf_arguments (tc_function c)))])]%string.
Definition message_line (m : Message) : text :=
  object_text ([("role"%string, string_to_json (msg_role m))] ++ opt_text "content" string_to_json (msg_content m)
    ++ opt_text "reasoning_content" string_to_json (msg_reasoning_content m)
    ++ opt_text "tool_calls" (λ l, array_text (map tool_call_text l)) (msg_tool_calls m)
    ++ opt_text "tool_call_id" string_to_json (msg_tool_call_id m) ++ opt_text "name" string_to_json (msg_name m)).
Definition trajectory_text (t : TrainingTrajectory) : text :=
  object_text ([("messages"%string, array_text (map message_line (tt_messages t)))]
    ++ opt_text "tools" (λ l, array_text (map to_string l)) (nonempty (tt_tools t))
    ++ [("_meta"%string, to_string (tt_meta t))]).

Definition nullable (o : option string) : Value := match o with Some s => Str (B s) | None => Null end.

Definition line_meta (detail : TraceDetail) (scope_label final_call_id : string) : Value :=
  obj [("source", Str (B "heron")); ("scope", Str (B scope_label)); ("source_id", Str (B (de_source_id detail)));
       ("session_id", Str (B (de_session_id detail))); ("turn_id", Str (B (de_turn_id detail)));
       ("terminal_call_id", Str (B final_call_id)); ("wire_api", Str (B (de_wire_api detail)));
       ("agent_kind", Str (B (de_agent_kind detail))); ("model", nullable (head (de_models_used detail)));
       ("final_finish_reason", nullable (de_final_finish_reason detail));
       ("total_input_tokens", of_u64 (de_total_input_tokens detail));
       ("total_output_tokens", of_u64 (de_total_output_tokens detail));
       ("captured_at_ms", Number (number_of_i64 (de_end_time detail)))]%string.

(** A stored body, parsed, or why it cannot be. *)
Definition parsed_body (which : text) (body : option text) : Value + text :=
  match body with
  | Some b => match from_slice b with
              | Some v => inl v
              | None => inr (B "malformed/truncated " ++ which ++ B " body")
              end
  | None => inr (B "missing " ++ which ++ B " body")
  end.

(** The terminal call's bodies as a line, or the reason there is none. *)
Definition line_of_call (detail : TraceDetail) (scope_label final_call_id : string) (call : TraceSpanItem) : text + text :=
  req ←? parsed_body (B "request") (si_request_body call);
  resp ←? parsed_body (B "response") (si_response_body call);
  match reconstruct_trajectory (de_wire_api detail) req resp with
  | inr e => inr (export_error_text e)
  | inl traj => inl (trajectory_text (with_meta traj (line_meta detail scope_label final_call_id)) ++ [LF])
  end.

Context `{AS : !ApiStore}.

(** The outer result is the storage's, the inner the export's. *)
Definition line_from_turn_detail (detail : TraceDetail) (scope_label : string) : (text + text) + ApiError :=
  match de_final_call_id detail with
  | None => inl (inr (B "turn has no terminal call"))
  | Some final_call_id =>
      calls ←? from_store (query_spans_by_ids [final_call_id] true);
      match calls with
      | [] => inl (inr (B "terminal call body unavailable"))
      | call :: _ => inl (line_of_call detail scope_label final_call_id call)
      end
  end.

Definition resolve_session_last_turn (source_id session_id : text) : option TraceDetail + ApiError :=
  page ←? from_store (query_session_traces (mkSessionTracesQuery source_id session_id None 1));
  match page with
  | [] => inl None
  | last :: _ => from_store (query_trace_by_id last)
  end.

(** ** The responses *)

Record NdjsonResponse : Type := mkNdjson { nd_headers : list (string * text); nd_body : text }.

(** What the http library accepts as a header's value, and what it says of
    another. *)
Variable header_value_ok : text → bool.
Variable header_error : text.

Definition ndjson_response (body filename : text) (counts : option (Z * Z * Z)) : NdjsonResponse + ApiError :=
  let headers :=
    [("content-type"%string, B "application/x-ndjson");
     ("content-disposition"%string, B "attachment; filename=" ++ x22 :: filename ++ [x22])]
    ++ match counts with
       | Some (total, written, skipped) =>
           [("x-export-total", to_radix 10 total); ("x-export-written", to_radix 10 written);
            ("x-export-skipped", to_radix 10 skipped)]%string
       | None => []
       end in
  if forallb (λ h, header_value_ok h.2) headers then inl (mkNdjson headers body)
  else inr (Internal (B "build response: " ++ header_error)).

(** What [single] exports: the turn, its label and the file's name. *)
Definition single_target (p : ExportTrajectoryParams) : (TraceDetail * string * text) + ApiError :=
  if bool_decide (ep_scope p = B "turn") then
    match non_empty (ep_turn_id p) with
    | None => inr (InvalidParam (B "turn scope requires turn_id"))
    | Some turn_id =>
        found ←? from_store (query_trace_by_id (str turn_id));
        match found with
        | None => inr (NotFound (B "turn not found: " ++ turn_id))
        | Some detail => inl (detail, "turn"%string, B "trajectory-" ++ turn_id ++ B ".jsonl")
        end
    end
  else if bool_decide (ep_scope p = B "session") then
    let source_id := default [] (ep_source_id p) in
    match non_empty (ep_session_id p) with
    | None => inr (InvalidParam (B "session scope requires session_id"))
    | Some session_id =>
        found ←? resolve_session_last_turn source_id session_id;
        match found with
        | None => inr (NotFound (B "session has no turns: " ++ source_id ++ B "/" ++ session_id))
        | Some detail => inl (detail, "session"%string, B "trajectory-" ++ session_id ++ B ".jsonl")
        end
    end
  else inr (InvalidParam (B "invalid scope: " ++ ep_scope p)).

Definition single (p : ExportTrajectoryParams) : NdjsonResponse + ApiError :=
  target ←? single_target p;
  let '(detail, scope_label, filename) := target in
  line ←? line_from_turn_detail detail scope_label;
  match line with
  | inl line => ndjson_response line filename None
  | inr reason => inr (InvalidParam reason)
  end.

(** A turn of the batch: its line, or nothing where it is skipped; the first
    query of its detail that fails ends the batch. *)
Definition batch_line (turn_id : string) : list text + ApiError :=
  found ←? from_store (query_trace_by_id turn_id);
  match found with
  | None => inl []
  | Some detail =>
      match line_from_turn_detail detail "turn" with
      | inl (inl line) => inl [line]
      | _ => inl []
      end
  end.

Definition batch (p : ExportBatchParams) : NdjsonResponse + ApiError :=
  query ←? batch_query p;
  page ←? from_store (query_traces query);
  lines ←? collect_results batch_line (map li_turn_id (pg_items page));
  let lines := concat lines in
  let total := zlen (pg_items page) in
  let written := zlen lines in
  ndjson_response (concat lines) (B "trajectories.jsonl") (Some (total, written, total - written)).
End Line.

(** ** A truncated body is never exported *)

Section Truncated.
Context `{JT : JsonText} `{JS : !JsonSigned} `{AS : !ApiStore} `{TE : TokenEstimator}.

(** No JSON text has a full stop after a line feed: outside a string a line feed
    is white space and no token starts with a full stop, and inside one it
    must be escaped. *)
Definition FULL_STOP : byte := x2e.
Hypothesis json_grammar : ∀ (t : text) (v : Value) (a b : text), from_slice t = Some v → t ≠ a ++ [LF; FULL_STOP] ++ b.

Lemma cap_body_unparsable (body : option text) (cap : BodyCapConfig) :
  0 < (cap_body body cap).2 → ∃ out, (cap_body body cap).1 = Some out ∧ from_slice out = None.
Proof.
  destruct body as [b|]; [|cbn; lia]. unfold cap_body. destruct (_ || _); [cbn; lia|].
  set (h := snap_down _ _). set (t := snap_up _ _). destruct (t <=? h)%nat; [cbn; lia|].
  intros _. eexists. split; [done|].
  destruct (from_slice _) as [v|] eqn:E; [|done]. exfalso.
  apply (json_grammar _ _ (take h b)
    (B "..[heron body cap: " ++ to_radix 10 (Z.of_nat (t - h)) ++ B " bytes elided]..." ++ [LF] ++ drop t b) E).
  unfold cap_marker. by rewrite <- !app_assoc.
Qed.

Lemma truncated_line (detail : TraceDetail) (scope id : string) (call : TraceSpanItem) :
  (∃ b, si_request_body call = Some b ∧ from_slice b = None) ∨
  (∃ b, si_response_body call = Some b ∧ from_slice b = None) →
  ∃ reason, line_of_call detail scope id call = inr reason.
Proof.
  unfold line_of_call, parsed_body. intros [(b & -> & E)|(b & -> & E)]; rewrite E.
  - cbn [api_bind]. by eexists.
  - destruct (si_request_body call) as [r|]; [destruct (from_slice r)|]; cbn [api_bind]; by eexists.
Qed.

(** C18: A call of whose bodies the cap dropped anything is never exported: when the
    storage has it as the terminal call of a turn, the export of the turn gives a
    reason and no line, whatever the format. *)
Theorem truncated_never_exported :
  ∀ (p : LlmProcessor) (uuid : string) (req : HttpRequestData) (resp : HttpResponseData) (sse : list SseEventData)
    (call : LlmCall) (info : option AgentCallInfo) (detail : TraceDetail) (item : TraceSpanItem) (scope : string),
    (on_exchange p uuid req resp sse).2 = [LComplete call info] → 0 < lc_body_bytes_dropped call →
    de_final_call_id detail = Some (lc_id call) →
    query_spans_by_ids [lc_id call] true = inl [item] →
    si_request_body item = lc_request_body call → si_response_body item = lc_response_body call →
    ∃ reason, line_from_turn_detail detail scope = inl (inr reason).
Proof.
  intros p uuid req resp sse call info detail item scope H Hd Hf Hq Hreq Hresp.
  unfold line_from_turn_detail. rewrite Hf, Hq. cbn [from_store api_bind].
  assert (Hb : (∃ b, lc_request_body call = Some b ∧ from_slice b = None) ∨
               (∃ b, lc_response_body call = Some b ∧ from_slice b = None)).
  { unfold on_exchange in H. destruct (detect _ _ _) as [outcome|]; [|done].
    destruct (extract _ _ _) as [ri cache]. destruct (estimate_tokens _ _ _ _) as [m1 ri'].
    destruct (build_agent_call_info_with_parsed _ _ _ _ _ _) as [m2 agent]. injection H as <- _.
    revert Hd. unfold build_call.
    destruct (cap_body (from_utf8 (req_body req)) (lp_body_cap p)) as [rb rd] eqn:E1.
    destruct (cap_body (rp_response_body ri') (lp_body_cap p)) as [pb pd] eqn:E2.
    cbn [lc_body_bytes_dropped lc_request_body lc_response_body].
    pose proof (cap_body_nonneg (from_utf8 (req_body req)) (lp_body_cap p)) as N1. rewrite E1 in N1. cbn in N1.
    unfold u64_sat_add. intros Hd. destruct (Z.eq_dec rd 0) as [->|].
    - right. pose proof (cap_body_unparsable (rp_response_body ri') (lp_body_cap p)) as H. rewrite E2 in H.
      apply H. cbn. lia.
    - left. pose proof (cap_body_unparsable (from_utf8 (req_body req)) (lp_body_cap p)) as H. rewrite E1 in H.
      apply H. cbn. lia. }
  rewrite <- Hreq, <- Hresp in Hb.
  destruct (truncated_line detail scope (lc_id call) item Hb) as [reason ->]. eauto.
Qed.

(** ** The batch accounts for its turns *)

Variable header_value_ok : text → bool.
Variable header_error : text.

(** The line of a turn, where it has one. *)
Definition turn_line (turn_id : string) : option text :=
  match query_trace_by_id turn_id with
  | inl (Some detail) => match line_from_turn_detail detail "turn" with inl (inl line) => Some line | _ => None end
  | _ => None
  end.

Lemma batch_lines (ids : list string) (lines : list (list text)) :
  collect_results batch_line ids = inl lines → concat lines = omap turn_line ids.
Proof.
  revert lines; induction ids as [|id ids IH]; intros lines; cbn [collect_results]; [by intros [= <-]|].
  destruct (batch_line id) as [l|] eqn:El; [|done]. cbn [api_bind].
  destruct (collect_results batch_line ids) as [ls|]; [|done]. cbn [api_bind]. intros [= <-]. cbn [concat omap list_omap].
  rewrite (IH ls eq_refl).
  assert (Hl : l = match turn_line id with Some x => [x] | None => [] end); [|rewrite Hl; by destruct (turn_line id)].
  unfold turn_line. unfold batch_line in El.
  destruct (query_trace_by_id id) as [[d|]|]; cbn [from_store api_bind] in El; [|by injection El as <-|done].
  destruct (line_from_turn_detail d "turn") as [[line|]|]; by injection El as <-.
Qed.

Lemma omap_length_le {A C : Type} (f : A → option C) (l : list A) : zlen (omap f l) <= zlen l.
Proof. unfold zlen. induction l as [|x l IH]; cbn; [lia|]. destruct (f x); cbn in *; lia. Qed.

(** A batch has one line for each turn of the page that has one, in the page's
    order, and its counts add up. *)
Theorem batch_accounts :
  ∀ (p : ExportBatchParams) (r : NdjsonResponse),
    batch header_value_ok header_error p = inl r →
    ∃ query page, batch_query p = inl query ∧ query_traces query = inl page ∧
      1 <= tq_page_size query <= MAX_BATCH_TURNS ∧
      let ids := map li_turn_id (pg_items page) in
      let lines := omap turn_line ids in
      nd_body r = concat lines ∧
      ∃ skipped, 0 <= skipped ∧ zlen ids = zlen lines + skipped ∧
        ("x-export-total"%string, to_radix 10 (zlen ids)) ∈ nd_headers r ∧
        ("x-export-written"%string, to_radix 10 (zlen lines)) ∈ nd_headers r ∧
        ("x-export-skipped"%string, to_radix 10 skipped) ∈ nd_headers r.
Proof.
  intros p r H. unfold batch in H. destruct (batch_query p) as [query|] eqn:Eq; [|done]. cbn [api_bind] in H.
  destruct (query_traces query) as [page|] eqn:Ep; [|done]. cbn [from_store api_bind] in H.
  destruct (collect_results batch_line _) as [lines|] eqn:El; [|done]. cbn [api_bind] in H.
  apply batch_lines in El. rewrite El in H. exists query, page. do 2 (split; [done|]).
  assert (Hz : zlen (pg_items page) = zlen (map li_turn_id (pg_items page))) by (unfold zlen; by rewrite length_map).
  split.
  { clear H. unfold batch_query in Eq. destruct (parse_u16_csv _ _); [|done]. cbn [api_bind] in Eq.
    destruct (to_time_range _ _); [|done]. injection Eq as <-. cbn [tq_page_size]. unfold MAX_BATCH_TURNS. lia. }
  cbv zeta. set (ids := map li_turn_id (pg_items page)) in *. unfold ndjson_response in H. cbv zeta in H.
  destruct (forallb _ _); [|done]. injection H as <-. cbn [nd_body nd_headers]. split; [done|].
  exists (zlen ids - zlen (omap turn_line ids)). pose proof (omap_length_le turn_line ids). rewrite Hz.
  split_and!; [lia|lia|..]; cbn [app]; rewrite !elem_of_cons; tauto.
Qed.
End Truncated.

(** ** Concrete exports *)

(** The sample library, reading nothing that JSON cannot have. *)
Definition no_mark (t : text) : bool := negb (contains [LF; FULL_STOP] t).
Definition strict_json_text : JsonText (JN := sample_json_number) := {|
  from_slice := λ t, if no_mark t then from_slice t else None;
  to_string := to_string;
  string_to_json := string_to_json;
|}.

Lemma strict_json_grammar (t : text) (v : Value) (a b : text) :
  @from_slice _ strict_json_text t = Some v → t ≠ a ++ [LF; FULL_STOP] ++ b.
Proof.
  cbn [from_slice strict_json_text]. unfold no_mark, contains.
  destruct (find_sub [LF; FULL_STOP] t) eqn:E; [done|]. intros _. by apply find_sub_None.
Qed.

(** The sample exchange through a processor that keeps four bytes of a body. *)
Definition tiny_processor : LlmProcessor :=
  with_body_cap (processor_new (@build_default_wire_api_registry _ strict_json_text)
    (@build_default_registry _ strict_json_text)) (mkBodyCap true 2 2).
Definition truncated_completion : option (LlmCall * option AgentCallInfo) :=
  completion_of (@on_exchange _ strict_json_text _ tiny_processor "u1" sample_exchange_req sample_exchange_resp []).2.

Definition sample_export_detail (wire_api : string) : TraceDetail :=
  mkTraceDetail "t1" "tap" "s1" wire_api "claude-code" "10.0.0.1" "10.0.0.2" 1000 1500 500 1 ["claude"%string] [] 6 52 0 0
    None "complete" (Some "end_turn"%string) None None (Some "u1"%string) None ["u1"%string] None [] 0 None [].

Definition sample_span_item (req resp : option text) : TraceSpanItem :=
  mkSpanItem "u1" 0 1000 None None "anthropic" "claude" (Some 200) false None None None None None false (B "/v1/messages")
    "10.0.0.1" 40000 "10.0.0.2" 443 req resp None None.

(** One turn with the given wire API and stored bodies of its terminal call. *)
Definition export_store (wire_api : string) (req resp : option text) : ApiStore := {|
  query_traces := λ _, inl (mkTracesPage 1 []);
  query_trace_by_id := λ t, inl (if String.eqb t "t1" then Some (sample_export_detail wire_api) else None);
  query_trace_spans := λ _ _, inl [];
  query_spans_by_ids := λ _ _, inl [sample_span_item req resp];
  query_span_by_id := λ _, inl None;
  query_session_traces := λ _, inl ["t1"%string];
|}.

Lemma truncated_never_exported_witness :
  match truncated_completion with
  | Some (c, _) =>
      0 < lc_body_bytes_dropped c ∧
      ∃ reason, @line_from_turn_detail _ strict_json_text sample_json_signed
        (export_store "anthropic" (lc_request_body c) (lc_response_body c)) (sample_export_detail "anthropic") "turn"
        = inl (inr reason)
  | None => False
  end.
Proof.
  destruct truncated_completion as [[c a]|] eqn:E; [|exfalso; revert E; vm_compute; discriminate].
  assert (Hd : match truncated_completion with Some (c, _) => 0 <? lc_body_bytes_dropped c | None => false end = true)
    by (vm_compute; reflexivity).
  assert (Hi : match truncated_completion with Some (c, _) => String.eqb (lc_id c) "u1" | None => false end = true)
    by (vm_compute; reflexivity).
  rewrite E in Hd, Hi. apply Z.ltb_lt in Hd. apply String.eqb_eq in Hi. split; [exact Hd|].
  apply completion_of_Some in E.
  apply (@truncated_never_exported _ strict_json_text sample_json_signed
    (export_store "anthropic" (lc_request_body c) (lc_response_body c)) _ strict_json_grammar
    tiny_processor "u1" sample_exchange_req sample_exchange_resp [] c a _
    (sample_span_item (lc_request_body c) (lc_response_body c)));
    [exact E|exact Hd|rewrite Hi; reflexivity|rewrite Hi; reflexivity|reflexivity|reflexivity].
Defined.

Definition sample_batch_params : ExportBatchParams :=
  mkBatchParams 0 4000000000 None None None None None None None false (Some 9000).

Definition sample_batch_store : ApiStore :=
  let s := export_store "anthropic" (Some (to_string sample_messages_request)) (Some (to_string sample_messages_response)) in
  let row id := mkListItem id "tap" "s1" 0 0 0 "anthropic" "x" "a" "b" None [] 0 0 0 "complete" None None None None None
                  None [] 0 None [] in
  {|
    query_traces := λ _, inl (mkTracesPage 2 [row "gone"%string; row "t1"%string]);
    query_trace_by_id := query_trace_by_id;
    query_trace_spans := query_trace_spans;
    query_spans_by_ids := query_spans_by_ids;
    query_span_by_id := query_span_by_id;
    query_session_traces := query_session_traces;
  |}.

Example sample_batch_exported :
  match batch (AS := sample_batch_store) (λ _, true) [] sample_batch_params with
  | inl r => Some (drop 2 (nd_headers r))
  | inr _ => None
  end = Some [("x-export-total", B "2"); ("x-export-written", B "1"); ("x-export-skipped", B "1")]%string.
Proof. vm_compute. reflexivity. Qed.

Lemma batch_accounts_witness :
  ∃ r, batch (AS := sample_batch_store) (λ _, true) [] sample_batch_params = inl r ∧
       ("x-export-total"%string, B "2") ∈ nd_headers r.
Proof.
  destruct (batch (AS := sample_batch_store) (λ _, true) [] sample_batch_params) as [r|] eqn:E;
    [|exfalso; revert E; vm_compute; discriminate].
  exists r. split; [reflexivity|].
  destruct (batch_accounts (AS := sample_batch_store) (λ _, true) [] sample_batch_params r E)
    as (q & page & _ & Hp & _ & _ & skipped & _ & _ & H & _).
  injection Hp as <-. exact H.
Defined.

(** A session id with a line feed, which came with the traffic, makes a header
    no library accepts, and its export an internal error. *)
Example odd_session_id_fails :
  single (AS := sample_batch_store) (forallb (λ b, (32 <=? byteZ b) && negb (byteZ b =? 127))) (B "failed to parse header value")
    (mkExportParams (B "session") None (Some (B "tap")) (Some (B "s" ++ [LF])))
  = inr (Internal (B "build response: failed to parse header value")).
Proof. vm_compute. reflexivity. Qed.
