(* ===== verification/HecClient.v ===== *)
(** * Writing to aglake (h-storage-aglake/src/client.rs)

    The writer of batches of events: which events are sent, in which requests, what
    is made of each answer, and what of a batch the store then holds.  The server,
    the compressor and serde's readers of its answers are known by their operations
    and by what is documented of them. *)

From Stdlib Require Import Strings.Byte Strings.String ZArith Lia.
From stdpp Require Import base gmap sets list strings.
From S2P Require Import Prelude.
From S2P Require Import Text.

Open Scope Z_scope.

(** ** Requests and answers *)

Record HecRequest : Type := mkHecRequest {
  hq_authorization : option text;
  hq_channel : option string;
  hq_gzip : bool;
  hq_body : list byte;
}.

(** An answer has a status and a text, empty if it could not be read. *)
Inductive HttpAnswer : Type := NoAnswer | Answer (status : Z) (body : text).

Definition is_success (status : Z) : bool := (200 <=? status) && (status <? 300).
Definition is_server_error (status : Z) : bool := (500 <=? status) && (status <? 600).

(** The server behind reqwest, and the source of new channels. *)
Class HecWorld (S : Type) : Type := {
  hec_uuid : S → string;
  hec_request : S → HecRequest → HttpAnswer * S;
  hec_ack : S → option text → string → HttpAnswer * S;
}.
(** serde's derived readers: [invalid_event_number] of a [HecResponse] and the
    [acks] of an [AckResponse]; and flate2's encoder. *)
Class HecFormats : Type := {
  hec_response : text → option (option Z);
  ack_response : text → option (gmap string bool);
  gz_encode : list byte → option (list byte);
}.

(** ** The client *)

Record HecClient : Type := mkHecClient {
  hc_token : text;
  hc_max_body_bytes : Z;
  hc_max_event_bytes : Z;
  hc_gzip : bool;
  hc_use_ack : bool;
  hc_retries : Z;
  hc_backoff_ms : Z;
}.

Inductive HecOutcome : Type :=
| HecOk
| PartialUpTo (k : Z)
| TooLarge
| Transient
| Permanent.

(** What a write fails with; the messages are left out. *)
Inductive SendError : Type := GivingUp (attempt : Z) | Unsplittable | Refused.

Definition enforce_event_size (c : HecClient) (events : list text) : list text :=
  List.filter (λ e, negb (hc_max_event_bytes c <? zlen e)) events.

Definition subslice {A : Type} (start stop : nat) (l : list A) : list A := take (stop - start) (drop start l).

Fixpoint split_loop (c : HecClient) (events rest : list text) (i start : nat) (acc : Z) (out : list (list text)) : list (list text) :=
  match rest with
  | [] => if (start <? length events)%nat then out ++ [drop start events] else out
  | e :: rest' =>
      let n := zlen e + 1 in
      if (hc_max_body_bytes c <? acc + n) && (start <? i)%nat
      then split_loop c events rest' (S i) i n (out ++ [subslice start i events])
      else split_loop c events rest' (S i) start (acc + n) out
  end.
Definition split_by_bytes (c : HecClient) (events : list text) : list (list text) := split_loop c events events 0 0 0 [].

Definition hec_body (events : list text) : list byte := concat (map (λ e, e ++ [x0a]) events).

Section Client.
Context {S : Type} `{W : HecWorld S} `{F : HecFormats}.

Definition authorization (c : HecClient) : option text :=
  if bool_decide (hc_token c = []) then None else Some (B "Splunk " ++ hc_token c).

Definition acked (a : HttpAnswer) : option bool :=
  match a with
  | NoAnswer => None
  | Answer status body => if is_success status then acks ← ack_response body; acks !! "0"%string else None
  end.
Definition ack_committed (c : HecClient) (channel : string) (s : S) : option bool * S :=
  let '(a, s) := hec_ack s (authorization c) channel in (acked a, s).

Definition resolve_transient (c : HecClient) (channel : option string) (s : S) : HecOutcome * S :=
  match channel with
  | None => (Transient, s)
  | Some ch =>
      match ack_committed c ch s with
      | (Some true, s) => (HecOk, s)
      | (_, s) => (Transient, s)
      end
  end.

Definition request_of (c : HecClient) (events : list text) (s : S) : HecRequest :=
  let body := hec_body events in
  let channel := if hc_use_ack c && negb (bool_decide (events = [])) then Some (hec_uuid s) else None in
  match (if hc_gzip c then gz_encode body else None) with
  | Some z => mkHecRequest (authorization c) channel true z
  | None => mkHecRequest (authorization c) channel false body
  end.

Definition post (c : HecClient) (events : list text) (s : S) : HecOutcome * S :=
  let q := request_of c events s in
  match hec_request s q with
  | (NoAnswer, s) => resolve_transient c (hq_channel q) s
  | (Answer status body, s) =>
      if is_success status then (HecOk, s)
      else if status =? 413 then (TooLarge, s)
      else if is_server_error status then resolve_transient c (hq_channel q) s
      else if status =? 400 then
        match hec_response body with
        | Some (Some k) => (PartialUpTo k, s)
        | _ => (Permanent, s)
        end
      else (Permanent, s)
  end.

(** [sleep(backoff * attempt)]: the product panics beyond what a [Duration] holds. *)
Definition backoff_sleep (c : HecClient) (attempt : Z) : res unit :=
  if hc_backoff_ms c * attempt <? 2 ^ 64 * 1000 then Ret tt else Panic.

Fixpoint send_loop (fuel : nat) (c : HecClient) (chunk : list text) (start attempt : Z) (s : S) : res (option SendError * S) :=
  match fuel with
  | O => OutOfFuel
  | Datatypes.S fuel =>
      if zlen chunk <=? start then Ret (None, s)
      else
        match post c (drop (Z.to_nat start) chunk) s with
        | (HecOk, s) => Ret (None, s)
        | (PartialUpTo k, s) => send_loop fuel c chunk (wrap 64 (start + (k + 1))) attempt s
        | (TooLarge, s) =>
            let half := Z.max ((zlen chunk - start + 1) / 2) 1 in
            if half =? zlen chunk - start then Ret (Some Unsplittable, s)
            else
              let mid := Z.to_nat (start + half) in
              let* r := send_loop fuel c (subslice (Z.to_nat start) mid chunk) 0 0 s in
              match r with
              | (Some e, s) => Ret (Some e, s)
              | (None, s) => send_loop fuel c (drop mid chunk) 0 0 s
              end
        | (Transient, s) =>
            let attempt := wrap 32 (attempt + 1) in
            if hc_retries c <? attempt then Ret (Some (GivingUp attempt), s)
            else let* _ := backoff_sleep c attempt in send_loop fuel c chunk start attempt s
        | (Permanent, s) => Ret (Some Refused, s)
        end
  end.

(** Enough steps for a chunk: each loses an event or a try, and a half that starts
    anew has fewer events. *)
Definition chunk_fuel (c : HecClient) (n : nat) : nat := Datatypes.S n * (Z.to_nat (hc_retries c) + 2).
Definition send_chunk (c : HecClient) (chunk : list text) (s : S) : res (option SendError * S) :=
  send_loop (chunk_fuel c (length chunk)) c chunk 0 0 s.

Fixpoint send_chunks (c : HecClient) (chunks : list (list text)) (s : S) : res (option SendError * S) :=
  match chunks with
  | [] => Ret (None, s)
  | chunk :: chunks' =>
      let* r := send_chunk c chunk s in
      match r with
      | (Some e, s) => Ret (Some e, s)
      | (None, s) => send_chunks c chunks' s
      end
  end.
Definition send (c : HecClient) (events : list text) (s : S) : res (option SendError * S) :=
  if bool_decide (events = []) then Ret (None, s)
  else send_chunks c (split_by_bytes c (enforce_event_size c events)) s.
End Client.

(** ** Requests cover the batch *)

Lemma subslice_drop {A} (start stop : nat) (l : list A) : (start <= stop)%nat → subslice start stop l ++ drop stop l = drop start l.
Proof. intros H. unfold subslice. rewrite <-(take_drop (stop - start) (drop start l)) at 2. rewrite drop_drop. do 2 f_equal. lia. Qed.

(** A chunk within the ceiling, or of one event. *)
Definition chunk_fits (c : HecClient) (chunk : list text) : Prop :=
  chunk ≠ [] ∧ (zlen (hec_body chunk) <= hc_max_body_bytes c ∨ length chunk = 1%nat).

Lemma hec_body_app l k : hec_body (l ++ k) = hec_body l ++ hec_body k.
Proof. unfold hec_body. by rewrite map_app, concat_app. Qed.

Lemma hec_body_one e : zlen (hec_body [e]) = zlen e + 1.
Proof. unfold hec_body. cbn. rewrite app_nil_r, zlen_app. done. Qed.

Lemma split_loop_spec c done cur rest out :
  zlen (hec_body cur) <= hc_max_body_bytes c ∨ (length cur <= 1)%nat →
  concat out = done → Forall (chunk_fits c) out →
  let r := split_loop c (done ++ cur ++ rest) rest (length (done ++ cur)) (length done) (zlen (hec_body cur)) out in
  concat r = done ++ cur ++ rest ∧ Forall (chunk_fits c) r.
Proof.
  cbv zeta. revert done cur out. induction rest as [|e rest IH]; intros done cur out Hcur Hout Hfit; cbn [split_loop].
  - rewrite app_nil_r, drop_app_length. destruct (Nat.ltb_spec (length done) (length (done ++ cur))) as [H|H]; rewrite length_app in H.
    + rewrite concat_app, Hout. cbn. rewrite app_nil_r. split; [done|]. apply Forall_app. split; [done|]. constructor; [|done].
      destruct cur as [|x [|y cur]]; [cbn in H; lia|by split; [|right]|]. split; [done|]. left. destruct Hcur as [?|Hl]; [done|cbn in Hl; lia].
    + destruct cur; [|cbn in H; lia]. rewrite !app_nil_r. done.
  - assert (Hsl : subslice (length done) (length (done ++ cur)) (done ++ cur ++ e :: rest) = cur).
    { unfold subslice. rewrite drop_app_length, length_app. replace (_ - _)%nat with (length cur) by lia. apply take_app_length. }
    destruct ((hc_max_body_bytes c <? zlen (hec_body cur) + (zlen e + 1)) && (length done <? length (done ++ cur))%nat) eqn:E.
    + apply andb_prop in E as [_ E%Nat.ltb_lt]. rewrite length_app in E. rewrite Hsl.
      assert (Hc : chunk_fits c cur) by (destruct cur as [|x [|y cur]]; [cbn in E; lia|by split; [|right]|split; [done|]; destruct Hcur as [?|Hl]; [by left|cbn in Hl; lia]]).
      specialize (IH (done ++ cur) [e] (out ++ [cur])). rewrite hec_body_one in IH.
      replace ((done ++ cur) ++ [e] ++ rest) with (done ++ cur ++ e :: rest) in IH by by rewrite <-app_assoc.
      replace (length ((done ++ cur) ++ [e])) with (S (length (done ++ cur))) in IH by (rewrite (length_app _ [e]); cbn; lia).
      apply IH; [by right|rewrite concat_app, Hout; cbn; by rewrite app_nil_r|apply Forall_app; split; [done|by apply Forall_singleton]].
    + specialize (IH done (cur ++ [e]) out). rewrite hec_body_app, zlen_app, hec_body_one in IH.
      replace (done ++ (cur ++ [e]) ++ rest) with (done ++ cur ++ e :: rest) in IH by by rewrite <-app_assoc.
      replace (length (done ++ cur ++ [e])) with (S (length (done ++ cur))) in IH by (rewrite !length_app; cbn; lia).
      apply IH; [|done|done]. apply andb_false_iff in E as [E|E].
      * left. apply Z.ltb_ge in E. lia.
      * right. apply Nat.ltb_ge in E. rewrite length_app in *. cbn. lia.
Qed.

Lemma split_by_bytes_spec c events : concat (split_by_bytes c events) = events ∧ Forall (chunk_fits c) (split_by_bytes c events).
Proof. apply (split_loop_spec c [] [] events []); [right; cbn; lia|done|done]. Qed.

(** ** What the store holds *)

(** The body of a request carries events, each on a line. *)
Definition one_line (e : text) : Prop := x0a ∉ e.
Definition carries `{F : HecFormats} (q : HecRequest) (es : list text) : Prop :=
  if hq_gzip q then gz_encode (hec_body es) = Some (hq_body q) else hq_body q = hec_body es.

Section Delivery.
Context {S : Type} `{W : HecWorld S} `{F : HecFormats}.

(** What is documented of the server: of the events of a request it commits some, in
    their order and only well-formed ones; with a success all of them; up to the
    first malformed one where it names one; none of a body that is too large; and
    the first request on a channel is acknowledged only if all were committed. *)
Class HecLaws : Type := {
  hec_committed : S → list text;
  hec_valid : text → bool;
  hec_channels : S → gset string;
  uuid_new s : hec_uuid s ∉ hec_channels s;
  request_commits s q es : carries q es → es ≠ [] → Forall one_line es →
    ∃ l, hec_committed (hec_request s q).2 = hec_committed s ++ l ∧ l `sublist_of` es ∧ Forall (λ e, hec_valid e = true) l ∧
      match (hec_request s q).1 with
      | NoAnswer => True
      | Answer status body =>
          (is_success status = true → l = es) ∧ (status = 413 → l = []) ∧
          (status = 400 → ∀ k, hec_response body = Some (Some k) →
             0 <= k ∧ l = take (Z.to_nat k) es ∧ ∃ e, es !! Z.to_nat k = Some e ∧ hec_valid e = false)
      end ∧
      ∀ ch, hq_channel q = Some ch → ch ∉ hec_channels s →
        acked (hec_ack (hec_request s q).2 (hq_authorization q) ch).1 = Some true → l = es;
  ack_keeps s auth ch : hec_committed (hec_ack s auth ch).2 = hec_committed s;
}.
Context `{L : HecLaws}.

(** The events the server can be given: within the limit and well formed. *)
Definition wanted (c : HecClient) (events : list text) : list text :=
  filter (λ e, zlen e <= hc_max_event_bytes c ∧ hec_valid e = true) events.

(** A request whose answer does not settle it committed all or nothing, and the
    question for its acknowledgement is answered, and truly. *)
Definition acks_decide (c : HecClient) : Prop :=
  hc_use_ack c = true ∧
  ∀ s es, es ≠ [] → Forall one_line es → let q := request_of c es s in let '(a, s') := hec_request s q in
    match a with Answer status _ => is_server_error status = true | NoAnswer => True end →
    ∃ b : bool, acked (hec_ack s' (authorization c) (hec_uuid s)).1 = Some b ∧ hec_committed s' = hec_committed s ++ (if b then es else []).

(** An error has a cause among the answers. *)
Definition blames (c : HecClient) (e : SendError) : Prop :=
  ∃ s batch, match e with
    | GivingUp n => (post c batch s).1 = Transient ∧ n = hc_retries c + 1
    | Unsplittable => (post c batch s).1 = TooLarge ∧ length batch = 1%nat
    | Refused => (post c batch s).1 = Permanent
    end.

Abbreviation valid := (λ e, hec_valid e = true).

(** Sending [es] from [s] ended in [s'] with [r]. *)
Definition delivered (c : HecClient) (es : list text) (s : S) (r : option SendError) (s' : S) : Prop :=
  ∃ sent, hec_committed s' = hec_committed s ++ sent ∧ (∀ e, e ∈ sent → e ∈ filter valid es) ∧
    match r with None => filter valid es ⊆+ sent | Some e => blames c e end ∧
    (acks_decide c → sent `sublist_of` filter valid es ∧ (r = None → sent = filter valid es)).

Lemma delivered_nil c s : delivered c [] s None s.
Proof. exists []. rewrite app_nil_r. done. Qed.

Lemma delivered_app c es1 es2 s s1 r s2 : delivered c es1 s None s1 → delivered c es2 s1 r s2 → delivered c (es1 ++ es2) s r s2.
Proof.
  intros (l1 & E1 & I1 & A1 & D1) (l2 & E2 & I2 & A2 & D2). exists (l1 ++ l2). rewrite E2, E1, <-app_assoc, filter_app. split; [done|]. split.
  - intros e. rewrite !elem_of_app. intros [?|?]; [left; by apply I1|right; by apply I2].
  - split; [destruct r; [done|by apply submseteq_app]|]. intros H. destruct (D1 H) as [_ K1], (D2 H) as [? K2]. rewrite (K1 eq_refl).
    split; [by apply sublist_app|]. intros Hr. by rewrite (K2 Hr).
Qed.

Lemma delivered_fails c es1 es2 s err s1 : delivered c es1 s (Some err) s1 → delivered c (es1 ++ es2) s (Some err) s1.
Proof.
  intros (l & E & I & A & D). exists l. rewrite filter_app. split; [done|]. split; [intros e ?; apply elem_of_app; left; by apply I|].
  split; [done|]. intros H. split; [|done]. destruct (D H) as [K _]. by apply sublist_inserts_r.
Qed.

(** A try that may have committed something before the one that counts. *)
Lemma delivered_again c es s l s1 r s2 : hec_committed s1 = hec_committed s ++ l → (∀ e, e ∈ l → e ∈ filter valid es) →
  (acks_decide c → l = []) → delivered c es s1 r s2 → delivered c es s r s2.
Proof.
  intros E I D (l2 & E2 & I2 & A2 & D2). exists (l ++ l2). rewrite E2, E, <-app_assoc. split; [done|]. split.
  - intros e. rewrite elem_of_app. intros [?|?]; [by apply I|by apply I2].
  - split; [destruct r; [done|]; by apply submseteq_inserts_l|]. intros H. rewrite (D H). by apply D2.
Qed.

Lemma filter_valid_all es : Forall valid es → filter valid es = es.
Proof. induction 1 as [|e es H _ IH]; [done|]. rewrite filter_cons_True by done. by rewrite IH. Qed.

Lemma sublist_valid l es : l `sublist_of` es → Forall valid l → l `sublist_of` filter valid es.
Proof.
  induction 1 as [|e l es H IH|e l es H IH]; intros Hv; [done| |].
  - apply Forall_cons in Hv as [He Hv]. rewrite filter_cons_True by done. by apply sublist_skip, IH.
  - destruct (decide (valid e)); [rewrite filter_cons_True by done; by apply sublist_cons, IH|rewrite filter_cons_False by done; by apply IH].
Qed.

(** ** One request *)

Lemma request_of_carries c es s : carries (request_of c es s) es.
Proof. unfold request_of, carries. destruct (if hc_gzip c then _ else None) eqn:E; cbn; [|done]. by destruct (hc_gzip c). Qed.

Lemma request_of_channel c es s : es ≠ [] → hq_authorization (request_of c es s) = authorization c ∧
  hq_channel (request_of c es s) = if hc_use_ack c then Some (hec_uuid s) else None.
Proof. intros H. unfold request_of. rewrite bool_decide_false by done. destruct (hc_use_ack c), (if hc_gzip c then _ else None); done. Qed.

(** What a request committed, by what is made of its answer. *)
Definition post_committed (c : HecClient) (es : list text) (out : HecOutcome) (l : list text) : Prop :=
  l `sublist_of` es ∧ Forall valid l ∧
  match out with
  | HecOk => l = es
  | PartialUpTo k => 0 <= k ∧ l = take (Z.to_nat k) es ∧ ∃ e, es !! Z.to_nat k = Some e ∧ hec_valid e = false
  | TooLarge => l = []
  | Transient => acks_decide c → l = []
  | Permanent => True
  end.

Lemma post_spec c es s : es ≠ [] → Forall one_line es →
  ∃ l, hec_committed (post c es s).2 = hec_committed s ++ l ∧ post_committed c es (post c es s).1 l.
Proof.
  intros Hne Hol. destruct (request_commits s (request_of c es s) es (request_of_carries c es s) Hne Hol) as (l & El & Hs & Hv & Ha & Hack).
  exists l. unfold post. destruct (request_of_channel c es s Hne) as [Hau Hch]. rewrite Hau, Hch in Hack.
  assert (Hdec : acks_decide c → match (hec_request s (request_of c es s)).1 with Answer status _ => is_server_error status = true | NoAnswer => True end →
    acked (hec_ack (hec_request s (request_of c es s)).2 (authorization c) (hec_uuid s)).1 ≠ Some true → l = []).
  { intros [_ Hd] Hu Hn. specialize (Hd s es Hne Hol). cbv zeta in Hd. destruct (hec_request s (request_of c es s)) as [a s1]. cbn [fst snd] in *.
    destruct (Hd Hu) as (b & Eb & Ec). destruct b; [done|]. rewrite El in Ec. by apply app_inv_head in Ec. }
  assert (Hres : match (hec_request s (request_of c es s)).1 with Answer status _ => is_server_error status = true | NoAnswer => True end →
    hec_committed (resolve_transient c (hq_channel (request_of c es s)) (hec_request s (request_of c es s)).2).2 = hec_committed s ++ l ∧
    post_committed c es (resolve_transient c (hq_channel (request_of c es s)) (hec_request s (request_of c es s)).2).1 l).
  { intros Hu. rewrite Hch. unfold resolve_transient, post_committed. destruct (hc_use_ack c) eqn:Eu.
    - unfold ack_committed. specialize (Hack (hec_uuid s) eq_refl (uuid_new s)). pose proof (ack_keeps (hec_request s (request_of c es s)).2 (authorization c) (hec_uuid s)) as Hk.
      destruct (hec_ack _ _ _) as [a s2]. cbn [fst snd] in *.
      destruct (acked a) as [[|]|]; cbn [fst snd]; rewrite Hk, El; (split; [done|]; split; [done|]; split; [done|]); [by apply Hack|..];
        intros D; by apply (Hdec D Hu).
    - cbn [fst snd]. rewrite El. split; [done|]. split; [done|]. split; [done|]. intros [D _]. congruence. }
  destruct (hec_request s (request_of c es s)) as [[|status body] s1]; cbn [fst snd] in *; [by apply Hres|].
  destruct Ha as (H2 & H413 & H400). destruct (is_success status) eqn:E2; [split; [done|]; by split; [|split; [|apply H2]]|].
  destruct (Z.eqb_spec status 413) as [->|_]; [split; [done|]; by split; [|split; [|apply H413]]|].
  destruct (is_server_error status); [by apply Hres|].
  destruct (Z.eqb_spec status 400) as [->|_]; [|split; [done|]; by split].
  destruct (hec_response body) as [[k|]|] eqn:Ek; [|split; [done|]; by split..]. split; [done|]. split; [done|]. split; [done|]. by apply H400.
Qed.

Lemma post_elem c es out l e : post_committed c es out l → e ∈ l → e ∈ filter valid es.
Proof. intros (Hs & Hv & _) He. eapply sublist_subseteq; [apply sublist_valid; [exact Hs|exact Hv]|exact He]. Qed.

Lemma post_delivers c es l s s1 : post_committed c es HecOk l → hec_committed s1 = hec_committed s ++ l → delivered c es s None s1.
Proof.
  intros (_ & Hv & ->) E. exists es. rewrite (filter_valid_all es Hv). split; [done|]. split; [done|]. split; [done|]. intros _. by split.
Qed.

Lemma post_fails c es out l s s1 err : post_committed c es out l → hec_committed s1 = hec_committed s ++ l → blames c err → delivered c es s (Some err) s1.
Proof.
  intros H E Hb. exists l. split; [done|]. split; [intros e; by eapply post_elem|]. split; [done|]. intros _.
  destruct H as (? & ? & _). split; [by apply sublist_valid|done].
Qed.

Lemma post_skips c es k l s s1 : post_committed c es (PartialUpTo k) l → hec_committed s1 = hec_committed s ++ l →
  0 <= k < zlen es ∧ delivered c (take (Z.to_nat k + 1) es) s None s1.
Proof.
  intros (_ & Hv & Hk & -> & e & He & Hbad) E. pose proof (lookup_lt_Some _ _ _ He). split; [unfold zlen; lia|].
  replace (Z.to_nat k + 1)%nat with (Datatypes.S (Z.to_nat k)) by lia. rewrite (take_S_r _ _ _ He). apply (delivered_app c _ [e] s s1 None s1).
  - apply (post_delivers c _ (take (Z.to_nat k) es)); [by split_and!|done].
  - exists []. rewrite app_nil_r, filter_cons_False by congruence. done.
Qed.

(** ** A chunk *)

(** What a wait never overflows with: fewer retries than a counter holds, and a
    backoff that a [Duration] can be multiplied with. *)
Definition config_ok (c : HecClient) : Prop :=
  0 <= hc_retries c < 2 ^ 32 - 1 ∧ 0 <= hc_backoff_ms c ∧ hc_backoff_ms c * hc_retries c < 2 ^ 64 * 1000.

Lemma send_loop_spec c : config_ok c → ∀ fuel chunk start attempt s,
  0 <= start <= zlen chunk → 0 <= attempt <= hc_retries c → Forall one_line chunk → zlen chunk < 2 ^ 63 →
  (zlen chunk - start) * (hc_retries c + 2) + (hc_retries c + 1 - attempt) < Z.of_nat fuel →
  ∃ r s', send_loop fuel c chunk start attempt s = Ret (r, s') ∧ delivered c (drop (Z.to_nat start) chunk) s r s'.
Proof.
  intros (Hr & Hb & Hm). induction fuel as [|fuel IH]; intros chunk start attempt s Hst Hat Hol Hlen Hf; [nia|]. cbn [send_loop].
  set (es := drop (Z.to_nat start) chunk).
  assert (zlen es = zlen chunk - start) as Hes by (unfold es, zlen in *; rewrite length_drop; lia).
  destruct (Z.leb_spec (zlen chunk) start) as [Hle|Hlt].
  { exists None, s. split; [done|]. destruct es; [apply delivered_nil|]. rewrite zlen_cons_eq in Hes. pose proof (zlen_nonneg es). lia. }
  assert (es ≠ []) as Hne by (intros E; rewrite E in Hes; unfold zlen in Hes at 1; cbn in Hes; lia).
  assert (Forall one_line es) as Hol' by by apply Forall_drop.
  destruct (post_spec c es s Hne Hol') as (l & El & Hp). pose proof (λ e, post_elem c es _ l e Hp) as Hin.
  destruct (post c es s) as [out s1] eqn:Epost. cbn [fst snd] in *. destruct out as [|k| | |].
  - exists None, s1. split; [done|]. by eapply post_delivers.
  - destruct (post_skips c es k l s s1 Hp El) as [Hk Hd]. rewrite wrap_small by lia.
    destruct (IH chunk (start + (k + 1)) attempt s1) as (r & s' & -> & Hd'); [lia|done|done|done|nia|]. exists r, s'. split; [done|].
    rewrite <-(take_drop (Z.to_nat k + 1) es). eapply delivered_app; [exact Hd|]. unfold es. rewrite drop_drop.
    by replace (Z.to_nat start + (Z.to_nat k + 1))%nat with (Z.to_nat (start + (k + 1))) by lia.
  - set (half := Z.max _ 1). destruct (Z.eqb_spec half (zlen chunk - start)) as [Eh|Eh].
    + eexists _, _. split; [done|]. eapply post_fails; [exact Hp|exact El|]. exists s, es. rewrite Epost. split; [done|]. unfold zlen in *.
      pose proof (Z.div_mod (Z.of_nat (length chunk) - start + 1) 2). pose proof (Z.mod_pos_bound (Z.of_nat (length chunk) - start + 1) 2). lia.
    + assert (1 <= half < zlen chunk - start) as Hh.
      { pose proof (Z.div_mod (zlen chunk - start + 1) 2). pose proof (Z.mod_pos_bound (zlen chunk - start + 1) 2). lia. }
      set (mid := Z.to_nat (start + half)). destruct Hp as (_ & _ & ->).
      assert (zlen (subslice (Z.to_nat start) mid chunk) = half) as Hl1 by (unfold subslice, zlen in *; rewrite length_take, length_drop; lia).
      assert (zlen (drop mid chunk) = zlen chunk - start - half) as Hl2 by (unfold zlen in *; rewrite length_drop; lia).
      destruct (IH (subslice (Z.to_nat start) mid chunk) 0 0 s1) as (r1 & s2 & -> & Hd1); [lia|lia|by apply Forall_take, Forall_drop|lia|rewrite Hl1; nia|].
      apply (delivered_again c _ s []) in Hd1; [|done|by intros e ?%not_elem_of_nil|done]. cbn [res_bind].
      unfold es. rewrite <-(subslice_drop (Z.to_nat start) mid chunk) by lia. destruct r1 as [err|].
      * exists (Some err), s2. split; [done|]. by apply delivered_fails.
      * destruct (IH (drop mid chunk) 0 0 s2) as (r2 & s3 & -> & Hd2); [lia|lia|by apply Forall_drop|lia|rewrite Hl2; nia|].
        exists r2, s3. split; [done|]. by eapply delivered_app.
  - rewrite wrap_small by lia. destruct (Z.ltb_spec (hc_retries c) (attempt + 1)).
    + eexists _, _. split; [done|]. eapply post_fails; [exact Hp|exact El|]. exists s, es. rewrite Epost. split; [done|]. lia.
    + unfold backoff_sleep. rewrite (proj2 (Z.ltb_lt _ _)) by nia. cbn [res_bind].
      destruct (IH chunk start (attempt + 1) s1) as (r & s' & -> & Hd); [done|lia|done|done|lia|]. exists r, s'. split; [done|].
      eapply delivered_again; [exact El|exact Hin|apply Hp|exact Hd].
  - eexists _, _. split; [done|]. eapply post_fails; [exact Hp|exact El|]. exists s, es. by rewrite Epost.
Qed.

Lemma send_chunk_spec c chunk s : config_ok c → Forall one_line chunk → zlen chunk < 2 ^ 63 →
  ∃ r s', send_chunk c chunk s = Ret (r, s') ∧ delivered c chunk s r s'.
Proof.
  intros Hc Hol Hl. unfold send_chunk. apply (send_loop_spec c Hc); [split; [done|apply zlen_nonneg]|destruct Hc; lia|done|done|].
  unfold chunk_fuel, zlen in *. destruct Hc. nia.
Qed.

(** ** A batch *)

Lemma send_chunks_spec c chunks : config_ok c → Forall one_line (concat chunks) → zlen (concat chunks) < 2 ^ 63 → ∀ s,
  ∃ r s', send_chunks c chunks s = Ret (r, s') ∧ delivered c (concat chunks) s r s'.
Proof.
  intros Hc. induction chunks as [|chunk chunks IH]; intros Hol Hl s; cbn [send_chunks concat] in *.
  { exists None, s. split; [done|apply delivered_nil]. }
  rewrite zlen_app in Hl. apply Forall_app in Hol as [Ho1 Ho2]. pose proof (zlen_nonneg chunk). pose proof (zlen_nonneg (concat chunks)).
  destruct (send_chunk_spec c chunk s Hc Ho1) as (r1 & s1 & -> & H1); [lia|]. cbn [res_bind]. destruct r1 as [e|].
  - exists (Some e), s1. split; [done|]. by apply delivered_fails.
  - destruct (IH Ho2 ltac:(lia) s1) as (r & s' & -> & H2). exists r, s'. split; [done|]. by eapply delivered_app.
Qed.

Lemma wanted_enforced c events : wanted c events = filter valid (enforce_event_size c events).
Proof.
  unfold wanted, enforce_event_size. induction events as [|e events IH]; [done|]. cbn [List.filter].
  destruct (Z.ltb_spec (hc_max_event_bytes c) (zlen e)); cbn [negb].
  - rewrite filter_cons_False by lia. done.
  - destruct (decide (valid e)).
    + rewrite !filter_cons_True by done. by rewrite IH.
    + rewrite !filter_cons_False by (try tauto; done). done.
Qed.

End Delivery.

(** ** A server *)

Section Sample.
(** What happens to the requests to come, and then nothing more: the answer is
    lost, with or without the batch, or the body is too large. *)
Inductive Fate : Type := Lost | Down | TooBig.
Record Aglake : Type := mkAglake { ag_log : list text; ag_acked : list string; ag_fates : list Fate }.

(** A malformed event begins with an exclamation mark. *)
Definition sample_valid (e : text) : bool := match e with x21 :: _ => false | _ => true end.
Fixpoint lines (cur l : list byte) : list text :=
  match l with
  | [] => []
  | b :: l' => if bool_decide (b = x0a) then cur :: lines [] l' else lines (cur ++ [b]) l'
  end.

Lemma lines_one_line e cur l : one_line e → lines cur (e ++ x0a :: l) = (cur ++ e) :: lines [] l.
Proof.
  revert cur. induction e as [|b e IH]; intros cur H; cbn [lines app].
  - by rewrite bool_decide_true, app_nil_r by done.
  - unfold one_line in *. apply not_elem_of_cons in H as [Hb He]. rewrite bool_decide_false by congruence. rewrite IH by done. by rewrite <-app_assoc.
Qed.

Lemma lines_body es : Forall one_line es → lines [] (hec_body es) = es.
Proof.
  induction 1 as [|e es He _ IH]; [done|]. change (hec_body (e :: es)) with ((e ++ [x0a]) ++ hec_body es).
  rewrite <-app_assoc. cbn [app]. rewrite lines_one_line by done. by rewrite IH.
Qed.

#[local] Instance sample_formats : HecFormats := {
  hec_response b := Some (Some (zlen b));
  ack_response b := Some {["0"%string := bool_decide (b = B "true")]};
  gz_encode b := Some (x1f :: b);
}.

(** The well-formed events before the first that is not. *)
Fixpoint good_prefix (es : list text) : list text :=
  match es with e :: es' => if sample_valid e then e :: good_prefix es' else [] | [] => [] end.

Definition new_channel (used : list string) : string := foldr String.append "c"%string used.

Definition ingest (s : Aglake) (es : list text) (channel : option string) (fates : list Fate) : HttpAnswer * Aglake :=
  let done := good_prefix es in
  if (length done =? length es)%nat
  then (Answer 200 [], mkAglake (ag_log s ++ done) (option_list channel ++ ag_acked s) fates)
  else (Answer 400 (replicate (length done) x6b), mkAglake (ag_log s ++ done) (ag_acked s) fates).

#[local] Instance sample_world : HecWorld Aglake := {
  hec_uuid s := new_channel (ag_acked s);
  hec_request s q :=
    let es := lines [] (if hq_gzip q then drop 1 (hq_body q) else hq_body q) in
    match ag_fates s with
    | [] => ingest s es (hq_channel q) []
    | TooBig :: fates => (Answer 413 [], mkAglake (ag_log s) (ag_acked s) fates)
    | Down :: fates => (Answer 503 [], mkAglake (ag_log s) (ag_acked s) fates)
    | Lost :: fates =>
        if (length (good_prefix es) =? length es)%nat then (NoAnswer, (ingest s es (hq_channel q) fates).2)
        else (NoAnswer, mkAglake (ag_log s) (ag_acked s) fates)
    end;
  hec_ack s _ ch := (Answer 200 (if bool_decide (ch ∈ ag_acked s) then B "true" else B "false"), s);
}.

Lemma good_prefix_spec es : good_prefix es `sublist_of` es ∧ Forall (λ e, sample_valid e = true) (good_prefix es) ∧
  good_prefix es = take (length (good_prefix es)) es ∧
  (length (good_prefix es) = length es → good_prefix es = es) ∧
  (length (good_prefix es) ≠ length es → ∃ e, es !! length (good_prefix es) = Some e ∧ sample_valid e = false).
Proof.
  induction es as [|e es (I1 & I2 & I3 & I4 & I5)]; [done|]. cbn [good_prefix]. destruct (sample_valid e) eqn:Ev; cbn [length take].
  - split; [by apply sublist_skip|]. split; [by constructor|]. split; [by rewrite <-I3|]. split; [intros H; f_equal; apply I4; lia|].
    intros H. destruct I5 as (e' & ? & ?); [lia|]. by exists e'.
  - split; [apply sublist_nil_l|]. split; [done|]. split; [done|]. split; [done|]. intros _. by exists e.
Qed.

Lemma string_length_app (a b : string) : String.length (a ++ b) = (String.length a + String.length b)%nat.
Proof. induction a as [|x a IH]; [done|]. exact (f_equal Datatypes.S IH). Qed.

Lemma new_channel_not_in (l : list string) : new_channel l ∉ l.
Proof.
  assert (∀ x, x ∈ l → (String.length x < String.length (new_channel l))%nat) as H; [|by intros ?%H%Nat.lt_irrefl].
  induction l as [|y l IH]; [by intros x ?%not_elem_of_nil|]. cbn [new_channel foldr]. fold (new_channel l). rewrite string_length_app.
  intros x [->|Hx]%elem_of_cons; [|apply IH in Hx; lia]. destruct l; [cbn; lia|]. pose proof (IH s ltac:(left)). lia.
Qed.

(** What the acknowledgement says after a request. *)
Lemma sample_acked s auth ch : acked (hec_ack s auth ch).1 = Some (bool_decide (ch ∈ ag_acked s)).
Proof. cbn [hec_ack sample_world fst]. destruct (bool_decide (ch ∈ ag_acked s)); reflexivity. Qed.

Lemma sample_request_commits (s : Aglake) (q : HecRequest) (es : list text) : carries q es → Forall one_line es →
  ∃ l, ag_log (hec_request s q).2 = ag_log s ++ l ∧ l `sublist_of` es ∧ Forall (λ e, sample_valid e = true) l ∧
    match (hec_request s q).1 with
    | NoAnswer => True
    | Answer status body =>
        (is_success status = true → l = es) ∧ (status = 413 → l = []) ∧
        (status = 400 → ∀ k, hec_response body = Some (Some k) →
           0 <= k ∧ l = take (Z.to_nat k) es ∧ ∃ e, es !! Z.to_nat k = Some e ∧ sample_valid e = false)
    end ∧
    ∀ ch, hq_channel q = Some ch → ch ∉ (list_to_set (ag_acked s) : gset string) →
      acked (hec_ack (hec_request s q).2 (hq_authorization q) ch).1 = Some true → l = es.
Proof.
  intros Hq Hol.
  assert (lines [] (if hq_gzip q then drop 1 (hq_body q) else hq_body q) = es) as Hes.
  { unfold carries in Hq. destruct (hq_gzip q); [|rewrite Hq; by apply lines_body]. cbn in Hq. injection Hq as <-. cbn [drop]. by apply lines_body. }
  setoid_rewrite sample_acked. cbn [hec_request sample_world]. cbv zeta. rewrite Hes. destruct (good_prefix_spec es) as (I1 & I2 & I3 & I4 & I5).
  assert (∀ l s1, (ag_acked s1 = ag_acked s ∨ l = es) →
    ∀ ch, hq_channel q = Some ch → ch ∉ (list_to_set (ag_acked s) : gset string) → Some (bool_decide (ch ∈ ag_acked s1)) = Some true → l = es) as Hack.
  { intros l s1 [E|?] ch _ Hn Hb; [|done]. injection Hb as Hb%bool_decide_eq_true. rewrite E in Hb. by rewrite elem_of_list_to_set in Hn. }
  destruct (ag_fates s) as [|[| |] fates]; cbn [fst snd ag_log].
  + exists (good_prefix es). unfold ingest. destruct (Nat.eqb_spec (length (good_prefix es)) (length es)) as [E|E]; cbn [fst snd ag_log];
      (split; [done|]; split; [done|]; split; [done|]); (split; [|apply Hack; cbn; tauto]).
    * split; [intros _; by apply I4|]. split; [done|]. done.
    * split; [done|]. split; [done|]. intros _ k [= <-]. unfold zlen. rewrite length_replicate, Nat2Z.id. split; [lia|]. split; [done|]. by apply I5.
  + destruct (Nat.eqb_spec (length (good_prefix es)) (length es)) as [E|E]; cbn [fst snd].
    * exists (good_prefix es). unfold ingest. rewrite (proj2 (Nat.eqb_eq _ _) E). cbn [snd ag_log]. split_and!; [done..|]. apply Hack. right. by apply I4.
    * exists []. cbn [ag_log]. rewrite app_nil_r. split_and!; [done|apply sublist_nil_l|done..|]. apply Hack. by left.
  + exists []. rewrite app_nil_r. split_and!; [done|apply sublist_nil_l|done|done|done|done|]. apply Hack. by left.
  + exists []. rewrite app_nil_r. split_and!; [done|apply sublist_nil_l|done|done|done|done|]. apply Hack. by left.
Qed.

#[local] Instance sample_laws : HecLaws := {|
  hec_committed := ag_log;
  hec_valid := sample_valid;
  hec_channels s := list_to_set (ag_acked s);
  uuid_new s H := new_channel_not_in (ag_acked s) (proj1 (elem_of_list_to_set _ _) H);
  request_commits s q es Hq _ Hol := sample_request_commits s q es Hq Hol;
  ack_keeps s _ _ := eq_refl;
|}.

(** A client for it, with acknowledgements or without. *)
Definition sample_client (acks : bool) : HecClient := mkHecClient (B "t") 14 9 true acks 3 100.

Lemma sample_acks_decide : acks_decide (sample_client true).
Proof.
  split; [done|]. intros s es Hne Hol. cbv zeta. unfold request_of. rewrite bool_decide_false by done. cbn [hc_gzip hc_use_ack sample_client gz_encode sample_formats andb negb].
  cbn [hec_request sample_world hq_gzip hq_body drop hq_channel]. rewrite drop_0, lines_body by done. destruct (good_prefix_spec es) as (I1 & I2 & I3 & I4 & I5).
  destruct (ag_fates s) as [|[| |] fates].
  - unfold ingest. by destruct (length (good_prefix es) =? length es)%nat.
  - destruct (Nat.eqb_spec (length (good_prefix es)) (length es)) as [E|E]; intros _; [exists true|exists false]; rewrite sample_acked.
    + unfold ingest. rewrite (proj2 (Nat.eqb_eq _ _) E). cbn [snd hec_committed sample_laws ag_log ag_acked option_list app]. rewrite (I4 E), bool_decide_true by by left. done.
    + cbn [hec_committed sample_laws ag_log ag_acked]. rewrite bool_decide_false by apply new_channel_not_in. by rewrite app_nil_r.
  - intros _. exists false. rewrite sample_acked. cbn [hec_committed sample_laws ag_log ag_acked]. rewrite bool_decide_false by apply new_channel_not_in. by rewrite app_nil_r.
  - done.
Qed.

(** One of the events is malformed and one is too long; of the first requests one
    does not arrive, the answer to one is lost and one is too large. *)
Definition sample_events : list text := [B "one"; B "!two"; B "three"; B "much too long"; B "four"; B "five"; B "six"].
Definition empty_store : Aglake := mkAglake [] [] [Down; Lost; TooBig; Lost].

Example sample_send :
  ∃ s, send (sample_client true) sample_events empty_store = Ret (None, s) ∧ ag_log s = [B "one"; B "three"; B "four"; B "five"; B "six"].
Proof. eexists. split; vm_compute; reflexivity. Qed.

(** Without acknowledgements a request whose answer is lost is sent again. *)
Example lost_answer_duplicates :
  ∃ s, send (sample_client false) [B "one"; B "three"] (mkAglake [] [] [Lost]) = Ret (None, s) ∧
    ag_log s = [B "one"; B "three"; B "one"; B "three"].
Proof. eexists. split; vm_compute; reflexivity. Qed.

(** A span's event that is malformed, or too long, is passed over; the body's event
    that follows it is stored all the same. *)
Example body_without_its_span :
  (∃ s, send (sample_client true) [B "!span"; B "body"] (mkAglake [] [] []) = Ret (None, s) ∧ ag_log s = [B "body"]) ∧
  ∃ s, send (sample_client true) [B "a longer span"; B "body"] (mkAglake [] [] []) = Ret (None, s) ∧ ag_log s = [B "body"].
Proof. split; eexists; (split; vm_compute; reflexivity). Qed.

End Sample.
